(* ===== verification/_CoqProject ===== *)
-Q . S2P
Prelude.v
RbTree.v
Plist.v
LoadWeight.v
Eevdf.v
EevdfOps.v
Cpudl.v
Cbs.v
Cpupri.v
Deadline.v
DeadlineBw.v
DeadlineInv.v
DeadlineAttr.v
DeadlineEvents.v
DeadlineEdf.v
DeadlineAdmit.v
Rt.v
RtQueue.v
RtInv.v
RtOps.v
RtMove.v
RtHotplug.v
RtHandlers.v
RtEvents.v
RtRuntime.v
RtRounds.v
Pelt.v
Clock.v
Cputime.v
RqClock.v
Loadavg.v
Completion.v
Waitq.v
FreqTable.v
Uclamp.v
UclampConf.v
Schedutil.v
