(* ===== verification/Prelude.v ===== *)
(** * The Linux 6.6 scheduler and its frequency governor: a model and its correctness

    The repository is a study copy of the Linux 6.6 process scheduler with the cpufreq
    code around it ([src/linux-6.6-scheduler-study]) and the surrounding kernel
    ([src/linux-6.6]).  On each processor the core ([kernel/sched/core.c]) keeps a run
    queue with its clocks; the fair class ([fair.c]) orders entities by virtual deadline
    in an augmented red-black tree ([lib/rbtree.c]) with weights from nice levels and
    groups; PELT ([pelt.c]) averages what entities use; utilization clamps ([core.c])
    bound what they ask for; the deadline class ([deadline.c]) gives tasks an admitted
    share of the processor by the constant bandwidth server and runs the earliest
    deadline first; the real-time class ([rt.c]) runs the best fixed priority, first come
    first served, within a limit of runtime; both publish per-processor indices
    ([cpudeadline.c], [cpupri.c]) that say where a task can be pushed; schedutil
    ([cpufreq_schedutil.c]) turns utilization into a frequency of the driver's table
    ([freq_table.c]).  Below them [clock.c] makes a monotonic clock out of an unreliable
    counter, and [cputime.c] accounts the time of processors and tasks.  [loadavg.c] keeps
    the global load average; [wait.c], and [completion.c] with [swait.c], are how kernel code
    waits for events.

    The model is a shallow embedding.  A C function is a definition of the same name on
    [Z] values with the wrap-around of the C type written out ([u64], [s64], [u32],
    [s32]); a struct is a record; a function that changes state takes and returns it; a
    null dereference, an index out of bounds or a division by zero has the value [None];
    sequences of calls, and interleavings where the code handles them, are step
    relations with their reachable states.  The configuration is 64-bit with CONFIG_SMP,
    CONFIG_NO_HZ_COMMON, CONFIG_IRQ_TIME_ACCOUNTING, CONFIG_PARAVIRT_TIME_ACCOUNTING,
    CONFIG_VIRT_CPU_ACCOUNTING_GEN, CONFIG_HAVE_UNSTABLE_SCHED_CLOCK,
    CONFIG_UCLAMP_TASK(_GROUP) and CONFIG_FAIR_GROUP_SCHED.

    ** Files

    - [Prelude] (this file): machine integers, arrays, CPU masks, sums, the tactics
      [zcase] and [ztriv] and the [cint] hint databases.
    - [RbTree]: [lib/rbtree.c], [rbtree_augmented.h].  Trees with the parent pointers of
      a node as a list of frames.  Every sequence of insertions and removals refines a
      sorted list, keeps balance, the augmented data and the cached leftmost node, and
      undoes itself.  The class [AugmentLaws] is the interface its clients implement.
    - [Plist]: [lib/plist.c], the sorted lists of pushable real-time tasks.  A plist
      refines a queue sorted by priority, first come first served among equals.
    - [LoadWeight]: the weight tables, [calc_delta_fair] and the cgroup weight knobs.
      The fixed-point scaling is accurate and monotone; what is written to the knobs is
      read back.
    - [Eevdf]: virtual time, eligibility and [pick_eevdf] of [fair.c], over [RbTree].
      The search returns the eligible entity with the earliest deadline.
    - [EevdfOps]: enqueue, dequeue, placement, reweighting, switching, tick, yield, fork
      and wakeup preemption on one [cfs_rq].  From the initial queue every operation
      keeps the sums, counters and tree exact and cannot fail, placement preserves lag,
      and the search is logarithmic.
    - [Cpudl]: the deadline heap of [cpudeadline.c].  Set and clear refine a finite map
      from processors to deadlines and keep the heap; find answers exactly.
    - [Cpupri]: the priority index of [cpupri.c], with the memory ordering of its update
      as an interleaving: a processor is never hidden from a concurrent search.
    - [Cbs]: the server of one deadline task: parameters and their checks, budget,
      deadline, replenishment and the wakeup rules.  A task is never charged for more than
      its share, at full speed the charge is the time it executes, replenishment ends, accepted parameters are exact and read back.
    - [Deadline]: the whole of [deadline.c] over all tasks, run queues and root domains,
      with the paths of [core.c] that call it (wakeup, [__schedule], affinity,
      [__sched_setscheduler]), over [RbTree], [Cpudl], [Cpupri] and [Cbs].
    - [DeadlineBw], [DeadlineInv], [DeadlineAttr]: its invariant.  A list of places says
      for every task where its bandwidth is charged and in which trees it is; an
      operation at work on one task moves that place ([at_work], [worked]).  The first
      file has the steps inside an operation, the second the handlers, the third the
      changes of class, parameters and affinity.
    - [DeadlineEvents]: the events and the reachable worlds.  In all of them the two
      bandwidth sums of a run queue are exact and the trees hold the tasks they should;
      the push loop ends.
    - [DeadlineEdf]: the order of the tree; the class picks the earliest deadline.
    - [DeadlineAdmit]: admission is exact and a refused request has no effect; examples
      of bandwidth that is never released and of a task that is never replenished.
    - [Rt]: the whole of [rt.c] without group scheduling, over all tasks, run queues and
      root domains, with the paths of [core.c] and [topology.c] that call it (wakeup,
      [__schedule], affinity, [rt_mutex_setprio], [__sched_setscheduler], the stopper,
      [rq_attach_root]), over [Plist] and [Cpupri]; of the deadline class the number of
      tasks on a run queue and the stores to the index of priorities that go with it.
    - [RtQueue]: the priority array, the counters and the list of pushable tasks of one
      run queue, as functions of the queue, and what they mean ([rt_ok], [push_ok]).
    - [RtInv]: the links between run queues and root domains ([links]) and the effect of
      enqueue and dequeue on the world.
    - [RtOps]: the invariant ([inv]); steps that only move runtime and flags ([quiet]);
      changes of priority, class, affinity and CPU.
    - [RtMove]: the search for a CPU, push, the stopper, the chain of interrupts, pull.
    - [RtHotplug]: run queues that go on- and offline and change their root domain; the
      period timer and the sysctls are quiet.
    - [RtHandlers]: preemption, picking and the switch, wakeup, sleep, tick, callbacks.
    - [RtEvents]: the events and the reachable worlds: every event runs to its end; the
      queues and the overload mask of the root domains are exact, and the index of
      priorities is up to what the deadline class stores; picking is by priority and order
      of arrival; the search for a CPU finds one if one without deadline tasks is fit; a
      push leaves nothing behind that could run elsewhere.  An example shows the search
      answer with an offline CPU.
    - [RtRuntime]: borrowing conserves runtime, throttling ends when there is no borrowing
      (the feature RT_RUNTIME_SHARE is off), a sysctl write is all or nothing.
    - [RtRounds]: the chain of interrupts visits every overloaded CPU; the tick rotates
      the tasks of one priority.
    - [Pelt]: the averages of [pelt.c] and their use in [fair.c]: the segment formula is
      the geometric series, signals stay bounded.
    - [Clock]: [clock.c], the operations as functions of the state and its exchange loops
      one memory access at a time, with nested interrupts: the unstable clock is monotonic in
      every interleaving, stays in its window, the loops end, switches are continuous; and the
      interleavings in which marking the clock unstable takes effect.
    - [Cputime]: [cputime.c]: time is accounted once, by ticks and without, the readers
      agree, and what [cputime_adjust] guarantees with the exact and the portable
      multiplication, which satisfy the class [MulDivLaws] or do not.
    - [RqClock]: the clocks of a run queue: time is accounted once.
    - [Loadavg]: [loadavg.c] with its NO_HZ batching: deltas are neither lost nor counted
      twice, and the folding windows compute the average.
    - [Completion]: [completion.c] over [swait.c], as an interleaving of waiters and
      completers: no wakeup is lost and no event is created or destroyed.
    - [Waitq]: [wait.c], with [___wait_event] of [wait.h] and the wake functions of
      [wait_bit.c].  A walk that drops the lock calls every entry that stays exactly once
      and wakes no more than asked for; [wait_event] and [wait_woken] lose no wakeup.
    - [FreqTable]: [freq_table.c] and the inline lookups of [cpufreq.h]: lookups meet the
      relation asked for and stay within limits where the code means them to.
    - [Uclamp], [UclampConf]: buckets and clamps of run queues; sysctl, syscall and
      cgroup knobs with the group walk.  For requests between 0 and 1024 the run-queue
      clamp is the maximum over the tasks enqueued since clamping came into use; a walk over the group tree visits every group once; handlers
      change everything or nothing.
    - [Schedutil]: the governor with its deferred path through interrupt work and a
      kernel thread: updates are rate limited, none is lost, and the frequency cache is
      transparent; [effective_cpu_util] is sound.

    ** Bounds and fuel

    Loops are structural, or take fuel from a measure of the state (the height of a tree,
    the size of a heap, the depth of a group tree, the number of frequencies), and each
    has a lemma that the fuel suffices.  Arithmetic theorems state the ranges in which
    the C code does not overflow: the fair class needs the virtual times on one queue
    within [2^62] of each other, a total weight below [2^31] and their product below
    [2^63] ([Eevdf.fits], [EevdfOps.window2]); deadlines are compared within a window of
    [2^63] ([DeadlineEdf.windowed]) and the sums of the deadline class assume at most
    [2^40] tasks; PELT and the governor state theirs at the theorems.  The fuel of
    [Cbs.postpone] is the number of runtimes the overrun takes ([postpone_fuel]), that of
    [Deadline.push_loop] and [Rt.push_loop] the number of pushable tasks; the loop of
    [Rt.rto_next_loop] needs two rounds.  [Clock] bounds the times of day by a limit below
    [2^63] ns, and [Cputime] compares sums as [u64].  Task numbers
    of the real-time class are below [PID_MAX_LIMIT], and the other classes have at most
    [2^31] tasks on a CPU.

    ** Inputs

    Clock readings, driver answers, utilizations reported between components, the answers
    of allocators and user copies, and the group state read across run queues are
    arguments of the definitions.  Locks are held as the code holds them: operations
    under one lock are atomic steps.  The timers, capacities and scheduling domains of
    the deadline class are the fields of the class [Deadline.Platform], about which
    nothing is assumed; those of the real-time class are in [Rt.RtPlatform], with the
    documented results of the rotating mask searches as [RtMove.RtLaws].  The events of
    [RtEvents] include deadline tasks that come and go ([DlEnqueue], [DlDequeue], with the
    deadlines as arguments) and what the other classes do to a run queue ([Others]); what
    another CPU does while [double_lock_balance] drops the lock is left out.  The field
    [Rt.stored_offline] is history that no code reads: it says that the deadline class has
    stored to the index for an offline run queue.  The events of [DeadlineEvents]
    are guarded by what the core guarantees ([enabled]); requests keep the parameters, ask for the flag of the
    governor's thread, concern dead tasks or boosted ones only outside these events.

    ** Not modelled

    Of the fair class: load balancing, wakeup placement, NUMA balancing, bandwidth
    control and the walks over the group hierarchy.  Group scheduling of
    the real-time class, the chain walk of priority inheritance, the context switch and
    remote wakeups of the core, topology, PSI, the CPU accounting cgroup, the loops that
    wait for bits, membarrier, core scheduling, autogroups, statistics and debug files.  Of cpufreq: the policy core, the other
    governors and the platform drivers.  The rest of [src/linux-6.6] and the 4.19 tree
    in [src/msm-4.19-linux] are context for the study, not the scheduler under study.
    They are left out because their behaviour is input and output (drivers, files,
    statistics), heuristics without a contract (balancing, placement), or code of other
    subsystems. *)

From Stdlib Require Import ZArith Lia.
From stdpp Require Import base list numbers option.

#[global] Open Scope Z_scope.

Declare Scope cint_scope.
Delimit Scope cint_scope with cint.

(** ** Machine integers *)

(** The kernel's fixed-width integers are [Z] values in range; every place where
    the C code can wrap is written with one of these conversions. *)
Abbreviation two31 := 2147483648.
Abbreviation two32 := 4294967296.
Abbreviation two63 := 9223372036854775808.
Abbreviation two64 := 18446744073709551616.

Definition u64 (x : Z) : Z := x mod two64.
Definition u32 (x : Z) : Z := x mod two32.
Definition s64 (x : Z) : Z := if u64 x <? two63 then u64 x else u64 x - two64.
Definition s32 (x : Z) : Z := if u32 x <? two31 then u32 x else u32 x - two32.

Definition is_u64 (x : Z) : Prop := 0 <= x < two64.
Definition is_u32 (x : Z) : Prop := 0 <= x < two32.
Definition is_s64 (x : Z) : Prop := - two63 <= x < two63.

Definition U64_MAX : Z := two64 - 1.
Definition ULONG_MAX : Z := two64 - 1.

Notation "x +u64 y" := (u64 (x + y)) (at level 50, left associativity) : cint_scope.
Notation "x -u64 y" := (u64 (x - y)) (at level 50, left associativity) : cint_scope.
Notation "x *u64 y" := (u64 (x * y)) (at level 40, left associativity) : cint_scope.
Notation "x +u32 y" := (u32 (x + y)) (at level 50, left associativity) : cint_scope.
Notation "x -u32 y" := (u32 (x - y)) (at level 50, left associativity) : cint_scope.
Notation "x *u32 y" := (u32 (x * y)) (at level 40, left associativity) : cint_scope.

#[global] Open Scope cint_scope.

(** C truth values: [b2z] is the [int] a comparison produces, [z2b] the test of
    an [int] in a condition. *)
Definition b2z (b : bool) : Z := if b then 1 else 0.
Definition z2b (x : Z) : bool := negb (x =? 0).

(** C division of signed operands truncates towards zero. *)
Definition cdiv (x y : Z) : Z := Z.quot x y.

Lemma b2z_01 b : 0 <= b2z b <= 1.
Proof. destruct b; simpl; lia. Qed.

(** *** Lemmas on the conversions *)

Create HintDb cint.
Create Rewrite HintDb cint_norm.

Lemma u64_range x : 0 <= u64 x < two64.
Proof. unfold u64. apply Z.mod_pos_bound. lia. Qed.

Lemma u32_range x : 0 <= u32 x < two32.
Proof. unfold u32. apply Z.mod_pos_bound. lia. Qed.

Lemma u64_small x : 0 <= x < two64 -> u64 x = x.
Proof. intros. unfold u64. apply Z.mod_small. lia. Qed.

Lemma u32_small x : 0 <= x < two32 -> u32 x = x.
Proof. intros. unfold u32. apply Z.mod_small. lia. Qed.

Lemma u64_idemp x : u64 (u64 x) = u64 x.
Proof. apply u64_small, u64_range. Qed.

Lemma u64_add_l x y : u64 (u64 x + y) = u64 (x + y).
Proof. unfold u64. apply Zplus_mod_idemp_l. Qed.

Lemma u64_add_r x y : u64 (x + u64 y) = u64 (x + y).
Proof. unfold u64. apply Zplus_mod_idemp_r. Qed.

Lemma u64_sub_l x y : u64 (u64 x - y) = u64 (x - y).
Proof. unfold u64. apply Zminus_mod_idemp_l. Qed.

Lemma u64_sub_r x y : u64 (x - u64 y) = u64 (x - y).
Proof. unfold u64. apply Zminus_mod_idemp_r. Qed.

Lemma u64_mul_l x y : u64 (u64 x * y) = u64 (x * y).
Proof. unfold u64. apply Zmult_mod_idemp_l. Qed.

Lemma u64_mul_r x y : u64 (x * u64 y) = u64 (x * y).
Proof. unfold u64. apply Zmult_mod_idemp_r. Qed.

Lemma s64_range x : - two63 <= s64 x < two63.
Proof.
  unfold s64. pose proof (u64_range x). destruct (Z.ltb_spec (u64 x) two63); lia.
Qed.

Lemma s64_small x : - two63 <= x < two63 -> s64 x = x.
Proof.
  intros H. unfold s64, u64.
  destruct (Z.ltb_spec (x mod two64) two63); Z.div_mod_to_equations; lia.
Qed.

Lemma s64_u64 x : s64 (u64 x) = s64 x.
Proof. unfold s64. by rewrite u64_idemp. Qed.

Lemma u64_s64 x : u64 (s64 x) = u64 x.
Proof.
  unfold s64. destruct (u64 x <? two63); [apply u64_idemp|].
  unfold u64. rewrite Zminus_mod, Z_mod_same_full, Z.sub_0_r.
  by rewrite !Zmod_mod.
Qed.

Lemma s64_sub_u64 x y : s64 (u64 x - u64 y) = s64 (x - y).
Proof. by rewrite <- s64_u64, u64_sub_l, u64_sub_r, s64_u64. Qed.

(** The conversions change a value by a multiple of [2^64]. *)
Lemma u64_cong x : exists k, u64 x = x + k * two64.
Proof. exists (- (x / two64)). unfold u64. pose proof (Z.div_mod x two64 ltac:(lia)). lia. Qed.

Lemma s64_cong x : exists k, s64 x = x + k * two64.
Proof.
  destruct (u64_cong x) as [k E]. unfold s64.
  destruct (u64 x <? two63); [by exists k|exists (k - 1); lia].
Qed.

Lemma s64_unique x y k : x = y + k * two64 -> - two63 <= y < two63 -> s64 x = y.
Proof.
  intros -> Hy. destruct (s64_cong (y + k * two64)) as [k' E].
  pose proof (s64_range (y + k * two64)). rewrite E in *.
  assert (k + k' = 0) by lia. lia.
Qed.

Lemma s32_small x : - two31 <= x < two31 -> s32 x = x.
Proof.
  intros H. unfold s32, u32. destruct (Z.lt_ge_cases x 0).
  - rewrite <- (Z.mod_add x 1 two32), Z.mod_small by lia.
    destruct (Z.ltb_spec (x + 1 * two32) two31); lia.
  - rewrite Z.mod_small by lia. destruct (Z.ltb_spec x two31); lia.
Qed.

Lemma s32_cong x : exists k, s32 x = x + k * two32.
Proof.
  pose proof (Z.div_mod x two32 ltac:(lia)) as D. unfold s32, u32.
  destruct (x mod two32 <? two31); [exists (- (x / two32))|exists (- (x / two32) - 1)]; lia.
Qed.

#[export] Hint Resolve u64_range u32_range s64_range : cint.
#[export] Hint Rewrite u64_idemp u64_add_l u64_add_r u64_sub_l u64_sub_r
  u64_mul_l u64_mul_r s64_u64 u64_s64 : cint_norm.

(** ** Tactics *)

(** [zcase] replaces the boolean comparisons of the goal and the hypotheses by
    the facts they decide. *)
Ltac zcase_step :=
  match goal with
  | H : _ && _ = true |- _ => apply andb_prop in H; destruct H
  | H : negb _ = true |- _ => apply negb_true_iff in H
  | H : negb _ = false |- _ => apply negb_false_iff in H
  | H : (_ <? _) = true |- _ => apply Z.ltb_lt in H
  | H : (_ <? _) = false |- _ => apply Z.ltb_ge in H
  | H : (_ <=? _) = true |- _ => apply Z.leb_le in H
  | H : (_ <=? _) = false |- _ => apply Z.leb_gt in H
  | H : (_ =? _) = true |- _ => apply Z.eqb_eq in H
  | H : (_ =? _) = false |- _ => apply Z.eqb_neq in H
  | |- context [?x <? ?y] => destruct (Z.ltb_spec x y)
  | |- context [?x <=? ?y] => destruct (Z.leb_spec x y)
  | |- context [?x =? ?y] => destruct (Z.eqb_spec x y)
  end.
Ltac zcase := repeat zcase_step.

(** [ztriv]: case analysis on comparisons, then linear arithmetic. *)
Ltac ztriv := repeat (zcase_step; simpl in *); try done; try lia.

(** ** C arrays *)

(** An array access out of bounds has no value: [None] is the undefined
    behaviour, and a theorem that an operation returns [Some] includes that every
    access it makes is in bounds. *)
Definition aref {A} (l : list A) (i : Z) : option A :=
  if 0 <=? i then l !! Z.to_nat i else None.

Definition aset {A} (l : list A) (i : Z) (x : A) : option (list A) :=
  if (0 <=? i) && (i <? Z.of_nat (length l))
  then Some (<[Z.to_nat i := x]> l) else None.

Lemma aref_lt {A} (l : list A) i :
  0 <= i < Z.of_nat (length l) -> is_Some (aref l i).
Proof.
  intros H. unfold aref. zcase; [|lia]. apply lookup_lt_is_Some. lia.
Qed.

Lemma aref_Some_range {A} (l : list A) i x :
  aref l i = Some x -> 0 <= i < Z.of_nat (length l).
Proof.
  unfold aref. zcase; [|done]. intros Hl. apply lookup_lt_Some in Hl. lia.
Qed.

Lemma aset_lt {A} (l : list A) i x :
  0 <= i < Z.of_nat (length l) -> aset l i x = Some (<[Z.to_nat i := x]> l).
Proof. intros H. unfold aset. zcase; simpl; try lia. done. Qed.

Lemma aref_insert {A} (l : list A) i j x :
  0 <= i < Z.of_nat (length l) -> 0 <= j ->
  aref (<[Z.to_nat i := x]> l) j = if j =? i then Some x else aref l j.
Proof.
  intros Hi Hj. unfold aref. destruct (Z.leb_spec 0 j); [|lia].
  destruct (Z.eqb_spec j i) as [->|Hne].
  - apply list_lookup_insert_eq. lia.
  - apply list_lookup_insert_ne. lia.
Qed.

Lemma aref_replicate {A} (x : A) n i :
  0 <= i < n -> aref (replicate (Z.to_nat n) x) i = Some x.
Proof.
  intros Hi. unfold aref. destruct (Z.leb_spec 0 i); [|lia].
  apply lookup_replicate_2. lia.
Qed.

Lemma aref_imap {A B} (f : nat -> A -> B) (l : list A) i :
  aref (imap f l) i = f (Z.to_nat i) <$> aref l i.
Proof. unfold aref. destruct (0 <=? i); [apply list_lookup_imap|done]. Qed.

(** A table indexed by processors or tasks is a function; [upd] stores into it. *)
Definition upd {A} (f : Z -> A) (i : Z) (x : A) : Z -> A := fun j => if j =? i then x else f j.

Lemma upd_eq {A} (f : Z -> A) i x : upd f i x i = x.
Proof. unfold upd. by rewrite Z.eqb_refl. Qed.

Lemma upd_ne {A} (f : Z -> A) i x j : j <> i -> upd f i x j = f j.
Proof. unfold upd. by destruct (Z.eqb_spec j i). Qed.

(** ** Bitmaps *)

(** A [struct cpumask] or a [DECLARE_BITMAP] is the [Z] whose bit [c] is set when
    [c] is in the set. *)
Definition mask_test (m c : Z) : bool := Z.testbit m c.
Definition mask_set (m c : Z) : Z := Z.setbit m c.
Definition mask_clear (m c : Z) : Z := Z.clearbit m c.
Definition mask_and (a b : Z) : Z := Z.land a b.
Definition mask_empty (m : Z) : bool := m =? 0.

(** [for_each_cpu] visits the set bits below [nr] in increasing order. *)
Definition mask_bits (nr m : Z) : list Z :=
  List.filter (fun c => mask_test m c) (seqZ 0 nr).

Lemma mask_test_set m c i :
  0 <= c -> 0 <= i -> mask_test (mask_set m c) i = (i =? c) || mask_test m i.
Proof.
  intros Hc Hi. unfold mask_test, mask_set. rewrite Z.setbit_eqb by lia.
  by rewrite Z.eqb_sym.
Qed.

Lemma mask_test_clear m c i :
  mask_test (mask_clear m c) i = mask_test m i && negb (i =? c).
Proof.
  unfold mask_test, mask_clear. rewrite Z.clearbit_eqb. by rewrite Z.eqb_sym.
Qed.

Lemma mask_test_and a b i : mask_test (mask_and a b) i = mask_test a i && mask_test b i.
Proof. apply Z.land_spec. Qed.

Lemma mask_test_0 i : mask_test 0 i = false.
Proof. apply Z.testbit_0_l. Qed.

(** A bitmap over [nr] bits. *)
Definition mask_ok (nr m : Z) : Prop := forall i, mask_test m i = true -> 0 <= i < nr.

Lemma mask_ok_lt nr m : 0 <= nr -> 0 <= m < 2 ^ nr -> mask_ok nr m.
Proof.
  unfold mask_ok, mask_test. intros Hn Hm i Hi.
  destruct (Z.lt_ge_cases i 0); [by rewrite Z.testbit_neg_r in Hi|].
  destruct (Z.lt_ge_cases i nr); [lia|]. exfalso.
  destruct (decide (m = 0)) as [->|]; [by rewrite Z.testbit_0_l in Hi|].
  rewrite Z.bits_above_log2 in Hi; [done|lia|].
  apply Z.lt_le_trans with nr; [apply Z.log2_lt_pow2; lia|done].
Qed.

Lemma mask_nonempty m : mask_empty m = false -> exists i, mask_test m i = true.
Proof.
  unfold mask_empty, mask_test. intros Hne%Z.eqb_neq.
  destruct (Z.lt_ge_cases m 0).
  - exists (Z.log2 (Z.pred (- m)) + 1). apply Z.bits_above_log2_neg; lia.
  - exists (Z.log2 m). apply Z.bit_log2. lia.
Qed.

Lemma mask_singleton c i :
  0 <= c -> mask_test (mask_set 0 c) i = true -> i = c.
Proof.
  intros Hc Hi. destruct (Z.lt_ge_cases i 0).
  { unfold mask_test in Hi. by rewrite Z.testbit_neg_r in Hi. }
  rewrite mask_test_set, mask_test_0, orb_false_r in Hi by lia. by apply Z.eqb_eq.
Qed.

Lemma mask_set_nonempty m c : 0 <= c -> mask_empty (mask_set m c) = false.
Proof.
  intros Hc. unfold mask_empty. apply Z.eqb_neq. intros E.
  pose proof (mask_test_set m c c Hc Hc) as T.
  by rewrite E, mask_test_0, Z.eqb_refl in T.
Qed.

Lemma mask_empty_spec m : mask_empty m = true -> forall i, mask_test m i = false.
Proof. unfold mask_empty. intros H i. apply Z.eqb_eq in H as ->. apply mask_test_0. Qed.

Lemma mask_bits_spec nr m c :
  In c (mask_bits nr m) <-> 0 <= c < nr /\ mask_test m c = true.
Proof.
  unfold mask_bits. rewrite filter_In, <- list_elem_of_In, elem_of_seqZ. 
  split; intros [H1 H2]; split; done || lia.
Qed.

Lemma Forall_elem {A} (P : A -> Prop) l : Forall P l <-> forall x, x ∈ l -> P x.
Proof.
  rewrite List.Forall_forall. split; intros H x Hx; apply H; by apply list_elem_of_In.
Qed.

(** ** Sums over lists *)

Definition zsum {A} (f : A -> Z) (l : list A) : Z := foldr (fun x acc => f x + acc) 0 l.

Lemma zsum_ext {A} (f g : A -> Z) l :
  (forall x, x ∈ l -> f x = g x) -> zsum f l = zsum g l.
Proof.
  induction l as [|x l IH]; intros H; simpl; [done|].
  rewrite H by (by left). by rewrite IH by (intros; apply H; by right).
Qed.

Lemma zsum_nonneg {A} (f : A -> Z) l : (forall x, x ∈ l -> 0 <= f x) -> 0 <= zsum f l.
Proof.
  induction l as [|x l IH]; intros H; simpl; [done|].
  assert (0 <= f x) by (apply H; by left).
  assert (0 <= zsum f l) by (apply IH; intros; apply H; by right). lia.
Qed.

Lemma zsum_le {A} (f g : A -> Z) l : (forall x, x ∈ l -> f x <= g x) -> zsum f l <= zsum g l.
Proof.
  induction l as [|x l IH]; intros H; simpl; [lia|].
  pose proof (H x ltac:(left)). assert (zsum f l <= zsum g l) by (apply IH; intros; apply H; by right). lia.
Qed.

Lemma zsum_map {A B} (f : B -> Z) (h : A -> B) l : zsum f (map h l) = zsum (fun x => f (h x)) l.
Proof. induction l as [|x l IH]; simpl; [done|]. by rewrite IH. Qed.

Lemma zsum_ge {A} (f : A -> Z) l x :
  (forall x, x ∈ l -> 0 <= f x) -> x ∈ l -> f x <= zsum f l.
Proof.
  induction l as [|y l IH]; intros H Hx; simpl; [by apply not_elem_of_nil in Hx|].
  assert (0 <= f y) by (apply H; by left).
  assert (0 <= zsum f l) by (apply zsum_nonneg; intros; apply H; by right).
  apply elem_of_cons in Hx as [->|Hx]; [lia|].
  specialize (IH ltac:(intros; apply H; by right) Hx). lia.
Qed.

Lemma zsum_app {A} (f : A -> Z) l1 l2 : zsum f (l1 ++ l2) = zsum f l1 + zsum f l2.
Proof. induction l1 as [|x l1 IH]; simpl; lia. Qed.

(** Changing the summand of one element. *)
Lemma zsum_update (f g : Z -> Z) l c :
  NoDup l -> c ∈ l -> (forall x, x ∈ l -> x <> c -> f x = g x) ->
  zsum g l = zsum f l + (g c - f c).
Proof.
  intros ND Hc H. induction ND as [|x l Hx ND IH]; [by apply not_elem_of_nil in Hc|].
  simpl. apply elem_of_cons in Hc as [->|Hc].
  - rewrite (zsum_ext f g l); [lia|]. intros y Hy. apply H; [by right|congruence].
  - rewrite IH; [|done|intros y Hy; apply H; by right].
    rewrite (H x); [lia|by left|congruence].
Qed.

Lemma zsum_insert {A} (f : A -> Z) l n x y :
  l !! n = Some x -> zsum f (<[n := y]> l) = zsum f l - f x + f y.
Proof.
  revert n. induction l as [|z l IH]; intros [|n] H; simplify_eq/=; [lia|].
  rewrite (IH n H). lia.
Qed.

(** Storing into a slot of an array that was read: the store succeeds and
    changes a sum by the difference. *)
Lemma aset_sum {A} (f : A -> Z) l i x y :
  aref l i = Some x ->
  exists l', aset l i y = Some l' /\ length l' = length l /\
    zsum f l' = zsum f l - f x + f y.
Proof.
  intros H. pose proof (aref_Some_range l i x H) as R. exists (<[Z.to_nat i := y]> l).
  rewrite aset_lt by done. split_and!; [done|apply length_insert|].
  apply zsum_insert. unfold aref in H. by destruct (Z.leb_spec 0 i); [|lia].
Qed.

Lemma mask_bits_NoDup nr m : NoDup (mask_bits nr m).
Proof.
  unfold mask_bits. apply NoDup_ListNoDup, List.NoDup_filter, NoDup_ListNoDup, NoDup_seqZ.
Qed.

Lemma mask_test_neg m c : c < 0 -> mask_test m c = false.
Proof. apply Z.testbit_neg_r. Qed.

(** The elements of a counting loop before position [i]. *)
Lemma seqZ_split n pre i post :
  seqZ 0 n = pre ++ i :: post -> 0 <= i < n /\ forall j, 0 <= j < i -> j ∈ pre.
Proof.
  intros E.
  assert (Hi : seqZ 0 n !! length pre = Some i).
  { rewrite E, lookup_app_r by lia. by rewrite Nat.sub_diag. }
  apply lookup_seqZ in Hi as [-> Hlt]. split; [lia|]. intros j Hj.
  apply list_elem_of_lookup. exists (Z.to_nat j).
  assert (Hj' : seqZ 0 n !! Z.to_nat j = Some j) by (apply lookup_seqZ; lia).
  rewrite E, lookup_app_l in Hj' by lia. done.
Qed.

(** A check of every index of a range, decided by computation. *)
Lemma forallb_range (P : Z -> bool) a n i :
  forallb P (seqZ a n) = true -> a <= i < a + n -> P i = true.
Proof.
  intros H Hi. rewrite forallb_forall in H. apply H, list_elem_of_In, elem_of_seqZ. lia.
Qed.

(** [a / b] against a product. *)
Lemma div_le_mul a b : 0 < b -> a / b * b <= a.
Proof. intros. pose proof (Z.mul_div_le a b). lia. Qed.

Lemma div_add_le a b d : 0 < d -> a / d + b / d <= (a + b) / d.
Proof.
  intros Hd. apply Z.div_le_lower_bound; [done|].
  pose proof (Z.mul_div_le a d). pose proof (Z.mul_div_le b d). lia.
Qed.
