(* ===== verification/RbTree.v ===== *)
(** Augmented red-black trees: [lib/rbtree.c], [include/linux/rbtree_augmented.h] and
    the insertion helpers of [include/linux/rbtree.h], which hold the run queues of
    the fair and deadline classes.

    A node is a constructor of [tree]; the parent pointers the C code follows are the
    list of frames from a node to the root.  Every rotation, recolouring and callback
    is performed as in the source; the two mirrored halves of the loops are one
    definition over the side of the node.  A null pointer that would be dereferenced is
    [None].  The theorems show that insertion and removal are total on well-formed
    trees, that they refine sorted insertion and removal on the in-order list, and
    that balance, augmented data and the cached leftmost node are kept. *)

From Stdlib Require Import ZArith Lia List.
From stdpp Require Import base list numbers option.
From S2P Require Import Prelude.

Module RbTree.

Inductive color := Red | Black.
Inductive dir := Lft | Rgt.

#[export] Instance color_eq_dec : EqDecision color.
Proof. solve_decision. Defined.
#[export] Instance dir_eq_dec : EqDecision dir.
Proof. solve_decision. Defined.

(** [RBCOMPUTE] of the callbacks: the data of a node from its entry and the data of its
    children, and whether the recomputed data equals the old. *)
Class Augment (A M : Type) := mk_augment {
  compute : A -> option M -> option M -> M;
  unchanged : M -> M -> bool
}.

(** What the callbacks must satisfy for entries in [ok]: the data of a node is a function
    [agg] of the list of entries below it. *)
Class AugmentLaws {A M : Type} `{!Augment A M} (ok : A -> Prop) (agg : list A -> option M) := {
  agg_nil : agg [] = None;
  agg_node l x r : Forall ok (l ++ x :: r) -> agg (l ++ x :: r) = Some (compute x (agg l) (agg r));
  unchanged_spec m m' : unchanged m m' = true <-> m = m'
}.

Section Tree.
Context {A M : Type} `{!Augment A M}.

Inductive tree :=
| Leaf
| Node (c : color) (l : tree) (x : A) (m : M) (r : tree).

Definition aug (t : tree) : option M := match t with Leaf => None | Node _ _ _ m _ => Some m end.

Definition is_red (t : tree) : bool :=
  match t with Node Red _ _ _ _ => true | _ => false end.

(** [rb_set_parent_color] on a pointer that may be null. *)
Definition set_color (c : color) (t : tree) : tree :=
  match t with Leaf => Leaf | Node _ l x m r => Node c l x m r end.

(** A node with the child [a] on side [d]. *)
Definition mk (d : dir) (c : color) (a : tree) (x : A) (m : M) (b : tree) : tree :=
  match d with Lft => Node c a x m b | Rgt => Node c b x m a end.

(** The children of a node, that on side [d] first. *)
Definition sides (d : dir) (l r : tree) : tree * tree :=
  match d with Lft => (l, r) | Rgt => (r, l) end.

Definition comp (d : dir) (x : A) (a b : option M) : M :=
  match d with Lft => compute x a b | Rgt => compute x b a end.

(** A parent, seen from its child on side [f_dir]. *)
Record frame := mk_frame {
  f_dir : dir;
  f_color : color;
  f_entry : A;
  f_aug : M;
  f_sib : tree
}.

Definition plug (t : tree) (f : frame) : tree :=
  mk (f_dir f) (f_color f) t (f_entry f) (f_aug f) (f_sib f).

Fixpoint zip_up (t : tree) (k : list frame) : tree :=
  match k with [] => t | f :: k => zip_up (plug t f) k end.

(** ** The callbacks *)

(** [propagate(rb, NULL)] from the parent of a node with data [a]. *)
Fixpoint propagate (a : option M) (k : list frame) : list frame :=
  match k with
  | [] => []
  | f :: k' =>
    let m := comp (f_dir f) (f_entry f) a (aug (f_sib f)) in
    let f' := mk_frame (f_dir f) (f_color f) (f_entry f) m (f_sib f) in
    if unchanged m (f_aug f) then f' :: k' else f' :: propagate (Some m) k'
  end.

(** ** Insertion *)

Fixpoint descend (less : A -> A -> bool) (x : A) (t : tree) (k : list frame) (leftmost : bool)
  : list frame * bool :=
  match t with
  | Leaf => (k, leftmost)
  | Node c l y m r =>
    if less x y then descend less x l (mk_frame Lft c y m r :: k) leftmost
    else descend less x r (mk_frame Rgt c y m l :: k) false
  end.

(** Case 2: rotation at the parent [f] of [t], towards side [d]. *)
Definition rotate_parent (d : dir) (f : frame) (t : tree) : option tree :=
  match t with
  | Leaf => None
  | Node c l x m r =>
    let '(a, b) := sides d l r in
    let a := set_color Black a in
    let pm := comp d (f_entry f) (aug (f_sib f)) (aug a) in
    Some (mk d c (mk d Red (f_sib f) (f_entry f) pm a) x (f_aug f) b)
  end.

(** Case 3: rotation at the grandparent [g] of a node whose parent is [p]. *)
Definition rotate_grandparent (g : frame) (p : tree) : option tree :=
  match p with
  | Leaf => None
  | Node _ l x m r =>
    let d := f_dir g in
    let '(a, b) := sides d l r in
    let b := set_color Black b in
    let gm := comp d (f_entry g) (aug b) (aug (f_sib g)) in
    Some (mk d (f_color g) a x (f_aug g) (mk d Red b (f_entry g) gm (f_sib g)))
  end.

Fixpoint __rb_insert (t : tree) (k : list frame) : option tree :=
  match k with
  | [] => Some (set_color Black t)
  | f :: k1 =>
    match f_color f with
    | Black => Some (zip_up t k)
    | Red =>
      match k1 with
      | [] => None
      | g :: k2 =>
        let parent := plug t f in
        if is_red (f_sib g)
        then __rb_insert (mk (f_dir g) Red (set_color Black parent) (f_entry g) (f_aug g)
                            (set_color Black (f_sib g))) k2
        else
          p ← (if decide (f_dir f = f_dir g) then Some parent else rotate_parent (f_dir g) f t);
          s ← rotate_grandparent g p;
          Some (zip_up s k2)
      end
    end
  end.

(** A tree with its cached leftmost entry. *)
Record rb_root_cached := mk_root { rb_root : tree; rb_leftmost : option A }.

(** The new node carries the data [m]. *)
Definition rb_add_augmented_cached (less : A -> A -> bool) (x : A) (m : M) (t : rb_root_cached)
  : option rb_root_cached :=
  let '(k, leftmost) := descend less x (rb_root t) [] true in
  let k := propagate (Some m) k in
  let first := if leftmost : bool then Some x else rb_leftmost t in
  r ← __rb_insert (Node Red Leaf x m Leaf) k;
  Some (mk_root r first).

(** ** Traversal *)

Fixpoint rb_first (t : tree) : option A :=
  match t with
  | Leaf => None
  | Node _ l x _ _ => match l with Leaf => Some x | _ => rb_first l end
  end.

Fixpoint rb_last (t : tree) : option A :=
  match t with
  | Leaf => None
  | Node _ _ x _ r => match r with Leaf => Some x | _ => rb_last r end
  end.

(** The walk up of [rb_next]. *)
Fixpoint next_up (k : list frame) : option A :=
  match k with
  | [] => None
  | f :: k => match f_dir f with Rgt => next_up k | Lft => Some (f_entry f) end
  end.

(** [rb_next] of a node with right child [r]. *)
Definition rb_next (r : tree) (k : list frame) : option A :=
  match r with Leaf => next_up k | _ => rb_first r end.

(** ** Removal *)

(** The leftmost node below the node [Node c l x m r]: its colour, entry and right child,
    and the frames above it. *)
Fixpoint successor (c : color) (l : tree) (x : A) (m : M) (r : tree) (k : list frame)
  : color * A * tree * list frame :=
  match l with
  | Leaf => (c, x, r, k)
  | Node c' l' x' m' r' => successor c' l' x' m' r' (mk_frame Lft c x m r :: k)
  end.

(** The erased node had colour [c], data [m] and children [l] and [r].  The result is
    what takes the place of the removed position, the frames above it, and whether
    that position lacks a black node. *)
Definition __rb_erase_augmented (c : color) (l : tree) (m : M) (r : tree) (k : list frame)
  : tree * list frame * bool :=
  match l, r with
  | Leaf, Leaf => (Leaf, propagate None k, bool_decide (c = Black) && negb (bool_decide (k = [])))
  | Leaf, _ => (set_color c r, propagate (aug r) k, false)
  | _, Leaf => (set_color c l, propagate (aug l) k, false)
  | _, Node rc rl rx rm rr =>
    let '(sc, sx, child2, kr) := successor rc rl rx rm rr [] in
    let kr := propagate (aug child2) kr in
    let ks := propagate (aug (zip_up child2 kr)) (mk_frame Rgt c sx m l :: k) in
    match child2 with
    | Leaf => (Leaf, kr ++ ks, bool_decide (sc = Black))
    | _ => (set_color Black child2, kr ++ ks, false)
    end
  end.

(** Case 4: rotation at the parent; the sibling has entry [sx], the child [near] on the
    side of the node and [far] on the other. *)
Definition rotate_sibling (d : dir) (node : tree) (pc : color) (px : A) (pm : M)
    (near : tree) (sx : A) (far : tree) : tree :=
  let m := comp d px (aug node) (aug near) in
  mk d pc (mk d Black node px m near) sx pm (set_color Black far).

(** Cases 2 to 4, with a black sibling.  The flag says that the loop goes on at the
    parent. *)
Definition erase_black_sibling (d : dir) (node : tree) (pc : color) (px : A) (pm : M) (s : tree)
  : option (bool * tree) :=
  match s with
  | Leaf => None
  | Node sc sl sx sm sr =>
    let '(near, far) := sides d sl sr in
    if negb (is_red far) then
      if negb (is_red near) then
        let s := Node Red sl sx sm sr in
        match pc with
        | Red => Some (false, mk d Black node px pm s)
        | Black => Some (true, mk d Black node px pm s)
        end
      else
        match near with
        | Leaf => None
        | Node _ nl nx _ nr =>
          let '(a, b) := sides d nl nr in
          let b := set_color Black b in
          let s := mk d sc b sx (comp d sx (aug b) (aug far)) far in
          Some (false, rotate_sibling d node pc px pm a nx s)
        end
    else Some (false, rotate_sibling d node pc px pm near sx far)
  end.

(** One turn of the loop, case 1 included. *)
Definition erase_step (d : dir) (node : tree) (pc : color) (px : A) (pm : M) (s : tree)
  : option (bool * tree) :=
  if is_red s then
    match s with
    | Leaf => None
    | Node _ sl sx sm sr =>
      let '(near, far) := sides d sl sr in
      match near with
      | Leaf => None
      | _ =>
        let near := set_color Black near in
        let m := comp d px (aug node) (aug near) in
        '(up, t) ← erase_black_sibling d node Red px m near;
        Some (up, mk d pc t sx pm far)
      end
    end
  else erase_black_sibling d node pc px pm s.

Fixpoint ____rb_erase_color (node : tree) (k : list frame) : option tree :=
  match k with
  | [] => None
  | f :: k' =>
    '(up, t) ← erase_step (f_dir f) node (f_color f) (f_entry f) (f_aug f) (f_sib f);
    if up : bool then match k' with [] => Some t | _ => ____rb_erase_color t k' end
    else Some (zip_up t k')
  end.

(** Removal of the node [Node c l x m r] below the frames [k]. *)
Definition rb_erase_augmented (c : color) (l : tree) (m : M) (r : tree) (k : list frame)
  : option tree :=
  let '(t, k, rebalance) := __rb_erase_augmented c l m r k in
  if rebalance : bool then ____rb_erase_color t k else Some (zip_up t k).

(** The node a pointer stands for: the first one, in pre-order, whose entry satisfies [p]. *)
Fixpoint locate (p : A -> bool) (t : tree) (k : list frame)
  : option (color * tree * A * M * tree * list frame) :=
  match t with
  | Leaf => None
  | Node c l x m r =>
    if p x then Some (c, l, x, m, r, k)
    else
      match locate p l (mk_frame Lft c x m r :: k) with
      | Some z => Some z
      | None => locate p r (mk_frame Rgt c x m l :: k)
      end
  end.

Definition rb_erase_augmented_cached (p : A -> bool) (t : rb_root_cached) : option rb_root_cached :=
  '(c, l, x, m, r, k) ← locate p (rb_root t) [];
  let first := match rb_leftmost t with
               | Some y => if p y then rb_next r k else Some y
               | None => None
               end in
  root ← rb_erase_augmented c l m r k;
  Some (mk_root root first).

(** A change of an entry in place, followed by [propagate(node, NULL)]. *)
Definition rb_update (p : A -> bool) (f : A -> A) (t : rb_root_cached) : option rb_root_cached :=
  '(c, l, x, m, r, k) ← locate p (rb_root t) [];
  let x := f x in
  let first := match rb_leftmost t with
               | Some y => if p y then Some x else Some y
               | None => None
               end in
  let m' := compute x (aug l) (aug r) in
  let k := if unchanged m' m then k else propagate (Some m') k in
  Some (mk_root (zip_up (Node c l x m' r) k) first).

(** ** In-order lists *)

Fixpoint inorder (t : tree) : list A :=
  match t with Leaf => [] | Node _ l x _ r => inorder l ++ x :: inorder r end.

Definition join (d : dir) (l : list A) (x : A) (r : list A) : list A :=
  match d with Lft => l ++ x :: r | Rgt => r ++ x :: l end.

(** The list of the tree around a hole that holds [l]. *)
Fixpoint around (l : list A) (k : list frame) : list A :=
  match k with
  | [] => l
  | f :: k => around (join (f_dir f) l (f_entry f) (inorder (f_sib f))) k
  end.

Lemma inorder_mk d c a x m b : inorder (mk d c a x m b) = join d (inorder a) x (inorder b).
Proof. by destruct d. Qed.

Lemma inorder_set_color c t : inorder (set_color c t) = inorder t.
Proof. by destruct t. Qed.

Lemma aug_set_color c t : aug (set_color c t) = aug t.
Proof. by destruct t. Qed.

Lemma inorder_zip k : forall t, inorder (zip_up t k) = around (inorder t) k.
Proof.
  induction k as [|f k IH]; intros t; simpl; [done|]. rewrite IH. unfold plug.
  by rewrite inorder_mk.
Qed.

(** What a hole is surrounded by. *)
Lemma around_split k : exists pre post, forall l, around l k = pre ++ l ++ post.
Proof.
  induction k as [|f k (pre & post & IH)]; [by exists [], []; intros l; rewrite app_nil_r|].
  destruct f as [[] c x m s]; simpl.
  - exists pre, (x :: inorder s ++ post). intros l. rewrite IH. simpl. by rewrite <- app_assoc.
  - exists (pre ++ inorder s ++ [x]), post. intros l. rewrite IH. simpl.
    by rewrite <- !app_assoc.
Qed.

(** ** Balance *)

(** [rb c n t]: a red-black tree with root colour [c] and [n] black nodes on every path. *)
Inductive rb : color -> nat -> tree -> Prop :=
| rb_leaf : rb Black 0 Leaf
| rb_red n l x m r : rb Black n l -> rb Black n r -> rb Red n (Node Red l x m r)
| rb_black c1 c2 n l x m r : rb c1 n l -> rb c2 n r -> rb Black (S n) (Node Black l x m r).

(** [rbk c n k]: the frames [k] accept a tree of colour [c] and black height [n]. *)
Inductive rbk : color -> nat -> list frame -> Prop :=
| rbk_root n : rbk Black n []
| rbk_red d n x m s k : rb Black n s -> rbk Red n k -> rbk Black n (mk_frame d Red x m s :: k)
| rbk_black d c c' n x m s k :
    rb c' n s -> rbk Black (S n) k -> rbk c n (mk_frame d Black x m s :: k).

Definition balanced (t : tree) : Prop := exists n, rb Black n t.

Lemma rb_mk_red d n a x m b : rb Black n a -> rb Black n b -> rb Red n (mk d Red a x m b).
Proof. intros. destruct d; by constructor. Qed.

Lemma rb_mk_black d c1 c2 n a x m b :
  rb c1 n a -> rb c2 n b -> rb Black (S n) (mk d Black a x m b).
Proof. intros. destruct d; by econstructor. Qed.

Lemma rb_is_red c n t : rb c n t -> is_red t = bool_decide (c = Red).
Proof. by destruct 1. Qed.

Lemma rb_node_color c c' n l x m r : rb c n (Node c' l x m r) -> c' = c.
Proof. by inversion 1. Qed.

Lemma rb_blacken n t : rb Red n t -> rb Black (S n) (set_color Black t).
Proof. inversion 1; subst. by econstructor. Qed.

Lemma rb_blacken_id n t : rb Black n t -> set_color Black t = t.
Proof. by inversion 1. Qed.

Lemma rbk_red_any c n k : rbk Red n k -> rbk c n k.
Proof. inversion 1; subst. by econstructor. Qed.

Lemma rb_zip k : forall c n t, rb c n t -> rbk c n k -> balanced (zip_up t k).
Proof.
  induction k as [|f k IH]; intros c n t Ht Hk; simpl.
  - inversion Hk; subst. by exists n.
  - inversion Hk; subst; unfold plug; simpl.
    + eapply IH; [by apply rb_mk_red|done].
    + eapply IH; [by eapply rb_mk_black|done].
Qed.

Lemma rb_sides d c n l x m r a b :
  rb c n (Node c l x m r) -> sides d l r = (a, b) ->
  exists c1 c2 n', rb c1 n' a /\ rb c2 n' b /\
    (c = Red -> c1 = Black /\ c2 = Black /\ n' = n) /\ (c = Black -> n = S n').
Proof.
  intros H E. inversion H; subst; destruct d; injection E as <- <-.
  - by exists Black, Black, n.
  - by exists Black, Black, n.
  - eexists _, _, _. by split_and!.
  - eexists _, _, _. by split_and!.
Qed.

Lemma rotate_grandparent_balanced g p n k :
  rb Black n (f_sib g) -> rbk Black (S n) k -> f_color g = Black ->
  (exists d c l x m r a b, p = Node c l x m r /\ sides (f_dir g) l r = (a, b) /\
     rb d n a /\ rb Black n b) ->
  exists s, rotate_grandparent g p = Some s /\ rb Black (S n) s.
Proof.
  intros Hu Hk Hg (d & c & l & x & m & r & a & b & -> & E & Ha & Hb). simpl. rewrite E.
  eexists. split; [done|]. rewrite Hg. eapply rb_mk_black; [done|].
  apply rb_mk_red; [|done]. by rewrite (rb_blacken_id _ _ Hb).
Qed.

Lemma insert_balanced N : forall k t n,
  (length k <= N)%nat -> rb Red n t -> rbk Black n k ->
  exists t', __rb_insert t k = Some t' /\ balanced t'.
Proof.
  induction N as [|N IH]; intros [|f k] t n Hl Ht Hk; simpl in *; try lia.
  1,2: eexists; split; [done|]; exists (S n); by apply rb_blacken.
  inversion Hk as [|d n' px pm ps k' Hs Hk'|d c c' n' px pm ps k' Hs Hk']; subst;
    simpl.
  2:{ eexists. split; [done|]. eapply (rb_zip (mk_frame d Black px pm ps :: k)); [done|].
      by econstructor. }
  inversion Hk' as [| |d2 c2 cu n2 gx gm u k2 Hu Hk2]; subst. simpl.
  rewrite (rb_is_red _ _ _ Hu). destruct (bool_decide_reflect (cu = Red)) as [->|Hcu].
  - apply (IH k2 _ (S n)); [simpl in Hl; lia| |done]. unfold plug; simpl.
    apply rb_mk_red; [|by apply rb_blacken]. destruct d; simpl; by econstructor.
  - assert (cu = Black) as -> by by destruct cu.
    inversion Ht as [|n' nl nx nm nr Hl1 Hr1|]; subst.
    assert (P : exists p, (if decide (d = d2) then Some (plug (Node Red nl nx nm nr)
        (mk_frame d Red px pm ps)) else rotate_parent d2 (mk_frame d Red px pm ps)
        (Node Red nl nx nm nr)) = Some p /\
      exists c0 c l x m r a b, p = Node c l x m r /\ sides d2 l r = (a, b) /\
        rb c0 n a /\ rb Black n b).
    { destruct (decide (d = d2)) as [->|Hd].
      - eexists. split; [done|]. unfold plug; simpl. destruct d2; simpl;
          eexists Red, _, _, _, _, _, _, _; split_and!; by try constructor.
      - simpl. destruct (sides d2 nl nr) as [a b] eqn:Es.
        assert (rb Black n a /\ rb Black n b) as [Ha Hb] by (destruct d2; simpl in Es; by simplify_eq).
        eexists. split; [done|]. rewrite (rb_blacken_id _ _ Ha).
        destruct d2; simpl; eexists Red, _, _, _, _, _, _, _; split_and!; try done; by constructor. }
    destruct P as (p & -> & P). simpl.
    destruct (rotate_grandparent_balanced (mk_frame d2 Black gx gm u) p n k2) as (s & -> & Hs'); try done.
    simpl. eexists. split; [done|]. by eapply rb_zip.
Qed.

(** ** Augmented data *)

Context {ok : A -> Prop} {agg : list A -> option M} `{!AugmentLaws ok agg}.

(** Every node carries the data of the entries below it. *)
Fixpoint wa (t : tree) : Prop :=
  match t with
  | Leaf => True
  | Node _ l x m r => agg (inorder l ++ x :: inorder r) = Some m /\ wa l /\ wa r
  end.

(** The frames around a hole that holds [l] do. *)
Fixpoint wk (l : list A) (k : list frame) : Prop :=
  match k with
  | [] => True
  | f :: k =>
    let l' := join (f_dir f) l (f_entry f) (inorder (f_sib f)) in
    agg l' = Some (f_aug f) /\ wa (f_sib f) /\ wk l' k
  end.

Lemma wa_aug t : wa t -> aug t = agg (inorder t).
Proof. destruct t; simpl; [by rewrite agg_nil|]. intros [-> _]. done. Qed.

Lemma comp_join d l x r :
  Forall ok (join d l x r) -> agg (join d l x r) = Some (comp d x (agg l) (agg r)).
Proof. destruct d; simpl; apply agg_node. Qed.

Lemma wa_mk d c a x m b :
  agg (join d (inorder a) x (inorder b)) = Some m -> wa a -> wa b -> wa (mk d c a x m b).
Proof. by destruct d; simpl. Qed.

Lemma wa_set_color c t : wa t -> wa (set_color c t).
Proof. by destruct t. Qed.

Lemma wa_zip k : forall t, wa t -> wk (inorder t) k -> wa (zip_up t k).
Proof.
  induction k as [|f k IH]; intros t Ht Hk; simpl; [done|]. destruct Hk as (H1 & H2 & H3).
  apply IH; unfold plug; [by apply wa_mk|by rewrite inorder_mk].
Qed.

Lemma ok_around l k : Forall ok (around l k) -> Forall ok l.
Proof.
  destruct (around_split k) as (pre & post & E). rewrite E. intros [_ H]%Forall_app.
  by apply Forall_app in H as [? _].
Qed.

Lemma ok_join d l x r : Forall ok (join d l x r) <-> Forall ok l /\ ok x /\ Forall ok r.
Proof. destruct d; simpl; rewrite Forall_app, Forall_cons_iff; tauto. Qed.

(** The frames depend on the hole only through its data. *)
Lemma wk_agg k : forall l l',
  agg l = agg l' -> Forall ok (around l k) -> Forall ok (around l' k) -> wk l k -> wk l' k.
Proof.
  induction k as [|f k IH]; intros l l' E O O' Hk; simpl in *; [done|]. destruct Hk as (H1 & H2 & H3).
  assert (E' : agg (join (f_dir f) l (f_entry f) (inorder (f_sib f))) =
               agg (join (f_dir f) l' (f_entry f) (inorder (f_sib f)))).
  { rewrite !comp_join, E; [done| |]; by eapply ok_around. }
  split_and!; [congruence|done|]. by eapply IH.
Qed.

Lemma around_propagate k : forall l a, around l (propagate a k) = around l k.
Proof. induction k as [|f k IH]; intros l a; simpl; [done|]. destruct (unchanged _ _); simpl; auto. Qed.

Lemma rbk_propagate c n k : rbk c n k -> forall a, rbk c n (propagate a k).
Proof.
  induction 1 as [n|d n x m s k Hs Hk IH|d c c' n x m s k Hs Hk IH]; intros a; simpl; [constructor| |];
    destruct (unchanged _ _); econstructor; eauto.
Qed.

(** [propagate] repairs the frames after the hole changed from [l] to [l']. *)
Lemma propagate_wk k : forall l l' a,
  a = agg l' -> Forall ok (around l k) -> Forall ok (around l' k) -> wk l k -> wk l' (propagate a k).
Proof.
  induction k as [|f k IH]; intros l l' a Ha O O' Hk; simpl in *; [done|].
  destruct Hk as (H1 & H2 & H3). rewrite (wa_aug _ H2), Ha.
  pose proof (comp_join (f_dir f) l' (f_entry f) (inorder (f_sib f)) (ok_around _ _ O')) as C.
  destruct (unchanged _ _) eqn:U; simpl; (split; [done|]); (split; [done|]).
  - apply unchanged_spec in U. eapply wk_agg; [|exact O|exact O'|exact H3].
    rewrite H1, C. by f_equal.
  - apply (IH (join (f_dir f) l (f_entry f) (inorder (f_sib f)))); [by rewrite C|done|done|done].
Qed.

Lemma inorder_rotate_parent d f t p :
  f_dir f <> d -> rotate_parent d f t = Some p ->
  inorder p = join (f_dir f) (inorder t) (f_entry f) (inorder (f_sib f)).
Proof.
  intros Hd. destruct t as [|c l x m r]; simpl; [done|].
  destruct d, (f_dir f); try done; simpl; intros [= <-]; simpl;
    rewrite inorder_set_color; by rewrite <- !app_assoc.
Qed.

Lemma wa_rotate_parent d f t p :
  f_dir f <> d -> rotate_parent d f t = Some p ->
  let l := join (f_dir f) (inorder t) (f_entry f) (inorder (f_sib f)) in
  Forall ok l -> agg l = Some (f_aug f) -> wa t -> wa (f_sib f) -> wa p.
Proof.
  intros Hd Hr l O Hl Ht Hs. pose proof (inorder_rotate_parent d f t p Hd Hr) as I.
  fold l in I. rewrite <- I in Hl, O. clear I l.
  destruct t as [|c tl x m tr]; simpl in Hr; [done|]. destruct Ht as (_ & H1 & H2).
  destruct (sides d tl tr) as [a b] eqn:Es.
  assert (wa a /\ wa b) as [Ha Hb] by (destruct d; simpl in Es; by simplify_eq).
  injection Hr as <-. rewrite inorder_mk in Hl, O. apply wa_mk; [done| |done].
  rewrite inorder_mk in O. rewrite ok_join in O. destruct O as (O & _ & _).
  apply wa_mk; [|done|by apply wa_set_color]. rewrite comp_join by done.
  by rewrite (wa_aug _ Hs), (wa_aug _ (wa_set_color Black a Ha)).
Qed.

Lemma inorder_rotate_grandparent g p s :
  rotate_grandparent g p = Some s ->
  inorder s = join (f_dir g) (inorder p) (f_entry g) (inorder (f_sib g)).
Proof.
  destruct p as [|c l x m r]; simpl; [done|].
  destruct (f_dir g); simpl; intros [= <-]; simpl; rewrite inorder_set_color;
    by rewrite <- !app_assoc.
Qed.

Lemma wa_rotate_grandparent g p s :
  rotate_grandparent g p = Some s ->
  let l := join (f_dir g) (inorder p) (f_entry g) (inorder (f_sib g)) in
  Forall ok l -> agg l = Some (f_aug g) -> wa p -> wa (f_sib g) -> wa s.
Proof.
  intros Hr l O Hl Hp Hs. pose proof (inorder_rotate_grandparent g p s Hr) as I.
  fold l in I. rewrite <- I in Hl, O. clear I l.
  destruct p as [|c tl x m tr]; simpl in Hr; [done|]. destruct Hp as (_ & H1 & H2).
  destruct (sides (f_dir g) tl tr) as [a b] eqn:Es.
  assert (wa a /\ wa b) as [Ha Hb] by (destruct (f_dir g); simpl in Es; by simplify_eq).
  injection Hr as <-. rewrite inorder_mk in Hl, O. apply wa_mk; [done|done|].
  rewrite inorder_mk in O. rewrite ok_join in O. destruct O as (_ & _ & O).
  apply wa_mk; [|by apply wa_set_color|done]. rewrite comp_join by done.
  by rewrite (wa_aug _ Hs), (wa_aug _ (wa_set_color Black b Hb)).
Qed.

(** [__rb_insert] keeps the list and the data. *)
Lemma insert_wa N : forall k t t',
  (length k <= N)%nat -> __rb_insert t k = Some t' ->
  inorder t' = around (inorder t) k /\
  (wa t -> wk (inorder t) k -> Forall ok (around (inorder t) k) -> wa t').
Proof.
  induction N as [|N IH]; intros [|f k] t t' Hl H; simpl in H, Hl; try lia.
  1,2: injection H as <-; simpl; rewrite inorder_set_color; split; [done|]; intros Ht _ _;
    by apply wa_set_color.
  destruct (f_color f).
  2:{ injection H as <-. split; [apply (inorder_zip (f :: k))|]. intros Ht Hk _. by apply (wa_zip (f :: k)). }
  destruct k as [|g k]; [done|]. simpl in Hl. simpl around. simpl wk.
  set (lp := join (f_dir f) (inorder t) (f_entry f) (inorder (f_sib f))).
  assert (Ip : inorder (plug t f) = lp) by (unfold plug; by rewrite inorder_mk).
  destruct (is_red (f_sib g)).
  - destruct (IH k _ t' ltac:(lia) H) as [I W].
    rewrite inorder_mk, !inorder_set_color, Ip in I, W. split; [done|].
    intros Ht (A1 & A2 & A3 & A4 & A5) O. apply W; [|done|done].
    apply wa_mk; [by rewrite !inorder_set_color, Ip| |by apply wa_set_color].
    apply wa_set_color. unfold plug. by apply wa_mk.
  - apply bind_Some in H as (p & Hp & (s & Hs & H)%bind_Some). injection H as <-.
    assert (P : inorder p = lp /\ (wa t -> agg lp = Some (f_aug f) -> wa (f_sib f) -> Forall ok lp -> wa p)).
    { destruct (decide (f_dir f = f_dir g)) as [Hd|Hd].
      - injection Hp as <-. split; [done|]. intros. unfold plug. by apply wa_mk.
      - split; [by apply (inorder_rotate_parent (f_dir g))|]. intros.
        by apply (wa_rotate_parent (f_dir g) f t). }
    destruct P as [Ip' Wp]. pose proof (inorder_rotate_grandparent g p s Hs) as Is. rewrite Ip' in Is.
    split; [by rewrite inorder_zip, Is|]. intros Ht (A1 & A2 & A3 & A4 & A5) O.
    assert (Og := ok_around _ _ O). assert (Op : Forall ok lp) by (by rewrite ok_join in Og; tauto).
    apply wa_zip; [|by rewrite Is]. apply (wa_rotate_grandparent g p s Hs); try done; rewrite ?Ip'; try done.
    by apply Wp.
Qed.

(** ** Sorted insertion *)

Context (less : A -> A -> bool).
Context (less_asym : forall x y, ok x -> ok y -> less x y = true -> less y x = false).
Context (less_trans : forall x y z, ok x -> ok y -> ok z ->
  less x y = true -> less z y = false -> less x z = true).

(** No entry is followed by a smaller one. *)
Fixpoint sorted (l : list A) : Prop :=
  match l with [] => True | x :: l => Forall (fun y => less y x = false) l /\ sorted l end.

Fixpoint ins (x : A) (l : list A) : list A :=
  match l with
  | [] => [x]
  | y :: l' => if less x y then x :: l else y :: ins x l'
  end.

Lemma sorted_app l1 l2 :
  sorted (l1 ++ l2) <-> sorted l1 /\ sorted l2 /\
    Forall (fun x => Forall (fun y => less y x = false) l2) l1.
Proof.
  induction l1 as [|x l1 IH]; simpl.
  - split; [intros; by split_and!|tauto].
  - rewrite Forall_app, IH, Forall_cons_iff. tauto.
Qed.

Lemma ins_left x l y r : less x y = true -> ins x (l ++ y :: r) = ins x l ++ y :: r.
Proof.
  intros H. induction l as [|z l IH]; simpl; [by rewrite H|]. destruct (less x z); simpl; [done|].
  by rewrite IH.
Qed.

Lemma ins_right x l y r :
  less x y = false -> Forall ok (l ++ y :: r) -> ok x -> sorted (l ++ y :: r) ->
  ins x (l ++ y :: r) = l ++ y :: ins x r.
Proof.
  intros H O Ox. induction l as [|z l IH]; simpl; [by rewrite H|].
  simpl in O. apply Forall_cons_iff in O as [Oz O]. intros [F S].
  destruct (less x z) eqn:E; [|by rewrite IH].
  apply Forall_app in F as [_ F]. apply Forall_cons_iff in F as [F _].
  apply Forall_app in O as [_ O]. apply Forall_cons_iff in O as [Oy _].
  rewrite (less_trans x z y) in H; done.
Qed.

Lemma ins_perm x l : ins x l ≡ₚ x :: l.
Proof.
  induction l as [|y l IH]; simpl; [done|]. destruct (less x y); [done|].
  rewrite IH. apply perm_swap.
Qed.

Lemma ins_sorted x l : ok x -> Forall ok l -> sorted l -> sorted (ins x l).
Proof.
  intros Ox O. induction l as [|y l IH]; simpl; [intros; by split|].
  apply Forall_cons_iff in O as [Oy O]. intros [F S]. destruct (less x y) eqn:E; simpl.
  - split; [|done]. apply Forall_cons_2; [by apply less_asym|].
    rewrite Forall_elem in *. intros z Hz. apply less_asym; [done|by apply O|].
    apply (less_trans x y z); try done; [by apply O|by apply F].
  - split; [|by apply IH]. rewrite Forall_elem in *. intros z Hz.
    rewrite (ins_perm x l) in Hz. apply elem_of_cons in Hz as [->|Hz]; [done|by apply F].
Qed.

Lemma descend_around x t : forall k lm k' lm',
  ok x -> Forall ok (inorder t) -> sorted (inorder t) ->
  descend less x t k lm = (k', lm') -> around [x] k' = around (ins x (inorder t)) k.
Proof.
  induction t as [|c l IHl y m r IHr]; intros k lm k' lm' Ox O S H; simpl in *; [by simplify_eq|].
  pose proof O as O'. apply Forall_app in O as [Ol Or]. apply Forall_cons_iff in Or as [Oy Or].
  pose proof S as S'. apply sorted_app in S as (Sl & [_ Sr] & _).
  destruct (less x y) eqn:E.
  - rewrite (IHl _ _ _ _ Ox Ol Sl H). simpl. by rewrite ins_left.
  - rewrite (IHr _ _ _ _ Ox Or Sr H). simpl. by rewrite ins_right.
Qed.

Lemma descend_leftmost x t : forall k lm,
  ok x -> Forall ok (inorder t) -> sorted (inorder t) ->
  snd (descend less x t k lm) =
  lm && match inorder t with [] => true | y :: _ => less x y end.
Proof.
  induction t as [|c l IHl y m r IHr]; intros k lm Ox O S; simpl in *; [by rewrite andb_true_r|].
  apply Forall_app in O as [Ol Or]. apply Forall_cons_iff in Or as [Oy Or].
  apply sorted_app in S as (Sl & [_ Sr] & F).
  destruct (less x y) eqn:E.
  - rewrite IHl by done. destruct (inorder l) as [|z il] eqn:El; simpl; [by rewrite E|done].
  - rewrite IHr by done. destruct (inorder l) as [|z il] eqn:El; simpl.
    + by rewrite E, !andb_false_r.
    + apply Forall_cons_iff in F as [Fz _]. apply Forall_cons_iff in Fz as [Fz _].
      apply Forall_cons_iff in Ol as [Oz _].
      destruct (less x z) eqn:Ez; [|by rewrite andb_false_r].
      rewrite (less_trans x z y) in E; done.
Qed.

Lemma descend_frames x t : forall k lm k' lm',
  descend less x t k lm = (k', lm') ->
  (wa t -> wk (inorder t) k -> wk [] k') /\
  (forall c n, rb c n t -> rbk c n k -> rbk Black 0 k').
Proof.
  induction t as [|c l IHl y m r IHr]; intros k lm k' lm' H; simpl in *.
  { injection H as <- <-. split; [done|]. intros c n Hr. by inversion Hr. }
  destruct (less x y).
  - destruct (IHl _ _ _ _ H) as [W R]. split.
    + intros (A1 & A2 & A3) K. apply W; [done|]. simpl. by split_and!.
    + intros c0 n Hr K. inversion Hr; subst; (eapply R; [done|]); by econstructor.
  - destruct (IHr _ _ _ _ H) as [W R]. split.
    + intros (A1 & A2 & A3) K. apply W; [done|]. simpl. by split_and!.
    + intros c0 n Hr K. inversion Hr; subst; (eapply R; [done|]); by econstructor.
Qed.

(** A well-formed cached tree. *)
Record rb_ok (t : rb_root_cached) : Prop := mk_rb_ok {
  ro_balanced : balanced (rb_root t);
  ro_aug : wa (rb_root t);
  ro_sorted : sorted (inorder (rb_root t));
  ro_entries : Forall ok (inorder (rb_root t));
  ro_leftmost : rb_leftmost t = head (inorder (rb_root t))
}.

Lemma rb_add_ok x m t :
  rb_ok t -> ok x -> agg [x] = Some m ->
  exists t', rb_add_augmented_cached less x m t = Some t' /\ rb_ok t' /\
    inorder (rb_root t') = ins x (inorder (rb_root t)).
Proof.
  intros [[n B] W S O L] Ox Hm. unfold rb_add_augmented_cached.
  pose proof (descend_leftmost x (rb_root t) [] true Ox O S) as Hlm.
  destruct (descend less x (rb_root t) [] true) as [k lm] eqn:D. simpl in Hlm.
  pose proof (descend_around x _ _ _ _ _ Ox O S D) as Ha. simpl in Ha.
  destruct (descend_frames x _ _ _ _ _ D) as [Hwk Hrbk].
  assert (O' : Forall ok (ins x (inorder (rb_root t)))).
  { rewrite Forall_elem in *. intros y Hy. rewrite ins_perm in Hy.
    apply elem_of_cons in Hy as [->|Hy]; [done|by apply O]. }
  assert (Ol : Forall ok (around [] k)).
  { destruct (around_split k) as (pre & post & E). rewrite <- Ha in O'. rewrite E in O' |- *.
    apply Forall_app in O' as [O1 O2]. apply Forall_app in O2 as [_ O2]. by apply Forall_app. }
  destruct (insert_balanced (length (propagate (Some m) k)) (propagate (Some m) k)
    (Node Red Leaf x m Leaf) 0) as (t' & Ht' & B'); [done|by repeat constructor| |].
  { apply rbk_propagate. apply (Hrbk _ _ B). constructor. }
  rewrite Ht'. simpl. eexists. split; [done|].
  destruct (insert_wa (length (propagate (Some m) k)) _ _ _ ltac:(done) Ht') as [I Wa].
  rewrite around_propagate in I. simpl in I. rewrite Ha in I. split; [|done]. split; simpl.
  - done.
  - apply Wa; [by split_and!| |by rewrite around_propagate; simpl; rewrite Ha].
    apply (propagate_wk k [] [x]); [done|done|by rewrite Ha|by apply Hwk].
  - rewrite I. by apply ins_sorted.
  - by rewrite I.
  - rewrite I. destruct (inorder (rb_root t)) as [|y l]; simpl in *; subst lm; [done|].
    by destruct (less x y).
Qed.

(** ** Removal *)

Lemma wk_app k1 k2 : forall l, wk l (k1 ++ k2) <-> wk l k1 /\ wk (around l k1) k2.
Proof. induction k1 as [|f k1 IH]; intros l; simpl; [tauto|]. rewrite IH. tauto. Qed.

Lemma around_app k1 k2 : forall l, around l (k1 ++ k2) = around (around l k1) k2.
Proof. induction k1 as [|f k1 IH]; intros l; simpl; [done|]. apply IH. Qed.

(** What balance depends on. *)
Definition shape (f : frame) : dir * color * tree := (f_dir f, f_color f, f_sib f).

Lemma rbk_shape k : forall k' c n, map shape k' = map shape k -> rbk c n k -> rbk c n k'.
Proof.
  induction k as [|f k IH]; intros [|f' k'] c n E H; simpl in E; try done.
  injection E as E1 E2 E3 E. destruct f' as [d' c' x' m' s']. simpl in *. subst.
  inversion H; subst; simpl in *; econstructor; eauto.
Qed.

Lemma propagate_shape k : forall a, map shape (propagate a k) = map shape k.
Proof.
  induction k as [|f k IH]; intros a; simpl; [done|]. destruct (unchanged _ _); simpl; [done|].
  by rewrite IH.
Qed.

(** [propagate] from a frame that carries the data of the old contents. *)
Lemma propagate_frame f k lold l a :
  agg lold = Some (f_aug f) -> wa (f_sib f) -> wk lold k -> a = agg l ->
  Forall ok (around lold k) -> Forall ok (around l (f :: k)) -> wk l (propagate a (f :: k)).
Proof.
  intros H1 H2 H3 Ha O O'. simpl. rewrite (wa_aug _ H2), Ha. simpl in O'.
  pose proof (comp_join (f_dir f) l (f_entry f) (inorder (f_sib f)) (ok_around _ _ O')) as C.
  destruct (unchanged _ _) eqn:U; simpl; (split; [done|]); (split; [done|]).
  - apply unchanged_spec in U. eapply wk_agg; [|exact O|exact O'|exact H3].
    rewrite H1, C. by f_equal.
  - apply (propagate_wk k lold); [by rewrite C|done|done|done].
Qed.

Definition all_left (k : list frame) : Prop := Forall (fun f => f_dir f = Lft) k.

Lemma around_left k : all_left k -> exists post, forall l, around l k = l ++ post.
Proof.
  induction 1 as [|f k Hf _ [post IH]]; [exists []; intros l; by rewrite app_nil_r|].
  exists (f_entry f :: inorder (f_sib f) ++ post). intros l. simpl. rewrite Hf. simpl.
  by rewrite IH, <- app_assoc.
Qed.

(** The frames down to the successor. *)
Lemma successor_spec l : forall c x m r k sc sx sr kr,
  successor c l x m r k = (sc, sx, sr, kr) -> all_left k ->
  all_left kr /\
  around (sx :: inorder sr) kr = around (inorder l ++ x :: inorder r) k /\
  (wa l -> wa r -> agg (inorder l ++ x :: inorder r) = Some m ->
     wk (inorder l ++ x :: inorder r) k -> wa sr /\ wk (sx :: inorder sr) kr) /\
  (forall n K, rb c n (Node c l x m r) -> rbk c n (k ++ K) ->
     exists n' m', rb sc n' (Node sc Leaf sx m' sr) /\ rbk sc n' (kr ++ K)).
Proof.
  induction l as [|c' l' IHl x' m' r' _]; intros c x m r k sc sx sr kr H Hk; simpl in H.
  - injection H as <- <- <- <-. split_and!; try done. intros n K Hr HK. by exists n, m.
  - destruct (IHl _ _ _ _ _ _ _ _ _ H) as (I1 & I2 & I3 & I4); [by constructor|].
    split; [done|]. split; [by rewrite I2|]. split.
    + intros (A1 & A2 & A3) A4 A5 A6. by apply I3.
    + intros n K Hr HK. inversion Hr as [|n1 ? ? ? ? Hl1 Hr1|c1 c2 n1 ? ? ? ? Hl1 Hr1]; subst.
      * assert (c' = Black) as -> by (by inversion Hl1). eapply I4; [done|]. by econstructor.
      * assert (c' = c1) as -> by (by inversion Hl1). eapply I4; [done|]. by econstructor.
Qed.

Lemma ok_drop l x r k : Forall ok (around (l ++ x :: r) k) -> Forall ok (around (l ++ r) k).
Proof.
  destruct (around_split k) as (pre & post & E). rewrite !E, !Forall_app, Forall_cons_iff. tauto.
Qed.

(** Both children present. *)
Lemma erase_two c l x m rc rl rx rm rr k sc sx sr kr :
  let r := Node rc rl rx rm rr in
  let L := inorder l ++ x :: inorder r in
  let kr1 := propagate (aug sr) kr in
  let ks := propagate (aug (zip_up sr kr1)) (mk_frame Rgt c sx m l :: k) in
  successor rc rl rx rm rr [] = (sc, sx, sr, kr) ->
  around (inorder sr) (kr1 ++ ks) = around (inorder l ++ inorder r) k /\
  (wa l -> wa r -> agg L = Some m -> wk L k -> Forall ok (around L k) ->
     wa sr /\ wk (inorder sr) (kr1 ++ ks)) /\
  (forall n, rb c n (Node c l x m r) -> rbk c n k ->
     exists n' m', rb sc n' (Node sc Leaf sx m' sr) /\ rbk sc n' (kr1 ++ ks)).
Proof.
  intros r L kr1 ks H. destruct (successor_spec _ _ _ _ _ _ _ _ _ _ H) as (S1 & S2 & S3 & S4); [constructor|].
  destruct (around_left kr S1) as [post Hpost]. simpl in S2. rewrite Hpost in S2.
  assert (Ir : inorder r = sx :: inorder sr ++ post) by (unfold r; simpl; by rewrite <- S2).
  assert (Ez : inorder (zip_up sr kr1) = inorder sr ++ post).
  { unfold kr1. by rewrite inorder_zip, around_propagate, Hpost. }
  assert (Ea : around (inorder sr) (kr1 ++ ks) = around (inorder l ++ inorder r) k).
  { rewrite Ir, around_app. unfold ks, kr1. by rewrite !around_propagate, Hpost. }
  split; [done|]. split.
  - intros Wl Wr HL HK O. destruct Wr as (R1 & R2 & R3).
    destruct (S3 R2 R3 R1) as [Wsr Wkr]; [done|]. split; [done|].
    assert (Osr : Forall ok (sx :: inorder sr ++ post)).
    { rewrite <- Ir. pose proof (ok_around _ _ O) as O1. unfold L in O1. rewrite Forall_app, Forall_cons_iff in O1.
      tauto. }
    assert (W1 : wk (inorder sr) kr1).
    { apply (propagate_wk kr (sx :: inorder sr)); [by rewrite (wa_aug _ Wsr)|by rewrite Hpost| |done].
      rewrite Hpost. by apply Forall_cons_iff in Osr as [_ ?]. }
    apply wk_app. split; [done|]. unfold kr1 at 1. rewrite around_propagate, Hpost.
    apply (propagate_frame _ _ L); try done.
    + rewrite <- Ez. apply wa_aug. by apply wa_zip.
    + simpl. rewrite <- Ir. by apply ok_drop with x.
  - intros n Hr Hk.
    assert (exists n1, rb rc n1 r /\ rbk rc n1 (mk_frame Rgt c sx m l :: k)) as (n1 & Rr & Rk).
    { inversion Hr as [|? ? ? ? ? Hl1 Hr1|? ? ? ? ? ? ? Hl1 Hr1]; subst;
        rewrite (rb_node_color _ _ _ _ _ _ _ Hr1); eexists; (split; [done|]); by econstructor. }
    destruct (S4 n1 (mk_frame Rgt c sx m l :: k) Rr Rk) as (n' & m' & R1 & R2).
    exists n', m'. split; [done|]. eapply rbk_shape; [|done]. unfold ks, kr1.
    by rewrite !map_app, !propagate_shape.
Qed.

(** One child only: it takes the place and the colour of the node. *)
Lemma rb_only d c n x m t :
  rb c n (mk d c Leaf x m t) -> t <> Leaf -> rb c n (set_color c t).
Proof.
  intros H Ht. assert (exists c1 c2 n', rb c1 n' Leaf /\ rb c2 n' t /\ (c = Red -> c2 = Black) /\
    (c = Black -> n = S n')) as (c1 & c2 & n' & H1 & H2 & HR & HB).
  { destruct d; inversion H; subst; eexists _, _, _; split_and!; try done. }
  inversion H1; subst. inversion H2; subst; try done. destruct c; [by specialize (HR eq_refl)|].
  rewrite HB by done. by apply rb_blacken.
Qed.

Lemma erase_one d c x m t k :
  let L := join d [] x (inorder t) in
  t <> Leaf ->
  around (inorder (set_color c t)) (propagate (aug t) k) = around (inorder t) k /\
  (wa t -> wk L k -> Forall ok (around L k) ->
     wa (set_color c t) /\ wk (inorder (set_color c t)) (propagate (aug t) k)) /\
  (forall n, rb c n (mk d c Leaf x m t) -> rbk c n k ->
     exists c' n', rb c' n' (set_color c t) /\ rbk c' n' (propagate (aug t) k)).
Proof.
  intros L Ht. rewrite inorder_set_color, around_propagate. split; [done|]. split.
  - intros W K O. split; [by apply wa_set_color|]. apply (propagate_wk k L); try done; [by apply wa_aug|].
    unfold L in O. destruct d; simpl in O; [by apply (ok_drop [] x)|].
    rewrite <- (app_nil_r (inorder t)). by apply (ok_drop _ x).
  - intros n H K. exists c, n. split; [by apply (rb_only d c n x m)|by apply rbk_propagate].
Qed.

Lemma erase_aug_spec c l x m r k t k' reb :
  let L := inorder l ++ x :: inorder r in
  __rb_erase_augmented c l m r k = (t, k', reb) ->
  around (inorder t) k' = around (inorder l ++ inorder r) k /\
  (wa l -> wa r -> agg L = Some m -> wk L k -> Forall ok (around L k) -> wa t /\ wk (inorder t) k') /\
  (forall n, rb c n (Node c l x m r) -> rbk c n k ->
     if reb : bool then t = Leaf /\ k' <> [] /\ rbk Black 1 k'
     else exists c' n', rb c' n' t /\ rbk c' n' k').
Proof.
  intros L H. unfold __rb_erase_augmented in H.
  destruct l as [|lc ll lx lm lr]; [destruct r as [|rc rl rx rm rr]|destruct r as [|rc rl rx rm rr]].
  - injection H as <- <- <-. rewrite around_propagate. split; [done|]. split.
    + intros _ _ HL HK O. split; [done|].
      apply (propagate_wk k L [] None); [by rewrite agg_nil|done|by apply (ok_drop [] x [])|done].
    + intros n Hr Hk. inversion Hr as [|? ? ? ? ? H1 H2|? ? ? ? ? ? ? H1 H2]; subst; inversion H1; subst.
      * simpl. exists Black, 0%nat. split; [constructor|]. apply rbk_propagate. by apply rbk_red_any.
      * destruct k as [|f k]; [exists Black, 0%nat; split; constructor|]. simpl bool_decide.
        split; [done|]. split; [simpl; by destruct (unchanged _ _)|].
        by apply (rbk_propagate Black 1 (f :: k)).
  - injection H as <- <- <-.
    destruct (erase_one Lft c x m (Node rc rl rx rm rr) k) as (I1 & I2 & I3); [done|].
    split; [done|]. split; [|done]. intros _ W _ K O. by apply I2.
  - injection H as <- <- <-. rewrite app_nil_r.
    destruct (erase_one Rgt c x m (Node lc ll lx lm lr) k) as (I1 & I2 & I3); [done|].
    split; [done|]. split; [|done]. intros W _ _ K O. by apply I2.
  - destruct (successor rc rl rx rm rr []) as [[[sc sx] sr] kr] eqn:Es.
    destruct (erase_two c (Node lc ll lx lm lr) x m rc rl rx rm rr k sc sx sr kr Es) as (I1 & I2 & I3).
    destruct sr as [|ec el ex em er]; injection H as <- <- <-; (split; [done|]); (split; [exact I2|]);
      intros n Hr Hk; destruct (I3 n Hr Hk) as (n' & m' & J1 & J2).
    + inversion J1 as [|? ? ? ? ? H1 H2|? ? ? ? ? ? ? H1 H2]; subst; inversion H1; subst; simpl bool_decide.
      * exists Black, 0%nat. split; [constructor|by apply rbk_red_any].
      * split; [done|]. split; [|done]. simpl. destruct (unchanged _ _); apply app_cons_not_nil || by intros [_ ?]%app_nil.
    + exists Black, n'. pose proof (rb_only Lft sc n' sx m' (Node ec el ex em er) J1) as P.
      inversion J1 as [|? ? ? ? ? H1 H2|? ? ? ? ? ? ? H1 H2]; subst; inversion H1; subst; [by inversion H2|].
      split; [by apply P|done].
Qed.

(** Regrouping at a rotation. *)
Lemma join_assoc d a x b y e : join d (join d a x b) y e = join d a x (join d b y e).
Proof. destruct d; simpl; by rewrite <- app_assoc. Qed.

Lemma inorder_sides d c l x m r a b :
  sides d l r = (a, b) -> inorder (Node c l x m r) = join d (inorder a) x (inorder b).
Proof. destruct d; simpl; by intros [= <- <-]. Qed.

Lemma wa_sides d c l x m r a b : wa (Node c l x m r) -> sides d l r = (a, b) -> wa a /\ wa b.
Proof. intros (_ & ? & ?). destruct d; simpl; by intros [= <- <-]. Qed.

(** A node built anew with its data recomputed. *)
Lemma wa_comp d c a x b :
  Forall ok (join d (inorder a) x (inorder b)) -> wa a -> wa b ->
  wa (mk d c a x (comp d x (aug a) (aug b)) b).
Proof. intros O Ha Hb. apply wa_mk; [|done|done]. by rewrite comp_join, (wa_aug _ Ha), (wa_aug _ Hb). Qed.

Lemma inorder_rotate_sibling d node pc px pm near sx far :
  inorder (rotate_sibling d node pc px pm near sx far) =
  join d (inorder node) px (join d (inorder near) sx (inorder far)).
Proof. unfold rotate_sibling. by rewrite !inorder_mk, inorder_set_color, join_assoc. Qed.

Lemma wa_rotate_sibling d node pc px pm near sx far :
  let l := join d (inorder node) px (join d (inorder near) sx (inorder far)) in
  Forall ok l -> agg l = Some pm -> wa node -> wa near -> wa far ->
  wa (rotate_sibling d node pc px pm near sx far).
Proof.
  intros l O Hl Hn Ha Hf. unfold l in O. rewrite <- join_assoc, ok_join in O. destruct O as [O _].
  apply wa_mk; [|by apply wa_comp|by apply wa_set_color].
  by rewrite inorder_mk, inorder_set_color, join_assoc.
Qed.

Lemma erase_black_sibling_wa d node pc px pm s up t :
  erase_black_sibling d node pc px pm s = Some (up, t) ->
  let l := join d (inorder node) px (inorder s) in
  inorder t = l /\ (Forall ok l -> agg l = Some pm -> wa node -> wa s -> wa t).
Proof.
  intros H l. destruct s as [|sc sl sx sm sr]; [done|]. unfold erase_black_sibling in H.
  destruct (sides d sl sr) as [near far] eqn:Es. unfold l. rewrite (inorder_sides _ _ _ _ _ _ _ _ Es).
  assert (Er : inorder (Node Red sl sx sm sr) = join d (inorder near) sx (inorder far)).
  { apply (inorder_sides _ _ _ _ _ _ _ _ Es). }
  destruct (negb (is_red far)).
  - destruct (negb (is_red near)).
    + assert (t = mk d Black node px pm (Node Red sl sx sm sr)) as -> by (destruct pc; by simplify_eq).
      rewrite inorder_mk, Er. split; [done|]. intros O Hl Hn Hs. apply wa_mk; by rewrite ?Er.
    + destruct near as [|nc nl nx nm nr]; [done|]. destruct (sides d nl nr) as [a b] eqn:En.
      injection H as <- <-. rewrite inorder_rotate_sibling, inorder_mk, inorder_set_color.
      rewrite (inorder_sides _ _ _ _ _ _ _ _ En), <- (join_assoc d (inorder a)). split; [done|].
      intros O Hl Hn Hs. destruct (wa_sides _ _ _ _ _ _ _ _ Hs Es) as [Hnear Hfar].
      destruct (wa_sides _ _ _ _ _ _ _ _ Hnear En) as [Ha Hb].
      rewrite join_assoc in O, Hl.
      apply wa_rotate_sibling; rewrite ?inorder_mk, ?inorder_set_color; try done.
      rewrite !ok_join in O. apply wa_comp; [|by apply wa_set_color|done].
      rewrite inorder_set_color, ok_join. tauto.
  - injection H as <- <-. rewrite inorder_rotate_sibling. split; [done|]. intros O Hl Hn Hs.
    destruct (wa_sides _ _ _ _ _ _ _ _ Hs Es) as [Hnear Hfar]. by apply wa_rotate_sibling.
Qed.

(** What one turn of the loop leaves at the parent's place. *)
Definition fixed (pc : color) (n : nat) (up : bool) (t : tree) : Prop :=
  if up then pc = Black /\ rb Black (S n) t
  else match pc with Red => exists c, rb c (S n) t | Black => rb Black (S (S n)) t end.

Lemma fixed_rotate d node pc px pm near sx far n c :
  rb Black n node -> rb c n near -> rb Black (S n) (set_color Black far) ->
  fixed pc n false (rotate_sibling d node pc px pm near sx far).
Proof.
  intros Hn Ha Hf. unfold rotate_sibling, fixed.
  assert (H1 : rb Black (S n) (mk d Black node px (comp d px (aug node) (aug near)) near)).
  { by eapply rb_mk_black. }
  destruct pc; [exists Red; by apply rb_mk_red|by eapply rb_mk_black].
Qed.

Lemma erase_black_sibling_fixed d node pc px pm s n :
  rb Black n node -> rb Black (S n) s ->
  exists up t, erase_black_sibling d node pc px pm s = Some (up, t) /\ fixed pc n up t.
Proof.
  intros Hn Hs. inversion Hs as [| |c1 c2 ? sl sx sm sr Hl Hr]; subst. simpl.
  destruct (sides d sl sr) as [near far] eqn:Es.
  destruct (rb_sides _ _ _ _ _ _ _ _ _ Hs Es) as (ca & cf & n' & Ha & Hf & _ & E).
  injection (E eq_refl) as ->. clear E.
  rewrite (rb_is_red _ _ _ Hf), (rb_is_red _ _ _ Ha). destruct cf; simpl.
  - eexists _, _. split; [done|]. eapply fixed_rotate; [done|done|]. by apply rb_blacken.
  - destruct ca; simpl.
    + inversion Ha as [|? nl nx nm nr Hnl Hnr|]; subst. destruct (sides d nl nr) as [a b] eqn:En.
      destruct (rb_sides _ _ _ _ _ _ _ _ _ Ha En) as (cx & cy & k & Hx & Hy & E & _).
      destruct (E eq_refl) as (-> & -> & ->). rewrite (rb_blacken_id _ _ Hy).
      eexists _, _. split; [done|]. eapply fixed_rotate; [done|done|].
      pose proof (rb_mk_black d _ _ _ b sx (comp d sx (aug b) (aug far)) far Hy Hf) as P.
      by rewrite (rb_blacken_id _ _ P).
    + assert (Hred : rb Red n' (Node Red sl sx sm sr)).
      { apply rb_red; destruct d; simpl in Es; by simplify_eq. }
      destruct pc; (eexists _, _; split; [done|]); simpl.
      * exists Black. by eapply rb_mk_black.
      * split; [done|]. by eapply rb_mk_black.
Qed.

Lemma erase_step_wa d node pc px pm s up t :
  erase_step d node pc px pm s = Some (up, t) ->
  let l := join d (inorder node) px (inorder s) in
  inorder t = l /\ (Forall ok l -> agg l = Some pm -> wa node -> wa s -> wa t).
Proof.
  unfold erase_step. destruct (is_red s); [|apply erase_black_sibling_wa].
  destruct s as [|sc sl sx sm sr]; [done|]. destruct (sides d sl sr) as [near far] eqn:Es.
  rewrite (inorder_sides _ _ _ _ _ _ _ _ Es). destruct near as [|nc nl nx nm nr] eqn:En; [done|].
  rewrite <- En in *. clear En. intros ([up' t'] & H & [= -> <-])%bind_Some.
  destruct (erase_black_sibling_wa _ _ _ _ _ _ _ _ H) as [I W]. clear H.
  rewrite inorder_set_color in I, W. rewrite inorder_mk, I, join_assoc. split; [done|].
  intros O Hl Hn Hs. destruct (wa_sides _ _ _ _ _ _ _ _ Hs Es) as [Hnear Hfar].
  apply wa_mk; [by rewrite I, join_assoc| |done].
  rewrite <- join_assoc, ok_join in O. destruct O as [O _]. apply W; try done; [|by apply wa_set_color].
  by rewrite comp_join, (wa_aug _ Hn), aug_set_color, (wa_aug _ Hnear).
Qed.

Lemma erase_step_fixed d node pc px pm s n c :
  rb Black n node -> rb c (S n) s -> (pc = Red -> c = Black) ->
  exists up t, erase_step d node pc px pm s = Some (up, t) /\ fixed pc n up t.
Proof.
  intros Hn Hs Hc. unfold erase_step. rewrite (rb_is_red _ _ _ Hs). destruct c; simpl.
  2:{ by apply erase_black_sibling_fixed. }
  destruct pc; [by specialize (Hc eq_refl)|]. clear Hc.
  inversion Hs as [|? sl sx sm sr Hl Hr|]; subst. destruct (sides d sl sr) as [near far] eqn:Es.
  destruct (rb_sides _ _ _ _ _ _ _ _ _ Hs Es) as (ca & cf & k & Ha & Hf & E & _).
  destruct (E eq_refl) as (-> & -> & ->). clear E.
  destruct near as [|nc nl nx nm nr] eqn:En; [by inversion Ha|]. rewrite <- En in *. clear En.
  rewrite (rb_blacken_id _ _ Ha).
  destruct (erase_black_sibling_fixed d node Red px (comp d px (aug node) (aug near)) near n Hn Ha)
    as (up & t & -> & F). simpl. destruct up; [by destruct F|]. destruct F as [c F].
  eexists false, _. split; [done|]. simpl. by eapply rb_mk_black.
Qed.

Lemma erase_color_wa k : forall node t,
  ____rb_erase_color node k = Some t ->
  inorder t = around (inorder node) k /\
  (wa node -> wk (inorder node) k -> Forall ok (around (inorder node) k) -> wa t).
Proof.
  induction k as [|f k IH]; intros node t H; [done|]. cbn [____rb_erase_color] in H.
  apply bind_Some in H as ([up t1] & H1 & H). destruct (erase_step_wa _ _ _ _ _ _ _ _ H1) as [I W].
  assert (P : (k = [] /\ t = t1) \/ ____rb_erase_color t1 k = Some t \/ t = zip_up t1 k).
  { destruct up; [|injection H as <-; tauto]. destruct k; [injection H as <-; tauto|tauto]. }
  clear H H1. simpl. rewrite <- I. 
  assert (Q : wa node -> (agg (inorder t1) = Some (f_aug f) /\ wa (f_sib f) /\ wk (inorder t1) k) ->
    Forall ok (around (inorder t1) k) -> wa t1).
  { intros Hn (A1 & A2 & A3) O. apply W; try done; rewrite <- I; [by eapply ok_around|done]. }
  destruct P as [[-> ->]|[P| ->]].
  - split; [done|]. tauto.
  - destruct (IH _ _ P) as [I' W']. split; [done|]. intros Hn HK O. apply W'; tauto.
  - split; [apply inorder_zip|]. intros Hn HK O. apply wa_zip; tauto.
Qed.

Lemma erase_color_balanced k : forall node n,
  k <> [] -> rb Black n node -> rbk Black (S n) k ->
  exists t, ____rb_erase_color node k = Some t /\ balanced t.
Proof.
  induction k as [|f k IH]; intros node n Hk Hn H; [done|]. clear Hk. cbn [____rb_erase_color].
  assert (exists c, rb c (S n) (f_sib f) /\ (f_color f = Red -> c = Black) /\
    match f_color f with Red => rbk Red (S n) k | Black => rbk Black (S (S n)) k end)
    as (c & Hs & Hc & Hk).
  { inversion H; subst; simpl; eexists; by split_and!. }
  destruct (erase_step_fixed (f_dir f) node (f_color f) (f_entry f) (f_aug f) (f_sib f) n c Hn Hs Hc)
    as (up & t & -> & F). simpl. destruct up; simpl in F.
  - destruct F as [Ef F]. rewrite Ef in Hk. destruct k as [|g k]; [eexists; split; [done|by eexists]|].
    by apply (IH t (S n)).
  - eexists. split; [done|]. destruct (f_color f); [destruct F as [c' F]; eapply rb_zip; [done|by apply rbk_red_any]|].
    by eapply rb_zip.
Qed.

Lemma rb_erase_list c l x m r k t :
  let L := inorder l ++ x :: inorder r in
  rb_erase_augmented c l m r k = Some t ->
  inorder t = around (inorder l ++ inorder r) k /\
  (wa l -> wa r -> agg L = Some m -> wk L k -> Forall ok (around L k) -> wa t).
Proof.
  intros L H. unfold rb_erase_augmented in H.
  destruct (__rb_erase_augmented c l m r k) as [[t1 k1] reb] eqn:E.
  destruct (erase_aug_spec c l x m r k t1 k1 reb E) as (I & W & _).
  assert (P : inorder t = around (inorder t1) k1 /\
    (wa t1 -> wk (inorder t1) k1 -> Forall ok (around (inorder t1) k1) -> wa t)).
  { destruct reb; [by apply erase_color_wa|]. injection H as <-.
    split; [apply inorder_zip|]. intros. by apply wa_zip. }
  destruct P as [I' W']. split; [by rewrite I', I|]. intros Wl Wr HL HK O.
  destruct (W Wl Wr HL HK O) as [W1 W2]. apply W'; [done|done|]. rewrite I. by apply (ok_drop _ x).
Qed.

Lemma rb_erase_balanced c l x m r k n :
  rb c n (Node c l x m r) -> rbk c n k ->
  exists t, rb_erase_augmented c l m r k = Some t /\ balanced t.
Proof.
  intros Hr Hk. unfold rb_erase_augmented.
  destruct (__rb_erase_augmented c l m r k) as [[t1 k1] reb] eqn:E.
  destruct (erase_aug_spec c l x m r k t1 k1 reb E) as (_ & _ & B). specialize (B n Hr Hk).
  destruct reb.
  - destruct B as (-> & Hk1 & B). by apply (erase_color_balanced k1 Leaf 0); [|constructor|].
  - destruct B as (c' & n' & B1 & B2). eexists. split; [done|]. by eapply rb_zip.
Qed.

Lemma locate_spec p t : forall k c l x m r k',
  locate p t k = Some (c, l, x, m, r, k') ->
  let L := inorder l ++ x :: inorder r in
  p x = true /\ around L k' = around (inorder t) k /\
  (wa t -> wk (inorder t) k -> wa l /\ wa r /\ agg L = Some m /\ wk L k') /\
  (forall c0 n, rb c0 n t -> rbk c0 n k -> exists n', rb c n' (Node c l x m r) /\ rbk c n' k').
Proof.
  induction t as [|tc tl IHl y tm tr IHr]; intros k c l x m r k' H L; simpl in H; [done|].
  destruct (p y) eqn:Py.
  - injection H as <- <- <- <- <- <-. split_and!; try done.
    + intros (A1 & A2 & A3) HK. by split_and!.
    + intros c0 n Hr Hk. pose proof (rb_node_color _ _ _ _ _ _ _ Hr) as <-. by exists n.
  - destruct (locate p tl _) as [z|] eqn:El.
    + injection H as ->. destruct (IHl _ _ _ _ _ _ _ El) as (P & I & W & B). split; [done|].
      split; [done|]. split.
      * intros (A1 & A2 & A3) HK. apply W; [done|]. by split_and!.
      * intros c0 n Hr Hk. inversion Hr; subst; (eapply B; [done|]); by econstructor.
    + destruct (IHr _ _ _ _ _ _ _ H) as (P & I & W & B). split; [done|].
      split; [done|]. split.
      * intros (A1 & A2 & A3) HK. apply W; [done|]. by split_and!.
      * intros c0 n Hr Hk. inversion Hr; subst; (eapply B; [done|]); by econstructor.
Qed.

Lemma locate_some p t : forall k x, x ∈ inorder t -> p x = true -> is_Some (locate p t k).
Proof.
  induction t as [|tc tl IHl y tm tr IHr]; intros k x Hx Px; simpl in *.
  - by apply not_elem_of_nil in Hx.
  - destruct (p y) eqn:Py; [by eexists|]. apply elem_of_app in Hx as [Hx|Hx].
    + destruct (IHl (mk_frame Lft tc y tm tr :: k) x Hx Px) as [z ->]. by eexists.
    + apply elem_of_cons in Hx as [->|Hx]; [congruence|].
      destruct (locate p tl _); [by eexists|]. by apply (IHr _ x).
Qed.

(** A list holds one entry that satisfies [p]. *)
Lemma unique_split (p : A -> bool) l1 x l2 m1 y m2 :
  l1 ++ x :: l2 = m1 ++ y :: m2 -> p x = true -> p y = true ->
  Forall (fun z => p z = false) (m1 ++ m2) -> l1 = m1 /\ x = y /\ l2 = m2.
Proof.
  revert m1. induction l1 as [|a l1 IH]; intros [|b m1] E Px Py F; simpl in E, F; injection E as -> E.
  - by split_and!.
  - apply Forall_cons_iff in F as [F _]. congruence.
  - subst m2. apply Forall_app in F as [_ F]. apply Forall_cons_iff in F as [F _]. congruence.
  - apply Forall_cons_iff in F as [_ F]. destruct (IH m1 E Px Py F) as (-> & -> & ->). by split_and!.
Qed.

Lemma rb_first_spec t : rb_first t = head (inorder t).
Proof.
  induction t as [|c l IHl x m r _]; [done|]. destruct l as [|lc ll lx lm lr]; [done|].
  change (rb_first (Node c (Node lc ll lx lm lr) x m r)) with (rb_first (Node lc ll lx lm lr)).
  rewrite IHl. simpl. by destruct (inorder ll).
Qed.

Lemma rb_last_spec t : rb_last t = list.last (inorder t).
Proof.
  induction t as [|c l _ x m r IHr]; [done|]. destruct r as [|rc rl rx rm rr]; simpl.
  - by rewrite last_snoc.
  - change (rb_last (Node rc rl rx rm rr) = list.last (inorder l ++ x :: inorder (Node rc rl rx rm rr))).
    rewrite IHr, last_app_cons. simpl. by destruct (inorder rl).
Qed.

Lemma next_up_spec k : exists pre post,
  (forall l, around l k = pre ++ l ++ post) /\ next_up k = head post.
Proof.
  induction k as [|f k (pre & post & E & N)]; [exists [], []; split; [intros l; by rewrite app_nil_r|done]|].
  destruct f as [[] c x m s]; simpl.
  - exists pre, (x :: inorder s ++ post). split; [|done]. intros l. rewrite E. simpl. by rewrite <- app_assoc.
  - exists (pre ++ inorder s ++ [x]), post. split; [|done]. intros l. rewrite E. simpl.
    by rewrite <- !app_assoc.
Qed.

(** [rb_next] is the entry that follows in the list. *)
Lemma rb_next_spec l r k : exists pre post,
  (forall h, around (inorder l ++ h ++ inorder r) k = pre ++ h ++ post) /\
  rb_next r k = head post.
Proof.
  destruct (next_up_spec k) as (pre & post & E & N). exists (pre ++ inorder l), (inorder r ++ post). split.
  - intros h. rewrite E. by rewrite <- !app_assoc.
  - unfold rb_next. destruct r as [|rc rl rx rm rr]; [done|]. rewrite rb_first_spec. simpl.
    by destruct (inorder rl).
Qed.

Lemma sorted_drop l1 x l2 : sorted (l1 ++ x :: l2) -> sorted (l1 ++ l2).
Proof.
  rewrite !sorted_app. intros (H1 & [_ H2] & H3). split_and!; [done|done|].
  eapply Forall_impl; [|exact H3]. simpl. intros y Hy. by apply Forall_cons_iff in Hy as [_ ?].
Qed.

Lemma rb_erase_ok p t pre x post :
  rb_ok t -> inorder (rb_root t) = pre ++ x :: post ->
  p x = true -> Forall (fun y => p y = false) (pre ++ post) ->
  exists t', rb_erase_augmented_cached p t = Some t' /\ rb_ok t' /\
    inorder (rb_root t') = pre ++ post.
Proof.
  intros [[n B] W S O Lm] E Px Fp. unfold rb_erase_augmented_cached.
  destruct (locate_some p (rb_root t) [] x) as [[[[[[c l] y] m] r] k] HL]; [|done|].
  { rewrite E. apply elem_of_app. right. by left. }
  rewrite HL. simpl. destruct (locate_spec p _ _ _ _ _ _ _ _ HL) as (Py & I & Wf & Bf). simpl in I.
  destruct (rb_next_spec l r k) as (pre' & post' & Ea & N).
  pose proof (Ea [y]) as Ey. simpl in Ey. rewrite I, E in Ey.
  destruct (unique_split p _ _ _ _ _ _ (eq_sym Ey) Py Px Fp) as (-> & -> & ->).
  pose proof (Ea []) as E0. simpl in E0.
  destruct (Bf Black n B ltac:(constructor)) as (n' & Br & Bk).
  destruct (rb_erase_balanced c l x m r k n' Br Bk) as (t' & Ht & Bt).
  rewrite Ht. simpl. eexists. split; [done|].
  destruct (rb_erase_list c l x m r k t' Ht) as [It Wt]. rewrite E0 in It.
  destruct (Wf W Logic.I) as (W1 & W2 & W3 & W4).
  split; [|done]. split; simpl; rewrite ?It.
  - done.
  - apply Wt; try done. by rewrite I.
  - apply (sorted_drop _ x). by rewrite <- E.
  - rewrite E in O. by apply (ok_drop pre x post []).
  - rewrite Lm, E, N. destruct pre as [|z pre]; simpl; [by rewrite Px|].
    simpl in Fp. apply Forall_cons_iff in Fp as [Pz _]. by rewrite Pz.
Qed.

Lemma rb_update_ok p f t pre x post :
  rb_ok t -> inorder (rb_root t) = pre ++ x :: post ->
  p x = true -> Forall (fun y => p y = false) (pre ++ post) ->
  ok (f x) -> sorted (pre ++ f x :: post) ->
  exists t', rb_update p f t = Some t' /\ rb_ok t' /\
    inorder (rb_root t') = pre ++ f x :: post.
Proof.
  intros [[n B] W S O Lm] E Px Fp Of Sf. unfold rb_update.
  destruct (locate_some p (rb_root t) [] x) as [[[[[[c l] y] m] r] k] HL]; [|done|].
  { rewrite E. apply elem_of_app. right. by left. }
  rewrite HL. simpl. destruct (locate_spec p _ _ _ _ _ _ _ _ HL) as (Py & I & Wf & Bf). simpl in I.
  destruct (rb_next_spec l r k) as (pre' & post' & Ea & _).
  pose proof (Ea [y]) as Ey. simpl in Ey. rewrite I, E in Ey.
  destruct (unique_split p _ _ _ _ _ _ (eq_sym Ey) Py Px Fp) as (-> & -> & ->).
  pose proof (Ea [f x]) as E1. simpl in E1.
  destruct (Bf Black n B ltac:(constructor)) as (n' & Br & Bk).
  destruct (Wf W Logic.I) as (W1 & W2 & W3 & W4).
  assert (Ol : Forall ok (around (inorder l ++ x :: inorder r) k)) by by rewrite I.
  assert (Of' : Forall ok (around (inorder l ++ f x :: inorder r) k)).
  { rewrite E1. rewrite E in O. rewrite Forall_app, Forall_cons_iff in *. tauto. }
  set (m' := compute (f x) (aug l) (aug r)).
  assert (Am : agg (inorder l ++ f x :: inorder r) = Some m').
  { rewrite agg_node by by eapply ok_around. by rewrite <- !wa_aug. }
  set (k' := if unchanged m' m then k else propagate (Some m') k).
  assert (K : around (inorder l ++ f x :: inorder r) k' = pre ++ f x :: post /\
    wk (inorder l ++ f x :: inorder r) k' /\ rbk c n' k').
  { unfold k'. destruct (unchanged m' m) eqn:U; rewrite ?around_propagate; (split; [done|]).
    - apply unchanged_spec in U. split; [|done]. eapply wk_agg; [|exact Ol|done|done]. by rewrite W3, Am, U.
    - split; [eapply propagate_wk; [by rewrite Am|exact Ol|done|done]|by apply rbk_propagate]. }
  destruct K as (K1 & K2 & K3).
  assert (It : inorder (zip_up (Node c l (f x) m' r) k') = pre ++ f x :: post).
  { rewrite inorder_zip. by rewrite <- K1. }
  eexists. split; [done|]. split; [|done]. split; simpl; rewrite ?It.
  - eapply rb_zip; [|exact K3]. inversion Br; subst; by econstructor.
  - by apply wa_zip.
  - done.
  - by rewrite <- E1.
  - rewrite Lm, E. destruct pre as [|z pre]; simpl; [by rewrite Px|].
    simpl in Fp. apply Forall_cons_iff in Fp as [Pz _]. by rewrite Pz.
Qed.

(** ** Contents without order *)

(** What the calls do to the list of entries, whatever the order of the tree. *)
Lemma around_perm k : forall l l', l ≡ₚ l' -> around l k ≡ₚ around l' k.
Proof.
  induction k as [|f k IH]; intros l l' E; simpl; [done|]. apply IH. destruct (f_dir f); simpl; by rewrite E.
Qed.

Lemma descend_perm x t : forall k lm k' lm',
  descend less x t k lm = (k', lm') -> around [x] k' ≡ₚ around (x :: inorder t) k.
Proof.
  induction t as [|c l IHl y m r IHr]; intros k lm k' lm' H; simpl in *; [by simplify_eq|].
  destruct (less x y); [rewrite (IHl _ _ _ _ H)|rewrite (IHr _ _ _ _ H)]; simpl; apply around_perm; [done|].
  change (inorder l ++ [y] ++ [x] ++ inorder r ≡ₚ [x] ++ inorder l ++ [y] ++ inorder r).
  by rewrite (app_assoc (inorder l) [y]), (app_assoc (inorder l) [y]), Permutation_app_swap_app.
Qed.

Lemma rb_add_perm x m t t' : rb_add_augmented_cached less x m t = Some t' ->
  inorder (rb_root t') ≡ₚ x :: inorder (rb_root t).
Proof.
  unfold rb_add_augmented_cached. destruct (descend less x (rb_root t) [] true) as [k lm] eqn:D.
  intros (r & Hr & [= <-])%bind_Some. simpl.
  destruct (insert_wa (length (propagate (Some m) k)) _ _ _ ltac:(done) Hr) as [-> _].
  rewrite around_propagate. apply (descend_perm x _ _ _ _ _ D).
Qed.

Lemma descend_split x t : forall k lm k' lm',
  descend less x t k lm = (k', lm') -> exists pre post, inorder t = pre ++ post /\
    (forall h, around h k' = around (pre ++ h ++ post) k) /\
    lm' = lm && match pre with [] => true | _ => false end.
Proof.
  induction t as [|c l IHl y m r IHr]; intros k lm k' lm' H; simpl in *.
  { injection H as <- <-. exists [], []. split_and!; [done| |by rewrite andb_true_r].
    intros h. simpl. by rewrite app_nil_r. }
  destruct (less x y).
  - destruct (IHl _ _ _ _ H) as (pre & post & -> & E & L). exists pre, (post ++ y :: inorder r).
    split_and!; [by rewrite <- app_assoc| |done]. intros h. rewrite E. simpl. by rewrite <- !app_assoc.
  - destruct (IHr _ _ _ _ H) as (pre & post & -> & E & L). exists (inorder l ++ y :: pre), post.
    split_and!; [by rewrite <- app_assoc| |].
    + intros h. rewrite E. simpl. by rewrite <- !app_assoc.
    + rewrite L. by destruct (inorder l), lm.
Qed.

(** The place of the new entry decides whether it is cached. *)
Lemma rb_add_contents x m t t' : rb_add_augmented_cached less x m t = Some t' ->
  exists pre post, inorder (rb_root t) = pre ++ post /\ inorder (rb_root t') = pre ++ x :: post /\
    rb_leftmost t' = match pre with [] => Some x | _ => rb_leftmost t end.
Proof.
  unfold rb_add_augmented_cached. destruct (descend less x (rb_root t) [] true) as [k lm] eqn:D.
  intros (r & Hr & [= <-])%bind_Some. simpl.
  destruct (descend_split x _ _ _ _ _ D) as (pre & post & E & Ar & L). exists pre, post.
  destruct (insert_wa (length (propagate (Some m) k)) _ _ _ ltac:(done) Hr) as [-> _].
  rewrite around_propagate. simpl. rewrite (Ar [x]). split_and!; [done..|]. subst lm. by destruct pre.
Qed.

Lemma rb_add_total x m t : balanced (rb_root t) ->
  exists t', rb_add_augmented_cached less x m t = Some t' /\ balanced (rb_root t').
Proof.
  intros [n B]. unfold rb_add_augmented_cached. destruct (descend less x (rb_root t) [] true) as [k lm] eqn:D.
  destruct (descend_frames x _ _ _ _ _ D) as [_ Hk].
  destruct (insert_balanced (length (propagate (Some m) k)) (propagate (Some m) k) (Node Red Leaf x m Leaf) 0)
    as (t' & -> & B'); [done|by repeat constructor| |by eexists].
  apply rbk_propagate. apply (Hk _ _ B). constructor.
Qed.

(** Where [locate] finds its node in the list. *)
Lemma locate_list p t c l x m r k : locate p t [] = Some (c, l, x, m, r, k) ->
  p x = true /\ exists pre post, inorder t = pre ++ x :: post /\
    forall h, around (inorder l ++ h ++ inorder r) k = pre ++ h ++ post.
Proof.
  intros H. destruct (locate_spec p _ _ _ _ _ _ _ _ H) as (P & I & _). simpl in I. split; [done|].
  destruct (rb_next_spec l r k) as (pre & post & E & _). exists pre, post. split; [|done].
  rewrite <- I. apply (E [x]).
Qed.

Lemma rb_erase_contents p t t' : rb_erase_augmented_cached p t = Some t' ->
  exists pre x post, inorder (rb_root t) = pre ++ x :: post /\ p x = true /\
    inorder (rb_root t') = pre ++ post.
Proof.
  unfold rb_erase_augmented_cached. intros ([[[[[c l] x] m] r] k] & HL & (root & Hr & [= <-])%bind_Some)%bind_Some.
  destruct (locate_list _ _ _ _ _ _ _ _ HL) as (P & pre & post & E & Ar). exists pre, x, post.
  split; [done|]. split; [done|]. simpl. destruct (rb_erase_list c l x m r k root Hr) as [-> _]. apply (Ar []).
Qed.

Lemma rb_erase_first p t t' : rb_erase_augmented_cached p t = Some t' ->
  rb_leftmost t = head (inorder (rb_root t)) ->
  (forall x y, x ∈ inorder (rb_root t) -> y ∈ inorder (rb_root t) -> p x = true -> p y = true -> x = y) ->
  NoDup (inorder (rb_root t)) -> rb_leftmost t' = head (inorder (rb_root t')).
Proof.
  unfold rb_erase_augmented_cached.
  intros ([[[[[c l] x] m] r] k] & HL & (root & Hr & [= <-])%bind_Some)%bind_Some Lm U ND. simpl.
  destruct (locate_spec p _ _ _ _ _ _ _ _ HL) as (P & I & _). simpl in I.
  destruct (rb_next_spec l r k) as (pre & post & E & N). pose proof (E [x]) as Ex. simpl in Ex.
  rewrite I in Ex. destruct (rb_erase_list c l x m r k root Hr) as [-> _].
  pose proof (E []) as E0. simpl in E0. rewrite E0, Lm, Ex. rewrite Ex in U, ND.
  destruct pre as [|y pre]; simpl; [by rewrite P|]. destruct (p y) eqn:Py; [|done].
  assert (y = x) as -> by (apply U; [left|right; apply elem_of_app; right; left|done|done]).
  exfalso. apply list.NoDup_cons in ND as [Hn _]. apply Hn. apply elem_of_app. right. by left.
Qed.

Lemma rb_update_contents p f t t' : rb_update p f t = Some t' ->
  exists pre x post, inorder (rb_root t) = pre ++ x :: post /\ p x = true /\
    inorder (rb_root t') = pre ++ f x :: post.
Proof.
  unfold rb_update. intros ([[[[[c l] x] m] r] k] & HL & [= <-])%bind_Some.
  destruct (locate_list _ _ _ _ _ _ _ _ HL) as (P & pre & post & E & Ar). exists pre, x, post.
  split; [done|]. split; [done|]. simpl. rewrite inorder_zip. simpl.
  destruct (unchanged _ _); rewrite ?around_propagate; apply (Ar [f x]).
Qed.

(** ** Height *)

Fixpoint height (t : tree) : nat :=
  match t with Leaf => 0 | Node _ l _ _ r => S (Nat.max (height l) (height r)) end.

Lemma rb_height c n t :
  rb c n t -> (height t <= 2 * n + match c with Red => 1 | Black => 0 end)%nat.
Proof.
  induction 1 as [|n l x m r Hl IHl Hr IHr|c1 c2 n l x m r Hl IHl Hr IHr]; simpl in *; [lia|lia|].
  destruct c1, c2; lia.
Qed.

Lemma rb_size c n t : rb c n t -> (2 ^ n <= S (length (inorder t)))%nat.
Proof.
  induction 1 as [|n l x m r Hl IHl Hr IHr|c1 c2 n l x m r Hl IHl Hr IHr]; simpl; [lia| |];
    rewrite length_app; simpl; lia.
Qed.

Lemma balanced_height t : balanced t -> (height t <= 2 * Nat.log2 (S (length (inorder t))))%nat.
Proof.
  intros [n H]. pose proof (rb_height _ _ _ H) as Hh. pose proof (rb_size _ _ _ H) as Hs.
  cbv iota in Hh.
  apply Nat.log2_le_mono in Hs. rewrite Nat.log2_pow2 in Hs by lia. lia.
Qed.

(** ** A tree as a sorted list of nodes *)

Section Nodes.
Context (id : A -> Z) (init : A -> M).
Context (init_spec : forall x, ok x -> agg [x] = Some (init x)).

Definition is_node (i : Z) (x : A) : bool := (id x =? i)%Z.

Inductive op := Add (x : A) | Erase (i : Z).

Definition step (o : op) (t : rb_root_cached) : option rb_root_cached :=
  match o with
  | Add x => rb_add_augmented_cached less x (init x) t
  | Erase i => rb_erase_augmented_cached (is_node i) t
  end.

Fixpoint run (os : list op) (t : rb_root_cached) : option rb_root_cached :=
  match os with [] => Some t | o :: os => t ← step o t; run os t end.

Definition remove_node (i : Z) (l : list A) : list A := filter (fun x => id x <> i) l.

(** What the callers promise: a node that is added is not in the tree, and one that is
    erased is. *)
Definition list_step (o : op) (l : list A) : option (list A) :=
  match o with
  | Add x => if decide (id x ∈ map id l) then None else Some (ins x l)
  | Erase i => if decide (i ∈ map id l) then Some (remove_node i l) else None
  end.

Fixpoint list_run (os : list op) (l : list A) : option (list A) :=
  match os with [] => Some l | o :: os => l ← list_step o l; list_run os l end.

Definition op_ok (o : op) : Prop := match o with Add x => ok x | Erase _ => True end.

Lemma remove_other i l : i ∉ map id l -> remove_node i l = l.
Proof.
  induction l as [|x l IH]; intros H; [done|]. simpl in H. apply not_elem_of_cons in H as [Hx H].
  unfold remove_node in *. rewrite filter_cons_True by congruence. f_equal. by apply IH.
Qed.

Lemma remove_split i l :
  NoDup (map id l) -> i ∈ map id l ->
  exists pre x post, l = pre ++ x :: post /\ id x = i /\ remove_node i l = pre ++ post /\
    Forall (fun y => is_node i y = false) (pre ++ post).
Proof.
  intros N H. apply list_elem_of_fmap in H as (x & Hi & Hx).
  apply list_elem_of_split in Hx as (pre & post & ->). exists pre, x, post.
  rewrite map_app in N. simpl in N. apply list.NoDup_app in N as (N1 & N2 & N3).
  apply list.NoDup_cons in N3 as [N3 N4].
  assert (P1 : id x ∉ map id pre).
  { intros Hp. apply (N2 _ Hp). by left. }
  split; [done|]. split; [done|]. subst i. split.
  - unfold remove_node. rewrite list.filter_app, filter_cons_False by congruence.
    change (remove_node (id x) pre ++ remove_node (id x) post = pre ++ post). by rewrite !remove_other.
  - apply Forall_app. split; apply Forall_elem; intros y Hy; apply Z.eqb_neq; intros E.
    + apply P1. rewrite <- E. by apply list_elem_of_fmap_2.
    + apply N3. rewrite <- E. by apply list_elem_of_fmap_2.
Qed.

Lemma ins_nodup x l : id x ∉ map id l -> NoDup (map id l) -> NoDup (map id (ins x l)).
Proof. intros Hx N. rewrite (ins_perm x l). simpl. by apply list.NoDup_cons. Qed.

Lemma remove_nodup i l : NoDup (map id l) -> NoDup (map id (remove_node i l)).
Proof.
  intros N. destruct (decide (i ∈ map id l)) as [H|H]; [|by rewrite remove_other].
  destruct (remove_split i l N H) as (pre & x & post & -> & _ & -> & _).
  rewrite map_app in *. simpl in N. rewrite list.NoDup_app in *. destruct N as (N1 & N2 & N3).
  apply list.NoDup_cons in N3 as [_ N3]. split_and!; [done| |done].
  intros y Hy Hy'. apply (N2 y Hy). by right.
Qed.

Lemma step_refines o t l' :
  rb_ok t -> op_ok o -> NoDup (map id (inorder (rb_root t))) ->
  list_step o (inorder (rb_root t)) = Some l' ->
  exists t', step o t = Some t' /\ rb_ok t' /\ inorder (rb_root t') = l' /\ NoDup (map id l').
Proof.
  intros Ht Ho N H. destruct o as [x|i]; simpl in *.
  - destruct (decide _) as [|Hi]; [done|]. injection H as <-.
    destruct (rb_add_ok x (init x) t Ht Ho (init_spec x Ho)) as (t' & -> & Ht' & I).
    exists t'. split_and!; try done. by apply ins_nodup.
  - destruct (decide _) as [Hi|]; [|done]. injection H as <-.
    destruct (remove_split i _ N Hi) as (pre & x & post & E & Ei & R & F).
    destruct (rb_erase_ok (is_node i) t pre x post Ht E) as (t' & -> & Ht' & I); [by apply Z.eqb_eq|done|].
    exists t'. rewrite R, I. split_and!; try done. rewrite <- R. by apply remove_nodup.
Qed.

Lemma run_refines os : forall t l',
  rb_ok t -> Forall op_ok os -> NoDup (map id (inorder (rb_root t))) ->
  list_run os (inorder (rb_root t)) = Some l' ->
  exists t', run os t = Some t' /\ rb_ok t' /\ inorder (rb_root t') = l'.
Proof.
  induction os as [|o os IH]; intros t l' Ht Ho N H; simpl in *.
  - injection H as <-. by exists t.
  - apply Forall_cons_iff in Ho as [Ho Hos]. apply bind_Some in H as (l1 & H1 & H2).
    destruct (step_refines o t l1 Ht Ho N H1) as (t1 & -> & Ht1 & I1 & N1). simpl.
    rewrite <- I1 in H2, N1. by apply IH.
Qed.

Definition RB_ROOT_CACHED : rb_root_cached := mk_root Leaf None.

Lemma empty_ok : rb_ok RB_ROOT_CACHED.
Proof. split; simpl; try done. exists 0%nat. constructor. Qed.

Lemma remove_ins x l : id x ∉ map id l -> remove_node (id x) (ins x l) = l.
Proof.
  induction l as [|y l IH]; intros H; simpl in *; unfold remove_node in *.
  - by rewrite filter_cons_False by congruence.
  - destruct (less x y).
    + rewrite filter_cons_False by congruence. by apply (remove_other (id x) (y :: l)).
    + apply not_elem_of_cons in H as [Hx H]. rewrite filter_cons_True by congruence. f_equal. by apply IH.
Qed.

(** C5: A cached augmented red-black tree refines a sorted list of nodes.  For every
    sequence of [rb_add_augmented_cached] and [rb_erase_augmented_cached] calls in which
    each added node is not in the tree and each erased node is, no null pointer is
    followed, the in-order list of the tree is the result of stable sorted insertions and
    removals, the cached leftmost node is the first of the list, every node carries the
    data of its subtree, the tree is a red-black tree, and its height is at most twice
    the logarithm of its size. *)
Theorem rb_tree_refines_sorted_list os l :
  Forall op_ok os -> list_run os [] = Some l ->
  exists t, run os RB_ROOT_CACHED = Some t /\ inorder (rb_root t) = l /\
    rb_leftmost t = head l /\ sorted l /\ wa (rb_root t) /\ balanced (rb_root t) /\
    (height (rb_root t) <= 2 * Nat.log2 (S (length l)))%nat.
Proof.
  intros Ho Hl. destruct (run_refines os RB_ROOT_CACHED l empty_ok Ho) as (t & Ht & [B W S O Lm] & I);
    [constructor|done|]. exists t. subst l. split_and!; try done. by apply balanced_height.
Qed.

(** C36: Adding a node and then erasing it gives back the tree: both calls succeed, and
    the in-order list and the cached leftmost node are those from before. *)
Theorem rb_add_erase_roundtrip t x :
  rb_ok t -> ok x -> NoDup (map id (inorder (rb_root t))) -> id x ∉ map id (inorder (rb_root t)) ->
  exists t1 t2, rb_add_augmented_cached less x (init x) t = Some t1 /\
    rb_erase_augmented_cached (is_node (id x)) t1 = Some t2 /\
    inorder (rb_root t2) = inorder (rb_root t) /\ rb_leftmost t2 = rb_leftmost t.
Proof.
  intros Ht Hx N Hi.
  destruct (step_refines (Add x) t (ins x (inorder (rb_root t))) Ht Hx N) as (t1 & H1 & Ht1 & I1 & N1).
  { simpl. by rewrite decide_False. }
  destruct (step_refines (Erase (id x)) t1 (inorder (rb_root t)) Ht1) as (t2 & H2 & Ht2 & I2 & _).
  { done. }
  { by rewrite I1. }
  { simpl. rewrite I1, decide_True, remove_ins; [done|done|]. rewrite (ins_perm x _). by left. }
  exists t1, t2. split_and!; try done. by rewrite (ro_leftmost _ Ht), (ro_leftmost _ Ht2), I2.
Qed.

End Nodes.

End Tree.

Arguments tree : clear implicits.
Arguments frame : clear implicits.
Arguments rb_root_cached : clear implicits.

(** ** Trees of integers that count their nodes *)

#[local] Instance size_augment : Augment Z nat :=
  mk_augment Z nat (fun _ a b => S (default 0%nat a + default 0%nat b)) Nat.eqb.

Definition size_agg (l : list Z) : option nat :=
  match l with [] => None | _ => Some (length l) end.

#[local] Instance size_laws : AugmentLaws (fun _ => True) size_agg.
Proof.
  split; [done| |apply Nat.eqb_eq]. intros l x r _.
  assert (E : forall l, default 0%nat (size_agg l) = length l) by by intros [].
  simpl. rewrite !E. destruct l as [|y l]; [done|]. simpl. f_equal. rewrite length_app. simpl. lia.
Qed.

Lemma ltb_asym (x y : Z) : True -> True -> (x <? y)%Z = true -> (y <? x)%Z = false.
Proof. rewrite Z.ltb_lt, Z.ltb_ge. lia. Qed.

Lemma ltb_trans (x y z : Z) :
  True -> True -> True -> (x <? y)%Z = true -> (z <? y)%Z = false -> (x <? z)%Z = true.
Proof. rewrite !Z.ltb_lt, Z.ltb_ge. lia. Qed.

Definition demo_ops : list op :=
  map Add [5; 3; 8; 1; 9; 2; 7; 4; 6; 0]%Z ++ map Erase [5; 0; 9; 3]%Z ++ map Add [12; 11; 10]%Z.

Lemma rb_tree_refines_sorted_list_witness :
  exists t, run Z.ltb (fun z => z) (fun _ => 1%nat) demo_ops RB_ROOT_CACHED = Some t /\
    inorder (rb_root t) = [1; 2; 4; 6; 7; 8; 10; 11; 12]%Z /\ (height (rb_root t) <= 6)%nat.
Proof.
  assert (P1 : Forall (op_ok (ok := fun _ : Z => True)) demo_ops) by by repeat constructor.
  assert (P2 : list_run Z.ltb (fun z => z) demo_ops [] = Some [1; 2; 4; 6; 7; 8; 10; 11; 12]%Z) by reflexivity.
  destruct (rb_tree_refines_sorted_list (ok := fun _ => True) (agg := size_agg) Z.ltb
    ltb_asym ltb_trans (fun z => z) (fun _ => 1%nat) ltac:(done) demo_ops _ P1 P2)
    as (t & H1 & H2 & _ & _ & _ & _ & H3).
  exists t. split; [exact H1|]. split; [exact H2|exact H3].
Defined.

Definition demo_tree : rb_root_cached Z nat :=
  default RB_ROOT_CACHED (run Z.ltb (fun z => z) (fun _ => 1%nat) demo_ops RB_ROOT_CACHED).

Lemma demo_tree_ok : rb_ok (ok := fun _ => True) (agg := size_agg) Z.ltb demo_tree.
Proof.
  destruct (run_refines (ok := fun _ => True) (agg := size_agg) Z.ltb ltb_asym ltb_trans
    (fun z => z) (fun _ => 1%nat) ltac:(done) demo_ops RB_ROOT_CACHED
    [1; 2; 4; 6; 7; 8; 10; 11; 12]%Z (empty_ok Z.ltb)) as (t & H & Ht & _).
  - by repeat constructor.
  - constructor.
  - reflexivity.
  - unfold demo_tree. rewrite H. exact Ht.
Qed.

Lemma rb_add_erase_roundtrip_witness : exists t1 t2,
  rb_add_augmented_cached Z.ltb 5%Z 1%nat demo_tree = Some t1 /\
  rb_erase_augmented_cached (is_node (fun z => z) 5%Z) t1 = Some t2 /\
  inorder (rb_root t2) = [1; 2; 4; 6; 7; 8; 10; 11; 12]%Z /\ rb_leftmost t2 = Some 1%Z.
Proof.
  assert (E1 : inorder (rb_root demo_tree) = [1; 2; 4; 6; 7; 8; 10; 11; 12]%Z) by reflexivity.
  assert (E2 : rb_leftmost demo_tree = Some 1%Z) by reflexivity.
  assert (N : NoDup (map (fun z => z) (inorder (rb_root demo_tree)))).
  { rewrite E1. by apply (bool_decide_unpack _). }
  assert (X : (5%Z : Z) ∉ map (fun z => z) (inorder (rb_root demo_tree))).
  { rewrite E1. by apply (bool_decide_unpack _). }
  rewrite <- E1, <- E2.
  exact (rb_add_erase_roundtrip (ok := fun _ => True) (agg := size_agg) Z.ltb ltb_asym ltb_trans
    (fun z => z) (fun _ => 1%nat) ltac:(done) demo_tree 5%Z demo_tree_ok Logic.I N X).
Defined.

End RbTree.
