(* ===== verification/Plist.v ===== *)
(** Priority lists ([lib/plist.c], [include/linux/plist.h]).

    All nodes are on the node list, ordered by priority and first come first served
    among equals; the first node of each priority is also on the priority list, which
    lets an insertion skip the nodes of equal priority.  Insertion, deletion and
    requeueing refine a stable sorted list. *)

From Stdlib Require Import ZArith Lia List.
From stdpp Require Import base list numbers option.
From S2P Require Import Prelude.

Module Plist.

Record plist_node := mk_node { id : Z; prio : Z }.

#[export] Instance plist_node_eq_dec : EqDecision plist_node.
Proof. solve_decision. Defined.

(** The ring through the [prio_list] members is written from [plist_first] on; a plist of
    one priority has only its first node in it, whose [prio_list] is then empty. *)
Record plist_head := mk_head { prio_list : list plist_node; node_list : list plist_node }.

Definition plist_head_init : plist_head := mk_head [] [].
Definition plist_head_empty (h : plist_head) : bool :=
  match node_list h with [] => true | _ => false end.
Definition plist_first (h : plist_head) : option plist_node := head (node_list h).

Definition is_node (n m : plist_node) : bool := id m =? id n.

(** [list_add_tail(x, pos)]: before [pos], or at the end of the list when [pos] is its
    head. *)
Fixpoint list_add_tail (x : plist_node) (pos : option plist_node) (l : list plist_node)
  : list plist_node :=
  match l with
  | [] => [x]
  | y :: l' => match pos with
               | Some p => if is_node p y then x :: l else y :: list_add_tail x pos l'
               | None => y :: list_add_tail x pos l'
               end
  end.

(** [list_add(x, pos)]: after [pos]. *)
Fixpoint list_add (x pos : plist_node) (l : list plist_node) : list plist_node :=
  match l with
  | [] => []
  | y :: l' => if is_node pos y then y :: x :: l' else y :: list_add x pos l'
  end.

Definition list_del (n : plist_node) (l : list plist_node) : list plist_node :=
  List.filter (fun m => negb (is_node n m)) l.

(** The node that follows [n]. *)
Fixpoint list_next (n : plist_node) (l : list plist_node) : option plist_node :=
  match l with
  | [] => None
  | y :: l' => if is_node n y then head l' else list_next n l'
  end.

(** Whether [prio_list] of the node is linked to another one. *)
Definition in_ring (n : plist_node) (h : plist_head) : bool :=
  existsb (is_node n) (prio_list h) && (1 <? Z.of_nat (length (prio_list h))).

(** The loop of [plist_add] along the ring: the last node passed, and the one before which
    the new node belongs. *)
Fixpoint add_walk (p : Z) (prev : option plist_node) (iters : list plist_node)
  : option plist_node * option plist_node :=
  match iters with
  | [] => (prev, None)
  | iter :: rest => if p <? prio iter then (prev, Some iter) else add_walk p (Some iter) rest
  end.

Definition plist_add (n : plist_node) (h : plist_head) : plist_head :=
  if plist_head_empty h then mk_head [n] [n]
  else
    let '(prev, pos) := add_walk (prio n) None (prio_list h) in
    let fresh := match prev with Some q => negb (prio q =? prio n) | None => true end in
    mk_head (if fresh then list_add_tail n pos (prio_list h) else prio_list h)
      (list_add_tail n pos (node_list h)).

Definition plist_del (n : plist_node) (h : plist_head) : plist_head :=
  let ring :=
    if in_ring n h then
      list_del n
        (match list_next n (node_list h) with
         | Some next => if in_ring next h then prio_list h else list_add next n (prio_list h)
         | None => prio_list h
         end)
    else prio_list h in
  let nodes := list_del n (node_list h) in
  mk_head
    (match ring with
     | [m] => if is_node n m then match nodes with f :: _ => [f] | [] => [] end else ring
     | _ => ring
     end) nodes.

(** The loop of [plist_requeue] from the node after [iter] on. *)
Fixpoint requeue_walk (p : Z) (l : list plist_node) : option plist_node :=
  match l with
  | [] => None
  | iter :: l' => if prio iter =? p then requeue_walk p l' else Some iter
  end.

Fixpoint list_after (n : plist_node) (l : list plist_node) : list plist_node :=
  match l with
  | [] => []
  | y :: l' => if is_node n y then l' else list_after n l'
  end.

(** [None] stands for the two [BUG_ON]s. *)
Definition plist_requeue (n : plist_node) (h : plist_head) : option plist_head :=
  if negb (existsb (is_node n) (node_list h)) then None
  else
    match list_next n (node_list h) with
    | None => Some h
    | Some iter =>
        if negb (prio n =? prio iter) then Some h
        else
          let h := plist_del n h in
          let pos := requeue_walk (prio n) (list_after iter (node_list h)) in
          Some (mk_head (prio_list h) (list_add_tail n pos (node_list h)))
    end.

(** ** What a plist is *)

(** The first node of every priority, in a list that follows a node of priority [last]. *)
Fixpoint heads (last : option Z) (l : list plist_node) : list plist_node :=
  match l with
  | [] => []
  | n :: l' => if decide (last = Some (prio n)) then heads last l' else n :: heads (Some (prio n)) l'
  end.

Fixpoint sorted (l : list plist_node) : Prop :=
  match l with [] => True | n :: l' => Forall (fun m => prio n <= prio m) l' /\ sorted l' end.

Record plist_ok (h : plist_head) : Prop := mk_ok {
  ok_sorted : sorted (node_list h);
  ok_nodup : NoDup (map id (node_list h));
  ok_ring : prio_list h = heads None (node_list h)
}.

(** Behind the nodes of the same or a higher priority. *)
Fixpoint insert (n : plist_node) (l : list plist_node) : list plist_node :=
  match l with
  | [] => [n]
  | m :: l' => if prio n <? prio m then n :: l else m :: insert n l'
  end.

(** ** Lists *)

Lemma is_node_spec n m : is_node n m = true <-> id m = id n.
Proof. apply Z.eqb_eq. Qed.

Definition last_prio (d : option Z) (l : list plist_node) : option Z :=
  match list.last l with Some n => Some (prio n) | None => d end.

Lemma last_prio_cons d n l : last_prio d (n :: l) = last_prio (Some (prio n)) l.
Proof. unfold last_prio. by rewrite last_cons; destruct (list.last l). Qed.

Lemma heads_app l1 : forall d l2, heads d (l1 ++ l2) = heads d l1 ++ heads (last_prio d l1) l2.
Proof.
  induction l1 as [|n l1 IH]; intros d l2; [done|]. rewrite last_prio_cons. simpl.
  case_decide as E; simpl; rewrite IH; [by rewrite E|done].
Qed.

Lemma heads_elem d l n : n ∈ heads d l -> n ∈ l.
Proof.
  revert d. induction l as [|m l IH]; intros d; simpl; [done|].
  case_decide; rewrite ?elem_of_cons; [|intros [?|?]; [by left|]]; eauto.
Qed.

Lemma heads_fresh d n l : d <> Some (prio n) -> heads d (n :: l) = n :: heads (Some (prio n)) l.
Proof. intros H. simpl. by case_decide. Qed.

(** The heads do not depend on an earlier node of another priority. *)
Lemma heads_above d d' l : (forall n, n ∈ l -> d <> Some (prio n) /\ d' <> Some (prio n)) ->
  heads d l = heads d' l.
Proof.
  destruct l as [|n l]; intros H; [done|]. rewrite !heads_fresh; [done|apply H; by left..].
Qed.

Lemma last_prio_le p l d : Forall (fun n => prio n <= p) l -> (forall x, d = Some x -> x <= p) ->
  forall x, last_prio d l = Some x -> x <= p.
Proof.
  intros H Hd x. unfold last_prio. destruct (list.last l) as [n|] eqn:E; [|apply Hd].
  intros [= <-]. rewrite Forall_elem in H. by apply H, last_Some_elem_of.
Qed.

Lemma plist_sorted_app l1 l2 : sorted (l1 ++ l2) <->
  sorted l1 /\ sorted l2 /\ Forall (fun n => Forall (fun m => prio n <= prio m) l2) l1.
Proof.
  induction l1 as [|n l1 IH]; simpl; [split; [intros; by split_and!|tauto]|].
  rewrite Forall_app, IH, Forall_cons_iff. tauto.
Qed.

Lemma split_prio p l : sorted l -> exists l1 l2, l = l1 ++ l2 /\
  Forall (fun n => prio n <= p) l1 /\ Forall (fun n => p < prio n) l2.
Proof.
  induction l as [|n l IH]; intros S; [by exists [], []|]. destruct S as [H S].
  destruct (Z.le_gt_cases (prio n) p) as [Hn|Hn].
  - destruct (IH S) as (l1 & l2 & -> & H1 & H2). exists (n :: l1), l2. split_and!; [done|by constructor|done].
  - exists [], (n :: l). split_and!; [done|constructor|]. constructor; [lia|].
    rewrite Forall_elem in *. intros m Hm. specialize (H m Hm). lia.
Qed.

Lemma insert_split n l1 l2 : Forall (fun m => prio m <= prio n) l1 -> Forall (fun m => prio n < prio m) l2 ->
  insert n (l1 ++ l2) = l1 ++ n :: l2.
Proof.
  induction l1 as [|m l1 IH]; intros H1 H2; simpl.
  - destruct l2 as [|m l2]; [done|]. simpl. apply Forall_cons_iff in H2 as [H2 _].
    by destruct (Z.ltb_spec (prio n) (prio m)); [|lia].
  - apply Forall_cons_iff in H1 as [Hm H1]. destruct (Z.ltb_spec (prio n) (prio m)); [lia|].
    by rewrite IH.
Qed.

Lemma walk_low p l1 : forall prev r, Forall (fun n => prio n <= p) l1 ->
  add_walk p prev (l1 ++ r) = add_walk p (match list.last l1 with Some n => Some n | None => prev end) r.
Proof.
  induction l1 as [|n l1 IH]; intros prev r H; [done|]. apply Forall_cons_iff in H as [Hn H]. simpl.
  destruct (Z.ltb_spec p (prio n)); [lia|]. rewrite IH, last_cons by done. by destruct (list.last l1).
Qed.

Lemma walk_high p prev r : Forall (fun n => p < prio n) r -> add_walk p prev r = (prev, head r).
Proof.
  destruct r as [|n r]; [done|]. intros [Hn _]%Forall_cons_iff. simpl. by destruct (Z.ltb_spec p (prio n)); [|lia].
Qed.

Lemma add_tail_split n l1 l2 : (forall m, head l2 = Some m -> forall k, k ∈ l1 -> id k <> id m) ->
  list_add_tail n (head l2) (l1 ++ l2) = l1 ++ n :: l2.
Proof.
  induction l1 as [|m l1 IH]; intros H; simpl.
  - destruct l2 as [|k l2]; [done|]. simpl. by rewrite (proj2 (is_node_spec k k) eq_refl).
  - rewrite IH by (intros k Hk j Hj; apply (H k Hk j); by right).
    destruct (head l2) as [k|] eqn:E; [|done]. destruct (is_node k m) eqn:Em; [|done].
    apply is_node_spec in Em. destruct (H k eq_refl m); [by left|done].
Qed.

Lemma head_heads d l : (forall n, n ∈ l -> d <> Some (prio n)) -> head (heads d l) = head l.
Proof. destruct l as [|n l]; intros H; [done|]. rewrite heads_fresh; [done|apply H; by left]. Qed.

Lemma last_heads l : forall d, last_prio d (heads d l) = last_prio d l.
Proof.
  induction l as [|n l IH]; intros d; [done|]. rewrite last_prio_cons. simpl.
  case_decide as E; [by rewrite IH, E|]. by rewrite last_prio_cons, IH.
Qed.

(** ** Operations *)

Lemma nodup_ids l1 n l2 : NoDup (map id (l1 ++ n :: l2)) ->
  (forall m, m ∈ l1 -> id m <> id n) /\ (forall m, m ∈ l2 -> id m <> id n).
Proof.
  rewrite map_app. simpl. rewrite list.NoDup_app, list.NoDup_cons. intros (_ & H & N & _). split.
  - intros m Hm E. apply (H (id m)); [by apply (list_elem_of_fmap_2 id)|]. rewrite E. by left.
  - intros m Hm E. apply N. rewrite <- E. by apply (list_elem_of_fmap_2 id).
Qed.

Lemma insert_perm n l : insert n l ≡ₚ n :: l.
Proof.
  induction l as [|m l IH]; simpl; [done|]. destruct (_ <? _); [done|]. rewrite IH. apply Permutation_swap.
Qed.

Lemma insert_sorted n l : sorted l -> sorted (insert n l).
Proof.
  intros S. destruct (split_prio (prio n) l S) as (l1 & l2 & -> & H1 & H2). rewrite insert_split by done.
  apply plist_sorted_app in S as (S1 & S2 & S3). apply plist_sorted_app. split_and!; [done|simpl; split; [|done]|].
  - rewrite Forall_elem in *. intros m Hm. specialize (H2 m Hm). lia.
  - rewrite Forall_elem in *. intros m Hm. constructor; [by apply H1|by apply S3].
Qed.

Lemma add_spec n h : plist_ok h -> (forall m, m ∈ node_list h -> id m <> id n) ->
  plist_ok (plist_add n h) /\ node_list (plist_add n h) = insert n (node_list h).
Proof.
  intros [S N R] F. destruct h as [ring l]. simpl in *. subst ring.
  assert (Ok : forall h', node_list h' = insert n l -> prio_list h' = heads None (insert n l) -> plist_ok h').
  { intros h' E1 E2. split; [rewrite E1; by apply insert_sorted| |congruence].
    rewrite E1, (insert_perm n l). simpl. apply list.NoDup_cons. split; [|done].
    intros (m & E & Hm)%list_elem_of_fmap. by apply (F m Hm). }
  destruct (split_prio (prio n) l S) as (l1 & l2 & -> & H1 & H2).
  enough (E : plist_add n (mk_head (heads None (l1 ++ l2)) (l1 ++ l2)) =
    mk_head (heads None (insert n (l1 ++ l2))) (insert n (l1 ++ l2))).
  { rewrite E. split; [by apply Ok|done]. }
  rewrite insert_split by done. unfold plist_add. simpl.
  destruct (plist_head_empty _) eqn:Em.
  { destruct l1; [|done]. by destruct l2. }
  assert (Hd : forall d, (forall x, d = Some x -> x <= prio n) -> forall m, m ∈ l2 -> d <> Some (prio m)).
  { intros d Hd m Hm ->. rewrite Forall_elem in H2. specialize (Hd _ eq_refl). specialize (H2 m Hm). lia. }
  assert (H1' : Forall (fun m => prio m <= prio n) (heads None l1)).
  { rewrite Forall_elem in *. intros m Hm%heads_elem. by apply H1. }
  assert (L : forall x, last_prio None l1 = Some x -> x <= prio n) by (by apply last_prio_le).
  rewrite heads_app, walk_low, walk_high; [|rewrite Forall_elem in *; intros m Hm%heads_elem; by apply H2|done].
  rewrite (head_heads (last_prio None l1) l2) by (by apply Hd).
  assert (Sep : forall m, head l2 = Some m -> forall k, k ∈ l1 -> id k <> id m).
  { intros m Hm k Hk. destruct l2 as [|m' l2]; [done|]. injection Hm as ->. by apply (proj1 (nodup_ids l1 m l2 N)). }
  rewrite add_tail_split by done. f_equal. rewrite heads_app.
  pose proof (last_heads l1 None) as LH. unfold last_prio in LH at 1. simpl in LH.
  destruct (decide (last_prio None l1 = Some (prio n))) as [E|E].
  - destruct (list.last (heads None l1)) as [k|]; [|congruence]. rewrite E in LH. injection LH as ->.
    rewrite Z.eqb_refl. simpl. by rewrite decide_True by done.
  - match goal with |- (if ?b then _ else _) = _ => replace b with true end.
    2:{ destruct (list.last (heads None l1)) as [k|]; [|done]. symmetry. apply negb_true_iff, Z.eqb_neq. congruence. }
    rewrite heads_fresh by done. rewrite <- (head_heads (last_prio None l1) l2) by (by apply Hd).
    rewrite add_tail_split.
    + rewrite (heads_above (last_prio None l1) (Some (prio n)) l2); [done|].
      intros m Hm. split; [by apply Hd|]. rewrite Forall_elem in H2. specialize (H2 m Hm). intros [=]. lia.
    + intros m Hm k Hk%heads_elem. rewrite head_heads in Hm by (by apply Hd). by apply (Sep m Hm).
Qed.

Lemma list_del_other n l : (forall m, m ∈ l -> id m <> id n) -> list_del n l = l.
Proof.
  intros H. unfold list_del. induction l as [|m l IH]; [done|]. simpl.
  destruct (is_node n m) eqn:E; simpl.
  - apply is_node_spec in E. destruct (H m); [by left|done].
  - rewrite IH; [done|]. intros k Hk. apply H. by right.
Qed.

Lemma list_del_split n l1 l2 : (forall m, m ∈ l1 -> id m <> id n) -> (forall m, m ∈ l2 -> id m <> id n) ->
  list_del n (l1 ++ n :: l2) = l1 ++ l2.
Proof.
  intros H1 H2. unfold list_del. rewrite filter_app. simpl. rewrite (proj2 (is_node_spec n n) eq_refl). simpl.
  fold (list_del n l1) (list_del n l2). by rewrite !list_del_other.
Qed.

Lemma list_next_split n l1 l2 : (forall m, m ∈ l1 -> id m <> id n) -> list_next n (l1 ++ n :: l2) = head l2.
Proof.
  induction l1 as [|m l1 IH]; intros H; simpl; [by rewrite (proj2 (is_node_spec n n) eq_refl)|].
  destruct (is_node n m) eqn:E; [apply is_node_spec in E; destruct (H m); [by left|done]|].
  apply IH. intros k Hk. apply H. by right.
Qed.

Lemma list_add_split x n l1 l2 : (forall m, m ∈ l1 -> id m <> id n) ->
  list_add x n (l1 ++ n :: l2) = l1 ++ n :: x :: l2.
Proof.
  induction l1 as [|m l1 IH]; intros H; simpl; [by rewrite (proj2 (is_node_spec n n) eq_refl)|].
  destruct (is_node n m) eqn:E; [apply is_node_spec in E; destruct (H m); [by left|done]|].
  f_equal. apply IH. intros k Hk. apply H. by right.
Qed.

Lemma existsb_node n l : existsb (is_node n) l = true <-> exists m, m ∈ l /\ id m = id n.
Proof.
  rewrite existsb_exists. split; intros (m & H1 & H2); exists m; by rewrite is_node_spec, <- list_elem_of_In in *.
Qed.

Lemma existsb_node_false n l : (forall m, m ∈ l -> id m <> id n) -> existsb (is_node n) l = false.
Proof.
  intros H. destruct (existsb _ _) eqn:E; [|done]. apply existsb_node in E as (m & Hm & E). by destruct (H m Hm).
Qed.

(** The end of [plist_del] when the node is in the ring no more. *)
Definition settle (n : plist_node) (ring nodes : list plist_node) : list plist_node :=
  match ring with
  | [m] => if is_node n m then match nodes with f :: _ => [f] | [] => [] end else ring
  | _ => ring
  end.

Lemma settle_other n ring nodes : (forall m, m ∈ ring -> id m <> id n) -> settle n ring nodes = ring.
Proof.
  intros H. destruct ring as [|m [|k r]]; [done| |done]. simpl.
  destruct (is_node n m) eqn:E; [|done]. apply is_node_spec in E. destruct (H m); [by left|done].
Qed.

Lemma heads_one d l : heads d l = [] -> forall n, n ∈ l -> d = Some (prio n).
Proof.
  induction l as [|m l IH]; simpl; [by intros _ n ?%not_elem_of_nil|]. case_decide; [|done].
  intros E n [->|Hn]%elem_of_cons; [done|by apply IH].
Qed.

Lemma heads_same l f l' : l = f :: l' -> (forall n m, n ∈ l -> m ∈ l -> prio n = prio m) -> heads None l = [f].
Proof.
  intros -> H. rewrite heads_fresh by done. f_equal.
  assert (H' : forall n, n ∈ l' -> prio f = prio n) by (intros n Hn; apply H; [by left|by right]). clear H.
  induction l' as [|m l' IH]; [done|]. simpl. rewrite decide_True by (f_equal; apply H'; by left).
  apply IH. intros n Hn. apply H'. by right.
Qed.

(** The ring after the deletion of a node that leads its priority: the next node of the
    priority takes its place ... *)
Lemma del_leader_next n m l1 l2 : prio m = prio n -> last_prio None l1 <> Some (prio n) ->
  NoDup (map id (l1 ++ n :: m :: l2)) ->
  let ring := heads None l1 ++ n :: heads (Some (prio n)) (m :: l2) in
  existsb (is_node m) ring = false /\
  list_del n (list_add m n ring) = heads None (l1 ++ m :: l2).
Proof.
  intros E L N ring. destruct (nodup_ids _ _ _ N) as [I1 I2].
  assert (Hring : ring = heads None l1 ++ n :: heads (Some (prio n)) l2).
  { unfold ring. simpl. by rewrite decide_True by congruence. }
  rewrite Hring. split.
  - apply existsb_node_false. intros k Hk.
    change (l1 ++ n :: m :: l2) with (l1 ++ [n] ++ m :: l2) in N. rewrite app_assoc in N.
    destruct (nodup_ids (l1 ++ [n]) m l2 N) as [J1 J2].
    apply elem_of_app in Hk as [Hk%heads_elem|[->|Hk%heads_elem]%elem_of_cons].
    + apply J1, elem_of_app. by left.
    + apply J1, elem_of_app. right. by left.
    + by apply J2.
  - rewrite list_add_split by (intros k Hk%heads_elem; by apply I1).
    rewrite list_del_split; [|intros k Hk%heads_elem; by apply I1|].
    + rewrite heads_app, heads_fresh by congruence. by rewrite E.
    + intros k [->|Hk%heads_elem]%elem_of_cons; apply I2; [by left|by right].
Qed.

(** ... and when there is none the rest of the ring stays. *)
Lemma del_leader_last n m l1 l2 : prio m <> prio n -> sorted (l1 ++ n :: m :: l2) ->
  heads (last_prio None l1) (m :: l2) = heads (Some (prio n)) (m :: l2).
Proof.
  intros E S. apply plist_sorted_app in S as (S1 & [Sn S2] & S3). apply heads_above. intros k Hk.
  assert (prio n < prio k).
  { rewrite Forall_elem in Sn. pose proof (Sn m ltac:(by left)). destruct S2 as [Sm _].
    apply elem_of_cons in Hk as [->|Hk]; [lia|]. rewrite Forall_elem in Sm. specialize (Sm k Hk). lia. }
  split; [|intros [=]; lia]. intros Hl. assert (prio k <= prio n); [|lia].
  eapply (last_prio_le (prio n) l1 None); [|done|exact Hl]. rewrite Forall_elem in *. intros j Hj.
  specialize (S3 j Hj). by apply Forall_cons_iff in S3 as [? _].
Qed.

Lemma list_del_no n l m : m ∈ list_del n l -> id m <> id n.
Proof.
  unfold list_del. intros [_ Hm]%list_elem_of_In%filter_In. apply negb_true_iff in Hm.
  intros E%is_node_spec. congruence.
Qed.

Lemma del_leader n l1 l2 : sorted (l1 ++ n :: l2) -> NoDup (map id (l1 ++ n :: l2)) ->
  last_prio None l1 <> Some (prio n) ->
  let ring := heads None l1 ++ n :: heads (Some (prio n)) l2 in
  settle n
    (if existsb (is_node n) ring && (1 <? Z.of_nat (length ring)) then
       list_del n
         (match head l2 with
          | Some next =>
              if existsb (is_node next) ring && (1 <? Z.of_nat (length ring)) then ring else list_add next n ring
          | None => ring
          end)
     else ring) (l1 ++ l2) = heads None (l1 ++ l2).
Proof.
  intros S N L ring. destruct (nodup_ids _ _ _ N) as [I1 I2].
  assert (R1 : forall m, m ∈ heads None l1 -> id m <> id n) by (intros m Hm%heads_elem; by apply I1).
  assert (R2 : forall m, m ∈ heads (Some (prio n)) l2 -> id m <> id n) by (intros m Hm%heads_elem; by apply I2).
  assert (En : existsb (is_node n) ring = true).
  { apply existsb_node. exists n. split; [|done]. unfold ring. apply elem_of_app. right. by left. }
  rewrite En. simpl. destruct (1 <? _) eqn:Len.
  - rewrite settle_other by apply list_del_no. destruct l2 as [|m l2]; simpl.
    + unfold ring. simpl. rewrite list_del_split by (done || by intros ? ?%not_elem_of_nil). by rewrite !app_nil_r.
    + destruct (decide (prio m = prio n)) as [E|E].
      * destruct (del_leader_next n m l1 l2 E L N) as [Hm Hd]. fold ring in Hm, Hd. by rewrite Hm.
      * assert (Hm : existsb (is_node m) ring = true).
        { apply existsb_node. exists m. split; [|done]. unfold ring. rewrite heads_fresh by congruence.
          apply elem_of_app. right. right. by left. }
        rewrite Hm. simpl. unfold ring. rewrite list_del_split by done.
        by rewrite heads_app, (del_leader_last n m).
  - apply Z.ltb_ge in Len. unfold ring in *. rewrite length_app in Len. simpl in Len.
    destruct (heads None l1) eqn:E1; [|simpl in Len; lia].
    destruct (heads (Some (prio n)) l2) eqn:E2; [|simpl in Len; lia]. simpl.
    assert (l1 = []) as -> by (destruct l1; [done|]; by rewrite heads_fresh in E1).
    rewrite (proj2 (is_node_spec n n) eq_refl). simpl. pose proof (heads_one _ _ E2) as P.
    destruct l2 as [|f l2]; [done|]. symmetry. eapply heads_same; [done|].
    intros x y Hx%P Hy%P. congruence.
Qed.

Lemma del_spec n h l1 l2 : plist_ok h -> node_list h = l1 ++ n :: l2 ->
  plist_ok (plist_del n h) /\ node_list (plist_del n h) = l1 ++ l2.
Proof.
  intros [S N R] El. rewrite El in *. destruct (nodup_ids _ _ _ N) as [I1 I2].
  assert (En : node_list (plist_del n h) = l1 ++ l2) by (simpl; rewrite El; by apply list_del_split).
  split; [|done]. split; rewrite En.
  - apply plist_sorted_app in S as (S1 & [_ S2] & S3). apply plist_sorted_app. split_and!; [done|done|].
    rewrite Forall_elem in *. intros m Hm. specialize (S3 m Hm). by apply Forall_cons_iff in S3 as [_ ?].
  - rewrite map_app in *. simpl in N. apply list.NoDup_app in N as (N1 & N2 & [_ N3]%list.NoDup_cons).
    apply list.NoDup_app. split_and!; [done| |done]. intros x Hx Hx'. apply (N2 x Hx). by right.
  - unfold plist_del. rewrite El, list_del_split by done.
    match goal with |- prio_list (mk_head ?x _) = _ =>
      change (prio_list (mk_head x (l1 ++ l2))) with x end.
    fold (settle n (if in_ring n h then list_del n
      (match list_next n (l1 ++ n :: l2) with
       | Some next => if in_ring next h then prio_list h else list_add next n (prio_list h)
       | None => prio_list h end) else prio_list h) (l1 ++ l2)).
    rewrite list_next_split by done. unfold in_ring. rewrite R, heads_app.
    destruct (decide (last_prio None l1 = Some (prio n))) as [E|E].
    + assert (Hr : heads (last_prio None l1) (n :: l2) = heads (last_prio None l1) l2) by (simpl; by rewrite decide_True).
      rewrite Hr. assert (F : forall m, m ∈ heads None l1 ++ heads (last_prio None l1) l2 -> id m <> id n).
      { intros m [Hm%heads_elem|Hm%heads_elem]%elem_of_app; [by apply I1|by apply I2]. }
      rewrite (existsb_node_false n _ F). simpl. rewrite settle_other by done. by rewrite heads_app.
    + rewrite heads_fresh by done. by apply del_leader.
Qed.

(** In a sorted list the nodes of the priority of [iter] follow it at once. *)
Lemma requeue_walk_split iter l : sorted (iter :: l) -> exists a b, l = a ++ b /\
  Forall (fun m => prio m = prio iter) a /\ Forall (fun m => prio iter < prio m) b /\
  requeue_walk (prio iter) l = head b.
Proof.
  intros [H S]. induction l as [|m l IH]; [by exists [], []|]. apply Forall_cons_iff in H as [Hm H].
  destruct S as [Sm S]. simpl. destruct (Z.eqb_spec (prio m) (prio iter)) as [E|E].
  - destruct (IH H S) as (a & b & -> & Ha & Hb & Hw). exists (m :: a), b. split_and!; [done|by constructor|done|done].
  - exists [], (m :: l). split_and!; [done|constructor| |done]. constructor; [lia|].
    rewrite Forall_elem in *. intros k Hk. specialize (Sm k Hk). lia.
Qed.

Lemma list_after_split n l1 l2 : (forall m, m ∈ l1 -> id m <> id n) -> list_after n (l1 ++ n :: l2) = l2.
Proof.
  induction l1 as [|m l1 IH]; intros H; simpl; [by rewrite (proj2 (is_node_spec n n) eq_refl)|].
  destruct (is_node n m) eqn:E; [apply is_node_spec in E; destruct (H m); [by left|done]|].
  apply IH. intros k Hk. apply H. by right.
Qed.

Lemma last_same a iter l1 : Forall (fun m => prio m = prio iter) a ->
  last_prio None (l1 ++ iter :: a) = Some (prio iter).
Proof.
  intros H. unfold last_prio. rewrite last_app_cons, last_cons. destruct (list.last a) as [k|] eqn:E; [|done].
  rewrite Forall_elem in H. by rewrite (H k (last_Some_elem_of _ _ E)).
Qed.

Lemma requeue_spec n h l1 l2 : plist_ok h -> node_list h = l1 ++ n :: l2 ->
  exists h', plist_requeue n h = Some h' /\ plist_ok h' /\ node_list h' = insert n (l1 ++ l2).
Proof.
  intros K El. pose proof K as [S N R]. rewrite El in S, N. destruct (nodup_ids _ _ _ N) as [I1 I2].
  assert (H1 : Forall (fun m => prio m <= prio n) l1).
  { apply plist_sorted_app in S as (_ & _ & S3). rewrite Forall_elem in *. intros m Hm. specialize (S3 m Hm).
    by apply Forall_cons_iff in S3 as [? _]. }
  unfold plist_requeue. rewrite El, list_next_split by done.
  destruct (del_spec n h l1 l2 K El) as [K' E']. set (hd := plist_del n h) in *. clearbody hd.
  rewrite (proj2 (existsb_node n (l1 ++ n :: l2))) by (exists n; split; [apply elem_of_app; right; by left|done]).
  simpl. destruct l2 as [|iter l2]; simpl.
  { exists h. split_and!; [done|done|]. by rewrite insert_split, El. }
  apply plist_sorted_app in S as (S1 & [Sn S2] & S3). destruct (Z.eqb_spec (prio n) (prio iter)) as [E|E]; simpl.
  - destruct (requeue_walk_split iter l2 S2) as (a & b & -> & Ha & Hb & Hw).
    change (l1 ++ n :: iter :: a ++ b) with (l1 ++ [n] ++ iter :: a ++ b) in N. rewrite app_assoc in N.
    destruct (nodup_ids (l1 ++ [n]) iter (a ++ b) N) as [J1 _].
    assert (J : forall m, m ∈ l1 -> id m <> id iter) by (intros m Hm; apply J1, elem_of_app; by left).
    rewrite E', list_after_split, E, Hw by done.
    assert (Q : l1 ++ iter :: a ++ b = (l1 ++ iter :: a) ++ b) by (by rewrite <- app_assoc).
    assert (Ei : insert n (l1 ++ iter :: a ++ b) = (l1 ++ iter :: a) ++ n :: b).
    { rewrite Q. apply insert_split; [|by rewrite E]. apply Forall_app. split; [done|].
      constructor; [lia|]. rewrite Forall_elem in *. intros m Hm. rewrite (Ha m Hm). lia. }
    rewrite <- app_assoc in N. simpl in N.
    assert (Et : list_add_tail n (head b) (l1 ++ iter :: a ++ b) = (l1 ++ iter :: a) ++ n :: b).
    { rewrite Q. apply add_tail_split. intros m Hm k Hk. destruct b as [|m' b]; [done|]. injection Hm as ->.
      assert (N' : NoDup (map id ((l1 ++ iter :: a) ++ m :: b))) by (rewrite <- Q, <- E'; apply K').
      by apply (proj1 (nodup_ids _ _ _ N')). }
    eexists. split; [done|]. simpl. rewrite Et, Ei. split; [|done]. destruct K' as [S' N' R'].
    rewrite E' in S', N', R'. split; simpl.
    + rewrite <- Ei. by apply insert_sorted.
    + rewrite <- Ei, insert_perm. simpl. apply list.NoDup_cons. split; [|done].
      intros (m & Em & Hm)%list_elem_of_fmap. apply elem_of_app in Hm as [Hm|Hm]; [by apply (I1 m)|by apply (I2 m)].
    + rewrite R', Q, !heads_app, last_same by done. f_equal. simpl. by rewrite decide_True by congruence.
  - apply Forall_cons_iff in Sn as [Hn _]. exists h. split_and!; [done|done|]. rewrite insert_split, El; [done|done|].
    constructor; [lia|]. destruct S2 as [Si _]. rewrite Forall_elem in *. intros m Hm. specialize (Si m Hm). lia.
Qed.

(** ** Refinement *)

Inductive op := Add (n : plist_node) | Del (n : plist_node) | Requeue (n : plist_node).

Definition step (o : op) (h : plist_head) : option plist_head :=
  match o with
  | Add n => Some (plist_add n h)
  | Del n => Some (plist_del n h)
  | Requeue n => plist_requeue n h
  end.

Fixpoint run (os : list op) (h : plist_head) : option plist_head :=
  match os with [] => Some h | o :: os => h ← step o h; run os h end.

(** The queue a plist stands for: a node goes behind those of its priority, when it is
    added and when it is requeued. *)
Definition queue_step (o : op) (l : list plist_node) : option (list plist_node) :=
  match o with
  | Add n => if decide (id n ∈ map id l) then None else Some (insert n l)
  | Del n => if decide (n ∈ l) then Some (list_del n l) else None
  | Requeue n => if decide (n ∈ l) then Some (insert n (list_del n l)) else None
  end.

Fixpoint queue_run (os : list op) (l : list plist_node) : option (list plist_node) :=
  match os with [] => Some l | o :: os => l ← queue_step o l; queue_run os l end.

Lemma plist_step_refines o h l : plist_ok h -> queue_step o (node_list h) = Some l ->
  exists h', step o h = Some h' /\ plist_ok h' /\ node_list h' = l.
Proof.
  intros K. destruct o as [n|n|n]; simpl; case_decide as D; try done; intros [= <-].
  - destruct (add_spec n h K); [|eauto]. intros m Hm E. apply D. rewrite <- E. by apply (list_elem_of_fmap_2 id).
  - apply list_elem_of_split in D as (l1 & l2 & E). destruct (del_spec n h l1 l2 K E) as [K' E'].
    exists (plist_del n h). split_and!; done.
  - apply list_elem_of_split in D as (l1 & l2 & E). destruct (requeue_spec n h l1 l2 K E) as (h' & H & K' & E').
    destruct (nodup_ids l1 n l2) as [I1 I2]; [rewrite <- E; apply K|].
    exists h'. split_and!; [done|done|]. by rewrite E', E, list_del_split.
Qed.

(** C17: A plist refines a queue that is sorted by priority and first come first served
    among equals.  For every sequence of [plist_add] of a node that is not in the list,
    and [plist_del] and [plist_requeue] of one that is, the node list is the queue, the
    priority list holds exactly the first node of each priority in order, and the
    shortcut through it inserts where a walk over all nodes would. *)
Theorem plist_refines_sorted_queue os l : queue_run os [] = Some l ->
  exists h, run os plist_head_init = Some h /\ node_list h = l /\ sorted l /\
    prio_list h = heads None l /\ plist_first h = head l.
Proof.
  assert (G : forall os h l, plist_ok h -> queue_run os (node_list h) = Some l ->
    exists h', run os h = Some h' /\ plist_ok h' /\ node_list h' = l).
  { clear os l. induction os as [|o os IH]; intros h l K H; simpl in *; [injection H as <-; eauto|].
    apply bind_Some in H as (l1 & H1 & H). destruct (plist_step_refines o h l1 K H1) as (h1 & E & K1 & E1).
    rewrite E. simpl. apply IH; [done|by rewrite E1]. }
  intros H. destruct (G os plist_head_init l) as (h & R & [S _ P] & E); [by split; [|constructor|]|done|].
  exists h. unfold plist_first. rewrite <- E. split_and!; done.
Qed.

Definition demo_nodes : list op :=
  [Add (mk_node 1 50); Add (mk_node 2 20); Add (mk_node 3 50); Add (mk_node 4 30); Requeue (mk_node 1 50);
   Add (mk_node 5 20); Del (mk_node 2 20)].

Lemma plist_refines_sorted_queue_witness : exists h,
  run demo_nodes plist_head_init = Some h /\
  map id (node_list h) = [5; 4; 3; 1] /\ map id (prio_list h) = [5; 4; 3].
Proof.
  destruct (plist_refines_sorted_queue demo_nodes
    [mk_node 5 20; mk_node 4 30; mk_node 3 50; mk_node 1 50]) as (h & R & E & _ & P & _); [by vm_compute|].
  exists h. rewrite E, P. split_and!; done.
Defined.

End Plist.
