(* ===== verification/LoadWeight.v ===== *)
(** Load weights: the nice levels and cgroup weights of [kernel/sched/core.c], and the
    scaling of execution time to virtual time of [kernel/sched/fair.c].

    [calc_delta_fair] replaces a division by a multiplication with a 32-bit inverse and
    a shift; the theorems bound its error and show that it is monotone.  The cgroup
    knobs convert between user weights, nice levels and shares; the theorems show that
    a value written is the value read back. *)

From Stdlib Require Import ZArith Lia List.
From stdpp Require Import base list numbers option.
From S2P Require Import Prelude.
Open Scope Z_scope.

Module LoadWeight.

Definition SCHED_FIXEDPOINT_SHIFT : Z := 10.
Definition NICE_0_LOAD : Z := Z.shiftl 1 20.
Definition scale_load (w : Z) : Z := u64 (Z.shiftl w SCHED_FIXEDPOINT_SHIFT).
Definition scale_load_down (w : Z) : Z :=
  if w =? 0 then 0 else Z.max 2 (Z.shiftr w SCHED_FIXEDPOINT_SHIFT).

Record load_weight := mk_load { weight : Z; inv_weight : Z }.

Definition update_load_add (lw : load_weight) (inc : Z) : load_weight :=
  mk_load (u64 (weight lw + inc)) 0.
Definition update_load_sub (lw : load_weight) (dec : Z) : load_weight :=
  mk_load (u64 (weight lw - dec)) 0.
Definition update_load_set (w : Z) : load_weight := mk_load w 0.

(** ** Bit operations of the C library *)

(** One halving step of [fls]: if the upper [k] bits are clear, shift them out. *)
Definition fls_step (k : Z) (xr : Z * Z) : Z * Z :=
  let '(x, r) := xr in
  if Z.land x (Z.shiftl (Z.ones k) (32 - k)) =? 0 then (u32 (Z.shiftl x k), r - k) else (x, r).

Definition fls (x : Z) : Z :=
  if x =? 0 then 0
  else snd (fls_step 1 (fls_step 2 (fls_step 4 (fls_step 8 (fls_step 16 (x, 32)))))).

Definition mul_u32_u32 (a b : Z) : Z := u64 (u32 a * u32 b).
Definition mul_u64_u32_shr (a mul shift : Z) : Z := u64 (Z.shiftr (a * u32 mul) shift).

(** ** Scaling by weight *)

Definition WMULT_CONST : Z := two32 - 1.
Definition WMULT_SHIFT : Z := 32.

Definition __update_inv_weight (lw : load_weight) : load_weight :=
  if negb (inv_weight lw =? 0) then lw
  else
    let w := scale_load_down (weight lw) in
    if WMULT_CONST <=? w then mk_load (weight lw) 1
    else if w =? 0 then mk_load (weight lw) WMULT_CONST
    else mk_load (weight lw) (u32 (cdiv WMULT_CONST w)).

(** The normalisation of a factor to 32 bits, and what it takes from the shift. *)
Definition fold_hi (fact shift : Z) : Z * Z :=
  let fact_hi := u32 (Z.shiftr fact 32) in
  if fact_hi =? 0 then (fact, shift)
  else let fs := fls fact_hi in (Z.shiftr fact fs, shift - fs).

Definition __calc_delta (delta_exec w : Z) (lw : load_weight) : Z * load_weight :=
  let fact := scale_load_down w in
  let lw := __update_inv_weight lw in
  let '(fact, shift) := fold_hi fact WMULT_SHIFT in
  let fact := mul_u32_u32 fact (inv_weight lw) in
  let '(fact, shift) := fold_hi fact shift in
  (mul_u64_u32_shr delta_exec fact shift, lw).

Definition calc_delta_fair (delta : Z) (lw : load_weight) : Z * load_weight :=
  if negb (weight lw =? NICE_0_LOAD) then __calc_delta delta NICE_0_LOAD lw else (delta, lw).

(** ** Nice levels *)

Definition MAX_NICE : Z := 19.
Definition MIN_NICE : Z := -20.
Definition MAX_RT_PRIO : Z := 100.
Definition DEFAULT_PRIO : Z := MAX_RT_PRIO + (MAX_NICE - MIN_NICE + 1) / 2.
Definition NICE_TO_PRIO (nice : Z) : Z := nice + DEFAULT_PRIO.
Definition PRIO_TO_NICE (prio : Z) : Z := prio - DEFAULT_PRIO.

Definition sched_prio_to_weight : list Z :=
  [88761; 71755; 56483; 46273; 36291;
   29154; 23254; 18705; 14949; 11916;
   9548; 7620; 6100; 4904; 3906;
   3121; 2501; 1991; 1586; 1277;
   1024; 820; 655; 526; 423;
   335; 272; 215; 172; 137;
   110; 87; 70; 56; 45;
   36; 29; 23; 18; 15].

Definition sched_prio_to_wmult : list Z :=
  [48388; 59856; 76040; 92818; 118348;
   147320; 184698; 229616; 287308; 360437;
   449829; 563644; 704093; 875809; 1099582;
   1376151; 1717300; 2157191; 2708050; 3363326;
   4194304; 5237765; 6557202; 8165337; 10153587;
   12820798; 15790321; 19976592; 24970740; 31350126;
   39045157; 49367440; 61356676; 76695844; 95443717;
   119304647; 148102320; 186737708; 238609294; 286331153].

Definition WEIGHT_IDLEPRIO : Z := 3.
Definition WMULT_IDLEPRIO : Z := 1431655765.

(** The load of SCHED_IDLE tasks, and of the others by priority index; [set_load_weight]
    itself is in the model of the fair class. *)
Definition idle_load : load_weight := mk_load (scale_load WEIGHT_IDLEPRIO) WMULT_IDLEPRIO.

Definition prio_load (prio : Z) : option load_weight :=
  w ← aref sched_prio_to_weight prio;
  i ← aref sched_prio_to_wmult prio;
  Some (mk_load (scale_load w) i).

(** ** Tunable scaling *)

Inductive sched_tunable_scaling :=
| SCHED_TUNABLESCALING_NONE | SCHED_TUNABLESCALING_LOG | SCHED_TUNABLESCALING_LINEAR.

Definition get_update_sysctl_factor (scaling : sched_tunable_scaling) (num_online_cpus : Z) : Z :=
  let cpus := Z.min (u32 num_online_cpus) 8 in
  match scaling with
  | SCHED_TUNABLESCALING_NONE => 1
  | SCHED_TUNABLESCALING_LINEAR => cpus
  | SCHED_TUNABLESCALING_LOG => 1 + Z.log2 cpus
  end.

(** The base slice from its normalised value. *)
Definition update_sysctl (scaling : sched_tunable_scaling) (num_online_cpus normalized : Z) : Z :=
  u32 (get_update_sysctl_factor scaling num_online_cpus * normalized).

(** The normalised value from the base slice, after a write. *)
Definition sched_update_scaling (scaling : sched_tunable_scaling) (num_online_cpus slice : Z) : option Z :=
  let factor := get_update_sysctl_factor scaling num_online_cpus in
  if factor =? 0 then None else Some (cdiv slice factor).

(** ** Weights of task groups *)

Definition EINVAL : Z := 22.
Definition ERANGE : Z := 34.
Definition MIN_SHARES : Z := Z.shiftl 1 1.
Definition MAX_SHARES : Z := Z.shiftl 1 18.
Definition CGROUP_WEIGHT_MIN : Z := 1.
Definition CGROUP_WEIGHT_DFL : Z := 100.
Definition CGROUP_WEIGHT_MAX : Z := 10000.

Definition DIV_ROUND_CLOSEST_ULL (x d : Z) : Z := u64 (x + d / 2) / d.

(** A group: its shares, whether it is an idle group, and whether it is the root, which
    has no entities. *)
Record task_group := mk_tg { shares : Z; idle : bool; is_root : bool }.

(** The flag says that the entities of the group are to be reweighted. *)
Definition __sched_group_set_shares (tg : task_group) (s : Z) : Z * task_group * bool :=
  if is_root tg then (- EINVAL, tg, false)
  else
    let s := Z.min (Z.max s (scale_load MIN_SHARES)) (scale_load MAX_SHARES) in
    if shares tg =? s then (0, tg, false)
    else (0, mk_tg s (idle tg) (is_root tg), true).

Definition sched_group_set_shares (tg : task_group) (s : Z) : Z * task_group * bool :=
  if idle tg then (- EINVAL, tg, false) else __sched_group_set_shares tg s.

Definition cpu_weight_read_u64 (tg : task_group) : Z :=
  DIV_ROUND_CLOSEST_ULL (u64 (scale_load_down (shares tg) * CGROUP_WEIGHT_DFL)) 1024.

Definition cpu_weight_write_u64 (tg : task_group) (w : Z) : Z * task_group * bool :=
  if (w <? CGROUP_WEIGHT_MIN) || (CGROUP_WEIGHT_MAX <? w) then (- ERANGE, tg, false)
  else
    let w := DIV_ROUND_CLOSEST_ULL (u64 (w * 1024)) CGROUP_WEIGHT_DFL in
    sched_group_set_shares tg (scale_load w).

(** The loop of [cpu_weight_nice_read_s64]: the index at which it ends. *)
Fixpoint closest (w prio last_delta : Z) (tbl : list Z) : Z :=
  match tbl with
  | [] => prio
  | x :: tbl =>
    let delta := s32 (Z.abs (s64 (x - w))) in
    if last_delta <=? delta then prio else closest w (prio + 1) delta tbl
  end.

Definition cpu_weight_nice_read_s64 (tg : task_group) : Z :=
  let w := scale_load_down (shares tg) in
  let prio := closest w 0 (two31 - 1) sched_prio_to_weight in
  PRIO_TO_NICE (prio - 1 + MAX_RT_PRIO).

Definition cpu_weight_nice_write_s64 (tg : task_group) (nice : Z) : option (Z * task_group * bool) :=
  if (nice <? MIN_NICE) || (MAX_NICE <? nice) then Some (- ERANGE, tg, false)
  else
    w ← aref sched_prio_to_weight (NICE_TO_PRIO nice - MAX_RT_PRIO);
    Some (sched_group_set_shares tg (scale_load w)).

(** ** [fls] *)

Lemma land_high x k : 0 <= k <= 32 -> 0 <= x < two32 ->
  Z.land x (Z.shiftl (Z.ones k) (32 - k)) = x / 2 ^ (32 - k) * 2 ^ (32 - k).
Proof.
  intros Hk Hx. rewrite <- Z.shiftl_mul_pow2, <- Z.shiftr_div_pow2 by lia.
  apply Z.bits_inj'. intros n Hn. rewrite Z.land_spec, !Z.shiftl_spec by lia.
  destruct (Z_lt_le_dec n (32 - k)) as [Hlt|Hle].
  - by rewrite !(Z.testbit_neg_r _ (n - (32 - k))), andb_false_r by lia.
  - rewrite Z.shiftr_spec by lia. replace (n - (32 - k) + (32 - k)) with n by lia.
    rewrite Z.testbit_ones by lia. destruct (Z_lt_le_dec n 32) as [H32|H32].
    + rewrite (proj2 (Z.leb_le _ _)), (proj2 (Z.ltb_lt _ _)) by lia. by rewrite andb_true_r.
    + rewrite (Z.bits_above_log2 x n); [done|lia|]. destruct (Z.eq_dec x 0) as [->|]; [simpl; lia|].
      apply Z.log2_lt_pow2; [lia|]. apply Z.lt_le_trans with (2 ^ 32); [lia|].
      apply Z.pow_le_mono_r; lia.
Qed.

Lemma land_high_0 x k : 0 <= k <= 32 -> 0 <= x < two32 ->
  (Z.land x (Z.shiftl (Z.ones k) (32 - k)) =? 0) = (x <? 2 ^ (32 - k)).
Proof.
  intros Hk Hx. rewrite land_high by done. pose proof (Z.pow_pos_nonneg 2 (32 - k)) as P.
  destruct (Z.ltb_spec x (2 ^ (32 - k))) as [E|E].
  - by rewrite Z.div_small by lia.
  - apply Z.eqb_neq. assert (1 <= x / 2 ^ (32 - k)) by (apply Z.div_le_lower_bound; lia). nia.
Qed.

(** A step keeps [x * 2 ^ r]'s leading bit in place and moves it up. *)
Lemma fls_step_spec k x r : 0 < k <= 16 -> 2 ^ (32 - 2 * k) <= x < two32 ->
  exists d, 0 <= d /\ fls_step k (x, r) = (x * 2 ^ d, r - d) /\ 2 ^ (32 - k) <= x * 2 ^ d < two32.
Proof.
  intros Hk Hx. pose proof (Z.pow_pos_nonneg 2 (32 - 2 * k)) as P. unfold fls_step.
  rewrite land_high_0 by lia. destruct (Z.ltb_spec x (2 ^ (32 - k))) as [E|E].
  - exists k. assert (E1 : 2 ^ (32 - k) = 2 ^ (32 - 2 * k) * 2 ^ k) by (rewrite <- Z.pow_add_r by lia; f_equal; lia).
    assert (E2 : two32 = 2 ^ (32 - k) * 2 ^ k) by (rewrite <- Z.pow_add_r by lia; by replace (32 - k + k) with 32 by lia).
    pose proof (Z.pow_pos_nonneg 2 k). rewrite Z.shiftl_mul_pow2 by lia.
    split; [lia|]. split; [|nia]. f_equal. apply u32_small. nia.
  - exists 0. rewrite Z.mul_1_r, Z.sub_0_r. split; [lia|]. split; [done|lia].
Qed.

Lemma fls_spec x : 0 < x < two32 -> fls x = Z.log2 x + 1.
Proof.
  intros Hx. unfold fls. rewrite (proj2 (Z.eqb_neq x 0)) by lia.
  destruct (fls_step_spec 16 x 32) as (d1 & D1 & -> & B1); [lia|simpl; lia|].
  destruct (fls_step_spec 8 (x * 2 ^ d1) (32 - d1)) as (d2 & D2 & -> & B2); [lia|simpl in *; lia|].
  destruct (fls_step_spec 4 (x * 2 ^ d1 * 2 ^ d2) (32 - d1 - d2)) as (d3 & D3 & -> & B3); [lia|simpl in *; lia|].
  destruct (fls_step_spec 2 (x * 2 ^ d1 * 2 ^ d2 * 2 ^ d3) (32 - d1 - d2 - d3)) as (d4 & D4 & -> & B4);
    [lia|simpl in *; lia|].
  destruct (fls_step_spec 1 (x * 2 ^ d1 * 2 ^ d2 * 2 ^ d3 * 2 ^ d4) (32 - d1 - d2 - d3 - d4)) as (d5 & D5 & -> & B5);
    [lia|simpl in *; lia|].
  simpl snd. rewrite <- !Z.mul_assoc, <- !Z.pow_add_r in B5 by lia.
  set (d := d1 + _) in *. replace (32 - d1 - d2 - d3 - d4 - d5) with (32 - d) by lia.
  assert (Hd : 0 <= d) by lia. clearbody d. clear - B5 Hd Hx.
  assert (L : Z.log2 (x * 2 ^ d) = 31) by (apply Z.log2_unique; simpl in *; lia).
  rewrite <- Z.shiftl_mul_pow2, Z.log2_shiftl in L by lia. lia.
Qed.

(** ** Accuracy of the inverse *)

(** The weight is one that entities have, and a cached inverse belongs to it. *)
Definition load_ok (lw : load_weight) : Prop :=
  0 < weight lw < Z.shiftl 1 40 /\
  (inv_weight lw = 0 \/
   0 < inv_weight lw < two32 /\
   Z.abs (two32 - scale_load_down (weight lw) * inv_weight lw) <= scale_load_down (weight lw)).

Lemma scale_load_down_range w : 0 < w < Z.shiftl 1 40 -> 2 <= scale_load_down w < 2 ^ 30.
Proof.
  intros Hw. change (Z.shiftl 1 40) with 1099511627776 in Hw. change (2 ^ 30) with 1073741824.
  unfold scale_load_down. rewrite (proj2 (Z.eqb_neq w 0)) by lia. split; [lia|].
  change SCHED_FIXEDPOINT_SHIFT with 10. rewrite Z.shiftr_div_pow2 by lia. change (2 ^ 10) with 1024.
  apply Z.max_lub_lt; [lia|]. apply Z.div_lt_upper_bound; lia.
Qed.

Lemma update_inv_weight_spec lw : load_ok lw ->
  let lw' := __update_inv_weight lw in
  let w := scale_load_down (weight lw) in
  weight lw' = weight lw /\ load_ok lw' /\ 0 < inv_weight lw' < two32 /\
  two32 - w <= w * inv_weight lw' <= two32 + w.
Proof.
  intros [Hw Hi]. pose proof (scale_load_down_range _ Hw) as W. simpl. unfold __update_inv_weight.
  set (w := scale_load_down (weight lw)) in *. change (2 ^ 30) with 1073741824 in W.
  destruct (Z.eqb_spec (inv_weight lw) 0) as [E|E]; simpl.
  - unfold WMULT_CONST. rewrite (proj2 (Z.leb_gt _ w)), (proj2 (Z.eqb_neq w 0)) by lia. simpl.
    unfold cdiv. rewrite Z.quot_div_nonneg by lia.
    pose proof (Z.div_mod (two32 - 1) w ltac:(lia)). pose proof (Z.mod_pos_bound (two32 - 1) w ltac:(lia)).
    set (q := (two32 - 1) / w) in *. clearbody q.
    assert (0 < q) by nia. assert (q < two32) by nia. rewrite u32_small by lia. split; [done|].
    split; [|split; [lia|lia]]. split; simpl; [done|]. right. fold w. lia.
  - destruct Hi as [Hi|[Hi1 Hi2]]; [done|]. split_and!; try done; try lia. split; [done|]. by right.
Qed.

(** The factor and shift by which a delta is scaled. *)
Lemma calc_delta_scale lw : load_ok lw ->
  let w := scale_load_down (weight lw) in
  exists fact shift, 22 <= shift <= 32 /\ 0 <= fact < two32 /\
    1024 * (two32 - w - 2) <= w * (fact * 2 ^ (32 - shift)) <= 1024 * (two32 + w) /\
    forall delta, __calc_delta delta NICE_0_LOAD lw =
      (u64 (Z.shiftr (delta * fact) shift), __update_inv_weight lw).
Proof.
  intros H w. destruct (update_inv_weight_spec lw H) as (_ & _ & Hi & Hw). fold w in Hw.
  destruct H as [Hwt _]. pose proof (scale_load_down_range _ Hwt) as W. fold w in W.
  change (2 ^ 30) with 1073741824 in W. unfold __calc_delta.
  change (fold_hi (scale_load_down NICE_0_LOAD) WMULT_SHIFT) with (1024, 32). cbv beta iota zeta.
  set (inv := inv_weight (__update_inv_weight lw)) in *.
  assert (Em : mul_u32_u32 1024 inv = 1024 * inv).
  { unfold mul_u32_u32. rewrite !u32_small, u64_small by lia. done. }
  rewrite Em. unfold fold_hi. rewrite Z.shiftr_div_pow2 by lia. change (2 ^ 32) with two32.
  pose proof (Z.div_mod (1024 * inv) two32 ltac:(lia)) as D.
  pose proof (Z.mod_pos_bound (1024 * inv) two32 ltac:(lia)) as M. set (hi := 1024 * inv / two32) in *.
  assert (Hhi : 0 <= hi < 1024) by lia. rewrite (u32_small hi) by lia.
  destruct (Z.eqb_spec hi 0) as [E|E].
  - exists (1024 * inv), 32. change (2 ^ (32 - 32)) with 1. split_and!; try lia.
    intros delta. unfold mul_u64_u32_shr. by rewrite (u32_small (1024 * inv)) by lia.
  - rewrite fls_spec by lia. pose proof (Z.log2_spec hi ltac:(lia)) as L.
    assert (Hl : Z.log2 hi < 10) by (apply Z.log2_lt_pow2; [lia|]; simpl; lia).
    pose proof (Z.log2_nonneg hi) as Hl0. rewrite <- Z.add_1_r in L.
    set (fs := Z.log2 hi + 1) in *. rewrite Z.shiftr_div_pow2 by lia.
    assert (Ef : 2 ^ fs = 2 * 2 ^ Z.log2 hi) by (unfold fs; rewrite Z.pow_add_r by lia; lia).
    assert (P : 0 < 2 ^ fs) by lia.
    pose proof (Z.div_mod (1024 * inv) (2 ^ fs) ltac:(lia)) as D2.
    pose proof (Z.mod_pos_bound (1024 * inv) (2 ^ fs) ltac:(lia)) as M2. set (f := 1024 * inv / 2 ^ fs) in *.
    assert (F : 0 <= f < two32) by nia.
    exists f, (32 - fs). replace (32 - (32 - fs)) with fs by lia.
    split; [lia|]. split; [done|]. split.
    + assert (w <= 1025) by nia. assert (w * 2 ^ fs <= 2048) by nia. nia.
    + intros delta. unfold mul_u64_u32_shr. by rewrite (u32_small f) by lia.
Qed.

Lemma calc_delta_fair_scale lw : load_ok lw ->
  let w := scale_load_down (weight lw) in
  exists fact shift lw', 22 <= shift <= 32 /\ 0 <= fact /\ weight lw' = weight lw /\ load_ok lw' /\
    1024 * (two32 - w - 2) <= w * (fact * 2 ^ (32 - shift)) <= 1024 * (two32 + w) /\
    forall delta, 0 <= delta < 2 ^ 53 ->
      calc_delta_fair delta lw = (Z.shiftr (delta * fact) shift, lw').
Proof.
  intros H w. unfold calc_delta_fair. pose proof H as [Hwt _].
  pose proof (scale_load_down_range _ Hwt) as W. fold w in W. change (2 ^ 30) with 1073741824 in W.
  destruct (Z.eqb_spec (weight lw) NICE_0_LOAD) as [E|E]; simpl.
  - assert (Ew : w = 1024) by (unfold w; by rewrite E).
    exists two32, 32, lw. change (2 ^ (32 - 32)) with 1. split_and!; try done; try lia.
    intros delta Hd. by rewrite Z.shiftr_div_pow2, Z.div_mul by done.
  - destruct (calc_delta_scale lw H) as (f & sh & Hs & Hf & B & C). fold w in B.
    destruct (update_inv_weight_spec lw H) as (U1 & U2 & _). exists f, sh, (__update_inv_weight lw).
    split_and!; try done; try lia. intros delta Hd. rewrite C. f_equal. apply u64_small.
    rewrite Z.shiftr_div_pow2 by lia. pose proof (Z.pow_pos_nonneg 2 sh ltac:(lia) ltac:(lia)) as P.
    pose proof (Z.pow_pos_nonneg 2 (32 - sh) ltac:(lia) ltac:(lia)) as P'.
    assert (E32 : 2 ^ (32 - sh) * 2 ^ sh = two32) by (rewrite <- Z.pow_add_r by lia; by replace (32 - sh + sh) with 32 by lia).
    change (2 ^ 53) with 9007199254740992 in Hd.
    split; [apply Z.div_pos; nia|]. apply Z.div_lt_upper_bound; [lia|].
    assert (Hb : f * 2 ^ (32 - sh) <= 1024 * two32) by nia.
    assert (f <= 1024 * 2 ^ sh) by nia. nia.
Qed.

(** C37: Scaling execution time to virtual time is accurate.  For an entity with a weight
    below [2^40] whose cached inverse is unset or belongs to its weight, and an interval
    of less than [2^53] nanoseconds, [calc_delta_fair] does not overflow, leaves the
    weight and a valid cached inverse behind, is monotone in the interval, and returns
    [1024 * delta / w] with a relative error of at most [(w + 2) / 2^32], rounded down. *)
Theorem calc_delta_fair_accurate lw delta delta' : load_ok lw -> 0 <= delta <= delta' -> delta' < 2 ^ 53 ->
  let w := scale_load_down (weight lw) in
  let '(d, lw1) := calc_delta_fair delta lw in
  weight lw1 = weight lw /\ load_ok lw1 /\ 0 <= d <= fst (calc_delta_fair delta' lw) /\
  w * two32 * d <= 1024 * delta * (two32 + w) /\
  1024 * delta * (two32 - w - 2) < w * two32 * (d + 1).
Proof.
  intros H Hd Hd'. destruct (calc_delta_fair_scale lw H) as (f & sh & lw' & Hs & Hf & W1 & W2 & B & C).
  rewrite !C by lia. destruct H as [Hw _]. apply scale_load_down_range in Hw.
  set (w := scale_load_down (weight lw)) in *. simpl fst. rewrite !Z.shiftr_div_pow2 by lia.
  pose proof (Z.pow_pos_nonneg 2 sh ltac:(lia) ltac:(lia)) as P.
  assert (E32 : 2 ^ (32 - sh) * 2 ^ sh = two32).
  { rewrite <- Z.pow_add_r by lia. by replace (32 - sh + sh) with 32 by lia. }
  set (g := 2 ^ (32 - sh)) in *. set (e := 2 ^ sh) in *.
  pose proof (Z.div_mod (delta * f) e ltac:(lia)) as D. pose proof (Z.mod_pos_bound (delta * f) e ltac:(lia)) as M.
  set (d := delta * f / e) in *. assert (0 < g) by nia.
  split; [done|]. split; [done|]. split.
  { split; [apply Z.div_pos; nia|apply Z.div_le_mono; nia]. }
  assert (X : two32 * d <= delta * (f * g) < two32 * (d + 1)) by nia. clearbody d. clear D M.
  set (fg := f * g) in *. clearbody fg. split; nia.
Qed.

(** ** Nice levels and groups *)

Definition load_okb (lw : load_weight) : bool :=
  (0 <? weight lw) && (weight lw <? Z.shiftl 1 40) &&
  ((inv_weight lw =? 0) ||
   (0 <? inv_weight lw) && (inv_weight lw <? two32) &&
   (Z.abs (two32 - scale_load_down (weight lw) * inv_weight lw) <=? scale_load_down (weight lw))).

Lemma load_okb_spec lw : load_okb lw = true -> load_ok lw.
Proof. unfold load_okb, load_ok. rewrite !andb_true_iff, orb_true_iff, !andb_true_iff. intros. zcase. lia. Qed.

Definition nice_ok (nice : Z) : bool :=
  match prio_load (NICE_TO_PRIO nice - MAX_RT_PRIO), prio_load (NICE_TO_PRIO (nice + 1) - MAX_RT_PRIO) with
  | Some lw, Some lw' =>
    load_okb lw && load_okb lw' && (118 * weight lw' <=? 100 * weight lw) && (100 * weight lw <=? 129 * weight lw')
  | _, _ => false
  end.

(** The nice levels are consistent.  For every nice level a task has, the tables give
    a weight and the inverse that belongs to it, nice 0 has the unit weight, and one
    level up divides the weight by a factor between 1.18 and 1.29, so that two competing
    tasks one level apart differ by about ten percent of the processor. *)
Theorem nice_levels_multiplicative nice : MIN_NICE <= nice < MAX_NICE ->
  exists lw lw', prio_load (NICE_TO_PRIO nice - MAX_RT_PRIO) = Some lw /\
    prio_load (NICE_TO_PRIO (nice + 1) - MAX_RT_PRIO) = Some lw' /\ load_ok lw /\ load_ok lw' /\
    118 * weight lw' <= 100 * weight lw <= 129 * weight lw' /\ (nice = 0 -> weight lw = NICE_0_LOAD).
Proof.
  intros H. assert (E : nice_ok nice = true).
  { apply (forallb_range nice_ok MIN_NICE 39); [by vm_compute|unfold MIN_NICE, MAX_NICE in *; lia]. }
  unfold nice_ok in E.
  destruct (prio_load (NICE_TO_PRIO nice - MAX_RT_PRIO)) as [lw|] eqn:E1; [|done].
  destruct (prio_load (NICE_TO_PRIO (nice + 1) - MAX_RT_PRIO)) as [lw'|] eqn:E2; [|done].
  rewrite !andb_true_iff in E. destruct E as [[[A1 A2] A3] A4]. zcase.
  exists lw, lw'. split_and!; try done; try by apply load_okb_spec. intros ->. by injection E1 as <-.
Qed.

Lemma nice_levels_multiplicative_witness : exists lw lw',
  prio_load 20 = Some lw /\ prio_load 21 = Some lw' /\
  118 * weight lw' <= 100 * weight lw <= 129 * weight lw' /\ weight lw = NICE_0_LOAD.
Proof.
  destruct (nice_levels_multiplicative 0 ltac:(unfold MIN_NICE, MAX_NICE; lia))
    as (lw & lw' & H1 & H2 & _ & _ & H3 & H4).
  exists lw, lw'. split; [exact H1|]. split; [exact H2|]. split; [exact H3|exact (H4 eq_refl)].
Defined.

(** A write that sets the shares to [s] within their bounds. *)
Definition written (s : Z) : Z := Z.min (Z.max s (scale_load MIN_SHARES)) (scale_load MAX_SHARES).

Lemma set_shares_ok tg s : idle tg = false -> is_root tg = false ->
  exists walk, sched_group_set_shares tg s = (0, mk_tg (written s) false false, walk) /\
    (walk = true <-> shares tg <> written s).
Proof.
  destruct tg as [sh i r]. simpl. intros -> ->. unfold sched_group_set_shares, __sched_group_set_shares. simpl.
  fold (written s). destruct (Z.eqb_spec sh (written s)) as [->|E]; by eexists.
Qed.

(** Rounding to the nearest twice: the second rounding recovers the weight. *)
Lemma weight_read_back w : 1 <= w <= 10000 ->
  cpu_weight_read_u64 (mk_tg (written (scale_load (DIV_ROUND_CLOSEST_ULL (u64 (w * 1024)) CGROUP_WEIGHT_DFL))) false false) = w.
Proof.
  intros Hw. unfold DIV_ROUND_CLOSEST_ULL at 1. rewrite (u64_small (w * 1024)) by lia.
  change (CGROUP_WEIGHT_DFL / 2) with 50. change CGROUP_WEIGHT_DFL with 100. rewrite u64_small by lia.
  pose proof (Z.div_mod (w * 1024 + 50) 100 ltac:(lia)) as D. pose proof (Z.mod_pos_bound (w * 1024 + 50) 100 ltac:(lia)) as M.
  set (x := (w * 1024 + 50) / 100) in *. assert (Hx : 10 <= x <= 102400) by lia.
  unfold cpu_weight_read_u64, written, scale_load. simpl shares. change SCHED_FIXEDPOINT_SHIFT with 10.
  rewrite Z.shiftl_mul_pow2 by lia. change (2 ^ 10) with 1024. rewrite (u64_small (x * 1024)) by lia.
  change (u64 (Z.shiftl MIN_SHARES 10)) with 2048. change (u64 (Z.shiftl MAX_SHARES 10)) with 268435456.
  replace (Z.min (Z.max (x * 1024) 2048) 268435456) with (x * 1024) by lia.
  unfold scale_load_down. rewrite (proj2 (Z.eqb_neq (x * 1024) 0)) by lia. change SCHED_FIXEDPOINT_SHIFT with 10.
  rewrite Z.shiftr_div_pow2 by lia. change (2 ^ 10) with 1024. rewrite Z.div_mul by lia.
  replace (Z.max 2 x) with x by lia. unfold DIV_ROUND_CLOSEST_ULL. change CGROUP_WEIGHT_DFL with 100.
  change (1024 / 2) with 512. rewrite (u64_small (x * 100)), u64_small by lia.
  symmetry. apply Z.div_unique with (x * 100 + 512 - 1024 * w); lia.
Qed.

Definition nice_rt (n : Z) : bool :=
  match aref sched_prio_to_weight (NICE_TO_PRIO n - MAX_RT_PRIO) with
  | Some w => cpu_weight_nice_read_s64 (mk_tg (written (scale_load w)) false false) =? n
  | None => false
  end.

(** The cgroup knobs round-trip.  For a group that is neither the root nor idle,
    writing any weight from 1 to 10000 to [cpu.weight] succeeds and the same weight is
    read back, and writing any nice level to [cpu.weight.nice] succeeds and the same
    level is read back; the entities of the group are reweighted exactly when the shares
    changed.  Values out of range, the root and idle groups get an error and nothing
    changes. *)
Theorem group_weight_roundtrip tg w nice :
  (idle tg = false -> is_root tg = false ->
   (CGROUP_WEIGHT_MIN <= w <= CGROUP_WEIGHT_MAX -> exists tg' walk,
      cpu_weight_write_u64 tg w = (0, tg', walk) /\ cpu_weight_read_u64 tg' = w /\
      (walk = true <-> shares tg <> shares tg')) /\
   (MIN_NICE <= nice <= MAX_NICE -> exists tg' walk,
      cpu_weight_nice_write_s64 tg nice = Some (0, tg', walk) /\ cpu_weight_nice_read_s64 tg' = nice /\
      (walk = true <-> shares tg <> shares tg'))) /\
  (~ (CGROUP_WEIGHT_MIN <= w <= CGROUP_WEIGHT_MAX) -> cpu_weight_write_u64 tg w = (- ERANGE, tg, false)) /\
  (~ (MIN_NICE <= nice <= MAX_NICE) -> cpu_weight_nice_write_s64 tg nice = Some (- ERANGE, tg, false)) /\
  (idle tg || is_root tg = true -> forall s, sched_group_set_shares tg s = (- EINVAL, tg, false)).
Proof.
  unfold cpu_weight_write_u64, cpu_weight_nice_write_s64.
  split; [intros Hi Hr; split; intros H|split; [|split]].
  - rewrite (proj2 (Z.ltb_ge _ _)), (proj2 (Z.ltb_ge _ _)) by lia. simpl.
    destruct (set_shares_ok tg (scale_load (DIV_ROUND_CLOSEST_ULL (u64 (w * 1024)) CGROUP_WEIGHT_DFL)) Hi Hr)
      as (walk & -> & Hw).
    eexists _, walk. split; [done|]. split; [by apply weight_read_back|done].
  - rewrite (proj2 (Z.ltb_ge _ _)), (proj2 (Z.ltb_ge _ _)) by lia. simpl.
    assert (E : nice_rt nice = true).
    { apply (forallb_range nice_rt MIN_NICE 40); [by vm_compute|unfold MIN_NICE, MAX_NICE in *; lia]. }
    unfold nice_rt in E. destruct (aref sched_prio_to_weight _) as [x|]; [|done]. simpl.
    destruct (set_shares_ok tg (scale_load x) Hi Hr) as (walk & -> & Hw).
    eexists _, walk. split; [done|]. split; [by apply Z.eqb_eq|done].
  - intros H. destruct (Z.ltb_spec w CGROUP_WEIGHT_MIN); [done|]. simpl.
    destruct (Z.ltb_spec CGROUP_WEIGHT_MAX w); [done|lia].
  - intros H. destruct (Z.ltb_spec nice MIN_NICE); [done|]. simpl.
    destruct (Z.ltb_spec MAX_NICE nice); [done|lia].
  - intros H s. unfold sched_group_set_shares, __sched_group_set_shares. destruct (idle tg); [done|].
    simpl in H. by rewrite H.
Qed.

Lemma group_weight_roundtrip_witness : exists tg' walk,
  cpu_weight_write_u64 (mk_tg (scale_load 1024) false false) 250 = (0, tg', walk) /\ cpu_weight_read_u64 tg' = 250.
Proof.
  destruct (group_weight_roundtrip (mk_tg (scale_load 1024) false false) 250 0) as [H _].
  destruct (H eq_refl eq_refl) as [Hw _].
  destruct (Hw ltac:(unfold CGROUP_WEIGHT_MIN, CGROUP_WEIGHT_MAX; lia)) as (tg' & walk & H1 & H2 & _).
  exists tg', walk. split; [exact H1|exact H2].
Defined.

Lemma calc_delta_fair_accurate_witness :
  let '(d, lw1) := calc_delta_fair 3000000 (mk_load (scale_load 335) 12820798) in
  weight lw1 = scale_load 335 /\ 335 * two32 * d <= 1024 * 3000000 * (two32 + 335) /\
  1024 * 3000000 * (two32 - 335 - 2) < 335 * two32 * (d + 1).
Proof.
  assert (L : load_ok (mk_load (scale_load 335) 12820798)) by (apply load_okb_spec; reflexivity).
  pose proof (calc_delta_fair_accurate _ 3000000 3000000 L ltac:(lia) ltac:(lia)) as H.
  change (scale_load_down (weight (mk_load (scale_load 335) 12820798))) with 335 in H.
  destruct (calc_delta_fair 3000000 (mk_load (scale_load 335) 12820798)) as [d lw1].
  destruct H as (H1 & _ & _ & H2 & H3). split; [exact H1|]. split; [exact H2|exact H3].
Defined.

End LoadWeight.
