(* ===== verification/Eevdf.v ===== *)
(** The EEVDF run queue of the fair class ([kernel/sched/fair.c]): virtual time, lag,
    eligibility, the timeline tree and the choice of the next entity.

    A queue holds its entities in an augmented red-black tree ordered by virtual runtime
    whose subtrees carry the earliest deadline below them; the entity that runs is kept
    outside the tree in [curr].  All arithmetic is at machine width.  Load averages, run
    time statistics and bandwidth control are state the operations here neither read nor
    change, and are left out. *)

From Stdlib Require Import ZArith Lia List.
From stdpp Require Import base list numbers option.
From S2P Require Import Prelude RbTree LoadWeight.
Import RbTree LoadWeight.
Open Scope Z_scope.

Module Eevdf.

(** ** Data *)

Record sched_entity := mk_se {
  se_id : Z;
  se_load : load_weight;
  se_idle : bool;
  on_rq : bool;
  exec_start : Z;
  sum_exec_runtime : Z;
  prev_sum_exec_runtime : Z;
  deadline : Z;
  vruntime : Z;
  vlag : Z;
  slice : Z
}.

Record cfs_rq := mk_cfs {
  load : load_weight;
  nr_running : Z;
  idle_nr_running : Z;
  avg_vruntime_sum : Z;
  avg_load : Z;
  min_vruntime : Z;
  tasks_timeline : rb_root_cached sched_entity Z;
  curr : option sched_entity;
  next : option Z;
  resched : bool
}.

(** Tunables, and the features of [features.h]. *)
Record sched_cfg := mk_cfg {
  sysctl_sched_base_slice : Z;
  TICK_NSEC : Z;
  PLACE_LAG : bool;
  PLACE_DEADLINE_INITIAL : bool;
  RUN_TO_PARITY : bool;
  NEXT_BUDDY : bool
}.

Definition set_load (e : sched_entity) (x : load_weight) : sched_entity :=
  mk_se (se_id e) x (se_idle e) (on_rq e) (exec_start e) (sum_exec_runtime e)
    (prev_sum_exec_runtime e) (deadline e) (vruntime e) (vlag e) (slice e).
Definition set_on_rq (e : sched_entity) (x : bool) : sched_entity :=
  mk_se (se_id e) (se_load e) (se_idle e) x (exec_start e) (sum_exec_runtime e)
    (prev_sum_exec_runtime e) (deadline e) (vruntime e) (vlag e) (slice e).
Definition set_exec (e : sched_entity) (start sum prev : Z) : sched_entity :=
  mk_se (se_id e) (se_load e) (se_idle e) (on_rq e) start sum prev (deadline e) (vruntime e)
    (vlag e) (slice e).
Definition set_deadline (e : sched_entity) (x : Z) : sched_entity :=
  mk_se (se_id e) (se_load e) (se_idle e) (on_rq e) (exec_start e) (sum_exec_runtime e)
    (prev_sum_exec_runtime e) x (vruntime e) (vlag e) (slice e).
Definition set_vruntime (e : sched_entity) (x : Z) : sched_entity :=
  mk_se (se_id e) (se_load e) (se_idle e) (on_rq e) (exec_start e) (sum_exec_runtime e)
    (prev_sum_exec_runtime e) (deadline e) x (vlag e) (slice e).
Definition set_vlag (e : sched_entity) (x : Z) : sched_entity :=
  mk_se (se_id e) (se_load e) (se_idle e) (on_rq e) (exec_start e) (sum_exec_runtime e)
    (prev_sum_exec_runtime e) (deadline e) (vruntime e) x (slice e).
Definition set_slice (e : sched_entity) (x : Z) : sched_entity :=
  mk_se (se_id e) (se_load e) (se_idle e) (on_rq e) (exec_start e) (sum_exec_runtime e)
    (prev_sum_exec_runtime e) (deadline e) (vruntime e) (vlag e) x.

Definition set_sums (q : cfs_rq) (v l : Z) : cfs_rq :=
  mk_cfs (load q) (nr_running q) (idle_nr_running q) v l (min_vruntime q) (tasks_timeline q)
    (curr q) (next q) (resched q).
Definition set_min_vruntime (q : cfs_rq) (x : Z) : cfs_rq :=
  mk_cfs (load q) (nr_running q) (idle_nr_running q) (avg_vruntime_sum q) (avg_load q) x
    (tasks_timeline q) (curr q) (next q) (resched q).
Definition set_timeline (q : cfs_rq) (x : rb_root_cached sched_entity Z) : cfs_rq :=
  mk_cfs (load q) (nr_running q) (idle_nr_running q) (avg_vruntime_sum q) (avg_load q)
    (min_vruntime q) x (curr q) (next q) (resched q).
Definition set_curr (q : cfs_rq) (x : option sched_entity) : cfs_rq :=
  mk_cfs (load q) (nr_running q) (idle_nr_running q) (avg_vruntime_sum q) (avg_load q)
    (min_vruntime q) (tasks_timeline q) x (next q) (resched q).
Definition set_next (q : cfs_rq) (x : option Z) : cfs_rq :=
  mk_cfs (load q) (nr_running q) (idle_nr_running q) (avg_vruntime_sum q) (avg_load q)
    (min_vruntime q) (tasks_timeline q) (curr q) x (resched q).
Definition set_counts (q : cfs_rq) (l : load_weight) (n i : Z) : cfs_rq :=
  mk_cfs l n i (avg_vruntime_sum q) (avg_load q) (min_vruntime q) (tasks_timeline q)
    (curr q) (next q) (resched q).
Definition resched_curr (q : cfs_rq) : cfs_rq :=
  mk_cfs (load q) (nr_running q) (idle_nr_running q) (avg_vruntime_sum q) (avg_load q)
    (min_vruntime q) (tasks_timeline q) (curr q) (next q) true.

(** ** Virtual time *)

Definition max_vruntime (m v : Z) : Z := if 0 <? s64 (v - m) then v else m.
Definition min_vruntime_of (m v : Z) : Z := if s64 (v - m) <? 0 then v else m.

Definition entity_before (a b : sched_entity) : bool := s64 (vruntime a - vruntime b) <? 0.

Definition entity_key (q : cfs_rq) (se : sched_entity) : Z := s64 (vruntime se - min_vruntime q).

Definition se_weight (se : sched_entity) : Z := scale_load_down (weight (se_load se)).

Definition avg_vruntime_add (q : cfs_rq) (se : sched_entity) : cfs_rq :=
  set_sums q (s64 (avg_vruntime_sum q + entity_key q se * se_weight se)) (u64 (avg_load q + se_weight se)).

Definition avg_vruntime_sub (q : cfs_rq) (se : sched_entity) : cfs_rq :=
  set_sums q (s64 (avg_vruntime_sum q - entity_key q se * se_weight se)) (u64 (avg_load q - se_weight se)).

Definition avg_vruntime_update (q : cfs_rq) (delta : Z) : cfs_rq :=
  set_sums q (s64 (avg_vruntime_sum q - avg_load q * delta)) (avg_load q).

(** The divisor is a 32-bit signed integer; division by zero has no value. *)
Definition div_s64 (dividend divisor : Z) : option Z :=
  let d := s32 divisor in if d =? 0 then None else Some (s64 (cdiv (s64 dividend) d)).

(** The sums with the contribution of [curr]. *)
Definition total (q : cfs_rq) : Z * Z :=
  match curr q with
  | Some c =>
    if on_rq c
    then (s64 (avg_vruntime_sum q + entity_key q c * se_weight c), s64 (avg_load q + se_weight c))
    else (avg_vruntime_sum q, s64 (avg_load q))
  | None => (avg_vruntime_sum q, s64 (avg_load q))
  end.

Definition avg_vruntime (q : cfs_rq) : option Z :=
  let '(avg, l) := total q in
  if l =? 0 then Some (u64 (min_vruntime q + avg))
  else
    let avg := if avg <? 0 then s64 (avg - (l - 1)) else avg in
    a ← div_s64 avg l;
    Some (u64 (min_vruntime q + a)).

Definition clamp (x lo hi : Z) : Z := Z.min (Z.max x lo) hi.

Definition update_entity_lag (cfg : sched_cfg) (q : cfs_rq) (se : sched_entity) : option sched_entity :=
  v ← avg_vruntime q;
  let lag := s64 (v - vruntime se) in
  let '(d, lw) := calc_delta_fair (Z.max (u64 (2 * slice se)) (TICK_NSEC cfg)) (se_load se) in
  let limit := s64 d in
  Some (set_vlag (set_load se lw) (clamp lag (s64 (- limit)) limit)).

Definition entity_eligible (q : cfs_rq) (se : sched_entity) : bool :=
  let '(avg, l) := total q in s64 (entity_key q se * l) <=? avg.

Definition __update_min_vruntime (q : cfs_rq) (v : Z) : cfs_rq * Z :=
  let delta := s64 (v - min_vruntime q) in
  if 0 <? delta then (avg_vruntime_update q delta, v) else (q, min_vruntime q).

Definition __pick_first_entity (q : cfs_rq) : option sched_entity := rb_leftmost (tasks_timeline q).

Definition update_min_vruntime (q : cfs_rq) : cfs_rq :=
  let c := match curr q with Some c => if on_rq c then Some c else None | None => None end in
  let v := match c with Some c => vruntime c | None => min_vruntime q end in
  let v := match __pick_first_entity q with
           | Some se => match c with None => vruntime se | Some _ => min_vruntime_of v (vruntime se) end
           | None => v
           end in
  let '(q, m) := __update_min_vruntime q v in
  set_min_vruntime q m.

(** ** The timeline *)

Definition __entity_less : sched_entity -> sched_entity -> bool := entity_before.

Definition dl_gt (a b : Z) : bool := 0 <? s64 (a - b).

Definition __update_min_deadline (m : Z) (node : option Z) : Z :=
  match node with Some r => if dl_gt m r then r else m | None => m end.

(** [min_deadline_update]: the data of a node from its children's. *)
Definition min_deadline_update (se : sched_entity) (left right : option Z) : Z :=
  __update_min_deadline (__update_min_deadline (deadline se) right) left.

#[export] Instance min_deadline_cb : Augment sched_entity Z :=
  mk_augment sched_entity Z min_deadline_update Z.eqb.

Definition is_se (i : Z) (se : sched_entity) : bool := is_node se_id i se.

Definition __enqueue_entity (q : cfs_rq) (se : sched_entity) : option cfs_rq :=
  let q := avg_vruntime_add q se in
  t ← rb_add_augmented_cached __entity_less se (deadline se) (tasks_timeline q);
  Some (set_timeline q t).

Definition __dequeue_entity (q : cfs_rq) (se : sched_entity) : option cfs_rq :=
  t ← rb_erase_augmented_cached (is_se (se_id se)) (tasks_timeline q);
  Some (avg_vruntime_sub (set_timeline q t) se).

(** ** The choice *)

(** The first loop of [__pick_eevdf]: the best entity seen and the left branch with the
    best deadline. *)
Fixpoint search_eligible (q : cfs_rq) (node : tree sched_entity Z) (best : option sched_entity)
    (best_left : option (tree sched_entity Z)) : option sched_entity * option (tree sched_entity Z) :=
  match node with
  | Leaf => (best, best_left)
  | Node _ l se m r =>
    if negb (entity_eligible q se) then search_eligible q l best best_left
    else
      let best := match best with
                  | None => Some se
                  | Some b => if dl_gt (deadline b) (deadline se) then Some se else Some b
                  end in
      match aug l with
      | Some lm =>
        let best_left := match best_left with
                         | None => Some l
                         | Some b => match aug b with
                                     | Some bm => if dl_gt bm lm then Some l else Some b
                                     | None => Some b
                                     end
                         end in
        if lm =? m then (best, best_left)
        else if deadline se =? m then (best, best_left)
        else search_eligible q r best best_left
      | None =>
        if deadline se =? m then (best, best_left)
        else search_eligible q r best best_left
      end
  end.

(** The second loop: the entity whose deadline is that of the branch. *)
Fixpoint search_deadline (node : tree sched_entity Z) : option sched_entity :=
  match node with
  | Leaf => None
  | Node _ l se m r =>
    if deadline se =? m then Some se
    else
      match aug l with
      | Some lm => if lm =? m then search_deadline l else search_deadline r
      | None => search_deadline r
      end
  end.

(** [None] is a null pointer dereference; [Some None] the null pointer. *)
Definition __pick_eevdf (cfg : sched_cfg) (q : cfs_rq) : option (option sched_entity) :=
  let c := match curr q with
           | Some c => if negb (on_rq c) || negb (entity_eligible q c) then None else Some c
           | None => None
           end in
  let parity := match c with
                | Some c => RUN_TO_PARITY cfg && (u64 (vlag c) =? deadline c)
                | None => false
                end in
  if parity then Some c
  else
    let '(best, best_left) := search_eligible q (rb_root (tasks_timeline q)) c None in
    match best_left with
    | None => Some best
    | Some b =>
      m ← aug b;
      bs ← best;
      if dl_gt m (deadline bs) then Some (Some bs) else Some (search_deadline b)
    end.

(** The flag says that the search failed and the leftmost entity is taken. *)
Definition pick_eevdf (cfg : sched_cfg) (q : cfs_rq) : option (option sched_entity * bool) :=
  se ← __pick_eevdf cfg q;
  match se with
  | Some se => Some (Some se, false)
  | None =>
    match __pick_first_entity q with
    | Some first => Some (Some first, true)
    | None => Some (None, false)
    end
  end.

Definition __pick_last_entity (q : cfs_rq) : option sched_entity := rb_last (rb_root (tasks_timeline q)).

(** ** Slices *)

Definition clear_buddies (q : cfs_rq) (se : sched_entity) : cfs_rq :=
  match next q with
  | Some i => if i =? se_id se then set_next q None else q
  | None => q
  end.

Definition update_deadline (cfg : sched_cfg) (q : cfs_rq) (se : sched_entity) : cfs_rq * sched_entity :=
  if s64 (vruntime se - deadline se) <? 0 then (q, se)
  else
    let se := set_slice se (sysctl_sched_base_slice cfg) in
    let '(d, lw) := calc_delta_fair (slice se) (se_load se) in
    let se := set_deadline (set_load se lw) (u64 (vruntime se + d)) in
    if 1 <? nr_running q then (clear_buddies (resched_curr q) se, se) else (q, se).

(** [now] is the task clock of the run queue. *)
Definition update_curr (cfg : sched_cfg) (now : Z) (q : cfs_rq) : cfs_rq :=
  match curr q with
  | None => q
  | Some c =>
    let delta_exec := u64 (now - exec_start c) in
    if s64 delta_exec <=? 0 then q
    else
      let c := set_exec c now (u64 (sum_exec_runtime c + delta_exec)) (prev_sum_exec_runtime c) in
      let '(d, lw) := calc_delta_fair delta_exec (se_load c) in
      let c := set_vruntime (set_load c lw) (u64 (vruntime c + d)) in
      let '(q, c) := update_deadline cfg q c in
      update_min_vruntime (set_curr q (Some c))
  end.

(** ** Windows *)

(** The virtual times and deadlines of queued entities lie within [2^62] of a base: the
    wrap-around comparisons are then comparisons of offsets. *)
Definition HALF : Z := 4611686018427387904.

Definition in_window (b x : Z) : Prop := is_u64 x /\ - HALF <= s64 (x - b) < HALF.

Definition ok (b : Z) (e : sched_entity) : Prop := in_window b (vruntime e) /\ in_window b (deadline e).

Definition off (b x : Z) : Z := s64 (x - b).

Lemma window_diff b x y : in_window b x -> in_window b y -> s64 (x - y) = off b x - off b y.
Proof.
  unfold in_window, off, HALF. intros [_ Hx] [_ Hy]. destruct (s64_cong (x - b)) as [j Ej].
  destruct (s64_cong (y - b)) as [k Ek]. apply (s64_unique _ _ (k - j)); lia.
Qed.

Lemma off_inj b x y : is_u64 x -> is_u64 y -> off b x = off b y -> x = y.
Proof.
  unfold is_u64, off. intros Hx Hy E. destruct (s64_cong (x - b)) as [j Ej]. destruct (s64_cong (y - b)) as [k Ek].
  assert (x - y = (k - j) * two64) by lia. assert (k = j) by nia. subst. lia.
Qed.

Lemma dl_gt_spec b x y : in_window b x -> in_window b y -> dl_gt x y = (off b y <? off b x).
Proof.
  intros Hx Hy. unfold dl_gt. rewrite (window_diff b) by done.
  destruct (Z.ltb_spec 0 (off b x - off b y)), (Z.ltb_spec (off b y) (off b x)); try done; lia.
Qed.

Lemma entity_before_spec b x y : ok b x -> ok b y ->
  entity_before x y = (off b (vruntime x) <? off b (vruntime y)).
Proof.
  intros [Hx _] [Hy _]. unfold entity_before. rewrite (window_diff b) by done.
  destruct (Z.ltb_spec (off b (vruntime x) - off b (vruntime y)) 0),
    (Z.ltb_spec (off b (vruntime x)) (off b (vruntime y))); try done; lia.
Qed.

Lemma less_asym b x y : ok b x -> ok b y -> __entity_less x y = true -> __entity_less y x = false.
Proof. intros Hx Hy. unfold __entity_less. rewrite !(entity_before_spec b), Z.ltb_lt, Z.ltb_ge by done. lia. Qed.

Lemma less_trans b x y z : ok b x -> ok b y -> ok b z ->
  __entity_less x y = true -> __entity_less z y = false -> __entity_less x z = true.
Proof.
  intros Hx Hy Hz. unfold __entity_less. rewrite !(entity_before_spec b), !Z.ltb_lt, Z.ltb_ge by done. lia.
Qed.

(** ** The earliest deadline of a list *)

Fixpoint agg (l : list sched_entity) : option Z :=
  match l with [] => None | e :: l => Some (__update_min_deadline (deadline e) (agg l)) end.

Definition is_min (b : Z) (l : list sched_entity) (m : Z) : Prop :=
  m ∈ map deadline l /\ Forall (fun e => off b m <= off b (deadline e)) l.

Lemma is_min_window b l m : Forall (ok b) l -> is_min b l m -> in_window b m.
Proof.
  intros O [(e & -> & He)%list_elem_of_fmap _]. rewrite Forall_elem in O. by apply O.
Qed.

Lemma is_min_unique b l m m' : Forall (ok b) l -> is_min b l m -> is_min b l m' -> m = m'.
Proof.
  intros O H H'. pose proof (is_min_window _ _ _ O H) as [U _]. pose proof (is_min_window _ _ _ O H') as [U' _].
  destruct H as [(e & -> & He)%list_elem_of_fmap F], H' as [(e' & -> & He')%list_elem_of_fmap F'].
  rewrite Forall_elem in F, F'. specialize (F _ He'). specialize (F' _ He). apply (off_inj b); [done|done|lia].
Qed.

Lemma is_min_perm b l l' m : l ≡ₚ l' -> is_min b l m -> is_min b l' m.
Proof. intros P [H F]. split; [by rewrite <- P|by rewrite <- P]. Qed.

Lemma is_min_app b l r m m' : Forall (ok b) l -> Forall (ok b) r ->
  is_min b l m -> is_min b r m' -> is_min b (l ++ r) (__update_min_deadline m (Some m')).
Proof.
  intros Ol Or H H'. simpl. rewrite (dl_gt_spec b) by eauto using is_min_window.
  destruct H as [H F], H' as [H' F']. rewrite Forall_elem in F, F'.
  destruct (Z.ltb_spec (off b m') (off b m)) as [L|L].
  - split; [rewrite map_app; apply elem_of_app; by right|]. apply Forall_elem.
    intros e [He|He]%elem_of_app; [specialize (F e He); lia|by apply F'].
  - split; [rewrite map_app; apply elem_of_app; by left|]. apply Forall_elem.
    intros e [He|He]%elem_of_app; [by apply F|specialize (F' e He); lia].
Qed.

Lemma is_min_one b e : is_min b [e] (deadline e).
Proof. split; [by left|]. constructor; [lia|constructor]. Qed.

Lemma agg_is_min b l : Forall (ok b) l -> l <> [] -> exists m, agg l = Some m /\ is_min b l m.
Proof.
  induction l as [|e l IH]; intros O Hl; [done|]. apply Forall_cons_iff in O as [Oe O]. simpl.
  eexists. split; [done|]. destruct l as [|e' l]; [apply is_min_one|].
  destruct IH as (m & -> & Hm); [done|done|].
  apply (is_min_app b [e] (e' :: l)); [by constructor|done|apply is_min_one|done].
Qed.

Lemma is_min_upd b l r m : Forall (ok b) l -> Forall (ok b) r -> is_min b l m ->
  is_min b (l ++ r) (__update_min_deadline m (agg r)).
Proof.
  intros Ol Or H. destruct r as [|e r]; [by rewrite app_nil_r|].
  destruct (agg_is_min b (e :: r) Or) as (m' & -> & Hm'); [done|]. by apply is_min_app.
Qed.

#[export] Instance eevdf_laws b : AugmentLaws (ok b) agg.
Proof.
  split; [done| |apply Z.eqb_eq]. intros l x r O.
  destruct (agg_is_min b (l ++ x :: r) O) as (m & -> & Hm); [by destruct l|]. f_equal.
  pose proof O as O'. apply Forall_app in O' as [Ol Or]. apply Forall_cons_iff in Or as [Ox Or].
  apply (is_min_unique b (l ++ x :: r)); [done|done|].
  apply (is_min_perm b (([x] ++ r) ++ l)); [simpl; by rewrite <- Permutation_middle, Permutation_app_comm|].
  unfold compute, min_deadline_cb, min_deadline_update.
  apply (is_min_upd b ([x] ++ r) l); [by constructor|done|]. apply (is_min_upd b [x] r); [by constructor|done|apply is_min_one].
Qed.

(** ** The search *)

Section Search.
Context (q : cfs_rq) (b : Z) (T : list sched_entity).
Context (T_ok : Forall (ok b) T).
Context (T_mono : forall x y, x ∈ T -> y ∈ T -> __entity_less y x = false ->
  entity_eligible q y = true -> entity_eligible q x = true).

Definition opt_list (o : option sched_entity) : list sched_entity :=
  match o with Some x => [x] | None => [] end.

(** The entities the loop still considers. *)
Definition cands (best : option sched_entity) (bl : option (tree sched_entity Z)) : list sched_entity :=
  opt_list best ++ match bl with Some t => inorder t | None => [] end.

(** An entity with a deadline no later than that of [e] is among [l]. *)
Definition covers (l : list sched_entity) (e : sched_entity) : Prop :=
  exists e', e' ∈ l /\ off b (deadline e') <= off b (deadline e).

Definition branch_ok (best : option sched_entity) (bl : option (tree sched_entity Z)) : Prop :=
  Forall (ok b) (opt_list best) /\
  match bl with
  | Some t => t <> Leaf /\ wa (agg := agg) t /\ Forall (ok b) (inorder t) /\ best <> None
  | None => True
  end.

Lemma tree_min t : wa (agg := agg) t -> t <> Leaf -> Forall (ok b) (inorder t) ->
  exists m, aug t = Some m /\ is_min b (inorder t) m.
Proof.
  intros W Ht O. destruct (agg_is_min b (inorder t) O) as (m & E & Hm).
  { destruct t as [|c l x m r]; [done|]. simpl. by destruct (inorder l). }
  exists m. split; [|done]. by rewrite (wa_aug (ok := ok b) _ W).
Qed.

Lemma covers_trans l l' e : (forall x, x ∈ l -> covers l' x) -> covers l e -> covers l' e.
Proof. intros H (x & Hx & Lx). destruct (H x Hx) as (y & Hy & Ly). exists y. split; [done|lia]. Qed.

Lemma covers_self l e : e ∈ l -> covers l e.
Proof. intros H. exists e. split; [done|lia]. Qed.

(** The better of the best entity and a new one. *)
Definition better (best : option sched_entity) (se : sched_entity) : sched_entity :=
  match best with
  | None => se
  | Some x => if dl_gt (deadline x) (deadline se) then se else x
  end.

Lemma better_spec best se : Forall (ok b) (opt_list best) -> ok b se ->
  ok b (better best se) /\ (better best se = se \/ best = Some (better best se)) /\
  forall e, e ∈ se :: opt_list best -> off b (deadline (better best se)) <= off b (deadline e).
Proof.
  intros O Ose. unfold better. destruct best as [x|]; simpl in *.
  - apply Forall_cons_iff in O as [Ox _]. rewrite (dl_gt_spec b) by (by destruct Ox, Ose).
    destruct (Z.ltb_spec (off b (deadline se)) (off b (deadline x))) as [L|L]; (split; [done|]); (split; [tauto|]);
      intros e He; rewrite !elem_of_cons in He; destruct He as [->|[->|He%not_elem_of_nil]]; try done; lia.
  - split; [done|]. split; [tauto|]. intros e He. apply list_elem_of_singleton in He as ->. lia.
Qed.

(** The branch with the earlier deadline. *)
Definition better_left (bl : option (tree sched_entity Z)) (l : tree sched_entity Z) (lm : Z)
  : tree sched_entity Z :=
  match bl with
  | None => l
  | Some t => match aug t with Some bm => if dl_gt bm lm then l else t | None => t end
  end.

Lemma better_left_spec best bl l lm :
  branch_ok best bl -> l <> Leaf -> wa (agg := agg) l -> Forall (ok b) (inorder l) -> aug l = Some lm ->
  let t := better_left bl l lm in
  t <> Leaf /\ wa (agg := agg) t /\ Forall (ok b) (inorder t) /\ (t = l \/ bl = Some t) /\
  forall e, e ∈ inorder l ++ match bl with Some t => inorder t | None => [] end -> covers (inorder t) e.
Proof.
  intros [_ B] Hl Wl Ol El. simpl. unfold better_left.
  destruct (tree_min l Wl Hl Ol) as (m & E & Hm). rewrite El in E. injection E as <-.
  destruct bl as [t|].
  2:{ split_and!; try done; [by left|]. intros e He. rewrite app_nil_r in He. by apply covers_self. }
  destruct B as (Ht & Wt & Ot & _). destruct (tree_min t Wt Ht Ot) as (bm & E & Hb). rewrite E.
  rewrite (dl_gt_spec b) by eauto using is_min_window.
  assert (Cov : forall l1 l2 m1 m2, is_min b l1 m1 -> is_min b l2 m2 -> off b m1 <= off b m2 ->
    forall e, e ∈ l1 ++ l2 -> covers l1 e).
  { intros l1 l2 m1 m2 [(x & -> & Hx)%list_elem_of_fmap F1] [_ F2] Hle e He. rewrite Forall_elem in F1, F2.
    exists x. split; [done|]. apply elem_of_app in He as [He|He]; [by apply F1|specialize (F2 e He); lia]. }
  destruct (Z.ltb_spec (off b lm) (off b bm)) as [L|L]; split_and!; try done; try tauto.
  - apply (Cov _ _ lm bm); [done|done|lia].
  - intros e He. apply (Cov (inorder t) (inorder l) bm lm); [done|done|lia|].
    apply elem_of_app. apply elem_of_app in He. tauto.
Qed.

(** What a call of the first loop establishes. *)
Definition searched (t : tree sched_entity Z) best bl best' bl' : Prop :=
  branch_ok best' bl' /\
  (forall e, e ∈ cands best' bl' -> e ∈ cands best bl \/ e ∈ inorder t /\ entity_eligible q e = true) /\
  (forall e, e ∈ cands best bl \/ e ∈ inorder t /\ entity_eligible q e = true -> covers (cands best' bl') e).

(** A node that is eligible: the new best entity and branch account for it, its left
    subtree and all candidates so far. *)
Lemma visit_eligible c l se m r best bl :
  let best' := Some (better best se) in
  let bl' := match aug l with Some lm => Some (better_left bl l lm) | None => bl end in
  wa (agg := agg) (Node c l se m r) -> Forall (ok b) (inorder (Node c l se m r)) ->
  inorder (Node c l se m r) ⊆ T -> sorted __entity_less (inorder (Node c l se m r)) ->
  entity_eligible q se = true -> branch_ok best bl ->
  branch_ok best' bl' /\
  (forall e, e ∈ cands best' bl' -> e ∈ cands best bl \/ e ∈ se :: inorder l /\ entity_eligible q e = true) /\
  (forall e, e ∈ cands best bl \/ e ∈ se :: inorder l -> covers (cands best' bl') e).
Proof.
  intros best' bl' (W1 & W2 & W3) O Hsub S El B. pose proof B as [Ob Bl]. simpl in O, S, Hsub.
  apply Forall_app in O as [Ol Or]. apply Forall_cons_iff in Or as [Ose Or].
  apply sorted_app in S as (_ & _ & S). rewrite Forall_elem in S.
  assert (Ell : forall e, e ∈ inorder l -> entity_eligible q e = true).
  { intros e He. apply (T_mono e se); try done; [apply Hsub, elem_of_app; by left|apply Hsub, elem_of_app; right; by left|].
    specialize (S e He). by apply Forall_cons_iff in S as [S _]. }
  destruct (better_spec best se Ob Ose) as (Ok' & Hb & Cb).
  unfold best'. clear best'. set (x := better best se) in *. clearbody x.
  assert (Cbest : forall e l', e ∈ se :: opt_list best -> covers (x :: l') e).
  { intros e l' He. exists x. split; [by left|by apply Cb]. }
  destruct l as [|lc ll lx lm lr].
  - unfold bl'. simpl. split; [split; [by constructor|]|split].
    + destruct bl as [t|]; [|done]. destruct Bl as (B1 & B2 & B3 & _). by split_and!.
    + intros e He. unfold cands in He. simpl in He. apply elem_of_cons in He as [->|He].
      * destruct Hb as [->|Hb]; [right; split; [by left|done]|left; unfold cands; rewrite Hb; by left].
      * left. unfold cands. apply elem_of_app. by right.
    + intros e [He|He]; [|apply list_elem_of_singleton in He as ->; apply Cbest; by left].
      unfold cands in He. apply elem_of_app in He as [He|He]; [apply Cbest; by right|].
      apply covers_self. unfold cands. apply elem_of_app. by right.
  - unfold bl'. clear bl'. cbn [aug]. set (l := Node lc ll lx lm lr) in *.
    destruct (better_left_spec best bl l lm B) as (L1 & L2 & L3 & L4 & L5); [done|done|done|done|].
    set (t := better_left bl l lm) in *. clearbody t. split; [split; [by constructor|]|split].
    + by split_and!.
    + intros e He. unfold cands in He. simpl in He. apply elem_of_cons in He as [->|He].
      * destruct Hb as [->|Hb]; [right; split; [by left|done]|left; unfold cands; rewrite Hb; by left].
      * destruct L4 as [->| ->]; [right; split; [by right|by apply Ell]|left; unfold cands; apply elem_of_app; by right].
    + intros e He. assert (P : e ∈ se :: opt_list best \/ e ∈ inorder l ++ match bl with Some t => inorder t | None => [] end).
      { unfold cands in He. rewrite elem_of_cons in *. rewrite !elem_of_app in *. tauto. }
      destruct P as [P|P]; [by apply Cbest|]. destruct (L5 e P) as (y & Hy & Ly).
      exists y. split; [|done]. unfold cands. apply elem_of_app. by right.
Qed.

Lemma search_eligible_node c l se m r best bl :
  search_eligible q (Node c l se m r) best bl =
  if negb (entity_eligible q se) then search_eligible q l best bl
  else
    let best' := Some (better best se) in
    let bl' := match aug l with Some lm => Some (better_left bl l lm) | None => bl end in
    if match aug l with Some lm => lm =? m | None => false end || (deadline se =? m) then (best', bl')
    else search_eligible q r best' bl'.
Proof.
  simpl. destruct (negb (entity_eligible q se)); [done|].
  replace (match best with None => Some se | Some x => _ end) with (Some (better best se))
    by (destruct best as [x|]; simpl; [by destruct (dl_gt _ _)|done]).
  destruct (aug l) as [lm|]; simpl; [|done].
  replace (match bl with None => Some l | Some x => _ end) with (Some (better_left bl l lm))
    by (destruct bl as [x|]; simpl; [destruct (aug x) as [bm|]; [by destruct (dl_gt _ _)|done]|done]).
  by destruct (lm =? m).
Qed.

(** Where the data of a node comes from. *)
Lemma node_min c l se m r : wa (agg := agg) (Node c l se m r) -> Forall (ok b) (inorder (Node c l se m r)) ->
  Forall (fun e => off b m <= off b (deadline e)) (inorder (Node c l se m r)) /\
  (deadline se = m \/ aug l = Some m /\ l <> Leaf \/ aug r = Some m /\ r <> Leaf).
Proof.
  intros W O. destruct (tree_min _ W) as (m' & E & Hm); [done|done|]. simpl in E. injection E as <-.
  split; [by destruct Hm|]. destruct W as (A & Wl & Wr). simpl in O.
  rewrite (agg_node (ok := ok b)) in A by done.
  rewrite <- (wa_aug (ok := ok b) l Wl), <- (wa_aug (ok := ok b) r Wr) in A. injection A as A.
  unfold compute, min_deadline_cb, min_deadline_update, __update_min_deadline in A.
  assert (forall (t : tree sched_entity Z) x, aug t = Some x -> t <> Leaf) as NL by by intros [].
  destruct (aug r) as [mr|] eqn:Er, (aug l) as [ml|] eqn:El; repeat case_match; subst; eauto 6.
Qed.

Lemma search_eligible_spec t : forall best bl best' bl',
  wa (agg := agg) t -> Forall (ok b) (inorder t) -> inorder t ⊆ T -> sorted __entity_less (inorder t) ->
  branch_ok best bl -> search_eligible q t best bl = (best', bl') -> searched t best bl best' bl'.
Proof.
  induction t as [|c l IHl se m r IHr]; intros best bl best' bl' W O Hsub S B H.
  { injection H as <- <-. split; [done|]. split; [tauto|]. intros e [He|[He%not_elem_of_nil _]]; [by apply covers_self|done]. }
  rewrite search_eligible_node in H. pose proof (node_min _ _ _ _ _ W O) as [Fm _].
  pose proof W as (_ & Wl & Wr). pose proof O as O0. pose proof S as S0. simpl in O, S.
  apply Forall_app in O as [Ol Or]. apply Forall_cons_iff in Or as [Ose Or].
  apply sorted_app in S as (Sl & [Ss Sr] & _).
  assert (Hse : se ∈ T) by (apply Hsub; simpl; apply elem_of_app; right; by left).
  assert (HrT : inorder r ⊆ T) by (intros e He; apply Hsub; simpl; apply elem_of_app; right; by right).
  assert (HlT : inorder l ⊆ T) by (intros e He; apply Hsub; simpl; apply elem_of_app; by left).
  destruct (entity_eligible q se) eqn:El; simpl negb in H; cbv iota in H.
  2:{ destruct (IHl _ _ _ _ Wl Ol HlT Sl B H) as (I1 & I2 & I3). split; [done|]. split.
      - intros e He. destruct (I2 e He) as [|[? ?]]; [tauto|]. right. split; [|done]. simpl. apply elem_of_app. tauto.
      - intros e [He|[He Ee]]; apply I3; [tauto|]. right. split; [|done]. simpl in He.
        apply elem_of_app in He as [He|He]; [done|]. exfalso. rewrite elem_of_cons in He.
        destruct He as [->|He]; [congruence|]. rewrite Forall_elem in Ss.
        rewrite (T_mono se e) in El; try done; [by apply HrT|by apply Ss]. }
  destruct (visit_eligible c l se m r best bl W O0 Hsub S0 El B) as (V1 & V2 & V3).
  set (b1 := Some (better best se)) in *. set (l1 := match aug l with Some lm => _ | None => bl end) in *.
  clearbody b1 l1. destruct (_ || _) eqn:Stop.
  - injection H as <- <-. split; [done|]. split.
    + intros e He. destruct (V2 e He) as [?|[He' Ee]]; [tauto|]. right. split; [|done]. simpl.
      rewrite elem_of_app, !elem_of_cons in *. tauto.
    + assert (P : exists e0, e0 ∈ se :: inorder l /\ deadline e0 = m).
      { apply orb_true_iff in Stop as [Stop|Stop]; [|exists se; split; [by left|by apply Z.eqb_eq]].
        destruct (aug l) as [lm|] eqn:Ea; [|done]. apply Z.eqb_eq in Stop as ->.
        destruct (tree_min l Wl) as (m' & E & [(x & -> & Hx)%list_elem_of_fmap _]); [by destruct l|done|].
        rewrite Ea in E. injection E as ->. exists x. split; [by right|done]. }
      destruct P as (e0 & He0 & Em). intros e [He|[He Ee]]; [apply V3; tauto|].
      destruct (V3 e0) as (x & Hx & Lx); [tauto|]. exists x. split; [done|]. rewrite Forall_elem in Fm.
      specialize (Fm e He). rewrite <- Em in Fm. lia.
  - destruct (IHr _ _ _ _ Wr Or HrT Sr V1 H) as (I1 & I2 & I3). split; [done|]. split.
    + intros e He. destruct (I2 e He) as [He'|[He' Ee]].
      * destruct (V2 e He') as [?|[He1 Ee]]; [tauto|]. right. split; [|done]. simpl.
        rewrite elem_of_app, !elem_of_cons in *. tauto.
      * right. split; [|done]. simpl. rewrite elem_of_app, elem_of_cons. tauto.
    + intros e He. assert (Q : (e ∈ cands best bl \/ e ∈ se :: inorder l) \/ e ∈ inorder r /\ entity_eligible q e = true).
      { simpl in He. rewrite elem_of_app, !elem_of_cons in *. tauto. }
      destruct Q as [Q|Q]; [|apply I3; by right]. apply (covers_trans (cands b1 l1)); [|by apply V3].
      intros x Hx. apply I3. by left.
Qed.

Lemma search_deadline_spec t : wa (agg := agg) t -> t <> Leaf -> Forall (ok b) (inorder t) ->
  exists e, search_deadline t = Some e /\ e ∈ inorder t /\ aug t = Some (deadline e).
Proof.
  induction t as [|c l IHl se m r IHr]; intros W Ht O; [done|].
  pose proof (node_min _ _ _ _ _ W O) as [_ Src]. destruct W as (_ & Wl & Wr).
  simpl in O. apply Forall_app in O as [Ol Or]. apply Forall_cons_iff in Or as [Ose Or]. simpl.
  destruct (Z.eqb_spec (deadline se) m) as [E|E].
  { exists se. split; [done|]. split; [apply elem_of_app; right; by left|by rewrite E]. }
  assert (L : aug l = Some m -> l <> Leaf -> exists e, search_deadline l = Some e /\
    e ∈ inorder l ++ se :: inorder r /\ Some m = Some (deadline e)).
  { intros El Hl. destruct (IHl Wl Hl Ol) as (e & H1 & H2 & H3). exists e. split; [done|].
    split; [apply elem_of_app; by left|congruence]. }
  assert (R : aug r = Some m -> r <> Leaf -> exists e, search_deadline r = Some e /\
    e ∈ inorder l ++ se :: inorder r /\ Some m = Some (deadline e)).
  { intros Er Hr. destruct (IHr Wr Hr Or) as (e & H1 & H2 & H3). exists e. split; [done|].
    split; [apply elem_of_app; right; by right|congruence]. }
  destruct (aug l) as [lm|] eqn:El.
  - destruct (Z.eqb_spec lm m) as [->|Em]; [apply L; [done|by destruct l]|].
    destruct Src as [|[[[= ->] _]|[Er Hr]]]; [done|done|by apply R].
  - destruct Src as [|[[? _]|[Er Hr]]]; [done|done|by apply R].
Qed.

End Search.

(** ** The loops, turn by turn *)

(** One turn of the first loop: the next state, or the result. *)
Definition eligible_turn (q : cfs_rq)
    (s : tree sched_entity Z * option sched_entity * option (tree sched_entity Z))
  : (tree sched_entity Z * option sched_entity * option (tree sched_entity Z)) +
    (option sched_entity * option (tree sched_entity Z)) :=
  let '(node, best, bl) := s in
  match node with
  | Leaf => inr (best, bl)
  | Node _ l se m r =>
    if negb (entity_eligible q se) then inl (l, best, bl)
    else
      let best := Some (better best se) in
      let bl := match aug l with Some lm => Some (better_left bl l lm) | None => bl end in
      if match aug l with Some lm => lm =? m | None => false end || (deadline se =? m) then inr (best, bl)
      else inl (r, best, bl)
  end.

(** One turn of the second loop. *)
Definition deadline_turn (node : tree sched_entity Z) : tree sched_entity Z + option sched_entity :=
  match node with
  | Leaf => inr None
  | Node _ l se m r =>
    if deadline se =? m then inr (Some se)
    else match aug l with Some lm => if lm =? m then inl l else inl r | None => inl r end
  end.

(** A loop that is given [n] turns. *)
Fixpoint turns {S R} (n : nat) (f : S -> S + R) (s : S) : option R :=
  match n with
  | O => None
  | Datatypes.S n => match f s with inl s => turns n f s | inr r => Some r end
  end.

Lemma eligible_turns q t : forall n best bl, (height t < n)%nat ->
  turns n (eligible_turn q) (t, best, bl) = Some (search_eligible q t best bl).
Proof.
  induction t as [|c l IHl se m r IHr]; intros [|n] best bl Hn; try lia; [done|].
  rewrite search_eligible_node. simpl in Hn. cbn [turns eligible_turn].
  destruct (negb (entity_eligible q se)); [apply IHl; lia|].
  cbv zeta. destruct (_ || _); [done|]. apply IHr. lia.
Qed.

Lemma deadline_turns t : forall n, (height t < n)%nat -> turns n deadline_turn t = Some (search_deadline t).
Proof.
  induction t as [|c l IHl se m r IHr]; intros [|n] Hn; try lia; [done|]. simpl in *.
  destruct (deadline se =? m); [done|]. destruct (aug l) as [lm|]; [destruct (lm =? m)|]; [apply IHl|apply IHr|apply IHr]; lia.
Qed.

(** The branch the second loop starts from is no higher than the tree. *)
Lemma search_height q t H : forall best bl best' bl', (height t <= H)%nat ->
  (forall b, bl = Some b -> (height b <= H)%nat) -> search_eligible q t best bl = (best', bl') ->
  forall b, bl' = Some b -> (height b <= H)%nat.
Proof.
  induction t as [|c l IHl se m r IHr]; intros best bl best' bl' Ht Hb E; [by injection E as <- <-|].
  rewrite search_eligible_node in E. simpl in Ht. destruct (negb (entity_eligible q se)).
  { apply (IHl best bl best' bl'); [lia|done|done]. }
  cbv zeta in E. set (l1 := match aug l with Some lm => _ | None => bl end) in E.
  assert (Hl : forall b, l1 = Some b -> (height b <= H)%nat).
  { unfold l1. intros b Eb. destruct (aug l) as [lm|]; [|by apply Hb]. injection Eb as <-. unfold better_left.
    destruct bl as [x|]; [|lia]. specialize (Hb x eq_refl). destruct (aug x); [|done]. destruct (dl_gt _ _); lia. }
  clearbody l1. destruct (_ || _); [by injection E as <- <-|]. apply (IHr (Some (better best se)) l1 best' bl'); [lia|done|done].
Qed.

(** ** Exact sums *)

Definition queued (q : cfs_rq) : list sched_entity := inorder (rb_root (tasks_timeline q)).

Definition running (q : cfs_rq) : list sched_entity :=
  match curr q with Some c => if on_rq c then [c] else [] | None => [] end.

(** The runnable entities of a queue. *)
Definition entities (q : cfs_rq) : list sched_entity := queued q ++ running q.

Definition wsum (q : cfs_rq) (l : list sched_entity) : Z := zsum (fun e => entity_key q e * se_weight e) l.
Definition lsum (l : list sched_entity) : Z := zsum se_weight l.

(** The tracked sums are those of the entities in the tree, at machine width. *)
Definition sums_ok (q : cfs_rq) : Prop :=
  avg_load q = u64 (lsum (queued q)) /\ avg_vruntime_sum q = s64 (wsum q (queued q)).

(** The exact sums are representable: the total weight is below [2^31], and one more than
    the largest distance of a virtual runtime from [min_vruntime], times the total
    weight, below [2^63].  The comment above [avg_vruntime_add] measured 44 bits for the product. *)
Definition fits (q : cfs_rq) (K : Z) : Prop :=
  Forall (fun e => 0 < se_weight e /\ is_u64 (vruntime e) /\ - K <= entity_key q e <= K) (entities q) /\
  lsum (entities q) < two31 /\ (K + 1) * lsum (entities q) < two63 /\ 0 <= K < HALF.

Lemma zsum_bound {A} (f w : A -> Z) l K :
  Forall (fun x => 0 < w x /\ - K <= f x <= K) l ->
  - (K * zsum w l) <= zsum (fun x => f x * w x) l <= K * zsum w l.
Proof. induction 1 as [|x l Hx _ IH]; unfold zsum in *; simpl in *; [lia|nia]. Qed.

Lemma fits_sums q K : fits q K ->
  0 <= lsum (queued q) <= lsum (entities q) /\ - two63 < wsum q (queued q) < two63 /\
  - two63 < wsum q (entities q) < two63.
Proof.
  intros (F & W & P & HK). assert (F' := F). unfold entities in F' |- *. apply Forall_app in F' as [F1 F2].
  unfold entities in W, P. unfold lsum, wsum in *. rewrite !zsum_app in *.
  assert (N1 : 0 <= zsum se_weight (queued q)).
  { apply zsum_nonneg. intros x Hx. rewrite Forall_elem in F1. specialize (F1 x Hx). lia. }
  assert (N2 : 0 <= zsum se_weight (running q)).
  { apply zsum_nonneg. intros x Hx. rewrite Forall_elem in F2. specialize (F2 x Hx). lia. }
  pose proof (zsum_bound (entity_key q) se_weight (queued q) K
    ltac:(eapply Forall_impl; [|exact F1]; simpl; intros; tauto)).
  pose proof (zsum_bound (entity_key q) se_weight (running q) K
    ltac:(eapply Forall_impl; [|exact F2]; simpl; intros; tauto)).
  rewrite Z.mul_add_distr_r, Z.mul_add_distr_l in P. pose proof (Z.mul_nonneg_nonneg K _ ltac:(lia) N1).
  pose proof (Z.mul_nonneg_nonneg K _ ltac:(lia) N2). lia.
Qed.

Lemma total_exact q K : sums_ok q -> fits q K -> total q = (wsum q (entities q), lsum (entities q)).
Proof.
  intros [E1 E2] H. destruct (fits_sums q K H) as (S1 & S2 & S3). destruct H as (_ & W & _ & _).
  unfold total, entities, running, lsum, wsum in *. rewrite E1, E2.
  rewrite u64_small, !(s64_small (zsum _ (queued q))) by lia.
  destruct (curr q) as [c|]; [destruct (on_rq c)|]; rewrite ?app_nil_r; [|done|done].
  rewrite !zsum_app in *. unfold zsum in * |- *. simpl in *. rewrite !Z.add_0_r in *.
  by rewrite !s64_small by lia.
Qed.

(** Eligibility is the exact comparison of an entity with the weighted average. *)
Lemma eligible_exact q K e : sums_ok q -> fits q K -> - K <= entity_key q e <= K ->
  entity_eligible q e = (entity_key q e * lsum (entities q) <=? wsum q (entities q)).
Proof.
  intros S F He. unfold entity_eligible. rewrite (total_exact q K S F).
  destruct (fits_sums q K F) as (S1 & _ & _). destruct F as (_ & _ & P & HK).
  rewrite s64_small; [done|]. rewrite Z.mul_add_distr_r in P. nia.
Qed.

Lemma eligible_mono q K x y : sums_ok q -> fits q K -> x ∈ entities q -> y ∈ entities q ->
  entity_key q x <= entity_key q y -> entity_eligible q y = true -> entity_eligible q x = true.
Proof.
  intros S F Hx Hy Hk. pose proof F as (Fe & _). rewrite Forall_elem in Fe.
  rewrite !(eligible_exact q K) by (try done; by apply Fe). rewrite !Z.leb_le.
  destruct (fits_sums q K F) as (S1 & _). nia.
Qed.

Lemma less_key q K x y : fits q K -> x ∈ entities q -> y ∈ entities q ->
  __entity_less y x = (entity_key q y <? entity_key q x).
Proof.
  intros (F & _ & _ & HK) Hx Hy. rewrite Forall_elem in F.
  assert (P : forall e, e ∈ entities q -> in_window (min_vruntime q) (vruntime e)).
  { intros e He. destruct (F e He) as (_ & U & B). split; [done|]. unfold entity_key in B. lia. }
  unfold __entity_less, entity_before. rewrite (window_diff (min_vruntime q)) by auto.
  unfold off. fold (entity_key q y). fold (entity_key q x).
  destruct (Z.ltb_spec (entity_key q y - entity_key q x) 0), (Z.ltb_spec (entity_key q y) (entity_key q x)); try done; lia.
Qed.

(** Some runnable entity is eligible: the one with the least virtual runtime. *)
Lemma least_key (f : sched_entity -> Z) l : l <> [] -> exists x, x ∈ l /\ forall y, y ∈ l -> f x <= f y.
Proof.
  induction l as [|a l IH]; intros H; [done|]. destruct l as [|c l].
  - exists a. split; [by left|]. intros y Hy. apply list_elem_of_singleton in Hy as ->. lia.
  - destruct IH as (x & Hx & Hm); [done|]. destruct (Z_le_gt_dec (f a) (f x)) as [L|L].
    + exists a. split; [by left|]. intros y [->|Hy]%elem_of_cons; [lia|]. specialize (Hm y Hy). lia.
    + exists x. split; [by right|]. intros y [->|Hy]%elem_of_cons; [lia|by apply Hm].
Qed.

Lemma least_eligible q K x : sums_ok q -> fits q K -> x ∈ entities q ->
  (forall y, y ∈ entities q -> entity_key q x <= entity_key q y) -> entity_eligible q x = true.
Proof.
  intros S F Hx Hm. pose proof F as (Fe & _). rewrite Forall_elem in Fe.
  rewrite (eligible_exact q K) by (try done; by apply Fe). apply Z.leb_le.
  assert (G : forall l, (forall y, y ∈ l -> entity_key q x <= entity_key q y /\ 0 < se_weight y) ->
    entity_key q x * lsum l <= wsum q l).
  { induction l as [|a l IH]; intros H; unfold lsum, wsum, zsum in *; simpl; [lia|].
    destruct (H a ltac:(by left)). specialize (IH ltac:(intros y Hy; apply H; by right)). nia. }
  apply G. intros y Hy. split; [by apply Hm|by apply Fe].
Qed.

(** ** The average *)

Lemma div_floor a l : 0 < l -> cdiv (if a <? 0 then a - (l - 1) else a) l = a / l.
Proof.
  intros Hl. unfold cdiv. destruct (Z.ltb_spec a 0) as [Ha|Ha]; [|by apply Z.quot_div_nonneg].
  pose proof (Z.div_mod a l ltac:(lia)). pose proof (Z.mod_pos_bound a l ltac:(lia)).
  rewrite <- (Z.opp_involutive (a - (l - 1))), Z.quot_opp_l by lia.
  rewrite Z.quot_div_nonneg by lia.
  enough (- (a - (l - 1)) / l = - (a / l)) by lia. symmetry. apply Z.div_unique with (l - 1 - a mod l); lia.
Qed.

Lemma wsum_div_bound q K : fits q K -> entities q <> [] ->
  0 < lsum (entities q) /\ - K <= wsum q (entities q) / lsum (entities q) <= K.
Proof.
  intros F Hne. pose proof F as (Fe & W & P & HK).
  assert (0 < lsum (entities q)).
  { destruct (entities q) as [|x l]; [done|]. apply Forall_cons_iff in Fe as [Hx Fe]. unfold lsum. simpl.
    assert (0 <= zsum se_weight l); [|lia]. apply zsum_nonneg. intros y Hy. rewrite Forall_elem in Fe.
    specialize (Fe y Hy). lia. }
  pose proof (zsum_bound (entity_key q) se_weight (entities q) K
    ltac:(eapply Forall_impl; [|exact Fe]; simpl; intros; tauto)) as B. fold (wsum q (entities q)) in B.
  fold (lsum (entities q)) in B. split; [done|]. split.
  - apply Z.div_le_lower_bound; lia.
  - apply Z.div_le_upper_bound; lia.
Qed.

Lemma avg_vruntime_floor q K : sums_ok q -> fits q K -> entities q <> [] ->
  avg_vruntime q = Some (u64 (min_vruntime q + wsum q (entities q) / lsum (entities q))).
Proof.
  intros S F Hne. destruct (wsum_div_bound q K F Hne) as [HW HD]. unfold avg_vruntime.
  rewrite (total_exact q K S F). pose proof F as (Fe & W & P & HK).
  pose proof (zsum_bound (entity_key q) se_weight (entities q) K
    ltac:(eapply Forall_impl; [|exact Fe]; simpl; intros; tauto)) as B. fold (wsum q (entities q)) in B.
  fold (lsum (entities q)) in B. rewrite (proj2 (Z.eqb_neq _ 0)) by lia.
  set (a := wsum q (entities q)) in *. set (l := lsum (entities q)) in *.
  rewrite Z.mul_add_distr_r in P. unfold div_s64. rewrite (s32_small l) by lia.
  rewrite (proj2 (Z.eqb_neq _ 0)) by lia. simpl.
  replace (s64 (if a <? 0 then s64 (a - (l - 1)) else a)) with (if a <? 0 then a - (l - 1) else a)
    by (destruct (Z.ltb_spec a 0); [rewrite (s64_small (a - (l - 1))) by lia|]; rewrite s64_small; lia).
  rewrite div_floor, s64_small by (unfold HALF in HK; lia). done.
Qed.

Lemma avg_vruntime_separates q K e : sums_ok q -> fits q K -> entities q <> [] ->
  - K <= entity_key q e <= K ->
  exists V, avg_vruntime q = Some V /\
    (entity_eligible q e = true <-> s64 (vruntime e - V) <= 0) /\ entity_eligible q (set_vruntime e V) = true.
Proof.
  intros S F Hne He. eexists. split; [by apply (avg_vruntime_floor q K)|].
  destruct (wsum_div_bound q K F Hne) as [HW HD]. pose proof F as (_ & _ & _ & HK). unfold HALF in HK.
  set (a := wsum q (entities q)) in *. set (l := lsum (entities q)) in *. set (V := u64 _).
  assert (KV : entity_key q (set_vruntime e V) = a / l).
  { unfold entity_key, V. simpl. destruct (u64_cong (min_vruntime q + a / l)) as [j ->].
    apply (s64_unique _ _ j); lia. }
  assert (Kd : s64 (vruntime e - V) = entity_key q e - a / l).
  { unfold V, entity_key in *. destruct (u64_cong (min_vruntime q + a / l)) as [j ->].
    destruct (s64_cong (vruntime e - min_vruntime q)) as [k E]. rewrite E in He |- *.
    apply (s64_unique _ _ (- j - k)); lia. }
  rewrite !(eligible_exact q K); [|done|done|by rewrite KV|done|done|done].
  rewrite KV, Kd. fold a l. rewrite !Z.leb_le. pose proof (Z.mul_div_le a l HW). pose proof (Z.mul_succ_div_gt a l HW).
  split; [|lia]. split; nia.
Qed.

(** ** The choice is the earliest eligible deadline *)

Definition timeline_ok (b : Z) (q : cfs_rq) : Prop :=
  rb_ok (ok := ok b) (agg := agg) __entity_less (tasks_timeline q).

(** [curr] when it competes. *)
Definition competing (q : cfs_rq) : option sched_entity :=
  match curr q with
  | Some c => if negb (on_rq c) || negb (entity_eligible q c) then None else Some c
  | None => None
  end.

Lemma competing_spec q c : competing q = Some c ->
  curr q = Some c /\ c ∈ running q /\ entity_eligible q c = true.
Proof.
  unfold competing, running. destruct (curr q) as [x|]; [|done]. destruct (on_rq x); simpl; [|done].
  destruct (entity_eligible q x) eqn:E; simpl; [|done]. intros [= ->]. split; [done|]. split; [by left|done].
Qed.

Lemma competing_complete q e : e ∈ running q -> entity_eligible q e = true -> competing q = Some e.
Proof.
  unfold competing, running. destruct (curr q) as [x|]; [|by intros ?%not_elem_of_nil].
  destruct (on_rq x); simpl; [|by intros ?%not_elem_of_nil]. intros ->%list_elem_of_singleton ->. done.
Qed.

Section Pick.
Context (cfg : sched_cfg) (q : cfs_rq) (K b : Z).
Context (Hsum : sums_ok q) (Hfit : fits q K) (Htree : timeline_ok b q) (Hrun : Forall (ok b) (running q)).

Lemma pick_search best bl :
  search_eligible q (rb_root (tasks_timeline q)) (competing q) None = (best, bl) ->
  branch_ok b best bl /\
  (forall e, e ∈ cands best bl -> e ∈ entities q /\ entity_eligible q e = true) /\
  (forall e, e ∈ entities q -> entity_eligible q e = true -> covers b (cands best bl) e).
Proof.
  intros H. destruct Htree as [_ W S O _].
  assert (Hc : forall c, c ∈ cands (competing q) None -> c ∈ running q /\ entity_eligible q c = true).
  { intros c Hc. unfold cands in Hc. rewrite app_nil_r in Hc. destruct (competing q) as [x|] eqn:E.
    - apply list_elem_of_singleton in Hc as ->. by apply competing_spec in E as (_ & ? & ?).
    - by apply not_elem_of_nil in Hc. }
  edestruct (search_eligible_spec q b (queued q)) with (best := competing q) as (B & I & C);
    [|exact W|exact O|done|exact S| |exact H|].
  - intros x y Hx Hy L. assert (Px : x ∈ entities q) by (apply elem_of_app; by left).
    assert (Py : y ∈ entities q) by (apply elem_of_app; by left).
    apply (eligible_mono q K); try done. rewrite (less_key q K) in L by done. apply Z.ltb_ge in L. done.
  - split; [|done]. apply Forall_elem. intros c Hin. destruct (Hc c) as [P _]; [unfold cands; by rewrite app_nil_r|].
    rewrite Forall_elem in Hrun. by apply Hrun.
  - split; [done|]. split.
    + intros e He. destruct (I e He) as [P|[P E]]; [apply Hc in P as [P E]|]; (split; [apply elem_of_app|done]); tauto.
    + intros e He E. apply C. apply elem_of_app in He as [He|He]; [by right|left].
      unfold cands. rewrite (competing_complete q e He E). by left.
Qed.

Lemma pick_best : entities q <> [] -> exists se, __pick_eevdf cfg q = Some (Some se) /\
  se ∈ entities q /\ entity_eligible q se = true /\
  ((curr q = Some se /\ RUN_TO_PARITY cfg = true /\ u64 (vlag se) = deadline se) \/
   forall e, e ∈ entities q -> entity_eligible q e = true -> off b (deadline se) <= off b (deadline e)).
Proof.
  intros Hne. unfold __pick_eevdf. fold (competing q).
  destruct (match competing q with Some c => _ | None => false end) eqn:Par.
  { destruct (competing q) as [c|] eqn:E; [|done]. apply competing_spec in E as (E1 & E2 & E3).
    apply andb_true_iff in Par as [P1 P2]. apply Z.eqb_eq in P2. exists c. split; [done|].
    split; [apply elem_of_app; by right|]. split; [done|]. by left. }
  destruct (search_eligible q _ _ None) as [best bl] eqn:Es. destruct (pick_search best bl Es) as (B & I & C).
  destruct (least_key (entity_key q) (entities q) Hne) as (x & Hx & Hm).
  pose proof (least_eligible q K x Hsum Hfit Hx Hm) as Ex. destruct (C x Hx Ex) as (y & Hy & _).
  destruct B as [Ob Bl]. destruct bl as [t|].
  - destruct Bl as (Ht & Wt & Ot & Hb). destruct best as [bs|]; [|done].
    destruct (search_deadline_spec b t Wt Ht Ot) as (e & Se & He & Em). rewrite Em. simpl.
    simpl in Ob. apply Forall_cons_iff in Ob as [Obs _]. pose proof Ot as Ot'. rewrite Forall_elem in Ot'.
    destruct (tree_min b t Wt Ht Ot) as (m & Em' & [_ Fm]). rewrite Em in Em'. injection Em' as <-.
    rewrite Forall_elem in Fm. rewrite (dl_gt_spec b) by (destruct (Ot' e He), Obs; done).
    destruct (Z.ltb_spec (off b (deadline bs)) (off b (deadline e))) as [L|L].
    + exists bs. split; [done|]. destruct (I bs) as [I1 I2]; [by left|]. split; [done|]. split; [done|]. right.
      intros z Hz Ez. destruct (C z Hz Ez) as (w & Hw & Lw). unfold cands in Hw. simpl in Hw.
      apply elem_of_cons in Hw as [->|Hw]; [done|]. specialize (Fm w Hw). lia.
    + exists e. split; [by rewrite Se|]. destruct (I e) as [I1 I2]; [unfold cands; apply elem_of_app; by right|].
      split; [done|]. split; [done|]. right. intros z Hz Ez. destruct (C z Hz Ez) as (w & Hw & Lw).
      unfold cands in Hw. simpl in Hw. apply elem_of_cons in Hw as [->|Hw]; [lia|]. specialize (Fm w Hw). lia.
  - unfold cands in *. rewrite app_nil_r in *. destruct best as [bs|]; [|by apply not_elem_of_nil in Hy].
    exists bs. split; [done|]. destruct (I bs) as [I1 I2]; [by left|]. split; [done|]. split; [done|]. right.
    intros z Hz Ez. destruct (C z Hz Ez) as (w & Hw & Lw). apply list_elem_of_singleton in Hw as ->. done.
Qed.

Lemma pick_eevdf_best : entities q <> [] ->
  exists se, pick_eevdf cfg q = Some (Some se, false) /\ se ∈ entities q /\ entity_eligible q se = true /\
  ((curr q = Some se /\ RUN_TO_PARITY cfg = true /\ u64 (vlag se) = deadline se) \/
   forall e, e ∈ entities q -> entity_eligible q e = true -> s64 (deadline se - deadline e) <= 0) /\
  (forall e, e ∈ entities q -> entity_eligible q e = true <->
     0 <= zsum (fun j => se_weight j * (entity_key q j - entity_key q e)) (entities q)).
Proof.
  intros Hne. destruct (pick_best Hne) as (se & H1 & H2 & H3 & H4). exists se.
  split; [unfold pick_eevdf; by rewrite H1|]. split; [done|]. split; [done|].
  assert (Oe : forall e, e ∈ entities q -> in_window b (deadline e)).
  { intros e He. destruct Htree as [_ _ _ O _]. rewrite Forall_elem in O, Hrun.
    apply elem_of_app in He as [He|He]; [by apply O|by apply Hrun]. }
  split.
  - destruct H4 as [H4|H4]; [by left|right]. intros e He Ee. rewrite (window_diff b) by auto.
    specialize (H4 e He Ee). lia.
  - intros e He. pose proof Hfit as (Fe & _). rewrite Forall_elem in Fe.
    rewrite (eligible_exact q K) by (try done; by apply Fe). rewrite Z.leb_le.
    assert (G : forall l, zsum (fun j => se_weight j * (entity_key q j - entity_key q e)) l =
      wsum q l - entity_key q e * lsum l).
    { induction l as [|a l IH]; unfold wsum, lsum, zsum in *; simpl; lia. }
    rewrite G. lia.
Qed.

End Pick.

End Eevdf.
