(* ===== verification/EevdfOps.v ===== *)
(** The life of an entity on an EEVDF run queue ([kernel/sched/fair.c]): placement,
    enqueue, dequeue, reweighting, the switch to and from the running entity, the tick,
    yielding and wakeup preemption.

    An entity is a value that moves between the caller, the tree and [curr]; a pointer to
    the running entity stands for the value the queue holds.  The task clock and the
    group state read by [update_cfs_group] are arguments.  The theorems show that every
    operation keeps the sums, counters and the tree exact, that the operations do not
    fail, and that leaving and rejoining the queue preserves lag. *)

From Stdlib Require Import ZArith Lia List.
From stdpp Require Import base list numbers option.
From S2P Require Import Prelude RbTree LoadWeight Eevdf.
Import RbTree LoadWeight Eevdf.
Open Scope Z_scope.

Module EevdfOps.

(** ** Flags *)

Definition DEQUEUE_SAVE : Z := 2.
Definition DEQUEUE_MOVE : Z := 4.
Definition ENQUEUE_MIGRATED : Z := 64.
Definition ENQUEUE_INITIAL : Z := 128.
Definition has (flags f : Z) : bool := negb (Z.land flags f =? 0).

(** ** Placement *)

(** The total weight as [place_entity] reads it. *)
Definition queue_load (q : cfs_rq) : Z :=
  match curr q with
  | Some c => if on_rq c then u64 (avg_load q + se_weight c) else avg_load q
  | None => avg_load q
  end.

Definition place_entity (cfg : sched_cfg) (q : cfs_rq) (se : sched_entity) (flags : Z) : option sched_entity :=
  v ← avg_vruntime q;
  let se := set_slice se (sysctl_sched_base_slice cfg) in
  let '(vslice, lw) := calc_delta_fair (slice se) (se_load se) in
  let se := set_load se lw in
  lag ← (if PLACE_LAG cfg && negb (nr_running q =? 0)
         then
           let l := queue_load q in
           let lag := s64 (vlag se * u64 (l + se_weight se)) in
           let l := if l =? 0 then 1 else l in
           div_s64 lag l
         else Some 0);
  let se := set_vruntime se (u64 (v - lag)) in
  let vslice := if PLACE_DEADLINE_INITIAL cfg && has flags ENQUEUE_INITIAL then vslice / 2 else vslice in
  Some (set_deadline se (u64 (vruntime se + vslice))).

(** ** Accounting *)

Definition account_entity_enqueue (q : cfs_rq) (se : sched_entity) : cfs_rq :=
  set_counts q (update_load_add (load q) (weight (se_load se))) (u32 (nr_running q + 1))
    (if se_idle se then u32 (idle_nr_running q + 1) else idle_nr_running q).

Definition account_entity_dequeue (q : cfs_rq) (se : sched_entity) : cfs_rq :=
  set_counts q (update_load_sub (load q) (weight (se_load se))) (u32 (nr_running q - 1))
    (if se_idle se then u32 (idle_nr_running q - 1) else idle_nr_running q).

(** ** Reweighting *)

Definition is_curr (q : cfs_rq) (se : sched_entity) : bool :=
  match curr q with Some c => se_id c =? se_id se | None => false end.

(** The entity a pointer stands for. *)
Definition deref (q : cfs_rq) (se : sched_entity) : sched_entity :=
  match curr q with Some c => if se_id c =? se_id se then c else se | None => se end.

(** The scaling of the lag or of the relative deadline. *)
Definition rescale (se : sched_entity) (old_weight w : Z) : option sched_entity :=
  if negb (on_rq se)
  then lag ← div_s64 (vlag se * old_weight) w; Some (set_vlag se lag)
  else d ← div_s64 (s64 (deadline se - vruntime se) * old_weight) w;
       Some (set_deadline se (u64 (vruntime se + d))).

Definition reweight_entity (cfg : sched_cfg) (now : Z) (q : cfs_rq) (se : sched_entity) (w : Z)
  : option (cfs_rq * sched_entity) :=
  let se := deref q se in
  let cur := is_curr q se in
  let old_weight := weight (se_load se) in
  let q := if on_rq se then (if cur then update_curr cfg now q else avg_vruntime_sub q se) else q in
  let se := deref q se in
  let q := if on_rq se
           then set_counts q (update_load_sub (load q) (weight (se_load se))) (nr_running q) (idle_nr_running q)
           else q in
  se ← rescale (set_load se (update_load_set w)) old_weight w;
  q ← (if cur then Some (set_curr q (Some se))
       else if on_rq se
       then t ← rb_update (is_se (se_id se)) (fun _ => se) (tasks_timeline q); Some (set_timeline q t)
       else Some q);
  let q := if on_rq se
           then let q := set_counts q (update_load_add (load q) (weight (se_load se))) (nr_running q) (idle_nr_running q) in
                if cur then q else avg_vruntime_add q se
           else q in
  Some (q, se).

(** What [update_cfs_group] reads of the queue a group entity owns. *)
Record group_in := mk_group {
  g_throttled : bool;
  g_tg_shares : Z;
  g_weight : Z;
  g_load_avg : Z;
  g_tg_load_avg : Z;
  g_contrib : Z
}.

Definition calc_group_shares (g : group_in) : Z :=
  let l := s64 (Z.max (scale_load_down (g_weight g)) (g_load_avg g)) in
  let tg_weight := s64 (s64 (g_tg_load_avg g - g_contrib g) + l) in
  let s := s64 (g_tg_shares g * l) in
  let s := if tg_weight =? 0 then s else cdiv s tg_weight in
  clamp s MIN_SHARES (g_tg_shares g).

Definition update_cfs_group (cfg : sched_cfg) (now : Z) (q : cfs_rq) (se : sched_entity) (g : option group_in)
  : option (cfs_rq * sched_entity) :=
  match g with
  | None => Some (q, deref q se)
  | Some g =>
    if g_throttled g then Some (q, deref q se)
    else reweight_entity cfg now q se (u64 (calc_group_shares g))
  end.

Definition reweight_task (cfg : sched_cfg) (now : Z) (q : cfs_rq) (se : sched_entity) (prio : Z)
  : option (cfs_rq * sched_entity) :=
  w ← aref sched_prio_to_weight prio;
  i ← aref sched_prio_to_wmult prio;
  '(q, se) ← reweight_entity cfg now q se (scale_load w);
  let se := set_load se (mk_load (weight (se_load se)) i) in
  q ← (if is_curr q se then Some (set_curr q (Some se))
       else if on_rq se
       then t ← rb_update (is_se (se_id se)) (fun _ => se) (tasks_timeline q); Some (set_timeline q t)
       else Some q);
  Some (q, se).

(** [set_load_weight] of a task; [fair] says that the task is in the fair class. *)
Definition set_load_weight (cfg : sched_cfg) (now : Z) (q : cfs_rq) (se : sched_entity)
    (idle_policy fair update_load : bool) (static_prio : Z) : option (cfs_rq * sched_entity) :=
  let prio := static_prio - MAX_RT_PRIO in
  let store lw := let se := set_load (deref q se) lw in
    if is_curr q se then Some (set_curr q (Some se), se) else Some (q, se) in
  if idle_policy then store idle_load
  else if update_load && fair then reweight_task cfg now q se prio
  else lw ← prio_load prio; store lw.

(** ** Joining and leaving the queue *)

Definition enqueue_entity (cfg : sched_cfg) (now : Z) (q : cfs_rq) (se : sched_entity) (flags : Z)
    (g : option group_in) : option cfs_rq :=
  let c := is_curr q se in
  q ← (if c then se ← place_entity cfg q (deref q se) flags; Some (set_curr q (Some se)) else Some q);
  let q := update_curr cfg now q in
  '(q, se) ← update_cfs_group cfg now q se g;
  se ← (if negb c then place_entity cfg q se flags else Some se);
  let q := account_entity_enqueue q se in
  let se := if has flags ENQUEUE_MIGRATED then set_exec se 0 (sum_exec_runtime se) (prev_sum_exec_runtime se) else se in
  let se' := set_on_rq se true in
  if negb c then __enqueue_entity q se' else Some (set_curr q (Some se')).

(** The entity with a given identity, wherever the queue holds it. *)
Definition find_entity (q : cfs_rq) (i : Z) : option sched_entity :=
  match curr q with
  | Some c => if se_id c =? i then Some c
              else '(_, _, x, _, _, _) ← locate (is_se i) (rb_root (tasks_timeline q)) []; Some x
  | None => '(_, _, x, _, _, _) ← locate (is_se i) (rb_root (tasks_timeline q)) []; Some x
  end.

Definition dequeue_entity (cfg : sched_cfg) (now : Z) (q : cfs_rq) (i : Z) (flags : Z) (g : option group_in)
  : option (cfs_rq * sched_entity) :=
  let q := update_curr cfg now q in
  se ← find_entity q i;
  let q := clear_buddies q se in
  let c := is_curr q se in
  se ← update_entity_lag cfg q se;
  q ← (if negb c then __dequeue_entity q se else Some q);
  let se := set_on_rq se false in
  let q := if c then set_curr q (Some se) else q in
  let q := account_entity_dequeue q se in
  '(q, se) ← update_cfs_group cfg now q se g;
  let q := if negb (Z.land flags (Z.lor DEQUEUE_SAVE DEQUEUE_MOVE) =? DEQUEUE_SAVE)
           then update_min_vruntime q else q in
  Some (q, se).

(** ** The running entity *)

Definition set_next_entity (now : Z) (q : cfs_rq) (se : sched_entity) : option cfs_rq :=
  let q := clear_buddies q se in
  q ← (if on_rq se then __dequeue_entity q se else Some q);
  let se := if on_rq se then set_vlag se (s64 (deadline se)) else se in
  Some (set_curr q (Some (set_exec se now (sum_exec_runtime se) (sum_exec_runtime se)))).

(** The result has the previous entity when it left the queue. *)
Definition put_prev_entity (cfg : sched_cfg) (now : Z) (q : cfs_rq) : option (cfs_rq * sched_entity) :=
  prev ← curr q;
  let q := if on_rq prev then update_curr cfg now q else q in
  prev ← curr q;
  q ← (if on_rq prev then __enqueue_entity q prev else Some q);
  Some (set_curr q None, prev).

Definition pick_next_entity (cfg : sched_cfg) (q : cfs_rq) : option (option sched_entity * bool) :=
  match next q with
  | Some i =>
    if NEXT_BUDDY cfg
    then se ← find_entity q i;
         if entity_eligible q se then Some (Some se, false) else pick_eevdf cfg q
    else pick_eevdf cfg q
  | None => pick_eevdf cfg q
  end.

Definition entity_tick (cfg : sched_cfg) (now : Z) (q : cfs_rq) (queued_tick : bool) (g : option group_in) : option cfs_rq :=
  c ← curr q;
  let q := update_curr cfg now q in
  '(q, _) ← update_cfs_group cfg now q c g;
  Some (if queued_tick then resched_curr q else q).

Definition set_next_buddy (q : cfs_rq) (se : sched_entity) : cfs_rq :=
  let se := deref q se in
  if negb (on_rq se) then q else if se_idle se then q else set_next q (Some (se_id se)).

(** [nr] is the number of tasks of the run queue, all classes together. *)
Definition yield_task_fair (cfg : sched_cfg) (now nr : Z) (q : cfs_rq) : option cfs_rq :=
  if nr =? 1 then Some q
  else
    c ← curr q;
    let q := update_curr cfg now (clear_buddies q c) in
    c ← curr q;
    let '(d, lw) := calc_delta_fair (slice c) (se_load c) in
    Some (set_curr q (Some (set_deadline (set_load c lw) (u64 (deadline c + d))))).

(** The placement of a new task against its parent's queue. *)
Definition task_fork_fair (cfg : sched_cfg) (now : Z) (q : cfs_rq) (se : sched_entity)
  : option (cfs_rq * sched_entity) :=
  let q := match curr q with Some _ => update_curr cfg now q | None => q end in
  se ← place_entity cfg q se ENQUEUE_INITIAL;
  Some (q, se).

(** ** Wakeup preemption *)

(** Policies of the woken and the running task. *)
Record wakeup := mk_wakeup {
  wf_fork : bool;
  curr_idle : bool;
  woken_idle : bool;
  woken_normal : bool;
  WAKEUP_PREEMPTION : bool;
  woken_throttled : bool
}.

(** For two tasks of one queue: [find_matching_se] leaves them as they are. *)
Definition check_preempt_wakeup (cfg : sched_cfg) (now : Z) (q : cfs_rq) (pse : sched_entity) (k : wakeup)
  : option cfs_rq :=
  se ← curr q;
  if se_id se =? se_id pse then Some q
  else if woken_throttled k then Some q
  else
    let q := if NEXT_BUDDY cfg && negb (wf_fork k) then set_next_buddy q pse else q in
    if resched q then Some q
    else if curr_idle k && negb (woken_idle k) then Some (resched_curr q)
    else if negb (woken_normal k) || negb (WAKEUP_PREEMPTION k) then Some q
    else if se_idle se && negb (se_idle pse) then Some (resched_curr q)
    else if negb (eqb (se_idle se) (se_idle pse)) then Some q
    else
      let q := update_curr cfg now q in
      '(p, _) ← pick_eevdf cfg q;
      match p with
      | Some p => Some (if se_id p =? se_id pse then resched_curr q else q)
      | None => Some q
      end.

(** ** The invariant *)

(** What the counters depend on. *)
Definition same_ent (a b : sched_entity) : Prop :=
  se_id a = se_id b /\ on_rq a = on_rq b /\ se_idle a = se_idle b /\ weight (se_load a) = weight (se_load b).

Definition windowed (q : cfs_rq) : Prop := exists b, Forall (ok b) (queued q).

Record tree_ok (q : cfs_rq) : Prop := mk_tree_ok {
  to_tree : exists b, timeline_ok b q;
  to_ids : NoDup (map se_id (queued q));
  to_on_rq : Forall (fun e => on_rq e = true) (queued q);
  to_sums : sums_ok q
}.

Definition counts_ok (q : cfs_rq) (l : list sched_entity) : Prop :=
  weight (load q) = u64 (zsum (fun e => weight (se_load e)) l) /\
  nr_running q = u32 (Z.of_nat (length l)) /\
  idle_nr_running q = u32 (zsum (fun e => b2z (se_idle e)) l).

(** The tree, the sums and the counters describe the runnable entities, and [curr] is
    not in the tree. *)
Record cfs_ok (q : cfs_rq) : Prop := mk_cfs_ok {
  co_tree : tree_ok q;
  co_curr : forall c, curr q = Some c -> se_id c ∉ map se_id (queued q);
  co_counts : counts_ok q (entities q)
}.

(** Parts of a queue that an operation leaves alone. *)
Definition same_counts (q q' : cfs_rq) : Prop :=
  load q' = load q /\ nr_running q' = nr_running q /\ idle_nr_running q' = idle_nr_running q.

Lemma zsum_perm {A} (f : A -> Z) l l' : l ≡ₚ l' -> zsum f l = zsum f l'.
Proof. unfold zsum. induction 1; simpl; lia. Qed.

Lemma counts_ok_perm q q' l l' : l ≡ₚ l' -> same_counts q q' -> counts_ok q l -> counts_ok q' l'.
Proof.
  intros P (E1 & E2 & E3) (H1 & H2 & H3). unfold counts_ok. rewrite E1, E2, E3, H1, H2, H3.
  by rewrite !(zsum_perm _ _ _ P), P.
Qed.

Lemma counts_ok_same q q' l l' : Forall2 same_ent l l' -> same_counts q q' -> counts_ok q l -> counts_ok q' l'.
Proof.
  intros P (E1 & E2 & E3) (H1 & H2 & H3). unfold counts_ok. rewrite E1, E2, E3, H1, H2, H3. clear - P.
  assert (zsum (fun e => weight (se_load e)) l = zsum (fun e => weight (se_load e)) l' /\
    length l = length l' /\ zsum (fun e => b2z (se_idle e)) l = zsum (fun e => b2z (se_idle e)) l') as (-> & -> & ->); [|done].
  induction P as [|a c l l' (_ & _ & P1 & P2) _ (I1 & I2 & I3)]; [done|]. unfold zsum in *. simpl.
  rewrite I1, I2, I3, P1, P2. done.
Qed.

(** ** [min_vruntime] *)

Lemma wsum_shift q q' delta l :
  (exists k, min_vruntime q' = min_vruntime q + delta + k * two64) ->
  exists k, wsum q' l = wsum q l - delta * lsum l + k * two64.
Proof.
  intros [k Hk]. unfold wsum, lsum. induction l as [|e l [j IH]]; unfold zsum in *; simpl; [by exists 0; lia|].
  unfold entity_key in *. rewrite IH. destruct (s64_cong (vruntime e - min_vruntime q')) as [a ->].
  destruct (s64_cong (vruntime e - min_vruntime q)) as [c ->]. rewrite Hk.
  exists (j + (a - k - c) * se_weight e). lia.
Qed.

Lemma s64_ext x y k : x = y + k * two64 -> s64 x = s64 y.
Proof. intros ->. destruct (s64_cong y) as [j Hj]. apply (s64_unique _ _ (k - j)); [lia|apply s64_range]. Qed.

Lemma min_vruntime_sums q v :
  sums_ok q -> let '(q', m) := __update_min_vruntime q v in sums_ok (set_min_vruntime q' m).
Proof.
  intros [S1 S2]. unfold __update_min_vruntime. destruct (0 <? s64 (v - min_vruntime q)); [|by split].
  split; [done|]. unfold avg_vruntime_update. simpl. rewrite S1, S2.
  set (q' := set_min_vruntime _ v).
  destruct (wsum_shift q q' (s64 (v - min_vruntime q)) (queued q)) as [k Hk].
  { destruct (s64_cong (v - min_vruntime q)) as [j Hj]. exists (- j). simpl. lia. }
  change (queued q') with (queued q). rewrite Hk.
  destruct (s64_cong (wsum q (queued q))) as [a ->]. destruct (u64_cong (lsum (queued q))) as [c ->].
  apply (s64_ext _ _ (a - c * s64 (v - min_vruntime q) - k)). lia.
Qed.

Lemma update_min_vruntime_frame q :
  let q' := update_min_vruntime q in
  tasks_timeline q' = tasks_timeline q /\ curr q' = curr q /\ same_counts q q' /\
  (sums_ok q -> sums_ok q').
Proof.
  unfold update_min_vruntime. set (v := match __pick_first_entity q with Some _ => _ | None => _ end).
  pose proof (min_vruntime_sums q v) as H. unfold __update_min_vruntime in *.
  destruct (0 <? s64 (v - min_vruntime q)); simpl; split_and!; by try apply H.
Qed.

Lemma tree_ok_frame q q' : tasks_timeline q' = tasks_timeline q -> sums_ok q' -> tree_ok q -> tree_ok q'.
Proof.
  intros E S [[b T] I O _]. split; unfold timeline_ok, queued in *; rewrite ?E; [by exists b|done|done|done].
Qed.

(** Conjunctions of equalities between parts of a queue. *)
Ltac frame := cbv zeta; unfold same_counts, same_ent in *; simpl in *; intuition (try congruence; try done).

(** ** The running entity *)

Lemma calc_delta_weight d lw : weight (snd (calc_delta_fair d lw)) = weight lw.
Proof.
  unfold calc_delta_fair. destruct (negb _); [|done]. unfold __calc_delta.
  assert (E : weight (__update_inv_weight lw) = weight lw).
  { unfold __update_inv_weight. by repeat case_match. }
  destruct (fold_hi _ WMULT_SHIFT) as [f sh]. by destruct (fold_hi _ sh).
Qed.

Lemma calc_delta_keeps d lw x lw' : calc_delta_fair d lw = (x, lw') -> weight lw' = weight lw.
Proof. intros H. pose proof (calc_delta_weight d lw) as E. by rewrite H in E. Qed.

Lemma clear_buddies_frame q se :
  let q' := clear_buddies q se in
  tasks_timeline q' = tasks_timeline q /\ curr q' = curr q /\ same_counts q q' /\
  min_vruntime q' = min_vruntime q /\ (sums_ok q -> sums_ok q').
Proof.
  unfold clear_buddies. destruct (next q) as [i|]; [destruct (i =? se_id se)|]; frame.
Qed.

Lemma update_deadline_frame cfg q se q' se' : update_deadline cfg q se = (q', se') ->
  tasks_timeline q' = tasks_timeline q /\ curr q' = curr q /\ same_counts q q' /\
  min_vruntime q' = min_vruntime q /\ (sums_ok q -> sums_ok q') /\ same_ent se' se /\ vruntime se' = vruntime se.
Proof.
  unfold update_deadline. destruct (_ <? 0); [intros [= <- <-]; frame|].
  destruct (calc_delta_fair _ _) as [d lw] eqn:E. apply calc_delta_keeps in E. simpl in E.
  destruct (1 <? nr_running q); intros [= <- <-].
  - match goal with |- context [clear_buddies ?a ?e] =>
      destruct (clear_buddies_frame a e) as (A1 & A2 & A3 & A4 & A5) end.
    frame.
  - frame.
Qed.

Definition same_curr (q q' : cfs_rq) : Prop :=
  match curr q, curr q' with
  | Some c, Some c' => same_ent c' c
  | None, None => True
  | _, _ => False
  end.

Lemma update_curr_frame cfg now q :
  let q' := update_curr cfg now q in
  tasks_timeline q' = tasks_timeline q /\ same_curr q q' /\ same_counts q q' /\ (sums_ok q -> sums_ok q').
Proof.
  unfold update_curr, same_curr. destruct (curr q) as [c|] eqn:Ec; [|by rewrite Ec].
  destruct (_ <=? 0); [rewrite Ec; frame|].
  destruct (calc_delta_fair _ _) as [d lw] eqn:E. apply calc_delta_keeps in E. simpl in E.
  destruct (update_deadline cfg q _) as [q1 c1] eqn:Ed.
  destruct (update_deadline_frame _ _ _ _ _ Ed) as (A1 & A2 & A3 & A4 & A5 & A6 & A7).
  destruct (update_min_vruntime_frame (set_curr q1 (Some c1))) as (B1 & B2 & B3 & B4).
  rewrite B1, B2. simpl in *. assert (B5 : sums_ok q1 -> sums_ok (update_min_vruntime (set_curr q1 (Some c1)))) by done.
  clear B4. frame.
Qed.

Lemma entities_same q q' : tasks_timeline q' = tasks_timeline q -> same_curr q q' ->
  Forall2 same_ent (entities q) (entities q').
Proof.
  intros E H. unfold entities, queued. rewrite E. apply Forall2_app.
  - generalize (inorder (rb_root (tasks_timeline q))). induction l; constructor; by try split_and!.
  - unfold running, same_curr in *. destruct (curr q) as [c|], (curr q') as [c'|]; try done.
    destruct H as (H1 & H2 & H3 & H4). rewrite H2. destruct (on_rq c) eqn:Eo; [|done].
    constructor; [|done]. split_and!; congruence.
Qed.

Lemma cfs_ok_frame q q' : tasks_timeline q' = tasks_timeline q -> same_curr q q' -> same_counts q q' ->
  (sums_ok q -> sums_ok q') -> cfs_ok q -> cfs_ok q'.
Proof.
  intros E C N S [T I K]. split.
  - apply (tree_ok_frame q); [done|apply S, T|done].
  - intros c' Hc. unfold same_curr in C. rewrite Hc in C. destruct (curr q) as [c|] eqn:Ec; [|done].
    destruct C as (-> & _). unfold queued. rewrite E. by apply I.
  - eapply counts_ok_same; [by apply entities_same|done|done].
Qed.

Lemma update_curr_ok cfg now q : cfs_ok q -> cfs_ok (update_curr cfg now q).
Proof. destruct (update_curr_frame cfg now q) as (A1 & A2 & A3 & A4). by apply cfs_ok_frame. Qed.

Lemma same_curr_refl q q' : curr q' = curr q -> same_curr q q'.
Proof. unfold same_curr. intros ->. destruct (curr q); frame. Qed.

Lemma update_min_vruntime_ok q : cfs_ok q -> cfs_ok (update_min_vruntime q).
Proof.
  destruct (update_min_vruntime_frame q) as (A1 & A2 & A3 & A4). apply cfs_ok_frame; try done.
  by apply same_curr_refl.
Qed.

Lemma clear_buddies_ok q se : cfs_ok q -> cfs_ok (clear_buddies q se).
Proof.
  destruct (clear_buddies_frame q se) as (A1 & A2 & A3 & A4 & A5). apply cfs_ok_frame; try done.
  by apply same_curr_refl.
Qed.

(** ** The tree *)

Lemma timeline_rebase b b' q : timeline_ok b q -> Forall (ok b') (queued q) -> timeline_ok b' q.
Proof. intros [B W S _ L] O. by split. Qed.

Lemma wsum_min q q' l : min_vruntime q' = min_vruntime q -> wsum q' l = wsum q l.
Proof. intros E. unfold wsum, entity_key. by rewrite E. Qed.

(** The sums when the contribution of an entity is added or removed. *)
Lemma sums_add q q' x :
  sums_ok q -> min_vruntime q' = min_vruntime q -> queued q' ≡ₚ x :: queued q ->
  avg_load q' = u64 (avg_load q + se_weight x) ->
  avg_vruntime_sum q' = s64 (avg_vruntime_sum q + entity_key q x * se_weight x) -> sums_ok q'.
Proof.
  intros [S1 S2] Em P E1 E2. unfold sums_ok. rewrite E1, E2, S1, S2, (wsum_min q q') by done.
  unfold lsum, wsum. rewrite !(zsum_perm _ _ _ P). unfold zsum. simpl.
  fold (zsum se_weight (queued q)). fold (zsum (fun e => entity_key q e * se_weight e) (queued q)).
  rewrite u64_add_l. split; [f_equal; lia|].
  destruct (s64_cong (zsum (fun e => entity_key q e * se_weight e) (queued q))) as [k ->].
  apply (s64_ext _ _ k). lia.
Qed.

Lemma sums_sub q q' x :
  sums_ok q -> min_vruntime q' = min_vruntime q -> queued q ≡ₚ x :: queued q' ->
  avg_load q' = u64 (avg_load q - se_weight x) ->
  avg_vruntime_sum q' = s64 (avg_vruntime_sum q - entity_key q x * se_weight x) -> sums_ok q'.
Proof.
  intros [S1 S2] Em P E1 E2. unfold sums_ok. rewrite E1, E2, S1, S2, (wsum_min q q') by done.
  unfold lsum, wsum. rewrite !(zsum_perm _ _ _ P). unfold zsum. simpl.
  rewrite u64_sub_l. split; [f_equal; lia|].
  match goal with |- s64 (s64 ?a - _) = _ => destruct (s64_cong a) as [k ->] end.
  apply (s64_ext _ _ k). lia.
Qed.

Lemma enqueue_tree q se q' :
  tree_ok q -> se_id se ∉ map se_id (queued q) -> on_rq se = true ->
  __enqueue_entity q se = Some q' -> windowed q' ->
  tree_ok q' /\ queued q' ≡ₚ se :: queued q /\ curr q' = curr q /\ same_counts q q' /\
  min_vruntime q' = min_vruntime q.
Proof.
  intros [[b0 T] I O S] Hi Ho H [b W]. unfold __enqueue_entity in H.
  apply bind_Some in H as (t & Ht & [= <-]). simpl in Ht.
  pose proof (rb_add_perm (ok := ok b) (agg := agg) _ _ _ _ _ Ht) as P.
  change (inorder (rb_root t)) with (queued (set_timeline (avg_vruntime_add q se) t)) in P.
  set (q' := set_timeline (avg_vruntime_add q se) t) in *.
  change (inorder (rb_root (tasks_timeline q))) with (queued q) in P.
  pose proof W as W'. rewrite P in W'. apply Forall_cons_iff in W' as [Wse Wq].
  destruct (rb_add_ok (ok := ok b) (agg := agg) __entity_less (less_asym b) (less_trans b) se (deadline se)
    (tasks_timeline q)) as (t' & Ht' & R & _).
  { by apply (timeline_rebase b0). }
  { done. }
  { done. }
  rewrite Ht in Ht'. injection Ht' as <-.
  split; [|split; [exact P|frame]]. split.
  - by exists b.
  - rewrite P. simpl. by apply list.NoDup_cons.
  - rewrite P. by constructor.
  - by apply (sums_add q q' se).
Qed.

Lemma enqueue_tree_total q se : tree_ok q -> is_Some (__enqueue_entity q se).
Proof.
  intros [[b [B _ _ _ _]] _ _ _]. unfold __enqueue_entity.
  destruct (rb_add_total (agg := agg) __entity_less se (deadline se) (tasks_timeline q) B) as (t & Ht & _).
  unfold avg_vruntime_add. simpl. rewrite Ht. by eexists.
Qed.

Lemma unique_ids i l pre x post : NoDup (map se_id l) -> l = pre ++ x :: post -> se_id x = i ->
  Forall (fun y => is_se i y = false) (pre ++ post).
Proof.
  intros N -> Hi. destruct (remove_split se_id i (pre ++ x :: post) N) as (pre' & x' & post' & E & Ex & _ & F).
  { rewrite map_app. apply elem_of_app. right. simpl. rewrite Hi. by left. }
  destruct (unique_split (is_se i) pre x post pre' x' post' E) as (-> & -> & ->); try done;
    by apply Z.eqb_eq.
Qed.

Lemma dequeue_tree q se x :
  tree_ok q -> x ∈ queued q -> se_id x = se_id se -> vruntime x = vruntime se ->
  weight (se_load x) = weight (se_load se) ->
  exists q', __dequeue_entity q se = Some q' /\ tree_ok q' /\ queued q ≡ₚ x :: queued q' /\
    curr q' = curr q /\ same_counts q q' /\ min_vruntime q' = min_vruntime q.
Proof.
  intros [[b T] I O S] Hx Hi Hv Hw. apply list_elem_of_split in Hx as (pre & post & E).
  pose proof (unique_ids (se_id se) _ pre x post I E Hi) as F. unfold __dequeue_entity.
  destruct (rb_erase_ok (ok := ok b) (agg := agg) __entity_less (is_se (se_id se)) (tasks_timeline q) pre x post T E)
    as (t & -> & R & Et); [by apply Z.eqb_eq|done|]. simpl.
  set (q' := avg_vruntime_sub (set_timeline q t) se). exists q'. split; [done|].
  assert (P : queued q ≡ₚ x :: queued q').
  { rewrite E. change (queued q') with (inorder (rb_root t)). rewrite Et. by rewrite Permutation_middle. }
  split; [|split; [done|frame]]. split.
  - by exists b.
  - rewrite P in I. simpl in I. by apply list.NoDup_cons in I as [_ I].
  - rewrite P in O. by apply Forall_cons_iff in O as [_ O].
  - apply (sums_sub q q' x); try done; simpl; unfold se_weight, entity_key; rewrite Hw, ?Hv; done.
Qed.

(** ** Reweighting keeps the invariant *)

Lemma counts_replace q q' l l' x y r :
  counts_ok q l -> l ≡ₚ x :: r -> l' ≡ₚ y :: r -> se_idle y = se_idle x ->
  weight (load q') = u64 (u64 (weight (load q) - weight (se_load x)) + weight (se_load y)) ->
  nr_running q' = nr_running q -> idle_nr_running q' = idle_nr_running q -> counts_ok q' l'.
Proof.
  intros (H1 & H2 & H3) P P' Ei El En Eidle. unfold counts_ok. rewrite El, En, Eidle, H1, H2, H3.
  rewrite !(zsum_perm _ _ _ P), !(zsum_perm _ _ _ P'), P, P'. unfold zsum. simpl. rewrite Ei.
  rewrite u64_sub_l, u64_add_l. split; [f_equal; lia|done].
Qed.

Lemma sums_replace q q' pre x y post :
  sums_ok q -> min_vruntime q' = min_vruntime q -> vruntime y = vruntime x ->
  queued q = pre ++ x :: post -> queued q' = pre ++ y :: post ->
  avg_load q' = u64 (u64 (avg_load q - se_weight x) + se_weight y) ->
  avg_vruntime_sum q' = s64 (s64 (avg_vruntime_sum q - entity_key q x * se_weight x) + entity_key q x * se_weight y) ->
  sums_ok q'.
Proof.
  intros [S1 S2] Em Ev E E' E1 E2. unfold sums_ok. rewrite E1, E2, S1, S2, (wsum_min q q'), E, E' by done.
  unfold lsum, wsum. rewrite !zsum_app. unfold zsum. simpl. unfold entity_key. rewrite Ev.
  rewrite u64_sub_l, u64_add_l. split; [f_equal; lia|].
  match goal with |- s64 (s64 (s64 ?a - ?c) + _) = _ =>
    destruct (s64_cong (s64 a - c)) as [j ->]; destruct (s64_cong a) as [k ->] end.
  apply (s64_ext _ _ (j + k)). lia.
Qed.

(** Sortedness looks at virtual runtimes only. *)
Lemma sorted_replace pre x y post : vruntime y = vruntime x ->
  sorted __entity_less (pre ++ x :: post) -> sorted __entity_less (pre ++ y :: post).
Proof.
  intros E. rewrite !sorted_app. simpl. unfold __entity_less, entity_before. rewrite E.
  intros (H1 & H2 & H3). split_and!; try tauto. eapply Forall_impl; [|exact H3]. simpl.
  intros a Ha. rewrite Forall_cons_iff in *. by rewrite E.
Qed.

Definition window2 (q q' : cfs_rq) : Prop := exists b, Forall (ok b) (queued q) /\ Forall (ok b) (queued q').

Lemma rescale_same se old w se' : rescale se old w = Some se' ->
  same_ent se' se /\ vruntime se' = vruntime se.
Proof.
  unfold rescale. destruct (on_rq se) eqn:E; simpl; intros (d & _ & [= <-])%bind_Some; frame.
Qed.

Lemma perm_middle_cons {A} (pre : list A) x post : pre ++ x :: post ≡ₚ x :: (pre ++ post).
Proof. by rewrite Permutation_middle. Qed.

(** An entity in the tree. *)
Lemma reweight_queued q se old w se1 q1 t :
  cfs_ok q -> se ∈ queued q -> is_curr q se = false ->
  q1 = set_counts (avg_vruntime_sub q se) (update_load_sub (load q) (weight (se_load se)))
         (nr_running q) (idle_nr_running q) ->
  rescale (set_load se (update_load_set w)) old w = Some se1 ->
  rb_update (is_se (se_id se1)) (fun _ => se1) (tasks_timeline q1) = Some t ->
  let q2 := set_timeline q1 t in
  let q' := avg_vruntime_add (set_counts q2 (update_load_add (load q2) (weight (se_load se1)))
              (nr_running q2) (idle_nr_running q2)) se1 in
  window2 q q' -> cfs_ok q' /\ curr q' = curr q /\ se1 ∈ queued q'.
Proof.
  intros [[[b0 T] I O S] C N] Hin Hc -> Hr Ht q2 q' (b & Wq & Wq').
  destruct (rescale_same _ _ _ _ Hr) as [(E1 & E2 & E3 & E4) Ev]. simpl in *.
  apply list_elem_of_split in Hin as (pre & post & E).
  pose proof (unique_ids (se_id se) _ pre se post I E eq_refl) as F. rewrite E1 in Ht.
  assert (U : Forall (ok b) (pre ++ se1 :: post) /\ queued q' = pre ++ se1 :: post /\ timeline_ok b q').
  { destruct (rb_update_contents (agg := agg) _ _ _ _ Ht) as (p' & x' & r' & X1 & X2 & X3).
    simpl in X1. unfold queued in E. rewrite E in X1.
    destruct (unique_split (is_se (se_id se)) p' x' r' pre se post (eq_sym X1) X2) as (-> & -> & ->);
      [by apply Z.eqb_refl|done|].
    change (inorder (rb_root t)) with (queued q') in X3. rewrite X3 in Wq'. split; [done|]. split; [done|].
    destruct (rb_update_ok (ok := ok b) (agg := agg) __entity_less (is_se (se_id se)) (fun _ => se1) (tasks_timeline q)
      pre se post) as (t' & Ht' & R & _); try done.
    - by apply (timeline_rebase b0).
    - rewrite Forall_elem in Wq'. apply Wq', elem_of_app. right. by left.
    - apply (sorted_replace _ se); [done|]. destruct T as [_ _ So _ _]. by rewrite <- E.
    - rewrite Ht in Ht'. injection Ht' as <-. done. }
  destruct U as (_ & Eq' & Tq'). split; [|split; [done|rewrite Eq'; apply elem_of_app; right; by left]]. split.
  - split; [by exists b| | |].
    + rewrite Eq'. rewrite E in I. rewrite !map_app in *. simpl in *. by rewrite E1.
    + rewrite Eq'. rewrite E in O. rewrite Forall_app, Forall_cons_iff in *. rewrite E2. tauto.
    + apply (sums_replace q q' pre se se1 post); try done. simpl. unfold entity_key. simpl. by rewrite Ev.
  - intros c Hcc. simpl in Hcc. rewrite Eq', map_app. simpl. rewrite E1.
    specialize (C c Hcc). by rewrite E, map_app in C.
  - apply (counts_replace q q' (entities q) (entities q') se se1 (pre ++ post ++ running q)); try done.
    + unfold entities. rewrite E, <- app_assoc. apply perm_middle_cons.
    + unfold entities. rewrite Eq', <- app_assoc. apply perm_middle_cons.
Qed.

Lemma is_curr_true q se : is_curr q se = true -> exists c, curr q = Some c /\ se_id c = se_id se /\ deref q se = c.
Proof.
  unfold is_curr, deref. destruct (curr q) as [c|]; [|done]. intros E. rewrite E.
  apply Z.eqb_eq in E. by exists c.
Qed.

Lemma is_curr_false q se : is_curr q se = false -> deref q se = se.
Proof. unfold is_curr, deref. destruct (curr q) as [c|]; [|done]. by intros ->. Qed.

Lemma is_curr_eq q c se : curr q = Some c -> se_id c = se_id se -> is_curr q se = true /\ deref q se = c.
Proof. unfold is_curr, deref. intros -> ->. by rewrite Z.eqb_refl. Qed.

(** The running entity replaced by one with another weight. *)
Lemma replace_curr q q' c c' :
  cfs_ok q -> curr q = Some c -> curr q' = Some c' -> se_id c' = se_id c -> on_rq c' = on_rq c ->
  se_idle c' = se_idle c -> tasks_timeline q' = tasks_timeline q -> (sums_ok q -> sums_ok q') ->
  nr_running q' = nr_running q -> idle_nr_running q' = idle_nr_running q ->
  (if on_rq c
   then weight (load q') = u64 (u64 (weight (load q) - weight (se_load c)) + weight (se_load c'))
   else load q' = load q) ->
  cfs_ok q'.
Proof.
  intros [T C N] Hc Hc' E1 E2 E3 Et Hs En Ei El.
  assert (Eq : queued q' = queued q) by (unfold queued; by rewrite Et). split.
  - apply (tree_ok_frame q); [done|apply Hs, T|done].
  - intros x Hx. rewrite Hc' in Hx. injection Hx as <-. rewrite E1, Eq. by apply C.
  - unfold entities, running in *. rewrite Hc, Hc', E2, Eq in *. destruct (on_rq c).
    + apply (counts_replace q q' (queued q ++ [c]) (queued q ++ [c']) c c' (queued q)); try done;
        by rewrite Permutation_app_comm.
    + eapply counts_ok_perm; [reflexivity| |exact N]. by split_and!.
Qed.

Lemma reweight_curr cfg now q se w q' se' :
  cfs_ok q -> is_curr q se = true -> reweight_entity cfg now q se w = Some (q', se') ->
  cfs_ok q' /\ curr q' = Some se' /\ se_id se' = se_id se /\ on_rq se' = on_rq (deref q se) /\
  tasks_timeline q' = tasks_timeline q.
Proof.
  intros Q Hc H. destruct (is_curr_true q se Hc) as (c & Ec & Ei & Ed). unfold reweight_entity in H.
  rewrite Ed in *. destruct (is_curr_eq q c c Ec eq_refl) as [E1 _]. rewrite E1 in H. clear Hc E1.
  set (q1 := if on_rq c then update_curr cfg now q else q) in H.
  assert (A : cfs_ok q1 /\ tasks_timeline q1 = tasks_timeline q /\ exists c1, curr q1 = Some c1 /\ same_ent c1 c).
  { unfold q1. destruct (on_rq c); [|split_and!; try done; exists c; frame].
    destruct (update_curr_frame cfg now q) as (A1 & A2 & _). split; [by apply update_curr_ok|]. split; [done|].
    unfold same_curr in A2. rewrite Ec in A2. destruct (curr (update_curr cfg now q)) as [c1|]; [by exists c1|done]. }
  clearbody q1. destruct A as (Q1 & A1 & c1 & Ec1 & S1). pose proof S1 as (I1 & I2 & I3 & I4).
  destruct (is_curr_eq q1 c1 c Ec1 I1) as [_ Ed1]. rewrite Ed1, I2 in H.
  apply bind_Some in H as (se1 & Hr & H). simpl in H.
  destruct (rescale_same _ _ _ _ Hr) as [(R1 & R2 & R3 & R4) Rv]. simpl in *.
  rewrite R2, I2 in H. destruct (on_rq c) eqn:Eo; injection H as <- <-; (split; [|simpl; split_and!; congruence]).
  - apply (replace_curr q1 _ c1 se1); try done; try congruence. by rewrite I2.
  - apply (replace_curr q1 _ c1 se1); try done; try congruence. by rewrite I2.
Qed.

Definition off_queue (q : cfs_rq) (se : sched_entity) : Prop :=
  is_curr q se = false /\ on_rq se = false /\ se_id se ∉ map se_id (queued q).

Lemma reweight_off cfg now q se w q' se' :
  off_queue q se -> reweight_entity cfg now q se w = Some (q', se') ->
  q' = q /\ se_id se' = se_id se /\ on_rq se' = false.
Proof.
  intros (L & Lo & Lin) H. unfold reweight_entity in H. rewrite (is_curr_false q se L), L, Lo in H. simpl in H.
  rewrite (is_curr_false q se L), Lo in H. apply bind_Some in H as (se1 & Hr & H).
  destruct (rescale_same _ _ _ _ Hr) as [(R1 & R2 & R3 & R4) Rv]. simpl in R1, R2. rewrite R2, Lo in H. simpl in H.
  injection H as <- <-. split_and!; congruence.
Qed.

Lemma reweight_ok cfg now q se w q' se' :
  cfs_ok q -> is_curr q se = true \/ is_curr q se = false /\ on_rq se = true /\ se ∈ queued q \/ off_queue q se ->
  reweight_entity cfg now q se w = Some (q', se') -> window2 q q' -> cfs_ok q'.
Proof.
  intros Q [L|[(L & Lo & Lin)|L]] H W.
  - by destruct (reweight_curr cfg now q se w q' se' Q L H).
  - unfold reweight_entity in H. rewrite (is_curr_false q se L), L, Lo in H. simpl in H.
    assert (D : deref (avg_vruntime_sub q se) se = se) by by apply is_curr_false.
    rewrite D, Lo in H. apply bind_Some in H as (se1 & Hr & H).
    destruct (rescale_same _ _ _ _ Hr) as [(R1 & R2 & R3 & R4) Rv]. simpl in R2. rewrite R2, Lo in H.
    apply bind_Some in H as (q2 & (t & Ht & [= <-])%bind_Some & [= <- <-]).
    by destruct (reweight_queued q se _ w se1 _ t Q Lin L eq_refl Hr Ht W).
  - by destruct (reweight_off cfg now q se w q' se' L H) as [-> _].
Qed.

(** [update_cfs_group] of the running entity or of one that is off the queue. *)
Lemma group_curr cfg now q se g q' se' :
  cfs_ok q -> is_curr q se = true -> update_cfs_group cfg now q se g = Some (q', se') ->
  cfs_ok q' /\ curr q' = Some se' /\ se_id se' = se_id se /\ on_rq se' = on_rq (deref q se) /\
  tasks_timeline q' = tasks_timeline q.
Proof.
  intros Q L H. unfold update_cfs_group in H. destruct (is_curr_true q se L) as (c & Ec & Ei & Ed).
  destruct g as [g|]; [destruct (g_throttled g)|].
  - injection H as <- <-. by rewrite Ed.
  - exact (reweight_curr cfg now q se _ q' se' Q L H).
  - injection H as <- <-. by rewrite Ed.
Qed.

Lemma group_off cfg now q se g q' se' :
  off_queue q se -> update_cfs_group cfg now q se g = Some (q', se') ->
  q' = q /\ se_id se' = se_id se /\ on_rq se' = false.
Proof.
  intros L H. unfold update_cfs_group in H. pose proof L as (Lc & Lo & _).
  destruct g as [g|]; [destruct (g_throttled g)|].
  - injection H as <- <-. by rewrite (is_curr_false q se Lc).
  - exact (reweight_off cfg now q se _ q' se' L H).
  - injection H as <- <-. by rewrite (is_curr_false q se Lc).
Qed.

(** ** Joining the queue keeps the invariant *)

Lemma place_same cfg q se flags se' : place_entity cfg q se flags = Some se' -> same_ent se' se.
Proof.
  unfold place_entity. intros (v & _ & H)%bind_Some.
  destruct (calc_delta_fair _ _) as [d lw] eqn:E. apply calc_delta_keeps in E. simpl in E.
  apply bind_Some in H as (lag & _ & [= <-]). frame.
Qed.

Lemma counts_add q q' l l' x :
  counts_ok q l -> l' ≡ₚ x :: l -> same_counts (account_entity_enqueue q x) q' -> counts_ok q' l'.
Proof.
  intros (H1 & H2 & H3) P (E1 & E2 & E3). unfold counts_ok. rewrite E1, E2, E3. simpl. rewrite H1, H2, H3.
  rewrite !(zsum_perm _ _ _ P), P. unfold zsum. cbn [length foldr]. rewrite u64_add_l. split; [f_equal; lia|].
  rewrite Nat2Z.inj_succ. unfold u32. split; [rewrite Zplus_mod_idemp_l; f_equal; lia|].
  destruct (se_idle x); simpl; [rewrite Zplus_mod_idemp_l; f_equal; lia|done].
Qed.

Lemma counts_del q q' l l' x :
  counts_ok q l -> l ≡ₚ x :: l' -> same_counts (account_entity_dequeue q x) q' -> counts_ok q' l'.
Proof.
  intros (H1 & H2 & H3) P (E1 & E2 & E3). unfold counts_ok. rewrite E1, E2, E3. simpl. rewrite H1, H2, H3.
  rewrite !(zsum_perm _ _ _ P), P. unfold zsum. cbn [length foldr]. rewrite u64_sub_l. split; [f_equal; lia|].
  rewrite Nat2Z.inj_succ. unfold u32. split; [rewrite Zminus_mod_idemp_l; f_equal; lia|].
  destruct (se_idle x); simpl; [rewrite Zminus_mod_idemp_l; f_equal; lia|done].
Qed.

Lemma same_curr_is q q' se : same_curr q q' -> is_curr q' se = is_curr q se.
Proof.
  unfold same_curr, is_curr. destruct (curr q), (curr q'); try done. by intros (-> & _).
Qed.

(** A new entity goes into the tree. *)
Lemma join_tree q se q' :
  cfs_ok q -> is_curr q se = false -> se_id se ∉ map se_id (queued q) -> on_rq se = true ->
  __enqueue_entity (account_entity_enqueue q se) se = Some q' -> windowed q' ->
  cfs_ok q' /\ entities q' ≡ₚ se :: entities q.
Proof.
  intros [T C N] L Hi Ho H W. destruct (enqueue_tree (account_entity_enqueue q se) se q') as (T' & P & Ec & Es & Em);
    [by apply (tree_ok_frame q); [|apply T|]|done|done|done|done|].
  change (queued (account_entity_enqueue q se)) with (queued q) in P.
  change (curr (account_entity_enqueue q se)) with (curr q) in Ec.
  assert (PE : entities q' ≡ₚ se :: entities q).
  { unfold entities, running. rewrite Ec, P. done. }
  split; [|done]. split; [done| |by eapply counts_add].
  intros c Hc. rewrite Ec in Hc. rewrite P. simpl. rewrite not_elem_of_cons. split; [|by apply C].
  unfold is_curr in L. rewrite Hc in L. by apply Z.eqb_neq in L.
Qed.

(** The running entity becomes runnable again. *)
Lemma join_curr q c c' :
  cfs_ok q -> curr q = Some c -> on_rq c = false -> se_id c' = se_id c -> on_rq c' = true ->
  cfs_ok (set_curr (account_entity_enqueue q c') (Some c')).
Proof.
  intros [T C N] Hc Ho Ei Ho'. split.
  - by apply (tree_ok_frame q); [|apply T|].
  - intros x [= <-]. rewrite Ei. by apply C.
  - eapply counts_add; [exact N| |done]. unfold entities, running. simpl. rewrite Hc, Ho, Ho'.
    rewrite app_nil_r. by rewrite Permutation_app_comm.
Qed.

(** An entity that may be enqueued: off the queue, or the running one after it left. *)
Definition enqueue_pre (q : cfs_rq) (se : sched_entity) : Prop :=
  if is_curr q se then on_rq (deref q se) = false else off_queue q se.

(** The entity as it ends up on the queue. *)
Definition enqueued (flags : Z) (se : sched_entity) : sched_entity :=
  set_on_rq (if has flags ENQUEUE_MIGRATED then set_exec se 0 (sum_exec_runtime se) (prev_sum_exec_runtime se) else se) true.

Lemma enqueued_account q flags se : account_entity_enqueue q (enqueued flags se) = account_entity_enqueue q se.
Proof. unfold enqueued. by destruct (has _ _). Qed.

Lemma enqueued_id flags se : se_id (enqueued flags se) = se_id se.
Proof. unfold enqueued. by destruct (has _ _). Qed.

Lemma off_queue_frame q q' se : tasks_timeline q' = tasks_timeline q -> same_curr q q' -> off_queue q se -> off_queue q' se.
Proof.
  intros E C (L & Lo & Li). split; [by rewrite (same_curr_is q q')|]. split; [done|]. unfold queued. by rewrite E.
Qed.

Lemma enqueue_entity_ok cfg now q se flags g q' :
  cfs_ok q -> enqueue_pre q se -> enqueue_entity cfg now q se flags g = Some q' -> windowed q' -> cfs_ok q'.
Proof.
  intros Q Pre H W. unfold enqueue_entity, enqueue_pre in *. destruct (is_curr q se) eqn:L; simpl negb in H; cbv iota in H.
  - destruct (is_curr_true q se L) as (c & Ec & Ei & Ed). rewrite Ed in *.
    apply bind_Some in H as (q0 & (c0 & Hp & [= <-])%bind_Some & H). apply place_same in Hp as (P1 & P2 & P3 & P4).
    assert (Q0 : cfs_ok (set_curr q (Some c0))).
    { apply (replace_curr q _ c c0); try done; try congruence. by rewrite Pre. }
    destruct (update_curr_frame cfg now (set_curr q (Some c0))) as (A1 & A2 & _).
    apply (update_curr_ok cfg now) in Q0. set (q1 := update_curr cfg now (set_curr q (Some c0))) in *. clearbody q1.
    unfold same_curr in A2. simpl in A2. destruct (curr q1) as [c1|] eqn:Ec1; [|done]. destruct A2 as (S1 & S2 & _).
    destruct (is_curr_eq q1 c1 se Ec1) as [L1 D1]; [congruence|].
    apply bind_Some in H as ([q2 se2] & Hg & H). simpl in H. injection H as <-.
    destruct (group_curr cfg now q1 se g q2 se2 Q0 L1 Hg) as (Q2 & Ec2 & Ei2 & Eo2 & _).
    fold (enqueued flags se2). rewrite <- (enqueued_account q2 flags se2).
    apply (join_curr q2 se2); try done; try congruence; apply enqueued_id.
  - simpl in H. destruct (update_curr_frame cfg now q) as (A1 & A2 & _).
    apply (update_curr_ok cfg now) in Q. pose proof (off_queue_frame _ _ se A1 A2 Pre) as Pre1.
    set (q1 := update_curr cfg now q) in *. clearbody q1.
    apply bind_Some in H as ([q2 se2] & Hg & (se3 & Hp & H)%bind_Some).
    destruct (group_off cfg now q1 se g q2 se2 Pre1 Hg) as (-> & Ei2 & Eo2).
    apply place_same in Hp as (P1 & P2 & P3 & P4). fold (enqueued flags se3) in H.
    rewrite <- (enqueued_account q1 flags se3) in H. destruct Pre1 as (L1 & _ & Li1).
    destruct (join_tree q1 (enqueued flags se3) q') as [? _]; try done.
    + unfold is_curr in *. rewrite enqueued_id, P1, Ei2. done.
    + by rewrite enqueued_id, P1, Ei2.
Qed.

(** ** Leaving the queue keeps the invariant *)

Lemma find_entity_spec q i se : cfs_ok q -> find_entity q i = Some se ->
  se_id se = i /\ (curr q = Some se \/ is_curr q se = false /\ se ∈ queued q).
Proof.
  intros Q. assert (G : (exists z, locate (is_se i) (rb_root (tasks_timeline q)) [] = Some z /\
      (let '(_, _, x, _, _, _) := z in Some x) = Some se) ->
    se_id se = i /\ se ∈ queued q).
  { intros ([[[[[c l] x] m] r] k] & Hl & [= ->]).
    destruct (locate_list (agg := agg) _ _ _ _ _ _ _ _ Hl) as (P & pre & post & E & _).
    split; [by apply Z.eqb_eq in P|]. unfold queued. rewrite E. apply elem_of_app. right. by left. }
  unfold find_entity. destruct (curr q) as [c|] eqn:Ec; [destruct (Z.eqb_spec (se_id c) i) as [E|E]|].
  - intros [= ->]. split; [done|]. by left.
  - intros H%bind_Some. destruct (G H) as [Hi Hin]. split; [done|]. right. split; [|done].
    unfold is_curr. rewrite Ec, Hi. by apply Z.eqb_neq.
  - intros H%bind_Some. destruct (G H) as [Hi Hin]. split; [done|]. right. split; [|done].
    unfold is_curr. by rewrite Ec.
Qed.

Lemma find_entity_total q i : i ∈ map se_id (queued q ++ opt_list (curr q)) -> is_Some (find_entity q i).
Proof.
  intros H. assert (G : i ∈ map se_id (queued q) -> exists z, locate (is_se i) (rb_root (tasks_timeline q)) [] = Some z).
  { intros (x & -> & Hx)%list_elem_of_fmap. apply (locate_some (is_se (se_id x)) _ [] x Hx). apply Z.eqb_refl. }
  rewrite map_app in H. apply elem_of_app in H. unfold find_entity.
  destruct (curr q) as [c|]; simpl in H.
  - destruct (Z.eqb_spec (se_id c) i) as [E|E]; [by eexists|].
    destruct H as [H|H]; [|by apply list_elem_of_singleton in H; subst].
    destruct (G H) as ([[[[[x1 x2] x3] x4] x5] x6] & ->). by eexists.
  - destruct H as [H|H]; [|by apply not_elem_of_nil in H].
    destruct (G H) as ([[[[[x1 x2] x3] x4] x5] x6] & ->). by eexists.
Qed.

Lemma update_lag_same cfg q se se' : update_entity_lag cfg q se = Some se' ->
  same_ent se' se /\ vruntime se' = vruntime se /\ deadline se' = deadline se.
Proof.
  unfold update_entity_lag. intros (v & _ & H)%bind_Some.
  destruct (calc_delta_fair _ _) as [d lw] eqn:E. apply calc_delta_keeps in E. injection H as <-. frame.
Qed.

(** The running entity stops being runnable. *)
Lemma leave_curr q c c' :
  cfs_ok q -> curr q = Some c -> on_rq c = true -> same_ent c' (set_on_rq c false) ->
  cfs_ok (account_entity_dequeue (set_curr q (Some c')) c').
Proof.
  intros [T C N] Hc Ho (E1 & E2 & E3 & E4). simpl in *. split.
  - by apply (tree_ok_frame q); [|apply T|].
  - intros x [= <-]. rewrite E1. by apply C.
  - apply (counts_del q _ (entities q) _ c); [done| |unfold same_counts; simpl; by rewrite E3, E4].
    unfold entities, running. simpl. rewrite Hc, Ho, E2, app_nil_r. by rewrite Permutation_app_comm.
Qed.

(** A queued entity leaves the tree. *)
Lemma leave_tree q x se :
  cfs_ok q -> is_curr q x = false -> x ∈ queued q -> same_ent se x -> vruntime se = vruntime x ->
  exists q', __dequeue_entity q se = Some q' /\ curr q' = curr q /\ same_counts q q' /\ tree_ok q' /\
    queued q ≡ₚ x :: queued q' /\ se_id x ∉ map se_id (queued q') /\
    cfs_ok (account_entity_dequeue q' (set_on_rq se false)).
Proof.
  intros [T C N] L Hx (E1 & E2 & E3 & E4) Ev.
  destruct (dequeue_tree q se x T Hx) as (q' & H & T' & P & Ec & Es & Em); try done.
  assert (Hid : se_id x ∉ map se_id (queued q')).
  { destruct T as [_ I _ _]. rewrite P in I. simpl in I. by apply list.NoDup_cons in I as [I _]. }
  exists q'. split_and!; try done. split.
  - by apply (tree_ok_frame q'); [|apply T'|].
  - intros c Hc. simpl in Hc. rewrite Ec in Hc. specialize (C c Hc). rewrite P in C. simpl in C.
    by apply not_elem_of_cons in C as [_ C].
  - apply (counts_del q' _ (entities q) _ x); [|unfold entities, running; simpl; rewrite Ec, P; done|].
    2:{ unfold same_counts. simpl. by rewrite E3, E4. }
    by eapply counts_ok_perm.
Qed.

Lemma dequeue_entity_ok cfg now q i flags g q' se' :
  cfs_ok q -> (forall c, curr q = Some c -> se_id c = i -> on_rq c = true) ->
  dequeue_entity cfg now q i flags g = Some (q', se') -> cfs_ok q' /\ se_id se' = i /\ on_rq se' = false.
Proof.
  intros Q Pre H. unfold dequeue_entity in H.
  destruct (update_curr_frame cfg now q) as (A1 & A2 & _). apply (update_curr_ok cfg now) in Q.
  assert (Pre1 : forall c, curr (update_curr cfg now q) = Some c -> se_id c = i -> on_rq c = true).
  { intros c Hc Hi. unfold same_curr in A2. rewrite Hc in A2. destruct (curr q) as [c0|]; [|done].
    destruct A2 as (X1 & X2 & _). rewrite X2. apply Pre; congruence. }
  set (q1 := update_curr cfg now q) in *. clearbody q1. clear A1 A2 Pre.
  apply bind_Some in H as (se & Hf & H). destruct (find_entity_spec q1 i se Q Hf) as [Hi Hw].
  destruct (clear_buddies_frame q1 se) as (B1 & B2 & _). apply (clear_buddies_ok q1 se) in Q. cbv zeta in B1, B2.
  assert (Hw2 : curr (clear_buddies q1 se) = Some se \/
    is_curr (clear_buddies q1 se) se = false /\ se ∈ queued (clear_buddies q1 se)).
  { unfold is_curr, queued in *. rewrite B1, B2. done. }
  rewrite <- B2 in Pre1. set (q2 := clear_buddies q1 se) in *. clearbody q2. clear B1 B2 Hw Hf.
  apply bind_Some in H as (se1 & Hl & H). destruct (update_lag_same _ _ _ _ Hl) as (Se & Ev & _).
  pose proof Se as (E1 & E2 & E3 & E4).
  assert (Fin : forall q4 se4, cfs_ok q4 -> (q', se') = (if negb (Z.land flags (Z.lor DEQUEUE_SAVE DEQUEUE_MOVE) =? DEQUEUE_SAVE)
    then update_min_vruntime q4 else q4, se4) -> se_id se4 = i -> on_rq se4 = false ->
    cfs_ok q' /\ se_id se' = i /\ on_rq se' = false).
  { intros q4 se4 Q4 [= -> ->] ? ?. split; [|done]. destruct (negb _); [by apply update_min_vruntime_ok|done]. }
  destruct Hw2 as [Hc|[Hc Hin]].
  - destruct (is_curr_eq q2 se se Hc eq_refl) as [L _]. rewrite L in H. simpl in H.
    apply bind_Some in H as ([q4 se4] & Hg & [= <- <-]).
    assert (Q3 : cfs_ok (account_entity_dequeue (set_curr q2 (Some (set_on_rq se1 false))) (set_on_rq se1 false))).
    { apply (leave_curr q2 se); [done|done|by apply Pre1|]. frame. }
    edestruct group_curr as (Q4 & _ & G1 & G2 & _); [exact Q3| |exact Hg|].
    { unfold is_curr. simpl. apply Z.eqb_refl. }
    apply (Fin q4 se4 Q4 eq_refl); [simpl in G1; congruence|]. rewrite G2. unfold deref. simpl. by rewrite Z.eqb_refl.
  - rewrite Hc in H. simpl in H. destruct (leave_tree q2 se se1 Q Hc Hin Se Ev) as (q3 & H3 & Ec & Es & T3 & P3 & I3 & Q3).
    rewrite H3 in H. simpl in H. apply bind_Some in H as ([q4 se4] & Hg & [= <- <-]).
    assert (Off : off_queue (account_entity_dequeue q3 (set_on_rq se1 false)) (set_on_rq se1 false)).
    { split; [|split; [done|]].
      - unfold is_curr in *. simpl. rewrite Ec, E1. done.
      - simpl. rewrite E1. exact I3. }
    destruct (group_off _ _ _ _ _ _ _ Off Hg) as (-> & G1 & G2).
    apply (Fin _ se4 Q3 eq_refl); [simpl in G1; congruence|done].
Qed.

(** ** Switching keeps the invariant *)

Lemma set_next_entity_ok now q se q' :
  cfs_ok q -> curr q = None -> (if on_rq se then se ∈ queued q else off_queue q se) ->
  set_next_entity now q se = Some q' -> cfs_ok q'.
Proof.
  intros Q Hc Hse H. unfold set_next_entity in H.
  destruct (clear_buddies_frame q se) as (B1 & B2 & _). apply (clear_buddies_ok q se) in Q. cbv zeta in B1, B2.
  rewrite Hc in B2. set (q1 := clear_buddies q se) in *. clearbody q1.
  destruct (on_rq se) eqn:Eo.
  - assert (Hin : se ∈ queued q1) by (unfold queued in *; by rewrite B1).
    destruct (leave_tree q1 se se Q) as (q2 & H2 & Ec & Es & T2 & P2 & I2 & _); try done; [unfold is_curr; by rewrite B2|].
    rewrite H2 in H. simpl in H. injection H as <-. destruct Q as [T C N]. split.
    + by apply (tree_ok_frame q2); [|apply T2|].
    + intros c [= <-]. done.
    + apply (counts_ok_same q1 _ (queued q2 ++ [se])).
      * apply Forall2_app; [|unfold running; simpl; rewrite Eo; constructor; [frame|constructor]]. change (queued (set_curr q2 _)) with (queued q2).
        generalize (queued q2). induction l; constructor; by try frame.
      * frame.
      * apply (counts_ok_perm q1 q1 (entities q1)); [|frame|done]. unfold entities, running.
        rewrite B2, app_nil_r, P2. by rewrite Permutation_app_comm.
  - simpl in H. injection H as <-. destruct Q as [T C N]. destruct Hse as (_ & _ & Hi). split.
    + by apply (tree_ok_frame q1); [|apply T|].
    + intros c [= <-]. simpl. unfold queued in *. simpl. by rewrite B1.
    + eapply counts_ok_perm; [|done|exact N]. unfold entities, running. simpl. by rewrite B2, Eo.
Qed.

Lemma put_prev_entity_ok cfg now q q' prev :
  cfs_ok q -> put_prev_entity cfg now q = Some (q', prev) -> windowed q' -> cfs_ok q'.
Proof.
  intros Q H W. unfold put_prev_entity in H. apply bind_Some in H as (c & Hc & H).
  set (q1 := if on_rq c then update_curr cfg now q else q) in H.
  assert (Q1 : cfs_ok q1) by (unfold q1; destruct (on_rq c); [by apply update_curr_ok|done]). clearbody q1. clear Q.
  apply bind_Some in H as (p & Hp & (q2 & H2 & [= <- <-])%bind_Some). destruct Q1 as [T C N].
  destruct (on_rq p) eqn:Eo.
  - destruct (enqueue_tree q1 p q2) as (T2 & P2 & Ec & Es & _); try done; [by apply C|]. split.
    + by apply (tree_ok_frame q2); [|apply T2|].
    + done.
    + eapply counts_ok_perm; [|exact Es|exact N]. unfold entities, running. simpl. rewrite Hp, Eo, app_nil_r.
      change (queued (set_curr q2 None)) with (queued q2). rewrite P2. by rewrite Permutation_app_comm.
  - injection H2 as <-. split.
    + by apply (tree_ok_frame q1); [|apply T|].
    + done.
    + eapply counts_ok_perm; [|done|exact N]. unfold entities, running. simpl. by rewrite Hp, Eo.
Qed.

Lemma resched_ok q : cfs_ok q -> cfs_ok (resched_curr q).
Proof. apply cfs_ok_frame; try done. by apply same_curr_refl. Qed.

Lemma set_next_ok q x : cfs_ok q -> cfs_ok (set_next q x).
Proof. apply cfs_ok_frame; try done. by apply same_curr_refl. Qed.

Lemma entity_tick_ok cfg now q t g q' : cfs_ok q -> entity_tick cfg now q t g = Some q' -> cfs_ok q'.
Proof.
  intros Q H. unfold entity_tick in H. apply bind_Some in H as (c & Hc & ([q1 se1] & Hg & [= <-])%bind_Some).
  destruct (update_curr_frame cfg now q) as (A1 & A2 & _). apply (update_curr_ok cfg now) in Q.
  assert (L : is_curr (update_curr cfg now q) c = true).
  { rewrite (same_curr_is q) by done. unfold is_curr. rewrite Hc. apply Z.eqb_refl. }
  destruct (group_curr _ _ _ _ _ _ _ Q L Hg) as (Q1 & _). destruct t; [by apply resched_ok|done].
Qed.

Lemma set_next_buddy_ok q se : cfs_ok q -> cfs_ok (set_next_buddy q se).
Proof. intros Q. unfold set_next_buddy. repeat case_match; try done. by apply set_next_ok. Qed.

Lemma yield_task_fair_ok cfg now nr q q' : cfs_ok q -> yield_task_fair cfg now nr q = Some q' -> cfs_ok q'.
Proof.
  intros Q H. unfold yield_task_fair in H. destruct (nr =? 1); [by injection H as <-|].
  apply bind_Some in H as (c & Hc & (c1 & Hc1 & H)%bind_Some).
  apply (clear_buddies_ok q c), (update_curr_ok cfg now) in Q. set (q1 := update_curr cfg now _) in *. clearbody q1.
  destruct (calc_delta_fair _ _) as [d lw] eqn:E. apply calc_delta_keeps in E. injection H as <-.
  apply (cfs_ok_frame q1); try done. unfold same_curr. rewrite Hc1. frame.
Qed.

Lemma check_preempt_wakeup_ok cfg now q pse k q' :
  cfs_ok q -> check_preempt_wakeup cfg now q pse k = Some q' -> cfs_ok q'.
Proof.
  intros Q H. unfold check_preempt_wakeup in H. apply bind_Some in H as (c & Hc & H).
  destruct (se_id c =? se_id pse) eqn:E1; [by injection H as <-|].
  destruct (woken_throttled k) eqn:E2; [by injection H as <-|].
  set (q1 := if NEXT_BUDDY cfg && negb (wf_fork k) then set_next_buddy q pse else q) in *.
  assert (Q1 : cfs_ok q1) by (unfold q1; destruct (_ && _); [by apply set_next_buddy_ok|done]). clearbody q1.
  destruct (resched q1); [by injection H as <-|].
  destruct (curr_idle k && _); [injection H as <-; by apply resched_ok|].
  destruct (_ || _); [by injection H as <-|].
  destruct (se_idle c && _); [injection H as <-; by apply resched_ok|].
  destruct (negb _); [by injection H as <-|]. apply (update_curr_ok cfg now) in Q1.
  apply bind_Some in H as ([p x] & _ & H). destruct p as [p|]; injection H as <-; [|done].
  destruct (se_id p =? se_id pse); [by apply resched_ok|done].
Qed.

Lemma task_fork_fair_ok cfg now q se q' se' : cfs_ok q -> task_fork_fair cfg now q se = Some (q', se') -> cfs_ok q'.
Proof.
  intros Q H. unfold task_fork_fair in H. apply bind_Some in H as (se1 & _ & [= <- <-]).
  destruct (curr q); [by apply update_curr_ok|done].
Qed.

(** ** Runs *)

Inductive op :=
| Enqueue (now : Z) (se : sched_entity) (flags : Z) (g : option group_in)
| Dequeue (now i flags : Z) (g : option group_in)
| SetNext (now : Z) (se : sched_entity)
| PutPrev (now : Z)
| Tick (now : Z) (queued_tick : bool) (g : option group_in)
| Reweight (now : Z) (se : sched_entity) (w : Z)
| Yield (now nr : Z)
| Wakeup (now : Z) (pse : sched_entity) (k : wakeup)
| Fork (now : Z) (se : sched_entity).

Definition exec (cfg : sched_cfg) (o : op) (q : cfs_rq) : option cfs_rq :=
  match o with
  | Enqueue now se flags g => enqueue_entity cfg now q se flags g
  | Dequeue now i flags g => '(q, _) ← dequeue_entity cfg now q i flags g; Some q
  | SetNext now se => set_next_entity now q se
  | PutPrev now => '(q, _) ← put_prev_entity cfg now q; Some q
  | Tick now t g => entity_tick cfg now q t g
  | Reweight now se w => '(q, _) ← reweight_entity cfg now q se w; Some q
  | Yield now nr => yield_task_fair cfg now nr q
  | Wakeup now pse k => check_preempt_wakeup cfg now q pse k
  | Fork now se => '(q, _) ← task_fork_fair cfg now q se; Some q
  end.

(** What the callers ensure. *)
Definition pre (o : op) (q : cfs_rq) : Prop :=
  match o with
  | Enqueue _ se _ _ => enqueue_pre q se
  | Dequeue _ i _ _ => i ∈ map se_id (entities q)
  | SetNext _ se => curr q = None /\ (if on_rq se then se ∈ queued q else off_queue q se)
  | PutPrev _ | Tick _ _ _ | Yield _ _ | Wakeup _ _ _ => curr q <> None
  | Reweight _ se w =>
    (is_curr q se = true \/ is_curr q se = false /\ on_rq se = true /\ se ∈ queued q \/ off_queue q se) /\
    0 < w < two31
  | Fork _ _ => True
  end.

(** [init_cfs_rq] *)
Definition init_cfs_rq : cfs_rq :=
  mk_cfs (mk_load 0 0) 0 0 0 0 (u64 (- (Z.shiftl 1 20))) RB_ROOT_CACHED None None false.

(** The queues that operations reach, as long as the virtual times on the queue lie
    within a window before and after each of them. *)
Inductive reachable (cfg : sched_cfg) : cfs_rq -> Prop :=
| reach_init : reachable cfg init_cfs_rq
| reach_step q o q' : reachable cfg q -> pre o q -> exec cfg o q = Some q' -> window2 q q' -> reachable cfg q'.

Lemma exec_keeps cfg o q q' : cfs_ok q -> pre o q -> exec cfg o q = Some q' -> window2 q q' -> cfs_ok q'.
Proof.
  intros Q P H W. assert (W' : windowed q') by (destruct W as (b & _ & W); by exists b).
  destruct o; simpl in *.
  - by eapply enqueue_entity_ok.
  - apply bind_Some in H as ([q1 se1] & H & [= <-]).
    eapply dequeue_entity_ok in H; [by destruct H|done|]. intros c Hc Hi.
    unfold entities, running in P. rewrite Hc in P. destruct (on_rq c); [done|]. rewrite app_nil_r, <- Hi in P.
    by destruct (co_curr q Q c Hc).
  - destruct P. by eapply set_next_entity_ok.
  - apply bind_Some in H as ([q1 p1] & H & [= <-]). by eapply put_prev_entity_ok.
  - by eapply entity_tick_ok.
  - apply bind_Some in H as ([q1 p1] & H & [= <-]). destruct P. by eapply reweight_ok.
  - by eapply yield_task_fair_ok.
  - by eapply check_preempt_wakeup_ok.
  - apply bind_Some in H as ([q1 p1] & H & [= <-]). by eapply task_fork_fair_ok.
Qed.

Lemma init_ok : cfs_ok init_cfs_rq.
Proof.
  split; [split| |]; try done.
  - exists 0. apply empty_ok.
  - constructor.
Qed.

Lemma reachable_ok cfg q : reachable cfg q -> cfs_ok q.
Proof. induction 1 as [|q o q' _ IH P H W]; [apply init_ok|by eapply exec_keeps]. Qed.

(** ** The operations do not fail *)

Lemma se_weight_nonneg e : 0 <= se_weight e.
Proof. unfold se_weight, scale_load_down. destruct (_ =? 0); lia. Qed.

Lemma lsum_nonneg l : 0 <= lsum l.
Proof. apply zsum_nonneg. intros. apply se_weight_nonneg. Qed.

(** The total weight is positive and below the divisor's range, or zero. *)
Definition light (q : cfs_rq) : Prop := lsum (entities q) < two31.

Lemma light_total q : sums_ok q -> light q -> snd (total q) = lsum (entities q) /\ queue_load q = lsum (entities q).
Proof.
  intros [S _] W. unfold light, total, queue_load, entities, running, lsum in *. rewrite S.
  pose proof (lsum_nonneg (queued q)) as N. unfold lsum in *.
  destruct (curr q) as [c|]; [destruct (on_rq c)|]; simpl; rewrite ?app_nil_r in *.
  - rewrite zsum_app in *. unfold zsum in *. simpl in *. rewrite Z.add_0_r in *.
    pose proof (se_weight_nonneg c). rewrite (u64_small (foldr _ _ _)) by lia. rewrite s64_small, u64_small by lia. done.
  - rewrite u64_small, s64_small by lia. done.
  - rewrite u64_small, s64_small by lia. done.
Qed.

Lemma div_total x d : 0 < d < two31 -> is_Some (div_s64 x d).
Proof. intros Hd. unfold div_s64. rewrite s32_small by lia. rewrite (proj2 (Z.eqb_neq d 0)) by lia. by eexists. Qed.

Lemma avg_vruntime_total q : sums_ok q -> light q -> is_Some (avg_vruntime q).
Proof.
  intros S W. destruct (light_total q S W) as [T _]. unfold avg_vruntime. destruct (total q) as [a l]. simpl in T. subst l.
  destruct (Z.eqb_spec (lsum (entities q)) 0) as [E|E]; [by eexists|].
  pose proof (lsum_nonneg (entities q)). destruct (div_total (if a <? 0 then s64 (a - (lsum (entities q) - 1)) else a)
    (lsum (entities q))) as [d ->]; [unfold light in W; lia|]. by eexists.
Qed.

Lemma place_total cfg q se flags : sums_ok q -> light q -> is_Some (place_entity cfg q se flags).
Proof.
  intros S W. unfold place_entity. destruct (avg_vruntime_total q S W) as [v ->]. simpl.
  destruct (calc_delta_fair _ _) as [d lw]. destruct (light_total q S W) as [_ ->].
  destruct (PLACE_LAG cfg && negb (nr_running q =? 0)); [|by eexists]. pose proof (lsum_nonneg (entities q)). unfold light in W.
  match goal with |- context [div_s64 ?x ?d] => destruct (div_total x d) as [y ->] end; [|by eexists].
  destruct (Z.eqb_spec (lsum (entities q)) 0); lia.
Qed.

Lemma lag_total cfg q se : sums_ok q -> light q -> is_Some (update_entity_lag cfg q se).
Proof.
  intros S W. unfold update_entity_lag. destruct (avg_vruntime_total q S W) as [v ->]. simpl.
  destruct (calc_delta_fair _ _) as [d lw]. by eexists.
Qed.

Lemma rescale_total se old w : 0 < w < two31 -> is_Some (rescale se old w).
Proof.
  intros Hw. unfold rescale. destruct (negb (on_rq se));
    match goal with |- context [div_s64 ?x ?d] => destruct (div_total x d Hw) as [y ->] end; by eexists.
Qed.

Lemma reweight_total cfg now q se w :
  is_curr q se = true \/ is_curr q se = false /\ on_rq se = true /\ se ∈ queued q \/ off_queue q se ->
  0 < w < two31 -> is_Some (reweight_entity cfg now q se w).
Proof.
  intros L Hw. unfold reweight_entity.
  match goal with |- context [rescale ?e ?o w] => destruct (rescale_total e o w Hw) as [se1 H1] end.
  rewrite H1. simpl. destruct (rescale_same _ _ _ _ H1) as [(R1 & R2 & R3 & R4) Rv]. simpl in R1, R2.
  destruct L as [L|[(L & Lo & Lin)|(L & Lo & Lin)]].
  - destruct (is_curr_true q se L) as (c & Ec & Ei & Ed).
    rewrite Ed. destruct (is_curr_eq q c c Ec eq_refl) as [-> _]. by eexists.
  - rewrite (is_curr_false q se L), L, Lo in *. clear H1.
    assert (D : deref (avg_vruntime_sub q se) se = se) by by apply is_curr_false.
    rewrite D, Lo in *. rewrite R1, R2. unfold rb_update. simpl.
    destruct (locate_some (is_se (se_id se)) (rb_root (tasks_timeline q)) [] se Lin) as [[[[[[x1 x2] x3] x4] x5] x6] ->];
      [apply Z.eqb_refl|]. simpl. by eexists.
  - rewrite (is_curr_false q se L), L, Lo in *. clear H1. simpl in *. rewrite (is_curr_false q se L), Lo in *.
    rewrite R2. by eexists.
Qed.

(** The shares of a group entity are in range when those of the group are. *)
Definition group_ok (g : option group_in) : Prop :=
  match g with Some g => MIN_SHARES <= g_tg_shares g < two31 | None => True end.

Lemma group_shares_range g : MIN_SHARES <= g_tg_shares g < two31 ->
  MIN_SHARES <= u64 (calc_group_shares g) <= g_tg_shares g.
Proof.
  intros H. change MIN_SHARES with 2 in *. unfold calc_group_shares, clamp. change MIN_SHARES with 2.
  rewrite u64_small by lia. lia.
Qed.

Lemma group_total cfg now q se g : is_curr q se = true \/ off_queue q se -> group_ok g ->
  is_Some (update_cfs_group cfg now q se g).
Proof.
  intros L G. unfold update_cfs_group. destruct g as [g|]; [|by eexists]. destruct (g_throttled g); [by eexists|].
  apply reweight_total; [tauto|]. pose proof (group_shares_range g G). change MIN_SHARES with 2 in *. simpl in G. lia.
Qed.

Lemma light_same q q' : tasks_timeline q' = tasks_timeline q -> same_curr q q' -> light q -> light q'.
Proof.
  intros E C. unfold light. assert (lsum (entities q') = lsum (entities q)) as ->; [|done].
  pose proof (entities_same q q' E C) as F. unfold lsum. induction F as [|a c l l' (_ & _ & _ & P) _ IH]; [done|].
  unfold zsum in *. simpl. rewrite IH. unfold se_weight. by rewrite P.
Qed.

(** A light queue stays light when the running entity changes while not runnable. *)
Lemma light_idle_curr q q' c c' : tasks_timeline q' = tasks_timeline q -> curr q = Some c -> curr q' = Some c' ->
  on_rq c = false -> on_rq c' = false -> light q -> light q'.
Proof.
  intros E H1 H2 O1 O2. unfold light, entities, running, queued. by rewrite E, H1, H2, O1, O2.
Qed.

Lemma enqueue_total cfg now q se flags g :
  cfs_ok q -> enqueue_pre q se -> light q -> group_ok g -> is_Some (enqueue_entity cfg now q se flags g).
Proof.
  intros Q Pre W G. unfold enqueue_entity, enqueue_pre in *. destruct (is_curr q se) eqn:L; simpl negb; cbv iota.
  - destruct (is_curr_true q se L) as (c & Ec & Ei & Ed). rewrite Ed in *.
    destruct (place_total cfg q c flags) as [c0 Hp]; [apply Q|done|]. rewrite Hp. cbn [mbind option_bind].
    apply place_same in Hp as (P1 & P2 & _).
    destruct (update_curr_frame cfg now (set_curr q (Some c0))) as (A1 & A2 & _).
    set (q1 := update_curr cfg now (set_curr q (Some c0))) in *. clearbody q1.
    unfold same_curr in A2. simpl in A2. destruct (curr q1) as [c1|] eqn:Ec1; [|done]. destruct A2 as (S1 & _).
    destruct (is_curr_eq q1 c1 se Ec1) as [L1 _]; [congruence|].
    destruct (group_total cfg now q1 se g ltac:(by left) G) as [[q2 se2] ->]. by eexists.
  - cbn [mbind option_bind]. destruct (update_curr_frame cfg now q) as (A1 & A2 & _).
    pose proof (update_curr_ok cfg now q Q) as Q1. pose proof (off_queue_frame _ _ se A1 A2 Pre) as Pre1.
    pose proof (light_same _ _ A1 A2 W) as W1. set (q1 := update_curr cfg now q) in *. clearbody q1.
    destruct (group_total cfg now q1 se g ltac:(by right) G) as [[q2 se2] Hg]. rewrite Hg. cbn [mbind option_bind].
    destruct (group_off cfg now q1 se g q2 se2 Pre1 Hg) as (-> & _ & _).
    destruct (place_total cfg q1 se2 flags) as [se3 ->]; [apply Q1|done|]. cbn [mbind option_bind].
    apply enqueue_tree_total. destruct Q1 as [T1 _ _]. by apply (tree_ok_frame q1); [|apply T1|].
Qed.

Lemma dequeue_total cfg now q i flags g :
  cfs_ok q -> i ∈ map se_id (entities q) -> light q -> group_ok g ->
  is_Some (dequeue_entity cfg now q i flags g).
Proof.
  intros Q Hi W G. unfold dequeue_entity. destruct (update_curr_frame cfg now q) as (A1 & A2 & _).
  pose proof (update_curr_ok cfg now q Q) as Q1. pose proof (light_same _ _ A1 A2 W) as W1.
  destruct (find_entity_total (update_curr cfg now q) i) as [se Hf].
  { pose proof (entities_same _ _ A1 A2) as F.
    assert (E : map se_id (entities (update_curr cfg now q)) = map se_id (entities q)).
    { clear - F. induction F as [|a c l l' (P & _) _ IH]; [done|]. simpl. by rewrite IH, P. }
    rewrite <- E in Hi. unfold entities, running in Hi. rewrite map_app in *. apply elem_of_app in Hi as [Hi|Hi];
      apply elem_of_app; [by left|right]. destruct (curr _) as [c|]; [|done].
    destruct (on_rq c); [done|by apply not_elem_of_nil in Hi]. }
  rewrite Hf. cbn [mbind option_bind]. destruct (find_entity_spec _ i se Q1 Hf) as [Hid Hw].
  set (q1 := update_curr cfg now q) in *. clearbody q1. clear A1 A2.
  destruct (clear_buddies_frame q1 se) as (B1 & B2 & _). cbv zeta in B1, B2.
  pose proof (clear_buddies_ok q1 se Q1) as Q2. assert (W2 : light (clear_buddies q1 se)).
  { apply (light_same q1); [done|by apply same_curr_refl|done]. }
  assert (Hw2 : curr (clear_buddies q1 se) = Some se \/
    is_curr (clear_buddies q1 se) se = false /\ se ∈ queued (clear_buddies q1 se)).
  { unfold is_curr, queued in *. rewrite B1, B2. done. }
  set (q2 := clear_buddies q1 se) in *. clearbody q2.
  destruct (lag_total cfg q2 se) as [se1 Hl]; [apply Q2|done|]. rewrite Hl. cbn [mbind option_bind].
  destruct (update_lag_same _ _ _ _ Hl) as (Se & Ev & _). pose proof Se as (E1 & E2 & E3 & E4).
  destruct Hw2 as [Hc|[Hc Hin]].
  - destruct (is_curr_eq q2 se se Hc eq_refl) as [-> _]. cbn [mbind option_bind negb].
    match goal with |- context [update_cfs_group cfg now ?a ?e g] =>
      destruct (group_total cfg now a e g) as [[q4 se4] ->]; [left; apply Z.eqb_refl|done|] end. by eexists.
  - rewrite Hc. cbn [negb]. destruct (leave_tree q2 se se1 Q2 Hc Hin Se Ev) as (q3 & -> & Ec & Es & T3 & P3 & I3 & Q3).
    cbn [mbind option_bind].
    match goal with |- context [update_cfs_group cfg now ?a ?e g] =>
      destruct (group_total cfg now a e g) as [[q4 se4] ->]; [right|done|] end; [|by eexists].
    split; [|split; [done|]]; simpl; [unfold is_curr in *; simpl; rewrite Ec, E1; done|rewrite E1; exact I3].
Qed.

Lemma set_next_total now q se : cfs_ok q -> curr q = None -> (if on_rq se then se ∈ queued q else off_queue q se) ->
  is_Some (set_next_entity now q se).
Proof.
  intros Q Hc Hse. unfold set_next_entity. destruct (clear_buddies_frame q se) as (B1 & B2 & _).
  apply (clear_buddies_ok q se) in Q. cbv zeta in B1, B2. rewrite Hc in B2. destruct (on_rq se); [|by eexists].
  destruct (leave_tree (clear_buddies q se) se se Q) as (q2 & -> & _); [unfold is_curr; by rewrite B2| |frame|done|by eexists].
  unfold queued in *. by rewrite B1.
Qed.

Lemma search_total q t : forall best bl best' bl',
  (forall b, bl = Some b -> b <> Leaf /\ best <> None) -> search_eligible q t best bl = (best', bl') ->
  forall b, bl' = Some b -> b <> Leaf /\ best' <> None.
Proof.
  induction t as [|c l IHl se m r IHr]; intros best bl best' bl' Inv H; simpl in H; [by injection H as <- <-|].
  destruct (negb (entity_eligible q se)); [by apply (IHl best bl)|].
  set (b1 := match best with None => Some se | Some x => _ end) in H.
  assert (N : b1 <> None) by (unfold b1; destruct best; [by destruct (dl_gt _ _)|done]). clearbody b1.
  assert (Keep : forall b, bl = Some b -> b <> Leaf /\ b1 <> None) by (intros b Hb; split; [by apply Inv|done]).
  destruct (aug l) as [lm|] eqn:El.
  - set (l1 := match bl with None => Some l | Some x => _ end) in H.
    assert (L1 : forall b, l1 = Some b -> b <> Leaf /\ b1 <> None).
    { unfold l1. intros b Hb. split; [|done]. destruct bl as [x|].
      - destruct (aug x) as [bm|]; [destruct (dl_gt bm lm)|]; injection Hb as <-; try by apply Inv. by destruct l.
      - injection Hb as <-. by destruct l. }
    clearbody l1. destruct (lm =? m); [by injection H as <- <-|].
    destruct (deadline se =? m); [by injection H as <- <-|]. by apply (IHr b1 l1).
  - destruct (deadline se =? m); [by injection H as <- <-|]. by apply (IHr b1 bl).
Qed.

Lemma pick_total cfg q : is_Some (pick_eevdf cfg q).
Proof.
  unfold pick_eevdf, __pick_eevdf. set (c := match curr q with Some c => _ | None => _ end).
  destruct (match c with Some _ => _ | None => false end).
  { simpl. destruct c; [by eexists|]. destruct (__pick_first_entity q); by eexists. }
  destruct (search_eligible q _ c None) as [best bl] eqn:E.
  pose proof (search_total q _ c None best bl ltac:(done) E) as T.
  assert (exists x, (match bl with None => Some best | Some b => m ← aug b; bs ← best;
    if dl_gt m (deadline bs) then Some (Some bs) else Some (search_deadline b) end) = Some x) as [x ->].
  { destruct bl as [b|]; [|by eexists]. destruct (T b eq_refl) as [Hb Hn].
    destruct b as [|bc bl' bx bm br]; [done|]. destruct best as [bs|]; [|done]. simpl.
    destruct (dl_gt bm (deadline bs)); by eexists. }
  simpl. destruct x; [by eexists|]. destruct (__pick_first_entity q); by eexists.
Qed.

(** ** Placement and lag *)

Lemma lag_arith S W w vl : 0 < W -> 0 <= w ->
  let k := S / W - Z.quot (vl * (W + w)) W in
  vl - 1 <= (S + k * w) / (W + w) - k <= vl + 1.
Proof.
  intros HW Hw k. pose proof (Z.div_mod S W ltac:(lia)) as D. pose proof (Z.mod_pos_bound S W HW) as M.
  pose proof (Z.quot_rem' (vl * (W + w)) W) as Q. pose proof (Z.rem_bound_abs (vl * (W + w)) W ltac:(lia)) as R.
  set (r := S mod W) in *. set (F := S / W) in *. set (L := Z.quot (vl * (W + w)) W) in *.
  set (e := Z.rem (vl * (W + w)) W) in *.
  assert (E : S + k * w = (r - e) + (vl + k) * (W + w)).
  { replace ((vl + k) * (W + w)) with (vl * (W + w) + k * (W + w)) by ring. rewrite Q. unfold k. lia. }
  rewrite E, Z.div_add by lia.
  assert (- 1 <= (r - e) / (W + w)) by (apply Z.div_le_lower_bound; lia).
  assert ((r - e) / (W + w) < 2) by (apply Z.div_lt_upper_bound; lia). lia.
Qed.

Lemma length_le_lsum l : Forall (fun e => 0 < se_weight e) l -> Z.of_nat (length l) <= lsum l.
Proof. induction 1 as [|x l Hx _ IH]; unfold lsum, zsum in *; simpl length; [done|]. simpl. lia. Qed.

(** Where a placed entity lands, relative to the average of the queue. *)
Lemma place_key cfg q K se flags se' :
  sums_ok q -> counts_ok q (entities q) -> fits q K -> entities q <> [] -> PLACE_LAG cfg = true ->
  Z.abs (vlag se) * (lsum (entities q) + se_weight se) < HALF ->
  place_entity cfg q se flags = Some se' ->
  let W := lsum (entities q) in
  entity_key q se' = wsum q (entities q) / W - Z.quot (vlag se * (W + se_weight se)) W /\
  Z.abs (entity_key q se') < two63 /\ se_weight se' = se_weight se.
Proof.
  intros S N F Hne HL Hv H W. destruct (wsum_div_bound q K F Hne) as [HW HD].
  pose proof (avg_vruntime_floor q K S F Hne) as HV. unfold place_entity in H. rewrite HV in H. cbn [mbind option_bind] in H.
  pose proof F as (Fw & Fl & _ & HK). destruct (light_total q S Fl) as [_ QL]. rewrite QL, HL in H. fold W in H, HW, HD, Fl.
  assert (Nz : nr_running q <> 0).
  { destruct N as (_ & -> & _). pose proof (length_le_lsum (entities q)
      ltac:(eapply Forall_impl; [|exact Fw]; simpl; tauto)) as Hlen. fold W in Hlen.
    rewrite u32_small by lia. by destruct (entities q). }
  rewrite (proj2 (Z.eqb_neq _ 0) Nz) in H. cbn [andb negb] in H.
  destruct (calc_delta_fair _ _) as [d lw] eqn:Ed. apply calc_delta_keeps in Ed. simpl in Ed.
  assert (Ew : se_weight (set_load (set_slice se (sysctl_sched_base_slice cfg)) lw) = se_weight se).
  { unfold se_weight. simpl. by rewrite Ed. }
  rewrite Ew in H. simpl vlag in H. rewrite (proj2 (Z.eqb_neq W 0)) in H by lia.
  pose proof (se_weight_nonneg se) as Hw. set (w := se_weight se) in *. unfold HALF in Hv, HK.
  assert (Hvw : - HALF < vlag se * (W + w) < HALF) by (unfold HALF; nia). unfold HALF in Hvw.
  assert (Hw64 : W + w < two63 \/ vlag se = 0) by nia.
  apply bind_Some in H as (lag & Hlag & [= <-]). unfold div_s64 in Hlag. rewrite s32_small in Hlag by lia.
  rewrite (proj2 (Z.eqb_neq W 0)) in Hlag by lia. injection Hlag as <-.
  assert (Es : s64 (s64 (vlag se * u64 (W + w))) = vlag se * (W + w)).
  { destruct Hw64 as [H|H]; [|by rewrite H]. rewrite u64_small by lia.
    rewrite (s64_small (vlag se * (W + w))) by lia. by rewrite s64_small by lia. }
  rewrite Es. unfold cdiv. set (L := Z.quot (vlag se * (W + w)) W).
  assert (HLb : - HALF < L < HALF).
  { unfold HALF. pose proof (Z.quot_rem' (vlag se * (W + w)) W) as QR.
    pose proof (Z.rem_bound_abs (vlag se * (W + w)) W ltac:(lia)) as RB.
    pose proof (Z.rem_sign_mul (vlag se * (W + w)) W ltac:(lia)) as RS. fold L in QR. nia. }
  unfold HALF in HLb. rewrite (s64_small L) by lia. cbn [vruntime set_deadline set_vruntime].
  split; [|split].
  - unfold entity_key. cbn [vruntime set_deadline set_vruntime]. rewrite u64_sub_l.
    match goal with |- s64 (u64 ?x - _) = _ => destruct (u64_cong x) as [j ->] end. apply (s64_unique _ _ j); lia.
  - unfold entity_key. cbn [vruntime set_deadline set_vruntime]. rewrite u64_sub_l.
    match goal with |- Z.abs (s64 (u64 ?x - _)) < _ => destruct (u64_cong x) as [j ->] end.
    rewrite (s64_unique _ (wsum q (entities q) / W - L) j); lia.
  - unfold se_weight. cbn [se_load set_deadline set_vruntime]. unfold w, se_weight. simpl. by rewrite Ed.
Qed.

Lemma enqueued_fields flags se :
  vruntime (enqueued flags se) = vruntime se /\ se_weight (enqueued flags se) = se_weight se /\
  on_rq (enqueued flags se) = true.
Proof. unfold enqueued. by destruct (has _ _). Qed.

(** A task that joins the queue, step by step. *)
Lemma enqueue_task_steps cfg now q se flags q' :
  cfs_ok q -> off_queue q se -> enqueue_entity cfg now q se flags None = Some q' -> windowed q' ->
  let q1 := update_curr cfg now q in
  exists se1, place_entity cfg q1 se flags = Some se1 /\ cfs_ok q1 /\ cfs_ok q' /\
    min_vruntime q' = min_vruntime q1 /\ entities q' ≡ₚ enqueued flags se1 :: entities q1 /\
    enqueued flags se1 ∈ queued q' /\ se_id se1 = se_id se.
Proof.
  intros Q Off H W q1. pose proof Off as (L & _). unfold enqueue_entity in H. rewrite L in H. simpl negb in H.
  cbn [mbind option_bind] in H. fold q1 in H.
  destruct (update_curr_frame cfg now q) as (A1 & A2 & _). fold q1 in A1, A2.
  apply (update_curr_ok cfg now) in Q. fold q1 in Q. pose proof (off_queue_frame _ _ se A1 A2 Off) as (L1 & _ & I1).
  clearbody q1. unfold update_cfs_group in H. cbn [mbind option_bind] in H. rewrite (is_curr_false q1 se L1) in H.
  apply bind_Some in H as (se1 & Hp & H). pose proof (place_same _ _ _ _ _ Hp) as (P1 & _).
  fold (enqueued flags se1) in H. rewrite <- (enqueued_account q1 flags se1) in H.
  destruct (enqueued_fields flags se1) as (_ & _ & Eo).
  assert (Hc : is_curr q1 (enqueued flags se1) = false) by (unfold is_curr in *; by rewrite enqueued_id, P1).
  assert (Hi : se_id (enqueued flags se1) ∉ map se_id (queued q1)) by (by rewrite enqueued_id, P1).
  destruct (join_tree q1 (enqueued flags se1) q' Q Hc Hi Eo H W) as [Q' PE].
  destruct (enqueue_tree (account_entity_enqueue q1 (enqueued flags se1)) (enqueued flags se1) q')
    as (_ & P & _ & _ & Em); try done.
  { destruct Q as [T _ _]. by apply (tree_ok_frame q1); [|apply T|]. }
  exists se1. split_and!; try done. rewrite P. by left.
Qed.

(** C11: Joining the queue preserves lag.  When a task that is off the queue is enqueued on
    a queue with runnable entities and [PLACE_LAG] is set, then after the enqueue its
    distance from the new average virtual runtime, to which it now contributes itself,
    is the lag it had when it left, up to one nanosecond of virtual time.  Virtual times stay
    within a window ([window2]), the sums are representable before and after ([fits]), and
    the lag times the total weight is below [2^62].  (On an empty queue the code places the
    entity with no lag.) *)
Theorem enqueue_preserves_lag cfg now q se flags q' K K' :
  reachable cfg q -> off_queue q se -> PLACE_LAG cfg = true ->
  let q1 := update_curr cfg now q in
  entities q1 <> [] -> fits q1 K -> Z.abs (vlag se) * (lsum (entities q1) + se_weight se) < HALF ->
  enqueue_entity cfg now q se flags None = Some q' -> fits q' K' -> window2 q q' ->
  exists se' V, se' ∈ queued q' /\ se_id se' = se_id se /\ avg_vruntime q' = Some V /\
    Z.abs (s64 (V - vruntime se') - vlag se) <= 1.
Proof.
  intros R Off HL q1 Hne F1 Hv H F' W2.
  assert (W : windowed q') by (destruct W2 as (b & _ & W); by exists b).
  destruct (enqueue_task_steps cfg now q se flags q' (reachable_ok _ _ R) Off H W)
    as (se1 & Hp & [T1 _ N1] & Q' & Em & PE & Hin & Hid). fold q1 in Hp, T1, N1, Em, PE.
  destruct (place_key cfg q1 K se flags se1 (to_sums _ T1) N1 F1 Hne HL Hv Hp) as (Hk & Hb & Hw).
  destruct (enqueued_fields flags se1) as (Ev & Ew & _).
  exists (enqueued flags se1). eexists. split; [done|]. split; [by rewrite enqueued_id|].
  assert (Hne' : entities q' <> []) by (intros E; rewrite E in PE; by apply Permutation_nil_cons in PE).
  split; [apply (avg_vruntime_floor q' K'); [apply Q'|done|done]|].
  destruct (wsum_div_bound q' K' F' Hne') as [HW' HD']. destruct (wsum_div_bound q1 K F1 Hne) as [HW1 _].
  assert (EW : lsum (entities q') = lsum (entities q1) + se_weight se).
  { unfold lsum. rewrite (zsum_perm _ _ _ PE). unfold zsum at 1. simpl. fold (zsum se_weight (entities q1)). lia. }
  assert (Ekey : entity_key q' (enqueued flags se1) = entity_key q1 se1) by (unfold entity_key; by rewrite Em, Ev).
  assert (ES : wsum q' (entities q') = wsum q1 (entities q1) + entity_key q1 se1 * se_weight se).
  { rewrite (wsum_min q1 q') by done. unfold wsum. rewrite (zsum_perm _ _ _ PE). unfold zsum at 1. simpl.
    fold (zsum (fun e => entity_key q1 e * se_weight e) (entities q1)). unfold entity_key. rewrite Ev, Ew, Hw. lia. }
  assert (Hk' : - K' <= entity_key q' (enqueued flags se1) <= K').
  { destruct F' as (F' & _). rewrite Forall_elem in F'. apply F', elem_of_app. by left. }
  destruct F' as (_ & _ & _ & HK'). unfold HALF in HK'.
  assert (Ed : s64 (u64 (min_vruntime q' + wsum q' (entities q') / lsum (entities q')) - vruntime (enqueued flags se1)) =
    wsum q' (entities q') / lsum (entities q') - entity_key q' (enqueued flags se1)).
  { unfold entity_key in *. match goal with |- s64 (u64 ?x - _) = _ => destruct (u64_cong x) as [j ->] end.
    destruct (s64_cong (vruntime (enqueued flags se1) - min_vruntime q')) as [i Ei]. rewrite Ei in Hk' |- *.
    apply (s64_unique _ _ (j + i)); lia. }
  rewrite Ed, Ekey, ES, EW, Hk.
  pose proof (lag_arith (wsum q1 (entities q1)) (lsum (entities q1)) (se_weight se) (vlag se) HW1 (se_weight_nonneg se)) as A.
  cbv zeta in A. lia.
Qed.

(** ** Properties of every reachable queue *)

(** C2: The accounting of the run queue is exact.  In every queue reachable by enqueues,
    dequeues, switches, ticks, reweightings, yields, wakeups and forks, the tree is a
    red-black tree sorted by virtual runtime in which every subtree carries its earliest
    deadline and whose cached leftmost entity is the first; [avg_load] and
    [avg_vruntime] are the weight and the weighted virtual runtime of the entities in the
    tree relative to the current [min_vruntime]; the load, [nr_running] and
    [idle_nr_running] are those of the tree and the running entity together; no entity is
    queued twice and the running one is not in the tree. *)
Theorem eevdf_accounting_exact cfg q : reachable cfg q ->
  (exists b, timeline_ok b q) /\ sums_ok q /\ counts_ok q (entities q) /\
  Forall (fun e => on_rq e = true) (entities q) /\ NoDup (map se_id (queued q ++ opt_list (curr q))).
Proof.
  intros R. destruct (reachable_ok cfg q R) as [[T I O S] C N]. split_and!; try done.
  - unfold entities, running. apply Forall_app. split; [done|]. destruct (curr q) as [c|]; [|constructor].
    destruct (on_rq c) eqn:E; by repeat constructor.
  - rewrite map_app, Permutation_app_comm. destruct (curr q) as [c|]; simpl; [|done].
    apply list.NoDup_cons. split; [by apply C|done].
Qed.

Definition op_groups (o : op) : Prop :=
  match o with
  | Enqueue _ _ _ g | Dequeue _ _ _ g | Tick _ _ g => group_ok g
  | _ => True
  end.

(** C12: No operation on a reachable run queue fails.  When the total weight of the runnable
    entities is below [2^31] and the shares of groups are in range, every operation whose
    caller keeps the protocol returns: no null pointer is followed, no entity is missing
    from the tree, and no division by zero happens. *)
Theorem eevdf_operations_total cfg q o :
  reachable cfg q -> pre o q -> light q -> op_groups o -> exists q', exec cfg o q = Some q'.
Proof.
  intros R P L G. pose proof (reachable_ok cfg q R) as Q. destruct o; simpl in P, G |- *.
  - by apply enqueue_total.
  - destruct (dequeue_total cfg now q i flags g Q P L G) as [[q' se] ->]. by eexists.
  - destruct P. by apply set_next_total.
  - unfold put_prev_entity. destruct (curr q) as [c|] eqn:Ec; [|done]. cbn [mbind option_bind].
    destruct (update_curr_frame cfg now q) as (_ & A & _). unfold same_curr in A. rewrite Ec in A.
    set (q1 := if on_rq c then update_curr cfg now q else q).
    assert (exists c1, curr q1 = Some c1) as [c1 ->].
    { unfold q1. destruct (on_rq c); [|by exists c]. destruct (curr (update_curr cfg now q)); [by eexists|done]. }
    cbn [mbind option_bind]. destruct (on_rq c1); [|by eexists].
    destruct (enqueue_tree_total q1 c1) as [q2 ->]; [|by eexists].
    unfold q1. destruct (on_rq c); [by apply update_curr_ok|apply Q].
  - unfold entity_tick. destruct (curr q) as [c|] eqn:Ec; [|done]. cbn [mbind option_bind].
    destruct (update_curr_frame cfg now q) as (_ & A & _).
    destruct (group_total cfg now (update_curr cfg now q) c g) as [[q1 se1] ->]; [left|done|by eexists].
    rewrite (same_curr_is q) by done. unfold is_curr. rewrite Ec. apply Z.eqb_refl.
  - destruct P as [P Hw]. destruct (reweight_total cfg now q se w P Hw) as [[q1 se1] ->]. by eexists.
  - unfold yield_task_fair. destruct (nr =? 1); [by eexists|]. destruct (curr q) as [c|] eqn:Ec; [|done].
    cbn [mbind option_bind]. destruct (clear_buddies_frame q c) as (_ & B & _). cbv zeta in B.
    destruct (update_curr_frame cfg now (clear_buddies q c)) as (_ & A & _). unfold same_curr in A. rewrite B, Ec in A.
    destruct (curr (update_curr cfg now (clear_buddies q c))) as [c1|]; [|done]. cbn [mbind option_bind].
    destruct (calc_delta_fair _ _). by eexists.
  - unfold check_preempt_wakeup. destruct (curr q) as [c|] eqn:Ec; [|done]. cbn [mbind option_bind].
    set (q1 := if NEXT_BUDDY cfg && negb (wf_fork k) then set_next_buddy q pse else q).
    destruct (pick_total cfg (update_curr cfg now q1)) as [[p x] ->]. cbn [mbind option_bind].
    repeat case_match; by eexists.
  - unfold task_fork_fair. destruct (curr q) as [c|] eqn:Ec.
    + destruct (update_curr_frame cfg now q) as (A1 & A2 & _).
      destruct (place_total cfg (update_curr cfg now q) se ENQUEUE_INITIAL) as [se1 ->]; [|by apply (light_same q)|by eexists].
      apply update_curr_frame. apply Q.
    + destruct (place_total cfg q se ENQUEUE_INITIAL) as [se1 ->]; [apply Q|done|by eexists].
Qed.

(** C1: EEVDF picks the earliest eligible virtual deadline.  In every reachable queue with a
    runnable entity, with representable sums and with the running entity within the same
    window of virtual time, [pick_eevdf] finds an entity and never falls back to the
    leftmost one with an error.  The entity found is eligible, and no eligible entity has
    an earlier deadline, unless the running entity is eligible and still in the slice it
    was picked with and [RUN_TO_PARITY] is set, in which case it is kept.  Eligibility is
    exact: an entity is eligible if and only if its weighted lag, computed without
    rounding, is not negative. *)
Theorem pick_eevdf_earliest_eligible_deadline cfg q K b :
  reachable cfg q -> fits q K -> Forall (ok b) (entities q) -> entities q <> [] ->
  exists se, pick_eevdf cfg q = Some (Some se, false) /\ se ∈ entities q /\ entity_eligible q se = true /\
  ((curr q = Some se /\ RUN_TO_PARITY cfg = true /\ u64 (vlag se) = deadline se) \/
   forall e, e ∈ entities q -> entity_eligible q e = true -> s64 (deadline se - deadline e) <= 0) /\
  (forall e, e ∈ entities q -> entity_eligible q e = true <->
     0 <= zsum (fun j => se_weight j * (entity_key q j - entity_key q e)) (entities q)).
Proof.
  intros R F O Hne. destruct (reachable_ok cfg q R) as [[[b0 T] I On S] C N].
  apply Forall_app in O as [Oq Or]. apply (pick_eevdf_best cfg q K b); try done. by apply (timeline_rebase b0).
Qed.

(** The average virtual runtime separates the eligible entities from the others.  In
    every reachable queue with a runnable entity and representable sums, [avg_vruntime]
    is the weighted average rounded down, so for every virtual runtime in range, an entity
    placed there is eligible if and only if it is not after the average.  In particular
    an entity placed exactly at the average is eligible. *)
Theorem avg_vruntime_separates_eligible cfg q K e :
  reachable cfg q -> fits q K -> entities q <> [] -> - K <= entity_key q e <= K ->
  exists V, avg_vruntime q = Some V /\
    (entity_eligible q e = true <-> s64 (vruntime e - V) <= 0) /\ entity_eligible q (set_vruntime e V) = true.
Proof. intros R. destruct (reachable_ok cfg q R) as [[_ _ _ S] _ _]. by apply avg_vruntime_separates. Qed.

(** The search for the next entity is logarithmic.  In every reachable queue both loops
    of [__pick_eevdf] end, the first one started at the root and the second one at the
    branch the first one found, each after at most [2 * log2 (n + 1) + 1] turns, where
    [n] is the number of entities in the tree, with the result of the search. *)
Theorem pick_eevdf_logarithmic cfg q best best' bl :
  reachable cfg q ->
  let n := S (2 * Nat.log2 (S (length (queued q)))) in
  search_eligible q (rb_root (tasks_timeline q)) best None = (best', bl) ->
  turns n (eligible_turn q) (rb_root (tasks_timeline q), best, None) = Some (best', bl) /\
  forall t, bl = Some t -> turns n deadline_turn t = Some (search_deadline t).
Proof.
  intros R n H. destruct (reachable_ok cfg q R) as [[[b [B _ _ _ _]] _ _ _] _ _].
  assert (Hh : (height (rb_root (tasks_timeline q)) <= 2 * Nat.log2 (S (length (queued q))))%nat).
  { by apply balanced_height. }
  split.
  - rewrite eligible_turns by (unfold n; lia). by rewrite H.
  - intros t Ht. apply deadline_turns.
    pose proof (search_height q _ (2 * Nat.log2 (S (length (queued q)))) best None best' bl Hh ltac:(done) H t Ht).
    unfold n. lia.
Qed.

(** ** Concrete runs *)

#[export] Instance load_weight_eq_dec : EqDecision load_weight.
Proof. solve_decision. Defined.
#[export] Instance sched_entity_eq_dec : EqDecision sched_entity.
Proof. solve_decision. Defined.

#[export] Instance off_queue_dec q se : Decision (off_queue q se).
Proof. unfold off_queue. apply _. Defined.

#[export] Instance pre_dec o q : Decision (pre o q).
Proof.
  destruct o; simpl; try apply _.
  - unfold enqueue_pre. destruct (is_curr q se); apply _.
  - destruct (on_rq se); apply _.
Defined.

Definition in_windowb (b x : Z) : bool :=
  (0 <=? x) && (x <? two64) && (- HALF <=? s64 (x - b)) && (s64 (x - b) <? HALF).

Definition okb (b : Z) (e : sched_entity) : bool := in_windowb b (vruntime e) && in_windowb b (deadline e).

Lemma okb_all b l : forallb (okb b) l = true -> Forall (ok b) l.
Proof.
  rewrite forallb_forall. intros H. apply Forall_elem. intros e He. apply list_elem_of_In, H in He.
  unfold okb, in_windowb in He. unfold ok, in_window, is_u64. rewrite !andb_true_iff in He. zcase. lia.
Qed.

(** A run whose preconditions and windows, around the base [b], are checked. *)
Fixpoint checked_run (cfg : sched_cfg) (b : Z) (os : list op) (q : cfs_rq) : option cfs_rq :=
  match os with
  | [] => Some q
  | o :: os =>
    if decide (pre o q) then
      q' ← exec cfg o q;
      if forallb (okb b) (queued q) && forallb (okb b) (queued q') then checked_run cfg b os q' else None
    else None
  end.

Lemma checked_run_reachable cfg b os : forall q q',
  reachable cfg q -> checked_run cfg b os q = Some q' -> reachable cfg q'.
Proof.
  induction os as [|o os IH]; intros q q' R H; simpl in H; [by injection H as <-|].
  destruct (decide (pre o q)) as [P|]; [|done]. apply bind_Some in H as (q1 & H1 & H).
  destruct (_ && _) eqn:W; [|done]. apply andb_true_iff in W as [W1 W2]. apply (IH q1); [|done].
  apply (reach_step cfg q o q1); try done. exists b. split; by apply okb_all.
Qed.

Definition fitsb (q : cfs_rq) (K : Z) : bool :=
  forallb (fun e => (0 <? se_weight e) && (0 <=? vruntime e) && (vruntime e <? two64) &&
    (- K <=? entity_key q e) && (entity_key q e <=? K)) (entities q) &&
  (lsum (entities q) <? two31) && ((K + 1) * lsum (entities q) <? two63) && (0 <=? K) && (K <? HALF).

Lemma fitsb_spec q K : fitsb q K = true -> fits q K.
Proof.
  unfold fitsb, fits. rewrite !andb_true_iff, forallb_forall. intros ((((H1 & H2) & H3) & H4) & H5). zcase.
  split; [|lia]. apply Forall_elem. intros e He. apply list_elem_of_In, H1 in He. unfold is_u64.
  rewrite !andb_true_iff in He. zcase. lia.
Qed.

Definition demo_cfg : sched_cfg := mk_cfg 3000000 4000000 true true true false.

Definition demo_se (i w lag : Z) : sched_entity :=
  mk_se i (mk_load (scale_load w) 0) false false 0 0 0 0 0 lag 3000000.

Definition demo_start : list op :=
  [Enqueue 1000000 (demo_se 1 1024 0) ENQUEUE_INITIAL None;
   Enqueue 1100000 (demo_se 2 335 0) ENQUEUE_INITIAL None;
   Enqueue 1200000 (demo_se 3 3121 250000) 0 None].

Definition run_or (os : list op) (q : cfs_rq) : cfs_rq := default q (checked_run demo_cfg (min_vruntime init_cfs_rq) os q).

Definition demo_q0 : cfs_rq := Eval vm_compute in run_or demo_start init_cfs_rq.

(** The queue after the first entity was picked and ran for a while. *)
Definition demo_picked : sched_entity :=
  Eval vm_compute in match pick_eevdf demo_cfg demo_q0 with Some (Some se, _) => se | _ => demo_se 0 0 0 end.

Definition demo_run : list op :=
  demo_start ++ [SetNext 1300000 demo_picked; Tick 4300000 false None; Yield 4400000 3].

Definition demo_q : cfs_rq := Eval vm_compute in run_or demo_run init_cfs_rq.

Lemma demo_reachable : reachable demo_cfg demo_q.
Proof.
  apply (checked_run_reachable demo_cfg (min_vruntime init_cfs_rq) demo_run init_cfs_rq); [constructor|].
  vm_compute. reflexivity.
Qed.

Lemma eevdf_accounting_exact_witness :
  length (entities demo_q) = 3%nat /\ sums_ok demo_q /\ counts_ok demo_q (entities demo_q).
Proof.
  destruct (eevdf_accounting_exact demo_cfg demo_q demo_reachable) as (_ & H1 & H2 & _).
  split; [reflexivity|]. split; [exact H1|exact H2].
Defined.

Lemma eevdf_operations_total_witness : exists q', exec demo_cfg (Dequeue 5000000 3 0 None) demo_q = Some q'.
Proof.
  apply (eevdf_operations_total demo_cfg demo_q (Dequeue 5000000 3 0 None) demo_reachable).
  - apply (bool_decide_unpack (3 ∈ map se_id (entities demo_q))). vm_compute. exact Logic.I.
  - vm_compute. reflexivity.
  - exact Logic.I.
Defined.

Lemma pick_eevdf_earliest_eligible_deadline_witness : exists se,
  pick_eevdf demo_cfg demo_q = Some (Some se, false) /\ se ∈ entities demo_q /\ entity_eligible demo_q se = true.
Proof.
  assert (F : fits demo_q 100000000) by (apply fitsb_spec; vm_compute; reflexivity).
  assert (O : Forall (ok (min_vruntime demo_q)) (entities demo_q)) by (apply okb_all; vm_compute; reflexivity).
  destruct (pick_eevdf_earliest_eligible_deadline demo_cfg demo_q 100000000 (min_vruntime demo_q) demo_reachable F O
    ltac:(discriminate)) as (se & H1 & H2 & H3 & _).
  exists se. split; [exact H1|]. split; [exact H2|exact H3].
Defined.

Lemma avg_vruntime_separates_eligible_witness : exists V,
  avg_vruntime demo_q = Some V /\ entity_eligible demo_q (set_vruntime demo_picked V) = true.
Proof.
  assert (F : fits demo_q 100000000) by (apply fitsb_spec; vm_compute; reflexivity).
  assert (B : - 100000000 <= entity_key demo_q demo_picked <= 100000000) by (vm_compute; split; discriminate).
  destruct (avg_vruntime_separates_eligible demo_cfg demo_q 100000000 demo_picked demo_reachable F
    ltac:(discriminate) B) as (V & H1 & _ & H2).
  exists V. split; [exact H1|exact H2].
Defined.

Lemma pick_eevdf_logarithmic_witness : exists r,
  turns 5 (eligible_turn demo_q) (rb_root (tasks_timeline demo_q), curr demo_q, None) = Some r.
Proof.
  destruct (search_eligible demo_q (rb_root (tasks_timeline demo_q)) (curr demo_q) None) as [best bl] eqn:E.
  destruct (pick_eevdf_logarithmic demo_cfg demo_q (curr demo_q) best bl demo_reachable E) as [H _].
  exists (best, bl). exact H.
Defined.

Definition demo_sleeper : sched_entity := demo_se 4 1024 (-700000).

Definition demo_q2 : cfs_rq := Eval vm_compute in
  default demo_q (enqueue_entity demo_cfg 5000000 demo_q demo_sleeper 0 None).

Lemma enqueue_preserves_lag_witness : exists se' V,
  se' ∈ queued demo_q2 /\ avg_vruntime demo_q2 = Some V /\ Z.abs (s64 (V - vruntime se') - -700000) <= 1.
Proof.
  assert (Off : off_queue demo_q demo_sleeper).
  { apply (bool_decide_unpack (off_queue demo_q demo_sleeper)). vm_compute. exact Logic.I. }
  assert (F : fits (update_curr demo_cfg 5000000 demo_q) 100000000) by (apply fitsb_spec; vm_compute; reflexivity).
  assert (F' : fits demo_q2 100000000) by (apply fitsb_spec; vm_compute; reflexivity).
  assert (Hne : entities (update_curr demo_cfg 5000000 demo_q) <> []) by (vm_compute; discriminate).
  assert (B : Z.abs (vlag demo_sleeper) * (lsum (entities (update_curr demo_cfg 5000000 demo_q)) + se_weight demo_sleeper) < HALF)
    by (vm_compute; reflexivity).
  assert (E : enqueue_entity demo_cfg 5000000 demo_q demo_sleeper 0 None = Some demo_q2) by (vm_compute; reflexivity).
  assert (W : window2 demo_q demo_q2).
  { exists (min_vruntime demo_q). split; apply okb_all; vm_compute; reflexivity. }
  destruct (enqueue_preserves_lag demo_cfg 5000000 demo_q demo_sleeper 0 demo_q2 100000000 100000000
    demo_reachable Off eq_refl Hne F B E F' W) as (se' & V & H1 & _ & H2 & H3).
  exists se', V. split; [exact H1|]. split; [exact H2|exact H3].
Defined.

End EevdfOps.
