(* ===== verification/Cpudl.v ===== *)
(** Global CPU deadline management: [kernel/sched/cpudeadline.c] and
    [cpudeadline.h].

    The root domain keeps the earliest deadline of every CPU that runs deadline
    tasks in a binary max-heap stored in an array.  One array holds two things:
    [elements[i].dl] and [elements[i].cpu] are the heap node at position [i], and
    [elements[c].idx] is the heap position of CPU [c].  The file models the whole
    component, proves that every operation stays inside the array, keeps the two
    views consistent and keeps the heap ordered, and that the heap implements a
    finite map from CPUs to deadlines. *)

From Stdlib Require Import ZArith Lia.
From stdpp Require Import base list numbers option sets.
From S2P Require Import Prelude.

Module Cpudl.

Definition IDX_INVALID : Z := -1.
Definition ENOMEM : Z := 12.
Definition BW_SHIFT : Z := 20.
Definition SCHED_CAPACITY_SHIFT : Z := 10.

Record cpudl_item := mk_item { dl : Z; cpu : Z; idx : Z }.

Record cpudl := mk_cpudl {
  cp_size : Z;
  free_cpus : Z;
  elements : list cpudl_item
}.

Definition dl_time_before (a b : Z) : bool := s64 (a -u64 b) <? 0.

Definition parent (i : Z) : Z := Z.shiftr (i - 1) 1.
Definition left_child (i : Z) : Z := Z.shiftl i 1 + 1.
Definition right_child (i : Z) : Z := Z.shiftl i 1 + 2.

Definition with_elements (cp : cpudl) (els : list cpudl_item) : cpudl :=
  mk_cpudl (cp_size cp) (free_cpus cp) els.
Definition with_size (cp : cpudl) (n : Z) : cpudl :=
  mk_cpudl n (free_cpus cp) (elements cp).
Definition with_free_cpus (cp : cpudl) (m : Z) : cpudl :=
  mk_cpudl (cp_size cp) m (elements cp).

(** [cp->elements[i].dl = d], [.cpu = c] and [.idx = x]. *)
Definition set_dl (cp : cpudl) (i d : Z) : option cpudl :=
  e ← aref (elements cp) i;
  els ← aset (elements cp) i (mk_item d (cpu e) (idx e));
  Some (with_elements cp els).

Definition set_cpu (cp : cpudl) (i c : Z) : option cpudl :=
  e ← aref (elements cp) i;
  els ← aset (elements cp) i (mk_item (dl e) c (idx e));
  Some (with_elements cp els).

Definition set_idx (cp : cpudl) (c x : Z) : option cpudl :=
  e ← aref (elements cp) c;
  els ← aset (elements cp) c (mk_item (dl e) (cpu e) x);
  Some (with_elements cp els).

(** The three assignments that store a node at position [i] and point its CPU
    back at it; they occur in both sift loops and after them. *)
Definition cpudl_place (cp : cpudl) (i c d : Z) : option cpudl :=
  cp ← set_cpu cp i c;
  cp ← set_dl cp i d;
  e ← aref (elements cp) i;
  set_idx cp (cpu e) i.

(** The [while (1)] of [cpudl_heapify_down]; the result is the state and the
    position where the saved node goes. *)
Fixpoint heapify_down_loop (fuel : nat) (cp : cpudl) (i orig_dl : Z)
  : option (cpudl * Z) :=
  match fuel with
  | O => None
  | S fuel =>
      let l := left_child i in
      let r := right_child i in
      '(largest, largest_dl) ←
        (if l <? cp_size cp then
           e ← aref (elements cp) l;
           Some (if dl_time_before orig_dl (dl e) then (l, dl e) else (i, orig_dl))
         else Some (i, orig_dl));
      largest ←
        (if r <? cp_size cp then
           e ← aref (elements cp) r;
           Some (if dl_time_before largest_dl (dl e) then r else largest)
         else Some largest);
      if largest =? i then Some (cp, i)
      else
        e ← aref (elements cp) largest;
        cp ← cpudl_place cp i (cpu e) (dl e);
        heapify_down_loop fuel cp largest orig_dl
  end.

Definition cpudl_heapify_down (cp : cpudl) (i : Z) : option cpudl :=
  e ← aref (elements cp) i;
  let orig_cpu := cpu e in
  let orig_dl := dl e in
  if cp_size cp <=? left_child i then Some cp
  else
    '(cp, i) ← heapify_down_loop (S (length (elements cp))) cp i orig_dl;
    cpudl_place cp i orig_cpu orig_dl.

(** The [do ... while (idx != 0)] of [cpudl_heapify_up]. *)
Fixpoint heapify_up_loop (fuel : nat) (cp : cpudl) (i orig_dl : Z)
  : option (cpudl * Z) :=
  match fuel with
  | O => None
  | S fuel =>
      let p := parent i in
      e ← aref (elements cp) p;
      if dl_time_before orig_dl (dl e) then Some (cp, i)
      else
        cp ← cpudl_place cp i (cpu e) (dl e);
        if p =? 0 then Some (cp, p) else heapify_up_loop fuel cp p orig_dl
  end.

Definition cpudl_heapify_up (cp : cpudl) (i : Z) : option cpudl :=
  e ← aref (elements cp) i;
  let orig_cpu := cpu e in
  let orig_dl := dl e in
  if i =? 0 then Some cp
  else
    '(cp, i) ← heapify_up_loop (S (length (elements cp))) cp i orig_dl;
    cpudl_place cp i orig_cpu orig_dl.

Definition cpudl_heapify (cp : cpudl) (i : Z) : option cpudl :=
  if 0 <? i then
    ep ← aref (elements cp) (parent i);
    e ← aref (elements cp) i;
    if dl_time_before (dl ep) (dl e) then cpudl_heapify_up cp i
    else cpudl_heapify_down cp i
  else cpudl_heapify_down cp i.

Definition cpudl_maximum (cp : cpudl) : option Z :=
  e ← aref (elements cp) 0; Some (cpu e).

Definition cpudl_clear (cp : cpudl) (c : Z) : option cpudl :=
  e ← aref (elements cp) c;
  let old_idx := idx e in
  if old_idx =? IDX_INVALID then Some cp
  else
    last ← aref (elements cp) (cp_size cp - 1);
    let new_cpu := cpu last in
    cp ← set_dl cp old_idx (dl last);
    cp ← set_cpu cp old_idx new_cpu;
    let cp := with_size cp (cp_size cp - 1) in
    cp ← set_idx cp new_cpu old_idx;
    cp ← set_idx cp c IDX_INVALID;
    cp ← cpudl_heapify cp old_idx;
    Some (with_free_cpus cp (mask_set (free_cpus cp) c)).

Definition cpudl_set (cp : cpudl) (c d : Z) : option cpudl :=
  e ← aref (elements cp) c;
  let old_idx := idx e in
  if old_idx =? IDX_INVALID then
    let new_idx := cp_size cp in
    let cp := with_size cp (cp_size cp + 1) in
    cp ← set_dl cp new_idx d;
    cp ← set_cpu cp new_idx c;
    cp ← set_idx cp c new_idx;
    cp ← cpudl_heapify_up cp new_idx;
    Some (with_free_cpus cp (mask_clear (free_cpus cp) c))
  else
    cp ← set_dl cp old_idx d;
    cpudl_heapify cp old_idx.

Definition cpudl_set_freecpu (cp : cpudl) (c : Z) : cpudl :=
  with_free_cpus cp (mask_set (free_cpus cp) c).

Definition cpudl_clear_freecpu (cp : cpudl) (c : Z) : cpudl :=
  with_free_cpus cp (mask_clear (free_cpus cp) c).

(** The structure after the zeroed allocations and the [for_each_possible_cpu]
    loop. *)
Definition cpudl_fresh (nr_cpu_ids possible : Z) : cpudl :=
  mk_cpudl 0 0
    (imap (fun i e => if mask_test possible (Z.of_nat i)
                      then mk_item (dl e) (cpu e) IDX_INVALID else e)
       (replicate (Z.to_nat nr_cpu_ids) (mk_item 0 0 0))).

(** [cpudl_init]: the two allocations succeed or fail; [possible] is
    [cpu_possible_mask].  The result is the error code or the new heap. *)
Definition cpudl_init (nr_cpu_ids possible : Z) (elements_ok mask_ok : bool)
  : Z + cpudl :=
  if negb elements_ok then inl (- ENOMEM)
  else if negb mask_ok then inl (- ENOMEM)
  else inr (cpudl_fresh nr_cpu_ids possible).

(** *** Choosing a CPU for a deadline task *)

(** What [cpudl_find] reads of the task. *)
Record dl_task := mk_dl_task {
  t_deadline : Z;
  t_dl_density : Z;
  t_cpus_mask : Z;
  t_cpu : Z
}.

Section Find.

(** [nr_cpu_ids]; [capacity_orig_of(cpu)]; [arch_scale_cpu_capacity(cpu)]; the
    static key [sched_asym_cpucap_active()]. *)
Variable nr_cpu_ids : Z.
Variable capacity_orig_of : Z -> Z.
Variable arch_scale_cpu_capacity : Z -> Z.
Variable sched_asym_cpucap_active : bool.

Definition dl_task_fits_capacity (p : dl_task) (c : Z) : bool :=
  Z.shiftr (t_dl_density p) (BW_SHIFT - SCHED_CAPACITY_SHIFT)
    <=? arch_scale_cpu_capacity c.

(** The [for_each_cpu] loop: state is [later_mask], [max_cap] and [max_cpu]. *)
Fixpoint find_fitting (p : dl_task) (cpus : list Z) (later max_cap max_cpu : Z)
  : Z * Z * Z :=
  match cpus with
  | [] => (later, max_cap, max_cpu)
  | c :: cpus =>
      if dl_task_fits_capacity p c then find_fitting p cpus later max_cap max_cpu
      else
        let later := mask_clear later c in
        let cap := capacity_orig_of c in
        if (max_cap <? cap) || ((c =? t_cpu p) && (cap =? max_cap))
        then find_fitting p cpus later cap c
        else find_fitting p cpus later max_cap max_cpu
  end.

(** [later_mask] is [None] for a null pointer; the result is the return value
    and the mask. *)
Definition cpudl_find (cp : cpudl) (p : dl_task) (later_mask : option Z)
  : option (Z * option Z) :=
  let later_mask' :=
    match later_mask with
    | Some _ => Some (mask_and (free_cpus cp) (t_cpus_mask p))
    | None => None
    end in
  match later_mask' with
  | Some later =>
      if negb (mask_empty later) then
        if negb sched_asym_cpucap_active then Some (1, Some later)
        else
          let '(later', max_cap, max_cpu) :=
            find_fitting p (mask_bits nr_cpu_ids later) later 0 (-1) in
          if mask_empty later' then Some (1, Some (mask_set later' max_cpu))
          else Some (1, Some later')
      else
        best_cpu ← cpudl_maximum cp;
        e ← aref (elements cp) 0;
        if mask_test (t_cpus_mask p) best_cpu &&
           dl_time_before (t_deadline p) (dl e)
        then Some (1, Some (mask_set later best_cpu))
        else Some (0, Some later)
  | None =>
      best_cpu ← cpudl_maximum cp;
      e ← aref (elements cp) 0;
      if mask_test (t_cpus_mask p) best_cpu && dl_time_before (t_deadline p) (dl e)
      then Some (1, None) else Some (0, None)
  end.

End Find.

(** ** The two views of the array *)

(** Total projections: node deadline, node CPU and heap position of a CPU. *)
Definition item (cp : cpudl) (i : Z) : cpudl_item :=
  default (mk_item 0 (-1) (-1)) (aref (elements cp) i).
Definition sd (cp : cpudl) (i : Z) : Z := dl (item cp i).
Definition sc (cp : cpudl) (i : Z) : Z := cpu (item cp i).
Definition sx (cp : cpudl) (c : Z) : Z := idx (item cp c).
Definition cap (cp : cpudl) : Z := Z.of_nat (length (elements cp)).

(** The map the heap represents: the deadline recorded for a CPU. *)
Definition cpudl_deadline (cp : cpudl) (c : Z) : option Z :=
  if 0 <=? sx cp c then Some (sd cp (sx cp c)) else None.

Lemma aref_item cp i : 0 <= i < cap cp -> aref (elements cp) i = Some (item cp i).
Proof.
  intros Hi. unfold item. destruct (aref_lt (elements cp) i Hi) as [e He].
  by rewrite He.
Qed.

(** [cp'] is [cp] after a store to the node at [i]. *)
Lemma set_dl_spec cp i d :
  0 <= i < cap cp ->
  exists cp', set_dl cp i d = Some cp' /\ cap cp' = cap cp /\
    cp_size cp' = cp_size cp /\ free_cpus cp' = free_cpus cp /\
    (forall j, 0 <= j -> sd cp' j = if j =? i then d else sd cp j) /\
    (forall j, 0 <= j -> sc cp' j = sc cp j) /\
    (forall j, 0 <= j -> sx cp' j = sx cp j).
Proof.
  intros Hi. unfold set_dl. rewrite aref_item by done. simpl.
  rewrite aset_lt by done. simpl. eexists. split_and!; [done|..].
  { unfold cap. simpl. by rewrite length_insert. }
  all: try done.
  all: intros j Hj; unfold sd, sc, sx, item; simpl; rewrite aref_insert by done;
    destruct (Z.eqb_spec j i) as [->|]; try done.
Qed.

Lemma set_cpu_spec cp i c :
  0 <= i < cap cp ->
  exists cp', set_cpu cp i c = Some cp' /\ cap cp' = cap cp /\
    cp_size cp' = cp_size cp /\ free_cpus cp' = free_cpus cp /\
    (forall j, 0 <= j -> sd cp' j = sd cp j) /\
    (forall j, 0 <= j -> sc cp' j = if j =? i then c else sc cp j) /\
    (forall j, 0 <= j -> sx cp' j = sx cp j).
Proof.
  intros Hi. unfold set_cpu. rewrite aref_item by done. simpl.
  rewrite aset_lt by done. simpl. eexists. split_and!; [done|..].
  { unfold cap. simpl. by rewrite length_insert. }
  all: try done.
  all: intros j Hj; unfold sd, sc, sx, item; simpl; rewrite aref_insert by done;
    destruct (Z.eqb_spec j i) as [->|]; try done.
Qed.

Lemma set_idx_spec cp c x :
  0 <= c < cap cp ->
  exists cp', set_idx cp c x = Some cp' /\ cap cp' = cap cp /\
    cp_size cp' = cp_size cp /\ free_cpus cp' = free_cpus cp /\
    (forall j, 0 <= j -> sd cp' j = sd cp j) /\
    (forall j, 0 <= j -> sc cp' j = sc cp j) /\
    (forall j, 0 <= j -> sx cp' j = if j =? c then x else sx cp j).
Proof.
  intros Hi. unfold set_idx. rewrite aref_item by done. simpl.
  rewrite aset_lt by done. simpl. eexists. split_and!; [done|..].
  { unfold cap. simpl. by rewrite length_insert. }
  all: try done.
  all: intros j Hj; unfold sd, sc, sx, item; simpl; rewrite aref_insert by done;
    destruct (Z.eqb_spec j c) as [->|]; try done.
Qed.

(** The effect of [cpudl_place]. *)
Definition placed (cp cp' : cpudl) (i c d : Z) : Prop :=
  cap cp' = cap cp /\ cp_size cp' = cp_size cp /\ free_cpus cp' = free_cpus cp /\
  (forall j, 0 <= j -> sd cp' j = if j =? i then d else sd cp j) /\
  (forall j, 0 <= j -> sc cp' j = if j =? i then c else sc cp j) /\
  (forall j, 0 <= j -> sx cp' j = if j =? c then i else sx cp j).

Lemma cpudl_place_spec cp i c d :
  0 <= i < cap cp -> 0 <= c < cap cp ->
  exists cp', cpudl_place cp i c d = Some cp' /\ placed cp cp' i c d.
Proof.
  intros Hi Hc. unfold cpudl_place.
  destruct (set_cpu_spec cp i c Hi) as (c1 & -> & L1 & S1 & F1 & D1 & C1 & X1). simpl.
  destruct (set_dl_spec c1 i d) as (c2 & -> & L2 & S2 & F2 & D2 & C2 & X2); [lia|]. simpl.
  rewrite aref_item by lia. simpl.
  assert (E : cpu (item c2 i) = c).
  { change (sc c2 i = c). rewrite C2, C1 by lia. by rewrite Z.eqb_refl. }
  rewrite E.
  destruct (set_idx_spec c2 c i) as (c3 & -> & L3 & S3 & F3 & D3 & C3 & X3); [lia|].
  exists c3. split; [done|]. split_and!; try congruence.
  - intros j Hj. rewrite D3, D2, D1 by lia. done.
  - intros j Hj. rewrite C3, C2, C1 by lia. done.
  - intros j Hj. rewrite X3, X2, X1 by lia. done.
Qed.

(** ** Index arithmetic of the heap *)

Lemma parent_div i : parent i = (i - 1) / 2.
Proof. unfold parent. by rewrite Z.shiftr_div_pow2. Qed.
Lemma left_child_eq i : left_child i = 2 * i + 1.
Proof. unfold left_child. rewrite Z.shiftl_mul_pow2 by lia. lia. Qed.
Lemma right_child_eq i : right_child i = 2 * i + 2.
Proof. unfold right_child. rewrite Z.shiftl_mul_pow2 by lia. lia. Qed.

(** [hidx] turns [parent] and the children into linear arithmetic. *)
Ltac hidx :=
  rewrite ?parent_div, ?left_child_eq, ?right_child_eq in *;
  Z.div_mod_to_equations; lia.

Section Proofs.

(** The CPUs that may appear in the heap, and the deadline at the bottom of the
    window in which all live deadlines lie. *)
Context (P : Z -> Prop) (n base : Z).
Hypothesis P_range : forall c, P c -> 0 <= c < n.

(** Deadlines are compared modulo 2^64; they are ordered by their distance from
    [base] as long as that distance is below 2^63. *)
Definition key (d : Z) : Z := u64 (d - base).
Definition in_window (d : Z) : Prop := 0 <= d < two64 /\ key d < two63.

Lemma dl_time_before_key a b :
  in_window a -> in_window b -> dl_time_before a b = (key a <? key b).
Proof.
  intros [Ha Ka] [Hb Kb]. unfold dl_time_before, key in *.
  pose proof (u64_range (a - base)). pose proof (u64_range (b - base)).
  assert (E : s64 (a -u64 b) = u64 (a - base) - u64 (b - base)).
  { rewrite s64_u64, <- (s64_small (u64 (a - base) - u64 (b - base))) by lia.
    rewrite s64_sub_u64. f_equal. lia. }
  rewrite E. ztriv.
Qed.

(** ** Consistency of the two views *)

(** Every heap node names a CPU that points back at it, and every CPU is out of
    the heap or points at its own node. *)
Definition consistent (cp : cpudl) : Prop :=
  cap cp = n /\ 0 <= cp_size cp <= n /\
  (forall i, 0 <= i < cp_size cp -> P (sc cp i) /\ sx cp (sc cp i) = i) /\
  (forall c, P c -> sx cp c = IDX_INVALID \/
                    (0 <= sx cp c < cp_size cp /\ sc cp (sx cp c) = c)).

(** The same with a hole at [h] whose node, of CPU [o], is held by the sift. *)
Definition holed (cp : cpudl) (h o : Z) : Prop :=
  cap cp = n /\ 0 <= h < cp_size cp /\ cp_size cp <= n /\ P o /\
  (forall i, 0 <= i < cp_size cp -> i <> h ->
             P (sc cp i) /\ sc cp i <> o /\ sx cp (sc cp i) = i) /\
  (forall c, P c -> c <> o ->
             sx cp c = IDX_INVALID \/
             (0 <= sx cp c < cp_size cp /\ sx cp c <> h /\ sc cp (sx cp c) = c)).

Lemma consistent_holed cp h :
  consistent cp -> 0 <= h < cp_size cp -> holed cp h (sc cp h).
Proof.
  intros (L & Sz & A & B) Hh. split_and!; try lia.
  - by apply A.
  - intros i Hi Hne. destruct (A i Hi) as [Pi Xi]. split_and!; [done| |done].
    intros E. apply Hne. destruct (A h Hh). congruence.
  - intros c Pc Hne. destruct (B c Pc) as [|[? E]]; [by left|right].
    split_and!; try done; try lia. intros <-. congruence.
Qed.

Lemma holed_fill cp cp' h o d :
  holed cp h o -> placed cp cp' h o d -> consistent cp'.
Proof.
  intros (L & Hh & Sz & Po & A & B) (L' & S' & F' & D & C & X).
  pose proof (P_range o Po).
  split_and!; try lia.
  - intros i Hi. rewrite C by lia. destruct (Z.eqb_spec i h) as [->|Hne].
    + split; [done|]. rewrite X by lia. by rewrite Z.eqb_refl.
    + destruct (A i) as (Pi & Ho & Xi); [lia|done|]. split; [done|].
      pose proof (P_range _ Pi). rewrite X by lia. ztriv.
  - intros c Pc. pose proof (P_range c Pc). rewrite X by lia.
    destruct (Z.eqb_spec c o) as [->|Hne].
    + right. rewrite C by lia. rewrite Z.eqb_refl. split; [lia|done].
    + destruct (B c Pc Hne) as [|(? & ? & E)]; [by left|right].
      split; [lia|]. rewrite C by lia. ztriv.
Qed.

Lemma holed_pull cp cp' h o s :
  holed cp h o -> 0 <= s < cp_size cp -> s <> h ->
  placed cp cp' h (sc cp s) (sd cp s) -> holed cp' s o.
Proof.
  intros (L & Hh & Sz & Po & A & B) Hs Hsh (L' & S' & F' & D & C & X).
  destruct (A s Hs Hsh) as (Ps & Hso & Xs).
  pose proof (P_range _ Ps).
  split_and!; try lia; [done|..].
  - intros i Hi Hne. rewrite C by lia. destruct (Z.eqb_spec i h) as [->|Hih].
    + rewrite X by lia. rewrite Z.eqb_refl. done.
    + destruct (A i) as (Pi & Ho & Xi); [lia|done|]. pose proof (P_range _ Pi).
      rewrite X by lia. destruct (Z.eqb_spec (sc cp i) (sc cp s)); [congruence|done].
  - intros c Pc Hne. pose proof (P_range c Pc). rewrite X by lia.
    destruct (Z.eqb_spec c (sc cp s)) as [->|Hcs].
    + right. rewrite C by lia. rewrite Z.eqb_refl. split_and!; lia || done.
    + destruct (B c Pc Hne) as [|(? & ? & E)]; [by left|right].
      rewrite C by lia.
      split_and!; [lia|lia|intros Es; rewrite Es in *; congruence|ztriv].
Qed.

(** The map on the CPUs other than the one in flight does not change. *)
Lemma placed_deadline cp cp' h o c d c' :
  holed cp h o -> P c' -> c' <> o -> c' <> c -> placed cp cp' h c d ->
  cpudl_deadline cp' c' = cpudl_deadline cp c'.
Proof.
  intros (L & Hh & Sz & Po & A & B) Pc Ho Hne (L' & S' & F' & D & C & X).
  pose proof (P_range c' Pc). unfold cpudl_deadline. rewrite X by lia.
  destruct (Z.eqb_spec c' c); [done|].
  destruct (B c' Pc Ho) as [E|(? & ? & E)].
  - rewrite E. done.
  - destruct (Z.leb_spec 0 (sx cp c')); [|done]. rewrite D by lia. ztriv.
Qed.

Lemma pull_deadline cp cp' h o s c :
  holed cp h o -> 0 <= s < cp_size cp -> s <> h -> P c -> c <> o ->
  placed cp cp' h (sc cp s) (sd cp s) ->
  cpudl_deadline cp' c = cpudl_deadline cp c.
Proof.
  intros Hole Hs Hsh Pc Hco Pl.
  destruct (decide (c = sc cp s)) as [->|Hne]; [|by eapply placed_deadline].
  destruct Hole as (L & Hh & Sz & Po & A & B), Pl as (L' & S' & F' & D & C & X).
  destruct (A s Hs Hsh) as (Ps & Hso & Xs). pose proof (P_range _ Ps).
  unfold cpudl_deadline. rewrite X by lia. rewrite Z.eqb_refl, Xs.
  rewrite D by lia. rewrite Z.eqb_refl. ztriv.
Qed.

Lemma fill_deadline cp cp' h o d :
  holed cp h o -> placed cp cp' h o d -> cpudl_deadline cp' o = Some d.
Proof.
  intros (L & Hh & Sz & Po & A & B) (L' & S' & F' & D & C & X).
  pose proof (P_range _ Po). unfold cpudl_deadline. rewrite X by lia.
  rewrite Z.eqb_refl. rewrite D by lia. rewrite Z.eqb_refl. ztriv.
Qed.

(** ** Heap order *)

Definition kd (cp : cpudl) (i : Z) : Z := key (sd cp i).

Definition windowed (cp : cpudl) : Prop :=
  forall i, 0 <= i < cp_size cp -> in_window (sd cp i).
Definition heap (cp : cpudl) : Prop :=
  forall i, 0 < i < cp_size cp -> kd cp i <= kd cp (parent i).

(** The order while position [h] is a hole, and what links its parent to its
    children. *)
Definition windowed_but (cp : cpudl) (h : Z) : Prop :=
  forall i, 0 <= i < cp_size cp -> i <> h -> in_window (sd cp i).
Definition heap_but (cp : cpudl) (h : Z) : Prop :=
  forall i, 0 < i < cp_size cp -> i <> h -> parent i <> h ->
            kd cp i <= kd cp (parent i).
Definition bridged (cp : cpudl) (h : Z) : Prop :=
  0 < h -> forall i, 0 < i < cp_size cp -> parent i = h -> kd cp i <= kd cp (parent h).

Definition below_parent (cp : cpudl) (h d : Z) : Prop :=
  0 < h -> key d <= kd cp (parent h).
Definition above_children (cp : cpudl) (h d : Z) : Prop :=
  forall i, 0 < i < cp_size cp -> parent i = h -> kd cp i <= key d.

Definition sifting (cp : cpudl) (h o d : Z) : Prop :=
  holed cp h o /\ in_window d /\ windowed_but cp h /\ heap_but cp h /\ bridged cp h.

(** The representation invariant of the component. *)
Definition cpudl_wf (cp : cpudl) : Prop := consistent cp /\ windowed cp /\ heap cp.

(** [cp'] holds the same CPUs as [cp], apart from the one in flight. *)
Definition same_but (cp cp' : cpudl) (o : Z) : Prop :=
  cp_size cp' = cp_size cp /\ free_cpus cp' = free_cpus cp /\
  forall c, P c -> c <> o -> cpudl_deadline cp' c = cpudl_deadline cp c.

Lemma same_but_trans cp1 cp2 cp3 o :
  same_but cp1 cp2 o -> same_but cp2 cp3 o -> same_but cp1 cp3 o.
Proof.
  intros (S1 & F1 & D1) (S2 & F2 & D2). split_and!; try congruence.
  intros c Pc Hne. rewrite D2, D1; done.
Qed.

Lemma placed_kd cp cp' h c d i :
  placed cp cp' h c d -> 0 <= i -> kd cp' i = if i =? h then key d else kd cp i.
Proof.
  intros (_ & _ & _ & D & _) Hi. unfold kd. rewrite D by done. by destruct (i =? h).
Qed.

Lemma sift_finish cp h o d :
  sifting cp h o d -> below_parent cp h d -> above_children cp h d ->
  exists cp', cpudl_place cp h o d = Some cp' /\ cpudl_wf cp' /\
    same_but cp cp' o /\ cpudl_deadline cp' o = Some d.
Proof.
  intros (Hole & Wd & W & H & _) Hp Hc.
  pose proof Hole as (L & Hh & Sz & Po & _). pose proof (P_range _ Po).
  destruct (cpudl_place_spec cp h o d) as (cp' & E & Pl); [lia|lia|].
  exists cp'. split; [done|].
  assert (K : forall i, 0 <= i -> kd cp' i = if i =? h then key d else kd cp i)
    by (intros; by eapply placed_kd).
  pose proof Pl as (L' & S' & F' & D & C & X).
  split_and!; [split_and!|split_and!|].
  - by eapply holed_fill.
  - intros i Hi. rewrite D by lia. destruct (Z.eqb_spec i h); [done|].
    apply W; lia.
  - intros i Hi. assert (0 <= parent i < i) by hidx. rewrite !K by lia.
    destruct (Z.eqb_spec i h), (Z.eqb_spec (parent i) h); try lia.
    + subst i. apply Hp. lia.
    + apply Hc; lia.
    + apply H; lia.
  - done.
  - done.
  - intros c Pc Hne. by eapply placed_deadline.
  - by eapply fill_deadline.
Qed.

(** One step of either sift: the node at [s], a child or the parent of the
    hole, moves into the hole. *)
Lemma pull_step cp h o s :
  holed cp h o -> 0 <= s < cp_size cp -> s <> h ->
  exists cp', cpudl_place cp h (sc cp s) (sd cp s) = Some cp' /\
    holed cp' s o /\ same_but cp cp' o /\
    (forall i, 0 <= i -> sd cp' i = if i =? h then sd cp s else sd cp i).
Proof.
  intros Hole Hs Hne. pose proof Hole as (L & Hh & Sz & Po & A & _).
  destruct (A s Hs Hne) as (Ps & _). pose proof (P_range _ Ps).
  destruct (cpudl_place_spec cp h (sc cp s) (sd cp s)) as (cp' & E & Pl); [lia|lia|].
  exists cp'. pose proof Pl as (L' & S' & F' & D & C & X).
  split_and!; [done|by eapply holed_pull| |done].
  split_and!; [done|done|]. intros c Pc Hco. by apply (pull_deadline cp cp' h o s).
Qed.

Lemma pull_windowed cp cp' h s :
  windowed_but cp h -> 0 <= h < cp_size cp -> 0 <= s < cp_size cp -> s <> h ->
  cp_size cp' = cp_size cp ->
  (forall i, 0 <= i -> sd cp' i = if i =? h then sd cp s else sd cp i) ->
  windowed_but cp' s.
Proof.
  intros W Hh Hs Hne S' D i Hi His. rewrite D by lia.
  destruct (Z.eqb_spec i h); apply W; lia.
Qed.

(** The largest child of [h] moves up. *)
Lemma pull_child cp h o d s :
  sifting cp h o d -> 0 < s < cp_size cp -> parent s = h ->
  key d <= kd cp s ->
  (forall i, 0 < i < cp_size cp -> parent i = h -> kd cp i <= kd cp s) ->
  exists cp', cpudl_place cp h (sc cp s) (sd cp s) = Some cp' /\
    sifting cp' s o d /\ below_parent cp' s d /\ same_but cp cp' o.
Proof.
  intros (Hole & Wd & W & H & Br) Hs Hps Hks Hmax.
  assert (Hne : s <> h) by hidx. assert (0 <= h) by hidx.
  destruct (pull_step cp h o s Hole) as (cp' & E & Hole' & Same & D); [lia|done|].
  pose proof Same as (S' & _). pose proof Hole as (_ & Hh & _).
  assert (K : forall i, 0 <= i -> kd cp' i = if i =? h then kd cp s else kd cp i).
  { intros i Hi. unfold kd. rewrite D by done. by destruct (i =? h). }
  exists cp'. split_and!; [done| |..|done].
  - split_and!; [done|done|eapply pull_windowed; eauto; lia|..].
    + intros i Hi His Hpi. assert (0 <= parent i < i) by hidx. rewrite !K by lia.
      destruct (Z.eqb_spec i h), (Z.eqb_spec (parent i) h); try lia.
      * subst i. apply Br; lia.
      * apply Hmax; lia.
      * apply H; lia.
    + intros Hs0 i Hi Hpi. assert (0 <= parent i < i) by hidx. rewrite !K by hidx.
      rewrite Hps, Z.eqb_refl. destruct (Z.eqb_spec i h); [hidx|].
      rewrite <- Hpi. apply H; lia.
  - intros _. rewrite K by hidx. rewrite Hps, Z.eqb_refl. done.
Qed.

(** The parent of [h] moves down. *)
Lemma pull_parent cp h o d :
  sifting cp h o d -> 0 < h -> kd cp (parent h) <= key d ->
  exists cp', cpudl_place cp h (sc cp (parent h)) (sd cp (parent h)) = Some cp' /\
    sifting cp' (parent h) o d /\ above_children cp' (parent h) d /\ same_but cp cp' o.
Proof.
  intros (Hole & Wd & W & H & Br) Hh0 Hk. pose proof Hole as (_ & Hh & _).
  assert (Hp : 0 <= parent h < h) by hidx.
  destruct (pull_step cp h o (parent h) Hole) as (cp' & E & Hole' & Same & D); [lia|lia|].
  pose proof Same as (S' & _).
  assert (K : forall i, 0 <= i -> kd cp' i = if i =? h then kd cp (parent h) else kd cp i).
  { intros i Hi. unfold kd. rewrite D by done. by destruct (i =? h). }
  assert (Sib : forall i, 0 < i < cp_size cp -> i <> h -> parent i = parent h ->
                kd cp i <= kd cp (parent h)).
  { intros i Hi Hih Hpi. rewrite <- Hpi. apply H; lia. }
  exists cp'. split_and!; [done| |..|done].
  - split_and!; [done|done|eapply pull_windowed; eauto; lia|..].
    + intros i Hi His Hpi. assert (0 <= parent i < i) by hidx. rewrite !K by lia.
      destruct (Z.eqb_spec i h), (Z.eqb_spec (parent i) h); try lia.
      * subst i. done.
      * apply Br; lia.
      * apply H; lia.
    + intros Hp0 i Hi Hpi. assert (0 <= parent (parent h) < parent h) by hidx.
      rewrite !K by lia. destruct (Z.eqb_spec (parent (parent h)) h); [lia|].
      assert (kd cp (parent h) <= kd cp (parent (parent h))) by (apply H; lia).
      destruct (Z.eqb_spec i h); [done|]. specialize (Sib i). lia.
  - intros i Hi Hpi. rewrite K by lia. destruct (Z.eqb_spec i h); [done|].
    specialize (Sib i). lia.
Qed.

(** ** The sift loops terminate and restore the order *)

Lemma heapify_down_loop_spec fuel cp h o d :
  sifting cp h o d -> below_parent cp h d ->
  (Z.to_nat (cp_size cp - h) <= fuel)%nat ->
  exists cp' h', heapify_down_loop fuel cp h d = Some (cp', h') /\
    sifting cp' h' o d /\ below_parent cp' h' d /\ above_children cp' h' d /\
    same_but cp cp' o.
Proof.
  revert cp h. induction fuel as [|fuel IH]; intros cp h Sft Bp Hf;
    pose proof Sft as (Hole & Wd & W & H & Br); pose proof Hole as (L & Hh & Sz & _).
  { lia. }
  assert (Rec : forall s, 0 < s < cp_size cp -> parent s = h -> key d < kd cp s ->
    (forall i, 0 < i < cp_size cp -> parent i = h -> kd cp i <= kd cp s) ->
    exists cp' h', (cp' ← cpudl_place cp h (sc cp s) (sd cp s);
                    heapify_down_loop fuel cp' s d) = Some (cp', h') /\
      sifting cp' h' o d /\ below_parent cp' h' d /\ above_children cp' h' d /\
      same_but cp cp' o).
  { intros s Hs Hps Hk Hmax.
    destruct (pull_child cp h o d s) as (cp1 & -> & Sft1 & Bp1 & Sm1); try done; [lia|].
    assert (s > h) by hidx. pose proof Sm1 as (S1 & _).
    destruct (IH cp1 s Sft1 Bp1) as (cp2 & h2 & E & ? & ? & ? & ?); [lia|].
    exists cp2, h2. split_and!; try done. by eapply same_but_trans. }
  assert (Stop : (forall i, 0 < i < cp_size cp -> parent i = h -> kd cp i <= key d) ->
    exists cp' h', Some (cp, h) = Some (cp', h') /\
      sifting cp' h' o d /\ below_parent cp' h' d /\ above_children cp' h' d /\
      same_but cp cp' o).
  { intros Hc. exists cp, h. split_and!; done. }
  assert (Kids : forall i, 0 < i -> parent i = h -> i = 2 * h + 1 \/ i = 2 * h + 2)
    by (intros; hidx).
  assert (Pl : parent (2 * h + 1) = h) by hidx.
  assert (Pr : parent (2 * h + 2) = h) by hidx.
  assert (Before : forall a i, in_window a -> 0 < i < cp_size cp -> i <> h ->
            dl_time_before a (sd cp i) = (key a <? kd cp i)).
  { intros. apply dl_time_before_key; [done|]. apply W; lia. }
  simpl. rewrite left_child_eq, right_child_eq.
  destruct (Z.ltb_spec (2 * h + 1) (cp_size cp)) as [Hl|Hl]; simpl;
  destruct (Z.ltb_spec (2 * h + 2) (cp_size cp)) as [Hr|Hr]; simpl; try lia.
  - rewrite (aref_item cp (2 * h + 1)) by lia. simpl.
    rewrite (aref_item cp (2 * h + 2)) by lia. fold (sd cp (2 * h + 1)) (sd cp (2 * h + 2)).
    rewrite Before by (done || lia).
    destruct (Z.ltb_spec (key d) (kd cp (2 * h + 1))); simpl; fold (sd cp (2 * h + 2));
      (rewrite Before by (done || lia || (apply W; lia)));
      fold (kd cp (2 * h + 1));
      match goal with |- context [?x <? ?y] => destruct (Z.ltb_spec x y) end; simpl;
      match goal with |- context [?x =? ?y] => destruct (Z.eqb_spec x y); try lia end;
      try (rewrite aref_item by lia; simpl; apply Rec; try done; try lia;
           intros i Hi Hpi; destruct (Kids i) as [->| ->]; done || lia).
    apply Stop. intros i Hi Hpi. destruct (Kids i) as [->| ->]; done || lia.
  - rewrite (aref_item cp (2 * h + 1)) by lia. simpl. fold (sd cp (2 * h + 1)).
    rewrite Before by (done || lia).
    destruct (Z.ltb_spec (key d) (kd cp (2 * h + 1))); simpl;
      match goal with |- context [?x =? ?y] => destruct (Z.eqb_spec x y); try lia end.
    + rewrite aref_item by lia. simpl. apply Rec; try done; try lia.
      intros i Hi Hpi. destruct (Kids i) as [->| ->]; done || lia.
    + apply Stop. intros i Hi Hpi. destruct (Kids i) as [->| ->]; done || lia.
  - destruct (Z.eqb_spec h h); [|lia].
    apply Stop. intros i Hi Hpi. destruct (Kids i) as [->| ->]; done || lia.
Qed.

Lemma heapify_up_loop_spec fuel cp h o d :
  sifting cp h o d -> above_children cp h d -> 0 < h -> (Z.to_nat h <= fuel)%nat ->
  exists cp' h', heapify_up_loop fuel cp h d = Some (cp', h') /\
    sifting cp' h' o d /\ below_parent cp' h' d /\ above_children cp' h' d /\
    same_but cp cp' o.
Proof.
  revert cp h. induction fuel as [|fuel IH]; intros cp h Sft Ac Hh0 Hf;
    pose proof Sft as (Hole & Wd & W & H & Br); pose proof Hole as (L & Hh & Sz & _).
  { lia. }
  assert (Hp : 0 <= parent h < h) by hidx.
  simpl. rewrite aref_item by lia. simpl. fold (sd cp (parent h)) (sc cp (parent h)).
  rewrite dl_time_before_key by (done || (apply W; lia)).
  fold (kd cp (parent h)).
  destruct (Z.ltb_spec (key d) (kd cp (parent h))) as [Hlt|Hge].
  - exists cp, h. split_and!; try done. intros _. lia.
  - destruct (pull_parent cp h o d) as (cp1 & -> & Sft1 & Ac1 & Sm1); try done. simpl.
    destruct (Z.eqb_spec (parent h) 0) as [E0|N0].
    + exists cp1, (parent h). split_and!; try done. intros ?; lia.
    + destruct (IH cp1 (parent h)) as (cp2 & h2 & E & ? & ? & ? & ?); try done; [lia|lia|].
      exists cp2, h2. split_and!; try done. by eapply same_but_trans.
Qed.

#[local] Arguments heapify_down_loop : simpl never.
#[local] Arguments heapify_up_loop : simpl never.

(** ** Restoring the heap after one node changed *)

Definition unsettled (cp : cpudl) (i : Z) : Prop :=
  consistent cp /\ windowed cp /\ 0 <= i < cp_size cp /\ heap_but cp i /\ bridged cp i.

(** What both directions of the sift deliver. *)
Definition resettles (cp : cpudl) (r : option cpudl) : Prop :=
  exists cp', r = Some cp' /\ cpudl_wf cp' /\ cp_size cp' = cp_size cp /\
    free_cpus cp' = free_cpus cp /\
    forall c, P c -> cpudl_deadline cp' c = cpudl_deadline cp c.

Lemma unsettled_sifting cp i : unsettled cp i -> sifting cp i (sc cp i) (sd cp i).
Proof.
  intros (C & W & Hi & H & B). split; [by apply consistent_holed|].
  split; [by apply W|]. split_and!; try done. intros j Hj _. by apply W.
Qed.

Lemma consistent_deadline cp i :
  consistent cp -> 0 <= i < cp_size cp -> cpudl_deadline cp (sc cp i) = Some (sd cp i).
Proof.
  intros (L & Sz & A & B) Hi. destruct (A i Hi) as [_ X].
  unfold cpudl_deadline. rewrite X. ztriv.
Qed.

Lemma settled_wf cp i :
  unsettled cp i -> below_parent cp i (sd cp i) -> above_children cp i (sd cp i) ->
  cpudl_wf cp.
Proof.
  intros (C & W & Hi & H & B) Bp Ac. split_and!; [done|done|].
  intros j Hj. destruct (decide (j = i)) as [->|]; [apply Bp; lia|].
  destruct (decide (parent j = i)) as [E|]; [rewrite E; by apply Ac|by apply H].
Qed.

Lemma finish_resettles cp cp1 i h :
  unsettled cp i -> sifting cp1 h (sc cp i) (sd cp i) ->
  below_parent cp1 h (sd cp i) -> above_children cp1 h (sd cp i) ->
  same_but cp cp1 (sc cp i) ->
  resettles cp (cpudl_place cp1 h (sc cp i) (sd cp i)).
Proof.
  intros (C & _ & Hi & _) Sft Bp Ac Sm.
  destruct (sift_finish _ _ _ _ Sft Bp Ac) as (cp2 & -> & Wf & Sm2 & Dl).
  pose proof (same_but_trans _ _ _ _ Sm Sm2) as (S' & F' & D').
  exists cp2. split_and!; try done. intros c Pc.
  destruct (decide (c = sc cp i)) as [->|]; [|by apply D'].
  rewrite Dl. by rewrite consistent_deadline.
Qed.

Lemma heapify_down_spec cp i :
  unsettled cp i -> below_parent cp i (sd cp i) ->
  resettles cp (cpudl_heapify_down cp i).
Proof.
  intros U Bp. pose proof U as ((L & Sz & _) & W & Hi & H & Br).
  unfold cpudl_heapify_down. rewrite aref_item by lia. simpl.
  destruct (Z.leb_spec (cp_size cp) (left_child i)) as [Hl|Hl].
  - exists cp. split_and!; try done; apply (settled_wf cp i); try done.
    all: intros j Hj Hpj; hidx.
  - fold (sd cp i) (sc cp i).
    destruct (heapify_down_loop_spec (S (length (elements cp))) cp i (sc cp i) (sd cp i))
      as (cp1 & h & -> & Sft & Bp1 & Ac1 & Sm); try done.
    + by apply unsettled_sifting.
    + unfold cap in L. lia.
    + by apply finish_resettles.
Qed.

Lemma heapify_up_spec cp i :
  unsettled cp i -> above_children cp i (sd cp i) ->
  resettles cp (cpudl_heapify_up cp i).
Proof.
  intros U Ac. pose proof U as ((L & Sz & _) & W & Hi & H & Br).
  unfold cpudl_heapify_up. rewrite aref_item by lia. simpl.
  destruct (Z.eqb_spec i 0) as [->|Hne].
  - exists cp. split_and!; try done; apply (settled_wf cp 0); try done.
    all: intros Hlt; lia.
  - fold (sd cp i) (sc cp i).
    destruct (heapify_up_loop_spec (S (length (elements cp))) cp i (sc cp i) (sd cp i))
      as (cp1 & h & -> & Sft & Bp1 & Ac1 & Sm); try done.
    + by apply unsettled_sifting.
    + lia.
    + unfold cap in L. lia.
    + by apply finish_resettles.
Qed.

Lemma heapify_spec cp i : unsettled cp i -> resettles cp (cpudl_heapify cp i).
Proof.
  intros U. pose proof U as ((L & Sz & _) & W & Hi & H & Br). unfold cpudl_heapify.
  destruct (Z.ltb_spec 0 i) as [H0|H0]; [|apply heapify_down_spec; try done; intros ?; lia].
  assert (0 <= parent i < i) by hidx.
  rewrite (aref_item cp (parent i)) by lia. simpl. rewrite (aref_item cp i) by lia. simpl.
  fold (sd cp (parent i)) (sd cp i).
  rewrite dl_time_before_key by (apply W; lia). fold (kd cp (parent i)) (kd cp i).
  destruct (Z.ltb_spec (kd cp (parent i)) (kd cp i)).
  - apply heapify_up_spec; [done|]. intros j Hj Hpj. fold (kd cp i).
    specialize (Br H0 j Hj Hpj). lia.
  - apply heapify_down_spec; [done|]. intros _. done.
Qed.

(** Position [cp_size] lies outside the heap: nothing to restore. *)
Lemma heapify_last cp :
  cap cp = n -> 0 <= cp_size cp < n -> windowed cp ->
  in_window (sd cp (cp_size cp)) -> below_parent cp (cp_size cp) (sd cp (cp_size cp)) ->
  cpudl_heapify cp (cp_size cp) = Some cp.
Proof.
  intros L Sz W Wi Bp.
  assert (Down : cpudl_heapify_down cp (cp_size cp) = Some cp).
  { unfold cpudl_heapify_down. rewrite aref_item by lia. simpl.
    destruct (Z.leb_spec (cp_size cp) (left_child (cp_size cp))); [done|hidx]. }
  unfold cpudl_heapify. destruct (Z.ltb_spec 0 (cp_size cp)); [|done].
  assert (0 <= parent (cp_size cp) < cp_size cp) by hidx.
  rewrite (aref_item cp (parent _)) by lia. simpl. rewrite aref_item by lia. simpl.
  fold (sd cp (parent (cp_size cp))) (sd cp (cp_size cp)).
  rewrite dl_time_before_key by (done || (apply W; lia)).
  fold (kd cp (parent (cp_size cp))). unfold below_parent in Bp. ztriv.
Qed.

(** ** Updates of the map *)

Lemma modify_unsettled cp cp' i :
  cpudl_wf cp -> consistent cp' -> 0 <= i < cp_size cp' ->
  (cp_size cp' <= cp_size cp \/ cp_size cp' = cp_size cp + 1 /\ i = cp_size cp) ->
  (forall j, 0 <= j < cp_size cp' -> j <> i -> sd cp' j = sd cp j) ->
  in_window (sd cp' i) -> unsettled cp' i.
Proof.
  intros (C & W & H) C' Hi Hsz D Wi.
  assert (K : forall j, 0 <= j < cp_size cp' -> j <> i -> kd cp' j = kd cp j)
    by (intros; unfold kd; by rewrite D).
  split_and!; try done; try lia.
  - intros j Hj. destruct (decide (j = i)) as [->|]; [done|].
    rewrite D by done. apply W. lia.
  - intros j Hj Hji Hpj. assert (0 <= parent j < j) by hidx.
    rewrite !K by (done || lia). apply H. lia.
  - intros H0 j Hj Hpj. assert (0 <= parent i < i) by hidx. assert (i < j) by hidx.
    rewrite !K by lia. transitivity (kd cp i); [rewrite <- Hpj|]; apply H; lia.
Qed.

(** A CPU outside the heap leaves room for it in the array. *)
Lemma room cp c : consistent cp -> P c -> sx cp c = IDX_INVALID -> cp_size cp < n.
Proof.
  intros (L & Sz & A & B) Pc Hx. pose proof (P_range c Pc).
  assert (ND : NoDup (c :: (sc cp <$> seqZ 0 (cp_size cp)))).
  { constructor.
    - intros (i & E & Hi)%list_elem_of_fmap. apply elem_of_seqZ in Hi.
      destruct (A i) as [_ X]; [lia|]. rewrite <- E, Hx in X. unfold IDX_INVALID in X. lia.
    - apply NoDup_fmap_2_strong; [|apply NoDup_seqZ].
      intros i j Hi%elem_of_seqZ Hj%elem_of_seqZ E.
      destruct (A i) as [_ Xi]; [lia|]. destruct (A j) as [_ Xj]; [lia|]. congruence. }
  assert (Hlen : (length (c :: (sc cp <$> seqZ 0 (cp_size cp))) <= length (seqZ 0 n))%nat).
  { apply submseteq_length, NoDup_submseteq; [done|]. intros x.
    rewrite list_elem_of_In. intros [<-|Hin%list_elem_of_In]; [apply elem_of_seqZ; lia|].
    apply list_elem_of_fmap in Hin as (i & -> & Hi%elem_of_seqZ).
    apply elem_of_seqZ. destruct (A i) as [Pi _]; [lia|]. pose proof (P_range _ Pi). lia. }
  simpl in Hlen. rewrite length_fmap, !length_seqZ in Hlen. lia.
Qed.

Definition updates (cp : cpudl) (f : Z -> option Z) (free : Z) (r : option cpudl) : Prop :=
  exists cp', r = Some cp' /\ cpudl_wf cp' /\ free_cpus cp' = free /\
    forall c, P c -> cpudl_deadline cp' c = f c.

Lemma cpudl_set_new cp c d :
  cpudl_wf cp -> P c -> in_window d -> sx cp c = IDX_INVALID ->
  updates cp (fun c' => if c' =? c then Some d else cpudl_deadline cp c')
    (mask_clear (free_cpus cp) c) (cpudl_set cp c d).
Proof.
  intros Wf Pc Wd Hx. pose proof Wf as (C & W & H). pose proof C as (L & Sz & A & B).
  pose proof (P_range c Pc). pose proof (room cp c C Pc Hx) as Hroom.
  unfold cpudl_set. rewrite aref_item by lia. simpl. fold (sx cp c). rewrite Hx. simpl.
  set (i := cp_size cp) in *.
  destruct (set_dl_spec (with_size cp (i + 1)) i d)
    as (c1 & -> & L1 & S1 & F1 & D1 & C1 & X1); [unfold cap in *; simpl; lia|]. simpl.
  change (cap (with_size cp (i + 1))) with (cap cp) in *.
  destruct (set_cpu_spec c1 i c) as (c2 & -> & L2 & S2 & F2 & D2 & C2 & X2); [lia|]. simpl.
  destruct (set_idx_spec c2 c i) as (c3 & -> & L3 & S3 & F3 & D3 & C3 & X3); [lia|]. simpl.
  assert (D' : forall j, 0 <= j -> sd c3 j = if j =? i then d else sd cp j)
    by (intros; by rewrite D3, D2, D1).
  assert (C' : forall j, 0 <= j -> sc c3 j = if j =? i then c else sc cp j)
    by (intros; by rewrite C3, C2, C1).
  assert (X' : forall j, 0 <= j -> sx c3 j = if j =? c then i else sx cp j)
    by (intros; by rewrite X3, X2, X1).
  assert (S' : cp_size c3 = i + 1) by (rewrite S3, S2, S1; done).
  assert (Cons : consistent c3).
  { split_and!; try lia.
    - intros j Hj. rewrite C' by lia. destruct (Z.eqb_spec j i) as [->|].
      + rewrite X', Z.eqb_refl by lia. done.
      + destruct (A j) as [Pj Xj]; [lia|]. pose proof (P_range _ Pj). split; [done|].
        rewrite X' by lia. destruct (Z.eqb_spec (sc cp j) c) as [E|]; [|done].
        rewrite E, Hx in Xj. unfold IDX_INVALID in Xj. lia.
    - intros c' Pc'. pose proof (P_range _ Pc'). rewrite X' by lia.
      destruct (Z.eqb_spec c' c) as [->|].
      + right. rewrite C', Z.eqb_refl by lia. split; [lia|done].
      + destruct (B c' Pc') as [|[? E]]; [by left|right]. rewrite C' by lia.
        split; [lia|]. ztriv. }
  destruct (heapify_up_spec c3 i) as (c4 & -> & Wf4 & S4 & F4 & Dl4).
  { apply (modify_unsettled cp); try done; try lia.
    - intros j Hj Hne. rewrite D' by lia. ztriv.
    - rewrite D', Z.eqb_refl by lia. done. }
  { intros j Hj Hpj. hidx. }
  simpl. eexists. split_and!; [done|exact Wf4|simpl; by rewrite F4, F3, F2, F1|].
  intros c' Pc'. transitivity (cpudl_deadline c4 c'); [done|]. rewrite Dl4 by done.
  unfold cpudl_deadline. pose proof (P_range _ Pc'). rewrite X' by lia.
  destruct (Z.eqb_spec c' c) as [->|].
  - rewrite D', Z.eqb_refl by lia. ztriv.
  - destruct (B c' Pc') as [E|[? E]]; [by rewrite E|]. rewrite D' by lia. ztriv.
Qed.

Lemma cpudl_set_old cp c d :
  cpudl_wf cp -> P c -> in_window d -> sx cp c <> IDX_INVALID ->
  updates cp (fun c' => if c' =? c then Some d else cpudl_deadline cp c')
    (free_cpus cp) (cpudl_set cp c d).
Proof.
  intros Wf Pc Wd Hx. pose proof Wf as (C & W & H). pose proof C as (L & Sz & A & B).
  pose proof (P_range c Pc). destruct (B c Pc) as [|[Hi Hc]]; [done|].
  unfold cpudl_set. rewrite aref_item by lia. simpl. fold (sx cp c).
  rewrite (proj2 (Z.eqb_neq _ _) Hx).
  destruct (set_dl_spec cp (sx cp c) d) as (c1 & -> & L1 & S1 & F1 & D1 & C1 & X1); [lia|].
  simpl.
  assert (Cons : consistent c1).
  { split_and!; try lia.
    - intros j Hj. rewrite C1 by lia. destruct (A j) as [Pj Xj]; [lia|].
      pose proof (P_range _ Pj). rewrite X1 by lia. done.
    - intros c' Pc'. pose proof (P_range _ Pc'). rewrite X1 by lia.
      destruct (B c' Pc') as [|[? E]]; [by left|right]. rewrite C1 by lia.
      split; [lia|done]. }
  destruct (heapify_spec c1 (sx cp c)) as (c2 & -> & Wf2 & S2 & F2 & Dl2).
  { apply (modify_unsettled cp); try done; try lia.
    - intros j Hj Hne. rewrite D1 by lia. ztriv.
    - rewrite D1, Z.eqb_refl by lia. done. }
  exists c2. split_and!; try done; try congruence. intros c' Pc'. rewrite Dl2 by done.
  unfold cpudl_deadline. pose proof (P_range _ Pc'). rewrite X1 by lia.
  destruct (Z.eqb_spec c' c) as [->|Hne].
  - rewrite D1, Z.eqb_refl by lia. ztriv.
  - destruct (B c' Pc') as [E|[? E]]; [by rewrite E|]. rewrite D1 by lia.
    destruct (Z.eqb_spec (sx cp c') (sx cp c)) as [E'|]; [|done].
    rewrite E' in E. congruence.
Qed.

(** The stores of [cpudl_clear] before it sifts: the last node moves into the
    position of [c], and [c] leaves the heap. *)
Definition unlinked (cp cp' : cpudl) (c : Z) : Prop :=
  let i := sx cp c in
  let last := cp_size cp - 1 in
  cap cp' = cap cp /\ cp_size cp' = last /\ free_cpus cp' = free_cpus cp /\
  (forall j, 0 <= j -> sd cp' j = if j =? i then sd cp last else sd cp j) /\
  (forall j, 0 <= j -> sc cp' j = if j =? i then sc cp last else sc cp j) /\
  (forall j, 0 <= j -> sx cp' j = if j =? c then IDX_INVALID
                                  else if j =? sc cp last then i else sx cp j).

Lemma cpudl_clear_unlinks cp c :
  consistent cp -> P c -> sx cp c <> IDX_INVALID ->
  exists cp', unlinked cp cp' c /\
    cpudl_clear cp c = (cp' ← cpudl_heapify cp' (sx cp c);
                        Some (with_free_cpus cp' (mask_set (free_cpus cp') c))).
Proof.
  intros C Pc Hx. pose proof C as (L & Sz & A & B).
  pose proof (P_range c Pc). destruct (B c Pc) as [|[Hi Hc]]; [done|].
  unfold cpudl_clear. rewrite (aref_item cp c) by lia. simpl. fold (sx cp c).
  rewrite (proj2 (Z.eqb_neq _ _) Hx). unfold unlinked. cbv zeta.
  set (i := sx cp c) in *. set (last := cp_size cp - 1).
  rewrite (aref_item cp last) by lia. simpl. fold (sd cp last) (sc cp last).
  destruct (A last) as [Pl Xl]; [lia|]. pose proof (P_range _ Pl).
  destruct (set_dl_spec cp i (sd cp last)) as (c1 & -> & L1 & S1 & F1 & D1 & C1 & X1); [lia|].
  simpl. destruct (set_cpu_spec c1 i (sc cp last))
    as (c2 & -> & L2 & S2 & F2 & D2 & C2 & X2); [lia|]. simpl.
  destruct (set_idx_spec (with_size c2 (cp_size c2 - 1)) (sc cp last) i)
    as (c3 & -> & L3 & S3 & F3 & D3 & C3 & X3); [unfold cap in *; simpl; lia|]. simpl.
  change (cap (with_size c2 (cp_size c2 - 1))) with (cap c2) in *.
  destruct (set_idx_spec c3 c IDX_INVALID)
    as (c4 & -> & L4 & S4 & F4 & D4 & C4 & X4); [lia|].
  exists c4. split; [|done]. split_and!; try (rewrite ?L4, ?S4, ?F4, ?L3, ?S3, ?F3; simpl; lia).
  - intros. by rewrite D4, D3, <- D1, <- D2.
  - intros j Hj. rewrite C4, C3 by done. transitivity (sc c2 j); [done|].
    rewrite C2 by done. destruct (j =? i); [done|]. by apply C1.
  - intros. by rewrite X4, X3, <- X1, <- X2.
Qed.

Lemma unlinked_consistent cp cp' c :
  consistent cp -> P c -> sx cp c <> IDX_INVALID -> unlinked cp cp' c -> consistent cp'.
Proof.
  intros (L & Sz & A & B) Pc Hx (L' & S' & F' & D' & C' & X').
  pose proof (P_range c Pc). destruct (B c Pc) as [|[Hi Hc]]; [done|].
  destruct (A (cp_size cp - 1)) as [Pl Xl]; [lia|]. pose proof (P_range _ Pl).
  split_and!; try lia.
  - intros j Hj. rewrite C' by lia. destruct (Z.eqb_spec j (sx cp c)) as [->|Hne].
    + split; [done|]. rewrite X', Z.eqb_refl by lia.
      destruct (Z.eqb_spec (sc cp (cp_size cp - 1)) c) as [E|]; [|done].
      rewrite E in Xl. lia.
    + destruct (A j) as [Pj Xj]; [lia|]. pose proof (P_range _ Pj). split; [done|].
      rewrite X' by lia. destruct (Z.eqb_spec (sc cp j) c) as [E|]; [congruence|].
      destruct (Z.eqb_spec (sc cp j) (sc cp (cp_size cp - 1))) as [E|]; [|done].
      rewrite E in Xj. lia.
  - intros c' Pc'. pose proof (P_range _ Pc'). rewrite X' by lia.
    destruct (Z.eqb_spec c' c) as [->|Hne]; [by left|].
    destruct (Z.eqb_spec c' (sc cp (cp_size cp - 1))) as [->|Hl].
    + right. rewrite C', Z.eqb_refl by lia. split; [|done].
      assert (sx cp c <> cp_size cp - 1) by (intros E; rewrite E in Hc; congruence). lia.
    + destruct (B c' Pc') as [|[? E]]; [by left|right].
      assert (sx cp c' <> cp_size cp - 1) by (intros E'; rewrite E' in E; congruence).
      rewrite C' by lia. split; [lia|].
      destruct (Z.eqb_spec (sx cp c') (sx cp c)) as [E'|]; [|done].
      rewrite E' in E. congruence.
Qed.

Lemma unlinked_deadline cp cp' c c' :
  consistent cp -> P c -> sx cp c <> IDX_INVALID -> unlinked cp cp' c -> P c' ->
  cpudl_deadline cp' c' = if c' =? c then None else cpudl_deadline cp c'.
Proof.
  intros (L & Sz & A & B) Pc Hx (L' & S' & F' & D' & C' & X') Pc'.
  destruct (B c Pc) as [|[Hi Hc]]; [done|].
  destruct (A (cp_size cp - 1)) as [Pl Xl]; [lia|].
  pose proof (P_range _ Pl). pose proof (P_range _ Pc').
  unfold cpudl_deadline. rewrite X' by lia. destruct (Z.eqb_spec c' c) as [->|Hne]; [done|].
  destruct (Z.eqb_spec c' (sc cp (cp_size cp - 1))) as [->|Hl].
  - rewrite D', Z.eqb_refl, Xl by lia. ztriv.
  - destruct (B c' Pc') as [E|[? E]]; [by rewrite E|]. rewrite D' by lia.
    destruct (Z.eqb_spec (sx cp c') (sx cp c)) as [E'|]; [|done].
    rewrite E' in E. congruence.
Qed.

Lemma cpudl_clear_in cp c :
  cpudl_wf cp -> P c -> sx cp c <> IDX_INVALID ->
  updates cp (fun c' => if c' =? c then None else cpudl_deadline cp c')
    (mask_set (free_cpus cp) c) (cpudl_clear cp c).
Proof.
  intros Wf Pc Hx. pose proof Wf as (C & W & H). pose proof C as (L & Sz & A & B).
  destruct (B c Pc) as [|[Hi Hc]]; [done|].
  destruct (cpudl_clear_unlinks cp c C Pc Hx) as (c1 & U & ->).
  pose proof (unlinked_consistent _ _ _ C Pc Hx U) as C1.
  pose proof (fun c' => unlinked_deadline _ _ _ c' C Pc Hx U) as Dl1.
  destruct U as (L1 & S1 & F1 & D1 & _ & _).
  assert (R : resettles c1 (cpudl_heapify c1 (sx cp c))).
  { destruct (decide (sx cp c = cp_size cp - 1)) as [E|Hne].
    - assert (Dsame : forall j, 0 <= j -> sd c1 j = sd cp j).
      { intros j Hj. rewrite D1 by done. rewrite E. ztriv. congruence. }
      assert (W1 : windowed c1).
      { intros j Hj. rewrite Dsame by lia. apply W. lia. }
      rewrite E, <- S1, heapify_last; try done; try lia.
      + exists c1. split; [done|]. split; [|done]. split_and!; [done|done|].
        intros j Hj. unfold kd. assert (0 <= parent j < j) by hidx.
        rewrite !Dsame by lia. apply H. lia.
      + rewrite Dsame by lia. apply W. lia.
      + intros H0. rewrite Dsame by lia. unfold kd.
        assert (0 <= parent (cp_size c1) < cp_size c1) by hidx.
        rewrite Dsame by lia. apply H. lia.
    - apply heapify_spec. apply (modify_unsettled cp); try done; try lia.
      + intros j Hj Hji. rewrite D1 by lia. ztriv.
      + rewrite D1, Z.eqb_refl by lia. apply W. lia. }
  destruct R as (c2 & -> & Wf2 & S2 & F2 & Dl2). simpl.
  eexists. split_and!; [done|exact Wf2|simpl; by rewrite F2, F1|].
  intros c' Pc'. transitivity (cpudl_deadline c2 c'); [done|]. by rewrite Dl2, Dl1.
Qed.

(** The root of a non-empty heap holds the latest deadline. *)
Lemma heap_root cp i : heap cp -> 0 <= i < cp_size cp -> kd cp i <= kd cp 0.
Proof.
  intros H Hi. assert (Hn : exists m, (Z.to_nat i <= m)%nat) by eauto.
  destruct Hn as [m Hm]. revert i Hi Hm. induction m as [|m IH]; intros i Hi Hm.
  { replace i with 0 by lia. done. }
  destruct (decide (i = 0)) as [->|]; [done|].
  assert (0 <= parent i < i) by hidx.
  transitivity (kd cp (parent i)); [apply H; lia|apply IH; lia].
Qed.

Lemma root_latest cp :
  cpudl_wf cp -> 0 < cp_size cp ->
  aref (elements cp) 0 = Some (item cp 0) /\ P (sc cp 0) /\
  cpudl_deadline cp (sc cp 0) = Some (sd cp 0) /\
  forall c d, P c -> cpudl_deadline cp c = Some d -> dl_time_before (sd cp 0) d = false.
Proof.
  intros (C & W & H) Hs. pose proof C as (L & Sz & A & B).
  destruct (A 0) as [P0 X0]; [lia|]. split_and!; try done.
  - apply aref_item. lia.
  - apply consistent_deadline; [done|lia].
  - intros c d Pc. unfold cpudl_deadline.
    destruct (B c Pc) as [E|[Hx E]]; [by rewrite E|].
    destruct (Z.leb_spec 0 (sx cp c)); [|done]. intros [= <-].
    rewrite dl_time_before_key by (apply W; lia).
    apply Z.ltb_ge. apply (heap_root cp (sx cp c) H). lia.
Qed.

End Proofs.

(** The CPUs of [cpu_possible_mask]. *)
Definition possible_cpu (possible c : Z) : Prop := mask_test possible c = true.

Lemma fresh_item nr possible i :
  0 <= i < nr ->
  item (cpudl_fresh nr possible) i =
  mk_item 0 0 (if mask_test possible i then IDX_INVALID else 0).
Proof.
  intros Hi. unfold item, cpudl_fresh, aref. cbn [elements].
  destruct (Z.leb_spec 0 i); [|lia].
  rewrite list_lookup_imap, lookup_replicate_2 by lia. simpl.
  rewrite Z2Nat.id by lia. by destruct (mask_test possible i).
Qed.

Lemma cpudl_fresh_wf nr possible base :
  0 <= nr -> mask_ok nr possible ->
  cpudl_wf (possible_cpu possible) nr base (cpudl_fresh nr possible) /\
  forall c, possible_cpu possible c -> cpudl_deadline (cpudl_fresh nr possible) c = None.
Proof.
  intros Hn Hp.
  assert (X : forall c, possible_cpu possible c ->
                        sx (cpudl_fresh nr possible) c = IDX_INVALID).
  { intros c Pc. unfold sx. rewrite fresh_item by (by apply Hp). simpl. by rewrite Pc. }
  split; [split; [split_and!|split]|].
  - unfold cap, cpudl_fresh. cbn [elements]. rewrite length_imap, length_replicate. lia.
  - done.
  - done.
  - intros i Hi. simpl in Hi. lia.
  - intros c Pc. left. by apply X.
  - intros i Hi. simpl in Hi. lia.
  - intros i Hi. simpl in Hi. lia.
  - intros c Pc. unfold cpudl_deadline. by rewrite X.
Qed.

(** ** Runs of the component *)

(** One call into the component, with every deadline inside the window. *)
Inductive cpudl_step (possible base : Z) : cpudl -> cpudl -> Prop :=
| step_set cp c d cp' :
    possible_cpu possible c -> in_window base d ->
    cpudl_set cp c d = Some cp' -> cpudl_step possible base cp cp'
| step_clear cp c cp' :
    possible_cpu possible c ->
    cpudl_clear cp c = Some cp' -> cpudl_step possible base cp cp'
| step_set_freecpu cp c :
    cpudl_step possible base cp (cpudl_set_freecpu cp c)
| step_clear_freecpu cp c :
    cpudl_step possible base cp (cpudl_clear_freecpu cp c).

Inductive cpudl_reachable (nr possible base : Z) : cpudl -> Prop :=
| reach_init cp :
    cpudl_init nr possible true true = inr cp -> cpudl_reachable nr possible base cp
| reach_step cp cp' :
    cpudl_reachable nr possible base cp -> cpudl_step possible base cp cp' ->
    cpudl_reachable nr possible base cp'.

Section Runs.

Context (nr possible base : Z).
Hypothesis nr_pos : 0 <= nr.
Hypothesis possible_ok : mask_ok nr possible.

Lemma set_updates cp c d :
  cpudl_wf (possible_cpu possible) nr base cp ->
  possible_cpu possible c -> in_window base d ->
  updates (possible_cpu possible) nr base cp
    (fun c' => if c' =? c then Some d else cpudl_deadline cp c')
    (match cpudl_deadline cp c with
     | None => mask_clear (free_cpus cp) c | Some _ => free_cpus cp end)
    (cpudl_set cp c d).
Proof.
  intros Wf Pc Wd. destruct (decide (sx cp c = IDX_INVALID)) as [E|E].
  - unfold cpudl_deadline at 2. rewrite E. by apply cpudl_set_new.
  - assert (0 <= sx cp c) by (destruct Wf as ((_ & _ & _ & B) & _);
      destruct (B c Pc) as [|[? _]]; [done|lia]).
    unfold cpudl_deadline at 2. destruct (Z.leb_spec 0 (sx cp c)); [|lia].
    by apply cpudl_set_old.
Qed.

Lemma clear_updates cp c :
  cpudl_wf (possible_cpu possible) nr base cp -> possible_cpu possible c ->
  updates (possible_cpu possible) nr base cp
    (fun c' => if c' =? c then None else cpudl_deadline cp c')
    (match cpudl_deadline cp c with
     | None => free_cpus cp | Some _ => mask_set (free_cpus cp) c end)
    (cpudl_clear cp c).
Proof.
  intros Wf Pc. destruct (decide (sx cp c = IDX_INVALID)) as [E|E].
  - pose proof (possible_ok c Pc). unfold cpudl_deadline at 2. rewrite E. simpl.
    exists cp. split_and!; try done.
    + unfold cpudl_clear. rewrite (aref_item cp c) by (destruct Wf as ((-> & _) & _); lia).
      simpl. fold (sx cp c). by rewrite E.
    + intros c' Pc'. destruct (Z.eqb_spec c' c) as [->|]; [|done].
      unfold cpudl_deadline. by rewrite E.
  - assert (0 <= sx cp c) by (destruct Wf as ((_ & _ & _ & B) & _);
      destruct (B c Pc) as [|[? _]]; [done|lia]).
    unfold cpudl_deadline at 2. destruct (Z.leb_spec 0 (sx cp c)); [|lia].
    by apply cpudl_clear_in.
Qed.

Lemma reachable_wf cp :
  cpudl_reachable nr possible base cp -> cpudl_wf (possible_cpu possible) nr base cp.
Proof.
  induction 1 as [cp [= <-]|cp cp' _ IH St]; [by apply cpudl_fresh_wf|].
  destruct St as [cp c d cp' Pc Wd E|cp c cp' Pc E|cp c|cp c].
  - destruct (set_updates cp c d IH Pc Wd) as (? & E' & Wf & _). congruence.
  - destruct (clear_updates cp c IH Pc) as (? & E' & Wf & _). congruence.
  - exact IH.
  - exact IH.
Qed.

End Runs.

(** ** The search *)

Section FindProofs.

Context (nr_cpu_ids : Z) (capacity_orig_of arch_scale_cpu_capacity : Z -> Z).

Abbreviation fits := (dl_task_fits_capacity arch_scale_cpu_capacity).
Abbreviation fitting := (find_fitting capacity_orig_of arch_scale_cpu_capacity).

Lemma find_fitting_mask p cpus later mc mcpu later' mc' mcpu' :
  fitting p cpus later mc mcpu = (later', mc', mcpu') ->
  forall i, mask_test later' i =
            mask_test later i && negb (bool_decide (i ∈ cpus) && negb (fits p i)).
Proof.
  revert later mc mcpu. induction cpus as [|c cpus IH]; cbn [find_fitting];
    intros later mc mcpu E i.
  { injection E as <- <- <-. rewrite bool_decide_eq_false_2 by apply not_elem_of_nil.
    by rewrite andb_true_r. }
  assert (Step : forall m, (forall i, mask_test m i = mask_test later i &&
                    negb ((i =? c) && negb (fits p c))) ->
    mask_test m i && negb (bool_decide (i ∈ cpus) && negb (fits p i)) =
    mask_test later i && negb (bool_decide (i ∈ c :: cpus) && negb (fits p i))).
  { intros m Hm. rewrite Hm.
    replace (bool_decide (i ∈ c :: cpus)) with ((i =? c) || bool_decide (i ∈ cpus))
      by (apply eq_bool_prop_intro; rewrite orb_True, !bool_decide_spec, elem_of_cons;
          destruct (Z.eqb_spec i c); naive_solver).
    destruct (Z.eqb_spec i c) as [->|]; simpl; [|by rewrite andb_true_r].
    destruct (fits p c), (mask_test later c), (bool_decide (c ∈ cpus)); done. }
  destruct (fits p c) eqn:Ef; [|destruct (_ || _)];
    rewrite (IH _ _ _ E); apply Step; intros j; rewrite ?mask_test_clear; simpl;
    by rewrite ?andb_false_r, ?andb_true_r.
Qed.

Lemma find_fitting_max p cpus later mc mcpu later' mc' mcpu' :
  fitting p cpus later mc mcpu = (later', mc', mcpu') ->
  mc <= mc' /\
  (forall c, c ∈ cpus -> fits p c = false -> capacity_orig_of c <= mc') /\
  (mcpu' = mcpu /\ mc' = mc \/
   mcpu' ∈ cpus /\ fits p mcpu' = false /\ capacity_orig_of mcpu' = mc').
Proof.
  revert later mc mcpu. induction cpus as [|c cpus IH]; simpl; intros later mc mcpu E.
  { injection E as <- <- <-. split_and!; [lia| |by left]. by intros c ?%not_elem_of_nil. }
  destruct (fits p c) eqn:Ef.
  - destruct (IH _ _ _ E) as (A & B & C). split_and!; [done| |set_solver].
    intros c' [->|Hin]%elem_of_cons; [congruence|by apply B].
  - destruct (_ || _) eqn:Eo; destruct (IH _ _ _ E) as (A & B & C).
    + apply orb_true_iff in Eo. split_and!; [destruct Eo; zcase; lia| |].
      * intros c' [->|Hin]%elem_of_cons; [lia|by apply B].
      * destruct C as [[-> ->]|?]; right; [|set_solver]. split_and!; set_solver.
    + apply orb_false_iff in Eo as [Eo _]. apply Z.ltb_ge in Eo. split_and!; [done| |set_solver].
      intros c' [->|Hin]%elem_of_cons; [lia|by apply B].
Qed.

(** The mask left by the capacity loop is never empty: when no CPU fits, the
    largest one is put back. *)
Lemma find_fitting_picks p later later' mc mcpu :
  mask_ok nr_cpu_ids later -> mask_empty later = false ->
  (forall c, 0 < capacity_orig_of c) ->
  fitting p (mask_bits nr_cpu_ids later) later 0 (-1) = (later', mc, mcpu) ->
  (mask_empty later' = false /\
   forall c, mask_test later' c = mask_test later c && fits p c) \/
  (later' = 0 /\ mask_test later mcpu = true /\ 0 <= mcpu /\
   (forall c, mask_test later c = true ->
              fits p c = false /\ capacity_orig_of c <= capacity_orig_of mcpu)).
Proof.
  intros Hok Hne Hcap E.
  pose proof (find_fitting_mask _ _ _ _ _ _ _ _ E) as M.
  destruct (find_fitting_max _ _ _ _ _ _ _ _ E) as (_ & Mx & Ch).
  assert (In : forall c, mask_test later c = true -> c ∈ mask_bits nr_cpu_ids later).
  { intros c Hc. apply list_elem_of_In, mask_bits_spec. split; [by apply Hok|done]. }
  assert (M' : forall c, mask_test later' c = mask_test later c && fits p c).
  { intros c. rewrite M. destruct (mask_test later c) eqn:Ec; [|done]. simpl.
    rewrite bool_decide_eq_true_2 by (by apply In). by destruct (fits p c). }
  destruct (mask_empty later') eqn:Em; [right|by left].
  assert (later' = 0) as -> by (by apply Z.eqb_eq in Em).
  assert (Nf : forall c, mask_test later c = true -> fits p c = false).
  { intros c Hc. specialize (M' c). rewrite mask_test_0, Hc in M'. done. }
  destruct Ch as [[-> ->]|(Hin & _ & <-)].
  - exfalso. destruct (mask_nonempty later Hne) as [c Hc]. specialize (Mx c (In c Hc) (Nf c Hc)). specialize (Hcap c). lia.
  - apply list_elem_of_In, mask_bits_spec in Hin as [? ?]. split_and!; try done; try lia.
    intros c Hc. split; [by apply Nf|]. apply Mx; [by apply In|by apply Nf].
Qed.

(** Some free CPU is allowed. *)
Lemma cpudl_find_free asym cp p m0 :
  mask_ok nr_cpu_ids (t_cpus_mask p) ->
  (forall c, 0 < capacity_orig_of c) ->
  mask_empty (mask_and (free_cpus cp) (t_cpus_mask p)) = false ->
  exists m,
    cpudl_find nr_cpu_ids capacity_orig_of arch_scale_cpu_capacity asym cp p (Some m0) =
      Some (1, Some m) /\
    mask_empty m = false /\
    forall c, mask_test m c = true ->
              mask_test (mask_and (free_cpus cp) (t_cpus_mask p)) c = true.
Proof.
  intros Hok Hcap Hne. unfold cpudl_find. rewrite Hne. simpl.
  destruct asym; simpl; [|by eexists].
  destruct (find_fitting _ _ _ _ _ _ _) as [[later' mc] mcpu] eqn:Ef.
  destruct (find_fitting_picks p (mask_and (free_cpus cp) (t_cpus_mask p)) later' mc mcpu)
    as [(En & M)|(-> & Hm & Hm0 & _)]; try done.
  - intros i. rewrite mask_test_and. intros [_ ?]%andb_prop. by apply Hok.
  - rewrite En. exists later'. split_and!; try done. intros c Hc. rewrite M in Hc.
    by apply andb_prop in Hc as [Hc _].
  - eexists. split_and!; [done|by apply mask_set_nonempty|].
    by intros c ->%mask_singleton.
Qed.

(** No free CPU is allowed: the root decides. *)
Lemma cpudl_find_busy asym cp p m0 :
  aref (elements cp) 0 = Some (item cp 0) ->
  mask_empty (mask_and (free_cpus cp) (t_cpus_mask p)) = true ->
  cpudl_find nr_cpu_ids capacity_orig_of arch_scale_cpu_capacity asym cp p (Some m0) =
    let hit := mask_test (t_cpus_mask p) (sc cp 0) &&
               dl_time_before (t_deadline p) (sd cp 0) in
    Some (b2z hit, Some (if hit then mask_set 0 (sc cp 0) else 0)).
Proof.
  intros E0 El. unfold cpudl_find, cpudl_maximum. rewrite E0, El. simpl.
  apply Z.eqb_eq in El. rewrite El. fold (sc cp 0) (sd cp 0). by destruct (_ && _).
Qed.

End FindProofs.

(** ** Properties *)

(** C16: on every reachable heap, [cpudl_set] with a possible CPU and a deadline
    inside the 2^63 window makes only in-bounds accesses, terminates, records
    exactly that deadline for that CPU and no other change, takes a newly inserted
    CPU out of [free_cpus], and leaves a reachable heap that satisfies the
    representation invariant. *)
Theorem cpudl_set_refines_insert nr possible base cp c d :
  0 <= nr -> mask_ok nr possible -> cpudl_reachable nr possible base cp ->
  possible_cpu possible c -> in_window base d ->
  exists cp', cpudl_set cp c d = Some cp' /\
    cpudl_reachable nr possible base cp' /\
    cpudl_wf (possible_cpu possible) nr base cp' /\
    (forall c', possible_cpu possible c' ->
       cpudl_deadline cp' c' = if c' =? c then Some d else cpudl_deadline cp c') /\
    free_cpus cp' = match cpudl_deadline cp c with
                    | None => mask_clear (free_cpus cp) c
                    | Some _ => free_cpus cp
                    end.
Proof.
  intros Hn Hp R Pc Wd.
  destruct (set_updates nr possible base Hp cp c d) as (cp' & E & Wf & F & D); try done.
  { by apply reachable_wf. }
  exists cp'. split_and!; try done. eapply reach_step; [done|]. by eapply step_set.
Qed.

Lemma cpudl_set_refines_insert_witness :
  exists cp', cpudl_set (cpudl_fresh 4 15) 2 100 = Some cp' /\
    cpudl_deadline cp' 2 = Some 100.
Proof.
  destruct (cpudl_set_refines_insert 4 15 0 (cpudl_fresh 4 15) 2 100)
    as (cp' & E & _ & _ & D & _).
  - lia.
  - apply mask_ok_lt; lia.
  - by apply reach_init.
  - done.
  - split; vm_compute; split; congruence.
  - exists cp'. split; [done|]. by rewrite D.
Defined.

(** on every reachable heap, [cpudl_clear] of a possible CPU makes only
    in-bounds accesses, terminates, removes exactly that CPU from the map, adds it
    to [free_cpus] when it was in the heap, and leaves a reachable heap that
    satisfies the representation invariant. *)
Theorem cpudl_clear_refines_delete nr possible base cp c :
  0 <= nr -> mask_ok nr possible -> cpudl_reachable nr possible base cp ->
  possible_cpu possible c ->
  exists cp', cpudl_clear cp c = Some cp' /\
    cpudl_reachable nr possible base cp' /\
    cpudl_wf (possible_cpu possible) nr base cp' /\
    (forall c', possible_cpu possible c' ->
       cpudl_deadline cp' c' = if c' =? c then None else cpudl_deadline cp c') /\
    free_cpus cp' = match cpudl_deadline cp c with
                    | None => free_cpus cp
                    | Some _ => mask_set (free_cpus cp) c
                    end.
Proof.
  intros Hn Hp R Pc.
  destruct (clear_updates nr possible base Hp cp c) as (cp' & E & Wf & F & D); try done.
  { by apply reachable_wf. }
  exists cp'. split_and!; try done. eapply reach_step; [done|]. by eapply step_clear.
Qed.

(** A four-CPU system: CPU 3 free, the others inserted one after the other. *)
Definition demo_heap : cpudl :=
  mk_cpudl 3 8 [mk_item 300 2 2; mk_item 100 1 1; mk_item 200 0 0; mk_item 0 0 (-1)].

Lemma demo_heap_reachable : cpudl_reachable 4 15 0 demo_heap.
Proof.
  assert (W : forall d, 0 <= d < 1000 -> in_window 0 d).
  { intros d Hd. unfold in_window, key. rewrite u64_small; lia. }
  assert (R0 : cpudl_reachable 4 15 0 (cpudl_set_freecpu (cpudl_fresh 4 15) 3)).
  { eapply reach_step; [by apply reach_init|apply step_set_freecpu]. }
  destruct (cpudl_set (cpudl_set_freecpu (cpudl_fresh 4 15) 3) 0 200) as [c1|] eqn:E1;
    [|by vm_compute in E1].
  destruct (cpudl_set c1 1 100) as [c2|] eqn:E2; [|vm_compute in E1; by injection E1 as <-].
  assert (E3 : cpudl_set c2 2 300 = Some demo_heap).
  { vm_compute in E1. injection E1 as <-. vm_compute in E2. by injection E2 as <-. }
  repeat (eapply reach_step; [|eapply step_set; [| |eassumption]; [done|apply W; lia]]).
  exact R0.
Qed.

Lemma cpudl_clear_refines_delete_witness :
  exists cp', cpudl_clear demo_heap 2 = Some cp' /\
    cpudl_deadline cp' 2 = None /\ cpudl_deadline cp' 0 = Some 200.
Proof.
  destruct (cpudl_clear_refines_delete 4 15 0 demo_heap 2) as (cp' & E & _ & _ & D & _).
  - lia.
  - apply mask_ok_lt; lia.
  - apply demo_heap_reachable.
  - done.
  - exists cp'. split; [done|]. by rewrite !D.
Defined.

(** The CPU with the latest deadline of the heap. *)
Definition latest_dl_cpu (possible : Z) (cp : cpudl) (c d : Z) : Prop :=
  possible_cpu possible c /\ cpudl_deadline cp c = Some d /\
  forall c' d', possible_cpu possible c' -> cpudl_deadline cp c' = Some d' ->
                dl_time_before d d' = false.

(** on a reachable non-empty heap, [cpudl_find] with a mask returns without a
    fault.  It answers 1 exactly when some free CPU is allowed for the task or the
    CPU holding the latest deadline is allowed and its deadline is later than the
    task's; then the mask is not empty, and each CPU in it is allowed and is free
    or is that latest-deadline CPU. *)
Theorem cpudl_find_correct nr possible base capo arch asym cp p m0 :
  0 <= nr -> mask_ok nr possible -> cpudl_reachable nr possible base cp ->
  0 < cp_size cp -> mask_ok nr (t_cpus_mask p) ->
  (forall c, 0 < capo c) ->
  exists ret m best d,
    cpudl_find nr capo arch asym cp p (Some m0) = Some (b2z ret, Some m) /\
    latest_dl_cpu possible cp best d /\
    ret = negb (mask_empty (mask_and (free_cpus cp) (t_cpus_mask p))) ||
          (mask_test (t_cpus_mask p) best && dl_time_before (t_deadline p) d) /\
    (ret = true -> mask_empty m = false /\
       forall c, mask_test m c = true ->
         mask_test (t_cpus_mask p) c = true /\
         (mask_test (free_cpus cp) c = true \/
          c = best /\ dl_time_before (t_deadline p) d = true)).
Proof.
  intros Hn Hp R Hs Hmask Hcap.
  destruct (root_latest (possible_cpu possible) nr base cp) as (E0 & P0 & D0 & Max); try done.
  { by apply reachable_wf. }
  assert (Hlat : latest_dl_cpu possible cp (sc cp 0) (sd cp 0)) by done.
  assert (Lok : forall c, mask_test (mask_and (free_cpus cp) (t_cpus_mask p)) c = true ->
    mask_test (t_cpus_mask p) c = true /\ mask_test (free_cpus cp) c = true).
  { intros c. rewrite mask_test_and. by intros [? ?]%andb_prop. }
  destruct (mask_empty (mask_and (free_cpus cp) (t_cpus_mask p))) eqn:El.
  - rewrite cpudl_find_busy by done. eexists _, _, (sc cp 0), (sd cp 0).
    split; [done|]. split; [done|]. split; [done|]. intros Hb. rewrite Hb.
    apply andb_prop in Hb as [Ha Hb]. pose proof (Hp _ P0).
    split; [apply mask_set_nonempty; lia|]. intros c ->%mask_singleton; [|lia]. eauto.
  - destruct (cpudl_find_free nr capo arch asym cp p m0) as (m & -> & Hne & Hsub); try done.
    exists true, m, (sc cp 0), (sd cp 0). split_and!; try done. intros _. split; [done|].
    intros c Hc%Hsub%Lok. naive_solver.
Qed.

Lemma cpudl_find_correct_witness :
  exists ret m best d,
    cpudl_find 4 (fun _ => 1024) (fun _ => 1024) false demo_heap (mk_dl_task 250 0 6 1) (Some 0)
      = Some (b2z ret, Some m) /\
    latest_dl_cpu 15 demo_heap best d /\ ret = true.
Proof.
  destruct (cpudl_find_correct 4 15 0 (fun _ => 1024) (fun _ => 1024) false demo_heap
              (mk_dl_task 250 0 6 1) 0) as (ret & m & best & d & E & L & _).
  - lia.
  - apply mask_ok_lt; lia.
  - apply demo_heap_reachable.
  - vm_compute. done.
  - apply mask_ok_lt; simpl; lia.
  - lia.
  - exists ret, m, best, d. split_and!; try done. vm_compute in E.
    destruct ret; [done|discriminate].
Defined.

(** on a system with asymmetric CPU capacities, when a free CPU is allowed,
    [cpudl_find] returns exactly the free allowed CPUs whose capacity fits the
    task's density, or, when none fits, one free allowed CPU of the largest
    original capacity. *)
Theorem cpudl_find_capacity_aware nr capo arch cp p m0 :
  mask_ok nr (t_cpus_mask p) -> (forall c, 0 < capo c) ->
  mask_empty (mask_and (free_cpus cp) (t_cpus_mask p)) = false ->
  exists m,
    cpudl_find nr capo arch true cp p (Some m0) = Some (1, Some m) /\
    let candidate c := mask_test (free_cpus cp) c && mask_test (t_cpus_mask p) c in
    let fits c := dl_task_fits_capacity arch p c in
    ((exists c, candidate c = true /\ fits c = true) /\
     (forall c, mask_test m c = candidate c && fits c)) \/
    ((forall c, candidate c = true -> fits c = false) /\
     exists c, candidate c = true /\ (forall i, mask_test m i = true -> i = c) /\
               mask_test m c = true /\
               forall c', candidate c' = true -> capo c' <= capo c).
Proof.
  intros Hok Hcap Hne. unfold cpudl_find. rewrite Hne. simpl.
  set (later := mask_and (free_cpus cp) (t_cpus_mask p)) in *.
  assert (Hl : forall c, mask_test later c =
                         mask_test (free_cpus cp) c && mask_test (t_cpus_mask p) c)
    by (intros; apply mask_test_and).
  assert (Lok : mask_ok nr later).
  { intros i. rewrite Hl. intros [_ ?]%andb_prop. by apply Hok. }
  destruct (find_fitting _ _ _ _ _ _ _) as [[later' mc] mcpu] eqn:Ef.
  destruct (find_fitting_picks nr capo arch p later later' mc mcpu)
    as [(En & M)|(-> & Hm & Hm0 & All)]; try done.
  - rewrite En. exists later'. split; [done|]. left. split.
    + destruct (mask_nonempty later' En) as [c Hc]. exists c. rewrite M, Hl in Hc.
      by apply andb_prop in Hc.
    + intros c. by rewrite M, Hl.
  - eexists. split; [done|]. right. split.
    + intros c Hc. apply All. by rewrite Hl.
    + exists mcpu. rewrite <- Hl. split_and!; try done.
      * by intros i ?%mask_singleton.
      * rewrite mask_test_set by lia. by rewrite Z.eqb_refl.
      * intros c Hc. apply All. by rewrite Hl.
Qed.

Lemma cpudl_find_capacity_aware_witness :
  exists m,
    cpudl_find 4 (fun _ => 512) (fun _ => 512) true
      (mk_cpudl 0 12 (elements (cpudl_fresh 4 15))) (mk_dl_task 250 1048576 14 1) (Some 0)
      = Some (1, Some m).
Proof.
  destruct (cpudl_find_capacity_aware 4 (fun _ => 512) (fun _ => 512)
              (mk_cpudl 0 12 (elements (cpudl_fresh 4 15))) (mk_dl_task 250 1048576 14 1) 0)
    as (m & E & _).
  - apply mask_ok_lt; simpl; lia.
  - lia.
  - done.
  - exists m. exact E.
Defined.

(** A CPU that leaves the heap last stays behind in [elements[0]]: after CPU 2 is
    inserted, removed and taken out of [free_cpus], as [rq_offline_dl] does, the
    heap is empty and the search still answers with CPU 2. *)
Example cpudl_find_stale_root :
  (cp ← cpudl_set (cpudl_fresh 4 15) 2 300;
   cp ← cpudl_clear cp 2;
   let cp := cpudl_clear_freecpu cp 2 in
   r ← cpudl_find 4 (fun _ => 1024) (fun _ => 1024) false cp (mk_dl_task 250 0 4 2) (Some 0);
   Some (cp_size cp, cpudl_deadline cp 2, mask_test (free_cpus cp) 2, r))
  = Some (0, None, false, (1, Some 4)).
Proof. vm_compute. reflexivity. Qed.

(** Without a mask to fill in, the free CPUs are not looked at: CPU 3 is free and
    allowed, and the answer is 0. *)
Example cpudl_find_null_mask :
  cpudl_find 4 (fun _ => 1024) (fun _ => 1024) false demo_heap (mk_dl_task 250 0 8 2) None
  = Some (0, None).
Proof. vm_compute. reflexivity. Qed.

End Cpudl.
