(* ===== verification/Cbs.v ===== *)
(** The Constant Bandwidth Server of a SCHED_DEADLINE task: the parameters and
    the budget rules of [kernel/sched/deadline.c].

    A deadline task declares a runtime, a relative deadline and a period.  The
    server gives it a budget and an absolute deadline; the budget is consumed by
    execution and refilled only together with a later deadline.  The file models
    the parameter handling ([__checkparam_dl], [__setparam_dl], ...), the wake-up
    rules ([update_dl_entity]), the replenishment ([replenish_dl_entity]) and the
    throttling of one entity.  The theorems show that accepted parameters never
    overflow the fixed-point arithmetic, that replenishment terminates with the
    least postponement that gives a positive budget, and the isolation property of
    the server: whatever the task does, the time it is charged for never exceeds its
    share of the interval up to its deadline. *)

From Stdlib Require Import ZArith Lia List.
From stdpp Require Import base list numbers option.
From S2P Require Import Prelude Cpudl.

Module Cbs.
Import Cpudl(dl_time_before, BW_SHIFT, SCHED_CAPACITY_SHIFT).

Definition BW_UNIT : Z := Z.shiftl 1 BW_SHIFT.
Definition DL_SCALE : Z := 10.
Definition RUNTIME_INF : Z := U64_MAX.
Definition NSEC_PER_USEC : Z := 1000.
Definition SCHED_CAPACITY_SCALE : Z := Z.shiftl 1 SCHED_CAPACITY_SHIFT.
Definition SCHED_FLAG_RECLAIM : Z := 0x02.
Definition SCHED_FLAG_DL_OVERRUN : Z := 0x04.
Definition SCHED_FLAG_SUGOV : Z := 0x10000000.
Definition SCHED_DL_FLAGS : Z :=
  Z.lor (Z.lor SCHED_FLAG_RECLAIM SCHED_FLAG_DL_OVERRUN) SCHED_FLAG_SUGOV.

(** [struct sched_dl_entity].  The two timers belong to the task of the Deadline
    file; [on_tree] says that [rb_node] is linked, and [pi_se] is the task whose
    entity the pointer refers to. *)
Record sched_dl_entity := mk_dl_se {
  dl_runtime : Z;
  dl_deadline : Z;
  dl_period : Z;
  dl_bw : Z;
  dl_density : Z;
  runtime : Z;
  deadline : Z;
  flags : Z;
  dl_throttled : bool;
  dl_yielded : bool;
  dl_non_contending : bool;
  dl_overrun : bool;
  on_tree : bool;
  pi_se : Z
}.

(** Stores to the members. *)
Definition set_runtime (v : Z) (e : sched_dl_entity) : sched_dl_entity :=
  mk_dl_se (dl_runtime e) (dl_deadline e) (dl_period e) (dl_bw e) (dl_density e) v (deadline e)
    (flags e) (dl_throttled e) (dl_yielded e) (dl_non_contending e) (dl_overrun e) (on_tree e)
    (pi_se e).
Definition set_deadline (v : Z) (e : sched_dl_entity) : sched_dl_entity :=
  mk_dl_se (dl_runtime e) (dl_deadline e) (dl_period e) (dl_bw e) (dl_density e) (runtime e) v
    (flags e) (dl_throttled e) (dl_yielded e) (dl_non_contending e) (dl_overrun e) (on_tree e)
    (pi_se e).
Definition set_throttled (v : bool) (e : sched_dl_entity) : sched_dl_entity :=
  mk_dl_se (dl_runtime e) (dl_deadline e) (dl_period e) (dl_bw e) (dl_density e) (runtime e)
    (deadline e) (flags e) v (dl_yielded e) (dl_non_contending e) (dl_overrun e) (on_tree e)
    (pi_se e).
Definition set_yielded (v : bool) (e : sched_dl_entity) : sched_dl_entity :=
  mk_dl_se (dl_runtime e) (dl_deadline e) (dl_period e) (dl_bw e) (dl_density e) (runtime e)
    (deadline e) (flags e) (dl_throttled e) v (dl_non_contending e) (dl_overrun e) (on_tree e)
    (pi_se e).
Definition set_non_contending (v : bool) (e : sched_dl_entity) : sched_dl_entity :=
  mk_dl_se (dl_runtime e) (dl_deadline e) (dl_period e) (dl_bw e) (dl_density e) (runtime e)
    (deadline e) (flags e) (dl_throttled e) (dl_yielded e) v (dl_overrun e) (on_tree e) (pi_se e).
Definition set_overrun (v : bool) (e : sched_dl_entity) : sched_dl_entity :=
  mk_dl_se (dl_runtime e) (dl_deadline e) (dl_period e) (dl_bw e) (dl_density e) (runtime e)
    (deadline e) (flags e) (dl_throttled e) (dl_yielded e) (dl_non_contending e) v (on_tree e)
    (pi_se e).
Definition set_on_tree (v : bool) (e : sched_dl_entity) : sched_dl_entity :=
  mk_dl_se (dl_runtime e) (dl_deadline e) (dl_period e) (dl_bw e) (dl_density e) (runtime e)
    (deadline e) (flags e) (dl_throttled e) (dl_yielded e) (dl_non_contending e) (dl_overrun e) v
    (pi_se e).

(** *** Parameters *)

(** The members of [struct sched_attr] a deadline task uses. *)
Record sched_attr := mk_dl_attr {
  sched_policy : Z;
  sched_flags : Z;
  sched_nice : Z;
  sched_priority : Z;
  sched_runtime : Z;
  sched_deadline : Z;
  sched_period : Z
}.

Definition to_ratio (period runtime : Z) : Z :=
  if runtime =? RUNTIME_INF then BW_UNIT
  else if period =? 0 then 0
  else u64 (Z.shiftl runtime BW_SHIFT) / period.

(** [x ?: y] *)
Definition elvis (x y : Z) : Z := if x =? 0 then y else x.

Definition __setparam_dl (attr : sched_attr) (e : sched_dl_entity) : sched_dl_entity :=
  let period := elvis (sched_period attr) (sched_deadline attr) in
  mk_dl_se (sched_runtime attr) (sched_deadline attr) period
    (to_ratio period (sched_runtime attr)) (to_ratio (sched_deadline attr) (sched_runtime attr))
    (runtime e) (deadline e) (Z.land (sched_flags attr) SCHED_DL_FLAGS) (dl_throttled e)
    (dl_yielded e) (dl_non_contending e) (dl_overrun e) (on_tree e) (pi_se e).

Definition __getparam_dl (rt_priority : Z) (e : sched_dl_entity) (attr : sched_attr) : sched_attr :=
  mk_dl_attr (sched_policy attr)
    (Z.lor (Z.ldiff (sched_flags attr) SCHED_DL_FLAGS) (flags e))
    (sched_nice attr) rt_priority (dl_runtime e) (dl_deadline e) (dl_period e).

Definition __checkparam_dl (period_max period_min : Z) (attr : sched_attr) : bool :=
  if z2b (Z.land (sched_flags attr) SCHED_FLAG_SUGOV) then true
  else if sched_deadline attr =? 0 then false
  else if sched_runtime attr <? Z.shiftl 1 DL_SCALE then false
  else if z2b (Z.land (sched_deadline attr) two63) || z2b (Z.land (sched_period attr) two63)
  then false
  else
    let period := if sched_period attr =? 0 then sched_deadline attr else sched_period attr in
    if (period <? sched_deadline attr) || (sched_deadline attr <? sched_runtime attr) then false
    else
      let max := period_max *u64 NSEC_PER_USEC in
      let min := period_min *u64 NSEC_PER_USEC in
      negb ((period <? min) || (max <? period)).

(** [self] is the task of the entity: [pi_se] points back to it. *)
Definition __dl_clear_params (self : Z) (e : sched_dl_entity) : sched_dl_entity :=
  mk_dl_se 0 0 0 0 0 (runtime e) (deadline e) 0 false false false false (on_tree e) self.

Definition dl_param_changed (e : sched_dl_entity) (attr : sched_attr) : bool :=
  negb (dl_runtime e =? sched_runtime attr) || negb (dl_deadline e =? sched_deadline attr) ||
  negb (dl_period e =? sched_period attr) ||
  negb (flags e =? Z.land (sched_flags attr) SCHED_DL_FLAGS).

(** *** Budget rules *)

(** [pi] is [pi_of(dl_se)], [now] is [rq_clock(rq)]. *)
Definition replenish_dl_new_period (pi : sched_dl_entity) (now : Z) (e : sched_dl_entity)
  : sched_dl_entity :=
  set_runtime (s64 (dl_runtime pi)) (set_deadline (now +u64 dl_deadline pi) e).

Definition setup_new_dl_entity (pi : sched_dl_entity) (now : Z) (e : sched_dl_entity)
  : sched_dl_entity :=
  if dl_throttled e then e else replenish_dl_new_period pi now e.

(** The loop of [replenish_dl_entity]; [None] when [fuel] rounds do not give a
    positive budget. *)
Fixpoint postpone (fuel : nat) (pi e : sched_dl_entity) : option sched_dl_entity :=
  if 0 <? runtime e then Some e
  else match fuel with
       | O => None
       | S fuel =>
           postpone fuel pi
             (set_runtime (s64 (runtime e + dl_runtime pi))
                (set_deadline (deadline e +u64 dl_period pi) e))
       end.

(** One round more than the budget deficit divided by the runtime. *)
Definition postpone_fuel (pi e : sched_dl_entity) : nat :=
  Z.to_nat (- runtime e / dl_runtime pi + 1).

Definition replenish_dl_entity (pi : sched_dl_entity) (now : Z) (e : sched_dl_entity)
  : option sched_dl_entity :=
  let e := if dl_deadline e =? 0 then replenish_dl_new_period pi now e else e in
  let e := if dl_yielded e && (0 <? runtime e) then set_runtime 0 e else e in
  e ← postpone (postpone_fuel pi e) pi e;
  let e := if dl_time_before (deadline e) now then replenish_dl_new_period pi now e else e in
  let e := if dl_yielded e then set_yielded false e else e in
  Some (if dl_throttled e then set_throttled false e else e).

Definition dl_entity_overflow (pi e : sched_dl_entity) (t : Z) : bool :=
  let left := Z.shiftr (dl_deadline pi) DL_SCALE *u64 Z.shiftr (runtime e) DL_SCALE in
  let right := Z.shiftr (deadline e -u64 t) DL_SCALE *u64 Z.shiftr (dl_runtime pi) DL_SCALE in
  dl_time_before right left.

Definition update_dl_revised_wakeup (now : Z) (e : sched_dl_entity) : sched_dl_entity :=
  let laxity := deadline e -u64 now in
  set_runtime (s64 (Z.shiftr (dl_density e *u64 laxity) BW_SHIFT)) e.

Definition dl_is_implicit (e : sched_dl_entity) : bool := dl_deadline e =? dl_period e.

Definition update_dl_entity (pi : sched_dl_entity) (boosted : bool) (now : Z)
  (e : sched_dl_entity) : sched_dl_entity :=
  if dl_time_before (deadline e) now || dl_entity_overflow pi e now then
    if negb (dl_is_implicit e) && negb (dl_time_before (deadline e) now) && negb boosted
    then update_dl_revised_wakeup now e
    else replenish_dl_new_period pi now e
  else e.

Definition dl_next_period (e : sched_dl_entity) : Z :=
  u64 (deadline e - dl_deadline e + dl_period e).

(** The condition and the effect of [dl_check_constrained_dl] on the entity. *)
Definition late_constrained (now : Z) (e : sched_dl_entity) : bool :=
  dl_time_before (deadline e) now && dl_time_before now (dl_next_period e).

Definition constrained_throttle (e : sched_dl_entity) : sched_dl_entity :=
  let e := set_throttled true e in
  if 0 <? runtime e then set_runtime 0 e else e.

Definition dl_runtime_exceeded (e : sched_dl_entity) : bool := runtime e <=? 0.

(** The accounting of [update_curr_dl]: the budget is charged, and an entity
    that has none left or has yielded is throttled. *)
Definition charge (scaled_delta_exec : Z) (e : sched_dl_entity) : sched_dl_entity :=
  set_runtime (s64 (runtime e - scaled_delta_exec)) e.

Definition must_throttle (e : sched_dl_entity) : bool := dl_runtime_exceeded e || dl_yielded e.

Definition throttle (e : sched_dl_entity) : sched_dl_entity :=
  let e := set_throttled true e in
  if dl_runtime_exceeded e && z2b (Z.land (flags e) SCHED_FLAG_DL_OVERRUN)
  then set_overrun true e else e.

Definition cap_scale (v s : Z) : Z := Z.shiftr (v *u64 s) SCHED_CAPACITY_SHIFT.

(** What [update_curr_dl] charges for [delta_exec] of execution at frequency [scale_freq]
    on a CPU of capacity [scale_cpu]; [reclaimed] is the answer of [grub_reclaim], which
    depends on the other tasks of the run queue. *)
Definition scaled_delta (delta_exec scale_freq scale_cpu reclaimed : Z) (e : sched_dl_entity) : Z :=
  if z2b (Z.land (flags e) SCHED_FLAG_RECLAIM) then reclaimed
  else cap_scale (cap_scale delta_exec scale_freq) scale_cpu.

(** *** Executions of one server *)

(** What happens to the entity of a task that is not boosted: it executes for
    [delta_exec], is charged for it and is throttled when that exhausts its budget, it
    yields, it wakes up, it wakes up after its deadline but before its next
    period, it is replenished, or it is put back on a queue with its deadline in
    the past. *)
Inductive cbs_event :=
| Run (delta_exec scale_freq scale_cpu reclaimed : Z)
| Yield
| Wake (now : Z)
| LateWake (now : Z)
| Replenish (now : Z)
| Restore (now : Z).

(** The entity, the time it has executed, the time it was charged for, and the number of
    wake-ups that found more budget than the remaining time allows. *)
Record server := mk_server { ent : sched_dl_entity; executed : Z; charged : Z; early : Z }.

Definition time_ok (now : Z) : bool := (0 <=? now) && (now <? Z.shiftl 1 62).

(** The guards of the code, the range of the clock, and the length of a stretch that
    is charged at once. *)
Definition enabled (ev : cbs_event) (e : sched_dl_entity) : bool :=
  match ev with
  | Run x f c r =>
      let d := scaled_delta x f c r e in
      negb (dl_throttled e) && ((0 <? x) || (x =? 0) && dl_yielded e) && (0 <=? d) &&
      (d * dl_period e <=? dl_runtime e * Z.shiftl 1 60)
  | Yield => negb (dl_throttled e)
  | Wake now => negb (dl_throttled e) && time_ok now && (deadline e - now <? Z.shiftl 1 42)
  | LateWake now => negb (dl_throttled e) && time_ok now && negb (dl_is_implicit e) &&
                    late_constrained now e
  | Replenish now => dl_throttled e && time_ok now
  | Restore now => time_ok now && dl_time_before (deadline e) now
  end.

Definition cbs_exec (ev : cbs_event) (s : server) : option server :=
  let e := ent s in
  if enabled ev e then
    match ev with
    | Run x f c r =>
        let d := scaled_delta x f c r e in
        let e := charge d e in
        Some (mk_server (if must_throttle e then throttle e else e) (executed s + x) (charged s + d)
                (early s))
    | Yield => Some (mk_server (set_yielded true e) (executed s) (charged s) (early s))
    | Wake now =>
        Some (mk_server (update_dl_entity e false now e) (executed s) (charged s)
                (early s + b2z (negb (dl_time_before (deadline e) now) && dl_entity_overflow e e now)))
    | LateWake now => Some (mk_server (constrained_throttle e) (executed s) (charged s) (early s))
    | Replenish now =>
        e ← replenish_dl_entity e now e; Some (mk_server e (executed s) (charged s) (early s))
    | Restore now => Some (mk_server (setup_new_dl_entity e now e) (executed s) (charged s) (early s))
    end
  else None.

(** A run during which the deadline stays in the range of the clock. *)
Fixpoint cbs_run (evs : list cbs_event) (s : server) : option server :=
  match evs with
  | [] => Some s
  | ev :: evs =>
      s ← cbs_exec ev s;
      if time_ok (deadline (ent s)) then cbs_run evs s else None
  end.

(** ** Lemmas *)

(** The parameters [__checkparam_dl] lets through, as [__setparam_dl] stores them. *)
Definition wf_params (e : sched_dl_entity) : Prop :=
  1024 <= dl_runtime e <= dl_deadline e /\ dl_deadline e <= dl_period e <= 2 ^ 41 /\
  dl_bw e = dl_runtime e * 2 ^ 20 / dl_period e /\
  dl_density e = dl_runtime e * 2 ^ 20 / dl_deadline e.

Lemma to_ratio_exact p r : 0 < p -> 0 <= r < 2 ^ 44 -> to_ratio p r = r * 2 ^ 20 / p.
Proof.
  intros Hp Hr. unfold to_ratio, RUNTIME_INF, U64_MAX, BW_SHIFT.
  destruct (Z.eqb_spec r (two64 - 1)); [lia|]. destruct (Z.eqb_spec p 0); [lia|].
  rewrite Z.shiftl_mul_pow2 by lia. rewrite u64_small; [done|]. lia.
Qed.

Lemma checkparam_bounds pmax pmin attr :
  0 <= pmax <= 2 ^ 31 -> 0 <= sched_period attr -> 0 <= sched_deadline attr ->
  Z.land (sched_flags attr) SCHED_FLAG_SUGOV = 0 -> __checkparam_dl pmax pmin attr = true ->
  1024 <= sched_runtime attr <= sched_deadline attr /\
  sched_deadline attr <= elvis (sched_period attr) (sched_deadline attr) <= 2 ^ 41.
Proof.
  intros Hmax Hp Hd Hs. unfold __checkparam_dl, elvis, NSEC_PER_USEC. rewrite Hs. simpl.
  rewrite (u64_small (pmax * 1000)) by lia.
  destruct (Z.eqb_spec (sched_deadline attr) 0); [done|].
  destruct (Z.ltb_spec (sched_runtime attr) (Z.shiftl 1 DL_SCALE)) as [|Hr]; [done|].
  change (Z.shiftl 1 DL_SCALE) with 1024 in Hr.
  destruct (_ || _); [done|].
  set (p := if sched_period attr =? 0 then _ else _).
  destruct (Z.ltb_spec p (sched_deadline attr)); [done|].
  destruct (Z.ltb_spec (sched_deadline attr) (sched_runtime attr)); [done|]. simpl.
  intros Hc. apply negb_true_iff, orb_false_elim in Hc as [_ Hc]. apply Z.ltb_ge in Hc.
  lia.
Qed.

Lemma setparam_wf pmax pmin attr e :
  0 <= pmax <= 2 ^ 31 -> 0 <= sched_period attr -> 0 <= sched_deadline attr ->
  Z.land (sched_flags attr) SCHED_FLAG_SUGOV = 0 -> __checkparam_dl pmax pmin attr = true ->
  wf_params (__setparam_dl attr e).
Proof.
  intros. pose proof (checkparam_bounds pmax pmin attr) as B.
  destruct B as [B1 B2]; [done..|]. unfold wf_params; simpl.
  rewrite !to_ratio_exact by lia. lia.
Qed.

(** *** Replenishment *)

Lemma postpone_exact fuel pi : forall e,
  0 < dl_runtime pi < 2 ^ 62 -> - two63 <= runtime e <= 0 ->
  fuel = postpone_fuel pi e ->
  let k := - runtime e / dl_runtime pi + 1 in
  postpone fuel pi e =
    Some (set_runtime (runtime e + k * dl_runtime pi)
            (set_deadline (deadline e +u64 k * dl_period pi) e)).
Proof.
  induction fuel as [|fuel IH]; intros e HQ Hr Hf k; unfold postpone_fuel in Hf; fold k in Hf.
  - assert (0 <= - runtime e / dl_runtime pi) by (apply Z.div_pos; lia). lia.
  - simpl. destruct (Z.ltb_spec 0 (runtime e)); [lia|].
    rewrite s64_small by lia.
    set (e1 := set_runtime _ _).
    destruct (Z.lt_ge_cases 0 (runtime e1)) as [Hpos|Hneg].
    + assert (k = 1) as ->.
      { unfold k. rewrite Z.div_small; [lia|]. unfold e1 in Hpos. simpl in Hpos. lia. }
      destruct fuel; simpl; unfold e1 in *; simpl in *;
        destruct (Z.ltb_spec 0 (runtime e + dl_runtime pi)); try lia;
        by rewrite ?Z.mul_1_l.
    + assert (Hk : - runtime e1 / dl_runtime pi = k - 2).
      { unfold e1, k; simpl.
        replace (- (runtime e + dl_runtime pi)) with (- runtime e + (-1) * dl_runtime pi) by lia.
        rewrite Z.div_add by lia. lia. }
      rewrite IH; [|lia|unfold e1 in *; simpl in *; lia|unfold postpone_fuel; rewrite Hk; lia].
      rewrite Hk. unfold e1, set_runtime, set_deadline; simpl. rewrite u64_add_l.
      replace (deadline e + dl_period pi + (k - 2 + 1) * dl_period pi)
        with (deadline e + k * dl_period pi) by lia.
      by replace (runtime e + dl_runtime pi + (k - 2 + 1) * dl_runtime pi)
        with (runtime e + k * dl_runtime pi) by lia.
Qed.

(** The budget a replenishment starts from: a task that yielded gives up what it
    has left. *)
Definition left_over (e : sched_dl_entity) : Z :=
  if dl_yielded e && (0 <? runtime e) then 0 else runtime e.

(** What a replenishment of an entity with parameters of its own does. *)
Lemma replenish_spec pi now e :
  dl_deadline e <> 0 -> 0 < dl_runtime pi < 2 ^ 62 -> - two63 <= left_over e <= 0 ->
  let k := - left_over e / dl_runtime pi + 1 in
  let d := deadline e +u64 k * dl_period pi in
  exists e', replenish_dl_entity pi now e = Some e' /\
    e' = set_throttled false (set_yielded false
           (if dl_time_before d now then replenish_dl_new_period pi now e
            else set_runtime (left_over e + k * dl_runtime pi) (set_deadline d e))).
Proof.
  intros HD HQ Hl k d. unfold replenish_dl_entity.
  destruct (Z.eqb_spec (dl_deadline e) 0); [done|].
  set (e1 := if dl_yielded e && _ then _ else _).
  assert (E1 : runtime e1 = left_over e /\ e1 = set_runtime (left_over e) e).
  { unfold e1, left_over. destruct (_ && _); split; try done. by destruct e. }
  destruct E1 as [Er Ee].
  rewrite (postpone_exact (postpone_fuel pi e1)); [|done|lia|done].
  cbn [mbind option_bind]. rewrite Er.
  eexists. split; [done|]. rewrite Ee. destruct e; cbn.
  fold k. unfold d; cbn.
  destruct (dl_time_before _ now); cbn; destruct dl_yielded0, dl_throttled0; done.
Qed.

(** *** The wake-up rule *)

Lemma before_small a b :
  0 <= a < two63 -> 0 <= b < two63 -> dl_time_before a b = (a <? b).
Proof.
  intros. unfold dl_time_before. rewrite s64_u64, s64_small by lia. zcase; lia.
Qed.

Lemma shiftr_scale x : Z.shiftr x DL_SCALE = x / 1024.
Proof. unfold DL_SCALE. by rewrite Z.shiftr_div_pow2. Qed.

(** In range, the test compares the products of the scaled values. *)
Lemma overflow_test e now :
  wf_params e -> 0 <= runtime e <= dl_runtime e -> 0 <= deadline e - now < 2 ^ 42 ->
  dl_entity_overflow e e now =
    ((deadline e - now) / 1024 * (dl_runtime e / 1024) <?
     dl_deadline e / 1024 * (runtime e / 1024)).
Proof.
  intros (HQ & HT & _) Hc HL. unfold dl_entity_overflow. rewrite !shiftr_scale.
  rewrite (u64_small (deadline e - now)) by lia.
  set (L := deadline e - now) in *.
  assert (0 <= L / 1024 < 2 ^ 32) by (Z.div_mod_to_equations; lia).
  assert (0 <= dl_runtime e / 1024 <= 2 ^ 31) by (Z.div_mod_to_equations; lia).
  assert (0 <= dl_deadline e / 1024 <= 2 ^ 31) by (Z.div_mod_to_equations; lia).
  assert (0 <= runtime e / 1024 <= 2 ^ 31) by (Z.div_mod_to_equations; lia).
  assert (0 <= L / 1024 * (dl_runtime e / 1024) < two63) by nia.
  assert (0 <= dl_deadline e / 1024 * (runtime e / 1024) < two63) by nia.
  rewrite !u64_small by lia. by apply before_small.
Qed.

(** A wake-up that finds too much budget: the deadline is closer than the
    relative deadline, and the excess was cut off within the resolution of the
    test, 2048 ns. *)
Lemma overflow_excess e now :
  wf_params e -> 0 <= runtime e <= dl_runtime e -> 0 <= deadline e - now < 2 ^ 42 ->
  dl_entity_overflow e e now = true ->
  deadline e - now < dl_deadline e /\
  dl_runtime e * (deadline e - now) <= dl_deadline e * runtime e + 2048 * dl_deadline e.
Proof.
  intros W Hc HL. rewrite overflow_test by done. rewrite Z.ltb_lt. intros Ho.
  destruct W as (HQ & HT & _). set (L := deadline e - now) in *.
  set (Q := dl_runtime e) in *. set (D := dl_deadline e) in *. set (c := runtime e) in *.
  assert (HLD : L < D).
  { destruct (Z.lt_ge_cases L D) as [|Hge]; [done|]. exfalso.
    assert (D / 1024 <= L / 1024) by (apply Z.div_le_mono; lia).
    assert (c / 1024 <= Q / 1024) by (apply Z.div_le_mono; lia).
    assert (0 <= c / 1024) by (apply Z.div_pos; lia).
    assert (0 <= D / 1024) by (apply Z.div_pos; lia). nia. }
  split; [done|].
  pose proof (Z.div_mod L 1024 ltac:(lia)). pose proof (Z.mod_pos_bound L 1024 ltac:(lia)).
  pose proof (Z.div_mod Q 1024 ltac:(lia)). pose proof (Z.mod_pos_bound Q 1024 ltac:(lia)).
  pose proof (Z.mul_div_le D 1024 ltac:(lia)). pose proof (Z.mul_div_le c 1024 ltac:(lia)).
  assert (0 <= D / 1024) by (apply Z.div_pos; lia).
  assert (0 <= c / 1024) by (apply Z.div_pos; lia).
  assert (0 <= L / 1024) by (apply Z.div_pos; lia).
  assert (0 <= Q / 1024) by (apply Z.div_pos; lia).
  set (L' := L / 1024) in *. set (Q' := Q / 1024) in *.
  set (D' := D / 1024) in *. set (c' := c / 1024) in *.
  assert (Q * L <= (1024 * Q' + 1023) * (1024 * L' + 1023)) by (apply Z.mul_le_mono_nonneg; lia).
  assert (1024 * D' * (1024 * c') <= D * c) by (apply Z.mul_le_mono_nonneg; lia).
  nia.
Qed.

(** The reduced budget of the revised rule fits the remaining time. *)
Lemma revised_budget e now :
  wf_params e -> 0 <= deadline e - now < dl_deadline e ->
  let c := runtime (update_dl_revised_wakeup now e) in
  0 <= c <= dl_runtime e /\ dl_deadline e * c <= dl_runtime e * (deadline e - now).
Proof.
  intros (HQ & HT & _ & HS) HL. simpl. rewrite (u64_small (deadline e - now)) by lia.
  set (L := deadline e - now) in *.
  assert (HS0 : 0 <= dl_density e <= 2 ^ 20).
  { rewrite HS. split; [apply Z.div_pos; lia|]. apply Z.div_le_upper_bound; lia. }
  assert (HSD : dl_deadline e * dl_density e <= dl_runtime e * 2 ^ 20)
    by (rewrite HS; apply Z.mul_div_le; lia).
  rewrite u64_small by nia. unfold BW_SHIFT. rewrite Z.shiftr_div_pow2 by lia.
  set (c := dl_density e * L / 2 ^ 20).
  assert (0 <= c) by (apply Z.div_pos; nia).
  assert (Hc : c * 2 ^ 20 <= dl_density e * L) by (apply div_le_mul; lia).
  assert (Hb : dl_deadline e * c <= dl_runtime e * L).
  { assert (dl_deadline e * c * 2 ^ 20 <= dl_deadline e * (dl_density e * L)) by nia.
    assert (dl_deadline e * dl_density e * L <= dl_runtime e * 2 ^ 20 * L) by nia. nia. }
  assert (c <= dl_runtime e) by nia.
  rewrite s64_small by lia. done.
Qed.

(** *** The invariant of a server *)

(** The state of an entity between events: a throttled entity has no budget or
    has yielded, and an overrun is bounded by the longest stretch. *)
Record entity_ok (e : sched_dl_entity) : Prop := mk_entity_ok {
  ok_params : wf_params e;
  ok_deadline : 0 <= deadline e < 2 ^ 62;
  ok_budget : runtime e <= dl_runtime e;
  ok_overrun : - (dl_runtime e * 2 ^ 60) <= runtime e * dl_period e;
  ok_running : dl_throttled e = false -> 0 <= runtime e;
  ok_throttled : dl_throttled e = true -> runtime e <= 0 \/ dl_yielded e = true
}.

(** The execution so far and the budget still held fit the time from [t0] to the
    deadline. *)
Definition within_share (t0 : Z) (s : server) : Prop :=
  let e := ent s in
  dl_deadline e * (charged s + runtime e) <=
    dl_runtime e * (deadline e - t0) + 2048 * dl_deadline e * early s.

Lemma time_ok_range t : time_ok t = true -> 0 <= t < 2 ^ 62.
Proof. unfold time_ok. change (Z.shiftl 1 62) with (2 ^ 62). intros. ztriv. Qed.

Lemma params_bounds e : wf_params e ->
  1024 <= dl_runtime e <= 2 ^ 41 /\ 1024 <= dl_deadline e <= 2 ^ 41 /\
  1024 <= dl_period e <= 2 ^ 41.
Proof. intros (? & ? & _). lia. Qed.

Lemma new_period_ok e now : wf_params e -> dl_throttled e = false -> 0 <= now < 2 ^ 62 ->
  let e' := replenish_dl_new_period e now e in
  runtime e' = dl_runtime e /\ deadline e' = now + dl_deadline e /\
  (deadline e' < 2 ^ 62 -> entity_ok e').
Proof.
  intros W Ht Hn. pose proof (params_bounds e W). cbn.
  rewrite s64_small, u64_small by lia. split_and!; [done..|].
  assert (0 <= dl_runtime e * dl_period e) by (apply Z.mul_nonneg_nonneg; lia).
  intros Hd. split; cbn; rewrite ?Ht, ?s64_small, ?u64_small by lia; done || lia.
Qed.

Lemma settle_frame e : exists o,
  (if must_throttle e then throttle e else e) =
    set_overrun o (set_throttled (must_throttle e || dl_throttled e) e).
Proof.
  unfold throttle. destruct (must_throttle e); [|exists (dl_overrun e); by destruct e].
  destruct (_ && _); [by exists true|exists (dl_overrun e); by destruct e].
Qed.

Lemma run_keeps t0 s x f c r s' : entity_ok (ent s) -> within_share t0 s ->
  cbs_exec (Run x f c r) s = Some s' -> entity_ok (ent s') /\ within_share t0 s'.
Proof.
  intros K S. unfold cbs_exec. destruct (enabled _ _) eqn:En; [|done]. intros [= <-].
  cbn -[scaled_delta] in En |- *. set (d := scaled_delta x f c r (ent s)) in *. clearbody d.
  rewrite !andb_true_iff, negb_true_iff, !Z.leb_le in En. destruct En as [[[Ht _] Hd] Hlen].
  change (Z.shiftl 1 60) with (2 ^ 60) in Hlen.
  destruct K as [W Hdl Hb Ho Hr _]. specialize (Hr Ht). pose proof (params_bounds _ W) as B.
  set (e := ent s) in *.
  assert (d <= 2 ^ 60).
  { destruct W as (? & ? & _). apply Z.le_ngt. intros Hgt.
    assert (dl_period e * 2 ^ 60 < d * dl_period e) by nia. nia. }
  set (e1 := charge d e).
  assert (Hc : runtime e1 = runtime e - d) by (cbn; rewrite s64_small; lia).
  destruct (settle_frame e1) as (o & Es).
  cbn -[charge must_throttle throttle]. fold e1. rewrite Es.
  assert (0 <= runtime e * dl_period e) by nia.
  split.
  - split.
    + exact W.
    + exact Hdl.
    + change (runtime e1 <= dl_runtime e). lia.
    + change (- (dl_runtime e * 2 ^ 60) <= runtime e1 * dl_period e). rewrite Hc. lia.
    + change (must_throttle e1 || dl_throttled e = false -> 0 <= runtime e1).
      unfold must_throttle, dl_runtime_exceeded. rewrite !orb_false_iff, Z.leb_gt. lia.
    + change (must_throttle e1 || dl_throttled e = true -> runtime e1 <= 0 \/ dl_yielded e1 = true).
      unfold must_throttle, dl_runtime_exceeded. rewrite !orb_true_iff, Z.leb_le, Ht. naive_solver.
  - change (dl_deadline e * (charged s + d + runtime e1) <=
      dl_runtime e * (deadline e - t0) + 2048 * dl_deadline e * early s).
    rewrite Hc. unfold within_share in S. fold e in S. lia.
Qed.

(** A new instance at [now] keeps the share when the old deadline and budget left
    at most [x] unused. *)
Lemma new_period_share t0 s now x :
  wf_params (ent s) -> 0 <= now < 2 ^ 62 -> within_share t0 s ->
  dl_runtime (ent s) * (deadline (ent s) - now) <= dl_deadline (ent s) * (runtime (ent s) + 2048 * x) ->
  within_share t0 (mk_server (replenish_dl_new_period (ent s) now (ent s)) (executed s) (charged s) (early s + x)).
Proof.
  intros W Hn S Hx. pose proof (params_bounds _ W). unfold within_share in *; cbn.
  rewrite s64_small, u64_small by lia. lia.
Qed.

Lemma wake_keeps t0 s now s' : entity_ok (ent s) -> within_share t0 s ->
  cbs_exec (Wake now) s = Some s' -> deadline (ent s') < 2 ^ 62 ->
  entity_ok (ent s') /\ within_share t0 s'.
Proof.
  intros K S. unfold cbs_exec. destruct (enabled _ _) eqn:En; [|done]. intros [= <-].
  cbn -[time_ok] in En. rewrite !andb_true_iff, negb_true_iff, !Z.ltb_lt in En.
  destruct En as [[Ht Hn%time_ok_range] Hl]. change (Z.shiftl 1 42) with (2 ^ 42) in Hl.
  pose proof K as [W Hdl Hb _ Hr _]. specialize (Hr Ht).
  pose proof (params_bounds _ W) as B. unfold update_dl_entity. cbn [ent].
  rewrite before_small by lia.
  destruct (new_period_ok (ent s) now W Ht Hn) as (_ & _ & Knew).
  destruct (Z.ltb_spec (deadline (ent s)) now) as [Hlt|Hge].
  { rewrite andb_false_r. cbn [orb negb andb b2z]. intros Hd. split; [by apply Knew|].
    apply new_period_share; [done..|]. nia. }
  destruct (dl_entity_overflow _ _ _) eqn:Ho; cbn [orb negb andb b2z].
  2:{ intros _. split; [done|]. unfold within_share in *; cbn. by rewrite Z.add_0_r. }
  destruct (overflow_excess (ent s) now W) as [HLD Hex]; [lia..|done|].
  destruct (dl_is_implicit (ent s)); cbn [orb negb andb]; intros Hd.
  - split; [by apply Knew|]. apply new_period_share; [done..|]. lia.
  - destruct (revised_budget (ent s) now W) as [Hc1 Hc2]; [lia|].
    set (e' := update_dl_revised_wakeup now (ent s)) in *. split.
    + split; try done; try (change (dl_throttled e') with (dl_throttled (ent s)); rewrite Ht; done || lia).
      * change (dl_runtime e') with (dl_runtime (ent s)). lia.
      * change (dl_runtime e') with (dl_runtime (ent s)).
        change (dl_period e') with (dl_period (ent s)). nia.
    + unfold within_share in *. cbn [ent executed charged early].
      change (dl_runtime e') with (dl_runtime (ent s)).
      change (dl_deadline e') with (dl_deadline (ent s)).
      change (deadline e') with (deadline (ent s)). lia.
Qed.

Lemma pause_keeps t0 s ev s' : entity_ok (ent s) -> within_share t0 s ->
  (ev = Yield \/ (exists now, ev = LateWake now) \/ (exists now, ev = Restore now)) ->
  cbs_exec ev s = Some s' -> deadline (ent s') < 2 ^ 62 ->
  entity_ok (ent s') /\ within_share t0 s'.
Proof.
  intros K S Hev. unfold cbs_exec. destruct (enabled _ _) eqn:En; [|by destruct ev].
  pose proof K as [W Hdl Hb Ho Hr Hth]. pose proof (params_bounds _ W) as B.
  destruct Hev as [->|[[now ->]|[now ->]]]; intros [= <-] Hd; cbn [ent] in *.
  - cbn in En. rewrite negb_true_iff in En. split; [|done]. split; try done. cbn. naive_solver.
  - unfold constrained_throttle. cbn. destruct (Z.ltb_spec 0 (runtime (ent s))) as [Hp|Hp].
    + split; [split; cbn; try done; try lia; by left|].
      unfold within_share in *; cbn. nia.
    + split; [split; cbn; try done; by left|done].
  - cbn -[time_ok] in En. apply andb_true_iff in En as [Hn%time_ok_range Hlt].
    rewrite before_small, Z.ltb_lt in Hlt by lia.
    unfold setup_new_dl_entity in *. destruct (dl_throttled (ent s)) eqn:Ht; [done|].
    destruct (new_period_ok (ent s) now W Ht Hn) as (_ & _ & Knew).
    split; [by apply Knew|]. specialize (Hr eq_refl).
    rewrite <- (Z.add_0_r (early s)). apply new_period_share; [done..|]. nia.
Qed.

(** The least number of periods that gives a positive budget. *)
Lemma least_rounds Q c : 0 < Q -> c <= 0 ->
  let k := - c / Q + 1 in 1 <= k /\ 0 < c + k * Q <= Q.
Proof.
  intros HQ Hc k. unfold k.
  pose proof (Z.div_mod (- c) Q ltac:(lia)). pose proof (Z.mod_pos_bound (- c) Q HQ).
  assert (0 <= - c / Q) by (apply Z.div_pos; lia). lia.
Qed.

Lemma left_over_bounds e : entity_ok e -> dl_throttled e = true ->
  - (dl_runtime e * 2 ^ 60) <= left_over e * dl_period e /\ left_over e <= 0 /\
  left_over e <= runtime e.
Proof.
  intros [W _ _ Ho _ Hth] Ht. specialize (Hth Ht). pose proof (params_bounds _ W).
  unfold left_over. destruct (dl_yielded e), (Z.ltb_spec 0 (runtime e)); simpl; lia.
Qed.

Lemma replenish_keeps t0 s now s' : entity_ok (ent s) -> within_share t0 s ->
  cbs_exec (Replenish now) s = Some s' -> deadline (ent s') < 2 ^ 62 ->
  entity_ok (ent s') /\ within_share t0 s'.
Proof.
  intros K S. unfold cbs_exec. destruct (enabled _ _) eqn:En; [|done].
  cbn -[time_ok] in En. apply andb_true_iff in En as [Ht Hn%time_ok_range].
  destruct (left_over_bounds _ K Ht) as (Hlo & Hl0 & Hlr). pose proof K as [W Hdl _ _ _ _].
  pose proof (params_bounds _ W) as B. set (e := ent s) in *.
  destruct (least_rounds (dl_runtime e) (left_over e)) as [Hk Hc]; [lia..|].
  set (k := - left_over e / dl_runtime e + 1) in *.
  assert (HkT : k * dl_period e <= 2 ^ 60 + dl_period e).
  { assert (- left_over e / dl_runtime e * dl_runtime e <= - left_over e) by (apply div_le_mul; lia).
    assert ((k - 1) * dl_runtime e * dl_period e <= dl_runtime e * 2 ^ 60) by nia. nia. }
  assert (- 2 ^ 60 <= left_over e).
  { destruct W as (? & ? & _). apply Z.le_ngt. intros Hlt.
    assert (left_over e * dl_period e < - 2 ^ 60 * dl_period e) by nia. nia. }
  destruct (replenish_spec e now e) as (e' & -> & He'); [lia..|].
  cbn [mbind option_bind]. intros [= <-]. cbn [ent]. intros Hd.
  fold k in He'. rewrite u64_small, before_small in He' by lia.
  assert (Hshare : dl_deadline e * (charged s + (left_over e + k * dl_runtime e)) <=
    dl_runtime e * (deadline e + k * dl_period e - t0) + 2048 * dl_deadline e * early s).
  { unfold within_share in S. fold e in S. destruct W as (? & ? & _).
    assert (dl_deadline e * (k * dl_runtime e) <= dl_period e * (k * dl_runtime e)) by nia. nia. }
  destruct (Z.ltb_spec (deadline e + k * dl_period e) now) as [Hlag|Hok].
  - destruct (new_period_ok (set_throttled false (set_yielded false e)) now W eq_refl Hn)
      as (Er & Ed & Knew).
    change e' with (ent (mk_server e' (executed s) (charged s) (early s))) in *. cbn [ent] in *.
    assert (E' : e' = replenish_dl_new_period (set_throttled false (set_yielded false e)) now
                        (set_throttled false (set_yielded false e))) by (rewrite He'; by destruct e).
    rewrite E' in *. split; [by apply Knew|]. unfold within_share. cbn [ent executed charged early].
    rewrite Er, Ed. cbn.
    assert (0 <= dl_deadline e * (left_over e + k * dl_runtime e))
      by (apply Z.mul_nonneg_nonneg; lia).
    assert (dl_runtime e * (deadline e + k * dl_period e) <= dl_runtime e * now)
      by (apply Z.mul_le_mono_nonneg_l; lia).
    lia.
  - subst e'. cbn in Hd. split.
    + split; cbn; done || lia.
    + unfold within_share; cbn. lia.
Qed.

Lemma exec_keeps_share t0 ev s s' : entity_ok (ent s) -> within_share t0 s ->
  cbs_exec ev s = Some s' -> deadline (ent s') < 2 ^ 62 ->
  entity_ok (ent s') /\ within_share t0 s'.
Proof.
  intros K S E Hd. destruct ev.
  - by eapply run_keeps.
  - apply (pause_keeps t0 s Yield); auto.
  - by eapply wake_keeps.
  - apply (pause_keeps t0 s (LateWake now)); eauto.
  - by eapply replenish_keeps.
  - apply (pause_keeps t0 s (Restore now)); eauto.
Qed.

Lemma run_keeps_share t0 evs : forall s s', entity_ok (ent s) -> within_share t0 s ->
  cbs_run evs s = Some s' -> entity_ok (ent s') /\ within_share t0 s'.
Proof.
  induction evs as [|ev evs IH]; intros s s' K S; simpl; [by intros [= <-]|].
  destruct (cbs_exec ev s) as [s1|] eqn:E; [|done]. cbn [mbind option_bind].
  destruct (time_ok _) eqn:T; [|done]. apply time_ok_range in T.
  destruct (exec_keeps_share t0 ev s s1 K S E ltac:(lia)) as [K1 S1]. by apply IH.
Qed.

(** No event changes the parameters. *)
Definition params (e : sched_dl_entity) : Z * Z * Z * Z := (dl_runtime e, dl_deadline e, dl_period e, flags e).

Lemma postpone_params fuel pi : forall e e', postpone fuel pi e = Some e' -> params e' = params e.
Proof.
  induction fuel as [|fuel IH]; intros e e'; simpl; destruct (0 <? runtime e); try congruence.
  intros H. by rewrite (IH _ _ H).
Qed.

Lemma replenish_params pi now e e' :
  replenish_dl_entity pi now e = Some e' -> params e' = params e.
Proof.
  unfold replenish_dl_entity. destruct (postpone _ _ _) as [e1|] eqn:P; [|done].
  apply postpone_params in P. cbn [mbind option_bind]. intros [= <-].
  assert (P' : params e1 = params e) by (rewrite P; repeat case_match; done).
  rewrite <- P'. repeat case_match; done.
Qed.

Lemma exec_params ev s s' : cbs_exec ev s = Some s' -> params (ent s') = params (ent s).
Proof.
  unfold cbs_exec. destruct (enabled ev (ent s)); [|by destruct ev].
  destruct ev; try (intros [= <-]; cbn [ent];
    unfold update_dl_entity, update_dl_revised_wakeup, constrained_throttle, setup_new_dl_entity,
      throttle; repeat case_match; done).
  destruct (replenish_dl_entity _ _ _) as [e1|] eqn:R; [|done].
  cbn [mbind option_bind]. intros [= <-]. by apply replenish_params in R.
Qed.

Lemma run_params evs : forall s s', cbs_run evs s = Some s' -> params (ent s') = params (ent s).
Proof.
  induction evs as [|ev evs IH]; intros s s'; simpl; [by intros [= <-]|].
  destruct (cbs_exec ev s) as [s1|] eqn:E; [|done]. cbn [mbind option_bind].
  destruct (time_ok _); [|done]. intros H. rewrite (IH _ _ H). by eapply exec_params.
Qed.

(** ** Theorems *)

(** The instance a task starts with when its first job arrives at [t0]. *)
Definition first_instance (attr : sched_attr) (t0 : Z) (e : sched_dl_entity) : server :=
  let e := __setparam_dl attr (set_throttled false e) in
  mk_server (replenish_dl_new_period e t0 e) 0 0 0.

(** Execution at the highest frequency on a CPU of the highest capacity. *)
Definition full_speed (ev : cbs_event) : Prop :=
  match ev with
  | Run x f c _ => x < 2 ^ 54 /\ f = SCHED_CAPACITY_SCALE /\ c = SCHED_CAPACITY_SCALE
  | _ => True
  end.

Lemma cap_scale_full x : 0 <= x < 2 ^ 54 -> cap_scale x SCHED_CAPACITY_SCALE = x.
Proof.
  intros H. unfold cap_scale, SCHED_CAPACITY_SCALE, SCHED_CAPACITY_SHIFT.
  rewrite u64_small by (change (Z.shiftl 1 10) with 1024; lia).
  rewrite Z.shiftr_div_pow2 by lia. change (Z.shiftl 1 10) with (2 ^ 10). apply Z.div_mul. lia.
Qed.

Lemma exec_full_speed ev s s' : full_speed ev -> Z.land (flags (ent s)) SCHED_FLAG_RECLAIM = 0 ->
  cbs_exec ev s = Some s' -> charged s' - executed s' = charged s - executed s.
Proof.
  intros F Hr. unfold cbs_exec. destruct (enabled ev (ent s)) eqn:En; [|by destruct ev].
  destruct ev; try (by intros [= <-]).
  - intros [= <-]. cbn [charged executed]. destruct F as (F1 & -> & ->). cbn -[scaled_delta] in En.
    rewrite !andb_true_iff, orb_true_iff, andb_true_iff, Z.ltb_lt, Z.eqb_eq in En.
    unfold scaled_delta. rewrite Hr. cbn [z2b Z.eqb negb]. rewrite !cap_scale_full by (rewrite ?cap_scale_full; lia). lia.
  - destruct (replenish_dl_entity _ _ _); [|done]. by intros [= <-].
Qed.

Lemma run_full_speed evs : forall s s', Forall full_speed evs ->
  Z.land (flags (ent s)) SCHED_FLAG_RECLAIM = 0 -> cbs_run evs s = Some s' ->
  charged s' - executed s' = charged s - executed s.
Proof.
  induction evs as [|ev evs IH]; intros s s' F Hr; simpl; [by intros [= <-]|].
  apply Forall_cons_1 in F as [F1 F].
  destruct (cbs_exec ev s) as [s1|] eqn:E; [|done]. cbn [mbind option_bind].
  destruct (time_ok _); [|done]. intros H. pose proof (exec_params _ _ _ E) as P. injection P as _ _ _ P.
  rewrite (IH _ _ F ltac:(by rewrite P) H). by apply (exec_full_speed ev).
Qed.

(** C10: Isolation.  A task whose parameters [__checkparam_dl] accepts is charged, from
    any fresh instance at [t0] on and whatever it does (running, overrunning,
    yielding, sleeping and waking at any time), for no more than its declared share of the
    time up to its current deadline: what it was charged for and the remaining
    budget are at most runtime/deadline of the interval, plus 2048 ns, the
    resolution of the comparison, for each wake-up that had to cut the budget.  The charge
    is the execution scaled by frequency and capacity, or what [grub_reclaim] makes of it;
    a task without SCHED_FLAG_RECLAIM is charged for exactly the time it executes as
    long as it runs at full frequency and capacity. *)
Theorem cbs_isolation pmax pmin attr e t0 evs s :
  0 <= pmax <= 2 ^ 31 -> 0 <= sched_period attr -> 0 <= sched_deadline attr ->
  Z.land (sched_flags attr) SCHED_FLAG_SUGOV = 0 -> __checkparam_dl pmax pmin attr = true ->
  0 <= t0 < 2 ^ 61 -> cbs_run evs (first_instance attr t0 e) = Some s ->
  sched_deadline attr * (charged s + runtime (ent s)) <=
    sched_runtime attr * (deadline (ent s) - t0) + 2048 * sched_deadline attr * early s /\
  (Forall full_speed evs -> Z.land (sched_flags attr) SCHED_FLAG_RECLAIM = 0 -> executed s = charged s).
Proof.
  intros Hmax Hp Hd Hf Hok Ht R. unfold first_instance in R.
  set (e1 := __setparam_dl attr (set_throttled false e)) in R.
  assert (W : wf_params e1) by (by eapply setparam_wf).
  pose proof (params_bounds _ W).
  destruct (new_period_ok e1 t0 W eq_refl ltac:(lia)) as (Er & Ed & K).
  pose proof (run_params _ _ _ R) as P. injection P as P1 P2 P3 _. split.
  - apply (run_keeps_share t0) in R as [_ S]; cbn [ent executed charged early].
    + unfold within_share in S. by rewrite P1, P2 in S.
    + apply K. lia.
    + unfold within_share. cbn [ent executed charged early]. rewrite Er, Ed. cbn. lia.
  - intros F Hr. apply run_full_speed in R; [cbn in R; lia|done|].
    cbn -[SCHED_DL_FLAGS]. rewrite <- Z.land_assoc. exact Hr.
Qed.

(** Replenishment terminates.  For an entity with parameters of its own, a
    donor with a positive runtime and a budget that is used up, the loop ends; the
    new budget is positive and at most one runtime, the deadline moves by the least
    number of periods that gives such a budget, unless that still lies before the
    clock, in which case a full new instance starts; the entity is neither
    throttled nor marked as yielded. *)
Theorem replenish_least_postponement pi now e :
  dl_deadline e <> 0 -> 0 < dl_runtime pi < 2 ^ 62 -> - two63 <= left_over e <= 0 ->
  exists e' k, replenish_dl_entity pi now e = Some e' /\
    dl_throttled e' = false /\ dl_yielded e' = false /\ 0 < runtime e' <= dl_runtime pi /\
    1 <= k /\ left_over e + (k - 1) * dl_runtime pi <= 0 /\
    if dl_time_before (deadline e +u64 k * dl_period pi) now
    then deadline e' = now +u64 dl_deadline pi /\ runtime e' = dl_runtime pi
    else deadline e' = deadline e +u64 k * dl_period pi /\
         runtime e' = left_over e + k * dl_runtime pi.
Proof.
  intros HD HQ Hl. destruct (replenish_spec pi now e HD HQ Hl) as (e' & R & ->).
  destruct (least_rounds (dl_runtime pi) (left_over e)) as [Hk Hc]; [lia..|].
  eexists _, _. rewrite R. split; [done|].
  destruct (dl_time_before _ now) eqn:B; rewrite B; cbn; rewrite ?s64_small by lia;
    split_and!; done || lia.
Qed.

(** Parameters survive the round trip.  What [__getparam_dl] reports after
    [__setparam_dl] is the runtime and the deadline that were set, the period that
    was set (the deadline when it was zero) and the deadline-class flags, the other
    flags of the caller untouched; and setting the reported values again counts as
    no change. *)
Theorem dl_params_roundtrip attr e prio a :
  let e' := __setparam_dl attr e in
  let r := __getparam_dl prio e' a in
  sched_runtime r = sched_runtime attr /\ sched_deadline r = sched_deadline attr /\
  sched_period r = elvis (sched_period attr) (sched_deadline attr) /\
  Z.land (sched_flags r) SCHED_DL_FLAGS = Z.land (sched_flags attr) SCHED_DL_FLAGS /\
  Z.ldiff (sched_flags r) SCHED_DL_FLAGS = Z.ldiff (sched_flags a) SCHED_DL_FLAGS /\
  dl_param_changed e' r = false.
Proof.
  intros e' r.
  assert (HF : Z.land (sched_flags r) SCHED_DL_FLAGS = Z.land (sched_flags attr) SCHED_DL_FLAGS).
  { unfold r, e'; cbn -[SCHED_DL_FLAGS]. apply Z.bits_inj'. intros n Hn.
    rewrite !Z.land_spec, Z.lor_spec, Z.ldiff_spec, Z.land_spec.
    by destruct (Z.testbit (sched_flags a) n), (Z.testbit (sched_flags attr) n),
      (Z.testbit SCHED_DL_FLAGS n). }
  split_and!; try done.
  - unfold r, e'; cbn -[SCHED_DL_FLAGS]. apply Z.bits_inj'. intros n Hn.
    rewrite !Z.ldiff_spec, Z.lor_spec, Z.ldiff_spec, Z.land_spec.
    by destruct (Z.testbit (sched_flags a) n), (Z.testbit (sched_flags attr) n),
      (Z.testbit SCHED_DL_FLAGS n).
  - unfold dl_param_changed. rewrite HF. cbn -[SCHED_DL_FLAGS]. by rewrite !Z.eqb_refl.
Qed.

(** Accepted parameters stay in the fixed-point range: the bandwidth and the
    density stored by [__setparam_dl] are the exact rounded-down quotients, at most
    one whole CPU, the density is at least the bandwidth, and the budget the revised
    wake-up rule computes from the density fits the remaining time. *)
Theorem accepted_params_exact pmax pmin attr e now :
  0 <= pmax <= 2 ^ 31 -> 0 <= sched_period attr -> 0 <= sched_deadline attr ->
  Z.land (sched_flags attr) SCHED_FLAG_SUGOV = 0 -> __checkparam_dl pmax pmin attr = true ->
  0 <= deadline e - now < sched_deadline attr ->
  let e' := __setparam_dl attr e in
  let Q := sched_runtime attr in
  let T := elvis (sched_period attr) (sched_deadline attr) in
  dl_bw e' = Q * BW_UNIT / T /\ dl_density e' = Q * BW_UNIT / sched_deadline attr /\
  0 <= dl_bw e' <= dl_density e' /\ dl_density e' <= BW_UNIT /\
  sched_deadline attr * runtime (update_dl_revised_wakeup now e') <= Q * (deadline e - now).
Proof.
  intros Hmax Hp Hd Hf Hok HL e' Q T.
  assert (W : wf_params e') by (by eapply setparam_wf).
  destruct (revised_budget e' now W HL) as [_ Hr]. pose proof (params_bounds _ W).
  destruct W as (HQ & HT & Hb & Hs).
  change (dl_runtime e') with Q in *. change (dl_deadline e') with (sched_deadline attr) in *.
  change (dl_period e') with T in *. change BW_UNIT with (2 ^ 20).
  split_and!; try done; rewrite ?Hb, ?Hs.
  - apply Z.div_pos; lia.
  - apply Z.div_le_compat_l; lia.
  - apply Z.div_le_upper_bound; lia.
Qed.

(** *** Witnesses *)

(** 10 ms every 100 ms, due after 30 ms. *)
Definition demo_attr : sched_attr := mk_dl_attr 6 0 0 0 10000000 30000000 100000000.
Definition demo_se : sched_dl_entity :=
  mk_dl_se 0 0 0 0 0 0 0 0 false false false false false 7.

(** Runs 8 ms at half the frequency, sleeps and comes back 5 ms before the deadline with 6 ms left, runs
    into its budget, is replenished at the next period, yields, is replenished,
    and wakes up late. *)
Definition demo_events : list cbs_event :=
  [Run 8000000 512 1024 0; Wake 1025000000; Run 2000000 1024 1024 0; Replenish 1100000000; Run 3000000 1024 1024 0; Yield; Run 1000000 1024 1024 0;
   Replenish 1200000000; Run 2500000 1024 1024 0; LateWake 1250000000; Replenish 1300000000; Run 10500000 1024 1024 0].

Lemma cbs_isolation_witness : exists s,
  cbs_run demo_events (first_instance demo_attr 1000000000 demo_se) = Some s /\
  early s = 1 /\
  30000000 * (charged s + runtime (ent s)) <=
    10000000 * (deadline (ent s) - 1000000000) + 2048 * 30000000 * early s.
Proof.
  eexists. split; [vm_compute; reflexivity|]. split; [reflexivity|].
  apply (cbs_isolation 4194304 100 demo_attr demo_se 1000000000 demo_events);
    try reflexivity; vm_compute; repeat split; congruence.
Defined.

Definition overrun_se : sched_dl_entity :=
  set_throttled true (set_runtime (-25000000) (set_deadline 1030000000 (__setparam_dl demo_attr demo_se))).

Lemma replenish_least_postponement_witness : exists e' k,
  replenish_dl_entity overrun_se 1100000000 overrun_se = Some e' /\
    dl_throttled e' = false /\ dl_yielded e' = false /\ 0 < runtime e' <= dl_runtime overrun_se /\
    1 <= k /\ left_over overrun_se + (k - 1) * dl_runtime overrun_se <= 0 /\
    if dl_time_before (deadline overrun_se +u64 k * dl_period overrun_se) 1100000000
    then deadline e' = 1100000000 +u64 dl_deadline overrun_se /\ runtime e' = dl_runtime overrun_se
    else deadline e' = deadline overrun_se +u64 k * dl_period overrun_se /\
         runtime e' = left_over overrun_se + k * dl_runtime overrun_se.
Proof.
  apply (replenish_least_postponement overrun_se 1100000000 overrun_se);
    vm_compute; repeat split; congruence.
Defined.

Lemma accepted_params_exact_witness :
  let e' := __setparam_dl demo_attr (set_deadline 1030000000 demo_se) in
  dl_bw e' = 104857 /\ dl_density e' = 349525 /\
  30000000 * runtime (update_dl_revised_wakeup 1020000000 e') <= 10000000 * (1030000000 - 1020000000).
Proof.
  destruct (accepted_params_exact 4194304 100 demo_attr (set_deadline 1030000000 demo_se) 1020000000)
    as (Hb & Hs & _ & _ & Hr);
    [vm_compute; repeat split; congruence..|].
  split; [rewrite Hb; reflexivity|]. split; [rewrite Hs; reflexivity|exact Hr].
Defined.

End Cbs.
