(* ===== verification/Cpupri.v ===== *)
(** CPU priority management: [kernel/sched/cpupri.c] and [cpupri.h].

    Every CPU is in one of 101 priority levels or in none.  The root domain keeps
    the inverse map, a counter and a CPU mask per level, that real-time push and
    pull use to find the CPUs running the least important work.  [cpupri_set] runs
    under the lock of its own run queue only, so updates of different CPUs and
    searches interleave: the file models the single stores of an update, proves
    the sequential behaviour of update and search, and proves for interleaved
    updates that no CPU is ever missing from both its old and its new level. *)

From Stdlib Require Import ZArith Lia.
From stdpp Require Import base list numbers option sets.
From S2P Require Import Prelude.

Module Cpupri.

Definition MAX_RT_PRIO : Z := 100.
Definition CPUPRI_NR_PRIORITIES : Z := MAX_RT_PRIO + 1.
Definition CPUPRI_INVALID : Z := -1.
Definition CPUPRI_NORMAL : Z := 0.
Definition CPUPRI_HIGHER : Z := 100.

Record cpupri_vec := mk_vec { count : Z; mask : Z }.

Record cpupri := mk_cpupri {
  pri_to_cpu : list cpupri_vec;
  cpu_to_pri : list Z
}.

(** No case of the [switch] applies to another value: the result is then an
    uninitialised variable. *)
Definition convert_prio (prio : Z) : option Z :=
  if prio =? CPUPRI_INVALID then Some CPUPRI_INVALID
  else if (0 <=? prio) && (prio <=? 98) then Some (MAX_RT_PRIO - 1 - prio)
  else if prio =? MAX_RT_PRIO - 1 then Some CPUPRI_NORMAL
  else if prio =? MAX_RT_PRIO then Some CPUPRI_HIGHER
  else None.

(** *** Updates *)

(** The single stores of [cpupri_set], in the order the barriers fix. *)
Inductive uop :=
| SetMask (idx : Z)      (** [cpumask_set_cpu(cpu, vec->mask)] *)
| IncCount (idx : Z)     (** [atomic_inc(&vec->count)] *)
| DecCount (idx : Z)     (** [atomic_dec(&vec->count)] *)
| ClearMask (idx : Z)    (** [cpumask_clear_cpu(cpu, vec->mask)] *)
| StorePri (pri : Z).    (** [*currpri = newpri] *)

Definition upd_vec (cp : cpupri) (i : Z) (f : cpupri_vec -> cpupri_vec) : option cpupri :=
  v ← aref (pri_to_cpu cp) i;
  vs ← aset (pri_to_cpu cp) i (f v);
  Some (mk_cpupri vs (cpu_to_pri cp)).

Definition apply_uop (cp : cpupri) (cpu : Z) (o : uop) : option cpupri :=
  match o with
  | SetMask i => upd_vec cp i (fun v => mk_vec (count v) (mask_set (mask v) cpu))
  | IncCount i => upd_vec cp i (fun v => mk_vec (count v + 1) (mask v))
  | DecCount i => upd_vec cp i (fun v => mk_vec (count v - 1) (mask v))
  | ClearMask i => upd_vec cp i (fun v => mk_vec (count v) (mask_clear (mask v) cpu))
  | StorePri p =>
      ps ← aset (cpu_to_pri cp) cpu p;
      Some (mk_cpupri (pri_to_cpu cp) ps)
  end.

Fixpoint run_uops (cp : cpupri) (cpu : Z) (ops : list uop) : option cpupri :=
  match ops with
  | [] => Some cp
  | o :: ops => cp ← apply_uop cp cpu o; run_uops cp cpu ops
  end.

Definition cpupri_set_ops (oldpri newpri : Z) : list uop :=
  (if negb (newpri =? CPUPRI_INVALID) then [SetMask newpri; IncCount newpri] else []) ++
  (if negb (oldpri =? CPUPRI_INVALID) then [DecCount oldpri; ClearMask oldpri] else []) ++
  [StorePri newpri].

(** [BUG_ON] is [None]. *)
Definition cpupri_set (cp : cpupri) (cpu newpri : Z) : option cpupri :=
  oldpri ← aref (cpu_to_pri cp) cpu;
  newpri ← convert_prio newpri;
  if CPUPRI_NR_PRIORITIES <=? newpri then None
  else if newpri =? oldpri then Some cp
  else run_uops cp cpu (cpupri_set_ops oldpri newpri).

(** *** Search *)

Section Find.

Variable nr_cpu_ids : Z.
Variable cpu_active_mask : Z.

(** [__cpupri_find]: [cpus_mask] is the task's affinity mask; [lowest_mask] is
    [None] for a null pointer.  The result is the return value and the mask. *)
Definition __cpupri_find (cp : cpupri) (cpus_mask : Z) (lowest_mask : option Z) (i : Z)
  : option (bool * option Z) :=
  vec ← aref (pri_to_cpu cp) i;
  if count vec =? 0 then Some (false, lowest_mask)
  else if mask_empty (mask_and cpus_mask (mask vec)) then Some (false, lowest_mask)
  else
    match lowest_mask with
    | Some _ =>
        let lowest := mask_and cpus_mask (mask vec) in
        let lowest := mask_and lowest cpu_active_mask in
        if mask_empty lowest then Some (false, Some lowest)
        else Some (true, Some lowest)
    | None => Some (true, None)
    end.

(** The [for_each_cpu] loop that drops the CPUs that do not fit. *)
Fixpoint drop_unfit (fitness : Z -> bool) (cpus : list Z) (lowest : Z) : Z :=
  match cpus with
  | [] => lowest
  | c :: cpus =>
      drop_unfit fitness cpus (if negb (fitness c) then mask_clear lowest c else lowest)
  end.

(** The [for (idx = 0; idx < task_pri; idx++)] loop; [idxs] are the levels still
    to visit, [fitness_fn] is [None] for a null pointer. *)
Fixpoint find_loop (cp : cpupri) (cpus_mask : Z) (fitness_fn : option (Z -> bool))
    (idxs : list Z) (lowest_mask : option Z) : option (bool * option Z) :=
  match idxs with
  | [] => Some (false, lowest_mask)
  | i :: idxs =>
      '(found, lowest_mask) ← __cpupri_find cp cpus_mask lowest_mask i;
      if negb found then find_loop cp cpus_mask fitness_fn idxs lowest_mask
      else
        match lowest_mask, fitness_fn with
        | Some lowest, Some fitness =>
            let lowest := drop_unfit fitness (mask_bits nr_cpu_ids lowest) lowest in
            if mask_empty lowest
            then find_loop cp cpus_mask fitness_fn idxs (Some lowest)
            else Some (true, Some lowest)
        | _, _ => Some (true, lowest_mask)
        end
  end.

(** [cpupri_find], which is [cpupri_find_fitness] with a null [fitness_fn]. *)
Definition cpupri_find (cp : cpupri) (prio cpus_mask : Z) (lowest_mask : option Z)
  : option (bool * option Z) :=
  task_pri ← convert_prio prio;
  find_loop cp cpus_mask None (seqZ 0 task_pri) lowest_mask.

Definition cpupri_find_fitness (cp : cpupri) (prio cpus_mask : Z)
    (lowest_mask : option Z) (fitness_fn : option (Z -> bool))
  : option (bool * option Z) :=
  task_pri ← convert_prio prio;
  r ← find_loop cp cpus_mask fitness_fn (seqZ 0 task_pri) lowest_mask;
  let '(found, lowest_mask) := (r : bool * option Z) in
  if found then Some (true, lowest_mask)
  else
    match fitness_fn with
    | Some _ => cpupri_find cp prio cpus_mask lowest_mask
    | None => Some (false, lowest_mask)
    end.

End Find.

(** The structure after a successful initialisation. *)
Definition cpupri_fresh (nr_cpu_ids possible : Z) : cpupri :=
  mk_cpupri
    (replicate (Z.to_nat CPUPRI_NR_PRIORITIES) (mk_vec 0 0))
    (imap (fun c p => if mask_test possible (Z.of_nat c) then CPUPRI_INVALID else p)
       (replicate (Z.to_nat nr_cpu_ids) 0)).

(** [cpupri_init]: [vec_alloc i] tells whether the mask allocation of level [i]
    succeeds and [pri_alloc] whether the array allocation does; the failure branch
    frees what was allocated and returns [-ENOMEM]. *)
Definition cpupri_init (nr_cpu_ids possible : Z) (vec_alloc : Z -> bool) (pri_alloc : bool)
  : Z + cpupri :=
  if negb (forallb vec_alloc (seqZ 0 CPUPRI_NR_PRIORITIES)) then inl (-12)
  else if negb pri_alloc then inl (-12)
  else inr (cpupri_fresh nr_cpu_ids possible).

(** ** Interleaved updates *)

(** Each CPU runs one [cpupri_set] at a time (its run queue lock is held), and
    single stores of different CPUs interleave. *)
Record system := mk_sys { sys_cp : cpupri; pending : Z -> list uop }.

Definition upd_pending (f : Z -> list uop) (c : Z) (ops : list uop) : Z -> list uop :=
  fun c' => if c' =? c then ops else f c'.

Inductive sys_step (possible : Z) : system -> system -> Prop :=
| sys_start s c newpri old new :
    mask_test possible c = true -> pending s c = [] ->
    aref (cpu_to_pri (sys_cp s)) c = Some old -> convert_prio newpri = Some new ->
    new <> old ->
    sys_step possible s (mk_sys (sys_cp s) (upd_pending (pending s) c (cpupri_set_ops old new)))
| sys_store s c o ops cp' :
    pending s c = o :: ops -> apply_uop (sys_cp s) c o = Some cp' ->
    sys_step possible s (mk_sys cp' (upd_pending (pending s) c ops)).

Inductive sys_reachable (nr possible : Z) : system -> Prop :=
| sys_init cp :
    cpupri_init nr possible (fun _ => true) true = inr cp ->
    sys_reachable nr possible (mk_sys cp (fun _ => []))
| sys_next s s' :
    sys_reachable nr possible s -> sys_step possible s s' -> sys_reachable nr possible s'.

(** ** Views of the state *)

Definition vc (cp : cpupri) (i : Z) : Z :=
  count (default (mk_vec 0 0) (aref (pri_to_cpu cp) i)).
Definition vm (cp : cpupri) (i : Z) : Z :=
  mask (default (mk_vec 0 0) (aref (pri_to_cpu cp) i)).
Definition pr (cp : cpupri) (c : Z) : Z := default (-1) (aref (cpu_to_pri cp) c).

Definition level (i : Z) : Prop := 0 <= i < CPUPRI_NR_PRIORITIES.

Section Shape.

Context (nr : Z).

Definition shape (cp : cpupri) : Prop :=
  Z.of_nat (length (pri_to_cpu cp)) = CPUPRI_NR_PRIORITIES /\
  Z.of_nat (length (cpu_to_pri cp)) = nr.

(** What a store does to the counter, the mask and the priority array. *)
Definition inc_of (o : uop) (i : Z) : Z :=
  match o with IncCount j => b2z (j =? i) | _ => 0 end.
Definition dec_of (o : uop) (i : Z) : Z :=
  match o with DecCount j => b2z (j =? i) | _ => 0 end.
Definition bit_after (o : uop) (cpu i c : Z) (b : bool) : bool :=
  match o with
  | SetMask j => ((j =? i) && (c =? cpu)) || b
  | ClearMask j => b && negb ((j =? i) && (c =? cpu))
  | _ => b
  end.
Definition pri_after (o : uop) (cpu c p : Z) : Z :=
  match o with StorePri q => if c =? cpu then q else p | _ => p end.

Definition uop_ok (o : uop) : Prop :=
  match o with
  | SetMask i | IncCount i | DecCount i | ClearMask i => level i
  | StorePri p => p = CPUPRI_INVALID \/ level p
  end.

Lemma upd_vec_spec cp i f :
  shape cp -> level i ->
  exists cp', upd_vec cp i f = Some cp' /\ shape cp' /\
    (forall c, pr cp' c = pr cp c) /\
    (forall j, level j ->
       mk_vec (vc cp' j) (vm cp' j) =
       if j =? i then f (mk_vec (vc cp j) (vm cp j)) else mk_vec (vc cp j) (vm cp j)).
Proof.
  unfold level. intros [S1 S2] Hi. unfold upd_vec.
  destruct (aref_lt (pri_to_cpu cp) i) as [v Hv]; [lia|]. rewrite Hv. simpl.
  rewrite aset_lt by lia. simpl. eexists. split_and!; [done| |done|].
  - split; simpl; [by rewrite length_insert|done].
  - intros j Hj. unfold vc, vm. simpl. rewrite !aref_insert by lia.
    destruct (Z.eqb_spec j i) as [->|]; simpl.
    + rewrite Hv. simpl. by destruct v, (f _).
    + done.
Qed.

Lemma apply_uop_spec cp cpu o :
  shape cp -> 0 <= cpu < nr -> uop_ok o ->
  exists cp', apply_uop cp cpu o = Some cp' /\ shape cp' /\
    (forall i, level i -> vc cp' i = vc cp i + inc_of o i - dec_of o i) /\
    (forall i c, level i -> 0 <= c ->
       mask_test (vm cp' i) c = bit_after o cpu i c (mask_test (vm cp i) c)) /\
    (forall c, 0 <= c -> pr cp' c = pri_after o cpu c (pr cp c)).
Proof.
  intros Sh Hc Ho. destruct o as [j|j|j|j|p]; simpl in Ho |- *.
  1-4: match goal with |- context [upd_vec ?x ?i ?f] =>
    destruct (upd_vec_spec x i f Sh Ho) as (cp' & -> & Sh' & P & V) end;
    exists cp'; split; [done|]; split; [done|]; split; [|split; [|by intros]];
    [intros i Hi | intros i c Hi Hci]; specialize (V i Hi); rewrite ?(Z.eqb_sym j i);
    destruct (i =? j); simpl in *; injection V as V1 V2; rewrite ?V1, ?V2;
    rewrite ?mask_test_set, ?mask_test_clear by lia; simpl; unfold b2z;
    try lia; try done; by rewrite andb_true_r.
  destruct Sh as [S1 S2]. rewrite aset_lt by lia. simpl. eexists. split; [done|].
  split; [split; simpl; [done|by rewrite length_insert]|]. split_and!.
  - intros. unfold vc. simpl. lia.
  - done.
  - intros c Hci. unfold pr. simpl. rewrite aref_insert by lia. by destruct (c =? cpu).
Qed.

End Shape.

#[local] Arguments Z.eqb : simpl never.

(** ** The bookkeeping of a partly executed update *)

(** The priority the CPU will have when the remaining stores are done. *)
Fixpoint target (p : Z) (ops : list uop) : Z :=
  match ops with
  | [] => p
  | StorePri q :: ops => target q ops
  | _ :: ops => target p ops
  end.

Definition sets (i : Z) (o : uop) : bool := match o with SetMask j => j =? i | _ => false end.
Definition clears (i : Z) (o : uop) : bool :=
  match o with ClearMask j => j =? i | _ => false end.

(** What CPU with priority [p] and remaining stores [ops] contributes to the
    counter of level [i], and its bit in the mask of level [i]. *)
Definition tally (p : Z) (ops : list uop) (i : Z) : Z :=
  b2z (target p ops =? i) - zsum (fun o => inc_of o i) ops + zsum (fun o => dec_of o i) ops.
Definition shown (p : Z) (ops : list uop) (i : Z) : bool :=
  if existsb (sets i) ops then false
  else if existsb (clears i) ops then true
  else target p ops =? i.

Definition pri_ok (p : Z) : Prop := p = CPUPRI_INVALID \/ level p.

(** [ops] is what is left of an update of a CPU whose stored priority is [p]. *)
Definition in_flight (p : Z) (ops : list uop) : Prop :=
  pri_ok p /\
  (ops = [] \/
   exists new pre, pre ++ ops = cpupri_set_ops p new /\ new <> p /\ pri_ok new).

(** Case analysis over the position inside [cpupri_set_ops]. *)
Ltac update_cases :=
  match goal with
  | E : ?pre ++ _ = cpupri_set_ops ?p ?new |- _ =>
      unfold cpupri_set_ops in E;
      destruct (Z.eqb_spec new CPUPRI_INVALID), (Z.eqb_spec p CPUPRI_INVALID);
      simpl in E; try congruence;
      repeat (destruct pre as [|? pre]; simpl in E;
              [simplify_eq; clear E || idtac
              |try discriminate E; injection E as _ E])
  end.

Lemma in_flight_uop_ok p o ops : in_flight p (o :: ops) -> uop_ok o.
Proof.
  intros [Hp [|(new & pre & E & Hne & Hnew)]]; [done|].
  unfold pri_ok, level, CPUPRI_INVALID in *.
  update_cases; simpl; unfold level, CPUPRI_INVALID in *; lia.
Qed.

Lemma in_flight_tail p o ops :
  in_flight p (o :: ops) -> in_flight (match o with StorePri q => q | _ => p end) ops.
Proof.
  intros [Hp [|(new & pre & E & Hne & Hnew)]]; [done|].
  destruct o as [j|j|j|j|q].
  1-4: split; [done|]; right; eexists new, (pre ++ [_]);
    split; [by rewrite <- app_assoc|done].
  update_cases; (split; [done|by left]).
Qed.

Lemma in_flight_shown p o ops i c :
  in_flight p (o :: ops) -> level i ->
  shown (match o with StorePri q => q | _ => p end) ops i =
  bit_after o c i c (shown p (o :: ops) i).
Proof.
  intros [Hp [|(new & pre & E & Hne & Hnew)]] Hi; [done|].
  unfold pri_ok, level, CPUPRI_INVALID in *.
  update_cases; unfold shown; simpl; rewrite ?Z.eqb_refl, ?andb_true_r, ?orb_false_r; simpl;
    repeat (match goal with |- context [?x =? ?y] => destruct (Z.eqb_spec x y) end; simpl);
    unfold CPUPRI_INVALID in *; try done; exfalso; lia.
Qed.

Lemma tally_cons p o ops i :
  tally p (o :: ops) i =
  tally (match o with StorePri q => q | _ => p end) ops i - inc_of o i + dec_of o i.
Proof. unfold tally. destruct o; simpl; lia. Qed.

(** Starting an update changes neither contribution nor bit. *)
Lemma tally_start p new i :
  level i -> tally p (cpupri_set_ops p new) i = tally p [] i.
Proof.
  unfold level, tally, cpupri_set_ops, b2z. intros Hi.
  destruct (Z.eqb_spec new CPUPRI_INVALID), (Z.eqb_spec p CPUPRI_INVALID);
    simpl; unfold CPUPRI_INVALID, b2z in *; ztriv.
Qed.

Lemma shown_start p new i :
  level i -> new <> p -> shown p (cpupri_set_ops p new) i = shown p [] i.
Proof.
  unfold level, shown, cpupri_set_ops. intros Hi Hne.
  destruct (Z.eqb_spec new CPUPRI_INVALID), (Z.eqb_spec p CPUPRI_INVALID);
    simpl; unfold CPUPRI_INVALID in *; ztriv.
Qed.

(** A CPU counts at most once per level, and is counted and shown at its stored
    or at its target level. *)
Lemma tally_nonneg p ops i : in_flight p ops -> level i -> 0 <= tally p ops i.
Proof.
  intros [Hp [->|(new & pre & E & Hne & Hnew)]] Hi; unfold tally; simpl.
  { unfold b2z. ztriv. }
  update_cases; simpl; unfold b2z, CPUPRI_INVALID, level in *; ztriv.
Qed.

Lemma in_flight_visible p ops :
  in_flight p ops -> p <> CPUPRI_INVALID -> target p ops <> CPUPRI_INVALID ->
  exists i, (i = p \/ i = target p ops) /\ level i /\
    1 <= tally p ops i /\ shown p ops i = true.
Proof.
  intros [Hp Hf] H1 H2. destruct ops as [|o ops].
  { exists p. destruct Hp; [done|]. unfold tally, shown, b2z. simpl.
    rewrite Z.eqb_refl. simpl. split_and!; [by left|done|lia|done]. }
  destruct Hf as [|(new & pre & E & Hne & Hnew)]; [done|].
  destruct Hp as [|Hp]; [done|].
  destruct Hnew as [->|Hnew].
  { exfalso. update_cases; simpl in H2; congruence. }
  update_cases; unfold tally, shown, b2z; simpl in *.
  all: first
   [ exists new; split_and!; [by right|done| |]; ztriv; fail
   | exists p; split_and!; [by left|done| |]; ztriv ].
Qed.

(** ** The invariant of interleaved updates *)

Section Sys.

Context (nr possible : Z).
Hypothesis nr_pos : 0 <= nr.
Hypothesis possible_ok : mask_ok nr possible.

Definition cpupri_inv (cp : cpupri) (pend : Z -> list uop) : Prop :=
  shape nr cp /\
  (forall c, mask_test possible c = true -> in_flight (pr cp c) (pend c)) /\
  (forall c, mask_test possible c = false -> pend c = []) /\
  (forall i, level i ->
     vc cp i = zsum (fun c => tally (pr cp c) (pend c) i) (mask_bits nr possible)) /\
  (forall i c, level i -> 0 <= c ->
     mask_test (vm cp i) c = mask_test possible c && shown (pr cp c) (pend c) i).

(** Between updates: the counters count and the masks show the CPUs of a level. *)
Definition cpupri_wf (cp : cpupri) : Prop := cpupri_inv cp (fun _ => []).

Lemma possible_in c : mask_test possible c = true -> c ∈ mask_bits nr possible.
Proof.
  intros Hc. apply list_elem_of_In, mask_bits_spec. split; [by apply possible_ok|done].
Qed.

Lemma in_possible c : c ∈ mask_bits nr possible -> 0 <= c < nr /\ mask_test possible c = true.
Proof. intros Hc. by apply mask_bits_spec, list_elem_of_In. Qed.

Lemma convert_prio_ok prio p : convert_prio prio = Some p -> pri_ok p.
Proof.
  unfold convert_prio, pri_ok, level, CPUPRI_INVALID, CPUPRI_NORMAL, CPUPRI_HIGHER,
    CPUPRI_NR_PRIORITIES, MAX_RT_PRIO. intros H.
  repeat (case_match; zcase; simplify_eq; try lia).
Qed.

Lemma inv_start cp pend c old new :
  cpupri_inv cp pend -> mask_test possible c = true -> pend c = [] ->
  aref (cpu_to_pri cp) c = Some old -> pri_ok new -> new <> old ->
  cpupri_inv cp (upd_pending pend c (cpupri_set_ops old new)).
Proof.
  intros (Sh & Fl & Nf & Ct & Mk) Pc Pe Ho Hnew Hne.
  assert (Hpr : pr cp c = old) by (unfold pr; by rewrite Ho).
  pose proof (Fl c Pc) as [Hp _]. rewrite Hpr in Hp.
  unfold upd_pending. split_and!; [done|..].
  - intros c' Pc'. destruct (Z.eqb_spec c' c) as [->|]; [|by apply Fl].
    rewrite Hpr. split; [done|]. right. by exists new, [].
  - intros c' Pc'. destruct (Z.eqb_spec c' c) as [->|]; [congruence|by apply Nf].
  - intros i Hi. rewrite Ct by done. apply zsum_ext. intros c' _.
    destruct (Z.eqb_spec c' c) as [->|]; [|done]. by rewrite Hpr, Pe, tally_start.
  - intros i c' Hi Hc'. rewrite Mk by done.
    destruct (Z.eqb_spec c' c) as [->|]; [|done]. by rewrite Hpr, Pe, shown_start.
Qed.

Lemma inv_store cp pend c o ops :
  cpupri_inv cp pend -> pend c = o :: ops ->
  exists cp', apply_uop cp c o = Some cp' /\ cpupri_inv cp' (upd_pending pend c ops) /\
    0 <= c < nr /\
    (forall c', 0 <= c' -> pr cp' c' =
       if c' =? c then match o with StorePri q => q | _ => pr cp c end else pr cp c').
Proof.
  intros (Sh & Fl & Nf & Ct & Mk) Pe.
  assert (Pc : mask_test possible c = true).
  { destruct (mask_test possible c) eqn:E; [done|]. rewrite Nf in Pe; done. }
  pose proof (possible_ok c Pc). pose proof (Fl c Pc) as F. rewrite Pe in F.
  destruct (apply_uop_spec nr cp c o Sh) as (cp' & E & Sh' & Ct' & Mk' & Pr');
    [done|by eapply in_flight_uop_ok|].
  exists cp'. split; [done|].
  assert (Pr : forall c', 0 <= c' -> pr cp' c' =
    if c' =? c then match o with StorePri q => q | _ => pr cp c end else pr cp c').
  { intros c' Hc'. rewrite Pr' by done. destruct (Z.eqb_spec c' c) as [->|]; destruct o;
      simpl; rewrite ?Z.eqb_refl; try done. ztriv. }
  split; [|done]. unfold upd_pending. split_and!; [done|..].
  - intros c' Pc'. pose proof (possible_ok c' Pc'). rewrite Pr by lia.
    destruct (Z.eqb_spec c' c) as [->|]; [|by apply Fl]. by apply in_flight_tail.
  - intros c' Pc'. destruct (Z.eqb_spec c' c) as [->|]; [congruence|by apply Nf].
  - intros i Hi. rewrite Ct', Ct by done.
    rewrite (zsum_update (fun c => tally (pr cp c) (pend c) i)
               (fun c' => tally (pr cp' c') (if c' =? c then ops else pend c') i) _ c).
    + rewrite Pr, Z.eqb_refl, Pe, tally_cons by lia. lia.
    + apply mask_bits_NoDup.
    + by apply possible_in.
    + intros x [? _]%in_possible Hx. rewrite Pr by lia. by rewrite (proj2 (Z.eqb_neq _ _) Hx).
  - intros i c' Hi Hc'. rewrite Mk', Mk, Pr by done.
    destruct (Z.eqb_spec c' c) as [->|].
    + rewrite Pc, Pe. simpl. symmetry. by apply in_flight_shown.
    + destruct o; simpl; rewrite ?(proj2 (Z.eqb_neq c' c)) by done;
        by rewrite ?andb_false_r, ?andb_true_r.
Qed.

Lemma inv_ext cp pend pend' :
  (forall c, pend c = pend' c) -> cpupri_inv cp pend -> cpupri_inv cp pend'.
Proof.
  intros Ext (Sh & Fl & Nf & Ct & Mk). split_and!; [done|..].
  - intros c Pc. rewrite <- Ext. by apply Fl.
  - intros c Pc. rewrite <- Ext. by apply Nf.
  - intros i Hi. rewrite Ct by done. apply zsum_ext. intros c _. by rewrite Ext.
  - intros i c Hi Hc. rewrite Mk by done. by rewrite Ext.
Qed.

(** A whole update run without interference. *)
Lemma inv_run ops : forall cp pend c,
  cpupri_inv cp pend -> pend c = ops ->
  exists cp', run_uops cp c ops = Some cp' /\ cpupri_inv cp' (upd_pending pend c []) /\
    (forall c', 0 <= c' -> pr cp' c' = if c' =? c then target (pr cp c) ops else pr cp c').
Proof.
  induction ops as [|o ops IH]; intros cp pend c I Pe; simpl.
  - exists cp. split_and!; [done| |].
    + apply (inv_ext cp pend); [|done]. intros c'. unfold upd_pending.
      destruct (Z.eqb_spec c' c) as [->|]; done.
    + intros c' _. destruct (Z.eqb_spec c' c) as [->|]; done.
  - destruct (inv_store cp pend c o ops I Pe) as (cp1 & -> & I1 & Pc & P1). simpl.
    destruct (IH cp1 (upd_pending pend c ops) c I1) as (cp2 & -> & I2 & P2).
    { unfold upd_pending. by rewrite Z.eqb_refl. }
    exists cp2. split_and!; [done| |].
    + eapply inv_ext, I2. intros c'. unfold upd_pending. by destruct (c' =? c).
    + intros c' Hc'. rewrite P2, !P1, Z.eqb_refl by lia.
      destruct (c' =? c); by destruct o.
Qed.

(** *** Initial state and reachable states *)

Lemma fresh_vec i :
  level i -> aref (pri_to_cpu (cpupri_fresh nr possible)) i = Some (mk_vec 0 0).
Proof. apply aref_replicate. Qed.

Lemma fresh_pr c :
  mask_test possible c = true -> pr (cpupri_fresh nr possible) c = CPUPRI_INVALID.
Proof.
  intros Pc. pose proof (possible_ok c Pc). unfold pr. cbn [cpu_to_pri cpupri_fresh].
  rewrite aref_imap, aref_replicate by done. simpl. by rewrite Z2Nat.id, Pc by lia.
Qed.

Lemma fresh_wf : cpupri_wf (cpupri_fresh nr possible).
Proof.
  split; [split|split_and!].
  - cbn [pri_to_cpu cpupri_fresh]. by rewrite length_replicate.
  - cbn [cpu_to_pri cpupri_fresh]. rewrite length_imap, length_replicate. lia.
  - intros c Pc. rewrite fresh_pr by done. split; by left.
  - done.
  - intros i Hi. unfold vc. rewrite fresh_vec by done. simpl. symmetry.
    rewrite (zsum_ext _ (fun _ => 0)); [by induction (mask_bits nr possible)|].
    intros c [_ Pc]%in_possible. rewrite fresh_pr by done. unfold tally, b2z, level in *.
    simpl. unfold CPUPRI_INVALID. ztriv.
  - intros i c Hi Hc. unfold vm. rewrite fresh_vec by done. simpl.
    rewrite mask_test_0. destruct (mask_test possible c) eqn:Pc; [|done].
    rewrite fresh_pr by done. unfold shown, level in *. simpl. unfold CPUPRI_INVALID. ztriv.
Qed.

Lemma reachable_inv s :
  sys_reachable nr possible s -> cpupri_inv (sys_cp s) (pending s).
Proof.
  induction 1 as [cp [= <-]|s s' _ IH St]; [apply fresh_wf|].
  destruct St as [s c newpri old new Pc Pe Ho Cv Hne|s c o ops cp' Pe E]; simpl.
  - apply inv_start; try done. by eapply convert_prio_ok.
  - destruct (inv_store _ _ _ _ _ IH Pe) as (cp1 & E1 & I1 & _). congruence.
Qed.

(** ** The search *)

Context (active : Z).

(** A CPU the task may be sent to. *)
Definition candidate (cpus_mask c : Z) : bool :=
  mask_test possible c && mask_test cpus_mask c && mask_test active c.

Lemma wf_mask cp i c :
  cpupri_wf cp -> level i -> mask_test (vm cp i) c = mask_test possible c && (pr cp c =? i).
Proof.
  intros (_ & _ & _ & _ & Mk) Hi. destruct (Z.lt_ge_cases c 0).
  - by rewrite !mask_test_neg.
  - by rewrite Mk.
Qed.

Lemma wf_count_0 cp i c :
  cpupri_wf cp -> level i -> vc cp i = 0 -> mask_test possible c = true -> pr cp c <> i.
Proof.
  intros (_ & Fl & _ & Ct & _) Hi H0 Pc E. rewrite Ct in H0 by done.
  assert (tally (pr cp c) [] i <= 0).
  { rewrite <- H0. apply (zsum_ge (fun c => tally (pr cp c) [] i)); [|by apply possible_in].
    intros x [_ Px]%in_possible. apply tally_nonneg; [by apply Fl|done]. }
  unfold tally, b2z in *. simpl in *. rewrite E, Z.eqb_refl in *. lia.
Qed.

Lemma cpupri_find_level cp cm l0 i :
  cpupri_wf cp -> level i ->
  exists b m, __cpupri_find active cp cm (Some l0) i = Some (b, Some m) /\
    (b = true -> mask_empty m = false /\
                 forall c, mask_test m c = candidate cm c && (pr cp c =? i)) /\
    (b = false -> forall c, candidate cm c && (pr cp c =? i) = false).
Proof.
  intros Wf Hi. pose proof Wf as ([S1 _] & _). unfold __cpupri_find.
  destruct (aref_lt (pri_to_cpu cp) i) as [v Hv]; [unfold level in Hi; lia|].
  rewrite Hv. simpl.
  assert (Hc : count v = vc cp i) by (unfold vc; by rewrite Hv).
  assert (Hm : mask v = vm cp i) by (unfold vm; by rewrite Hv). rewrite Hc, Hm.
  assert (M : forall c, mask_test (mask_and (mask_and cm (vm cp i)) active) c =
                        candidate cm c && (pr cp c =? i)).
  { intros c. rewrite !mask_test_and, wf_mask by done. unfold candidate.
    destruct (mask_test possible c), (mask_test cm c), (mask_test active c), (pr cp c =? i);
      done. }
  assert (No : forall m, mask_empty m = true ->
    (forall c, mask_test m c = false -> candidate cm c && (pr cp c =? i) = false) ->
    forall c, candidate cm c && (pr cp c =? i) = false).
  { intros m Em Hmc c. apply Hmc. by apply mask_empty_spec. }
  destruct (Z.eqb_spec (vc cp i) 0) as [H0|H0].
  { exists false, l0. split_and!; try done. intros _ c. unfold candidate.
    destruct (mask_test possible c) eqn:Pc; [|done].
    rewrite (proj2 (Z.eqb_neq _ _) (wf_count_0 cp i c Wf Hi H0 Pc)). apply andb_false_r. }
  destruct (mask_empty (mask_and cm (vm cp i))) eqn:E1.
  { exists false, l0. split_and!; try done. intros _. apply (No _ E1). intros c Hc'.
    rewrite <- M, mask_test_and, Hc'. done. }
  destruct (mask_empty (mask_and (mask_and cm (vm cp i)) active)) eqn:E2.
  - eexists false, _. split_and!; try done. intros _. apply (No _ E2). intros c Hc'.
    by rewrite <- M.
  - eexists true, _. by split_and!.
Qed.

Lemma drop_unfit_spec f cpus m c :
  mask_test (drop_unfit f cpus m) c =
  mask_test m c && negb (bool_decide (c ∈ cpus) && negb (f c)).
Proof.
  revert m. induction cpus as [|x cpus IH]; intros m; cbn [drop_unfit].
  { rewrite bool_decide_eq_false_2 by apply not_elem_of_nil. by rewrite andb_true_r. }
  rewrite IH. destruct (decide (c = x)) as [->|Hne].
  - rewrite (bool_decide_eq_true_2 (x ∈ x :: cpus)) by left.
    destruct (f x) eqn:Ef; simpl; [by rewrite !andb_false_r|].
    rewrite mask_test_clear, Z.eqb_refl. simpl. by rewrite !andb_false_r.
  - assert (E : bool_decide (c ∈ x :: cpus) = bool_decide (c ∈ cpus)).
    { apply bool_decide_ext. set_solver. }
    rewrite E. destruct (f x); simpl; [done|].
    by rewrite mask_test_clear, (proj2 (Z.eqb_neq _ _) Hne), andb_true_r.
Qed.

Definition fit (fitness_fn : option (Z -> bool)) (c : Z) : bool :=
  match fitness_fn with Some f => f c | None => true end.

(** The outcome of visiting the levels [idxs] in turn: the first level with a
    candidate that fits answers with exactly those candidates. *)
Definition search_result (cp : cpupri) (cm : Z) (fn : option (Z -> bool)) (idxs : list Z)
    (r : option (bool * option Z)) : Prop :=
  exists b m, r = Some (b, Some m) /\
    (b = true -> exists pre i post, idxs = pre ++ i :: post /\ mask_empty m = false /\
       (forall c, mask_test m c = candidate cm c && fit fn c && (pr cp c =? i)) /\
       (forall c, candidate cm c && fit fn c = true -> pr cp c ∉ pre)) /\
    (b = false -> forall c, candidate cm c && fit fn c = true -> pr cp c ∉ idxs).

Lemma search_result_skip cp cm fn i idxs r :
  (forall c, candidate cm c && fit fn c = true -> pr cp c <> i) ->
  search_result cp cm fn idxs r -> search_result cp cm fn (i :: idxs) r.
Proof.
  intros Hno (b & m & E & H1 & H2). exists b, m. split_and!; [done| |].
  - intros Hb. destruct (H1 Hb) as (pre & j & post & -> & Hm & Mb & Np).
    exists (i :: pre), j, post. split_and!; try done. intros c Hc.
    specialize (Hno c Hc). specialize (Np c Hc). set_solver.
  - intros Hb c Hc. specialize (Hno c Hc). specialize (H2 Hb c Hc). set_solver.
Qed.

Lemma search_result_hit cp cm fn i idxs m :
  mask_empty m = false ->
  (forall c, mask_test m c = candidate cm c && fit fn c && (pr cp c =? i)) ->
  search_result cp cm fn (i :: idxs) (Some (true, Some m)).
Proof.
  intros Em Hm. exists true, m. split_and!; try done. intros _.
  exists [], i, idxs. split_and!; try done. intros c _. apply not_elem_of_nil.
Qed.

Lemma find_loop_spec cp cm fn idxs : forall l0,
  cpupri_wf cp -> Forall level idxs ->
  search_result cp cm fn idxs (find_loop nr active cp cm fn idxs (Some l0)).
Proof.
  induction idxs as [|i idxs IH]; intros l0 Wf Hl; cbn [find_loop].
  { exists false, l0. split_and!; try done. intros _ c _. apply not_elem_of_nil. }
  apply Forall_cons in Hl as [Hi Hl].
  destruct (cpupri_find_level cp cm l0 i Wf Hi) as (b & m & -> & Hb & Hnb). simpl.
  destruct b; simpl.
  - destruct (Hb eq_refl) as [Em Mb].
    destruct fn as [f|];
      [|apply search_result_hit; [done|]; intros c; by rewrite Mb, andb_true_r].
    assert (Md : forall c, mask_test (drop_unfit f (mask_bits nr m) m) c =
                           candidate cm c && f c && (pr cp c =? i)).
    { intros c. rewrite drop_unfit_spec. destruct (mask_test m c) eqn:Et; simpl.
      - rewrite Mb in Et. rewrite bool_decide_eq_true_2.
        + apply andb_prop in Et as [-> ->]. by destruct (f c).
        + apply list_elem_of_In, mask_bits_spec. rewrite Mb, Et. split; [|done].
          apply possible_ok. unfold candidate in Et.
          by repeat (apply andb_prop in Et as [Et _]).
      - rewrite Mb in Et. destruct (candidate cm c), (pr cp c =? i), (f c); done. }
    destruct (mask_empty (drop_unfit f (mask_bits nr m) m)) eqn:Ed;
      [|by apply search_result_hit].
    apply search_result_skip; [|by apply IH]. intros c Hc E. specialize (Md c).
    simpl in Hc. rewrite (mask_empty_spec _ Ed), Hc, E, Z.eqb_refl in Md. done.
  - apply search_result_skip; [|by apply IH]. intros c Hc E. specialize (Hnb eq_refl c).
    apply andb_prop in Hc as [Hc _]. by rewrite Hc, E, Z.eqb_refl in Hnb.
Qed.

End Sys.

(** The search over the levels below [tp], in terms of priorities. *)
Lemma search_range possible active cp cm fn tp r :
  search_result possible active cp cm fn (seqZ 0 tp) r ->
  exists b m, r = Some (b, Some m) /\
    (b = true -> mask_empty m = false /\ exists i, 0 <= i < tp /\
       (forall c, mask_test m c =
                  candidate possible active cm c && fit fn c && (pr cp c =? i)) /\
       (forall c, candidate possible active cm c = true -> fit fn c = true ->
                  ~ 0 <= pr cp c < i)) /\
    (b = false -> forall c, candidate possible active cm c = true -> fit fn c = true ->
                  ~ 0 <= pr cp c < tp).
Proof.
  intros (b & m & -> & Hit & Miss). exists b, m. split_and!; [done| |].
  - intros Hb. destruct (Hit Hb) as (pre & i & post & E & Em & Mb & Low).
    apply seqZ_split in E as [Hi Hpre]. split; [done|]. exists i. split_and!; [lia..|done|].
    intros c Hc Hf Hr. eapply (Low c); [by rewrite Hc, Hf|]. by apply Hpre.
  - intros Hb c Hc Hf Hr. eapply (Miss Hb c); [by rewrite Hc, Hf|]. apply elem_of_seqZ. lia.
Qed.

(** ** Properties *)

(** The counters count and the masks show exactly the possible CPUs of a level. *)
Definition levels_exact (nr possible : Z) (cp : cpupri) : Prop :=
  forall i, level i ->
    vc cp i = zsum (fun c => b2z (pr cp c =? i)) (mask_bits nr possible) /\
    forall c, mask_test (vm cp i) c = mask_test possible c && (pr cp c =? i).

Lemma wf_levels_exact nr possible cp :
  cpupri_wf nr possible cp -> levels_exact nr possible cp.
Proof.
  intros Wf i Hi. split; [|intros c; by eapply wf_mask].
  destruct Wf as (_ & _ & _ & Ct & _). rewrite Ct by done. apply zsum_ext.
  intros c _. unfold tally. simpl. lia.
Qed.

Lemma cpupri_set_spec nr possible cp c newpri p :
  0 <= nr -> mask_ok nr possible -> cpupri_wf nr possible cp ->
  mask_test possible c = true -> convert_prio newpri = Some p ->
  exists cp', cpupri_set cp c newpri = Some cp' /\ cpupri_wf nr possible cp' /\
    levels_exact nr possible cp' /\
    forall c', 0 <= c' -> pr cp' c' = if c' =? c then p else pr cp c'.
Proof.
  intros Hn Hp Wf Pc Cv. pose proof Wf as ([_ S2] & Fl & _). pose proof (Hp c Pc).
  unfold cpupri_set. destruct (aref_lt (cpu_to_pri cp) c) as [old Ho]; [lia|].
  assert (Hpr : pr cp c = old) by (unfold pr; by rewrite Ho).
  pose proof (convert_prio_ok _ _ Cv) as Hok. rewrite Ho, Cv. simpl.
  destruct (Z.leb_spec CPUPRI_NR_PRIORITIES p) as [Hbad|_].
  { unfold pri_ok, level, CPUPRI_INVALID, CPUPRI_NR_PRIORITIES, MAX_RT_PRIO in *. lia. }
  destruct (Z.eqb_spec p old) as [->|Hne].
  { exists cp. split_and!; try done; [by apply wf_levels_exact|].
    intros c' _. destruct (Z.eqb_spec c' c) as [->|]; done. }
  pose proof (inv_start nr possible cp _ c old p Wf Pc eq_refl Ho Hok Hne) as I.
  destruct (inv_run nr possible Hp (cpupri_set_ops old p) _ _ c I) as (cp' & -> & I' & P').
  { unfold upd_pending. by rewrite Z.eqb_refl. }
  assert (Wf' : cpupri_wf nr possible cp').
  { eapply inv_ext, I'. intros c'. unfold upd_pending. by destruct (c' =? c). }
  exists cp'. split_and!; try done; [by apply wf_levels_exact|].
  intros c' Hc'. rewrite P' by done. destruct (c' =? c); [|done].
  unfold cpupri_set_ops. by destruct (p =? CPUPRI_INVALID), (old =? CPUPRI_INVALID).
Qed.

(** from a state between updates, [cpupri_set] of a possible CPU with a
    priority that [convert_prio] knows runs without a fault, changes the priority
    of that CPU only, and leaves every level's counter equal to the number of CPUs
    at that level and its mask equal to the set of them. *)
Theorem cpupri_set_exact nr possible cp c newpri p :
  0 <= nr -> mask_ok nr possible -> cpupri_wf nr possible cp ->
  mask_test possible c = true -> convert_prio newpri = Some p ->
  exists cp', cpupri_set cp c newpri = Some cp' /\ cpupri_wf nr possible cp' /\
    levels_exact nr possible cp' /\
    forall c', 0 <= c' -> pr cp' c' = if c' =? c then p else pr cp c'.
Proof. apply cpupri_set_spec. Qed.

Lemma cpupri_set_exact_witness :
  exists cp', cpupri_set (cpupri_fresh 4 15) 2 40 = Some cp' /\ pr cp' 2 = 59.
Proof.
  destruct (cpupri_set_exact 4 15 (cpupri_fresh 4 15) 2 40 59) as (cp' & E & _ & _ & P).
  - lia.
  - apply mask_ok_lt; lia.
  - apply fresh_wf; [lia|apply mask_ok_lt; lia].
  - reflexivity.
  - reflexivity.
  - exists cp'. split; [done|]. by rewrite P.
Defined.

(** C24: when updates of different CPUs interleave store by store, then in every
    reachable state every pending store can be executed, and each possible CPU
    whose stored and target priorities are both levels is counted and visible at
    one of these two levels, so a concurrent search never misses it. *)
Theorem cpupri_update_never_hides nr possible s c :
  0 <= nr -> mask_ok nr possible -> sys_reachable nr possible s ->
  mask_test possible c = true ->
  (forall o ops, pending s c = o :: ops -> is_Some (apply_uop (sys_cp s) c o)) /\
  let old := pr (sys_cp s) c in
  let new := target old (pending s c) in
  (old <> CPUPRI_INVALID -> new <> CPUPRI_INVALID ->
   exists i, (i = old \/ i = new) /\ 0 < vc (sys_cp s) i /\
             mask_test (vm (sys_cp s) i) c = true).
Proof.
  intros Hn Hp R Pc. pose proof (reachable_inv nr possible Hn Hp s R) as I. split.
  - intros o ops Pe. destruct (inv_store nr possible Hp _ _ c o ops I Pe) as (? & -> & _).
    by eexists.
  - intros old new Ho Hw. pose proof I as (_ & Fl & _ & Ct & Mk). pose proof (Hp c Pc).
    destruct (in_flight_visible _ _ (Fl c Pc) Ho Hw) as (i & Hi & Li & T & Sh).
    exists i. split_and!; [done| |].
    + rewrite Ct by done. apply Z.lt_le_trans with (tally (pr (sys_cp s) c) (pending s c) i);
        [lia|].
      apply (zsum_ge (fun c => tally (pr (sys_cp s) c) (pending s c) i));
        [|by apply possible_in].
      intros x [_ Px]%in_possible. apply tally_nonneg; [by apply Fl|done].
    + rewrite Mk by (done || lia). by rewrite Pc, Sh.
Qed.

Lemma reachable_run nr possible c ops1 : forall s ops2 cp',
  sys_reachable nr possible s -> pending s c = ops1 ++ ops2 ->
  run_uops (sys_cp s) c ops1 = Some cp' ->
  exists s', sys_reachable nr possible s' /\ sys_cp s' = cp' /\ pending s' c = ops2.
Proof.
  induction ops1 as [|o ops1 IH]; simpl; intros s ops2 cp' R Pe E.
  { injection E as <-. by exists s. }
  destruct (apply_uop (sys_cp s) c o) as [cp1|] eqn:E1; [|done]. simpl in E.
  eapply (IH (mk_sys cp1 (upd_pending (pending s) c (ops1 ++ ops2)))); [|simpl|done].
  - eapply sys_next; [done|]. by eapply sys_store.
  - unfold upd_pending. by rewrite Z.eqb_refl.
Qed.

(** CPU 1 moves from level 59 to level 69; after two of its five stores it is
    visible at both levels, after four of them at the new one only. *)
Lemma cpupri_update_never_hides_witness :
  exists s, sys_reachable 4 15 s /\ pending s 1 = [StorePri 69] /\
    exists i, (i = 59 \/ i = 69) /\ 0 < vc (sys_cp s) i /\
              mask_test (vm (sys_cp s) i) 1 = true.
Proof.
  set (s0 := mk_sys (cpupri_fresh 4 15) (fun _ => [])).
  assert (R0 : sys_reachable 4 15 s0) by (by apply sys_init).
  assert (R1 : sys_reachable 4 15 (mk_sys (sys_cp s0)
                 (upd_pending (pending s0) 1 (cpupri_set_ops (-1) 59)))).
  { eapply sys_next; [exact R0|]. by apply (sys_start _ s0 1 40). }
  destruct (reachable_run 4 15 1 (cpupri_set_ops (-1) 59) _ [] _ R1 eq_refl eq_refl)
    as (s1 & R1' & E1 & P1).
  assert (R2 : sys_reachable 4 15 (mk_sys (sys_cp s1)
                 (upd_pending (pending s1) 1 (cpupri_set_ops 59 69)))).
  { eapply sys_next; [exact R1'|]. apply (sys_start _ s1 1 30); try done.
    by rewrite E1. }
  destruct (run_uops (sys_cp s1) 1 (take 4 (cpupri_set_ops 59 69))) as [cp|] eqn:E2;
    [|rewrite E1 in E2; discriminate].
  destruct (reachable_run 4 15 1 (take 4 (cpupri_set_ops 59 69)) _ [StorePri 69] cp R2
              eq_refl E2) as (s2 & R2' & E2' & P2).
  exists s2. split; [done|]. split; [done|].
  destruct (cpupri_update_never_hides 4 15 s2 1) as [_ V].
  - lia.
  - apply mask_ok_lt; lia.
  - exact R2'.
  - reflexivity.
  - assert (Pr : pr (sys_cp s2) 1 = 59).
    { rewrite E2'. rewrite E1 in E2. vm_compute in E2. injection E2 as <-. reflexivity. }
    rewrite P2, Pr in V. apply V; done.
Defined.

Lemma cpupri_find_fitness_spec nr possible active cp prio task_pri cm l0 fn :
  0 <= nr -> mask_ok nr possible -> cpupri_wf nr possible cp ->
  convert_prio prio = Some task_pri ->
  let cand := candidate possible active cm in
  exists found m, 
    cpupri_find_fitness nr active cp prio cm (Some l0) fn = Some (found, Some m) /\
    (found = true <-> exists c, cand c = true /\ 0 <= pr cp c < task_pri) /\
    (found = true -> mask_empty m = false /\
      exists i ok, 0 <= i < task_pri /\
        (forall c, mask_test m c = cand c && ok c && (pr cp c =? i)) /\
        (forall c, cand c = true -> ok c = true -> ~ 0 <= pr cp c < i) /\
        (ok = fit fn \/
         ok = (fun _ => true) /\
         forall c, cand c = true -> fit fn c = true -> ~ 0 <= pr cp c < task_pri)).
Proof.
  intros Hn Hp Wf Cv cand. unfold cpupri_find_fitness, cpupri_find. rewrite Cv. simpl.
  pose proof (convert_prio_ok _ _ Cv) as Hok.
  assert (Lv : Forall level (seqZ 0 task_pri)).
  { apply Forall_forall. intros i Hi%elem_of_seqZ. 
    unfold pri_ok, level, CPUPRI_INVALID in *. lia. }
  assert (Ex : forall ok m i, mask_empty m = false ->
    (forall c, mask_test m c = cand c && ok c && (pr cp c =? i)) ->
    exists c, cand c = true /\ pr cp c = i).
  { intros ok m i Em Hm. destruct (mask_nonempty m Em) as [c Hc]. rewrite Hm in Hc.
    zcase. eauto. }
  pose proof (search_range possible active cp cm fn task_pri _
    (find_loop_spec nr possible Hn Hp active cp cm fn _ l0 Wf Lv)) as (b & m & -> & Hit & Miss).
  destruct b; simpl.
  - destruct (Hit eq_refl) as (Em & i & Hi & Mb & Low). exists true, m. split_and!; try done.
    + split; [|done]. intros _. destruct (Ex _ _ _ Em Mb) as (c & ? & <-). eauto.
    + intros _. split; [done|]. exists i, (fit fn). split_and!; try done; [lia..|by left].
  - specialize (Miss eq_refl). destruct fn as [f|]; cycle 1.
    { exists false, m. split_and!; try done. split; [done|]. intros (c & Hc & Hr).
      by destruct (Miss c Hc eq_refl). }
    pose proof (search_range possible active cp cm None task_pri _
      (find_loop_spec nr possible Hn Hp active cp cm None _ m Wf Lv))
      as (b' & m' & -> & Hit' & Miss').
    exists b', m'. split; [done|]. destruct b'.
    + destruct (Hit' eq_refl) as (Em & i & Hi & Mb & Low). split.
      * split; [|done]. intros _. destruct (Ex _ _ _ Em Mb) as (c & ? & <-). eauto.
      * intros _. split; [done|]. exists i, (fun _ => true). split_and!; try done; [lia..|].
        by right.
    + split; [|done]. split; [done|]. intros (c & Hc & Hr). by destruct (Miss' eq_refl c Hc).
Qed.

(** Without a fitness function the two searches are the same. *)
Lemma cpupri_find_no_fitness nr active cp prio cm l0 :
  cpupri_find nr active cp prio cm l0 = cpupri_find_fitness nr active cp prio cm l0 None.
Proof.
  unfold cpupri_find, cpupri_find_fitness. destruct (convert_prio prio) as [tp|]; [|done]. simpl.
  destruct (find_loop _ _ _ _ _ _ _) as [[[] l]|]; done.
Qed.

(** With a null mask the search only answers whether there is such a CPU. *)
Lemma cpupri_find_null nr possible active cp prio task_pri cm :
  cpupri_wf nr possible cp -> convert_prio prio = Some task_pri ->
  exists found, cpupri_find nr active cp prio cm None = Some (found, None).
Proof.
  intros ([S1 _] & _) Cv. unfold cpupri_find. rewrite Cv. simpl. pose proof (convert_prio_ok _ _ Cv) as Hok.
  assert (Lv : Forall level (seqZ 0 task_pri)).
  { apply Forall_forall. intros i Hi%elem_of_seqZ. unfold pri_ok, level, CPUPRI_INVALID in *. lia. }
  revert Lv. generalize (seqZ 0 task_pri). induction l as [|i l IH]; intros Lv; cbn [find_loop]; [by exists false|].
  apply Forall_cons in Lv as [Hi Lv]. unfold __cpupri_find.
  destruct (aref_lt (pri_to_cpu cp) i) as [v ->]; [unfold level in Hi; lia|]. simpl.
  destruct (count v =? 0); [by apply IH|]. destruct (mask_empty _); [by apply IH|]. simpl. by exists true.
Qed.

(** on a state between updates, [cpupri_find_fitness] with a mask runs without
    a fault.  It answers true exactly when some allowed, active CPU has a lower
    priority level than the task; the mask then holds exactly the fitting
    candidates of the lowest level that has any, or, when no candidate below the
    task's level fits, all candidates of the lowest level that has a candidate. *)
Theorem cpupri_find_fitness_lowest nr possible active cp prio task_pri cm l0 fn :
  0 <= nr -> mask_ok nr possible -> cpupri_wf nr possible cp ->
  convert_prio prio = Some task_pri ->
  let cand := candidate possible active cm in
  exists found m, 
    cpupri_find_fitness nr active cp prio cm (Some l0) fn = Some (found, Some m) /\
    (found = true <-> exists c, cand c = true /\ 0 <= pr cp c < task_pri) /\
    (found = true -> mask_empty m = false /\
      exists i ok, 0 <= i < task_pri /\
        (forall c, mask_test m c = cand c && ok c && (pr cp c =? i)) /\
        (forall c, cand c = true -> ok c = true -> ~ 0 <= pr cp c < i) /\
        (ok = fit fn \/
         ok = (fun _ => true) /\
         forall c, cand c = true -> fit fn c = true -> ~ 0 <= pr cp c < task_pri)).
Proof. apply cpupri_find_fitness_spec. Qed.

(** CPUs 1 and 2 at level 59, CPU 3 at the normal level: a task of level 79 that
    fits only CPU 2 is sent there although CPU 3 is at a lower level. *)
Lemma cpupri_find_fitness_lowest_witness :
  exists cp found m,
    cpupri_find_fitness 4 15 cp 20 15 (Some 0) (Some (fun c => c =? 2))
      = Some (found, Some m) /\ found = true /\ m = 4.
Proof.
  assert (Hp : mask_ok 4 15) by (apply mask_ok_lt; lia).
  assert (Wf0 : cpupri_wf 4 15 (cpupri_fresh 4 15)) by (apply fresh_wf; [lia|done]).
  destruct (cpupri_set_spec 4 15 _ 1 40 59 ltac:(lia) Hp Wf0 eq_refl eq_refl)
    as (cp1 & E1 & Wf1 & _).
  destruct (cpupri_set_spec 4 15 _ 2 40 59 ltac:(lia) Hp Wf1 eq_refl eq_refl)
    as (cp2 & E2 & Wf2 & _).
  destruct (cpupri_set_spec 4 15 _ 3 99 0 ltac:(lia) Hp Wf2 eq_refl eq_refl)
    as (cp3 & E3 & Wf3 & _).
  destruct (cpupri_find_fitness_lowest 4 15 15 cp3 20 79 15 0 (Some (fun c => c =? 2)))
    as (found & m & E & _).
  - lia.
  - exact Hp.
  - exact Wf3.
  - reflexivity.
  - exists cp3, found, m. split; [done|].
    vm_compute in E1. injection E1 as <-. vm_compute in E2. injection E2 as <-.
    vm_compute in E3. injection E3 as <-. vm_compute in E. by injection E as <- <-.
Defined.

End Cpupri.
