(* ===== verification/Deadline.v ===== *)
(** The deadline scheduling class: [kernel/sched/deadline.c] and its callers in
    [kernel/sched/core.c].

    A world is all tasks, run queues and root domains.  The file models the
    earliest-deadline-first queues of the class, its admission control and GRUB
    bandwidth accounting, the throttling and the two timers of a task, on top of
    the server rules of the Cbs file, the red-black trees of RbTree and the CPU
    heaps of Cpudl and Cpupri, and the paths of the core scheduler that drive it:
    wake-up, blocking, migration, [__sched_setscheduler], the tick.

    High-resolution timers, the capacities of the CPUs and [ktime_us_delta] are
    not part of the sources and are the parameters of [Platform]; clock readings
    and the CPU a search for a target returns are arguments.  PELT signals,
    cpufreq notifications, statistics and locks do not touch this state. *)

From Stdlib Require Import ZArith Lia List.
From stdpp Require Import base list numbers option.
From S2P Require Import Prelude RbTree Cpudl Cpupri Cbs.

Module Deadline.
Import Cpudl(dl_time_before, BW_SHIFT, SCHED_CAPACITY_SHIFT).
Import RbTree(rb_root_cached, Augment, mk_augment, rb_root, rb_leftmost, rb_add_augmented_cached,
  rb_erase_augmented_cached, Leaf, mk_root, inorder).
Export Cbs.

(** [hrtimer_start], [hrtimer_try_to_cancel] (1: dequeued, 0: was not active, -1:
    its callback is running), [hrtimer_active] (queued or running),
    [hrtimer_is_queued], the capacities, the scheduling domains of a CPU from the
    innermost outwards (SD_WAKE_AFFINE and span), and the rotating choices of a CPU
    of a mask. *)
Class Platform := mk_platform {
  timer : Type;
  hrtimer_start : timer -> Z -> timer;
  hrtimer_try_to_cancel : timer -> timer * Z;
  hrtimer_active : timer -> bool;
  hrtimer_is_queued : timer -> bool;
  ktime_us_delta : Z -> Z -> Z;
  capacity_orig_of : Z -> Z;
  arch_scale_freq_capacity : Z -> Z;
  arch_scale_cpu_capacity : Z -> Z;
  sched_asym_cpucap_active : bool;
  sched_domains : Z -> list (bool * Z);
  cpumask_any_and_distribute : Z -> Z -> Z;
  cpumask_any_distribute : Z -> Z
}.

Section Class.
Context {pf : Platform}.

Definition RATIO_SHIFT : Z := 8.
Definition MAX_DL_PRIO : Z := 0.
Definition SCHED_NORMAL : Z := 0.
Definition SCHED_FIFO : Z := 1.
Definition SCHED_RR : Z := 2.
Definition SCHED_BATCH : Z := 3.
Definition SCHED_IDLE : Z := 5.
Definition SCHED_DEADLINE : Z := 6.
Definition SETPARAM_POLICY : Z := -1.
Definition SCHED_FLAG_KEEP_PARAMS : Z := 0x10.
Definition SCHED_FLAG_UTIL_CLAMP : Z := 0x60.
Definition SCHED_FLAG_ALL : Z := 0x7f.
Definition MAX_RT_PRIO : Z := 100.
Definition NICE_TO_PRIO (nice : Z) : Z := nice + 120.
Definition PRIO_TO_NICE (prio : Z) : Z := prio - 120.
Definition TASK_RUNNING : Z := 0x00.
Definition TASK_DEAD : Z := 0x80.
Definition TASK_WAKING : Z := 0x200.
Definition TASK_ON_RQ_QUEUED : Z := 1.
Definition TASK_ON_RQ_MIGRATING : Z := 2.
Definition DEQUEUE_SLEEP : Z := 0x01.
Definition DEQUEUE_SAVE : Z := 0x02.
Definition DEQUEUE_MOVE : Z := 0x04.
Definition DEQUEUE_NOCLOCK : Z := 0x08.
Definition ENQUEUE_WAKEUP : Z := 0x01.
Definition ENQUEUE_RESTORE : Z := 0x02.
Definition ENQUEUE_NOCLOCK : Z := 0x08.
Definition ENQUEUE_HEAD : Z := 0x10.
Definition ENQUEUE_REPLENISH : Z := 0x20.
Definition ENQUEUE_MIGRATED : Z := 0x40.
Definition EBUSY : Z := 16.
Definition EINVAL : Z := 22.
Definition EPERM : Z := 1.

(** *** State *)

(** The fields of [struct task_struct] the deadline class uses; the timers of the
    entity are here. *)
Record task := mk_task {
  dl : sched_dl_entity;
  policy : Z;
  prio : Z;
  normal_prio : Z;
  rt_priority : Z;
  static_prio : Z;
  on_rq : Z;
  state : Z;
  cpu : Z;
  cpus_mask : Z;
  nr_cpus_allowed : Z;
  exec_start : Z;
  sum_exec_runtime : Z;
  need_resched : bool;
  on_cpu : bool;
  migration_disabled : bool;
  pushable : bool;
  usage : Z;
  dl_timer : timer;
  inactive_timer : timer
}.

Inductive callback := PushDl | PullDl | OtherCallback (n : Z).

#[export] Instance callback_eq_dec : EqDecision callback.
Proof. solve_decision. Defined.

(** [struct dl_rq]; the trees hold task numbers. *)
Record dl_rq := mk_dl_rq {
  root : rb_root_cached Z unit;
  dl_nr_running : Z;
  earliest_curr : Z;
  earliest_next : Z;
  dl_nr_migratory : Z;
  overloaded : bool;
  pushable_dl_tasks_root : rb_root_cached Z unit;
  running_bw : Z;
  this_bw : Z;
  extra_bw : Z;
  max_bw : Z;
  bw_ratio : Z
}.

(** The fields of [struct rq] the deadline class uses, its real-time part included. *)
Record rq := mk_rq {
  dlq : dl_rq;
  rd : Z;
  clock : Z;
  clock_task : Z;
  curr : Z;
  stop : Z;
  online : bool;
  nr_running : Z;
  balance_callback : list callback;
  balance_push : bool;
  rt_highest_prio : Z;
  rt_time : Z;
  rt_runtime : Z;
  rt_period_timer : timer
}.

(** [struct root_domain] with its [struct dl_bw]. *)
Record root_domain := mk_rd {
  dl_b_bw : Z;
  total_bw : Z;
  span : Z;
  rd_cpudl : Cpudl.cpudl;
  rd_cpupri : Cpupri.cpupri;
  dlo_mask : Z;
  dlo_count : Z;
  overload : bool
}.

(** All tasks, run queues and root domains, the system-wide limits and the reading
    of the timers' clock. *)
Record world := mk_world {
  tasks : list task;
  rqs : list rq;
  rds : list root_domain;
  cpu_active_mask : Z;
  sysctl_sched_rt_runtime : Z;
  sysctl_sched_rt_period : Z;
  sysctl_sched_dl_period_max : Z;
  sysctl_sched_dl_period_min : Z;
  ktime : Z
}.

(** Stores to the members. *)
Definition t_dl (v : sched_dl_entity) (r : task) : task :=
  mk_task v (policy r) (prio r) (normal_prio r) (rt_priority r) (static_prio r) (on_rq r)
    (state r) (cpu r) (cpus_mask r) (nr_cpus_allowed r) (exec_start r) (sum_exec_runtime r)
    (need_resched r) (on_cpu r) (migration_disabled r) (pushable r) (usage r) (dl_timer r)
    (inactive_timer r).
Definition t_policy (v : Z) (r : task) : task :=
  mk_task (dl r) v (prio r) (normal_prio r) (rt_priority r) (static_prio r) (on_rq r) (state r)
    (cpu r) (cpus_mask r) (nr_cpus_allowed r) (exec_start r) (sum_exec_runtime r) (need_resched r)
    (on_cpu r) (migration_disabled r) (pushable r) (usage r) (dl_timer r) (inactive_timer r).
Definition t_prio (v : Z) (r : task) : task :=
  mk_task (dl r) (policy r) v (normal_prio r) (rt_priority r) (static_prio r) (on_rq r) (state r)
    (cpu r) (cpus_mask r) (nr_cpus_allowed r) (exec_start r) (sum_exec_runtime r) (need_resched r)
    (on_cpu r) (migration_disabled r) (pushable r) (usage r) (dl_timer r) (inactive_timer r).
Definition t_normal_prio (v : Z) (r : task) : task :=
  mk_task (dl r) (policy r) (prio r) v (rt_priority r) (static_prio r) (on_rq r) (state r) (cpu r)
    (cpus_mask r) (nr_cpus_allowed r) (exec_start r) (sum_exec_runtime r) (need_resched r)
    (on_cpu r) (migration_disabled r) (pushable r) (usage r) (dl_timer r) (inactive_timer r).
Definition t_rt_priority (v : Z) (r : task) : task :=
  mk_task (dl r) (policy r) (prio r) (normal_prio r) v (static_prio r) (on_rq r) (state r) (cpu r)
    (cpus_mask r) (nr_cpus_allowed r) (exec_start r) (sum_exec_runtime r) (need_resched r)
    (on_cpu r) (migration_disabled r) (pushable r) (usage r) (dl_timer r) (inactive_timer r).
Definition t_static_prio (v : Z) (r : task) : task :=
  mk_task (dl r) (policy r) (prio r) (normal_prio r) (rt_priority r) v (on_rq r) (state r) (cpu r)
    (cpus_mask r) (nr_cpus_allowed r) (exec_start r) (sum_exec_runtime r) (need_resched r)
    (on_cpu r) (migration_disabled r) (pushable r) (usage r) (dl_timer r) (inactive_timer r).
Definition t_on_rq (v : Z) (r : task) : task :=
  mk_task (dl r) (policy r) (prio r) (normal_prio r) (rt_priority r) (static_prio r) v (state r)
    (cpu r) (cpus_mask r) (nr_cpus_allowed r) (exec_start r) (sum_exec_runtime r) (need_resched r)
    (on_cpu r) (migration_disabled r) (pushable r) (usage r) (dl_timer r) (inactive_timer r).
Definition t_state (v : Z) (r : task) : task :=
  mk_task (dl r) (policy r) (prio r) (normal_prio r) (rt_priority r) (static_prio r) (on_rq r) v
    (cpu r) (cpus_mask r) (nr_cpus_allowed r) (exec_start r) (sum_exec_runtime r) (need_resched r)
    (on_cpu r) (migration_disabled r) (pushable r) (usage r) (dl_timer r) (inactive_timer r).
Definition t_cpu (v : Z) (r : task) : task :=
  mk_task (dl r) (policy r) (prio r) (normal_prio r) (rt_priority r) (static_prio r) (on_rq r)
    (state r) v (cpus_mask r) (nr_cpus_allowed r) (exec_start r) (sum_exec_runtime r)
    (need_resched r) (on_cpu r) (migration_disabled r) (pushable r) (usage r) (dl_timer r)
    (inactive_timer r).
Definition t_cpus_mask (v : Z) (r : task) : task :=
  mk_task (dl r) (policy r) (prio r) (normal_prio r) (rt_priority r) (static_prio r) (on_rq r)
    (state r) (cpu r) v (nr_cpus_allowed r) (exec_start r) (sum_exec_runtime r) (need_resched r)
    (on_cpu r) (migration_disabled r) (pushable r) (usage r) (dl_timer r) (inactive_timer r).
Definition t_nr_cpus_allowed (v : Z) (r : task) : task :=
  mk_task (dl r) (policy r) (prio r) (normal_prio r) (rt_priority r) (static_prio r) (on_rq r)
    (state r) (cpu r) (cpus_mask r) v (exec_start r) (sum_exec_runtime r) (need_resched r)
    (on_cpu r) (migration_disabled r) (pushable r) (usage r) (dl_timer r) (inactive_timer r).
Definition t_exec_start (v : Z) (r : task) : task :=
  mk_task (dl r) (policy r) (prio r) (normal_prio r) (rt_priority r) (static_prio r) (on_rq r)
    (state r) (cpu r) (cpus_mask r) (nr_cpus_allowed r) v (sum_exec_runtime r) (need_resched r)
    (on_cpu r) (migration_disabled r) (pushable r) (usage r) (dl_timer r) (inactive_timer r).
Definition t_sum_exec_runtime (v : Z) (r : task) : task :=
  mk_task (dl r) (policy r) (prio r) (normal_prio r) (rt_priority r) (static_prio r) (on_rq r)
    (state r) (cpu r) (cpus_mask r) (nr_cpus_allowed r) (exec_start r) v (need_resched r)
    (on_cpu r) (migration_disabled r) (pushable r) (usage r) (dl_timer r) (inactive_timer r).
Definition t_need_resched (v : bool) (r : task) : task :=
  mk_task (dl r) (policy r) (prio r) (normal_prio r) (rt_priority r) (static_prio r) (on_rq r)
    (state r) (cpu r) (cpus_mask r) (nr_cpus_allowed r) (exec_start r) (sum_exec_runtime r) v
    (on_cpu r) (migration_disabled r) (pushable r) (usage r) (dl_timer r) (inactive_timer r).
Definition t_on_cpu (v : bool) (r : task) : task :=
  mk_task (dl r) (policy r) (prio r) (normal_prio r) (rt_priority r) (static_prio r) (on_rq r)
    (state r) (cpu r) (cpus_mask r) (nr_cpus_allowed r) (exec_start r) (sum_exec_runtime r)
    (need_resched r) v (migration_disabled r) (pushable r) (usage r) (dl_timer r)
    (inactive_timer r).
Definition t_pushable (v : bool) (r : task) : task :=
  mk_task (dl r) (policy r) (prio r) (normal_prio r) (rt_priority r) (static_prio r) (on_rq r)
    (state r) (cpu r) (cpus_mask r) (nr_cpus_allowed r) (exec_start r) (sum_exec_runtime r)
    (need_resched r) (on_cpu r) (migration_disabled r) v (usage r) (dl_timer r) (inactive_timer r).
Definition t_usage (v : Z) (r : task) : task :=
  mk_task (dl r) (policy r) (prio r) (normal_prio r) (rt_priority r) (static_prio r) (on_rq r)
    (state r) (cpu r) (cpus_mask r) (nr_cpus_allowed r) (exec_start r) (sum_exec_runtime r)
    (need_resched r) (on_cpu r) (migration_disabled r) (pushable r) v (dl_timer r)
    (inactive_timer r).
Definition t_dl_timer (v : timer) (r : task) : task :=
  mk_task (dl r) (policy r) (prio r) (normal_prio r) (rt_priority r) (static_prio r) (on_rq r)
    (state r) (cpu r) (cpus_mask r) (nr_cpus_allowed r) (exec_start r) (sum_exec_runtime r)
    (need_resched r) (on_cpu r) (migration_disabled r) (pushable r) (usage r) v (inactive_timer r).
Definition t_inactive_timer (v : timer) (r : task) : task :=
  mk_task (dl r) (policy r) (prio r) (normal_prio r) (rt_priority r) (static_prio r) (on_rq r)
    (state r) (cpu r) (cpus_mask r) (nr_cpus_allowed r) (exec_start r) (sum_exec_runtime r)
    (need_resched r) (on_cpu r) (migration_disabled r) (pushable r) (usage r) (dl_timer r) v.
Definition q_root (v : rb_root_cached Z unit) (r : dl_rq) : dl_rq :=
  mk_dl_rq v (dl_nr_running r) (earliest_curr r) (earliest_next r) (dl_nr_migratory r)
    (overloaded r) (pushable_dl_tasks_root r) (running_bw r) (this_bw r) (extra_bw r) (max_bw r)
    (bw_ratio r).
Definition q_dl_nr_running (v : Z) (r : dl_rq) : dl_rq :=
  mk_dl_rq (root r) v (earliest_curr r) (earliest_next r) (dl_nr_migratory r) (overloaded r)
    (pushable_dl_tasks_root r) (running_bw r) (this_bw r) (extra_bw r) (max_bw r) (bw_ratio r).
Definition q_earliest_curr (v : Z) (r : dl_rq) : dl_rq :=
  mk_dl_rq (root r) (dl_nr_running r) v (earliest_next r) (dl_nr_migratory r) (overloaded r)
    (pushable_dl_tasks_root r) (running_bw r) (this_bw r) (extra_bw r) (max_bw r) (bw_ratio r).
Definition q_earliest_next (v : Z) (r : dl_rq) : dl_rq :=
  mk_dl_rq (root r) (dl_nr_running r) (earliest_curr r) v (dl_nr_migratory r) (overloaded r)
    (pushable_dl_tasks_root r) (running_bw r) (this_bw r) (extra_bw r) (max_bw r) (bw_ratio r).
Definition q_dl_nr_migratory (v : Z) (r : dl_rq) : dl_rq :=
  mk_dl_rq (root r) (dl_nr_running r) (earliest_curr r) (earliest_next r) v (overloaded r)
    (pushable_dl_tasks_root r) (running_bw r) (this_bw r) (extra_bw r) (max_bw r) (bw_ratio r).
Definition q_overloaded (v : bool) (r : dl_rq) : dl_rq :=
  mk_dl_rq (root r) (dl_nr_running r) (earliest_curr r) (earliest_next r) (dl_nr_migratory r) v
    (pushable_dl_tasks_root r) (running_bw r) (this_bw r) (extra_bw r) (max_bw r) (bw_ratio r).
Definition q_pushable_dl_tasks_root (v : rb_root_cached Z unit) (r : dl_rq) : dl_rq :=
  mk_dl_rq (root r) (dl_nr_running r) (earliest_curr r) (earliest_next r) (dl_nr_migratory r)
    (overloaded r) v (running_bw r) (this_bw r) (extra_bw r) (max_bw r) (bw_ratio r).
Definition q_running_bw (v : Z) (r : dl_rq) : dl_rq :=
  mk_dl_rq (root r) (dl_nr_running r) (earliest_curr r) (earliest_next r) (dl_nr_migratory r)
    (overloaded r) (pushable_dl_tasks_root r) v (this_bw r) (extra_bw r) (max_bw r) (bw_ratio r).
Definition q_this_bw (v : Z) (r : dl_rq) : dl_rq :=
  mk_dl_rq (root r) (dl_nr_running r) (earliest_curr r) (earliest_next r) (dl_nr_migratory r)
    (overloaded r) (pushable_dl_tasks_root r) (running_bw r) v (extra_bw r) (max_bw r)
    (bw_ratio r).
Definition q_extra_bw (v : Z) (r : dl_rq) : dl_rq :=
  mk_dl_rq (root r) (dl_nr_running r) (earliest_curr r) (earliest_next r) (dl_nr_migratory r)
    (overloaded r) (pushable_dl_tasks_root r) (running_bw r) (this_bw r) v (max_bw r) (bw_ratio r).
Definition q_max_bw (v : Z) (r : dl_rq) : dl_rq :=
  mk_dl_rq (root r) (dl_nr_running r) (earliest_curr r) (earliest_next r) (dl_nr_migratory r)
    (overloaded r) (pushable_dl_tasks_root r) (running_bw r) (this_bw r) (extra_bw r) v
    (bw_ratio r).
Definition q_bw_ratio (v : Z) (r : dl_rq) : dl_rq :=
  mk_dl_rq (root r) (dl_nr_running r) (earliest_curr r) (earliest_next r) (dl_nr_migratory r)
    (overloaded r) (pushable_dl_tasks_root r) (running_bw r) (this_bw r) (extra_bw r) (max_bw r) v.
Definition r_dlq (v : dl_rq) (r : rq) : rq :=
  mk_rq v (rd r) (clock r) (clock_task r) (curr r) (stop r) (online r) (nr_running r)
    (balance_callback r) (balance_push r) (rt_highest_prio r) (rt_time r) (rt_runtime r)
    (rt_period_timer r).
Definition r_clock (v : Z) (r : rq) : rq :=
  mk_rq (dlq r) (rd r) v (clock_task r) (curr r) (stop r) (online r) (nr_running r)
    (balance_callback r) (balance_push r) (rt_highest_prio r) (rt_time r) (rt_runtime r)
    (rt_period_timer r).
Definition r_clock_task (v : Z) (r : rq) : rq :=
  mk_rq (dlq r) (rd r) (clock r) v (curr r) (stop r) (online r) (nr_running r)
    (balance_callback r) (balance_push r) (rt_highest_prio r) (rt_time r) (rt_runtime r)
    (rt_period_timer r).
Definition r_curr (v : Z) (r : rq) : rq :=
  mk_rq (dlq r) (rd r) (clock r) (clock_task r) v (stop r) (online r) (nr_running r)
    (balance_callback r) (balance_push r) (rt_highest_prio r) (rt_time r) (rt_runtime r)
    (rt_period_timer r).
Definition r_online (v : bool) (r : rq) : rq :=
  mk_rq (dlq r) (rd r) (clock r) (clock_task r) (curr r) (stop r) v (nr_running r)
    (balance_callback r) (balance_push r) (rt_highest_prio r) (rt_time r) (rt_runtime r)
    (rt_period_timer r).
Definition r_nr_running (v : Z) (r : rq) : rq :=
  mk_rq (dlq r) (rd r) (clock r) (clock_task r) (curr r) (stop r) (online r) v
    (balance_callback r) (balance_push r) (rt_highest_prio r) (rt_time r) (rt_runtime r)
    (rt_period_timer r).
Definition r_balance_callback (v : list callback) (r : rq) : rq :=
  mk_rq (dlq r) (rd r) (clock r) (clock_task r) (curr r) (stop r) (online r) (nr_running r) v
    (balance_push r) (rt_highest_prio r) (rt_time r) (rt_runtime r) (rt_period_timer r).
Definition r_rt_time (v : Z) (r : rq) : rq :=
  mk_rq (dlq r) (rd r) (clock r) (clock_task r) (curr r) (stop r) (online r) (nr_running r)
    (balance_callback r) (balance_push r) (rt_highest_prio r) v (rt_runtime r) (rt_period_timer r).
Definition d_dl_b_bw (v : Z) (r : root_domain) : root_domain :=
  mk_rd v (total_bw r) (span r) (rd_cpudl r) (rd_cpupri r) (dlo_mask r) (dlo_count r) (overload r).
Definition d_total_bw (v : Z) (r : root_domain) : root_domain :=
  mk_rd (dl_b_bw r) v (span r) (rd_cpudl r) (rd_cpupri r) (dlo_mask r) (dlo_count r) (overload r).
Definition d_rd_cpudl (v : Cpudl.cpudl) (r : root_domain) : root_domain :=
  mk_rd (dl_b_bw r) (total_bw r) (span r) v (rd_cpupri r) (dlo_mask r) (dlo_count r) (overload r).
Definition d_rd_cpupri (v : Cpupri.cpupri) (r : root_domain) : root_domain :=
  mk_rd (dl_b_bw r) (total_bw r) (span r) (rd_cpudl r) v (dlo_mask r) (dlo_count r) (overload r).
Definition d_dlo_mask (v : Z) (r : root_domain) : root_domain :=
  mk_rd (dl_b_bw r) (total_bw r) (span r) (rd_cpudl r) (rd_cpupri r) v (dlo_count r) (overload r).
Definition d_dlo_count (v : Z) (r : root_domain) : root_domain :=
  mk_rd (dl_b_bw r) (total_bw r) (span r) (rd_cpudl r) (rd_cpupri r) (dlo_mask r) v (overload r).
Definition d_overload (v : bool) (r : root_domain) : root_domain :=
  mk_rd (dl_b_bw r) (total_bw r) (span r) (rd_cpudl r) (rd_cpupri r) (dlo_mask r) (dlo_count r) v.
Definition w_tasks (v : list task) (r : world) : world :=
  mk_world v (rqs r) (rds r) (cpu_active_mask r) (sysctl_sched_rt_runtime r)
    (sysctl_sched_rt_period r) (sysctl_sched_dl_period_max r) (sysctl_sched_dl_period_min r)
    (ktime r).
Definition w_rqs (v : list rq) (r : world) : world :=
  mk_world (tasks r) v (rds r) (cpu_active_mask r) (sysctl_sched_rt_runtime r)
    (sysctl_sched_rt_period r) (sysctl_sched_dl_period_max r) (sysctl_sched_dl_period_min r)
    (ktime r).
Definition w_rds (v : list root_domain) (r : world) : world :=
  mk_world (tasks r) (rqs r) v (cpu_active_mask r) (sysctl_sched_rt_runtime r)
    (sysctl_sched_rt_period r) (sysctl_sched_dl_period_max r) (sysctl_sched_dl_period_min r)
    (ktime r).
Definition w_ktime (v : Z) (r : world) : world :=
  mk_world (tasks r) (rqs r) (rds r) (cpu_active_mask r) (sysctl_sched_rt_runtime r)
    (sysctl_sched_rt_period r) (sysctl_sched_dl_period_max r) (sysctl_sched_dl_period_min r) v.


(** *** Access *)

(** An access to a task, run queue or root domain that does not exist is [None]. *)
Definition tref (w : world) (p : Z) : option task := aref (tasks w) p.
Definition rref (w : world) (c : Z) : option rq := aref (rqs w) c.
Definition dref (w : world) (d : Z) : option root_domain := aref (rds w) d.

Definition on_task (w : world) (p : Z) (f : task -> task) : option world :=
  t ← tref w p; ts ← aset (tasks w) p (f t); Some (w_tasks ts w).
Definition on_dl (w : world) (p : Z) (f : sched_dl_entity -> sched_dl_entity) : option world :=
  on_task w p (fun t => t_dl (f (dl t)) t).
Definition on_rq_of (w : world) (c : Z) (f : rq -> rq) : option world :=
  q ← rref w c; qs ← aset (rqs w) c (f q); Some (w_rqs qs w).
Definition on_dlq (w : world) (c : Z) (f : dl_rq -> dl_rq) : option world :=
  on_rq_of w c (fun q => r_dlq (f (dlq q)) q).
Definition on_rd (w : world) (d : Z) (f : root_domain -> root_domain) : option world :=
  r ← dref w d; rs ← aset (rds w) d (f r); Some (w_rds rs w).

Definition has (flags f : Z) : bool := z2b (Z.land flags f).
Definition dl_prio (prio : Z) : bool := prio <? MAX_DL_PRIO.
Definition dl_task (p : task) : bool := dl_prio (prio p).
Definition dl_policy (policy : Z) : bool := policy =? SCHED_DEADLINE.
Definition fair_policy (policy : Z) : bool := (policy =? SCHED_NORMAL) || (policy =? SCHED_BATCH).
Definition rt_policy (policy : Z) : bool := (policy =? SCHED_FIFO) || (policy =? SCHED_RR).
Definition valid_policy (policy : Z) : bool :=
  (policy =? SCHED_IDLE) || fair_policy policy || rt_policy policy || dl_policy policy.
Definition task_has_dl_policy (p : task) : bool := dl_policy (policy p).
Definition task_on_rq_queued (p : task) : bool := on_rq p =? TASK_ON_RQ_QUEUED.
Definition dl_entity_is_special (e : sched_dl_entity) : bool := has (flags e) SCHED_FLAG_SUGOV.
Definition dl_entity_preempt (a b : sched_dl_entity) : bool :=
  dl_entity_is_special a || dl_time_before (deadline a) (deadline b).

Definition pi_of (w : world) (e : sched_dl_entity) : option sched_dl_entity :=
  t ← tref w (pi_se e); Some (dl t).
Definition is_dl_boosted (p : Z) (e : sched_dl_entity) : bool := negb (pi_se e =? p).

Definition resched_curr (w : world) (c : Z) : option world :=
  q ← rref w c; on_task w (curr q) (t_need_resched true).

Definition get_task_struct (t : task) : task := t_usage (usage t + 1) t.
Definition put_task_struct (t : task) : task := t_usage (usage t - 1) t.

(** [if (hrtimer_try_to_cancel(&p->dl.inactive_timer) == 1) put_task_struct(p);] *)
Definition cancel_inactive (t : task) : task :=
  let '(tm, r) := hrtimer_try_to_cancel (inactive_timer t) in
  let t := t_inactive_timer tm t in
  if r =? 1 then put_task_struct t else t.

(** [queue_balance_callback]: the list is the order in which the callbacks will
    run; [head->next] is set when the head is queued before the last position. *)
Definition queue_balance_callback (cb : callback) (q : rq) : rq :=
  if bool_decide (cb ∈ removelast (balance_callback q)) || balance_push q then q
  else r_balance_callback (cb :: balance_callback q) q.

(** *** Bandwidth of a root domain *)

Definition global_rt_period (w : world) : Z := sysctl_sched_rt_period w *u64 NSEC_PER_USEC.
Definition global_rt_runtime (w : world) : Z :=
  if sysctl_sched_rt_runtime w <? 0 then RUNTIME_INF
  else sysctl_sched_rt_runtime w *u64 NSEC_PER_USEC.

Definition nr_cpu_ids (w : world) : Z := Z.of_nat (length (rqs w)).

Definition dl_bw_cpus (w : world) (i : Z) : option Z :=
  q ← rref w i; d ← dref w (rd q);
  if mask_and (span d) (cpu_active_mask w) =? span d
  then Some (Z.of_nat (length (mask_bits (nr_cpu_ids w) (span d))))
  else Some (Z.of_nat (length (mask_bits (nr_cpu_ids w) (mask_and (span d) (cpu_active_mask w))))).

Definition __dl_bw_capacity (w : world) (mask : Z) : Z :=
  foldl (fun cap i => cap +u64 capacity_orig_of i) 0
    (mask_bits (nr_cpu_ids w) (mask_and mask (cpu_active_mask w))).

Definition dl_bw_capacity (w : world) (i : Z) : option Z :=
  q ← rref w i; d ← dref w (rd q);
  if negb sched_asym_cpucap_active && (capacity_orig_of i =? SCHED_CAPACITY_SCALE)
  then cpus ← dl_bw_cpus w i; Some (Z.shiftl cpus SCHED_CAPACITY_SHIFT)
  else Some (__dl_bw_capacity w (span d)).

(** The loop of [__dl_update] over the CPUs. *)
Fixpoint add_extra_bw (w : world) (cpus : list Z) (bw : Z) : option world :=
  match cpus with
  | [] => Some w
  | i :: cpus =>
      w ← on_dlq w i (fun q => q_extra_bw (extra_bw q +u64 bw) q);
      add_extra_bw w cpus bw
  end.

Definition __dl_update (w : world) (d : Z) (bw : Z) : option world :=
  r ← dref w d;
  add_extra_bw w (mask_bits (nr_cpu_ids w) (mask_and (span r) (cpu_active_mask w))) bw.

(** A division by zero is [None]. *)
Definition __dl_sub (w : world) (d tsk_bw cpus : Z) : option world :=
  w ← on_rd w d (fun r => d_total_bw (total_bw r -u64 tsk_bw) r);
  if cpus =? 0 then None else __dl_update w d (cdiv (s32 tsk_bw) cpus).

Definition __dl_add (w : world) (d tsk_bw cpus : Z) : option world :=
  w ← on_rd w d (fun r => d_total_bw (total_bw r +u64 tsk_bw) r);
  if cpus =? 0 then None else __dl_update w d (- cdiv (s32 tsk_bw) cpus).

Definition __dl_overflow (r : root_domain) (cap old_bw new_bw : Z) : bool :=
  negb (dl_b_bw r =? U64_MAX) &&
  (cap_scale (dl_b_bw r) cap <? u64 (total_bw r - old_bw + new_bw)).

(** *** Bandwidth of a run queue *)

Definition __add_running_bw (bw : Z) (q : dl_rq) : dl_rq := q_running_bw (running_bw q +u64 bw) q.
Definition __sub_running_bw (bw : Z) (q : dl_rq) : dl_rq :=
  let old := running_bw q in
  let new := old -u64 bw in
  q_running_bw (if old <? new then 0 else new) q.
Definition __add_rq_bw (bw : Z) (q : dl_rq) : dl_rq := q_this_bw (this_bw q +u64 bw) q.
Definition __sub_rq_bw (bw : Z) (q : dl_rq) : dl_rq :=
  let old := this_bw q in
  let new := old -u64 bw in
  q_this_bw (if old <? new then 0 else new) q.

(** The entity is that of task [p], the queue that of CPU [c]. *)
Definition unless_special (w : world) (p c : Z) (f : Z -> dl_rq -> dl_rq) : option world :=
  t ← tref w p;
  if dl_entity_is_special (dl t) then Some w else on_dlq w c (f (dl_bw (dl t))).
Definition add_rq_bw (w : world) (p c : Z) : option world := unless_special w p c __add_rq_bw.
Definition sub_rq_bw (w : world) (p c : Z) : option world := unless_special w p c __sub_rq_bw.
Definition add_running_bw (w : world) (p c : Z) : option world :=
  unless_special w p c __add_running_bw.
Definition sub_running_bw (w : world) (p c : Z) : option world :=
  unless_special w p c __sub_running_bw.

Definition dl_change_utilization (w : world) (p new_bw : Z) : option world :=
  t ← tref w p;
  if task_on_rq_queued t then Some w
  else
    let c := cpu t in
    w ← (if dl_non_contending (dl t) then
           w ← sub_running_bw w p c;
           on_task w p (fun t => cancel_inactive (t_dl (set_non_contending false (dl t)) t))
         else Some w);
    w ← on_dlq w c (__sub_rq_bw (dl_bw (dl t)));
    on_dlq w c (__add_rq_bw new_bw).

(** The time, relative to the clock, at which a blocked task stops contending. *)
Definition zerolag_time (e : sched_dl_entity) (now : Z) : Z :=
  s64 (s64 (deadline e - cdiv (s64 (runtime e * dl_period e)) (s64 (dl_runtime e))) - now).

Definition task_non_contending (w : world) (p : Z) : option world :=
  t ← tref w p;
  let e := dl t in
  let c := cpu t in
  q ← rref w c;
  if dl_runtime e =? 0 then Some w
  else if dl_entity_is_special e then Some w
  else
    let zerolag := zerolag_time e (clock q) in
    if (zerolag <? 0) || hrtimer_active (inactive_timer t) then
      w ← (if dl_task t then sub_running_bw w p c else Some w);
      if negb (dl_task t) || (state t =? TASK_DEAD) then
        w ← (if state t =? TASK_DEAD then sub_rq_bw w p c else Some w);
        cpus ← dl_bw_cpus w c;
        w ← __dl_sub w (rd q) (dl_bw e) cpus;
        on_dl w p (__dl_clear_params p)
      else Some w
    else
      on_task w p (fun t =>
        t_inactive_timer (hrtimer_start (inactive_timer t) zerolag)
          (get_task_struct (t_dl (set_non_contending true (dl t)) t))).

Definition task_contending (w : world) (p flags : Z) : option world :=
  t ← tref w p;
  let c := cpu t in
  if dl_runtime (dl t) =? 0 then Some w
  else
    w ← (if has flags ENQUEUE_MIGRATED then add_rq_bw w p c else Some w);
    if dl_non_contending (dl t) then
      on_task w p (fun t => cancel_inactive (t_dl (set_non_contending false (dl t)) t))
    else add_running_bw w p c.

(** *** Queues *)

(** The trees of the class carry no augmented data. *)
#[export] Instance plain : Augment Z unit := mk_augment Z unit (fun _ _ _ => tt) (fun _ _ => true).

(** The new tree, and whether the node is the leftmost one. *)
Definition rb_add_cached (less : Z -> Z -> bool) (p : Z) (t : rb_root_cached Z unit)
  : option (rb_root_cached Z unit * bool) :=
  t ← rb_add_augmented_cached less p tt t;
  Some (t, match rb_leftmost t with Some x => x =? p | None => false end).

(** The new tree, and the new leftmost node when the old one was erased. *)
Definition rb_erase_cached (p : Z) (t : rb_root_cached Z unit)
  : option (rb_root_cached Z unit * option Z) :=
  let was_first := match rb_leftmost t with Some x => x =? p | None => false end in
  t ← rb_erase_augmented_cached (Z.eqb p) t;
  Some (t, if was_first then rb_leftmost t else None).

Definition RB_ROOT_CACHED : rb_root_cached Z unit := mk_root Leaf None.

Definition on_entities (w : world) (f : sched_dl_entity -> sched_dl_entity -> bool) (a b : Z) : bool :=
  match tref w a, tref w b with Some ta, Some tb => f (dl ta) (dl tb) | _, _ => false end.
Definition __dl_less (w : world) : Z -> Z -> bool :=
  on_entities w (fun a b => dl_time_before (deadline a) (deadline b)).
Definition __pushable_less (w : world) : Z -> Z -> bool := on_entities w dl_entity_preempt.

Definition dl_set_overload (w : world) (c : Z) : option world :=
  q ← rref w c;
  if online q then
    on_rd w (rd q) (fun d => d_dlo_count (dlo_count d + 1) (d_dlo_mask (mask_set (dlo_mask d) c) d))
  else Some w.

Definition dl_clear_overload (w : world) (c : Z) : option world :=
  q ← rref w c;
  if online q then
    on_rd w (rd q) (fun d => d_dlo_mask (mask_clear (dlo_mask d) c) (d_dlo_count (dlo_count d - 1) d))
  else Some w.

Definition update_dl_migration (w : world) (c : Z) : option world :=
  q ← rref w c;
  if negb (dl_nr_migratory (dlq q) =? 0) && (1 <? dl_nr_running (dlq q)) then
    if overloaded (dlq q) then Some w
    else w ← dl_set_overload w c; on_dlq w c (q_overloaded true)
  else if overloaded (dlq q) then w ← dl_clear_overload w c; on_dlq w c (q_overloaded false)
  else Some w.

Definition inc_dl_migration (w : world) (p c : Z) : option world :=
  t ← tref w p;
  w ← (if 1 <? nr_cpus_allowed t
       then on_dlq w c (fun q => q_dl_nr_migratory (dl_nr_migratory q +u32 1) q) else Some w);
  update_dl_migration w c.

Definition dec_dl_migration (w : world) (p c : Z) : option world :=
  t ← tref w p;
  w ← (if 1 <? nr_cpus_allowed t
       then on_dlq w c (fun q => q_dl_nr_migratory (dl_nr_migratory q -u32 1) q) else Some w);
  update_dl_migration w c.

Definition enqueue_pushable_dl_task (w : world) (c p : Z) : option world :=
  q ← rref w c;
  t ← tref w p;
  '(tr, leftmost) ← rb_add_cached (__pushable_less w) p (pushable_dl_tasks_root (dlq q));
  w ← on_dlq w c (q_pushable_dl_tasks_root tr);
  w ← on_task w p (t_pushable true);
  if leftmost : bool then on_dlq w c (q_earliest_next (deadline (dl t))) else Some w.

Definition dequeue_pushable_dl_task (w : world) (c p : Z) : option world :=
  q ← rref w c;
  t ← tref w p;
  if pushable t then
    '(tr, leftmost) ← rb_erase_cached p (pushable_dl_tasks_root (dlq q));
    w ← on_dlq w c (q_pushable_dl_tasks_root tr);
    w ← match leftmost with
        | Some l => tl ← tref w l; on_dlq w c (q_earliest_next (deadline (dl tl)))
        | None => Some w
        end;
    on_task w p (t_pushable false)
  else Some w.

Definition has_pushable_dl_tasks (q : rq) : bool :=
  match rb_root (pushable_dl_tasks_root (dlq q)) with Leaf => false | _ => true end.

Definition deadline_queue_push_tasks (w : world) (c : Z) : option world :=
  q ← rref w c;
  if has_pushable_dl_tasks q then on_rq_of w c (queue_balance_callback PushDl) else Some w.
Definition deadline_queue_pull_task (w : world) (c : Z) : option world :=
  on_rq_of w c (queue_balance_callback PullDl).

(** Calls of [cpudl] and [cpupri] of the root domain of the CPU. *)
Definition on_cpudl (w : world) (c : Z) (f : Cpudl.cpudl -> option Cpudl.cpudl) : option world :=
  q ← rref w c; d ← dref w (rd q); h ← f (rd_cpudl d); on_rd w (rd q) (d_rd_cpudl h).
Definition on_cpupri (w : world) (c : Z) (f : Cpupri.cpupri -> option Cpupri.cpupri) : option world :=
  q ← rref w c; d ← dref w (rd q); h ← f (rd_cpupri d); on_rd w (rd q) (d_rd_cpupri h).

Definition inc_dl_deadline (w : world) (c dline : Z) : option world :=
  q ← rref w c;
  let first := earliest_curr (dlq q) =? 0 in
  if first || dl_time_before dline (earliest_curr (dlq q)) then
    w ← (if first then on_cpupri w c (fun h => Cpupri.cpupri_set h c Cpupri.CPUPRI_HIGHER)
         else Some w);
    w ← on_dlq w c (q_earliest_curr dline);
    on_cpudl w c (fun h => Cpudl.cpudl_set h c dline)
  else Some w.

Definition dec_dl_deadline (w : world) (c : Z) : option world :=
  q ← rref w c;
  if dl_nr_running (dlq q) =? 0 then
    w ← on_dlq w c (fun q => q_earliest_next 0 (q_earliest_curr 0 q));
    w ← on_cpudl w c (fun h => Cpudl.cpudl_clear h c);
    on_cpupri w c (fun h => Cpupri.cpupri_set h c (rt_highest_prio q))
  else
    leftmost ← rb_leftmost (root (dlq q));
    t ← tref w leftmost;
    w ← on_dlq w c (q_earliest_curr (deadline (dl t)));
    on_cpudl w c (fun h => Cpudl.cpudl_set h c (deadline (dl t))).

Definition add_nr_running (w : world) (c count : Z) : option world :=
  q ← rref w c;
  let n := nr_running q +u32 count in
  w ← on_rq_of w c (r_nr_running n);
  if (nr_running q <? 2) && (2 <=? n) then on_rd w (rd q) (d_overload true) else Some w.

Definition sub_nr_running (w : world) (c count : Z) : option world :=
  on_rq_of w c (fun q => r_nr_running (nr_running q -u32 count) q).

Definition inc_dl_tasks (w : world) (p c : Z) : option world :=
  t ← tref w p;
  w ← on_dlq w c (fun q => q_dl_nr_running (dl_nr_running q +u32 1) q);
  w ← add_nr_running w c 1;
  w ← inc_dl_deadline w c (deadline (dl t));
  inc_dl_migration w p c.

Definition dec_dl_tasks (w : world) (p c : Z) : option world :=
  w ← on_dlq w c (fun q => q_dl_nr_running (dl_nr_running q -u32 1) q);
  w ← sub_nr_running w c 1;
  w ← dec_dl_deadline w c;
  dec_dl_migration w p c.

Definition __enqueue_dl_entity (w : world) (p : Z) : option world :=
  t ← tref w p;
  let c := cpu t in
  q ← rref w c;
  '(tr, _) ← rb_add_cached (__dl_less w) p (root (dlq q));
  w ← on_dlq w c (q_root tr);
  w ← on_dl w p (set_on_tree true);
  inc_dl_tasks w p c.

Definition __dequeue_dl_entity (w : world) (p : Z) : option world :=
  t ← tref w p;
  let c := cpu t in
  if on_tree (dl t) then
    q ← rref w c;
    '(tr, _) ← rb_erase_cached p (root (dlq q));
    w ← on_dlq w c (q_root tr);
    w ← on_dl w p (set_on_tree false);
    dec_dl_tasks w p c
  else Some w.

Definition enqueue_dl_entity (w : world) (p flags : Z) : option world :=
  t ← tref w p;
  q ← rref w (cpu t);
  w ← (if has flags ENQUEUE_WAKEUP then
         w ← task_contending w p flags;
         pi ← pi_of w (dl t);
         on_dl w p (update_dl_entity pi (is_dl_boosted p (dl t)) (clock q))
       else if has flags ENQUEUE_REPLENISH then
         pi ← pi_of w (dl t);
         e ← replenish_dl_entity pi (clock q) (dl t);
         on_dl w p (fun _ => e)
       else if has flags ENQUEUE_RESTORE && dl_time_before (deadline (dl t)) (clock q) then
         pi ← pi_of w (dl t);
         on_dl w p (setup_new_dl_entity pi (clock q))
       else Some w);
  __enqueue_dl_entity w p.

(** *** The replenishment timer *)

(** Whether the timer is armed for the next period. *)
Definition start_dl_timer (w : world) (p : Z) : option (world * bool) :=
  t ← tref w p;
  q ← rref w (cpu t);
  let act := s64 (dl_next_period (dl t)) in
  let now := ktime w in
  let delta := s64 (now - clock q) in
  let act := s64 (act + delta) in
  if ktime_us_delta act now <? 0 then Some (w, false)
  else if hrtimer_is_queued (dl_timer t) then Some (w, true)
  else
    w ← on_task w p (fun t => t_dl_timer (hrtimer_start (dl_timer t) act) (get_task_struct t));
    Some (w, true).

Definition dl_check_constrained_dl (w : world) (p : Z) : option world :=
  t ← tref w p;
  q ← rref w (cpu t);
  if late_constrained (clock q) (dl t) then
    if is_dl_boosted p (dl t) then Some w
    else
      '(w, started) ← start_dl_timer w p;
      if started : bool then on_dl w p constrained_throttle else Some w
  else Some w.

(** *** Enqueueing and dequeueing *)

(** The part of [enqueue_task_dl] after the handling of boosted tasks. *)
Definition enqueue_unboosted (w : world) (c p flags : Z) : option world :=
  t ← tref w p;
  w ← (if negb (dl_throttled (dl t)) && negb (dl_is_implicit (dl t))
       then dl_check_constrained_dl w p else Some w);
  w ← (if (on_rq t =? TASK_ON_RQ_MIGRATING) || has flags ENQUEUE_RESTORE then
         w ← add_rq_bw w p c; add_running_bw w p c
       else Some w);
  t ← tref w p;
  if dl_throttled (dl t) && negb (has flags ENQUEUE_REPLENISH) then
    if has flags ENQUEUE_WAKEUP then task_contending w p flags else Some w
  else
    w ← enqueue_dl_entity w p flags;
    q ← rref w c;
    if negb (curr q =? p) && (1 <? nr_cpus_allowed t) then enqueue_pushable_dl_task w c p
    else Some w.

Definition enqueue_task_dl (w : world) (c p flags : Z) : option world :=
  t ← tref w p;
  if is_dl_boosted p (dl t) then
    w ← (if dl_throttled (dl t) then
           on_task w p (fun t => t_dl (set_throttled false (dl t))
             (t_dl_timer (fst (hrtimer_try_to_cancel (dl_timer t))) t))
         else Some w);
    enqueue_unboosted w c p flags
  else if negb (dl_prio (normal_prio t)) then on_dl w p (set_throttled false)
  else enqueue_unboosted w c p flags.

Definition __dequeue_task_dl (w : world) (c p : Z) : option world :=
  w ← __dequeue_dl_entity w p; dequeue_pushable_dl_task w c p.

(** The GRUB rule of reclaiming tasks. *)
Definition grub_reclaim (delta : Z) (q : dl_rq) (bw : Z) : Z :=
  let u_inact := this_bw q -u64 running_bw q in
  let u_act := if (max_bw q -u64 bw) <? (u_inact +u64 extra_bw q) then bw
               else u64 (max_bw q - u_inact - extra_bw q) in
  let u_act := Z.shiftr (u_act *u64 bw_ratio q) RATIO_SHIFT in
  Z.shiftr (delta *u64 u_act) BW_SHIFT.

Definition is_leftmost (p : Z) (q : dl_rq) : bool :=
  match rb_leftmost (root q) with Some x => x =? p | None => false end.

(** The [throttle:] part of [update_curr_dl]. *)
Definition check_throttle (w : world) (c p : Z) : option world :=
  t ← tref w p;
  if must_throttle (dl t) then
    w ← on_dl w p throttle;
    w ← __dequeue_task_dl w c p;
    t ← tref w p;
    w ← (if is_dl_boosted p (dl t) then enqueue_task_dl w c p ENQUEUE_REPLENISH
         else '(w, started) ← start_dl_timer w p;
              if started : bool then Some w else enqueue_task_dl w c p ENQUEUE_REPLENISH);
    q ← rref w c;
    if is_leftmost p (dlq q) then Some w else resched_curr w c
  else Some w.

Definition sched_rt_bandwidth_account (q : rq) : bool :=
  hrtimer_active (rt_period_timer q) || (rt_time q <? rt_runtime q).

Definition account_rt_time (w : world) (c delta_exec : Z) : option world :=
  if sysctl_sched_rt_runtime w <? 0 then Some w
  else on_rq_of w c (fun q => if sched_rt_bandwidth_account q
                              then r_rt_time (rt_time q +u64 delta_exec) q else q).

Definition scaled_exec (q : rq) (c delta_exec : Z) (e : sched_dl_entity) : Z :=
  scaled_delta delta_exec (arch_scale_freq_capacity c) (arch_scale_cpu_capacity c)
    (grub_reclaim delta_exec (dlq q) (dl_bw e)) e.

Definition update_curr_dl (w : world) (c : Z) : option world :=
  q ← rref w c;
  let p := curr q in
  t ← tref w p;
  if negb (dl_task t) || negb (on_tree (dl t)) then Some w
  else
    let now := clock_task q in
    let delta_exec := now -u64 exec_start t in
    if s64 delta_exec <=? 0 then
      if dl_yielded (dl t) then
        w ← check_throttle w c p; account_rt_time w c delta_exec
      else Some w
    else
      w ← on_task w p (fun t => t_exec_start now
            (t_sum_exec_runtime (sum_exec_runtime t +u64 delta_exec) t));
      if dl_entity_is_special (dl t) then Some w
      else
        w ← on_dl w p (charge (scaled_exec q c delta_exec (dl t)));
        w ← check_throttle w c p;
        account_rt_time w c delta_exec.

Definition dequeue_task_dl (w : world) (c p flags : Z) : option world :=
  w ← update_curr_dl w c;
  w ← __dequeue_task_dl w c p;
  t ← tref w p;
  w ← (if (on_rq t =? TASK_ON_RQ_MIGRATING) || has flags DEQUEUE_SAVE then
         w ← sub_running_bw w p c; sub_rq_bw w p c
       else Some w);
  if has flags DEQUEUE_SLEEP then task_non_contending w p else Some w.

(** *** Preemption *)

(** What [cpudl_find] reads of a task. *)
Definition as_dl_task (t : task) : Cpudl.dl_task :=
  Cpudl.mk_dl_task (deadline (dl t)) (dl_density (dl t)) (cpus_mask t) (cpu t).

Definition find_cpudl (w : world) (c : Z) (t : task) (mask : option Z) : option (Z * option Z) :=
  q ← rref w c; d ← dref w (rd q);
  Cpudl.cpudl_find (nr_cpu_ids w) capacity_orig_of arch_scale_cpu_capacity sched_asym_cpucap_active
    (rd_cpudl d) (as_dl_task t) mask.

Definition check_preempt_equal_dl (w : world) (c p : Z) : option world :=
  q ← rref w c;
  tc ← tref w (curr q);
  t ← tref w p;
  if nr_cpus_allowed tc =? 1 then Some w
  else
    '(r, _) ← find_cpudl w c tc None;
    if r =? 0 then Some w
    else if nr_cpus_allowed t =? 1 then resched_curr w c
    else
      '(r, _) ← find_cpudl w c t None;
      if r =? 0 then resched_curr w c else Some w.

Definition check_preempt_curr_dl (w : world) (c p : Z) : option world :=
  q ← rref w c;
  tc ← tref w (curr q);
  t ← tref w p;
  if dl_entity_preempt (dl t) (dl tc) then resched_curr w c
  else if (deadline (dl t) =? deadline (dl tc)) && negb (need_resched tc)
  then check_preempt_equal_dl w c p
  else Some w.

(** [check_preempt_curr] of the core for a task of the deadline class, which is
    above every class but that of the stop task. *)
Definition check_preempt_curr (w : world) (c p : Z) : option world :=
  q ← rref w c;
  tc ← tref w (curr q);
  t ← tref w p;
  if dl_task t then
    if dl_task tc then check_preempt_curr_dl w c p
    else if curr q =? stop q then Some w else resched_curr w c
  else Some w.

(** *** Picking *)

Definition set_next_task_dl (w : world) (c p : Z) (first : bool) : option world :=
  q ← rref w c;
  w ← on_task w p (t_exec_start (clock_task q));
  w ← dequeue_pushable_dl_task w c p;
  if first then deadline_queue_push_tasks w c else Some w.

Definition pick_next_dl_entity (q : dl_rq) : option Z := rb_leftmost (root q).

(** [None] of the inner option: no deadline task. *)
Definition pick_task_dl (w : world) (c : Z) : option (option Z) :=
  q ← rref w c;
  if 0 <? dl_nr_running (dlq q) then
    p ← pick_next_dl_entity (dlq q); Some (Some p)
  else Some None.

Definition pick_next_task_dl (w : world) (c : Z) : option (world * option Z) :=
  r ← pick_task_dl w c;
  match r with
  | Some p => w ← set_next_task_dl w c p true; Some (w, Some p)
  | None => Some (w, None)
  end.

Definition put_prev_task_dl (w : world) (c p : Z) : option world :=
  w ← update_curr_dl w c;
  t ← tref w p;
  if on_tree (dl t) && (1 <? nr_cpus_allowed t) then enqueue_pushable_dl_task w c p else Some w.

Definition task_tick_dl (w : world) (c : Z) : option world := update_curr_dl w c.

(** The reading of the clocks of a run queue that [update_rq_clock] stores. *)
Definition update_rq_clock (w : world) (c : Z) (ck : Z * Z) : option world :=
  on_rq_of w c (fun q => r_clock_task (snd ck) (r_clock (fst ck) q)).

Definition yield_task_dl (w : world) (c : Z) (ck : Z * Z) : option world :=
  q ← rref w c;
  w ← on_dl w (curr q) (set_yielded true);
  w ← update_rq_clock w c ck;
  update_curr_dl w c.

(** *** Migration *)

Definition migrate_task_rq_dl (w : world) (p : Z) (ck : Z * Z) : option world :=
  t ← tref w p;
  if negb (state t =? TASK_WAKING) then Some w
  else
    let c := cpu t in
    w ← (if dl_non_contending (dl t) then
           w ← update_rq_clock w c ck;
           w ← sub_running_bw w p c;
           on_task w p (fun t => cancel_inactive (t_dl (set_non_contending false (dl t)) t))
         else Some w);
    sub_rq_bw w p c.

Definition set_task_cpu (w : world) (p new_cpu : Z) (ck : Z * Z) : option world :=
  t ← tref w p;
  w ← (if negb (cpu t =? new_cpu) && dl_task t then migrate_task_rq_dl w p ck else Some w);
  on_task w p (t_cpu new_cpu).

(** Only the deadline class is part of the model: for another class these calls
    change nothing here. *)
Definition enqueue_task (w : world) (c p flags : Z) : option world :=
  t ← tref w p; if dl_task t then enqueue_task_dl w c p flags else Some w.
Definition dequeue_task (w : world) (c p flags : Z) : option world :=
  t ← tref w p; if dl_task t then dequeue_task_dl w c p flags else Some w.
Definition put_prev_task (w : world) (c p : Z) : option world :=
  t ← tref w p; if dl_task t then put_prev_task_dl w c p else Some w.
Definition set_next_task (w : world) (c p : Z) : option world :=
  t ← tref w p; if dl_task t then set_next_task_dl w c p false else Some w.

Definition activate_task (w : world) (c p flags : Z) : option world :=
  t ← tref w p;
  let flags := if on_rq t =? TASK_ON_RQ_MIGRATING then Z.lor flags ENQUEUE_MIGRATED else flags in
  w ← enqueue_task w c p flags;
  on_task w p (t_on_rq TASK_ON_RQ_QUEUED).

Definition deactivate_task (w : world) (c p flags : Z) : option world :=
  w ← on_task w p (t_on_rq (if has flags DEQUEUE_SLEEP then 0 else TASK_ON_RQ_MIGRATING));
  dequeue_task w c p flags.

Definition dl_task_is_earliest_deadline (t : task) (q : rq) : bool :=
  (dl_nr_running (dlq q) =? 0) || dl_time_before (deadline (dl t)) (earliest_curr (dlq q)).

(** The [for_each_domain] loop of [find_later_rq]: [None] when no domain decides. *)
Fixpoint scan_domains (nr this_cpu later_mask : Z) (sds : list (bool * Z)) : option Z :=
  match sds with
  | [] => None
  | (wake_affine, sd_span) :: sds =>
      if wake_affine then
        if negb (this_cpu =? -1) && mask_test sd_span this_cpu then Some this_cpu
        else
          let best_cpu := cpumask_any_and_distribute later_mask sd_span in
          if best_cpu <? nr then Some best_cpu else scan_domains nr this_cpu later_mask sds
      else scan_domains nr this_cpu later_mask sds
  end.

(** [this] is [smp_processor_id()]. *)
Definition find_later_rq (w : world) (this p : Z) : option Z :=
  t ← tref w p;
  if nr_cpus_allowed t =? 1 then Some (-1)
  else
    '(r, mask) ← find_cpudl w (cpu t) t (Some 0);
    if r =? 0 then Some (-1)
    else
      later_mask ← mask;
      if mask_test later_mask (cpu t) then Some (cpu t)
      else
        let this_cpu := if mask_test later_mask this then this else -1 in
        match scan_domains (nr_cpu_ids w) this_cpu later_mask (sched_domains (cpu t)) with
        | Some c => Some c
        | None =>
            if negb (this_cpu =? -1) then Some this_cpu
            else
              let c := cpumask_any_distribute later_mask in
              Some (if c <? nr_cpu_ids w then c else -1)
        end.

(** The locks are taken without being dropped, so that the first candidate
    decides. *)
Definition find_lock_later_rq (w : world) (this p c : Z) : option (option Z) :=
  later ← find_later_rq w this p;
  if (later =? -1) || (later =? c) then Some None
  else
    q ← rref w later;
    t ← tref w p;
    if dl_task_is_earliest_deadline t q then Some (Some later) else Some None.

Definition select_task_rq_dl (w : world) (this p c : Z) (ttwu : bool) : option Z :=
  if negb ttwu then Some c
  else
    q ← rref w c;
    tc ← tref w (curr q);
    t ← tref w p;
    let select_rq := dl_task tc &&
          ((nr_cpus_allowed tc <? 2) || negb (dl_entity_preempt (dl t) (dl tc))) &&
          (1 <? nr_cpus_allowed t) in
    let select_rq := if sched_asym_cpucap_active
                     then select_rq || negb (Cpudl.dl_task_fits_capacity arch_scale_cpu_capacity
                                               (as_dl_task t) c)
                     else select_rq in
    if select_rq then
      target ← find_later_rq w this p;
      if target =? -1 then Some c
      else
        qt ← rref w target;
        Some (if dl_task_is_earliest_deadline t qt then target else c)
    else Some c.

(** The move of a queued task that is not running. *)
Definition move_task (w : world) (c p new_cpu : Z) (ck : Z * Z) : option world :=
  w ← deactivate_task w c p 0;
  w ← set_task_cpu w p new_cpu ck;
  activate_task w new_cpu p 0.

Definition move_queued_task (w : world) (c p new_cpu : Z) (ck : Z * Z) : option world :=
  w ← move_task w c p new_cpu ck;
  check_preempt_curr w new_cpu p.

Definition pick_next_pushable_dl_task (q : rq) : option Z :=
  if has_pushable_dl_tasks q then rb_leftmost (pushable_dl_tasks_root (dlq q)) else None.

(** The clock of the run queue stays: [set_task_cpu] only reads a clock for a waking
    task. *)
Definition push_dl_task (w : world) (this c : Z) : option (world * bool) :=
  q ← rref w c;
  if negb (overloaded (dlq q)) then Some (w, false)
  else
    match pick_next_pushable_dl_task q with
    | None => Some (w, false)
    | Some p =>
        t ← tref w p;
        tc ← tref w (curr q);
        if dl_task tc && dl_time_before (deadline (dl t)) (deadline (dl tc)) &&
           (1 <? nr_cpus_allowed tc)
        then w ← resched_curr w c; Some (w, false)
        else if migration_disabled t then Some (w, false)
        else if p =? curr q then Some (w, false)
        else
          later ← find_lock_later_rq w this p c;
          match later with
          | None => Some (w, false)
          | Some l =>
              w ← move_task w c p l (clock q, clock_task q);
              w ← resched_curr w l;
              Some (w, true)
          end
    end.

(** [while (push_dl_task(rq));] *)
Fixpoint push_loop (fuel : nat) (w : world) (this c : Z) : option world :=
  match fuel with
  | O => None
  | S fuel =>
      '(w, moved) ← push_dl_task w this c;
      if moved : bool then push_loop fuel w this c else Some w
  end.

(** Every round takes a task out of the tree of pushable tasks. *)
Definition push_dl_tasks (w : world) (this c : Z) : option world :=
  q ← rref w c;
  push_loop (S (length (inorder (rb_root (pushable_dl_tasks_root (dlq q)))))) w this c.

(** The walk of [pick_earliest_pushable_dl_task] over the tree in order. *)
Fixpoint first_pullable (w : world) (c : Z) (ps : list Z) : option (option Z) :=
  match ps with
  | [] => Some None
  | p :: ps =>
      t ← tref w p;
      if negb (on_cpu t) && mask_test (cpus_mask t) c then Some (Some p) else first_pullable w c ps
  end.

Definition pick_earliest_pushable_dl_task (w : world) (q : rq) (c : Z) : option (option Z) :=
  if has_pushable_dl_tasks q
  then first_pullable w c (inorder (rb_root (pushable_dl_tasks_root (dlq q))))
  else Some None.

(** One round of the loop of [pull_dl_task]: the new world, [dmin] and [resched].
    A task that must not migrate is left to the stopper. *)
Definition pull_from (w : world) (this_cpu c dmin : Z) (resched : bool)
  : option (world * Z * bool) :=
  this_rq ← rref w this_cpu;
  src ← rref w c;
  if (0 <? dl_nr_running (dlq this_rq)) &&
     dl_time_before (earliest_curr (dlq this_rq)) (earliest_next (dlq src))
  then Some (w, dmin, resched)
  else if dl_nr_running (dlq src) <=? 1 then Some (w, dmin, resched)
  else
    r ← pick_earliest_pushable_dl_task w src this_cpu;
    match r with
    | None => Some (w, dmin, resched)
    | Some p =>
        t ← tref w p;
        tc ← tref w (curr src);
        if dl_time_before (deadline (dl t)) dmin && dl_task_is_earliest_deadline t this_rq then
          if dl_time_before (deadline (dl t)) (deadline (dl tc)) then Some (w, dmin, resched)
          else if migration_disabled t then Some (w, dmin, resched)
          else
            w ← move_task w c p this_cpu (clock src, clock_task src);
            t ← tref w p;
            Some (w, deadline (dl t), true)
        else Some (w, dmin, resched)
    end.

Fixpoint pull_loop (w : world) (this_cpu : Z) (cpus : list Z) (dmin : Z) (resched : bool)
  : option (world * bool) :=
  match cpus with
  | [] => Some (w, resched)
  | c :: cpus =>
      if this_cpu =? c then pull_loop w this_cpu cpus dmin resched
      else
        '(w, dmin, resched) ← pull_from w this_cpu c dmin resched;
        pull_loop w this_cpu cpus dmin resched
  end.

Definition pull_dl_task (w : world) (this_cpu : Z) : option world :=
  q ← rref w this_cpu;
  d ← dref w (rd q);
  if dlo_count d =? 0 then Some w
  else
    '(w, resched) ← pull_loop w this_cpu (mask_bits (nr_cpu_ids w) (dlo_mask d)) (two63 - 1) false;
    if resched : bool then resched_curr w this_cpu else Some w.

Definition need_pull_dl_task (q : rq) (prev : task) : bool := online q && dl_task prev.
Definition sched_stop_runnable (w : world) (q : rq) : bool :=
  match tref w (stop q) with Some t => task_on_rq_queued t | None => false end.

(** [p] is the task that is about to be put back.  Another class may provide the next
    task only when the answer is false. *)
Definition balance_dl (w : world) (c p : Z) : option (world * bool) :=
  q ← rref w c;
  t ← tref w p;
  w ← (if negb (on_tree (dl t)) && need_pull_dl_task q t then pull_dl_task w c else Some w);
  q ← rref w c;
  Some (w, sched_stop_runnable w q || (0 <? dl_nr_running (dlq q))).

Definition task_woken_dl (w : world) (this c p : Z) : option world :=
  q ← rref w c;
  tc ← tref w (curr q);
  t ← tref w p;
  if negb (on_cpu t) && negb (need_resched tc) && (1 <? nr_cpus_allowed t) && dl_task tc &&
     ((nr_cpus_allowed tc <? 2) || negb (dl_entity_preempt (dl t) (dl tc)))
  then push_dl_tasks w this c
  else Some w.

(** *** Timers *)

(** [dest] is the CPU [find_lock_later_rq] finds, or the fallback when it finds
    none. *)
Definition dl_task_offline_migration (w : world) (c p dest : Z) : option world :=
  t ← tref w p;
  q ← rref w c;
  qd ← rref w dest;
  w ← (if dl_non_contending (dl t) || dl_throttled (dl t) then
         w ← sub_running_bw w p c;
         w ← sub_rq_bw w p c;
         w ← add_rq_bw w p dest;
         add_running_bw w p dest
       else
         w ← sub_rq_bw w p c;
         add_rq_bw w p dest);
  d ← dref w (rd q);
  dd ← dref w (rd qd);
  w ← __dl_sub w (rd q) (dl_bw (dl t)) (Z.of_nat (length (mask_bits (nr_cpu_ids w) (span d))));
  w ← __dl_add w (rd qd) (dl_bw (dl t)) (Z.of_nat (length (mask_bits (nr_cpu_ids w) (span dd))));
  set_task_cpu w p dest (clock q, clock_task q).

(** [ck] is the clock of the run queue of the task, [ckd] that of [dest]. *)
Definition dl_task_timer (w : world) (this p : Z) (ck : Z * Z) (dest : Z) (ckd : Z * Z)
  : option world :=
  t ← tref w p;
  let c := cpu t in
  w ← (if negb (dl_task t) then Some w
       else if is_dl_boosted p (dl t) then Some w
       else if negb (dl_throttled (dl t)) then Some w
       else
         w ← update_rq_clock w c ck;
         if negb (task_on_rq_queued t) then
           pi ← pi_of w (dl t);
           e ← replenish_dl_entity pi (fst ck) (dl t);
           on_dl w p (fun _ => e)
         else
           q ← rref w c;
           '(w, c) ← (if online q then Some (w, c)
                      else
                        w ← dl_task_offline_migration w c p dest;
                        w ← update_rq_clock w dest ckd;
                        Some (w, dest));
           w ← enqueue_task_dl w c p ENQUEUE_REPLENISH;
           q ← rref w c;
           tc ← tref w (curr q);
           w ← (if dl_task tc then check_preempt_curr_dl w c p else resched_curr w c);
           q ← rref w c;
           if has_pushable_dl_tasks q then '(w, _) ← push_dl_task w this c; Some w else Some w);
  on_task w p put_task_struct.

Definition inactive_task_timer (w : world) (p : Z) (ck : Z * Z) : option world :=
  t ← tref w p;
  let c := cpu t in
  q ← rref w c;
  w ← update_rq_clock w c ck;
  w ← (if negb (dl_task t) || (state t =? TASK_DEAD) then
         w ← (if (state t =? TASK_DEAD) && dl_non_contending (dl t) then
                w ← sub_running_bw w p c;
                w ← sub_rq_bw w p c;
                on_dl w p (set_non_contending false)
              else Some w);
         cpus ← dl_bw_cpus w c;
         w ← __dl_sub w (rd q) (dl_bw (dl t)) cpus;
         on_dl w p (__dl_clear_params p)
       else if dl_non_contending (dl t) then
         w ← sub_running_bw w p c;
         on_dl w p (set_non_contending false)
       else Some w);
  on_task w p put_task_struct.

(** *** Changes of class *)

Definition switched_from_dl (w : world) (c p : Z) : option world :=
  t ← tref w p;
  w ← (if task_on_rq_queued t && negb (dl_runtime (dl t) =? 0) then task_non_contending w p
       else Some w);
  t ← tref w p;
  w ← (if negb (task_on_rq_queued t) then
         w ← (if dl_non_contending (dl t) then sub_running_bw w p c else Some w);
         sub_rq_bw w p c
       else Some w);
  w ← (if dl_non_contending (dl t) then on_dl w p (set_non_contending false) else Some w);
  q ← rref w c;
  if negb (task_on_rq_queued t) || negb (dl_nr_running (dlq q) =? 0) then Some w
  else deadline_queue_pull_task w c.

Definition switched_to_dl (w : world) (c p : Z) : option world :=
  w ← on_task w p cancel_inactive;
  t ← tref w p;
  if negb (task_on_rq_queued t) then add_rq_bw w p c
  else
    q ← rref w c;
    if negb (curr q =? p) then
      w ← (if (1 <? nr_cpus_allowed t) && overloaded (dlq q) then deadline_queue_push_tasks w c
           else Some w);
      tc ← tref w (curr q);
      if dl_task tc then check_preempt_curr_dl w c p else resched_curr w c
    else Some w.

Definition prio_changed_dl (w : world) (c p : Z) : option world :=
  t ← tref w p;
  if negb (task_on_rq_queued t) then Some w
  else
    q ← rref w c;
    w ← (if overloaded (dlq q) then Some w else deadline_queue_pull_task w c);
    if curr q =? p then
      if dl_time_before (earliest_curr (dlq q)) (deadline (dl t)) then resched_curr w c else Some w
    else
      tc ← tref w (curr q);
      if negb (dl_task tc) || dl_time_before (deadline (dl t)) (deadline (dl tc))
      then resched_curr w c else Some w.

(** *** Admission control *)

(** The return value is zero when the task may take its new parameters. *)
Definition sched_dl_overflow (w : world) (p policy : Z) (attr : sched_attr)
  : option (world * Z) :=
  t ← tref w p;
  let period := elvis (sched_period attr) (sched_deadline attr) in
  let new_bw := if dl_policy policy then to_ratio period (sched_runtime attr) else 0 in
  let c := cpu t in
  q ← rref w c;
  d ← dref w (rd q);
  if has (sched_flags attr) SCHED_FLAG_SUGOV then Some (w, 0)
  else if (new_bw =? dl_bw (dl t)) && task_has_dl_policy t then Some (w, 0)
  else
    cpus ← dl_bw_cpus w c;
    cap ← dl_bw_capacity w c;
    if dl_policy policy && negb (task_has_dl_policy t) && negb (__dl_overflow d cap 0 new_bw) then
      w ← (if hrtimer_active (inactive_timer t) then __dl_sub w (rd q) (dl_bw (dl t)) cpus
           else Some w);
      w ← __dl_add w (rd q) new_bw cpus;
      Some (w, 0)
    else if dl_policy policy && task_has_dl_policy t &&
            negb (__dl_overflow d cap (dl_bw (dl t)) new_bw) then
      w ← __dl_sub w (rd q) (dl_bw (dl t)) cpus;
      w ← __dl_add w (rd q) new_bw cpus;
      w ← dl_change_utilization w p new_bw;
      Some (w, 0)
    else if negb (dl_policy policy) && task_has_dl_policy t then Some (w, 0)
    else Some (w, -1).

Definition init_dl_bw (w : world) : Z * Z :=
  (if global_rt_runtime w =? RUNTIME_INF then U64_MAX
   else to_ratio (global_rt_period w) (global_rt_runtime w), 0).

Definition init_dl_rq_bw_ratio (w : world) (q : dl_rq) : dl_rq :=
  if global_rt_runtime w =? RUNTIME_INF then
    q_extra_bw (Z.shiftl 1 BW_SHIFT) (q_max_bw (Z.shiftl 1 BW_SHIFT)
      (q_bw_ratio (Z.shiftl 1 RATIO_SHIFT) q))
  else
    let bw := to_ratio (global_rt_period w) (global_rt_runtime w) in
    q_extra_bw bw (q_max_bw bw
      (q_bw_ratio (Z.shiftr (to_ratio (global_rt_runtime w) (global_rt_period w))
                     (BW_SHIFT - RATIO_SHIFT)) q)).

Definition init_dl_rq (w : world) (q : dl_rq) : dl_rq :=
  let q := q_earliest_next 0 (q_earliest_curr 0 (q_root RB_ROOT_CACHED q)) in
  let q := q_pushable_dl_tasks_root RB_ROOT_CACHED (q_overloaded false (q_dl_nr_migratory 0 q)) in
  init_dl_rq_bw_ratio w (q_this_bw 0 (q_running_bw 0 q)).

(** The loops over the CPUs visit a root domain once: [seen] are the domains whose
    [visit_gen] is current. *)
Fixpoint validate_cpus (w : world) (new_bw : Z) (cpus seen : list Z) : option Z :=
  match cpus with
  | [] => Some 0
  | c :: cpus =>
      q ← rref w c;
      if bool_decide (rd q ∈ seen) then validate_cpus w new_bw cpus seen
      else
        d ← dref w (rd q);
        n ← dl_bw_cpus w c;
        if (new_bw *u64 n) <? total_bw d then Some (- EBUSY)
        else validate_cpus w new_bw cpus (rd q :: seen)
  end.

Definition sched_dl_global_validate (w : world) : option Z :=
  validate_cpus w (to_ratio (global_rt_period w) (global_rt_runtime w))
    (seqZ 0 (nr_cpu_ids w)) [].

Fixpoint do_global_cpus (w : world) (new_bw : Z) (cpus seen : list Z) : option world :=
  match cpus with
  | [] => Some w
  | c :: cpus =>
      q ← rref w c;
      if bool_decide (rd q ∈ seen) then do_global_cpus w new_bw cpus seen
      else
        w ← on_rd w (rd q) (d_dl_b_bw new_bw);
        w ← on_dlq w c (init_dl_rq_bw_ratio w);
        do_global_cpus w new_bw cpus (rd q :: seen)
  end.

Definition sched_dl_do_global (w : world) : option world :=
  let new_bw := if global_rt_runtime w =? RUNTIME_INF then U64_MAX
                else to_ratio (global_rt_period w) (global_rt_runtime w) in
  do_global_cpus w new_bw (seqZ 0 (nr_cpu_ids w)) [].

Definition dl_cpuset_cpumask_can_shrink (w : world) (cur_cpu trial : Z) : option bool :=
  q ← rref w cur_cpu; d ← dref w (rd q);
  Some (negb (__dl_overflow d (__dl_bw_capacity w trial) 0 0)).

Inductive dl_bw_request := dl_bw_req_check_overflow | dl_bw_req_alloc | dl_bw_req_free.

Definition dl_bw_manage (w : world) (req : dl_bw_request) (c bw : Z) : option (world * Z) :=
  q ← rref w c; d ← dref w (rd q);
  cpus ← dl_bw_cpus w c;
  match req with
  | dl_bw_req_free => w ← __dl_sub w (rd q) bw cpus; Some (w, 0)
  | _ =>
      cap ← dl_bw_capacity w c;
      let overflow := __dl_overflow d cap 0 bw in
      w ← match req with
          | dl_bw_req_alloc => if overflow then Some w else __dl_add w (rd q) bw cpus
          | _ => Some w
          end;
      Some (w, if overflow then - EBUSY else 0)
  end.

Definition dl_add_task_root_domain (w : world) (p : Z) : option world :=
  t ← tref w p;
  if negb (dl_task t) then Some w
  else
    q ← rref w (cpu t); d ← dref w (rd q);
    __dl_add w (rd q) (dl_bw (dl t)) (Z.of_nat (length (mask_bits (nr_cpu_ids w) (span d)))).

Definition dl_clear_root_domain (w : world) (d : Z) : option world := on_rd w d (d_total_bw 0).

Definition set_cpus_allowed_common (w : world) (p new_mask : Z) : option world :=
  on_task w p (fun t => t_nr_cpus_allowed (Z.of_nat (length (mask_bits (nr_cpu_ids w) new_mask)))
                          (t_cpus_mask new_mask t)).

Definition set_cpus_allowed_dl (w : world) (p new_mask : Z) : option world :=
  t ← tref w p;
  q ← rref w (cpu t);
  d ← dref w (rd q);
  w ← (if mask_empty (mask_and (span d) new_mask) then
         cpus ← dl_bw_cpus w (cpu t); __dl_sub w (rd q) (dl_bw (dl t)) cpus
       else Some w);
  set_cpus_allowed_common w p new_mask.

Definition rq_online_dl (w : world) (c : Z) : option world :=
  q ← rref w c;
  w ← (if overloaded (dlq q) then dl_set_overload w c else Some w);
  w ← on_cpudl w c (fun h => Some (Cpudl.cpudl_set_freecpu h c));
  if 0 <? dl_nr_running (dlq q)
  then on_cpudl w c (fun h => Cpudl.cpudl_set h c (earliest_curr (dlq q))) else Some w.

Definition rq_offline_dl (w : world) (c : Z) : option world :=
  q ← rref w c;
  w ← (if overloaded (dlq q) then dl_clear_overload w c else Some w);
  w ← on_cpudl w c (fun h => Cpudl.cpudl_clear h c);
  on_cpudl w c (fun h => Some (Cpudl.cpudl_clear_freecpu h c)).

(** *** The core scheduler *)

(** [__do_set_cpus_allowed] with a new mask; the other classes only store it. *)
Definition __do_set_cpus_allowed (w : world) (p new_mask : Z) : option world :=
  t ← tref w p;
  let c := cpu t in
  q ← rref w c;
  let queued := task_on_rq_queued t in
  let running := curr q =? p in
  w ← (if queued then dequeue_task w c p (Z.lor DEQUEUE_SAVE DEQUEUE_NOCLOCK) else Some w);
  w ← (if running then put_prev_task w c p else Some w);
  w ← (if dl_task t then set_cpus_allowed_dl w p new_mask
       else set_cpus_allowed_common w p new_mask);
  w ← (if queued then enqueue_task w c p (Z.lor ENQUEUE_RESTORE ENQUEUE_NOCLOCK) else Some w);
  if running then set_next_task w c p else Some w.

(** [try_to_wake_up] of a blocked task onto [new_cpu]; [this] is the waking CPU,
    [ck0] and [ck] are the clocks of the old and the new run queue. *)
Definition try_to_wake_up (w : world) (this p new_cpu : Z) (ck0 ck : Z * Z) : option world :=
  w ← on_task w p (t_state TASK_WAKING);
  t ← tref w p;
  let migrated := negb (cpu t =? new_cpu) in
  w ← (if migrated then set_task_cpu w p new_cpu ck0 else Some w);
  w ← update_rq_clock w new_cpu ck;
  let en_flags := Z.lor ENQUEUE_WAKEUP ENQUEUE_NOCLOCK in
  w ← activate_task w new_cpu p (if migrated then Z.lor en_flags ENQUEUE_MIGRATED else en_flags);
  w ← check_preempt_curr w new_cpu p;
  w ← on_task w p (t_state TASK_RUNNING);
  if dl_task t then task_woken_dl w this new_cpu p else Some w.

(** [__schedule] takes the current task, which has set [state], off the queue. *)
Definition block_current (w : world) (c st : Z) (ck : Z * Z) : option world :=
  q ← rref w c;
  w ← on_task w (curr q) (t_state st);
  w ← update_rq_clock w c ck;
  deactivate_task w c (curr q) (Z.lor DEQUEUE_SLEEP DEQUEUE_NOCLOCK).

(** The rest of [__schedule], after the classes have balanced: the previous task is put
    back and the deadline class, or another one with task [other], provides the next. *)
Definition schedule_next (w : world) (c other : Z) : option world :=
  q ← rref w c;
  w ← put_prev_task w c (curr q);
  '(w, r) ← pick_next_task_dl w c;
  let next := match r with Some p => p | None => other end in
  w ← on_task w (curr q) (t_need_resched false);
  w ← on_task w (curr q) (t_on_cpu false);
  w ← on_task w next (t_on_cpu true);
  on_rq_of w c (r_curr next).

(** What the checks outside the model answer: permissions, the security module,
    the utilization clamps, and the priority of the top waiter that boosts the
    task. *)
Record checks := mk_checks {
  user_check : Z;
  security_check : Z;
  uclamp_check : Z;
  pi_prio : option Z
}.

Definition rt_effective_prio (ch : checks) (prio : Z) : Z :=
  match pi_prio ch with Some pp => Z.min pp prio | None => prio end.

Definition __normal_prio (policy rt_prio nice : Z) : Z :=
  if dl_policy policy then MAX_DL_PRIO - 1
  else if rt_policy policy then MAX_RT_PRIO - 1 - rt_prio
  else NICE_TO_PRIO nice.

Definition __setscheduler_params (attr : sched_attr) (p : Z) (t : task) : task :=
  let policy' := if sched_policy attr =? SETPARAM_POLICY then policy t else sched_policy attr in
  let t := t_policy policy' t in
  let t := if dl_policy policy' then t_dl (__setparam_dl attr (dl t)) t
           else if fair_policy policy' then t_static_prio (NICE_TO_PRIO (sched_nice attr)) t
           else t in
  let t := t_rt_priority (sched_priority attr) t in
  t_normal_prio (__normal_prio (policy t) (rt_priority t) (PRIO_TO_NICE (static_prio t))) t.

(** The errors found before the run queue is locked. *)
Definition setscheduler_invalid (w : world) (attr : sched_attr) (user : bool) (ch : checks)
  (policy : Z) : Z :=
  if (0 <=? sched_policy attr) && negb (valid_policy policy) then - EINVAL
  else if negb (Z.ldiff (sched_flags attr) (Z.lor SCHED_FLAG_ALL SCHED_FLAG_SUGOV) =? 0)
  then - EINVAL
  else if MAX_RT_PRIO - 1 <? sched_priority attr then - EINVAL
  else if (dl_policy policy &&
           negb (__checkparam_dl (sysctl_sched_dl_period_max w) (sysctl_sched_dl_period_min w) attr)) ||
          negb (Bool.eqb (rt_policy policy) (negb (sched_priority attr =? 0)))
  then - EINVAL
  else if user && negb (user_check ch =? 0) then user_check ch
  else if user && has (sched_flags attr) SCHED_FLAG_SUGOV then - EINVAL
  else if user && negb (security_check ch =? 0) then security_check ch
  else if has (sched_flags attr) SCHED_FLAG_UTIL_CLAMP then uclamp_check ch
  else 0.

(** Whether the call leaves the task as it is. *)
Definition setscheduler_unchanged (t : task) (attr : sched_attr) (policy' : Z) : bool :=
  (policy' =? policy t) &&
  negb ((fair_policy policy' && negb (sched_nice attr =? PRIO_TO_NICE (static_prio t))) ||
        (rt_policy policy' && negb (sched_priority attr =? rt_priority t)) ||
        (dl_policy policy' && dl_param_changed (dl t) attr) ||
        has (sched_flags attr) SCHED_FLAG_UTIL_CLAMP).

Definition dl_bandwidth_enabled (w : world) : bool := 0 <=? sysctl_sched_rt_runtime w.

(** A task whose affinity does not cover its root domain may not become a deadline
    task. *)
Definition setscheduler_forbidden (w : world) (t : task) (d : root_domain) (attr : sched_attr)
  (policy' : Z) : bool :=
  dl_bandwidth_enabled w && dl_policy policy' && negb (has (sched_flags attr) SCHED_FLAG_SUGOV) &&
  (negb (mask_and (span d) (cpus_mask t) =? span d) || (dl_b_bw d =? 0)).

(** [check_class_changed] as far as the deadline class is concerned. *)
Definition check_class_changed (w : world) (c p : Z) (was_dl : bool) (oldprio : Z) : option world :=
  t ← tref w p;
  if was_dl then
    if dl_task t then prio_changed_dl w c p else switched_from_dl w c p
  else if dl_task t then switched_to_dl w c p
  else Some w.

(** The change itself, once admitted. *)
Definition setscheduler_commit (w : world) (c p : Z) (attr : sched_attr) (newprio : Z)
  : option world :=
  t ← tref w p;
  q ← rref w c;
  let oldprio := prio t in
  let queue_flags := Z.lor (Z.lor DEQUEUE_SAVE (if newprio =? oldprio then 0 else DEQUEUE_MOVE))
                       DEQUEUE_NOCLOCK in
  let queued := task_on_rq_queued t in
  let running := curr q =? p in
  w ← (if queued then dequeue_task w c p queue_flags else Some w);
  w ← (if running then put_prev_task w c p else Some w);
  w ← (if has (sched_flags attr) SCHED_FLAG_KEEP_PARAMS then Some w
       else on_task w p (fun t => t_prio newprio (__setscheduler_params attr p t)));
  t' ← tref w p;
  w ← (if queued then
         enqueue_task w c p (if oldprio <? prio t' then Z.lor queue_flags ENQUEUE_HEAD else queue_flags)
       else Some w);
  w ← (if running then set_next_task w c p else Some w);
  check_class_changed w c p (dl_task t) oldprio.

(** [__sched_setscheduler] with [pi] set; the balance callbacks it leaves are run by
    the caller of the model.  The result is the new world and the return value. *)
Definition __sched_setscheduler (w : world) (p : Z) (attr : sched_attr) (user : bool) (ch : checks)
  (ck : Z * Z) : option (world * Z) :=
  t ← tref w p;
  let policy' := if sched_policy attr <? 0 then policy t else sched_policy attr in
  let err := setscheduler_invalid w attr user ch policy' in
  if negb (err =? 0) then Some (w, err)
  else
    let c := cpu t in
    w ← update_rq_clock w c ck;
    q ← rref w c;
    d ← dref w (rd q);
    if p =? stop q then Some (w, - EINVAL)
    else if setscheduler_unchanged t attr policy' then Some (w, 0)
    else if user && setscheduler_forbidden w t d attr policy' then Some (w, - EPERM)
    else
      '(w, over) ← (if dl_policy policy' || dl_task t then sched_dl_overflow w p policy' attr
                    else Some (w, 0));
      if negb (over =? 0) then Some (w, - EBUSY)
      else
        let newprio := rt_effective_prio ch
                         (__normal_prio policy' (sched_priority attr) (sched_nice attr)) in
        w ← setscheduler_commit w c p attr newprio;
        Some (w, 0).

End Class.
End Deadline.
