(* ===== verification/DeadlineBw.v ===== *)
(** The bandwidth accounting of the deadline class.

    Every run queue keeps two sums for the GRUB algorithm: [this_bw], the bandwidth
    of the deadline tasks that belong to it, and [running_bw], the bandwidth of
    those that are active: queued (throttled or not), or blocked with their
    inactive timer pending.  The sums are maintained by increments scattered over
    the class and the core scheduler.  The file proves that they are exact in every
    reachable world, together with the membership of the two trees of a run queue. *)

From Stdlib Require Import ZArith Lia List.
From stdpp Require Import base list numbers option.
From S2P Require Import Prelude RbTree Cpudl Cpupri Cbs Deadline.

Module DeadlineBw.
Export Deadline.
Import RbTree(rb_root_cached, rb_root, rb_leftmost, inorder).

Section Accounting.
Context {pf : Platform}.

(** *** What a task contributes *)

(** Where a task is charged and queued: the run queue whose tree holds it, the one
    that has it as pushable, and its contributions to the two sums, each with the
    CPU and the amount. *)
Record place := mk_place {
  pl_root : option Z;
  pl_push : option Z;
  pl_this : option (Z * Z);
  pl_run : option (Z * Z)
}.

Definition counted (t : task) : bool := dl_task t && negb (dl_entity_is_special (dl t)).
Definition active (t : task) : bool := task_on_rq_queued t || dl_non_contending (dl t).

(** A contribution of zero is none. *)
Definition stake (c b : Z) : option (Z * Z) := if b =? 0 then None else Some (c, b).

Definition place_of (t : task) : place :=
  mk_place (if on_tree (dl t) then Some (cpu t) else None)
    (if pushable t then Some (cpu t) else None)
    (if counted t then stake (cpu t) (dl_bw (dl t)) else None)
    (if counted t && active t then stake (cpu t) (dl_bw (dl t)) else None).

(** The amount charged to CPU [c]. *)
Definition charged (c : Z) (o : option (Z * Z)) : Z :=
  match o with Some (c', b) => if c' =? c then b else 0 | None => 0 end.

Definition bounded (o : option (Z * Z)) : Prop :=
  match o with Some (_, b) => 0 <= b <= 2 ^ 20 | None => True end.

(** The entries of a tree in order, and the cached one. *)
Definition view (t : rb_root_cached Z unit) : list Z * option Z := (inorder (rb_root t), rb_leftmost t).

(** A tree of CPU [c] holds exactly the tasks placed there, and caches the first. *)
Definition listing (v : list Z * option Z) (sel : place -> option Z) (c : Z) (g : list place) : Prop :=
  NoDup (fst v) /\ snd v = head (fst v) /\
  forall p, p ∈ fst v <-> exists x, aref g p = Some x /\ sel x = Some c.

Record rq_agrees (g : list place) (c : Z) (q : dl_rq) : Prop := mk_rq_agrees {
  ra_this : this_bw q = zsum (fun x => charged c (pl_this x)) g;
  ra_run : running_bw q = zsum (fun x => charged c (pl_run x)) g;
  ra_root : listing (view (root q)) pl_root c g;
  ra_push : listing (view (pushable_dl_tasks_root q)) pl_push c g
}.

(** The run queues agree with the places [g]; a current task that is queued is
    queued on its own CPU. *)
Record queues_agree (qs : list rq) (g : list place) : Prop := mk_queues_agree {
  qa_len : Z.of_nat (length g) <= 2 ^ 40;
  qa_bound : Forall (fun x => bounded (pl_this x) /\ bounded (pl_run x)) g;
  qa_rq : forall c q, aref qs c = Some q -> rq_agrees g c (dlq q);
  qa_curr : forall c q x c', aref qs c = Some q -> aref g (curr q) = Some x ->
    pl_root x = Some c' -> c' = c
}.

(** What holds of a task between two operations.  [dl_prio] of both priorities and
    the policy coincide for a task nobody boosts. *)
Record task_ok (t : task) : Prop := mk_task_ok {
  to_bw : 0 <= dl_bw (dl t) <= 2 ^ 20;
  to_on_rq : on_rq t = 0 \/ on_rq t = TASK_ON_RQ_QUEUED;
  to_nc : dl_non_contending (dl t) = true -> on_rq t = 0 /\ counted t = true;
  to_zero : dl_runtime (dl t) = 0 -> dl_bw (dl t) = 0 /\ dl_non_contending (dl t) = false;
  to_prio : dl_prio (normal_prio t) = dl_task t;
  to_policy : task_has_dl_policy t = dl_task t;
  to_dead : state t = TASK_DEAD -> on_rq t = 0;
  to_tree : on_tree (dl t) = true -> on_rq t = TASK_ON_RQ_QUEUED /\ dl_task t = true;
  to_push : pushable t = true -> on_tree (dl t) = true;
  to_throttled : dl_throttled (dl t) = true -> on_tree (dl t) = false;
  to_waking : state t <> TASK_WAKING;
  to_gone : state t = TASK_DEAD -> counted t = true -> dl_non_contending (dl t) = false ->
    dl_bw (dl t) = 0;
  to_static : 0 <= static_prio t
}.

(** The tasks outside [E] are where [g] says, and consistent. *)
Definition tasks_agree (ts : list task) (g : list place) (E : list Z) : Prop :=
  length g = length ts /\
  forall i t, aref ts i = Some t -> i ∉ E -> aref g i = Some (place_of t) /\ task_ok t.

Definition holds (w : world) (g : list place) (E : list Z) : Prop :=
  queues_agree (rqs w) g /\ tasks_agree (tasks w) g E.

(** *** Arrays *)

Lemma aref_aset {A} (l l' : list A) i x : aset l i x = Some l' ->
  l' = <[Z.to_nat i := x]> l /\ 0 <= i < Z.of_nat (length l).
Proof.
  unfold aset. destruct (Z.leb_spec 0 i), (Z.ltb_spec i (Z.of_nat (length l))); simpl; intros [= <-]; lia || done.
Qed.

Lemma aref_upd {A} (l : list A) i j x : 0 <= i < Z.of_nat (length l) ->
  aref (<[Z.to_nat i := x]> l) j = if j =? i then Some x else aref l j.
Proof.
  intros Hi. destruct (Z.lt_ge_cases j 0) as [Hj|Hj]; [|by apply aref_insert].
  unfold aref. destruct (Z.leb_spec 0 j); [lia|]. destruct (Z.eqb_spec j i); [lia|done].
Qed.

Lemma aref_nat {A} (l : list A) i x : aref l i = Some x -> l !! Z.to_nat i = Some x.
Proof. unfold aref. by destruct (0 <=? i). Qed.

(** *** Changing the place of one task *)

Lemma listing_keep l sel c g p x y : aref g p = Some x -> (sel y = Some c <-> sel x = Some c) ->
  listing l sel c g -> listing l sel c (<[Z.to_nat p := y]> g).
Proof.
  intros Hx Hs (ND & Hf & H). split; [done|]. split; [done|]. intros i. rewrite H.
  rewrite (aref_upd g p i y) by (by eapply aref_Some_range).
  destruct (Z.eqb_spec i p) as [->|Hne]; [|done]. rewrite Hx.
  split; intros (z & [= <-] & Hz); eexists; (split; [done|]); by apply Hs.
Qed.

Lemma listing_add v v' pre post sel c g p x y : aref g p = Some x -> sel x = None -> sel y = Some c ->
  fst v = pre ++ post -> fst v' = pre ++ p :: post ->
  snd v' = match pre with [] => Some p | _ => snd v end ->
  listing v sel c g -> listing v' sel c (<[Z.to_nat p := y]> g).
Proof.
  intros Hx Hn Hy E E' F (ND & Hf & H).
  assert (Hp : p ∉ fst v) by (rewrite H; intros (z & Hz & Hs); congruence).
  assert (P : fst v' ≡ₚ p :: fst v) by (rewrite E, E'; symmetry; apply Permutation_middle).
  split; [rewrite P; by constructor|]. split.
  { rewrite F, E'. destruct pre; [done|]. by rewrite Hf, E. }
  intros i. rewrite P, elem_of_cons, H.
  rewrite (aref_upd g p i y) by (by eapply aref_Some_range).
  destruct (Z.eqb_spec i p) as [->|Hne]; naive_solver.
Qed.

Lemma listing_erase v v' l1 l2 sel c g p x y : aref g p = Some x -> sel y <> Some c ->
  fst v = l1 ++ p :: l2 -> fst v' = l1 ++ l2 -> (snd v = head (fst v) -> NoDup (fst v) -> snd v' = head (fst v')) ->
  listing v sel c g -> listing v' sel c (<[Z.to_nat p := y]> g).
Proof.
  intros Hx Hy E E' F (ND & Hf & H). specialize (F Hf ND). rewrite E in *.
  apply list.NoDup_app in ND as (N1 & Nd & N2). apply list.NoDup_cons in N2 as [Np N2].
  assert (Hp : p ∉ l1) by (intros Hin; apply (Nd p Hin); by left).
  split; [|split; [done|]].
  { rewrite E'. apply list.NoDup_app. split_and!; [done| |done]. intros i Hi Hi2. apply (Nd i Hi). by right. }
  intros i. rewrite (aref_upd g p i y) by (by eapply aref_Some_range).
  specialize (H i). rewrite elem_of_app, elem_of_cons in H. rewrite E', elem_of_app.
  destruct (Z.eqb_spec i p) as [->|Hne]; naive_solver.
Qed.

(** A change of the run queue of CPU [c] that follows the change of the place of
    [p] from [x] to [y], which concerns that CPU only. *)
Lemma agree_update qs g c q q' p x y :
  queues_agree qs g -> aref qs c = Some q -> aref g p = Some x ->
  bounded (pl_this y) -> bounded (pl_run y) ->
  (forall c', c' <> c -> charged c' (pl_this y) = charged c' (pl_this x) /\
     charged c' (pl_run y) = charged c' (pl_run x) /\
     (pl_root y = Some c' <-> pl_root x = Some c') /\ (pl_push y = Some c' <-> pl_push x = Some c')) ->
  rq_agrees (<[Z.to_nat p := y]> g) c (dlq q') -> curr q' = curr q ->
  (forall c0 q0, aref qs c0 = Some q0 -> curr q0 = p -> pl_root y <> pl_root x -> pl_root y = None \/ pl_root y = Some c0) ->
  queues_agree (<[Z.to_nat c := q']> qs) (<[Z.to_nat p := y]> g).
Proof.
  intros [HL HB HQ HC] Hq Hx B1 B2 Hc Hq' Hcur Hroot. split.
  - by rewrite length_insert.
  - apply Forall_insert; [done|done].
  - intros c' q0. rewrite (aref_upd qs c c' q') by (by eapply aref_Some_range).
    destruct (Z.eqb_spec c' c) as [->|Hne]; [by intros [= <-]|]. intros Hq0.
    destruct (HQ c' q0 Hq0) as [H1 H2 H3 H4]. destruct (Hc c' Hne) as (C1 & C2 & C3 & C4).
    split.
    + rewrite (zsum_insert _ _ _ x) by (by apply aref_nat). rewrite H1. lia.
    + rewrite (zsum_insert _ _ _ x) by (by apply aref_nat). rewrite H2. lia.
    + by eapply listing_keep.
    + by eapply listing_keep.
  - intros c0 q0 z c1. rewrite (aref_upd qs c c0 q') by (by eapply aref_Some_range).
    assert (HC' : forall q1, aref qs c0 = Some q1 -> curr q0 = curr q1 ->
      aref (<[Z.to_nat p:=y]> g) (curr q0) = Some z -> pl_root z = Some c1 -> c1 = c0).
    { intros q1 Hq1 Ec. rewrite aref_upd by (by eapply aref_Some_range).
      destruct (Z.eqb_spec (curr q0) p) as [Ep|_]; [|intros; by eapply (HC c0 q1); rewrite <- ?Ec].
      intros [= <-] Hz. destruct (decide (pl_root y = pl_root x)) as [Er|Er].
      - eapply (HC c0 q1 x); [done|congruence|congruence].
      - destruct (Hroot c0 q1 Hq1 ltac:(congruence) Er); congruence. }
    destruct (Z.eqb_spec c0 c) as [->|Hne]; [intros [= <-]; by apply (HC' q)|intros; by eapply HC'].
Qed.

(** *** Operations that move nothing *)

(** What the accounting reads of a run queue, and the current task. *)
Definition rq_view (q : rq) : Z * Z * (list Z * option Z) * (list Z * option Z) * Z :=
  (this_bw (dlq q), running_bw (dlq q), view (root (dlq q)),
   view (pushable_dl_tasks_root (dlq q)), curr q).

(** The tasks are untouched and every run queue looks the same. *)
Definition quiet (w w' : world) : Prop :=
  tasks w' = tasks w /\ map rq_view (rqs w') = map rq_view (rqs w).

Lemma quiet_refl w : quiet w w.
Proof. done. Qed.

Lemma quiet_trans w1 w2 w3 : quiet w1 w2 -> quiet w2 w3 -> quiet w1 w3.
Proof. intros [H1 H2] [H3 H4]. split; congruence. Qed.

Lemma aref_map {A B} (f : A -> B) l i : aref (map f l) i = f <$> aref l i.
Proof. unfold aref. destruct (0 <=? i); [apply list_lookup_fmap|done]. Qed.

Lemma quiet_rref w w' c q' : quiet w w' -> rref w' c = Some q' ->
  exists q, rref w c = Some q /\ rq_view q' = rq_view q.
Proof.
  intros [_ H] Hq. unfold rref in *.
  assert (E : aref (map rq_view (rqs w')) c = aref (map rq_view (rqs w)) c) by congruence.
  rewrite !aref_map, Hq in E. simpl in E. destruct (aref (rqs w) c) as [q|]; [|done].
  apply (inj Some) in E. eauto.
Qed.

Lemma quiet_holds w w' g E : quiet w w' -> holds w g E -> holds w' g E.
Proof.
  intros Q [[HL HB HQ HC] HT]. pose proof Q as [Ht _]. split; [|by rewrite Ht].
  split; [done..| |].
  - intros c q' Hq'. destruct (quiet_rref w w' c q' Q Hq') as (q & Hq & V).
    destruct (HQ c q Hq) as [A1 A2 A3 A4]. injection V as V1 V2 V3 F3 V4 F4 V5.
    split; unfold view in *; congruence.
  - intros c q' x c' Hq'. destruct (quiet_rref w w' c q' Q Hq') as (q & Hq & V).
    injection V as V1 V2 V3 F3 V4 F4 V5. rewrite V5. by apply HC.
Qed.

Lemma quiet_tref w w' p : quiet w w' -> tref w' p = tref w p.
Proof. intros [H _]. unfold tref. by rewrite H. Qed.

Lemma on_rd_quiet w d f w' : on_rd w d f = Some w' -> quiet w w'.
Proof. unfold on_rd. intros (r & _ & (rs & _ & [= <-])%bind_Some)%bind_Some. done. Qed.

Lemma on_rq_quiet w c f w' : (forall q, rq_view (f q) = rq_view q) ->
  on_rq_of w c f = Some w' -> quiet w w'.
Proof.
  intros Hf. unfold on_rq_of. intros (q & Hq & (qs & Hs & [= <-])%bind_Some)%bind_Some.
  split; [done|]. simpl. apply aref_aset in Hs as [-> Hc]. apply aref_nat in Hq.
  change (map rq_view) with (fmap (M := list) rq_view).
  rewrite list_fmap_insert, Hf, list_insert_id; [done|]. by rewrite list_lookup_fmap, Hq.
Qed.

Lemma on_dlq_quiet w c f w' :
  (forall q, this_bw (f q) = this_bw q /\ running_bw (f q) = running_bw q /\ root (f q) = root q /\
     pushable_dl_tasks_root (f q) = pushable_dl_tasks_root q) ->
  on_dlq w c f = Some w' -> quiet w w'.
Proof.
  intros Hf. apply on_rq_quiet. intros q. unfold rq_view; simpl.
  destruct (Hf (dlq q)) as (-> & -> & -> & ->). done.
Qed.

Create HintDb quiet discriminated.

End Accounting.

(** Binds and branches of an equation [... = Some _]. *)
Ltac unbind :=
  repeat (simpl in *;
  match goal with
  | H : (_ ≫= _) = Some _ |- _ =>
      let x := fresh "v" in let Hx := fresh "Hv" in apply bind_Some in H as (x & Hx & H)
  | H : Some _ = Some _ |- _ => injection H as H; try subst
  | H : None = Some _ |- _ => discriminate H
  | H : (if ?b then _ else _) = Some _ |- _ => let B := fresh "Hb" in destruct b eqn:B
  | H : context [let '(_, _) := ?x in _] |- _ => is_var x; destruct x
  | H : match ?o with Some _ => _ | None => _ end = Some _ |- _ =>
      let B := fresh "Hb" in destruct o eqn:B
  end).

(** A chain of quiet operations, from the last one backwards. *)
Ltac quiet_chain :=
  repeat match goal with
  | |- quiet ?w ?w => apply quiet_refl
  | H : _ = Some ?w' |- quiet _ ?w' =>
      eapply quiet_trans; [|solve [eauto 3 with quiet nocore]]; clear H
  end.

#[export] Hint Resolve on_rd_quiet : quiet.
#[export] Hint Extern 1 (quiet _ _) =>
  (eapply on_rq_quiet; [|eassumption]; intros; reflexivity) : quiet.
#[export] Hint Extern 1 (quiet _ _) =>
  (eapply on_dlq_quiet; [|eassumption]; intros; split_and!; reflexivity) : quiet.

Section Quiet.
Context {pf : Platform}.

Lemma update_rq_clock_quiet w c ck w' : update_rq_clock w c ck = Some w' -> quiet w w'.
Proof. intros H. unfold update_rq_clock in H. quiet_chain. Qed.

Lemma add_extra_bw_quiet cpus bw : forall w w', add_extra_bw w cpus bw = Some w' -> quiet w w'.
Proof.
  induction cpus as [|c cpus IH]; intros w w' H; unbind; [apply quiet_refl|].
  eapply quiet_trans; [|by apply IH]. quiet_chain.
Qed.

Lemma __dl_update_quiet w d bw w' : __dl_update w d bw = Some w' -> quiet w w'.
Proof. unfold __dl_update. intros H. unbind. by eapply add_extra_bw_quiet. Qed.
#[local] Hint Resolve update_rq_clock_quiet __dl_update_quiet : quiet.

Lemma __dl_sub_quiet w d b n w' : __dl_sub w d b n = Some w' -> quiet w w'.
Proof. unfold __dl_sub. intros H. unbind. quiet_chain. Qed.

Lemma __dl_add_quiet w d b n w' : __dl_add w d b n = Some w' -> quiet w w'.
Proof. unfold __dl_add. intros H. unbind. quiet_chain. Qed.

Lemma dl_set_overload_quiet w c w' : dl_set_overload w c = Some w' -> quiet w w'.
Proof. unfold dl_set_overload. intros H. unbind; quiet_chain. Qed.

Lemma dl_clear_overload_quiet w c w' : dl_clear_overload w c = Some w' -> quiet w w'.
Proof. unfold dl_clear_overload. intros H. unbind; quiet_chain. Qed.
#[local] Hint Resolve dl_set_overload_quiet dl_clear_overload_quiet : quiet.

Lemma update_dl_migration_quiet w c w' : update_dl_migration w c = Some w' -> quiet w w'.
Proof. unfold update_dl_migration. intros H. unbind; quiet_chain. Qed.
#[local] Hint Resolve update_dl_migration_quiet : quiet.

Lemma inc_dl_migration_quiet w p c w' : inc_dl_migration w p c = Some w' -> quiet w w'.
Proof. unfold inc_dl_migration. intros H. unbind; quiet_chain. Qed.

Lemma dec_dl_migration_quiet w p c w' : dec_dl_migration w p c = Some w' -> quiet w w'.
Proof. unfold dec_dl_migration. intros H. unbind; quiet_chain. Qed.

Lemma on_cpudl_quiet w c f w' : on_cpudl w c f = Some w' -> quiet w w'.
Proof. unfold on_cpudl. intros H. unbind; quiet_chain. Qed.

Lemma on_cpupri_quiet w c f w' : on_cpupri w c f = Some w' -> quiet w w'.
Proof. unfold on_cpupri. intros H. unbind; quiet_chain. Qed.
#[local] Hint Resolve on_cpudl_quiet on_cpupri_quiet : quiet.

Lemma inc_dl_deadline_quiet w c d w' : inc_dl_deadline w c d = Some w' -> quiet w w'.
Proof. unfold inc_dl_deadline. intros H. unbind; quiet_chain. Qed.

Lemma dec_dl_deadline_quiet w c w' : dec_dl_deadline w c = Some w' -> quiet w w'.
Proof. unfold dec_dl_deadline. intros H. unbind; quiet_chain. Qed.

Lemma add_nr_running_quiet w c n w' : add_nr_running w c n = Some w' -> quiet w w'.
Proof. unfold add_nr_running. intros H. unbind; quiet_chain. Qed.

Lemma sub_nr_running_quiet w c n w' : sub_nr_running w c n = Some w' -> quiet w w'.
Proof. unfold sub_nr_running. intros H. quiet_chain. Qed.
#[local] Hint Resolve inc_dl_migration_quiet dec_dl_migration_quiet inc_dl_deadline_quiet
  dec_dl_deadline_quiet add_nr_running_quiet sub_nr_running_quiet : quiet.

Lemma inc_dl_tasks_quiet w p c w' : inc_dl_tasks w p c = Some w' -> quiet w w'.
Proof. unfold inc_dl_tasks. intros H. unbind; quiet_chain. Qed.

Lemma dec_dl_tasks_quiet w p c w' : dec_dl_tasks w p c = Some w' -> quiet w w'.
Proof. unfold dec_dl_tasks. intros H. unbind; quiet_chain. Qed.

Lemma queue_callback_quiet w c cb w' :
  on_rq_of w c (queue_balance_callback cb) = Some w' -> quiet w w'.
Proof.
  apply on_rq_quiet. intros q. unfold queue_balance_callback. by destruct (_ || _).
Qed.
#[local] Hint Resolve queue_callback_quiet : quiet.

Lemma queue_push_quiet w c w' : deadline_queue_push_tasks w c = Some w' -> quiet w w'.
Proof. unfold deadline_queue_push_tasks. intros H. unbind; quiet_chain. Qed.

Lemma account_rt_time_quiet w c d w' : account_rt_time w c d = Some w' -> quiet w w'.
Proof.
  unfold account_rt_time. intros H. unbind; [quiet_chain|].
  eapply on_rq_quiet; [|done]. intros q. cbv beta. destruct (sched_rt_bandwidth_account q); reflexivity.
Qed.

End Quiet.

#[export] Hint Resolve update_rq_clock_quiet __dl_sub_quiet __dl_add_quiet inc_dl_tasks_quiet
  dec_dl_tasks_quiet queue_callback_quiet queue_push_quiet account_rt_time_quiet on_cpudl_quiet
  dl_set_overload_quiet dl_clear_overload_quiet : quiet.

Section Steps.
Context {pf : Platform}.

(** *** Operations on one task *)

(** What the accounting reads of a task. *)
Definition core (t : task) :=
  (cpu t, prio t, policy t, normal_prio t, on_rq t, state t, pushable t,
   (flags (dl t), dl_bw (dl t), dl_runtime (dl t), dl_non_contending (dl t), on_tree (dl t),
    dl_throttled (dl t), static_prio t)).

Lemma core_place t t' : core t' = core t -> place_of t' = place_of t.
Proof.
  unfold core. intros [= H1 H2 H3 H4 H5 H6 H7 H8 H9 H10 H11 H12 H13 H14].
  unfold place_of, counted, active, dl_task, dl_entity_is_special, task_on_rq_queued.
  by rewrite H1, H2, H5, H7, H8, H9, H11, H12.
Qed.

Lemma core_ok t t' : core t' = core t -> task_ok t -> task_ok t'.
Proof.
  unfold core. intros [= H1 H2 H3 H4 H5 H6 H7 H8 H9 H10 H11 H12 H13 H14] [].
  split; unfold counted, dl_task, dl_entity_is_special, task_has_dl_policy in *;
    by rewrite ?H2, ?H3, ?H4, ?H5, ?H6, ?H7, ?H8, ?H9, ?H10, ?H11, ?H12, ?H13, ?H14.
Qed.

(** No task and no run queue changes as far as the accounting is concerned. *)
Definition calm (w w' : world) : Prop :=
  map core (tasks w') = map core (tasks w) /\ map rq_view (rqs w') = map rq_view (rqs w).

Lemma calm_refl w : calm w w.
Proof. done. Qed.

Lemma calm_trans w1 w2 w3 : calm w1 w2 -> calm w2 w3 -> calm w1 w3.
Proof. intros [H1 H2] [H3 H4]. split; congruence. Qed.

Lemma quiet_calm w w' : quiet w w' -> calm w w'.
Proof. intros [H1 H2]. split; [by rewrite H1|done]. Qed.

(** Only task [p] and its place may have changed, and no current task. *)
Definition only (p : Z) (w : world) (g : list place) (w' : world) (g' : list place) : Prop :=
  (forall i t, i <> p -> tref w i = Some t -> exists t', tref w' i = Some t' /\ core t' = core t) /\
  (forall c, curr <$> rref w' c = curr <$> rref w c) /\
  (forall i, i <> p -> aref g' i = aref g i) /\
  length (tasks w') = length (tasks w).

Lemma only_refl p w g : only p w g w g.
Proof. split_and!; eauto. Qed.

Lemma only_trans p w1 g1 w2 g2 w3 g3 :
  only p w1 g1 w2 g2 -> only p w2 g2 w3 g3 -> only p w1 g1 w3 g3.
Proof.
  intros (H1 & C1 & G1 & L1) (H2 & C2 & G2 & L2). split_and!; [|intros; by rewrite C2, C1| |congruence].
  - intros i t Hi Ht. destruct (H1 i t Hi Ht) as (t1 & Ht1 & E1).
    destruct (H2 i t1 Hi Ht1) as (t2 & Ht2 & E2). exists t2. split; congruence.
  - intros i Hi. by rewrite G2, G1.
Qed.

Lemma map_aref {A B} (f : A -> B) l l' i x : map f l' = map f l -> aref l i = Some x ->
  exists x', aref l' i = Some x' /\ f x' = f x.
Proof.
  intros H Hx. assert (E : aref (map f l') i = aref (map f l) i) by congruence.
  rewrite !aref_map, Hx in E. destruct (aref l' i) as [x'|]; [|done]. injection E as E. eauto.
Qed.

Lemma calm_only p w w' g : calm w w' -> only p w g w' g.
Proof.
  intros [Ht Hq]. split_and!; [intros i t _; by apply map_aref| |done|].
  2:{ apply (f_equal length) in Ht. by rewrite !length_map in Ht. }
  intros c. assert (E : aref (map rq_view (rqs w')) c = aref (map rq_view (rqs w)) c) by congruence.
  rewrite !aref_map in E. unfold rref.
  destruct (aref (rqs w') c), (aref (rqs w) c); try done. simpl in *.
  unfold rq_view in E. congruence.
Qed.

Lemma calm_tasks ts ts' g E : map core ts' = map core ts ->
  tasks_agree ts g E -> tasks_agree ts' g E.
Proof.
  intros Ht [HL HT]. split; [rewrite HL; apply (f_equal length) in Ht; by rewrite !length_map in Ht|].
  intros i t Hi HE. destruct (map_aref core _ _ i t (eq_sym Ht) Hi) as (t0 & H0 & Ec).
  destruct (HT i t0 H0 HE) as [H1 H2]. rewrite (core_place t0 t); [|done].
  split; [done|]. by eapply core_ok.
Qed.

Lemma calm_holds w w' g E : calm w w' -> holds w g E -> holds w' g E.
Proof.
  intros [Ht Hq] [HQ HT]. pose proof (calm_tasks _ _ _ _ Ht HT) as HT'. split; [|done].
  by apply (quiet_holds (w_rqs (rqs w) w') w' g E).
Qed.

(** Task [p] is being worked on: it is [t], placed at [x]. *)
Record at_work (w : world) (g : list place) (E : list Z) (p : Z) (t : task) (x : place) : Prop := {
  aw_holds : holds w g E;
  aw_exempt : p ∈ E;
  aw_task : tref w p = Some t;
  aw_place : aref g p = Some x
}.

Lemma work_calm w w' g E p t x : at_work w g E p t x -> calm w w' ->
  exists t', at_work w' g E p t' x /\ core t' = core t.
Proof.
  intros [H He Ht Hx] C. destruct (map_aref core _ _ p t (proj1 C) Ht) as (t' & Ht' & Ec).
  exists t'. split; [|done]. split; [by eapply calm_holds|done..].
Qed.

Lemma work_task w w' g E p t x f : at_work w g E p t x -> on_task w p f = Some w' ->
  at_work w' g E p (f t) x /\ only p w g w' g.
Proof.
  intros [[HQ [HL HT]] He Ht Hx] H. unfold on_task in H. rewrite Ht in H. unbind.
  apply aref_aset in Hv as [-> Hp]. split.
  - split; [|done| |done].
    + split; [done|]. simpl. split; [by rewrite length_insert|]. intros i t0.
      rewrite aref_upd by done. destruct (Z.eqb_spec i p) as [->|]; [|apply HT]. done.
    + unfold tref; simpl. rewrite aref_upd by done. by rewrite Z.eqb_refl.
  - split_and!; [|done|done|by simpl; rewrite length_insert].
    intros i t0 Hi H0. unfold tref in *; simpl. rewrite aref_upd by done.
    destruct (Z.eqb_spec i p); [done|]. eauto.
Qed.

(** A change of the queue of CPU [c] together with the place of [p]. *)
Lemma work_rq w w' g E p t x c f y : at_work w g E p t x -> on_dlq w c f = Some w' ->
  bounded (pl_this y) -> bounded (pl_run y) ->
  (forall c', c' <> c -> charged c' (pl_this y) = charged c' (pl_this x) /\
     charged c' (pl_run y) = charged c' (pl_run x) /\
     (pl_root y = Some c' <-> pl_root x = Some c') /\ (pl_push y = Some c' <-> pl_push x = Some c')) ->
  (forall q, rref w c = Some q -> rq_agrees g c (dlq q) ->
     rq_agrees (<[Z.to_nat p := y]> g) c (f (dlq q))) ->
  (forall c0 q0, rref w c0 = Some q0 -> curr q0 = p -> pl_root y <> pl_root x ->
     pl_root y = None \/ pl_root y = Some c0) ->
  exists g', at_work w' g' E p t y /\ only p w g w' g'.
Proof.
  intros [[HQ [HL HT]] He Ht Hx] H B1 B2 Hc Hf Hroot. exists (<[Z.to_nat p := y]> g). unfold on_dlq, on_rq_of in H. unbind.
  apply aref_aset in Hv0 as [-> Hcr]. pose proof (aref_Some_range g p x Hx) as Hp. split.
  - split; [|done|done|by rewrite aref_upd, Z.eqb_refl by done]. split; simpl.
    + eapply agree_update; [done..| |done|done]. apply Hf; [done|]. by apply (qa_rq _ _ HQ).
    + split; [by rewrite length_insert|]. intros i t0 Hi HE. rewrite aref_upd by done.
      destruct (Z.eqb_spec i p) as [->|]; [done|]. by apply HT.
  - split_and!; [eauto| | |done].
    + intros c'. unfold rref in *; simpl. rewrite aref_upd by done.
      destruct (Z.eqb_spec c' c) as [->|]; [|done]. by rewrite Hv.
    + intros i Hi. rewrite aref_upd by done. by destruct (Z.eqb_spec i p).
Qed.

(** *** Charging *)

Definition x_root (v : option Z) (x : place) := mk_place v (pl_push x) (pl_this x) (pl_run x).
Definition x_push (v : option Z) (x : place) := mk_place (pl_root x) v (pl_this x) (pl_run x).
Definition x_this (v : option (Z * Z)) (x : place) := mk_place (pl_root x) (pl_push x) v (pl_run x).
Definition x_run (v : option (Z * Z)) (x : place) := mk_place (pl_root x) (pl_push x) (pl_this x) v.

Lemma sum_bound (sel : place -> option (Z * Z)) c g :
  Forall (fun x => bounded (sel x)) g -> Z.of_nat (length g) <= 2 ^ 40 ->
  0 <= zsum (fun x => charged c (sel x)) g <= 2 ^ 60.
Proof.
  intros HB HL. enough (0 <= zsum (fun x => charged c (sel x)) g <= Z.of_nat (length g) * 2 ^ 20) by lia.
  clear HL. induction HB as [|x g Hx HB IH]; simpl; [done|].
  enough (0 <= charged c (sel x) <= 2 ^ 20) by lia.
  unfold charged, bounded in *. destruct (sel x) as [[c' b]|]; [|lia]. destruct (_ =? _); lia.
Qed.

Lemma charged_le (sel : place -> option (Z * Z)) c g p x :
  Forall (fun x => bounded (sel x)) g -> aref g p = Some x ->
  charged c (sel x) <= zsum (fun x => charged c (sel x)) g.
Proof.
  intros HB Hx. apply (zsum_ge (fun x => charged c (sel x))).
  - intros y Hy. rewrite Forall_elem in HB. specialize (HB y Hy). simpl in HB.
    unfold charged, bounded in *. destruct (sel y) as [[c' b]|]; [|lia]. destruct (_ =? _); lia.
  - apply list_elem_of_lookup. eexists. by apply aref_nat.
Qed.

Lemma qa_this_bound qs g : queues_agree qs g -> Forall (fun x => bounded (pl_this x)) g.
Proof. intros [_ H _]. eapply Forall_impl; [|exact H]. by intros x []. Qed.

Lemma qa_run_bound qs g : queues_agree qs g -> Forall (fun x => bounded (pl_run x)) g.
Proof. intros [_ H _]. eapply Forall_impl; [|exact H]. by intros x []. Qed.

Lemma listing_stay l sel c g p x y : aref g p = Some x -> sel y = sel x ->
  listing l sel c g -> listing l sel c (<[Z.to_nat p := y]> g).
Proof. intros Hx Hs. eapply listing_keep; [done|]. by rewrite Hs. Qed.

Lemma charged_same c b : charged c (stake c b) = b.
Proof. unfold stake. destruct (Z.eqb_spec b 0); simpl; [done|]. by rewrite Z.eqb_refl. Qed.

Lemma charged_other c c' b : c' <> c -> charged c' (stake c b) = 0.
Proof.
  intros H. unfold stake. destruct (b =? 0); simpl; [done|]. destruct (Z.eqb_spec c c'); [by subst|done].
Qed.

Lemma bounded_stake c b : 0 <= b <= 2 ^ 20 -> bounded (stake c b).
Proof. unfold stake. by destruct (b =? 0). Qed.

Lemma work_bounds w g E p t x : at_work w g E p t x -> bounded (pl_this x) /\ bounded (pl_run x).
Proof.
  intros [[[_ HB _] _] _ _ Hx]. rewrite Forall_elem in HB. apply HB.
  apply list_elem_of_lookup. eexists. by apply aref_nat.
Qed.

Lemma add_rq_bw_spec w w' g E p t x c b : at_work w g E p t x -> pl_this x = None ->
  0 <= b <= 2 ^ 20 -> on_dlq w c (__add_rq_bw b) = Some w' ->
  exists g', at_work w' g' E p t (x_this (stake c b) x) /\ only p w g w' g'.
Proof.
  intros A Hn Hb H. pose proof A as [[HQ _] _ _ Hx]. destruct (work_bounds _ _ _ _ _ _ A) as [Bt Br].
  eapply (work_rq w w' g E p t x c); [done|done|by try apply bounded_stake..| | |done].
  { intros c' Hc. cbn -[charged stake]. by rewrite Hn, charged_other. }
  intros q Hq [A1 A2 A3 A4].
  pose proof (sum_bound pl_this c g (qa_this_bound _ _ HQ) (qa_len _ _ HQ)).
  split; cbn -[charged stake]; rewrite ?(zsum_insert _ _ _ x) by (by apply aref_nat);
    cbn -[charged stake]; rewrite ?Hn, ?charged_same; try lia;
    [|by eapply listing_stay..].
  rewrite u64_small by lia. simpl. ztriv.
Qed.

Lemma sub_rq_bw_spec w w' g E p t x c b : at_work w g E p t x -> pl_this x = stake c b ->
  0 <= b <= 2 ^ 20 -> on_dlq w c (__sub_rq_bw b) = Some w' ->
  exists g', at_work w' g' E p t (x_this None x) /\ only p w g w' g'.
Proof.
  intros A Hn Hb H. pose proof A as [[HQ _] _ _ Hx]. destruct (work_bounds _ _ _ _ _ _ A) as [Bt Br].
  eapply (work_rq w w' g E p t x c); [done|done|by try apply bounded_stake..| | |done].
  { intros c' Hc. cbn -[charged stake]. by rewrite Hn, charged_other. }
  intros q Hq [A1 A2 A3 A4].
  pose proof (sum_bound pl_this c g (qa_this_bound _ _ HQ) (qa_len _ _ HQ)).
  pose proof (charged_le pl_this c g p x (qa_this_bound _ _ HQ) Hx) as Hle.
  rewrite Hn, charged_same in Hle.
  split; cbn -[charged stake]; rewrite ?(zsum_insert _ _ _ x) by (by apply aref_nat);
    cbn -[charged stake]; rewrite ?Hn, ?charged_same; try lia;
    [|by eapply listing_stay..].
  rewrite u64_small by lia. simpl. ztriv.
Qed.

Lemma add_running_bw_spec w w' g E p t x c b : at_work w g E p t x -> pl_run x = None ->
  0 <= b <= 2 ^ 20 -> on_dlq w c (__add_running_bw b) = Some w' ->
  exists g', at_work w' g' E p t (x_run (stake c b) x) /\ only p w g w' g'.
Proof.
  intros A Hn Hb H. pose proof A as [[HQ _] _ _ Hx]. destruct (work_bounds _ _ _ _ _ _ A) as [Bt Br].
  eapply (work_rq w w' g E p t x c); [done|done|by try apply bounded_stake..| | |done].
  { intros c' Hc. cbn -[charged stake]. by rewrite Hn, charged_other. }
  intros q Hq [A1 A2 A3 A4].
  pose proof (sum_bound pl_run c g (qa_run_bound _ _ HQ) (qa_len _ _ HQ)).
  split; cbn -[charged stake]; rewrite ?(zsum_insert _ _ _ x) by (by apply aref_nat);
    cbn -[charged stake]; rewrite ?Hn, ?charged_same; try lia;
    [|by eapply listing_stay..].
  rewrite u64_small by lia. simpl. ztriv.
Qed.

Lemma sub_running_bw_spec w w' g E p t x c b : at_work w g E p t x -> pl_run x = stake c b ->
  0 <= b <= 2 ^ 20 -> on_dlq w c (__sub_running_bw b) = Some w' ->
  exists g', at_work w' g' E p t (x_run None x) /\ only p w g w' g'.
Proof.
  intros A Hn Hb H. pose proof A as [[HQ _] _ _ Hx]. destruct (work_bounds _ _ _ _ _ _ A) as [Bt Br].
  eapply (work_rq w w' g E p t x c); [done|done|by try apply bounded_stake..| | |done].
  { intros c' Hc. cbn -[charged stake]. by rewrite Hn, charged_other. }
  intros q Hq [A1 A2 A3 A4].
  pose proof (sum_bound pl_run c g (qa_run_bound _ _ HQ) (qa_len _ _ HQ)).
  pose proof (charged_le pl_run c g p x (qa_run_bound _ _ HQ) Hx) as Hle.
  rewrite Hn, charged_same in Hle.
  split; cbn -[charged stake]; rewrite ?(zsum_insert _ _ _ x) by (by apply aref_nat);
    cbn -[charged stake]; rewrite ?Hn, ?charged_same; try lia;
    [|by eapply listing_stay..].
  rewrite u64_small by lia. simpl. ztriv.
Qed.

(** The amount is that of the entity, and a special entity is not charged. *)
Definition due (c : Z) (t : task) : option (Z * Z) :=
  if dl_entity_is_special (dl t) then None else stake c (dl_bw (dl t)).

Lemma x_this_id x v : pl_this x = v -> x_this v x = x.
Proof. by destruct x; intros <-. Qed.
Lemma x_run_id x v : pl_run x = v -> x_run v x = x.
Proof. by destruct x; intros <-. Qed.
Lemma x_push_id x v : pl_push x = v -> x_push v x = x.
Proof. by destruct x; intros <-. Qed.
Lemma x_root_id x v : pl_root x = v -> x_root v x = x.
Proof. by destruct x; intros <-. Qed.

Lemma add_rq_work w w' g E p t x c : at_work w g E p t x -> pl_this x = None ->
  0 <= dl_bw (dl t) <= 2 ^ 20 -> add_rq_bw w p c = Some w' ->
  exists g', at_work w' g' E p t (x_this (due c t) x) /\ only p w g w' g'.
Proof.
  intros A Hn Hb H. unfold add_rq_bw, unless_special in H. rewrite (aw_task _ _ _ _ _ _ A) in H.
  unfold due. simpl in H. destruct (dl_entity_is_special (dl t)); [|by eapply add_rq_bw_spec].
  injection H as <-. rewrite x_this_id by done. eauto using only_refl.
Qed.

Lemma sub_rq_work w w' g E p t x c : at_work w g E p t x -> pl_this x = due c t ->
  0 <= dl_bw (dl t) <= 2 ^ 20 -> sub_rq_bw w p c = Some w' ->
  exists g', at_work w' g' E p t (x_this None x) /\ only p w g w' g'.
Proof.
  intros A Hn Hb H. unfold sub_rq_bw, unless_special in H. rewrite (aw_task _ _ _ _ _ _ A) in H.
  unfold due in Hn. simpl in H. destruct (dl_entity_is_special (dl t)); [|by eapply sub_rq_bw_spec].
  injection H as <-. rewrite x_this_id by done. eauto using only_refl.
Qed.

Lemma add_running_work w w' g E p t x c : at_work w g E p t x -> pl_run x = None ->
  0 <= dl_bw (dl t) <= 2 ^ 20 -> add_running_bw w p c = Some w' ->
  exists g', at_work w' g' E p t (x_run (due c t) x) /\ only p w g w' g'.
Proof.
  intros A Hn Hb H. unfold add_running_bw, unless_special in H. rewrite (aw_task _ _ _ _ _ _ A) in H.
  unfold due. simpl in H. destruct (dl_entity_is_special (dl t)); [|by eapply add_running_bw_spec].
  injection H as <-. rewrite x_run_id by done. eauto using only_refl.
Qed.

Lemma sub_running_work w w' g E p t x c : at_work w g E p t x -> pl_run x = due c t ->
  0 <= dl_bw (dl t) <= 2 ^ 20 -> sub_running_bw w p c = Some w' ->
  exists g', at_work w' g' E p t (x_run None x) /\ only p w g w' g'.
Proof.
  intros A Hn Hb H. unfold sub_running_bw, unless_special in H. rewrite (aw_task _ _ _ _ _ _ A) in H.
  unfold due in Hn. simpl in H. destruct (dl_entity_is_special (dl t)); [|by eapply sub_running_bw_spec].
  injection H as <-. rewrite x_run_id by done. eauto using only_refl.
Qed.

(** *** Queueing *)

Definition plain_agg (l : list Z) : option unit := match l with [] => None | _ => Some tt end.

#[local] Instance plain_laws : RbTree.AugmentLaws (fun _ : Z => True) plain_agg.
Proof. split; [done| |by intros [] []]. intros [|y l] x r _; done. Qed.

Lemma rb_add_view less p t t' b : rb_add_cached less p t = Some (t', b) ->
  exists pre post, fst (view t) = pre ++ post /\ fst (view t') = pre ++ p :: post /\
    snd (view t') = match pre with [] => Some p | _ => snd (view t) end.
Proof.
  unfold rb_add_cached. intros H. unbind.
  by apply (RbTree.rb_add_contents (ok := fun _ => True) (agg := plain_agg)) in Hv.
Qed.

Lemma rb_erase_view p t t' b : rb_erase_cached p t = Some (t', b) ->
  exists l1 l2, fst (view t) = l1 ++ p :: l2 /\ fst (view t') = l1 ++ l2 /\
    (snd (view t) = head (fst (view t)) -> NoDup (fst (view t)) ->
     snd (view t') = head (fst (view t'))).
Proof.
  unfold rb_erase_cached. intros H. unbind.
  assert (F : rb_leftmost t = head (inorder (rb_root t)) -> NoDup (inorder (rb_root t)) ->
    rb_leftmost t' = head (inorder (rb_root t'))).
  { intros Hl. eapply (RbTree.rb_erase_first (ok := fun _ => True) (agg := plain_agg)); [done|done|].
    intros x y _ _ Hx%Z.eqb_eq Hy%Z.eqb_eq. congruence. }
  apply (RbTree.rb_erase_contents (ok := fun _ => True) (agg := plain_agg)) in Hv
    as (l1 & y & l2 & H1 & Hy & H2). apply Z.eqb_eq in Hy as ->. eauto 6.
Qed.

(** The tree of queued tasks. *)
Lemma root_work w w' g E p t x c tr v : at_work w g E p t x ->
  on_dlq w c (q_root tr) = Some w' ->
  (forall c', c' <> c -> v <> Some c' /\ pl_root x <> Some c') ->
  (forall q, rref w c = Some q -> listing (view (root (dlq q))) pl_root c g ->
     listing (view tr) pl_root c (<[Z.to_nat p := x_root v x]> g)) ->
  (forall c0 q0, rref w c0 = Some q0 -> curr q0 = p -> v = None \/ v = Some c0) ->
  exists g', at_work w' g' E p t (x_root v x) /\ only p w g w' g'.
Proof.
  intros A H Hc Hl Hcur. pose proof A as [[HQ _] _ _ Hx]. destruct (work_bounds _ _ _ _ _ _ A).
  eapply (work_rq w w' g E p t x c); [done|done|done|done| | |eauto].
  - intros c' Hne. destruct (Hc c' Hne). done.
  - intros q Hq [A1 A2 A3 A4].
    split; cbn -[x_root]; rewrite ?(zsum_insert _ _ _ x) by (by apply aref_nat); simpl; try lia.
    + by apply (Hl q).
    + by eapply listing_stay.
Qed.

Lemma push_work w w' g E p t x c tr v : at_work w g E p t x ->
  on_dlq w c (q_pushable_dl_tasks_root tr) = Some w' ->
  (forall c', c' <> c -> v <> Some c' /\ pl_push x <> Some c') ->
  (forall q, rref w c = Some q ->
     listing (view (pushable_dl_tasks_root (dlq q))) pl_push c g ->
     listing (view tr) pl_push c (<[Z.to_nat p := x_push v x]> g)) ->
  exists g', at_work w' g' E p t (x_push v x) /\ only p w g w' g'.
Proof.
  intros A H Hc Hl. pose proof A as [[HQ _] _ _ Hx]. destruct (work_bounds _ _ _ _ _ _ A).
  eapply (work_rq w w' g E p t x c); [done|done|done|done| | |done].
  - intros c' Hne. destruct (Hc c' Hne). done.
  - intros q Hq [A1 A2 A3 A4].
    split; cbn -[x_push]; rewrite ?(zsum_insert _ _ _ x) by (by apply aref_nat); simpl; try lia.
    + by eapply listing_stay.
    + by apply (Hl q).
Qed.

(** Task [p] has become like [t], at place [x]; the others are as before. *)
Definition worked (w : world) (g : list place) (w' : world) (E : list Z) (p : Z) (t : task)
  (x : place) : Prop :=
  exists g' t', at_work w' g' E p t' x /\ core t' = core t /\ only p w g w' g'.

Lemma worked_intro w g w' g' E p t x :
  at_work w' g' E p t x -> only p w g w' g' -> worked w g w' E p t x.
Proof. intros. exists g', t. done. Qed.

Lemma worked_calm w g w1 w2 E p t x : worked w g w1 E p t x -> calm w1 w2 -> worked w g w2 E p t x.
Proof.
  intros (g1 & t1 & A & Ec & O) C. destruct (work_calm _ _ _ _ _ _ _ A C) as (t2 & A2 & Ec2).
  exists g1, t2. split_and!; [done|congruence|]. eapply only_trans; [done|]. by apply calm_only.
Qed.

Lemma worked_only w0 g0 w g w' E p t x :
  only p w0 g0 w g -> worked w g w' E p t x -> worked w0 g0 w' E p t x.
Proof. intros O (g' & t' & A & Ec & O'). exists g', t'. eauto using only_trans. Qed.

Lemma worked_core w g w' E p t t0 x :
  core t = core t0 -> worked w g w' E p t x -> worked w g w' E p t0 x.
Proof. intros Ec (g' & t' & A & Ec' & O). exists g', t'. split_and!; [done|congruence|done]. Qed.

End Steps.

(** Equalities of [core] after the same change on both sides. *)
Ltac core_eq :=
  unfold core in *;
  repeat match goal with H : (_, _) = (_, _) |- _ => injection H; clear H; intros end;
  simpl in *; congruence.

Section Queues.
Context {pf : Platform}.

Lemma enqueue_pushable_work w w' g E p t x c : at_work w g E p t x -> pl_push x = None ->
  enqueue_pushable_dl_task w c p = Some w' ->
  worked w g w' E p (t_pushable true t) (x_push (Some c) x).
Proof.
  intros A Hn. unfold enqueue_pushable_dl_task.
  intros (q & Hq & (t0 & Ht0 & ([tr lm] & Hr & (w1 & H1 & (w2 & H2 & H)%bind_Some)%bind_Some)
    %bind_Some)%bind_Some)%bind_Some.
  destruct (push_work w w1 g E p t x c tr (Some c) A) as (g1 & A1 & O1); [done| | |].
  { intros; split; congruence. }
  { intros q0 Hq0 L. replace q0 with q in L by congruence.
    destruct (rb_add_view _ _ _ _ _ Hr) as (pre & post & E1 & E2 & E3).
    by eapply (listing_add _ _ pre post _ _ _ _ x); [apply (aw_place _ _ _ _ _ _ A)|..]. }
  destruct (work_task _ _ _ _ _ _ _ _ A1 H2) as [A2 O2].
  eapply worked_calm; [eapply worked_intro; [done|by eapply only_trans]|].
  apply quiet_calm. unbind; quiet_chain.
Qed.

Lemma dequeue_pushable_work w w' g E p t x c : at_work w g E p t x ->
  pl_push x = (if pushable t then Some c else None) ->
  dequeue_pushable_dl_task w c p = Some w' ->
  worked w g w' E p (t_pushable false t) (x_push None x).
Proof.
  intros A Hn. unfold dequeue_pushable_dl_task.
  intros (q & Hq & (t0 & Ht0 & H)%bind_Some)%bind_Some. rewrite (aw_task _ _ _ _ _ _ A) in Ht0.
  injection Ht0 as <-. destruct (pushable t) eqn:Hp.
  2:{ injection H as <-. rewrite x_push_id by done. exists g, t.
      split_and!; [done|unfold core; simpl; by rewrite Hp|apply only_refl]. }
  apply bind_Some in H as ([tr lm] & Hr & (w1 & H1 & (w2 & H2 & H)%bind_Some)%bind_Some).
  destruct (rb_erase_view _ _ _ _ Hr) as (l1 & l2 & El & Et & Ef).
  destruct (push_work w w1 g E p t x c tr None A) as (g1 & A1 & O1); [done| | |].
  { intros; split; congruence. }
  { intros q0 Hq0 L. replace q0 with q in L by congruence.
    by eapply (listing_erase _ _ l1 l2); [apply (aw_place _ _ _ _ _ _ A)|..]. }
  assert (C : calm w1 w2) by (apply quiet_calm; unbind; quiet_chain).
  destruct (work_calm _ _ _ _ _ _ _ A1 C) as (t2 & A2 & Ec).
  destruct (work_task _ _ _ _ _ _ _ _ A2 H) as [A3 O3].
  apply (worked_core _ _ _ _ _ (t_pushable false t2)); [core_eq|].
  eapply worked_intro; [done|]. eapply only_trans; [done|].
  eapply only_trans; [by apply (calm_only p w1 w2 g1)|done].
Qed.

Definition with_tree (b : bool) (t : task) : task := t_dl (set_on_tree b (dl t)) t.

Lemma __enqueue_work w w' g E p t x : at_work w g E p t x -> pl_root x = None ->
  __enqueue_dl_entity w p = Some w' ->
  (forall c0 q0, rref w c0 = Some q0 -> curr q0 = p -> c0 = cpu t) ->
  worked w g w' E p (with_tree true t) (x_root (Some (cpu t)) x).
Proof.
  intros A Hn H0 Hcur. revert H0. unfold __enqueue_dl_entity.
  intros (t0 & Ht0 & (q & Hq & ([tr lm] & Hr & (w1 & H1 & (w2 & H2 & H)%bind_Some)%bind_Some)
    %bind_Some)%bind_Some)%bind_Some.
  rewrite (aw_task _ _ _ _ _ _ A) in Ht0. injection Ht0 as <-.
  destruct (root_work w w1 g E p t x (cpu t) tr (Some (cpu t)) A) as (g1 & A1 & O1); [done| | | |].
  { intros; split; congruence. }
  { intros q0 Hq0 L. replace q0 with q in L by congruence.
    destruct (rb_add_view _ _ _ _ _ Hr) as (pre & post & E1 & E2 & E3).
    by eapply (listing_add _ _ pre post _ _ _ _ x); [apply (aw_place _ _ _ _ _ _ A)|..]. }
  { intros c0 q0 Hq0 Hc0. right. f_equal. symmetry. by eapply Hcur. }
  destruct (work_task _ _ _ _ _ _ _ _ A1 H2) as [A2 O2].
  eapply worked_calm; [eapply worked_intro; [done|by eapply only_trans]|].
  apply quiet_calm. quiet_chain.
Qed.

Lemma __dequeue_work w w' g E p t x : at_work w g E p t x ->
  pl_root x = (if on_tree (dl t) then Some (cpu t) else None) ->
  __dequeue_dl_entity w p = Some w' ->
  worked w g w' E p (with_tree false t) (x_root None x).
Proof.
  intros A Hn. unfold __dequeue_dl_entity. intros (t0 & Ht0 & H)%bind_Some.
  rewrite (aw_task _ _ _ _ _ _ A) in Ht0. injection Ht0 as <-. destruct (on_tree (dl t)) eqn:Hp.
  2:{ injection H as <-. rewrite x_root_id by done. exists g, t.
      split_and!; [done|unfold core; simpl; by rewrite Hp|apply only_refl]. }
  apply bind_Some in H as (q & Hq & ([tr lm] & Hr & (w1 & H1 & (w2 & H2 & H)%bind_Some)
    %bind_Some)%bind_Some).
  destruct (rb_erase_view _ _ _ _ Hr) as (l1 & l2 & El & Et & Ef).
  destruct (root_work w w1 g E p t x (cpu t) tr None A) as (g1 & A1 & O1); [done| | |by left|].
  { intros; split; congruence. }
  { intros q0 Hq0 L. replace q0 with q in L by congruence.
    by eapply (listing_erase _ _ l1 l2); [apply (aw_place _ _ _ _ _ _ A)|..]. }
  destruct (work_task _ _ _ _ _ _ _ _ A1 H2) as [A2 O2].
  eapply worked_calm; [eapply worked_intro; [done|by eapply only_trans]|].
  apply quiet_calm. quiet_chain.
Qed.

(** *** Operations that change nothing the accounting reads *)

Definition ecore (e : sched_dl_entity) :=
  (flags e, dl_bw e, dl_runtime e, dl_non_contending e, on_tree e, dl_throttled e).

Lemma core_dl t e : ecore e = ecore (dl t) -> core (t_dl e t) = core t.
Proof. unfold core, ecore. simpl. congruence. Qed.

Lemma postpone_core fuel pi : forall e e', postpone fuel pi e = Some e' -> ecore e' = ecore e.
Proof.
  induction fuel as [|fuel IH]; intros e e'; simpl; destruct (0 <? runtime e); try congruence.
  intros H. by rewrite (IH _ _ H).
Qed.

Lemma replenish_core pi now e e' :
  replenish_dl_entity pi now e = Some e' -> ecore e' = ecore (set_throttled false e).
Proof.
  unfold replenish_dl_entity. destruct (postpone _ _ _) as [e1|] eqn:P; [|done].
  apply postpone_core in P. cbn [mbind option_bind]. intros [= <-].
  assert (P' : ecore e1 = ecore e) by (rewrite P; repeat case_match; done).
  unfold ecore in *. repeat case_match; simpl in *; congruence.
Qed.

Lemma update_entity_core pi b now e : ecore (update_dl_entity pi b now e) = ecore e.
Proof. unfold update_dl_entity, update_dl_revised_wakeup. repeat case_match; done. Qed.

Lemma setup_new_core pi now e : ecore (setup_new_dl_entity pi now e) = ecore e.
Proof. unfold setup_new_dl_entity. by case_match. Qed.

Lemma throttle_core e : ecore (throttle e) = ecore (set_throttled true e).
Proof. unfold throttle. by case_match. Qed.

Lemma constrained_core e : ecore (constrained_throttle e) = ecore (set_throttled true e).
Proof. unfold constrained_throttle. by case_match. Qed.

Lemma on_task_calm w p f w' : (forall t, core (f t) = core t) -> on_task w p f = Some w' -> calm w w'.
Proof.
  intros Hf. unfold on_task. intros (t & Ht & (ts & Hs & [= <-])%bind_Some)%bind_Some.
  split; [|done]. simpl. apply aref_aset in Hs as [-> Hc]. apply aref_nat in Ht.
  change (map core) with (fmap (M := list) core).
  rewrite list_fmap_insert, Hf, list_insert_id; [done|]. by rewrite list_lookup_fmap, Ht.
Qed.

Lemma on_dl_calm w p f w' : (forall e, ecore (f e) = ecore e) -> on_dl w p f = Some w' -> calm w w'.
Proof. intros Hf. apply on_task_calm. intros t. apply core_dl, Hf. Qed.

Lemma cancel_core t : core (cancel_inactive t) = core t.
Proof. unfold cancel_inactive. destruct (hrtimer_try_to_cancel _) as [tm r]. by destruct (r =? 1). Qed.

Lemma resched_calm w c w' : resched_curr w c = Some w' -> calm w w'.
Proof. unfold resched_curr. intros H. unbind. eapply on_task_calm; [|done]. intros; reflexivity. Qed.

Lemma start_timer_calm w p w' b : start_dl_timer w p = Some (w', b) -> calm w w'.
Proof. unfold start_dl_timer. intros H. unbind; try apply calm_refl.
  eapply on_task_calm; [|done]. intros; reflexivity.
 Qed.

Definition with_thr (b : bool) (t : task) : task := t_dl (set_throttled b (dl t)) t.

Lemma thr_work w w' g E p t x f b : at_work w g E p t x ->
  (forall e, e = dl t -> ecore (f e) = ecore (set_throttled b e)) -> on_dl w p f = Some w' ->
  worked w g w' E p (with_thr b t) x.
Proof.
  intros A Hf H. destruct (work_task _ _ _ _ _ _ _ _ A H) as [A1 O1].
  exists g. eexists. split_and!; [done| |done].
  specialize (Hf _ eq_refl). unfold ecore, core in *. simpl in *. congruence.
Qed.

Lemma constrained_work w w' g E p t x : at_work w g E p t x ->
  dl_check_constrained_dl w p = Some w' -> exists b, worked w g w' E p (with_thr b t) x.
Proof.
  intros A H. unfold dl_check_constrained_dl in H.
  assert (Same : w' = w -> exists b, worked w g w' E p (with_thr b t) x).
  { intros ->. exists (dl_throttled (dl t)), g, t. split_and!; [done|core_eq|apply only_refl]. }
  apply bind_Some in H as (t0 & Ht0 & (q & Hq & H)%bind_Some).
  destruct (late_constrained _ _); [|injection H as <-; auto].
  destruct (is_dl_boosted p (dl t0)); [injection H as <-; auto|].
  apply bind_Some in H as ([w1 st] & H1 & H). pose proof (start_timer_calm _ _ _ _ H1) as C1.
  destruct (work_calm _ _ _ _ _ _ _ A C1) as (t1 & A1 & Ec1).
  pose proof (calm_only p w w1 g C1) as O1. destruct st.
  - exists true. eapply worked_only; [done|].
    apply (worked_core _ _ _ _ _ (with_thr true t1)); [core_eq|].
    eapply thr_work; [done| |done]. intros. apply constrained_core.
  - injection H as <-. exists (dl_throttled (dl t)), g, t1. split_and!; [done|core_eq|done].
Qed.

Lemma check_preempt_calm w c p w' : check_preempt_curr_dl w c p = Some w' -> calm w w'.
Proof.
  unfold check_preempt_curr_dl, check_preempt_equal_dl.
  intros H. unbind; try apply calm_refl; by eapply resched_calm.
Qed.

Lemma preempt_calm w c p w' : check_preempt_curr w c p = Some w' -> calm w w'.
Proof.
  unfold check_preempt_curr.
  intros H. unbind; try apply calm_refl; first [by eapply resched_calm|by eapply check_preempt_calm].
Qed.

End Queues.

Section Enqueue.
Context {pf : Platform}.

Definition with_nc (b : bool) (t : task) : task := t_dl (set_non_contending b (dl t)) t.

(** A waking task is charged where it is not yet. *)
Lemma contending_work w w' g E p t x fl : at_work w g E p t x ->
  0 <= dl_bw (dl t) <= 2 ^ 20 -> (dl_runtime (dl t) = 0 -> dl_bw (dl t) = 0) ->
  pl_this x = (if has fl ENQUEUE_MIGRATED then None else due (cpu t) t) ->
  pl_run x = (if dl_non_contending (dl t) then due (cpu t) t else None) ->
  (dl_runtime (dl t) = 0 -> dl_non_contending (dl t) = false) ->
  task_contending w p fl = Some w' ->
  worked w g w' E p (with_nc false t) (x_run (due (cpu t) t) (x_this (due (cpu t) t) x)).
Proof.
  intros A Hb Hz Hthis Hrun Hnc. unfold task_contending. intros (t0 & Ht0 & H)%bind_Some.
  rewrite (aw_task _ _ _ _ _ _ A) in Ht0. injection Ht0 as <-.
  destruct (Z.eqb_spec (dl_runtime (dl t)) 0) as [Hr|Hr].
  { injection H as <-. rewrite (Hnc Hr) in Hrun.
    assert (Hd : due (cpu t) t = None)
      by (unfold due, stake; rewrite (Hz Hr); by destruct (dl_entity_is_special _)).
    assert (Ht : pl_this x = None) by (rewrite Hthis, Hd; by destruct (has _ _)).
    rewrite Hd, x_this_id, x_run_id by done. exists g, t.
    split_and!; [done|unfold core; simpl; by rewrite (Hnc Hr)|apply only_refl]. }
  apply bind_Some in H as (w1 & H1 & H).
  assert (S1 : exists g1, at_work w1 g1 E p t (x_this (due (cpu t) t) x) /\ only p w g w1 g1).
  { destruct (has fl ENQUEUE_MIGRATED); [by eapply add_rq_work|].
    injection H1 as <-. rewrite x_this_id by done. eauto using only_refl. }
  destruct S1 as (g1 & A1 & O1). destruct (dl_non_contending (dl t)) eqn:Hn.
  - destruct (work_task _ _ _ _ _ _ _ _ A1 H) as [A2 O2].
    rewrite x_run_id by done. exists g1. eexists. split_and!; [done|apply cancel_core|].
    by eapply only_trans.
  - destruct (add_running_work _ _ _ _ _ _ _ (cpu t) A1 Hrun Hb H) as (g2 & A2 & O2).
    exists g2, t. split_and!; [done|unfold core; simpl; by rewrite Hn|by eapply only_trans].
Qed.

Lemma core_due c t t' : core t' = core t -> due c t' = due c t.
Proof.
  unfold core, due, dl_entity_is_special. intros [= H1 H2 H3 H4 H5 H6 H7 H8 H9 H10 H11 H12 H13 H14].
  by rewrite H8, H9.
Qed.

(** [p] may be current on CPU [c] only. *)
Definition current_at (w : world) (p c : Z) : Prop :=
  forall c0 q0, rref w c0 = Some q0 -> curr q0 = p -> c0 = c.

Lemma only_current p w g w' g' p' c : only p w g w' g' -> current_at w p' c -> current_at w' p' c.
Proof.
  intros (_ & C & _) H c0 q0 Hq Hp. specialize (C c0). rewrite Hq in C.
  destruct (rref w c0) as [q|] eqn:Hq1; [|done]. injection C as C. eapply H; [done|congruence].
Qed.

Definition not_current (w : world) (p : Z) : Prop :=
  forall c0 q0, rref w c0 = Some q0 -> curr q0 <> p.

Lemma only_not_current p w g w' g' p' : only p w g w' g' -> not_current w' p' -> not_current w p'.
Proof.
  intros (_ & C & _) H c0 q0 Hq Hp. specialize (C c0). rewrite Hq in C.
  destruct (rref w' c0) as [q|] eqn:Hq1; [|done]. injection C as C. eapply H; [done|congruence].
Qed.

(** What the charges of a waking task must be. *)
Definition wakes_from (fl : Z) (t : task) (x : place) : Prop :=
  pl_this x = (if has fl ENQUEUE_MIGRATED then None else due (cpu t) t) /\
  pl_run x = (if dl_non_contending (dl t) then due (cpu t) t else None) /\
  (dl_runtime (dl t) = 0 -> dl_non_contending (dl t) = false).

Definition bw_ok (t : task) : Prop :=
  0 <= dl_bw (dl t) <= 2 ^ 20 /\ (dl_runtime (dl t) = 0 -> dl_bw (dl t) = 0).

Lemma core_bw_ok t t' : core t' = core t -> bw_ok t -> bw_ok t'.
Proof. unfold bw_ok. intros Hc. replace (dl_bw (dl t')) with (dl_bw (dl t)) by core_eq.
  by replace (dl_runtime (dl t')) with (dl_runtime (dl t)) by core_eq. Qed.

(** The task and its charges after the wake-up or replenishment part of an
    enqueue. *)
Definition woken (fl : Z) (t : task) : task :=
  if has fl ENQUEUE_WAKEUP then with_nc false t
  else if has fl ENQUEUE_REPLENISH then with_thr false t else t.
Definition woken_at (fl : Z) (t : task) (x : place) : place :=
  if has fl ENQUEUE_WAKEUP then x_run (due (cpu t) t) (x_this (due (cpu t) t) x) else x.

Lemma enqueue_entity_work w w' g E p t x fl : at_work w g E p t x -> pl_root x = None ->
  current_at w p (cpu t) -> bw_ok t -> (has fl ENQUEUE_WAKEUP = true -> wakes_from fl t x) ->
  enqueue_dl_entity w p fl = Some w' ->
  worked w g w' E p (with_tree true (woken fl t)) (x_root (Some (cpu t)) (woken_at fl t x)).
Proof.
  intros A Hroot Hcur [Hb Hz] Hw. unfold enqueue_dl_entity.
  intros (t0 & Ht0 & (q & Hq & (w1 & H1 & H)%bind_Some)%bind_Some)%bind_Some.
  rewrite (aw_task _ _ _ _ _ _ A) in Ht0. injection Ht0 as <-.
  assert (S1 : worked w g w1 E p (woken fl t) (woken_at fl t x)).
  { unfold woken, woken_at. destruct (has fl ENQUEUE_WAKEUP).
    - destruct (Hw eq_refl) as (W1 & W2 & W3). apply bind_Some in H1 as (w2 & H2 & (pi & Hpi & H3)%bind_Some).
      eapply worked_calm; [by eapply contending_work|].
      eapply on_dl_calm; [|done]. intros. apply update_entity_core.
    - destruct (has fl ENQUEUE_REPLENISH).
      + apply bind_Some in H1 as (pi & Hpi & (e & He & H1)%bind_Some).
        eapply thr_work; [done| |done]. intros e0 ->. by eapply replenish_core.
      + eapply worked_calm; [eapply worked_intro; [done|apply only_refl]|].
        destruct (_ && _); [|by injection H1 as <-].
        apply bind_Some in H1 as (pi & Hpi & H1). eapply on_dl_calm; [|done].
        intros. apply setup_new_core. }
  destruct S1 as (g1 & t1 & A1 & Ec & O1).
  assert (Ecpu : cpu t1 = cpu t) by (unfold woken in Ec; repeat case_match; core_eq).
  rewrite <- Ecpu. eapply worked_only; [done|].
  apply (worked_core _ _ _ _ _ (with_tree true t1)); [core_eq|].
  eapply __enqueue_work; [done| |done|].
  - unfold woken_at. by destruct (has fl _).
  - rewrite Ecpu. by eapply only_current.
Qed.

(** The task with its two queue flags, and its place. *)
Definition filed (b1 b2 : bool) (t : task) : task := t_pushable b2 (with_tree b1 t).
Definition filed_at (b1 b2 : bool) (c : Z) (x : place) : place :=
  mk_place (if b1 then Some c else None) (if b2 then Some c else None) (pl_this x) (pl_run x).

(** A task off both trees, and what an enqueue does to its charges: a migrated or
    restored task is charged in full, a waking one as far as it is not yet. *)
Definition unfiled (t : task) (x : place) : Prop :=
  pl_root x = None /\ pl_push x = None /\ on_tree (dl t) = false /\ pushable t = false.
Definition recharged (fl : Z) (t : task) : bool :=
  (on_rq t =? TASK_ON_RQ_MIGRATING) || has fl ENQUEUE_RESTORE.
Definition enqueues_from (fl : Z) (t : task) (x : place) : Prop :=
  if recharged fl t then pl_this x = None /\ pl_run x = None /\ has fl ENQUEUE_WAKEUP = false
  else has fl ENQUEUE_WAKEUP = true -> wakes_from fl t x.
Definition full (t : task) (x : place) : place :=
  x_run (due (cpu t) t) (x_this (due (cpu t) t) x).
Definition charged_at (fl : Z) (t : task) (x : place) : place :=
  if recharged fl t || has fl ENQUEUE_WAKEUP then full t x else x.

Lemma core_filed b1 b2 t t' : core t' = core t -> core (filed b1 b2 t') = core (filed b1 b2 t).
Proof. intros. core_eq. Qed.

Lemma core_from fl t t' x : core t' = core t ->
  recharged fl t' = recharged fl t /\ charged_at fl t' x = charged_at fl t x /\
  (enqueues_from fl t x -> enqueues_from fl t' x).
Proof.
  intros Hc. assert (H1 : on_rq t' = on_rq t) by core_eq. assert (H2 : cpu t' = cpu t) by core_eq.
  assert (H3 : dl_runtime (dl t') = dl_runtime (dl t)) by core_eq.
  assert (H4 : dl_non_contending (dl t') = dl_non_contending (dl t)) by core_eq.
  unfold enqueues_from, charged_at, full, recharged, wakes_from.
  by rewrite H1, H2, H3, H4, !(core_due _ t t') by done.
Qed.

(** The outcome of an enqueue on [c]: whether it went to the tree and whether it is
    pushable. *)
Definition enqueued (w : world) (g : list place) (w' : world) (E : list Z) (p c : Z) (fl : Z)
  (t : task) (x : place) : Prop :=
  exists b1 b2 th, (b2 = true -> b1 = true /\ not_current w p) /\ (b1 = true -> th = false) /\
    worked w g w' E p (with_thr th (filed b1 b2 (woken fl t))) (filed_at b1 b2 c (charged_at fl t x)).

Lemma core_unfiled t t' x : core t' = core t -> unfiled t x -> unfiled t' x.
Proof.
  unfold unfiled. intros Hc. replace (on_tree (dl t')) with (on_tree (dl t)) by core_eq.
  by replace (pushable t') with (pushable t) by core_eq.
Qed.

Lemma core_woken fl t t' : core t' = core t -> core (woken fl t') = core (woken fl t).
Proof. unfold woken. destruct (has fl ENQUEUE_WAKEUP), (has fl ENQUEUE_REPLENISH); intros; core_eq. Qed.

Lemma core_wakes fl t t' x : core t' = core t -> wakes_from fl t x -> wakes_from fl t' x.
Proof.
  intros Hc. unfold wakes_from. replace (cpu t') with (cpu t) by core_eq.
  replace (dl_runtime (dl t')) with (dl_runtime (dl t)) by core_eq.
  replace (dl_non_contending (dl t')) with (dl_non_contending (dl t)) by core_eq.
  by rewrite (core_due _ _ _ Hc).
Qed.

(** The end of [enqueue_task_dl], for a task whose charges are settled but for a
    wake-up. *)
Lemma file_work w w' g E p t x fl : at_work w g E p t x -> unfiled t x ->
  current_at w p (cpu t) -> bw_ok t -> (has fl ENQUEUE_WAKEUP = true -> wakes_from fl t x) ->
  (has fl ENQUEUE_WAKEUP = true -> has fl ENQUEUE_REPLENISH = false) ->
  (if dl_throttled (dl t) && negb (has fl ENQUEUE_REPLENISH)
   then if has fl ENQUEUE_WAKEUP then task_contending w p fl else Some w
   else w ← enqueue_dl_entity w p fl;
        q ← rref w (cpu t);
        if negb (curr q =? p) && (1 <? nr_cpus_allowed t) then enqueue_pushable_dl_task w (cpu t) p
        else Some w) = Some w' ->
  exists b1 b2 th, (b2 = true -> b1 = true /\ not_current w p) /\ (b1 = true -> th = false) /\
    worked w g w' E p (with_thr th (filed b1 b2 (woken fl t))) (filed_at b1 b2 (cpu t) (woken_at fl t x)).
Proof.
  intros A (U1 & U2 & U3 & U4) Hcur Hb Hw Hfl. destruct (_ && _) eqn:Hth.
  { intros H. apply andb_prop in Hth as [Hth Hr%negb_true_iff]. exists false, false, true.
    split_and!; [done..|].
    apply (worked_core _ _ _ _ _ (woken fl t)); [unfold woken; rewrite Hr; destruct (has fl _); core_eq|].
    replace (filed_at _ _ _ _) with (woken_at fl t x)
      by (unfold filed_at, woken_at; destruct (has fl _), x; simpl in *; by rewrite U1, U2).
    unfold woken, woken_at. rewrite Hr. destruct (has fl ENQUEUE_WAKEUP).
    - destruct (Hw eq_refl) as (W1 & W2 & W3). destruct Hb. by eapply contending_work.
    - injection H as <-. eapply worked_intro; [done|apply only_refl]. }
  intros (w1 & H1 & (q & Hq & H)%bind_Some)%bind_Some.
  assert (Hoff : dl_throttled (dl (woken fl t)) = false).
  { unfold woken. destruct (has fl ENQUEUE_WAKEUP); [rewrite Hfl in Hth by done|];
      destruct (has fl ENQUEUE_REPLENISH); simpl in *; rewrite ?andb_true_r in Hth; done. }
  destruct (enqueue_entity_work _ _ _ _ _ _ _ _ A U1 Hcur Hb Hw H1) as (g1 & t1 & A1 & Ec1 & O1).
  destruct (negb (curr q =? p) && _) eqn:Hp.
  - exists true, true, false. split_and!; [|done|].
    { intros _. split; [done|]. intros c0 q0 Hq0 Hp0. pose proof (Hcur c0 q0 Hq0 Hp0) as ->.
      apply andb_prop in Hp as [Hp _]. apply negb_true_iff, Z.eqb_neq in Hp.
      destruct O1 as (_ & C1 & _). specialize (C1 (cpu t)). rewrite Hq, Hq0 in C1.
      simpl in C1. congruence. }
    eapply worked_only; [done|].
    apply (worked_core _ _ _ _ _ (t_pushable true t1)); [core_eq|].
    apply (enqueue_pushable_work w1 w' g1 E p t1 _ (cpu t) A1) in H; [exact H|].
    unfold woken_at. by destruct (has fl _).
  - injection H as <-. exists true, false, false. split_and!; [done..|]. exists g1, t1.
    split_and!; [|unfold woken in *; destruct (has fl ENQUEUE_WAKEUP), (has fl ENQUEUE_REPLENISH); core_eq|done].
    replace (filed_at _ _ _ _) with (x_root (Some (cpu t)) (woken_at fl t x)); [done|].
    unfold filed_at, x_root, woken_at. destruct (has fl _); simpl; by rewrite U2.
Qed.

Lemma recharge_work w w' g E p t x fl : at_work w g E p t x -> bw_ok t -> enqueues_from fl t x ->
  (if recharged fl t then w ← add_rq_bw w p (cpu t); add_running_bw w p (cpu t) else Some w) = Some w' ->
  exists g', at_work w' g' E p t (if recharged fl t then full t x else x) /\ only p w g w' g'.
Proof.
  intros A [Hb _] Hf. unfold enqueues_from in *. destruct (recharged fl t).
  - destruct Hf as (F1 & F2 & F3). intros (w1 & H1 & H2)%bind_Some.
    destruct (add_rq_work _ _ _ _ _ _ _ _ A F1 Hb H1) as (g1 & A1 & O1).
    destruct (add_running_work _ _ _ _ _ _ _ (cpu t) A1 F2 Hb H2) as (g2 & A2 & O2).
    exists g2. split; [done|]. by eapply only_trans.
  - intros [= <-]. eauto using only_refl.
Qed.

(** A change of the throttling alone. *)
Lemma thr_from fl t t' b x : core t' = core (with_thr b t) ->
  recharged fl t' = recharged fl t /\ charged_at fl t' x = charged_at fl t x /\
  (enqueues_from fl t x -> enqueues_from fl t' x) /\ (unfiled t x -> unfiled t' x) /\
  (bw_ok t -> bw_ok t') /\ cpu t' = cpu t /\ normal_prio t' = normal_prio t /\
  forall b1 b2 th, core (with_thr th (filed b1 b2 (woken fl t'))) =
                   core (with_thr th (filed b1 b2 (woken fl t))).
Proof.
  intros Hc. destruct (core_from fl (with_thr b t) t' x Hc) as (R1 & R2 & R3).
  split_and!; [done|done|done|by apply (core_unfiled (with_thr b t))|by apply (core_bw_ok (with_thr b t))|core_eq|core_eq|].
  intros. pose proof (core_woken fl _ _ Hc) as Hw. unfold woken in *.
  destruct (has fl ENQUEUE_WAKEUP), (has fl ENQUEUE_REPLENISH); core_eq.
Qed.

Lemma enqueued_intro w g w1 g1 w' E p c fl t t' x b1 b2 th :
  only p w g w1 g1 -> (b2 = true -> b1 = true /\ not_current w1 p) -> (b1 = true -> th = false) ->
  core (with_thr th (filed b1 b2 (woken fl t'))) = core (with_thr th (filed b1 b2 (woken fl t))) ->
  worked w1 g1 w' E p (with_thr th (filed b1 b2 (woken fl t'))) (filed_at b1 b2 c (charged_at fl t x)) ->
  enqueued w g w' E p c fl t x.
Proof.
  intros O Hb2 Hth Hc S. exists b1, b2, th. split_and!; [|done|].
  - intros H2. destruct (Hb2 H2). split; [done|]. by eapply only_not_current.
  - eapply worked_only; [done|]. by eapply worked_core.
Qed.

Lemma enqueue_unboosted_work w w' g E p t x fl : at_work w g E p t x -> unfiled t x ->
  current_at w p (cpu t) -> bw_ok t -> enqueues_from fl t x ->
  (has fl ENQUEUE_WAKEUP = true -> has fl ENQUEUE_REPLENISH = false) ->
  enqueue_unboosted w (cpu t) p fl = Some w' -> enqueued w g w' E p (cpu t) fl t x.
Proof.
  intros A U Hcur Hb Hf Hfl. unfold enqueue_unboosted.
  intros (t0 & Ht0 & (w1 & H1 & (w2 & H2 & (t2 & Ht2 & H)%bind_Some)%bind_Some)%bind_Some)%bind_Some.
  rewrite (aw_task _ _ _ _ _ _ A) in Ht0. injection Ht0 as <-.
  assert (S1 : exists b, worked w g w1 E p (with_thr b t) x).
  { destruct (_ && _); [by eapply constrained_work|]. injection H1 as <-.
    exists (dl_throttled (dl t)), g, t. split_and!; [done|core_eq|apply only_refl]. }
  destruct S1 as (b & g1 & t1 & A1 & Ec1 & O1).
  destruct (thr_from fl t t1 b x Ec1) as (R1 & R2 & R3 & R4 & R5 & Ecpu & _ & R8). rewrite <- Ecpu in *.
  destruct (recharge_work w1 w2 g1 E p t1 x fl A1 (R5 Hb) (R3 Hf)) as (g2 & A2 & O2); [by rewrite R1|].
  pose proof (aw_task _ _ _ _ _ _ A2) as Ht2'. rewrite Ht2 in Ht2'. injection Ht2' as ->.
  pose proof (only_trans _ _ _ _ _ _ _ O1 O2) as O12. rewrite R1 in A2.
  destruct (file_work w2 w' g2 E p t1 _ fl A2) as (b1 & b2 & th & Hb2 & Hth & S); [| | | |done|done|].
  - destruct (R4 U) as (V1 & V2 & V3 & V4). by destruct (recharged fl t).
  - by eapply only_current.
  - auto.
  - intros Hw. specialize (R3 Hf). unfold enqueues_from in R3. rewrite R1 in R3.
    destruct (recharged fl t); [|auto]. destruct R3 as (_ & _ & ?). congruence.
  - apply (enqueued_intro w g w2 g2 w' E p (cpu t1) fl t t1 x b1 b2 th); try done.
    rewrite <- R2. unfold charged_at. rewrite R1. unfold woken_at in S. unfold enqueues_from in Hf.
    destruct (recharged fl t), (has fl ENQUEUE_WAKEUP); done.
Qed.

Lemma enqueue_task_work w w' g E p t x fl : at_work w g E p t x -> unfiled t x ->
  current_at w p (cpu t) -> bw_ok t -> dl_prio (normal_prio t) = true -> enqueues_from fl t x ->
  (has fl ENQUEUE_WAKEUP = true -> has fl ENQUEUE_REPLENISH = false) ->
  enqueue_task_dl w (cpu t) p fl = Some w' -> enqueued w g w' E p (cpu t) fl t x.
Proof.
  intros A U Hcur Hb Hn Hf Hfl. unfold enqueue_task_dl. intros (t0 & Ht0 & H)%bind_Some.
  rewrite (aw_task _ _ _ _ _ _ A) in Ht0. injection Ht0 as <-. rewrite Hn in H.
  destruct (is_dl_boosted p (dl t)); [|by apply enqueue_unboosted_work].
  apply bind_Some in H as (w1 & H1 & H).
  assert (S1 : exists b, worked w g w1 E p (with_thr b t) x).
  { destruct (dl_throttled (dl t)) eqn:Hth.
    - destruct (work_task _ _ _ _ _ _ _ _ A H1) as [A1 O1]. exists false, g. eexists.
      split_and!; [done|reflexivity|done].
    - injection H1 as <-. exists false, g, t. split_and!; [done|core_eq|apply only_refl]. }
  destruct S1 as (b & g1 & t1 & A1 & Ec1 & O1).
  destruct (thr_from fl t t1 b x Ec1) as (R1 & R2 & R3 & R4 & R5 & Ecpu & _ & R8). rewrite <- Ecpu in *.
  destruct (enqueue_unboosted_work w1 w' g1 E p t1 x fl) as (b1 & b2 & th & Hb2 & Hth & S); auto.
  - by eapply only_current.
  - apply (enqueued_intro w g w1 g1 w' E p (cpu t1) fl t t1 x b1 b2 th); try done.
    by rewrite <- R2.
Qed.

(** The task is where its flags say. *)
Definition placed (t : task) (x : place) : Prop :=
  pl_root x = (if on_tree (dl t) then Some (cpu t) else None) /\
  pl_push x = (if pushable t then Some (cpu t) else None).

Lemma core_placed t t' x : core t' = core t -> placed t x -> placed t' x.
Proof.
  unfold placed. intros Hc. replace (on_tree (dl t')) with (on_tree (dl t)) by core_eq.
  replace (pushable t') with (pushable t) by core_eq. by replace (cpu t') with (cpu t) by core_eq.
Qed.

Lemma __dequeue_task_work w w' g E p t x : at_work w g E p t x -> placed t x ->
  __dequeue_task_dl w (cpu t) p = Some w' ->
  worked w g w' E p (filed false false t) (filed_at false false (cpu t) x).
Proof.
  intros A [P1 P2] (w1 & H1 & H)%bind_Some.
  destruct (__dequeue_work _ _ _ _ _ _ _ A P1 H1) as (g1 & t1 & A1 & Ec1 & O1).
  eapply worked_only; [done|]. apply (worked_core _ _ _ _ _ (t_pushable false t1)); [core_eq|].
  eapply (dequeue_pushable_work w1 w' g1 E p t1 (x_root None x) (cpu t)); [done| |done].
  simpl. rewrite P2. by replace (pushable t1) with (pushable t) by core_eq.
Qed.

(** What the accounting of the current task relies on. *)
Record runs (w : world) (c p : Z) (t : task) (x : place) : Prop := {
  rs_placed : placed t x;
  rs_cpu : on_tree (dl t) = true -> cpu t = c;
  rs_push : pushable t = false;
  rs_thr : on_tree (dl t) = true -> dl_throttled (dl t) = false;
  rs_bw : bw_ok t;
  rs_prio : dl_prio (normal_prio t) = dl_task t;
  rs_on_rq : on_rq t <> TASK_ON_RQ_MIGRATING;
  rs_at : current_at w p c;
  rs_curr : exists q, rref w c = Some q /\ curr q = p
}.

Lemma core_runs w w' g g' c p t t' x : only p w g w' g' -> core t' = core t ->
  runs w c p t x -> runs w' c p t' x.
Proof.
  intros O Hc [H1 H2 H3 H0 H4 H5 H6 H7 (q & Hq & Hp)]. split.
  - by eapply core_placed.
  - replace (on_tree (dl t')) with (on_tree (dl t)) by core_eq. by replace (cpu t') with (cpu t) by core_eq.
  - by replace (pushable t') with (pushable t) by core_eq.
  - replace (on_tree (dl t')) with (on_tree (dl t)) by core_eq.
    by replace (dl_throttled (dl t')) with (dl_throttled (dl t)) by core_eq.
  - by eapply core_bw_ok.
  - unfold dl_task in *. replace (normal_prio t') with (normal_prio t) by core_eq.
    by replace (prio t') with (prio t) by core_eq.
  - by replace (on_rq t') with (on_rq t) by core_eq.
  - by eapply only_current.
  - destruct O as (_ & C & _). specialize (C c). rewrite Hq in C.
    destruct (rref w' c) as [q'|]; [|done]. injection C as C. exists q'. split; [done|congruence].
Qed.

(** A throttled task is out of the tree; a replenished one is back in it. *)
Definition settled (w : world) (g : list place) (w' : world) (E : list Z) (p c : Z) (t : task)
  (x : place) : Prop :=
  exists b th, (b = true -> th = false) /\
    worked w g w' E p (with_thr th (with_tree b t)) (x_root (if b then Some c else None) x).

Lemma settled_same w g w' E p c t x : at_work w' g E p t x -> placed t x ->
  (on_tree (dl t) = true -> cpu t = c) -> (on_tree (dl t) = true -> dl_throttled (dl t) = false) ->
  only p w g w' g -> settled w g w' E p c t x.
Proof.
  intros A [P1 P2] Hc Hth O. exists (on_tree (dl t)), (dl_throttled (dl t)). split; [done|].
  rewrite x_root_id.
  - exists g, t. split_and!; [done|core_eq|done].
  - rewrite P1. destruct (on_tree (dl t)); [|done]. by rewrite Hc.
Qed.

(** A throttled task that is off the trees. *)
Record parked (w : world) (c p : Z) (t : task) (x : place) : Prop := {
  pk_unfiled : unfiled t x;
  pk_cpu : cpu t = c;
  pk_bw : bw_ok t;
  pk_prio : dl_prio (normal_prio t) = true;
  pk_on_rq : on_rq t <> TASK_ON_RQ_MIGRATING;
  pk_at : current_at w p c;
  pk_curr : exists q, rref w c = Some q /\ curr q = p
}.

Lemma only_curr w g w' g' p c : only p w g w' g' ->
  (exists q, rref w c = Some q /\ curr q = p) -> exists q, rref w' c = Some q /\ curr q = p.
Proof.
  intros (_ & C & _) (q & Hq & Hp). specialize (C c). rewrite Hq in C.
  destruct (rref w' c) as [q'|]; [|done]. injection C as C. exists q'. split; [done|congruence].
Qed.

Lemma core_parked w w' g g' c p t t' x : only p w g w' g' -> core t' = core t ->
  parked w c p t x -> parked w' c p t' x.
Proof.
  intros O Hc [H1 H2 H3 H4 H5 H6 H7]. split.
  - by eapply core_unfiled.
  - rewrite <- H2. core_eq.
  - by eapply core_bw_ok.
  - by replace (normal_prio t') with (normal_prio t) by core_eq.
  - by replace (on_rq t') with (on_rq t) by core_eq.
  - by eapply only_current.
  - by eapply only_curr.
Qed.

Lemma requeue_work w w' g E p c t x : at_work w g E p t x -> parked w c p t x ->
  enqueue_task_dl w c p ENQUEUE_REPLENISH = Some w' -> settled w g w' E p c t x.
Proof.
  intros A [U <- Hb Hn Hon Hcur (q & Hq & Hp)] H.
  assert (Hr : recharged ENQUEUE_REPLENISH t = false).
  { unfold recharged. by destruct (Z.eqb_spec (on_rq t) TASK_ON_RQ_MIGRATING). }
  destruct (enqueue_task_work w w' g E p t x ENQUEUE_REPLENISH) as (b1 & b2 & th & Hb2 & Hth & S); try done.
  { unfold enqueues_from. by rewrite Hr. }
  destruct b2; [by destruct (Hb2 eq_refl) as [_ Hne]; edestruct Hne|].
  destruct U as (U1 & U2 & U3 & U4). exists b1, th. split; [done|]. unfold charged_at in S. rewrite Hr in S.
  change (woken ENQUEUE_REPLENISH t) with (with_thr false t) in S.
  replace (x_root _ _) with (filed_at b1 false (cpu t) x).
  - eapply worked_core; [|exact S]. core_eq.
  - unfold filed_at, x_root. by rewrite U2.
Qed.

Lemma settled_only w0 g0 w g w' E p c t t0 x : only p w0 g0 w g -> core t = core t0 ->
  settled w g w' E p c t x -> settled w0 g0 w' E p c t0 x.
Proof.
  intros O Hc (b & th & Hth & S). exists b, th. split; [done|]. eapply worked_only; [done|].
  eapply worked_core; [|exact S]. core_eq.
Qed.

Lemma settled_calm w g w1 w' E p c t x : settled w g w1 E p c t x -> calm w1 w' ->
  settled w g w' E p c t x.
Proof. intros (b & th & Hth & S) C. exists b, th. split; [done|]. by eapply worked_calm. Qed.

(** The task waits for its timer, or is replenished at once. *)
Lemma await_work w w' g E p c t x (boosted : bool) : at_work w g E p t x -> parked w c p t x ->
  (if boosted then enqueue_task_dl w c p ENQUEUE_REPLENISH
   else '(w, started) ← start_dl_timer w p;
        if started : bool then Some w else enqueue_task_dl w c p ENQUEUE_REPLENISH) = Some w' ->
  settled w g w' E p c t x.
Proof.
  intros A K. destruct boosted; [by apply requeue_work|].
  intros ([w1 st] & H1 & H)%bind_Some. pose proof (start_timer_calm _ _ _ _ H1) as C1.
  destruct (work_calm _ _ _ _ _ _ _ A C1) as (t1 & A1 & Ec1).
  pose proof (calm_only p w w1 g C1) as O1. eapply settled_only; [done|done|].
  pose proof (core_parked _ _ _ _ _ _ _ _ _ O1 Ec1 K) as K1. destruct st; [|by apply requeue_work].
  injection H as <-. destruct K1 as [(U1 & U2 & U3 & U4) Hc].
  apply settled_same; [done| |done|congruence|apply only_refl].
  split; [by rewrite U1, U3|by rewrite U2, U4].
Qed.

Lemma check_throttle_work w w' g E p c t x : at_work w g E p t x -> runs w c p t x ->
  on_tree (dl t) = true -> dl_task t = true ->
  check_throttle w c p = Some w' -> settled w g w' E p c t x.
Proof.
  intros A R Ht Hd. pose proof R as [P Hcpu Hpush Hthr Hb Hn Hon Hat Hcur].
  specialize (Hcpu Ht). unfold check_throttle. intros (t0 & Ht0 & H)%bind_Some.
  rewrite (aw_task _ _ _ _ _ _ A) in Ht0. injection Ht0 as <-.
  destruct (must_throttle (dl t)).
  2:{ injection H as <-. apply settled_same; [done..|apply only_refl]. }
  apply bind_Some in H as (w1 & H1 & (w2 & H2 & (t2 & Ht2 & (w3 & H3 & (q & Hq & H)%bind_Some)
    %bind_Some)%bind_Some)%bind_Some).
  destruct (thr_work _ _ _ _ _ _ _ _ true A (fun e _ => throttle_core e) H1) as (g1 & t1 & A1 & Ec1 & O1).
  assert (Ecpu : cpu t1 = c) by (rewrite <- Hcpu; core_eq).
  destruct (__dequeue_task_work w1 w2 g1 E p t1 x) as (g2 & t2' & A2 & Ec2 & O2);
    [done|by apply (core_placed (with_thr true t))|by rewrite Ecpu|].
  rewrite (aw_task _ _ _ _ _ _ A2) in Ht2. injection Ht2 as ->.
  pose proof (only_trans _ _ _ _ _ _ _ O1 O2) as O12. rewrite Ecpu in A2.
  apply await_work with (g := g2) (E := E) (t := t2) (x := filed_at false false c x) in H3; [|done|].
  - eapply settled_calm; [|destruct (is_leftmost _ _); [injection H as <-; apply calm_refl|by eapply resched_calm]].
    destruct H3 as (b & th & Hth & S). exists b, th. split; [done|].
    replace (x_root _ x) with (x_root (if b then Some c else None) (filed_at false false c x)).
    + eapply worked_only; [done|]. eapply worked_core; [|exact S]. core_eq.
    + unfold x_root; simpl. destruct P as [_ ->]. by rewrite Hpush.
  - split; try done.
    + split_and!; [done|done|core_eq|core_eq].
    + rewrite <- Hcpu. core_eq.
    + destruct Hb. split; [by replace (dl_bw (dl t2)) with (dl_bw (dl t)) by core_eq|].
      replace (dl_bw (dl t2)) with (dl_bw (dl t)) by core_eq.
      by replace (dl_runtime (dl t2)) with (dl_runtime (dl t)) by core_eq.
    + replace (normal_prio t2) with (normal_prio t) by core_eq. by rewrite Hn.
    + by replace (on_rq t2) with (on_rq t) by core_eq.
    + by eapply only_current.
    + by eapply only_curr.
Qed.


(** *** The current task *)

Lemma update_curr_work w w' g E p c t x : at_work w g E p t x -> runs w c p t x ->
  update_curr_dl w c = Some w' -> settled w g w' E p c t x.
Proof.
  intros A R. pose proof R as [P Hcpu _ Hthr _ _ _ _ (q0 & Hq0 & Hp)]. unfold update_curr_dl.
  intros (q & Hq & (t0 & Ht0 & H)%bind_Some)%bind_Some.
  rewrite Hq0 in Hq. injection Hq as <-. rewrite Hp in *.
  rewrite (aw_task _ _ _ _ _ _ A) in Ht0. injection Ht0 as <-.
  destruct (negb (dl_task t) || _) eqn:Hd.
  { injection H as <-. apply settled_same; [done..|apply only_refl]. }
  apply orb_false_elim in Hd as [Hd%negb_false_iff Ht%negb_false_iff].
  destruct (s64 _ <=? 0).
  { destruct (dl_yielded (dl t)).
    - apply bind_Some in H as (w1 & H1 & H). apply (settled_calm w g w1); [by eapply check_throttle_work|].
      apply quiet_calm. quiet_chain.
    - injection H as <-. apply settled_same; [done..|apply only_refl]. }
  apply bind_Some in H as (w1 & H1 & H).
  assert (C1 : calm w w1) by (eapply on_task_calm; [|done]; intros; reflexivity).
  destruct (work_calm _ _ _ _ _ _ _ A C1) as (t1 & A1 & Ec1).
  pose proof (calm_only p w w1 g C1) as O1. eapply settled_only; [done|done|].
  pose proof (core_runs _ _ _ _ _ _ _ _ _ O1 Ec1 R) as R1.
  destruct (dl_entity_is_special (dl t)).
  { injection H as <-. pose proof R1 as [P1 Hcpu1 _ Hthr1]. apply settled_same; [done..|apply only_refl]. }
  apply bind_Some in H as (w2 & H2 & (w3 & H3 & H)%bind_Some).
  assert (C2 : calm w1 w2) by (eapply on_dl_calm; [|done]; intros; reflexivity).
  destruct (work_calm _ _ _ _ _ _ _ A1 C2) as (t2 & A2 & Ec2).
  pose proof (calm_only p w1 w2 g C2) as O2. eapply settled_only; [done|done|].
  apply (settled_calm w2 g w3); [|apply quiet_calm; quiet_chain].
  apply (check_throttle_work w2 w3 g E p c t2 x); [done|by apply (core_runs w1 w2 g g c p t1)| | |done].
  - rewrite <- Ht. core_eq.
  - rewrite <- Hd. unfold dl_task. f_equal. core_eq.
Qed.

(** Starting and finishing the work on a task. *)
Lemma enter w g E p t : holds w g E -> tref w p = Some t -> p ∉ E ->
  at_work w g (p :: E) p t (place_of t) /\ task_ok t.
Proof.
  intros [HQ [HL HT]] Ht Hp. destruct (HT p t Ht Hp) as [Hx Hok]. split; [|done].
  split; [|by left|done|done]. split; [done|]. split; [done|]. intros i t0 Hi HE. apply HT; [done|].
  intros Hin. apply HE. by right.
Qed.

Lemma leave w g E p t x : at_work w g (p :: E) p t x -> x = place_of t -> task_ok t -> holds w g E.
Proof.
  intros [[HQ [HL HT]] _ Ht Hx] -> Hok. split; [done|]. split; [done|]. intros i t0 Hi HE.
  destruct (decide (i = p)) as [->|Hne].
  - unfold tref in Ht. rewrite Hi in Ht. by injection Ht as <-.
  - apply HT; [done|]. by intros [|]%elem_of_cons.
Qed.

(** A task that may be current on CPU [c]: it is not pushable, and if it is queued
    then on that CPU. *)
Definition curr_ok (c : Z) (t : task) : Prop :=
  pushable t = false /\ (on_rq t = TASK_ON_RQ_QUEUED -> cpu t = c).

Lemma core_curr c t t' : core t' = core t -> curr_ok c t -> curr_ok c t'.
Proof.
  unfold curr_ok. intros Hc. replace (pushable t') with (pushable t) by core_eq.
  replace (on_rq t') with (on_rq t) by core_eq. by replace (cpu t') with (cpu t) by core_eq.
Qed.

(** The current tasks other than [p] exist and are where they may be. *)
Definition seated (w : world) (p : Z) : Prop :=
  forall c q, rref w c = Some q -> curr q <> p ->
    exists t, tref w (curr q) = Some t /\ curr_ok c t.

Lemma only_seated p w g w' g' : only p w g w' g' -> seated w p -> seated w' p.
Proof.
  intros (H & C & _) Hu c q' Hq' Hne. specialize (C c). rewrite Hq' in C.
  destruct (rref w c) as [q|] eqn:Hq; [|done]. injection C as C. rewrite C in *.
  destruct (Hu c q Hq Hne) as (t & Ht & Hp). destruct (H _ t Hne Ht) as (t' & Ht' & Ec).
  exists t'. split; [done|]. by eapply core_curr.
Qed.

Lemma place_with_tree b t c : (b = true -> cpu t = c) ->
  x_root (if b then Some c else None) (place_of t) = place_of (with_tree b t).
Proof. intros H. destruct b; [rewrite <- H by done|]; done. Qed.

Lemma ok_with_tree b th t : task_ok t -> (b = true -> on_tree (dl t) = true) ->
  (b = true -> th = false) -> pushable t = false -> task_ok (with_thr th (with_tree b t)).
Proof.
  intros [] Hb Hth Hp. split; try done.
  - simpl. intros ->. auto.
  - simpl. congruence.
  - simpl. destruct b; [|done]. by rewrite Hth.
Qed.

Lemma update_curr_step w w' g E c q t : holds w g E -> rref w c = Some q -> curr q ∉ E ->
  tref w (curr q) = Some t -> pushable t = false -> update_curr_dl w c = Some w' ->
  exists g', holds w' g' E /\ only (curr q) w g w' g' /\
    exists t' b th, tref w' (curr q) = Some t' /\ core t' = core (with_thr th (with_tree b t)).
Proof.
  intros Hh Hq Hn Ht Hpush H. set (p := curr q) in *.
  destruct (on_tree (dl t)) eqn:Htree.
  2:{ unfold update_curr_dl in H. rewrite Hq in H. simpl in H. fold p in H. rewrite Ht in H. simpl in H.
      rewrite Htree, orb_true_r in H. injection H as <-. exists g. split_and!; [done|apply only_refl|].
      exists t, false, (dl_throttled (dl t)). split; [done|]. unfold core; simpl. by rewrite Htree. }
  destruct (enter w g E p t Hh Ht Hn) as [A Hok]. pose proof Hok as [].
  assert (Hcpu : forall c0 q0, rref w c0 = Some q0 -> curr q0 = p -> cpu t = c0).
  { intros c0 q0 Hq0 Hp0. apply (qa_curr _ _ (proj1 Hh) c0 q0 (place_of t)); [done| |].
    - rewrite Hp0. apply (aw_place _ _ _ _ _ _ A).
    - simpl. by rewrite Htree. }
  pose proof (Hcpu c q Hq eq_refl) as Ec.
  destruct (update_curr_work w w' g (p :: E) p c t (place_of t)) as (b & th & Hth & g' & t' & A' & Ec' & O'); [done| |done|].
  { split; try done; [intros _; destruct (dl_throttled (dl t)); [by rewrite to_throttled0 in Htree|done]
      |by split; [|apply to_zero0]|destruct to_on_rq0 as [->| ->]; done| |eauto].
    intros c0 q0 Hq0 Hp0. by rewrite <- (Hcpu c0 q0). }
  rewrite place_with_tree in A' by done.
  exists g'. split_and!; [|done|].
  - eapply leave; [done|by rewrite (core_place _ _ Ec')|]. eapply core_ok; [done|].
    by apply ok_with_tree.
  - exists t', b, th. split; [apply (aw_task _ _ _ _ _ _ A')|done].
Qed.

(** The current tasks stay the same, and stay where they may be; no task but [p] moves
    to another CPU or changes whether it is pushable. *)
Definition steady (p : Z) (w w' : world) : Prop :=
  (forall c, curr <$> rref w' c = curr <$> rref w c) /\ (seated w p -> seated w' p) /\
  (forall i t, i <> p -> tref w i = Some t ->
     exists t', tref w' i = Some t' /\ pushable t' = pushable t /\ cpu t' = cpu t) /\
  length (tasks w') = length (tasks w).

Lemma steady_refl p w : steady p w w.
Proof. split_and!; eauto. Qed.

Lemma steady_trans p w1 w2 w3 : steady p w1 w2 -> steady p w2 w3 -> steady p w1 w3.
Proof.
  intros (C1 & U1 & T1 & L1) (C2 & U2 & T2 & L2). split_and!; [intros c; by rewrite C2, C1|auto| |congruence].
  intros i t Hi Ht. destruct (T1 i t Hi Ht) as (t1 & Ht1 & E1 & E2).
  destruct (T2 i t1 Hi Ht1) as (t2 & Ht2 & E3 & E4). exists t2. split_and!; congruence.
Qed.

Lemma only_steady p w g w' g' : only p w g w' g' -> steady p w w'.
Proof.
  intros O. split_and!; [apply O|by eapply only_seated| |apply O]. intros i t Hi Ht.
  destruct (proj1 O i t Hi Ht) as (t' & Ht' & Ec). exists t'. split_and!; [done|core_eq|core_eq].
Qed.

Lemma steady_rref p w w' c q' : steady p w w' -> rref w' c = Some q' ->
  exists q, rref w c = Some q /\ curr q = curr q'.
Proof.
  intros [C _] Hq. specialize (C c). rewrite Hq in C. destruct (rref w c) as [q|]; [|done].
  injection C as C. eauto.
Qed.

(** Accounting for the current task of the queue of [p], be it [p] itself or not. *)
Lemma update_curr_any w w' g p c t x q : at_work w g [p] p t x -> rref w c = Some q ->
  seated w p -> placed t x -> cpu t = c -> (curr q = p -> runs w c p t x) ->
  update_curr_dl w c = Some w' ->
  exists g' t' (b : bool) th, at_work w' g' [p] p t' (x_root (if b then Some c else None) x) /\
    core t' = core (with_thr th (with_tree b t)) /\ steady p w w'.
Proof.
  intros A Hq Hu P Hc Hr H. destruct (decide (curr q = p)) as [Hp|Hp].
  - destruct (update_curr_work _ _ _ _ _ _ _ _ A (Hr Hp) H) as (b & th & Hth & g' & t' & A' & Ec & O).
    exists g', t', b, th. split_and!; [done..|by eapply only_steady].
  - destruct (Hu c q Hq Hp) as (tc & Htc & Hpush & Hat).
    assert (Hn : curr q ∉ [p]) by (by intros ?%list_elem_of_singleton).
    destruct (update_curr_step _ _ _ _ _ _ _ (aw_holds _ _ _ _ _ _ A) Hq Hn Htc Hpush H)
      as (g' & Hh & O & tc' & b & th & Htc' & Ec).
    pose proof O as (O1 & O2 & O3 & OL).
    destruct (O1 p t ltac:(congruence) (aw_task _ _ _ _ _ _ A)) as (t' & Ht' & Et).
    exists g', t', (on_tree (dl t)), (dl_throttled (dl t)). rewrite x_root_id.
    + split_and!; [|core_eq|].
      * split; [done|apply A|done|]. rewrite O3 by congruence. apply (aw_place _ _ _ _ _ _ A).
      * split_and!; [done| | |done].
        2:{ intros i ti Hi Hti. destruct (decide (i = curr q)) as [->|Hic].
            - exists tc'. rewrite Htc in Hti. injection Hti as <-. split_and!; [done|core_eq|core_eq].
            - destruct (O1 i ti Hic Hti) as (ti' & Hti' & Ei). exists ti'. split_and!; [done|core_eq|core_eq]. }
        intros _ c0 q0 Hq0 Hne. specialize (O2 c0). rewrite Hq0 in O2.
        destruct (rref w c0) as [q1|] eqn:Hq1; [|done]. injection O2 as O2. rewrite O2 in *.
        destruct (Hu c0 q1 Hq1 Hne) as (t1 & Ht1 & Hp1).
        destruct (decide (curr q1 = curr q)) as [E|E].
        -- exists tc'. rewrite E in *. split; [done|]. rewrite Htc in Ht1. injection Ht1 as <-.
           destruct Hp1. split; [rewrite <- Hpush; core_eq|].
           replace (on_rq tc') with (on_rq tc) by core_eq. by replace (cpu tc') with (cpu tc) by core_eq.
        -- destruct (O1 (curr q1) t1 E Ht1) as (t2 & Ht2 & E2). exists t2. split; [done|].
           by eapply core_curr.
    + destruct P as [-> _]. destruct (on_tree (dl t)); congruence.
Qed.

(** The first half of [dequeue_task_dl]. *)
Lemma dequeue_half w w1 w' g p c t x q : at_work w g [p] p t x -> rref w c = Some q ->
  seated w p -> placed t x -> cpu t = c -> (curr q = p -> runs w c p t x) ->
  update_curr_dl w c = Some w1 -> __dequeue_task_dl w1 c p = Some w' ->
  exists g' t' th, at_work w' g' [p] p t' (filed_at false false c x) /\
    core t' = core (with_thr th (filed false false t)) /\ steady p w w'.
Proof.
  intros A Hq Hu P Hc Hr H1 H2.
  destruct (update_curr_any _ _ _ _ _ _ _ _ A Hq Hu P Hc Hr H1) as (g1 & t1 & b & th & A1 & Ec1 & S1).
  assert (Hc1 : cpu t1 = c) by (rewrite <- Hc; core_eq). rewrite <- Hc1 in H2.
  destruct (__dequeue_task_work w1 w' g1 [p] p t1 _ A1) as (g2 & t2 & A2 & Ec2 & O2); [|done|].
  - destruct P as [P1 P2]. split; simpl.
    + replace (on_tree (dl t1)) with b by core_eq. by rewrite Hc1.
    + rewrite P2, Hc, <- Hc1. by replace (pushable t1) with (pushable t) by core_eq.
  - exists g2, t2, th. rewrite Hc1 in A2. split_and!; [done|core_eq|].
    eapply steady_trans; [done|by eapply only_steady].
Qed.

End Enqueue.

End DeadlineBw.
