(* ===== verification/DeadlineInv.v ===== *)
(** The bandwidth sums of the deadline class are exact in every reachable world.

    The events of the class (ticks, yields, blocking and waking, scheduling,
    pushing, pulling and affinity moves, the two timers, changes of scheduling
    parameters, hotplug and global bandwidth changes) are composed from the
    operations of [Deadline]; every one of them preserves the invariant of
    [DeadlineBw], so the sums [this_bw] and [running_bw] of every run queue are those
    of the tasks, and the two trees hold the tasks that say so. *)

From Stdlib Require Import ZArith Lia List.
From stdpp Require Import base list numbers option.
From S2P Require Import Prelude RbTree Cpudl Cpupri Cbs Deadline DeadlineBw.

Module DeadlineInv.
Export DeadlineBw.
Import RbTree(rb_root_cached, rb_root, rb_leftmost, inorder).

Section Inv.
Context {pf : Platform}.

(** *** The invariant *)

(** The invariant of a world between events. *)
Definition inv (w : world) : Prop :=
  (exists g, holds w g []) /\
  forall c q, rref w c = Some q -> exists t, tref w (curr q) = Some t /\ curr_ok c t.

Lemma calm_inv w w' : inv w -> calm w w' -> inv w'.
Proof.
  intros [[g H] S] C. split; [exists g; by eapply calm_holds|].
  intros c q' Hq'. pose proof (calm_only 0 w w' g C) as (_ & O & _). specialize (O c).
  rewrite Hq' in O. destruct (rref w c) as [q|] eqn:Hq; [|done]. injection O as ->.
  destruct (S c q Hq) as (t & Ht & Hc).
  destruct (map_aref core _ _ _ _ (proj1 C) Ht) as (t' & Ht' & Ec).
  exists t'. split; [done|by eapply core_curr].
Qed.

Lemma quiet_inv w w' : inv w -> quiet w w' -> inv w'.
Proof. intros I Q. eapply calm_inv; [done|by apply quiet_calm]. Qed.

(** Where [p] is current, it may be. *)
Definition at_home (w : world) (p : Z) (t : task) : Prop :=
  forall c q, rref w c = Some q -> curr q = p -> curr_ok c t.

Lemma inv_open w p t : inv w -> tref w p = Some t ->
  exists g, at_work w g [p] p t (place_of t) /\ task_ok t /\ seated w p /\ at_home w p t.
Proof.
  intros [[g H] S] Ht. destruct (enter w g [] p t H Ht (not_elem_of_nil p)) as [A Hok].
  exists g. split_and!; [done|done| |].
  - intros c q Hq _. by apply S.
  - intros c q Hq Hp. destruct (S c q Hq) as (t' & Ht' & Hc). congruence.
Qed.

Lemma inv_close w g p t x : at_work w g [p] p t x -> x = place_of t -> task_ok t ->
  seated w p -> at_home w p t -> inv w.
Proof.
  intros A Hx Hok S Hh. split; [exists g; by eapply leave|]. intros c q Hq.
  destruct (decide (curr q = p)) as [Hp|Hp]; [|by apply S].
  exists t. split; [rewrite Hp; apply (aw_task _ _ _ _ _ _ A)|by eapply Hh].
Qed.

Lemma steady_home p w w' t t' : steady p w w' -> at_home w p t ->
  (forall c, curr_ok c t -> curr_ok c t') -> at_home w' p t'.
Proof.
  intros S H Ht c q' Hq' Hp. destruct (steady_rref _ _ _ _ _ S Hq') as (q & Hq & Ec).
  apply Ht. eapply H; [done|congruence].
Qed.

Lemma steady_current p w w' c : steady p w w' -> current_at w p c -> current_at w' p c.
Proof.
  intros S H c0 q' Hq' Hp. destruct (steady_rref _ _ _ _ _ S Hq') as (q & Hq & Ec).
  eapply H; [done|congruence].
Qed.

(** The end of an operation on [p], as far as its place is right. *)
Lemma steady_close w0 w g p t0 t x : steady p w0 w -> seated w0 p -> at_home w0 p t0 ->
  at_work w g [p] p t x -> x = place_of t -> task_ok t ->
  (forall c, curr_ok c t0 -> curr_ok c t) -> inv w.
Proof.
  intros S Se Hh A Hx Hok Hc. eapply inv_close; [done..|by apply S|by eapply steady_home].
Qed.

(** The charges of a deadline task. *)
Lemma place_this t : dl_task t = true -> pl_this (place_of t) = due (cpu t) t.
Proof. intros H. unfold place_of, counted, due; simpl. rewrite H. by destruct (dl_entity_is_special _). Qed.

Lemma place_run t : dl_task t = true ->
  pl_run (place_of t) = if active t then due (cpu t) t else None.
Proof.
  intros H. unfold place_of, counted, due; simpl. rewrite H.
  destruct (dl_entity_is_special _), (active t); done.
Qed.

Lemma place_other t : dl_task t = false ->
  pl_this (place_of t) = None /\ pl_run (place_of t) = None.
Proof. intros H. unfold place_of, counted; simpl. by rewrite H. Qed.

Lemma due_eq t t' c : flags (dl t') = flags (dl t) -> dl_bw (dl t') = dl_bw (dl t) -> due c t' = due c t.
Proof. unfold due, dl_entity_is_special. by intros -> ->. Qed.

(** *** Accounting for the current task *)

Lemma update_curr_keeps w c w' : inv w -> update_curr_dl w c = Some w' ->
  inv w' /\ (forall c0, curr <$> rref w' c0 = curr <$> rref w c0) /\
  forall q i t, rref w c = Some q -> i <> curr q -> tref w i = Some t ->
    exists t', tref w' i = Some t' /\ core t' = core t.
Proof.
  intros I H. destruct (rref w c) as [q|] eqn:Hq; [|unfold update_curr_dl in H; by rewrite Hq in H].
  pose proof I as [[g Hg] S]. destruct (S c q Hq) as (t & Ht & Hp & Hat).
  destruct (update_curr_step w w' g [] c q t Hg Hq (not_elem_of_nil _) Ht Hp H)
    as (g' & Hg' & O & t' & b & th & Ht' & Ec).
  split; [|split; [apply O|intros q0 i t0 Hq0; injection Hq0 as <-; apply O]].
  split; [by exists g'|]. intros c0 q0' Hq0'.
  pose proof (only_steady _ _ _ _ _ O) as St.
  destruct (steady_rref _ _ _ _ _ St Hq0') as (q0 & Hq0 & Ec0).
  destruct (decide (curr q0' = curr q)) as [Eq|Ne].
  - exists t'. rewrite Eq. split; [done|]. destruct (S c0 q0 Hq0) as (t0 & Ht0 & Hp0 & Hat0).
    assert (t0 = t) as -> by congruence. split; [rewrite <- Hp; core_eq|].
    replace (on_rq t') with (on_rq t) by core_eq. by replace (cpu t') with (cpu t) by core_eq.
  - eapply (proj2 St); [|done..]. intros c1 q1 Hq1 _. by apply S.
Qed.

Lemma update_curr_inv w c w' : inv w -> update_curr_dl w c = Some w' -> inv w'.
Proof. intros I H. by eapply update_curr_keeps. Qed.

(** *** Leaving a run queue *)

Lemma home_current w p t : at_home w p t -> on_rq t = TASK_ON_RQ_QUEUED -> current_at w p (cpu t).
Proof. intros H Hq c0 q0 Hq0 Hp. symmetry. by apply (H c0 q0). Qed.

(** [t1] is [t] in another state of queueing. *)
Definition restated (t t1 : task) : Prop :=
  dl t1 = dl t /\ cpu t1 = cpu t /\ pushable t1 = pushable t /\ prio t1 = prio t /\
  normal_prio t1 = normal_prio t /\ policy t1 = policy t /\ static_prio t1 = static_prio t.

Lemma dequeue_start w w1 w' g p t t1 q : at_work w g [p] p t1 (place_of t) -> restated t t1 ->
  task_ok t -> on_rq t = TASK_ON_RQ_QUEUED -> rref w (cpu t) = Some q ->
  seated w p -> at_home w p t -> (on_rq t1 = TASK_ON_RQ_MIGRATING -> not_current w p) ->
  update_curr_dl w (cpu t) = Some w1 -> __dequeue_task_dl w1 (cpu t) p = Some w' ->
  exists g' t' th, at_work w' g' [p] p t' (filed_at false false (cpu t) (place_of t)) /\
    core t' = core (with_thr th (filed false false t1)) /\ steady p w w'.
Proof.
  intros A (R1 & R2 & R3 & R4 & R5 & R6 & R7) Hok Hon Hq Se Hh Hm. pose proof Hok as [].
  eapply dequeue_half; [done|done|done| |done|].
  - split; simpl; by rewrite ?R1, ?R2, ?R3.
  - intros Hp. destruct (Hh _ _ Hq Hp) as [Hpu _]. split; rewrite ?R1, ?R3; try done.
    + split; simpl; by rewrite ?R1, ?R2, ?R3.
    + intros Ht. destruct (dl_throttled (dl t)); [by rewrite to_throttled0 in Ht|done].
    + unfold bw_ok. rewrite R1. split; [done|apply to_zero0].
    + unfold dl_task. rewrite R4, R5. done.
    + intros E. by apply (Hm E _ _ Hq).
    + by apply home_current.
    + eauto.
Qed.

Lemma work_quiet w w' g E p t x : at_work w g E p t x -> quiet w w' ->
  at_work w' g E p t x /\ only p w g w' g.
Proof.
  intros [H He Ht Hx] Q. split; [|by apply calm_only, quiet_calm].
  split; [by eapply quiet_holds|done| |done]. by rewrite (quiet_tref w).
Qed.

(** A parameter-less task, as a task leaves it behind. *)
Definition cleared (p : Z) (t : task) : task := t_dl (__dl_clear_params p (dl t)) t.

(** The state matters for a dead task only. *)
Lemma ok_state t : task_ok (t_state TASK_RUNNING t) -> state t <> TASK_WAKING -> on_rq t = 0 ->
  (state t = TASK_DEAD -> counted t = true -> dl_non_contending (dl t) = false -> dl_bw (dl t) = 0) ->
  task_ok t.
Proof. intros [] Hs Hd Hg. by split. Qed.

Lemma cleared_ok p t : task_ok (t_state TASK_RUNNING t) -> state t <> TASK_WAKING ->
  (state t = TASK_DEAD -> on_rq t = 0) -> task_ok (cleared p t).
Proof. intros [] Hs Hd. split; try done. Qed.

Lemma clear_work w w1 w' g E p t x d b n : at_work w g E p t x -> __dl_sub w d b n = Some w1 ->
  on_dl w1 p (__dl_clear_params p) = Some w' -> worked w g w' E p (cleared p t) x.
Proof.
  intros A H1 H. destruct (work_quiet _ _ _ _ _ _ _ A (__dl_sub_quiet _ _ _ _ _ H1)) as [A1 O1].
  destruct (work_task _ _ _ _ _ _ _ _ A1 H) as [A2 O2].
  eapply worked_intro; [done|by eapply only_trans].
Qed.

Lemma cleared_place p t : dl_task t = true -> place_of (cleared p t) =
  x_run None (x_this None (place_of t)).
Proof.
  intros H. unfold place_of, counted, dl_task in *. simpl. rewrite H. unfold stake. simpl.
  by destruct (active _).
Qed.

Lemma place_nc t : counted t = true ->
  x_run (due (cpu t) t) (place_of t) = place_of (with_nc true t).
Proof.
  intros H. unfold place_of, due. change (counted (with_nc true t)) with (counted t). rewrite H.
  unfold counted in H. apply andb_prop in H as [_ H%negb_true_iff]. rewrite H.
  unfold active; simpl. by rewrite orb_true_r.
Qed.

(** A blocking task, still charged as a running one. *)
Lemma non_contending_sleep w w' g p t : at_work w g [p] p t (x_run (due (cpu t) t) (place_of t)) ->
  task_ok (t_state TASK_RUNNING t) -> state t <> TASK_WAKING -> dl_task t = true -> on_rq t = 0 ->
  dl_non_contending (dl t) = false -> task_non_contending w p = Some w' ->
  exists t', worked w g w' [p] p t' (place_of t') /\ task_ok t' /\ forall c, curr_ok c t -> curr_ok c t'.
Proof.
  intros A Hok Hs Hd Hon Hnc H. pose proof Hok as []. simpl in *. unfold task_non_contending in H.
  rewrite (aw_task _ _ _ _ _ _ A) in H. simpl in H. apply bind_Some in H as (q & Hq & H).
  assert (Hrun : pl_run (place_of t) = None).
  { rewrite place_run by done. unfold active, task_on_rq_queued. by rewrite Hon, Hnc. }
  assert (Hnone : due (cpu t) t = None -> worked w g w [p] p t (place_of t)).
  { intros E. rewrite E, x_run_id in A by done. eapply worked_intro; [done|apply only_refl]. }
  destruct (Z.eqb_spec (dl_runtime (dl t)) 0) as [Hr|Hr].
  { injection H as <-. destruct (to_zero0 Hr) as [Hz _]. exists t.
    split_and!; [|by apply ok_state|done]. apply Hnone.
    unfold due, stake. rewrite Hz. by destruct (dl_entity_is_special _). }
  destruct (dl_entity_is_special (dl t)) eqn:Hsp.
  { injection H as <-. exists t. split_and!; [|apply ok_state; [done..|]|done].
    - apply Hnone. unfold due. by rewrite Hsp.
    - unfold counted. by rewrite Hsp, andb_false_r. }
  destruct (_ || _).
  2:{ destruct (work_task _ _ _ _ _ _ _ _ A H) as [A1 O1].
      assert (Hco : counted t = true) by (unfold counted; by rewrite Hd, Hsp).
      exists (with_nc true t). split_and!; [|by split|done].
      rewrite place_nc in A1 by done. exists g. eexists. split_and!; [exact A1|done|done]. }
  rewrite Hd in H. apply bind_Some in H as (w1 & H1 & H).
  destruct (sub_running_work _ _ _ _ _ _ _ (cpu t) A eq_refl to_bw0 H1) as (g1 & A1 & O1).
  change (x_run None (x_run _ ?x)) with (x_run None x) in A1. rewrite x_run_id in A1 by done.
  destruct (negb true || _) eqn:Hdead.
  2:{ injection H as <-. exists t. simpl in Hdead. apply Z.eqb_neq in Hdead.
      split_and!; [by eapply worked_intro|by apply ok_state|done]. }
  simpl in Hdead. rewrite Hdead in H. apply bind_Some in H as (w2 & H2 & (n & Hn & (w3 & H3 & H)%bind_Some)%bind_Some).
  destruct (sub_rq_work _ _ _ _ _ _ _ (cpu t) A1 (place_this t Hd) to_bw0 H2) as (g2 & A2 & O2).
  exists (cleared p t). split_and!; [|by apply cleared_ok|done].
  rewrite cleared_place, x_run_id by done.
  eapply worked_only; [by eapply only_trans|]. by eapply clear_work.
Qed.

Lemma restated_home w w' p t t1 : steady p w w' -> at_home w p t -> restated t t1 ->
  (on_rq t1 = TASK_ON_RQ_QUEUED -> on_rq t = TASK_ON_RQ_QUEUED) -> at_home w' p t1.
Proof.
  intros S H (R1 & R2 & R3 & R4 & R5 & R6 & R7) Hq. eapply steady_home; [done..|].
  unfold curr_ok. rewrite R2, R3. tauto.
Qed.

Lemma queued_nc t : task_ok t -> on_rq t = TASK_ON_RQ_QUEUED -> dl_non_contending (dl t) = false.
Proof.
  intros Hok Hon. destruct (dl_non_contending (dl t)) eqn:E; [|done].
  destruct (to_nc _ Hok E) as [E0 _]. by rewrite Hon in E0.
Qed.

Lemma off_tree t : task_ok t -> dl_task t = false -> on_tree (dl t) = false /\ pushable t = false.
Proof.
  intros [] Hd. assert (T : on_tree (dl t) = false).
  { destruct (on_tree (dl t)); [|done]. destruct (to_tree0 eq_refl). congruence. }
  split; [done|]. destruct (pushable t); [|done]. by rewrite to_push0 in T.
Qed.

(** A blocked task is off the trees. *)
Lemma restated_ok t t1 th : restated t t1 -> task_ok t -> on_rq t1 = 0 ->
  dl_non_contending (dl t) = false ->
  task_ok (t_state TASK_RUNNING (with_thr th (filed false false t1))).
Proof.
  intros (R1 & R2 & R3 & R4 & R5 & R6 & R7) [] Hon Hnc.
  split; unfold counted, dl_task, task_has_dl_policy in *; simpl; rewrite ?R1, ?R4, ?R5, ?R6, ?R7; auto.
  - by rewrite Hnc.
  - done.
  - done.
Qed.

(** A task going to sleep: [t1] is [t] with [on_rq] cleared. *)
Lemma dequeue_sleep w w' g p t t1 : at_work w g [p] p t1 (place_of t) -> restated t t1 ->
  task_ok t -> on_rq t = TASK_ON_RQ_QUEUED -> on_rq t1 = 0 -> state t1 <> TASK_WAKING ->
  seated w p -> at_home w p t ->
  dequeue_task w (cpu t) p (Z.lor DEQUEUE_SLEEP DEQUEUE_NOCLOCK) = Some w' -> inv w'.
Proof.
  intros A R Hok Hon Hon1 Hs1 Se Hh H. pose proof R as (R1 & R2 & R3 & R4 & R5 & R6 & R7).
  assert (Hnc : dl_non_contending (dl t) = false) by (by apply queued_nc).
  assert (Hh1 : at_home w p t1).
  { eapply restated_home; [apply steady_refl|done|done|]. by rewrite Hon1. }
  unfold dequeue_task in H. rewrite (aw_task _ _ _ _ _ _ A) in H. simpl in H.
  destruct (dl_task t1) eqn:Hd.
  2:{ injection H as <-.
      assert (Hd' : dl_task t = false) by (rewrite <- Hd; unfold dl_task; by rewrite R4).
      eapply inv_close; [done| | |done|done].
      - unfold place_of, counted. by rewrite Hd, Hd', R1, R2, R3.
      - destruct (off_tree t Hok Hd') as [T1 T2].
        apply ok_state; [|done..|unfold counted; by rewrite Hd].
        apply (core_ok (t_state TASK_RUNNING (with_thr (dl_throttled (dl t1)) (filed false false t1))));
          [|by eapply restated_ok]. unfold core; simpl. by rewrite R3, T2, R1, T1. }
  unfold dequeue_task_dl in H. apply bind_Some in H as (w1 & H1 & (w2 & H2 & (t2 & Ht2 & H)%bind_Some)%bind_Some).
  assert (Hq : exists q, rref w (cpu t) = Some q).
  { unfold update_curr_dl in H1. destruct (rref w (cpu t)); [eauto|done]. }
  destruct Hq as [q Hq].
  destruct (dequeue_start w w1 w2 g p t t1 q A R Hok Hon Hq Se Hh ltac:(by rewrite Hon1) H1 H2)
    as (g2 & t2' & th & A2 & Ec2 & S2).
  rewrite (aw_task _ _ _ _ _ _ A2) in Ht2. injection Ht2 as ->.
  replace ((on_rq t2 =? TASK_ON_RQ_MIGRATING) || _) with false in H.
  2:{ replace (on_rq t2) with (on_rq t1) by core_eq. by rewrite Hon1. }
  simpl in H.
  assert (Hok2 : task_ok (t_state TASK_RUNNING t2)).
  { apply (core_ok (t_state TASK_RUNNING (with_thr th (filed false false t1)))); [core_eq|].
    by eapply restated_ok. }
  assert (Hd2 : dl_task t2 = true) by (rewrite <- Hd; unfold dl_task; f_equal; core_eq).
  assert (Hc2 : cpu t2 = cpu t) by (rewrite <- R2; core_eq).
  destruct (non_contending_sleep w2 w' g2 p t2) as (t3 & (g3 & t3' & A3 & Ec3 & O3) & Hok3 & Hc3); try done.
  - replace (x_run _ _) with (filed_at false false (cpu t) (place_of t)); [done|].
    assert (Hdt : dl_task t = true) by (rewrite <- Hd; unfold dl_task; by rewrite R4).
    rewrite (due_eq t t2 (cpu t2)) by (rewrite <- R1; core_eq).
    unfold filed_at, x_run. rewrite !place_this, place_run by done. unfold active, task_on_rq_queued.
    rewrite Hon, (due_eq t t2 (cpu t2)), Hc2 by (rewrite <- R1; core_eq). simpl.
    replace (on_tree (dl t2)) with false by core_eq. by replace (pushable t2) with false by core_eq.
  - replace (state t2) with (state t1) by core_eq. done.
  - rewrite <- Hon1. core_eq.
  - rewrite <- Hnc, <- R1. core_eq.
  - eapply (steady_close w w' g3 p t1 t3'); [|done|done|done|symmetry; by apply core_place|by eapply core_ok|].
    + eapply steady_trans; [done|by eapply only_steady].
    + intros c Hc. eapply core_curr; [done|]. apply Hc3. unfold curr_ok in *. simpl.
      replace (on_rq t2) with (on_rq t1) by core_eq. rewrite Hon1.
      split; [core_eq|done].
Qed.

Lemma block_inv w c st ck w' : inv w -> st <> TASK_WAKING ->
  (forall q t, rref w c = Some q -> tref w (curr q) = Some t -> on_rq t = TASK_ON_RQ_QUEUED) ->
  block_current w c st ck = Some w' -> inv w'.
Proof.
  intros I Hst Hguard H. unfold block_current in H.
  apply bind_Some in H as (q & Hq & (w1 & H1 & (w2 & H2 & H)%bind_Some)%bind_Some).
  destruct (proj2 I c q Hq) as (t & Ht & Hpu & Hc). specialize (Hguard q t Hq Ht). specialize (Hc Hguard).
  destruct (inv_open w _ t I Ht) as (g & A & Hok & Se & Hh).
  destruct (work_task _ _ _ _ _ _ _ _ A H1) as [A1 O1].
  destruct (work_quiet _ _ _ _ _ _ _ A1 (update_rq_clock_quiet _ _ _ _ H2)) as [A2 O2].
  unfold deactivate_task in H. apply bind_Some in H as (w3 & H3 & H).
  destruct (work_task _ _ _ _ _ _ _ _ A2 H3) as [A3 O3]. simpl in A3. rewrite <- Hc in H.
  pose proof (only_steady _ _ _ _ _ (only_trans _ _ _ _ _ _ _ O1 (only_trans _ _ _ _ _ _ _ O2 O3))) as S3.
  eapply (dequeue_sleep w3 w' g (curr q) t); [exact A3|done..| | |done].
  - by apply S3.
  - by eapply steady_home.
Qed.

(** *** Joining a run queue *)

(** A deadline task fit to be queued. *)
Record ready (t : task) : Prop := {
  rd_bw : bw_ok t;
  rd_prio : dl_prio (normal_prio t) = true;
  rd_policy : task_has_dl_policy t = true;
  rd_task : dl_task t = true;
  rd_static : 0 <= static_prio t
}.

(** The same of a task of any class. *)
Definition fit (t : task) : Prop :=
  bw_ok t /\ dl_prio (normal_prio t) = dl_task t /\ task_has_dl_policy t = dl_task t /\
  0 <= static_prio t.

Lemma core_fit t t' : core t' = core t -> fit t -> fit t'.
Proof.
  intros Hc. unfold fit, task_has_dl_policy, dl_task.
  replace (normal_prio t') with (normal_prio t) by core_eq.
  replace (policy t') with (policy t) by core_eq. replace (prio t') with (prio t) by core_eq.
  replace (static_prio t') with (static_prio t) by core_eq.
  intros (H1 & H2). split; [by eapply core_bw_ok|done].
Qed.

Lemma ok_fit t : task_ok t -> fit t.
Proof. intros []. split_and!; [|done..]. split; [done|apply to_zero0]. Qed.

Lemma fit_ready t : fit t -> dl_task t = true -> ready t.
Proof. intros (H1 & H2 & H3 & H4) Hd. split; try congruence; done. Qed.

(** A queued one. *)
Record queued (t : task) : Prop := {
  qd_ready : ready t;
  qd_nc : dl_non_contending (dl t) = false;
  qd_push : pushable t = true -> on_tree (dl t) = true;
  qd_thr : dl_throttled (dl t) = true -> on_tree (dl t) = false
}.

Lemma core_ready t t' : core t' = core t -> ready t -> ready t'.
Proof.
  intros Hc [H1 H2 H3 H4 H5]. unfold task_has_dl_policy, dl_task in *. split.
  - by eapply core_bw_ok.
  - by replace (normal_prio t') with (normal_prio t) by core_eq.
  - unfold task_has_dl_policy. by replace (policy t') with (policy t) by core_eq.
  - unfold dl_task. by replace (prio t') with (prio t) by core_eq.
  - by replace (static_prio t') with (static_prio t) by core_eq.
Qed.

Lemma queued_ok t : queued t -> on_rq t = TASK_ON_RQ_QUEUED -> state t <> TASK_DEAD ->
  state t <> TASK_WAKING -> task_ok t.
Proof.
  intros [[[H1 H2] H3 H4 H5 H9] H6 H7 H8] Hon Hs1 Hs2.
  split; try done; try congruence; auto.
Qed.

Lemma enqueue_full w w' g p t x fl : at_work w g [p] p t x -> unfiled t x ->
  current_at w p (cpu t) -> ready t -> enqueues_from fl t x ->
  recharged fl t || has fl ENQUEUE_WAKEUP = true ->
  (has fl ENQUEUE_WAKEUP = true -> has fl ENQUEUE_REPLENISH = false) ->
  (has fl ENQUEUE_WAKEUP = false -> dl_non_contending (dl t) = false) ->
  enqueue_task_dl w (cpu t) p fl = Some w' ->
  exists g' t', at_work w' g' [p] p t' (place_of (t_on_rq TASK_ON_RQ_QUEUED t')) /\ queued t' /\
    only p w g w' g' /\ on_rq t' = on_rq t /\ state t' = state t /\ cpu t' = cpu t /\
    (pushable t' = true -> not_current w p).
Proof.
  intros A U Hcur Hr Hf Hfull Hfl Hnc H. pose proof Hr as [R1 R2 R3 R4 R5].
  destruct (enqueue_task_work w w' g [p] p t x fl A U Hcur R1 R2 Hf Hfl H)
    as (b1 & b2 & th & Hb2 & Hth & g' & t' & A' & Ec & O).
  set (tw := with_thr th (filed b1 b2 (woken fl t))) in *.
  assert (Hw : ready tw /\ dl_non_contending (dl tw) = false /\ on_tree (dl tw) = b1 /\ pushable tw = b2 /\
    dl_throttled (dl tw) = th /\ on_rq tw = on_rq t /\ state tw = state t /\ cpu tw = cpu t /\
    flags (dl tw) = flags (dl t) /\ dl_bw (dl tw) = dl_bw (dl t)).
  { unfold tw, woken in *. destruct (has fl ENQUEUE_WAKEUP), (has fl ENQUEUE_REPLENISH); split_and!; auto; by split. }
  destruct Hw as (W1 & W2 & W3 & W4 & W5 & W6 & W7 & W8 & W9 & W10).
  clearbody tw. exists g', t'. split_and!; [|split| done|..].
  - erewrite (core_place (t_on_rq TASK_ON_RQ_QUEUED tw)) by core_eq.
    unfold charged_at in A'. rewrite Hfull in A'.
    replace (place_of _) with (filed_at b1 b2 (cpu t) (full t x)); [done|].
    unfold place_of, filed_at, full, counted, active, due. simpl.
    change (dl_task (t_on_rq TASK_ON_RQ_QUEUED tw)) with (dl_task tw). rewrite (rd_task _ W1).
    simpl. rewrite W3, W4, W8. unfold dl_entity_is_special. rewrite W9, W10.
    by destruct (negb _) eqn:E; [apply negb_true_iff in E|apply negb_false_iff in E]; rewrite E.
  - by eapply core_ready.
  - rewrite <- W2. core_eq.
  - replace (pushable t') with b2 by (rewrite <- W4; core_eq).
    replace (on_tree (dl t')) with b1 by (rewrite <- W3; core_eq). tauto.
  - replace (dl_throttled (dl t')) with th by (rewrite <- W5; core_eq).
    replace (on_tree (dl t')) with b1 by (rewrite <- W3; core_eq). destruct b1; [|done].
    rewrite Hth by done. done.
  - rewrite <- W6. core_eq.
  - rewrite <- W7. core_eq.
  - rewrite <- W8. core_eq.
  - replace (pushable t') with b2 by (rewrite <- W4; core_eq). tauto.
Qed.

Definition nowhere : place := mk_place None None None None.

(** [p] is queued on CPU [n], and its state is all it may still lack. *)
Definition activated (w w' : world) (p n st : Z) : Prop :=
  exists g' t', at_work w' g' [p] p t' (place_of t') /\ on_rq t' = TASK_ON_RQ_QUEUED /\ cpu t' = n /\
    state t' = st /\ (forall s, s <> TASK_DEAD -> s <> TASK_WAKING -> task_ok (t_state s t')) /\
    (pushable t' = true -> not_current w p) /\ steady p w w'.

Lemma activate_dl w w' g p t x fl : at_work w g [p] p t x -> unfiled t x ->
  current_at w p (cpu t) -> ready t ->
  (let fl' := if on_rq t =? TASK_ON_RQ_MIGRATING then Z.lor fl ENQUEUE_MIGRATED else fl in
   enqueues_from fl' t x /\ recharged fl' t || has fl' ENQUEUE_WAKEUP = true /\
   (has fl' ENQUEUE_WAKEUP = true -> has fl' ENQUEUE_REPLENISH = false) /\
   (has fl' ENQUEUE_WAKEUP = false -> dl_non_contending (dl t) = false)) ->
  activate_task w (cpu t) p fl = Some w' -> activated w w' p (cpu t) (state t).
Proof.
  intros A U Hcur Hr (F1 & F2 & F3 & F4) H. unfold activate_task, enqueue_task in H.
  rewrite (aw_task _ _ _ _ _ _ A) in H. simpl in H. rewrite (rd_task _ Hr) in H.
  apply bind_Some in H as (w1 & H1 & H).
  destruct (enqueue_full w w1 g p t x _ A U Hcur Hr F1 F2 F3 F4 H1)
    as (g1 & t1 & A1 & Q1 & O1 & Eon & Est & Ecpu & Hp).
  destruct (work_task _ _ _ _ _ _ _ _ A1 H) as [A2 O2].
  exists g1. eexists. split_and!; [exact A2|done|done|done| |done|].
  - intros s Hs1 Hs2. apply queued_ok; [|done..]. destruct Q1 as [[] ? ? ?]. by split; [split|..].
  - eapply only_steady, only_trans; done.
Qed.

Lemma activate_other w w' g p t fl : at_work w g [p] p t nowhere -> dl_task t = false -> fit t ->
  on_tree (dl t) = false -> pushable t = false -> dl_non_contending (dl t) = false ->
  activate_task w (cpu t) p fl = Some w' -> activated w w' p (cpu t) (state t).
Proof.
  intros A Hd ([F1 F2] & F3 & F4 & F5) T1 T2 T3 H.
  unfold activate_task, enqueue_task in H. rewrite (aw_task _ _ _ _ _ _ A) in H. simpl in H.
  rewrite Hd in H. simpl in H. destruct (work_task _ _ _ _ _ _ _ _ A H) as [A2 O2].
  exists g, (t_on_rq TASK_ON_RQ_QUEUED t). split_and!; [|done..| | |by eapply only_steady].
  - replace (place_of _) with nowhere; [exact A2|]. unfold place_of, counted, dl_task in *. simpl.
    by rewrite Hd, T1, T2.
  - intros s Hs1 Hs2. split; simpl; rewrite ?T1, ?T2, ?T3; try done; auto.
  - simpl. by rewrite T2.
Qed.

Lemma activated_calm w w' w1 p n st : activated w w' p n st -> calm w' w1 -> activated w w1 p n st.
Proof.
  intros (g & t & A & Hon & Hc & Hst & Hok & Hp & S) C.
  destruct (work_calm _ _ _ _ _ _ _ A C) as (t1 & A1 & Ec). exists g, t1. split_and!.
  - by rewrite (core_place t t1 Ec).
  - rewrite <- Hon. core_eq.
  - rewrite <- Hc. core_eq.
  - rewrite <- Hst. core_eq.
  - intros s Hs1 Hs2. apply (core_ok (t_state s t)); [core_eq|auto].
  - by replace (pushable t1) with (pushable t) by core_eq.
  - eapply steady_trans; [done|]. by apply (only_steady p w' g w1 g), calm_only.
Qed.

Lemma activated_state w w' w1 p n st s : activated w w' p n st ->
  on_task w' p (t_state s) = Some w1 -> activated w w1 p n s.
Proof.
  intros (g & t & A & Hon & Hc & Hst & Hok & Hp & S) H.
  destruct (work_task _ _ _ _ _ _ _ _ A H) as [A1 O1]. exists g. eexists.
  split_and!; [exact A1|done|done|done|exact Hok|done|].
  eapply steady_trans; [done|by eapply only_steady].
Qed.

Lemma activated_inv w0 w w' p n st : activated w w' p n st -> steady p w0 w -> seated w0 p ->
  current_at w0 p n -> st <> TASK_DEAD -> st <> TASK_WAKING -> inv w'.
Proof.
  intros (g & t & A & Hon & Hc & Hst & Hok & Hp & S) S0 Se Hcur Hs1 Hs2.
  eapply inv_close; [exact A|done| |by apply S, S0|].
  - apply (core_ok (t_state st t)); [by unfold core; simpl; rewrite Hst|auto].
  - intros c q2 Hq2 Hp2. destruct (steady_rref _ _ _ _ _ S Hq2) as (q & Hq & Eq).
    assert (Hcq : curr q = p) by congruence.
    pose proof (steady_current _ _ _ _ S0 Hcur c q Hq Hcq) as ->. split; [|done].
    destruct (pushable t); [|done]. by destruct (Hp eq_refl n q Hq).
Qed.

(** *** Moving *)

Lemma migrate_task_work w w' g E p t x ck : at_work w g E p t x -> state t = TASK_WAKING ->
  bw_ok t -> pl_this x = due (cpu t) t ->
  pl_run x = (if dl_non_contending (dl t) then due (cpu t) t else None) ->
  migrate_task_rq_dl w p ck = Some w' ->
  worked w g w' E p (with_nc false t) (x_run None (x_this None x)).
Proof.
  intros A Hs [Hb _] Hthis Hrun H. unfold migrate_task_rq_dl in H.
  rewrite (aw_task _ _ _ _ _ _ A) in H. simpl in H. rewrite Hs in H. simpl in H.
  apply bind_Some in H as (w1 & H1 & H).
  assert (S1 : worked w g w1 E p (with_nc false t) (x_run None x)).
  { destruct (dl_non_contending (dl t)) eqn:Hnc.
    - apply bind_Some in H1 as (w2 & H2 & (w3 & H3 & H1)%bind_Some).
      destruct (work_quiet _ _ _ _ _ _ _ A (update_rq_clock_quiet _ _ _ _ H2)) as [A2 O2].
      destruct (sub_running_work _ _ _ _ _ _ _ (cpu t) A2 Hrun Hb H3) as (g3 & A3 & O3).
      destruct (work_task _ _ _ _ _ _ _ _ A3 H1) as [A4 O4]. exists g3. eexists.
      split_and!; [exact A4|apply cancel_core|eauto using only_trans].
    - injection H1 as <-. rewrite x_run_id by done. exists g, t.
      split_and!; [done|unfold core; simpl; by rewrite Hnc|apply only_refl]. }
  destruct S1 as (g1 & t1 & A1 & Ec & O1). eapply worked_only; [done|].
  assert (Hd : due (cpu t) t1 = due (cpu t) t) by (apply due_eq; core_eq).
  destruct (sub_rq_work w1 w' g1 E p t1 _ (cpu t) A1) as (g2 & A2 & O2); [by rewrite Hd| |done|].
  - by replace (dl_bw (dl t1)) with (dl_bw (dl t)) by core_eq.
  - exists g2, t1. done.
Qed.

Lemma blocked_place t : task_ok t -> on_rq t = 0 ->
  on_tree (dl t) = false /\ pushable t = false /\ pl_root (place_of t) = None /\
  pl_push (place_of t) = None /\
  pl_run (place_of t) = (if dl_non_contending (dl t) then pl_this (place_of t) else None).
Proof.
  intros [] Hon. assert (T : on_tree (dl t) = false).
  { destruct (on_tree (dl t)); [|done]. destruct (to_tree0 eq_refl) as [E _]. by rewrite Hon in E. }
  assert (P : pushable t = false) by (destruct (pushable t); [by rewrite to_push0 in T|done]).
  split_and!; [done|done|simpl; by rewrite T|simpl; by rewrite P|].
  simpl. unfold active, task_on_rq_queued. rewrite Hon. simpl.
  by destruct (counted t), (dl_non_contending (dl t)).
Qed.

Lemma set_cpu_waking w w' g p t n ck : task_ok t -> on_rq t = 0 -> n <> cpu t ->
  at_work w g [p] p (t_state TASK_WAKING t) (place_of t) -> set_task_cpu w p n ck = Some w' ->
  worked w g w' [p] p (t_cpu n (with_nc false (t_state TASK_WAKING t))) nowhere.
Proof.
  intros Hok Hon Hn A H. destruct (blocked_place t Hok Hon) as (T & P & B1 & B2 & B3).
  unfold set_task_cpu in H. rewrite (aw_task _ _ _ _ _ _ A) in H. simpl in H.
  rewrite (proj2 (Z.eqb_neq (cpu t) n)) in H by congruence. simpl in H.
  change (dl_task (t_state TASK_WAKING t)) with (dl_task t) in H.
  apply bind_Some in H as (w1 & H1 & H).
  assert (S1 : worked w g w1 [p] p (with_nc false (t_state TASK_WAKING t)) nowhere).
  { destruct (dl_task t) eqn:Hd.
    - replace nowhere with (x_run None (x_this None (place_of t)))
        by (unfold x_run, x_this; simpl; by rewrite T, P).
      eapply migrate_task_work; [done|done|by apply (ok_fit t)| | |done].
      + by rewrite place_this.
      + rewrite B3, place_this; done.
    - injection H1 as <-. destruct (place_other t Hd) as [E1 E2].
      replace (place_of t) with nowhere in A by (clear B3; destruct (place_of t); simpl in *; by subst).
      exists g. eexists. split_and!; [exact A| |apply only_refl].
      destruct (dl_non_contending (dl t)) eqn:Hnc; [|unfold core; simpl; by rewrite Hnc].
      destruct (to_nc _ Hok Hnc) as [_ E]. unfold counted in E. by rewrite Hd in E. }
  destruct S1 as (g1 & t1 & A1 & Ec & O1). destruct (work_task _ _ _ _ _ _ _ _ A1 H) as [A2 O2].
  exists g1. eexists. split_and!; [exact A2|core_eq|by eapply only_trans].
Qed.

(** A task taken off for a move or a change of its parameters leaves nothing behind. *)
Lemma leave_work w w' g p t t1 fl : at_work w g [p] p t1 (place_of t) -> restated t t1 -> task_ok t ->
  on_rq t = TASK_ON_RQ_QUEUED -> seated w p -> at_home w p t ->
  (on_rq t1 = TASK_ON_RQ_MIGRATING -> not_current w p) ->
  (on_rq t1 =? TASK_ON_RQ_MIGRATING) || has fl DEQUEUE_SAVE = true -> has fl DEQUEUE_SLEEP = false ->
  dequeue_task w (cpu t) p fl = Some w' ->
  exists g' t' th, at_work w' g' [p] p t' nowhere /\ steady p w w' /\
    core t' = core (with_thr th (filed false false t1)).
Proof.
  intros A R Hok Hon Se Hh Hm Hsave Hsl H. pose proof R as (R1 & R2 & R3 & R4 & R5 & R6 & R7).
  unfold dequeue_task in H. rewrite (aw_task _ _ _ _ _ _ A) in H. simpl in H.
  assert (Hdt : dl_task t1 = dl_task t) by (unfold dl_task; by rewrite R4). rewrite Hdt in H.
  destruct (dl_task t) eqn:Hd.
  2:{ injection H as <-. destruct (off_tree t Hok Hd) as [T P]. destruct (place_other t Hd) as [E1 E2].
      exists g, t1, (dl_throttled (dl t1)). split_and!; [|apply steady_refl|].
      - replace nowhere with (place_of t); [exact A|]. unfold place_of, counted. by rewrite Hd, T, P.
      - unfold core; simpl. by rewrite R1, R3, T, P. }
  unfold dequeue_task_dl in H. apply bind_Some in H as (w2 & H2 & (w3 & H3 & (t3 & Ht3 & H)%bind_Some)%bind_Some).
  assert (Hq : exists q, rref w (cpu t) = Some q).
  { unfold update_curr_dl in H2. destruct (rref w (cpu t)); [eauto|done]. }
  destruct Hq as [q Hq].
  destruct (dequeue_start w w2 w3 g p t t1 q A R Hok Hon Hq Se Hh Hm H2 H3) as (g3 & t3' & th & A3 & Ec & S3).
  rewrite (aw_task _ _ _ _ _ _ A3) in Ht3. injection Ht3 as ->.
  replace (on_rq t3) with (on_rq t1) in H by core_eq. rewrite Hsave, Hsl in H. simpl in H.
  assert (Hdue : due (cpu t) t3 = due (cpu t) t) by (apply due_eq; rewrite <- R1; core_eq).
  assert (Hb : 0 <= dl_bw (dl t3) <= 2 ^ 20).
  { replace (dl_bw (dl t3)) with (dl_bw (dl t)) by (rewrite <- R1; core_eq). apply Hok. }
  apply bind_Some in H as (w4 & H4 & [= <-]). apply bind_Some in H4 as (w5 & H5 & H4).
  destruct (sub_running_work w3 w5 g3 [p] p t3 _ (cpu t) A3) as (g5 & A5 & O5); [|done|done|].
  { rewrite Hdue. cbn [pl_run filed_at]. rewrite place_run by done. unfold active, task_on_rq_queued.
    by rewrite Hon. }
  destruct (sub_rq_work w5 w4 g5 [p] p t3 _ (cpu t) A5) as (g4 & A4 & O4); [|done|done|].
  { rewrite Hdue. cbn [pl_this filed_at x_run]. by rewrite place_this. }
  exists g4, t3, th. split_and!; [exact A4| |done].
  eapply steady_trans; [done|]. by eapply only_steady, only_trans.
Qed.

Lemma deactivate_work w w' p t : inv w -> tref w p = Some t -> on_rq t = TASK_ON_RQ_QUEUED ->
  not_current w p -> deactivate_task w (cpu t) p 0 = Some w' ->
  exists g' t' th, at_work w' g' [p] p t' nowhere /\ steady p w w' /\
    core t' = core (with_thr th (filed false false (t_on_rq TASK_ON_RQ_MIGRATING t))).
Proof.
  intros I Ht Hon Hnc H. destruct (inv_open w p t I Ht) as (g & A & Hok & Se & Hh).
  unfold deactivate_task in H. apply bind_Some in H as (w1 & H1 & H).
  destruct (work_task _ _ _ _ _ _ _ _ A H1) as [A1 O1]. simpl in A1.
  pose proof (only_steady _ _ _ _ _ O1) as S1.
  destruct (leave_work w1 w' g p t _ 0 A1 ltac:(done) Hok Hon) as (g2 & t2 & th & A2 & S2 & Ec); try done.
  - by apply S1.
  - by eapply steady_home.
  - intros _ c0 q0 Hq0. destruct (steady_rref _ _ _ _ _ S1 Hq0) as (q1 & Hq1 & <-). by apply (Hnc c0).
  - exists g2, t2, th. split_and!; [done|by eapply steady_trans|done].
Qed.

(** Migration concerns a waking task only. *)
Lemma set_cpu_work w w' g E p t x n ck : at_work w g E p t x -> state t <> TASK_WAKING ->
  set_task_cpu w p n ck = Some w' -> at_work w' g E p (t_cpu n t) x /\ only p w g w' g.
Proof.
  intros A Hs H. unfold set_task_cpu in H. rewrite (aw_task _ _ _ _ _ _ A) in H. simpl in H.
  apply bind_Some in H as (w1 & H1 & H). assert (w1 = w) as ->.
  { destruct (_ && _); [|congruence]. unfold migrate_task_rq_dl in H1.
    rewrite (aw_task _ _ _ _ _ _ A) in H1. simpl in H1.
    rewrite (proj2 (Z.eqb_neq (state t) TASK_WAKING) Hs) in H1. simpl in H1. congruence. }
  by eapply work_task.
Qed.

Lemma move_keeps w w' p t n ck : inv w -> tref w p = Some t -> on_rq t = TASK_ON_RQ_QUEUED ->
  not_current w p -> move_task w (cpu t) p n ck = Some w' ->
  inv w' /\ steady p w w' /\ exists t', tref w' p = Some t' /\ cpu t' = n.
Proof.
  intros I Ht Hon Hnc H. destruct (inv_open w p t I Ht) as (g & A & Hok & Se & Hh).
  unfold move_task in H. apply bind_Some in H as (w1 & H1 & (w2 & H2 & H)%bind_Some).
  destruct (deactivate_work w w1 p t I Ht Hon Hnc H1) as (g1 & t1 & th & A1 & S1 & Ec1).
  destruct (set_cpu_work w1 w2 g1 [p] p t1 nowhere n ck A1) as [A2 O2];
    [replace (state t1) with (state t) by core_eq; apply Hok|done|].
  pose proof (steady_trans _ _ _ _ S1 (only_steady _ _ _ _ _ O2)) as S2.
  assert (Hf : fit (t_cpu n t1)).
  { apply (core_fit (t_cpu n (with_thr th (filed false false (t_on_rq TASK_ON_RQ_MIGRATING t))))); [core_eq|].
    by apply (ok_fit t). }
  assert (Hnc2 : not_current w2 p).
  { intros c q Hq. destruct (steady_rref _ _ _ _ _ S2 Hq) as (q0 & Hq0 & <-). by apply (Hnc c). }
  assert (Hc2 : current_at w2 p n) by (intros c q Hq Hp; by destruct (Hnc2 c q Hq)).
  assert (Hon1 : on_rq (t_cpu n t1) = TASK_ON_RQ_MIGRATING) by core_eq.
  assert (Hn1 : dl_non_contending (dl t1) = false) by (rewrite <- (queued_nc t Hok Hon); core_eq).
  assert (T1 : on_tree (dl t1) = false) by core_eq. assert (P1 : pushable t1 = false) by core_eq.
  assert (Ac : activated w2 w' p n (state t1)).
  { change n with (cpu (t_cpu n t1)) in H. change (state t1) with (state (t_cpu n t1)).
    change n with (cpu (t_cpu n t1)) at 1.
    destruct (dl_task (t_cpu n t1)) eqn:Hd; [|by eapply activate_other].
    eapply (activate_dl w2 w' g1 p _ nowhere 0); [done|done|done|by apply fit_ready| |done].
    rewrite Hon1. simpl. unfold enqueues_from, recharged. rewrite Hon1. done. }
  split.
  2:{ destruct Ac as (g3 & t3 & A3 & _ & Hc3 & _ & _ & _ & S3). split; [by eapply steady_trans|].
      exists t3. split; [apply (aw_task _ _ _ _ _ _ A3)|done]. }
  apply (activated_inv w w2 w' p n (state t1)); [done..| | |].
  - intros c q Hq Hp. by destruct (Hnc c q Hq).
  - replace (state t1) with (state t) by core_eq. intros E. pose proof (to_dead _ Hok E) as E0.
    by rewrite Hon in E0.
  - replace (state t1) with (state t) by core_eq. apply Hok.
Qed.

Lemma move_inv w w' p t n ck : inv w -> tref w p = Some t -> on_rq t = TASK_ON_RQ_QUEUED ->
  not_current w p -> move_task w (cpu t) p n ck = Some w' -> inv w'.
Proof. intros. by eapply move_keeps. Qed.

(** *** Pushing and pulling *)

Lemma place_task w g p x : holds w g [] -> aref g p = Some x ->
  exists t, tref w p = Some t /\ x = place_of t /\ task_ok t.
Proof.
  intros [_ [HL HT]] Hx. pose proof (aref_Some_range _ _ _ Hx) as Hr. rewrite HL in Hr.
  destruct (tref w p) as [t|] eqn:Ht.
  - destruct (HT p t Ht (not_elem_of_nil p)) as [Hx' Hok]. exists t. split_and!; congruence.
  - exfalso. unfold tref, aref in Ht. destruct (Z.leb_spec 0 p); [|lia].
    apply lookup_ge_None in Ht. lia.
Qed.

Lemma pushable_task w c q p : inv w -> rref w c = Some q ->
  p ∈ inorder (rb_root (pushable_dl_tasks_root (dlq q))) ->
  exists t, tref w p = Some t /\ cpu t = c /\ on_rq t = TASK_ON_RQ_QUEUED /\ not_current w p.
Proof.
  intros [[g H] S] Hq Hp. pose proof H as [HQ _].
  destruct (ra_push _ _ _ (qa_rq _ _ HQ c q Hq)) as (_ & _ & L). apply L in Hp as (x & Hx & Hs).
  destruct (place_task w g p x H Hx) as (t & Ht & -> & Hok). simpl in Hs.
  destruct (pushable t) eqn:Hpu; [|done]. injection Hs as Hs.
  exists t. split_and!; [done|done| |].
  - apply (to_tree t Hok), (to_push t Hok), Hpu.
  - intros c0 q0 Hq0 Hc0. destruct (S c0 q0 Hq0) as (t0 & Ht0 & Hp0 & _). congruence.
Qed.

Lemma first_pushable w c q p : inv w -> rref w c = Some q ->
  rb_leftmost (pushable_dl_tasks_root (dlq q)) = Some p ->
  p ∈ inorder (rb_root (pushable_dl_tasks_root (dlq q))).
Proof.
  intros [[g [HQ _]] _] Hq Hl. destruct (ra_push _ _ _ (qa_rq _ _ HQ c q Hq)) as (_ & F & _).
  simpl in F. rewrite F in Hl. destruct (inorder _); [done|]. injection Hl as ->. by left.
Qed.

Lemma push_inv w this c w' b : inv w -> push_dl_task w this c = Some (w', b) -> inv w'.
Proof.
  intros I H. unfold push_dl_task in H. apply bind_Some in H as (q & Hq & H).
  destruct (negb _); [by injection H as <- _|].
  destruct (pick_next_pushable_dl_task q) as [p|] eqn:Hp; [|by injection H as <- _].
  unfold pick_next_pushable_dl_task in Hp. destruct (has_pushable_dl_tasks q); [|done].
  destruct (pushable_task w c q p I Hq (first_pushable w c q p I Hq Hp)) as (t & Ht & Hc & Hon & Hnc).
  apply bind_Some in H as (t0 & Ht0 & (tc & Htc & H)%bind_Some).
  destruct (_ && _ && _).
  { apply bind_Some in H as (w1 & H1 & [= <- _]). eapply calm_inv; [done|by eapply resched_calm]. }
  destruct (migration_disabled t0); [by injection H as <- _|].
  destruct (p =? curr q); [by injection H as <- _|].
  apply bind_Some in H as (later & Hl & H). destruct later as [l|]; [|by injection H as <- _].
  apply bind_Some in H as (w1 & H1 & (w2 & H2 & [= <- _])%bind_Some). rewrite <- Hc in H1.
  eapply calm_inv; [by eapply move_inv|by eapply resched_calm].
Qed.

Lemma push_loop_inv fuel this c : forall w w', inv w -> push_loop fuel w this c = Some w' -> inv w'.
Proof.
  induction fuel as [|fuel IH]; intros w w' I H; [done|]. cbn [push_loop] in H.
  apply bind_Some in H as ([w1 b] & H1 & H). pose proof (push_inv _ _ _ _ _ I H1) as I1.
  destruct b; [by eapply IH|by injection H as <-].
Qed.

Lemma push_tasks_inv w this c w' : inv w -> push_dl_tasks w this c = Some w' -> inv w'.
Proof. intros I (q & Hq & H)%bind_Some. by eapply push_loop_inv. Qed.

Lemma first_pullable_in w c ps p : first_pullable w c ps = Some (Some p) -> p ∈ ps.
Proof.
  induction ps as [|x ps IH]; simpl; intros H; [done|].
  apply bind_Some in H as (t & Ht & H). destruct (_ && _); [injection H as ->; by left|].
  right. by apply IH.
Qed.

Lemma pull_from_inv w this c dmin b w' d' b' : inv w ->
  pull_from w this c dmin b = Some (w', d', b') -> inv w'.
Proof.
  intros I H. unfold pull_from in H. apply bind_Some in H as (tq & Htq & (src & Hs & H)%bind_Some).
  destruct (_ && _); [by injection H as <- _ _|]. destruct (_ <=? 1); [by injection H as <- _ _|].
  apply bind_Some in H as (r & Hr & H). destruct r as [p|]; [|by injection H as <- _ _].
  unfold pick_earliest_pushable_dl_task in Hr. destruct (has_pushable_dl_tasks src); [|done].
  apply first_pullable_in in Hr.
  destruct (pushable_task w c src p I Hs Hr) as (t & Ht & Hc & Hon & Hnc).
  apply bind_Some in H as (t0 & Ht0 & (tc & Htc & H)%bind_Some).
  destruct (_ && _); [|by injection H as <- _ _]. destruct (Cpudl.dl_time_before _ _); [by injection H as <- _ _|].
  destruct (migration_disabled t0); [by injection H as <- _ _|].
  apply bind_Some in H as (w1 & H1 & (t1 & Ht1 & [= <- _ _])%bind_Some). rewrite <- Hc in H1.
  by eapply move_inv.
Qed.

Lemma pull_loop_inv this cpus : forall w dmin b w' b', inv w ->
  pull_loop w this cpus dmin b = Some (w', b') -> inv w'.
Proof.
  induction cpus as [|c cpus IH]; intros w dmin b w' b' I H; cbn [pull_loop] in H; [by injection H as <- _|].
  destruct (this =? c); [by eapply IH|].
  apply bind_Some in H as ([[w1 d1] b1] & H1 & H). eapply IH; [|done]. by eapply pull_from_inv.
Qed.

Lemma pull_inv w c w' : inv w -> pull_dl_task w c = Some w' -> inv w'.
Proof.
  intros I H. unfold pull_dl_task in H. apply bind_Some in H as (q & Hq & (d & Hd & H)%bind_Some).
  destruct (dlo_count d =? 0); [by injection H as <-|].
  apply bind_Some in H as ([w1 b] & H1 & H). pose proof (pull_loop_inv _ _ _ _ _ _ _ I H1) as I1.
  destruct b; [|by injection H as <-]. eapply calm_inv; [done|by eapply resched_calm].
Qed.

Lemma woken_inv w this c p w' : inv w -> task_woken_dl w this c p = Some w' -> inv w'.
Proof.
  intros I H. unfold task_woken_dl in H. unbind; [|done]. by eapply push_tasks_inv.
Qed.

(** *** Waking *)

Lemma other_nowhere t : task_ok t -> dl_task t = false -> place_of t = nowhere.
Proof.
  intros Hok Hd. destruct (off_tree t Hok Hd) as [T P]. unfold place_of, counted. by rewrite Hd, T, P.
Qed.

Lemma other_nc t : task_ok t -> dl_task t = false -> dl_non_contending (dl t) = false.
Proof.
  intros Hok Hd. destruct (dl_non_contending (dl t)) eqn:E; [|done].
  destruct (to_nc _ Hok E) as [_ C]. unfold counted in C. by rewrite Hd in C.
Qed.

(** A waking task as [ttwu_do_activate] finds it: moved to another CPU or not. *)
Lemma wake_activate w w' g p t t2 n x : at_work w g [p] p t2 x -> task_ok t -> on_rq t = 0 ->
  (n <> cpu t -> x = nowhere /\ core t2 = core (t_cpu n (with_nc false (t_state TASK_WAKING t)))) ->
  (n = cpu t -> x = place_of t /\ core t2 = core (t_state TASK_WAKING t)) -> current_at w p n ->
  activate_task w n p (if negb (cpu t =? n)
    then Z.lor (Z.lor ENQUEUE_WAKEUP ENQUEUE_NOCLOCK) ENQUEUE_MIGRATED
    else Z.lor ENQUEUE_WAKEUP ENQUEUE_NOCLOCK) = Some w' ->
  activated w w' p n TASK_WAKING.
Proof.
  intros A Hok Hon Hm Hs Hcur H. destruct (blocked_place t Hok Hon) as (T & P & B1 & B2 & B3).
  set (fl := if negb (cpu t =? n) then _ else _) in H.
  assert (Hc : cpu t2 = n /\ state t2 = TASK_WAKING /\ on_rq t2 = 0 /\ on_tree (dl t2) = false /\
    pushable t2 = false /\ fit t2 /\ dl_task t2 = dl_task t /\ pl_root x = None /\ pl_push x = None).
  { pose proof (ok_fit t Hok) as F. destruct (decide (n = cpu t)) as [->|Hn].
    - destruct (Hs eq_refl) as [-> Ec]. split_and!; try done; try core_eq.
      + by eapply (core_fit (t_state TASK_WAKING t)).
      + unfold dl_task. f_equal. core_eq.
    - destruct (Hm Hn) as [-> Ec]. split_and!; try done; try core_eq.
      + by eapply (core_fit (t_cpu n (with_nc false (t_state TASK_WAKING t)))).
      + unfold dl_task. f_equal. core_eq. }
  destruct Hc as (Hc & Hst & Hon2 & T2 & P2 & F2 & Hd2 & X1 & X2).
  rewrite <- Hst. rewrite <- Hc in H |- *. destruct (dl_task t2) eqn:Hd.
  - eapply (activate_dl w w' g p t2 x fl); [done|done|by rewrite Hc|by apply fit_ready| |done].
    rewrite Hon2. simpl. unfold enqueues_from, recharged. rewrite Hon2.
    assert (Hfl : has fl ENQUEUE_RESTORE = false /\ has fl ENQUEUE_WAKEUP = true /\
      has fl ENQUEUE_REPLENISH = false /\ has fl ENQUEUE_MIGRATED = negb (cpu t =? n))
      by (unfold fl; by destruct (cpu t =? n)).
    destruct Hfl as (L1 & L2 & L3 & L4). simpl. rewrite L1, L2, L3. split_and!; try done. intros _.
    unfold wakes_from. rewrite L4. destruct (Z.eqb_spec (cpu t) n) as [E|E]; simpl.
    + destruct (Hs (eq_sym E)) as [-> Ec].
      assert (Ed : due (cpu t2) t2 = pl_this (place_of t)).
      { rewrite place_this by congruence. replace (cpu t2) with (cpu t) by congruence. apply due_eq; core_eq. }
      rewrite Ed. split_and!; [done| |].
      * rewrite B3. by replace (dl_non_contending (dl t2)) with (dl_non_contending (dl t)) by core_eq.
      * replace (dl_non_contending (dl t2)) with (dl_non_contending (dl t)) by core_eq.
        replace (dl_runtime (dl t2)) with (dl_runtime (dl t)) by core_eq. apply Hok.
    + destruct (Hm (not_eq_sym E)) as [-> Ec]. replace (dl_non_contending (dl t2)) with false by core_eq.
      done.
  - symmetry in Hd2. eapply (activate_other w w' g p t2 fl); [|done..| |done].
    + destruct (decide (n = cpu t)) as [E|E]; [|by destruct (Hm E) as [-> _]].
      destruct (Hs E) as [-> _]. by rewrite <- (other_nowhere t).
    + destruct (decide (n = cpu t)) as [E|E].
      * destruct (Hs E) as [_ Ec]. rewrite <- (other_nc t Hok Hd2). core_eq.
      * destruct (Hm E) as [_ Ec]. core_eq.
Qed.

Lemma wake_inv w this p n ck0 ck w' : inv w ->
  (forall t, tref w p = Some t -> on_rq t = 0) -> current_at w p n ->
  try_to_wake_up w this p n ck0 ck = Some w' -> inv w'.
Proof.
  intros I Hg Hcur H. unfold try_to_wake_up in H. apply bind_Some in H as (w1 & H1 & H).
  destruct (tref w p) as [t|] eqn:Ht; [|unfold on_task in H1; by rewrite Ht in H1].
  specialize (Hg t eq_refl). destruct (inv_open w p t I Ht) as (g & A & Hok & Se & Hh).
  destruct (work_task _ _ _ _ _ _ _ _ A H1) as [A1 O1].
  rewrite (aw_task _ _ _ _ _ _ A1) in H. cbn [mbind option_bind cpu t_state] in H.
  apply bind_Some in H as (w2 & H2 & (w3 & H3 & (w4 & H4 & (w5 & H5 & (w6 & H6 & H)%bind_Some)
    %bind_Some)%bind_Some)%bind_Some).
  assert (S2 : exists g2 t2 x, at_work w2 g2 [p] p t2 x /\ only p w1 g w2 g2 /\
    (n <> cpu t -> x = nowhere /\ core t2 = core (t_cpu n (with_nc false (t_state TASK_WAKING t)))) /\
    (n = cpu t -> x = place_of t /\ core t2 = core (t_state TASK_WAKING t))).
  { destruct (Z.eqb_spec (cpu t) n) as [E|E]; simpl in H2.
    - injection H2 as <-. exists g. eexists _, _. split_and!; [exact A1|apply only_refl|congruence|done].
    - destruct (set_cpu_waking w1 w2 g p t n ck0 Hok Hg (not_eq_sym E) A1 H2) as (g2 & t2 & A2 & Ec & O2).
      exists g2, t2, nowhere. split_and!; [done|done|done|congruence]. }
  destruct S2 as (g2 & t2 & x & A2 & O2 & Hm & Hs).
  destruct (work_quiet _ _ _ _ _ _ _ A2 (update_rq_clock_quiet _ _ _ _ H3)) as [A3 O3].
  pose proof (only_steady _ _ _ _ _ (only_trans _ _ _ _ _ _ _ O1 (only_trans _ _ _ _ _ _ _ O2 O3))) as S3.
  assert (I6 : inv w6).
  { eapply (activated_inv w w3 w6 p n TASK_RUNNING); [|done..]. eapply activated_state; [|done].
    eapply activated_calm; [|by eapply preempt_calm].
    eapply (wake_activate w3 w4 g2 p t t2 n x); try done. by eapply steady_current. }
  change (dl_task (t_state TASK_WAKING t)) with (dl_task t) in H.
  destruct (dl_task t); [by eapply woken_inv|by injection H as <-].
Qed.

(** *** Ticks and yields *)

Lemma yield_inv w c ck w' : inv w -> yield_task_dl w c ck = Some w' -> inv w'.
Proof.
  intros I H. unfold yield_task_dl in H.
  apply bind_Some in H as (q & Hq & (w1 & H1 & (w2 & H2 & H)%bind_Some)%bind_Some).
  eapply update_curr_inv; [|done]. eapply quiet_inv; [|by eapply update_rq_clock_quiet].
  eapply calm_inv; [done|]. eapply on_dl_calm; [|done]. intros; reflexivity.
Qed.

(** *** Timers *)

(** A throttled task that is queued is charged but off the trees. *)
Lemma throttled_place t : task_ok t -> dl_throttled (dl t) = true -> unfiled t (place_of t).
Proof.
  intros [] Hth. assert (T := to_throttled0 Hth).
  assert (P : pushable t = false) by (destruct (pushable t); [by rewrite to_push0 in T|done]).
  unfold unfiled, place_of; simpl. by rewrite T, P.
Qed.

Lemma replenish_inv w w' g p t : at_work w g [p] p t (place_of t) -> task_ok t -> seated w p ->
  current_at w p (cpu t) -> dl_task t = true -> on_rq t = TASK_ON_RQ_QUEUED ->
  dl_throttled (dl t) = true -> enqueue_task_dl w (cpu t) p ENQUEUE_REPLENISH = Some w' -> inv w'.
Proof.
  intros A Hok Se Hcur Hd Hon Hth H. pose proof (throttled_place t Hok Hth) as U.
  pose proof (fit_ready t (ok_fit t Hok) Hd) as [R1 R2 R3 R4 _].
  assert (Hr : recharged ENQUEUE_REPLENISH t = false) by (unfold recharged; by rewrite Hon).
  destruct (enqueue_task_work w w' g [p] p t (place_of t) ENQUEUE_REPLENISH)
    as (b1 & b2 & th & Hb2 & Hb1 & g' & t' & A' & Ec & O); try done.
  { unfold enqueues_from. by rewrite Hr. }
  unfold charged_at in A'. rewrite Hr in A'. simpl in A'.
  change (woken ENQUEUE_REPLENISH t) with (with_thr false t) in Ec.
  pose proof (only_steady _ _ _ _ _ O) as S.
  eapply inv_close; [exact A'| | |by apply S|].
  - rewrite (core_place (with_thr th (filed b1 b2 (with_thr false t))) t' Ec). done.
  - eapply core_ok; [done|]. destruct Hok. split; try done.
    + simpl. intros E. by apply Hb2.
    + simpl. destruct b1; [|done]. by rewrite Hb1.
  - intros c q' Hq' Hp. destruct (steady_rref _ _ _ _ _ S Hq') as (q & Hq & Eq). rewrite Hp in Eq. split.
    + replace (pushable t') with b2 by core_eq. destruct b2; [|done]. destruct (Hb2 eq_refl) as [_ Hn].
      by destruct (Hn c q Hq).
    + intros _. rewrite (Hcur c q Hq Eq). core_eq.
Qed.

(** A throttled task leaves an offline CPU with its charges. *)
Lemma offline_work w w' g p t dest : at_work w g [p] p t (place_of t) -> task_ok t ->
  dl_task t = true -> on_rq t = TASK_ON_RQ_QUEUED -> dl_throttled (dl t) = true ->
  dl_task_offline_migration w (cpu t) p dest = Some w' ->
  exists g', at_work w' g' [p] p (t_cpu dest t) (place_of (t_cpu dest t)) /\ only p w g w' g'.
Proof.
  intros A Hok Hd Hon Hth H. pose proof (to_bw t Hok) as Hb.
  pose proof (throttled_place t Hok Hth) as (U1 & U2 & U3 & U4).
  unfold dl_task_offline_migration in H. rewrite (aw_task _ _ _ _ _ _ A) in H.
  apply bind_Some in H as (t0 & [= <-] & (q & Hq & (qd & Hqd & (w4 & H4 & H)%bind_Some)%bind_Some)%bind_Some).
  rewrite Hth, orb_true_r in H4.
  apply bind_Some in H4 as (w1 & H1 & (w2 & H2 & (w3 & H3 & H4)%bind_Some)%bind_Some).
  apply bind_Some in H as (d & Hdr & (dd & Hdd & (w5 & H5 & (w6 & H6 & H)%bind_Some)%bind_Some)%bind_Some).
  destruct (sub_running_work w w1 g [p] p t _ (cpu t) A) as (g1 & A1 & O1); [|done|done|].
  { rewrite place_run by done. unfold active, task_on_rq_queued. by rewrite Hon. }
  destruct (sub_rq_work w1 w2 g1 [p] p t _ (cpu t) A1) as (g2 & A2 & O2); [by apply place_this|done|done|].
  destruct (add_rq_work w2 w3 g2 [p] p t _ dest A2 eq_refl Hb H3) as (g3 & A3 & O3).
  destruct (add_running_work w3 w4 g3 [p] p t _ dest A3 eq_refl Hb H4) as (g4 & A4 & O4).
  destruct (work_quiet _ _ _ _ _ _ _ A4 (__dl_sub_quiet _ _ _ _ _ H5)) as [A5 O5].
  destruct (work_quiet _ _ _ _ _ _ _ A5 (__dl_add_quiet _ _ _ _ _ H6)) as [A6 O6].
  destruct (set_cpu_work _ _ _ _ _ _ _ dest _ A6 (to_waking t Hok) H) as [A7 O7].
  exists g4. split; [|eauto 8 using only_trans].
  replace (place_of (t_cpu dest t)) with (x_run (due dest t) (x_this (due dest t) (place_of t))); [exact A7|].
  unfold place_of, x_run, x_this, due, counted, active, task_on_rq_queued, dl_task in *. simpl in *.
  rewrite U3, U4, Hd, Hon. by destruct (dl_entity_is_special (dl t)).
Qed.

Lemma put_calm w p w' : on_task w p put_task_struct = Some w' -> calm w w'.
Proof. intros H. eapply on_task_calm; [|done]. intros; reflexivity. Qed.

(** What follows the enqueue of a replenished task. *)
Lemma replenished_inv w this c p w' : inv w ->
  (q ← rref w c;
   tc ← tref w (curr q);
   w ← (if dl_task tc then check_preempt_curr_dl w c p else resched_curr w c);
   q ← rref w c;
   if has_pushable_dl_tasks q then '(w, _) ← push_dl_task w this c; Some w else Some w) = Some w' ->
  inv w'.
Proof.
  intros I (q & Hq & (tc & Htc & (w1 & H1 & (q1 & Hq1 & H)%bind_Some)%bind_Some)%bind_Some)%bind_Some.
  assert (I1 : inv w1).
  { eapply calm_inv; [done|]. destruct (dl_task tc); [by eapply check_preempt_calm|by eapply resched_calm]. }
  destruct (has_pushable_dl_tasks q1); [|by injection H as <-].
  apply bind_Some in H as ([w2 b] & H2 & [= <-]). by eapply push_inv.
Qed.

Lemma clock_online w c ck w' q' : update_rq_clock w c ck = Some w' -> rref w' c = Some q' ->
  exists q, rref w c = Some q /\ online q = online q'.
Proof.
  unfold update_rq_clock, on_rq_of. intros (q & Hq & (qs & Hs & [= <-])%bind_Some)%bind_Some Hq'.
  exists q. split; [done|]. apply aref_aset in Hs as [-> Hr]. unfold rref in Hq'; simpl in Hq'.
  rewrite aref_upd, Z.eqb_refl in Hq' by done. by injection Hq' as <-.
Qed.

Lemma dl_timer_inv w this p ck dest ckd w' : inv w ->
  (forall t q, tref w p = Some t -> rref w (cpu t) = Some q -> online q = false -> not_current w p) ->
  dl_task_timer w this p ck dest ckd = Some w' -> inv w'.
Proof.
  intros I Hoff H. unfold dl_task_timer in H. apply bind_Some in H as (t & Ht & (w1 & H1 & H)%bind_Some).
  eapply calm_inv; [|by eapply put_calm]. clear H.
  destruct (negb (dl_task t)) eqn:Hd; [by injection H1 as <-|]. apply negb_false_iff in Hd.
  destruct (is_dl_boosted p (dl t)); [by injection H1 as <-|].
  destruct (negb (dl_throttled (dl t))) eqn:Hth; [by injection H1 as <-|]. apply negb_false_iff in Hth.
  apply bind_Some in H1 as (w2 & H2 & H). pose proof (update_rq_clock_quiet _ _ _ _ H2) as Q2.
  pose proof (quiet_inv _ _ I Q2) as I2. rewrite <- (quiet_tref _ _ p Q2) in Ht.
  destruct (inv_open w2 p t I2 Ht) as (g & A & Hok & Se & Hh).
  destruct (negb (task_on_rq_queued t)) eqn:Hon.
  { apply bind_Some in H as (pi & Hpi & (e & He & H)%bind_Some).
    destruct (thr_work w2 w1 g [p] p t (place_of t) (fun _ => e) false A) as (g1 & t1 & A1 & Ec & O1);
      [intros e0 ->; by eapply replenish_core|done|].
    eapply (steady_close w2 w1 g1 p t t1); [by eapply only_steady|done|done|done| | |].
    - by rewrite (core_place (with_thr false t) t1 Ec).
    - eapply core_ok; [done|]. destruct Hok. by split.
    - intros c Hc. eapply core_curr; [done|]. exact Hc. }
  apply negb_false_iff in Hon. unfold task_on_rq_queued in Hon. apply Z.eqb_eq in Hon.
  apply bind_Some in H as (q & Hq & ([w3 c] & H3 & (w4 & H4 & H)%bind_Some)%bind_Some).
  eapply replenished_inv; [|exact H]. clear H. destruct (online q) eqn:Hq0.
  - injection H3 as <- <-. eapply replenish_inv; [done..| |done|done|done|done]. by apply home_current.
  - apply bind_Some in H3 as (w5 & H5 & (w6 & H6 & [= <- <-])%bind_Some).
    destruct (offline_work w2 w5 g p t dest A Hok Hd Hon Hth H5) as (g5 & A5 & O5).
    destruct (work_quiet _ _ _ _ _ _ _ A5 (update_rq_clock_quiet _ _ _ _ H6)) as [A6 O6].
    pose proof (only_trans _ _ _ _ _ _ _ O5 O6) as O. change dest with (cpu (t_cpu dest t)) in H4.
    eapply (replenish_inv w6 w4 g5 p (t_cpu dest t)); try done.
    + destruct Hok. by split.
    + by apply (only_steady _ _ _ _ _ O).
    + intros c0 q0 Hqc Hp0. destruct (steady_rref _ _ _ _ _ (only_steady _ _ _ _ _ O) Hqc) as (q1 & Hq1 & E1).
      destruct (quiet_rref _ _ _ _ Q2 Hq1) as (q2 & Hqw & V). injection V as _ _ _ _ _ _ V.
      destruct (clock_online _ _ _ _ _ H2 Hq) as (q3 & Hq3 & E3). rewrite (quiet_tref _ _ _ Q2) in Ht.
      destruct (Hoff t q3 Ht Hq3 ltac:(congruence) c0 q2 Hqw). congruence.
Qed.

Lemma inactive_inv w p ck w' : inv w -> inactive_task_timer w p ck = Some w' -> inv w'.
Proof.
  intros I H. unfold inactive_task_timer in H.
  apply bind_Some in H as (t & Ht & (q & Hq & (w1 & H1 & (w2 & H2 & H)%bind_Some)%bind_Some)%bind_Some).
  eapply calm_inv; [|by eapply put_calm]. clear H. pose proof (update_rq_clock_quiet _ _ _ _ H1) as Q1.
  pose proof (quiet_inv _ _ I Q1) as I1. rewrite <- (quiet_tref _ _ p Q1) in Ht.
  destruct (inv_open w1 p t I1 Ht) as (g & A & Hok & Se & Hh).
  assert (Close : forall g2 t2 t3, at_work w2 g2 [p] p t2 (place_of t3) -> core t2 = core t3 -> only p w1 g w2 g2 ->
    task_ok t3 -> (forall c, curr_ok c t -> curr_ok c t3) -> inv w2).
  { intros g2 t2 t3 A2 Ec O2 Hok2 Hc. eapply (steady_close w1 w2 g2 p t t2); [by eapply only_steady|done|done|done| | |].
    - symmetry. by apply core_place.
    - by eapply core_ok.
    - intros c Hcu. eapply core_curr; [done|auto]. }
  pose proof (to_bw t Hok) as Hb.
  assert (Hcl : task_ok (cleared p t)) by (by destruct Hok; apply cleared_ok; [split|..]).
  destruct (negb (dl_task t) || _) eqn:Hgone.
  - apply bind_Some in H2 as (w3 & H3 & (n & Hn & (w4 & H4 & H)%bind_Some)%bind_Some).
    destruct ((state t =? TASK_DEAD) && dl_non_contending (dl t)) eqn:Hdn.
    + apply andb_prop in Hdn as [Hs%Z.eqb_eq Hnc]. destruct (to_nc _ Hok Hnc) as [Hon Hco].
      assert (Hd : dl_task t = true) by (unfold counted in Hco; by apply andb_prop in Hco as [? _]).
      apply bind_Some in H3 as (w5 & H5 & (w6 & H6 & H3)%bind_Some).
      destruct (sub_running_work w1 w5 g [p] p t _ (cpu t) A) as (g5 & A5 & O5); [|done|done|].
      { rewrite place_run by done. unfold active. by rewrite Hnc, orb_true_r. }
      destruct (sub_rq_work w5 w6 g5 [p] p t _ (cpu t) A5) as (g6 & A6 & O6); [by apply place_this|done|done|].
      destruct (work_task _ _ _ _ _ _ _ _ A6 H3) as [A7 O7].
      destruct (clear_work _ _ _ _ _ _ _ _ _ _ _ A7 H4 H) as (g2 & t2 & A2 & Ec & O2).
      apply (Close g2 t2 (cleared p t)); [rewrite cleared_place by done; exact A2|done| |done|done].
      eauto using only_trans.
    + injection H3 as <-. destruct (clear_work _ _ _ _ _ _ _ _ _ _ _ A H4 H) as (g2 & t2 & A2 & Ec & O2).
      apply (Close g2 t2 (cleared p t)); [|done..]. replace (place_of (cleared p t)) with (place_of t); [exact A2|].
      destruct (dl_task t) eqn:Hd; [|unfold place_of, counted, dl_task in *; simpl; by rewrite Hd].
      simpl in Hgone. rewrite Hgone in Hdn. apply Z.eqb_eq in Hgone. simpl in Hdn.
      rewrite cleared_place by done. unfold place_of, x_run, x_this, active. simpl. rewrite Hdn.
      destruct (counted t) eqn:Hco; [|done]. rewrite (to_gone t Hok Hgone Hco Hdn). by destruct (task_on_rq_queued t).
  - apply orb_false_elim in Hgone as [Hd%negb_false_iff Hs%Z.eqb_neq].
    destruct (dl_non_contending (dl t)) eqn:Hnc; [|by injection H2 as <-].
    apply bind_Some in H2 as (w3 & H3 & H2).
    destruct (to_nc _ Hok Hnc) as [Hon Hco].
    destruct (sub_running_work w1 w3 g [p] p t _ (cpu t) A) as (g3 & A3 & O3); [|done|done|].
    { rewrite place_run by done. unfold active. by rewrite Hnc, orb_true_r. }
    destruct (work_task _ _ _ _ _ _ _ _ A3 H2) as [A4 O4].
    eapply (Close g3 _ (with_nc false t)); [|reflexivity|by eapply only_trans| |done].
    + replace (place_of (with_nc false t)) with (x_run None (place_of t)); [exact A4|].
      unfold place_of, x_run, active, task_on_rq_queued. simpl. rewrite Hon. simpl.
      change (counted (with_nc false t)) with (counted t). by rewrite andb_false_r.
    + destruct Hok. split; try done. simpl. tauto.
Qed.

(** *** Scheduling *)

(** The invariant, but for the current task of CPU [c]. *)
Definition inv_but (w : world) (c : Z) : Prop :=
  (exists g, holds w g []) /\
  forall c0 q, rref w c0 = Some q -> c0 <> c -> exists t, tref w (curr q) = Some t /\ curr_ok c0 t.

Lemma calm_inv_but w w' c : inv_but w c -> calm w w' -> inv_but w' c.
Proof.
  intros [[g H] S] C. split; [exists g; by eapply calm_holds|].
  intros c0 q' Hq' Hne. pose proof (calm_only 0 w w' g C) as (_ & O & _). specialize (O c0).
  rewrite Hq' in O. destruct (rref w c0) as [q|] eqn:Hq; [|done]. injection O as ->.
  destruct (S c0 q Hq Hne) as (t & Ht & Hc).
  destruct (map_aref core _ _ _ _ (proj1 C) Ht) as (t' & Ht' & Ec).
  exists t'. split; [done|by eapply core_curr].
Qed.

(** Work on [p] that leaves it fit for the seats it has elsewhere. *)
Lemma inv_but_work w w' g g' c p t t' x : inv_but w c -> at_work w g [p] p t (place_of t) ->
  only p w g w' g' -> at_work w' g' [p] p t' x -> x = place_of t' -> task_ok t' ->
  (forall c0 q, rref w c0 = Some q -> c0 <> c -> curr q = p -> curr_ok c0 t -> curr_ok c0 t') ->
  inv_but w' c.
Proof.
  intros [_ S] A (O1 & O2 & _) A' Hx Hok Hc. split; [exists g'; by eapply leave|].
  intros c0 q' Hq' Hne. specialize (O2 c0). rewrite Hq' in O2.
  destruct (rref w c0) as [q|] eqn:Hq; [|done]. injection O2 as O2. rewrite O2.
  destruct (S c0 q Hq Hne) as (t0 & Ht0 & Hc0). destruct (decide (curr q = p)) as [E|E].
  - rewrite E in *. rewrite (aw_task _ _ _ _ _ _ A) in Ht0. injection Ht0 as <-.
    exists t'. split; [apply (aw_task _ _ _ _ _ _ A')|eauto].
  - destruct (O1 _ _ E Ht0) as (t1 & Ht1 & E1). exists t1. split; [done|by eapply core_curr].
Qed.

Lemma inv_but_open w c p t : inv_but w c -> tref w p = Some t ->
  exists g, at_work w g [p] p t (place_of t) /\ task_ok t.
Proof. intros [[g H] _] Ht. exists g. by apply enter, not_elem_of_nil. Qed.

Lemma seat_inv w c n t w' : inv_but w c -> tref w n = Some t -> curr_ok c t ->
  on_rq_of w c (r_curr n) = Some w' -> inv w'.
Proof.
  intros I Ht Hc H. destruct (inv_but_open w c n t I Ht) as (g & A & Hok).
  pose proof I as [_ S]. pose proof (leave _ _ _ _ _ _ A eq_refl Hok) as [[HL HB HQ HC] HT].
  unfold on_rq_of in H. apply bind_Some in H as (q & Hq & (qs & Hs & [= <-])%bind_Some).
  apply aref_aset in Hs as [-> Hr]. split.
  - exists g. split; [|done]. simpl. split; [done|done| |].
    + intros c0 q0. rewrite aref_upd by done. destruct (Z.eqb_spec c0 c) as [->|]; [|apply HQ].
      intros [= <-]. simpl. by apply HQ.
    + intros c0 q0 x c'. rewrite aref_upd by done. destruct (Z.eqb_spec c0 c) as [->|]; [|apply HC].
      intros [= <-]. simpl. rewrite (aw_place _ _ _ _ _ _ A). intros [= <-]. simpl.
      destruct (on_tree (dl t)) eqn:Htree; [|done]. intros [= <-].
      apply Hc, (to_tree t Hok Htree).
  - intros c0 q0. unfold rref; simpl. rewrite aref_upd by done.
    destruct (Z.eqb_spec c0 c) as [->|Hne]; [|intros Hq0; by apply S].
    intros [= <-]. simpl. exists t. split; [exact Ht|done].
Qed.

Lemma root_task w c q p : inv_but w c -> rref w c = Some q -> p ∈ inorder (rb_root (root (dlq q))) ->
  exists t, tref w p = Some t /\ on_tree (dl t) = true /\ cpu t = c.
Proof.
  intros [[g H] S] Hq Hp. pose proof H as [HQ _].
  destruct (ra_root _ _ _ (qa_rq _ _ HQ c q Hq)) as (_ & _ & L). apply L in Hp as (x & Hx & Hs).
  destruct (place_task w g p x H Hx) as (t & Ht & -> & Hok). simpl in Hs.
  destruct (on_tree (dl t)) eqn:Htree; [|done]. injection Hs as Hs. by exists t.
Qed.

Lemma inv_inv_but w c : inv w -> inv_but w c.
Proof. intros [H S]. split; [done|]. intros c0 q Hq _. by apply S. Qed.

(** A task in the tree of [c] is current nowhere else. *)
Lemma tree_seat w g E p t : holds w g E -> aref g p = Some (place_of t) -> on_tree (dl t) = true ->
  forall c0 q, rref w c0 = Some q -> curr q = p -> c0 = cpu t.
Proof.
  intros [HQ _] Hx Ht c0 q Hq Hp. symmetry. apply (qa_curr _ _ HQ c0 q (place_of t)); [done|by rewrite Hp|].
  simpl. by rewrite Ht.
Qed.

Lemma put_prev_inv w c q w' : inv w -> rref w c = Some q -> put_prev_task w c (curr q) = Some w' ->
  inv_but w' c /\ forall i t, dl_task t = false -> tref w i = Some t ->
    exists t', tref w' i = Some t' /\ core t' = core t.
Proof.
  intros I Hq H. unfold put_prev_task in H. apply bind_Some in H as (t & Ht & H).
  destruct (dl_task t) eqn:Hdl; [|injection H as <-; split; [by apply inv_inv_but|eauto]].
  apply bind_Some in H as (w1 & H1 & (t1 & Ht1 & H)%bind_Some).
  destruct (update_curr_keeps _ _ _ I H1) as (I1 & K1 & F1). specialize (F1 q).
  assert (F : forall i t0, dl_task t0 = false -> tref w i = Some t0 -> i <> curr q)
    by (intros i t0 Hd0 Ht0 ->; congruence).
  destruct (_ && _) eqn:Hb; [|injection H as <-; split; [by apply inv_inv_but|eauto]].
  apply andb_prop in Hb as [Htree _]. destruct (inv_open w1 _ t1 I1 Ht1) as (g & A & Hok & Se & Hh).
  set (p := curr q) in *. specialize (K1 c). rewrite Hq in K1.
  destruct (rref w1 c) as [q1|] eqn:Hq1; [|done]. injection K1 as K1.
  destruct (Hh c q1 Hq1 K1) as [Hpu Hc]. specialize (Hc (proj1 (to_tree t1 Hok Htree))).
  destruct (enqueue_pushable_work w1 w' g [p] p t1 (place_of t1) c A) as (g2 & t2 & A2 & Ec & O2);
    [simpl; by rewrite Hpu|done|].
  split.
  2:{ intros i t0 Hd0 Ht0. pose proof (F i t0 Hd0 Ht0) as Hi.
      destruct (F1 i t0 Hq Hi Ht0) as (t3 & Ht3 & E3). destruct O2 as (O2 & _).
      destruct (O2 i t3 Hi Ht3) as (t4 & Ht4 & E4). exists t4. split; congruence. }
  eapply (inv_but_work w1 w' g g2 c p t1 t2); [by apply inv_inv_but|done|done|exact A2| | |].
  - rewrite (core_place (t_pushable true t1) t2 Ec). unfold place_of, x_push; simpl. by rewrite Hc.
  - eapply core_ok; [done|]. destruct Hok. by split.
  - intros c0 q0 Hq0 Hne Hp0. exfalso. apply Hne. rewrite <- Hc.
    by eapply (tree_seat w1 g [p] p t1); [apply A|apply (aw_place _ _ _ _ _ _ A)|..].
Qed.

Lemma next_dl_inv w c w' r : inv_but w c -> pick_next_task_dl w c = Some (w', r) ->
  inv_but w' c /\ forall p, r = Some p -> exists t, tref w' p = Some t /\ curr_ok c t.
Proof.
  intros I H. unfold pick_next_task_dl in H. apply bind_Some in H as (r0 & Hr & H).
  destruct r0 as [p|]; [|by injection H as <- <-]. apply bind_Some in H as (w1 & H1 & [= <- <-]).
  unfold pick_task_dl in Hr. apply bind_Some in Hr as (q & Hq & Hr).
  destruct (0 <? _); [|done]. apply bind_Some in Hr as (p' & Hp & [= ->]). unfold pick_next_dl_entity in Hp.
  assert (Hin : p ∈ inorder (rb_root (root (dlq q)))).
  { destruct I as [[g [HQ _]] _]. destruct (ra_root _ _ _ (qa_rq _ _ HQ c q Hq)) as (_ & F & _).
    simpl in F. rewrite F in Hp. destruct (inorder _); [done|]. injection Hp as ->. by left. }
  destruct (root_task w c q p I Hq Hin) as (t & Ht & Htree & Hc).
  destruct (inv_but_open w c p t I Ht) as (g & A & Hok).
  unfold set_next_task_dl in H1. apply bind_Some in H1 as (q0 & Hq0 & (w2 & H2 & (w3 & H3 & H1)%bind_Some)%bind_Some).
  destruct (work_task _ _ _ _ _ _ _ _ A H2) as [A2 O2].
  destruct (dequeue_pushable_work w2 w3 g [p] p _ (place_of t) c A2) as (g3 & t3 & A3 & Ec3 & O3);
    [simpl; by rewrite Hc|done|].
  assert (I3 : inv_but w3 c).
  { eapply (inv_but_work w w3 g g3 c p t t3); [done|done|by eapply only_trans|exact A3| | |].
    - by rewrite (core_place (t_pushable false t) t3 Ec3).
    - apply (core_ok (t_pushable false t)); [done|]. destruct Hok. by split.
    - intros c0 q1 _ _ _ [_ Hcu]. eapply (core_curr c0 (t_pushable false t)); [done|]. done. }
  assert (C4 : calm w3 w1) by (apply quiet_calm; by eapply queue_push_quiet).
  split; [by eapply calm_inv_but|]. intros p1 [= <-].
  destruct (work_calm _ _ _ _ _ _ _ A3 C4) as (t4 & A4 & Ec4). exists t4.
  split; [apply (aw_task _ _ _ _ _ _ A4)|]. apply (core_curr c (t_pushable false t)); [by rewrite Ec4|].
  by split.
Qed.

Lemma schedule_inv w c other w' : inv w ->
  (exists t, tref w other = Some t /\ dl_task t = false /\ (on_rq t = TASK_ON_RQ_QUEUED -> cpu t = c)) ->
  schedule_next w c other = Some w' -> inv w'.
Proof.
  intros I (to & Hto & Hdo & Hco) H. unfold schedule_next in H.
  apply bind_Some in H as (q & Hq & (w1 & H1 & ([w2 r] & H2 & H)%bind_Some)%bind_Some).
  destruct (put_prev_inv w c q w1 I Hq H1) as [I1 F1].
  destruct (next_dl_inv w1 c w2 r I1 H2) as [I2 Hr].
  apply bind_Some in H as (w3 & H3 & (w4 & H4 & (w5 & H5 & H)%bind_Some)%bind_Some).
  assert (C : calm w2 w5).
  { eapply calm_trans; [|eapply calm_trans]; (eapply on_task_calm; [|done]; intros; reflexivity). }
  set (n := match r with Some p => p | None => other end) in *.
  assert (Hn : exists t, tref w2 n = Some t /\ curr_ok c t).
  { subst n. destruct r as [p|]; [by apply Hr|].
    assert (w2 = w1) as -> by (unfold pick_next_task_dl in H2; unbind; congruence).
    destruct (F1 other to Hdo Hto) as (t1 & Ht1 & E1). exists t1. split; [done|].
    apply (core_curr c to); [done|]. split; [|done].
    destruct (inv_open w other to I Hto) as (g & _ & Hok & _). by apply off_tree. }
  destruct Hn as (t & Ht & Hc). destruct (map_aref core _ _ _ _ (proj1 C) Ht) as (t' & Ht' & Ec).
  eapply seat_inv; [by eapply calm_inv_but|exact Ht'|by eapply core_curr|done].
Qed.

End Inv.
End DeadlineInv.
