(* ===== verification/DeadlineAttr.v ===== *)
(** Changes of scheduling parameters keep the bandwidth sums exact.

    [__sched_setscheduler] moves a task between the classes or changes the
    parameters of a deadline task; admission control adjusts the sums before the
    parameters are stored, and the class callbacks after.  The file shows that all
    paths through it, queued or blocked, restore the invariant of [DeadlineInv],
    and closes the development of the deadline class: the sums are exact in every
    world its events reach. *)

From Stdlib Require Import ZArith Lia List.
From stdpp Require Import base list numbers option.
From S2P Require Import Prelude RbTree Cpudl Cpupri Cbs Deadline DeadlineBw DeadlineInv.

Module DeadlineAttr.
Export DeadlineInv.
Import RbTree(rb_root_cached, rb_root, rb_leftmost, inorder).

Section Attr.
Context {pf : Platform}.

(** *** The stored parameters *)

Definition new_policy (attr : sched_attr) (t : task) : Z :=
  if sched_policy attr =? SETPARAM_POLICY then policy t else sched_policy attr.
Definition new_bw (attr : sched_attr) : Z :=
  to_ratio (elvis (sched_period attr) (sched_deadline attr)) (sched_runtime attr).
Definition changed (attr : sched_attr) (np p : Z) (t : task) : task :=
  t_prio np (__setscheduler_params attr p t).

(** A request the checks before the run queue lock let through. *)
Record accepted (w : world) (attr : sched_attr) (pol : Z) : Prop := {
  ac_policy : valid_policy pol = true;
  ac_prio : 0 <= sched_priority attr <= MAX_RT_PRIO - 1;
  ac_nice : -20 <= sched_nice attr <= 19;
  ac_max : 0 <= sysctl_sched_dl_period_max w <= 2 ^ 31;
  ac_period : 0 <= sched_period attr;
  ac_deadline : 0 <= sched_deadline attr;
  ac_sugov : has (sched_flags attr) SCHED_FLAG_SUGOV = false;
  ac_params : dl_policy pol = true ->
    __checkparam_dl (sysctl_sched_dl_period_max w) (sysctl_sched_dl_period_min w) attr = true
}.

Lemma normal_prio_class pol rt nice : valid_policy pol = true -> 0 <= rt <= MAX_RT_PRIO - 1 -> -120 <= nice ->
  dl_prio (__normal_prio pol rt nice) = dl_policy pol.
Proof.
  intros Hv Hr Hn. unfold __normal_prio, dl_prio, MAX_RT_PRIO, MAX_DL_PRIO, NICE_TO_PRIO in *.
  destruct (dl_policy pol); [done|]. destruct (rt_policy pol); apply Z.ltb_ge; lia.
Qed.

Lemma sugov_off attr : has (sched_flags attr) SCHED_FLAG_SUGOV = false ->
  Z.land (sched_flags attr) SCHED_FLAG_SUGOV = 0.
Proof. unfold has, z2b. by intros ?%negb_false_iff%Z.eqb_eq. Qed.

Lemma new_bw_bounds w attr pol : accepted w attr pol -> dl_policy pol = true ->
  0 <= new_bw attr <= 2 ^ 20 /\ sched_runtime attr <> 0.
Proof.
  intros [] Hp. pose proof (setparam_wf _ _ attr (mk_dl_se 0 0 0 0 0 0 0 0 false false false false false 0)
    ac_max0 ac_period0 ac_deadline0 (sugov_off _ ac_sugov0) (ac_params0 Hp)) as W.
  unfold wf_params in W. simpl in W. unfold new_bw. split; [|lia].
  destruct W as (W1 & W2 & -> & _).
  assert (Hm : sched_runtime attr * 2 ^ 20 <= elvis (sched_period attr) (sched_deadline attr) * 2 ^ 20) by lia.
  split; [apply Z.div_pos; lia|]. apply Z.div_le_upper_bound; lia.
Qed.

Lemma changed_shape attr np p t : let t' := changed attr np p t in
  cpu t' = cpu t /\ on_rq t' = on_rq t /\ state t' = state t /\ pushable t' = pushable t /\
  policy t' = new_policy attr t /\ prio t' = np /\
  on_tree (dl t') = on_tree (dl t) /\ dl_throttled (dl t') = dl_throttled (dl t) /\
  dl_non_contending (dl t') = dl_non_contending (dl t) /\
  dl t' = (if dl_policy (new_policy attr t) then __setparam_dl attr (dl t) else dl t).
Proof.
  unfold changed, __setscheduler_params, new_policy. simpl.
  repeat case_match; simpl; split_and!; done.
Qed.

Lemma changed_fit w attr np p t pol : accepted w attr pol -> pol = new_policy attr t ->
  np = __normal_prio pol (sched_priority attr) (sched_nice attr) -> bw_ok t -> 0 <= static_prio t ->
  let t' := changed attr np p t in
  fit t' /\ dl_task t' = dl_policy pol /\
  (dl_policy pol = true -> dl_entity_is_special (dl t') = false /\ dl_bw (dl t') = new_bw attr).
Proof.
  intros Ha Hp Hn Hb Hs t'. pose proof Ha as [].
  destruct (changed_shape attr np p t) as (_ & _ & _ & _ & Epol & Eprio & _ & _ & _ & Edl). fold t' in Epol, Eprio, Edl.
  rewrite <- Hp in *.
  assert (Hst : static_prio t' = if dl_policy pol then static_prio t
    else if fair_policy pol then NICE_TO_PRIO (sched_nice attr) else static_prio t).
  { unfold t', changed, __setscheduler_params. fold (new_policy attr t). rewrite <- Hp. by repeat case_match. }
  assert (Hst0 : 0 <= static_prio t').
  { rewrite Hst. unfold NICE_TO_PRIO. destruct (dl_policy pol), (fair_policy pol); lia. }
  assert (Hdl : dl_task t' = dl_policy pol).
  { unfold dl_task. rewrite Eprio, Hn. apply normal_prio_class; [done..|lia]. }
  assert (Hnp : dl_prio (normal_prio t') = dl_policy pol).
  { assert (E : normal_prio t' = __normal_prio pol (sched_priority attr) (PRIO_TO_NICE (static_prio t'))).
    { rewrite <- Epol. unfold t', changed, __setscheduler_params. by repeat case_match. }
    rewrite E. apply normal_prio_class; [done..|]. unfold PRIO_TO_NICE. lia. }
  assert (Hsp : dl_policy pol = true -> dl_entity_is_special (dl t') = false /\ dl_bw (dl t') = new_bw attr).
  { intros Hd. rewrite Edl, Hd. split; [|done]. unfold dl_entity_is_special, has, z2b. simpl.
    rewrite <- Z.land_assoc. change (Z.land SCHED_DL_FLAGS SCHED_FLAG_SUGOV) with SCHED_FLAG_SUGOV.
    by rewrite (sugov_off attr). }
  clearbody t'. split_and!; [|done|done]. split_and!; [|by rewrite Hnp|unfold task_has_dl_policy; by rewrite Epol|done].
  destruct (dl_policy pol) eqn:Hd; [|unfold bw_ok; rewrite Edl; exact Hb].
  destruct (new_bw_bounds w attr pol Ha Hd) as [B1 B2]. unfold bw_ok. rewrite Edl. split; [exact B1|]. simpl. done.
Qed.

(** *** Around the change *)

Lemma put_prev_off w c p t q w' : tref w p = Some t -> rref w c = Some q -> curr q = p ->
  on_tree (dl t) = false -> put_prev_task w c p = Some w' -> w' = w.
Proof.
  intros Ht Hq Hp Htree H. unfold put_prev_task in H. rewrite Ht in H. simpl in H.
  destruct (dl_task t); [|congruence]. unfold put_prev_task_dl, update_curr_dl in H.
  rewrite Hq in H. simpl in H. rewrite Hp, Ht in H. simpl in H. rewrite Htree, orb_true_r in H.
  simpl in H. rewrite Ht in H. simpl in H. rewrite Htree in H. simpl in H. congruence.
Qed.

Lemma set_next_calm w c p t w' : tref w p = Some t -> pushable t = false ->
  set_next_task w c p = Some w' -> calm w w'.
Proof.
  intros Ht Hp H. unfold set_next_task in H. rewrite Ht in H. simpl in H.
  destruct (dl_task t); [|injection H as <-; apply calm_refl]. unfold set_next_task_dl in H.
  apply bind_Some in H as (q & Hq & (w1 & H1 & (w2 & H2 & [= <-])%bind_Some)%bind_Some).
  assert (C : calm w w1) by (eapply on_task_calm; [|done]; intros; reflexivity).
  destruct (map_aref core _ _ _ _ (proj1 C) Ht) as (t1 & Ht1 & Ec).
  unfold dequeue_pushable_dl_task in H2. apply bind_Some in H2 as (q1 & Hq1 & (t1' & Ht1' & H2)%bind_Some).
  assert (t1' = t1) as -> by (unfold tref in *; congruence).
  replace (pushable t1) with (pushable t) in H2 by core_eq. rewrite Hp in H2. injection H2 as <-. done.
Qed.

Lemma prio_changed_calm w c p w' : prio_changed_dl w c p = Some w' -> calm w w'.
Proof.
  intros H. unfold prio_changed_dl in H. apply bind_Some in H as (t & Ht & H).
  destruct (negb _); [injection H as <-; apply calm_refl|].
  apply bind_Some in H as (q & Hq & (w1 & H1 & H)%bind_Some).
  assert (C : calm w w1).
  { apply quiet_calm. destruct (overloaded (dlq q)); [injection H1 as <-; apply quiet_refl|].
    by eapply queue_callback_quiet. }
  eapply calm_trans; [done|].
  destruct (curr q =? p); [|apply bind_Some in H as (tc & Htc & H)];
    (case_match; [by eapply resched_calm|injection H as <-; apply calm_refl]).
Qed.

Lemma switched_to_queued w c p t w' : tref w p = Some t -> on_rq t = TASK_ON_RQ_QUEUED ->
  switched_to_dl w c p = Some w' -> calm w w'.
Proof.
  intros Ht Hon H. unfold switched_to_dl in H. apply bind_Some in H as (w1 & H1 & (t1 & Ht1 & H)%bind_Some).
  assert (C : calm w w1) by (eapply on_task_calm; [|done]; intros; apply cancel_core).
  destruct (map_aref core _ _ _ _ (proj1 C) Ht) as (t1' & Ht1' & Ec).
  assert (t1' = t1) as -> by (unfold tref in *; congruence).
  unfold task_on_rq_queued in H. replace (on_rq t1) with (on_rq t) in H by core_eq. rewrite Hon in H.
  simpl in H. apply bind_Some in H as (q & Hq & H). eapply calm_trans; [done|].
  destruct (negb _); [|injection H as <-; apply calm_refl].
  apply bind_Some in H as (w2 & H2 & (tc & Htc & H)%bind_Some).
  assert (C2 : calm w1 w2).
  { apply quiet_calm. destruct (_ && _); [by eapply queue_push_quiet|injection H2 as <-; apply quiet_refl]. }
  eapply calm_trans; [done|]. destruct (dl_task tc); [by eapply check_preempt_calm|by eapply resched_calm].
Qed.

(** A queued task of another class stops contending: its parameters are cleared, or
    its timer is started, or nothing happens. *)
Lemma non_contending_other w p t g x w' : at_work w g [p] p t x -> dl_task t = false ->
  state t <> TASK_DEAD -> task_non_contending w p = Some w' ->
  exists t', (t' = t \/ t' = cleared p t) /\
    (worked w g w' [p] p t' x \/ worked w g w' [p] p (with_nc true t') x).
Proof.
  intros A Hd Hs H. unfold task_non_contending in H. rewrite (aw_task _ _ _ _ _ _ A) in H.
  cbn [mbind option_bind] in H. apply bind_Some in H as (q & Hq & H).
  assert (Same : Some w = Some w' -> exists t2, (t2 = t \/ t2 = cleared p t) /\
    (worked w g w' [p] p t2 x \/ worked w g w' [p] p (with_nc true t2) x)).
  { intros [= <-]. exists t. split; [by left|]. left. eapply worked_intro; [done|apply only_refl]. }
  destruct (_ =? 0); [auto|]. destruct (dl_entity_is_special _); [auto|]. destruct (_ || _).
  - rewrite Hd in H. rewrite (proj2 (Z.eqb_neq (state t) TASK_DEAD) Hs) in H. simpl in H.
    apply bind_Some in H as (n & Hn & (w2 & H2 & H)%bind_Some).
    exists (cleared p t). split; [by right|]. left. by eapply clear_work.
  - exists t. split; [by left|]. right. destruct (work_task _ _ _ _ _ _ _ _ A H) as [A1 O1].
    exists g. eexists. split_and!; [exact A1|reflexivity|done].
Qed.

(** A queued task leaves the class: at most its parameters are cleared. *)
Lemma switched_from_queued w c p t g x w' : at_work w g [p] p t x -> on_rq t = TASK_ON_RQ_QUEUED ->
  dl_task t = false -> state t <> TASK_DEAD -> dl_non_contending (dl t) = false ->
  switched_from_dl w c p = Some w' ->
  worked w g w' [p] p t x \/ worked w g w' [p] p (cleared p t) x.
Proof.
  intros A Hon Hd Hs Hnc H. unfold switched_from_dl in H. rewrite (aw_task _ _ _ _ _ _ A) in H.
  cbn [mbind option_bind] in H.
  apply bind_Some in H as (w1 & H1 & (t1 & Ht1 & H)%bind_Some).
  assert (S1 : exists t2, (t2 = t \/ t2 = cleared p t) /\
    (worked w g w1 [p] p t2 x \/ worked w g w1 [p] p (with_nc true t2) x)).
  { destruct (_ && _); [by apply non_contending_other|].
    injection H1 as <-. exists t. split; [by left|]. left. eapply worked_intro; [done|apply only_refl]. }
  destruct S1 as (t2 & Ht2 & S1).
  assert (F : on_rq t2 = TASK_ON_RQ_QUEUED /\ dl_non_contending (dl t2) = false)
    by (by destruct Ht2 as [-> | ->]).
  destruct F as [F1 F2].
  assert (S2 : exists b, worked w g w1 [p] p (with_nc b t2) x).
  { destruct S1 as [S1|S1]; [exists false|by exists true]. eapply worked_core; [|exact S1].
    unfold core; simpl. by rewrite F2. }
  destruct S2 as (b & g1 & t1' & A1 & Ec1 & O1).
  rewrite (aw_task _ _ _ _ _ _ A1) in Ht1. injection Ht1 as ->.
  unfold task_on_rq_queued in H. replace (on_rq t1) with (on_rq t2) in H by core_eq. rewrite F1 in H.
  simpl in H. apply bind_Some in H as (w2 & H2 & (q & Hq & H)%bind_Some).
  enough (S3 : worked w g w2 [p] p t2 x).
  { assert (C : calm w2 w').
    { case_match; [injection H as <-; apply calm_refl|]. apply quiet_calm. by eapply queue_callback_quiet. }
    destruct Ht2 as [-> | ->]; [left|right]; by eapply worked_calm. }
  replace (dl_non_contending (dl t1)) with b in H2 by core_eq. destruct b.
  - destruct (work_task _ _ _ _ _ _ _ _ A1 H2) as [A2 O2]. exists g1. eexists.
    split_and!; [exact A2| |by eapply only_trans]. core_eq.
  - injection H2 as <-. exists g1, t1. split_and!; [done| |done]. core_eq.
Qed.

(** *** A queued task *)

Lemma cleared_nowhere p t : place_of t = nowhere -> dl_task t = false -> place_of (cleared p t) = nowhere.
Proof.
  unfold place_of, counted, dl_task. simpl. intros [= H1 H2 H3 H4] Hd. rewrite Hd. simpl. by rewrite H1, H2.
Qed.

(** The class callbacks of a queued task with its new parameters in place. *)
Lemma class_changed_queued w w0 w' g c p t was op : at_work w g [p] p t (place_of t) -> task_ok t ->
  on_rq t = TASK_ON_RQ_QUEUED -> steady p w0 w -> seated w0 p -> at_home w p t ->
  check_class_changed w c p was op = Some w' -> inv w'.
Proof.
  intros A Hok Hon S0 Se Hh H. unfold check_class_changed in H. rewrite (aw_task _ _ _ _ _ _ A) in H.
  cbn [mbind option_bind] in H.
  assert (I : inv w) by (eapply inv_close; [done..|by apply S0|done]).
  destruct was, (dl_task t) eqn:Hd; [eapply calm_inv; [done|by eapply prio_changed_calm]| | |by injection H as <-].
  2:{ eapply calm_inv; [done|]. eapply switched_to_queued; [apply (aw_task _ _ _ _ _ _ A)|done|done]. }
  assert (Hs : state t <> TASK_DEAD) by (intros E; pose proof (to_dead t Hok E) as E0; by rewrite Hon in E0).
  pose proof (other_nowhere t Hok Hd) as Hx.
  assert (Close : forall t1, worked w g w' [p] p t1 (place_of t) -> place_of t1 = nowhere -> task_ok t1 ->
    (forall c, curr_ok c t -> curr_ok c t1) -> inv w').
  { intros t1 (g1 & t1' & A1 & Ec & O1) Hx1 Hok1 Hc1.
    eapply (steady_close w w' g1 p t t1'); [by eapply only_steady|by apply S0|done|exact A1| | |].
    - rewrite (core_place t1 t1' Ec). congruence.
    - by eapply core_ok.
    - intros c0 Hc0. eapply core_curr; [done|auto]. }
  destruct (switched_from_queued w c p t g (place_of t) w' A Hon Hd Hs (other_nc t Hok Hd) H) as [S|S].
  - by apply (Close t).
  - apply (Close (cleared p t)); [done|by apply cleared_nowhere| |done].
    destruct Hok. apply cleared_ok; [by split|done..].
Qed.

(** A task between its dequeue and its enqueue: off the trees, with no charges. *)
Record spare (t : task) : Prop := {
  sp_fit : fit t;
  sp_on_rq : on_rq t = TASK_ON_RQ_QUEUED;
  sp_tree : on_tree (dl t) = false;
  sp_push : pushable t = false;
  sp_nc : dl_non_contending (dl t) = false;
  sp_dead : state t <> TASK_DEAD;
  sp_waking : state t <> TASK_WAKING
}.

Lemma restore_work w w' g p t fl : at_work w g [p] p t nowhere -> spare t ->
  current_at w p (cpu t) -> has fl ENQUEUE_RESTORE = true -> has fl ENQUEUE_WAKEUP = false ->
  enqueue_task w (cpu t) p fl = Some w' ->
  exists g' t', at_work w' g' [p] p t' (place_of t') /\ task_ok t' /\ only p w g w' g' /\
    on_rq t' = TASK_ON_RQ_QUEUED /\ at_home w' p t'.
Proof.
  intros A [F Hon T P Hnc Hs1 Hs2] Hcur L1 L2 H. unfold enqueue_task in H.
  rewrite (aw_task _ _ _ _ _ _ A) in H. simpl in H. destruct (dl_task t) eqn:Hd.
  2:{ injection H as <-. exists g, t. assert (Hok : task_ok t).
      { destruct F as ([F1 F2] & F3 & F4 & F5). split; rewrite ?T, ?P, ?Hnc; try done; auto. }
      rewrite (other_nowhere t Hok Hd). split_and!; try done; [apply only_refl|].
      intros c q Hq Hp. split; [done|]. intros _. symmetry. by apply (Hcur c q). }
  destruct (enqueue_full w w' g p t nowhere fl A) as (g' & t' & A' & Q & O & E1 & E2 & E3 & Hp); try done.
  - by apply fit_ready.
  - unfold enqueues_from, recharged. by rewrite L1, orb_true_r, L2.
  - unfold recharged. by rewrite L1, orb_true_r.
  - by rewrite L2.
  - rewrite Hon in E1. exists g', t'. rewrite (core_place t' (t_on_rq TASK_ON_RQ_QUEUED t')) in A'
      by (unfold core; simpl; by rewrite E1).
    split_and!; try done; [apply queued_ok; by rewrite ?E2|].
    intros c q' Hq' Hc. destruct (steady_rref _ _ _ _ _ (only_steady _ _ _ _ _ O) Hq') as (q & Hq & Eq).
    rewrite Hc in Eq. split.
    + destruct (pushable t'); [|done]. by destruct (Hp eq_refl c q Hq).
    + intros _. rewrite E3. symmetry. by apply (Hcur c q).
Qed.

(** Dequeueing a queued task, be it running or not. *)
Lemma save_work w p t q fl w1 w2 : inv w -> tref w p = Some t -> on_rq t = TASK_ON_RQ_QUEUED ->
  has fl DEQUEUE_SAVE = true -> has fl DEQUEUE_SLEEP = false -> rref w (cpu t) = Some q ->
  dequeue_task w (cpu t) p fl = Some w1 ->
  (if curr q =? p then put_prev_task w1 (cpu t) p else Some w1) = Some w2 ->
  exists g t', at_work w2 g [p] p t' nowhere /\ spare t' /\ steady p w w2 /\
    cpu t' = cpu t /\ policy t' = policy t.
Proof.
  intros I Ht Hon L1 L2 Hq H1 H2. destruct (inv_open w p t I Ht) as (g & A & Hok & Se & Hh).
  destruct (leave_work w w1 g p t t fl A ltac:(done) Hok Hon Se Hh) as (g1 & t1 & th & A1 & S1 & Ec1); try done.
  { by rewrite Hon. } { by rewrite L1, orb_true_r. }
  assert (w2 = w1) as ->.
  { destruct (Z.eqb_spec (curr q) p) as [Hp|]; [|congruence].
    pose proof (proj1 S1 (cpu t)) as E. rewrite Hq in E.
    destruct (rref w1 (cpu t)) as [q1|] eqn:Hq1; [|done]. injection E as E.
    eapply (put_prev_off w1 (cpu t) p t1 q1); [apply (aw_task _ _ _ _ _ _ A1)|done|congruence|core_eq|done]. }
  exists g1, t1. split_and!; [exact A1| |done|core_eq|core_eq].
  split; try core_eq.
  - apply (core_fit (with_thr th (filed false false t))); [done|]. by apply (ok_fit t).
  - rewrite <- (queued_nc t Hok Hon). core_eq.
  - replace (state t1) with (state t) by core_eq. intros E. pose proof (to_dead t Hok E) as E0.
    by rewrite Hon in E0.
  - replace (state t1) with (state t) by core_eq. apply Hok.
Qed.

(** Putting it back. *)
Lemma unsave_work w w3 w4 w5 g p t t3 q fl : steady p w w3 -> current_at w p (cpu t) ->
  rref w (cpu t) = Some q -> at_work w3 g [p] p t3 nowhere -> spare t3 -> cpu t3 = cpu t ->
  has fl ENQUEUE_RESTORE = true -> has fl ENQUEUE_WAKEUP = false ->
  enqueue_task w3 (cpu t) p fl = Some w4 ->
  (if curr q =? p then set_next_task w4 (cpu t) p else Some w4) = Some w5 ->
  exists g' t', at_work w5 g' [p] p t' (place_of t') /\ task_ok t' /\ steady p w w5 /\
    on_rq t' = TASK_ON_RQ_QUEUED /\ at_home w5 p t'.
Proof.
  intros S3 Hcur Hq A3 Sp Hc3 L1 L2 H4 H5. rewrite <- Hc3 in H4.
  destruct (restore_work w3 w4 g p t3 fl A3 Sp) as (g4 & t4 & A4 & Hok4 & O4 & Hon4 & Hh4); [|done..|].
  { rewrite Hc3. by eapply steady_current. }
  pose proof (steady_trans _ _ _ _ S3 (only_steady _ _ _ _ _ O4)) as S4.
  assert (C5 : calm w4 w5).
  { destruct (Z.eqb_spec (curr q) p) as [Hp|]; [|injection H5 as <-; apply calm_refl].
    pose proof (proj1 S4 (cpu t)) as E. rewrite Hq in E.
    destruct (rref w4 (cpu t)) as [q4|] eqn:Hq4; [|done]. injection E as E.
    eapply set_next_calm; [apply (aw_task _ _ _ _ _ _ A4)| |done].
    apply (Hh4 (cpu t) q4 Hq4). congruence. }
  destruct (work_calm _ _ _ _ _ _ _ A4 C5) as (t5 & A5 & Ec5).
  pose proof (only_steady _ _ _ _ _ (calm_only p w4 w5 g4 C5)) as S5.
  exists g4, t5. split_and!.
  - by rewrite (core_place t4 t5 Ec5).
  - by eapply core_ok.
  - by eapply steady_trans.
  - rewrite <- Hon4. core_eq.
  - eapply steady_home; [done..|]. intros c Hc. by eapply core_curr.
Qed.

Lemma changed_spare w attr np p t pol : accepted w attr pol -> pol = new_policy attr t ->
  np = __normal_prio pol (sched_priority attr) (sched_nice attr) -> spare t -> spare (changed attr np p t).
Proof.
  intros Hacc Hpol Hnp [(Hb & _ & _ & Hst) ? ? ? ? ? ?].
  destruct (changed_fit w attr np p t pol Hacc Hpol Hnp Hb Hst) as (F & _ & _).
  destruct (changed_shape attr np p t) as (E1 & E2 & E3 & E4 & E5 & E6 & E7 & E8 & E9 & _).
  split; congruence.
Qed.

Lemma commit_queued w0 w p attr t np w' : inv w -> tref w p = Some t -> on_rq t = TASK_ON_RQ_QUEUED ->
  accepted w0 attr (new_policy attr t) ->
  np = __normal_prio (new_policy attr t) (sched_priority attr) (sched_nice attr) ->
  has (sched_flags attr) SCHED_FLAG_KEEP_PARAMS = false ->
  setscheduler_commit w (cpu t) p attr np = Some w' -> inv w'.
Proof.
  intros I Ht Hon Hacc Hnp Hkeep H. destruct (inv_open w p t I Ht) as (g & A & Hok & Se & Hh).
  unfold setscheduler_commit in H. rewrite Ht in H. cbn [mbind option_bind] in H.
  apply bind_Some in H as (q & Hq & (w1 & H1 & (w2 & H2 & (w3 & H3 & H)%bind_Some)%bind_Some)%bind_Some).
  unfold task_on_rq_queued in H1. rewrite Hon in H1. rewrite Hkeep in H3. simpl in H1.
  set (fl := Z.lor (Z.lor DEQUEUE_SAVE _) DEQUEUE_NOCLOCK) in *.
  assert (Hfl : has fl DEQUEUE_SAVE = true /\ has fl DEQUEUE_SLEEP = false /\ has fl ENQUEUE_RESTORE = true /\
    has fl ENQUEUE_WAKEUP = false /\ has (Z.lor fl ENQUEUE_HEAD) ENQUEUE_RESTORE = true /\
    has (Z.lor fl ENQUEUE_HEAD) ENQUEUE_WAKEUP = false) by (unfold fl; by destruct (np =? prio t)).
  destruct Hfl as (L1 & L2 & L3 & L4 & L5 & L6).
  destruct (save_work w p t q fl w1 w2) as (g2 & t2 & A2 & Sp2 & S2 & Hc2 & Hpol2); try done.
  destruct (work_task _ _ _ _ _ _ _ _ A2 H3) as [A3 O3]. fold (changed attr np p t2) in A3.
  assert (Sp3 : spare (changed attr np p t2)).
  { eapply changed_spare; [done| |done|done]. unfold new_policy. by rewrite Hpol2. }
  rewrite (aw_task _ _ _ _ _ _ A3) in H. cbn [mbind option_bind] in H.
  apply bind_Some in H as (w4 & H4 & (w5 & H5 & H)%bind_Some).
  unfold task_on_rq_queued in H4. rewrite Hon in H4. simpl in H4.
  destruct (unsave_work w w3 w4 w5 g2 p t (changed attr np p t2) q
    (if prio t <? prio (changed attr np p t2) then Z.lor fl ENQUEUE_HEAD else fl))
    as (g5 & t5 & A5 & Hok5 & S5 & Hon5 & Hh5); try done.
  - eapply steady_trans; [done|by eapply only_steady].
  - by apply home_current.
  - rewrite <- Hc2. apply changed_shape.
  - by destruct (_ <? _).
  - by destruct (_ <? _).
  - eapply (class_changed_queued w5 w w' g5 (cpu t) p t5); done.
Qed.

(** *** A blocked task *)

(** Off the trees and asleep, but not dead. *)
Record asleep (t : task) : Prop := {
  as_on_rq : on_rq t = 0;
  as_tree : on_tree (dl t) = false;
  as_push : pushable t = false;
  as_dead : state t <> TASK_DEAD;
  as_waking : state t <> TASK_WAKING
}.

Lemma core_asleep t t' : core t' = core t -> asleep t -> asleep t'.
Proof.
  intros Hc [H1 H2 H3 H4 H5]. split.
  - rewrite <- H1. core_eq.
  - rewrite <- H2. core_eq.
  - rewrite <- H3. core_eq.
  - by replace (state t') with (state t) by core_eq.
  - by replace (state t') with (state t) by core_eq.
Qed.

Lemma asleep_ok t : asleep t -> fit t ->
  (dl_non_contending (dl t) = true -> counted t = true /\ dl_runtime (dl t) <> 0) -> task_ok t.
Proof.
  intros [H1 H2 H3 H4 H5] ([F1 F2] & F3 & F4 & F5) Hnc.
  split; rewrite ?H1, ?H2, ?H3; try done; auto.
  - intros E. by destruct (Hnc E).
  - intros E. split; [auto|]. destruct (dl_non_contending (dl t)); [|done]. by destruct (Hnc eq_refl).
Qed.

Lemma ok_asleep t : task_ok t -> on_rq t = 0 -> state t <> TASK_DEAD -> asleep t.
Proof. intros Hok Hon Hs. destruct (blocked_place t Hok Hon) as (T & P & _). split; try done. apply Hok. Qed.

(** The change of a blocked task up to the class callbacks. *)
Lemma commit_front w w' g p t x attr np : at_work w g [p] p t x -> asleep t ->
  has (sched_flags attr) SCHED_FLAG_KEEP_PARAMS = false ->
  setscheduler_commit w (cpu t) p attr np = Some w' ->
  exists w1 t1, at_work w1 g [p] p t1 x /\ core t1 = core (changed attr np p t) /\ only p w g w1 g /\
    check_class_changed w1 (cpu t) p (dl_task t) (prio t) = Some w'.
Proof.
  intros A Sl Hkeep H. unfold setscheduler_commit in H. rewrite (aw_task _ _ _ _ _ _ A) in H.
  cbn [mbind option_bind] in H. unfold task_on_rq_queued in H. rewrite (as_on_rq _ Sl), Hkeep in H.
  apply bind_Some in H as (q & Hq & (w1 & [= <-] & (w2 & H2 & (w3 & H3 & H)%bind_Some)%bind_Some)%bind_Some).
  assert (w2 = w) as ->.
  { destruct (Z.eqb_spec (curr q) p) as [Hp|]; [|congruence].
    eapply (put_prev_off w (cpu t) p t q); [apply (aw_task _ _ _ _ _ _ A)|done|done|apply Sl|done]. }
  destruct (work_task _ _ _ _ _ _ _ _ A H3) as [A3 O3].
  rewrite (aw_task _ _ _ _ _ _ A3) in H. cbn [mbind option_bind] in H.
  apply bind_Some in H as (w4 & [= <-] & (w5 & H5 & H)%bind_Some).
  assert (C5 : calm w3 w5).
  { destruct (curr q =? p); [|injection H5 as <-; apply calm_refl].
    eapply set_next_calm; [apply (aw_task _ _ _ _ _ _ A3)| |done].
    destruct (changed_shape attr np p t) as (_ & _ & _ & E & _). unfold changed in E. rewrite E. apply Sl. }
  destruct (work_calm _ _ _ _ _ _ _ A3 C5) as (t5 & A5 & Ec5).
  exists w5, t5. split_and!; [done|done| |done]. eapply only_trans; [done|by apply calm_only].
Qed.

Lemma switched_from_blocked w c p t g x w' : at_work w g [p] p t x -> on_rq t = 0 -> bw_ok t ->
  pl_this x = due c t -> pl_run x = (if dl_non_contending (dl t) then due c t else None) ->
  switched_from_dl w c p = Some w' ->
  worked w g w' [p] p (with_nc false t) (x_run None (x_this None x)).
Proof.
  intros A Hon [Hb _] Hthis Hrun H. unfold switched_from_dl in H. rewrite (aw_task _ _ _ _ _ _ A) in H.
  cbn [mbind option_bind] in H. unfold task_on_rq_queued in H. rewrite Hon in H.
  apply bind_Some in H as (w1 & [= <-] & H). rewrite (aw_task _ _ _ _ _ _ A) in H.
  cbn [mbind option_bind] in H. rewrite Hon in H. simpl in H.
  apply bind_Some in H as (w2 & H2 & (w3 & H3 & (q & Hq & [= <-])%bind_Some)%bind_Some).
  apply bind_Some in H2 as (w4 & H4 & H2).
  assert (S4 : exists g4, at_work w4 g4 [p] p t (x_run None x) /\ only p w g w4 g4).
  { destruct (dl_non_contending (dl t)); [by eapply sub_running_work|].
    injection H4 as <-. rewrite x_run_id by done. eauto using only_refl. }
  destruct S4 as (g4 & A4 & O4).
  destruct (sub_rq_work w4 w2 g4 [p] p t _ c A4 Hthis Hb H2) as (g2 & A2 & O2).
  destruct (dl_non_contending (dl t)) eqn:Hnc.
  - destruct (work_task _ _ _ _ _ _ _ _ A2 H3) as [A3 O3]. exists g2. eexists.
    split_and!; [exact A3|reflexivity|eauto using only_trans].
  - injection H3 as <-. exists g2, t. split_and!; [done|unfold core; simpl; by rewrite Hnc|eauto using only_trans].
Qed.

Lemma switched_to_blocked w c p t g x w' : at_work w g [p] p t x -> on_rq t = 0 -> bw_ok t ->
  pl_this x = None -> switched_to_dl w c p = Some w' -> worked w g w' [p] p t (x_this (due c t) x).
Proof.
  intros A Hon [Hb _] Hthis H. unfold switched_to_dl in H.
  apply bind_Some in H as (w1 & H1 & (t1 & Ht1 & H)%bind_Some).
  destruct (work_task _ _ _ _ _ _ _ _ A H1) as [A1 O1]. pose proof (cancel_core t) as Ec.
  rewrite (aw_task _ _ _ _ _ _ A1) in Ht1. injection Ht1 as <-. unfold task_on_rq_queued in H.
  replace (on_rq (cancel_inactive t)) with (on_rq t) in H by core_eq. rewrite Hon in H. simpl in H.
  destruct (add_rq_work w1 w' g [p] p _ x c A1 Hthis) as (g2 & A2 & O2); [|done|].
  - by replace (dl_bw (dl (cancel_inactive t))) with (dl_bw (dl t)) by core_eq.
  - rewrite (core_due c t _ Ec) in A2. exists g2. eexists. split_and!; [exact A2|done|by eapply only_trans].
Qed.

Lemma asleep_place t : asleep t -> place_of t =
  (if dl_task t then mk_place None None (due (cpu t) t)
     (if dl_non_contending (dl t) then due (cpu t) t else None) else nowhere).
Proof.
  intros [H1 H2 H3 _ _]. unfold place_of, counted, active, task_on_rq_queued, due. rewrite H1, H2, H3.
  by destruct (dl_task t), (dl_entity_is_special (dl t)), (dl_non_contending (dl t)).
Qed.

(** Where the charges of a blocked task must be when its new parameters are stored. *)
Definition prepared (attr : sched_attr) (np p : Z) (t : task) (x : place) : Prop :=
  if dl_task t then if dl_policy (new_policy attr t) then x = place_of (changed attr np p t) else x = place_of t
  else x = nowhere /\ dl_non_contending (dl t) = false.

Lemma core_changed attr np p t t' : core t' = core t ->
  core (changed attr np p t') = core (changed attr np p t).
Proof.
  intros Hc. unfold changed, __setscheduler_params. replace (policy t') with (policy t) by core_eq.
  repeat case_match; core_eq.
Qed.

Lemma core_prepared attr np p t t' x : core t' = core t -> prepared attr np p t x ->
  prepared attr np p t' x.
Proof.
  intros Hc. unfold prepared, new_policy, dl_task. replace (prio t') with (prio t) by core_eq.
  replace (policy t') with (policy t) by core_eq.
  rewrite (core_place _ _ (core_changed attr np p t t' Hc)), (core_place _ _ Hc).
  by replace (dl_non_contending (dl t')) with (dl_non_contending (dl t)) by core_eq.
Qed.

Lemma asleep_close w w' g p t t2 b : at_home w p t -> seated w p -> asleep t2 -> fit t2 ->
  (b = true -> counted t2 = true /\ dl_runtime (dl t2) <> 0) ->
  worked w g w' [p] p (with_nc b t2) (place_of (with_nc b t2)) -> inv w'.
Proof.
  intros Hh Se Sl F Hb (g' & t' & A & Ec & O).
  eapply (steady_close w w' g' p t t'); [by eapply only_steady|done|done|exact A| | |].
  - by rewrite (core_place _ _ Ec).
  - apply (core_ok (with_nc b t2)); [done|]. apply asleep_ok; [by destruct Sl; split|done|done].
  - intros c _. apply (core_curr c (with_nc b t2)); [done|]. destruct Sl as [H1 H2 H3 _ _].
    split; [done|]. simpl. by rewrite H1.
Qed.

Lemma commit_blocked w w0 w' g p t x attr np : at_work w g [p] p t x -> asleep t -> bw_ok t ->
  0 <= static_prio t -> accepted w0 attr (new_policy attr t) ->
  np = __normal_prio (new_policy attr t) (sched_priority attr) (sched_nice attr) ->
  prepared attr np p t x -> has (sched_flags attr) SCHED_FLAG_KEEP_PARAMS = false ->
  seated w p -> at_home w p t -> setscheduler_commit w (cpu t) p attr np = Some w' -> inv w'.
Proof.
  intros A Sl Hb Hst Hacc Hnp Hx Hkeep Se Hh H.
  destruct (commit_front w w' g p t x attr np A Sl Hkeep H) as (w1 & t1 & A1 & Ec1 & O1 & H1).
  destruct (changed_shape attr np p t) as (E1 & E2 & E3 & E4 & E5 & E6 & E7 & E8 & E9 & E10).
  destruct (changed_fit w0 attr np p t _ Hacc eq_refl Hnp Hb Hst) as (F & Fd & Fs).
  unfold prepared in Hx. set (t2 := changed attr np p t) in *. clearbody t2.
  assert (Sl2 : asleep t2) by (destruct Sl; split; congruence).
  assert (Sl1 : asleep t1) by (by eapply core_asleep).
  assert (Hb1 : bw_ok t1) by (eapply core_bw_ok; [done|apply F]).
  assert (Ed : dl_task t1 = dl_policy (new_policy attr t)) by (rewrite <- Fd; unfold dl_task; f_equal; core_eq).
  assert (Ecpu : cpu t2 = cpu t) by done.
  assert (Close : forall b, worked w1 g w' [p] p (with_nc b t2) (place_of (with_nc b t2)) ->
    (b = true -> dl_policy (new_policy attr t) = true) -> inv w').
  { intros b S Hbb. eapply (asleep_close w w' g p t t2 b); [done..| |by eapply worked_only].
    intros Eb. specialize (Hbb Eb). destruct (Fs Hbb) as [Fs1 _]. rewrite Hbb in E10.
    split; [unfold counted; by rewrite Fd, Hbb, Fs1|]. rewrite E10. by eapply new_bw_bounds. }
  unfold check_class_changed in H1. rewrite (aw_task _ _ _ _ _ _ A1) in H1. cbn [mbind option_bind] in H1.
  rewrite Ed in H1. destruct (dl_task t) eqn:Hd, (dl_policy (new_policy attr t)) eqn:Hp.
  - apply (Close (dl_non_contending (dl t2))); [|done]. eapply worked_calm; [|by eapply prio_changed_calm].
    exists g, t1. split_and!; [|unfold core in *; simpl; congruence|apply only_refl]. subst x.
    by rewrite (core_place t2 (with_nc (dl_non_contending (dl t2)) t2)).
  - apply (Close false); [|done]. rewrite asleep_place in Hx by done. rewrite Hd in Hx. subst x.
    assert (Edl : due (cpu t) t1 = due (cpu t) t) by (apply due_eq; rewrite <- E10; core_eq).
    assert (Enc : dl_non_contending (dl t1) = dl_non_contending (dl t)) by (rewrite <- E9; core_eq).
    eapply worked_core; [|replace (place_of (with_nc false t2)) with nowhere;
      [eapply (switched_from_blocked w1 (cpu t) p t1 g _ w' A1); [apply Sl1|done|simpl..|done]|]].
    + core_eq.
    + done.
    + by rewrite Enc, Edl.
    + rewrite (asleep_place (with_nc false t2)) by (by destruct Sl2; split).
      change (dl_task (with_nc false t2)) with (dl_task t2). by rewrite Fd.
  - destruct Hx as [-> Hnc]. apply (Close false); [|done].
    eapply worked_core; [|replace (place_of (with_nc false t2)) with (x_this (due (cpu t) t1) nowhere);
      [eapply (switched_to_blocked w1 (cpu t) p t1 g nowhere w' A1); [apply Sl1|done..]|]].
    + rewrite Ec1. unfold core; simpl. by rewrite E9, Hnc.
    + rewrite (asleep_place (with_nc false t2)) by (by destruct Sl2; split).
      change (dl_task (with_nc false t2)) with (dl_task t2). rewrite Fd.
      rewrite (core_due (cpu t) t2 t1 Ec1). change (cpu (with_nc false t2)) with (cpu t2). by rewrite Ecpu.
  - destruct Hx as [-> Hnc]. apply (Close false); [|done]. injection H1 as <-. exists g, t1.
    split_and!; [|rewrite Ec1; unfold core; simpl; by rewrite E9, Hnc|apply only_refl].
    rewrite (asleep_place (with_nc false t2)) by (by destruct Sl2; split).
    change (dl_task (with_nc false t2)) with (dl_task t2). by rewrite Fd.
Qed.

(** *** Affinity *)

Lemma common_calm w p m w' : set_cpus_allowed_common w p m = Some w' -> calm w w'.
Proof. intros H. eapply on_task_calm; [|done]. intros; reflexivity. Qed.

Lemma affinity_calm w p m w' : set_cpus_allowed_dl w p m = Some w' -> calm w w'.
Proof.
  intros H. unfold set_cpus_allowed_dl in H.
  apply bind_Some in H as (t & Ht & (q & Hq & (d & Hd & (w1 & H1 & H)%bind_Some)%bind_Some)%bind_Some).
  eapply calm_trans; [|by eapply common_calm]. apply quiet_calm.
  destruct (mask_empty _); [|injection H1 as <-; apply quiet_refl]. unbind. by eapply __dl_sub_quiet.
Qed.

Lemma core_spare t t' : core t' = core t -> spare t -> spare t'.
Proof.
  intros Hc [H1 H2 H3 H4 H5 H6 H7]. split.
  - by eapply core_fit.
  - rewrite <- H2. core_eq.
  - rewrite <- H3. core_eq.
  - rewrite <- H4. core_eq.
  - rewrite <- H5. core_eq.
  - by replace (state t') with (state t) by core_eq.
  - by replace (state t') with (state t) by core_eq.
Qed.

Lemma set_cpus_inv w p m w' : inv w -> __do_set_cpus_allowed w p m = Some w' -> inv w'.
Proof.
  intros I H. unfold __do_set_cpus_allowed in H. apply bind_Some in H as (t & Ht & (q & Hq & H)%bind_Some).
  destruct (inv_open w p t I Ht) as (g & A & Hok & Se & Hh).
  apply bind_Some in H as (w1 & H1 & (w2 & H2 & (w3 & H3 & (w4 & H4 & H5)%bind_Some)%bind_Some)%bind_Some).
  assert (C3 : calm w2 w3) by (destruct (dl_task t); [by eapply affinity_calm|by eapply common_calm]).
  unfold task_on_rq_queued in *. destruct (to_on_rq t Hok) as [Hon|Hon]; rewrite Hon in *; simpl in H1, H4.
  - injection H1 as <-. injection H4 as <-. destruct (blocked_place t Hok Hon) as (T & P & _).
    assert (w2 = w) as ->.
    { destruct (Z.eqb_spec (curr q) p) as [Hp|]; [|congruence]. by eapply (put_prev_off w (cpu t) p t q). }
    eapply calm_inv; [done|]. eapply calm_trans; [done|].
    destruct (curr q =? p); [|injection H5 as <-; apply calm_refl].
    destruct (map_aref core _ _ _ _ (proj1 C3) Ht) as (t3 & Ht3 & Ec3).
    eapply set_next_calm; [exact Ht3| |done]. rewrite <- P. core_eq.
  - destruct (save_work w p t q (Z.lor DEQUEUE_SAVE DEQUEUE_NOCLOCK) w1 w2)
      as (g2 & t2 & A2 & Sp2 & S2 & Hc2 & Hpol2); try done.
    destruct (work_calm _ _ _ _ _ _ _ A2 C3) as (t3 & A3 & Ec3).
    pose proof (only_steady _ _ _ _ _ (calm_only p w2 w3 g2 C3)) as S3.
    destruct (unsave_work w w3 w4 w' g2 p t t3 q (Z.lor ENQUEUE_RESTORE ENQUEUE_NOCLOCK))
      as (g5 & t5 & A5 & Hok5 & S5 & Hon5 & Hh5); try done.
    + by eapply steady_trans.
    + by apply home_current.
    + by eapply core_spare.
    + rewrite <- Hc2. core_eq.
    + eapply inv_close; [exact A5|done|done|by apply S5|done].
Qed.

(** *** Admission *)

Lemma change_util_work w w' g p t nb : at_work w g [p] p t (place_of t) -> task_ok t -> on_rq t = 0 ->
  dl_task t = true -> dl_entity_is_special (dl t) = false -> 0 <= nb <= 2 ^ 20 ->
  dl_change_utilization w p nb = Some w' ->
  worked w g w' [p] p (with_nc false t) (mk_place None None (stake (cpu t) nb) None).
Proof.
  intros A Hok Hon Hd Hsp Hnb H. unfold dl_change_utilization in H. rewrite (aw_task _ _ _ _ _ _ A) in H.
  cbn [mbind option_bind] in H. unfold task_on_rq_queued in H. rewrite Hon in H.
  apply bind_Some in H as (w1 & H1 & (w2 & H2 & H)%bind_Some).
  destruct (blocked_place t Hok Hon) as (T & P & B1 & B2 & B3). rewrite place_this in B3 by done.
  pose proof (to_bw t Hok) as Hb.
  assert (S1 : worked w g w1 [p] p (with_nc false t) (x_run None (place_of t))).
  { destruct (dl_non_contending (dl t)) eqn:Hnc.
    - apply bind_Some in H1 as (w3 & H3 & H1).
      destruct (sub_running_work w w3 g [p] p t _ (cpu t) A B3 Hb H3) as (g3 & A3 & O3).
      destruct (work_task _ _ _ _ _ _ _ _ A3 H1) as [A4 O4]. exists g3. eexists.
      split_and!; [exact A4|apply cancel_core|by eapply only_trans].
    - injection H1 as <-. rewrite x_run_id by done. exists g, t.
      split_and!; [done|unfold core; simpl; by rewrite Hnc|apply only_refl]. }
  destruct S1 as (g1 & t1 & A1 & Ec & O1).
  assert (Hth : pl_this (x_run None (place_of t)) = stake (cpu t) (dl_bw (dl t))).
  { cbn [pl_this x_run]. rewrite place_this by done. unfold due. by rewrite Hsp. }
  destruct (sub_rq_bw_spec w1 w2 g1 [p] p t1 _ (cpu t) _ A1 Hth Hb H2) as (g2 & A2 & O2).
  destruct (add_rq_bw_spec w2 w' g2 [p] p t1 _ (cpu t) nb A2 eq_refl Hnb H) as (g3 & A3 & O3).
  exists g3, t1. split_and!; [|done|eauto using only_trans].
  replace (mk_place _ _ _ _) with (x_this (stake (cpu t) nb) (x_this None (x_run None (place_of t)))); [done|].
  unfold x_this, x_run. simpl. by rewrite T, P.
Qed.

Lemma changed_place w attr np p t : accepted w attr (new_policy attr t) ->
  np = __normal_prio (new_policy attr t) (sched_priority attr) (sched_nice attr) ->
  asleep t -> bw_ok t -> 0 <= static_prio t -> dl_policy (new_policy attr t) = true ->
  place_of (changed attr np p t) = mk_place None None (stake (cpu t) (new_bw attr))
    (if dl_non_contending (dl t) then stake (cpu t) (new_bw attr) else None).
Proof.
  intros Hacc Hnp Sl Hb Hst Hp.
  destruct (changed_shape attr np p t) as (E1 & E2 & E3 & E4 & E5 & E6 & E7 & E8 & E9 & E10).
  destruct (changed_fit w attr np p t _ Hacc eq_refl Hnp Hb Hst) as (F & Fd & Fs).
  destruct (Fs Hp) as [Fs1 Fs2]. set (t2 := changed attr np p t) in *. clearbody t2.
  rewrite asleep_place by (destruct Sl; split; congruence).
  unfold due. by rewrite Fd, Hp, Fs1, Fs2, E1, E9.
Qed.

(** Nothing need change for a blocked task that does not become a deadline task, or
    whose bandwidth stays. *)
Lemma prepared_same w attr np p t : accepted w attr (new_policy attr t) ->
  np = __normal_prio (new_policy attr t) (sched_priority attr) (sched_nice attr) ->
  task_ok t -> on_rq t = 0 -> state t <> TASK_DEAD -> dl_entity_is_special (dl t) = false ->
  (dl_task t = true -> dl_policy (new_policy attr t) = true -> new_bw attr = dl_bw (dl t)) ->
  prepared attr np p t (place_of t).
Proof.
  intros Hacc Hnp Hok Hon Hs Hsp Hsame. pose proof (ok_fit t Hok) as (Hbw & _ & _ & Hst).
  pose proof (ok_asleep t Hok Hon Hs) as Sl. unfold prepared. destruct (dl_task t) eqn:Hd.
  - destruct (dl_policy _) eqn:Hp; [|done]. rewrite (changed_place w attr np p t) by done.
    rewrite Hsame by done. rewrite asleep_place by done. unfold due. by rewrite Hd, Hsp.
  - split; [by apply other_nowhere|by apply other_nc].
Qed.

(** The charges after admission: those of a queued task are as before, those of a
    blocked one as its new parameters will have them. *)
Lemma overflow_work w0 w w' g p t attr np ret : at_work w g [p] p t (place_of t) -> task_ok t ->
  dl_entity_is_special (dl t) = false -> state t <> TASK_DEAD -> accepted w0 attr (new_policy attr t) ->
  np = __normal_prio (new_policy attr t) (sched_priority attr) (sched_nice attr) ->
  sched_dl_overflow w p (new_policy attr t) attr = Some (w', ret) ->
  (ret <> 0 \/ on_rq t = TASK_ON_RQ_QUEUED -> quiet w w') /\
  (ret = 0 -> on_rq t = 0 -> exists b x, worked w g w' [p] p (with_nc b t) x /\
     prepared attr np p (with_nc b t) x).
Proof.
  intros A Hok Hsp Hs Hacc Hnp H. unfold sched_dl_overflow in H.
  rewrite (aw_task _ _ _ _ _ _ A) in H. cbn [mbind option_bind] in H.
  apply bind_Some in H as (q & Hq & (d & Hdr & H)%bind_Some). rewrite (ac_sugov _ _ _ Hacc) in H.
  rewrite (to_policy t Hok) in H. fold (new_bw attr) in H. pose proof (ok_fit t Hok) as (Hbw & _ & _ & Hst).
  assert (Same : (dl_task t = true -> dl_policy (new_policy attr t) = true -> new_bw attr = dl_bw (dl t)) ->
    forall w1, quiet w w1 -> on_rq t = 0 -> exists b x, worked w g w1 [p] p (with_nc b t) x /\
      prepared attr np p (with_nc b t) x).
  { intros Hsame w1 Q Hon. exists (dl_non_contending (dl t)), (place_of t). split.
    - destruct (work_quiet _ _ _ _ _ _ _ A Q) as [A1 O1]. by exists g, t.
    - replace (with_nc _ t) with t by (by destruct t as [[]]). by apply (prepared_same w0). }
  destruct (_ && dl_task t) eqn:Heq.
  { injection H as <- <-. split; [intros; apply quiet_refl|]. intros _ Hon. apply Same; [|apply quiet_refl|done].
    intros _ Hp. apply andb_prop in Heq as [Heq _]. rewrite Hp in Heq. by apply Z.eqb_eq. }
  apply bind_Some in H as (cpus & Hcpus & (cap & Hcap & H)%bind_Some).
  destruct (dl_policy (new_policy attr t)) eqn:Hp, (dl_task t) eqn:Hd; cbn [negb andb] in H.
  - destruct (negb _); [|injection H as <- <-; split; [intros; apply quiet_refl|done]].
    apply bind_Some in H as (w1 & H1 & (w2 & H2 & (w3 & H3 & [= <- <-])%bind_Some)%bind_Some).
    assert (Q : quiet w w2) by (eapply quiet_trans; [by eapply __dl_sub_quiet|by eapply __dl_add_quiet]).
    destruct (work_quiet _ _ _ _ _ _ _ A Q) as [A2 O2]. split.
    + intros [|Hon]; [done|]. unfold dl_change_utilization in H3. rewrite (aw_task _ _ _ _ _ _ A2) in H3.
      cbn [mbind option_bind] in H3. unfold task_on_rq_queued in H3. rewrite Hon in H3. by injection H3 as <-.
    + intros _ Hon. destruct (new_bw_bounds w0 attr _ Hacc Hp) as [Hnb _].
      pose proof (change_util_work w2 w3 g p t _ A2 Hok Hon Hd Hsp Hnb H3) as S.
      eexists false, _. split; [by eapply worked_only|]. unfold prepared.
      change (dl_task (with_nc false t)) with (dl_task t). change (new_policy attr (with_nc false t)) with (new_policy attr t).
      rewrite Hd, Hp. rewrite (changed_place w0); [done|done|done| |done|done|done].
      pose proof (ok_asleep t Hok Hon Hs) as []. by split.
  - destruct (negb _); [|injection H as <- <-; split; [intros; apply quiet_refl|done]].
    apply bind_Some in H as (w1 & H1 & (w2 & H2 & [= <- <-])%bind_Some).
    assert (Q : quiet w w2).
    { eapply quiet_trans; [|by eapply __dl_add_quiet].
      destruct (hrtimer_active _); [by eapply __dl_sub_quiet|injection H1 as <-; apply quiet_refl]. }
    split; [done|]. intros _. by apply Same.
  - injection H as <- <-. split; [intros; apply quiet_refl|]. intros _. by apply Same.
  - injection H as <- <-. split; [intros; apply quiet_refl|]. done.
Qed.

(** *** The system call *)

(** What a caller of [__sched_setscheduler] may pass: an attribute as the system calls
    build it, for a living task that nobody boosts and that is not the worker of a
    frequency governor. *)
Record request (w : world) (p : Z) (attr : sched_attr) (ch : checks) : Prop := {
  rq_policy : -1 <= sched_policy attr;
  rq_nice : -20 <= sched_nice attr <= 19;
  rq_prio : 0 <= sched_priority attr;
  rq_period : 0 <= sched_period attr;
  rq_deadline : 0 <= sched_deadline attr;
  rq_sugov : has (sched_flags attr) SCHED_FLAG_SUGOV = false;
  rq_keep : has (sched_flags attr) SCHED_FLAG_KEEP_PARAMS = false;
  rq_boost : pi_prio ch = None;
  rq_max : 0 <= sysctl_sched_dl_period_max w <= 2 ^ 31;
  rq_task : forall t, tref w p = Some t ->
    state t <> TASK_DEAD /\ dl_entity_is_special (dl t) = false /\ valid_policy (policy t) = true
}.

Lemma request_accepted w p t attr user ch : request w p attr ch -> tref w p = Some t ->
  setscheduler_invalid w attr user ch (new_policy attr t) = 0 -> accepted w attr (new_policy attr t).
Proof.
  intros [] Ht H. destruct (rq_task0 t Ht) as (_ & _ & Hv). unfold setscheduler_invalid in H.
  destruct (_ && negb (valid_policy _)) eqn:H1; [done|]. destruct (negb (Z.ldiff _ _ =? 0)); [done|].
  destruct (_ <? sched_priority attr) eqn:H2; [done|]. apply Z.ltb_ge in H2.
  destruct (_ || _) eqn:H3; [done|]. apply orb_false_elim in H3 as [H3 _].
  split; try done.
  - unfold new_policy in *. destruct (Z.eqb_spec (sched_policy attr) SETPARAM_POLICY) as [E|E]; [done|].
    unfold SETPARAM_POLICY in E. rewrite (proj2 (Z.leb_le 0 (sched_policy attr))) in H1 by lia.
    simpl in H1. by apply negb_false_iff in H1.
  - intros Hp. rewrite Hp in H3. simpl in H3. by apply negb_false_iff in H3.
Qed.

Lemma setscheduler_inv w p attr user ch ck w' r : inv w -> request w p attr ch ->
  __sched_setscheduler w p attr user ch ck = Some (w', r) -> inv w'.
Proof.
  intros I Hr H. unfold __sched_setscheduler in H. apply bind_Some in H as (t & Ht & H).
  replace (if sched_policy attr <? 0 then policy t else sched_policy attr) with (new_policy attr t) in H.
  2:{ unfold new_policy, SETPARAM_POLICY. pose proof (rq_policy _ _ _ _ Hr).
      destruct (Z.eqb_spec (sched_policy attr) (-1)), (Z.ltb_spec (sched_policy attr) 0); done || lia. }
  destruct (Z.eqb_spec (setscheduler_invalid w attr user ch (new_policy attr t)) 0) as [Hv|Hv];
    cbn [negb] in H; [|by injection H as <- _].
  pose proof (request_accepted w p t attr user ch Hr Ht Hv) as Hacc. pose proof Hr as [].
  destruct (rq_task0 t Ht) as (Hs & Hsp & _).
  apply bind_Some in H as (w1 & H1 & (q & Hq & (d & Hd & H)%bind_Some)%bind_Some).
  pose proof (update_rq_clock_quiet _ _ _ _ H1) as Q1. pose proof (quiet_inv _ _ I Q1) as I1.
  rewrite <- (quiet_tref _ _ p Q1) in Ht.
  destruct (p =? stop q); [by injection H as <- _|].
  destruct (setscheduler_unchanged _ _ _); [by injection H as <- _|].
  destruct (user && _); [by injection H as <- _|].
  apply bind_Some in H as ([w2 over] & H2 & H). unfold rt_effective_prio in H. rewrite rq_boost0 in H.
  destruct (inv_open w1 p t I1 Ht) as (g & A & Hok & Se & Hh).
  set (np := __normal_prio (new_policy attr t) (sched_priority attr) (sched_nice attr)) in *.
  assert (S2 : (over <> 0 \/ on_rq t = TASK_ON_RQ_QUEUED -> quiet w1 w2) /\
    (over = 0 -> on_rq t = 0 -> exists b x, worked w1 g w2 [p] p (with_nc b t) x /\
       prepared attr np p (with_nc b t) x)).
  { destruct (dl_policy (new_policy attr t) || dl_task t) eqn:Hdl; [by eapply (overflow_work w)|].
    apply orb_false_elim in Hdl as [Hp Hdl]. injection H2 as <- <-. split; [intros; apply quiet_refl|].
    intros _ Hon. exists (dl_non_contending (dl t)), (place_of t). split.
    - exists g, t. split_and!; [done|done|apply only_refl].
    - replace (with_nc _ t) with t by (by destruct t as [[]]). apply (prepared_same w); try done. congruence. }
  destruct S2 as [SQ SB]. destruct (Z.eqb_spec over 0) as [->|Ho]; cbn [negb] in H.
  2:{ injection H as <- _. eapply quiet_inv; [done|]. apply SQ. by left. }
  apply bind_Some in H as (w3 & H3 & [= <- _]). destruct (to_on_rq t Hok) as [Hon|Hon].
  - destruct (SB eq_refl Hon) as (b & x & (g2 & t2 & A2 & Ec2 & O2) & Hprep).
    pose proof (only_steady _ _ _ _ _ O2) as S2.
    assert (Hpol : new_policy attr t2 = new_policy attr t)
      by (unfold new_policy; by replace (policy t2) with (policy t) by core_eq).
    replace (cpu t) with (cpu t2) in H3 by core_eq. pose proof (ok_fit t Hok) as (Hb & _ & _ & Hst).
    eapply (commit_blocked w2 w w3 g2 p t2 x attr np); [exact A2| | | | | | |done| | |exact H3].
    + apply (core_asleep (with_nc b t)); [done|]. destruct (ok_asleep t Hok Hon Hs). by split.
    + by apply (core_bw_ok (with_nc b t)).
    + by replace (static_prio t2) with (static_prio t) by core_eq.
    + by rewrite Hpol.
    + by rewrite Hpol.
    + by apply (core_prepared attr np p (with_nc b t)).
    + by apply S2.
    + eapply steady_home; [done..|]. intros c Hc. by apply (core_curr c (with_nc b t)).
  - pose proof (SQ (or_intror Hon)) as Q2. eapply (commit_queued w w2 p attr t np); try done.
    + by eapply quiet_inv.
    + by rewrite (quiet_tref _ _ p Q2).
Qed.

End Attr.
End DeadlineAttr.
