(* ===== verification/DeadlineEvents.v ===== *)
(** The events of the deadline class and what holds in every world they reach.

    An event is an entry point of the class or of the core scheduler with the readings
    it takes from outside: clocks, the task another class provides, the chosen CPU.
    The timer core may change the state of a timer at any time, and a callback may run
    at any time, so that timers expire early, late and more than once.
    Starting from queues as [init_dl_rq] leaves them and tasks of other classes, every
    sequence of events keeps the sums of [DeadlineBw] exact and the trees well-formed,
    and the loop of [push_dl_tasks] ends. *)

From Stdlib Require Import ZArith Lia List.
From stdpp Require Import base list numbers option relations.
From S2P Require Import Prelude RbTree Cpudl Cpupri Cbs Deadline DeadlineBw DeadlineInv DeadlineAttr.

Module DeadlineEvents.
Export DeadlineAttr.
Import RbTree(rb_root_cached, rb_root, rb_leftmost, inorder).

Section Events.
Context {pf : Platform}.

(** *** Events *)

Inductive event :=
| Tick (c : Z) (ck : Z * Z)
| Yield (c : Z) (ck : Z * Z)
| Block (c st : Z) (ck : Z * Z)
| Balance (c : Z)
| Schedule (c other : Z)
| Wake (this p new_cpu : Z) (ck0 ck : Z * Z)
| Migrate (p new_cpu : Z) (ck : Z * Z)
| PushTasks (this c : Z)
| PullTask (c : Z)
| DlTimer (this p : Z) (ck : Z * Z) (dest : Z) (ckd : Z * Z)
| InactiveTimer (p : Z) (ck : Z * Z)
| SetScheduler (p : Z) (attr : sched_attr) (user : bool) (ch : checks) (ck : Z * Z)
| SetAffinity (p new_mask : Z)
| Online (c : Z)
| Offline (c : Z)
| GlobalChange
| Bandwidth (req : dl_bw_request) (c bw : Z)
| RebuildDomain (p : Z)
| ClearDomain (d : Z)
| Timers (p : Z) (dl_tm inactive_tm : timer)
| Elapse (now : Z).

Definition exec (w : world) (e : event) : option world :=
  match e with
  | Tick c ck =>
      w ← update_rq_clock w c ck; q ← rref w c; t ← tref w (curr q);
      if dl_task t then task_tick_dl w c else Some w
  | Yield c ck => yield_task_dl w c ck
  | Block c st ck => block_current w c st ck
  | Balance c => q ← rref w c; '(w, _) ← balance_dl w c (curr q); Some w
  | Schedule c other => schedule_next w c other
  | Wake this p n ck0 ck => try_to_wake_up w this p n ck0 ck
  | Migrate p n ck => t ← tref w p; move_queued_task w (cpu t) p n ck
  | PushTasks this c => push_dl_tasks w this c
  | PullTask c => pull_dl_task w c
  | DlTimer this p ck dest ckd => dl_task_timer w this p ck dest ckd
  | InactiveTimer p ck => inactive_task_timer w p ck
  | SetScheduler p attr user ch ck => '(w, _) ← __sched_setscheduler w p attr user ch ck; Some w
  | SetAffinity p m => __do_set_cpus_allowed w p m
  | Online c => rq_online_dl w c
  | Offline c => rq_offline_dl w c
  | GlobalChange => sched_dl_do_global w
  | Bandwidth req c bw => '(w, _) ← dl_bw_manage w req c bw; Some w
  | RebuildDomain p => dl_add_task_root_domain w p
  | ClearDomain d => dl_clear_root_domain w d
  | Timers p a b => on_task w p (fun t => t_dl_timer a (t_inactive_timer b t))
  | Elapse now => Some (w_ktime now w)
  end.

(** When the core scheduler may raise an event. *)
Definition enabled (w : world) (e : event) : Prop :=
  match e with
  | Block c st _ => st <> TASK_WAKING /\
      forall q t, rref w c = Some q -> tref w (curr q) = Some t -> on_rq t = TASK_ON_RQ_QUEUED
  | Schedule c other => exists t, tref w other = Some t /\ dl_task t = false /\
      (on_rq t = TASK_ON_RQ_QUEUED -> cpu t = c)
  | Wake _ p n _ _ => (forall t, tref w p = Some t -> on_rq t = 0) /\ current_at w p n
  | Migrate p _ _ => (forall t, tref w p = Some t -> on_rq t = TASK_ON_RQ_QUEUED) /\ not_current w p
  | DlTimer _ p _ _ _ => forall t q, tref w p = Some t -> rref w (cpu t) = Some q ->
      online q = false -> not_current w p
  | SetScheduler p attr _ ch _ => request w p attr ch
  | _ => True
  end.

Inductive step : world -> world -> Prop :=
| step_exec w e w' : enabled w e -> exec w e = Some w' -> step w w'.

(** *** The start *)

(** A task as [sched_fork] leaves it, in a class other than the deadline class. *)
Record task_fresh (p : Z) (t : task) : Prop := {
  tf_params : exists e, dl t = __dl_clear_params p e;
  tf_tree : on_tree (dl t) = false;
  tf_push : pushable t = false;
  tf_prio : dl_task t = false;
  tf_normal : dl_prio (normal_prio t) = false;
  tf_policy : task_has_dl_policy t = false;
  tf_on_rq : on_rq t = 0 \/ on_rq t = TASK_ON_RQ_QUEUED;
  tf_state : state t = TASK_DEAD \/ state t = TASK_WAKING -> False;
  tf_static : 0 <= static_prio t
}.

Record fresh (w : world) : Prop := {
  fr_size : Z.of_nat (length (tasks w)) <= 2 ^ 40;
  fr_task : forall p t, tref w p = Some t -> task_fresh p t;
  fr_rq : forall c q, rref w c = Some q -> exists q0, dlq q = init_dl_rq w q0;
  fr_curr : forall c q, rref w c = Some q ->
    exists t, tref w (curr q) = Some t /\ (on_rq t = TASK_ON_RQ_QUEUED -> cpu t = c)
}.

Definition reachable (w : world) : Prop := exists w0, fresh w0 /\ rtc step w0 w.

Lemma fresh_ok p t : task_fresh p t -> task_ok t /\ place_of t = nowhere.
Proof.
  intros [[e He] T P Hd Hn Hp Hon Hs Hst]. split.
  - split; rewrite ?He, ?P, ?Hd, ?Hn, ?Hp; try done; auto.
    + intros E. tauto.
    + rewrite He in T. simpl in *. by rewrite T.
  - unfold place_of, counted. by rewrite T, P, Hd.
Qed.

Lemma zsum_nowhere (sel : place -> option (Z * Z)) c n : sel nowhere = None ->
  zsum (fun x => charged c (sel x)) (replicate n nowhere) = 0.
Proof. intros H. induction n as [|n IH]; simpl; [done|]. by rewrite IH, H. Qed.

Lemma listing_nowhere sel c n : sel nowhere = None ->
  listing (view RB_ROOT_CACHED) sel c (replicate n nowhere).
Proof.
  intros H. split; [constructor|]. split; [done|]. intros p. split; [by intros ?%not_elem_of_nil|].
  intros (x & Hx & Hs). apply aref_nat, lookup_replicate in Hx as [-> _]. congruence.
Qed.

Lemma fresh_inv w : fresh w -> inv w.
Proof.
  intros [HL HT HQ HC]. split.
  - exists (replicate (length (tasks w)) nowhere). split; split.
    + by rewrite length_replicate.
    + by apply Forall_replicate.
    + intros c q Hq. destruct (HQ c q Hq) as [q0 ->]. unfold init_dl_rq, init_dl_rq_bw_ratio.
      by split; destruct (_ =? _); simpl; rewrite ?zsum_nowhere; try apply listing_nowhere.
    + intros c q x c' _ Hx. apply aref_nat, lookup_replicate in Hx as [-> _]. done.
    + by rewrite length_replicate.
    + intros i t Hi _. destruct (fresh_ok i t (HT i t Hi)) as [Hok Hx]. split; [|done].
      pose proof (aref_Some_range _ _ _ Hi) as Hr. rewrite Hx. unfold aref. destruct (Z.leb_spec 0 i); [|lia].
      apply lookup_replicate. split; [done|lia].
  - intros c q Hq. destruct (HC c q Hq) as (t & Ht & Hc). exists t. split; [done|]. split; [|done].
    apply (HT _ _ Ht).
Qed.

(** *** Events keep the invariant *)

Lemma rq_online_quiet w c w' : rq_online_dl w c = Some w' -> quiet w w'.
Proof.
  unfold rq_online_dl. intros (q & Hq & (w1 & H1 & (w2 & H2 & H)%bind_Some)%bind_Some)%bind_Some.
  eapply quiet_trans; [|eapply quiet_trans; [by eapply on_cpudl_quiet|]].
  - destruct (overloaded _); [by eapply dl_set_overload_quiet|injection H1 as <-; apply quiet_refl].
  - destruct (0 <? _); [by eapply on_cpudl_quiet|injection H as <-; apply quiet_refl].
Qed.

Lemma rq_offline_quiet w c w' : rq_offline_dl w c = Some w' -> quiet w w'.
Proof.
  unfold rq_offline_dl. intros (q & Hq & (w1 & H1 & (w2 & H2 & H)%bind_Some)%bind_Some)%bind_Some.
  eapply quiet_trans; [|exact (quiet_trans _ _ _ (on_cpudl_quiet _ _ _ _ H2) (on_cpudl_quiet _ _ _ _ H))].
  destruct (overloaded _); [by eapply dl_clear_overload_quiet|injection H1 as <-; apply quiet_refl].
Qed.

Lemma do_global_quiet nb cpus : forall seen w w', do_global_cpus w nb cpus seen = Some w' -> quiet w w'.
Proof.
  induction cpus as [|c cpus IH]; intros seen w w' H; cbn [do_global_cpus] in H;
    [injection H as <-; apply quiet_refl|].
  apply bind_Some in H as (q & Hq & H). destruct (bool_decide _); [by eapply IH|].
  apply bind_Some in H as (w1 & H1 & (w2 & H2 & H)%bind_Some).
  eapply quiet_trans; [by eapply on_rd_quiet|]. eapply quiet_trans; [|by eapply IH].
  eapply on_dlq_quiet; [|done]. intros q0. unfold init_dl_rq_bw_ratio. by destruct (_ =? _).
Qed.

Lemma bw_manage_quiet w req c bw w' r : dl_bw_manage w req c bw = Some (w', r) -> quiet w w'.
Proof.
  unfold dl_bw_manage.
  intros (q & Hq & (d & Hd & (n & Hn & H)%bind_Some)%bind_Some)%bind_Some. destruct req.
  - unbind. apply quiet_refl.
  - unbind; [apply quiet_refl|by eapply __dl_add_quiet].
  - unbind. by eapply __dl_sub_quiet.
Qed.

Lemma exec_inv w e w' : inv w -> enabled w e -> exec w e = Some w' -> inv w'.
Proof.
  intros I En H. destruct e; cbn [exec enabled] in *.
  - apply bind_Some in H as (w1 & H1 & (q & Hq & (t & Ht & H)%bind_Some)%bind_Some).
    pose proof (quiet_inv _ _ I (update_rq_clock_quiet _ _ _ _ H1)) as I1.
    destruct (dl_task t); [by eapply update_curr_inv|by injection H as <-].
  - by eapply yield_inv.
  - destruct En. by eapply block_inv.
  - unfold balance_dl in H. unbind; [by eapply pull_inv|done].
  - by eapply schedule_inv.
  - destruct En. by eapply wake_inv.
  - destruct En as [En1 En2]. apply bind_Some in H as (t & Ht & (w1 & H1 & H)%bind_Some).
    eapply calm_inv; [eapply (move_inv w w1 p t); eauto|by eapply preempt_calm].
  - by eapply push_tasks_inv.
  - by eapply pull_inv.
  - by eapply dl_timer_inv.
  - by eapply inactive_inv.
  - apply bind_Some in H as ([w1 r] & H1 & [= <-]). by eapply setscheduler_inv.
  - by eapply set_cpus_inv.
  - eapply quiet_inv; [done|by eapply rq_online_quiet].
  - eapply quiet_inv; [done|by eapply rq_offline_quiet].
  - eapply quiet_inv; [done|by eapply do_global_quiet].
  - apply bind_Some in H as ([w1 r] & H1 & [= <-]). eapply quiet_inv; [done|by eapply bw_manage_quiet].
  - eapply quiet_inv; [done|]. unfold dl_add_task_root_domain in H. unbind; [apply quiet_refl|].
    by eapply __dl_add_quiet.
  - eapply quiet_inv; [done|by eapply on_rd_quiet].
  - eapply calm_inv; [done|]. eapply on_task_calm; [|done]. intros; reflexivity.
  - injection H as <-. exact I.
Qed.

Lemma reachable_world_inv w : reachable w -> inv w.
Proof.
  intros (w0 & F & R). apply fresh_inv in F. induction R as [|w0 w1 w2 [w' e w'' En H] R IH]; [done|].
  apply IH. by eapply exec_inv.
Qed.

(** *** What the invariant says of the tasks *)

Lemma holds_places w g : holds w g [] -> g = map place_of (tasks w).
Proof.
  intros [_ [HL HT]]. apply list_eq. intros i. change (map place_of) with (fmap (M := list) place_of).
  rewrite list_lookup_fmap. destruct (tasks w !! i) as [t|] eqn:Ht; simpl.
  - assert (Ha : aref (tasks w) (Z.of_nat i) = Some t).
    { unfold aref. destruct (Z.leb_spec 0 (Z.of_nat i)); [|lia]. by rewrite Nat2Z.id. }
    destruct (HT _ t Ha (not_elem_of_nil _)) as [Hx _]. apply aref_nat in Hx. by rewrite Nat2Z.id in Hx.
  - apply lookup_ge_None. rewrite HL. by apply lookup_ge_None.
Qed.

Lemma inv_ok w t : inv w -> t ∈ tasks w -> task_ok t.
Proof.
  intros [[g [_ [_ HT]]] _] [i Hi]%list_elem_of_lookup. eapply (HT (Z.of_nat i)); [|apply not_elem_of_nil].
  unfold aref. destruct (Z.leb_spec 0 (Z.of_nat i)); [|lia]. by rewrite Nat2Z.id.
Qed.

(** The bandwidth of the tasks of CPU [c] that satisfy [P]. *)
Definition bandwidth (w : world) (c : Z) (P : task -> bool) : Z :=
  zsum (fun t => if P t && (cpu t =? c) then dl_bw (dl t) else 0) (tasks w).

Lemma charged_bandwidth c (b : bool) t :
  charged c (if b then stake (cpu t) (dl_bw (dl t)) else None) =
  if b && (cpu t =? c) then dl_bw (dl t) else 0.
Proof.
  destruct b; simpl; [|done]. unfold stake. destruct (Z.eqb_spec (dl_bw (dl t)) 0) as [E|E]; simpl; [|done].
  rewrite E. by destruct (_ =? _).
Qed.

(** C6: In every world the events of the class reach, the two bandwidth sums of every
    run queue are exact: [this_bw] is the bandwidth of the deadline tasks assigned to
    the CPU, [running_bw] that of those that are queued or whose inactive timer is
    pending; special tasks count in neither. *)
Theorem bandwidth_sums_exact w c q : reachable w -> rref w c = Some q ->
  this_bw (dlq q) = bandwidth w c counted /\
  running_bw (dlq q) = bandwidth w c (fun t => counted t && active t) /\
  0 <= running_bw (dlq q) <= this_bw (dlq q).
Proof.
  intros I%reachable_world_inv Hq. pose proof I as [[g H] _]. pose proof (holds_places w g H) as E.
  destruct H as [HQ _]. destruct (qa_rq _ _ HQ c q Hq) as [H1 H2 _ _]. rewrite E, zsum_map in H1, H2.
  assert (E1 : this_bw (dlq q) = bandwidth w c counted)
    by (rewrite H1; apply zsum_ext; intros t _; apply charged_bandwidth).
  assert (E2 : running_bw (dlq q) = bandwidth w c (fun t => counted t && active t))
    by (rewrite H2; apply zsum_ext; intros t _; apply charged_bandwidth).
  rewrite E1, E2. split_and!; [done|done|apply zsum_nonneg|apply zsum_le]; intros t Ht;
    pose proof (to_bw t (inv_ok w t I Ht)); destruct (counted t), (active t), (cpu t =? c); simpl; lia.
Qed.

(** C8: In every world the events of the class reach, the two trees of a run queue are
    sets of tasks with the first one cached: the tree of runnable tasks holds exactly the
    tasks that say so and belong to the CPU, the tree of pushable ones the pushable of
    them; a task in a tree is a queued deadline task that is not throttled, a pushable
    task is not current anywhere, and a task with a pending inactive timer is blocked. *)
Theorem queues_well_formed w c q : reachable w -> rref w c = Some q ->
  NoDup (inorder (rb_root (root (dlq q)))) /\
  rb_leftmost (root (dlq q)) = head (inorder (rb_root (root (dlq q)))) /\
  (forall p, p ∈ inorder (rb_root (root (dlq q))) <->
     exists t, tref w p = Some t /\ on_tree (dl t) = true /\ cpu t = c) /\
  NoDup (inorder (rb_root (pushable_dl_tasks_root (dlq q)))) /\
  rb_leftmost (pushable_dl_tasks_root (dlq q)) = head (inorder (rb_root (pushable_dl_tasks_root (dlq q)))) /\
  (forall p, p ∈ inorder (rb_root (pushable_dl_tasks_root (dlq q))) <->
     exists t, tref w p = Some t /\ pushable t = true /\ cpu t = c) /\
  (exists t, tref w (curr q) = Some t /\ (on_rq t = TASK_ON_RQ_QUEUED -> cpu t = c)) /\
  forall p t, tref w p = Some t ->
    (pushable t = true -> on_tree (dl t) = true /\ not_current w p) /\
    (on_tree (dl t) = true -> on_rq t = TASK_ON_RQ_QUEUED /\ dl_task t = true /\ dl_throttled (dl t) = false) /\
    (dl_non_contending (dl t) = true -> on_rq t = 0 /\ counted t = true).
Proof.
  intros I%reachable_world_inv Hq. pose proof I as [[g H] S].
  assert (Tree : forall v (sel : place -> option Z) (b : task -> bool), listing v sel c g ->
    (forall t, sel (place_of t) = if b t then Some (cpu t) else None) ->
    NoDup (fst v) /\ snd v = head (fst v) /\
    forall p, p ∈ fst v <-> exists t, tref w p = Some t /\ b t = true /\ cpu t = c).
  { intros v sel b (ND & F & L) Hs. split_and!; [done|done|]. intros p. rewrite L. split.
    - intros (x & Hx & Hc). destruct (place_task w g p x H Hx) as (t & Ht & -> & _). exists t.
      rewrite Hs in Hc. destruct (b t); [|done]. injection Hc as Hc. done.
    - intros (t & Ht & Hb & Hc). exists (place_of t). rewrite Hs, Hb, Hc. split; [|done].
      destruct H as [_ [_ HT]]. by apply (HT p t Ht (not_elem_of_nil p)). }
  destruct (qa_rq _ _ (proj1 H) c q Hq) as [_ _ L1 L2].
  destruct (Tree _ _ (fun t => on_tree (dl t)) L1 ltac:(done)) as (T1 & T2 & T3).
  destruct (Tree _ _ pushable L2 ltac:(done)) as (T4 & T5 & T6).
  split_and!; [done..| |].
  - destruct (S c q Hq) as (t & Ht & _ & Hc). eauto.
  - intros p t Ht. destruct (inv_open w p t I Ht) as (_ & _ & Hok & _ & Hh). split_and!; [| |apply Hok].
    + intros Hp. split; [by apply Hok|]. intros c0 q0 Hq0 Hc0. destruct (Hh c0 q0 Hq0 Hc0). congruence.
    + intros Ho. destruct (to_tree t Hok Ho). split_and!; [done..|].
      destruct (dl_throttled (dl t)) eqn:Hth; [|done]. by rewrite (to_throttled t Hok Hth) in Ho.
Qed.

(** *** The push loop *)

(** The pushable tasks of CPU [c]. *)
Definition pushables (w : world) (c : Z) : list Z :=
  match rref w c with Some q => inorder (rb_root (pushable_dl_tasks_root (dlq q))) | None => [] end.

(** One round of [while (push_dl_task(rq));] that moved a task. *)
Definition pushed (this c : Z) (w w' : world) : Prop := push_dl_task w this c = Some (w', true).

Lemma pushables_spec w c p : inv w -> (exists q, rref w c = Some q) ->
  p ∈ pushables w c <-> exists t, tref w p = Some t /\ pushable t = true /\ cpu t = c.
Proof.
  intros [[g H] _] [q Hq]. unfold pushables. rewrite Hq.
  destruct (ra_push _ _ _ (qa_rq _ _ (proj1 H) c q Hq)) as (_ & _ & L). simpl in L. rewrite L. split.
  - intros (x & Hx & Hc). destruct (place_task w g p x H Hx) as (t & Ht & -> & _). exists t.
    simpl in Hc. destruct (pushable t); [|done]. injection Hc as Hc. done.
  - intros (t & Ht & Hb & Hc). exists (place_of t). simpl. rewrite Hb, Hc. split; [|done].
    destruct H as [_ [_ HT]]. by apply (HT p t Ht (not_elem_of_nil p)).
Qed.

Lemma steady_back p w w' i t' : steady p w w' -> i <> p -> tref w' i = Some t' ->
  exists t, tref w i = Some t /\ pushable t' = pushable t /\ cpu t' = cpu t.
Proof.
  intros (_ & _ & T & L) Hi Ht'. destruct (tref w i) as [t|] eqn:Ht.
  - destruct (T i t Hi Ht) as (t0 & Ht0 & E1 & E2). exists t. split_and!; congruence.
  - exfalso. unfold tref, aref in *. destruct (0 <=? i); [|done].
    apply lookup_ge_None in Ht. apply lookup_lt_Some in Ht'. lia.
Qed.

Lemma calm_pushables w w' c : calm w w' -> pushables w' c = pushables w c.
Proof.
  intros [_ Hq]. unfold pushables, rref.
  assert (E : aref (map rq_view (rqs w')) c = aref (map rq_view (rqs w)) c) by congruence.
  rewrite !aref_map in E. destruct (aref (rqs w') c), (aref (rqs w) c); try done.
  apply (inj Some) in E. unfold rq_view, view in E. congruence.
Qed.

Lemma pushables_nodup w c : inv w -> NoDup (pushables w c).
Proof.
  intros [[g H] _]. unfold pushables. destruct (rref w c) as [q|] eqn:Hq; [|constructor].
  apply (ra_push _ _ _ (qa_rq _ _ (proj1 H) c q Hq)).
Qed.

(** A round that moves a task takes it out of the pushable tasks of the CPU and adds
    none. *)
Lemma push_shrinks w this c w' : inv w -> pushed this c w w' ->
  (length (pushables w' c) < length (pushables w c))%nat.
Proof.
  intros I H. pose proof (push_inv _ _ _ _ _ I H) as I'. unfold pushed, push_dl_task in H.
  apply bind_Some in H as (q & Hq & H). destruct (negb _); [done|].
  destruct (pick_next_pushable_dl_task q) as [p|] eqn:Hp; [|done].
  unfold pick_next_pushable_dl_task in Hp. destruct (has_pushable_dl_tasks q); [|done].
  pose proof (first_pushable w c q p I Hq Hp) as Hin.
  destruct (pushable_task w c q p I Hq Hin) as (t & Ht & Hc & Hon & Hnc).
  apply bind_Some in H as (t0 & Ht0 & (tc & Htc & H)%bind_Some).
  destruct (_ && _ && _); [apply bind_Some in H as (w1 & H1 & H); done|].
  destruct (migration_disabled t0); [done|]. destruct (p =? curr q); [done|].
  apply bind_Some in H as (later & Hl & H). destruct later as [l|]; [|done].
  apply bind_Some in H as (w1 & H1 & (w2 & H2 & [= <-])%bind_Some).
  rewrite (calm_pushables w1 w2 c) by (by eapply resched_calm).
  assert (Hlc : l <> c).
  { unfold find_lock_later_rq in Hl. apply bind_Some in Hl as (r & Hr & Hl).
    destruct (_ || _) eqn:E; [done|]. apply orb_false_elim in E as [_ E%Z.eqb_neq]. unbind; congruence. }
  rewrite <- Hc in H1. destruct (move_keeps w w1 p t l _ I Ht Hon Hnc H1) as (I1 & S1 & t1 & Ht1 & Hc1).
  assert (Hq1 : exists q1, rref w1 c = Some q1).
  { pose proof (proj1 S1 c) as E. rewrite Hq in E. destruct (rref w1 c); [eauto|done]. }
  assert (Hin' : p ∈ pushables w c) by (unfold pushables; by rewrite Hq).
  change (S (length (pushables w1 c)) <= length (pushables w c))%nat.
  change (S (length (pushables w1 c))) with (length (p :: pushables w1 c)).
  assert (Hnot : p ∉ pushables w1 c).
  { rewrite pushables_spec by done. intros (t2 & Ht2 & _ & Hc2). congruence. }
  apply (submseteq_length (A := Z)). apply NoDup_submseteq.
  - apply list.NoDup_cons. split; [done|by apply pushables_nodup].
  - intros i [->|Hi]%elem_of_cons; [done|].
    pose proof Hi as (t2 & Ht2 & Hp2 & Hc2)%pushables_spec; [|done|done].
    assert (Hip : i <> p) by (intros ->; done).
    destruct (steady_back _ _ _ _ _ S1 Hip Ht2) as (t3 & Ht3 & E1 & E2).
    apply pushables_spec; [done|eauto|]. exists t3. split_and!; congruence.
Qed.

Lemma push_loop_ends this c : forall fuel w, inv w -> (length (pushables w c) < fuel)%nat ->
  (exists w1 w', rtc (pushed this c) w w1 /\ push_dl_task w1 this c = Some (w', false) /\
     push_loop fuel w this c = Some w') \/
  exists w1, rtc (pushed this c) w w1 /\ push_dl_task w1 this c = None.
Proof.
  induction fuel as [|fuel IH]; intros w I HL; [lia|]. cbn [push_loop].
  destruct (push_dl_task w this c) as [[w1 [|]]|] eqn:H; cbn [mbind option_bind].
  - pose proof (push_shrinks w this c w1 I H).
    destruct (IH w1 (push_inv _ _ _ _ _ I H) ltac:(lia)) as [(w2 & w' & R & H2 & H3)|(w2 & R & H2)].
    + left. exists w2, w'. split_and!; [by eapply rtc_l|done|done].
    + right. exists w2. split; [by eapply rtc_l|done].
  - left. exists w, w1. split_and!; [apply rtc_refl|done|done].
  - right. exists w. split; [apply rtc_refl|done].
Qed.

(** The loop [while (push_dl_task(rq));] of [push_dl_tasks] ends in every reachable
    world: it runs until a round moves no task and returns the world of that round,
    unless a round itself faults.  Every successful round takes a task off the tree of
    pushable tasks of the CPU, although accounting for the current task may throttle and
    replenish it on the way. *)
Theorem push_dl_tasks_ends w this c q : reachable w -> rref w c = Some q ->
  (exists w1 w', rtc (pushed this c) w w1 /\ push_dl_task w1 this c = Some (w', false) /\
     push_dl_tasks w this c = Some w') \/
  exists w1, rtc (pushed this c) w w1 /\ push_dl_task w1 this c = None.
Proof.
  intros I%reachable_world_inv Hq. unfold push_dl_tasks. rewrite Hq. cbn [mbind option_bind].
  apply push_loop_ends; [done|]. unfold pushables. rewrite Hq. lia.
Qed.

(** *** Deciding whether an event may be raised *)

Definition current_on (w : world) (p : Z) : list Z :=
  List.filter (fun c => match rref w c with Some q => curr q =? p | None => false end)
    (seqZ 0 (nr_cpu_ids w)).

Definition enabledb (w : world) (e : event) : bool :=
  match e with
  | Block c st _ => negb (st =? TASK_WAKING) &&
      match rref w c with
      | Some q => match tref w (curr q) with Some t => task_on_rq_queued t | None => true end
      | None => true
      end
  | Schedule c other =>
      match tref w other with
      | Some t => negb (dl_task t) && (negb (task_on_rq_queued t) || (cpu t =? c))
      | None => false
      end
  | Wake _ p n _ _ => match tref w p with Some t => on_rq t =? 0 | None => true end &&
      forallb (Z.eqb n) (current_on w p)
  | Migrate p _ _ => match tref w p with Some t => task_on_rq_queued t | None => true end &&
      match current_on w p with [] => true | _ => false end
  | DlTimer _ p _ _ _ =>
      match tref w p with
      | Some t => match rref w (cpu t) with Some q => online q | None => true end
      | None => true
      end || match current_on w p with [] => true | _ => false end
  | SetScheduler p attr _ ch _ =>
      (-1 <=? sched_policy attr) && (-20 <=? sched_nice attr) && (sched_nice attr <=? 19) &&
      (0 <=? sched_priority attr) && (0 <=? sched_period attr) && (0 <=? sched_deadline attr) &&
      negb (has (sched_flags attr) SCHED_FLAG_SUGOV) && negb (has (sched_flags attr) SCHED_FLAG_KEEP_PARAMS) &&
      match pi_prio ch with None => true | Some _ => false end &&
      (0 <=? sysctl_sched_dl_period_max w) && (sysctl_sched_dl_period_max w <=? 2 ^ 31) &&
      match tref w p with
      | Some t => negb (state t =? TASK_DEAD) && negb (dl_entity_is_special (dl t)) && valid_policy (policy t)
      | None => true
      end
  | _ => true
  end.

Lemma current_on_spec w p c q : rref w c = Some q -> curr q = p -> c ∈ current_on w p.
Proof.
  intros Hq Hp. unfold current_on. apply list_elem_of_In, filter_In. rewrite Hq.
  split; [|by apply Z.eqb_eq]. apply list_elem_of_In, elem_of_seqZ. pose proof (aref_Some_range _ _ _ Hq). unfold nr_cpu_ids. lia.
Qed.

Lemma enabledb_sound w e : enabledb w e = true -> enabled w e.
Proof.
  destruct e; cbn [enabledb enabled]; try done.
  - intros [H1%negb_true_iff%Z.eqb_neq H2]%andb_prop. split; [done|]. intros q t Hq Ht.
    rewrite Hq, Ht in H2. by apply Z.eqb_eq.
  - destruct (tref w other) as [t|]; [|done]. intros [H1%negb_true_iff H2]%andb_prop. exists t.
    split_and!; [done|done|]. intros Hon. unfold task_on_rq_queued in H2. rewrite Hon in H2. by apply Z.eqb_eq.
  - intros [H1 H2]%andb_prop. split.
    + intros t Ht. rewrite Ht in H1. by apply Z.eqb_eq.
    + intros c q Hq Hp. rewrite forallb_forall in H2. symmetry. apply Z.eqb_eq, H2, list_elem_of_In.
      by eapply current_on_spec.
  - intros [H1 H2]%andb_prop. split.
    + intros t Ht. rewrite Ht in H1. by apply Z.eqb_eq.
    + intros c q Hq Hp. pose proof (current_on_spec w p c q Hq Hp) as Hin. destruct (current_on w p); [by apply not_elem_of_nil in Hin|done].
  - intros H t q Ht Hq Ho c0 q0 Hq0 Hp. rewrite Ht, Hq, Ho in H. simpl in H.
    pose proof (current_on_spec w p c0 q0 Hq0 Hp) as Hin. destruct (current_on w p); [by apply not_elem_of_nil in Hin|done].
  - rewrite !andb_true_iff, !negb_true_iff, !Z.leb_le. intros H. destruct_and? H.
    split; try done. { by destruct (pi_prio ch). }
    intros t Ht. rewrite Ht in *. rewrite !andb_true_iff, !negb_true_iff in *.
    destruct_and?. split_and!; try done. by apply Z.eqb_neq.
Qed.

(** A run of events, each checked. *)
Fixpoint run (w : world) (es : list event) : option world :=
  match es with
  | [] => Some w
  | e :: es => if enabledb w e then w ← exec w e; run w es else None
  end.

Lemma run_steps es : forall w w', run w es = Some w' -> rtc step w w'.
Proof.
  induction es as [|e es IH]; intros w w' H; simpl in H; [injection H as <-; apply rtc_refl|].
  destruct (enabledb w e) eqn:En; [|done]. apply bind_Some in H as (w1 & H1 & H).
  eapply rtc_l; [|by apply IH]. by eapply step_exec; [apply enabledb_sound|].
Qed.

End Events.

(** *** An example *)

(** Timers that are never caught running, two CPUs of full capacity, one domain. *)
#[local] Instance demo_platform : Platform := {|
  timer := option Z;
  hrtimer_start := fun _ expires => Some expires;
  hrtimer_try_to_cancel := fun t => (None, match t with Some _ => 1 | None => 0 end);
  hrtimer_active := fun t => bool_decide (t <> None);
  hrtimer_is_queued := fun t => bool_decide (t <> None);
  ktime_us_delta := fun a b => (a - b) / 1000;
  capacity_orig_of := fun _ => 1024;
  arch_scale_freq_capacity := fun _ => 1024;
  arch_scale_cpu_capacity := fun _ => 1024;
  sched_asym_cpucap_active := false;
  sched_domains := fun _ => [(true, 3)];
  cpumask_any_and_distribute := fun a b => match mask_bits 2 (mask_and a b) with c :: _ => c | [] => 2 end;
  cpumask_any_distribute := fun a => match mask_bits 2 a with c :: _ => c | [] => 2 end
|}.

Definition demo_task (p c on_rq' state' : Z) : task :=
  mk_task (__dl_clear_params p demo_se) SCHED_NORMAL 120 120 0 120 on_rq' state' c 3 2 0 0 false false false false 1 None None.
Definition demo_dlq : dl_rq :=
  mk_dl_rq RB_ROOT_CACHED 0 0 0 0 false RB_ROOT_CACHED 0 0 0 0 0.
Definition demo_world0 : world :=
  mk_world [demo_task 0 0 1 0; demo_task 1 1 1 0; demo_task 2 0 0 1; demo_task 3 0 0 1] []
    [mk_rd (996147) 0 3 (Cpudl.cpudl_fresh 2 3) (Cpupri.cpupri_fresh 2 3) 0 0 false]
    3 950000 1000000 4194304 100 0.
Definition demo_rq (c : Z) : rq :=
  mk_rq (init_dl_rq demo_world0 demo_dlq) 0 0 0 c (4 + c) true 1 [] false 100 0 950000000 None.
Definition demo_world : world := w_rqs [demo_rq 0; demo_rq 1] demo_world0.

Definition demo_checks : checks := mk_checks 0 0 0 None.
Definition at_ms (n : Z) : Z * Z := (n * 1000000, n * 1000000).

(** Two tasks become deadline tasks and wake up on CPU 0; the first is pushed to CPU 1,
    the second overruns its budget, is throttled and replenished by its timer; the first
    blocks before its zero-lag time and its inactive timer is armed. *)
Definition demo_trace : list event :=
  [Online 0; Online 1;
   SetScheduler 2 demo_attr true demo_checks (at_ms 1000);
   SetScheduler 3 (mk_dl_attr 6 0 0 0 5000000 20000000 50000000) true demo_checks (at_ms 1000);
   Wake 0 2 0 (at_ms 1000) (at_ms 1000); Wake 0 3 0 (at_ms 1001) (at_ms 1001); Schedule 0 0;
   PushTasks 0 0; Tick 1 (at_ms 1001); Schedule 1 1; Tick 0 (at_ms 1007); Schedule 0 0;
   Block 1 1 (at_ms 1008); Schedule 1 1;
   Timers 3 None None; DlTimer 0 3 (at_ms 1051) 0 (at_ms 1051); Schedule 0 0].

(** The world after a run of events, and a queue of it. *)
Definition after (es : list event) : world := default demo_world (run demo_world es).
Definition queue_of (w : world) (c : Z) : rq := default (demo_rq c) (rref w c).

Lemma demo_fresh : fresh demo_world.
Proof.
  split.
  - done.
  - intros p t Ht. pose proof (aref_Some_range _ _ _ Ht) as Hp. simpl in Hp.
    assert (p = 0 \/ p = 1 \/ p = 2 \/ p = 3) as [->|[->|[->| ->]]] by lia; injection Ht as <-;
      (split; [by eexists|done|done|done|done|done|by auto|by intros []|done]).
  - intros c q Hq. pose proof (aref_Some_range _ _ _ Hq) as Hc. simpl in Hc. exists demo_dlq.
    assert (c = 0 \/ c = 1) as [->| ->] by lia; by injection Hq as <-.
  - intros c q Hq. pose proof (aref_Some_range _ _ _ Hq) as Hc. simpl in Hc.
    assert (c = 0 \/ c = 1) as [->| ->] by lia; injection Hq as <-; by eexists.
Qed.

Lemma after_reachable es : run demo_world es = Some (after es) -> reachable (after es).
Proof. intros H. exists demo_world. split; [apply demo_fresh|by eapply run_steps]. Qed.

Lemma demo_world_reachable : reachable (after demo_trace).
Proof. apply after_reachable. by vm_compute. Qed.

Lemma bandwidth_sums_exact_witness :
  reachable (after demo_trace) /\ rref (after demo_trace) 1 = Some (queue_of (after demo_trace) 1) /\
  this_bw (dlq (queue_of (after demo_trace) 1)) = bandwidth (after demo_trace) 1 counted /\
  bandwidth (after demo_trace) 1 counted = 104857.
Proof.
  split; [apply demo_world_reachable|]. split; [by vm_compute|]. split; [|by vm_compute].
  apply (bandwidth_sums_exact (after demo_trace) 1 (queue_of (after demo_trace) 1));
    [apply demo_world_reachable|by vm_compute].
Defined.

Lemma queues_well_formed_witness :
  reachable (after demo_trace) /\ rref (after demo_trace) 0 = Some (queue_of (after demo_trace) 0) /\
  NoDup (inorder (rb_root (root (dlq (queue_of (after demo_trace) 0))))) /\
  inorder (rb_root (root (dlq (queue_of (after demo_trace) 0)))) = [3].
Proof.
  split; [apply demo_world_reachable|]. split; [by vm_compute|]. split; [|by vm_compute].
  apply (queues_well_formed (after demo_trace) 0 (queue_of (after demo_trace) 0));
    [apply demo_world_reachable|by vm_compute].
Defined.

(** The world in which the first task is about to be pushed to CPU 1. *)
Lemma push_dl_tasks_ends_witness :
  reachable (after (take 7 demo_trace)) /\
  pushables (after (take 7 demo_trace)) 0 = [2] /\
  ((exists w1 w', rtc (pushed 0 0) (after (take 7 demo_trace)) w1 /\
      push_dl_task w1 0 0 = Some (w', false) /\
      push_dl_tasks (after (take 7 demo_trace)) 0 0 = Some w') \/
   exists w1, rtc (pushed 0 0) (after (take 7 demo_trace)) w1 /\ push_dl_task w1 0 0 = None).
Proof.
  split; [apply after_reachable; by vm_compute|]. split; [by vm_compute|].
  apply (push_dl_tasks_ends _ 0 0 (queue_of (after (take 7 demo_trace)) 0));
    [apply after_reachable; by vm_compute|by vm_compute].
Defined.

End DeadlineEvents.
