(* ===== verification/DeadlineEdf.v ===== *)
(** The order of the deadline queue.

    Deadlines are compared modulo [2^64], which orders them as long as those in the queue
    lie within [2^63] of each other.  Under that condition the tree of runnable tasks of a
    CPU stays a red-black tree ordered by deadline through enqueueing, dequeueing and the
    accounting of the running task, which throttles and replenishes it, and the class
    picks the earliest deadline. *)

From Stdlib Require Import ZArith Lia List.
From stdpp Require Import base list numbers option relations.
From S2P Require Import Prelude RbTree Cpudl Cpupri Cbs Deadline DeadlineBw DeadlineEvents.

Module DeadlineEdf.
Import DeadlineEvents.
Import RbTree(rb_root_cached, rb_root, rb_leftmost, inorder).

(** What the tree of a queue and its order depend on. *)
Definition sort_key {pf : Platform} (t : task) : Z * bool * Z :=
  (cpu t, on_tree (dl t), deadline (dl t)).
Definition key_at {pf : Platform} (w : world) (p : Z) : option (Z * bool * Z) := sort_key <$> tref w p.
Definition tree_at {pf : Platform} (w : world) (c : Z) : option (rb_root_cached Z unit) :=
  (fun q => root (dlq q)) <$> rref w c.

(** No tree has changed, and no sort key but that of [x]. *)
Definition still_but {pf : Platform} (x : option Z) (w w' : world) : Prop :=
  (forall c, tree_at w' c = tree_at w c) /\ forall i, Some i <> x -> key_at w' i = key_at w i.
Notation still := (still_but None).

Section Frames.
Context {pf : Platform}.

Lemma still_refl x w : still_but x w w.
Proof. done. Qed.

Lemma still_trans x w1 w2 w3 : still_but x w1 w2 -> still_but x w2 w3 -> still_but x w1 w3.
Proof. intros [H1 H2] [H3 H4]. split; [congruence|]. intros i Hi. by rewrite H4, H2. Qed.

Lemma still_weaken x w w' : still w w' -> still_but x w w'.
Proof. intros [H1 H2]. split; [done|]. intros i _. by apply H2. Qed.

Lemma on_task_still_but x w p f w' : (x = Some p \/ forall t, sort_key (f t) = sort_key t) ->
  on_task w p f = Some w' -> still_but x w w'.
Proof.
  intros Hf. unfold on_task. intros (t & Ht & (ts & Hs & [= <-])%bind_Some)%bind_Some.
  split; [done|]. intros i Hi. unfold key_at, tref. simpl. apply aref_aset in Hs as [-> Hr]. rewrite aref_upd by done.
  destruct (Z.eqb_spec i p) as [->|]; [|done]. fold (tref w p). rewrite Ht. simpl. destruct Hf as [->|Hf]; [done|].
  by rewrite Hf.
Qed.

Lemma on_rq_still x w c f w' : (forall q, root (dlq (f q)) = root (dlq q)) ->
  on_rq_of w c f = Some w' -> still_but x w w'.
Proof.
  intros Hf. unfold on_rq_of. intros (q & Hq & (qs & Hs & [= <-])%bind_Some)%bind_Some.
  split; [|done]. intros i. unfold tree_at, rref. simpl. apply aref_aset in Hs as [-> Hr]. rewrite aref_upd by done.
  destruct (Z.eqb_spec i c) as [->|]; [|done]. fold (rref w c). rewrite Hq. simpl. by rewrite Hf.
Qed.

Lemma on_rd_still x w d f w' : on_rd w d f = Some w' -> still_but x w w'.
Proof. unfold on_rd. intros (r & _ & (rs & _ & [= <-])%bind_Some)%bind_Some. done. Qed.

End Frames.

(** A chain of operations that keep the trees and the keys, from the last one
    backwards. *)
Ltac still_chain :=
  repeat match goal with
  | |- still_but _ ?w ?w => apply still_refl
  | H : _ = Some ?w' |- still_but _ _ ?w' =>
      eapply still_trans; [|solve [eauto 3 with still nocore]]; clear H
  end.
Create HintDb still.
#[export] Hint Resolve on_rd_still : still.
#[export] Hint Extern 1 (still_but _ _ _) =>
  (eapply on_rq_still; [|eassumption]; intros; reflexivity) : still.
#[export] Hint Extern 1 (still_but _ _ _) =>
  (eapply on_task_still_but; [|eassumption]; first [by left|by right]) : still.

Section Order.
Context {pf : Platform}.

Lemma add_nr_running_still w c n w' : add_nr_running w c n = Some w' -> still w w'.
Proof. unfold add_nr_running. intros H. unbind; still_chain. Qed.


Lemma inc_dl_deadline_still w c d w' : inc_dl_deadline w c d = Some w' -> still w w'.
Proof. unfold inc_dl_deadline, on_cpupri, on_cpudl. intros H. unbind; still_chain. Qed.

Lemma dec_dl_deadline_still w c w' : dec_dl_deadline w c = Some w' -> still w w'.
Proof. unfold dec_dl_deadline, on_cpupri, on_cpudl. intros H. unbind; still_chain. Qed.

Lemma update_dl_migration_still w c w' : update_dl_migration w c = Some w' -> still w w'.
Proof. unfold update_dl_migration, dl_set_overload, dl_clear_overload. intros H. unbind; still_chain. Qed.
Hint Resolve add_nr_running_still inc_dl_deadline_still dec_dl_deadline_still update_dl_migration_still : still.

Lemma inc_dl_tasks_still w p c w' : inc_dl_tasks w p c = Some w' -> still w w'.
Proof. unfold inc_dl_tasks, inc_dl_migration. intros H. unbind; still_chain. Qed.

Lemma dec_dl_tasks_still w p c w' : dec_dl_tasks w p c = Some w' -> still w w'.
Proof. unfold dec_dl_tasks, dec_dl_migration, sub_nr_running. intros H. unbind; still_chain. Qed.

Lemma enqueue_pushable_still w c p w' : enqueue_pushable_dl_task w c p = Some w' -> still w w'.
Proof. unfold enqueue_pushable_dl_task. intros H. unbind; still_chain. Qed.

Lemma dequeue_pushable_still w c p w' : dequeue_pushable_dl_task w c p = Some w' -> still w w'.
Proof. unfold dequeue_pushable_dl_task. intros H. unbind; still_chain. Qed.

Lemma unless_special_still w p c f w' : (forall b q, root (f b q) = root q) ->
  unless_special w p c f = Some w' -> still w w'.
Proof.
  unfold unless_special. intros Hf H. unbind; [still_chain|].
  eapply on_rq_still; [|exact H]. intros q. apply Hf.
Qed.

Lemma add_rq_bw_still w p c w' : add_rq_bw w p c = Some w' -> still w w'.
Proof. by apply unless_special_still. Qed.

Lemma sub_rq_bw_still w p c w' : sub_rq_bw w p c = Some w' -> still w w'.
Proof. apply unless_special_still. intros b q. unfold __sub_rq_bw. by repeat case_match. Qed.

Lemma add_running_bw_still w p c w' : add_running_bw w p c = Some w' -> still w w'.
Proof. by apply unless_special_still. Qed.

Lemma sub_running_bw_still w p c w' : sub_running_bw w p c = Some w' -> still w w'.
Proof. apply unless_special_still. intros b q. unfold __sub_running_bw. by repeat case_match. Qed.
Hint Resolve inc_dl_tasks_still dec_dl_tasks_still enqueue_pushable_still dequeue_pushable_still
  add_rq_bw_still sub_rq_bw_still add_running_bw_still sub_running_bw_still : still.

Lemma cancel_key t : sort_key (cancel_inactive t) = sort_key t.
Proof. unfold cancel_inactive. destruct (hrtimer_try_to_cancel _) as [tm r]. by destruct (r =? 1). Qed.

Lemma cancel_still w p w' :
  on_task w p (fun t => cancel_inactive (t_dl (set_non_contending false (dl t)) t)) = Some w' -> still w w'.
Proof. apply on_task_still_but. right. intros t. by rewrite cancel_key. Qed.
Hint Resolve cancel_still : still.

Lemma task_contending_still w p flags w' : task_contending w p flags = Some w' -> still w w'.
Proof. unfold task_contending. intros H. unbind; still_chain. Qed.

Lemma start_dl_timer_still w p w' b : start_dl_timer w p = Some (w', b) -> still w w'.
Proof. unfold start_dl_timer. intros H. unbind; still_chain. Qed.

Lemma check_constrained_still w p w' : dl_check_constrained_dl w p = Some w' -> still w w'.
Proof.
  unfold dl_check_constrained_dl. intros H. unbind; try still_chain.
  - eapply still_trans; [by eapply start_dl_timer_still|]. eapply on_task_still_but; [|exact H]. right.
    intros u. unfold constrained_throttle. by case_match.
  - by eapply start_dl_timer_still.
Qed.

Lemma extra_bw_still cpus bw : forall w w', add_extra_bw w cpus bw = Some w' -> still w w'.
Proof.
  induction cpus as [|c cpus IH]; intros w w' H; unbind; [apply still_refl|].
  eapply still_trans; [|by apply IH]. still_chain.
Qed.

Lemma __dl_sub_still w d b n w' : __dl_sub w d b n = Some w' -> still w w'.
Proof.
  unfold __dl_sub, __dl_update. intros H. unbind. eapply still_trans; [|by eapply extra_bw_still].
  still_chain.
Qed.
Hint Resolve __dl_sub_still : still.

Lemma task_non_contending_still w p w' : task_non_contending w p = Some w' -> still w w'.
Proof. unfold task_non_contending. intros H. unbind; still_chain. Qed.

Lemma account_rt_time_still w c d w' : account_rt_time w c d = Some w' -> still w w'.
Proof.
  unfold account_rt_time. intros H. unbind; [apply still_refl|].
  eapply on_rq_still; [|exact H]. intros q. cbv beta. by case_match.
Qed.

Lemma resched_still w c w' : resched_curr w c = Some w' -> still w w'.
Proof. unfold resched_curr. intros H. unbind. still_chain. Qed.
Hint Resolve task_contending_still check_constrained_still task_non_contending_still account_rt_time_still
  resched_still : still.

(** *** The ordered queue *)

(** The CPU, and a time from which the deadlines of its queue are less than [2^63]
    away. *)
Context (c b : Z).

Definition listed (w : world) (p : Z) : Prop :=
  exists t, tref w p = Some t /\ on_tree (dl t) = true /\ cpu t = c.
Definition off_tree (w : world) (p : Z) : Prop :=
  exists t, tref w p = Some t /\ on_tree (dl t) = false /\ cpu t = c.
Definition soon (w : world) (p : Z) : Prop :=
  exists t, tref w p = Some t /\ Cpudl.in_window b (deadline (dl t)).
Definition windowed (w : world) : Prop := forall p, listed w p -> soon w p.

(** The tree of the CPU holds the tasks that say so, ordered by deadline. *)
Definition edf (w : world) : Prop :=
  exists tr, tree_at w c = Some tr /\
    RbTree.rb_ok (ok := soon w) (agg := plain_agg) (__dl_less w) tr /\
    NoDup (inorder (rb_root tr)) /\ forall p, p ∈ inorder (rb_root tr) <-> listed w p.

#[local] Instance soon_laws w : RbTree.AugmentLaws (soon w) plain_agg.
Proof. split; [done| |by intros [] []]. intros [|y l] x r _; done. Qed.

Lemma dl_less_key w x y tx ty : tref w x = Some tx -> tref w y = Some ty ->
  Cpudl.in_window b (deadline (dl tx)) -> Cpudl.in_window b (deadline (dl ty)) ->
  __dl_less w x y = (Cpudl.key b (deadline (dl tx)) <? Cpudl.key b (deadline (dl ty))).
Proof.
  intros Hx Hy Wx Wy. unfold __dl_less, on_entities. rewrite Hx, Hy. by apply Cpudl.dl_time_before_key.
Qed.

Lemma dl_less_asym w x y : soon w x -> soon w y -> __dl_less w x y = true -> __dl_less w y x = false.
Proof.
  intros (tx & Hx & Wx) (ty & Hy & Wy). rewrite (dl_less_key w x y tx ty), (dl_less_key w y x ty tx) by done. lia.
Qed.

Lemma dl_less_trans w x y z : soon w x -> soon w y -> soon w z ->
  __dl_less w x y = true -> __dl_less w z y = false -> __dl_less w x z = true.
Proof.
  intros (tx & Hx & Wx) (ty & Hy & Wy) (tz & Hz & Wz).
  rewrite (dl_less_key w x y tx ty), (dl_less_key w z y tz ty), (dl_less_key w x z tx tz) by done. lia.
Qed.

Lemma key_task w w' p t : key_at w' p = key_at w p -> tref w p = Some t ->
  exists t', tref w' p = Some t' /\ cpu t' = cpu t /\ on_tree (dl t') = on_tree (dl t) /\
    deadline (dl t') = deadline (dl t).
Proof.
  unfold key_at. intros E Ht. rewrite Ht in E. destruct (tref w' p) as [t'|]; [|done].
  exists t'. split; [done|]. apply (inj Some) in E. unfold sort_key in E. by injection E as -> -> ->.
Qed.

Lemma key_listed w w' p : key_at w' p = key_at w p -> listed w p -> listed w' p.
Proof. intros E (t & Ht & Ho & Hc). destruct (key_task w w' p t E Ht) as (t' & ? & ? & ? & _). exists t'. split_and!; congruence. Qed.

Lemma key_off w w' p : key_at w' p = key_at w p -> off_tree w p -> off_tree w' p.
Proof. intros E (t & Ht & Ho & Hc). destruct (key_task w w' p t E Ht) as (t' & ? & ? & ? & _). exists t'. split_and!; congruence. Qed.

Lemma off_not_listed w p : off_tree w p -> ~ listed w p.
Proof. intros (t & ? & ? & _) (t' & ? & ? & _). congruence. Qed.

Definition time_at (w : world) (p : Z) : option Z := (fun t => deadline (dl t)) <$> tref w p.

Lemma key_time w w' p : key_at w' p = key_at w p -> time_at w' p = time_at w p.
Proof.
  unfold key_at, time_at. intros E. destruct (tref w' p), (tref w p); try done.
  apply (inj Some) in E. unfold sort_key in E. injection E as _ _ E. simpl. congruence.
Qed.

Lemma time_soon w w' p : time_at w' p = time_at w p -> soon w p -> soon w' p.
Proof.
  unfold time_at. intros E (t & Ht & Hw). rewrite Ht in E. destruct (tref w' p) as [t'|] eqn:Ht'; [|done].
  apply (inj Some) in E. exists t'. split; [done|congruence].
Qed.

Lemma time_less w w' x y : time_at w' x = time_at w x -> time_at w' y = time_at w y ->
  __dl_less w' x y = __dl_less w x y.
Proof.
  unfold time_at, __dl_less, on_entities. intros Ex Ey.
  destruct (tref w' x), (tref w x); try done. destruct (tref w' y), (tref w y); try done.
  apply (inj Some) in Ex, Ey. congruence.
Qed.

Lemma sorted_ext (f g : Z -> Z -> bool) l : (forall x y, x ∈ l -> y ∈ l -> f x y = g x y) ->
  RbTree.sorted f l -> RbTree.sorted g l.
Proof.
  induction l as [|x l IH]; intros E; [done|]. cbn [RbTree.sorted]. intros [H1 H2]. split.
  - rewrite Forall_elem in *. intros y Hy. rewrite <- E; [by apply H1|by right|by left].
  - apply IH; [|done]. intros u v Hu Hv. apply E; by right.
Qed.

Lemma edf_change w w' tr : tree_at w' c = Some tr ->
  RbTree.rb_ok (ok := soon w) (agg := plain_agg) (__dl_less w) tr -> NoDup (inorder (rb_root tr)) ->
  (forall p, p ∈ inorder (rb_root tr) -> time_at w' p = time_at w p) ->
  (forall p, p ∈ inorder (rb_root tr) <-> listed w' p) -> edf w'.
Proof.
  intros Ht [B W S O L] N T M. exists tr. split; [done|]. split; [split; try done|done].
  - eapply sorted_ext; [|exact S]. intros u v Hu Hv. symmetry. apply time_less; by apply T.
  - rewrite Forall_elem in *. intros p Hp. eapply time_soon; [by apply T|by apply O].
Qed.

Lemma edf_still_but x w w' : still_but x w w' ->
  (forall p, x = Some p -> ~ listed w p /\ ~ listed w' p) -> edf w -> edf w'.
Proof.
  intros [HT HK] HX (tr & Ht & R & N & M). apply (edf_change w w' tr); [by rewrite HT|done|done|..].
  - intros p Hp. apply key_time, HK. intros E. destruct (HX p); [done|]. by apply M in Hp.
  - intros p. rewrite M. destruct (decide (Some p = x)) as [E|E].
    + destruct (HX p (eq_sym E)). tauto.
    + split; apply key_listed; by rewrite HK.
Qed.

Lemma edf_still w w' : still w w' -> edf w -> edf w'.
Proof. intros H. by apply (edf_still_but None). Qed.

(** Storing a new tree, and marking a task as in or out of it. *)
Lemma relink w p t tr v w1 w2 : tref w p = Some t -> cpu t = c ->
  on_dlq w c (q_root tr) = Some w1 -> on_dl w1 p (set_on_tree v) = Some w2 ->
  tree_at w2 c = Some tr /\ (forall i, time_at w2 i = time_at w i) /\
  (forall i, i <> p -> key_at w2 i = key_at w i) /\ if v then listed w2 p else off_tree w2 p.
Proof.
  intros Ht Hc. unfold on_dlq, on_rq_of, on_dl, on_task.
  intros (q & Hq & (qs & Hs & [= <-])%bind_Some)%bind_Some.
  intros (t1 & Ht1 & (ts & Hs' & [= <-])%bind_Some)%bind_Some.
  assert (t1 = t) as -> by (unfold tref in *; simpl in *; congruence).
  apply aref_aset in Hs as [-> Hr]. apply aref_aset in Hs' as [-> Hp]. simpl in Hp. split_and!.
  - unfold tree_at, rref. simpl. by rewrite aref_upd, Z.eqb_refl.
  - intros i. unfold time_at, tref. simpl. rewrite aref_upd by done.
    destruct (Z.eqb_spec i p) as [->|]; [|done]. fold (tref w p). by rewrite Ht.
  - intros i Hi. unfold key_at, tref. simpl. rewrite aref_upd by done. by destruct (Z.eqb_spec i p).
  - unfold listed, off_tree, tref. simpl. rewrite aref_upd, Z.eqb_refl by done.
    destruct v; by eexists.
Qed.

Lemma link_edf w p t w' : edf w -> tref w p = Some t -> cpu t = c -> on_tree (dl t) = false ->
  Cpudl.in_window b (deadline (dl t)) -> __enqueue_dl_entity w p = Some w' -> edf w'.
Proof.
  intros (tr & Htr & R & N & M) Ht Hc Ho Hw. unfold __enqueue_dl_entity. rewrite Ht. cbn [mbind option_bind].
  rewrite Hc. intros (q & Hq & H)%bind_Some.
  assert (tr = root (dlq q)) as -> by (unfold tree_at in Htr; rewrite Hq in Htr; by injection Htr).
  assert (Hp : p ∉ inorder (rb_root (root (dlq q)))) by (rewrite M; intros (t' & ? & ? & _); congruence).
  destruct (RbTree.rb_add_ok (ok := soon w) (agg := plain_agg) (__dl_less w) (dl_less_asym w) (dl_less_trans w)
    p tt (root (dlq q)) R) as (tr & Ha & R' & I); [by eexists|done|].
  unfold rb_add_cached in H. rewrite Ha in H. cbn [mbind option_bind] in H.
  apply bind_Some in H as (w1 & H1 & (w2 & H2 & H)%bind_Some).
  destruct (relink w p t tr true w1 w2 Ht Hc H1 H2) as (T & D & K & L).
  eapply edf_still; [by eapply inc_dl_tasks_still|]. apply (edf_change w w2 tr); [done|done|..].
  - rewrite I, RbTree.ins_perm. by constructor.
  - done.
  - intros i. rewrite I, RbTree.ins_perm, elem_of_cons. destruct (decide (i = p)) as [->|Hi]; [tauto|].
    rewrite M. split; [intros [?|Hl]; [done|]|intros Hl; right]; by eapply key_listed; [|exact Hl]; rewrite K.
Qed.

Lemma unlink_edf w p t w' : edf w -> tref w p = Some t -> cpu t = c ->
  __dequeue_dl_entity w p = Some w' -> edf w' /\ off_tree w' p.
Proof.
  intros E Ht Hc. unfold __dequeue_dl_entity. rewrite Ht. cbn [mbind option_bind]. rewrite Hc.
  destruct (on_tree (dl t)) eqn:Ho; [|intros [= <-]; split; [done|by exists t]].
  intros (q & Hq & H)%bind_Some. destruct E as (tr & Htr & R & N & M).
  assert (tr = root (dlq q)) as -> by (unfold tree_at in Htr; rewrite Hq in Htr; by injection Htr).
  assert (Hp : p ∈ inorder (rb_root (root (dlq q)))) by (apply M; by exists t).
  apply list_elem_of_split in Hp as (l1 & l2 & I). pose proof N as N'. rewrite I in N'.
  apply list.NoDup_app in N' as (N1 & N2 & N3). apply list.NoDup_cons in N3 as [N4 N5].
  destruct (RbTree.rb_erase_ok (ok := soon w) (agg := plain_agg) (__dl_less w)
    (Z.eqb p) (root (dlq q)) l1 p l2 R I) as (tr & Ha & R' & I').
  { apply Z.eqb_refl. }
  { apply Forall_elem. intros y Hy. apply Z.eqb_neq. intros <-. apply elem_of_app in Hy as [Hy|Hy]; [|done].
    apply (N2 p Hy). by left. }
  unfold rb_erase_cached in H. rewrite Ha in H. cbn [mbind option_bind] in H.
  apply bind_Some in H as (w1 & H1 & (w2 & H2 & H)%bind_Some).
  destruct (relink w p t tr false w1 w2 Ht Hc H1 H2) as (T & D & K & L).
  pose proof (dec_dl_tasks_still _ _ _ _ H) as S.
  split; [|eapply key_off; [|exact L]; by apply S].
  eapply edf_still; [exact S|]. apply (edf_change w w2 tr); [done|done| |done|].
  - rewrite I'. apply list.NoDup_app. split_and!; [done| |done]. intros x Hx Hx'. apply (N2 x Hx). by right.
  - intros i. rewrite I'. destruct (decide (i = p)) as [->|Hi].
    + rewrite elem_of_app. split; [|by intros ?%off_not_listed].
      intros [Hx|Hx]; [|done]. destruct (N2 p Hx). by left.
    + trans (listed w i); [rewrite <- M, I, !elem_of_app, elem_of_cons; tauto|].
      split; apply key_listed; by rewrite K.
Qed.

Lemma link_listed w p t w' : tref w p = Some t -> cpu t = c ->
  __enqueue_dl_entity w p = Some w' -> listed w' p /\ time_at w' p = time_at w p.
Proof.
  intros Ht Hc. unfold __enqueue_dl_entity. rewrite Ht. cbn [mbind option_bind]. rewrite Hc.
  intros (q & Hq & ([tr lm] & Hr & (w1 & H1 & (w2 & H2 & H)%bind_Some)%bind_Some)%bind_Some)%bind_Some.
  destruct (relink w p t tr true w1 w2 Ht Hc H1 H2) as (_ & D & _ & L).
  pose proof (inc_dl_tasks_still _ _ _ _ H) as [_ S]. split; [by eapply key_listed; [apply S|]|].
  rewrite <- D. by apply key_time, S.
Qed.

Lemma windowed_still w w' : still w w' -> windowed w' -> windowed w.
Proof.
  intros [_ K] W p Hp. apply (time_soon w' w); [symmetry; by apply key_time, K|].
  apply W. eapply key_listed; [by apply K|done].
Qed.

(** Changing the entity of a task that is not in the tree. *)
Lemma off_change w p f w' :
  (forall t, tref w p = Some t -> on_tree (f (dl t)) = on_tree (dl t)) -> off_tree w p -> on_dl w p f = Some w' -> off_tree w' p /\ still_but (Some p) w w'.
Proof.
  intros Hf (t & Ht & Ho & Hc) H. split; [|eapply on_task_still_but; [by left|exact H]].
  unfold on_dl, on_task in H. rewrite Ht in H. simpl in H. apply bind_Some in H as (ts & Hs & [= <-]).
  apply aref_aset in Hs as [-> Hr]. exists (t_dl (f (dl t)) t).
  split; [unfold tref; simpl; by rewrite aref_upd, Z.eqb_refl|]. split; [simpl; by rewrite (Hf t Ht)|done].
Qed.

Lemma off_still w w' p : still w w' -> off_tree w p -> off_tree w' p.
Proof. intros [_ K]. by apply key_off, K. Qed.

Lemma on_tree_ecore e e' : ecore e' = ecore e -> on_tree e' = on_tree e.
Proof. unfold ecore. congruence. Qed.

(** The replenishment and the wakeup rules of [enqueue_dl_entity]. *)
Lemma entity_edf w p flags w' : edf w -> off_tree w p -> enqueue_dl_entity w p flags = Some w' ->
  windowed w' -> edf w'.
Proof.
  intros E Hp H W. pose proof Hp as (t & Ht & Ho & Hc). unfold enqueue_dl_entity in H.
  apply bind_Some in H as (t0 & Ht0 & (q & Hq & (w1 & H1 & H)%bind_Some)%bind_Some).
  replace t0 with t in * by congruence.
  assert (C : off_tree w1 p /\ still_but (Some p) w w1).
  { destruct (has flags ENQUEUE_WAKEUP);
      [|destruct (has flags ENQUEUE_REPLENISH);
        [|destruct (_ && _); [|injection H1 as <-; split; [done|apply still_refl]]]].
    - apply bind_Some in H1 as (w0 & H0 & (pi & _ & H1)%bind_Some).
      pose proof (task_contending_still _ _ _ _ H0) as S.
      destruct (off_change w0 p _ w1 (fun t _ => on_tree_ecore _ _ (update_entity_core _ _ _ (dl t)))
        (off_still _ _ _ S Hp) H1) as [O1 S1].
      split; [done|]. by eapply still_trans; [apply still_weaken|].
    - apply bind_Some in H1 as (pi & _ & (e & He & H1)%bind_Some).
      apply replenish_core, on_tree_ecore in He. eapply off_change; [|exact Hp|exact H1]. intros u Hu. by replace u with t by congruence.
    - apply bind_Some in H1 as (pi & _ & H1).
      eapply off_change; [|exact Hp|exact H1]. intros u _. apply on_tree_ecore, setup_new_core. }
  destruct C as [O1 S1].
  pose proof O1 as (t1 & Ht1 & Ho1 & Hc1).
  destruct (link_listed w1 p t1 w' Ht1 Hc1 H) as [L T].
  destruct (W p L) as (t' & Ht' & Hw). unfold time_at in T. rewrite Ht', Ht1 in T. apply (inj Some) in T.
  eapply (link_edf w1 p t1); [|done..|by rewrite <- T|done].
  eapply edf_still_but; [exact S1| |done]. intros x [= <-]. split; by apply off_not_listed.
Qed.

Lemma unboosted_edf w p flags w' : edf w -> off_tree w p -> enqueue_unboosted w c p flags = Some w' ->
  windowed w' -> edf w'.
Proof.
  intros E Hp H W. unfold enqueue_unboosted in H.
  apply bind_Some in H as (t & Ht & (w1 & H1 & (w2 & H2 & (t2 & Ht2 & H)%bind_Some)%bind_Some)%bind_Some).
  assert (S : still w w2) by (eapply still_trans with w1; [destruct (_ && _)|destruct (_ || _)]; unbind; still_chain).
  assert (E2 : edf w2) by (by eapply edf_still). assert (O2 : off_tree w2 p) by (by eapply off_still).
  destruct (dl_throttled (dl t2) && _).
  - eapply edf_still; [|exact E2]. destruct (has flags ENQUEUE_WAKEUP); unbind; still_chain.
  - apply bind_Some in H as (w3 & H3 & (q & Hq & H)%bind_Some).
    assert (S3 : still w3 w') by (destruct (_ && _); unbind; still_chain).
    eapply edf_still; [exact S3|]. eapply (entity_edf w2 p); [done..|by eapply windowed_still].
Qed.

Lemma enqueue_edf w p flags w' : edf w -> off_tree w p -> enqueue_task_dl w c p flags = Some w' ->
  windowed w' -> edf w'.
Proof.
  intros E Hp H W. unfold enqueue_task_dl in H. apply bind_Some in H as (t & Ht & H).
  destruct (is_dl_boosted p (dl t)).
  - apply bind_Some in H as (w1 & H1 & H).
    assert (S : still w w1) by (destruct (dl_throttled (dl t)); unbind; still_chain).
    eapply (unboosted_edf w1 p); [by eapply edf_still|by eapply off_still|done|done].
  - destruct (dl_prio (normal_prio t)); simpl in H; [by eapply unboosted_edf|].
    eapply edf_still; [|exact E]. still_chain.
Qed.

Lemma dequeue_edf w p t w' : edf w -> tref w p = Some t -> cpu t = c ->
  __dequeue_task_dl w c p = Some w' -> edf w' /\ off_tree w' p.
Proof.
  intros E Ht Hc (w1 & H1 & H)%bind_Some. destruct (unlink_edf w p t w1 E Ht Hc H1) as [E1 O1].
  pose proof (dequeue_pushable_still _ _ _ _ H). split; [by eapply edf_still|by eapply off_still].
Qed.

Lemma throttle_edf w p t w' : edf w -> tref w p = Some t -> cpu t = c ->
  check_throttle w c p = Some w' -> windowed w' -> edf w'.
Proof.
  intros E Ht Hc H W. unfold check_throttle in H. rewrite Ht in H. cbn [mbind option_bind] in H.
  destruct (must_throttle (dl t)); [|by injection H as <-].
  apply bind_Some in H as (w1 & H1 & (w2 & H2 & (t2 & Ht2 & (w3 & H3 & (q & Hq & H)%bind_Some)%bind_Some)%bind_Some)%bind_Some).
  assert (S1 : still w w1).
  { eapply on_task_still_but; [|exact H1]. right. intros u. cbv beta. unfold throttle. by destruct (_ && _). }
  destruct (key_task w w1 p t (proj2 S1 p ltac:(done)) Ht) as (t1 & Ht1 & Hc1 & _).
  destruct (dequeue_edf w1 p t1 w2 (edf_still _ _ S1 E) Ht1 ltac:(congruence) H2) as [E2 O2].
  assert (S3 : still w3 w') by (destruct (is_leftmost _ _); unbind; still_chain).
  eapply edf_still; [exact S3|]. pose proof (windowed_still _ _ S3 W) as W3.
  destruct (is_dl_boosted _ _); [by eapply enqueue_edf|].
  apply bind_Some in H3 as ([w4 started] & H4 & H3). pose proof (start_dl_timer_still _ _ _ _ H4) as S4.
  destruct started; [injection H3 as <-; by eapply edf_still|].
  eapply (enqueue_edf w4 p); [by eapply edf_still|by eapply off_still|done|done].
Qed.

(** The current task of the CPU is on it when it is in a tree. *)
Definition curr_here (w : world) : Prop := forall q t, rref w c = Some q -> tref w (curr q) = Some t ->
  on_tree (dl t) = true -> cpu t = c.

Lemma update_curr_edf w w' : edf w -> curr_here w -> update_curr_dl w c = Some w' -> windowed w' -> edf w'.
Proof.
  intros E Cu H W. unfold update_curr_dl in H. apply bind_Some in H as (q & Hq & (t & Ht & H)%bind_Some).
  destruct (on_tree (dl t)) eqn:Ho; [|rewrite orb_true_r in H; by injection H as <-].
  pose proof (Cu q t Hq Ht Ho) as Hc. destruct (negb _ || _); [by injection H as <-|].
  destruct (_ <=? 0).
  - destruct (dl_yielded _); [|by injection H as <-]. apply bind_Some in H as (w1 & H1 & H).
    pose proof (account_rt_time_still _ _ _ _ H) as S. eapply edf_still; [exact S|].
    eapply (throttle_edf w); [done..|by eapply windowed_still].
  - apply bind_Some in H as (w1 & H1 & H).
    assert (S1 : still w w1) by still_chain. destruct (dl_entity_is_special _); [injection H as <-; by eapply edf_still|].
    apply bind_Some in H as (w2 & H2 & (w3 & H3 & H)%bind_Some).
    assert (S2 : still w w2) by (eapply still_trans; [exact S1|]; still_chain).
    destruct (key_task w w2 (curr q) t (proj2 S2 _ ltac:(done)) Ht) as (t2 & Ht2 & Hc2 & _).
    pose proof (account_rt_time_still _ _ _ _ H) as S. eapply edf_still; [exact S|].
    eapply (throttle_edf w2 _ t2); [by eapply edf_still|done|congruence|done|by eapply windowed_still].
Qed.

Lemma dequeue_task_edf w p t flags w1 w' : edf w -> curr_here w -> update_curr_dl w c = Some w1 ->
  windowed w1 -> tref w1 p = Some t -> cpu t = c -> dequeue_task_dl w c p flags = Some w' -> edf w'.
Proof.
  intros E Cu H1 W1 Ht Hc H. unfold dequeue_task_dl in H. rewrite H1 in H. cbn [mbind option_bind] in H.
  apply bind_Some in H as (w2 & H2 & (t2 & Ht2 & (w3 & H3 & H)%bind_Some)%bind_Some).
  destruct (dequeue_edf w1 p t w2 (update_curr_edf w w1 E Cu H1 W1) Ht Hc H2) as [E2 _].
  eapply edf_still; [|exact E2].
  eapply still_trans with w3; [destruct (_ || _)|destruct (has _ _)]; unbind; still_chain.
Qed.

Lemma set_next_still w p first w' : set_next_task_dl w c p first = Some w' -> still w w'.
Proof.
  assert (Q : forall w w', deadline_queue_push_tasks w c = Some w' -> still w w').
  { unfold deadline_queue_push_tasks. intros v v' Hv. unbind; [|apply still_refl].
    eapply on_rq_still; [|exact Hv]. intros q. unfold queue_balance_callback. by case_match. }
  unfold set_next_task_dl. intros H. unbind; [|still_chain].
  eapply still_trans; [|by apply Q]. clear Q. still_chain.
Qed.

Lemma put_prev_edf w p w' : edf w -> curr_here w -> put_prev_task_dl w c p = Some w' -> windowed w' -> edf w'.
Proof.
  intros E Cu H W. unfold put_prev_task_dl in H. apply bind_Some in H as (w1 & H1 & H).
  assert (S : still w1 w') by (unbind; still_chain). eapply edf_still; [exact S|].
  eapply update_curr_edf; [done..|by eapply windowed_still].
Qed.

(** The handlers of the class for the CPU, and what leaves trees and keys alone. *)
Inductive edf_step (w : world) : world -> Prop :=
| edf_enqueue p flags w' : off_tree w p -> enqueue_task_dl w c p flags = Some w' -> windowed w' ->
    edf_step w w'
| edf_dequeue p t flags w1 w' : curr_here w -> update_curr_dl w c = Some w1 -> windowed w1 ->
    tref w1 p = Some t -> cpu t = c -> dequeue_task_dl w c p flags = Some w' -> edf_step w w'
| edf_tick w' : curr_here w -> task_tick_dl w c = Some w' -> windowed w' -> edf_step w w'
| edf_set_next p first w' : set_next_task_dl w c p first = Some w' -> edf_step w w'
| edf_put_prev p w' : curr_here w -> put_prev_task_dl w c p = Some w' -> windowed w' -> edf_step w w'
| edf_other w' : still w w' -> edf_step w w'.

Lemma steps_edf w w' : rtc edf_step w w' -> edf w -> edf w'.
Proof.
  induction 1 as [|w w1 w' H _ IH]; [done|]. intros E. apply IH. destruct H.
  - by eapply enqueue_edf.
  - by eapply dequeue_task_edf.
  - by eapply update_curr_edf.
  - by eapply edf_still; [eapply set_next_still|].
  - by eapply put_prev_edf.
  - by eapply edf_still.
Qed.

Lemma empty_edf w : tree_at w c = Some RB_ROOT_CACHED -> (forall p, ~ listed w p) -> edf w.
Proof.
  intros H N. exists RB_ROOT_CACHED. split; [done|]. split; [apply RbTree.empty_ok|]. split; [constructor|].
  intros p. split; [by intros ?%not_elem_of_nil|by intros ?%N].
Qed.

(** C9: Earliest deadline first.  Through every sequence of the class's handlers on a CPU
    that starts from an empty queue, with the queued deadlines within [2^63] of each
    other, the task [pick_next_dl_entity] returns is a runnable task of the CPU none of
    whose fellows has an earlier deadline, none is returned only when none is runnable,
    and the height of the tree is at most twice the logarithm of its size. *)
Theorem earliest_deadline_first w0 w :
  tree_at w0 c = Some RB_ROOT_CACHED -> (forall p, ~ listed w0 p) -> rtc edf_step w0 w ->
  exists q, rref w c = Some q /\
    match pick_next_dl_entity (dlq q) with
    | Some p => listed w p /\ forall p' t t', tref w p = Some t -> listed w p' -> tref w p' = Some t' ->
        Cpudl.key b (deadline (dl t)) <= Cpudl.key b (deadline (dl t'))
    | None => forall p, ~ listed w p
    end /\
    (RbTree.height (rb_root (root (dlq q))) <=
       2 * Nat.log2 (S (length (inorder (rb_root (root (dlq q)))))))%nat.
Proof.
  intros H0 N0 R. destruct (steps_edf w0 w R (empty_edf w0 H0 N0)) as (tr & Ht & [B W S O L] & N & M).
  unfold tree_at in Ht. destruct (rref w c) as [q|] eqn:Hq; [|done]. injection Ht as <-.
  exists q. split; [done|]. split; [|by apply RbTree.balanced_height].
  unfold pick_next_dl_entity. rewrite L. destruct (inorder _) as [|p l] eqn:I; simpl.
  - intros p Hp%M. by apply not_elem_of_nil in Hp.
  - split; [apply M; by left|]. intros p' t t' Hp Hl Hp'. apply M in Hl.
    rewrite Forall_elem in O. destruct (O p) as (u & Hu & Wp); [by left|]. destruct (O p' Hl) as (u' & Hu' & Wp').
    replace u with t in * by congruence. replace u' with t' in * by congruence.
    apply elem_of_cons in Hl as [->|Hl]; [replace t' with t by congruence; lia|].
    destruct S as [S _]. rewrite Forall_elem in S. pose proof (S p' Hl) as Hless. simpl in Hless.
    rewrite (dl_less_key w p' p t' t) in Hless by done. lia.
Qed.

(** The conditions of a step, decided. *)
Definition windowedb (w : world) : bool :=
  forallb (fun t => let d := deadline (dl t) in
    negb (on_tree (dl t)) || (0 <=? d) && (d <? two64) && (Cpudl.key b d <? two63)) (tasks w).

Lemma tref_forallb w f p t : forallb f (tasks w) = true -> tref w p = Some t -> f t = true.
Proof.
  intros H Ht. rewrite forallb_forall in H. apply H, list_elem_of_In, list_elem_of_lookup.
  exists (Z.to_nat p). by apply aref_nat.
Qed.

Lemma windowedb_sound w : windowedb w = true -> windowed w.
Proof.
  intros H p (t & Ht & Ho & _). exists t. split; [done|]. apply (tref_forallb w _ p t H) in Ht.
  simpl in Ht. rewrite Ho in Ht. simpl in Ht. unfold Cpudl.in_window. lia.
Qed.

Lemma none_listed w : forallb (fun t => negb (on_tree (dl t))) (tasks w) = true -> forall p, ~ listed w p.
Proof. intros H p (t & Ht & Ho & _). apply (tref_forallb w _ p t H) in Ht. by rewrite Ho in Ht. Qed.

End Order.

(** *** An example *)

(** The two deadline tasks of [demo_trace] are enqueued on CPU 0. *)
Definition demo_queue0 : world := after (take 4 demo_trace).
Definition demo_queue1 : world := default demo_queue0 (enqueue_task_dl demo_queue0 0 2 ENQUEUE_WAKEUP).
Definition demo_queue2 : world := default demo_queue1 (enqueue_task_dl demo_queue1 0 3 ENQUEUE_WAKEUP).

Lemma demo_enqueue : rtc (edf_step 0 0) demo_queue0 demo_queue2.
Proof.
  apply rtc_l with demo_queue1; [|apply rtc_once].
  - apply (edf_enqueue 0 0 _ 2 ENQUEUE_WAKEUP); [|by vm_compute|apply windowedb_sound; by vm_compute].
    exists (default (demo_task 2 0 0 1) (tref demo_queue0 2)). split_and!; by vm_compute.
  - apply (edf_enqueue 0 0 _ 3 ENQUEUE_WAKEUP); [|by vm_compute|apply windowedb_sound; by vm_compute].
    exists (default (demo_task 3 0 0 1) (tref demo_queue1 3)). split_and!; by vm_compute.
Qed.

Lemma earliest_deadline_first_witness :
  pick_next_dl_entity (dlq (queue_of demo_queue1 0)) = Some 2 /\
  exists q, rref demo_queue2 0 = Some q /\ pick_next_dl_entity (dlq q) = Some 3 /\ listed 0 demo_queue2 3.
Proof.
  split; [by vm_compute|].
  destruct (earliest_deadline_first 0 0 demo_queue0 demo_queue2) as (q & Hq & Hp & _);
    [by vm_compute|apply none_listed; by vm_compute|apply demo_enqueue|].
  assert (E : pick_next_dl_entity (dlq q) = Some 3).
  { replace q with (queue_of demo_queue2 0) by (unfold queue_of; by rewrite Hq). by vm_compute. }
  exists q. rewrite E in Hp. split_and!; [done|done|apply Hp].
Defined.

End DeadlineEdf.
