(* ===== verification/DeadlineAdmit.v ===== *)
(** Admission of deadline tasks, and what is not released.

    [sched_dl_overflow] accepts a request exactly when the bandwidth of the root domain
    allows it, and a refused request changes nothing.  The examples show the paths on
    which accepted bandwidth stays in [total_bw], or a task stays throttled, although
    nothing is left to correct it. *)

From Stdlib Require Import ZArith Lia List.
From stdpp Require Import base list numbers option.
From S2P Require Import Prelude RbTree Cpudl Cpupri Cbs Deadline DeadlineBw DeadlineAttr DeadlineEvents.

Module DeadlineAdmit.
Import DeadlineEvents.

Section Admission.
Context {pf : Platform}.

Lemma list_map_insert_same {A B} (f : A -> B) (l : list A) i x y : l !! i = Some x -> f y = f x ->
  map f (<[i := y]> l) = map f l.
Proof.
  intros Hx E. change (map f) with (fmap (M := list) f). rewrite list_fmap_insert, E, list_insert_id; [done|].
  by rewrite list_lookup_fmap, Hx.
Qed.

(** *** What changes root domains *)

Lemma extra_bw_rds cpus bw : forall w w', add_extra_bw w cpus bw = Some w' -> rds w' = rds w.
Proof.
  induction cpus as [|c cpus IH]; intros w w' H; unbind; [done|].
  rewrite (IH _ _ H). by unfold on_dlq, on_rq_of in Hv; unbind.
Qed.

Lemma total_update w d f n w1 w' x :
  on_rd w d (fun r => d_total_bw (f r) r) = Some w1 -> __dl_update w1 d n = Some w' -> dref w d = Some x ->
  dref w' d = Some (d_total_bw (f x) x).
Proof.
  intros H1 H Hx. unfold __dl_update in H. unbind. apply extra_bw_rds in H. unfold dref. rewrite H.
  unfold on_rd in H1. rewrite Hx in H1. unbind. apply aref_aset in Hv0 as [-> Hr]. simpl.
  by rewrite aref_upd, Z.eqb_refl.
Qed.

Lemma sub_total w d b n w' x : dref w d = Some x -> __dl_sub w d b n = Some w' ->
  dref w' d = Some (d_total_bw (total_bw x -u64 b) x).
Proof. intros Hx (w1 & H1 & H)%bind_Some. destruct (n =? 0); [done|]. by eapply (total_update w d (fun r => total_bw r -u64 b)). Qed.

Lemma add_total w d b n w' x : dref w d = Some x -> __dl_add w d b n = Some w' ->
  dref w' d = Some (d_total_bw (total_bw x +u64 b) x).
Proof. intros Hx (w1 & H1 & H)%bind_Some. destruct (n =? 0); [done|]. by eapply (total_update w d (fun r => total_bw r +u64 b)). Qed.

Lemma rq_rds w c f w' : on_rq_of w c f = Some w' -> rds w' = rds w.
Proof. unfold on_rq_of. intros H. by unbind. Qed.

Lemma task_rds w p f w' : on_task w p f = Some w' -> rds w' = rds w.
Proof. unfold on_task. intros H. by unbind. Qed.

Lemma change_utilization_rds w p bw w' : dl_change_utilization w p bw = Some w' -> rds w' = rds w.
Proof.
  unfold dl_change_utilization, sub_running_bw, unless_special, on_dlq. intros H. unbind; try done;
    repeat match goal with
    | H : on_rq_of _ _ _ = Some _ |- _ => apply rq_rds in H
    | H : on_task _ _ _ = Some _ |- _ => apply task_rds in H
    end; congruence.
Qed.

(** The bandwidth a request asks for. *)
Definition requested (attr : sched_attr) : Z :=
  to_ratio (elvis (sched_period attr) (sched_deadline attr)) (sched_runtime attr).

(** C27: Admission control of a request for the deadline policy.  It is accepted exactly
    when it asks for the bandwidth the task has or the bandwidth of the root domain with
    it stays within the limit times the capacity; then the total loses what the task had
    and gains what it asks for.  A refused request leaves everything as it was. *)
Theorem admission_control w p policy attr t q d cap w' r :
  tref w p = Some t -> rref w (cpu t) = Some q -> dref w (rd q) = Some d ->
  dl_bw_capacity w (cpu t) = Some cap -> dl_policy policy = true ->
  has (sched_flags attr) SCHED_FLAG_SUGOV = false ->
  0 <= dl_bw (dl t) <= total_bw d -> 0 <= requested attr -> total_bw d + requested attr < two64 ->
  sched_dl_overflow w p policy attr = Some (w', r) ->
  let counted_as := if task_has_dl_policy t then dl_bw (dl t) else 0 in
  let fits := dl_b_bw d = U64_MAX \/ total_bw d - counted_as + requested attr <= cap_scale (dl_b_bw d) cap in
  let same := requested attr = dl_bw (dl t) /\ task_has_dl_policy t = true in
  (r = 0 /\ (same \/ fits) /\
   exists d', dref w' (rd q) = Some d' /\
     total_bw d' = total_bw d + requested attr -
       (if task_has_dl_policy t || hrtimer_active (inactive_timer t) then dl_bw (dl t) else 0)) \/
  (r = -1 /\ ~ (same \/ fits) /\ w' = w).
Proof.
  intros Ht Hq Hd Hcap Hpol Hsg Hold Hnew Hmax H counted_as fits same. unfold sched_dl_overflow in H.
  rewrite Ht in H. cbn [mbind option_bind] in H. rewrite Hq in H. cbn [mbind option_bind] in H.
  rewrite Hd in H. cbn [mbind option_bind] in H. fold (requested attr) in H. rewrite Hsg, Hpol in H.
  assert (Over : forall old, 0 <= old <= total_bw d ->
    (__dl_overflow d cap old (requested attr) = false <->
     dl_b_bw d = U64_MAX \/ total_bw d - old + requested attr <= cap_scale (dl_b_bw d) cap)).
  { intros old Ho. unfold __dl_overflow. rewrite u64_small by lia.
    destruct (Z.eqb_spec (dl_b_bw d) U64_MAX); simpl; [tauto|]. rewrite Z.ltb_ge. tauto. }
  destruct ((_ =? _) && _) eqn:Hsame.
  { apply andb_prop in Hsame as [E%Z.eqb_eq Hp]. injection H as <- <-. left. split; [done|].
    split; [left; by split|]. exists d. rewrite Hp. simpl. split; [done|lia]. }
  assert (Hns : ~ same) by (intros [E1 E2]; rewrite E1, E2, Z.eqb_refl in Hsame; done). clear Hsame.
  apply bind_Some in H as (cpus & Hcpus & H). rewrite Hcap in H. cbn [mbind option_bind] in H.
  destruct (task_has_dl_policy t) eqn:Hp; simpl in H.
  - destruct (__dl_overflow d cap (dl_bw (dl t)) _) eqn:Ho; simpl in H.
    + injection H as <- <-. right. split_and!; [done| |done]. intros [?|F]; [done|]. pose proof (proj2 (Over (dl_bw (dl t)) ltac:(lia)) F). congruence.
    + apply Over in Ho; [|lia]. left.
      apply bind_Some in H as (w1 & H1 & (w2 & H2 & (w3 & H3 & [= <- <-])%bind_Some)%bind_Some).
      apply (sub_total _ _ _ _ _ d Hd) in H1. apply (add_total _ _ _ _ _ _ H1) in H2.
      apply change_utilization_rds in H3. split; [done|]. split; [by right|].
      eexists. unfold dref. rewrite H3. split; [exact H2|]. simpl. rewrite (u64_small (total_bw d - _)), u64_small by lia. lia.
  - destruct (__dl_overflow d cap 0 _) eqn:Ho; simpl in H.
    + injection H as <- <-. right. split_and!; [done| |done]. intros [?|F]; [done|]. pose proof (proj2 (Over 0 ltac:(lia)) F). congruence.
    + apply Over in Ho; [|lia]. left. apply bind_Some in H as (w1 & H1 & (w2 & H2 & [= <- <-])%bind_Some).
      split; [done|]. split; [by right|]. destruct (hrtimer_active _); simpl.
      * apply (sub_total _ _ _ _ _ d Hd) in H1. apply (add_total _ _ _ _ _ _ H1) in H2.
        eexists. split; [exact H2|]. simpl. rewrite (u64_small (total_bw d - _)), u64_small by lia. lia.
      * injection H1 as <-. apply (add_total _ _ _ _ _ _ Hd) in H2.
        eexists. split; [exact H2|]. simpl. rewrite u64_small by lia. lia.
Qed.

Lemma overflow_refused w p policy attr w' r : sched_dl_overflow w p policy attr = Some (w', r) ->
  r <> 0 -> w' = w.
Proof. unfold sched_dl_overflow. intros H Hr. by unbind. Qed.

(** Only the clocks of run queues may differ. *)
Definition untouched (w w' : world) : Prop :=
  tasks w' = tasks w /\ rds w' = rds w /\
  map (fun q => (dlq q, curr q)) (rqs w') = map (fun q => (dlq q, curr q)) (rqs w).

(** C30: A call of [__sched_setscheduler] that returns an error has no effect: no task, no
    root domain and no deadline queue has changed, whichever check refused it. *)
Theorem refused_request_no_effect w p attr user ch ck w' r :
  __sched_setscheduler w p attr user ch ck = Some (w', r) -> r <> 0 ->
  untouched w w'.
Proof.
  intros H Hr. unfold __sched_setscheduler in H. apply bind_Some in H as (t & Ht & H).
  destruct (negb _); [by injection H as <- <-|]. apply bind_Some in H as (w1 & H1 & H).
  assert (E : untouched w w1).
  { unfold update_rq_clock, on_rq_of in H1. apply bind_Some in H1 as (q & Hq & (qs & Hs & [= <-])%bind_Some).
    apply aref_aset in Hs as [-> Hc]. split_and!; [done|done|]. apply list_map_insert_same with q; [|done].
    by apply aref_nat. }
  apply bind_Some in H as (q & Hq & (d & Hd & H)%bind_Some).
  destruct (p =? stop q); [by injection H as <- <-|]. destruct (setscheduler_unchanged _ _ _); [by injection H as <- <-|].
  destruct (user && _); [by injection H as <- <-|]. apply bind_Some in H as ([w2 over] & H2 & H).
  destruct (over =? 0) eqn:Ho; simpl in H.
  - apply bind_Some in H as (w3 & _ & [= <- <-]). done.
  - injection H as <- <-. apply Z.eqb_neq in Ho. destruct (dl_policy _ || _); [|by injection H2 as <- <-].
    by rewrite (overflow_refused _ _ _ _ _ _ H2 Ho).
Qed.

End Admission.

(** *** Examples *)

#[local] Existing Instance demo_platform.

Definition implicit_attr : sched_attr := mk_dl_attr 6 0 0 0 5000000 50000000 50000000.
Definition normal_attr : sched_attr := mk_dl_attr 0 0 0 0 0 0 0.
Definition keep_attr : sched_attr := mk_dl_attr 6 0x10 0 0 10000000 30000000 100000000.
Definition huge_attr : sched_attr := mk_dl_attr 6 0 0 0 99000000 100000000 100000000.

(** The bandwidth left in the first root domain, and the policies of the tasks. *)
Definition domain_bw (w : world) : option Z := total_bw <$> dref w 0.
Definition policies (w : world) : list Z := map policy (tasks w).

(** The first of two tasks is admitted. *)
Lemma admission_control_witness :
  exists w' d', sched_dl_overflow demo_world 2 SCHED_DEADLINE demo_attr = Some (w', 0) /\
    dref w' 0 = Some d' /\ total_bw d' = 104857.
Proof.
  destruct (admission_control demo_world 2 SCHED_DEADLINE demo_attr (demo_task 2 0 0 1) (demo_rq 0)
    (default (mk_rd 0 0 0 (Cpudl.cpudl_fresh 2 3) (Cpupri.cpupri_fresh 2 3) 0 0 false) (dref demo_world 0)) 2048
    (fst (default (demo_world, 1) (sched_dl_overflow demo_world 2 SCHED_DEADLINE demo_attr))) 0)
    as [(_ & _ & d' & Hd & Ht)|(Hr & _)]; try done; try (by vm_compute).
  exists (fst (default (demo_world, 1) (sched_dl_overflow demo_world 2 SCHED_DEADLINE demo_attr))), d'.
  split; [by vm_compute|]. split; [exact Hd|]. rewrite Ht. by vm_compute.
Defined.

(** A task may not ask for all of both CPUs twice. *)
Lemma refused_request_no_effect_witness :
  exists w' r, __sched_setscheduler (w_rds [mk_rd 100000 0 3 (Cpudl.cpudl_fresh 2 3) (Cpupri.cpupri_fresh 2 3) 0 0 false] demo_world)
    2 huge_attr true demo_checks (at_ms 1000) = Some (w', r) /\ r = - EBUSY /\ policies w' = [0; 0; 0; 0].
Proof.
  set (w0 := w_rds [mk_rd 100000 0 3 (Cpudl.cpudl_fresh 2 3) (Cpupri.cpupri_fresh 2 3) 0 0 false] demo_world).
  set (wr := default (w0, 0) (__sched_setscheduler w0 2 huge_attr true demo_checks (at_ms 1000))).
  exists (fst wr), (snd wr).
  assert (E : __sched_setscheduler w0 2 huge_attr true demo_checks (at_ms 1000) = Some (fst wr, snd wr))
    by (by vm_compute).
  split; [exact E|]. split; [by vm_compute|]. unfold policies.
  destruct (refused_request_no_effect w0 2 huge_attr true demo_checks (at_ms 1000) (fst wr) (snd wr) E) as [-> _];
    by vm_compute.
Defined.

(** A blocked deadline task with no pending inactive timer that goes back to another
    policy leaves its bandwidth in the root domain, once for every time it does so. *)
Example blocked_switch_leaks :
  let back_and_forth := [SetScheduler 2 demo_attr true demo_checks (at_ms 1000);
                         SetScheduler 2 normal_attr true demo_checks (at_ms 1001)] in
  (policies <$> run demo_world (back_and_forth ++ back_and_forth)) = Some [0; 0; 0; 0] /\
  (run demo_world (back_and_forth ++ back_and_forth) ≫= domain_bw) = Some 209714.
Proof. by vm_compute. Qed.

(** A request with the flag to keep the parameters is charged to the root domain
    although the task keeps its policy. *)
Example keep_params_leaks :
  ('(w, _) ← __sched_setscheduler demo_world 2 keep_attr true demo_checks (at_ms 1000);
   Some (policies w, domain_bw w)) = Some ([0; 0; 0; 0], Some 104857).
Proof. by vm_compute. Qed.

(** A throttled task changes to another policy, its replenishment timer expires and finds
    no deadline task, and the task comes back before its zero-lag time: it is runnable
    and throttled, in no tree, and no timer is left to replenish it. *)
Example throttled_task_stranded :
  (w ← run demo_world
     [Online 0; SetScheduler 3 implicit_attr true demo_checks (at_ms 1000);
      Wake 0 3 0 (at_ms 1001) (at_ms 1001); Schedule 0 0; Tick 0 (at_ms 1007); Schedule 0 0;
      SetScheduler 3 normal_attr true demo_checks (at_ms 1010);
      Timers 3 None (Some 1061000000); DlTimer 0 3 (at_ms 1051) 0 (at_ms 1051);
      SetScheduler 3 implicit_attr true demo_checks (at_ms 1055)];
   t ← tref w 3;
   Some (policy t, on_rq t, on_tree (dl t), dl_throttled (dl t), (dl_timer t : option Z))) =
  Some (SCHED_DEADLINE, TASK_ON_RQ_QUEUED, false, true, None).
Proof. by vm_compute. Qed.

End DeadlineAdmit.
