(* ===== verification/Rt.v ===== *)
(** The real-time scheduling class: [kernel/sched/rt.c] without group scheduling, and
    its callers in [kernel/sched/core.c].

    A world is all tasks, run queues and root domains with the system-wide bandwidth
    limit.  The file models the priority arrays, the counters, the throttling with its
    period timer and the borrowing of runtime, preemption and round robin, the lists of
    pushable tasks (Plist), the search for a CPU of lower priority (Cpupri), push and
    pull migration with the chain of inter-processor interrupts, changes of priority,
    affinity and root domain, and the sysctls.

    A task, a CPU and a root domain are numbers, and every number names one.  The timer
    of the bandwidth limit (the subsystem of [kernel/time/hrtimer.c]) and the topology
    are the members of [RtPlatform]; nothing is assumed of the timer.  A call runs with
    the locks held: no other CPU acts when [double_lock_balance] drops a lock.  PELT
    signals, cpufreq notifications, statistics and reference counts do not touch this
    state. *)

From Stdlib Require Import ZArith Lia List.
From stdpp Require Import base list numbers option.
From S2P Require Import Prelude Plist Cpudl Cpupri Cbs Deadline.

Module Rt.
Import Cpudl(BW_SHIFT, dl_time_before).
Import Cbs(RUNTIME_INF, NSEC_PER_USEC).
Import Deadline(SCHED_RR, TASK_ON_RQ_QUEUED, TASK_ON_RQ_MIGRATING, DEQUEUE_SLEEP, DEQUEUE_SAVE,
  DEQUEUE_MOVE, DEQUEUE_NOCLOCK, ENQUEUE_WAKEUP, ENQUEUE_RESTORE, ENQUEUE_NOCLOCK, ENQUEUE_HEAD,
  ENQUEUE_REPLENISH, ENQUEUE_MIGRATED, EINVAL, has, dl_prio, dl_policy, rt_policy, __normal_prio).

(** The number of CPUs, the period timer ([hrtimer_active]; [hrtimer_forward_now] with
    [hrtimer_start_expires]), whether [double_lock_balance] drops the lock
    (CONFIG_PREEMPTION), the scheduler features, the capacities, the scheduling domains
    of a CPU from the innermost outwards (SD_WAKE_AFFINE and span), and the rotating
    choices of a CPU of a mask. *)
Class RtPlatform := mk_rt_platform {
  nr_cpu_ids : Z;
  timer : Type;
  hrtimer_active : timer -> bool;
  hrtimer_kick : timer -> timer;
  double_lock_balance : bool;
  RT_RUNTIME_SHARE : bool;
  RT_PUSH_IPI : bool;
  sched_asym_cpucap_active : bool;
  capacity_orig_of : Z -> Z;
  sched_domains : Z -> list (bool * Z);
  cpumask_any_and_distribute : Z -> Z -> Z;
  cpumask_any_distribute : Z -> Z;
  HZ : Z
}.

Section Class.
Context {pf : RtPlatform}.

Definition MAX_RT_PRIO : Z := 100.
Definition max_rt_runtime : Z := Z.shiftl 1 (64 - BW_SHIFT) - 1.
Definition RR_TIMESLICE : Z := 100 * HZ / 1000.
Definition RLIM_INFINITY : Z := U64_MAX.
Definition USEC_PER_SEC : Z := 1000000.

(** *** State *)

(** From the highest class downwards. *)
Inductive sched_class := stop_sched_class | dl_sched_class | rt_sched_class | fair_sched_class
  | idle_sched_class.

#[export] Instance sched_class_eq_dec : EqDecision sched_class.
Proof. solve_decision. Defined.

(** The fields of [struct task_struct] the class uses; [on_list] and [on_rt_rq] are the
    members [on_list] and [on_rq] of its [struct sched_rt_entity]. *)
Record task := mk_task {
  prio : Z;
  normal_prio : Z;
  policy : Z;
  class : sched_class;
  on_rq : Z;
  cpu : Z;
  on_cpu : bool;
  nr_cpus_allowed : Z;
  cpus_mask : Z;
  migration_disabled : bool;
  mdf_push : bool;
  need_resched : bool;
  pi_top_task : option Z;
  exec_start : Z;
  sum_exec_runtime : Z;
  uclamp_min : Z;
  uclamp_max : Z;
  time_slice : Z;
  timeout : Z;
  watchdog_stamp : Z;
  cputimer_nextevt : Z;
  on_list : bool;
  on_rt_rq : bool
}.

Inductive callback := PushRt | PullRt | OtherCallback (n : Z).

#[export] Instance callback_eq_dec : EqDecision callback.
Proof. solve_decision. Defined.

(** [struct rt_rq] with its [struct rt_prio_array]; the lists hold task numbers.  The
    members for the throttling are in [rq]. *)
Record rt_rq := mk_rt_rq {
  bitmap : Z;
  queue : list (list Z);
  rt_nr_running : Z;
  rr_nr_running : Z;
  highest_curr : Z;
  highest_next : Z;
  rt_nr_migratory : Z;
  rt_nr_total : Z;
  overloaded : bool;
  pushable_tasks : Plist.plist_head
}.

(** The members of [struct dl_rq] on which the stores of the deadline class to the index
    of priorities depend.  [stored_offline] records that the class has stored while the
    run queue was offline; no code reads it. *)
Record dl_rq := mk_dl_rq {
  dl_nr_running : Z;
  earliest_dl : Z;
  stored_offline : bool
}.

(** The fields of [struct rq] the class uses.  [stop_runnable] tells whether the stop class
    has a task; [push_work] is the argument of a queued [push_cpu_stop]. *)
Record rq := mk_rq {
  rt : rt_rq;
  rt_queued : bool;
  rt_throttled : bool;
  rt_time : Z;
  rt_runtime : Z;
  rd : Z;
  online : bool;
  clock_task : Z;
  curr : Z;
  idle : Z;
  nr_running : Z;
  stop_runnable : bool;
  dl : dl_rq;
  balance_callback : list callback;
  balance_push : bool;
  push_busy : bool;
  push_work : option Z
}.

(** [struct root_domain]; [rto_push_work] is the CPU the irq work is pending on. *)
Record root_domain := mk_rd {
  span : Z;
  rd_cpupri : Cpupri.cpupri;
  overload : bool;
  rto_mask : Z;
  rto_count : Z;
  rto_loop : Z;
  rto_cpu : Z;
  rto_loop_next : Z;
  rto_loop_start : Z;
  rto_push_work : option Z
}.

(** [struct rt_bandwidth]. *)
Record rt_bandwidth := mk_b {
  rt_period : Z;
  b_runtime : Z;
  rt_period_active : bool;
  rt_period_timer : timer
}.

Record world := mk_world {
  task_of : Z -> task;
  cpu_rq : Z -> rq;
  rd_of : Z -> root_domain;
  def_rt_bandwidth : rt_bandwidth;
  cpu_online_mask : Z;
  cpu_active_mask : Z;
  sysctl_sched_rt_period : Z;
  sysctl_sched_rt_runtime : Z;
  sysctl_sched_rr_timeslice : Z;
  sched_rr_timeslice : Z
}.

(** Stores to the members. *)
Definition t_prio (v : Z) (r : task) : task :=
  mk_task v (normal_prio r) (policy r) (class r) (on_rq r) (cpu r) (on_cpu r)
    (nr_cpus_allowed r) (cpus_mask r) (migration_disabled r) (mdf_push r) (need_resched r)
    (pi_top_task r) (exec_start r) (sum_exec_runtime r) (uclamp_min r) (uclamp_max r)
    (time_slice r) (timeout r) (watchdog_stamp r) (cputimer_nextevt r) (on_list r) (on_rt_rq r).
Definition t_normal_prio (v : Z) (r : task) : task :=
  mk_task (prio r) v (policy r) (class r) (on_rq r) (cpu r) (on_cpu r) (nr_cpus_allowed r)
    (cpus_mask r) (migration_disabled r) (mdf_push r) (need_resched r) (pi_top_task r)
    (exec_start r) (sum_exec_runtime r) (uclamp_min r) (uclamp_max r) (time_slice r) (timeout r)
    (watchdog_stamp r) (cputimer_nextevt r) (on_list r) (on_rt_rq r).
Definition t_policy (v : Z) (r : task) : task :=
  mk_task (prio r) (normal_prio r) v (class r) (on_rq r) (cpu r) (on_cpu r) (nr_cpus_allowed r)
    (cpus_mask r) (migration_disabled r) (mdf_push r) (need_resched r) (pi_top_task r)
    (exec_start r) (sum_exec_runtime r) (uclamp_min r) (uclamp_max r) (time_slice r) (timeout r)
    (watchdog_stamp r) (cputimer_nextevt r) (on_list r) (on_rt_rq r).
Definition t_class (v : sched_class) (r : task) : task :=
  mk_task (prio r) (normal_prio r) (policy r) v (on_rq r) (cpu r) (on_cpu r) (nr_cpus_allowed r)
    (cpus_mask r) (migration_disabled r) (mdf_push r) (need_resched r) (pi_top_task r)
    (exec_start r) (sum_exec_runtime r) (uclamp_min r) (uclamp_max r) (time_slice r) (timeout r)
    (watchdog_stamp r) (cputimer_nextevt r) (on_list r) (on_rt_rq r).
Definition t_on_rq (v : Z) (r : task) : task :=
  mk_task (prio r) (normal_prio r) (policy r) (class r) v (cpu r) (on_cpu r) (nr_cpus_allowed r)
    (cpus_mask r) (migration_disabled r) (mdf_push r) (need_resched r) (pi_top_task r)
    (exec_start r) (sum_exec_runtime r) (uclamp_min r) (uclamp_max r) (time_slice r) (timeout r)
    (watchdog_stamp r) (cputimer_nextevt r) (on_list r) (on_rt_rq r).
Definition t_cpu (v : Z) (r : task) : task :=
  mk_task (prio r) (normal_prio r) (policy r) (class r) (on_rq r) v (on_cpu r)
    (nr_cpus_allowed r) (cpus_mask r) (migration_disabled r) (mdf_push r) (need_resched r)
    (pi_top_task r) (exec_start r) (sum_exec_runtime r) (uclamp_min r) (uclamp_max r)
    (time_slice r) (timeout r) (watchdog_stamp r) (cputimer_nextevt r) (on_list r) (on_rt_rq r).
Definition t_on_cpu (v : bool) (r : task) : task :=
  mk_task (prio r) (normal_prio r) (policy r) (class r) (on_rq r) (cpu r) v (nr_cpus_allowed r)
    (cpus_mask r) (migration_disabled r) (mdf_push r) (need_resched r) (pi_top_task r)
    (exec_start r) (sum_exec_runtime r) (uclamp_min r) (uclamp_max r) (time_slice r) (timeout r)
    (watchdog_stamp r) (cputimer_nextevt r) (on_list r) (on_rt_rq r).
Definition t_nr_cpus_allowed (v : Z) (r : task) : task :=
  mk_task (prio r) (normal_prio r) (policy r) (class r) (on_rq r) (cpu r) (on_cpu r) v
    (cpus_mask r) (migration_disabled r) (mdf_push r) (need_resched r) (pi_top_task r)
    (exec_start r) (sum_exec_runtime r) (uclamp_min r) (uclamp_max r) (time_slice r) (timeout r)
    (watchdog_stamp r) (cputimer_nextevt r) (on_list r) (on_rt_rq r).
Definition t_cpus_mask (v : Z) (r : task) : task :=
  mk_task (prio r) (normal_prio r) (policy r) (class r) (on_rq r) (cpu r) (on_cpu r)
    (nr_cpus_allowed r) v (migration_disabled r) (mdf_push r) (need_resched r) (pi_top_task r)
    (exec_start r) (sum_exec_runtime r) (uclamp_min r) (uclamp_max r) (time_slice r) (timeout r)
    (watchdog_stamp r) (cputimer_nextevt r) (on_list r) (on_rt_rq r).
Definition t_migration_disabled (v : bool) (r : task) : task :=
  mk_task (prio r) (normal_prio r) (policy r) (class r) (on_rq r) (cpu r) (on_cpu r)
    (nr_cpus_allowed r) (cpus_mask r) v (mdf_push r) (need_resched r) (pi_top_task r)
    (exec_start r) (sum_exec_runtime r) (uclamp_min r) (uclamp_max r) (time_slice r) (timeout r)
    (watchdog_stamp r) (cputimer_nextevt r) (on_list r) (on_rt_rq r).
Definition t_mdf_push (v : bool) (r : task) : task :=
  mk_task (prio r) (normal_prio r) (policy r) (class r) (on_rq r) (cpu r) (on_cpu r)
    (nr_cpus_allowed r) (cpus_mask r) (migration_disabled r) v (need_resched r) (pi_top_task r)
    (exec_start r) (sum_exec_runtime r) (uclamp_min r) (uclamp_max r) (time_slice r) (timeout r)
    (watchdog_stamp r) (cputimer_nextevt r) (on_list r) (on_rt_rq r).
Definition t_need_resched (v : bool) (r : task) : task :=
  mk_task (prio r) (normal_prio r) (policy r) (class r) (on_rq r) (cpu r) (on_cpu r)
    (nr_cpus_allowed r) (cpus_mask r) (migration_disabled r) (mdf_push r) v (pi_top_task r)
    (exec_start r) (sum_exec_runtime r) (uclamp_min r) (uclamp_max r) (time_slice r) (timeout r)
    (watchdog_stamp r) (cputimer_nextevt r) (on_list r) (on_rt_rq r).
Definition t_pi_top_task (v : option Z) (r : task) : task :=
  mk_task (prio r) (normal_prio r) (policy r) (class r) (on_rq r) (cpu r) (on_cpu r)
    (nr_cpus_allowed r) (cpus_mask r) (migration_disabled r) (mdf_push r) (need_resched r) v
    (exec_start r) (sum_exec_runtime r) (uclamp_min r) (uclamp_max r) (time_slice r) (timeout r)
    (watchdog_stamp r) (cputimer_nextevt r) (on_list r) (on_rt_rq r).
Definition t_exec_start (v : Z) (r : task) : task :=
  mk_task (prio r) (normal_prio r) (policy r) (class r) (on_rq r) (cpu r) (on_cpu r)
    (nr_cpus_allowed r) (cpus_mask r) (migration_disabled r) (mdf_push r) (need_resched r)
    (pi_top_task r) v (sum_exec_runtime r) (uclamp_min r) (uclamp_max r) (time_slice r)
    (timeout r) (watchdog_stamp r) (cputimer_nextevt r) (on_list r) (on_rt_rq r).
Definition t_sum_exec_runtime (v : Z) (r : task) : task :=
  mk_task (prio r) (normal_prio r) (policy r) (class r) (on_rq r) (cpu r) (on_cpu r)
    (nr_cpus_allowed r) (cpus_mask r) (migration_disabled r) (mdf_push r) (need_resched r)
    (pi_top_task r) (exec_start r) v (uclamp_min r) (uclamp_max r) (time_slice r) (timeout r)
    (watchdog_stamp r) (cputimer_nextevt r) (on_list r) (on_rt_rq r).
Definition t_time_slice (v : Z) (r : task) : task :=
  mk_task (prio r) (normal_prio r) (policy r) (class r) (on_rq r) (cpu r) (on_cpu r)
    (nr_cpus_allowed r) (cpus_mask r) (migration_disabled r) (mdf_push r) (need_resched r)
    (pi_top_task r) (exec_start r) (sum_exec_runtime r) (uclamp_min r) (uclamp_max r) v
    (timeout r) (watchdog_stamp r) (cputimer_nextevt r) (on_list r) (on_rt_rq r).
Definition t_timeout (v : Z) (r : task) : task :=
  mk_task (prio r) (normal_prio r) (policy r) (class r) (on_rq r) (cpu r) (on_cpu r)
    (nr_cpus_allowed r) (cpus_mask r) (migration_disabled r) (mdf_push r) (need_resched r)
    (pi_top_task r) (exec_start r) (sum_exec_runtime r) (uclamp_min r) (uclamp_max r)
    (time_slice r) v (watchdog_stamp r) (cputimer_nextevt r) (on_list r) (on_rt_rq r).
Definition t_watchdog_stamp (v : Z) (r : task) : task :=
  mk_task (prio r) (normal_prio r) (policy r) (class r) (on_rq r) (cpu r) (on_cpu r)
    (nr_cpus_allowed r) (cpus_mask r) (migration_disabled r) (mdf_push r) (need_resched r)
    (pi_top_task r) (exec_start r) (sum_exec_runtime r) (uclamp_min r) (uclamp_max r)
    (time_slice r) (timeout r) v (cputimer_nextevt r) (on_list r) (on_rt_rq r).
Definition t_cputimer_nextevt (v : Z) (r : task) : task :=
  mk_task (prio r) (normal_prio r) (policy r) (class r) (on_rq r) (cpu r) (on_cpu r)
    (nr_cpus_allowed r) (cpus_mask r) (migration_disabled r) (mdf_push r) (need_resched r)
    (pi_top_task r) (exec_start r) (sum_exec_runtime r) (uclamp_min r) (uclamp_max r)
    (time_slice r) (timeout r) (watchdog_stamp r) v (on_list r) (on_rt_rq r).
Definition t_on_list (v : bool) (r : task) : task :=
  mk_task (prio r) (normal_prio r) (policy r) (class r) (on_rq r) (cpu r) (on_cpu r)
    (nr_cpus_allowed r) (cpus_mask r) (migration_disabled r) (mdf_push r) (need_resched r)
    (pi_top_task r) (exec_start r) (sum_exec_runtime r) (uclamp_min r) (uclamp_max r)
    (time_slice r) (timeout r) (watchdog_stamp r) (cputimer_nextevt r) v (on_rt_rq r).
Definition t_on_rt_rq (v : bool) (r : task) : task :=
  mk_task (prio r) (normal_prio r) (policy r) (class r) (on_rq r) (cpu r) (on_cpu r)
    (nr_cpus_allowed r) (cpus_mask r) (migration_disabled r) (mdf_push r) (need_resched r)
    (pi_top_task r) (exec_start r) (sum_exec_runtime r) (uclamp_min r) (uclamp_max r)
    (time_slice r) (timeout r) (watchdog_stamp r) (cputimer_nextevt r) (on_list r) v.
Definition q_bitmap (v : Z) (r : rt_rq) : rt_rq :=
  mk_rt_rq v (queue r) (rt_nr_running r) (rr_nr_running r) (highest_curr r) (highest_next r)
    (rt_nr_migratory r) (rt_nr_total r) (overloaded r) (pushable_tasks r).
Definition q_queue (v : list (list Z)) (r : rt_rq) : rt_rq :=
  mk_rt_rq (bitmap r) v (rt_nr_running r) (rr_nr_running r) (highest_curr r) (highest_next r)
    (rt_nr_migratory r) (rt_nr_total r) (overloaded r) (pushable_tasks r).
Definition q_rt_nr_running (v : Z) (r : rt_rq) : rt_rq :=
  mk_rt_rq (bitmap r) (queue r) v (rr_nr_running r) (highest_curr r) (highest_next r)
    (rt_nr_migratory r) (rt_nr_total r) (overloaded r) (pushable_tasks r).
Definition q_rr_nr_running (v : Z) (r : rt_rq) : rt_rq :=
  mk_rt_rq (bitmap r) (queue r) (rt_nr_running r) v (highest_curr r) (highest_next r)
    (rt_nr_migratory r) (rt_nr_total r) (overloaded r) (pushable_tasks r).
Definition q_highest_curr (v : Z) (r : rt_rq) : rt_rq :=
  mk_rt_rq (bitmap r) (queue r) (rt_nr_running r) (rr_nr_running r) v (highest_next r)
    (rt_nr_migratory r) (rt_nr_total r) (overloaded r) (pushable_tasks r).
Definition q_highest_next (v : Z) (r : rt_rq) : rt_rq :=
  mk_rt_rq (bitmap r) (queue r) (rt_nr_running r) (rr_nr_running r) (highest_curr r) v
    (rt_nr_migratory r) (rt_nr_total r) (overloaded r) (pushable_tasks r).
Definition q_rt_nr_migratory (v : Z) (r : rt_rq) : rt_rq :=
  mk_rt_rq (bitmap r) (queue r) (rt_nr_running r) (rr_nr_running r) (highest_curr r)
    (highest_next r) v (rt_nr_total r) (overloaded r) (pushable_tasks r).
Definition q_rt_nr_total (v : Z) (r : rt_rq) : rt_rq :=
  mk_rt_rq (bitmap r) (queue r) (rt_nr_running r) (rr_nr_running r) (highest_curr r)
    (highest_next r) (rt_nr_migratory r) v (overloaded r) (pushable_tasks r).
Definition q_overloaded (v : bool) (r : rt_rq) : rt_rq :=
  mk_rt_rq (bitmap r) (queue r) (rt_nr_running r) (rr_nr_running r) (highest_curr r)
    (highest_next r) (rt_nr_migratory r) (rt_nr_total r) v (pushable_tasks r).
Definition q_pushable_tasks (v : Plist.plist_head) (r : rt_rq) : rt_rq :=
  mk_rt_rq (bitmap r) (queue r) (rt_nr_running r) (rr_nr_running r) (highest_curr r)
    (highest_next r) (rt_nr_migratory r) (rt_nr_total r) (overloaded r) v.
Definition r_rt (v : rt_rq) (r : rq) : rq :=
  mk_rq v (rt_queued r) (rt_throttled r) (rt_time r) (rt_runtime r) (rd r) (online r)
    (clock_task r) (curr r) (idle r) (nr_running r) (stop_runnable r) (dl r) (balance_callback r)
    (balance_push r) (push_busy r) (push_work r).
Definition r_rt_queued (v : bool) (r : rq) : rq :=
  mk_rq (rt r) v (rt_throttled r) (rt_time r) (rt_runtime r) (rd r) (online r) (clock_task r)
    (curr r) (idle r) (nr_running r) (stop_runnable r) (dl r) (balance_callback r) (balance_push r)
    (push_busy r) (push_work r).
Definition r_rt_throttled (v : bool) (r : rq) : rq :=
  mk_rq (rt r) (rt_queued r) v (rt_time r) (rt_runtime r) (rd r) (online r) (clock_task r)
    (curr r) (idle r) (nr_running r) (stop_runnable r) (dl r) (balance_callback r) (balance_push r)
    (push_busy r) (push_work r).
Definition r_rt_time (v : Z) (r : rq) : rq :=
  mk_rq (rt r) (rt_queued r) (rt_throttled r) v (rt_runtime r) (rd r) (online r) (clock_task r)
    (curr r) (idle r) (nr_running r) (stop_runnable r) (dl r) (balance_callback r) (balance_push r)
    (push_busy r) (push_work r).
Definition r_rt_runtime (v : Z) (r : rq) : rq :=
  mk_rq (rt r) (rt_queued r) (rt_throttled r) (rt_time r) v (rd r) (online r) (clock_task r)
    (curr r) (idle r) (nr_running r) (stop_runnable r) (dl r) (balance_callback r) (balance_push r)
    (push_busy r) (push_work r).
Definition r_rd (v : Z) (r : rq) : rq :=
  mk_rq (rt r) (rt_queued r) (rt_throttled r) (rt_time r) (rt_runtime r) v (online r)
    (clock_task r) (curr r) (idle r) (nr_running r) (stop_runnable r) (dl r) (balance_callback r)
    (balance_push r) (push_busy r) (push_work r).
Definition r_online (v : bool) (r : rq) : rq :=
  mk_rq (rt r) (rt_queued r) (rt_throttled r) (rt_time r) (rt_runtime r) (rd r) v (clock_task r)
    (curr r) (idle r) (nr_running r) (stop_runnable r) (dl r) (balance_callback r) (balance_push r)
    (push_busy r) (push_work r).
Definition r_clock_task (v : Z) (r : rq) : rq :=
  mk_rq (rt r) (rt_queued r) (rt_throttled r) (rt_time r) (rt_runtime r) (rd r) (online r) v
    (curr r) (idle r) (nr_running r) (stop_runnable r) (dl r) (balance_callback r) (balance_push r)
    (push_busy r) (push_work r).
Definition r_curr (v : Z) (r : rq) : rq :=
  mk_rq (rt r) (rt_queued r) (rt_throttled r) (rt_time r) (rt_runtime r) (rd r) (online r)
    (clock_task r) v (idle r) (nr_running r) (stop_runnable r) (dl r) (balance_callback r)
    (balance_push r) (push_busy r) (push_work r).
Definition r_nr_running (v : Z) (r : rq) : rq :=
  mk_rq (rt r) (rt_queued r) (rt_throttled r) (rt_time r) (rt_runtime r) (rd r) (online r)
    (clock_task r) (curr r) (idle r) v (stop_runnable r) (dl r) (balance_callback r) (balance_push r)
    (push_busy r) (push_work r).
Definition r_stop_runnable (v : bool) (r : rq) : rq :=
  mk_rq (rt r) (rt_queued r) (rt_throttled r) (rt_time r) (rt_runtime r) (rd r) (online r)
    (clock_task r) (curr r) (idle r) (nr_running r) v (dl r) (balance_callback r) (balance_push r)
    (push_busy r) (push_work r).
Definition r_dl (v : dl_rq) (r : rq) : rq :=
  mk_rq (rt r) (rt_queued r) (rt_throttled r) (rt_time r) (rt_runtime r) (rd r) (online r)
    (clock_task r) (curr r) (idle r) (nr_running r) (stop_runnable r) v (balance_callback r) (balance_push r)
    (push_busy r) (push_work r).
Definition r_balance_callback (v : list callback) (r : rq) : rq :=
  mk_rq (rt r) (rt_queued r) (rt_throttled r) (rt_time r) (rt_runtime r) (rd r) (online r)
    (clock_task r) (curr r) (idle r) (nr_running r) (stop_runnable r) (dl r) v (balance_push r)
    (push_busy r) (push_work r).
Definition r_push_busy (v : bool) (r : rq) : rq :=
  mk_rq (rt r) (rt_queued r) (rt_throttled r) (rt_time r) (rt_runtime r) (rd r) (online r)
    (clock_task r) (curr r) (idle r) (nr_running r) (stop_runnable r) (dl r) (balance_callback r)
    (balance_push r) v (push_work r).
Definition r_push_work (v : option Z) (r : rq) : rq :=
  mk_rq (rt r) (rt_queued r) (rt_throttled r) (rt_time r) (rt_runtime r) (rd r) (online r)
    (clock_task r) (curr r) (idle r) (nr_running r) (stop_runnable r) (dl r) (balance_callback r)
    (balance_push r) (push_busy r) v.
Definition d_span (v : Z) (r : root_domain) : root_domain :=
  mk_rd v (rd_cpupri r) (overload r) (rto_mask r) (rto_count r) (rto_loop r) (rto_cpu r)
    (rto_loop_next r) (rto_loop_start r) (rto_push_work r).
Definition d_rd_cpupri (v : Cpupri.cpupri) (r : root_domain) : root_domain :=
  mk_rd (span r) v (overload r) (rto_mask r) (rto_count r) (rto_loop r) (rto_cpu r)
    (rto_loop_next r) (rto_loop_start r) (rto_push_work r).
Definition d_overload (v : bool) (r : root_domain) : root_domain :=
  mk_rd (span r) (rd_cpupri r) v (rto_mask r) (rto_count r) (rto_loop r) (rto_cpu r)
    (rto_loop_next r) (rto_loop_start r) (rto_push_work r).
Definition d_rto_mask (v : Z) (r : root_domain) : root_domain :=
  mk_rd (span r) (rd_cpupri r) (overload r) v (rto_count r) (rto_loop r) (rto_cpu r)
    (rto_loop_next r) (rto_loop_start r) (rto_push_work r).
Definition d_rto_count (v : Z) (r : root_domain) : root_domain :=
  mk_rd (span r) (rd_cpupri r) (overload r) (rto_mask r) v (rto_loop r) (rto_cpu r)
    (rto_loop_next r) (rto_loop_start r) (rto_push_work r).
Definition d_rto_loop (v : Z) (r : root_domain) : root_domain :=
  mk_rd (span r) (rd_cpupri r) (overload r) (rto_mask r) (rto_count r) v (rto_cpu r)
    (rto_loop_next r) (rto_loop_start r) (rto_push_work r).
Definition d_rto_cpu (v : Z) (r : root_domain) : root_domain :=
  mk_rd (span r) (rd_cpupri r) (overload r) (rto_mask r) (rto_count r) (rto_loop r) v
    (rto_loop_next r) (rto_loop_start r) (rto_push_work r).
Definition d_rto_loop_next (v : Z) (r : root_domain) : root_domain :=
  mk_rd (span r) (rd_cpupri r) (overload r) (rto_mask r) (rto_count r) (rto_loop r) (rto_cpu r)
    v (rto_loop_start r) (rto_push_work r).
Definition d_rto_loop_start (v : Z) (r : root_domain) : root_domain :=
  mk_rd (span r) (rd_cpupri r) (overload r) (rto_mask r) (rto_count r) (rto_loop r) (rto_cpu r)
    (rto_loop_next r) v (rto_push_work r).
Definition d_rto_push_work (v : option Z) (r : root_domain) : root_domain :=
  mk_rd (span r) (rd_cpupri r) (overload r) (rto_mask r) (rto_count r) (rto_loop r) (rto_cpu r)
    (rto_loop_next r) (rto_loop_start r) v.
Definition b_rt_period (v : Z) (r : rt_bandwidth) : rt_bandwidth :=
  mk_b v (b_runtime r) (rt_period_active r) (rt_period_timer r).
Definition b_b_runtime (v : Z) (r : rt_bandwidth) : rt_bandwidth :=
  mk_b (rt_period r) v (rt_period_active r) (rt_period_timer r).
Definition b_rt_period_active (v : bool) (r : rt_bandwidth) : rt_bandwidth :=
  mk_b (rt_period r) (b_runtime r) v (rt_period_timer r).
Definition b_rt_period_timer (v : timer) (r : rt_bandwidth) : rt_bandwidth :=
  mk_b (rt_period r) (b_runtime r) (rt_period_active r) v.
Definition w_task_of (v : Z -> task) (r : world) : world :=
  mk_world v (cpu_rq r) (rd_of r) (def_rt_bandwidth r) (cpu_online_mask r) (cpu_active_mask r)
    (sysctl_sched_rt_period r) (sysctl_sched_rt_runtime r) (sysctl_sched_rr_timeslice r)
    (sched_rr_timeslice r).
Definition w_cpu_rq (v : Z -> rq) (r : world) : world :=
  mk_world (task_of r) v (rd_of r) (def_rt_bandwidth r) (cpu_online_mask r) (cpu_active_mask r)
    (sysctl_sched_rt_period r) (sysctl_sched_rt_runtime r) (sysctl_sched_rr_timeslice r)
    (sched_rr_timeslice r).
Definition w_rd_of (v : Z -> root_domain) (r : world) : world :=
  mk_world (task_of r) (cpu_rq r) v (def_rt_bandwidth r) (cpu_online_mask r) (cpu_active_mask r)
    (sysctl_sched_rt_period r) (sysctl_sched_rt_runtime r) (sysctl_sched_rr_timeslice r)
    (sched_rr_timeslice r).
Definition w_def_rt_bandwidth (v : rt_bandwidth) (r : world) : world :=
  mk_world (task_of r) (cpu_rq r) (rd_of r) v (cpu_online_mask r) (cpu_active_mask r)
    (sysctl_sched_rt_period r) (sysctl_sched_rt_runtime r) (sysctl_sched_rr_timeslice r)
    (sched_rr_timeslice r).
Definition w_cpu_online_mask (v : Z) (r : world) : world :=
  mk_world (task_of r) (cpu_rq r) (rd_of r) (def_rt_bandwidth r) v (cpu_active_mask r)
    (sysctl_sched_rt_period r) (sysctl_sched_rt_runtime r) (sysctl_sched_rr_timeslice r)
    (sched_rr_timeslice r).
Definition w_cpu_active_mask (v : Z) (r : world) : world :=
  mk_world (task_of r) (cpu_rq r) (rd_of r) (def_rt_bandwidth r) (cpu_online_mask r) v
    (sysctl_sched_rt_period r) (sysctl_sched_rt_runtime r) (sysctl_sched_rr_timeslice r)
    (sched_rr_timeslice r).
Definition w_sysctl_sched_rt_period (v : Z) (r : world) : world :=
  mk_world (task_of r) (cpu_rq r) (rd_of r) (def_rt_bandwidth r) (cpu_online_mask r)
    (cpu_active_mask r) v (sysctl_sched_rt_runtime r) (sysctl_sched_rr_timeslice r)
    (sched_rr_timeslice r).
Definition w_sysctl_sched_rt_runtime (v : Z) (r : world) : world :=
  mk_world (task_of r) (cpu_rq r) (rd_of r) (def_rt_bandwidth r) (cpu_online_mask r)
    (cpu_active_mask r) (sysctl_sched_rt_period r) v (sysctl_sched_rr_timeslice r)
    (sched_rr_timeslice r).
Definition w_sysctl_sched_rr_timeslice (v : Z) (r : world) : world :=
  mk_world (task_of r) (cpu_rq r) (rd_of r) (def_rt_bandwidth r) (cpu_online_mask r)
    (cpu_active_mask r) (sysctl_sched_rt_period r) (sysctl_sched_rt_runtime r) v
    (sched_rr_timeslice r).
Definition w_sched_rr_timeslice (v : Z) (r : world) : world :=
  mk_world (task_of r) (cpu_rq r) (rd_of r) (def_rt_bandwidth r) (cpu_online_mask r)
    (cpu_active_mask r) (sysctl_sched_rt_period r) (sysctl_sched_rt_runtime r)
    (sysctl_sched_rr_timeslice r) v.

(** *** Access *)

Definition on_task (w : world) (p : Z) (f : task -> task) : world :=
  w_task_of (upd (task_of w) p (f (task_of w p))) w.
Definition on_rq_of (w : world) (c : Z) (f : rq -> rq) : world :=
  w_cpu_rq (upd (cpu_rq w) c (f (cpu_rq w c))) w.
Definition on_rt (w : world) (c : Z) (f : rt_rq -> rt_rq) : world :=
  on_rq_of w c (fun q => r_rt (f (rt q)) q).
Definition on_rd (w : world) (d : Z) (f : root_domain -> root_domain) : world :=
  w_rd_of (upd (rd_of w) d (f (rd_of w d))) w.
Definition on_b (w : world) (f : rt_bandwidth -> rt_bandwidth) : world :=
  w_def_rt_bandwidth (f (def_rt_bandwidth w)) w.

(** The run queue's part of the class and its root domain. *)
Definition rtq (w : world) (c : Z) : rt_rq := rt (cpu_rq w c).
Definition rdq (w : world) (c : Z) : root_domain := rd_of w (rd (cpu_rq w c)).
Definition on_rdq (w : world) (c : Z) (f : root_domain -> root_domain) : world :=
  on_rd w (rd (cpu_rq w c)) f.

Definition rt_prio (prio : Z) : bool := prio <? MAX_RT_PRIO.
Definition rt_task (t : task) : bool := rt_prio (prio t).
Definition is_rt (t : task) : bool := bool_decide (class t = rt_sched_class).
Definition task_on_rq_queued (t : task) : bool := on_rq t =? TASK_ON_RQ_QUEUED.
Definition resched_curr (w : world) (c : Z) : world :=
  on_task w (curr (cpu_rq w c)) (t_need_resched true).
Definition rt_bandwidth_enabled (w : world) : bool := 0 <=? sysctl_sched_rt_runtime w.
Definition global_rt_period (w : world) : Z := sysctl_sched_rt_period w *u64 NSEC_PER_USEC.
Definition global_rt_runtime (w : world) : Z :=
  if sysctl_sched_rt_runtime w <? 0 then RUNTIME_INF
  else sysctl_sched_rt_runtime w *u64 NSEC_PER_USEC.

(** [queue_balance_callback]: the list is the order in which the callbacks will
    run; [head->next] is set when the head is queued before the last position. *)
Definition queue_balance_callback (cb : callback) (q : rq) : rq :=
  if bool_decide (cb ∈ removelast (balance_callback q)) || balance_push q then q
  else r_balance_callback (cb :: balance_callback q) q.

(** *** The limit *)

Definition init_rt_bandwidth (period runtime : Z) (b : rt_bandwidth) : rt_bandwidth :=
  b_b_runtime runtime (b_rt_period period b).

Definition do_start_rt_bandwidth (w : world) : world :=
  if rt_period_active (def_rt_bandwidth w) then w
  else on_b w (fun b => b_rt_period_timer (hrtimer_kick (rt_period_timer b)) (b_rt_period_active true b)).

Definition start_rt_bandwidth (w : world) : world :=
  if negb (rt_bandwidth_enabled w) || (b_runtime (def_rt_bandwidth w) =? RUNTIME_INF) then w
  else do_start_rt_bandwidth w.

Definition init_rt_rq (q : rq) : rq :=
  let q := r_rt (mk_rt_rq (Z.setbit 0 MAX_RT_PRIO) (replicate (Z.to_nat MAX_RT_PRIO) [])
                  (rt_nr_running (rt q)) (rr_nr_running (rt q)) (MAX_RT_PRIO - 1) (MAX_RT_PRIO - 1) 0
                  (rt_nr_total (rt q)) false Plist.plist_head_init) q in
  r_rt_runtime 0 (r_rt_throttled false (r_rt_time 0 (r_rt_queued false q))).

(** *** Overload and pushable tasks *)

Definition need_pull_rt_task (q : rq) (prev : task) : bool :=
  online q && (prio prev <? highest_curr (rt q)).

Definition rt_overloaded (w : world) (c : Z) : Z := rto_count (rdq w c).

Definition rt_set_overload (w : world) (c : Z) : world :=
  if online (cpu_rq w c) then
    on_rdq w c (fun d => d_rto_count (rto_count d + 1) (d_rto_mask (mask_set (rto_mask d) c) d))
  else w.

Definition rt_clear_overload (w : world) (c : Z) : world :=
  if online (cpu_rq w c) then
    on_rdq w c (fun d => d_rto_mask (mask_clear (rto_mask d) c) (d_rto_count (rto_count d - 1) d))
  else w.

Definition update_rt_migration (w : world) (c : Z) : world :=
  let q := rtq w c in
  if negb (rt_nr_migratory q =? 0) && (1 <? rt_nr_total q) then
    if overloaded q then w else on_rt (rt_set_overload w c) c (q_overloaded true)
  else if overloaded q then on_rt (rt_clear_overload w c) c (q_overloaded false)
  else w.

Definition inc_rt_migration (w : world) (p c : Z) : world :=
  let w := on_rt w c (fun q => q_rt_nr_total (rt_nr_total q +u32 1) q) in
  let w := if 1 <? nr_cpus_allowed (task_of w p)
           then on_rt w c (fun q => q_rt_nr_migratory (rt_nr_migratory q +u32 1) q) else w in
  update_rt_migration w c.

Definition dec_rt_migration (w : world) (p c : Z) : world :=
  let w := on_rt w c (fun q => q_rt_nr_total (rt_nr_total q -u32 1) q) in
  let w := if 1 <? nr_cpus_allowed (task_of w p)
           then on_rt w c (fun q => q_rt_nr_migratory (rt_nr_migratory q -u32 1) q) else w in
  update_rt_migration w c.

Definition has_pushable_tasks (q : rq) : bool :=
  negb (Plist.plist_head_empty (pushable_tasks (rt q))).

Definition rt_queue_push_tasks (w : world) (c : Z) : world :=
  if has_pushable_tasks (cpu_rq w c) then on_rq_of w c (queue_balance_callback PushRt) else w.
Definition rt_queue_pull_task (w : world) (c : Z) : world :=
  on_rq_of w c (queue_balance_callback PullRt).

(** The node of task [p]: it carries the priority it was last initialised with.  A node
    that is on no list is deleted without effect. *)
Definition plist_remove (p : Z) (h : Plist.plist_head) : Plist.plist_head :=
  match List.find (fun n => Plist.id n =? p) (Plist.node_list h) with
  | Some n => Plist.plist_del n h
  | None => h
  end.

Definition enqueue_pushable_task (w : world) (c p : Z) : world :=
  let pr := prio (task_of w p) in
  on_rt w c (fun q =>
    let q := q_pushable_tasks (Plist.plist_add (Plist.mk_node p pr) (plist_remove p (pushable_tasks q))) q in
    if pr <? highest_next q then q_highest_next pr q else q).

(** The priority of the first task is read from the task. *)
Definition dequeue_pushable_task (w : world) (c p : Z) : world :=
  on_rt w c (fun q =>
    let q := q_pushable_tasks (plist_remove p (pushable_tasks q)) q in
    match Plist.plist_first (pushable_tasks q) with
    | Some n => q_highest_next (prio (task_of w (Plist.id n))) q
    | None => q_highest_next (MAX_RT_PRIO - 1) q
    end).

Definition rt_task_fits_capacity (t : task) (c : Z) : bool :=
  negb sched_asym_cpucap_active || (Z.min (uclamp_min t) (uclamp_max t) <=? u32 (capacity_orig_of c)).

(** *** The run queue's share of all tasks *)

Definition add_nr_running (w : world) (c count : Z) : world :=
  let prev_nr := nr_running (cpu_rq w c) in
  let w := on_rq_of w c (r_nr_running (prev_nr +u32 count)) in
  if (prev_nr <? 2) && (2 <=? nr_running (cpu_rq w c)) then on_rdq w c (d_overload true) else w.

Definition sub_nr_running (w : world) (c count : Z) : world :=
  on_rq_of w c (fun q => r_nr_running (nr_running q -u32 count) q).

(** A [BUG_ON] that fires is [None]. *)
Definition dequeue_top_rt_rq (w : world) (c count : Z) : option world :=
  if negb (rt_queued (cpu_rq w c)) then Some w
  else if nr_running (cpu_rq w c) =? 0 then None
  else Some (on_rq_of (sub_nr_running w c count) c (r_rt_queued false)).

Definition enqueue_top_rt_rq (w : world) (c : Z) : world :=
  if rt_queued (cpu_rq w c) then w
  else if rt_throttled (cpu_rq w c) then w
  else if negb (rt_nr_running (rtq w c) =? 0)
  then on_rq_of (add_nr_running w c (rt_nr_running (rtq w c))) c (r_rt_queued true)
  else w.

Definition sched_rt_rq_enqueue (w : world) (c : Z) : world :=
  if rt_nr_running (rtq w c) =? 0 then w
  else resched_curr (enqueue_top_rt_rq w c) c.

Definition sched_rt_rq_dequeue (w : world) (c : Z) : option world :=
  dequeue_top_rt_rq w c (rt_nr_running (rtq w c)).

(** *** Runtime *)

Definition sched_rt_bandwidth_account (w : world) (c : Z) : bool :=
  hrtimer_active (rt_period_timer (def_rt_bandwidth w)) ||
  (rt_time (cpu_rq w c) <? b_runtime (def_rt_bandwidth w)).

Definition cpumask_weight (mask : Z) : Z := Z.of_nat (length (mask_bits nr_cpu_ids mask)).

(** The loop of [do_balance_runtime]; a division by zero is [None]. *)
Fixpoint borrow_loop (w : world) (c weight period : Z) (cpus : list Z) : option world :=
  match cpus with
  | [] => Some w
  | i :: cpus =>
      let iter := cpu_rq w i in
      if (i =? c) || (rt_runtime iter =? RUNTIME_INF) then borrow_loop w c weight period cpus
      else
        let diff := s64 (rt_runtime iter - rt_time iter) in
        if 0 <? diff then
          if weight =? 0 then None
          else
            let diff := diff / weight in
            let mine := rt_runtime (cpu_rq w c) in
            let diff := if period <? (mine +u64 diff) then s64 (period - mine) else diff in
            let w := on_rq_of w i (fun q => r_rt_runtime (rt_runtime q -u64 diff) q) in
            let w := on_rq_of w c (fun q => r_rt_runtime (rt_runtime q +u64 diff) q) in
            if rt_runtime (cpu_rq w c) =? period then Some w
            else borrow_loop w c weight period cpus
        else borrow_loop w c weight period cpus
  end.

Definition do_balance_runtime (w : world) (c : Z) : option world :=
  let span := span (rdq w c) in
  borrow_loop w c (cpumask_weight span) (rt_period (def_rt_bandwidth w)) (mask_bits nr_cpu_ids span).

(** The greedy loop of [__disable_runtime]: the world and what is still wanted. *)
Fixpoint reclaim_loop (w : world) (c want : Z) (cpus : list Z) : world * Z :=
  match cpus with
  | [] => (w, want)
  | i :: cpus =>
      if (i =? c) || (rt_runtime (cpu_rq w i) =? RUNTIME_INF) then reclaim_loop w c want cpus
      else
        let diff := if 0 <? want then Z.min (s64 (rt_runtime (cpu_rq w i))) want else want in
        let w := on_rq_of w i (fun q => r_rt_runtime (rt_runtime q -u64 diff) q) in
        let want := s64 (want - diff) in
        if want =? 0 then (w, want) else reclaim_loop w c want cpus
  end.

(** The world and the final [want], which the code warns about when it is not zero. *)
Definition disable_reclaim (w : world) (c : Z) : world * Z :=
  let q := cpu_rq w c in
  if (rt_runtime q =? RUNTIME_INF) || (rt_runtime q =? b_runtime (def_rt_bandwidth w)) then (w, 0)
  else reclaim_loop w c (s64 (b_runtime (def_rt_bandwidth w) - rt_runtime q))
         (mask_bits nr_cpu_ids (span (rdq w c))).

(** [scheduler_running] is set. *)
Definition __disable_runtime (w : world) (c : Z) : world :=
  let '(w, _) := disable_reclaim w c in
  let w := on_rq_of w c (fun q => r_rt_throttled false (r_rt_runtime RUNTIME_INF q)) in
  sched_rt_rq_enqueue w c.

Definition __enable_runtime (w : world) (c : Z) : world :=
  on_rq_of w c (fun q => r_rt_throttled false (r_rt_time 0
    (r_rt_runtime (b_runtime (def_rt_bandwidth w)) q))).

Definition balance_runtime (w : world) (c : Z) : option world :=
  if negb RT_RUNTIME_SHARE then Some w
  else if rt_runtime (cpu_rq w c) <? rt_time (cpu_rq w c) then do_balance_runtime w c
  else Some w.

(** The part of [do_sched_rt_period_timer] for a CPU that has consumed runtime; the
    result is the world and [enqueue]. *)
Definition replenish_rt (w : world) (i overrun : Z) : option (world * bool) :=
  w ← (if rt_throttled (cpu_rq w i) then balance_runtime w i else Some w);
  let runtime := rt_runtime (cpu_rq w i) in
  let w := on_rq_of w i (fun q =>
             r_rt_time (rt_time q -u64 Z.min (rt_time q) (overrun *u64 runtime)) q) in
  if rt_throttled (cpu_rq w i) && (rt_time (cpu_rq w i) <? runtime)
  then Some (on_rq_of w i (r_rt_throttled false), true) else Some (w, false).

(** One round of its loop: the world, [idle] and [throttled]. *)
Definition period_cpu (w : world) (i overrun : Z) (idle throttled : bool)
  : option (world * bool * bool) :=
  let rt_b := def_rt_bandwidth w in
  let w := if negb RT_RUNTIME_SHARE && negb (rt_runtime (cpu_rq w i) =? RUNTIME_INF)
           then on_rq_of w i (r_rt_runtime (b_runtime rt_b)) else w in
  let nr := rt_nr_running (rtq w i) in
  if (rt_time (cpu_rq w i) =? 0) && (nr =? 0) then Some (w, idle, throttled)
  else
    '(w, idle, enqueue) ←
      (if negb (rt_time (cpu_rq w i) =? 0) then
         '(w, enqueue) ← replenish_rt w i overrun;
         Some (w, if negb (rt_time (cpu_rq w i) =? 0) || negb (nr =? 0) then false else idle,
               enqueue : bool)
       else if negb (nr =? 0) then Some (w, false, negb (rt_throttled (cpu_rq w i)))
       else Some (w, idle, false));
    let throttled := throttled || rt_throttled (cpu_rq w i) in
    Some (if enqueue : bool then sched_rt_rq_enqueue w i else w, idle, throttled).

Fixpoint period_loop (w : world) (overrun : Z) (cpus : list Z) (idle throttled : bool)
  : option (world * bool * bool) :=
  match cpus with
  | [] => Some (w, idle, throttled)
  | i :: cpus =>
      '(w, idle, throttled) ← period_cpu w i overrun idle throttled;
      period_loop w overrun cpus idle throttled
  end.

Definition do_sched_rt_period_timer (w : world) (overrun : Z) : option (world * bool) :=
  '(w, idle, throttled) ← period_loop w overrun (mask_bits nr_cpu_ids (cpu_online_mask w)) true false;
  if negb throttled && (negb (rt_bandwidth_enabled w) || (b_runtime (def_rt_bandwidth w) =? RUNTIME_INF))
  then Some (w, true) else Some (w, idle : bool).

(** [overruns] are the results of [hrtimer_forward_now] until the first zero. *)
Fixpoint period_timer_loop (w : world) (overruns : list Z) (idle : bool) : option (world * bool) :=
  match overruns with
  | [] => Some (w, idle)
  | overrun :: overruns =>
      if overrun =? 0 then Some (w, idle)
      else '(w, idle) ← do_sched_rt_period_timer w overrun; period_timer_loop w overruns idle
  end.

(** The world and whether the timer is restarted. *)
Definition sched_rt_period_timer (w : world) (overruns : list Z) : option (world * bool) :=
  '(w, idle) ← period_timer_loop w overruns false;
  Some (if idle : bool then on_b w (b_rt_period_active false) else w, negb idle).

Definition sched_rt_runtime_exceeded (w : world) (c : Z) : option (world * bool) :=
  let runtime := rt_runtime (cpu_rq w c) in
  if rt_throttled (cpu_rq w c) then Some (w, true)
  else if rt_period (def_rt_bandwidth w) <=? runtime then Some (w, false)
  else
    w ← balance_runtime w c;
    let runtime := rt_runtime (cpu_rq w c) in
    if runtime =? RUNTIME_INF then Some (w, false)
    else if runtime <? rt_time (cpu_rq w c) then
      let w := if negb (b_runtime (def_rt_bandwidth w) =? 0)
               then on_rq_of w c (r_rt_throttled true) else on_rq_of w c (r_rt_time 0) in
      if rt_throttled (cpu_rq w c) then w ← sched_rt_rq_dequeue w c; Some (w, true)
      else Some (w, false)
    else Some (w, false).

Definition update_curr_rt (w : world) (c : Z) : option world :=
  let p := curr (cpu_rq w c) in
  if negb (is_rt (task_of w p)) then Some w
  else
    let now := clock_task (cpu_rq w c) in
    let delta_exec := now -u64 exec_start (task_of w p) in
    if s64 delta_exec <=? 0 then Some w
    else
      let w := on_task w p (fun t => t_exec_start now
                 (t_sum_exec_runtime (sum_exec_runtime t +u64 delta_exec) t)) in
      if negb (rt_bandwidth_enabled w) then Some w
      else
        let i := cpu (task_of w p) in
        if rt_runtime (cpu_rq w i) =? RUNTIME_INF then Some w
        else
        let w := on_rq_of w i (fun q => r_rt_time (rt_time q +u64 delta_exec) q) in
        '(w, exceeded) ← sched_rt_runtime_exceeded w i;
        Some (if exceeded : bool then do_start_rt_bandwidth (resched_curr w c) else w).

(** *** Queues *)

(** [sched_find_first_bit]; it is not defined on an empty bitmap. *)
Definition sched_find_first_bit (bitmap : Z) : option Z :=
  List.find (Z.testbit bitmap) (seqZ 0 128).

Definition inc_rt_prio_smp (w : world) (c prio prev_prio : Z) : option world :=
  if online (cpu_rq w c) && (prio <? prev_prio) then
    cp ← Cpupri.cpupri_set (rd_cpupri (rdq w c)) c prio; Some (on_rdq w c (d_rd_cpupri cp))
  else Some w.

Definition dec_rt_prio_smp (w : world) (c prev_prio : Z) : option world :=
  if online (cpu_rq w c) && negb (highest_curr (rtq w c) =? prev_prio) then
    cp ← Cpupri.cpupri_set (rd_cpupri (rdq w c)) c (highest_curr (rtq w c));
    Some (on_rdq w c (d_rd_cpupri cp))
  else Some w.

Definition inc_rt_prio (w : world) (c prio : Z) : option world :=
  let prev_prio := highest_curr (rtq w c) in
  let w := if prio <? prev_prio then on_rt w c (q_highest_curr prio) else w in
  inc_rt_prio_smp w c prio prev_prio.

Definition dec_rt_prio (w : world) (c prio : Z) : option world :=
  let prev_prio := highest_curr (rtq w c) in
  w ← (if negb (rt_nr_running (rtq w c) =? 0) then
         if prio =? prev_prio then
           first ← sched_find_first_bit (bitmap (rtq w c)); Some (on_rt w c (q_highest_curr first))
         else Some w
       else Some (on_rt w c (q_highest_curr (MAX_RT_PRIO - 1))));
  dec_rt_prio_smp w c prev_prio.

Definition inc_rt_group (w : world) : world := start_rt_bandwidth w.

Definition rt_se_rr_nr_running (t : task) : Z := if policy t =? SCHED_RR then 1 else 0.

Definition inc_rt_tasks (w : world) (p c : Z) : option world :=
  let t := task_of w p in
  let w := on_rt w c (fun q => q_rr_nr_running (rr_nr_running q +u32 rt_se_rr_nr_running t)
                                 (q_rt_nr_running (rt_nr_running q +u32 1) q)) in
  w ← inc_rt_prio w c (prio t);
  Some (inc_rt_group (inc_rt_migration w p c)).

Definition dec_rt_tasks (w : world) (p c : Z) : option world :=
  let t := task_of w p in
  let w := on_rt w c (fun q => q_rr_nr_running (rr_nr_running q -u32 rt_se_rr_nr_running t)
                                 (q_rt_nr_running (rt_nr_running q -u32 1) q)) in
  w ← dec_rt_prio w c (prio t);
  Some (dec_rt_migration w p c).

Definition move_entity (flags : Z) : bool :=
  negb (Z.land flags (Z.lor DEQUEUE_SAVE DEQUEUE_MOVE) =? DEQUEUE_SAVE).

(** [list_del_init] of the entity: a node that is on no list points to itself. *)
Definition list_del_init (p : Z) (queues : list (list Z)) : list (list Z) :=
  map (List.filter (fun x => negb (x =? p))) queues.

Definition __delist_rt_entity (w : world) (p : Z) : option world :=
  let t := task_of w p in
  let queues := list_del_init p (queue (rtq w (cpu t))) in
  l ← aref queues (prio t);
  let w := on_rt w (cpu t) (fun q =>
             let q := q_queue queues q in
             match l with [] => q_bitmap (Z.clearbit (bitmap q) (prio t)) q | _ => q end) in
  Some (on_task w p (t_on_list false)).

(** The insertion of a node that is on a list already would corrupt both lists: it is
    [None]. *)
Definition enlist_rt_entity (w : world) (p flags : Z) : option world :=
  let t := task_of w p in
  let q := rtq w (cpu t) in
  if on_list t then None
  else
    l ← aref (queue q) (prio t);
    queues ← aset (queue q) (prio t) (if has flags ENQUEUE_HEAD then p :: l else l ++ [p]);
    let w := on_rt w (cpu t) (fun q => q_bitmap (Z.setbit (bitmap q) (prio t)) (q_queue queues q)) in
    Some (on_task w p (t_on_list true)).

Definition __enqueue_rt_entity (w : world) (p flags : Z) : option world :=
  w ← (if move_entity flags then enlist_rt_entity w p flags else Some w);
  let w := on_task w p (t_on_rt_rq true) in
  inc_rt_tasks w p (cpu (task_of w p)).

Definition __dequeue_rt_entity (w : world) (p flags : Z) : option world :=
  w ← (if move_entity flags then __delist_rt_entity w p else Some w);
  let w := on_task w p (t_on_rt_rq false) in
  dec_rt_tasks w p (cpu (task_of w p)).

Definition dequeue_rt_stack (w : world) (p flags : Z) : option world :=
  let c := cpu (task_of w p) in
  let nr := rt_nr_running (rtq w c) in
  w ← (if on_rt_rq (task_of w p) then __dequeue_rt_entity w p flags else Some w);
  dequeue_top_rt_rq w c nr.

Definition enqueue_rt_entity (w : world) (p flags : Z) : option world :=
  w ← dequeue_rt_stack w p flags;
  w ← __enqueue_rt_entity w p flags;
  Some (enqueue_top_rt_rq w (cpu (task_of w p))).

Definition dequeue_rt_entity (w : world) (p flags : Z) : option world :=
  w ← dequeue_rt_stack w p flags;
  Some (enqueue_top_rt_rq w (cpu (task_of w p))).

Definition enqueue_task_rt (w : world) (c p flags : Z) : option world :=
  let w := if has flags ENQUEUE_WAKEUP then on_task w p (t_timeout 0) else w in
  w ← enqueue_rt_entity w p flags;
  if negb (curr (cpu_rq w c) =? p) && (1 <? nr_cpus_allowed (task_of w p))
  then Some (enqueue_pushable_task w c p) else Some w.

Definition dequeue_task_rt (w : world) (c p flags : Z) : option world :=
  w ← update_curr_rt w c;
  w ← dequeue_rt_entity w p flags;
  Some (dequeue_pushable_task w c p).

Definition requeue_rt_entity (w : world) (c p : Z) (head : bool) : option world :=
  let t := task_of w p in
  if on_rt_rq t then
    let queues := list_del_init p (queue (rtq w c)) in
    l ← aref queues (prio t);
    queues ← aset queues (prio t) (if head then p :: l else l ++ [p]);
    Some (on_rt w c (q_queue queues))
  else Some w.

Definition requeue_task_rt (w : world) (p : Z) (head : bool) : option world :=
  requeue_rt_entity w (cpu (task_of w p)) p head.

Definition yield_task_rt (w : world) (c : Z) : option world :=
  requeue_task_rt w (curr (cpu_rq w c)) false.

(** *** Preemption and picking *)

Definition find_cpupri (w : world) (c : Z) (t : task) (mask : option Z) : option (bool * option Z) :=
  Cpupri.cpupri_find nr_cpu_ids (cpu_active_mask w) (rd_cpupri (rdq w c)) (prio t) (cpus_mask t) mask.

Definition check_preempt_equal_prio (w : world) (c p : Z) : option world :=
  let tc := task_of w (curr (cpu_rq w c)) in
  let t := task_of w p in
  if nr_cpus_allowed tc =? 1 then Some w
  else
    '(found, _) ← find_cpupri w c tc None;
    if negb found then Some w
    else
      '(found, _) ← (if negb (nr_cpus_allowed t =? 1) then find_cpupri w c t None
                     else Some (false, None));
      if found : bool then Some w
      else w ← requeue_task_rt w p true; Some (resched_curr w c).

Definition check_preempt_curr_rt (w : world) (c p : Z) : option world :=
  let tc := task_of w (curr (cpu_rq w c)) in
  let t := task_of w p in
  if prio t <? prio tc then Some (resched_curr w c)
  else if (prio t =? prio tc) && negb (need_resched tc) then check_preempt_equal_prio w c p
  else Some w.

Definition set_next_task_rt (w : world) (c p : Z) (first : bool) : world :=
  let w := on_task w p (t_exec_start (clock_task (cpu_rq w c))) in
  let w := dequeue_pushable_task w c p in
  if first then rt_queue_push_tasks w c else w.

(** A null pointer is [None] of the inner option. *)
Definition pick_next_rt_entity (q : rt_rq) : option (option Z) :=
  idx ← sched_find_first_bit (bitmap q);
  if MAX_RT_PRIO <=? idx then None
  else l ← aref (queue q) idx; Some (head l).

Definition sched_dl_runnable (q : rq) : bool := 0 <? dl_nr_running (dl q).
Definition sched_rt_runnable (q : rq) : bool := rt_queued q.

Definition _pick_next_task_rt (w : world) (c : Z) : option (option Z) := pick_next_rt_entity (rtq w c).

Definition pick_task_rt (w : world) (c : Z) : option (option Z) :=
  if negb (sched_rt_runnable (cpu_rq w c)) then Some None else _pick_next_task_rt w c.

Definition pick_next_task_rt (w : world) (c : Z) : option (world * option Z) :=
  r ← pick_task_rt w c;
  match r with
  | Some p => Some (set_next_task_rt w c p true, Some p)
  | None => Some (w, None)
  end.

Definition put_prev_task_rt (w : world) (c p : Z) : option world :=
  w ← update_curr_rt w c;
  if on_rt_rq (task_of w p) && (1 <? nr_cpus_allowed (task_of w p))
  then Some (enqueue_pushable_task w c p) else Some w.

(** *** Searching for a CPU *)

Definition pick_rt_task (t : task) (c : Z) : bool := negb (on_cpu t) && mask_test (cpus_mask t) c.

Definition pick_highest_pushable_task (w : world) (src c : Z) : option Z :=
  if negb (has_pushable_tasks (cpu_rq w src)) then None
  else List.find (fun p => pick_rt_task (task_of w p) c)
         (map Plist.id (Plist.node_list (pushable_tasks (rtq w src)))).

(** The [for_each_domain] loop of [find_lowest_rq]: [None] when no domain decides. *)
Fixpoint scan_domains (this_cpu lowest_mask : Z) (sds : list (bool * Z)) : option Z :=
  match sds with
  | [] => None
  | (wake_affine, sd_span) :: sds =>
      if wake_affine then
        if negb (this_cpu =? -1) && mask_test sd_span this_cpu then Some this_cpu
        else
          let best_cpu := cpumask_any_and_distribute lowest_mask sd_span in
          if best_cpu <? nr_cpu_ids then Some best_cpu else scan_domains this_cpu lowest_mask sds
      else scan_domains this_cpu lowest_mask sds
  end.

(** The choice of a CPU of the mask the search has built. *)
Definition choose_cpu (this c lowest_mask : Z) : Z :=
  if mask_test lowest_mask c then c
  else
    let this_cpu := if mask_test lowest_mask this then this else -1 in
    match scan_domains this_cpu lowest_mask (sched_domains c) with
    | Some i => i
    | None =>
        if negb (this_cpu =? -1) then this_cpu
        else
          let i := cpumask_any_distribute lowest_mask in
          if i <? nr_cpu_ids then i else -1
    end.

(** [this] is [smp_processor_id()]. *)
Definition find_lowest_rq (w : world) (this p : Z) : option Z :=
  let t := task_of w p in
  let c := cpu t in
  if nr_cpus_allowed t =? 1 then Some (-1)
  else
    '(found, mask) ←
      (if sched_asym_cpucap_active
       then Cpupri.cpupri_find_fitness nr_cpu_ids (cpu_active_mask w) (rd_cpupri (rdq w c)) (prio t)
              (cpus_mask t) (Some 0) (Some (rt_task_fits_capacity t))
       else find_cpupri w c t (Some 0));
    if negb found then Some (-1)
    else lowest_mask ← mask; Some (choose_cpu this c lowest_mask).

(** [WF_TTWU] or [WF_FORK] is set in the flags exactly when [wake] is. *)
Definition select_task_rq_rt (w : world) (this p c : Z) (wake : bool) : option Z :=
  if negb wake then Some c
  else
    let t := task_of w p in
    let tc := task_of w (curr (cpu_rq w c)) in
    let test := rt_task tc && ((nr_cpus_allowed tc <? 2) || (prio tc <=? prio t)) in
    if test || negb (rt_task_fits_capacity t c) then
      target ← find_lowest_rq w this p;
      if negb test && negb (target =? -1) && negb (rt_task_fits_capacity t target) then Some c
      else if negb (target =? -1) && (prio t <? highest_curr (rtq w target)) then Some target
      else Some c
    else Some c.

(** With the locks held the first candidate decides.  When [double_lock_balance] dropped
    the lock, the task is looked at again. *)
Definition find_lock_lowest_rq (w : world) (this p c : Z) : option (option Z) :=
  i ← find_lowest_rq w this p;
  let t := task_of w p in
  if (i =? -1) || (i =? c) then Some None
  else if highest_curr (rtq w i) <=? prio t then Some None
  else if double_lock_balance &&
          (negb (cpu t =? c) || negb (mask_test (cpus_mask t) i) || on_cpu t || negb (rt_task t) ||
           migration_disabled t || negb (task_on_rq_queued t))
  then Some None
  else Some (Some i).

(** *** Class dispatch *)

(** Only the real-time class is part of the model: for a task of another class these
    calls change nothing here. *)
Definition enqueue_task (w : world) (c p flags : Z) : option world :=
  if is_rt (task_of w p) then enqueue_task_rt w c p flags else Some w.
Definition dequeue_task (w : world) (c p flags : Z) : option world :=
  if is_rt (task_of w p) then dequeue_task_rt w c p flags else Some w.
Definition put_prev_task (w : world) (c p : Z) : option world :=
  if is_rt (task_of w p) then put_prev_task_rt w c p else Some w.
Definition set_next_task (w : world) (c p : Z) : world :=
  if is_rt (task_of w p) then set_next_task_rt w c p false else w.

Definition activate_task (w : world) (c p flags : Z) : option world :=
  let flags := if on_rq (task_of w p) =? TASK_ON_RQ_MIGRATING then Z.lor flags ENQUEUE_MIGRATED
               else flags in
  w ← enqueue_task w c p flags;
  Some (on_task w p (t_on_rq TASK_ON_RQ_QUEUED)).

Definition deactivate_task (w : world) (c p flags : Z) : option world :=
  let w := on_task w p (t_on_rq (if has flags DEQUEUE_SLEEP then 0 else TASK_ON_RQ_MIGRATING)) in
  dequeue_task w c p flags.

Definition set_task_cpu (w : world) (p new_cpu : Z) : world := on_task w p (t_cpu new_cpu).

(** The move of a queued task that is not running. *)
Definition move_task (w : world) (c p new_cpu : Z) : option world :=
  w ← deactivate_task w c p 0;
  activate_task (set_task_cpu w p new_cpu) new_cpu p 0.

(** *** Push *)

Definition pick_next_pushable_task (w : world) (c : Z) : option (option Z) :=
  if negb (has_pushable_tasks (cpu_rq w c)) then Some None
  else
    n ← Plist.plist_first (pushable_tasks (rtq w c));
    let p := Plist.id n in
    let t := task_of w p in
    if negb (c =? cpu t) || (curr (cpu_rq w c) =? p) || (nr_cpus_allowed t <=? 1) ||
       negb (task_on_rq_queued t) || negb (rt_task t)
    then None else Some (Some p).

(** The task that the stopper is to push away. *)
Definition get_push_task (w : world) (c : Z) : world * option Z :=
  let p := curr (cpu_rq w c) in
  let t := task_of w p in
  if push_busy (cpu_rq w c) then (w, None)
  else if nr_cpus_allowed t =? 1 then (w, None)
  else if migration_disabled t then (w, None)
  else (on_rq_of w c (r_push_busy true), Some p).

Definition stop_one_cpu_nowait (w : world) (c p : Z) : world := on_rq_of w c (r_push_work (Some p)).

Definition push_stopper (w : world) (c : Z) : world :=
  match get_push_task w c with
  | (w, Some p) => stop_one_cpu_nowait w c p
  | (w, None) => w
  end.

(** The state does not change when no CPU is found, so that the task is still the next
    one and the code does not try again. *)
Definition push_rt_task (w : world) (this c : Z) (pull : bool) : option (world * bool) :=
  if negb (overloaded (rtq w c)) then Some (w, false)
  else
    next ← pick_next_pushable_task w c;
    match next with
    | None => Some (w, false)
    | Some p =>
        let t := task_of w p in
        let q := cpu_rq w c in
        if prio t <? prio (task_of w (curr q)) then Some (resched_curr w c, false)
        else if migration_disabled t then
          if negb pull || push_busy q then Some (w, false)
          else if negb (is_rt (task_of w (curr q))) then Some (w, false)
          else
            i ← find_lowest_rq w this (curr q);
            if (i =? -1) || (i =? c) then Some (w, false) else Some (push_stopper w c, false)
        else if p =? curr q then Some (w, false)
        else
          lowest ← find_lock_lowest_rq w this p c;
          match lowest with
          | None => Some (w, false)
          | Some i => w ← move_task w c p i; Some (resched_curr w i, true)
          end
    end.

(** [while (push_rt_task(rq, pull));] *)
Fixpoint push_loop (fuel : nat) (w : world) (this c : Z) (pull : bool) : option world :=
  match fuel with
  | O => None
  | S fuel =>
      '(w, moved) ← push_rt_task w this c pull;
      if moved : bool then push_loop fuel w this c pull else Some w
  end.

(** Every round takes a task off the list of pushable tasks. *)
Definition push_all (w : world) (this c : Z) (pull : bool) : option world :=
  push_loop (S (length (Plist.node_list (pushable_tasks (rtq w c))))) w this c pull.

Definition push_rt_tasks (w : world) (this c : Z) : option world := push_all w this c false.

(** [push_cpu_stop] on the CPU whose stopper runs it. *)
Definition push_cpu_stop (w : world) (c : Z) : option world :=
  match push_work (cpu_rq w c) with
  | None => Some w
  | Some p =>
      let w := on_rq_of w c (r_push_work None) in
      let t := task_of w p in
      w ← (if negb (cpu t =? c) then Some w
           else if migration_disabled t then Some (on_task w p (t_mdf_push true))
           else
             let w := on_task w p (t_mdf_push false) in
             lowest ← (if is_rt t then find_lock_lowest_rq w c p c else Some None);
             match lowest with
             | None => Some w
             | Some i => w ← move_task w c p i; Some (resched_curr w i)
             end);
      Some (on_rq_of w c (r_push_busy false))
  end.

(** *** The chain of interrupts *)

(** [cpumask_next]. *)
Definition cpumask_next (n mask : Z) : Z :=
  default nr_cpu_ids (List.find (fun i => n <? i) (mask_bits nr_cpu_ids mask)).

(** The loop of [rto_next_cpu]: two rounds when no other CPU asks for a scan, for then
    [rto_loop] equals [rto_loop_next] in the second. *)
Fixpoint rto_next_loop (fuel : nat) (d : root_domain) : option (root_domain * Z) :=
  match fuel with
  | O => None
  | S fuel =>
      let cpu := cpumask_next (rto_cpu d) (rto_mask d) in
      let d := d_rto_cpu cpu d in
      if cpu <? nr_cpu_ids then Some (d, cpu)
      else
        let d := d_rto_cpu (-1) d in
        let next := rto_loop_next d in
        if rto_loop d =? next then Some (d, -1)
        else rto_next_loop fuel (d_rto_loop next d)
  end.

Definition rto_next_cpu (d : root_domain) : option (root_domain * Z) := rto_next_loop 2 d.

(** [irq_work_queue_on]: a pending work stays where it is. *)
Definition irq_work_queue_on (cpu : Z) (d : root_domain) : root_domain :=
  match rto_push_work d with Some _ => d | None => d_rto_push_work (Some cpu) d end.

Definition tell_cpu_to_push (w : world) (c : Z) : option world :=
  let w := on_rdq w c (fun d => d_rto_loop_next (s32 (rto_loop_next d + 1)) d) in
  let d := rdq w c in
  if negb (rto_loop_start d =? 0) then Some w
  else
    '(d, cpu) ← (if rto_cpu d <? 0 then rto_next_cpu d else Some (d, -1));
    Some (on_rdq w c (fun _ => if 0 <=? cpu then irq_work_queue_on cpu d else d)).

(** The irq work of root domain [rdi] runs on the CPU it is pending on. *)
Definition rto_push_irq_work_func (w : world) (rdi : Z) : option world :=
  match rto_push_work (rd_of w rdi) with
  | None => Some w
  | Some this =>
      let w := on_rd w rdi (d_rto_push_work None) in
      w ← (if has_pushable_tasks (cpu_rq w this) then push_all w this this true else Some w);
      '(d, cpu) ← rto_next_cpu (rd_of w rdi);
      Some (on_rd w rdi (fun _ => if cpu <? 0 then d else irq_work_queue_on cpu d))
  end.

(** *** Pull *)

(** One round of the loop of [pull_rt_task]: the world and [resched]. *)
Definition pull_from (w : world) (this_cpu src : Z) (resched : bool) : option (world * bool) :=
  if highest_curr (rtq w this_cpu) <=? highest_next (rtq w src) then Some (w, resched)
  else
    match pick_highest_pushable_task w src this_cpu with
    | None => Some (w, resched)
    | Some p =>
        let t := task_of w p in
        if prio t <? highest_curr (rtq w this_cpu) then
          if prio t <? prio (task_of w (curr (cpu_rq w src))) then Some (w, resched)
          else if migration_disabled t then Some (push_stopper w src, resched)
          else w ← move_task w src p this_cpu; Some (w, true)
        else Some (w, resched)
    end.

Fixpoint pull_loop (w : world) (this_cpu : Z) (cpus : list Z) (resched : bool)
  : option (world * bool) :=
  match cpus with
  | [] => Some (w, resched)
  | c :: cpus =>
      if this_cpu =? c then pull_loop w this_cpu cpus resched
      else '(w, resched) ← pull_from w this_cpu c resched; pull_loop w this_cpu cpus resched
  end.

Definition pull_rt_task (w : world) (this_cpu : Z) : option world :=
  let count := rt_overloaded w this_cpu in
  if count =? 0 then Some w
  else if (count =? 1) && mask_test (rto_mask (rdq w this_cpu)) this_cpu then Some w
  else if RT_PUSH_IPI then tell_cpu_to_push w this_cpu
  else
    '(w, resched) ← pull_loop w this_cpu (mask_bits nr_cpu_ids (rto_mask (rdq w this_cpu))) false;
    Some (if resched : bool then resched_curr w this_cpu else w).

(** [p] is the task that is about to be put back. *)
Definition balance_rt (w : world) (c p : Z) : option (world * bool) :=
  w ← (if negb (on_rt_rq (task_of w p)) && need_pull_rt_task (cpu_rq w c) (task_of w p)
       then pull_rt_task w c else Some w);
  Some (w, stop_runnable (cpu_rq w c) || sched_dl_runnable (cpu_rq w c) || sched_rt_runnable (cpu_rq w c)).

Definition task_woken_rt (w : world) (this c p : Z) : option world :=
  let t := task_of w p in
  let tc := task_of w (curr (cpu_rq w c)) in
  if negb (on_cpu t) && negb (need_resched tc) && (1 <? nr_cpus_allowed t) &&
     (dl_prio (prio tc) || rt_task tc) &&
     ((nr_cpus_allowed tc <? 2) || (prio tc <=? prio t))
  then push_rt_tasks w this c else Some w.

(** *** Hotplug and root domains *)

Definition set_cpupri (w : world) (c pri : Z) : option world :=
  cp ← Cpupri.cpupri_set (rd_cpupri (rdq w c)) c pri; Some (on_rdq w c (d_rd_cpupri cp)).

(** *** The stores of the deadline class to the index *)

Definition on_dl (w : world) (c : Z) (f : dl_rq -> dl_rq) : world :=
  on_rq_of w c (fun q => r_dl (f (dl q)) q).

(** [cpupri_set] of the deadline class, which does not look at [rq->online]. *)
Definition dl_set_cpupri (w : world) (c pri : Z) : option world :=
  let off := negb (online (cpu_rq w c)) in
  set_cpupri (on_dl w c (fun d => mk_dl_rq (dl_nr_running d) (earliest_dl d) (stored_offline d || off))) c pri.

Definition inc_dl_deadline (w : world) (c deadline : Z) : option world :=
  let earliest := earliest_dl (dl (cpu_rq w c)) in
  if (earliest =? 0) || dl_time_before deadline earliest then
    w ← (if earliest =? 0 then dl_set_cpupri w c Cpupri.CPUPRI_HIGHER else Some w);
    Some (on_dl w c (fun d => mk_dl_rq (dl_nr_running d) deadline (stored_offline d)))
  else Some w.

(** [leftmost] is the deadline of the first task of the tree, if there is one. *)
Definition dec_dl_deadline (w : world) (c leftmost : Z) : option world :=
  if dl_nr_running (dl (cpu_rq w c)) =? 0 then
    dl_set_cpupri (on_dl w c (fun d => mk_dl_rq (dl_nr_running d) 0 (stored_offline d))) c (highest_curr (rtq w c))
  else Some (on_dl w c (fun d => mk_dl_rq (dl_nr_running d) leftmost (stored_offline d))).

Definition inc_dl_tasks (w : world) (c deadline : Z) : option world :=
  let w := on_dl w c (fun d => mk_dl_rq (dl_nr_running d +u32 1) (earliest_dl d) (stored_offline d)) in
  inc_dl_deadline (add_nr_running w c 1) c deadline.

Definition dec_dl_tasks (w : world) (c leftmost : Z) : option world :=
  let w := on_dl w c (fun d => mk_dl_rq (dl_nr_running d -u32 1) (earliest_dl d) (stored_offline d)) in
  dec_dl_deadline (sub_nr_running w c 1) c leftmost.

Definition rq_online_rt (w : world) (c : Z) : option world :=
  let w := if overloaded (rtq w c) then rt_set_overload w c else w in
  let w := __enable_runtime w c in
  set_cpupri w c (highest_curr (rtq w c)).

Definition rq_offline_rt (w : world) (c : Z) : option world :=
  let w := if overloaded (rtq w c) then rt_clear_overload w c else w in
  let w := __disable_runtime w c in
  set_cpupri w c Cpupri.CPUPRI_INVALID.

(** [rq->online] and the bit of the CPU in [rd->online] are one flag here: they are
    always written together. *)
Definition set_rq_online (w : world) (c : Z) : option world :=
  if online (cpu_rq w c) then Some w else rq_online_rt (on_rq_of w c (r_online true)) c.

Definition set_rq_offline (w : world) (c : Z) : option world :=
  if online (cpu_rq w c)
  then w ← rq_offline_rt w c; Some (on_rq_of w c (r_online false)) else Some w.

(** [rq_attach_root] of a run queue that has a root domain. *)
Definition rq_attach_root (w : world) (c d : Z) : option world :=
  w ← set_rq_offline w c;
  let w := on_rdq w c (fun r => d_span (mask_clear (span r) c) r) in
  let w := on_rq_of w c (r_rd d) in
  let w := on_rdq w c (fun r => d_span (mask_set (span r) c) r) in
  if mask_test (cpu_active_mask w) c then set_rq_online w c else Some w.

(** *** Changes of class and priority *)

Definition switched_from_rt (w : world) (c p : Z) : world :=
  if negb (task_on_rq_queued (task_of w p)) || negb (rt_nr_running (rtq w c) =? 0) then w
  else rt_queue_pull_task w c.

Definition switched_to_rt (w : world) (c p : Z) : world :=
  let t := task_of w p in
  if curr (cpu_rq w c) =? p then w
  else if task_on_rq_queued t then
    let w := if (1 <? nr_cpus_allowed t) && overloaded (rtq w c) then rt_queue_push_tasks w c else w in
    if (prio t <? prio (task_of w (curr (cpu_rq w c)))) && mask_test (cpu_online_mask w) c
    then resched_curr w c else w
  else w.

Definition prio_changed_rt (w : world) (c p oldprio : Z) : world :=
  let t := task_of w p in
  if negb (task_on_rq_queued t) then w
  else if curr (cpu_rq w c) =? p then
    let w := if oldprio <? prio t then rt_queue_pull_task w c else w in
    if highest_curr (rtq w c) <? prio t then resched_curr w c else w
  else if prio t <? prio (task_of w (curr (cpu_rq w c))) then resched_curr w c
  else w.

(** [check_class_changed] as far as the real-time class is concerned. *)
Definition check_class_changed (w : world) (c p : Z) (prev_class : sched_class) (oldprio : Z) : world :=
  let t := task_of w p in
  if bool_decide (prev_class = class t) then
    if negb (oldprio =? prio t) && is_rt t then prio_changed_rt w c p oldprio else w
  else
    let w := if bool_decide (prev_class = rt_sched_class) then switched_from_rt w c p else w in
    if is_rt t then switched_to_rt w c p else w.

Definition class_rank (k : sched_class) : Z :=
  match k with
  | stop_sched_class => 4 | dl_sched_class => 3 | rt_sched_class => 2 | fair_sched_class => 1
  | idle_sched_class => 0
  end.
Definition sched_class_above (a b : sched_class) : bool := class_rank b <? class_rank a.

(** [check_preempt_curr] for a task of the real-time class. *)
Definition check_preempt_curr (w : world) (c p : Z) : option world :=
  let t := task_of w p in
  let tc := task_of w (curr (cpu_rq w c)) in
  if negb (is_rt t) then Some w
  else if is_rt tc then check_preempt_curr_rt w c p
  else if sched_class_above (class t) (class tc) then Some (resched_curr w c)
  else Some w.

(** *** The tick *)

(** [soft] and [hard] are the limits RLIMIT_RTTIME of the task. *)
Definition watchdog (soft hard jiffies : Z) (t : task) : task :=
  if soft =? RLIM_INFINITY then t
  else
    let t := if watchdog_stamp t =? jiffies then t
             else t_watchdog_stamp jiffies (t_timeout (timeout t +u64 1) t) in
    let tick := USEC_PER_SEC / HZ in
    let next := (Z.min soft hard +u64 (tick - 1)) / tick in
    if next <? timeout t then t_cputimer_nextevt (sum_exec_runtime t) t else t.

(** [rt_se->run_list.prev != rt_se->run_list.next]: another entity is on the list. *)
Definition has_list_mates (p : Z) (q : rt_rq) : bool :=
  match List.find (fun l => existsb (Z.eqb p) l) (queue q) with
  | Some l => (1 <? length l)%nat
  | None => false
  end.

Definition task_tick_rt (w : world) (c p soft hard jiffies : Z) : option world :=
  w ← update_curr_rt w c;
  let w := on_task w p (watchdog soft hard jiffies) in
  if negb (policy (task_of w p) =? SCHED_RR) then Some w
  else
    let w := on_task w p (fun t => t_time_slice (u32 (time_slice t - 1)) t) in
    if negb (time_slice (task_of w p) =? 0) then Some w
    else
      let w := on_task w p (t_time_slice (u32 (sched_rr_timeslice w))) in
      if has_list_mates p (rtq w (cpu (task_of w p)))
      then w ← requeue_task_rt w p false; Some (resched_curr w c) else Some w.

Definition get_rr_interval_rt (w : world) (t : task) : Z :=
  if policy t =? SCHED_RR then u32 (sched_rr_timeslice w) else 0.

(** *** The core scheduler *)

Definition __setscheduler_prio (prio : Z) (t : task) : task :=
  t_prio prio (t_class (if dl_prio prio then dl_sched_class
                        else if rt_prio prio then rt_sched_class else fair_sched_class) t).

Definition __rt_effective_prio (pi_task : option task) (prio' : Z) : Z :=
  match pi_task with Some d => Z.min prio' (prio d) | None => prio' end.

(** The change of the effective priority of a task that is not the idle task; [pi] is
    the task it inherits from, [now] the clock.  The donor of the deadline entity is
    the matter of the deadline class. *)
Definition rt_mutex_setprio (w : world) (p : Z) (pi : option Z) (now : Z) : option world :=
  let t := task_of w p in
  let prio' := __rt_effective_prio (task_of w <$> pi) (normal_prio t) in
  if bool_decide (pi_top_task t = pi) && (prio' =? prio t) && negb (dl_prio prio') then Some w
  else
    let c := cpu t in
    let w := on_rq_of w c (r_clock_task now) in
    let w := on_task w p (t_pi_top_task pi) in
    if (prio' =? prio t) && negb (dl_prio prio') then Some w
    else if p =? idle (cpu_rq w c) then Some w
    else
      let oldprio := prio t in
      let save := Z.lor DEQUEUE_SAVE DEQUEUE_NOCLOCK in
      let queue_flag := if oldprio =? prio' then save else Z.lor save DEQUEUE_MOVE in
      let queued := task_on_rq_queued t in
      let running := curr (cpu_rq w c) =? p in
      w ← (if queued then dequeue_task w c p queue_flag else Some w);
      w ← (if running then put_prev_task w c p else Some w);
      let queue_flag := if negb (dl_prio prio') && rt_prio prio' && (oldprio <? prio')
                        then Z.lor queue_flag ENQUEUE_HEAD else queue_flag in
      let w := on_task w p (fun t => __setscheduler_prio prio'
                 (if negb (dl_prio prio') && negb (rt_prio prio') && rt_prio oldprio
                  then t_timeout 0 t else t)) in
      w ← (if queued then enqueue_task w c p queue_flag else Some w);
      let w := if running then set_next_task w c p else w in
      Some (check_class_changed w c p (class t) oldprio).

(** The change of [__sched_setscheduler] once it is permitted, for a task that is to have
    the policy [policy'], the normal priority [normal'] and the effective priority
    [newprio]; [keep] is SCHED_FLAG_KEEP_PARAMS, [now] the clock. *)
Definition setscheduler_commit (w : world) (p : Z) (keep : bool) (policy' normal' newprio now : Z)
  : option world :=
  let t := task_of w p in
  let c := cpu t in
  let w := on_rq_of w c (r_clock_task now) in
  let oldprio := prio t in
  let save := Z.lor DEQUEUE_SAVE DEQUEUE_NOCLOCK in
  let queue_flags := if newprio =? oldprio then save else Z.lor save DEQUEUE_MOVE in
  let queued := task_on_rq_queued t in
  let running := curr (cpu_rq w c) =? p in
  w ← (if queued then dequeue_task w c p queue_flags else Some w);
  w ← (if running then put_prev_task w c p else Some w);
  let w := on_task w p (fun t => if keep then t
             else __setscheduler_prio newprio (t_policy policy' (t_normal_prio normal' t))) in
  w ← (if queued then
         enqueue_task w c p (if oldprio <? prio (task_of w p) then Z.lor queue_flags ENQUEUE_HEAD
                             else queue_flags)
       else Some w);
  let w := if running then set_next_task w c p else w in
  Some (check_class_changed w c p (class t) oldprio).

Definition set_cpus_allowed_common (new_mask : Z) (t : task) : task :=
  t_nr_cpus_allowed (cpumask_weight new_mask) (t_cpus_mask new_mask t).

(** [__do_set_cpus_allowed] with a new mask. *)
Definition __do_set_cpus_allowed (w : world) (p new_mask : Z) : option world :=
  let t := task_of w p in
  let c := cpu t in
  let queued := task_on_rq_queued t in
  let running := curr (cpu_rq w c) =? p in
  w ← (if queued then dequeue_task w c p (Z.lor DEQUEUE_SAVE DEQUEUE_NOCLOCK) else Some w);
  w ← (if running then put_prev_task w c p else Some w);
  let w := on_task w p (set_cpus_allowed_common new_mask) in
  w ← (if queued then enqueue_task w c p (Z.lor ENQUEUE_RESTORE ENQUEUE_NOCLOCK) else Some w);
  Some (if running then set_next_task w c p else w).

(** [ttwu_do_activate] of a blocked task that [try_to_wake_up] has assigned to
    [new_cpu]; [this] is the waking CPU. *)
Definition ttwu_do_activate (w : world) (this p new_cpu now : Z) : option world :=
  let migrated := negb (cpu (task_of w p) =? new_cpu) in
  let w := if migrated then set_task_cpu w p new_cpu else w in
  let w := on_rq_of w new_cpu (r_clock_task now) in
  let en_flags := Z.lor ENQUEUE_WAKEUP ENQUEUE_NOCLOCK in
  w ← activate_task w new_cpu p (if migrated then Z.lor en_flags ENQUEUE_MIGRATED else en_flags);
  w ← check_preempt_curr w new_cpu p;
  if is_rt (task_of w p) then task_woken_rt w this new_cpu p else Some w.

(** [__schedule] takes the current task, which is about to sleep, off the queue. *)
Definition block_current (w : world) (c now : Z) : option world :=
  let w := on_rq_of w c (r_clock_task now) in
  deactivate_task w c (curr (cpu_rq w c)) (Z.lor DEQUEUE_SLEEP DEQUEUE_NOCLOCK).

(** The task the other classes have: one of a higher class, or one of a lower class. *)
Inductive offer := Higher (p : Z) | Lower (p : Z).

(** The rest of [__schedule], after the classes have balanced. *)
Definition schedule_next (w : world) (c : Z) (o : offer) : option world :=
  let prev := curr (cpu_rq w c) in
  w ← put_prev_task w c prev;
  '(w, next) ← match o with
               | Higher p => Some (w, p)
               | Lower p => '(w, r) ← pick_next_task_rt w c; Some (w, default p r)
               end;
  let w := on_task w prev (fun t => t_on_cpu false (t_need_resched false t)) in
  let w := on_task w next (t_on_cpu true) in
  Some (on_rq_of w c (r_curr next)).

(** The callbacks left by the handlers, in their order; [PullRt] and [PushRt] are those
    of this class. *)
Fixpoint run_callbacks (w : world) (this c : Z) (cbs : list callback) : option world :=
  match cbs with
  | [] => Some w
  | cb :: cbs =>
      w ← match cb with
          | PushRt => push_rt_tasks w this c
          | PullRt => pull_rt_task w c
          | OtherCallback _ => Some w
          end;
      run_callbacks w this c cbs
  end.

Definition balance_callbacks (w : world) (this c : Z) : option world :=
  let cbs := balance_callback (cpu_rq w c) in
  run_callbacks (on_rq_of w c (r_balance_callback [])) this c cbs.

(** *** The sysctls *)

(** [sysctl_sched_rt_period] is unsigned, so that the first test fails for zero only;
    the second comparison is an unsigned one. *)
Definition sched_rt_global_validate (w : world) : Z :=
  let period := sysctl_sched_rt_period w in
  let runtime := sysctl_sched_rt_runtime w in
  if period <=? 0 then - EINVAL
  else if negb (u64 runtime =? RUNTIME_INF) &&
          ((period <? u32 runtime) || (max_rt_runtime <? (u64 runtime *u64 NSEC_PER_USEC)))
  then - EINVAL else 0.

Definition sched_rt_global_constraints (w : world) : world :=
  foldl (fun w i => on_rq_of w i (r_rt_runtime (global_rt_runtime w))) w (seqZ 0 nr_cpu_ids).

Definition sched_rt_do_global (w : world) : world :=
  on_b w (fun b => b_rt_period (global_rt_period w) (b_b_runtime (global_rt_runtime w) b)).

(** A write of the two values ([proc_dointvec] stores one of them); [dl_validate] is the
    answer of [sched_dl_global_validate].  The result is the new world and the return
    value. *)
Definition sched_rt_handler (w : world) (period runtime dl_validate : Z) : world * Z :=
  let old_period := sysctl_sched_rt_period w in
  let old_runtime := sysctl_sched_rt_runtime w in
  let w := w_sysctl_sched_rt_runtime runtime (w_sysctl_sched_rt_period period w) in
  let undo w := w_sysctl_sched_rt_runtime old_runtime (w_sysctl_sched_rt_period old_period w) in
  let ret := sched_rt_global_validate w in
  if negb (ret =? 0) then (undo w, ret)
  else if negb (dl_validate =? 0) then (undo w, dl_validate)
  else (sched_rt_do_global (sched_rt_global_constraints w), 0).

(** The conversions where HZ divides 1000. *)
Definition msecs_to_jiffies (m : Z) : Z :=
  if s32 m <? 0 then two63 / 2 - 2 else (u32 m + 1000 / HZ - 1) / (1000 / HZ).
Definition jiffies_to_msecs (j : Z) : Z := u32 (1000 / HZ * j).

(** A write of [ms]. *)
Definition sched_rr_handler (w : world) (ms : Z) : world :=
  let w := w_sysctl_sched_rr_timeslice ms w in
  let w := w_sched_rr_timeslice (if ms <=? 0 then RR_TIMESLICE else s32 (msecs_to_jiffies ms)) w in
  if ms <=? 0 then w_sysctl_sched_rr_timeslice (s32 (jiffies_to_msecs RR_TIMESLICE)) w else w.

End Class.
End Rt.
