(* ===== verification/RtQueue.v ===== *)
(** The priority arrays of the real-time class.

    [arr_ok] relates the lists and the bitmap of a run queue to the tasks, [cnt_ok] its
    counters, [top_ok] the highest queued priority and [push_ok] the list of pushable
    tasks.  Only some members of a task matter for them: its [key].  The lemmas show
    what the single updates of [Rt] do to each of the relations. *)

From Stdlib Require Import ZArith Lia List.
From stdpp Require Import base list numbers option sorting.
From S2P Require Import Prelude Plist Cpupri Deadline Rt.

Module RtQueue.
Export Rt.
Import Deadline(SCHED_RR).

Section Queue.
Context {pf : RtPlatform}.

(** *** Keys *)

Record key_of := mk_key {
  k_prio : Z;
  k_policy : Z;
  k_cpu : Z;
  k_migr : bool;
  k_list : bool;
  k_on : bool
}.

Definition key (t : task) : key_of :=
  mk_key (prio t) (policy t) (cpu t) (1 <? nr_cpus_allowed t) (on_list t) (on_rt_rq t).

Definition PID_MAX_LIMIT : Z := 2 ^ 22.

(** *** What the members of a run queue mean *)

(** Task [p] is on the list of priority [i]. *)
Definition listed (q : rt_rq) (i p : Z) : Prop := exists l, aref (queue q) i = Some l /\ p ∈ l.

Record arr_ok (K : Z -> key_of) (c : Z) (q : rt_rq) : Prop := {
  arr_len : length (queue q) = Z.to_nat MAX_RT_PRIO;
  arr_nodup : NoDup (concat (queue q));
  arr_mem : forall p i, listed q i p <-> k_list (K p) = true /\ k_cpu (K p) = c /\ k_prio (K p) = i;
  arr_bits : forall i, Z.testbit (bitmap q) i = true <-> i = MAX_RT_PRIO \/ exists p, listed q i p;
  arr_ids : forall p i, listed q i p -> 0 <= p < PID_MAX_LIMIT
}.

Definition n_on (k : key_of) : Z := b2z (k_on k).
Definition n_rr (k : key_of) : Z := b2z (k_on k && (k_policy k =? SCHED_RR)).
Definition n_migr (k : key_of) : Z := b2z (k_on k && k_migr k).
Definition tally (n : key_of -> Z) (K : Z -> key_of) (q : rt_rq) : Z :=
  zsum (fun p => n (K p)) (concat (queue q)).

Record cnt_ok (K : Z -> key_of) (q : rt_rq) : Prop := {
  cnt_nr : rt_nr_running q = tally n_on K q;
  cnt_total : rt_nr_total q = tally n_on K q;
  cnt_rr : rr_nr_running q = tally n_rr K q;
  cnt_migr : rt_nr_migratory q = tally n_migr K q
}.

Definition first_bit (q : rt_rq) : Z := default MAX_RT_PRIO (sched_find_first_bit (bitmap q)).

Definition top_ok (q : rt_rq) : Prop :=
  highest_curr q = if rt_nr_running q =? 0 then MAX_RT_PRIO - 1 else first_bit q.

Definition over_ok (q : rt_rq) : Prop :=
  overloaded q = negb (rt_nr_migratory q =? 0) && (1 <? rt_nr_total q).

Record rt_ok (K : Z -> key_of) (c : Z) (q : rt_rq) : Prop := {
  ok_arr : arr_ok K c q;
  ok_cnt : cnt_ok K q;
  ok_top : top_ok q;
  ok_over : over_ok q
}.

(** The list of pushable tasks holds the tasks in [S]. *)
Record push_ok (K : Z -> key_of) (S : Z -> Prop) (q : rt_rq) : Prop := {
  push_plist : Plist.plist_ok (pushable_tasks q);
  push_mem : forall p, p ∈ map Plist.id (Plist.node_list (pushable_tasks q)) <-> S p;
  push_prio : forall n, n ∈ Plist.node_list (pushable_tasks q) -> Plist.prio n = k_prio (K (Plist.id n));
  push_next : highest_next q =
    match Plist.node_list (pushable_tasks q) with n :: _ => Plist.prio n | [] => MAX_RT_PRIO - 1 end
}.

(** *** Lists of lists *)

Notation del p := (List.filter (fun x : Z => negb (x =? p))).

Lemma elem_of_del p l x : x ∈ del p l <-> x ∈ l /\ x <> p.
Proof. rewrite list_elem_of_In, filter_In, <- list_elem_of_In, negb_true_iff, Z.eqb_neq. done. Qed.

Lemma del_notin p l : p ∉ l -> del p l = l.
Proof.
  induction l as [|x l IH]; intros H; [done|]. apply not_elem_of_cons in H as [H1 H2]. simpl.
  destruct (Z.eqb_spec x p); [congruence|]. simpl. by rewrite IH.
Qed.

Lemma del_app p l1 l2 : del p (l1 ++ l2) = del p l1 ++ del p l2.
Proof. apply List.filter_app. Qed.

Lemma del_idem p l : del p (del p l) = del p l.
Proof. apply del_notin. rewrite elem_of_del. tauto. Qed.

Lemma del_concat p ls : concat (list_del_init p ls) = del p (concat ls).
Proof. induction ls as [|l ls IH]; [done|]. simpl. by rewrite del_app, <- IH. Qed.

Lemma aref_list_del p ls i : aref (list_del_init p ls) i = del p <$> aref ls i.
Proof. unfold aref, list_del_init. destruct (0 <=? i); [|done]. apply list_lookup_fmap. Qed.

Lemma length_list_del p ls : length (list_del_init p ls) = length ls.
Proof. apply length_map. Qed.

Lemma list_del_idem p ls : list_del_init p (list_del_init p ls) = list_del_init p ls.
Proof. unfold list_del_init. rewrite map_map. apply map_ext. intros l. apply del_idem. Qed.

Lemma list_del_insert p ls i l : list_del_init p (<[i := l]> ls) = <[i := del p l]> (list_del_init p ls).
Proof. apply list_fmap_insert. Qed.

(** [p] is put into the list of priority [i], at either end. *)
Lemma list_del_put p ls i l l' : aref ls i = Some l -> del p l' = del p l ->
  list_del_init p (<[Z.to_nat i := l']> ls) = list_del_init p ls.
Proof.
  intros Hl E. rewrite list_del_insert, E. apply list_insert_id.
  pose proof (aref_Some_range _ _ _ Hl). unfold aref in Hl. destruct (Z.leb_spec 0 i); [|lia].
  unfold list_del_init. by rewrite list_lookup_fmap, Hl.
Qed.

Lemma del_put (p : Z) l (head : bool) : del p (if head then p :: l else l ++ [p]) = del p l.
Proof. destruct head; rewrite ?del_app; simpl; rewrite Z.eqb_refl; simpl; by rewrite ?app_nil_r. Qed.

Lemma elem_of_put (p : Z) l (head : bool) x : x ∈ (if head then p :: l else l ++ [p]) <-> x = p \/ x ∈ l.
Proof. destruct head; rewrite ?elem_of_app, ?elem_of_cons; [done|]. rewrite elem_of_nil. tauto. Qed.

Lemma elem_of_concat ls (p : Z) : p ∈ concat ls <-> exists i l, aref ls i = Some l /\ p ∈ l.
Proof.
  rewrite list_elem_of_In, in_concat. split.
  - intros (l & Hl & Hp). apply list_elem_of_In in Hl, Hp. apply list_elem_of_lookup in Hl as [i Hi].
    exists (Z.of_nat i), l. split; [|done]. unfold aref. destruct (Z.leb_spec 0 (Z.of_nat i)); [|lia].
    by rewrite Nat2Z.id.
  - intros (i & l & Hl & Hp). exists l. rewrite <- !list_elem_of_In. split; [|done].
    unfold aref in Hl. destruct (0 <=? i); [|done]. by apply list_elem_of_lookup_2 in Hl.
Qed.

(** *** Steps that move one task *)

(** The lists differ in [p] only. *)
Definition others (p : Z) (q q' : rt_rq) : Prop :=
  list_del_init p (queue q') = list_del_init p (queue q).

Lemma others_listed p q q' i x : others p q q' -> x <> p -> listed q' i x <-> listed q i x.
Proof.
  intros H Hx. assert (D : forall l, x ∈ l <-> x ∈ del p l) by (intros; rewrite elem_of_del; tauto).
  pose proof (aref_list_del p (queue q') i) as E1. pose proof (aref_list_del p (queue q) i) as E2.
  rewrite H, E2 in E1. unfold listed.
  split; intros (l & Hl & Hm); rewrite Hl in E1; simpl in E1.
  - destruct (aref (queue q) i) as [m|]; [|done]. injection E1 as E1. exists m. split; [done|].
    by rewrite D, E1, <- D.
  - destruct (aref (queue q') i) as [m|]; [|done]. injection E1 as E1. exists m. split; [done|].
    by rewrite D, <- E1, <- D.
Qed.

Lemma others_concat p q q' : others p q q' -> del p (concat (queue q')) = del p (concat (queue q)).
Proof. intros H. by rewrite <- !del_concat, H. Qed.

Lemma others_len p q q' : others p q q' -> length (queue q') = length (queue q).
Proof. intros H. by rewrite <- (length_list_del p (queue q')), H, length_list_del. Qed.

Lemma listed_concat q p : p ∈ concat (queue q) <-> exists i, listed q i p.
Proof. rewrite elem_of_concat. unfold listed. naive_solver. Qed.

Lemma listed_range q i p : listed q i p -> 0 <= i < Z.of_nat (length (queue q)).
Proof. intros (l & Hl & _). by apply aref_Some_range in Hl. Qed.

(** *** Counting *)

Lemma zsum_del (f : Z -> Z) p l : NoDup l ->
  zsum f l = (if bool_decide (p ∈ l) then f p else 0) + zsum f (del p l).
Proof.
  induction l as [|x l IH]; intros N; [done|]. apply list.NoDup_cons in N as [Hx N]. simpl.
  rewrite (IH N). destruct (Z.eqb_spec x p) as [->|Hne]; simpl.
  - rewrite bool_decide_eq_false_2 by done. rewrite bool_decide_eq_true_2 by (by left).
    rewrite del_notin by done. lia.
  - rewrite (bool_decide_ext (p ∈ x :: l) (p ∈ l)); [lia|]. rewrite elem_of_cons. naive_solver.
Qed.

(** What [p] contributes. *)
Definition part (n : key_of -> Z) (K : Z -> key_of) (q : rt_rq) (p : Z) : Z :=
  if bool_decide (p ∈ concat (queue q)) then n (K p) else 0.

Lemma tally_step n K K' q q' p : NoDup (concat (queue q)) -> NoDup (concat (queue q')) ->
  others p q q' -> (forall x, x <> p -> K' x = K x) ->
  tally n K' q' = tally n K q - part n K q p + part n K' q' p.
Proof.
  intros N N' O E. unfold tally. rewrite (zsum_del _ p _ N), (zsum_del _ p _ N'), (others_concat _ _ _ O).
  rewrite (zsum_ext (fun x => n (K' x)) (fun x => n (K x)) (del p _)); [unfold part; lia|].
  intros x [_ Hx]%elem_of_del. by rewrite E.
Qed.

Lemma NoDup_bound (l : list Z) n : NoDup l -> (forall x, x ∈ l -> 0 <= x < n) -> Z.of_nat (length l) <= Z.max 0 n.
Proof.
  intros N H. pose proof (submseteq_length l (seqZ 0 n)) as L. rewrite length_seqZ in L.
  assert (l ⊆+ seqZ 0 n) as S; [|specialize (L S); lia].
  apply NoDup_submseteq; [done|]. intros x Hx. apply elem_of_seqZ. specialize (H x Hx). lia.
Qed.

Lemma zsum_length (f : Z -> Z) l : (forall x, x ∈ l -> 0 <= f x <= 1) -> 0 <= zsum f l <= Z.of_nat (length l).
Proof.
  induction l as [|x l IH]; intros H; simpl; [lia|]. pose proof (H x ltac:(left)).
  assert (0 <= zsum f l <= Z.of_nat (length l)) by (apply IH; intros; apply H; by right). lia.
Qed.

(** The counters are far from wrapping. *)
Lemma tally_bound n K c q : arr_ok K c q -> (forall k, 0 <= n k <= 1) -> 0 <= tally n K q <= PID_MAX_LIMIT.
Proof.
  intros A H. pose proof (NoDup_bound (concat (queue q)) PID_MAX_LIMIT (arr_nodup _ _ _ A)) as B.
  pose proof (zsum_length (fun p => n (K p)) (concat (queue q)) (fun x _ => H (K x))).
  unfold tally. unfold PID_MAX_LIMIT in *. cut (Z.of_nat (length (concat (queue q))) <= 2 ^ 22); [lia|].
  rewrite Z.max_r in B by lia. apply B. intros x [i Hx]%listed_concat. by apply (arr_ids _ _ _ A) in Hx.
Qed.

Lemma n_on_01 k : 0 <= n_on k <= 1.
Proof. apply b2z_01. Qed.
Lemma n_rr_01 k : 0 <= n_rr k <= 1.
Proof. apply b2z_01. Qed.
Lemma n_migr_01 k : 0 <= n_migr k <= 1.
Proof. apply b2z_01. Qed.

(** No task counts iff no listed task is queued. *)
Lemma tally_0 n K q : (forall k, 0 <= n k <= 1) -> tally n K q = 0 ->
  forall i p, listed q i p -> n (K p) = 0.
Proof.
  intros H E i p Hp. assert (p ∈ concat (queue q)) as Hc by (apply listed_concat; by exists i).
  pose proof (zsum_ge (fun p => n (K p)) (concat (queue q)) p (fun x _ => proj1 (H (K x))) Hc) as G.
  unfold tally in E. specialize (H (K p)). simpl in G. lia.
Qed.

(** *** The first bit *)

Lemma find_first {A} (f : A -> bool) l x : List.find f l = Some x <->
  exists l1 l2, l = l1 ++ x :: l2 /\ f x = true /\ forall y, y ∈ l1 -> f y = false.
Proof.
  induction l as [|y l IH]; simpl.
  - split; [done|]. intros (l1 & l2 & E & _). by destruct l1.
  - destruct (f y) eqn:Ey; split.
    + intros [= <-]. exists [], l. split; [done|]. split; [done|]. by intros z ?%not_elem_of_nil.
    + intros (l1 & l2 & E & Hx & Hn). destruct l1 as [|z l1]; simplify_eq/=; [done|].
      rewrite Hn in Ey by left. done.
    + rewrite IH. intros (l1 & l2 & -> & Hx & Hn). exists (y :: l1), l2. split; [done|]. split; [done|].
      intros z [->|Hz]%elem_of_cons; auto.
    + intros (l1 & l2 & E & Hx & Hn). destruct l1 as [|z l1]; simplify_eq/=; [congruence|].
      apply IH. exists l1, l2. split; [done|]. split; [done|]. intros u Hu. apply Hn. by right.
Qed.

Lemma ffs_spec b i : sched_find_first_bit b = Some i <->
  0 <= i < 128 /\ Z.testbit b i = true /\ forall j, 0 <= j < i -> Z.testbit b j = false.
Proof.
  unfold sched_find_first_bit. rewrite find_first. split.
  - intros (l1 & l2 & E & Hi & Hn).
    assert (i = 0 + Z.of_nat (length l1)) as Ei.
    { pose proof (f_equal (fun l => l !! length l1) E) as L. simpl in L.
      rewrite list_lookup_middle in L by done. by apply lookup_seqZ in L as [-> _]. }
    assert (i ∈ seqZ 0 128) as Hs by (rewrite E, elem_of_app, elem_of_cons; auto).
    apply elem_of_seqZ in Hs. split; [lia|]. split; [done|]. intros j Hj. apply Hn.
    apply list_elem_of_lookup. exists (Z.to_nat j).
    pose proof (f_equal (fun l => l !! Z.to_nat j) E) as L. simpl in L.
    rewrite lookup_app_l in L by lia. rewrite <- L. apply lookup_seqZ. lia.
  - intros (Hr & Hi & Hn). exists (seqZ 0 i), (seqZ (i + 1) (127 - i)). split.
    + replace (i :: seqZ (i + 1) (127 - i)) with (seqZ i (128 - i)).
      * replace 128 with (i + (128 - i)) at 1 by lia. rewrite seqZ_app by lia. by rewrite Z.add_0_l.
      * rewrite (seqZ_cons i) by lia. f_equal. f_equal; lia.
    + split; [done|]. intros y Hy%elem_of_seqZ. apply Hn. lia.
Qed.

Lemma first_bit_spec K c q : arr_ok K c q ->
  sched_find_first_bit (bitmap q) = Some (first_bit q) /\
  0 <= first_bit q <= MAX_RT_PRIO /\ Z.testbit (bitmap q) (first_bit q) = true /\
  forall j, Z.testbit (bitmap q) j = true -> first_bit q <= j.
Proof.
  intros A. unfold first_bit. assert (T : Z.testbit (bitmap q) MAX_RT_PRIO = true) by (apply (arr_bits _ _ _ A); by left).
  destruct (sched_find_first_bit (bitmap q)) as [i|] eqn:E; simpl.
  - apply ffs_spec in E as (Hr & Hi & Hn). split; [done|]. split_and!; [lia| |done|].
    + destruct (Z.le_gt_cases i MAX_RT_PRIO); [done|]. rewrite Hn in T; [done|]. unfold MAX_RT_PRIO in *. lia.
    + intros j Hj. destruct (Z.le_gt_cases i j); [done|].
      destruct (Z.lt_ge_cases j 0); [by rewrite Z.testbit_neg_r in Hj|]. rewrite Hn in Hj; [done|lia].
  - exfalso. unfold sched_find_first_bit in E. rewrite (find_none _ _ E MAX_RT_PRIO) in T; [done|].
    apply list_elem_of_In, elem_of_seqZ. unfold MAX_RT_PRIO. lia.
Qed.

(** A listed task of the first priority, or none at all. *)
Lemma first_bit_listed K c q : arr_ok K c q ->
  (forall i p, listed q i p -> first_bit q <= i) /\
  (first_bit q < MAX_RT_PRIO -> exists p, listed q (first_bit q) p).
Proof.
  intros A. destruct (first_bit_spec K c q A) as (_ & Hr & Ht & Hm). split.
  - intros i p Hp. apply Hm, (arr_bits _ _ _ A). right. by exists p.
  - intros Hlt. apply (arr_bits _ _ _ A) in Ht as [E|E]; [lia|done].
Qed.

Lemma first_bit_intro K c q i p : arr_ok K c q -> listed q i p ->
  (forall j x, listed q j x -> i <= j) -> first_bit q = i.
Proof.
  intros A Hp Hm. destruct (first_bit_listed K c q A) as [H1 H2]. pose proof (H1 i p Hp).
  pose proof (listed_range q i p Hp) as R. rewrite (arr_len _ _ _ A) in R.
  destruct H2 as [x Hx]; [unfold MAX_RT_PRIO in *; lia|]. specialize (Hm _ _ Hx). lia.
Qed.

(** *** Entering and leaving the lists *)

Definition q_enlist (p pr : Z) (head : bool) (q : rt_rq) : rt_rq :=
  let l := default [] (aref (queue q) pr) in
  q_bitmap (Z.setbit (bitmap q) pr)
    (q_queue (<[Z.to_nat pr := if head then p :: l else l ++ [p]]> (queue q)) q).

Definition q_delist (p pr : Z) (q : rt_rq) : rt_rq :=
  let queues := list_del_init p (queue q) in
  let q := q_queue queues q in
  match default [] (aref queues pr) with [] => q_bitmap (Z.clearbit (bitmap q) pr) q | _ => q end.

Definition k_enlist (b : bool) (k : key_of) : key_of :=
  mk_key (k_prio k) (k_policy k) (k_cpu k) (k_migr k) b (k_on k).

Lemma arr_step K K' c q q' p : arr_ok K c q -> others p q q' -> (forall x, x <> p -> K' x = K x) ->
  NoDup (concat (queue q')) ->
  (forall i, listed q' i p <-> k_list (K' p) = true /\ k_cpu (K' p) = c /\ k_prio (K' p) = i) ->
  (forall i, Z.testbit (bitmap q') i = true <-> i = MAX_RT_PRIO \/ exists x, listed q' i x) ->
  0 <= p < PID_MAX_LIMIT -> arr_ok K' c q'.
Proof.
  intros A O E N M B R. split; [|done| |done|].
  - rewrite (others_len _ _ _ O). apply A.
  - intros x i. destruct (decide (x = p)) as [->|Hx]; [apply M|].
    rewrite (others_listed p q q') by done. rewrite E by done. apply A.
  - intros x i Hx. destruct (decide (x = p)) as [->|Hne]; [done|].
    rewrite (others_listed p q q') in Hx by done. by apply (arr_ids _ _ _ A) in Hx.
Qed.

Lemma concat_put (ls : list (list Z)) i l l' p : aref ls i = Some l -> l' ≡ₚ p :: l ->
  concat (<[Z.to_nat i := l']> ls) ≡ₚ p :: concat ls.
Proof.
  intros Hl P. pose proof (aref_Some_range _ _ _ Hl) as R. unfold aref in Hl.
  destruct (Z.leb_spec 0 i); [|lia]. rewrite insert_take_drop by lia.
  rewrite <- (take_drop_middle _ _ _ Hl) at 3. rewrite !concat_app. cbn [concat].
  rewrite P. cbn [app]. symmetry. apply Permutation_middle.
Qed.

Lemma put_perm (p : Z) l (head : bool) : (if head then p :: l else l ++ [p]) ≡ₚ p :: l.
Proof. destruct head; [done|]. by rewrite Permutation_app_comm. Qed.

Lemma enlist_ok K c q p head : arr_ok K c q -> 0 <= p < PID_MAX_LIMIT -> 0 <= k_prio (K p) < MAX_RT_PRIO ->
  k_list (K p) = false -> k_cpu (K p) = c ->
  arr_ok (upd K p (k_enlist true (K p))) c (q_enlist p (k_prio (K p)) head q) /\
  others p q (q_enlist p (k_prio (K p)) head q) /\
  forall i, listed (q_enlist p (k_prio (K p)) head q) i p <-> i = k_prio (K p).
Proof.
  intros A R P L C. set (pr := k_prio (K p)) in *. set (q' := q_enlist p pr head q).
  destruct (aref_lt (queue q) pr) as [l Hl]; [rewrite (arr_len _ _ _ A); unfold MAX_RT_PRIO in *; lia|].
  assert (Hp : forall i, ~ listed q i p) by (intros i (? & _)%(arr_mem _ _ _ A); congruence).
  assert (Q : queue q' = <[Z.to_nat pr := if head then p :: l else l ++ [p]]> (queue q)).
  { unfold q', q_enlist. by rewrite Hl. }
  assert (Li : forall i x, listed q' i x <-> (i = pr /\ x = p) \/ listed q i x).
  { intros i x. unfold listed. rewrite Q. destruct (Z.lt_ge_cases i 0).
    - unfold aref. destruct (Z.leb_spec 0 i); [lia|]. split; [by intros (? & ? & _)|]. intros [[-> _]|(? & ? & _)]; [lia|done].
    - rewrite aref_insert by (done || by eapply aref_Some_range). destruct (Z.eqb_spec i pr) as [->|Hne]; [|naive_solver].
      rewrite Hl. setoid_rewrite (elem_of_put p l head x) || idtac. split.
      + intros (m & [= <-] & Hm). apply elem_of_put in Hm as [->|Hm]; [by left|right; by exists l].
      + intros [[_ ->]|(m & [= <-] & Hm)]; eexists; (split; [done|]); apply elem_of_put; auto. }
  assert (O : others p q q').
  { unfold others. rewrite Q. eapply list_del_put; [done|]. apply del_put. }
  split; [|split; [done|]].
  - eapply (arr_step K _ c q q' p); try done.
    + intros x Hx. unfold upd. by destruct (Z.eqb_spec x p).
    + rewrite Q, concat_put; [|done|apply put_perm]. constructor; [|apply A].
      intros [i Hi]%listed_concat. by destruct (Hp i).
    + intros i. rewrite Li. unfold upd. rewrite Z.eqb_refl. simpl. fold pr. specialize (Hp i). naive_solver.
    + intros i. setoid_rewrite Li. change (bitmap q') with (Z.setbit (bitmap q) pr).
      destruct (Z.lt_ge_cases i 0).
      { rewrite Z.testbit_neg_r by done. split; [done|]. intros [->|(x & [[-> _]|Hx])]; [done|lia|].
        apply listed_range in Hx. lia. }
      rewrite Z.setbit_eqb, orb_true_iff, Z.eqb_eq, (arr_bits _ _ _ A) by lia. split; [|naive_solver].
      intros [->|[?|[x Hx]]]; [right; exists p; by left|by left|right; exists x; by right].
  - intros i. rewrite Li. specialize (Hp i). naive_solver.
Qed.

Lemma delist_ok K c q p : arr_ok K c q -> k_list (K p) = true -> k_cpu (K p) = c ->
  arr_ok (upd K p (k_enlist false (K p))) c (q_delist p (k_prio (K p)) q) /\
  others p q (q_delist p (k_prio (K p)) q) /\
  forall i, ~ listed (q_delist p (k_prio (K p)) q) i p.
Proof.
  intros A L C. set (pr := k_prio (K p)) in *. set (q' := q_delist p pr q).
  assert (Lp : listed q pr p) by (apply (arr_mem _ _ _ A); done).
  assert (Q : queue q' = list_del_init p (queue q)) by (unfold q', q_delist; by destruct (default _ _)).
  assert (Li : forall i x, listed q' i x <-> x <> p /\ listed q i x).
  { intros i x. unfold listed. rewrite Q, aref_list_del. split.
    - intros (l & Hl & Hx). destruct (aref (queue q) i) as [m|]; [|done]. injection Hl as <-.
      apply elem_of_del in Hx as [Hx Hne]. split; [done|]. by exists m.
    - intros (Hne & l & -> & Hx). exists (del p l). split; [done|]. by apply elem_of_del. }
  assert (O : others p q q') by (unfold others; by rewrite Q, list_del_idem).
  split; [|split; [done|]].
  - eapply (arr_step K _ c q q' p); try done.
    + intros x Hx. unfold upd. by destruct (Z.eqb_spec x p).
    + rewrite Q, del_concat. apply NoDup_ListNoDup, List.NoDup_filter, NoDup_ListNoDup, A.
    + intros i. rewrite Li. unfold upd. rewrite Z.eqb_refl. simpl. naive_solver.
    + intros i. setoid_rewrite Li. destruct Lp as (l & Hl & Hp).
      unfold q', q_delist. rewrite aref_list_del, Hl. simpl. destruct (del p l) as [|y m] eqn:D; simpl.
      * rewrite Z.clearbit_eqb, andb_true_iff, negb_true_iff, Z.eqb_neq, (arr_bits _ _ _ A). split.
        -- intros [[?|[x Hx]] Hne]; [by left|]. right. exists x. split; [|done]. intros ->.
           apply (arr_mem _ _ _ A) in Hx as (_ & _ & Hx). done.
        -- intros [->|(x & Hne & Hx)].
           ++ split; [by left|]. pose proof (aref_Some_range _ _ _ Hl) as Rg. rewrite (arr_len _ _ _ A) in Rg.
              unfold MAX_RT_PRIO in *. lia.
           ++ split; [right; by exists x|]. intros <-. destruct Hx as (m & Hm & Hx). rewrite Hl in Hm. injection Hm as <-.
              assert (x ∈ del p l) as Hd by (by apply elem_of_del). rewrite D in Hd. by apply elem_of_nil in Hd.
      * rewrite (arr_bits _ _ _ A). split; [|naive_solver]. intros [?|[x Hx]]; [by left|]. right.
        destruct (decide (x = p)) as [->|Hne]; [|by exists x].
        apply (arr_mem _ _ _ A) in Hx as (_ & _ & <-). exists y.
        assert (y ∈ del p l) as Hd by (rewrite D; left). apply elem_of_del in Hd as [Hy Hne].
        split; [done|]. by exists l.
    + by eapply (arr_ids _ _ _ A).
  - intros i. rewrite Li. tauto.
Qed.

(** *** Counters, highest priority and overload *)

Definition k_set_on (b : bool) (k : key_of) : key_of :=
  mk_key (k_prio k) (k_policy k) (k_cpu k) (k_migr k) (k_list k) b.

Definition q_over (q : rt_rq) : rt_rq :=
  if negb (rt_nr_migratory q =? 0) && (1 <? rt_nr_total q)
  then if overloaded q then q else q_overloaded true q
  else if overloaded q then q_overloaded false q else q.

Definition q_migr (k : key_of) (d : Z) (q : rt_rq) : rt_rq :=
  let q := q_rt_nr_total (u32 (rt_nr_total q + d)) q in
  if k_migr k then q_rt_nr_migratory (u32 (rt_nr_migratory q + d)) q else q.

Definition q_count (k : key_of) (d : Z) (q : rt_rq) : rt_rq :=
  q_rr_nr_running (u32 (rr_nr_running q + d * b2z (k_policy k =? SCHED_RR)))
    (q_rt_nr_running (u32 (rt_nr_running q + d)) q).

Definition q_inc_prio (pr : Z) (q : rt_rq) : rt_rq :=
  if pr <? highest_curr q then q_highest_curr pr q else q.

Definition q_dec_prio (pr : Z) (q : rt_rq) : rt_rq :=
  if negb (rt_nr_running q =? 0)
  then if pr =? highest_curr q then q_highest_curr (first_bit q) q else q
  else q_highest_curr (MAX_RT_PRIO - 1) q.

Definition q_inc (k : key_of) (q : rt_rq) : rt_rq :=
  q_over (q_migr k 1 (q_inc_prio (k_prio k) (q_count k 1 q))).
Definition q_dec (k : key_of) (q : rt_rq) : rt_rq :=
  q_over (q_migr k (-1) (q_dec_prio (k_prio k) (q_count k (-1) q))).

(** The members that an update of counters leaves alone. *)
Definition lists_of (q : rt_rq) := (bitmap q, queue q, pushable_tasks q, highest_next q).

Lemma q_over_frame q : lists_of (q_over q) = lists_of q /\ over_ok (q_over q) /\
  rt_nr_running (q_over q) = rt_nr_running q /\ rr_nr_running (q_over q) = rr_nr_running q /\
  rt_nr_total (q_over q) = rt_nr_total q /\ rt_nr_migratory (q_over q) = rt_nr_migratory q /\
  highest_curr (q_over q) = highest_curr q.
Proof.
  unfold over_ok, q_over. destruct (negb (rt_nr_migratory q =? 0) && (1 <? rt_nr_total q)) eqn:E, (overloaded q) eqn:O;
    simpl; by rewrite ?E, ?O.
Qed.

Lemma q_inc_members k q : lists_of (q_inc k q) = lists_of q /\ over_ok (q_inc k q) /\
  rt_nr_running (q_inc k q) = u32 (rt_nr_running q + 1) /\ rt_nr_total (q_inc k q) = u32 (rt_nr_total q + 1) /\
  rr_nr_running (q_inc k q) = u32 (rr_nr_running q + b2z (k_policy k =? SCHED_RR)) /\
  rt_nr_migratory (q_inc k q) = (if k_migr k then u32 (rt_nr_migratory q + 1) else rt_nr_migratory q) /\
  highest_curr (q_inc k q) = Z.min (k_prio k) (highest_curr q).
Proof.
  unfold q_inc. set (q1 := q_migr k 1 _). destruct (q_over_frame q1) as (-> & O & -> & -> & -> & -> & ->).
  split_and!; [|done|..]; unfold q1, q_migr, q_inc_prio;
    destruct (k_migr k), (Z.ltb_spec (k_prio k) (highest_curr (q_count k 1 q))); simpl in *; rewrite ?Z.mul_1_l; done || lia.
Qed.

Lemma q_dec_members k q : lists_of (q_dec k q) = lists_of q /\ over_ok (q_dec k q) /\
  rt_nr_running (q_dec k q) = u32 (rt_nr_running q - 1) /\ rt_nr_total (q_dec k q) = u32 (rt_nr_total q - 1) /\
  rr_nr_running (q_dec k q) = u32 (rr_nr_running q - b2z (k_policy k =? SCHED_RR)) /\
  rt_nr_migratory (q_dec k q) = (if k_migr k then u32 (rt_nr_migratory q - 1) else rt_nr_migratory q) /\
  highest_curr (q_dec k q) = (if u32 (rt_nr_running q - 1) =? 0 then MAX_RT_PRIO - 1
                              else if k_prio k =? highest_curr q then first_bit q else highest_curr q).
Proof.
  unfold q_dec. set (q1 := q_migr k (-1) _). destruct (q_over_frame q1) as (-> & O & -> & -> & -> & -> & ->).
  assert (E : rr_nr_running q + -1 * b2z (k_policy k =? SCHED_RR) = rr_nr_running q - b2z (k_policy k =? SCHED_RR)) by lia.
  change (rt_nr_running q - 1) with (rt_nr_running q + -1).
  split_and!; [|done|..]; unfold q1, q_migr, q_dec_prio, q_count; rewrite E; simpl;
    destruct (k_migr k), (u32 (rt_nr_running q + -1) =? 0) eqn:E1, (k_prio k =? highest_curr q) eqn:E2; simpl;
    rewrite ?E1, ?E2; simpl; rewrite ?E1; done.
Qed.

Lemma arr_frame K K' c q q' : arr_ok K c q -> bitmap q' = bitmap q -> queue q' = queue q ->
  (forall p, k_list (K' p) = k_list (K p) /\ k_cpu (K' p) = k_cpu (K p) /\ k_prio (K' p) = k_prio (K p)) ->
  arr_ok K' c q'.
Proof.
  intros A B Q E. assert (L : forall i p, listed q' i p <-> listed q i p) by (intros; unfold listed; by rewrite Q).
  split; rewrite ?B, ?Q; try apply A.
  - intros p i. destruct (E p) as (-> & -> & ->). rewrite L. apply A.
  - intros i. setoid_rewrite L. apply A.
  - intros p i. rewrite L. apply A.
Qed.

(** The counters follow a task that starts to count ([d = 1]) or stops ([d = -1]). *)
Lemma count_step K K' c q q' p d : arr_ok K c q -> arr_ok K' c q' -> cnt_ok K q -> others p q q' ->
  (forall x, x <> p -> K' x = K x) ->
  (forall n, n = n_on \/ n = n_rr \/ n = n_migr ->
     part n K' q' p - part n K q p = d * n (k_set_on true (K p))) ->
  rt_nr_running q' = u32 (rt_nr_running q + d) -> rt_nr_total q' = u32 (rt_nr_total q + d) ->
  rr_nr_running q' = u32 (rr_nr_running q + d * b2z (k_policy (K p) =? SCHED_RR)) ->
  rt_nr_migratory q' = (if k_migr (K p) then u32 (rt_nr_migratory q + d) else rt_nr_migratory q) ->
  cnt_ok K' q'.
Proof.
  intros A A' [C1 C2 C3 C4] O E P N1 N2 N3 N4.
  assert (T : forall n, n = n_on \/ n = n_rr \/ n = n_migr ->
    tally n K' q' = u32 (tally n K q + d * n (k_set_on true (K p)))).
  { intros n Hn. rewrite <- (P n Hn).
    assert (B : 0 <= tally n K' q' <= PID_MAX_LIMIT).
    { apply (tally_bound _ _ _ _ A'). destruct Hn as [->|[->| ->]]; [apply n_on_01|apply n_rr_01|apply n_migr_01]. }
    rewrite (tally_step n K K' q q' p) in B |- * by first [apply A|apply A'|done].
    rewrite u32_small; [lia|unfold PID_MAX_LIMIT in B; lia]. }
  split; rewrite ?N1, ?N2, ?N3, ?N4, T by auto; rewrite ?C1, ?C2, ?C3, ?C4;
    change (n_on (k_set_on true (K p))) with 1; rewrite ?Z.mul_1_r; try done.
  change (n_migr (k_set_on true (K p))) with (b2z (k_migr (K p))).
  destruct (k_migr (K p)); simpl; rewrite ?Z.mul_1_r; [done|]. rewrite Z.mul_0_r, Z.add_0_r, u32_small; [done|].
  pose proof (tally_bound n_migr _ _ _ A n_migr_01). unfold PID_MAX_LIMIT in *. lia.
Qed.

(** *** Enqueueing and dequeueing a task *)

Definition q_enq (p : Z) (move head : bool) (k : key_of) (q : rt_rq) : rt_rq :=
  q_inc k (if move then q_enlist p (k_prio k) head q else q).
Definition q_deq (p : Z) (move : bool) (k : key_of) (q : rt_rq) : rt_rq :=
  q_dec k (if move then q_delist p (k_prio k) q else q).
Definition k_at (listed on : bool) (k : key_of) : key_of := k_set_on on (k_enlist listed k).

(** The array with [p] in it: whether it enters the list now or never left it. *)
Lemma entered_ok K c q p (move head : bool) : arr_ok K c q -> 0 <= p < PID_MAX_LIMIT ->
  0 <= k_prio (K p) < MAX_RT_PRIO -> k_cpu (K p) = c -> k_list (K p) = negb move ->
  let q1 := if move then q_enlist p (k_prio (K p)) head q else q in
  arr_ok (upd K p (k_enlist true (K p))) c q1 /\ others p q q1 /\
  forall i, listed q1 i p <-> i = k_prio (K p).
Proof.
  intros A R P C L. destruct move; simpl in *; [by apply enlist_ok|]. split; [|split; [done|]].
  - eapply arr_frame; [done..|]. intros x. destruct (decide (x = p)) as [->|]; [|by rewrite upd_ne].
    by rewrite upd_eq, <- L.
  - intros i. rewrite (arr_mem _ _ _ A). naive_solver.
Qed.

Lemma left_ok K c q p (move : bool) : arr_ok K c q -> k_list (K p) = true -> k_cpu (K p) = c ->
  let q1 := if move then q_delist p (k_prio (K p)) q else q in
  arr_ok (upd K p (k_enlist (negb move) (K p))) c q1 /\ others p q q1.
Proof.
  intros A L C. destruct move; simpl; [by destruct (delist_ok K c q p A L C) as (? & ? & _)|].
  split; [|done]. eapply arr_frame; [done..|]. intros x.
  destruct (decide (x = p)) as [->|]; [|by rewrite upd_ne]. by rewrite upd_eq, <- L.
Qed.

Lemma nr_zero K c q : rt_ok K c q -> rt_nr_running q = 0 -> forall i x, listed q i x -> k_on (K x) = false.
Proof.
  intros [A [C _ _ _] _ _] Z0 i x Hx. rewrite C in Z0.
  pose proof (tally_0 n_on K q n_on_01 Z0 i x Hx) as H. unfold n_on, b2z in H. by destruct (k_on (K x)).
Qed.

Lemma nr_nonzero K c q : rt_ok K c q -> rt_nr_running q <> 0 -> exists i x, listed q i x.
Proof.
  intros [A [C _ _ _] _ _] H. destruct (concat (queue q)) as [|x l] eqn:E.
  - destruct H. rewrite C. unfold tally. by rewrite E.
  - assert (x ∈ concat (queue q)) as [i Hi]%listed_concat by (rewrite E; left). by exists i, x.
Qed.

(** The first priority when [p] has entered. *)
Lemma first_bit_entered K K1 c q q1 p : rt_ok K c q -> arr_ok K1 c q1 -> others p q q1 ->
  (forall i, listed q1 i p <-> i = k_prio (K p)) -> 0 <= k_prio (K p) < MAX_RT_PRIO ->
  (forall x i, x <> p -> listed q i x -> k_on (K x) = true) ->
  (forall i, listed q i p -> i = k_prio (K p)) ->
  first_bit q1 = Z.min (k_prio (K p)) (highest_curr q).
Proof.
  intros Ok A1 O Lp P On Lq. pose proof (ok_top _ _ _ Ok) as T. unfold top_ok in T. pose proof (ok_arr _ _ _ Ok) as A.
  destruct (first_bit_listed K c q A) as [M1 M2].
  assert (Lo : forall i x, x <> p -> listed q1 i x <-> listed q i x) by (intros; by apply (others_listed p q q1)).
  assert (Hp : listed q1 (k_prio (K p)) p) by (by apply Lp).
  destruct (Z.eqb_spec (rt_nr_running q) 0) as [Z0|Z0]; rewrite T.
  - rewrite Z.min_l by lia. eapply first_bit_intro; [done..|]. intros j x Hx.
    destruct (decide (x = p)) as [->|Hne]; [apply Lp in Hx; lia|]. rewrite Lo in Hx by done.
    pose proof (nr_zero _ _ _ Ok Z0 _ _ Hx). specialize (On x j Hne Hx). congruence.
  - assert (Hmin : forall j x, listed q1 j x -> Z.min (k_prio (K p)) (first_bit q) <= j).
    { intros j x Hx. destruct (decide (x = p)) as [->|Hne]; [apply Lp in Hx; lia|].
      rewrite Lo in Hx by done. specialize (M1 _ _ Hx). lia. }
    destruct (Z.le_gt_cases (k_prio (K p)) (first_bit q)).
    + rewrite Z.min_l in * by done. by eapply first_bit_intro.
    + rewrite Z.min_r in * by lia. destruct M2 as [x Hx]; [unfold MAX_RT_PRIO in *; lia|].
      eapply (first_bit_intro K1 c q1 _ x); [done| |done]. apply Lo; [|done]. intros ->. apply Lq in Hx. lia.
Qed.

Lemma part_listed n K q p : (exists i, listed q i p) -> part n K q p = n (K p).
Proof. intros H. unfold part. by rewrite bool_decide_eq_true_2 by (by apply listed_concat). Qed.
Lemma part_off n K q p : n (K p) = 0 -> part n K q p = 0.
Proof. intros H. unfold part. by destruct (bool_decide _). Qed.

Lemma counted_off n k : n = n_on \/ n = n_rr \/ n = n_migr -> k_on k = false -> n k = 0.
Proof. intros [->|[->| ->]] H; unfold n_on, n_rr, n_migr; by rewrite H. Qed.
Lemma counted_at n b k : n = n_on \/ n = n_rr \/ n = n_migr -> n (k_at b true k) = n (k_set_on true k).
Proof. by intros [->|[->| ->]]. Qed.

Lemma enq_ok K c q p move head : rt_ok K c q -> 0 <= p < PID_MAX_LIMIT ->
  0 <= k_prio (K p) < MAX_RT_PRIO -> k_cpu (K p) = c -> k_on (K p) = false -> k_list (K p) = negb move ->
  (forall x i, x <> p -> listed q i x -> k_on (K x) = true) ->
  rt_ok (upd K p (k_at true true (K p))) c (q_enq p move head (K p) q).
Proof.
  intros Ok R P C On L Ons. pose proof (ok_arr _ _ _ Ok) as A.
  destruct (entered_ok K c q p move head A R P C L) as (A1 & O & Lp).
  unfold q_enq. set (q1 := if move then _ else _) in *.
  destruct (q_inc_members (K p) q1) as ([= E1 E2 E3 E4] & Ov & N1 & N2 & N3 & N4 & N5). set (q2 := q_inc (K p) q1) in *.
  assert (A2 : arr_ok (upd K p (k_at true true (K p))) c q2).
  { eapply arr_frame; [apply A1|done..|]. intros x. destruct (decide (x = p)) as [->|]; [by rewrite !upd_eq|by rewrite !upd_ne]. }
  assert (O2 : others p q q2) by (unfold others; by rewrite E2).
  assert (U : forall f, (forall r, f (q_enlist p (k_prio (K p)) head r) = f r) -> f q1 = f q :> Z) by (intros f Hf; unfold q1; by destruct move).
  rewrite !U in * by done. split; [done| | |done].
  - eapply (count_step K _ c q q2 p 1); try done; [apply Ok|by intros; apply upd_ne| |by rewrite N3, Z.mul_1_l].
    intros n Hn. rewrite (part_off n K q p) by (by apply counted_off). rewrite part_listed.
    + rewrite upd_eq, counted_at by done. lia.
    + exists (k_prio (K p)). unfold listed. rewrite E2. by apply Lp.
  - unfold top_ok. rewrite N1, N5. pose proof (ok_cnt _ _ _ Ok) as [Cn _ _ _].
    pose proof (tally_bound n_on K c q A n_on_01) as B. rewrite <- Cn in B. unfold PID_MAX_LIMIT in B.
    rewrite u32_small by lia. destruct (Z.eqb_spec (rt_nr_running q + 1) 0); [lia|].
    transitivity (first_bit q1); [|unfold first_bit; by rewrite E1]. symmetry.
    eapply first_bit_entered; try done. intros i Hi. by apply (arr_mem _ _ _ A) in Hi as (_ & _ & ?).
Qed.

Lemma q_delist_frame p pr q : let q1 := q_delist p pr q in
  rt_nr_running q1 = rt_nr_running q /\ rr_nr_running q1 = rr_nr_running q /\ rt_nr_total q1 = rt_nr_total q /\
  rt_nr_migratory q1 = rt_nr_migratory q /\ highest_curr q1 = highest_curr q.
Proof. unfold q_delist. simpl. by destruct (default _ _). Qed.

(** The first priority when [p] has left: it changes only if it was that of [p]. *)
Lemma first_bit_left K K1 c q q1 p : arr_ok K c q -> arr_ok K1 c q1 -> others p q q1 ->
  listed q (k_prio (K p)) p -> (forall i, listed q1 i p -> i = k_prio (K p)) ->
  k_prio (K p) <> first_bit q -> first_bit q1 = first_bit q.
Proof.
  intros A A1 O Lq Lq1 Hne. destruct (first_bit_listed K c q A) as [M1 M2]. pose proof (M1 _ _ Lq) as M.
  apply listed_range in Lq as Rg. rewrite (arr_len _ _ _ A) in Rg.
  destruct M2 as [x Hx]; [unfold MAX_RT_PRIO in *; lia|].
  assert (Hxp : x <> p) by (intros ->; apply (arr_mem _ _ _ A) in Hx as (_ & _ & ?); done).
  eapply (first_bit_intro K1 c q1 _ x); [done|by apply (others_listed p q q1)|]. intros j y Hy.
  destruct (decide (y = p)) as [->|Hyp]; [|rewrite (others_listed p q q1) in Hy by done; by apply (M1 j y)].
  by apply Lq1 in Hy as ->.
Qed.

Lemma deq_ok K c q p move : rt_ok K c q -> k_cpu (K p) = c -> k_on (K p) = true -> k_list (K p) = true ->
  rt_ok (upd K p (k_at (negb move) false (K p))) c (q_deq p move (K p) q).
Proof.
  intros Ok C On L. pose proof (ok_arr _ _ _ Ok) as A. destruct (left_ok K c q p move A L C) as (A1 & O).
  unfold q_deq. set (q1 := if move then _ else _) in *.
  destruct (q_dec_members (K p) q1) as ([= E1 E2 E3 E4] & Ov & N1 & N2 & N3 & N4 & N5). set (q2 := q_dec (K p) q1) in *.
  assert (A2 : arr_ok (upd K p (k_at (negb move) false (K p))) c q2).
  { eapply arr_frame; [apply A1|done..|]. intros x. destruct (decide (x = p)) as [->|]; [by rewrite !upd_eq|by rewrite !upd_ne]. }
  assert (O2 : others p q q2) by (unfold others; by rewrite E2).
  assert (Lq : listed q (k_prio (K p)) p) by (by apply (arr_mem _ _ _ A)).
  assert (U : rt_nr_running q1 = rt_nr_running q /\ rr_nr_running q1 = rr_nr_running q /\ rt_nr_total q1 = rt_nr_total q /\
    rt_nr_migratory q1 = rt_nr_migratory q /\ highest_curr q1 = highest_curr q).
  { unfold q1. destruct move; [apply q_delist_frame|done]. }
  destruct U as (U1 & U2 & U3 & U4 & U5). rewrite U1, U2, U3, U4, U5 in *.
  pose proof (ok_cnt _ _ _ Ok) as [Cn _ _ _]. pose proof (tally_bound n_on K c q A n_on_01) as B.
  assert (Pos : rt_nr_running q <> 0).
  { intros Z0. pose proof (nr_zero _ _ _ Ok Z0 _ _ Lq). congruence. }
  rewrite <- Cn in B. unfold PID_MAX_LIMIT in B. split; [done| | |done].
  - eapply (count_step K _ c q q2 p (-1)); try done; [apply Ok|by intros; apply upd_ne|].
    intros n Hn. rewrite part_off by (rewrite upd_eq; by apply counted_off). rewrite part_listed by (by eexists).
    assert (E : K p = k_set_on true (K p)) by (destruct (K p); simpl in *; by subst). rewrite E at 1. lia.
  - pose proof (ok_top _ _ _ Ok) as T. unfold top_ok in *. rewrite N1, N5.
    replace (rt_nr_running q =? 0) with false in T by (symmetry; by apply Z.eqb_neq).
    destruct (u32 (rt_nr_running q - 1) =? 0); [done|].
    assert (F : first_bit q2 = first_bit q1) by (unfold first_bit; by rewrite E1). rewrite F.
    destruct (Z.eqb_spec (k_prio (K p)) (highest_curr q)) as [|Hne]; [done|]. rewrite T in Hne |- *. symmetry.
    eapply (first_bit_left K _ c q q1 p); [done|apply A1|done..| |done].
    intros i Hi. apply (arr_mem _ _ _ A1) in Hi as (_ & _ & Hi). by rewrite upd_eq in Hi.
Qed.

(** *** Moving a task within its list *)

Definition q_requeue (p pr : Z) (head : bool) (q : rt_rq) : rt_rq :=
  let queues := list_del_init p (queue q) in
  let l := default [] (aref queues pr) in
  q_queue (<[Z.to_nat pr := if head then p :: l else l ++ [p]]> queues) q.

Lemma requeue_ok K c q p head : rt_ok K c q -> k_list (K p) = true -> k_cpu (K p) = c ->
  rt_ok K c (q_requeue p (k_prio (K p)) head q).
Proof.
  intros Ok L C. pose proof (ok_arr _ _ _ Ok) as A. set (pr := k_prio (K p)). set (q' := q_requeue p pr head q).
  assert (Lp : listed q pr p) by (by apply (arr_mem _ _ _ A)). destruct Lp as (l & Hl & Hp).
  assert (Hd : aref (list_del_init p (queue q)) pr = Some (del p l)) by (by rewrite aref_list_del, Hl).
  assert (Q : queue q' = <[Z.to_nat pr := if head then p :: del p l else del p l ++ [p]]> (list_del_init p (queue q))).
  { unfold q', q_requeue. by rewrite Hd. }
  assert (O : others p q q').
  { unfold others. rewrite Q. etransitivity; [eapply list_del_put; [done|apply del_put]|apply list_del_idem]. }
  assert (Li : forall i, listed q' i p <-> i = pr).
  { intros i. unfold listed. rewrite Q. pose proof (aref_Some_range _ _ _ Hd). destruct (Z.lt_ge_cases i 0).
    - unfold aref. destruct (Z.leb_spec 0 i); [lia|]. split; [by intros (? & ? & _)|]. intros ->. lia.
    - rewrite aref_insert by done. destruct (Z.eqb_spec i pr) as [->|Hne].
      + split; [done|]. intros _. eexists. split; [done|]. apply elem_of_put. by left.
      + rewrite aref_list_del. split; [|done]. intros (m & Hm & Hpm). destruct (aref (queue q) i); [|done].
        injection Hm as <-. by apply elem_of_del in Hpm as [_ ?]. }
  assert (N : NoDup (concat (queue q'))).
  { rewrite Q, (concat_put _ _ _ _ p Hd (put_perm _ _ _)). constructor.
    - rewrite del_concat, elem_of_del. tauto.
    - rewrite del_concat. apply NoDup_ListNoDup, List.NoDup_filter, NoDup_ListNoDup, A. }
  assert (Lall : forall i x, listed q' i x <-> listed q i x).
  { intros i x. destruct (decide (x = p)) as [->|]; [|by apply (others_listed p)].
    rewrite Li, (arr_mem _ _ _ A). naive_solver. }
  assert (A' : arr_ok K c q').
  { split; [rewrite (others_len _ _ _ O); apply A|done|..]; intros; rewrite ?Lall; try apply A.
    - setoid_rewrite Lall. apply A.
    - rewrite Lall in *. by apply (arr_ids _ _ _ A) in H. }
  assert (T : forall n, tally n K q' = tally n K q).
  { intros n. rewrite (tally_step n K K q q' p) by first [apply A|done].
    rewrite !part_listed; [lia|exists pr; by apply Li|exists pr; by apply Lall, Li]. }
  destruct (ok_cnt _ _ _ Ok) as [C1 C2 C3 C4].
  split; [done|split; rewrite T; done|apply Ok|apply Ok].
Qed.

(** A queue does not depend on tasks of other CPUs. *)
Lemma rt_ok_frame K K' c q : rt_ok K c q ->
  (forall p, (k_list (K p) = true /\ k_cpu (K p) = c) \/ (k_list (K' p) = true /\ k_cpu (K' p) = c) -> K' p = K p) ->
  rt_ok K' c q.
Proof.
  intros [A [C1 C2 C3 C4] T O] E.
  assert (M : forall p i, listed q i p -> K' p = K p) by (intros p i (? & ? & _)%(arr_mem _ _ _ A); apply E; by left).
  assert (Y : forall n, tally n K' q = tally n K q).
  { intros n. apply zsum_ext. intros p [i Hp]%listed_concat. by rewrite (M p i Hp). }
  split; [|by split; rewrite Y|done|done]. split; try apply A. intros p i. rewrite (arr_mem _ _ _ A). split.
  - intros (H1 & H2 & H3). by rewrite (E p (or_introl (conj H1 H2))).
  - intros (H1 & H2 & H3). by rewrite <- (E p (or_intror (conj H1 H2))).
Qed.

(** *** Pushable tasks *)

Definition ids (h : Plist.plist_head) : list Z := map Plist.id (Plist.node_list h).

Lemma plist_remove_spec p h : Plist.plist_ok h ->
  Plist.plist_ok (plist_remove p h) /\
  Plist.node_list (plist_remove p h) = List.filter (fun n => negb (Plist.id n =? p)) (Plist.node_list h).
Proof.
  intros Ok. unfold plist_remove.
  assert (D : forall l, p ∉ map Plist.id l -> List.filter (fun n => negb (Plist.id n =? p)) l = l).
  { induction l as [|m l IH]; [done|]. simpl. intros [H1 H2]%not_elem_of_cons.
    destruct (Z.eqb_spec (Plist.id m) p); [congruence|]. simpl. by rewrite IH. }
  destruct (List.find _ _) as [n|] eqn:F.
  - apply find_first in F as (l1 & l2 & E & <-%Z.eqb_eq & _).
    destruct (Plist.del_spec n h l1 l2 Ok E) as [Ok' ->]. split; [done|]. rewrite E, List.filter_app.
    pose proof (Plist.ok_nodup _ Ok) as N. rewrite E, map_app in N. simpl in N.
    apply list.NoDup_app in N as (_ & N1 & [N2 _]%list.NoDup_cons). simpl. rewrite Z.eqb_refl. simpl.
    rewrite !D; [done|done|]. intros Hin. destruct (N1 _ Hin). left.
  - split; [done|]. symmetry. apply D. intros Hin. apply list_elem_of_fmap in Hin as (n & -> & Hn).
    apply list_elem_of_In in Hn. pose proof (find_none _ _ F n Hn) as Hf. simpl in Hf. by rewrite Z.eqb_refl in Hf.
Qed.

Lemma remove_ids p h x : Plist.plist_ok h -> x ∈ ids (plist_remove p h) <-> x ∈ ids h /\ x <> p.
Proof.
  intros Ok. unfold ids. rewrite (proj2 (plist_remove_spec p h Ok)). split.
  - intros (n & -> & Hn)%list_elem_of_fmap. rewrite list_elem_of_In, filter_In, <- list_elem_of_In in Hn.
    destruct Hn as [Hn Hp%negb_true_iff%Z.eqb_neq]. split; [|done]. by apply list_elem_of_fmap_2.
  - intros [(n & -> & Hn)%list_elem_of_fmap Hp]. apply list_elem_of_fmap_2.
    rewrite list_elem_of_In, filter_In, <- list_elem_of_In. split; [done|]. by apply negb_true_iff, Z.eqb_neq.
Qed.

Definition q_push (p pr : Z) (q : rt_rq) : rt_rq :=
  let q := q_pushable_tasks (Plist.plist_add (Plist.mk_node p pr) (plist_remove p (pushable_tasks q))) q in
  if pr <? highest_next q then q_highest_next pr q else q.

Definition q_unpush (P : Z -> Z) (p : Z) (q : rt_rq) : rt_rq :=
  let q := q_pushable_tasks (plist_remove p (pushable_tasks q)) q in
  match Plist.plist_first (pushable_tasks q) with
  | Some n => q_highest_next (P (Plist.id n)) q
  | None => q_highest_next (MAX_RT_PRIO - 1) q
  end.

Lemma elem_of_plist_insert n l m : m ∈ Plist.insert n l <-> m = n \/ m ∈ l.
Proof.
  induction l as [|x l IH]; simpl; [rewrite !elem_of_cons, elem_of_nil; tauto|].
  destruct (_ <? _); rewrite !elem_of_cons, ?IH, ?elem_of_cons; tauto.
Qed.

Lemma push_add_ok K S S' q p : push_ok K S q -> 0 <= k_prio (K p) < MAX_RT_PRIO -> ~ S p ->
  (forall x, S' x <-> S x \/ x = p) -> push_ok K S' (q_push p (k_prio (K p)) q).
Proof.
  intros [Ok M Pr Nx] Hp Hn HS. set (n := Plist.mk_node p (k_prio (K p))).
  destruct (plist_remove_spec p _ Ok) as [Ok1 E1].
  assert (E0 : Plist.node_list (plist_remove p (pushable_tasks q)) = Plist.node_list (pushable_tasks q)).
  { rewrite E1. rewrite <- M in Hn. revert Hn. generalize (Plist.node_list (pushable_tasks q)).
    induction l as [|m l IH]; [done|]. simpl. intros [H1 H2]%not_elem_of_cons.
    destruct (Z.eqb_spec (Plist.id m) p); [congruence|]. simpl. by rewrite IH. }
  destruct (Plist.add_spec n (plist_remove p (pushable_tasks q)) Ok1) as [Ok2 E2].
  { rewrite E0. intros m Hm E. apply Hn, M. change p with (Plist.id n). rewrite <- E. by apply list_elem_of_fmap_2. }
  rewrite E0 in E2.
  assert (F : pushable_tasks (q_push p (k_prio (K p)) q) = Plist.plist_add n (plist_remove p (pushable_tasks q))).
  { unfold q_push. by destruct (_ <? _). }
  split; rewrite ?F; [done|..].
  - intros x. rewrite E2, HS, <- M, !list_elem_of_fmap. setoid_rewrite elem_of_plist_insert. naive_solver.
  - intros m. rewrite E2, elem_of_plist_insert. intros [->|Hm]; [done|by apply Pr].
  - rewrite E2. unfold q_push. simpl. rewrite Nx. destruct (Plist.node_list (pushable_tasks q)) as [|m l] eqn:El.
    + simpl. destruct (Z.ltb_spec (k_prio (K p)) (MAX_RT_PRIO - 1)); simpl; [done|]. rewrite Nx. lia.
    + simpl. destruct (Z.ltb_spec (k_prio (K p)) (Plist.prio m)); simpl; done || by rewrite Nx.
Qed.

Lemma push_del_ok K S S' q p P : push_ok K S q -> (forall x, S x -> x <> p -> P x = k_prio (K x)) ->
  (forall x, S' x <-> S x /\ x <> p) -> push_ok K S' (q_unpush P p q).
Proof.
  intros [Ok M Pr Nx] HP HS. destruct (plist_remove_spec p _ Ok) as [Ok1 E1].
  assert (F : pushable_tasks (q_unpush P p q) = plist_remove p (pushable_tasks q)).
  { unfold q_unpush. by destruct (Plist.plist_first _). }
  assert (Hin : forall m, m ∈ Plist.node_list (plist_remove p (pushable_tasks q)) ->
    m ∈ Plist.node_list (pushable_tasks q) /\ S (Plist.id m) /\ Plist.id m <> p).
  { intros m. rewrite E1, list_elem_of_In, filter_In, <- list_elem_of_In. intros [Hm Hp%negb_true_iff%Z.eqb_neq].
    split_and!; [done| |done]. apply M. by apply list_elem_of_fmap_2. }
  split; rewrite ?F; [done|..].
  - intros x. rewrite HS, <- M. by apply remove_ids.
  - intros m (Hm & _)%Hin. by apply Pr.
  - unfold q_unpush, Plist.plist_first. simpl. destruct (Plist.node_list (plist_remove _ _)) as [|m l] eqn:El; simpl; [done|].
    destruct (Hin m) as (H1 & H2 & H3); [left|]. rewrite HP by done. symmetry. by apply Pr.
Qed.

Lemma push_frame K K' S S' q q' : push_ok K S q -> pushable_tasks q' = pushable_tasks q ->
  highest_next q' = highest_next q -> (forall x, S x -> k_prio (K' x) = k_prio (K x)) ->
  (forall x, S' x <-> S x) -> push_ok K' S' q'.
Proof.
  intros [Ok M Pr Nx] E1 E2 E HS. split; rewrite ?E1, ?E2; [done|..|done].
  - intros x. rewrite HS. apply M.
  - intros n Hn. rewrite Pr by done. symmetry. apply E, M. by apply list_elem_of_fmap_2.
Qed.

End Queue.
End RtQueue.
