(* ===== verification/RtInv.v ===== *)
(** The run queues and root domains of the real-time class.

    [links] ties the CPU index and the overload mask of every root domain to its run
    queues.  The handlers that change a queue run to the end, keep the links and change
    exactly the queue and the task: the lemmas give their effect as an update of the
    world up to [weq], which forgets the root domains and the period timer. *)

From Stdlib Require Import ZArith Lia List.
From stdpp Require Import base list numbers option.
From S2P Require Import Prelude Plist Cpudl Cpupri Cbs Deadline Rt RtQueue.

Module RtInv.
Export RtQueue.
Import Cbs(RUNTIME_INF, NSEC_PER_USEC).
Import Deadline(SCHED_RR, TASK_ON_RQ_QUEUED, TASK_ON_RQ_MIGRATING, DEQUEUE_SLEEP, DEQUEUE_SAVE,
  DEQUEUE_MOVE, DEQUEUE_NOCLOCK, ENQUEUE_WAKEUP, ENQUEUE_RESTORE, ENQUEUE_NOCLOCK, ENQUEUE_HEAD,
  ENQUEUE_REPLENISH, ENQUEUE_MIGRATED, EINVAL, has, dl_prio).

Section Inv.
Context {pf : RtPlatform}.

Definition cpu_ok (c : Z) : Prop := 0 <= c < nr_cpu_ids.
Definition keys (w : world) (p : Z) : key_of := key (task_of w p).

(** *** Worlds up to root domains and the bandwidth timer *)

Record weq (w w' : world) : Prop := {
  weq_task : forall p, task_of w' p = task_of w p;
  weq_rq : forall c, cpu_rq w' c = cpu_rq w c;
  weq_online : cpu_online_mask w' = cpu_online_mask w;
  weq_active : cpu_active_mask w' = cpu_active_mask w;
  weq_period : sysctl_sched_rt_period w' = sysctl_sched_rt_period w;
  weq_runtime : sysctl_sched_rt_runtime w' = sysctl_sched_rt_runtime w;
  weq_rr : sched_rr_timeslice w' = sched_rr_timeslice w;
  weq_limit : b_runtime (def_rt_bandwidth w') = b_runtime (def_rt_bandwidth w) /\
    rt_period (def_rt_bandwidth w') = rt_period (def_rt_bandwidth w);
  weq_span : forall d, span (rd_of w' d) = span (rd_of w d)
}.

#[export] Instance weq_equiv : Equivalence weq.
Proof.
  split; [done| |].
  - intros w w' [? ? ? ? ? ? ? [? ?] ?]. split; congruence || by split; symmetry.
  - intros a b c [A1 A2 A3 A4 A5 A6 A7 [A8 A9] A10] [B1 B2 B3 B4 B5 B6 B7 [B8 B9] B10]. split; congruence || by split; congruence.
Qed.

Lemma weq_on_task w w' p f : weq w w' -> weq (on_task w p f) (on_task w' p f).
Proof. intros [H1 H2 H3 H4 H5 H6 H7 H8 H9]. split; try done. intros x. simpl. unfold upd. by rewrite !H1. Qed.
Lemma weq_on_rq w w' c f : weq w w' -> weq (on_rq_of w c f) (on_rq_of w' c f).
Proof. intros [H1 H2 H3 H4 H5 H6 H7 H8 H9]. split; try done. intros x. simpl. unfold upd. by rewrite !H2. Qed.

Lemma weq_rtq w w' c : weq w w' -> rtq w' c = rtq w c.
Proof. intros H. unfold rtq. by rewrite (weq_rq _ _ H). Qed.

Lemma rtq_on_rt w c f x : rtq (on_rt w c f) x = if x =? c then f (rtq w c) else rtq w x.
Proof. unfold rtq, on_rt. simpl. unfold upd. by destruct (x =? c). Qed.
Lemma rq_on_rt w c f x : cpu_rq (on_rt w c f) x = if x =? c then r_rt (f (rtq w c)) (cpu_rq w c) else cpu_rq w x.
Proof. done. Qed.

(** Two successive updates of one queue. *)
Lemma on_rt_on_rt w c f g : weq (on_rt (on_rt w c f) c g) (on_rt w c (fun q => g (f q))).
Proof.
  split; try done. intros x. simpl. unfold upd. destruct (Z.eqb_spec x c); [|done]. by rewrite Z.eqb_refl.
Qed.
Lemma on_rt_ext w c f g : f (rtq w c) = g (rtq w c) -> weq (on_rt w c f) (on_rt w c g).
Proof.
  intros E. split; try done. intros x. simpl. unfold upd. destruct (x =? c); [|done]. unfold rtq in E. by rewrite E.
Qed.
Lemma on_rt_id w c f : f (rtq w c) = rtq w c -> weq (on_rt w c f) w.
Proof.
  intros E. split; try done. intros x. simpl. unfold upd. destruct (Z.eqb_spec x c) as [->|]; [|done].
  unfold rtq in E. rewrite E. by destruct (cpu_rq w c).
Qed.
Lemma weq_on_rd w d f : (forall r, span (f r) = span r) -> weq w (on_rd w d f).
Proof. intros H. split; try done. intros e. simpl. unfold upd. destruct (Z.eqb_spec e d) as [->|]; [apply H|done]. Qed.

(** *** Links *)

Definition cpu_pri (w : world) (d c : Z) : Z :=
  if (rd (cpu_rq w c) =? d) && online (cpu_rq w c) then highest_curr (rtq w c) else Cpupri.CPUPRI_INVALID.
Definition cpu_over (w : world) (d c : Z) : bool :=
  (0 <=? c) && (c <? nr_cpu_ids) && (rd (cpu_rq w c) =? d) && online (cpu_rq w c) && overloaded (rtq w c).

(** What the index may hold instead, by the stores of the deadline class: for a CPU online in
    the domain that has deadline tasks the level above all real-time tasks, and for another
    one anything if the class has ever stored while the run queue was offline. *)
Definition dl_stored (w : world) (d c v : Z) : Prop :=
  let l := dl (cpu_rq w c) in
  if (rd (cpu_rq w c) =? d) && online (cpu_rq w c) then v = Cpupri.CPUPRI_HIGHER /\ 0 < dl_nr_running l
  else stored_offline l = true.

(** Every root domain knows the highest priority and the overload of its online CPUs. *)
Record links (w : world) : Prop := {
  lk_wf : forall d, Cpupri.cpupri_wf nr_cpu_ids (Z.ones nr_cpu_ids) (rd_cpupri (rd_of w d));
  lk_pri : forall d c, cpu_ok c ->
    let v := Cpupri.pr (rd_cpupri (rd_of w d)) c in
    Cpupri.convert_prio (cpu_pri w d c) = Some v \/ dl_stored w d c v;
  lk_over : forall d c, mask_test (rto_mask (rd_of w d)) c = cpu_over w d c;
  lk_count : forall d, rto_count (rd_of w d) = zsum (fun c => b2z (cpu_over w d c)) (seqZ 0 nr_cpu_ids);
  lk_work : forall d i, rto_push_work (rd_of w d) = Some i -> cpu_ok i
}.

(** What the links depend on. *)
Definition link_view (q : rq) := (rd q, online q, highest_curr (rt q), overloaded (rt q), dl q).
Definition rd_view (d : root_domain) := (rd_cpupri d, rto_mask d, rto_count d, rto_push_work d).

Lemma links_ext w w' : links w -> (forall d c, cpu_pri w' d c = cpu_pri w d c) ->
  (forall d c v, dl_stored w d c v -> dl_stored w' d c v) ->
  (forall d c, cpu_over w' d c = cpu_over w d c) -> (forall d, rd_view (rd_of w' d) = rd_view (rd_of w d)) -> links w'.
Proof.
  intros [L1 L2 L3 L4 L5] P S O D.
  split; intros d; specialize (D d) as [= D1 D2 D3 D4]; rewrite ?D1, ?D2, ?D3, ?D4; [done|..|apply L5].
  - intros c Hc. rewrite P. destruct (L2 d c Hc); auto.
  - intros c. by rewrite O.
  - rewrite L4. apply zsum_ext. intros c _. by rewrite O.
Qed.

Lemma links_frame w w' : links w -> (forall c, link_view (cpu_rq w' c) = link_view (cpu_rq w c)) ->
  (forall d, rd_view (rd_of w' d) = rd_view (rd_of w d)) -> links w'.
Proof.
  intros L Q D. eapply links_ext; [done| | | |done]; intros d c; specialize (Q c) as [= E1 E2 E3 E4 E5];
    unfold cpu_pri, dl_stored, cpu_over, rtq; by rewrite E1, E2, ?E3, ?E4, ?E5.
Qed.

Lemma ones_spec c i : cpu_ok c -> mask_test (Z.ones nr_cpu_ids) i = true <-> cpu_ok i.
Proof.
  unfold cpu_ok, mask_test. intros H. destruct (Z.lt_ge_cases i 0); [rewrite Z.testbit_neg_r by done; lia|].
  rewrite Z.testbit_ones_nonneg, Z.ltb_lt by lia. lia.
Qed.
Lemma ones_ok c : cpu_ok c -> Prelude.mask_ok nr_cpu_ids (Z.ones nr_cpu_ids).
Proof. intros H i Hi. by apply (ones_spec c i H) in Hi. Qed.

Lemma rdq_on_rdq w c f : rdq (on_rdq w c f) c = f (rdq w c).
Proof. unfold rdq, on_rdq. simpl. unfold upd. by rewrite Z.eqb_refl. Qed.

Definition same_but (c : Z) (w w' : world) : Prop :=
  (forall x, x <> c -> link_view (cpu_rq w' x) = link_view (cpu_rq w x)) /\
  rd (cpu_rq w' c) = rd (cpu_rq w c) /\ (stored_offline (dl (cpu_rq w c)) = true -> stored_offline (dl (cpu_rq w' c)) = true) /\
  forall d, rd_of w' d = rd_of w d.

Lemma convert_some p : 0 <= p < MAX_RT_PRIO -> exists r, Cpupri.convert_prio p = Some r.
Proof.
  unfold Cpupri.convert_prio, Cpupri.CPUPRI_INVALID, Cpupri.MAX_RT_PRIO, MAX_RT_PRIO. intros H.
  repeat (case_match; [by eexists|]). zcase; lia.
Qed.

(** A store to the index for a CPU, which holds the priority of the CPU or what the deadline
    class stores. *)
Lemma links_set_pri w w1 c pri r : links w -> cpu_ok c -> same_but c w w1 ->
  (forall d, cpu_over w1 d c = cpu_over w d c) -> Cpupri.convert_prio pri = Some r ->
  pri = cpu_pri w1 (rd (cpu_rq w1 c)) c \/ dl_stored w1 (rd (cpu_rq w1 c)) c r ->
  exists cp, Cpupri.cpupri_set (rd_cpupri (rdq w1 c)) c pri = Some cp /\ links (on_rdq w1 c (d_rd_cpupri cp)).
Proof.
  intros L Hc (Q & R & So & D) O Hr Ep. pose proof (ones_ok c Hc) as Hones.
  destruct (Cpupri.cpupri_set_spec nr_cpu_ids (Z.ones nr_cpu_ids) (rd_cpupri (rdq w1 c)) c pri r) as (cp & E & Wf & _ & Pr);
    [unfold cpu_ok in Hc; lia|done|unfold rdq; rewrite D; apply L|by apply (ones_spec c)|done|].
  exists cp. split; [done|]. set (w2 := on_rdq w1 c (d_rd_cpupri cp)).
  assert (Eo : forall d x, cpu_over w2 d x = cpu_over w d x).
  { intros d x. destruct (decide (x = c)) as [->|Hx]; [apply O|]. unfold cpu_over. change (cpu_rq w2) with (cpu_rq w1).
    specialize (Q x Hx) as [= E1 E2 E3 E4 _]. unfold rtq. change (cpu_rq w2) with (cpu_rq w1). by rewrite E1, E2, E4. }
  assert (Dm : forall d, rto_mask (rd_of w2 d) = rto_mask (rd_of w d) /\ rto_count (rd_of w2 d) = rto_count (rd_of w d) /\
    rto_push_work (rd_of w2 d) = rto_push_work (rd_of w d)).
  { intros d. unfold w2, on_rdq. simpl. unfold upd. destruct (Z.eqb_spec d (rd (cpu_rq w1 c))) as [->|]; by rewrite <- ?D. }
  split.
  - intros d. unfold w2, on_rdq. simpl. unfold upd. destruct (d =? _); [done|]. rewrite D. apply L.
  - intros d x Hx. cbv zeta. assert (Hx0 : 0 <= x) by (unfold cpu_ok in Hx; lia). change (cpu_pri w2 d x) with (cpu_pri w1 d x).
    change (dl_stored w2 d x) with (dl_stored w1 d x).
    destruct (decide (x = c /\ d = rd (cpu_rq w1 c))) as [[-> ->]|Hne].
    + unfold w2, on_rdq. simpl. rewrite upd_eq. simpl. rewrite Pr, Z.eqb_refl by done. destruct Ep as [<-|]; auto.
    + assert (Ev : Cpupri.pr (rd_cpupri (rd_of w2 d)) x = Cpupri.pr (rd_cpupri (rd_of w d)) x).
      { unfold w2, on_rdq. simpl. unfold upd. destruct (Z.eqb_spec d (rd (cpu_rq w1 c))) as [->|]; [|by rewrite D]. simpl.
        rewrite Pr, (proj2 (Z.eqb_neq x c)) by naive_solver. unfold rdq. by rewrite D. }
      rewrite Ev. destruct (decide (x = c)) as [->|Hxc].
      * assert (F : rd (cpu_rq w1 c) =? d = false) by (apply Z.eqb_neq; naive_solver).
        destruct (lk_pri _ L d c Hc) as [H|H]; [left|right]; revert H; unfold cpu_pri, dl_stored; rewrite <- R, F; [done|apply So].
      * specialize (Q x Hxc) as [= E1 E2 E3 _ E5]. unfold cpu_pri, dl_stored, rtq. rewrite E1, E2, E3, E5. by apply L.
  - intros d x. rewrite (proj1 (Dm d)), Eo. apply L.
  - intros d. rewrite (proj1 (proj2 (Dm d))), (lk_count _ L). apply zsum_ext. intros x _. by rewrite Eo.
  - intros d. rewrite (proj2 (proj2 (Dm d))). apply L.
Qed.

(** The overload of a CPU changes together with the mask and the count. *)
Lemma links_set_over w w2 c b : links w -> cpu_ok c ->
  (forall d x, cpu_pri w2 d x = cpu_pri w d x) -> (forall d x v, dl_stored w d x v -> dl_stored w2 d x v) ->
  (forall d x, x <> c -> cpu_over w2 d x = cpu_over w d x) ->
  (forall d, cpu_over w2 d c = if d =? rd (cpu_rq w c) then b else cpu_over w d c) ->
  (forall d, d <> rd (cpu_rq w c) -> rd_view (rd_of w2 d) = rd_view (rd_of w d)) ->
  rd_cpupri (rd_of w2 (rd (cpu_rq w c))) = rd_cpupri (rdq w c) ->
  rto_mask (rd_of w2 (rd (cpu_rq w c))) =
    (if b then mask_set (rto_mask (rdq w c)) c else mask_clear (rto_mask (rdq w c)) c) ->
  rto_count (rd_of w2 (rd (cpu_rq w c))) =
    rto_count (rdq w c) + b2z b - b2z (cpu_over w (rd (cpu_rq w c)) c) ->
  rto_push_work (rd_of w2 (rd (cpu_rq w c))) = rto_push_work (rdq w c) -> links w2.
Proof.
  intros L Hc P So Ox Oc Dd Dp Dm Dn Dw. set (dc := rd (cpu_rq w c)) in *.
  assert (V : forall d, d <> dc -> rd_cpupri (rd_of w2 d) = rd_cpupri (rd_of w d) /\
    rto_mask (rd_of w2 d) = rto_mask (rd_of w d) /\ rto_count (rd_of w2 d) = rto_count (rd_of w d) /\
    rto_push_work (rd_of w2 d) = rto_push_work (rd_of w d)).
  { intros d Hd. by specialize (Dd d Hd) as [= -> -> -> ->]. }
  split.
  - intros d. destruct (decide (d = dc)) as [->|Hd]; [rewrite Dp|rewrite (proj1 (V d Hd))]; apply L.
  - intros d x Hx. cbv zeta. rewrite P. destruct (decide (d = dc)) as [->|Hd]; [rewrite Dp|rewrite (proj1 (V d Hd))];
      [destruct (lk_pri _ L dc x Hx)|destruct (lk_pri _ L d x Hx)]; auto.
  - intros d x. destruct (decide (d = dc)) as [->|Hd].
    + rewrite Dm. destruct (decide (x = c)) as [->|Hx].
      * rewrite Oc, Z.eqb_refl. destruct b; [rewrite mask_test_set by (unfold cpu_ok in Hc; lia)|rewrite mask_test_clear];
          rewrite Z.eqb_refl; simpl; [done|apply andb_false_r].
      * rewrite Ox by done. destruct (Z.lt_ge_cases x 0).
        { unfold cpu_over. destruct (Z.leb_spec 0 x); [lia|]. unfold mask_test. by rewrite Z.testbit_neg_r. }
        destruct b; [rewrite mask_test_set by (unfold cpu_ok in Hc; lia)|rewrite mask_test_clear];
          rewrite (proj2 (Z.eqb_neq _ _) Hx); simpl; rewrite ?andb_true_r; apply L.
    + rewrite (proj1 (proj2 (V d Hd))). destruct (decide (x = c)) as [->|Hx]; [|rewrite Ox by done; apply L].
      rewrite Oc, (proj2 (Z.eqb_neq _ _) Hd). apply L.
  - intros d. destruct (decide (d = dc)) as [->|Hd].
    + rewrite Dn. unfold rdq. fold dc. rewrite (lk_count _ L).
      rewrite (zsum_update (fun x => b2z (cpu_over w dc x)) (fun x => b2z (cpu_over w2 dc x)) (seqZ 0 nr_cpu_ids) c);
        [|apply NoDup_seqZ|apply elem_of_seqZ; unfold cpu_ok in Hc; lia|intros x _ Hx; by rewrite Ox].
      rewrite Oc, Z.eqb_refl. lia.
    + rewrite (proj1 (proj2 (proj2 (V d Hd)))), (lk_count _ L). apply zsum_ext. intros x _.
      destruct (decide (x = c)) as [->|Hx]; [|by rewrite Ox]. by rewrite Oc, (proj2 (Z.eqb_neq _ _) Hd).
  - intros d. destruct (decide (d = dc)) as [->|Hd]; [rewrite Dw|rewrite (proj2 (proj2 (proj2 (V d Hd))))]; apply L.
Qed.

(** *** The updates of one queue *)

Lemma links_on_rt w c f : links w -> highest_curr (f (rtq w c)) = highest_curr (rtq w c) ->
  overloaded (f (rtq w c)) = overloaded (rtq w c) -> links (on_rt w c f).
Proof.
  intros L H1 H2. eapply links_frame; [done| |done]. intros x. rewrite rq_on_rt. destruct (Z.eqb_spec x c) as [->|]; [|done].
  unfold link_view. simpl. by rewrite H1, H2.
Qed.

Lemma links_on_task w p f : links w -> links (on_task w p f).
Proof. intros L. by eapply links_frame. Qed.

Lemma same_but_on_rt w c f : same_but c w (on_rt w c f).
Proof.
  split; [|split; [|split; [|done]]]; [intros x Hx|..]; rewrite rq_on_rt; [by rewrite (proj2 (Z.eqb_neq _ _) Hx)|by rewrite Z.eqb_refl..].
Qed.

Lemma rq_on_rt_eq w c f : cpu_rq (on_rt w c f) c = r_rt (f (rtq w c)) (cpu_rq w c).
Proof. by rewrite rq_on_rt, Z.eqb_refl. Qed.
Lemma rtq_on_rt_eq w c f : rtq (on_rt w c f) c = f (rtq w c).
Proof. by rewrite rtq_on_rt, Z.eqb_refl. Qed.

(** A new highest priority reaches the index if the CPU is online. *)
Lemma store_prio w c f : links w -> cpu_ok c -> overloaded (f (rtq w c)) = overloaded (rtq w c) ->
  0 <= highest_curr (f (rtq w c)) < MAX_RT_PRIO ->
  let w1 := on_rt w c f in
  exists w', (if online (cpu_rq w1 c) && negb (highest_curr (rtq w1 c) =? highest_curr (rtq w c))
              then set_cpupri w1 c (highest_curr (rtq w1 c)) else Some w1) = Some w' /\
    links w' /\ weq w1 w'.
Proof.
  intros L Hc O H w1. unfold w1 at 1 2. rewrite rq_on_rt_eq, rtq_on_rt_eq. simpl.
  assert (Ov : forall d x, cpu_over w1 d x = cpu_over w d x).
  { intros d x. unfold cpu_over, w1. rewrite rq_on_rt, rtq_on_rt. destruct (Z.eqb_spec x c) as [->|]; [|done]. simpl. by rewrite O. }
  destruct (online (cpu_rq w c)) eqn:On; simpl; cycle 1.
  { exists w1. split_and!; [done| |done]. apply (links_ext w); [done| |intros d x v; unfold dl_stored, w1; rewrite rq_on_rt; by destruct (Z.eqb_spec x c) as [->|]|done..].
    intros d x. unfold cpu_pri, w1.
    rewrite rq_on_rt. destruct (Z.eqb_spec x c) as [->|Hx]; simpl; [by rewrite On, !andb_false_r|].
    rewrite rtq_on_rt. by rewrite (proj2 (Z.eqb_neq _ _) Hx). }
  destruct (Z.eqb_spec (highest_curr (f (rtq w c))) (highest_curr (rtq w c))) as [E|E]; simpl.
  - exists w1. split_and!; [done|by apply links_on_rt|done].
  - destruct (convert_some _ H) as [r Hr].
    destruct (links_set_pri w w1 c (highest_curr (rtq w1 c)) r) as (cp & E1 & L1); try done.
    + apply same_but_on_rt.
    + unfold w1. by rewrite rtq_on_rt_eq.
    + left. unfold cpu_pri, w1. rewrite rq_on_rt_eq. simpl. by rewrite On, Z.eqb_refl.
    + unfold set_cpupri. rewrite E1. simpl. eexists. split_and!; [done..|by apply weq_on_rd].
Qed.

Lemma inc_rt_prio_spec w c pr : links w -> cpu_ok c -> 0 <= pr < MAX_RT_PRIO ->
  exists w', inc_rt_prio w c pr = Some w' /\ links w' /\ weq (on_rt w c (q_inc_prio pr)) w'.
Proof.
  intros L Hc Hp. unfold inc_rt_prio, inc_rt_prio_smp. destruct (Z.ltb_spec pr (highest_curr (rtq w c))) as [Hlt|Hge].
  - destruct (store_prio w c (q_highest_curr pr) L Hc eq_refl Hp) as (w' & E & L' & W).
    rewrite rtq_on_rt_eq in E. simpl in E. rewrite (proj2 (Z.eqb_neq pr _)) in E by lia. rewrite andb_true_r in *.
    exists w'. split_and!; [done..|]. rewrite <- W. apply on_rt_ext. unfold q_inc_prio. by destruct (Z.ltb_spec pr (highest_curr (rtq w c))); [|lia].
  - rewrite andb_false_r. exists w. split_and!; [done..|]. apply on_rt_id. unfold q_inc_prio.
    by destruct (Z.ltb_spec pr (highest_curr (rtq w c))); [lia|].
Qed.

Lemma dec_rt_prio_spec K w c pr : links w -> cpu_ok c -> arr_ok K c (rtq w c) ->
  0 <= highest_curr (q_dec_prio pr (rtq w c)) < MAX_RT_PRIO ->
  exists w', dec_rt_prio w c pr = Some w' /\ links w' /\ weq (on_rt w c (q_dec_prio pr)) w'.
Proof.
  intros L Hc A H. unfold dec_rt_prio, dec_rt_prio_smp. destruct (first_bit_spec K c _ A) as (F & _).
  assert (G : forall f, f (rtq w c) = q_dec_prio pr (rtq w c) -> overloaded (f (rtq w c)) = overloaded (rtq w c) ->
    exists w', (let w1 := on_rt w c f in if online (cpu_rq w1 c) && negb (highest_curr (rtq w1 c) =? highest_curr (rtq w c))
       then set_cpupri w1 c (highest_curr (rtq w1 c)) else Some w1) = Some w' /\ links w' /\ weq (on_rt w c (q_dec_prio pr)) w').
  { intros f Ef Of. destruct (store_prio w c f L Hc Of) as (w' & E & L' & W); [by rewrite Ef|].
    exists w'. split_and!; [done..|]. rewrite <- W. by apply on_rt_ext. }
  destruct (Z.eqb_spec (rt_nr_running (rtq w c)) 0) as [Z0|Z0]; simpl.
  - apply G; [|done]. unfold q_dec_prio. by rewrite Z0.
  - apply Z.eqb_neq in Z0. destruct (Z.eqb_spec pr (highest_curr (rtq w c))) as [Ep|Ep].
    + rewrite F. simpl. apply (G (q_highest_curr (first_bit (rtq w c)))); [|done]. unfold q_dec_prio.
      by rewrite Z0, (proj2 (Z.eqb_eq _ _) Ep).
    + simpl. rewrite Z.eqb_refl, andb_false_r. exists w. split_and!; [done..|]. apply on_rt_id. unfold q_dec_prio.
      by rewrite Z0, (proj2 (Z.eqb_neq _ _) Ep).
Qed.

(** The flag of a CPU flips, and with it the mask and the count if it is online. *)
Definition mark_overload (w : world) (c : Z) (b : bool) : world :=
  on_rt (if b then rt_set_overload w c else rt_clear_overload w c) c (q_overloaded b).

Lemma mark_overload_weq w c b : weq (on_rt w c (q_overloaded b)) (mark_overload w c b).
Proof.
  unfold mark_overload, rt_set_overload, rt_clear_overload. apply weq_on_rq.
  destruct b, (online (cpu_rq w c)); done || by apply weq_on_rd.
Qed.

Lemma mark_overload_links w c b : links w -> cpu_ok c -> overloaded (rtq w c) = negb b -> links (mark_overload w c b).
Proof.
  intros L Hc O. pose proof (mark_overload_weq w c b) as W.
  assert (Q : forall x, cpu_rq (mark_overload w c b) x = if x =? c then r_rt (q_overloaded b (rtq w c)) (cpu_rq w c) else cpu_rq w x).
  { intros x. by rewrite (weq_rq _ _ W), rq_on_rt. }
  assert (P : forall d x, cpu_pri (mark_overload w c b) d x = cpu_pri w d x).
  { intros d x. unfold cpu_pri, rtq. rewrite Q. destruct (Z.eqb_spec x c) as [->|]; done. }
  assert (Ds : forall d x v, dl_stored w d x v -> dl_stored (mark_overload w c b) d x v).
  { intros d x v. unfold dl_stored. rewrite Q. by destruct (Z.eqb_spec x c) as [->|]. }
  assert (Ox : forall d x, x <> c -> cpu_over (mark_overload w c b) d x = cpu_over w d x).
  { intros d x Hx. unfold cpu_over, rtq. by rewrite Q, (proj2 (Z.eqb_neq _ _) Hx). }
  assert (Oc : forall d, cpu_over (mark_overload w c b) d c = (rd (cpu_rq w c) =? d) && online (cpu_rq w c) && b).
  { intros d. unfold cpu_over, rtq. rewrite Q, Z.eqb_refl. simpl. unfold cpu_ok in Hc.
    destruct (Z.leb_spec 0 c), (Z.ltb_spec c nr_cpu_ids); done || lia. }
  assert (Oc' : forall d, cpu_over w d c = (rd (cpu_rq w c) =? d) && online (cpu_rq w c) && negb b).
  { intros d. unfold cpu_over. rewrite O. unfold cpu_ok in Hc.
    destruct (Z.leb_spec 0 c), (Z.ltb_spec c nr_cpu_ids); done || lia. }
  destruct (online (cpu_rq w c)) eqn:On.
  - assert (D : forall d, rd_of (mark_overload w c b) d = if d =? rd (cpu_rq w c) then
        (if b then d_rto_count (rto_count (rdq w c) + 1) (d_rto_mask (mask_set (rto_mask (rdq w c)) c) (rdq w c))
         else d_rto_mask (mask_clear (rto_mask (rdq w c)) c) (d_rto_count (rto_count (rdq w c) - 1) (rdq w c))) else rd_of w d).
    { intros d. unfold mark_overload, rt_set_overload, rt_clear_overload. rewrite On. destruct b; done. }
    eapply (links_set_over w _ c b); try done; rewrite ?D, ?Z.eqb_refl.
    + intros d. rewrite Oc, Oc', !andb_true_r, Z.eqb_sym. by destruct (d =? _).
    + intros d Hd. by rewrite D, (proj2 (Z.eqb_neq _ _) Hd).
    + by destruct b.
    + by destruct b.
    + rewrite Oc', Z.eqb_refl. destruct b; simpl; lia.
    + by destruct b.
  - apply (links_ext w); [done|done|done| |].
    + intros d x. destruct (decide (x = c)) as [->|]; [|by apply Ox]. by rewrite Oc, Oc', !andb_false_r.
    + intros d. unfold mark_overload, rt_set_overload, rt_clear_overload. rewrite On. by destruct b.
Qed.

Lemma update_rt_migration_spec w c : links w -> cpu_ok c ->
  links (update_rt_migration w c) /\ weq (on_rt w c q_over) (update_rt_migration w c).
Proof.
  intros L Hc. unfold update_rt_migration.
  assert (G : forall b, overloaded (rtq w c) = negb b -> q_over (rtq w c) = q_overloaded b (rtq w c) ->
    links (mark_overload w c b) /\ weq (on_rt w c q_over) (mark_overload w c b)).
  { intros b O E. split; [by apply mark_overload_links|]. rewrite <- mark_overload_weq. by apply on_rt_ext. }
  assert (Id : q_over (rtq w c) = rtq w c -> links w /\ weq (on_rt w c q_over) w) by (intros E; split; [done|by apply on_rt_id]).
  destruct (negb _ && _) eqn:B, (overloaded (rtq w c)) eqn:O;
    [apply Id|apply (G true)|apply (G false)|apply Id]; unfold q_over; by rewrite ?B, ?O.
Qed.

Lemma start_rt_bandwidth_weq w : weq w (start_rt_bandwidth w).
Proof. unfold start_rt_bandwidth, do_start_rt_bandwidth. by destruct (_ || _), (rt_period_active (def_rt_bandwidth w)). Qed.

Lemma links_weq_b w w' : links w -> (forall c, cpu_rq w' c = cpu_rq w c) -> (forall d, rd_of w' d = rd_of w d) -> links w'.
Proof. intros L Q D. eapply links_frame; [done|intros; by rewrite Q|intros; by rewrite D]. Qed.

Lemma start_rt_bandwidth_links w : links w -> links (start_rt_bandwidth w).
Proof. intros L. unfold start_rt_bandwidth, do_start_rt_bandwidth. destruct (_ || _), (rt_period_active (def_rt_bandwidth w)); try done; by eapply links_weq_b. Qed.

Lemma on_rt_chain w c w1 f g : weq (on_rt w c f) w1 -> weq (on_rt w c (fun q => g (f q))) (on_rt w1 c g).
Proof. intros W. rewrite <- on_rt_on_rt. by apply weq_on_rq. Qed.

Lemma migration_spec w p c d : links w -> cpu_ok c ->
  let w1 := on_rt w c (fun q => q_rt_nr_total (u32 (rt_nr_total q + d)) q) in
  let w2 := if 1 <? nr_cpus_allowed (task_of w p)
            then on_rt w1 c (fun q => q_rt_nr_migratory (u32 (rt_nr_migratory q + d)) q) else w1 in
  links (update_rt_migration w2 c) /\
  weq (on_rt w c (fun q => q_over (q_migr (keys w p) d q))) (update_rt_migration w2 c).
Proof.
  intros L Hc w1 w2.
  assert (W : weq (on_rt w c (q_migr (keys w p) d)) w2).
  { unfold w2, w1. destruct (1 <? _) eqn:E; [rewrite on_rt_on_rt|]; apply on_rt_ext; unfold q_migr, keys, key; simpl; by rewrite E. }
  assert (L2 : links w2).
  { unfold w2, w1. destruct (1 <? _); repeat apply links_on_rt; done. }
  destruct (update_rt_migration_spec w2 c L2 Hc) as [L3 W3]. split; [done|]. rewrite <- W3. by apply on_rt_chain.
Qed.

Lemma inc_rt_tasks_spec w p c : links w -> cpu_ok c -> 0 <= prio (task_of w p) < MAX_RT_PRIO ->
  exists w', inc_rt_tasks w p c = Some w' /\ links w' /\ weq (on_rt w c (q_inc (keys w p))) w'.
Proof.
  intros L Hc Hp. unfold inc_rt_tasks.
  set (w1 := on_rt w c _). assert (L1 : links w1) by (by apply links_on_rt).
  assert (W1 : weq (on_rt w c (q_count (keys w p) 1)) w1).
  { apply on_rt_ext. unfold q_count. simpl. f_equal. unfold rt_se_rr_nr_running, b2z. destruct (_ =? _); f_equal; lia. }
  destruct (inc_rt_prio_spec w1 c (prio (task_of w p)) L1 Hc Hp) as (w2 & -> & L2 & W2). simpl.
  assert (Kp : keys w2 p = keys w p) by (unfold keys; rewrite (weq_task _ _ W2); done).
  destruct (migration_spec w2 p c 1 L2 Hc) as [L3 W3]. eexists. split; [done|].
  split; [by apply start_rt_bandwidth_links|]. rewrite <- start_rt_bandwidth_weq.
  etransitivity; [|apply W3]. rewrite Kp.
  change (on_rt w c (q_inc (keys w p))) with
    (on_rt w c (fun q => (fun r => q_over (q_migr (keys w p) 1 r)) (q_inc_prio (prio (task_of w p)) (q_count (keys w p) 1 q)))).
  apply (on_rt_chain _ _ _ (fun q => q_inc_prio _ (q_count _ 1 q))). rewrite <- W2. by apply on_rt_chain.
Qed.

Lemma dec_rt_tasks_spec K w p c : links w -> cpu_ok c -> arr_ok K c (rtq w c) ->
  0 <= highest_curr (q_dec (keys w p) (rtq w c)) < MAX_RT_PRIO ->
  exists w', dec_rt_tasks w p c = Some w' /\ links w' /\ weq (on_rt w c (q_dec (keys w p))) w'.
Proof.
  intros L Hc A H. unfold dec_rt_tasks.
  set (w1 := on_rt w c _). assert (L1 : links w1) by (by apply links_on_rt).
  assert (W1 : weq (on_rt w c (q_count (keys w p) (-1))) w1).
  { apply on_rt_ext. unfold q_count. simpl. unfold rt_se_rr_nr_running, b2z. by destruct (_ =? _). }
  assert (E1 : rtq w1 c = q_count (keys w p) (-1) (rtq w c)).
  { rewrite (weq_rtq _ _ c W1). apply rtq_on_rt_eq. }
  destruct (dec_rt_prio_spec K w1 c (prio (task_of w p)) L1 Hc) as (w2 & -> & L2 & W2).
  { rewrite E1. eapply arr_frame; done. }
  { rewrite E1. unfold q_dec in H. rewrite (proj2 (proj2 (proj2 (proj2 (proj2 (proj2 (q_over_frame _))))))) in H.
    unfold q_migr in H. by destruct (k_migr _). }
  simpl. assert (Kp : keys w2 p = keys w p) by (unfold keys; rewrite (weq_task _ _ W2); done).
  destruct (migration_spec w2 p c (-1) L2 Hc) as [L3 W3]. eexists. split; [done|]. split; [done|].
  etransitivity; [|apply W3]. rewrite Kp.
  change (on_rt w c (q_dec (keys w p))) with
    (on_rt w c (fun q => (fun r => q_over (q_migr (keys w p) (-1) r)) (q_dec_prio (prio (task_of w p)) (q_count (keys w p) (-1) q)))).
  apply (on_rt_chain _ _ _ (fun q => q_dec_prio _ (q_count _ (-1) q))). rewrite <- W2. by apply on_rt_chain.
Qed.



(** *** The share of the class in the count of runnable tasks *)

(** The tasks of other classes. *)
Definition base (q : rq) : Z := nr_running q - (if rt_queued q then rt_nr_running (rt q) else 0).

Record run_ok (q : rq) : Prop := {
  run_base : 0 <= base q <= two31;
  run_queued : rt_queued q = true -> rt_nr_running (rt q) <> 0;
  run_throttled : rt_throttled q = true -> rt_queued q = false
}.

(** The members of a run queue outside [rt_rq] and the two that [base] combines. *)
Definition rrest (q : rq) :=
  (rd q, online q, clock_task q, curr q, idle q, stop_runnable q, balance_callback q, balance_push q,
   (push_busy q, push_work q, rt_throttled q, rt_time q, rt_runtime q, dl q)).

(** Only the accounting of CPU [c] and the overload flag of root domains may differ. *)
Record top_step (c : Z) (w w' : world) : Prop := {
  ts_task : forall p, task_of w' p = task_of w p;
  ts_rt : forall x, rtq w' x = rtq w x;
  ts_rest : forall x, rrest (cpu_rq w' x) = rrest (cpu_rq w x);
  ts_other : forall x, x <> c -> cpu_rq w' x = cpu_rq w x;
  ts_rd : forall d, rd_view (rd_of w' d) = rd_view (rd_of w d)
}.

#[export] Instance top_step_trans c : Transitive (top_step c).
Proof.
  intros a b d [A1 A2 A3 A4 A5] [B1 B2 B3 B4 B5]. split; intros;
    rewrite ?B1, ?B2, ?B3, ?B5; try (by rewrite ?A1, ?A2, ?A3, ?A5). rewrite B4 by done. by apply A4.
Qed.
#[export] Instance top_step_refl c : Reflexive (top_step c).
Proof. by split. Qed.

Lemma top_step_links c w w' : top_step c w w' -> links w -> links w'.
Proof.
  intros [A1 A2 A3 A4 A5] L. eapply links_frame; [done| |done]. intros x. unfold link_view.
  specialize (A2 x). specialize (A3 x). unfold rtq in A2. injection A3 as E1 E2 _ _ _ _ _ _ _ _ _ _ _ E3. by rewrite A2, E1, E2, E3.
Qed.

Lemma top_step_on_rq w c f : (forall q, rt (f q) = rt q /\ rrest (f q) = rrest q) -> top_step c w (on_rq_of w c f).
Proof.
  intros H. split; try done; intros x; unfold rtq; simpl; unfold upd; destruct (Z.eqb_spec x c) as [->|]; try done; apply H.
Qed.
Lemma top_step_on_rd w c d f : (forall r, rd_view (f r) = rd_view r) -> top_step c w (on_rd w d f).
Proof. intros H. split; try done. intros x. simpl. unfold upd. destruct (Z.eqb_spec x d) as [->|]; [apply H|done]. Qed.

Lemma add_nr_running_step w c n : top_step c w (add_nr_running w c n) /\
  cpu_rq (add_nr_running w c n) c = r_nr_running (nr_running (cpu_rq w c) +u32 n) (cpu_rq w c).
Proof.
  unfold add_nr_running. set (w1 := on_rq_of _ _ _).
  assert (S1 : top_step c w w1) by (by apply top_step_on_rq).
  assert (E : cpu_rq w1 c = r_nr_running (nr_running (cpu_rq w c) +u32 n) (cpu_rq w c)) by (simpl; apply upd_eq).
  destruct (_ && _); [|done]. split; [|done]. etransitivity; [done|]. by apply top_step_on_rd.
Qed.

Lemma enqueue_top_spec w c : run_ok (cpu_rq w c) -> 0 <= rt_nr_running (rtq w c) <= PID_MAX_LIMIT ->
  top_step c w (enqueue_top_rt_rq w c) /\ run_ok (cpu_rq (enqueue_top_rt_rq w c) c) /\
  base (cpu_rq (enqueue_top_rt_rq w c) c) = base (cpu_rq w c) /\
  rt_queued (cpu_rq (enqueue_top_rt_rq w c) c) =
    rt_queued (cpu_rq w c) || negb (rt_throttled (cpu_rq w c)) && negb (rt_nr_running (rtq w c) =? 0).
Proof.
  intros R N. unfold enqueue_top_rt_rq. destruct (rt_queued (cpu_rq w c)) eqn:Q; [by rewrite Q|].
  destruct (rt_throttled (cpu_rq w c)) eqn:T; [by rewrite Q|].
  destruct (Z.eqb_spec (rt_nr_running (rtq w c)) 0) as [Z0|Z0]; simpl; [by rewrite Q|].
  destruct (add_nr_running_step w c (rt_nr_running (rtq w c))) as [S E].
  set (w1 := add_nr_running _ _ _) in *. rewrite !upd_eq. rewrite E.
  assert (Bs : base (r_rt_queued true (r_nr_running (nr_running (cpu_rq w c) +u32 rt_nr_running (rtq w c)) (cpu_rq w c))) = base (cpu_rq w c)).
  { destruct R as [B _ _]. unfold base in *. rewrite Q in *. simpl. rewrite u32_small; [unfold rtq; lia|]. unfold PID_MAX_LIMIT in N. lia. }
  split; [|split; [|split]].
  - etransitivity; [done|]. by apply top_step_on_rq.
  - split; [rewrite Bs; apply R|done|]. simpl. congruence.
  - done.
  - done.
Qed.

(** Removing the class from the count with the number of tasks [n] it was added with. *)
Lemma dequeue_top_spec w c n : let q := cpu_rq w c in
  0 <= nr_running q - (if rt_queued q then n else 0) <= two31 -> 0 <= n <= PID_MAX_LIMIT -> (rt_queued q = true -> n <> 0) ->
  exists w', dequeue_top_rt_rq w c n = Some w' /\ top_step c w w' /\ run_ok (cpu_rq w' c) /\
    rt_queued (cpu_rq w' c) = false /\
    base (cpu_rq w' c) = nr_running q - (if rt_queued q then n else 0).
Proof.
  intros q B N P. unfold dequeue_top_rt_rq. fold q. destruct (rt_queued q) eqn:Q; simpl.
  - specialize (P eq_refl). destruct (Z.eqb_spec (nr_running q) 0); [lia|]. eexists. split; [done|].
    unfold sub_nr_running. split; [etransitivity; by apply top_step_on_rq|]. simpl. rewrite !upd_eq. fold q.
    assert (Bs : base (r_rt_queued false (r_nr_running (nr_running q -u32 n) q)) = nr_running q - n).
    { unfold base. simpl. rewrite u32_small; [lia|]. unfold PID_MAX_LIMIT in N. lia. }
    split; [|done]. by split; rewrite ?Bs.
  - exists w. split; [done|]. split; [done|]. fold q. assert (Bs : base q = nr_running q - 0) by (unfold base; by rewrite Q).
    split; [|done]. split; rewrite ?Bs, ?Q; done.
Qed.

(** A change of the queue between the two. *)
Lemma top_cycle w w1 c r : run_ok (cpu_rq w c) -> cpu_rq w1 c = r_rt r (cpu_rq w c) ->
  0 <= rt_nr_running (rtq w c) <= PID_MAX_LIMIT -> 0 <= rt_nr_running r <= PID_MAX_LIMIT ->
  exists w2, dequeue_top_rt_rq w1 c (rt_nr_running (rtq w c)) = Some w2 /\
    top_step c w1 (enqueue_top_rt_rq w2 c) /\ run_ok (cpu_rq (enqueue_top_rt_rq w2 c) c) /\
    base (cpu_rq (enqueue_top_rt_rq w2 c) c) = base (cpu_rq w c).
Proof.
  intros R E N N'. pose proof R as [B Q T].
  destruct (dequeue_top_spec w1 c (rt_nr_running (rtq w c))) as (w2 & E2 & S2 & R2 & _ & B2); rewrite ?E; simpl; try done.
  exists w2. split; [done|]. destruct (enqueue_top_spec w2 c R2) as (S3 & R3 & B3 & _).
  { rewrite (ts_rt _ _ _ S2). unfold rtq. by rewrite E. }
  split_and!; [by etransitivity|done|]. rewrite B3, B2, E. done.
Qed.

(** *** Entities *)

Lemma rt_ok_high K c q : rt_ok K c q -> 0 <= highest_curr q < MAX_RT_PRIO.
Proof.
  intros Ok. pose proof (ok_arr _ _ _ Ok) as A. rewrite (ok_top _ _ _ Ok).
  destruct (Z.eqb_spec (rt_nr_running q) 0) as [|Z0]; [done|]. destruct (nr_nonzero K c q Ok Z0) as (i & x & Hx).
  destruct (first_bit_listed K c q A) as [M _]. specialize (M _ _ Hx). apply listed_range in Hx. rewrite (arr_len _ _ _ A) in Hx.
  destruct (first_bit_spec K c q A) as (_ & B & _). unfold MAX_RT_PRIO in *. lia.
Qed.

Lemma rt_ok_nr K c q : rt_ok K c q -> 0 <= rt_nr_running q <= PID_MAX_LIMIT.
Proof. intros Ok. rewrite (cnt_nr _ _ (ok_cnt _ _ _ Ok)). apply (tally_bound n_on K c); [apply Ok|apply n_on_01]. Qed.

(** The operation replaces task [p] by [t] and the queue of CPU [c] by [r]. *)
Record effect (p : Z) (t : task) (c : Z) (r : rt_rq) (w w' : world) : Prop := {
  ef_task : forall x, task_of w' x = if x =? p then t else task_of w x;
  ef_rt : forall x, rtq w' x = if x =? c then r else rtq w x;
  ef_rest : forall x, rrest (cpu_rq w' x) = rrest (cpu_rq w x);
  ef_base : forall x, base (cpu_rq w' x) = base (cpu_rq w x);
  ef_run : forall x, run_ok (cpu_rq w x) -> run_ok (cpu_rq w' x);
  ef_links : links w'
}.

(** A queue that went from [w] to [w1] and then through the accounting. *)
Lemma effect_cycle p t c r w w1 : links w1 -> run_ok (cpu_rq w c) ->
  (forall x, task_of w1 x = if x =? p then t else task_of w x) ->
  (forall x, cpu_rq w1 x = if x =? c then r_rt r (cpu_rq w c) else cpu_rq w x) ->
  0 <= rt_nr_running (rtq w c) <= PID_MAX_LIMIT -> 0 <= rt_nr_running r <= PID_MAX_LIMIT ->
  exists w2, dequeue_top_rt_rq w1 c (rt_nr_running (rtq w c)) = Some w2 /\
    effect p t c r w (enqueue_top_rt_rq w2 c).
Proof.
  intros L R T Q N N'. destruct (top_cycle w w1 c r R) as (w2 & E & S & R' & B); [by rewrite Q, Z.eqb_refl|done..|].
  exists w2. split; [done|]. set (w' := enqueue_top_rt_rq w2 c) in *.
  assert (Ho : forall x, x <> c -> cpu_rq w' x = cpu_rq w x).
  { intros x Hx. rewrite (ts_other _ _ _ S) by done. by rewrite Q, (proj2 (Z.eqb_neq _ _) Hx). }
  split.
  - intros x. by rewrite (ts_task _ _ _ S).
  - intros x. rewrite (ts_rt _ _ _ S). unfold rtq. rewrite Q. by destruct (x =? c).
  - intros x. rewrite (ts_rest _ _ _ S), Q. by destruct (Z.eqb_spec x c) as [->|].
  - intros x. destruct (decide (x = c)) as [->|Hx]; [done|by rewrite Ho].
  - intros x Hr. destruct (decide (x = c)) as [->|Hx]; [done|by rewrite Ho].
  - by eapply top_step_links.
Qed.

Definition t_dequeued (move : bool) (t : task) : task :=
  t_on_rt_rq false (if move then t_on_list false t else t).
Definition t_enqueued (move : bool) (t : task) : task :=
  t_on_rt_rq true (if move then t_on_list true t else t).

Lemma keys_on_task w p f x : keys (on_task w p f) x = if x =? p then key (f (task_of w p)) else keys w x.
Proof. unfold keys. simpl. unfold upd. by destruct (x =? p). Qed.

Lemma delist_spec w p : let c := cpu (task_of w p) in links w -> cpu_ok c -> rt_ok (keys w) c (rtq w c) ->
  on_list (task_of w p) = true ->
  exists w', __delist_rt_entity w p = Some w' /\ links w' /\
    weq (on_task (on_rt w c (q_delist p (prio (task_of w p)))) p (t_on_list false)) w'.
Proof.
  intros c L Hc Ok Ol. unfold __delist_rt_entity. fold c.
  assert (Lp : listed (rtq w c) (prio (task_of w p)) p) by (by apply (arr_mem _ _ _ (ok_arr _ _ _ Ok))).
  destruct Lp as (l & Hl & Hp). rewrite aref_list_del, Hl. simpl. eexists. split; [done|].
  assert (E : forall q0, weq (on_rt w c q0) (on_rt w c q0)) by done.
  split.
  - apply links_on_task, links_on_rt; [done|..]; by destruct (List.filter _ _).
  - apply weq_on_task, on_rt_ext. unfold q_delist. rewrite aref_list_del, Hl. simpl. by destruct (List.filter _ _).
Qed.

Lemma enlist_spec w p flags : let t := task_of w p in links w -> rt_ok (keys w) (cpu t) (rtq w (cpu t)) ->
  on_list t = false -> 0 <= prio t < MAX_RT_PRIO ->
  exists w', enlist_rt_entity w p flags = Some w' /\ links w' /\
    weq (on_task (on_rt w (cpu t) (q_enlist p (prio t) (has flags ENQUEUE_HEAD))) p (t_on_list true)) w'.
Proof.
  intros t L Ok Ol P. unfold enlist_rt_entity. fold t. rewrite Ol.
  assert (Rg : 0 <= prio t < Z.of_nat (length (queue (rtq w (cpu t))))).
  { rewrite (arr_len _ _ _ (ok_arr _ _ _ Ok)). unfold MAX_RT_PRIO in *. lia. }
  destruct (aref_lt _ _ Rg) as [l Hl]. rewrite Hl. simpl. rewrite aset_lt by done. simpl. eexists. split; [done|]. split.
  - by apply links_on_task, links_on_rt.
  - apply weq_on_task, on_rt_ext. unfold q_enlist. by rewrite Hl.
Qed.

Lemma q_dec_cong k k' q : k_prio k' = k_prio k -> k_policy k' = k_policy k -> k_migr k' = k_migr k -> q_dec k' q = q_dec k q.
Proof. intros E1 E2 E3. unfold q_dec, q_migr, q_count. by rewrite E1, E2, E3. Qed.
Lemma q_inc_cong k k' q : k_prio k' = k_prio k -> k_policy k' = k_policy k -> k_migr k' = k_migr k -> q_inc k' q = q_inc k q.
Proof. intros E1 E2 E3. unfold q_inc, q_migr, q_count. by rewrite E1, E2, E3. Qed.

(** The world after the list operation, with the same task and queue whether it ran or not. *)
Lemma listop_views w w1 p c f g (move : bool) : weq (if move then on_task (on_rt w c g) p f else w) w1 ->
  (forall x, task_of w1 x = if x =? p then (if move then f (task_of w p) else task_of w p) else task_of w x) /\
  (forall x, cpu_rq w1 x = if x =? c then r_rt (if move then g (rtq w c) else rtq w c) (cpu_rq w c) else cpu_rq w x).
Proof.
  intros W. split; intros x; [rewrite (weq_task _ _ W)|rewrite (weq_rq _ _ W)]; destruct move; simpl; unfold upd; try done.
  - by destruct (Z.eqb_spec x p) as [->|].
  - destruct (Z.eqb_spec x c) as [->|]; [|done]. unfold rtq. by destruct (cpu_rq w c).
Qed.

Lemma __dequeue_spec w p flags : let t := task_of w p in let c := cpu t in let move := move_entity flags in
  links w -> cpu_ok c -> rt_ok (keys w) c (rtq w c) -> on_list t = true -> on_rt_rq t = true ->
  exists w', __dequeue_rt_entity w p flags = Some w' /\ links w' /\
    (forall x, task_of w' x = if x =? p then t_dequeued move t else task_of w x) /\
    (forall x, cpu_rq w' x = if x =? c then r_rt (q_deq p move (key t) (rtq w c)) (cpu_rq w c) else cpu_rq w x).
Proof.
  intros t c move L Hc Ok Ol On. unfold __dequeue_rt_entity. fold move.
  assert (exists w1, (if move then __delist_rt_entity w p else Some w) = Some w1 /\ links w1 /\
    weq (if move then on_task (on_rt w c (q_delist p (prio t))) p (t_on_list false) else w) w1) as (w1 & -> & L1 & W1).
  { destruct move; [by apply delist_spec|by exists w]. }
  apply listop_views in W1 as [T1 Q1]. cbn [mbind option_bind]. cbv zeta. set (w2 := on_task w1 p (t_on_rt_rq false)).
  set (q1 := if move then q_delist p (prio t) (rtq w c) else rtq w c) in *.
  assert (T2 : forall x, task_of w2 x = if x =? p then t_dequeued move t else task_of w x).
  { intros x. unfold w2. simpl. unfold upd. rewrite !T1, Z.eqb_refl. by destruct (x =? p). }
  assert (Cp : cpu (task_of w2 p) = c) by (rewrite T2, Z.eqb_refl; by destruct move).
  assert (R2 : rtq w2 c = q1) by (unfold rtq, w2; simpl; by rewrite Q1, Z.eqb_refl).
  destruct (left_ok (keys w) c (rtq w c) p move (ok_arr _ _ _ Ok) Ol eq_refl) as [A1 _].
  pose proof (deq_ok (keys w) c (rtq w c) p move Ok eq_refl On Ol) as Ok'. apply rt_ok_high in Ok' as H.
  assert (Kq : forall q, q_dec (keys w2 p) q = q_dec (key t) q).
  { intros q. apply q_dec_cong; unfold keys; rewrite T2, Z.eqb_refl; by destruct move. }
  destruct (dec_rt_tasks_spec (upd (keys w) p (k_enlist (negb move) (keys w p))) w2 p c) as (w3 & E3 & L3 & W3);
    [by apply links_on_task|done|rewrite R2; exact A1|rewrite R2, Kq; exact H|].
  rewrite Cp, E3. exists w3. split; [done|]. split; [done|]. split; intros x.
  - rewrite (weq_task _ _ W3). apply T2.
  - rewrite (weq_rq _ _ W3), rq_on_rt, R2, Kq. change (cpu_rq w2) with (cpu_rq w1). rewrite !Q1, Z.eqb_refl.
    destruct (x =? c); [|done]. done.
Qed.

Lemma __enqueue_spec w p flags : let t := task_of w p in let c := cpu t in let move := move_entity flags in
  links w -> cpu_ok c -> rt_ok (keys w) c (rtq w c) -> on_list t = negb move -> 0 <= prio t < MAX_RT_PRIO ->
  exists w', __enqueue_rt_entity w p flags = Some w' /\ links w' /\
    (forall x, task_of w' x = if x =? p then t_enqueued move t else task_of w x) /\
    (forall x, cpu_rq w' x = if x =? c then r_rt (q_enq p move (has flags ENQUEUE_HEAD) (key t) (rtq w c)) (cpu_rq w c)
                             else cpu_rq w x).
Proof.
  intros t c move L Hc Ok Ol P. unfold __enqueue_rt_entity. fold move.
  assert (exists w1, (if move then enlist_rt_entity w p flags else Some w) = Some w1 /\ links w1 /\
    weq (if move then on_task (on_rt w c (q_enlist p (prio t) (has flags ENQUEUE_HEAD))) p (t_on_list true) else w) w1)
    as (w1 & -> & L1 & W1).
  { destruct move; [by apply enlist_spec|by exists w]. }
  apply listop_views in W1 as [T1 Q1]. cbn [mbind option_bind]. cbv zeta. set (w2 := on_task w1 p (t_on_rt_rq true)).
  set (q1 := if move then _ else rtq w c) in *.
  assert (T2 : forall x, task_of w2 x = if x =? p then t_enqueued move t else task_of w x).
  { intros x. unfold w2. simpl. unfold upd. rewrite !T1, Z.eqb_refl. by destruct (x =? p). }
  assert (Cp : cpu (task_of w2 p) = c) by (rewrite T2, Z.eqb_refl; by destruct move).
  assert (R2 : rtq w2 c = q1) by (unfold rtq, w2; simpl; by rewrite Q1, Z.eqb_refl).
  assert (Kq : forall q, q_inc (keys w2 p) q = q_inc (key t) q).
  { intros q. apply q_inc_cong; unfold keys; rewrite T2, Z.eqb_refl; by destruct move. }
  destruct (inc_rt_tasks_spec w2 p c) as (w3 & E3 & L3 & W3);
    [by apply links_on_task|done|rewrite T2, Z.eqb_refl; by destruct move|].
  rewrite Cp, E3. exists w3. split; [done|]. split; [done|]. split; intros x.
  - rewrite (weq_task _ _ W3). apply T2.
  - rewrite (weq_rq _ _ W3), rq_on_rt, R2, Kq. change (cpu_rq w2) with (cpu_rq w1). rewrite !Q1, Z.eqb_refl.
    destruct (x =? c); [|done]. done.
Qed.

Lemma on_task_id w p t x : task_of w p = t -> (if x =? p then t else task_of w x) = task_of w x.
Proof. intros <-. by destruct (Z.eqb_spec x p) as [->|]. Qed.

Lemma dequeue_rt_entity_spec w p flags : let t := task_of w p in let c := cpu t in let move := move_entity flags in
  links w -> cpu_ok c -> rt_ok (keys w) c (rtq w c) -> run_ok (cpu_rq w c) -> on_list t = on_rt_rq t ->
  exists w', dequeue_rt_entity w p flags = Some w' /\
    effect p (if on_rt_rq t then t_dequeued move t else t) c
      (if on_rt_rq t then q_deq p move (key t) (rtq w c) else rtq w c) w w'.
Proof.
  intros t c move L Hc Ok R Ol. unfold dequeue_rt_entity, dequeue_rt_stack. fold t c.
  pose proof (rt_ok_nr _ _ _ Ok) as N.
  assert (exists w1, (if on_rt_rq t then __dequeue_rt_entity w p flags else Some w) = Some w1 /\ links w1 /\
    (forall x, task_of w1 x = if x =? p then (if on_rt_rq t then t_dequeued move t else t) else task_of w x) /\
    (forall x, cpu_rq w1 x = if x =? c then r_rt (if on_rt_rq t then q_deq p move (key t) (rtq w c) else rtq w c) (cpu_rq w c)
                             else cpu_rq w x)) as (w1 & -> & L1 & T1 & Q1).
  { destruct (on_rt_rq t) eqn:On; [by apply __dequeue_spec|]. exists w. split; [done|]. split; [done|]. split; intros x.
    - by rewrite on_task_id.
    - destruct (Z.eqb_spec x c) as [->|]; [|done]. unfold rtq. by destruct (cpu_rq w c). }
  cbn [mbind option_bind]. destruct (effect_cycle p _ c _ w w1 L1 R T1 Q1 N) as (w2 & -> & E).
  { destruct (on_rt_rq t) eqn:On; [|done].
    eapply rt_ok_nr, (deq_ok (keys w) c (rtq w c) p move); done. }
  cbn [mbind option_bind]. eexists. split; [done|].
  assert (Cp : cpu (task_of w2 p) = c).
  { pose proof (ef_task _ _ _ _ _ _ E p) as Ep. rewrite Z.eqb_refl in Ep.
    assert (task_of (enqueue_top_rt_rq w2 c) p = task_of w2 p) as <-.
    { unfold enqueue_top_rt_rq, add_nr_running. repeat case_match; done. }
    rewrite Ep. by destruct (on_rt_rq t), move. }
  by rewrite Cp.
Qed.

Lemma enqueue_rt_entity_spec w p flags : let t := task_of w p in let c := cpu t in let move := move_entity flags in
  links w -> cpu_ok c -> rt_ok (keys w) c (rtq w c) -> run_ok (cpu_rq w c) ->
  on_rt_rq t = false -> on_list t = negb move -> 0 <= prio t < MAX_RT_PRIO -> 0 <= p < PID_MAX_LIMIT ->
  (forall x i, x <> p -> listed (rtq w c) i x -> k_on (keys w x) = true) ->
  exists w', enqueue_rt_entity w p flags = Some w' /\
    effect p (t_enqueued move t) c (q_enq p move (has flags ENQUEUE_HEAD) (key t) (rtq w c)) w w'.
Proof.
  intros t c move L Hc Ok R On Ol P Id Ons. unfold enqueue_rt_entity, dequeue_rt_stack. fold t c. rewrite On.
  cbn [mbind option_bind]. pose proof (rt_ok_nr _ _ _ Ok) as N. pose proof R as [B Q T].
  destruct (dequeue_top_spec w c (rt_nr_running (rtq w c)) B N Q) as (w1 & -> & S1 & R1 & Q1 & B1). cbn [mbind option_bind].
  assert (Ht : task_of w1 p = t) by apply (ts_task _ _ _ S1). assert (Hq : rtq w1 c = rtq w c) by apply (ts_rt _ _ _ S1).
  assert (Ok1 : rt_ok (keys w1) c (rtq w1 c)).
  { rewrite Hq. eapply rt_ok_frame; [done|]. intros x _. unfold keys. by rewrite (ts_task _ _ _ S1). }
  destruct (__enqueue_spec w1 p flags) as (w2 & E2 & L2 & T2 & Q2); rewrite ?Ht; try done; [by eapply top_step_links|].
  rewrite E2. cbn [mbind option_bind]. rewrite Ht in *. fold c move in Q2, T2. rewrite Hq in *.
  assert (Cp : cpu (task_of w2 p) = c) by (rewrite T2, Z.eqb_refl; by destruct move). rewrite Cp.
  set (r := q_enq _ _ _ _ _) in *.
  assert (Nr : 0 <= rt_nr_running r <= PID_MAX_LIMIT).
  { unfold r. eapply (rt_ok_nr _ c), (enq_ok (keys w) c (rtq w c) p move (has flags ENQUEUE_HEAD)); done. }
  assert (C2 : cpu_rq w2 c = r_rt r (cpu_rq w1 c)) by (by rewrite Q2, Z.eqb_refl).
  assert (Bs : base (cpu_rq w2 c) = base (cpu_rq w c)).
  { transitivity (base (cpu_rq w1 c)); [|by rewrite B1]. rewrite C2. unfold base. simpl. by rewrite Q1. }
  assert (R2 : run_ok (cpu_rq w2 c)).
  { split; [by rewrite Bs|..]; rewrite C2; simpl; by rewrite Q1. }
  destruct (enqueue_top_spec w2 c R2) as (S3 & R3 & B3 & _); [unfold rtq; by rewrite C2|].
  eexists. split; [done|]. set (w3 := enqueue_top_rt_rq w2 c) in *.
  assert (Ho : forall x, x <> c -> cpu_rq w3 x = cpu_rq w x).
  { intros x Hx. rewrite (ts_other _ _ _ S3), Q2 by done. rewrite (proj2 (Z.eqb_neq _ _) Hx). by apply (ts_other _ _ _ S1). }
  split.
  - intros x. rewrite (ts_task _ _ _ S3), T2. by rewrite (ts_task _ _ _ S1).
  - intros x. destruct (Z.eqb_spec x c) as [->|Hx]; [|unfold rtq; by rewrite Ho]. rewrite (ts_rt _ _ _ S3). unfold rtq. by rewrite C2.
  - intros x. rewrite (ts_rest _ _ _ S3), Q2. destruct (Z.eqb_spec x c) as [->|]; apply (ts_rest _ _ _ S1).
  - intros x. destruct (decide (x = c)) as [->|Hx]; [by rewrite B3|by rewrite Ho].
  - intros x Hr. destruct (decide (x = c)) as [->|Hx]; [done|by rewrite Ho].
  - by eapply top_step_links.
Qed.

End Inv.
End RtInv.
