(* ===== verification/RtOps.v ===== *)
(** The handlers of the real-time class keep their queues well-formed.

    [good] is the invariant of all run queues, with at most one task in the middle of a
    change.  Steps that only charge runtime, throttle or mark a task for rescheduling are
    [quiet].  Every other handler is shown to run to the end, without a [BUG_ON] or a
    corrupted list, and to lead from a good world to a good world. *)

From Stdlib Require Import ZArith Lia List.
From stdpp Require Import base list numbers option.
From S2P Require Import Prelude Plist Cpudl Cpupri Cbs Deadline Rt RtQueue RtInv.

Module RtOps.
Export RtInv.
Import Cbs(RUNTIME_INF, NSEC_PER_USEC).
Import Deadline(SCHED_RR, TASK_ON_RQ_QUEUED, TASK_ON_RQ_MIGRATING, DEQUEUE_SLEEP, DEQUEUE_SAVE,
  DEQUEUE_MOVE, DEQUEUE_NOCLOCK, ENQUEUE_WAKEUP, ENQUEUE_RESTORE, ENQUEUE_NOCLOCK, ENQUEUE_HEAD,
  ENQUEUE_REPLENISH, ENQUEUE_MIGRATED, EINVAL, has, dl_prio).

Section Ops.
Context {pf : RtPlatform}.

(** *** The invariant *)

(** The tasks that may be pushed away from CPU [c]. *)
Definition pset (w : world) (c p : Z) : Prop :=
  on_rt_rq (task_of w p) = true /\ cpu (task_of w p) = c /\ 1 < nr_cpus_allowed (task_of w p) /\
  curr (cpu_rq w c) <> p.

(** Task [out] is being changed: it is not queued, but may still be on its list. *)
Record sound (out : option Z) (w : world) : Prop := {
  g_links : links w;
  g_rt : forall c, cpu_ok c -> rt_ok (keys w) c (rtq w c);
  g_run : forall c, cpu_ok c -> run_ok (cpu_rq w c);
  g_cpu : forall p, cpu_ok (cpu (task_of w p));
  g_task : forall p, out <> Some p -> on_list (task_of w p) = on_rt_rq (task_of w p);
  g_out : forall p, out = Some p -> on_rt_rq (task_of w p) = false;
  g_on : forall p, on_rt_rq (task_of w p) = true -> 0 <= prio (task_of w p) < MAX_RT_PRIO
}.

Record good (out : option Z) (w : world) : Prop := {
  g_sound :> sound out w;
  g_push : forall c, cpu_ok c -> push_ok (keys w) (pset w c) (rtq w c)
}.

(** What the core scheduler reads of a task. *)
Definition trest (t : task) :=
  (prio t, normal_prio t, policy t, class t, on_rq t, cpu t, nr_cpus_allowed t).

Record fr (w w' : world) : Prop := {
  fr_task : forall x, trest (task_of w' x) = trest (task_of w x);
  fr_curr : forall c, curr (cpu_rq w' c) = curr (cpu_rq w c);
  fr_base : forall c, base (cpu_rq w' c) = base (cpu_rq w c)
}.

#[export] Instance fr_preorder : PreOrder fr.
Proof.
  split; [done|]. intros a b c [A1 A2 A3] [B1 B2 B3]. split; intros; [rewrite B1; apply A1|by rewrite B2|by rewrite B3].
Qed.

(** *** Quiet steps *)

Definition tkeep (t : task) := (trest t, on_list t, on_rt_rq t).
Definition rkeep (q : rq) := (rt q, rd q, online q, curr q, base q, dl q).

Record quiet (w w' : world) : Prop := {
  qt_task : forall x, tkeep (task_of w' x) = tkeep (task_of w x);
  qt_rq : forall x, rkeep (cpu_rq w' x) = rkeep (cpu_rq w x);
  qt_run : forall x, cpu_ok x -> run_ok (cpu_rq w x) -> run_ok (cpu_rq w' x);
  qt_rd : forall d, rd_view (rd_of w' d) = rd_view (rd_of w d)
}.

#[export] Instance quiet_preorder : PreOrder quiet.
Proof.
  split; [done|]. intros a b c [A1 A2 A3 A4] [B1 B2 B3 B4].
  split; intros; [rewrite B1; apply A1|rewrite B2; apply A2|auto|rewrite B4; apply A4].
Qed.

Lemma quiet_fr w w' : quiet w w' -> fr w w'.
Proof.
  intros [T Q _ _]. split; intros x; [unfold trest; by specialize (T x) as [= -> -> -> -> -> -> -> _ _]|..];
    specialize (Q x) as [= _ _ _ Q1 Q2]; done.
Qed.

Lemma quiet_key w w' x : quiet w w' -> keys w' x = keys w x.
Proof. intros [T _ _ _]. specialize (T x) as [= E1 E2 E3 E4 E5 E6 E7 E8 E9]. unfold keys, key. by rewrite E1, E3, E6, E7, E8, E9. Qed.

Lemma quiet_on w w' x : quiet w w' -> on_rt_rq (task_of w' x) = on_rt_rq (task_of w x).
Proof. intros [T _ _ _]. by specialize (T x) as [= _ _ _ _ _ _ _ _ ->]. Qed.

Lemma quiet_rtq w w' c : quiet w w' -> rtq w' c = rtq w c.
Proof. intros [_ Q _ _]. by specialize (Q c) as [= Q _ _ _ _]. Qed.

Lemma quiet_pset w w' c p : quiet w w' -> pset w' c p <-> pset w c p.
Proof.
  intros [T Q _ _]. specialize (T p) as [= E1 E2 E3 E4 E5 E6 E7 E8 E9]. specialize (Q c) as [= _ _ _ Q _].
  unfold pset. by rewrite E6, E7, E9, Q.
Qed.

Lemma quiet_links w w' : quiet w w' -> links w -> links w'.
Proof.
  intros [_ Q _ D] L. eapply links_frame; [done| |done]. intros x. specialize (Q x) as [= Q1 Q2 Q3 _ _ Q6].
  unfold link_view. by rewrite Q1, Q2, Q3, Q6.
Qed.

Lemma quiet_sound out w w' : quiet w w' -> sound out w -> sound out w'.
Proof.
  intros H [G1 G2 G4 G5 G6 G7 G8]. pose proof H as [T _ R _].
  split; [by eapply quiet_links|..]; intros c; try intros Hc.
  - rewrite (quiet_rtq _ _ c H). eapply rt_ok_frame; [by apply G2|]. intros p _. by apply quiet_key.
  - by apply R, G4.
  - specialize (T c) as [= _ _ _ _ _ -> _ _ _]. apply G5.
  - specialize (G6 c Hc). specialize (T c) as [= _ _ _ _ _ _ _ -> ->]. done.
  - rewrite (quiet_on _ _ c H). by apply G7.
  - rewrite (quiet_on _ _ c H) in Hc. specialize (T c) as [= -> _ _ _ _ _ _ _ _]. by apply G8.
Qed.

Lemma quiet_good out w w' : quiet w w' -> good out w -> good out w'.
Proof.
  intros H [G1 G2]. split; [by eapply quiet_sound|]. intros c Hc.
  rewrite (quiet_rtq _ _ c H). eapply push_frame; [by apply G2|done..| |].
  - intros x _. by rewrite (quiet_key _ _ x H).
  - intros x. by apply quiet_pset.
Qed.

Lemma quiet_on_task w p f : (forall t, tkeep (f t) = tkeep t) -> quiet w (on_task w p f).
Proof. intros H. split; try done. intros x. simpl. unfold upd. destruct (Z.eqb_spec x p) as [->|]; [apply H|done]. Qed.

(** Stores that do not touch the queue and do not throttle. *)
Lemma quiet_on_rq w c f : rkeep (f (cpu_rq w c)) = rkeep (cpu_rq w c) ->
  rt_queued (f (cpu_rq w c)) = rt_queued (cpu_rq w c) ->
  (rt_throttled (f (cpu_rq w c)) = true -> rt_throttled (cpu_rq w c) = true \/ rt_queued (cpu_rq w c) = false) ->
  quiet w (on_rq_of w c f).
Proof.
  intros H Q T. split; try done; intros x; simpl; unfold upd; destruct (Z.eqb_spec x c) as [->|]; try done.
  intros _ [B R S]. injection H as E1 E2 E3 E4 E5. split; rewrite ?E5, ?Q, ?E1; try done. intros Ht. destruct (T Ht); auto.
Qed.

Lemma quiet_on_rd w d f : rd_view (f (rd_of w d)) = rd_view (rd_of w d) -> quiet w (on_rd w d f).
Proof. intros H. split; try done. intros x. simpl. unfold upd. destruct (Z.eqb_spec x d) as [->|]; [apply H|done]. Qed.

Lemma quiet_top c w w' : top_step c w w' -> run_ok (cpu_rq w' c) -> base (cpu_rq w' c) = base (cpu_rq w c) -> quiet w w'.
Proof.
  intros [T R S O D] Rn B. split; [intros; by rewrite T| | |done]; intros x.
  - destruct (decide (x = c)) as [->|]; [|by rewrite O]. specialize (R c). specialize (S c). unfold rtq in R.
    injection S as E1 E2 _ E4 _ _ _ _ _ _ _ _ _ E5. unfold rkeep. by rewrite R, E1, E2, E4, B, E5.
  - intros _ Hx. destruct (decide (x = c)) as [->|]; [done|by rewrite O].
Qed.

Lemma quiet_resched w c : quiet w (resched_curr w c).
Proof. by apply quiet_on_task. Qed.

Lemma quiet_start w : quiet w (do_start_rt_bandwidth w).
Proof. unfold do_start_rt_bandwidth. by destruct (rt_period_active _). Qed.

(** *** Runtime *)

(** Stores to the members for the limit only. *)
Lemma quiet_runtime w c v : quiet w (on_rq_of w c (fun q => r_rt_runtime (v q) q)).
Proof. apply quiet_on_rq; try done. by left. Qed.
Lemma quiet_time w c v : quiet w (on_rq_of w c (fun q => r_rt_time (v q) q)).
Proof. apply quiet_on_rq; try done. by left. Qed.

Lemma borrow_loop_quiet c weight period cpus : forall w, 0 < weight \/ cpus = [] ->
  exists w', borrow_loop w c weight period cpus = Some w' /\ quiet w w'.
Proof.
  induction cpus as [|i cpus IH]; intros w Hw; cbn [borrow_loop]; [by exists w|]. destruct Hw as [Hw|]; [|done].
  destruct (_ || _); [apply IH; by left|]. destruct (_ <? _); [|apply IH; by left].
  rewrite (proj2 (Z.eqb_neq weight 0)) by lia. set (d := if _ <? _ then _ else _). set (w1 := on_rq_of (on_rq_of _ _ _) _ _).
  assert (Q : quiet w w1) by (etransitivity; apply quiet_runtime).
  destruct (_ =? _); [by exists w1|]. destruct (IH w1) as (w' & E & Q'); [by left|]. exists w'. split; [done|]. by etransitivity.
Qed.

Lemma balance_runtime_quiet w c : exists w', balance_runtime w c = Some w' /\ quiet w w'.
Proof.
  unfold balance_runtime, do_balance_runtime. destruct (negb _); [by exists w|]. destruct (_ <? _); [|by exists w].
  apply borrow_loop_quiet. unfold cpumask_weight. destruct (mask_bits _ _); [by right|left]. simpl. lia.
Qed.

Lemma sched_rt_rq_enqueue_quiet w c : run_ok (cpu_rq w c) -> 0 <= rt_nr_running (rtq w c) <= PID_MAX_LIMIT ->
  quiet w (sched_rt_rq_enqueue w c).
Proof.
  intros R N. unfold sched_rt_rq_enqueue. destruct (_ =? _); [done|].
  destruct (enqueue_top_spec w c R N) as (S & R' & B & _). etransitivity; [by eapply quiet_top|apply quiet_resched].
Qed.

Lemma exceeded_quiet w c : cpu_ok c -> run_ok (cpu_rq w c) -> 0 <= rt_nr_running (rtq w c) <= PID_MAX_LIMIT ->
  exists w' b, sched_rt_runtime_exceeded w c = Some (w', b) /\ quiet w w'.
Proof.
  intros Hc R N. unfold sched_rt_runtime_exceeded. destruct (rt_throttled _) eqn:T; [by eexists _, _|].
  destruct (_ <=? _); [by eexists _, _|]. destruct (balance_runtime_quiet w c) as (w1 & -> & Q1). cbn [mbind option_bind]. cbv zeta.
  destruct (_ =? RUNTIME_INF); [by eexists _, _|]. destruct (_ <? _); [|by eexists _, _].
  assert (R1 : run_ok (cpu_rq w1 c)) by (by apply (qt_run _ _ Q1)).
  destruct (b_runtime _ =? 0); simpl; rewrite upd_eq; simpl.
  - destruct (rt_throttled (cpu_rq w1 c)) eqn:T1; [|eexists _, _; split; [done|]; etransitivity; [done|apply quiet_time]].
    unfold sched_rt_rq_dequeue, dequeue_top_rt_rq. simpl. rewrite upd_eq. simpl. rewrite (run_throttled _ R1 T1). simpl.
    eexists _, _. split; [done|]. etransitivity; [done|apply quiet_time].
  - set (w2 := on_rq_of w1 c _). unfold sched_rt_rq_dequeue.
    assert (E2 : cpu_rq w2 c = r_rt_throttled true (cpu_rq w1 c)) by (unfold w2; simpl; apply upd_eq).
    assert (N2 : rt_nr_running (rtq w2 c) = rt_nr_running (rtq w c)).
    { rewrite <- (quiet_rtq _ _ c Q1). unfold rtq. by rewrite E2. }
    assert (N1 : rt_nr_running (rtq w2 c) = rt_nr_running (rt (cpu_rq w1 c))) by (unfold rtq; by rewrite E2).
    destruct (dequeue_top_spec w2 c (rt_nr_running (rtq w2 c))) as (w3 & -> & S & R3 & Q3 & B3);
      rewrite ?E2, ?N1; [apply R1|by rewrite <- N1, N2|apply R1|].
    cbn [mbind option_bind]. eexists _, _. split; [done|]. rewrite E2 in B3. simpl in B3. rewrite N1 in B3.
    etransitivity; [done|]. destruct S as [S1 S2 S3 S4 S5].
    assert (Eo : forall x, x <> c -> cpu_rq w3 x = cpu_rq w1 x).
    { intros x Hx. rewrite S4 by done. unfold w2. simpl. by apply upd_ne. }
    split; [intros x; by rewrite S1| | |intros d; by rewrite S5]; intros x; (destruct (decide (x = c)) as [->|Hx]; [|by rewrite Eo]).
    + specialize (S2 c). specialize (S3 c). unfold rtq in S2. rewrite E2 in S2, S3.
      injection S3 as F1 F2 _ F4 _ _ _ _ _ _ _ _ _ F5. unfold rkeep. rewrite S2, F1, F2, F4, B3, F5. done.
    + done.
Qed.

Lemma update_curr_rt_quiet out w c : good out w -> exists w', update_curr_rt w c = Some w' /\ quiet w w'.
Proof.
  intros G. unfold update_curr_rt. set (p := curr (cpu_rq w c)). destruct (negb _); [by exists w|].
  destruct (_ <=? _); [by exists w|]. set (w1 := on_task w p _).
  assert (Q1 : quiet w w1) by (by apply quiet_on_task).
  destruct (negb _); [by exists w1|]. cbv zeta. set (i := cpu (task_of w1 p)).
  pose proof (quiet_good _ _ _ Q1 G) as G1. pose proof (g_cpu _ _ G1 p) as Hi. fold i in Hi.
  destruct (_ =? RUNTIME_INF); [by exists w1|]. set (w2 := on_rq_of w1 i _).
  assert (Q2 : quiet w w2) by (etransitivity; [done|]; unfold w2; apply (quiet_time w1 i (fun q => _))).
  pose proof (quiet_good _ _ _ Q2 G) as G2.
  destruct (exceeded_quiet w2 i Hi (g_run _ _ G2 i Hi) (rt_ok_nr _ _ _ (g_rt _ _ G2 i Hi))) as (w3 & b & -> & Q3).
  cbn [mbind option_bind]. eexists. split; [done|]. etransitivity; [done|]. etransitivity; [done|].
  destruct b; [|done]. etransitivity; [apply quiet_resched|apply quiet_start].
Qed.

(** *** Leaving and entering a queue *)

Lemma keys_effect p t c r w w' x : effect p t c r w w' -> keys w' x = upd (keys w) p (key t) x.
Proof. intros E. unfold keys, upd. rewrite (ef_task _ _ _ _ _ _ E). by destruct (x =? p). Qed.

Lemma effect_fr p t c r w w' : effect p t c r w w' -> trest t = trest (task_of w p) -> fr w w'.
Proof.
  intros E T. split; intros x.
  - rewrite (ef_task _ _ _ _ _ _ E). by destruct (Z.eqb_spec x p) as [->|].
  - pose proof (ef_rest _ _ _ _ _ _ E x) as R. by injection R as _ _ _ R _ _ _ _ _ _ _ _.
  - apply (ef_base _ _ _ _ _ _ E).
Qed.

Lemma effect_sound out out' p t c r w w' : sound out w -> effect p t c r w w' ->
  trest t = trest (task_of w p) -> cpu (task_of w p) = c -> rt_ok (upd (keys w) p (key t)) c r ->
  (forall x, x <> p -> out <> Some x) -> (forall x, x <> p -> out' <> Some x) ->
  (out' <> Some p -> on_list t = on_rt_rq t) -> (out' = Some p -> on_rt_rq t = false) ->
  (on_rt_rq t = true -> 0 <= prio t < MAX_RT_PRIO) -> sound out' w'.
Proof.
  intros [G1 G2 G4 G5 G6 G7 G8] E T C Ok O O' L F P. pose proof (ef_task _ _ _ _ _ _ E) as Et.
  assert (Ct : cpu t = c) by (injection T as _ _ _ _ _ T _; congruence).
  split; [apply E|..]; intros x; try intros Hx; rewrite ?Et; try rewrite ?Et in Hx.
  - rewrite (ef_rt _ _ _ _ _ _ E). destruct (Z.eqb_spec x c) as [->|Hne].
    + eapply rt_ok_frame; [done|]. intros y _. by apply (keys_effect _ _ _ _ _ _ y E).
    + eapply rt_ok_frame; [by apply G2|]. intros y Hy. rewrite (keys_effect _ _ _ _ _ _ y E) in *.
      destruct (decide (y = p)) as [->|]; [|by apply upd_ne]. rewrite upd_eq in Hy. unfold keys in Hy. simpl in Hy. naive_solver.
  - by apply (ef_run _ _ _ _ _ _ E), G4.
  - destruct (x =? p); [rewrite Ct, <- C; apply G5|apply G5].
  - destruct (Z.eqb_spec x p) as [->|]; [by apply L|by apply G6, O].
  - destruct (Z.eqb_spec x p) as [->|]; [by apply F|]. by destruct (O' x).
  - revert Hx. destruct (Z.eqb_spec x p) as [->|]; [apply P|apply G8].
Qed.

(** Updates of a queue that keep its counters. *)
Lemma sound_on_rt out w c f : let q := rtq w c in
  (cpu_ok c -> rt_ok (keys w) c q -> rt_ok (keys w) c (f q)) ->
  (rt_nr_running (f q), highest_curr (f q), overloaded (f q)) = (rt_nr_running q, highest_curr q, overloaded q) ->
  sound out w -> sound out (on_rt w c f).
Proof.
  intros q Ok E [G1 G2 G4 G5 G6 G7 G8]. injection E as E3 E5 E8. split; try done.
  - by apply links_on_rt.
  - intros x Hx. rewrite rtq_on_rt. destruct (Z.eqb_spec x c) as [->|]; [|by apply G2]. apply Ok; [done|by apply G2].
  - intros x Hx. rewrite rq_on_rt. destruct (Z.eqb_spec x c) as [->|]; [|by apply G4].
    destruct (G4 c Hx) as [B Q T]. split; unfold base in *; simpl; fold q; rewrite ?E3; done.
Qed.

(** Updates of the list of pushable tasks. *)
Lemma sound_pushable out w c f :
  (let q := rtq w c in let q' := f q in
   (bitmap q', queue q', rt_nr_running q', rr_nr_running q', highest_curr q', rt_nr_migratory q', rt_nr_total q', overloaded q') =
   (bitmap q, queue q, rt_nr_running q, rr_nr_running q, highest_curr q, rt_nr_migratory q, rt_nr_total q, overloaded q)) ->
  sound out w -> sound out (on_rt w c f).
Proof.
  intros E. injection E as E1 E2 E3 E4 E5 E6 E7 E8. apply sound_on_rt; [|by rewrite E3, E5, E8].
  intros _ [A [C1 C2 C3 C4] T O]. split.
  - by eapply arr_frame.
  - split; unfold tally in *; rewrite E2, ?E3, ?E4, ?E6, ?E7; done.
  - unfold top_ok, first_bit in *. by rewrite E5, E3, E1.
  - unfold over_ok in *. by rewrite E6, E7, E8.
Qed.

Lemma fr_on_rt w c f : rt_nr_running (f (rtq w c)) = rt_nr_running (rtq w c) -> fr w (on_rt w c f).
Proof.
  intros E. split; [done|..]; intros x; rewrite rq_on_rt; destruct (Z.eqb_spec x c) as [->|]; try done.
  unfold base. simpl. by rewrite E.
Qed.

Lemma sound_enqueue_pushable out w c p : sound out w -> sound out (enqueue_pushable_task w c p).
Proof. intros S. unfold enqueue_pushable_task. apply sound_pushable; [|done]. simpl. by destruct (_ <? _). Qed.
Lemma sound_dequeue_pushable out w c p : sound out w -> sound out (dequeue_pushable_task w c p).
Proof. intros S. unfold dequeue_pushable_task. apply sound_pushable; [|done]. simpl. by destruct (Plist.plist_first _). Qed.
Lemma fr_enqueue_pushable w c p : fr w (enqueue_pushable_task w c p).
Proof. apply fr_on_rt. cbv zeta. by destruct (prio (task_of w p) <? _). Qed.
Lemma fr_dequeue_pushable w c p : fr w (dequeue_pushable_task w c p).
Proof. apply fr_on_rt. cbv zeta. by case_match. Qed.

(** The lists of other CPUs do not see a task of CPU [c]. *)
Lemma push_other p t c r w w' x : effect p t c r w w' -> trest t = trest (task_of w p) -> cpu (task_of w p) = c ->
  x <> c -> push_ok (keys w) (pset w x) (rtq w x) -> push_ok (keys w') (pset w' x) (rtq w' x).
Proof.
  intros E T C Hx P. eapply push_frame; [done|..].
  - by rewrite (ef_rt _ _ _ _ _ _ E), (proj2 (Z.eqb_neq _ _) Hx).
  - by rewrite (ef_rt _ _ _ _ _ _ E), (proj2 (Z.eqb_neq _ _) Hx).
  - intros y (_ & Hy & _). rewrite (keys_effect _ _ _ _ _ _ y E), upd_ne; [done|]. intros ->. congruence.
  - intros y. unfold pset. rewrite (fr_curr _ _ (effect_fr _ _ _ _ _ _ E T)), (ef_task _ _ _ _ _ _ E).
    destruct (Z.eqb_spec y p) as [->|]; [|done]. injection T as _ _ _ _ _ T _. rewrite T, C. naive_solver.
Qed.

Definition flags_but (p : Z) (w w' : world) : Prop :=
  forall x, x <> p -> on_rt_rq (task_of w' x) = on_rt_rq (task_of w x).

Lemma key_dequeued move t : on_list t = true -> key (t_dequeued move t) = k_at (negb move) false (key t).
Proof. intros L. destruct move; unfold key, k_at, k_set_on, k_enlist; simpl; by rewrite ?L. Qed.
Lemma key_enqueued move t : on_list t = negb move -> key (t_enqueued move t) = k_at true true (key t).
Proof. intros L. destruct move; unfold key, k_at, k_set_on, k_enlist; simpl in *; by rewrite ?L. Qed.

Lemma q_deq_push p move k q : pushable_tasks (q_deq p move k q) = pushable_tasks q /\ highest_next (q_deq p move k q) = highest_next q.
Proof.
  unfold q_deq. destruct (q_dec_members k (if move then q_delist p (k_prio k) q else q)) as ([= _ _ -> ->] & _).
  destruct move; [|done]. unfold q_delist. simpl. by destruct (default _ _).
Qed.
Lemma q_enq_push p move head k q : pushable_tasks (q_enq p move head k q) = pushable_tasks q /\ highest_next (q_enq p move head k q) = highest_next q.
Proof.
  unfold q_enq. destruct (q_inc_members k (if move then q_enlist p (k_prio k) head q else q)) as ([= _ _ -> ->] & _). by destruct move.
Qed.

Lemma trest_dequeued move t : trest (t_dequeued move t) = trest t.
Proof. by destruct move. Qed.
Lemma trest_enqueued move t : trest (t_enqueued move t) = trest t.
Proof. by destruct move. Qed.

(** [p] leaves the list of pushable tasks of its CPU. *)
Lemma unpush_good out w p S : let c := cpu (task_of w p) in sound out w ->
  (forall x, cpu_ok x -> x <> c -> push_ok (keys w) (pset w x) (rtq w x)) ->
  push_ok (keys w) S (rtq w c) -> (forall x, pset w c x <-> S x /\ x <> p) ->
  good out (dequeue_pushable_task w c p).
Proof.
  intros c So Po Pc E. split; [by apply sound_dequeue_pushable|]. intros x Hx. unfold dequeue_pushable_task. rewrite rtq_on_rt.
  assert (Ps : forall y, pset (dequeue_pushable_task w c p) x y <-> pset w x y).
  { intros y. unfold pset. by rewrite (fr_curr _ _ (fr_dequeue_pushable w c p)). }
  destruct (Z.eqb_spec x c) as [->|Hne].
  - eapply (push_del_ok (keys w) S _ _ p (fun y => prio (task_of w y))); [done|done|]. intros y. by rewrite <- E.
  - eapply push_frame; [by apply Po|done..].
Qed.

Lemma dequeue_task_rt_spec w p flags : let c := cpu (task_of w p) in good None w ->
  exists w', dequeue_task_rt w c p flags = Some w' /\ good (Some p) w' /\ fr w w' /\ flags_but p w w' /\
    on_list (task_of w' p) = on_rt_rq (task_of w p) && negb (move_entity flags).
Proof.
  intros c G. unfold dequeue_task_rt. destruct (update_curr_rt_quiet None w c G) as (w1 & -> & Q1). cbn [mbind option_bind].
  pose proof (quiet_good _ _ _ Q1 G) as G1. pose proof (quiet_on _ _ p Q1) as On1. pose proof (fr_task _ _ (quiet_fr _ _ Q1) p) as T1.
  assert (C1 : cpu (task_of w1 p) = c) by (by injection T1 as _ _ _ _ _ -> _).
  pose proof (g_cpu _ _ G1 p) as Hc. rewrite C1 in Hc. set (t := task_of w1 p) in *. set (move := move_entity flags).
  pose proof (g_task _ _ G1 p ltac:(done)) as Ol. fold t in Ol.
  destruct (dequeue_rt_entity_spec w1 p flags) as (w2 & -> & E); fold t; rewrite ?C1;
    [apply G1|done|by apply G1|by apply G1|done|]. cbn [mbind option_bind]. fold t in E. rewrite C1 in E. fold move in E.
  set (t2 := if on_rt_rq t then t_dequeued move t else t) in *. set (r := if on_rt_rq t then q_deq p move (key t) (rtq w1 c) else rtq w1 c) in *.
  assert (Tr : trest t2 = trest t) by (unfold t2; destruct (on_rt_rq t); [apply trest_dequeued|done]).
  assert (Off : on_rt_rq t2 = false) by (unfold t2; by destruct (on_rt_rq t) eqn:?).
  assert (Ok : rt_ok (upd (keys w1) p (key t2)) c r).
  { unfold t2, r. destruct (on_rt_rq t) eqn:On.
    - rewrite key_dequeued by (by rewrite Ol). apply (deq_ok (keys w1)); [by apply G1|done|done|unfold keys; simpl; by fold t; rewrite Ol].
    - eapply rt_ok_frame; [by apply G1|]. intros x _. unfold upd, keys. by destruct (Z.eqb_spec x p) as [->|]. }
  assert (S2 : sound (Some p) w2).
  { eapply (effect_sound None (Some p)); [apply G1|exact E|done|done|done|done| | |done|by rewrite Off].
    - intros x Hx [= ->]. done.
    - done. }
  assert (Hr : pushable_tasks r = pushable_tasks (rtq w1 c) /\ highest_next r = highest_next (rtq w1 c)).
  { unfold r. destruct (on_rt_rq t); [apply q_deq_push|done]. }
  assert (T2 : task_of w2 p = t2) by (rewrite (ef_task _ _ _ _ _ _ E); by rewrite Z.eqb_refl).
  assert (C2 : cpu (task_of w2 p) = c) by (rewrite T2; injection Tr as _ _ _ _ _ -> _; done).
  assert (F2 : fr w1 w2) by (by eapply effect_fr).
  eexists. split; [done|]. rewrite <- C2 at 1. split_and!.
  - apply (unpush_good _ _ _ (pset w1 c)); rewrite ?C2; [done|..].
    + intros x Hx Hne. eapply push_other; try done. by apply G1.
    + eapply push_frame; [by apply G1|rewrite (ef_rt _ _ _ _ _ _ E), Z.eqb_refl; apply Hr..| |done].
      intros x _. rewrite (keys_effect _ _ _ _ _ _ x E). unfold upd. destruct (Z.eqb_spec x p) as [->|]; [|done].
      unfold keys. simpl. fold t. by injection Tr as -> _ _ _ _ _ _.
    + intros x. unfold pset. rewrite (fr_curr _ _ F2), (ef_task _ _ _ _ _ _ E). destruct (Z.eqb_spec x p) as [->|]; [|naive_solver].
      rewrite Off. naive_solver.
  - etransitivity; [by apply quiet_fr|]. etransitivity; [done|]. apply fr_dequeue_pushable.
  - intros x Hx. change (task_of (dequeue_pushable_task w2 c p) x) with (task_of w2 x).
    rewrite (ef_task _ _ _ _ _ _ E), (proj2 (Z.eqb_neq _ _) Hx). by apply quiet_on.
  - change (task_of (dequeue_pushable_task w2 c p) p) with (task_of w2 p). rewrite T2, <- On1. fold t. unfold t2.
    destruct (on_rt_rq t) eqn:On; [|done]. unfold t_dequeued. destruct move; simpl; [done|]. by rewrite Ol.
Qed.

(** [p] enters the list of pushable tasks of its CPU. *)
Lemma push_good out w p S : let c := cpu (task_of w p) in sound out w ->
  (forall x, cpu_ok x -> x <> c -> push_ok (keys w) (pset w x) (rtq w x)) ->
  push_ok (keys w) S (rtq w c) -> 0 <= prio (task_of w p) < MAX_RT_PRIO -> ~ S p ->
  (forall x, pset w c x <-> S x \/ x = p) -> good out (enqueue_pushable_task w c p).
Proof.
  intros c So Po Pc Hp Hn E. split; [by apply sound_enqueue_pushable|]. intros x Hx. unfold enqueue_pushable_task. rewrite rtq_on_rt.
  assert (Ps : forall y, pset (enqueue_pushable_task w c p) x y <-> pset w x y).
  { intros y. unfold pset. by rewrite (fr_curr _ _ (fr_enqueue_pushable w c p)). }
  destruct (Z.eqb_spec x c) as [->|Hne].
  - apply (push_add_ok (keys w) S _ _ p Pc Hp Hn). intros y. by rewrite <- E.
  - eapply push_frame; [by apply Po|done..].
Qed.

Lemma enqueue_task_rt_spec w p flags : let t := task_of w p in let c := cpu t in good (Some p) w ->
  0 <= prio t < MAX_RT_PRIO -> 0 <= p < PID_MAX_LIMIT -> on_list t = negb (move_entity flags) ->
  exists w', enqueue_task_rt w c p flags = Some w' /\ good None w' /\ fr w w' /\ flags_but p w w' /\
    on_rt_rq (task_of w' p) = true.
Proof.
  intros t0 c G P Id Ol. unfold enqueue_task_rt. set (w1 := if has flags ENQUEUE_WAKEUP then _ else w).
  assert (Q1 : quiet w w1) by (unfold w1; destruct (has _ _); [by apply quiet_on_task|done]).
  pose proof (quiet_good _ _ _ Q1 G) as G1. pose proof (qt_task _ _ Q1 p) as T1. set (t := task_of w1 p) in *.
  fold t0 in T1. injection T1 as P1 _ _ _ _ C1 N1 L1 O1. fold c in C1. rewrite <- P1 in P. rewrite <- L1 in Ol.
  pose proof (g_out _ _ G1 p eq_refl) as Off. pose proof (g_cpu _ _ G1 p) as Hc. fold t in Off, Hc. rewrite C1 in Hc.
  set (move := move_entity flags) in *.
  destruct (enqueue_rt_entity_spec w1 p flags) as (w2 & -> & E); fold t; rewrite ?C1; try done; [by apply G1..| |].
  { intros x i Hx Hl. apply (arr_mem _ _ _ (ok_arr _ _ _ (g_rt _ _ G1 c Hc))) in Hl as (Hl & _).
    unfold keys in *. simpl in *. rewrite <- (g_task _ _ G1 x); [done|]. by intros [= ->]. }
  cbn [mbind option_bind]. fold t in E. rewrite C1 in E. fold move in E.
  set (t2 := t_enqueued move t) in *. set (r := q_enq _ _ _ _ _) in *.
  assert (Tr : trest t2 = trest t) by apply trest_enqueued.
  assert (P2 : prio t2 = prio t /\ cpu t2 = c /\ nr_cpus_allowed t2 = nr_cpus_allowed t) by (unfold t2; by destruct move).
  destruct P2 as (P2 & C2 & NC2). assert (On2 : on_rt_rq t2 = true) by done. assert (Ol2 : on_list t2 = true) by (unfold t2, t_enqueued; destruct move; [done|]; simpl; by rewrite Ol).
  assert (Ok : rt_ok (upd (keys w1) p (key t2)) c r).
  { unfold t2. rewrite key_enqueued by done. unfold r. eapply (enq_ok (keys w1)); try done; [by apply G1|].
    intros x i Hx Hl. apply (arr_mem _ _ _ (ok_arr _ _ _ (g_rt _ _ G1 c Hc))) in Hl as (Hl & _).
    unfold keys in *. simpl in *. rewrite <- (g_task _ _ G1 x); [done|]. by intros [= ->]. }
  assert (S2 : sound None w2).
  { eapply (effect_sound (Some p) None); [apply G1|exact E|done|done|done| |done|by rewrite Ol2|done|].
    - intros x Hx [= ->]. done.
    - by rewrite P2. }
  destruct (q_enq_push p move (has flags ENQUEUE_HEAD) (key t) (rtq w1 c)) as [Hr1 Hr2]. fold r in Hr1, Hr2.
  assert (T2 : task_of w2 p = t2) by (rewrite (ef_task _ _ _ _ _ _ E); by rewrite Z.eqb_refl).
  assert (F2 : fr w1 w2) by (eapply effect_fr; [done|apply trest_enqueued]).
  assert (Po : forall x, cpu_ok x -> x <> c -> push_ok (keys w2) (pset w2 x) (rtq w2 x)).
  { intros x Hx Hne. eapply push_other; [exact E|apply trest_enqueued|done|done|by apply G1]. }
  assert (Pc : push_ok (keys w2) (pset w1 c) (rtq w2 c)).
  { eapply push_frame; [by apply G1|by rewrite (ef_rt _ _ _ _ _ _ E), Z.eqb_refl..| |done].
    intros x _. rewrite (keys_effect _ _ _ _ _ _ x E). unfold upd. by destruct (Z.eqb_spec x p) as [->|]. }
  assert (Ps : forall x, pset w2 c x <-> pset w1 c x \/ (x = p /\ 1 < nr_cpus_allowed t /\ curr (cpu_rq w1 c) <> p)).
  { intros x. unfold pset. rewrite (fr_curr _ _ F2), (ef_task _ _ _ _ _ _ E). destruct (Z.eqb_spec x p) as [->|]; [|naive_solver].
    fold t. rewrite On2, Off, C2, NC2. naive_solver. }
  assert (Fl : flags_but p w w2).
  { intros x Hx. rewrite (ef_task _ _ _ _ _ _ E), (proj2 (Z.eqb_neq _ _) Hx). by apply quiet_on. }
  assert (Fw : fr w w2) by (etransitivity; [by apply quiet_fr|done]).
  rewrite T2, (fr_curr _ _ F2), NC2.
  assert (G2 : (curr (cpu_rq w1 c) = p \/ nr_cpus_allowed t <= 1) -> good None w2).
  { intros No. split; [done|]. intros x Hx. destruct (decide (x = c)) as [->|]; [|by apply Po]. eapply push_frame; [done..|].
    intros y. rewrite Ps. split; [|by left]. intros [?|(_ & ? & ?)]; [done|]. destruct No; [done|lia]. }
  destruct (Z.eqb_spec (curr (cpu_rq w1 c)) p) as [Ec|Ec]; simpl.
  { exists w2. rewrite T2. split_and!; try done. apply G2. by left. }
  destruct (Z.ltb_spec 1 (nr_cpus_allowed t)) as [Hn|Hn].
  - eexists. split; [done|]. change (task_of (enqueue_pushable_task w2 c p)) with (task_of w2). rewrite T2. split_and!; [|etransitivity; [done|apply fr_enqueue_pushable]|done|done].
    rewrite <- C2, <- T2. apply (push_good _ _ _ (pset w1 c)); rewrite ?T2, ?C2, ?P2; try done.
    + intros (Hx & _). fold t in Hx. congruence.
    + intros x. rewrite Ps. naive_solver.
  - exists w2. rewrite T2. split_and!; try done. apply G2. by right.
Qed.

(** *** The invariant between handlers *)

Definition prio_class (prio : Z) : sched_class :=
  if dl_prio prio then dl_sched_class else if rt_prio prio then rt_sched_class else fair_sched_class.
Definition class_ok (t : task) : Prop :=
  class t = stop_sched_class \/ class t = idle_sched_class \/ class t = prio_class (prio t).

Record inv (w : world) : Prop := {
  inv_good :> good None w;
  inv_prio : forall p, class_ok (task_of w p);
  inv_class : forall p, is_rt (task_of w p) = true ->
    0 <= prio (task_of w p) < MAX_RT_PRIO /\ 0 <= p < PID_MAX_LIMIT;
  inv_queued : forall p, on_rt_rq (task_of w p) = is_rt (task_of w p) && task_on_rq_queued (task_of w p);
  inv_curr : forall c, cpu_ok c -> cpu (task_of w (curr (cpu_rq w c))) = c
}.

Lemma fr_is_rt w w' x : fr w w' -> is_rt (task_of w' x) = is_rt (task_of w x).
Proof. intros F. pose proof (fr_task _ _ F x) as T. unfold is_rt. by injection T as _ _ _ -> _ _ _. Qed.
Lemma fr_prio w w' x : fr w w' -> prio (task_of w' x) = prio (task_of w x).
Proof. intros F. pose proof (fr_task _ _ F x) as T. by injection T. Qed.
Lemma fr_cpu w w' x : fr w w' -> cpu (task_of w' x) = cpu (task_of w x).
Proof. intros F. pose proof (fr_task _ _ F x) as T. by injection T. Qed.
Lemma fr_on_rq w w' x : fr w w' -> on_rq (task_of w' x) = on_rq (task_of w x).
Proof. intros F. pose proof (fr_task _ _ F x) as T. by injection T. Qed.
Lemma fr_nr w w' x : fr w w' -> nr_cpus_allowed (task_of w' x) = nr_cpus_allowed (task_of w x).
Proof. intros F. pose proof (fr_task _ _ F x) as T. by injection T. Qed.

Lemma fr_inv w w' : inv w -> fr w w' -> good None w' ->
  (forall x, on_rt_rq (task_of w' x) = on_rt_rq (task_of w x)) -> inv w'.
Proof.
  intros [_ P C Q R] F G O. split; [done|..]; intros x.
  - unfold class_ok. pose proof (fr_task _ _ F x) as T. injection T as -> _ _ -> _ _ _. apply P.
  - rewrite (fr_is_rt _ _ x F), (fr_prio _ _ x F). apply C.
  - rewrite O, (fr_is_rt _ _ x F), Q. unfold task_on_rq_queued. by rewrite (fr_on_rq _ _ x F).
  - intros Hx. rewrite (fr_curr _ _ F), (fr_cpu _ _ _ F). by apply R.
Qed.

Lemma rt_quiet_inv w w' : quiet w w' -> inv w -> inv w'.
Proof.
  intros Q I. eapply fr_inv; [done|by apply quiet_fr|by eapply quiet_good; [|apply I]|]. intros x. by apply quiet_on.
Qed.

Lemma good_none w p : good (Some p) w -> on_list (task_of w p) = false -> good None w.
Proof.
  intros [[G1 G2 G4 G5 G6 G7 G8] P] L. split; [|done]. split; try done. intros x _.
  destruct (decide (x = p)) as [->|]; [by rewrite L, G7|apply G6; congruence].
Qed.
Lemma good_some w p : good None w -> on_rt_rq (task_of w p) = false -> good (Some p) w.
Proof.
  intros [[G1 G2 G4 G5 G6 G7 G8] P] L. split; [|done]. split; try done; [|by intros x [= <-]]. intros x _. by apply G6.
Qed.

(** A change of a task that is not queued. *)
Lemma change_good w p f : let t := task_of w p in good (Some p) w ->
  on_list (f t) = on_list t -> on_rt_rq (f t) = on_rt_rq t -> cpu_ok (cpu (f t)) ->
  (on_list t = true -> cpu (f t) = cpu t /\ prio (f t) = prio t) -> good (Some p) (on_task w p f).
Proof.
  intros t [[G1 G2 G4 G5 G6 G7 G8] P] L O C H. pose proof (G7 p eq_refl) as Off. fold t in Off.
  assert (T : forall x, task_of (on_task w p f) x = if x =? p then f t else task_of w x) by done.
  assert (Ps : forall c x, pset (on_task w p f) c x <-> pset w c x).
  { intros c x. unfold pset. rewrite T. destruct (Z.eqb_spec x p) as [->|]; [|done]. fold t. rewrite O, Off. naive_solver. }
  split; [split; [by apply links_on_task| |done|..]|].
  - intros c Hc. destruct (on_list t) eqn:El.
    + destruct (H eq_refl) as [H1 H2]. destruct (G2 c Hc) as [A [C1 C2 C3 C4] Tp Ov].
      assert (Ke : forall x, keys (on_task w p f) x = if x =? p then key (f t) else keys w x) by (intros; apply keys_on_task).
      assert (Ty : forall n, n = n_on \/ n = n_rr \/ n = n_migr -> tally n (keys (on_task w p f)) (rtq w c) = tally n (keys w) (rtq w c)).
      { intros n Hn. apply zsum_ext. intros x _. rewrite Ke. destruct (Z.eqb_spec x p) as [->|]; [|done].
        rewrite !counted_off; [done|done| |done|]; unfold keys; simpl; [done|congruence]. }
      split; [|split; rewrite Ty by auto; done|done|done]. eapply arr_frame; [exact A|done..|]. intros x. rewrite Ke.
      destruct (Z.eqb_spec x p) as [->|]; [|done]. unfold keys. fold t. simpl. by rewrite L, H1, H2, El.
    + eapply rt_ok_frame; [by apply G2|]. intros x. rewrite keys_on_task. destruct (Z.eqb_spec x p) as [->|]; [|done].
      unfold keys. fold t. simpl. rewrite L, El. naive_solver.
  - intros x. rewrite T. by destruct (x =? p).
  - intros x Hx. rewrite T. destruct (Z.eqb_spec x p) as [->|]; [done|by apply G6].
  - intros x Hx. rewrite T. destruct (Z.eqb_spec x p) as [->|]; [congruence|by apply G7].
  - intros x. rewrite T. destruct (Z.eqb_spec x p) as [->|]; [congruence|apply G8].
  - intros c Hc. eapply push_frame; [by apply P|done..| |by intros; rewrite Ps].
    intros x (Hx & _). rewrite keys_on_task. destruct (Z.eqb_spec x p) as [->|]; [|done]. fold t in Hx. congruence.
Qed.

(** *** Taking a task out for a change and putting it back *)

Lemma rt_put_prev_off out w c p : good out w -> on_rt_rq (task_of w p) = false ->
  exists w', put_prev_task w c p = Some w' /\ quiet w w'.
Proof.
  intros G O. unfold put_prev_task, put_prev_task_rt. destruct (is_rt _); [|by exists w].
  destruct (update_curr_rt_quiet out w c G) as (w1 & -> & Q). cbn [mbind option_bind].
  rewrite (quiet_on _ _ p Q), O. by exists w1.
Qed.

Lemma dequeue_any w p flags : let t := task_of w p in let c := cpu t in good None w ->
  (is_rt t = false -> on_rt_rq t = false) ->
  exists w', dequeue_task w c p flags = Some w' /\ good (Some p) w' /\ fr w w' /\ flags_but p w w' /\
    on_list (task_of w' p) = on_rt_rq t && negb (move_entity flags).
Proof.
  intros t c G H. unfold dequeue_task. fold t. destruct (is_rt t); [by apply dequeue_task_rt_spec|]. exists w.
  specialize (H eq_refl). split_and!; try done; [by apply good_some|]. fold t. rewrite H. unfold t. by rewrite (g_task _ _ G p).
Qed.

Lemma take_out w p flags (queued running : bool) : let t := task_of w p in let c := cpu t in
  inv w -> queued = task_on_rq_queued t ->
  exists w1 w2, (if queued then dequeue_task w c p flags else Some w) = Some w1 /\
    (if running then put_prev_task w1 c p else Some w1) = Some w2 /\
    good (Some p) w2 /\ fr w w2 /\ flags_but p w w2 /\
    on_list (task_of w2 p) = on_rt_rq t && negb (move_entity flags).
Proof.
  intros t c I ->. pose proof (inv_queued _ I p) as Q. fold t in Q.
  assert (exists w1, (if task_on_rq_queued t then dequeue_task w c p flags else Some w) = Some w1 /\
    good (Some p) w1 /\ fr w w1 /\ flags_but p w w1 /\ on_list (task_of w1 p) = on_rt_rq t && negb (move_entity flags))
    as (w1 & E1 & G1 & F1 & Fl & L1).
  { destruct (task_on_rq_queued t).
    - apply dequeue_any; [apply I|]. fold t. rewrite Q. by intros ->.
    - rewrite andb_false_r in Q. exists w. split_and!; try done; [by apply good_some; [apply I|]|].
      fold t. rewrite Q. unfold t. by rewrite (g_task _ _ I p). }
  exists w1. destruct running; [|by exists w1].
  destruct (rt_put_prev_off _ w1 c p G1) as (w2 & E2 & Q2); [by apply (g_out _ _ G1)|]. exists w2.
  split_and!; [done..|by eapply quiet_good|etransitivity; [done|by apply quiet_fr]| |].
  - intros x Hx. rewrite (quiet_on _ _ x Q2). by apply Fl.
  - pose proof (qt_task _ _ Q2 p) as T. injection T as _ _ _ _ _ _ _ T _. by rewrite T.
Qed.

Lemma quiet_rest w w' c : quiet w w' -> curr (cpu_rq w' c) = curr (cpu_rq w c).
Proof. intros Q. apply (fr_curr _ _ (quiet_fr _ _ Q)). Qed.

Lemma quiet_callback w c cb : quiet w (on_rq_of w c (queue_balance_callback cb)).
Proof. apply quiet_on_rq; unfold queue_balance_callback; destruct (_ || _); try done; by left. Qed.

Lemma quiet_queue_push w c : quiet w (rt_queue_push_tasks w c).
Proof. unfold rt_queue_push_tasks. destruct (has_pushable_tasks _); [apply quiet_callback|done]. Qed.

Lemma set_next_good out w p first : let c := cpu (task_of w p) in good out w -> curr (cpu_rq w c) = p ->
  good out (set_next_task_rt w c p first) /\ fr w (set_next_task_rt w c p first) /\
  forall x, on_rt_rq (task_of (set_next_task_rt w c p first) x) = on_rt_rq (task_of w x).
Proof.
  intros c G Hc. unfold set_next_task_rt. set (w1 := on_task w p _).
  assert (Q1 : quiet w w1) by (by apply quiet_on_task). pose proof (quiet_good _ _ _ Q1 G) as G1.
  assert (C1 : cpu (task_of w1 p) = c) by (by rewrite (fr_cpu _ _ p (quiet_fr _ _ Q1))).
  set (w2 := dequeue_pushable_task w1 c p).
  assert (G2 : good out w2).
  { unfold w2. rewrite <- C1. apply (unpush_good _ _ _ (pset w1 c)); rewrite ?C1.
    - apply G1.
    - intros x Hx _. by apply G1.
    - apply G1. rewrite <- C1. apply G1.
    - intros x. split; [|by intros [? _]]. intros Hx. split; [done|]. intros ->. destruct Hx as (_ & _ & _ & Hx).
      by rewrite (quiet_rest _ _ c Q1) in Hx. }
  assert (Q3 : quiet w2 (if first then rt_queue_push_tasks w2 c else w2)) by (destruct first; [apply quiet_queue_push|done]).
  split_and!.
  - by eapply quiet_good.
  - etransitivity; [by apply quiet_fr|]. etransitivity; [apply fr_dequeue_pushable|]. by apply quiet_fr.
  - intros x. rewrite (quiet_on _ _ x Q3). by apply (quiet_on w w1).
Qed.

Lemma put_in w p flags (queued running : bool) : let t := task_of w p in let c := cpu t in
  good (Some p) w -> (running = true -> curr (cpu_rq w c) = p) ->
  (is_rt t = true -> 0 <= prio t < MAX_RT_PRIO /\ 0 <= p < PID_MAX_LIMIT) ->
  on_list t = is_rt t && queued && negb (move_entity flags) ->
  exists w1, (if queued then enqueue_task w c p flags else Some w) = Some w1 /\
    let w2 := if running then set_next_task w1 c p else w1 in
    good None w2 /\ fr w w2 /\ flags_but p w w2 /\ on_rt_rq (task_of w2 p) = is_rt t && queued.
Proof.
  intros t c G Hr Hp Ol.
  assert (exists w1, (if queued then enqueue_task w c p flags else Some w) = Some w1 /\ good None w1 /\ fr w w1 /\
    flags_but p w w1 /\ on_rt_rq (task_of w1 p) = is_rt t && queued) as (w1 & E1 & G1 & F1 & Fl & O1).
  { pose proof (g_out _ _ G p eq_refl) as Off. unfold enqueue_task. fold t. destruct queued, (is_rt t) eqn:Rt; simpl in *;
      [destruct (Hp eq_refl); by apply enqueue_task_rt_spec|exists w; split_and!; try done; by apply (good_none w p)..]. }
  exists w1. split; [done|]. destruct running; [|done]. specialize (Hr eq_refl). unfold set_next_task.
  rewrite (fr_is_rt _ _ p F1). fold t. destruct (is_rt t) eqn:Rt; [|by rewrite O1].
  assert (C1 : cpu (task_of w1 p) = c) by (by rewrite (fr_cpu _ _ p F1)).
  destruct (set_next_good None w1 p false G1) as (G2 & F2 & O2); rewrite C1 in *; [by rewrite (fr_curr _ _ F1)|].
  split_and!; [done|by etransitivity| |by rewrite O2]. intros x Hx. rewrite O2. by apply Fl.
Qed.

(** *** Changes of priority, class and affinity *)

Lemma quiet_queue_pull w c : quiet w (rt_queue_pull_task w c).
Proof. apply quiet_callback. Qed.

Lemma check_class_changed_quiet w c p k oldprio : quiet w (check_class_changed w c p k oldprio).
Proof.
  unfold check_class_changed. destruct (bool_decide _).
  - destruct (_ && _); [|done]. unfold prio_changed_rt. destruct (negb _); [done|]. destruct (_ =? p).
    + set (w1 := if _ <? _ then _ else w). assert (Q : quiet w w1) by (unfold w1; destruct (_ <? _); [apply quiet_queue_pull|done]).
      clearbody w1. destruct (_ <? _); [|done]. etransitivity; [done|apply quiet_resched].
    + destruct (_ <? _); [apply quiet_resched|done].
  - set (w1 := if bool_decide _ then _ else w).
    assert (Q : quiet w w1).
    { unfold w1. destruct (bool_decide _); [|done]. unfold switched_from_rt. destruct (_ || _); [done|apply quiet_queue_pull]. }
    clearbody w1. destruct (is_rt _); [|done]. etransitivity; [done|]. unfold switched_to_rt. destruct (_ =? p); [done|].
    destruct (task_on_rq_queued _); [|done]. set (w2 := if _ && _ then rt_queue_push_tasks w1 c else w1).
    assert (Q2 : quiet w1 w2) by (unfold w2; destruct (_ && _); [apply quiet_queue_push|done]).
    clearbody w2. destruct (_ && _); [|done]. etransitivity; [done|apply quiet_resched].
Qed.

(** A step that changes the state of one task only. *)
Lemma inv_upd w w' p : inv w -> good None w' ->
  (forall x, x <> p -> trest (task_of w' x) = trest (task_of w x) /\ on_rt_rq (task_of w' x) = on_rt_rq (task_of w x)) ->
  (forall c, curr (cpu_rq w' c) = curr (cpu_rq w c)) -> class_ok (task_of w' p) ->
  (is_rt (task_of w' p) = true -> 0 <= prio (task_of w' p) < MAX_RT_PRIO /\ 0 <= p < PID_MAX_LIMIT) ->
  on_rt_rq (task_of w' p) = is_rt (task_of w' p) && task_on_rq_queued (task_of w' p) ->
  (forall c, cpu_ok c -> curr (cpu_rq w c) = p -> cpu (task_of w' p) = c) -> inv w'.
Proof.
  intros I G Ho Hc Co Rt On Cu. split; [done|..]; intros x; (destruct (decide (x = p)) as [->|Hx]; [try done|
    try (destruct (Ho x Hx) as [T O]; injection T as T1 _ _ T4 T5 _ _)]).
  - unfold class_ok. rewrite T1, T4. apply (inv_prio _ I).
  - unfold is_rt. rewrite T1, T4. apply (inv_class _ I).
  - unfold is_rt, task_on_rq_queued. rewrite O, T4, T5. apply (inv_queued _ I).
  - intros Hp. rewrite Hc. destruct (decide (curr (cpu_rq w p) = p)) as [E|E]; [rewrite E; by apply Cu|].
    destruct (Ho _ E) as [T _]. injection T as _ _ _ _ _ -> _. by apply (inv_curr _ I).
  - intros Hp. rewrite Hc. destruct (decide (curr (cpu_rq w x) = p)) as [E|E]; [rewrite E; by apply Cu|].
    destruct (Ho _ E) as [T' _]. injection T' as _ _ _ _ _ -> _. by apply (inv_curr _ I).
Qed.

Lemma change_inv w w2 w4 p f : let t2 := task_of w2 p in inv w -> fr w w2 -> flags_but p w w2 ->
  fr (on_task w2 p f) w4 -> flags_but p (on_task w2 p f) w4 -> good None w4 ->
  cpu (f t2) = cpu t2 -> on_rq (f t2) = on_rq t2 -> class_ok (f t2) ->
  (is_rt (f t2) = true -> 0 <= prio (f t2) < MAX_RT_PRIO /\ 0 <= p < PID_MAX_LIMIT) ->
  on_rt_rq (task_of w4 p) = is_rt (f t2) && task_on_rq_queued (task_of w p) -> inv w4.
Proof.
  intros t2 I F2 Fl2 F4 Fl4 G C Oq Co Rt On.
  pose proof (fr_task _ _ F4 p) as T. simpl in T. rewrite upd_eq in T. fold t2 in T. injection T as T1 _ _ T4 T5 T6 _.
  apply (inv_upd w w4 p); try done.
  - intros x Hx. rewrite Fl4, (fr_task _ _ F4) by done. simpl. rewrite upd_ne by done. by rewrite (fr_task _ _ F2), Fl2.
  - intros c. rewrite (fr_curr _ _ F4). simpl. apply (fr_curr _ _ F2).
  - unfold class_ok. by rewrite T1, T4.
  - unfold is_rt. by rewrite T1, T4.
  - rewrite On. unfold is_rt, task_on_rq_queued. rewrite T4, T5, Oq. unfold t2. by rewrite (fr_on_rq _ _ p F2).
  - intros c Hc Hp. rewrite T6, C. unfold t2. rewrite (fr_cpu _ _ p F2), <- Hp. by apply (inv_curr _ I).
Qed.

Lemma prio_class_rt p : prio_class p = rt_sched_class -> 0 <= p < MAX_RT_PRIO.
Proof.
  unfold prio_class, dl_prio, rt_prio, Deadline.MAX_DL_PRIO. destruct (Z.ltb_spec p 0); [done|]. destruct (Z.ltb_spec p MAX_RT_PRIO); [lia|done].
Qed.

Lemma class_ok_rt t : class_ok t -> is_rt t = true -> 0 <= prio t < MAX_RT_PRIO.
Proof. intros C R%bool_decide_eq_true. destruct C as [C|[C|C]]; rewrite R in C; try done. by apply prio_class_rt. Qed.

(** The common part of the changes: [f] is applied between the two halves. *)
Lemma change_spec w p f df ef : let t := task_of w p in let c := cpu t in inv w -> 0 <= p < PID_MAX_LIMIT ->
  move_entity ef = move_entity df ->
  (forall t', cpu (f t') = cpu t' /\ on_rq (f t') = on_rq t' /\ on_list (f t') = on_list t' /\ on_rt_rq (f t') = on_rt_rq t') ->
  (forall t', trest t' = trest t -> class_ok (f t') /\
     (move_entity df = false -> prio (f t') = prio t /\ is_rt (f t') = is_rt t)) ->
  exists w1 w2, (if task_on_rq_queued t then dequeue_task w c p df else Some w) = Some w1 /\
    (if curr (cpu_rq w c) =? p then put_prev_task w1 c p else Some w1) = Some w2 /\ fr w w2 /\
    exists w4, (if task_on_rq_queued t then enqueue_task (on_task w2 p f) c p ef else Some (on_task w2 p f)) = Some w4 /\
      inv (if curr (cpu_rq w c) =? p then set_next_task w4 c p else w4).
Proof.
  intros t c I Id M Hf Hc.
  destruct (take_out w p df (task_on_rq_queued t) (curr (cpu_rq w c) =? p) I eq_refl) as (w1 & w2 & E1 & E2 & G2 & F2 & Fl2 & L2).
  exists w1, w2. split_and!; [done..|]. set (w3 := on_task w2 p f). destruct (Hf (task_of w2 p)) as (H1 & H2 & H3 & H4).
  destruct (Hc (task_of w2 p) (fr_task _ _ F2 p)) as [H5 H6].
  assert (T3 : task_of w3 p = f (task_of w2 p)) by (unfold w3; simpl; apply upd_eq).
  assert (C2 : cpu (task_of w2 p) = c) by apply (fr_cpu _ _ p F2).
  pose proof (inv_queued _ I p) as Q. fold t in Q, L2.
  assert (G3 : good (Some p) w3).
  { apply change_good; rewrite ?H1, ?H3; try done; [apply G2|]. rewrite L2. intros [_ Hm%negb_true_iff]%andb_true_iff.
    split; [done|]. rewrite (fr_prio _ _ p F2). by apply H6. }
  assert (R3 : is_rt (task_of w3 p) = true -> 0 <= prio (task_of w3 p) < MAX_RT_PRIO /\ 0 <= p < PID_MAX_LIMIT).
  { rewrite T3. intros R. split; [by apply class_ok_rt|done]. }
  destruct (put_in w3 p ef (task_on_rq_queued t) (curr (cpu_rq w c) =? p) G3) as (w4 & E4 & G4 & F4 & Fl4 & O4).
  - intros Hr%Z.eqb_eq. rewrite T3, H1, C2. unfold w3. simpl. by rewrite (fr_curr _ _ F2).
  - done.
  - rewrite T3, H3, L2, Q, M. destruct (move_entity df); simpl; [by rewrite !andb_false_r|]. destruct H6 as [_ ->]; done.
  - rewrite T3, H1, C2 in E4, G4, F4, Fl4, O4. exists w4. split; [done|].
    eapply (change_inv w w2 _ p f); try done; rewrite <- T3; done.
Qed.

Lemma quiet_clock w c now : quiet w (on_rq_of w c (r_clock_task now)).
Proof. apply quiet_on_rq; try done. by left. Qed.

Lemma class_ok_set prio' t : class_ok (__setscheduler_prio prio' t).
Proof. by right; right. Qed.

Lemma is_rt_set prio' t : class_ok t -> class t <> stop_sched_class -> class t <> idle_sched_class ->
  prio' = prio t -> forall t', is_rt (__setscheduler_prio prio' t') = is_rt t.
Proof. intros [?|[?|C]] H1 H2 -> t'; try done. unfold is_rt. rewrite C. done. Qed.

Lemma move_entity_save b h : move_entity ((if h : bool then Z.lor (if b : bool then Z.lor DEQUEUE_SAVE DEQUEUE_NOCLOCK
    else Z.lor (Z.lor DEQUEUE_SAVE DEQUEUE_NOCLOCK) DEQUEUE_MOVE) ENQUEUE_HEAD
  else if b then Z.lor DEQUEUE_SAVE DEQUEUE_NOCLOCK else Z.lor (Z.lor DEQUEUE_SAVE DEQUEUE_NOCLOCK) DEQUEUE_MOVE)) = negb b.
Proof. by destruct b, h. Qed.

(** [p] is neither a stopper nor, unless it is the idle task of its CPU, an idle task. *)
Definition may_boost (w : world) (p : Z) : Prop :=
  let t := task_of w p in 0 <= p < PID_MAX_LIMIT /\ class t <> stop_sched_class /\
  (class t = idle_sched_class -> p = idle (cpu_rq w (cpu t))).

Lemma rt_mutex_setprio_spec w p pi now : inv w -> may_boost w p ->
  exists w', rt_mutex_setprio w p pi now = Some w' /\ inv w'.
Proof.
  intros I (Id & Hs & Hi). unfold rt_mutex_setprio. set (t := task_of w p) in *. set (prio' := __rt_effective_prio _ _).
  destruct (_ && _ && _); [by exists w|]. set (c := cpu t) in *. set (w1 := on_task (on_rq_of _ _ _) p _).
  assert (Q1 : quiet w w1) by (etransitivity; [apply quiet_clock|by apply quiet_on_task]). pose proof (rt_quiet_inv _ _ Q1 I) as I1.
  destruct (_ && _) eqn:Eq; [by exists w1|]. destruct (Z.eqb_spec p (idle (cpu_rq w1 c))) as [Ei|Ei]; [by exists w1|].
  assert (Hi' : class t <> idle_sched_class).
  { intros Hc. specialize (Hi Hc). destruct Ei. rewrite Hi at 1. unfold w1. simpl. by rewrite upd_eq. }
  pose proof (quiet_fr _ _ Q1) as F1. pose proof (fr_task _ _ F1 p) as T1. fold t in T1. clearbody w1.
  assert (Qe : task_on_rq_queued (task_of w1 p) = task_on_rq_queued t) by (unfold task_on_rq_queued; by rewrite (fr_on_rq _ _ p F1)).
  set (qf := if prio t =? prio' then _ else _).
  set (fl := if negb (dl_prio prio') && rt_prio prio' && (prio t <? prio') then Z.lor qf ENQUEUE_HEAD else qf).
  set (b := negb (dl_prio prio') && negb (rt_prio prio') && rt_prio (prio t)).
  destruct (change_spec w1 p (fun x => __setscheduler_prio prio' (if b then t_timeout 0 x else x)) qf fl I1 Id)
    as (w2 & w3 & E2 & E3 & F3 & w4 & E4 & I4).
  - unfold fl, qf. rewrite move_entity_save. symmetry. apply (move_entity_save (prio t =? prio') false).
  - by intros t'; destruct b.
  - intros t' Ht'. rewrite T1 in Ht'. split; [apply class_ok_set|].
    unfold qf. rewrite (move_entity_save (prio t =? prio') false). intros He%negb_false_iff%Z.eqb_eq.
    injection T1 as P1 _ _ C1 _ _ _. split; [by rewrite P1|].
    rewrite (is_rt_set prio' t); try done; [unfold is_rt; by rewrite C1|apply (inv_prio _ I)].
  - rewrite (fr_cpu _ _ p F1) in E2, E3, E4, I4. rewrite Qe in E2, E4. fold t c in E2, E3, E4, I4. rewrite E2. cbn [mbind option_bind].
    rewrite E3. cbn [mbind option_bind]. cbv zeta. rewrite E4. cbn [mbind option_bind]. eexists. split; [done|].
    eapply rt_quiet_inv; [apply check_class_changed_quiet|done].
Qed.

Lemma setscheduler_commit_spec w p keep policy' normal' newprio now : inv w -> 0 <= p < PID_MAX_LIMIT ->
  class (task_of w p) <> stop_sched_class -> class (task_of w p) <> idle_sched_class ->
  exists w', setscheduler_commit w p keep policy' normal' newprio now = Some w' /\ inv w'.
Proof.
  intros I Id Hs Hi. unfold setscheduler_commit. set (t := task_of w p) in *. set (c := cpu t) in *. set (w1 := on_rq_of _ _ _).
  assert (Q1 : quiet w w1) by apply quiet_clock. pose proof (rt_quiet_inv _ _ Q1 I) as I1.
  pose proof (quiet_fr _ _ Q1) as F1. pose proof (fr_task _ _ F1 p) as T1. fold t in T1. clearbody w1.
  assert (Qe : task_on_rq_queued (task_of w1 p) = task_on_rq_queued t) by (unfold task_on_rq_queued; by rewrite (fr_on_rq _ _ p F1)).
  set (qf := if newprio =? prio t then _ else _).
  set (f := fun x => if keep then x else __setscheduler_prio newprio (t_policy policy' (t_normal_prio normal' x))).
  set (np := if keep then prio t else newprio).
  destruct (change_spec w1 p f qf (if prio t <? np then Z.lor qf ENQUEUE_HEAD else qf) I1 Id)
    as (w2 & w3 & E2 & E3 & F3 & w4 & E4 & I4).
  - unfold qf. rewrite move_entity_save. symmetry. apply (move_entity_save (newprio =? prio t) false).
  - unfold f. by intros t'; destruct keep.
  - intros t' Ht'. rewrite T1 in Ht'. injection T1 as P1 _ _ C1 _ _ _. split.
    + unfold f. destruct keep; [|apply class_ok_set]. unfold class_ok. injection Ht' as -> _ _ -> _ _ _. apply (inv_prio _ I).
    + unfold qf. rewrite (move_entity_save (newprio =? prio t) false). intros He%negb_false_iff%Z.eqb_eq. rewrite P1. unfold f.
      destruct keep; [injection Ht' as -> _ _ Hc _ _ _; unfold is_rt; by rewrite Hc, C1|]. split; [done|].
      rewrite (is_rt_set newprio t); try done; [unfold is_rt; by rewrite C1|apply (inv_prio _ I)].
  - rewrite (fr_cpu _ _ p F1) in E2, E3, E4, I4. rewrite Qe in E2, E4. fold t c in E2, E3, E4, I4. rewrite E2. cbn [mbind option_bind].
    rewrite E3. cbn [mbind option_bind]. cbv zeta.
    assert (Np : prio (task_of (on_task w3 p f) p) = np).
    { simpl. rewrite upd_eq. unfold f, np. destruct keep; [|done]. by rewrite (fr_prio _ _ p F3), (fr_prio _ _ p F1). }
    fold f. rewrite Np, E4. cbn [mbind option_bind]. eexists. split; [done|].
    eapply rt_quiet_inv; [apply check_class_changed_quiet|done].
Qed.

Lemma set_cpus_allowed_spec w p new_mask : inv w -> 0 <= p < PID_MAX_LIMIT ->
  exists w', __do_set_cpus_allowed w p new_mask = Some w' /\ inv w'.
Proof.
  intros I Id. unfold __do_set_cpus_allowed. set (t := task_of w p). set (c := cpu t).
  destruct (change_spec w p (set_cpus_allowed_common new_mask) (Z.lor DEQUEUE_SAVE DEQUEUE_NOCLOCK) (Z.lor ENQUEUE_RESTORE ENQUEUE_NOCLOCK) I Id)
    as (w2 & w3 & E2 & E3 & F3 & w4 & E4 & I4); [done|done| |].
  - intros t' Ht'. injection Ht' as P1 _ _ C1 _ _ _. split; [|intros _; by split; [|unfold is_rt; simpl; rewrite C1]].
    unfold class_ok. simpl. rewrite P1, C1. apply (inv_prio _ I).
  - fold t c in E2, E3, E4, I4. rewrite E2. cbn [mbind option_bind]. rewrite E3. cbn [mbind option_bind]. cbv zeta.
    rewrite E4. cbn [mbind option_bind]. by eexists.
Qed.


(** *** Migration *)

(** A change of a task that its queue does not see. *)
Lemma same_key_good out w p f : good out w -> key (f (task_of w p)) = key (task_of w p) -> good out (on_task w p f).
Proof.
  intros [[G1 G2 G4 G5 G6 G7 G8] P] K.
  assert (Ke : forall x, keys (on_task w p f) x = keys w x).
  { intros x. rewrite keys_on_task. by destruct (Z.eqb_spec x p) as [->|]. }
  injection K as K1 K2 K3 K4 K5 K6.
  assert (T : forall x, task_of (on_task w p f) x = if x =? p then f (task_of w p) else task_of w x) by done.
  assert (Ps : forall c x, pset (on_task w p f) c x <-> pset w c x).
  { intros c x. unfold pset. rewrite <- !Z.ltb_lt, T. destruct (Z.eqb_spec x p) as [->|]; [|done]. by rewrite K3, K4, K6. }
  split; [split; [by apply links_on_task| |done|..]|].
  - intros c Hc. eapply rt_ok_frame; [by apply G2|]. intros x _. apply Ke.
  - intros x. rewrite T. destruct (x =? p); [rewrite K3|]; apply G5.
  - intros x Hx. rewrite T. destruct (Z.eqb_spec x p) as [->|]; [rewrite K5, K6|]; by apply G6.
  - intros x Hx. rewrite T. destruct (Z.eqb_spec x p) as [->|]; [rewrite K6|]; by apply G7.
  - intros x. rewrite T. destruct (Z.eqb_spec x p) as [->|]; [rewrite K1, K6|]; apply G8.
  - intros c Hc. eapply push_frame; [by apply P|done..| |done]. intros x _. by rewrite Ke.
Qed.

(** What a move of [p] to CPU [i] leaves as it was. *)
Record moved (p i : Z) (w w' : world) : Prop := {
  mv_task : forall x, x <> p -> trest (task_of w' x) = trest (task_of w x) /\ on_rt_rq (task_of w' x) = on_rt_rq (task_of w x);
  mv_p : let t := task_of w p in let t' := task_of w' p in
    (prio t', normal_prio t', policy t', class t', nr_cpus_allowed t') = (prio t, normal_prio t, policy t, class t, nr_cpus_allowed t) /\
    cpu t' = i /\ on_rq t' = TASK_ON_RQ_QUEUED;
  mv_curr : forall c, curr (cpu_rq w' c) = curr (cpu_rq w c);
  mv_base : forall c, base (cpu_rq w' c) = base (cpu_rq w c)
}.

Definition not_current (w : world) (p : Z) : Prop := curr (cpu_rq w (cpu (task_of w p))) <> p.

Lemma move_task_spec w p i : inv w -> cpu_ok i -> not_current w p ->
  exists w', move_task w (cpu (task_of w p)) p i = Some w' /\ inv w' /\ moved p i w w'.
Proof.
  intros I Hi Nc. unfold move_task, deactivate_task. cbn [mbind option_bind]. cbv zeta. set (t := task_of w p). set (c := cpu t).
  change (if has 0 DEQUEUE_SLEEP then 0 else TASK_ON_RQ_MIGRATING) with TASK_ON_RQ_MIGRATING.
  set (w1 := on_task w p (t_on_rq TASK_ON_RQ_MIGRATING)).
  assert (T1 : task_of w1 p = t_on_rq TASK_ON_RQ_MIGRATING t) by (unfold w1; simpl; apply upd_eq).
  assert (G1 : good None w1) by (apply same_key_good; [apply I|done]).
  pose proof (inv_queued _ I p) as Q. fold t in Q.
  destruct (dequeue_any w1 p 0 G1) as (w2 & E2 & G2 & F2 & Fl2 & L2); rewrite T1 in *; [change (is_rt t = false -> on_rt_rq t = false); rewrite Q; by intros ->|].
  simpl in E2, L2. fold c in E2. rewrite E2. cbn [mbind option_bind].
  change (move_entity 0) with true in L2. rewrite andb_false_r in L2.
  pose proof (fr_task _ _ F2 p) as Tr2. rewrite T1 in Tr2. injection Tr2 as P2 N2 Po2 C2 O2 Cp2 Nr2.
  unfold set_task_cpu. set (w3 := on_task w2 p (t_cpu i)).
  assert (T3 : task_of w3 p = t_cpu i (task_of w2 p)) by (unfold w3; simpl; apply upd_eq).
  assert (G3 : good (Some p) w3) by (apply change_good; try done; simpl; by rewrite L2).
  unfold activate_task. rewrite T3. simpl. rewrite O2. simpl. change (Z.lor 0 ENQUEUE_MIGRATED) with ENQUEUE_MIGRATED.
  destruct (put_in w3 p ENQUEUE_MIGRATED true false G3) as (w4 & E4 & G4 & F4 & Fl4 & O4).
  { done. }
  { rewrite T3. unfold is_rt. simpl. rewrite C2, P2. intros R. split; [by apply (inv_class _ I)|by apply (inv_class _ I p)]. }
  { rewrite T3. simpl. rewrite L2. by rewrite andb_false_r. }
  rewrite T3 in E4. simpl in E4. rewrite E4. simpl. eexists. split; [done|]. set (w5 := on_task w4 p (t_on_rq TASK_ON_RQ_QUEUED)).
  assert (T5 : forall x, task_of w5 x = if x =? p then t_on_rq TASK_ON_RQ_QUEUED (task_of w4 p) else task_of w4 x) by done.
  pose proof (fr_task _ _ F4 p) as Tr4. rewrite T3 in Tr4. injection Tr4 as P4 N4 Po4 C4 _ Cp4 Nr4.
  assert (Ho : forall x, x <> p -> trest (task_of w5 x) = trest (task_of w x) /\ on_rt_rq (task_of w5 x) = on_rt_rq (task_of w x)).
  { intros x Hx. rewrite T5, (proj2 (Z.eqb_neq _ _) Hx). split.
    - rewrite (fr_task _ _ F4). unfold w3. simpl. rewrite upd_ne by done. rewrite (fr_task _ _ F2). unfold w1. simpl. by rewrite upd_ne.
    - rewrite Fl4 by done. unfold w3. simpl. rewrite upd_ne, Fl2 by done. unfold w1. simpl. by rewrite upd_ne. }
  assert (Mv : moved p i w w5).
  { split; [done| |intros x|intros x].
    - rewrite T5, Z.eqb_refl. simpl. fold t. split; [|done]. congruence.
    - change (cpu_rq w5 x) with (cpu_rq w4 x). rewrite (fr_curr _ _ F4). change (cpu_rq w3 x) with (cpu_rq w2 x). by rewrite (fr_curr _ _ F2).
    - change (cpu_rq w5 x) with (cpu_rq w4 x). rewrite (fr_base _ _ F4). change (cpu_rq w3 x) with (cpu_rq w2 x). by rewrite (fr_base _ _ F2). }
  assert (G5 : good None w5) by (by apply same_key_good). split; [|done]. specialize (T5 p). rewrite Z.eqb_refl in T5.
  apply (inv_upd w w5 p); try done; [apply Mv|..]; rewrite ?T5; unfold class_ok, is_rt, task_on_rq_queued; simpl.
  - rewrite C4, P4, C2, P2. apply (inv_prio _ I).
  - rewrite C4, P4, C2, P2. apply (inv_class _ I).
  - rewrite O4, T3. unfold is_rt. simpl. by rewrite C4, andb_true_r.
  - intros x Hx E. destruct Nc. rewrite <- E at 2. do 2 f_equal. rewrite <- E. by apply (inv_curr _ I).
Qed.

End Ops.
End RtOps.
