(* ===== verification/RtMove.v ===== *)
(** Searching, pushing and pulling in the real-time class.

    The search for a CPU finds a run queue of the same root domain that is running
    something of lower priority, if there is one.  Pushing and pulling move tasks there
    and come to an end; picking and switching keep the lists of pushable tasks exact. *)

From Stdlib Require Import ZArith Lia List.
From stdpp Require Import base list numbers option.
From S2P Require Import Prelude Plist Cpudl Cpupri Cbs Deadline Rt RtQueue RtInv RtOps.

Module RtMove.
Export RtOps.
Import Deadline(SCHED_RR, TASK_ON_RQ_QUEUED, TASK_ON_RQ_MIGRATING, DEQUEUE_SLEEP, DEQUEUE_SAVE,
  DEQUEUE_MOVE, DEQUEUE_NOCLOCK, ENQUEUE_WAKEUP, ENQUEUE_RESTORE, ENQUEUE_NOCLOCK, ENQUEUE_HEAD,
  ENQUEUE_REPLENISH, ENQUEUE_MIGRATED, EINVAL, has, dl_prio).

(** What [include/linux/cpumask.h] promises of the rotating choices: a CPU of the mask, or
    a number that is no CPU when there is none. *)
Class RtLaws (pf : RtPlatform) : Prop := {
  any_and_in : forall m s, cpumask_any_and_distribute m s < nr_cpu_ids ->
    mask_test m (cpumask_any_and_distribute m s) = true;
  any_in : forall m, cpumask_any_distribute m < nr_cpu_ids -> mask_test m (cpumask_any_distribute m) = true;
  any_some : forall m i, 0 <= i < nr_cpu_ids -> mask_test m i = true -> cpumask_any_distribute m < nr_cpu_ids
}.

Section Move.
Context {pf : RtPlatform} {laws : RtLaws pf}.

(** *** The search *)

Lemma scan_domains_in this m sds i : (this <> -1 -> mask_test m this = true) ->
  scan_domains this m sds = Some i -> mask_test m i = true.
Proof.
  intros Ht. induction sds as [|[wa sp] sds IH]; [done|]. cbn [scan_domains]. destruct wa; [|done].
  destruct (Z.eqb_spec this (-1)) as [|Hn]; simpl.
  - destruct (Z.ltb_spec (cpumask_any_and_distribute m sp) nr_cpu_ids); [|done]. intros [= <-]. by apply any_and_in.
  - destruct (mask_test sp this); [intros [= <-]; by apply Ht|].
    destruct (Z.ltb_spec (cpumask_any_and_distribute m sp) nr_cpu_ids); [|done]. intros [= <-]. by apply any_and_in.
Qed.

Lemma choose_cpu_in this c m j : 0 <= j < nr_cpu_ids -> mask_test m j = true -> mask_test m (choose_cpu this c m) = true.
Proof.
  intros Hj Hm. unfold choose_cpu. destruct (mask_test m c) eqn:Hc; [done|]. set (this' := if mask_test m this then this else -1).
  assert (Ht : this' <> -1 -> mask_test m this' = true) by (unfold this'; by destruct (mask_test m this) eqn:?).
  destruct (scan_domains _ _ _) as [i|] eqn:Hs; [by apply (scan_domains_in this' m (sched_domains c))|].
  destruct (Z.eqb_spec this' (-1)) as [|Hn]; simpl; [|by apply Ht].
  pose proof (any_some m j Hj Hm) as Hlt. destruct (Z.ltb_spec (cpumask_any_distribute m) nr_cpu_ids); [|lia]. by apply any_in.
Qed.

Lemma level_lt a b la lb : 0 <= a < MAX_RT_PRIO -> 0 <= b < MAX_RT_PRIO ->
  Cpupri.convert_prio a = Some la -> Cpupri.convert_prio b = Some lb ->
  0 <= la /\ 0 <= lb /\ (lb <= la <-> a <= b).
Proof.
  unfold Cpupri.convert_prio, Cpupri.CPUPRI_INVALID, Cpupri.CPUPRI_NORMAL, Cpupri.CPUPRI_HIGHER, Cpupri.MAX_RT_PRIO, MAX_RT_PRIO.
  intros Ha Hb La Lb. repeat (case_match; zcase; simplify_eq; try lia).
Qed.

(** CPU [i] is online in the root domain of the task and allowed, and its real-time tasks are
    of lower priority; tasks of the deadline class are not looked at. *)
Record target (w : world) (p i : Z) : Prop := {
  tg_cpu : cpu_ok i;
  tg_rd : rd (cpu_rq w i) = rd (cpu_rq w (cpu (task_of w p)));
  tg_online : online (cpu_rq w i) = true;
  tg_mask : mask_test (cpus_mask (task_of w p)) i = true;
  tg_active : mask_test (cpu_active_mask w) i = true;
  tg_prio : prio (task_of w p) < highest_curr (rtq w i)
}.

(** A CPU with no deadline tasks as well: the task would run at once there, unless the stop
    class has work. *)
Definition free_target (w : world) (p i : Z) : Prop :=
  target w p i /\ sched_dl_runnable (cpu_rq w i) = false.

(** An allowed CPU that is not online in the root domain of the task, but for which the
    deadline class has stored to the index while its run queue was offline. *)
Record strayed (w : world) (p i : Z) : Prop := {
  st_cpu : cpu_ok i;
  st_off : ~ (rd (cpu_rq w i) = rd (cpu_rq w (cpu (task_of w p))) /\ online (cpu_rq w i) = true);
  st_mask : mask_test (cpus_mask (task_of w p)) i = true;
  st_active : mask_test (cpu_active_mask w) i = true;
  st_stored : stored_offline (dl (cpu_rq w i)) = true
}.

(** The candidates of the index and their levels. *)
Lemma index_level w d c : inv w -> cpu_ok c ->
  let v := Cpupri.pr (rd_cpupri (rd_of w d)) c in
  if (rd (cpu_rq w c) =? d) && online (cpu_rq w c)
  then 0 <= v /\ (Cpupri.convert_prio (highest_curr (rtq w c)) = Some v \/
                  v = Cpupri.CPUPRI_HIGHER /\ sched_dl_runnable (cpu_rq w c) = true)
  else 0 <= v -> stored_offline (dl (cpu_rq w c)) = true.
Proof.
  intros I Hc v. pose proof (lk_pri _ (g_links _ _ I) d c Hc) as L. fold v in L. unfold cpu_pri, dl_stored in L.
  pose proof (rt_ok_high _ _ _ (g_rt _ _ I c Hc)) as H. destruct (_ && _).
  - destruct L as [L|[-> L]]; [destruct (level_lt _ _ _ _ H H L L) as (H1 & _); auto|]. split; [done|]. right.
    split; [done|]. by apply Z.ltb_lt.
  - destruct L as [L|L]; [|done]. change (Cpupri.convert_prio Cpupri.CPUPRI_INVALID) with (Some (-1)) in L. injection L as <-. lia.
Qed.

Lemma level_top a la : 0 <= a < MAX_RT_PRIO -> Cpupri.convert_prio a = Some la -> la < Cpupri.CPUPRI_HIGHER.
Proof.
  unfold Cpupri.convert_prio, Cpupri.CPUPRI_INVALID, Cpupri.CPUPRI_NORMAL, Cpupri.CPUPRI_HIGHER, Cpupri.MAX_RT_PRIO, MAX_RT_PRIO.
  intros Ha La. repeat (case_match; zcase; simplify_eq; try lia).
Qed.

Section Candidates.
Context (w : world) (p tp : Z) (I : inv w) (Hp : 0 <= prio (task_of w p) < MAX_RT_PRIO)
  (Htp : Cpupri.convert_prio (prio (task_of w p)) = Some tp).

Definition level_of (j : Z) : Z := Cpupri.pr (rd_cpupri (rdq w (cpu (task_of w p)))) j.

Definition listed_for (j : Z) : Prop :=
  Cpupri.candidate (Z.ones nr_cpu_ids) (cpu_active_mask w) (cpus_mask (task_of w p)) j = true /\ 0 <= level_of j < tp.

Lemma candidate_spec j :
  Cpupri.candidate (Z.ones nr_cpu_ids) (cpu_active_mask w) (cpus_mask (task_of w p)) j = true <->
  cpu_ok j /\ mask_test (cpus_mask (task_of w p)) j = true /\ mask_test (cpu_active_mask w) j = true.
Proof. clear Hp Htp. unfold Cpupri.candidate. rewrite !andb_true_iff, (ones_spec _ j (g_cpu _ _ I p)). naive_solver. Qed.

(** A CPU below the level of the task is a target at that level, or it has strayed. *)
Lemma listed_target j : listed_for j ->
  target w p j /\ Cpupri.convert_prio (highest_curr (rtq w j)) = Some (level_of j) \/ strayed w p j.
Proof.
  intros [(Hj & Hm & Ha)%candidate_spec Hl]. pose proof (index_level w (rd (cpu_rq w (cpu (task_of w p)))) j I Hj) as L.
  fold (rdq w (cpu (task_of w p))) in L. fold (level_of j) in L. cbv zeta in L.
  destruct (Z.eqb_spec (rd (cpu_rq w j)) (rd (cpu_rq w (cpu (task_of w p))))) as [Ed|Ed], (online (cpu_rq w j)) eqn:On; simpl in L.
  2-4: right; split; try done; [intros [? ?]; congruence|apply L; lia].
  left. pose proof (level_top _ _ Hp Htp). destruct L as (_ & [L|[L _]]); [|lia]. split; [|done]. split; try done.
  destruct (level_lt _ _ _ _ (rt_ok_high _ _ _ (g_rt _ _ I j Hj)) Hp L Htp) as (_ & _ & Hlt). lia.
Qed.

Lemma free_target_listed j : free_target w p j ->
  listed_for j /\ Cpupri.convert_prio (highest_curr (rtq w j)) = Some (level_of j).
Proof.
  intros [[Hj Hr Ho Hm Ha Hlt] Nd]. pose proof (index_level w (rd (cpu_rq w (cpu (task_of w p)))) j I Hj) as L.
  fold (rdq w (cpu (task_of w p))) in L. fold (level_of j) in L. cbv zeta in L. rewrite Hr, Ho, Z.eqb_refl, Nd in L. simpl in L.
  destruct L as (L0 & [L|[_ L]]); [|done]. split; [|done]. split; [by apply candidate_spec|].
  destruct (level_lt _ _ _ _ (rt_ok_high _ _ _ (g_rt _ _ I j Hj)) Hp L Htp) as (_ & _ & Hl). lia.
Qed.

End Candidates.

Lemma find_lowest_spec w this p : inv w -> is_rt (task_of w p) = true ->
  exists i, find_lowest_rq w this p = Some i /\
    ((i = -1 /\ (nr_cpus_allowed (task_of w p) = 1 \/ forall j, ~ free_target w p j)) \/
     (nr_cpus_allowed (task_of w p) <> 1 /\ (target w p i \/ strayed w p i) /\
      (sched_asym_cpucap_active = false -> target w p i ->
        forall j, free_target w p j -> highest_curr (rtq w j) <= highest_curr (rtq w i)))).
Proof.
  intros I Rt. set (t := task_of w p) in *. pose proof (class_ok_rt _ (inv_prio _ I p) Rt) as Hp. fold t in Hp.
  unfold find_lowest_rq. fold t. destruct (Z.eqb_spec (nr_cpus_allowed t) 1) as [|Hn]; [exists (-1); auto|].
  set (c := cpu t). set (cp := rd_cpupri (rdq w c)).
  pose proof (g_cpu _ _ I p) as Hc. fold t c in Hc.
  assert (Wf : Cpupri.cpupri_wf nr_cpu_ids (Z.ones nr_cpu_ids) cp) by apply (g_links _ _ I).
  assert (Hnr : 0 <= nr_cpu_ids) by (unfold cpu_ok in Hc; lia).
  destruct (convert_some _ Hp) as [tp Hcv].
  set (fn := if sched_asym_cpucap_active then Some (rt_task_fits_capacity t) else None).
  assert (E : (if sched_asym_cpucap_active
       then Cpupri.cpupri_find_fitness nr_cpu_ids (cpu_active_mask w) cp (prio t) (cpus_mask t) (Some 0) (Some (rt_task_fits_capacity t))
       else find_cpupri w c t (Some 0)) =
     Cpupri.cpupri_find_fitness nr_cpu_ids (cpu_active_mask w) cp (prio t) (cpus_mask t) (Some 0) fn).
  { unfold fn, find_cpupri. destruct sched_asym_cpucap_active; [done|apply Cpupri.cpupri_find_no_fitness]. }
  rewrite E. clear E.
  destruct (Cpupri.cpupri_find_fitness_spec nr_cpu_ids (Z.ones nr_cpu_ids) (cpu_active_mask w) cp (prio t) tp (cpus_mask t) 0 fn
    Hnr (ones_ok c Hc) Wf Hcv) as (found & m & -> & Hf & Hm). cbn [mbind option_bind].
  destruct found; simpl; cycle 1.
  { exists (-1). split; [done|]. left. split; [done|]. right. intros j Hj%(free_target_listed w p tp I Hp Hcv).
    assert (false = true) by (apply Hf; exists j; apply Hj). done. }
  eexists. split; [done|]. right. split; [done|]. destruct (Hm eq_refl) as (Em & lv & ok & Hlv & Mb & Low & Hok).
  destruct (mask_nonempty m Em) as [j Hj].
  assert (In : forall x, mask_test m x = true -> listed_for w p tp x /\ level_of w p x = lv).
  { intros x Hx. rewrite Mb, !andb_true_iff, Z.eqb_eq in Hx. destruct Hx as [[Hx _] Hl]. split; [|done]. split; [done|]. unfold level_of. fold t c cp. lia. }
  assert (Hi : mask_test m (choose_cpu this c m) = true).
  { apply (choose_cpu_in this c m j); [|done]. apply In in Hj as [[Hj _] _]. apply (candidate_spec w p I) in Hj as (Hj & _). exact Hj. }
  destruct (In _ Hi) as [Ti Li]. apply (listed_target w p tp I Hp Hcv) in Ti. split; [destruct Ti as [[? _]|?]; auto|].
  intros Ha Tg k Hk. destruct Ti as [[_ Ci]|St]; [|destruct (st_off _ _ _ St); by split; [apply Tg|apply Tg]].
  destruct (free_target_listed w p tp I Hp Hcv k Hk) as [[Hk1 Hk2] Ck].
  assert (Hlk : lv <= level_of w p k).
  { destruct (Z.le_gt_cases lv (level_of w p k)) as [|Hgt]; [done|]. exfalso. apply (Low k Hk1); [|unfold level_of in *; fold t c cp in Hk2, Hgt; lia].
    destruct Hok as [->|[-> _]]; [|done]. unfold fn. by rewrite Ha. }
  eapply (level_lt _ _ _ _ (rt_ok_high _ _ _ (g_rt _ _ I k (tg_cpu _ _ _ (proj1 Hk)))) (rt_ok_high _ _ _ (g_rt _ _ I _ (tg_cpu _ _ _ Tg))) Ck Ci). lia.
Qed.

Lemma find_lock_spec w this p c : inv w -> is_rt (task_of w p) = true ->
  exists r, find_lock_lowest_rq w this p c = Some r /\ forall i, r = Some i -> (target w p i \/ strayed w p i) /\ i <> c.
Proof.
  intros I Rt. unfold find_lock_lowest_rq. destruct (find_lowest_spec w this p I Rt) as (i & -> & H). cbn [mbind option_bind].
  destruct (Z.eqb_spec i (-1)) as [->|H1]; simpl; [by exists None|]. destruct (Z.eqb_spec i c) as [->|H2]; [by exists None|].
  destruct (_ <=? _); [by exists None|]. destruct (_ && _); [by exists None|]. exists (Some i). split; [done|]. intros ? [= <-].
  destruct H as [[? _]|(_ & H & _)]; [done|]. done.
Qed.

(** *** Push *)

Lemma pset_on w c p : inv w -> pset w c p ->
  is_rt (task_of w p) = true /\ task_on_rq_queued (task_of w p) = true /\ not_current w p.
Proof.
  intros I (O & C & _ & N). rewrite (inv_queued _ I) in O. apply andb_true_iff in O as [? ?]. split_and!; try done.
  unfold not_current. by rewrite C.
Qed.

Lemma pushable_ids w c p : inv w -> cpu_ok c -> p ∈ ids (pushable_tasks (rtq w c)) <-> pset w c p.
Proof. intros I Hc. apply (push_mem _ _ _ (g_push _ _ I c Hc)). Qed.

Lemma pick_next_pushable_spec w c : inv w -> cpu_ok c ->
  exists r, pick_next_pushable_task w c = Some r /\ forall p, r = Some p -> pset w c p.
Proof.
  intros I Hc. unfold pick_next_pushable_task. destruct (negb _) eqn:E; [by exists None|].
  unfold has_pushable_tasks, Plist.plist_head_empty in E. rewrite negb_involutive in E. fold (rtq w c) in E.
  unfold Plist.plist_first. destruct (Plist.node_list _) as [|n l] eqn:El; [done|]. simpl.
  assert (Hp : pset w c (Plist.id n)).
  { apply pushable_ids; [done..|]. unfold ids. rewrite El. left. }
  destruct (pset_on _ _ _ I Hp) as (Rt & Q & _). destruct Hp as (O & C & N & Cu).
  rewrite C, Z.eqb_refl, Q. simpl. rewrite (proj2 (Z.eqb_neq _ _) Cu). destruct (Z.leb_spec (nr_cpus_allowed (task_of w (Plist.id n))) 1); [lia|].
  unfold rt_task, rt_prio. destruct (inv_class _ I _ Rt) as [Hpr _].
  destruct (Z.ltb_spec (prio (task_of w (Plist.id n))) MAX_RT_PRIO); [|lia]. simpl. exists (Some (Plist.id n)). split; [done|]. by intros ? [= <-].
Qed.

Lemma push_stopper_quiet w c : quiet w (push_stopper w c).
Proof.
  unfold push_stopper, get_push_task, stop_one_cpu_nowait. repeat (case_match; simplify_eq; try done).
  etransitivity; apply quiet_on_rq; try done; by left.
Qed.

(** After a move from CPU [c] its list is shorter. *)
Lemma moved_shorter w w' p c i : inv w -> inv w' -> cpu_ok c -> pset w c p -> moved p i w w' -> i <> c ->
  (length (Plist.node_list (pushable_tasks (rtq w' c))) < length (Plist.node_list (pushable_tasks (rtq w c))))%nat.
Proof.
  intros I I' Hc Hp M Hi. rewrite <- (length_map Plist.id (Plist.node_list (pushable_tasks (rtq w c)))).
  rewrite <- (length_map Plist.id (Plist.node_list (pushable_tasks (rtq w' c)))).
  fold (ids (pushable_tasks (rtq w c))) (ids (pushable_tasks (rtq w' c))).
  assert (Sub : forall x, x ∈ ids (pushable_tasks (rtq w' c)) -> x ∈ ids (pushable_tasks (rtq w c)) /\ x <> p).
  { intros x. rewrite !pushable_ids by done. intros (O & C & N & Cu). destruct (decide (x = p)) as [->|Hx].
    - destruct (mv_p _ _ _ _ M) as (_ & E & _). congruence.
    - split; [|done]. destruct (mv_task _ _ _ _ M x Hx) as [T Of]. injection T as _ _ _ _ _ T1 T2. rewrite (mv_curr _ _ _ _ M) in Cu.
      unfold pset. rewrite <- Of, <- T1, <- T2. done. }
  assert (S : p :: ids (pushable_tasks (rtq w' c)) ⊆+ ids (pushable_tasks (rtq w c))).
  { apply NoDup_submseteq.
    - constructor; [by intros [_ ?]%Sub|]. apply (Plist.ok_nodup _ (push_plist _ _ _ (g_push _ _ I' c Hc))).
    - intros x [->|Hx]%elem_of_cons; [by apply pushable_ids|by apply Sub]. }
  apply submseteq_length in S. simpl in S. lia.
Qed.

Lemma move_target w p i : inv w -> target w p i \/ strayed w p i -> not_current w p ->
  exists w', move_task w (cpu (task_of w p)) p i = Some w' /\ inv w' /\ moved p i w w'.
Proof. intros I T N. apply move_task_spec; [done|by destruct T as [[]|[]]|done]. Qed.

Lemma resched_inv w c : inv w -> inv (resched_curr w c).
Proof. apply rt_quiet_inv, quiet_resched. Qed.

Lemma push_rt_task_spec w this c pull : inv w -> cpu_ok c ->
  exists w' b, push_rt_task w this c pull = Some (w', b) /\ inv w' /\
    (b = true -> (length (Plist.node_list (pushable_tasks (rtq w' c))) < length (Plist.node_list (pushable_tasks (rtq w c))))%nat).
Proof.
  intros I Hc. unfold push_rt_task. destruct (negb _); [by exists w, false|].
  destruct (pick_next_pushable_spec w c I Hc) as (r & -> & Hr). cbn [mbind option_bind]. destruct r as [p|]; [|by exists w, false].
  specialize (Hr p eq_refl). destruct (pset_on _ _ _ I Hr) as (Rt & Q & Nc). cbv zeta.
  destruct (_ <? _). { eexists _, false. split; [done|]. split; [by apply resched_inv|done]. }
  destruct (migration_disabled _).
  - destruct (_ || _); [by exists w, false|]. destruct (is_rt (task_of w (curr (cpu_rq w c)))) eqn:Rc; simpl; [|by exists w, false].
    destruct (find_lowest_spec w this _ I Rc) as (i & -> & _). cbn [mbind option_bind]. destruct (_ || _); [by exists w, false|].
    eexists _, false. split; [done|]. split; [|done]. eapply rt_quiet_inv; [apply push_stopper_quiet|done].
  - destruct (_ =? _); [by exists w, false|]. destruct (find_lock_spec w this p c I Rt) as (r & -> & Hl). cbn [mbind option_bind].
    destruct r as [i|]; [|by exists w, false]. destruct (Hl i eq_refl) as [Tg Hi].
    destruct (move_target w p i I Tg Nc) as (w1 & E & I1 & M). destruct Hr as (O & C & N & Cu). rewrite C in E. rewrite E.
    cbn [mbind option_bind]. eexists _, true. split; [done|]. split; [by apply resched_inv|]. intros _.
    rewrite (quiet_rtq _ _ c (quiet_resched w1 i)). by eapply (moved_shorter w w1 p c i).
Qed.

Lemma push_loop_spec this c pull fuel : forall w, inv w -> cpu_ok c ->
  (length (Plist.node_list (pushable_tasks (rtq w c))) < fuel)%nat ->
  exists w', push_loop fuel w this c pull = Some w' /\ inv w'.
Proof.
  induction fuel as [|fuel IH]; intros w I Hc Hl; [lia|]. cbn [push_loop].
  destruct (push_rt_task_spec w this c pull I Hc) as (w1 & b & -> & I1 & Hb). cbn [mbind option_bind].
  destruct b; [|by exists w1]. apply IH; [done..|]. specialize (Hb eq_refl). lia.
Qed.

Lemma push_all_spec w this c pull : inv w -> cpu_ok c -> exists w', push_all w this c pull = Some w' /\ inv w'.
Proof. intros I Hc. apply push_loop_spec; [done..|lia]. Qed.

Lemma push_cpu_stop_spec w c : inv w -> cpu_ok c -> (forall p, push_work (cpu_rq w c) = Some p -> curr (cpu_rq w c) <> p) ->
  exists w', push_cpu_stop w c = Some w' /\ inv w'.
Proof.
  intros I Hc Hn. unfold push_cpu_stop. destruct (push_work _) as [p|]; [|by exists w]. specialize (Hn p eq_refl). cbv zeta.
  set (w1 := on_rq_of w c (r_push_work None)). assert (Q1 : quiet w w1) by (apply quiet_on_rq; try done; by left).
  pose proof (rt_quiet_inv _ _ Q1 I) as I1. rewrite <- (quiet_rest _ _ c Q1) in Hn. clearbody w1.
  assert (Fin : forall w2, inv w2 -> inv (on_rq_of w2 c (r_push_busy false))).
  { intros w2. apply rt_quiet_inv, quiet_on_rq; try done. by left. }
  destruct (Z.eqb_spec (cpu (task_of w1 p)) c) as [C|C]; simpl; [|eauto]. destruct (migration_disabled _).
  { eexists. split; [done|]. apply Fin. eapply rt_quiet_inv; [by apply quiet_on_task|done]. }
  set (w2 := on_task w1 p (t_mdf_push false)). assert (Q2 : quiet w1 w2) by (by apply quiet_on_task).
  pose proof (rt_quiet_inv _ _ Q2 I1) as I2. rewrite <- (quiet_rest _ _ c Q2) in Hn. rewrite <- (fr_cpu _ _ p (quiet_fr _ _ Q2)) in C.
  rewrite <- (fr_is_rt _ _ p (quiet_fr _ _ Q2)). clearbody w2. destruct (is_rt (task_of w2 p)) eqn:Rt; [|eauto].
  destruct (find_lock_spec w2 c p c I2 Rt) as (r & -> & Hl). cbn [mbind option_bind]. destruct r as [i|]; [|eauto].
  destruct (Hl i eq_refl) as [Tg Hi]. destruct (move_target w2 p i I2 Tg) as (w3 & E & I3 & _); [unfold not_current; by rewrite C|].
  rewrite C in E. rewrite E. cbn [mbind option_bind]. eexists. split; [done|]. by apply Fin, resched_inv.
Qed.

(** *** The chain of interrupts *)

Lemma cpumask_next_ok n m : cpumask_next n m < nr_cpu_ids -> cpu_ok (cpumask_next n m).
Proof.
  unfold cpumask_next. destruct (List.find _ _) as [i|] eqn:F; simpl; [|lia]. intros _.
  apply find_some in F as [F _]. by apply mask_bits_spec in F as [? _].
Qed.

(** [rd_view] without the pending work. *)
Definition rd_core (d : root_domain) := (rd_cpupri d, rto_mask d, rto_count d).

Lemma rto_next_spec d : exists d' cpu, rto_next_cpu d = Some (d', cpu) /\ rd_view d' = rd_view d /\ (0 <= cpu -> cpu_ok cpu).
Proof.
  unfold rto_next_cpu. cbn [rto_next_loop]. set (i := cpumask_next (rto_cpu d) (rto_mask d)).
  destruct (Z.ltb_spec i nr_cpu_ids) as [H|H]; [eexists _, _; split; [done|]; split; [done|]; intros _; by apply cpumask_next_ok|].
  simpl. destruct (_ =? _); [by eexists _, _|]. set (j := cpumask_next (-1) _).
  destruct (Z.ltb_spec j nr_cpu_ids) as [H'|H']; [eexists _, _; split; [done|]; split; [done|]; intros _; by apply cpumask_next_ok|].
  rewrite Z.eqb_refl. by eexists _, _.
Qed.

(** A new place of the pending work. *)
Lemma work_inv w d f : inv w -> rd_core (f (rd_of w d)) = rd_core (rd_of w d) ->
  (forall i, rto_push_work (f (rd_of w d)) = Some i -> cpu_ok i) -> inv (on_rd w d f).
Proof.
  intros I E Hw. injection E as E1 E2 E3.
  assert (L : links (on_rd w d f)).
  { destruct (g_links _ _ I) as [L1 L2 L3 L4 L5].
    assert (R : forall x, rd_of (on_rd w d f) x = if x =? d then f (rd_of w d) else rd_of w x) by done.
    split; intros x; rewrite R; (destruct (Z.eqb_spec x d) as [->|]; rewrite ?E1, ?E2, ?E3);
      [apply L1|apply L1|exact (L2 d)|exact (L2 x)|exact (L3 d)|exact (L3 x)|exact (L4 d)|exact (L4 x)|exact Hw|exact (L5 x)]. }
  destruct I as [[[G1 G2 G4 G5 G6 G7 G8] P] I1 I2 I3 I4]. by split; [split; [split|]|..].
Qed.

Lemma irq_work_ok d i : (forall j, rto_push_work d = Some j -> cpu_ok j) -> cpu_ok i ->
  forall j, rto_push_work (irq_work_queue_on i d) = Some j -> cpu_ok j.
Proof. intros H Hi j. unfold irq_work_queue_on. destruct (rto_push_work d) eqn:E; [rewrite E; auto|]. simpl. by intros [= <-]. Qed.

Lemma tell_cpu_to_push_spec w c : inv w -> exists w', tell_cpu_to_push w c = Some w' /\ inv w'.
Proof.
  intros I. unfold tell_cpu_to_push, on_rdq. set (w1 := on_rd w _ _). assert (Q1 : quiet w w1) by (by apply quiet_on_rd).
  pose proof (rt_quiet_inv _ _ Q1 I) as I1. clearbody w1. cbv zeta. destruct (negb _); [by exists w1|].
  assert (exists d' i, (if rto_cpu (rdq w1 c) <? 0 then rto_next_cpu (rdq w1 c) else Some (rdq w1 c, -1)) = Some (d', i) /\
    rd_view d' = rd_view (rdq w1 c) /\ (0 <= i -> cpu_ok i)) as (d' & i & -> & V & Hi).
  { destruct (_ <? 0); [apply rto_next_spec|]. by eexists _, _. }
  cbn [mbind option_bind]. eexists. split; [done|]. injection V as V1 V2 V3 V4.
  assert (Wk : forall j, rto_push_work d' = Some j -> cpu_ok j) by (rewrite V4; apply (lk_work _ (g_links _ _ I1))).
  apply work_inv; [done|..]; destruct (Z.leb_spec 0 i) as [H0|]; try done.
  - unfold rdq in *. unfold irq_work_queue_on. destruct (rto_push_work d'); unfold rd_core; simpl; by rewrite V1, V2, V3.
  - unfold rd_core. unfold rdq in *. by rewrite V1, V2, V3.
  - apply irq_work_ok; auto.
Qed.

Lemma rto_push_irq_spec w d : inv w -> exists w', rto_push_irq_work_func w d = Some w' /\ inv w'.
Proof.
  intros I. unfold rto_push_irq_work_func. destruct (rto_push_work _) as [this|] eqn:E; [|by exists w].
  pose proof (lk_work _ (g_links _ _ I) _ _ E) as Ht. set (w1 := on_rd w d (d_rto_push_work None)).
  assert (I1 : inv w1) by (by apply work_inv). clearbody w1.
  assert (exists w2, (if has_pushable_tasks (cpu_rq w1 this) then push_all w1 this this true else Some w1) = Some w2 /\ inv w2) as (w2 & -> & I2).
  { destruct (has_pushable_tasks _); [by apply push_all_spec|by exists w1]. }
  cbn [mbind option_bind]. destruct (rto_next_spec (rd_of w2 d)) as (d' & i & -> & V & Hi). cbn [mbind option_bind].
  eexists. split; [done|]. injection V as V1 V2 V3 V4.
  assert (Wk : forall j, rto_push_work d' = Some j -> cpu_ok j) by (rewrite V4; apply (lk_work _ (g_links _ _ I2))).
  apply work_inv; [done|..]; destruct (Z.ltb_spec i 0) as [H0|]; try done.
  - unfold rd_core. by rewrite V1, V2, V3.
  - unfold irq_work_queue_on. destruct (rto_push_work d'); unfold rd_core; simpl; by rewrite V1, V2, V3.
  - apply irq_work_ok; auto.
Qed.

(** *** Pull *)

Lemma pull_from_spec w this_cpu src resched : inv w -> cpu_ok this_cpu -> cpu_ok src ->
  exists w' b, pull_from w this_cpu src resched = Some (w', b) /\ inv w'.
Proof.
  intros I Ht Hs. unfold pull_from. destruct (_ <=? _); [by eexists _, _|].
  destruct (pick_highest_pushable_task w src this_cpu) as [p|] eqn:Ep; [|by eexists _, _].
  assert (Hp : pset w src p).
  { unfold pick_highest_pushable_task in Ep. destruct (negb _); [done|]. apply find_some in Ep as [Ep _].
    apply pushable_ids; [done..|]. by apply list_elem_of_In. }
  destruct (pset_on _ _ _ I Hp) as (Rt & Q & Nc). cbv zeta. destruct (_ <? _); [|by eexists _, _].
  destruct (_ <? _); [by eexists _, _|]. destruct (migration_disabled _).
  - eexists _, _. split; [done|]. eapply rt_quiet_inv; [apply push_stopper_quiet|done].
  - destruct (move_task_spec w p this_cpu I Ht Nc) as (w1 & E & I1 & _). destruct Hp as (_ & C & _). rewrite C in E. rewrite E.
    cbn [mbind option_bind]. by eexists _, _.
Qed.

Lemma pull_loop_spec this_cpu cpus : forall w resched, inv w -> cpu_ok this_cpu -> Forall cpu_ok cpus ->
  exists w' b, pull_loop w this_cpu cpus resched = Some (w', b) /\ inv w'.
Proof.
  induction cpus as [|c cpus IH]; intros w resched I Ht Hc; cbn [pull_loop]; [by eexists _, _|].
  apply list.Forall_cons in Hc as [Hc Hcs]. destruct (_ =? _); [by apply IH|].
  destruct (pull_from_spec w this_cpu c resched I Ht Hc) as (w1 & b & -> & I1). cbn [mbind option_bind]. by apply IH.
Qed.

Lemma mask_bits_cpus m : Forall cpu_ok (mask_bits nr_cpu_ids m).
Proof. apply Forall_elem. intros x Hx%list_elem_of_In. by apply mask_bits_spec in Hx as [? _]. Qed.

Lemma pull_rt_task_spec w c : inv w -> cpu_ok c -> exists w', pull_rt_task w c = Some w' /\ inv w'.
Proof.
  intros I Hc. unfold pull_rt_task. destruct (_ =? 0); [by exists w|]. destruct (_ && _); [by exists w|].
  destruct RT_PUSH_IPI; [by apply tell_cpu_to_push_spec|].
  destruct (pull_loop_spec c (mask_bits nr_cpu_ids (rto_mask (rdq w c))) w false I Hc (mask_bits_cpus _)) as (w1 & b & -> & I1).
  cbn [mbind option_bind]. eexists. split; [done|]. destruct b; [by apply resched_inv|done].
Qed.

End Move.
End RtMove.
