(* ===== verification/RtHotplug.v ===== *)
(** Run queues that go offline, come online and change their root domain, and the
    handlers that only move runtime: the period timer and the sysctls.

    Going offline takes the CPU out of the index and the overload mask of its root domain
    and coming online puts it back, so that the links of [RtInv] hold on both sides. *)

From Stdlib Require Import ZArith Lia List.
From stdpp Require Import base list numbers option.
From S2P Require Import Prelude Plist Cpudl Cpupri Cbs Deadline Rt RtQueue RtInv RtOps RtMove.

Module RtHotplug.
Export RtMove.
Import Cbs(RUNTIME_INF, NSEC_PER_USEC).
Import Deadline(EINVAL).

Section Hotplug.
Context {pf : RtPlatform} {laws : RtLaws pf}.

(** *** Runtime *)

Lemma reclaim_quiet c cpus : forall w want w' r, reclaim_loop w c want cpus = (w', r) -> quiet w w'.
Proof.
  induction cpus as [|i cpus IH]; intros w want w' r; cbn [reclaim_loop]; [by intros [= -> _]|].
  destruct (_ || _); [by apply IH|]. cbv zeta. set (d := if 0 <? want then _ else _). set (w1 := on_rq_of w i _).
  assert (Q : quiet w w1) by apply (quiet_runtime w i (fun q => _)). clearbody w1.
  destruct (_ =? 0); [by intros [= <- _]|]. intros E. etransitivity; [done|by eapply IH].
Qed.

Lemma disable_quiet w c : run_ok (cpu_rq w c) -> 0 <= rt_nr_running (rtq w c) <= PID_MAX_LIMIT -> cpu_ok c ->
  quiet w (__disable_runtime w c).
Proof.
  intros R N Hc. unfold __disable_runtime. destruct (disable_reclaim w c) as [w1 r] eqn:E.
  assert (Q1 : quiet w w1).
  { revert E. unfold disable_reclaim. destruct (_ || _); [by intros [= <- _]|]. apply reclaim_quiet. }
  set (w2 := on_rq_of w1 c _). assert (Q2 : quiet w w2) by (etransitivity; [done|by apply quiet_on_rq]).
  etransitivity; [done|]. apply sched_rt_rq_enqueue_quiet; [by apply (qt_run _ _ Q2)|by rewrite (quiet_rtq _ _ c Q2)].
Qed.

Lemma enable_quiet w c : quiet w (__enable_runtime w c).
Proof. by apply quiet_on_rq. Qed.

(** *** Online and offline *)

(** A step that keeps the tasks and the queues and installs new links. *)
Lemma relink_inv w w' : inv w -> links w' -> (forall x, tkeep (task_of w' x) = tkeep (task_of w x)) ->
  (forall c, cpu_ok c -> run_ok (cpu_rq w' c)) ->
  (forall c, rtq w' c = rtq w c /\ curr (cpu_rq w' c) = curr (cpu_rq w c) /\ base (cpu_rq w' c) = base (cpu_rq w c)) -> inv w'.
Proof.
  intros I L T R Q.
  assert (F : fr w w').
  { split; intros x; [|apply Q..]. specialize (T x) as [= E1 E2 E3 E4 E5 E6 E7 E8 E9]. unfold trest. congruence. }
  assert (O : forall x, on_rt_rq (task_of w' x) = on_rt_rq (task_of w x)) by (intros x; by specialize (T x) as [= _ _ _ _ _ _ _ _ ->]).
  assert (Ke : forall x, keys w' x = keys w x).
  { intros x. specialize (T x) as [= E1 E2 E3 E4 E5 E6 E7 E8 E9]. unfold keys, key. by rewrite E1, E3, E6, E7, E8, E9. }
  apply (fr_inv w); try done. destruct I as [[[G1 G2 G4 G5 G6 G7 G8] P] _ _ _ _]. split; [split; try done|]; intros x; try intros Hx.
  - rewrite (proj1 (Q x)). eapply rt_ok_frame; [by apply G2|]. intros; apply Ke.
  - rewrite (fr_cpu _ _ x F). apply G5.
  - specialize (T x) as [= _ _ _ _ _ _ _ -> ->]. by apply G6.
  - rewrite O in Hx. rewrite (fr_prio _ _ x F). by apply G8.
  - rewrite (proj1 (Q x)). eapply push_frame; [by apply P|done..|intros; by rewrite Ke|]. intros y. unfold pset.
    by rewrite O, (fr_cpu _ _ y F), (fr_nr _ _ y F), (fr_curr _ _ F).
Qed.

(** The members of run queue and root domain that a change of [online] writes. *)
Definition flipped (w : world) (c : Z) (b : bool) (w' : world) : Prop :=
  let q := cpu_rq w c in let d := rdq w c in
  (forall x, link_view (cpu_rq w' x) = if x =? c then (rd q, b, highest_curr (rt q), overloaded (rt q), dl q) else link_view (cpu_rq w x)) /\
  exists cp, Cpupri.cpupri_set (rd_cpupri d) c (if b then highest_curr (rt q) else Cpupri.CPUPRI_INVALID) = Some cp /\
  forall i, rd_view (rd_of w' i) = if i =? rd q then
    (cp, (if overloaded (rt q) then (if b then mask_set else mask_clear) (rto_mask d) c else rto_mask d),
     (if overloaded (rt q) then rto_count d + (if b then 1 else -1) else rto_count d), rto_push_work d)
    else rd_view (rd_of w i).

Lemma over_off w d c : overloaded (rtq w c) = false \/ online (cpu_rq w c) = false -> cpu_over w d c = false.
Proof. unfold cpu_over. intros [-> | ->]; by rewrite ?andb_false_r. Qed.

Lemma cpu_over_frame w w' d x : link_view (cpu_rq w' x) = link_view (cpu_rq w x) -> cpu_over w' d x = cpu_over w d x.
Proof. intros [= E1 E2 E3 E4 _]. unfold cpu_over, rtq. by rewrite E1, E2, E4. Qed.

(** Without overload only the index changes. *)
Lemma flip_pri w c (b : bool) : links w -> cpu_ok c -> overloaded (rtq w c) = false -> 0 <= highest_curr (rtq w c) < MAX_RT_PRIO ->
  exists cp, Cpupri.cpupri_set (rd_cpupri (rdq w c)) c (if b then highest_curr (rtq w c) else Cpupri.CPUPRI_INVALID) = Some cp /\
    links (on_rdq (on_rq_of w c (r_online b)) c (d_rd_cpupri cp)).
Proof.
  intros L Hc O H. set (w1 := on_rq_of w c (r_online b)).
  assert (R1 : forall x, cpu_rq w1 x = if x =? c then r_online b (cpu_rq w c) else cpu_rq w x) by done.
  assert (Rd : rdq w1 c = rdq w c) by (unfold rdq; by rewrite R1, Z.eqb_refl).
  assert (exists r, Cpupri.convert_prio (if b then highest_curr (rtq w c) else Cpupri.CPUPRI_INVALID) = Some r) as [r Hr].
  { destruct b; [by apply convert_some|by eexists]. }
  rewrite <- Rd. eapply (links_set_pri w w1 c _ r); [done|done|split_and!; [|by rewrite R1, Z.eqb_refl..|done]|..|done|left].
  - intros x Hx. by rewrite R1, (proj2 (Z.eqb_neq _ _) Hx).
  - intros d. rewrite !over_off; [done|by left|left]. unfold rtq. by rewrite R1, Z.eqb_refl.
  - unfold cpu_pri, rtq. rewrite R1, !Z.eqb_refl. by destruct b.
Qed.

(** The domain without the CPU in its mask, and the CPU with the new flag. *)
Definition rd_cleared (w : world) (c : Z) (b : bool) (cp : Cpupri.cpupri) (i : Z) :=
  let d := rdq w c in let off := overloaded (rtq w c) && negb b in
  if i =? rd (cpu_rq w c) then
    (cp, (if off then mask_clear (rto_mask d) c else rto_mask d), (if off then rto_count d - 1 else rto_count d), rto_push_work d)
  else rd_view (rd_of w i).

Lemma flip_cleared w c b : links w -> cpu_ok c -> 0 <= highest_curr (rtq w c) < MAX_RT_PRIO -> online (cpu_rq w c) = negb b ->
  exists cp v, Cpupri.cpupri_set (rd_cpupri (rdq w c)) c (if b then highest_curr (rtq w c) else Cpupri.CPUPRI_INVALID) = Some cp /\
    links v /\ (forall x, x <> c -> link_view (cpu_rq v x) = link_view (cpu_rq w x)) /\
    link_view (cpu_rq v c) = (rd (cpu_rq w c), b, highest_curr (rtq w c), false, dl (cpu_rq w c)) /\
    forall i, rd_view (rd_of v i) = rd_cleared w c b cp i.
Proof.
  intros L Hc H On. set (v1 := if overloaded (rtq w c) then mark_overload w c false else w).
  assert (L1 : links v1) by (unfold v1; destruct (overloaded (rtq w c)) eqn:O; [by apply mark_overload_links|done]).
  assert (Q1 : forall x, cpu_rq v1 x = if x =? c then r_rt (q_overloaded false (rtq w c)) (cpu_rq w c) else cpu_rq w x).
  { intros x. unfold v1. destruct (overloaded (rtq w c)) eqn:O.
    - by rewrite (weq_rq _ _ (mark_overload_weq w c false)), rq_on_rt.
    - destruct (Z.eqb_spec x c) as [->|]; [|done]. unfold rtq in *. destruct (cpu_rq w c) as [r]. simpl in *. destruct r. simpl in O. by rewrite O. }
  assert (Rc : cpu_rq v1 c = r_rt (q_overloaded false (rtq w c)) (cpu_rq w c)) by (by rewrite Q1, Z.eqb_refl).
  assert (D1 : forall i, rd_view (rd_of v1 i) = rd_cleared w c b (rd_cpupri (rdq w c)) i).
  { intros i. unfold v1, mark_overload, rt_clear_overload, rd_cleared. rewrite On. destruct (overloaded (rtq w c)), b; simpl;
      unfold upd; destruct (Z.eqb_spec i (rd (cpu_rq w c))) as [->|]; done. }
  destruct (flip_pri v1 c b L1 Hc) as (cp & Ec & L2); [unfold rtq; by rewrite Rc..|]. exists cp. eexists. split; [|split; [exact L2|]].
  { unfold rtq, rdq in Ec. rewrite Rc in Ec. simpl in Ec. specialize (D1 (rd (cpu_rq w c))). unfold rd_cleared in D1.
    rewrite Z.eqb_refl in D1. injection D1 as D1 _ _ _. by rewrite D1 in Ec. }
  set (v2 := on_rdq (on_rq_of v1 c (r_online b)) c (d_rd_cpupri cp)) in *.
  assert (Q2 : forall x, cpu_rq v2 x = if x =? c then r_online b (cpu_rq v1 c) else cpu_rq v1 x) by done.
  assert (D2 : forall i, rd_of v2 i = if i =? rd (cpu_rq w c) then d_rd_cpupri cp (rd_of v1 i) else rd_of v1 i).
  { intros i. unfold v2, on_rdq. simpl. rewrite upd_eq, Rc. simpl. unfold upd. by destruct (Z.eqb_spec i (rd (cpu_rq w c))) as [->|]. }
  split_and!.
  - intros x Hx%Z.eqb_neq. by rewrite Q2, Hx, Q1, Hx.
  - by rewrite Q2, Z.eqb_refl, Rc.
  - intros i. rewrite D2. specialize (D1 i). unfold rd_cleared in *. destruct (i =? _); [|done]. injection D1 as _ Da Db Dc.
    unfold rd_view. simpl. by rewrite Da, Db, Dc.
Qed.

Lemma flip_links w c b w' : links w -> cpu_ok c -> 0 <= highest_curr (rtq w c) < MAX_RT_PRIO ->
  online (cpu_rq w c) = negb b -> flipped w c b w' -> links w'.
Proof.
  intros L Hc H On (V & cp & Ec & D). destruct (flip_cleared w c b L Hc H On) as (cp' & v & Ec' & L2 & Lx & Lc & V2).
  assert (cp' = cp) as -> by (unfold rtq in Ec'; congruence). unfold rd_cleared in V2. fold (rtq w c) in D, V.
  assert (Lv : forall x, x <> c -> link_view (cpu_rq w' x) = link_view (cpu_rq v x)).
  { intros x Hx. rewrite Lx by done. apply Z.eqb_neq in Hx. by rewrite V, Hx. }
  specialize (V c). rewrite Z.eqb_refl in V. destruct (overloaded (rtq w c)) eqn:O; simpl in V2; cycle 1.
  - apply (links_frame v); [done| |intros i; by rewrite D, V2]. intros x. destruct (decide (x = c)) as [->|]; [congruence|by apply Lv].
  - destruct b; simpl in V2.
    + apply (links_frame (mark_overload v c true)); [injection Lc as _ _ _ ? _; by apply mark_overload_links|..].
      * intros x. rewrite (weq_rq _ _ (mark_overload_weq v c true)), rq_on_rt. destruct (Z.eqb_spec x c) as [->|]; [|by apply Lv].
        rewrite V. injection Lc as E1 E2 E3 _ E5. unfold link_view, rtq in *. simpl. by rewrite E1, E2, E3, E5.
      * intros i. rewrite D. injection Lc as E1 E2 _ _ _. unfold mark_overload, rt_set_overload. rewrite E2. simpl. rewrite E1. unfold upd, rdq.
        specialize (V2 i). revert V2. destruct (Z.eqb_spec i (rd (cpu_rq w c))) as [->|]; intros V2; [|done]. injection V2 as E4 E5 E6 E7.
        unfold rd_view. simpl. rewrite E4, E5, E6, E7. done.
    + apply (links_ext v); [done|..|intros i; by rewrite D, V2].
      * intros d x. unfold cpu_pri, rtq. destruct (decide (x = c)) as [->|Hx].
        -- injection V as _ -> _ _ _. injection Lc as _ -> _ _ _. by rewrite !andb_false_r.
        -- specialize (Lv x Hx) as [= -> -> -> _ _]. done.
      * intros d x v1. unfold dl_stored. destruct (decide (x = c)) as [->|Hx].
        -- injection V as -> -> _ _ ->. injection Lc as -> -> _ _ ->. done.
        -- specialize (Lv x Hx) as [= -> -> _ _ ->]. done.
      * intros d x. destruct (decide (x = c)) as [->|Hx]; [|by apply cpu_over_frame, Lv].
        rewrite !over_off; [done|right; by injection Lc|right; by injection V].
Qed.

Lemma over_if w c (b o : bool) : online (cpu_rq w c) = true ->
  let w' := if o then (if b then rt_set_overload else rt_clear_overload) w c else w in
  (forall x, task_of w' x = task_of w x) /\ (forall x, cpu_rq w' x = cpu_rq w x) /\
  forall i, rd_view (rd_of w' i) = if i =? rd (cpu_rq w c) then
    (rd_cpupri (rdq w c), (if o then (if b then mask_set else mask_clear) (rto_mask (rdq w c)) c else rto_mask (rdq w c)),
     (if o then rto_count (rdq w c) + (if b then 1 else -1) else rto_count (rdq w c)), rto_push_work (rdq w c))
    else rd_view (rd_of w i).
Proof.
  intros On. destruct o, b; cbv zeta; unfold rt_set_overload, rt_clear_overload; rewrite ?On; split_and!; try done; intros i; simpl; unfold upd;
    by destruct (Z.eqb_spec i (rd (cpu_rq w c))) as [->|].
Qed.

(** The overload, then the runtime, then the index. *)
Lemma flip_done w c (b : bool) w2 : let u := if b then on_rq_of w c (r_online true) else w in
  inv w -> cpu_ok c -> online (cpu_rq w c) = negb b ->
  quiet (if overloaded (rtq u c) then (if b then rt_set_overload else rt_clear_overload) u c else u) w2 ->
  exists w3, set_cpupri w2 c (if b then highest_curr (rtq w2 c) else Cpupri.CPUPRI_INVALID) = Some w3 /\
    let w4 := if b then w3 else on_rq_of w3 c (r_online false) in
    inv w4 /\ online (cpu_rq w4 c) = b.
Proof.
  intros u I Hc On Q. pose proof (rt_ok_high _ _ _ (g_rt _ _ I c Hc)) as Hh.
  assert (U : forall x, task_of u x = task_of w x /\ rd_of u x = rd_of w x /\ (run_ok (cpu_rq w x) -> run_ok (cpu_rq u x)) /\
    rkeep (cpu_rq u x) = (rtq w x, rd (cpu_rq w x), (if x =? c then true else online (cpu_rq w x)), curr (cpu_rq w x), base (cpu_rq w x), dl (cpu_rq w x))).
  { intros x. unfold u. destruct b; simpl; unfold upd; split_and!; try done; destruct (Z.eqb_spec x c) as [->|]; try done; [by intros []; split|].
    unfold rkeep. by rewrite On. }
  assert (Uc : rd (cpu_rq u c) = rd (cpu_rq w c) /\ online (cpu_rq u c) = true /\ rdq u c = rdq w c /\ rtq u c = rtq w c).
  { destruct (U c) as (_ & _ & _ & [= E1 E2 E3 _ _]). rewrite Z.eqb_refl in E3. split_and!; try done. unfold rdq. rewrite E2. apply U. }
  destruct Uc as (Uc1 & Uc2 & Uc3 & Uc4). destruct (over_if u c b (overloaded (rtq u c)) Uc2) as (T1 & R1 & D1).
  revert Q T1 R1 D1. rewrite Uc1, Uc3, Uc4. set (w1 := if overloaded (rtq w c) then _ else u). intros Q T1 R1 D1. clearbody w1.
  assert (K2 : forall x, rkeep (cpu_rq w2 x) = rkeep (cpu_rq u x)) by (intros x; rewrite (qt_rq _ _ Q), R1; done).
  assert (D2 : forall i, rd_view (rd_of w2 i) = rd_view (rd_of w1 i)) by apply Q.
  assert (Rc2 : rd (cpu_rq w2 c) = rd (cpu_rq w c) /\ rtq w2 c = rtq w c).
  { pose proof (K2 c) as E. destruct (U c) as (_ & _ & _ & E'). rewrite E' in E. injection E as E1 E2 _ _ _. by split. }
  destruct Rc2 as [Rc2 Rt2].
  assert (Cp2 : rd_cpupri (rdq w2 c) = rd_cpupri (rdq w c)).
  { unfold rdq. rewrite Rc2. specialize (D2 (rd (cpu_rq w c))). rewrite D1, Z.eqb_refl in D2. by injection D2 as -> _ _ _. }
  destruct (flip_cleared w c b (g_links _ _ I) Hc Hh On) as (cp & _ & Ec & _).
  unfold set_cpupri. rewrite Cp2, Rt2, Ec. cbn [mbind option_bind]. eexists. split; [done|]. set (w3 := on_rdq w2 c (d_rd_cpupri cp)). cbv zeta.
  set (w4 := if b then w3 else on_rq_of w3 c (r_online false)).
  assert (R4 : forall x, cpu_rq w4 x = if (x =? c) && negb b then r_online false (cpu_rq w2 c) else cpu_rq w2 x).
  { intros x. unfold w4. destruct b; simpl; unfold upd; [by rewrite andb_false_r|]. by destruct (x =? c). }
  assert (D4 : forall i, rd_of w4 i = if i =? rd (cpu_rq w c) then d_rd_cpupri cp (rd_of w2 i) else rd_of w2 i).
  { intros i. unfold w4. destruct b; simpl; unfold upd; rewrite Rc2; by destruct (Z.eqb_spec i (rd (cpu_rq w c))) as [->|]. }
  assert (T4 : forall x, task_of w4 x = task_of w2 x) by (intros x; unfold w4; by destruct b).
  assert (K4 : forall x, rkeep (cpu_rq w4 x) = (rtq w x, rd (cpu_rq w x), (if x =? c then b else online (cpu_rq w x)), curr (cpu_rq w x), base (cpu_rq w x), dl (cpu_rq w x))).
  { intros x. rewrite R4. pose proof (K2 x) as E. destruct (U x) as (_ & _ & _ & E'). rewrite E' in E.
    revert E. clear E'. destruct (Z.eqb_spec x c) as [->|], b; simpl; intros E; try done. injection E as E1 E2 E3 E4 E5 E6. unfold rkeep. simpl. rewrite E1, E2, E4, E6, <- E5. done. }
  clearbody w4. split; [|by specialize (K4 c) as [= _ _ -> _ _]; rewrite Z.eqb_refl].
  apply (relink_inv w).
  - done.
  - apply (flip_links w c b); try done; [apply I|]. split.
    + intros x. specialize (K4 x) as [= E1 E2 E3 _ _ E6]. unfold link_view. rewrite E1, E2, E3, E6. by destruct (Z.eqb_spec x c) as [->|].
    + exists cp. split; [done|]. intros i. rewrite D4. specialize (D2 i). rewrite D1 in D2. destruct (U i) as (_ & Ui & _). rewrite Ui in D2.
      revert D2. destruct (Z.eqb_spec i (rd (cpu_rq w c))) as [->|]; [|done]. intros [= _ E2 E3 E4]. unfold rd_view. simpl. by rewrite E2, E3, E4.
  - intros x. rewrite T4, (qt_task _ _ Q), T1. by destruct (U x) as (-> & _).
  - intros x Hx. rewrite R4. assert (run_ok (cpu_rq w2 x)).
    { apply (qt_run _ _ Q); [done|]. rewrite R1. by apply (U x), (g_run _ _ I). }
    destruct (Z.eqb_spec x c) as [->|], b; try done. simpl. destruct H. by split.
  - intros x. by specialize (K4 x) as [= E1 _ _ E4 E5].
Qed.

Lemma set_rq_online_spec w c : inv w -> cpu_ok c ->
  exists w', set_rq_online w c = Some w' /\ inv w' /\ online (cpu_rq w' c) = true.
Proof.
  intros I Hc. unfold set_rq_online. destruct (online (cpu_rq w c)) eqn:On; [by exists w|]. unfold rq_online_rt.
  destruct (flip_done w c true (__enable_runtime (if overloaded (rtq (on_rq_of w c (r_online true)) c)
    then rt_set_overload (on_rq_of w c (r_online true)) c else on_rq_of w c (r_online true)) c) I Hc On) as (w3 & E & H); [apply enable_quiet|].
  by exists w3.
Qed.

Lemma set_rq_offline_spec w c : inv w -> cpu_ok c ->
  exists w', set_rq_offline w c = Some w' /\ inv w' /\ online (cpu_rq w' c) = false.
Proof.
  intros I Hc. unfold set_rq_offline. destruct (online (cpu_rq w c)) eqn:On; [|by exists w]. unfold rq_offline_rt.
  destruct (over_if w c false (overloaded (rtq w c)) On) as (_ & R & _). cbv zeta. set (w1 := if overloaded _ then _ else w) in *.
  destruct (flip_done w c false (__disable_runtime w1 c) I Hc On) as (w3 & E & H); [|rewrite E; cbn [mbind option_bind]; by eexists].
  apply disable_quiet; [rewrite R; by apply (g_run _ _ I)| |done]. unfold rtq. rewrite R. by eapply rt_ok_nr, (g_rt _ _ I).
Qed.

Lemma attach_root_spec w c d : inv w -> cpu_ok c -> exists w', rq_attach_root w c d = Some w' /\ inv w'.
Proof.
  intros I Hc. unfold rq_attach_root. destruct (set_rq_offline_spec w c I Hc) as (w1 & -> & I1 & Off). cbn [mbind option_bind]. cbv zeta.
  set (w2 := on_rdq w1 c _). assert (Q2 : quiet w1 w2) by (by apply quiet_on_rd). pose proof (rt_quiet_inv _ _ Q2 I1) as I2.
  assert (Off2 : online (cpu_rq w2 c) = false) by done. clearbody w2. set (w3 := on_rq_of w2 c (r_rd d)).
  assert (R3 : forall x, cpu_rq w3 x = if x =? c then r_rd d (cpu_rq w2 c) else cpu_rq w2 x) by done.
  assert (I3 : inv w3).
  { apply (relink_inv w2); try done.
    - apply (links_ext w2); [apply I2| |intros i x v; unfold dl_stored; rewrite R3; destruct (Z.eqb_spec x c) as [->|]; [simpl; by rewrite Off2, !andb_false_r|done]| |done];
        intros i x; unfold cpu_pri, cpu_over, rtq; rewrite R3; destruct (Z.eqb_spec x c) as [->|]; try done;
        simpl; rewrite Off2; by rewrite ?andb_false_r.
    - intros x Hx. rewrite R3. destruct (Z.eqb_spec x c) as [->|]; [|by apply (g_run _ _ I2)]. by destruct (g_run _ _ I2 c Hx).
    - intros x. unfold rtq. rewrite R3. by destruct (Z.eqb_spec x c) as [->|]. }
  clearbody w3. set (w4 := on_rdq w3 c _). assert (I4 : inv w4) by (apply (rt_quiet_inv w3); [by apply quiet_on_rd|done]).
  clearbody w4. destruct (mask_test _ _); [|by eexists]. destruct (set_rq_online_spec w4 c I4 Hc) as (w5 & -> & I5 & _). by eexists.
Qed.

(** *** The period timer *)

Lemma replenish_quiet w i overrun : exists w' b, replenish_rt w i overrun = Some (w', b) /\ quiet w w'.
Proof.
  unfold replenish_rt. assert (exists w1, (if rt_throttled (cpu_rq w i) then balance_runtime w i else Some w) = Some w1 /\ quiet w w1) as (w1 & -> & Q1).
  { destruct (rt_throttled _); [apply balance_runtime_quiet|by exists w]. }
  cbn [mbind option_bind]. cbv zeta. set (w2 := on_rq_of w1 i _).
  assert (Q2 : quiet w w2) by (etransitivity; [done|apply (quiet_time w1 i (fun q => _))]). clearbody w2.
  destruct (_ && _); eexists _, _; (split; [done|]); [|done]. etransitivity; [done|]. by apply quiet_on_rq.
Qed.

Lemma period_cpu_quiet w i overrun idle throttled : run_ok (cpu_rq w i) -> 0 <= rt_nr_running (rtq w i) <= PID_MAX_LIMIT -> cpu_ok i ->
  exists w' a b, period_cpu w i overrun idle throttled = Some (w', a, b) /\ quiet w w'.
Proof.
  intros R N Hi. unfold period_cpu. cbv zeta. set (w1 := if negb _ && negb _ then _ else w).
  assert (Q1 : quiet w w1) by (unfold w1; destruct (_ && _); [apply (quiet_runtime w i (fun _ => _))|done]). clearbody w1.
  destruct (_ && _); [by eexists _, _, _|].
  assert (exists w2 a e, (if negb (rt_time (cpu_rq w1 i) =? 0) then
         '(w, enqueue) ← replenish_rt w1 i overrun;
         Some (w, if negb (rt_time (cpu_rq w i) =? 0) || negb (rt_nr_running (rtq w1 i) =? 0) then false else idle, enqueue : bool)
       else if negb (rt_nr_running (rtq w1 i) =? 0) then Some (w1, false, negb (rt_throttled (cpu_rq w1 i)))
       else Some (w1, idle, false)) = Some (w2, a, e) /\ quiet w1 w2) as (w2 & a & e & -> & Q2).
  { destruct (negb _); [|destruct (negb _); by eexists _, _, _].
    destruct (replenish_quiet w1 i overrun) as (w2 & b & -> & Q2). cbn [mbind option_bind]. by eexists _, _, _. }
  cbn [mbind option_bind]. eexists _, _, _. split; [done|]. assert (Q : quiet w w2) by (by etransitivity). etransitivity; [done|].
  destruct e; [|done]. apply sched_rt_rq_enqueue_quiet; [by apply (qt_run _ _ Q)|by rewrite (quiet_rtq _ _ i Q)].
Qed.

Lemma period_loop_quiet overrun cpus : forall w idle throttled, inv w -> Forall cpu_ok cpus ->
  exists w' a b, period_loop w overrun cpus idle throttled = Some (w', a, b) /\ quiet w w'.
Proof.
  induction cpus as [|i cpus IH]; intros w idle throttled I Hc; cbn [period_loop]; [by eexists _, _, _|].
  apply list.Forall_cons in Hc as [Hi Hc].
  destruct (period_cpu_quiet w i overrun idle throttled (g_run _ _ I i Hi) (rt_ok_nr _ _ _ (g_rt _ _ I i Hi)) Hi) as (w1 & a & b & -> & Q1).
  cbn [mbind option_bind]. destruct (IH w1 a b (rt_quiet_inv _ _ Q1 I) Hc) as (w2 & a' & b' & -> & Q2). eexists _, _, _. split; [done|by etransitivity].
Qed.

Lemma period_timer_spec w overruns : inv w -> exists w' b, sched_rt_period_timer w overruns = Some (w', b) /\ quiet w w'.
Proof.
  intros I. unfold sched_rt_period_timer.
  assert (forall idle, exists w' b, period_timer_loop w overruns idle = Some (w', b) /\ quiet w w') as H.
  { revert w I. induction overruns as [|o os IH]; intros w I idle; cbn [period_timer_loop]; [by eexists _, _|].
    destruct (_ =? 0); [by eexists _, _|]. unfold do_sched_rt_period_timer.
    destruct (period_loop_quiet o (mask_bits nr_cpu_ids (cpu_online_mask w)) w true false I (mask_bits_cpus _)) as (w1 & a & b & -> & Q1).
    cbn [mbind option_bind]. destruct (_ && _); cbn [mbind option_bind];
      [destruct (IH w1 (rt_quiet_inv _ _ Q1 I) true) as (w2 & b' & -> & Q2)|destruct (IH w1 (rt_quiet_inv _ _ Q1 I) a) as (w2 & b' & -> & Q2)];
      eexists _, _; (split; [done|by etransitivity]). }
  destruct (H false) as (w1 & b & -> & Q). cbn [mbind option_bind]. eexists _, _. split; [done|]. destruct b; [|done]. etransitivity; [exact Q|done].
Qed.

(** *** The sysctls *)

Lemma rt_handler_quiet w period runtime dl : quiet w (fst (sched_rt_handler w period runtime dl)).
Proof.
  unfold sched_rt_handler. cbv zeta. destruct (negb _); [done|]. destruct (negb _); [done|]. simpl.
  set (w1 := w_sysctl_sched_rt_runtime runtime _). assert (Q1 : quiet w w1) by done. clearbody w1.
  etransitivity; [done|]. unfold sched_rt_do_global. assert (H : forall l u, quiet u (foldl (fun w i => on_rq_of w i (r_rt_runtime (global_rt_runtime w))) u l)).
  { induction l as [|i l IH]; intros u; simpl; [done|]. etransitivity; [|apply IH]. apply (quiet_runtime u i (fun _ => _)). }
  etransitivity; [apply (H (seqZ 0 nr_cpu_ids) w1)|]. done.
Qed.

Lemma rr_handler_quiet w ms : quiet w (sched_rr_handler w ms).
Proof. unfold sched_rr_handler. cbv zeta. by destruct (ms <=? 0). Qed.

End Hotplug.
End RtHotplug.
