(* ===== verification/RtHandlers.v ===== *)
(** The remaining handlers of the real-time class: preemption, picking and the switch of
    tasks, wakeups and sleep, the tick, balancing and the callbacks.

    Each runs to the end from a world that satisfies the invariant of [RtOps] and ends in
    one that does.  Picking is characterised exactly, and so is what a push leaves behind. *)

From Stdlib Require Import ZArith Lia List.
From stdpp Require Import base list numbers option relations.
From S2P Require Import Prelude Plist Cpudl Cpupri Cbs Deadline Rt RtQueue RtInv RtOps RtMove RtHotplug.

Module RtHandlers.
Export RtHotplug.
Import Cbs(RUNTIME_INF, NSEC_PER_USEC).
Import Deadline(SCHED_RR, TASK_ON_RQ_QUEUED, TASK_ON_RQ_MIGRATING, DEQUEUE_SLEEP, DEQUEUE_SAVE,
  DEQUEUE_MOVE, DEQUEUE_NOCLOCK, ENQUEUE_WAKEUP, ENQUEUE_RESTORE, ENQUEUE_NOCLOCK, ENQUEUE_HEAD,
  ENQUEUE_REPLENISH, ENQUEUE_MIGRATED, EINVAL, has, dl_prio).

Section Handlers.
Context {pf : RtPlatform} {laws : RtLaws pf}.

(** *** Order within a list *)

Lemma requeue_task_spec w p head : inv w -> exists w', requeue_task_rt w p head = Some w' /\ inv w' /\ fr w w'.
Proof.
  intros I. unfold requeue_task_rt, requeue_rt_entity. set (t := task_of w p). set (c := cpu t).
  destruct (on_rt_rq t) eqn:On; [|by exists w]. pose proof (g_cpu _ _ I p) as Hc. fold t c in Hc.
  pose proof (g_rt _ _ I c Hc) as Ok. assert (Ol : on_list t = true) by (unfold t; by rewrite (g_task _ _ I p)).
  assert (Lp : listed (rtq w c) (prio t) p) by (by apply (arr_mem _ _ _ (ok_arr _ _ _ Ok))). destruct Lp as (l & Hl & _).
  rewrite aref_list_del, Hl. simpl.
  rewrite aset_lt by (rewrite length_list_del; by eapply aref_Some_range). simpl. eexists. split; [done|].
  set (w' := on_rt w c _).
  assert (E : rtq w' c = q_requeue p (prio t) head (rtq w c)).
  { unfold w'. rewrite rtq_on_rt_eq. unfold q_requeue. by rewrite aref_list_del, Hl. }
  assert (F : fr w w') by (by apply fr_on_rt).
  split; [|done]. apply (fr_inv w); [done|done| |done]. split.
  - apply sound_on_rt; [|done|apply I]. intros _ _. unfold w' in E. rewrite rtq_on_rt_eq in E. rewrite E. by apply (requeue_ok (keys w)).
  - intros x Hx. eapply push_frame; [by apply (g_push _ _ I)|..|done|].
    + unfold w'. rewrite rtq_on_rt. by destruct (Z.eqb_spec x c) as [->|].
    + unfold w'. rewrite rtq_on_rt. by destruct (Z.eqb_spec x c) as [->|].
    + intros y. unfold pset. by rewrite (fr_curr _ _ F).
Qed.

(** *** Picking and switching *)

(** The list of pushable tasks of CPU [c] holds [S], the others are exact. *)
Record semi (c : Z) (S : Z -> Prop) (w : world) : Prop := {
  se_sound : sound None w;
  se_other : forall x, cpu_ok x -> x <> c -> push_ok (keys w) (pset w x) (rtq w x);
  se_push : push_ok (keys w) S (rtq w c)
}.

Definition pall (w : world) (c p : Z) : Prop :=
  on_rt_rq (task_of w p) = true /\ cpu (task_of w p) = c /\ 1 < nr_cpus_allowed (task_of w p).

Lemma semi_quiet c S w w' : quiet w w' -> semi c S w -> semi c S w'.
Proof.
  intros Q [A B C]. split; [by eapply quiet_sound|..].
  - intros x Hx Hne. rewrite (quiet_rtq _ _ x Q). eapply push_frame; [by apply B|done..| |].
    + intros y _. by rewrite (quiet_key _ _ y Q).
    + intros y. by apply quiet_pset.
  - rewrite (quiet_rtq _ _ c Q). eapply push_frame; [done..| |done]. intros y _. by rewrite (quiet_key _ _ y Q).
Qed.

Lemma semi_iff c S S' w : (forall x, S' x <-> S x) -> semi c S w -> semi c S' w.
Proof. intros E [A B C]. split; [done..|]. eapply push_frame; [done..|]. done. Qed.

Lemma pset_pall w c x : pset w c x <-> pall w c x /\ curr (cpu_rq w c) <> x.
Proof. unfold pset, pall. naive_solver. Qed.

Lemma put_prev_spec w c : inv w -> cpu_ok c -> exists w', put_prev_task w c (curr (cpu_rq w c)) = Some w' /\
  fr w w' /\ (forall x, on_rt_rq (task_of w' x) = on_rt_rq (task_of w x)) /\ semi c (pall w' c) w'.
Proof.
  intros I Hc. set (p := curr (cpu_rq w c)). pose proof (inv_curr _ I c Hc) as Cp. fold p in Cp.
  assert (Same : forall w', quiet w w' -> ~ pall w c p -> semi c (pall w' c) w').
  { intros w' Q Hn. eapply semi_iff; [|split; [by eapply quiet_sound; [|apply I]|..]].
    - intros x. reflexivity.
    - intros x Hx _. by apply (quiet_good _ _ _ Q I).
    - eapply push_frame; [by apply (quiet_good _ _ _ Q I)|done..|]. intros x. rewrite (quiet_pset _ _ c x Q), pset_pall.
      unfold pall in *. rewrite (quiet_on _ _ x Q), (fr_cpu _ _ x (quiet_fr _ _ Q)), (fr_nr _ _ x (quiet_fr _ _ Q)).
      split; [|naive_solver]. intros H. split; [done|]. fold p. intros <-. done. }
  unfold put_prev_task. destruct (is_rt (task_of w p)) eqn:Rt; cycle 1.
  { exists w. split_and!; try done. apply Same; [done|]. intros (O & _). by rewrite (inv_queued _ I), Rt in O. }
  unfold put_prev_task_rt. destruct (update_curr_rt_quiet None w c I) as (w1 & -> & Q1). cbn [mbind option_bind].
  pose proof (rt_quiet_inv _ _ Q1 I) as I1. pose proof (quiet_fr _ _ Q1) as F1.
  rewrite (quiet_on _ _ p Q1), (fr_nr _ _ p F1). destruct (on_rt_rq (task_of w p)) eqn:On; simpl; cycle 1.
  { exists w1. split_and!; [done..|by intros; apply quiet_on|]. apply Same; [done|]. intros (O & _). congruence. }
  destruct (Z.ltb_spec 1 (nr_cpus_allowed (task_of w p))) as [Hn|Hn]; cycle 1.
  { exists w1. split_and!; [done..|by intros; apply quiet_on|]. apply Same; [done|]. intros (_ & _ & O). lia. }
  eexists. split; [done|]. split; [etransitivity; [done|apply fr_enqueue_pushable]|].
  split; [intros x; change (on_rt_rq (task_of w1 x) = on_rt_rq (task_of w x)); by apply quiet_on|].
  assert (Cp1 : cpu (task_of w1 p) = c) by (by rewrite (fr_cpu _ _ p F1)).
  split; [apply sound_enqueue_pushable, I1|..].
  - intros x Hx Hne. unfold enqueue_pushable_task. rewrite rtq_on_rt, (proj2 (Z.eqb_neq _ _) Hne).
    eapply push_frame; [by apply (g_push _ _ I1)|done..|]. intros y. unfold pset.
    by rewrite (fr_curr _ _ (fr_enqueue_pushable w1 c p)).
  - unfold enqueue_pushable_task at 3. rewrite rtq_on_rt_eq.
    apply (push_add_ok (keys w1) (pset w1 c) _ _ p); [by apply (g_push _ _ I1)| | |].
    + apply (inv_class _ I1). by rewrite (fr_is_rt _ _ p F1).
    + intros (_ & _ & _ & H). by rewrite (quiet_rest _ _ c Q1) in H.
    + intros x. rewrite pset_pall, (quiet_rest _ _ c Q1). fold p.
      change (pall (enqueue_pushable_task w1 c p) c x) with (pall w1 c x). split.
      * intros H. destruct (decide (x = p)) as [->|]; [by right|left]. split; [done|congruence].
      * intros [[H _]| ->]; [done|]. unfold pall. by rewrite (quiet_on _ _ p Q1), On, Cp1, (fr_nr _ _ p F1).
Qed.

(** The head of the list of the highest priority. *)
Lemma pick_spec w c : sound None w -> cpu_ok c -> rt_queued (cpu_rq w c) = true ->
  exists p l, pick_next_rt_entity (rtq w c) = Some (Some p) /\ aref (queue (rtq w c)) (first_bit (rtq w c)) = Some (p :: l) /\
    on_rt_rq (task_of w p) = true /\ cpu (task_of w p) = c /\ prio (task_of w p) = first_bit (rtq w c) /\
    forall x, on_rt_rq (task_of w x) = true -> cpu (task_of w x) = c -> prio (task_of w p) <= prio (task_of w x).
Proof.
  intros So Hc Q. pose proof (g_rt _ _ So c Hc) as Ok. pose proof (ok_arr _ _ _ Ok) as A.
  pose proof (run_queued _ (g_run _ _ So c Hc) Q) as Nz. destruct (nr_nonzero _ _ _ Ok Nz) as (i & x & Hx).
  destruct (first_bit_listed _ _ _ A) as [M1 M2]. pose proof (M1 _ _ Hx) as Hle. apply listed_range in Hx. rewrite (arr_len _ _ _ A) in Hx.
  destruct M2 as (y & l & Hl & Hy); [unfold MAX_RT_PRIO in *; lia|]. destruct l as [|p l]; [by apply elem_of_nil in Hy|].
  destruct (first_bit_spec _ _ _ A) as (F & Hr & _). unfold pick_next_rt_entity. rewrite F. cbn [mbind option_bind].
  destruct (Z.leb_spec MAX_RT_PRIO (first_bit (rtq w c))); [unfold MAX_RT_PRIO in *; lia|]. rewrite Hl. simpl.
  assert (Lp : listed (rtq w c) (first_bit (rtq w c)) p) by (eexists; split; [done|left]).
  apply (arr_mem _ _ _ A) in Lp as (P1 & P2 & P3). unfold keys in P1, P2, P3. simpl in P1, P2, P3.
  exists p, l. rewrite <- (g_task _ _ So p) by done. split_and!; try done. intros z Oz Cz. rewrite P3. apply (M1 _ z).
  apply (arr_mem _ _ _ A). unfold keys. simpl. by rewrite (g_task _ _ So z).
Qed.

Definition offered (w : world) (c : Z) (o : offer) : Prop :=
  match o with Higher p | Lower p => is_rt (task_of w p) = false /\ cpu (task_of w p) = c end.

Lemma schedule_next_spec w c o : inv w -> cpu_ok c -> offered w c o -> exists w', schedule_next w c o = Some w' /\ inv w'.
Proof.
  intros I Hc Ho. unfold schedule_next. destruct (put_prev_spec w c I Hc) as (w1 & -> & F1 & O1 & S1). cbn [mbind option_bind].
  assert (exists w2 n, (match o with Higher p => Some (w1, p)
     | Lower p => r ← pick_next_task_rt w1 c; let '(w, r) := r in Some (w, default p r) end) = Some (w2, n) /\
    fr w1 w2 /\ (forall x, on_rt_rq (task_of w2 x) = on_rt_rq (task_of w1 x)) /\ cpu (task_of w2 n) = c /\
    semi c (fun x => pall w2 c x /\ n <> x) w2) as (w2 & n & E & F2 & O2 & C2 & S2).
  { assert (Oth : forall p, is_rt (task_of w p) = false /\ cpu (task_of w p) = c -> cpu (task_of w1 p) = c /\ semi c (fun x => pall w1 c x /\ p <> x) w1).
    { intros p [Hr Hp]. split; [by rewrite (fr_cpu _ _ p F1)|]. eapply semi_iff; [|done]. intros x. split; [by intros [? _]|]. intros H.
      split; [done|]. intros <-. destruct H as (H & _). by rewrite O1, (inv_queued _ I), Hr in H. }
    destruct o as [p|p]; [destruct (Oth p Ho); by exists w1, p|].
    unfold pick_next_task_rt, pick_task_rt, sched_rt_runnable. destruct (rt_queued (cpu_rq w1 c)) eqn:Q; simpl; [|destruct (Oth p Ho); by exists w1, p].
    destruct (pick_spec w1 c (se_sound _ _ _ S1) Hc Q) as (n & l & E & _ & On & Cn & _). unfold _pick_next_task_rt. rewrite E. simpl.
    eexists _, n. split; [done|]. unfold set_next_task_rt. set (w2 := on_task w1 n _).
    assert (Q2 : quiet w1 w2) by (by apply quiet_on_task). pose proof (semi_quiet _ _ _ _ Q2 S1) as S2. clearbody w2.
    set (w3 := dequeue_pushable_task w2 c n). pose proof (quiet_queue_push w3 c) as Q4.
    assert (F3 : fr w1 w3) by (etransitivity; [by apply quiet_fr|apply fr_dequeue_pushable]).
    assert (O3 : forall x, on_rt_rq (task_of w3 x) = on_rt_rq (task_of w1 x)) by (intros; by apply (quiet_on w1 w2)).
    split; [etransitivity; [done|by apply quiet_fr]|]. split; [intros x; by rewrite (quiet_on _ _ x Q4)|].
    split; [by rewrite (fr_cpu _ _ n (quiet_fr _ _ Q4)), (fr_cpu _ _ n F3)|].
    eapply semi_quiet; [done|]. eapply semi_iff with (S := fun x => pall w1 c x /\ n <> x).
    { intros x. unfold pall. rewrite (quiet_on _ _ x Q4), O3, (fr_cpu _ _ x (quiet_fr _ _ Q4)), (fr_cpu _ _ x F3),
        (fr_nr _ _ x (quiet_fr _ _ Q4)), (fr_nr _ _ x F3). done. }
    destruct S2 as [A B C]. split; [by apply sound_dequeue_pushable|..]; unfold w3, dequeue_pushable_task.
    - intros x Hx Hne. rewrite rtq_on_rt, (proj2 (Z.eqb_neq _ _) Hne). eapply push_frame; [by apply B|done..|].
      intros y. unfold pset. by rewrite (fr_curr _ _ (fr_dequeue_pushable w2 c n)).
    - rewrite rtq_on_rt_eq. eapply (push_del_ok (keys w2) (pall w1 c) _ _ n (fun y => prio (task_of w2 y))); [done|done|]. intros x. naive_solver. }
  rewrite E. cbn [mbind option_bind]. eexists. split; [done|]. cbv zeta.
  set (prev := curr (cpu_rq w c)). set (w3 := on_task (on_task w2 _ _) _ _).
  assert (Q3 : quiet w2 w3) by (etransitivity; by apply quiet_on_task). pose proof (semi_quiet _ _ _ _ Q3 S2) as S3.
  assert (F3 : fr w w3) by (etransitivity; [done|]; etransitivity; [done|by apply quiet_fr]).
  assert (O3 : forall x, on_rt_rq (task_of w3 x) = on_rt_rq (task_of w x)) by (intros x; by rewrite (quiet_on _ _ x Q3), O2, O1).
  assert (C3 : cpu (task_of w3 n) = c) by (by rewrite (fr_cpu _ _ n (quiet_fr _ _ Q3))).
  assert (P3 : forall x, pall w2 c x <-> pall w3 c x).
  { intros x. unfold pall. by rewrite (quiet_on _ _ x Q3), (fr_cpu _ _ x (quiet_fr _ _ Q3)), (fr_nr _ _ x (quiet_fr _ _ Q3)). }
  clearbody w3. set (w4 := on_rq_of w3 c (r_curr n)).
  assert (R4 : forall x, cpu_rq w4 x = if x =? c then r_curr n (cpu_rq w3 c) else cpu_rq w3 x) by done.
  assert (Rt4 : forall x, rtq w4 x = rtq w3 x) by (intros x; unfold rtq; rewrite R4; by destruct (Z.eqb_spec x c) as [->|]).
  assert (G4 : good None w4).
  { destruct S3 as [[G1 G2 G4 G5 G6 G7 G8] B C]. split; [split; try done|].
    - eapply links_frame; [done| |done]. intros x. rewrite R4. by destruct (Z.eqb_spec x c) as [->|].
    - intros x Hx. rewrite Rt4. by apply G2.
    - intros x Hx. rewrite R4. destruct (Z.eqb_spec x c) as [->|]; [|by apply G4]. by destruct (G4 c Hc).
    - intros x Hx. rewrite Rt4. destruct (decide (x = c)) as [->|Hne].
      + eapply push_frame; [done..|]. intros y. rewrite pset_pall, R4, Z.eqb_refl. simpl. rewrite P3. done.
      + eapply push_frame; [by apply B|done..|]. intros y. unfold pset. by rewrite R4, (proj2 (Z.eqb_neq _ _) Hne). }
  destruct I as [_ I1 I2 I3 I4]. split; [done|..]; intros x; change (task_of w4) with (task_of w3).
  - unfold class_ok. pose proof (fr_task _ _ F3 x) as T. injection T as -> _ _ -> _ _ _. apply I1.
  - rewrite (fr_is_rt _ _ x F3), (fr_prio _ _ x F3). apply I2.
  - rewrite O3, (fr_is_rt _ _ x F3), I3. unfold task_on_rq_queued. by rewrite (fr_on_rq _ _ x F3).
  - intros Hx. rewrite R4. destruct (Z.eqb_spec x c) as [->|]; [done|]. rewrite (fr_curr _ _ F3), (fr_cpu _ _ _ F3). by apply I4.
Qed.

(** *** Wakeups and sleep *)

Lemma find_cpupri_null w c t : inv w -> 0 <= prio t < MAX_RT_PRIO -> exists b, find_cpupri w c t None = Some (b, None).
Proof.
  intros I Hp. destruct (convert_some (prio t)) as [l El]; [unfold MAX_RT_PRIO in *; lia|]. unfold find_cpupri.
  eapply Cpupri.cpupri_find_null; [apply (lk_wf _ (g_links _ _ I))|exact El].
Qed.

Lemma check_preempt_spec w c p : inv w -> exists w', check_preempt_curr w c p = Some w' /\ inv w' /\ fr w w'.
Proof.
  intros I. unfold check_preempt_curr. set (t := task_of w p). set (tc := task_of w (curr (cpu_rq w c))).
  assert (Id : inv w /\ fr w w) by done.
  assert (Re : inv (resched_curr w c) /\ fr w (resched_curr w c)) by (split; [by apply resched_inv|apply quiet_fr, quiet_resched]).
  destruct (is_rt t) eqn:Rt; [|by exists w]. simpl. destruct (is_rt tc) eqn:Rtc; [|destruct (sched_class_above _ _); eauto].
  unfold check_preempt_curr_rt. cbv zeta. fold t tc. destruct (prio t <? prio tc); [eauto|]. destruct (_ && _); [|eauto].
  unfold check_preempt_equal_prio. cbv zeta. fold t tc. destruct (_ =? 1); [eauto|].
  destruct (find_cpupri_null w c tc I) as (b & ->); [by apply (inv_class _ I)|]. cbn [mbind option_bind]. destruct (negb b); [eauto|].
  assert (exists b', (if negb (nr_cpus_allowed t =? 1) then find_cpupri w c t None else Some (false, None)) = Some (b', None)) as (b' & ->).
  { destruct (negb _); [|eauto]. apply find_cpupri_null; [done|by apply (inv_class _ I)]. }
  cbn [mbind option_bind]. destruct b'; [eauto|]. destruct (requeue_task_spec w p true I) as (w1 & -> & I1 & F1). simpl. eexists. split; [done|].
  split; [by apply resched_inv|]. etransitivity; [done|]. apply quiet_fr, quiet_resched.
Qed.

Lemma task_woken_spec w this c p : inv w -> cpu_ok c -> exists w', task_woken_rt w this c p = Some w' /\ inv w'.
Proof. intros I Hc. unfold task_woken_rt. destruct (_ && _); [by apply push_all_spec|eauto]. Qed.

(** A task that is not queued enters the queue of its CPU. *)
Lemma activate_spec w w0 p flags : inv w0 -> good (Some p) w -> move_entity flags = true ->
  (forall x, x <> p -> trest (task_of w x) = trest (task_of w0 x) /\ on_rt_rq (task_of w x) = on_rt_rq (task_of w0 x)) ->
  (forall c, curr (cpu_rq w c) = curr (cpu_rq w0 c)) ->
  let t := task_of w p in prio t = prio (task_of w0 p) -> class t = class (task_of w0 p) ->
  on_list t = false -> not_current w0 p -> on_rq t <> TASK_ON_RQ_MIGRATING ->
  exists w', activate_task w (cpu t) p flags = Some w' /\ inv w'.
Proof.
  intros I G M Ho Hc t P C L Nc Nm. unfold activate_task. fold t. rewrite (proj2 (Z.eqb_neq _ _) Nm). cbn zeta.
  destruct (put_in w p flags true false G) as (w1 & E & G1 & F1 & Fl1 & O1); fold t; [done|..].
  { unfold is_rt. rewrite C, P. apply (inv_class _ I). }
  { rewrite L, M. by rewrite andb_false_r. }
  fold t in E, O1. rewrite E. cbn [mbind option_bind]. eexists. split; [done|]. set (w2 := on_task w1 p _).
  assert (T2 : task_of w2 p = t_on_rq TASK_ON_RQ_QUEUED (task_of w1 p)) by (unfold w2; simpl; apply upd_eq).
  pose proof (fr_task _ _ F1 p) as T1. fold t in T1. injection T1 as P1 _ _ C1 _ Cp1 _.
  apply (inv_upd w0 w2 p); [done|by apply same_key_good|..]; rewrite ?T2; unfold class_ok, is_rt, task_on_rq_queued; simpl.
  - intros x Hx. unfold w2. simpl. rewrite upd_ne by done. rewrite (fr_task _ _ F1), Fl1 by done. by apply Ho.
  - intros x. rewrite (fr_curr _ _ F1). apply Hc.
  - rewrite P1, C1, P, C. apply (inv_prio _ I).
  - rewrite P1, C1, P, C. apply (inv_class _ I).
  - rewrite O1, C1. unfold is_rt. by rewrite !andb_true_r.
  - intros x Hx E'. destruct Nc. rewrite <- E' at 2. do 2 f_equal. rewrite <- E'. by apply (inv_curr _ I).
Qed.

Lemma ttwu_spec w this p c now : inv w -> cpu_ok c -> on_rq (task_of w p) = 0 -> not_current w p ->
  exists w', ttwu_do_activate w this p c now = Some w' /\ inv w'.
Proof.
  intros I Hc Off Nc. unfold ttwu_do_activate. cbv zeta. set (m := negb _). set (w1 := if m then _ else w). set (w2 := on_rq_of w1 c _).
  assert (On : on_rt_rq (task_of w p) = false) by (rewrite (inv_queued _ I); unfold task_on_rq_queued; rewrite Off; apply andb_false_r).
  assert (L : on_list (task_of w p) = false) by (by rewrite (g_task _ _ I)).
  assert (G1 : good (Some p) w1).
  { unfold w1. destruct m; [|by apply good_some; [apply I|]]. apply change_good; try done; [by apply good_some; [apply I|]|]. by rewrite L. }
  assert (Q2 : quiet w1 w2) by apply quiet_clock. pose proof (quiet_good _ _ _ Q2 G1) as G2.
  assert (T2 : task_of w2 p = if m then t_cpu c (task_of w p) else task_of w p).
  { change (task_of w2 p) with (task_of w1 p). unfold w1. destruct m; [apply upd_eq|done]. }
  assert (C2 : cpu (task_of w2 p) = c).
  { rewrite T2. unfold m. destruct (Z.eqb_spec (cpu (task_of w p)) c); done. }
  set (fl := if m then _ else _).
  destruct (activate_spec w2 w p fl I G2) as (w3 & E3 & I3); try (rewrite T2; by destruct m); try done.
  - unfold fl. by destruct m.
  - intros x Hx. change (task_of w2 x) with (task_of w1 x). unfold w1. destruct m; [|done]. unfold set_task_cpu. simpl. by rewrite upd_ne.
  - intros x. rewrite (quiet_rest _ _ x Q2). unfold w1. by destruct m.
  - rewrite T2. destruct m; simpl; rewrite Off; done.
  - rewrite C2 in E3. rewrite E3. cbn [mbind option_bind].
    destruct (check_preempt_spec w3 c p I3) as (w4 & -> & I4 & _). cbn [mbind option_bind].
    destruct (is_rt _); [by apply task_woken_spec|eauto].
Qed.

Lemma block_spec w c now : inv w -> cpu_ok c -> exists w', block_current w c now = Some w' /\ inv w'.
Proof.
  intros I0 Hc. unfold block_current. set (w1 := on_rq_of w c _).
  assert (I : inv w1) by (by apply (rt_quiet_inv w); [apply quiet_clock|]). clearbody w1. clear I0.
  set (p := curr (cpu_rq w1 c)). unfold deactivate_task. set (fl := Z.lor DEQUEUE_SLEEP DEQUEUE_NOCLOCK).
  change (has fl DEQUEUE_SLEEP) with true. cbv iota zeta. set (w2 := on_task w1 p (t_on_rq 0)).
  assert (T2 : task_of w2 p = t_on_rq 0 (task_of w1 p)) by (unfold w2; simpl; apply upd_eq).
  assert (G2 : good None w2) by (apply same_key_good; [apply I|done]). pose proof (inv_queued _ I p) as Q.
  assert (C2 : cpu (task_of w2 p) = c) by (rewrite T2; by apply (inv_curr _ I)).
  destruct (dequeue_any w2 p fl G2) as (w3 & E3 & G3 & F3 & Fl3 & L3).
  { rewrite T2. change (is_rt (task_of w1 p) = false -> on_rt_rq (task_of w1 p) = false). rewrite Q. by intros ->. }
  rewrite C2 in E3. exists w3. split; [done|]. change (move_entity fl) with true in L3. rewrite andb_false_r in L3.
  pose proof (fr_task _ _ F3 p) as T3. rewrite T2 in T3. injection T3 as P3 _ _ C3 O3 Cp3 _.
  apply (inv_upd w1 w3 p); [done|by eapply good_none|..]; unfold class_ok, is_rt, task_on_rq_queued; rewrite ?P3, ?C3.
  - intros x Hx. rewrite (fr_task _ _ F3), Fl3 by done. unfold w2. simpl. by rewrite upd_ne.
  - intros x. apply (fr_curr _ _ F3).
  - apply (inv_prio _ I).
  - apply (inv_class _ I).
  - rewrite O3. rewrite (g_out _ _ G3 p eq_refl). by rewrite andb_false_r.
  - intros x Hx E. rewrite Cp3. rewrite <- E. by apply (inv_curr _ I).
Qed.

(** *** The tick, balancing and callbacks *)

Lemma tick_spec w c p soft hard jiffies : inv w -> cpu_ok c -> exists w', task_tick_rt w c p soft hard jiffies = Some w' /\ inv w'.
Proof.
  intros I Hc. unfold task_tick_rt. destruct (update_curr_rt_quiet None w c I) as (w1 & -> & Q1). cbn [mbind option_bind]. cbv zeta.
  set (w2 := on_task w1 p _).
  assert (Q2 : quiet w w2).
  { etransitivity; [done|]. apply quiet_on_task. intros t. unfold watchdog. destruct (_ =? RLIM_INFINITY); [done|].
    destruct (watchdog_stamp t =? jiffies); by destruct (_ <? _). }
  clearbody w2. destruct (negb _); [eexists; split; [done|by eapply rt_quiet_inv]|]. set (w3 := on_task w2 p _).
  assert (Q3 : quiet w w3) by (etransitivity; [done|by apply quiet_on_task]). clearbody w3.
  destruct (negb _); [eexists; split; [done|by eapply rt_quiet_inv]|]. set (w4 := on_task w3 p _).
  assert (Q4 : quiet w w4) by (etransitivity; [done|by apply quiet_on_task]). clearbody w4. pose proof (rt_quiet_inv _ _ Q4 I) as I4.
  destruct (has_list_mates _ _); [|eauto]. destruct (requeue_task_spec w4 p false I4) as (w5 & -> & I5 & _). simpl.
  eexists. split; [done|by apply resched_inv].
Qed.

Lemma balance_spec w c p : inv w -> cpu_ok c -> exists w' b, balance_rt w c p = Some (w', b) /\ inv w'.
Proof.
  intros I Hc. unfold balance_rt. destruct (_ && _); [|cbn [mbind option_bind]; eauto].
  destruct (pull_rt_task_spec w c I Hc) as (w1 & -> & I1). cbn [mbind option_bind]. eauto.
Qed.

Lemma callbacks_spec w this c : inv w -> cpu_ok c -> exists w', balance_callbacks w this c = Some w' /\ inv w'.
Proof.
  intros I Hc. unfold balance_callbacks. set (w0 := on_rq_of _ _ _).
  assert (I0 : inv w0) by (apply (rt_quiet_inv w); [apply quiet_on_rq; try done; by left|done]).
  clearbody w0. generalize (balance_callback (cpu_rq w c)). intros cbs. revert w0 I0. induction cbs as [|cb cbs IH]; intros w0 I0; [eauto|].
  cbn [run_callbacks]. destruct cb; cbn [mbind option_bind]; [| |by apply IH].
  - unfold push_rt_tasks. destruct (push_all_spec w0 this c false I0 Hc) as (w1 & -> & I1). cbn [mbind option_bind]. by apply IH.
  - destruct (pull_rt_task_spec w0 c I0 Hc) as (w1 & -> & I1). cbn [mbind option_bind]. by apply IH.
Qed.

(** *** What a push leaves behind *)

Lemma queued_listed w p : sound None w -> on_rt_rq (task_of w p) = true ->
  listed (rtq w (cpu (task_of w p))) (prio (task_of w p)) p.
Proof.
  intros So O. apply (arr_mem _ _ _ (ok_arr _ _ _ (g_rt _ _ So _ (g_cpu _ _ So p)))). unfold keys. simpl. by rewrite (g_task _ _ So p).
Qed.

Lemma highest_curr_le w p : sound None w -> on_rt_rq (task_of w p) = true ->
  highest_curr (rtq w (cpu (task_of w p))) <= prio (task_of w p).
Proof.
  intros So O. pose proof (queued_listed w p So O) as Lp. pose proof (g_rt _ _ So _ (g_cpu _ _ So p)) as Ok.
  pose proof (ok_top _ _ _ Ok) as Tp. unfold top_ok in Tp. destruct (Z.eqb_spec (rt_nr_running (rtq w (cpu (task_of w p)))) 0) as [Z0|Z0].
  - pose proof (nr_zero _ _ _ Ok Z0 _ _ Lp) as H. unfold keys in H. simpl in H. congruence.
  - destruct (first_bit_listed _ _ _ (ok_arr _ _ _ Ok)) as [M _]. specialize (M _ _ Lp). lia.
Qed.

(** The first task of the list of pushable tasks cannot leave CPU [c], or the search has
    answered with a CPU that is in the index only by a store of the deadline class while its
    run queue was offline. *)
Definition stuck (w : world) (this c : Z) : Prop :=
  overloaded (rtq w c) = false \/
  match Plist.plist_first (pushable_tasks (rtq w c)) with
  | None => True
  | Some n =>
      let p := Plist.id n in let t := task_of w p in
      prio t < prio (task_of w (curr (cpu_rq w c))) \/ migration_disabled t = true \/ on_cpu t = true \/
      (forall i, ~ free_target w p i) \/ exists i, find_lowest_rq w this p = Some i /\ strayed w p i
  end.

Lemma find_lock_none w this p c : inv w -> pset w c p -> find_lock_lowest_rq w this p c = Some None ->
  migration_disabled (task_of w p) = true \/ on_cpu (task_of w p) = true \/
  (forall i, ~ free_target w p i) \/ exists i, find_lowest_rq w this p = Some i /\ strayed w p i.
Proof.
  intros I Hp. destruct (pset_on _ _ _ I Hp) as (Rt & Q & Nc). destruct Hp as (O & C & N & Cu).
  unfold find_lock_lowest_rq. destruct (find_lowest_spec w this p I Rt) as (i & E & H). rewrite E. cbn [mbind option_bind]. cbv zeta.
  destruct H as [[-> [H|H]]|(_ & [T|St] & _)]; [lia|auto| |intros _; do 3 right; by exists i]. pose proof (tg_prio _ _ _ T) as Lt.
  assert (Hic : i <> c) by (intros ->; pose proof (highest_curr_le w p I O) as H; rewrite C in H; lia).
  assert (Hi1 : i <> -1) by (intros ->; pose proof (tg_cpu _ _ _ T) as [? _]; lia).
  rewrite (proj2 (Z.eqb_neq _ _) Hi1), (proj2 (Z.eqb_neq _ _) Hic). simpl.
  destruct (Z.leb_spec (highest_curr (rtq w i)) (prio (task_of w p))); [lia|].
  rewrite C, Z.eqb_refl, (tg_mask _ _ _ T), Q. destruct (inv_class _ I p Rt) as [Hpr _]. unfold rt_task, rt_prio.
  destruct (Z.ltb_spec (prio (task_of w p)) MAX_RT_PRIO); [|lia]. simpl. rewrite !orb_false_r.
  destruct (on_cpu _), (migration_disabled _); auto. by rewrite andb_false_r.
Qed.

Lemma push_rt_task_false w this c pull w' : inv w -> cpu_ok c -> push_rt_task w this c pull = Some (w', false) -> stuck w this c.
Proof.
  intros I Hc H. unfold push_rt_task in H. unfold stuck. revert H. destruct (overloaded (rtq w c)) eqn:Ov; cbn [negb]; intros H; [right; revert H|by left].
  destruct (pick_next_pushable_spec w c I Hc) as (r & E & Hr). rewrite E. cbn [mbind option_bind]. revert E.
  unfold pick_next_pushable_task. destruct (has_pushable_tasks (cpu_rq w c)) eqn:Hp; simpl; cycle 1.
  { unfold has_pushable_tasks, Plist.plist_head_empty in Hp. unfold Plist.plist_first, rtq.
    by destruct (Plist.node_list (pushable_tasks (rt (cpu_rq w c)))). }
  destruct (Plist.plist_first _) as [n|]; [|done]. simpl. destruct (_ || _); [done|]. intros [= <-]. specialize (Hr _ eq_refl).
  set (p := Plist.id n) in *. destruct (Z.ltb_spec (prio (task_of w p)) (prio (task_of w (curr (cpu_rq w c))))); [auto|].
  destruct (migration_disabled (task_of w p)) eqn:Md; [auto|]. destruct (Z.eqb_spec p (curr (cpu_rq w c))) as [E|].
  { destruct Hr as (_ & _ & _ & Hr). congruence. }
  destruct (find_lock_lowest_rq w this p c) as [[i|]|] eqn:F; [| |done].
  - cbn [mbind option_bind]. by destruct (move_task w c p i).
  - intros _. destruct (find_lock_none w this p c I Hr F) as [H'|[H'|[H'|H']]]; auto. congruence.
Qed.

Lemma push_loop_last this c pull fuel : forall w w', inv w -> cpu_ok c -> push_loop fuel w this c pull = Some w' ->
  exists u, inv u /\ push_rt_task u this c pull = Some (w', false).
Proof.
  induction fuel as [|fuel IH]; intros w w' I Hc; cbn [push_loop]; [done|].
  destruct (push_rt_task_spec w this c pull I Hc) as (w1 & b & E & I1 & _). rewrite E. cbn [mbind option_bind].
  destruct b; [by apply IH|]. intros [= <-]. eauto.
Qed.

End Handlers.
End RtHandlers.
