(* ===== verification/RtEvents.v ===== *)
(** The events of the real-time class and what holds in every world they reach.

    An event is an entry point of the class or of the core scheduler with the readings
    it takes from outside.  From an initial world every sequence of events runs without
    hitting a [BUG_ON], a corrupted list or an access out of bounds, and keeps the
    invariant of [RtOps]; the theorems read off what it means for the queues, the index
    of the root domains, picking, pushing and the search for a CPU. *)

From Stdlib Require Import ZArith Lia List.
From stdpp Require Import base list numbers option.
From S2P Require Import Prelude Plist Cpudl Cpupri Cbs Deadline Rt RtQueue RtInv RtOps RtMove RtHotplug RtHandlers.

Module RtEvents.
Export RtHandlers.
Import Deadline(SCHED_RR, TASK_ON_RQ_QUEUED).

(** ** Events *)

Section Events.
Context {pf : RtPlatform} {laws : RtLaws pf}.

(** The events, with the CPU that runs the code as [this] where it matters.  [Fork],
    [MigrateDisable], [Masks], [Clock], [DlEnqueue], [DlDequeue] and [Others] are what the
    rest of the kernel does to the state the class reads: a new task, [migrate_disable],
    hotplug, the clock, a task that enters or leaves the queue of the deadline class on a
    CPU ([leftmost] is the earliest deadline that stays), and the tasks of the other
    classes. *)
Inductive event :=
  | Fork (p : Z) (t : task)
  | Wake (this p c now : Z)
  | Block (c now : Z)
  | Balance (c : Z)
  | Schedule (c : Z) (o : offer)
  | Callbacks (this c : Z)
  | Yield (c : Z)
  | Tick (c soft hard jiffies : Z)
  | SetPrio (p : Z) (pi : option Z) (now : Z)
  | SetScheduler (p : Z) (keep : bool) (policy normal newprio now : Z)
  | SetAffinity (p mask : Z)
  | MigrateDisable (p : Z) (b : bool)
  | Migrate (p c : Z)
  | Stop (c : Z)
  | Irq (d : Z)
  | Online (c : Z)
  | Offline (c : Z)
  | AttachRoot (c d : Z)
  | Masks (online active : Z)
  | PeriodTimer (overruns : list Z)
  | RtHandler (period runtime dl_validate : Z)
  | RrHandler (ms : Z)
  | Clock (c now : Z)
  | DlEnqueue (c deadline : Z)
  | DlDequeue (c leftmost : Z)
  | Others (c nr : Z) (stop : bool).

Definition run (w : world) (e : event) : option world :=
  match e with
  | Fork p t => Some (on_task w p (fun _ => t))
  | Wake this p c now => ttwu_do_activate w this p c now
  | Block c now => block_current w c now
  | Balance c => '(w, _) ← balance_rt w c (curr (cpu_rq w c)); Some w
  | Schedule c o => schedule_next w c o
  | Callbacks this c => balance_callbacks w this c
  | Yield c => yield_task_rt w c
  | Tick c soft hard jiffies => task_tick_rt w c (curr (cpu_rq w c)) soft hard jiffies
  | SetPrio p pi now => rt_mutex_setprio w p pi now
  | SetScheduler p keep policy normal newprio now => setscheduler_commit w p keep policy normal newprio now
  | SetAffinity p mask => __do_set_cpus_allowed w p mask
  | MigrateDisable p b => Some (on_task w p (t_migration_disabled b))
  | Migrate p c => move_task w (cpu (task_of w p)) p c
  | Stop c => push_cpu_stop w c
  | Irq d => rto_push_irq_work_func w d
  | Online c => set_rq_online w c
  | Offline c => set_rq_offline w c
  | AttachRoot c d => rq_attach_root w c d
  | Masks online active => Some (w_cpu_active_mask active (w_cpu_online_mask online w))
  | PeriodTimer overruns => '(w, _) ← sched_rt_period_timer w overruns; Some w
  | RtHandler period runtime dl => Some (fst (sched_rt_handler w period runtime dl))
  | RrHandler ms => Some (sched_rr_handler w ms)
  | Clock c now => Some (on_rq_of w c (r_clock_task now))
  | DlEnqueue c deadline => inc_dl_tasks w c deadline
  | DlDequeue c leftmost => dec_dl_tasks w c leftmost
  | Others c nr stop => Some (on_rq_of w c (fun q => r_stop_runnable stop (r_nr_running nr q)))
  end.

(** What the callers guarantee. *)
Definition enabled (w : world) (e : event) : Prop :=
  match e with
  | Fork p t =>
      on_rq (task_of w p) = 0 /\ not_current w p /\ on_rq t = 0 /\ on_list t = false /\ on_rt_rq t = false /\
      cpu_ok (cpu t) /\ class_ok t /\ 0 <= p < PID_MAX_LIMIT
  | Wake this p c now => cpu_ok c /\ on_rq (task_of w p) = 0 /\ not_current w p
  | Schedule c o => cpu_ok c /\ offered w c o
  | SetPrio p pi now => may_boost w p
  | SetScheduler p keep policy normal newprio now =>
      0 <= p < PID_MAX_LIMIT /\ class (task_of w p) <> stop_sched_class /\ class (task_of w p) <> idle_sched_class
  | SetAffinity p mask => 0 <= p < PID_MAX_LIMIT
  | Migrate p c => cpu_ok c /\ task_on_rq_queued (task_of w p) = true /\ not_current w p
  | Stop c => cpu_ok c /\ forall p, push_work (cpu_rq w c) = Some p -> curr (cpu_rq w c) <> p
  | DlEnqueue c _ =>
      cpu_ok c /\ 0 <= dl_nr_running (dl (cpu_rq w c)) < two31 /\ base (cpu_rq w c) < two31
  | DlDequeue c _ => cpu_ok c /\ 0 < dl_nr_running (dl (cpu_rq w c)) < two31 /\ 0 < base (cpu_rq w c)
  | Others c nr stop => 0 <= base (r_nr_running nr (cpu_rq w c)) <= two31
  | Yield c | Tick c _ _ _ => cpu_ok c /\ is_rt (task_of w (curr (cpu_rq w c))) = true
  | Block c _ | Balance c | Callbacks _ c | Online c | Offline c | AttachRoot c _ => cpu_ok c
  | Irq _ | MigrateDisable _ _ | Masks _ _ | PeriodTimer _ | RtHandler _ _ _ | RrHandler _ | Clock _ _ => True
  end.

(** The state after [init_rt_rq] and [cpupri_init] on every CPU, before any run queue is
    online; no real-time and no deadline task is queued. *)
Record initial (w : world) : Prop := {
  in_rq : forall c, exists q, cpu_rq w c = init_rt_rq q /\ online q = false /\ 0 <= nr_running q <= two31 /\
    rt_nr_running (rt q) = 0 /\ rr_nr_running (rt q) = 0 /\ rt_nr_total (rt q) = 0 /\ dl q = mk_dl_rq 0 0 false;
  in_rd : forall d, let r := rd_of w d in
    rd_cpupri r = Cpupri.cpupri_fresh nr_cpu_ids (Z.ones nr_cpu_ids) /\ rto_mask r = 0 /\ rto_count r = 0 /\ rto_push_work r = None;
  in_task : forall p, let t := task_of w p in
    on_list t = false /\ on_rt_rq t = false /\ cpu_ok (cpu t) /\ class_ok t /\
    (is_rt t = true -> 0 <= p < PID_MAX_LIMIT /\ task_on_rq_queued t = false);
  in_curr : forall c, cpu_ok c -> cpu (task_of w (curr (cpu_rq w c))) = c
}.

Inductive reachable : world -> Prop :=
  | reach_initial w : initial w -> reachable w
  | reach_step w e w' : reachable w -> enabled w e -> run w e = Some w' -> reachable w'.

(** A step that keeps the tasks and the queues of the class. *)
Lemma rq_update_inv w w' : inv w -> links w' -> (forall x, task_of w' x = task_of w x) ->
  (forall x, rtq w' x = rtq w x /\ curr (cpu_rq w' x) = curr (cpu_rq w x) /\ (cpu_ok x -> run_ok (cpu_rq w' x))) -> inv w'.
Proof.
  intros [[[G1 G2 G4 G5 G6 G7 G8] P] I1 I2 I3 I4] L T Q.
  assert (K : forall x, keys w' x = keys w x) by (intros x; unfold keys; by rewrite T).
  split; [split; [split|]|..]; try done; intros x; rewrite ?T; try done; try intros Hx; try apply Q; try done.
  - rewrite (proj1 (Q x)). eapply rt_ok_frame; [by apply G2|done].
  - by apply G6.
  - by apply G8.
  - rewrite (proj1 (Q x)). eapply push_frame; [by apply P|done|done|intros; by rewrite K|]. intros y. unfold pset.
    by rewrite T, (proj1 (proj2 (Q x))).
  - by apply I2.
  - rewrite (proj1 (proj2 (Q x))). by apply I4.
Qed.

Lemma others_inv w c nr stop : inv w -> 0 <= base (r_nr_running nr (cpu_rq w c)) <= two31 ->
  inv (on_rq_of w c (fun q => r_stop_runnable stop (r_nr_running nr q))).
Proof.
  intros I B. set (w' := on_rq_of w c _).
  assert (R : forall x, cpu_rq w' x = if x =? c then r_stop_runnable stop (r_nr_running nr (cpu_rq w c)) else cpu_rq w x) by done.
  apply (rq_update_inv w); try done.
  - eapply links_frame; [apply I| |done]. intros x. rewrite R. by destruct (Z.eqb_spec x c) as [->|].
  - intros x. unfold rtq. rewrite R. destruct (Z.eqb_spec x c) as [->|]; (split_and!; [done..|]); intros Hx; [|by apply (g_run _ _ I)].
    by destruct (g_run _ _ I c Hx).
Qed.

(** *** The stores of the deadline class *)

(** The run queue of [c] has new counters of the deadline class. *)
Definition recounted (w w1 : world) (c nr : Z) (d : dl_rq) : Prop :=
  (forall x, task_of w1 x = task_of w x) /\ (forall x, rd_of w1 x = rd_of w x) /\
  forall x, cpu_rq w1 x = if x =? c then r_dl d (r_nr_running nr (cpu_rq w c)) else cpu_rq w x.

Lemma recounted_rest w w1 c nr d : inv w -> cpu_ok c -> recounted w w1 c nr d ->
  0 <= base (r_nr_running nr (cpu_rq w c)) <= two31 ->
  forall x, rtq w1 x = rtq w x /\ curr (cpu_rq w1 x) = curr (cpu_rq w x) /\ (cpu_ok x -> run_ok (cpu_rq w1 x)).
Proof.
  intros I Hc (_ & _ & R) B x. unfold rtq. rewrite R.
  destruct (Z.eqb_spec x c) as [->|]; (split_and!; [done..|]); intros Hx; [|by apply (g_run _ _ I)]. by destruct (g_run _ _ I c Hx).
Qed.

(** While deadline tasks stay, the counters may change without a store. *)
Lemma recounted_inv w w1 c nr d : inv w -> cpu_ok c -> recounted w w1 c nr d ->
  0 <= base (r_nr_running nr (cpu_rq w c)) <= two31 -> 0 < dl_nr_running d ->
  (stored_offline (dl (cpu_rq w c)) = true -> stored_offline d = true) -> inv w1.
Proof.
  intros I Hc Rc B Hd So. pose proof (recounted_rest _ _ _ _ _ I Hc Rc B) as Rest. destruct Rc as (T & D & R).
  apply (rq_update_inv w); try done. apply (links_ext w); [apply I| | | |intros x; by rewrite D]; intros i x; unfold cpu_pri, dl_stored, cpu_over, rtq; rewrite R;
    (destruct (Z.eqb_spec x c) as [->|]; [|done]); simpl; try done. intros v. destruct (_ && _); [|done]. by intros [? _].
Qed.

(** A store, of the priority of the queue or of the level above, that goes with new
    counters. *)
Lemma recounted_store w w1 c nr d pri r : inv w -> cpu_ok c -> recounted w w1 c nr d ->
  0 <= base (r_nr_running nr (cpu_rq w c)) <= two31 ->
  (stored_offline (dl (cpu_rq w c)) = true -> stored_offline d = true) ->
  (online (cpu_rq w c) = false -> stored_offline d = true) -> Cpupri.convert_prio pri = Some r ->
  pri = highest_curr (rtq w c) \/ r = Cpupri.CPUPRI_HIGHER /\ 0 < dl_nr_running d ->
  exists w', set_cpupri w1 c pri = Some w' /\ inv w' /\ (forall x, cpu_rq w' x = cpu_rq w1 x).
Proof.
  intros I Hc Rc B So Off Hr Hv. pose proof (recounted_rest _ _ _ _ _ I Hc Rc B) as Rest. destruct Rc as (T & D & R).
  assert (Rq : cpu_rq w1 c = r_dl d (r_nr_running nr (cpu_rq w c))) by (by rewrite R, Z.eqb_refl).
  destruct (links_set_pri w w1 c pri r) as (cp & E & L); [apply I|done|..|done| |].
  - split_and!; rewrite ?Rq; try done. intros x Hx. by rewrite R, (proj2 (Z.eqb_neq _ _) Hx).
  - intros x. unfold cpu_over, rtq. by rewrite Rq.
  - unfold cpu_pri, dl_stored, rtq. rewrite Rq. simpl. rewrite Z.eqb_refl. simpl.
    destruct (online (cpu_rq w c)); [destruct Hv as [->|]; auto|right; by apply Off].
  - unfold set_cpupri. rewrite E. cbn [mbind option_bind]. eexists. split; [done|]. split; [|done]. by apply (rq_update_inv w).
Qed.

Lemma recounted_on_dl w c f : recounted w (on_dl w c f) c (nr_running (cpu_rq w c)) (f (dl (cpu_rq w c))).
Proof. done. Qed.

Lemma base_same w c : inv w -> cpu_ok c -> 0 <= base (r_nr_running (nr_running (cpu_rq w c)) (cpu_rq w c)) <= two31.
Proof. intros I Hc. apply (g_run _ _ I c Hc). Qed.

Lemma base_change w c m n : inv w -> cpu_ok c -> m = nr_running (cpu_rq w c) + n -> 0 <= base (cpu_rq w c) + n <= two31 ->
  base (r_nr_running (u32 m) (cpu_rq w c)) = base (cpu_rq w c) + n.
Proof.
  intros I Hc -> B. pose proof (rt_ok_nr _ _ _ (g_rt _ _ I c Hc)) as N. unfold rtq, PID_MAX_LIMIT in N. unfold base in *. simpl.
  rewrite u32_small; destruct (rt_queued (cpu_rq w c)); lia.
Qed.

Lemma inc_dl_deadline_spec w c deadline : inv w -> cpu_ok c -> 0 < dl_nr_running (dl (cpu_rq w c)) ->
  exists w', inc_dl_deadline w c deadline = Some w' /\ inv w'.
Proof.
  intros I Hc Hn. unfold inc_dl_deadline.
  assert (Fin : forall u, inv u -> 0 < dl_nr_running (dl (cpu_rq u c)) ->
    inv (on_dl u c (fun d => mk_dl_rq (dl_nr_running d) deadline (stored_offline d)))).
  { intros u Iu Hu. eapply recounted_inv; [exact Iu|exact Hc|apply recounted_on_dl|by apply base_same|done|done]. }
  destruct (Z.eqb_spec (earliest_dl (dl (cpu_rq w c))) 0) as [E0|E0]; simpl.
  - unfold dl_set_cpupri. edestruct (recounted_store w) as (w' & -> & I' & R'); [exact I|exact Hc|apply recounted_on_dl|by apply base_same|..].
    + simpl. by intros ->.
    + simpl. intros ->. apply orb_true_r.
    + done.
    + right. by split.
    + cbn [mbind option_bind]. eexists. split; [done|]. apply Fin; [done|]. rewrite R'. simpl. by rewrite upd_eq.
  - destruct (Cpudl.dl_time_before _ _); [|eauto]. cbn [mbind option_bind]. eexists. split; [done|]. by apply Fin.
Qed.

Lemma dl_enqueue_spec w c deadline : inv w -> cpu_ok c -> 0 <= dl_nr_running (dl (cpu_rq w c)) < two31 -> base (cpu_rq w c) < two31 ->
  exists w', inc_dl_tasks w c deadline = Some w' /\ inv w'.
Proof.
  intros I Hc Hn B. unfold inc_dl_tasks. set (w0 := on_dl w c _).
  assert (Hn0 : dl_nr_running (dl (cpu_rq w0 c)) = dl_nr_running (dl (cpu_rq w c)) + 1).
  { unfold w0. simpl. rewrite upd_eq. simpl. rewrite u32_small; [done|lia]. }
  assert (I0 : inv w0).
  { eapply recounted_inv; [exact I|exact Hc|apply recounted_on_dl|by apply base_same|simpl; rewrite u32_small; lia|done]. }
  assert (B0 : base (cpu_rq w0 c) = base (cpu_rq w c)) by (unfold w0; simpl; by rewrite upd_eq).
  clearbody w0. destruct (add_nr_running_step w0 c 1) as [S E]. set (w1 := add_nr_running w0 c 1) in *. pose proof (g_run _ _ I0 c Hc) as R0.
  apply inc_dl_deadline_spec; [|done|rewrite E; simpl; lia].
  apply (rq_update_inv w0); [done|by apply (top_step_links _ _ _ S), I0|apply S|]. intros x. split; [apply S|].
  destruct (decide (x = c)) as [->|Hx]; [|rewrite (ts_other _ _ _ S x Hx); split; [done|]; apply (g_run _ _ I0)]. rewrite E. split; [done|].
  intros _. destruct R0 as [R1 R2 R3]. split; try done. rewrite (base_change w0 c _ 1); [|done..|]; rewrite B0 in *; lia.
Qed.

Lemma dl_dequeue_spec w c leftmost : inv w -> cpu_ok c -> 0 < dl_nr_running (dl (cpu_rq w c)) < two31 -> 0 < base (cpu_rq w c) ->
  exists w', dec_dl_tasks w c leftmost = Some w' /\ inv w'.
Proof.
  intros I Hc Hn B. unfold dec_dl_tasks. set (w0 := on_dl w c _). set (w1 := sub_nr_running w0 c 1).
  set (l := dl (cpu_rq w c)) in *.
  assert (En : dl_nr_running l -u32 1 = dl_nr_running l - 1) by (apply u32_small; lia).
  assert (Rc : recounted w w1 c (nr_running (cpu_rq w c) -u32 1) (mk_dl_rq (dl_nr_running l -u32 1) (earliest_dl l) (stored_offline l))).
  { split_and!; try done. intros x. unfold w1, w0. simpl. unfold upd. destruct (Z.eqb_spec x c) as [->|]; [by rewrite Z.eqb_refl|done]. }
  assert (Bs : 0 <= base (r_nr_running (nr_running (cpu_rq w c) -u32 1) (cpu_rq w c)) <= two31).
  { pose proof (run_base _ (g_run _ _ I c Hc)). rewrite (base_change w c _ (-1)); [|done..|]; lia. }
  assert (E1 : cpu_rq w1 c = r_dl (mk_dl_rq (dl_nr_running l -u32 1) (earliest_dl l) (stored_offline l)) (r_nr_running (nr_running (cpu_rq w c) -u32 1) (cpu_rq w c))).
  { destruct Rc as (_ & _ & R). by rewrite R, Z.eqb_refl. }
  clearbody w1. unfold dec_dl_deadline. rewrite E1. simpl. rewrite En. destruct (Z.eqb_spec (dl_nr_running l - 1) 0) as [Z0|Z0].
  - unfold dl_set_cpupri. match goal with |- context[set_cpupri ?u c _] => set (w3 := u) end.
    assert (Ht : rtq w1 c = rtq w c) by (unfold rtq; by rewrite E1). rewrite Ht.
    assert (Hh := rt_ok_high _ _ _ (g_rt _ _ I c Hc)). destruct (convert_some _ Hh) as [r Hr].
    assert (R3 : recounted w w3 c (nr_running (cpu_rq w c) -u32 1)
      (mk_dl_rq (dl_nr_running l -u32 1) 0 (stored_offline l || negb (online (cpu_rq w c))))).
    { destruct Rc as (T & D & R). split_and!; try done. intros x. unfold w3. simpl. unfold upd. rewrite !Z.eqb_refl.
      destruct (Z.eqb_spec x c) as [->|Hx]; [by rewrite E1|]. by rewrite R, (proj2 (Z.eqb_neq _ _) Hx). }
    destruct (recounted_store w w3 c _ _ (highest_curr (rtq w c)) r I Hc R3 Bs) as (w' & E' & I' & _); eauto.
    + simpl. fold l. by intros ->.
    + simpl. intros ->. apply orb_true_r.
  - assert (I1 : inv w1) by (eapply (recounted_inv w); [done|done|exact Rc|done|simpl; lia|done]).
    eexists. split; [done|]. eapply recounted_inv; [exact I1|exact Hc|apply recounted_on_dl|by apply base_same|rewrite E1; simpl; lia|done].
Qed.

Lemma fork_inv w p t : inv w -> enabled w (Fork p t) -> inv (on_task w p (fun _ => t)).
Proof.
  intros I (O & Nc & O' & L & On & C & Co & Hp).
  assert (Off : on_rt_rq (task_of w p) = false) by (rewrite (inv_queued _ I); unfold task_on_rq_queued; rewrite O; apply andb_false_r).
  assert (Ol : on_list (task_of w p) = false) by (by rewrite (g_task _ _ I)).
  assert (E : task_of (on_task w p (fun _ => t)) p = t) by apply upd_eq.
  apply (inv_upd w _ p); rewrite ?E; try done.
  - apply (good_none _ p); [|by rewrite E]. apply change_good; try congruence. apply good_some; [apply I|done].
  - intros x Hx. simpl. by rewrite upd_ne.
  - intros R. split; [by apply class_ok_rt|done].
  - unfold task_on_rq_queued. rewrite On, O'. by rewrite andb_false_r.
  - intros c Hc Ec. destruct Nc. rewrite <- Ec at 2. do 2 f_equal. rewrite <- Ec. by apply (inv_curr _ I).
Qed.

Lemma run_spec w e : inv w -> enabled w e -> exists w', run w e = Some w' /\ inv w'.
Proof.
  intros I En. destruct e; cbn [run enabled] in *.
  - eexists. split; [done|]. by apply fork_inv.
  - destruct En as (? & ? & ?). by apply ttwu_spec.
  - by apply block_spec.
  - destruct (balance_spec w c (curr (cpu_rq w c)) I En) as (w' & b & -> & I'). cbn [mbind option_bind]. eauto.
  - destruct En. by apply schedule_next_spec.
  - by apply callbacks_spec.
  - unfold yield_task_rt. destruct (requeue_task_spec w (curr (cpu_rq w c)) false I) as (w' & -> & I' & _). eauto.
  - destruct En. by apply tick_spec.
  - by apply rt_mutex_setprio_spec.
  - destruct En as (? & ? & ?). by apply setscheduler_commit_spec.
  - by apply set_cpus_allowed_spec.
  - eexists. split; [done|]. apply (rt_quiet_inv w); [by apply quiet_on_task|done].
  - destruct En as (? & _ & ?). destruct (move_task_spec w p c) as (w' & -> & I' & _); eauto.
  - destruct En. by apply push_cpu_stop_spec.
  - by apply rto_push_irq_spec.
  - destruct (set_rq_online_spec w c I En) as (w' & -> & I' & _). eauto.
  - destruct (set_rq_offline_spec w c I En) as (w' & -> & I' & _). eauto.
  - by apply attach_root_spec.
  - eexists. split; [done|]. by apply (rt_quiet_inv w).
  - destruct (period_timer_spec w overruns I) as (w' & b & -> & Q). cbn [mbind option_bind]. eexists. split; [done|]. by eapply rt_quiet_inv.
  - eexists. split; [done|]. eapply rt_quiet_inv; [apply rt_handler_quiet|done].
  - eexists. split; [done|]. eapply rt_quiet_inv; [apply rr_handler_quiet|done].
  - eexists. split; [done|]. eapply rt_quiet_inv; [apply quiet_clock|done].
  - destruct En as (? & ? & ?). by apply dl_enqueue_spec.
  - destruct En as (? & ? & ?). by apply dl_dequeue_spec.
  - eexists. split; [done|]. by apply others_inv.
Qed.

(** *** The initial world *)

Lemma fresh_queue K c q : (forall p, k_list (K p) = false) -> rt_nr_running (rt q) = 0 -> rr_nr_running (rt q) = 0 -> rt_nr_total (rt q) = 0 ->
  rt_ok K c (rt (init_rt_rq q)).
Proof.
  intros Hk N R T.
  assert (Em : forall i p, ~ listed (rt (init_rt_rq q)) i p).
  { intros i p (l & Hl & Hp). unfold aref in Hl. destruct (0 <=? i); [|done]. change (queue _) with (replicate (Z.to_nat MAX_RT_PRIO) (@nil Z)) in Hl. apply lookup_replicate_1 in Hl as [-> _].
    by apply elem_of_nil in Hp. }
  split.
  - split.
    + done.
    + vm_compute. constructor.
    + intros p i. split; [intros H; by destruct (Em i p)|]. intros (H & _). by rewrite Hk in H.
    + intros i. change (bitmap (rt (init_rt_rq q))) with (Z.setbit 0 MAX_RT_PRIO). rewrite Z.setbit_iff by (unfold MAX_RT_PRIO; lia).
      rewrite Z.bits_0. split; [intros [<-|]; [by left|done]|]. intros [->|(p & H)]; [by left|]. by destruct (Em i p).
    + intros p i H. by destruct (Em i p).
  - split; simpl; rewrite ?N, ?R, ?T; done.
  - unfold top_ok. simpl. by rewrite N.
  - done.
Qed.

Lemma initial_links w : initial w -> links w.
Proof.
  intros [Hq Hd Ht Hc]. assert (Hn : cpu_ok (cpu (task_of w 0))) by apply Ht.
  assert (Hnr : 0 <= nr_cpu_ids) by (unfold cpu_ok in Hn; lia). pose proof (ones_ok _ Hn) as Hones.
  assert (Off : forall c, online (cpu_rq w c) = false) by (intros c; destruct (Hq c) as (q & -> & ? & _); done).
  assert (Ov : forall d c, cpu_over w d c = false) by (intros d c; unfold cpu_over; by rewrite Off, andb_false_r).
  split; intros d; destruct (Hd d) as (D1 & D2 & D3 & D4).
  - rewrite D1. by apply Cpupri.fresh_wf.
  - intros c Hk. left. unfold cpu_pri. rewrite Off, andb_false_r, D1. rewrite Cpupri.fresh_pr; [done..|]. by apply (ones_spec c).
  - intros c. rewrite Ov, D2. apply Z.bits_0.
  - rewrite D3. induction (seqZ 0 nr_cpu_ids) as [|x l IH]; [done|]. simpl. by rewrite Ov, <- IH.
  - by rewrite D4.
Qed.

Lemma initial_inv w : initial w -> inv w.
Proof.
  intros H. pose proof (initial_links w H) as L. destruct H as [Hq Hd Ht Hc].
  assert (Ps : forall c p, ~ pset w c p) by (intros c p (O & _); destruct (Ht p) as (_ & O' & _); congruence).
  split; [split; [split; [done|..]|]|..].
  - intros c _. unfold rtq. destruct (Hq c) as (q & -> & _ & _ & N & R & T & _). apply fresh_queue; try done. intros p. apply Ht.
  - intros c _. destruct (Hq c) as (q & -> & _ & N & _). split; try done. unfold base. simpl. lia.
  - intros p. apply Ht.
  - intros p _. by destruct (Ht p) as (-> & -> & _).
  - done.
  - intros p O. destruct (Ht p) as (_ & O' & _). congruence.
  - intros c _. unfold rtq. destruct (Hq c) as (q & -> & _). split; [split; [done|apply base.NoDup_nil_2|done]| | |done]; cbn [rt init_rt_rq].
    + intros p. split; [intros H; by apply elem_of_nil in H|]. intros H. by destruct (Ps c p).
    + intros n H. by apply elem_of_nil in H.
  - intros p. apply Ht.
  - intros p R. destruct (Ht p) as (_ & _ & _ & Co & H). split; [by apply class_ok_rt|by apply H].
  - intros p. destruct (Ht p) as (_ & -> & _ & _ & H). destruct (is_rt _); [|done]. destruct H as [_ ->]; done.
  - done.
Qed.

Lemma rt_reachable_inv w : reachable w -> inv w.
Proof.
  induction 1 as [w H|w e w' _ IH En E]; [by apply initial_inv|]. destruct (run_spec w e IH En) as (w1 & E1 & I1). congruence.
Qed.

End Events.

(** ** Theorems *)

Section Theorems.
Context {pf : RtPlatform} {laws : RtLaws pf}.

(** Task [p] is a queued real-time task of CPU [c]. *)
Definition queued_on (w : world) (c p : Z) : Prop :=
  let t := task_of w p in is_rt t = true /\ on_rq t = TASK_ON_RQ_QUEUED /\ cpu t = c.

Lemma queued_on_spec w c p : inv w -> queued_on w c p <-> on_rt_rq (task_of w p) = true /\ cpu (task_of w p) = c.
Proof.
  intros I. unfold queued_on. rewrite (inv_queued _ I), andb_true_iff. unfold task_on_rq_queued. rewrite Z.eqb_eq. naive_solver.
Qed.

Lemma listed_queued w c p i : inv w -> cpu_ok c -> listed (rtq w c) i p <-> queued_on w c p /\ prio (task_of w p) = i.
Proof.
  intros I Hc. rewrite queued_on_spec by done. rewrite (arr_mem _ _ _ (ok_arr _ _ _ (g_rt _ _ I c Hc))). unfold keys. simpl.
  rewrite (g_task _ _ I p) by done. naive_solver.
Qed.

Lemma tally_length n w c : inv w -> cpu_ok c -> (forall p, queued_on w c p -> n (keys w p) = 1) ->
  tally n (keys w) (rtq w c) = Z.of_nat (length (concat (queue (rtq w c)))).
Proof.
  intros I Hc H. unfold tally.
  assert (Hl : forall p, p ∈ concat (queue (rtq w c)) -> n (keys w p) = 1).
  { intros p [i Hp]%listed_concat. apply H. by apply (listed_queued w c p i I Hc). }
  revert Hl. induction (concat (queue (rtq w c))) as [|x l IH]; intros Hl; [done|]. simpl.
  rewrite Hl by left. rewrite IH; [lia|]. intros p Hp. apply Hl. by right.
Qed.

Lemma migratory_spec w c : inv w -> cpu_ok c ->
  rt_nr_migratory (rtq w c) <> 0 <-> exists p, queued_on w c p /\ 1 < nr_cpus_allowed (task_of w p).
Proof.
  intros I Hc. pose proof (g_rt _ _ I c Hc) as Ok. rewrite (cnt_migr _ _ (ok_cnt _ _ _ Ok)). split.
  - intros Nz. destruct (decide (Exists (fun p => 1 < nr_cpus_allowed (task_of w p)) (concat (queue (rtq w c))))) as [E|E].
    + apply list.Exists_exists in E as (p & [i Hp]%listed_concat & Hn). exists p. split; [|done]. by apply (listed_queued w c p i I Hc).
    + destruct Nz. unfold tally. apply not_Exists_Forall in E; [|intros x; apply _]. revert E.
      induction (concat (queue (rtq w c))) as [|x l IH]; [done|]. intros [Hx Hl]%list.Forall_cons. simpl. rewrite IH by done.
      unfold n_migr, keys. simpl. destruct (Z.ltb_spec 1 (nr_cpus_allowed (task_of w x))); [done|]. by rewrite andb_false_r.
  - intros (p & Q & Hn) Z0. assert (Lp : listed (rtq w c) (prio (task_of w p)) p) by (by apply listed_queued).
    pose proof (tally_0 n_migr _ _ n_migr_01 Z0 _ _ Lp) as E. apply queued_on_spec in Q as [Q _]; [|done].
    unfold n_migr, keys in E. simpl in E. rewrite Q in E. destruct (Z.ltb_spec 1 (nr_cpus_allowed (task_of w p))); [done|lia].
Qed.

(** C7: Safety of the whole class: from the state after initialisation no sequence of
    wakeups, sleeps, switches, ticks, changes of priority, class and affinity, pushes, pulls,
    interrupts, hotplug operations, period timers, sysctl writes and arrivals and departures
    of deadline tasks reaches a [BUG_ON], a broken list, a null pointer or a division by
    zero: every event that can occur runs to its end. *)
Theorem rt_events_total (w : world) (e : event) :
  reachable w -> enabled w e -> exists w', run w e = Some w' /\ reachable w'.
Proof.
  intros R En. destruct (run_spec w e (rt_reachable_inv w R) En) as (w' & E & _). exists w'. split; [done|]. by eapply reach_step.
Qed.

(** C3: Type invariant of [struct rt_rq] in every reachable state: the list of priority
    [i] holds exactly the queued tasks of that CPU and priority, each once; bit [i] of the
    bitmap is set iff that list is not empty; [rt_nr_running] is the number of queued tasks,
    [highest_prio.curr] the best priority of one; the queue is overloaded iff it has a task
    that may run elsewhere and another one; the list of pushable tasks is sorted by
    priority and holds exactly the queued tasks that may run elsewhere and do not run. *)
Theorem rt_queues_exact (w : world) (c : Z) : reachable w -> cpu_ok c ->
  let q := rtq w c in
  (forall p i, listed q i p <-> queued_on w c p /\ prio (task_of w p) = i) /\
  NoDup (concat (queue q)) /\
  (forall i, Z.testbit (bitmap q) i = true <-> i = MAX_RT_PRIO \/ exists p, listed q i p) /\
  rt_nr_running q = Z.of_nat (length (concat (queue q))) /\
  (forall p, queued_on w c p -> highest_curr q <= prio (task_of w p)) /\
  (highest_curr q = MAX_RT_PRIO - 1 \/ exists p, queued_on w c p /\ prio (task_of w p) = highest_curr q) /\
  (overloaded q = true <-> 1 < rt_nr_running q /\ exists p, queued_on w c p /\ 1 < nr_cpus_allowed (task_of w p)) /\
  Plist.sorted (Plist.node_list (pushable_tasks q)) /\
  (forall p, p ∈ map Plist.id (Plist.node_list (pushable_tasks q)) <->
     queued_on w c p /\ 1 < nr_cpus_allowed (task_of w p) /\ curr (cpu_rq w c) <> p).
Proof.
  intros R Hc q. pose proof (rt_reachable_inv w R) as I. pose proof (g_rt _ _ I c Hc) as Ok. fold q in Ok.
  pose proof (ok_arr _ _ _ Ok) as A. pose proof (ok_cnt _ _ _ Ok) as [Cn Ct _ _].
  assert (Len : tally n_on (keys w) q = Z.of_nat (length (concat (queue q)))).
  { apply tally_length; [done..|]. intros p [Q _]%queued_on_spec; [|done]. unfold n_on, keys. simpl. by rewrite Q. }
  split_and!.
  - intros p i. by apply listed_queued.
  - apply A.
  - apply A.
  - by rewrite Cn.
  - intros p [Q E]%queued_on_spec; [|done]. unfold q. rewrite <- E. apply (highest_curr_le w p I Q).
  - pose proof (ok_top _ _ _ Ok) as Tp. unfold top_ok in Tp. destruct (Z.eqb_spec (rt_nr_running q) 0) as [|Nz]; [by left|right].
    destruct (nr_nonzero _ _ _ Ok Nz) as (i & x & Hx). destruct (first_bit_listed _ _ _ A) as [M1 M2]. pose proof (M1 _ _ Hx).
    apply listed_range in Hx. rewrite (arr_len _ _ _ A) in Hx. destruct M2 as [p Hp]; [unfold MAX_RT_PRIO in *; lia|].
    exists p. rewrite Tp. by apply listed_queued.
  - rewrite (ok_over _ _ _ Ok), andb_true_iff, negb_true_iff, Z.eqb_neq, Z.ltb_lt, Ct, <- Cn.
    unfold q. rewrite migratory_spec by done. naive_solver.
  - apply (push_plist _ _ _ (g_push _ _ I c Hc)).
  - intros p. unfold q. rewrite (push_mem _ _ _ (g_push _ _ I c Hc)). rewrite queued_on_spec by done. unfold pset. naive_solver.
Qed.

(** C4: The root domains know their run queues in every reachable state.  The index of a
    domain has a CPU that is online in it at the level of its best queued real-time priority
    or, only while the CPU has deadline tasks, at the level above; so it is the level of the
    real-time priority on every CPU without deadline tasks.  Every other CPU is invalid in
    the index unless the deadline class once stored its level while the run queue was
    offline, which [inc_dl_deadline] and [dec_dl_deadline] do not prevent.  The overload mask
    holds exactly the overloaded CPUs that are online in the domain, and [rto_count] is their
    number. *)
Theorem rt_root_domains_exact (w : world) (d : Z) : reachable w ->
  let r := rd_of w d in
  (forall c, cpu_ok c -> rd (cpu_rq w c) = d -> online (cpu_rq w c) = true ->
     Cpupri.convert_prio (highest_curr (rtq w c)) = Some (Cpupri.pr (rd_cpupri r) c) \/
     Cpupri.pr (rd_cpupri r) c = Cpupri.CPUPRI_HIGHER /\ 0 < dl_nr_running (dl (cpu_rq w c))) /\
  (forall c, cpu_ok c -> rd (cpu_rq w c) <> d \/ online (cpu_rq w c) = false ->
     stored_offline (dl (cpu_rq w c)) = false -> Cpupri.pr (rd_cpupri r) c = Cpupri.CPUPRI_INVALID) /\
  (forall c, mask_test (rto_mask r) c = true <->
     cpu_ok c /\ rd (cpu_rq w c) = d /\ online (cpu_rq w c) = true /\ overloaded (rtq w c) = true) /\
  rto_count r = Z.of_nat (length (mask_bits nr_cpu_ids (rto_mask r))).
Proof.
  intros R r. pose proof (rt_reachable_inv w R) as I. pose proof (g_links _ _ I) as [_ L2 L3 L4 _]. split_and!.
  - intros c Hc Ed On. specialize (L2 d c Hc). unfold cpu_pri, dl_stored in L2. by rewrite Ed, Z.eqb_refl, On in L2.
  - intros c Hc Hn So. specialize (L2 d c Hc). unfold cpu_pri, dl_stored in L2. rewrite So in L2.
    destruct Hn as [Hn%Z.eqb_neq|Hn]; rewrite Hn, ?andb_false_r in L2; (destruct L2 as [L2|]; [|done]); by injection L2.
  - intros c. unfold r. rewrite L3. unfold cpu_over, cpu_ok. rewrite !andb_true_iff, Z.leb_le, Z.ltb_lt, Z.eqb_eq. naive_solver.
  - unfold r. rewrite L4. clear L4. unfold mask_bits. induction (seqZ 0 nr_cpu_ids) as [|x l IH]; [done|]. simpl. rewrite L3, IH.
    destruct (cpu_over w d x); simpl; lia.
Qed.

Lemma aref_nodup (ls : list (list Z)) i l : NoDup (concat ls) -> aref ls i = Some l -> NoDup l.
Proof.
  unfold aref. destruct (0 <=? i); [|done]. intros N Hl. rewrite <- (take_drop_middle ls _ l Hl), concat_app in N. simpl in N.
  apply list.NoDup_app in N as (_ & _ & N). by apply list.NoDup_app in N as (N & _ & _).
Qed.

Lemma set_next_queue w c p first : let q := rtq (set_next_task_rt w c p first) c in
  queue q = queue (rtq w c) /\ pushable_tasks q = plist_remove p (pushable_tasks (rtq w c)).
Proof.
  unfold set_next_task_rt. set (w1 := on_task w p _). cbv zeta. set (w2 := dequeue_pushable_task w1 c p).
  assert (E : rtq (if first then rt_queue_push_tasks w2 c else w2) c = rtq w2 c).
  { destruct first; [|done]. apply quiet_rtq, quiet_queue_push. }
  rewrite E. unfold w2, dequeue_pushable_task. rewrite rtq_on_rt_eq. by destruct (Plist.plist_first _).
Qed.

(** C13: Picking is by fixed priority and first come first served within one: if the class
    has tasks on the run queue, [pick_next_task_rt] returns the task at the head of the list
    of the best priority, which no queued task of the CPU beats; the task leaves the list of
    pushable tasks and no queue changes. *)
Theorem rt_pick_highest_fifo (w : world) (c : Z) : reachable w -> cpu_ok c -> rt_queued (cpu_rq w c) = true ->
  exists w' p l, pick_next_task_rt w c = Some (w', Some p) /\
    aref (queue (rtq w c)) (prio (task_of w p)) = Some (p :: l) /\
    (forall x, queued_on w c x -> prio (task_of w p) <= prio (task_of w x)) /\
    (forall x, x ∈ l <-> queued_on w c x /\ prio (task_of w x) = prio (task_of w p) /\ x <> p) /\
    queue (rtq w' c) = queue (rtq w c) /\ p ∉ map Plist.id (Plist.node_list (pushable_tasks (rtq w' c))).
Proof.
  intros R Hc Q. pose proof (rt_reachable_inv w R) as I. destruct (pick_spec w c I Hc Q) as (p & l & E & Hl & On & Cp & Pp & Min).
  unfold pick_next_task_rt, pick_task_rt, sched_rt_runnable, _pick_next_task_rt. rewrite Q. cbn [negb]. rewrite E. cbn [mbind option_bind].
  eexists _, p, l. split; [done|]. rewrite Pp. split; [done|]. split; [intros x [O C]%queued_on_spec; [rewrite <- Pp; by apply Min|done]|].
  pose proof (aref_nodup _ _ _ (arr_nodup _ _ _ (ok_arr _ _ _ (g_rt _ _ I c Hc))) Hl) as [Np _]%list.NoDup_cons.
  destruct (set_next_queue w c p true) as [Eq Ep]. split_and!; [|done|].
  - intros x. pose proof (listed_queued w c x (first_bit (rtq w c)) I Hc) as L. split.
    + intros Hx. assert (Lx : listed (rtq w c) (first_bit (rtq w c)) x) by (eexists; split; [done|by right]).
      apply L in Lx as [? ?]. split_and!; try done. intros ->. done.
    + intros (Hx & Px & Ne). destruct (proj2 L (conj Hx Px)) as (l' & Hl' & Hin). rewrite Hl in Hl'. injection Hl' as <-.
      apply elem_of_cons in Hin as [->|]; done.
  - rewrite Ep. intros H. apply (remove_ids p) in H; [by destruct H|]. apply (push_plist _ _ _ (g_push _ _ I c Hc)).
Qed.

(** C14: [find_lowest_rq] finds a CPU if there is one: it answers -1 only for a task bound
    to one CPU or when every allowed active CPU of the root domain has deadline tasks or a
    real-time task of the same or a better priority.  Otherwise it answers an allowed active
    CPU of the domain whose real-time tasks the task beats, or one that only a store of the
    deadline class for an offline run queue has brought into the index; without asymmetric
    capacities the CPU of the domain it answers has the lowest real-time priority of those
    without deadline tasks. *)
Theorem find_lowest_rq_exact (w : world) (this p : Z) : reachable w -> is_rt (task_of w p) = true ->
  exists i, find_lowest_rq w this p = Some i /\
    ((i = -1 /\ (nr_cpus_allowed (task_of w p) = 1 \/ forall j, ~ free_target w p j)) \/
     ((target w p i \/ strayed w p i) /\ (sched_asym_cpucap_active = false -> target w p i ->
        forall j, free_target w p j -> highest_curr (rtq w j) <= highest_curr (rtq w i)))).
Proof.
  intros R Rt. destruct (find_lowest_spec w this p (rt_reachable_inv w R) Rt) as (i & E & [H|(_ & H)]); exists i; auto.
Qed.

(** C28: [push_rt_tasks] terminates and leaves nothing behind that could run elsewhere: it
    ends in a state [u] in which the CPU is not overloaded, has no pushable task, or the
    best pushable task beats the current one, may not migrate now, or has no CPU without
    deadline tasks to go to, or the search answers a CPU that only a store of the deadline
    class for an offline run queue has brought into the index; the last call on [u] moved
    nothing. *)
Theorem push_rt_tasks_complete (w : world) (this c : Z) : reachable w -> cpu_ok c ->
  exists u w', push_rt_tasks w this c = Some w' /\ push_rt_task u this c false = Some (w', false) /\ stuck u this c.
Proof.
  intros R Hc. pose proof (rt_reachable_inv w R) as I. unfold push_rt_tasks. destruct (push_all_spec w this c false I Hc) as (w' & E & _).
  destruct (push_loop_last _ _ _ _ _ _ I Hc E) as (u & Iu & Eu). exists u, w'. split_and!; try done. by eapply push_rt_task_false.
Qed.

End Theorems.

(** ** Two CPUs *)

Section Runs.
Context {pf : RtPlatform} {laws : RtLaws pf}.

Fixpoint allowed (w : world) (es : list event) : Prop :=
  match es with
  | [] => True
  | e :: es => enabled w e /\ match run w e with Some w' => allowed w' es | None => False end
  end.

Fixpoint after (w : world) (es : list event) : world :=
  match es with
  | [] => w
  | e :: es => match run w e with Some w' => after w' es | None => w end
  end.

Lemma rt_after_reachable es : forall w, reachable w -> allowed w es -> reachable (after w es).
Proof.
  induction es as [|e es IH]; intros w R H; simpl in *; [done|]. destruct H as [En H]. destruct (run w e) as [w'|] eqn:E; [|done].
  apply IH; [|done]. by eapply reach_step.
Qed.

End Runs.

Module Pair.

Definition any (m : Z) : Z := if mask_test m 0 then 0 else if mask_test m 1 then 1 else 2.

#[export] Instance pair : RtPlatform :=
  mk_rt_platform 2 unit (fun _ => true) (fun t => t) true false false false (fun _ => 1024) (fun _ => [(true, 3)])
    (fun m s => any (Z.land m s)) any 100.

Lemma any_mask m : any m < 2 -> mask_test m (any m) = true.
Proof. unfold any. destruct (mask_test m 0) eqn:A; [done|]. destruct (mask_test m 1) eqn:B; [done|]. lia. Qed.

#[export] Instance pair_laws : RtLaws pair.
Proof.
  split; simpl.
  - intros m s H. apply any_mask in H. unfold mask_test in *. rewrite Z.land_spec in H. by apply andb_true_iff in H as [H _].
  - apply any_mask.
  - intros m i Hi H. unfold any. destruct (mask_test m 0) eqn:A; [lia|]. destruct (mask_test m 1) eqn:B; [lia|].
    assert (i = 0 \/ i = 1) as [-> | ->] by lia; congruence.
Qed.

(** Tasks 1 to 3 are real-time tasks of priorities 10, 10 and 5; 1000 and 1001 are the idle
    tasks. *)
Definition rt_of (prio : Z) : task :=
  mk_task prio prio SCHED_RR rt_sched_class 0 0 false 2 3 false false false None 0 0 0 1024 1 0 0 0 false false.
Definition idle_of (c : Z) : task :=
  mk_task 120 120 0 idle_sched_class 1 c true 1 (Z.shiftl 1 c) false false false None 0 0 0 1024 0 0 0 0 false false.
Definition tasks (p : Z) : task :=
  if p =? 1 then rt_of 10 else if p =? 2 then rt_of 10 else if p =? 3 then rt_of 5
  else if p =? 1001 then idle_of 1 else idle_of 0.

Definition start : world :=
  mk_world tasks
    (fun c => init_rt_rq (mk_rq (mk_rt_rq 0 [] 0 0 0 0 0 0 false Plist.plist_head_init) false false 0 0 0 false 0
                            (1000 + c) (1000 + c) 0 false (mk_dl_rq 0 0 false) [] false false None))
    (fun _ => mk_rd 3 (Cpupri.cpupri_fresh 2 3) false 0 0 0 0 0 0 None)
    (mk_b 1000000000 950000000 false tt) 3 3 1000000 950000 100 10.

Lemma start_initial : initial start.
Proof.
  split.
  - intros c. eexists. by split_and!.
  - intros d. by split_and!.
  - intros p. cbv zeta. change (task_of start p) with (tasks p). unfold tasks, cpu_ok.
    repeat match goal with |- context [p =? ?n] => destruct (Z.eqb_spec p n) as [->|] end;
      split_and!; try done; first [by right; right|by right; left].
  - intros c Hc. unfold cpu_ok in Hc. simpl in Hc. assert (c = 0 \/ c = 1) as [-> | ->] by lia; done.
Qed.

(** Both CPUs come online; tasks 1 and 3 wake up on CPU 0, which then runs task 3 and
    pushes task 1 to CPU 1; task 2 wakes up on CPU 0. *)
Definition busy : list event :=
  [Online 0; Online 1; Wake 0 1 0 1000; Wake 0 3 0 2000; Schedule 0 (Lower 1000); Callbacks 0 0; Schedule 1 (Lower 1001);
   Wake 0 2 0 3000].

Lemma busy_reachable : reachable (after start busy).
Proof.
  apply rt_after_reachable; [apply reach_initial, start_initial|]. vm_compute. by split_and!.
Qed.

(** Only CPU 0 is online: task 1 runs and task 2 waits behind it. *)
Definition alone : list event := [Online 0; Wake 0 1 0 1000; Schedule 0 (Lower 1000); Wake 0 2 0 2000].

Lemma alone_reachable : reachable (after start alone).
Proof.
  apply rt_after_reachable; [apply reach_initial, start_initial|]. vm_compute. by split_and!.
Qed.

(** A deadline task then arrives on CPU 1. *)
Definition mixed : list event := busy ++ [DlEnqueue 1 5000000].

Lemma mixed_reachable : reachable (after start mixed).
Proof.
  apply rt_after_reachable; [apply reach_initial, start_initial|]. vm_compute. by split_and!.
Qed.

(** As [alone], and a deadline task comes and goes on CPU 1, whose run queue is offline. *)
Definition stray : list event := alone ++ [DlEnqueue 1 5000000; DlDequeue 1 0].

Lemma stray_reachable : reachable (after start stray).
Proof.
  apply rt_after_reachable; [apply reach_initial, start_initial|]. vm_compute. by split_and!.
Qed.

(** The stores of the deadline class do not ask whether the run queue is online: the search
    for a CPU answers with one whose run queue is offline, if it is active. *)
Example offline_cpu_found : let w := after start stray in
  reachable w /\ online (cpu_rq w 1) = false /\ find_lowest_rq w 0 2 = Some 1.
Proof. split; [apply stray_reachable|]. by vm_compute. Qed.

(** A deadline task arrives on CPU 1, and a real-time task of priority 10 after it; task 3 of
    priority 5 then waits on CPU 0. *)
Definition covered : list event :=
  [Online 0; Online 1; DlEnqueue 1 5000000; Wake 0 1 1 1000; Wake 0 3 0 2000].

Lemma covered_reachable : reachable (after start covered).
Proof.
  apply rt_after_reachable; [apply reach_initial, start_initial|]. vm_compute. by split_and!.
Qed.

(** The stores of the real-time class overwrite the level of the deadline class while its
    tasks are there, so that the CPU is found for a task that cannot run there at once. *)
Example deadline_level_overwritten : let w := after start covered in
  reachable w /\ sched_dl_runnable (cpu_rq w 1) = true /\
  Cpupri.convert_prio (highest_curr (rtq w 1)) = Some (Cpupri.pr (rd_cpupri (rd_of w 0)) 1) /\
  find_lowest_rq w 0 3 = Some 1.
Proof. split; [apply covered_reachable|]. by vm_compute. Qed.

End Pair.
Import Pair.

Lemma rt_events_total_witness : exists w', run (after start mixed) (Block 0 4000) = Some w' /\ reachable w'.
Proof. apply rt_events_total; [apply mixed_reachable|vm_compute; by split]. Defined.

Lemma rt_queues_exact_witness : let q := rtq (after start busy) 0 in
  NoDup (concat (queue q)) /\ Z.of_nat (length (concat (queue q))) = 2 /\
  exists p, queued_on (after start busy) 0 p /\ 1 < nr_cpus_allowed (task_of (after start busy) p).
Proof.
  cbv zeta. destruct (rt_queues_exact (after start busy) 0 busy_reachable) as (_ & H1 & _ & H2 & _ & _ & H3 & _); [by split|].
  split_and!; [done|rewrite <- H2; by vm_compute|]. apply H3. by vm_compute.
Defined.

(** CPU 0 has no deadline task, so it is at the level of its best real-time priority. *)
Lemma rt_root_domains_exact_witness : let w := after start mixed in let r := rd_of w 0 in
  Cpupri.convert_prio (highest_curr (rtq w 0)) = Some (Cpupri.pr (rd_cpupri r) 0) /\
  Cpupri.pr (rd_cpupri r) 1 = Cpupri.CPUPRI_HIGHER /\
  Z.of_nat (length (mask_bits nr_cpu_ids (rto_mask r))) = 1 /\ mask_test (rto_mask r) 0 = true.
Proof.
  cbv zeta. destruct (rt_root_domains_exact (after start mixed) 0 mixed_reachable) as (H0 & _ & H1 & H2). split_and!.
  - destruct (H0 0) as [H|[_ H]]; [by split|done|done|exact H|vm_compute in H; discriminate].
  - destruct (H0 1) as [H|[H _]]; [by split|done|done|vm_compute in H; discriminate|exact H].
  - rewrite <- H2. by vm_compute.
  - apply H1. vm_compute. by split_and!.
Defined.

Lemma rt_pick_highest_fifo_witness : exists w' p l, pick_next_task_rt (after start busy) 0 = Some (w', Some p) /\
  aref (queue (rtq (after start busy) 0)) (prio (task_of (after start busy) p)) = Some (p :: l).
Proof.
  destruct (rt_pick_highest_fifo (after start busy) 0 busy_reachable) as (w' & p & l & H1 & H2 & _); [by split|by vm_compute|].
  exists w', p, l. exact (conj H1 H2).
Defined.

Lemma find_lowest_rq_exact_witness : exists i, find_lowest_rq (after start busy) 0 3 = Some i /\ target (after start busy) 3 i.
Proof.
  destruct (find_lowest_rq_exact (after start busy) 0 3 busy_reachable) as (i & E & [[-> _]|[[T|T] _]]);
    [by vm_compute|vm_compute in E; discriminate|exists i; exact (conj E T)|].
  vm_compute in E. injection E as <-. destruct (st_off _ _ _ T). by vm_compute.
Defined.

Lemma push_rt_tasks_complete_witness : exists u w', push_rt_tasks (after start busy) 0 0 = Some w' /\ stuck u 0 0.
Proof.
  destruct (push_rt_tasks_complete (after start busy) 0 0 busy_reachable) as (u & w' & H1 & _ & H2); [by split|]. exists u, w'. exact (conj H1 H2).
Defined.

End RtEvents.
