(* ===== verification/RtRuntime.v ===== *)
(** The runtime of the real-time class: borrowing between CPUs, throttling and the period
    timer, and the sysctls that set the limits. *)

From Stdlib Require Import ZArith Lia List.
From stdpp Require Import base list numbers option.
From S2P Require Import Prelude Plist Cpudl Cpupri Cbs Deadline Rt RtQueue RtInv RtOps RtMove RtHotplug RtHandlers RtEvents.

Module RtRuntime.
Export RtEvents.
Import Cbs(RUNTIME_INF, NSEC_PER_USEC).

Section Runtime.
Context {pf : RtPlatform} {laws : RtLaws pf}.

(** *** Borrowing *)

Definition runtime_of (w : world) (i : Z) : Z := rt_runtime (cpu_rq w i).
Definition used_of (w : world) (i : Z) : Z := rt_time (cpu_rq w i).

(** CPU [i] of the span takes no part, or has a limit within the period. *)
Definition limit_ok (w : world) (period i : Z) : Prop :=
  0 <= used_of w i < two63 /\ (runtime_of w i = RUNTIME_INF \/ 0 <= runtime_of w i <= period).

(** What borrowing for [c] may do to the limit of [i]. *)
Definition lent (w w' : world) (c period i : Z) : Prop :=
  used_of w' i = used_of w i /\
  (runtime_of w i = RUNTIME_INF -> runtime_of w' i = RUNTIME_INF) /\
  (runtime_of w i <> RUNTIME_INF -> 0 <= runtime_of w' i <= period /\
     if i =? c then runtime_of w i <= runtime_of w' i
     else Z.min (runtime_of w i) (used_of w i) <= runtime_of w' i <= runtime_of w i).

Lemma lend_spec w c i diff : i <> c -> 0 <= diff <= runtime_of w i -> runtime_of w i < two64 -> 0 <= runtime_of w c ->
  runtime_of w c + diff < two64 ->
  let w1 := on_rq_of w i (fun q => r_rt_runtime (rt_runtime q -u64 diff) q) in
  let w2 := on_rq_of w1 c (fun q => r_rt_runtime (rt_runtime q +u64 diff) q) in
  forall x, used_of w2 x = used_of w x /\
    runtime_of w2 x = if x =? c then runtime_of w c + diff else if x =? i then runtime_of w i - diff else runtime_of w x.
Proof.
  intros Hi Hd Hw H0 Hc w1 w2 x. unfold used_of, runtime_of in *. unfold w2, w1. simpl. unfold upd.
  destruct (Z.eqb_spec x c) as [->|]; simpl; rewrite ?(proj2 (Z.eqb_neq c i)) by congruence.
  - split; [done|]. rewrite u64_small by lia. done.
  - destruct (Z.eqb_spec x i) as [->|]; simpl; [|done]. split; [done|]. rewrite u64_small by lia. done.
Qed.

Lemma zsum_shift (f g : Z -> Z) l i c d : NoDup l -> i ∈ l -> c ∈ l -> i <> c ->
  (forall x, g x = if x =? c then f c + d else if x =? i then f i - d else f x) -> zsum g l = zsum f l.
Proof.
  intros N Hi Hc Hne E. set (h := fun x => if x =? i then f i - d else f x).
  rewrite (zsum_update h g l c); [|done|done|].
  - rewrite (zsum_update f h l i); [|done|done|].
    + unfold h. rewrite E, !Z.eqb_refl, (proj2 (Z.eqb_neq c i)) by congruence. lia.
    + intros x _ Hx. unfold h. by rewrite (proj2 (Z.eqb_neq _ _) Hx).
  - intros x _ Hx. rewrite E, (proj2 (Z.eqb_neq _ _) Hx). done.
Qed.

Lemma lent_refl w c period i : limit_ok w period i -> lent w w c period i.
Proof. intros [H1 [H2|H2]]; split_and!; try done. intros _. split; [done|]. destruct (_ =? _); lia. Qed.

Lemma lent_trans w1 w2 w3 c period i : period < two63 -> lent w1 w2 c period i -> lent w2 w3 c period i -> lent w1 w3 c period i.
Proof.
  intros Hp (A1 & A2 & A3) (B1 & B2 & B3). split_and!; [congruence|auto|]. intros Ne. destruct (A3 Ne) as [A4 A5].
  assert (Ne2 : runtime_of w2 i <> RUNTIME_INF) by (unfold RUNTIME_INF, U64_MAX in *; lia). destruct (B3 Ne2) as [B4 B5]. split; [done|].
  rewrite A1 in B5. clear - A5 B5. destruct (_ =? _); lia.
Qed.

(** One round that lends [d]. *)
Lemma lend_round w w2 c i period d L : NoDup L -> c ∈ L -> i ∈ L -> i <> c -> 0 <= period < two63 ->
  (forall i, i ∈ L -> limit_ok w period i) -> runtime_of w c <> RUNTIME_INF -> runtime_of w i <> RUNTIME_INF ->
  0 <= d <= runtime_of w i - used_of w i -> runtime_of w c + d <= period ->
  (forall x, used_of w2 x = used_of w x /\
    runtime_of w2 x = if x =? c then runtime_of w c + d else if x =? i then runtime_of w i - d else runtime_of w x) ->
  zsum (runtime_of w2) L = zsum (runtime_of w) L /\ (forall x, x ∈ L -> lent w w2 c period x) /\
  (forall x, x ∈ L -> limit_ok w2 period x) /\ runtime_of w2 c <> RUNTIME_INF.
Proof.
  intros N Hc Hi Hic Hp Ok Ci Ii Hd Hm E. destruct (Ok i Hi) as [Ui [?|Ri]]; [done|]. destruct (Ok c Hc) as [Uc [?|Rc]]; [done|]. split_and!.
  - apply (zsum_shift _ _ _ i c d); try done. intros x. apply E.
  - intros x Hx. destruct (E x) as [E1 E2]. split_and!; [done|..]; rewrite E2.
    + destruct (Z.eqb_spec x c) as [->|]; [done|]. by destruct (Z.eqb_spec x i) as [->|].
    + intros Ne. destruct (Z.eqb_spec x c) as [->|]; [lia|]. destruct (Z.eqb_spec x i) as [->|]; [lia|].
      destruct (Ok x Hx) as [_ [?|Rx]]; [done|lia].
  - intros x Hx. destruct (E x) as [E1 E2]. split; [rewrite E1; by apply Ok|]. rewrite E2.
    destruct (Z.eqb_spec x c) as [->|]; [right; lia|]. destruct (Z.eqb_spec x i) as [->|]; [right; lia|]. by apply Ok.
  - destruct (E c) as [_ ->]. rewrite Z.eqb_refl. unfold RUNTIME_INF, U64_MAX. lia.
Qed.

Lemma share_bound a n : 0 <= a -> 0 < n -> 0 <= a / n <= a.
Proof. intros Ha Hn. split; [by apply Z.div_pos|]. apply Z.div_le_upper_bound; [done|]. nia. Qed.

Lemma borrow_loop_conserves c L weight period cpus : NoDup L -> c ∈ L -> 0 < weight -> 0 <= period < two63 -> cpus ⊆ L ->
  forall w, (forall i, i ∈ L -> limit_ok w period i) -> runtime_of w c <> RUNTIME_INF ->
  exists w', borrow_loop w c weight period cpus = Some w' /\ zsum (runtime_of w') L = zsum (runtime_of w) L /\
    forall i, i ∈ L -> lent w w' c period i.
Proof.
  intros N Hc Hw Hp. induction cpus as [|i cpus IH]; intros Hs w Ok Ci; cbn [borrow_loop].
  { exists w. split_and!; try done. intros i Hi. by apply lent_refl, Ok. }
  assert (Hi : i ∈ L) by (apply Hs; left). assert (Hs' : cpus ⊆ L) by (intros x Hx; apply Hs; by right).
  specialize (IH Hs'). fold (runtime_of w i) (used_of w i) (runtime_of w c).
  destruct (Z.eqb_spec i c) as [->|Hic]; [by apply IH|]. simpl. destruct (Z.eqb_spec (runtime_of w i) RUNTIME_INF) as [|Inf]; [by apply IH|].
  destruct (Ok i Hi) as [Ui [?|Ri]]; [done|]. destruct (Ok c Hc) as [Uc [?|Rc]]; [done|].
  cbv zeta. rewrite s64_small by lia. destruct (Z.ltb_spec 0 (runtime_of w i - used_of w i)) as [Hd|]; [|by apply IH].
  rewrite (proj2 (Z.eqb_neq weight 0)) by lia. set (d0 := (runtime_of w i - used_of w i) / weight).
  assert (D0 : 0 <= d0 <= runtime_of w i - used_of w i) by (apply share_bound; lia).
  rewrite (u64_small (runtime_of w c + d0)) by lia. set (d := if period <? _ then _ else d0).
  assert (Dd : 0 <= d <= d0 /\ runtime_of w c + d <= period).
  { unfold d. destruct (Z.ltb_spec period (runtime_of w c + d0)); [rewrite s64_small by lia|]; lia. }
  clearbody d. pose proof (lend_spec w c i d Hic ltac:(lia) ltac:(lia) ltac:(lia) ltac:(lia)) as E. cbv zeta in E.
  set (w2 := on_rq_of (on_rq_of w i _) c _) in *.
  destruct (lend_round w w2 c i period d L N Hc Hi Hic Hp Ok Ci Inf ltac:(lia) ltac:(lia) E) as (S2 & L2 & O2 & C2). clearbody w2.
  destruct (_ =? period); [by exists w2|]. destruct (IH w2 O2 C2) as (w3 & E3 & S3 & L3). exists w3. split_and!; [done|by rewrite S3|].
  intros x Hx. eapply lent_trans; [apply Hp|by apply L2|by apply L3].
Qed.

(** Borrowing moves runtime and creates none: [do_balance_runtime] keeps the sum of the
    limits over the span of the root domain, gives to its CPU only, keeps every limit within
    the period, takes from another CPU at most what that CPU has not used, and leaves the
    disabled CPUs alone. *)
Theorem balance_runtime_conserves (w : world) (c : Z) :
  let L := mask_bits nr_cpu_ids (span (rdq w c)) in let period := rt_period (def_rt_bandwidth w) in
  c ∈ L -> 0 <= period < two63 -> (forall i, i ∈ L -> limit_ok w period i) -> runtime_of w c <> RUNTIME_INF ->
  exists w', do_balance_runtime w c = Some w' /\ zsum (runtime_of w') L = zsum (runtime_of w) L /\
    forall i, i ∈ L -> lent w w' c period i.
Proof.
  intros L period Hc Hp Ok Ci. apply borrow_loop_conserves; try done.
  - apply NoDup_ListNoDup, List.NoDup_filter, NoDup_ListNoDup, NoDup_seqZ.
  - unfold cpumask_weight. fold L. destruct L; [by apply elem_of_nil in Hc|simpl; lia].
Qed.

(** *** Throttling ends *)

(** A step of the period timer on CPU [i]. *)
Record tick_fr (i : Z) (w w' : world) : Prop := {
  tf_other : forall x, x <> i -> cpu_rq w' x = cpu_rq w x;
  tf_rt : rtq w' i = rtq w i;
  tf_b : def_rt_bandwidth w' = def_rt_bandwidth w;
  tf_online : cpu_online_mask w' = cpu_online_mask w
}.

#[export] Instance tick_fr_trans i : Transitive (tick_fr i).
Proof.
  intros a b c [A1 A2 A3 A4] [B1 B2 B3 B4]. split; intros; rewrite ?B1, ?B2, ?B3, ?B4 by done; rewrite ?A1 by done; congruence.
Qed.
#[export] Instance tick_fr_refl i : Reflexive (tick_fr i).
Proof. by split. Qed.

Lemma tick_fr_on_rq w i f : rt (f (cpu_rq w i)) = rt (cpu_rq w i) -> tick_fr i w (on_rq_of w i f).
Proof. intros H. split; try done; unfold rtq; simpl; [intros x Hx; by rewrite upd_ne|by rewrite upd_eq]. Qed.

Lemma sched_rt_rq_enqueue_effect w i : let w' := sched_rt_rq_enqueue w i in let q := cpu_rq w i in let q' := cpu_rq w' i in
  tick_fr i w w' /\ (rt_throttled q', rt_time q', rt_runtime q') = (rt_throttled q, rt_time q, rt_runtime q) /\
  rt_queued q' = rt_queued q || negb (rt_throttled q) && negb (rt_nr_running (rt q) =? 0).
Proof.
  cbv zeta. unfold sched_rt_rq_enqueue, enqueue_top_rt_rq, rtq. destruct (rt_nr_running (rt (cpu_rq w i)) =? 0) eqn:N.
  { split_and!; try done. by rewrite andb_false_r, orb_false_r. }
  simpl. destruct (rt_queued (cpu_rq w i)) eqn:Q; simpl; [split_and!; first [by split|done]|]. destruct (rt_throttled (cpu_rq w i)) eqn:T; simpl; [split_and!; rewrite ?T; first [by split|done]|].
  destruct (add_nr_running_step w i (rt_nr_running (rt (cpu_rq w i)))) as [S E].
  assert (B : def_rt_bandwidth (add_nr_running w i (rt_nr_running (rt (cpu_rq w i)))) = def_rt_bandwidth w /\
    cpu_online_mask (add_nr_running w i (rt_nr_running (rt (cpu_rq w i)))) = cpu_online_mask w).
  { unfold add_nr_running. by destruct (_ && _). }
  set (w1 := add_nr_running _ _ _) in *. rewrite upd_eq, E. simpl. split_and!; [|by rewrite T|done].
  destruct S as [_ S2 _ S4 _]. destruct B. split; try done; unfold rtq; simpl; [intros x Hx; rewrite upd_ne by done; by apply S4|]. by rewrite upd_eq, E.
Qed.

(** No CPU borrows runtime from another, the default of [features.h]. *)
Context (no_share : RT_RUNTIME_SHARE = false).

Lemma replenish_effect w i overrun : let q := cpu_rq w i in
  let t := rt_time q -u64 Z.min (rt_time q) (overrun *u64 rt_runtime q) in let free := rt_throttled q && (t <? rt_runtime q) in
  exists w', replenish_rt w i overrun = Some (w', free) /\ tick_fr i w w' /\ let q' := cpu_rq w' i in
    rt_time q' = t /\ rt_runtime q' = rt_runtime q /\ rt_queued q' = rt_queued q /\ rt_throttled q' = rt_throttled q && negb free.
Proof.
  cbv zeta. unfold replenish_rt, balance_runtime. rewrite no_share. simpl.
  assert ((if rt_throttled (cpu_rq w i) then Some w else Some w) = Some w) as -> by (by destruct (rt_throttled _)). simpl. rewrite upd_eq. simpl.
  set (t := _ -u64 _). destruct (rt_throttled (cpu_rq w i)) eqn:T; simpl; [destruct (_ <? _)|]; eexists; (split; [done|]); simpl; rewrite !upd_eq; simpl;
    rewrite ?T; split_and!; try done; first [by apply tick_fr_on_rq|etransitivity; by apply tick_fr_on_rq].
Qed.

(** The limit of a CPU is reset first. *)
Definition reset_limit (w : world) (i : Z) : world :=
  if rt_runtime (cpu_rq w i) =? RUNTIME_INF then w else on_rq_of w i (r_rt_runtime (b_runtime (def_rt_bandwidth w))).

Lemma reset_limit_effect w i : let w' := reset_limit w i in let q := cpu_rq w i in let q' := cpu_rq w' i in tick_fr i w w' /\
  (rt_throttled q', rt_queued q', rt_time q') = (rt_throttled q, rt_queued q, rt_time q) /\
  rt_runtime q' = if rt_runtime q =? RUNTIME_INF then RUNTIME_INF else b_runtime (def_rt_bandwidth w).
Proof.
  cbv zeta. unfold reset_limit. destruct (Z.eqb_spec (rt_runtime (cpu_rq w i)) RUNTIME_INF); [by split_and!|].
  simpl. rewrite upd_eq. split_and!; try done. by apply tick_fr_on_rq.
Qed.

(** What a CPU is after its round, as a function of what it was. *)
Definition after_round (overrun b : Z) (q q' : rq) : Prop :=
  let run := if rt_runtime q =? RUNTIME_INF then RUNTIME_INF else b in
  let t := rt_time q -u64 Z.min (rt_time q) (overrun *u64 run) in
  let free := negb (rt_throttled q) || (negb (rt_time q =? 0) && (t <? run)) in
  rt q' = rt q /\ rt_runtime q' = run /\ rt_time q' = (if rt_time q =? 0 then 0 else t) /\ rt_throttled q' = negb free /\
  (rt_queued q = true -> rt_queued q' = true) /\
  (rt_throttled q = true -> free = true -> rt_nr_running (rt q) <> 0 -> rt_queued q' = true).

Lemma period_cpu_effect w i overrun idle throttled :
  exists w' a e, period_cpu w i overrun idle throttled = Some (w', a, e) /\ tick_fr i w w' /\
    after_round overrun (b_runtime (def_rt_bandwidth w)) (cpu_rq w i) (cpu_rq w' i).
Proof.
  unfold period_cpu. cbv zeta. rewrite no_share. cbn [negb andb].
  assert ((if negb (rt_runtime (cpu_rq w i) =? RUNTIME_INF) then on_rq_of w i (r_rt_runtime (b_runtime (def_rt_bandwidth w))) else w) = reset_limit w i) as ->.
  { unfold reset_limit. by destruct (_ =? _). }
  destruct (reset_limit_effect w i) as (F1 & E1 & R1). cbv zeta in *. set (w1 := reset_limit w i) in *. clearbody w1.
  injection E1 as Et Eq Em. pose proof (tf_rt _ _ _ F1) as Er. unfold rtq in Er. unfold after_round. cbv zeta. rewrite <- R1, <- Et, <- Eq, <- Em, <- Er.
  unfold rtq. set (q := cpu_rq w1 i) in *. destruct (Z.eqb_spec (rt_time q) 0) as [T0|T0]; cbn [negb andb orb]; rewrite ?orb_false_r.
  - destruct (Z.eqb_spec (rt_nr_running (rt q)) 0) as [N0|N0]; cbn [negb mbind option_bind].
    + eexists _, _, _. split_and!; [done|done|done..| |done|done]. by rewrite negb_involutive.
    + destruct (sched_rt_rq_enqueue_effect w1 i) as (F2 & E2 & Q2). cbv zeta in *. fold q in E2, Q2. destruct (rt_throttled q) eqn:Tq; cbn [negb].
      * eexists _, _, _. split_and!; try done.
      * eexists _, _, _. split; [done|]. injection E2 as E2 E3 E4. split; [by etransitivity|]. pose proof (tf_rt _ _ _ F2) as Er2. unfold rtq in Er2. fold q in Er2.
        split_and!; try done; try congruence. intros Hq. by rewrite Q2, Hq.
  - destruct (replenish_effect w1 i overrun) as (w2 & -> & F2 & E2). cbv zeta in *. cbn [mbind option_bind]. fold q in E2 |- *.
    set (t := rt_time q -u64 _) in *. destruct E2 as (E2 & E3 & E4 & E5). pose proof (tf_rt _ _ _ F2) as Er2. unfold rtq in Er2. fold q in Er2.
    destruct (rt_throttled q) eqn:Tq; cbn [andb negb orb] in *.
    + destruct (t <? rt_runtime q); cbn [negb] in *.
      * destruct (sched_rt_rq_enqueue_effect w2 i) as (F3 & E6 & Q3). cbv zeta in *. injection E6 as E6 E7 E8.
        pose proof (tf_rt _ _ _ F3) as Er3. unfold rtq in Er3.
        eexists _, _, _. split; [done|]. split; [by etransitivity; [|etransitivity]|]. split_and!; try congruence.
        -- intros Hq. by rewrite Q3, E4, Hq.
        -- intros _ _ Hn. rewrite Q3, E5, Er2, (proj2 (Z.eqb_neq _ _) Hn). by rewrite orb_true_r.
      * eexists _, _, _. split; [done|]. split; [by etransitivity|]. split_and!; try done; congruence.
    + eexists _, _, _. split; [done|]. split; [by etransitivity|]. split_and!; try done; congruence.
Qed.

Lemma period_loop_effect overrun i cpus : NoDup cpus -> forall w idle throttled,
  exists w' a e, period_loop w overrun cpus idle throttled = Some (w', a, e) /\
    def_rt_bandwidth w' = def_rt_bandwidth w /\ cpu_online_mask w' = cpu_online_mask w /\
    if bool_decide (i ∈ cpus) then after_round overrun (b_runtime (def_rt_bandwidth w)) (cpu_rq w i) (cpu_rq w' i)
    else cpu_rq w' i = cpu_rq w i.
Proof.
  induction 1 as [|x cpus Hx N IH]; intros w idle throttled; cbn [period_loop]; [by eexists _, _, _|].
  destruct (period_cpu_effect w x overrun idle throttled) as (w1 & a1 & e1 & -> & F1 & R1). cbn [mbind option_bind].
  destruct (IH w1 a1 e1) as (w2 & a2 & e2 & -> & B2 & O2 & R2). eexists _, _, _. split; [done|]. destruct F1 as [F1 _ F2 F3].
  split; [congruence|]. split; [congruence|]. rewrite F2 in R2. destruct (decide (x = i)) as [->|Hne].
  - rewrite bool_decide_eq_false_2 in R2 by done. rewrite bool_decide_eq_true_2 by left. by rewrite R2.
  - rewrite F1 in R2 by done. destruct (decide (i ∈ cpus)) as [Hi|Hi].
    + rewrite bool_decide_eq_true_2 in R2 by done. by rewrite bool_decide_eq_true_2 by (by right).
    + rewrite bool_decide_eq_false_2 in R2 by done. rewrite bool_decide_eq_false_2; [done|]. intros [?|?]%elem_of_cons; congruence.
Qed.

Lemma period_timer_effect w overrun i : cpu_ok i -> mask_test (cpu_online_mask w) i = true ->
  exists w' a, do_sched_rt_period_timer w overrun = Some (w', a) /\ def_rt_bandwidth w' = def_rt_bandwidth w /\
    cpu_online_mask w' = cpu_online_mask w /\ after_round overrun (b_runtime (def_rt_bandwidth w)) (cpu_rq w i) (cpu_rq w' i).
Proof.
  intros Hi Hm. unfold do_sched_rt_period_timer. destruct (period_loop_effect overrun i (mask_bits nr_cpu_ids (cpu_online_mask w))) with (w := w) (idle := true) (throttled := false)
    as (w1 & a & e & -> & B & O & R); [apply NoDup_ListNoDup, List.NoDup_filter, NoDup_ListNoDup, NoDup_seqZ|].
  rewrite bool_decide_eq_true_2 in R by (by apply list_elem_of_In, mask_bits_spec). cbn [mbind option_bind]. destruct (_ && _); by eexists _, _.
Qed.

(** The limit and the queue of a CPU during the periods: it is throttled with [t] still to
    pay, or it is back. *)
Definition paying (w : world) (i b t : Z) : Prop :=
  let q := cpu_rq w i in
  b_runtime (def_rt_bandwidth w) = b /\ mask_test (cpu_online_mask w) i = true /\ rt_runtime q <> RUNTIME_INF /\
  rt_nr_running (rt q) <> 0 /\ rt_throttled q = true /\ rt_time q = t.
Definition running (w : world) (i : Z) : Prop :=
  let q := cpu_rq w i in
  mask_test (cpu_online_mask w) i = true /\ rt_throttled q = false /\ rt_queued q = true.

Lemma running_kept w w' overrun b i : running w i -> cpu_online_mask w' = cpu_online_mask w ->
  after_round overrun b (cpu_rq w i) (cpu_rq w' i) -> running w' i.
Proof. intros (A1 & A2 & A3) O (_ & _ & _ & R4 & R5 & _). split_and!; [by rewrite O|by rewrite R4, A2|by apply R5]. Qed.

Lemma paying_step w w' b t i : paying w i b t -> 0 < b < two63 -> 0 < t < two64 -> def_rt_bandwidth w' = def_rt_bandwidth w ->
  cpu_online_mask w' = cpu_online_mask w -> after_round 1 b (cpu_rq w i) (cpu_rq w' i) ->
  if t <? 2 * b then running w' i else paying w' i b (t - b).
Proof.
  intros (A1 & A2 & A3 & A4 & A5 & A6) Hb Ht B O (R1 & R2 & R3 & R4 & R5 & R6).
  rewrite (proj2 (Z.eqb_neq _ _) A3) in R2, R3, R4, R6. rewrite A6, (proj2 (Z.eqb_neq t 0)) in R3, R4, R6 by lia. rewrite A5 in R4, R6. cbn [negb andb orb] in *.
  rewrite Z.mul_1_l, (u64_small b) in R3, R4, R6 by lia. rewrite u64_small in R3, R4, R6 by lia.
  destruct (Z.ltb_spec t (2 * b)) as [Hl|Hl].
  - destruct (Z.ltb_spec (t - Z.min t b) b) as [Hf|Hf]; [|lia]. split_and!; [by rewrite O|done|by apply R6].
  - destruct (Z.ltb_spec (t - Z.min t b) b) as [Hf|Hf]; [lia|]. split_and!; rewrite ?B, ?O, ?R1, ?R2; try done; [unfold RUNTIME_INF, U64_MAX; lia|].
    rewrite R3. lia.
Qed.

Lemma periods_pay_off i b n : cpu_ok i -> 0 < b < two63 -> forall w t idle,
  (running w i \/ (paying w i b t /\ 0 < t < two64 /\ t < (Z.of_nat n + 1) * b /\ n <> O)) ->
  exists w' a, period_timer_loop w (replicate n 1) idle = Some (w', a) /\ running w' i.
Proof.
  intros Hi Hb. induction n as [|n IH]; intros w t idle H; cbn [period_timer_loop replicate].
  { destruct H as [H|(_ & _ & _ & H)]; [by eexists _, _|done]. }
  assert (Hm : mask_test (cpu_online_mask w) i = true) by (destruct H as [(? & _)|((_ & ? & _) & _)]; done).
  destruct (period_timer_effect w 1 i Hi Hm) as (w1 & a & -> & B & O & R). cbn [mbind option_bind Z.eqb].
  destruct H as [H|(H & Ht & Hn & _)].
  - destruct (IH w1 t a) as (w2 & a2 & E & H2); [left; by eapply running_kept|]. by exists w2, a2.
  - pose proof H as (Eb & _). rewrite Eb in R. pose proof (paying_step w w1 b t i H Hb Ht B O R) as P. destruct (Z.ltb_spec t (2 * b)).
    + destruct (IH w1 t a) as (w2 & a2 & E & H2); [by left|]. by exists w2, a2.
    + destruct (IH w1 (t - b) a) as (w2 & a2 & E & H2); [right|by exists w2, a2]. split_and!; [done|lia..|]. intros ->. lia.
Qed.

End Runtime.

Section Throttling.
Context {pf : RtPlatform}.

(** C15: A throttled CPU gets its tasks back.  With the scheduler feature RT_RUNTIME_SHARE
    off, as it is by default, so that no CPU borrows runtime from another: when the class
    owes [t] on an online CPU with tasks and the limit is [b], the period timer ends the
    throttling after at most [n] periods for any positive [n] with [t < (n + 1) * b]; then
    the run queue is not throttled and its tasks are counted and picked again. *)
Theorem throttling_ends (w : world) (i b t : Z) (n : nat) : RT_RUNTIME_SHARE = false -> cpu_ok i -> 0 < b < two63 -> paying w i b t -> 0 < t < two64 ->
  t < (Z.of_nat n + 1) * b -> n <> O ->
  exists w' restart, sched_rt_period_timer w (replicate n 1) = Some (w', restart) /\ running w' i.
Proof.
  intros Hs Hi Hb H Ht Hn Hz. unfold sched_rt_period_timer. destruct (periods_pay_off Hs i b n Hi Hb w t false) as (w' & a & -> & R); [by right|].
  cbn [mbind option_bind]. eexists _, _. split; [done|]. by destruct a.
Qed.

End Throttling.

Section Sysctl.
Context {pf : RtPlatform}.

Lemma constraints_effect w : let w' := sched_rt_global_constraints w in
  (forall c, cpu_ok c -> rt_runtime (cpu_rq w' c) = global_rt_runtime w) /\ global_rt_runtime w' = global_rt_runtime w /\
  global_rt_period w' = global_rt_period w /\ sched_rt_global_validate w' = sched_rt_global_validate w /\
  sysctl_sched_rt_period w' = sysctl_sched_rt_period w /\ sysctl_sched_rt_runtime w' = sysctl_sched_rt_runtime w /\ task_of w' = task_of w.
Proof.
  unfold sched_rt_global_constraints.
  assert (H : forall l u, let u' := foldl (fun w i => on_rq_of w i (r_rt_runtime (global_rt_runtime w))) u l in
    sysctl_sched_rt_runtime u' = sysctl_sched_rt_runtime u /\ sysctl_sched_rt_period u' = sysctl_sched_rt_period u /\ task_of u' = task_of u /\
    forall c, rt_runtime (cpu_rq u' c) = if bool_decide (c ∈ l) then global_rt_runtime u else rt_runtime (cpu_rq u c)).
  { induction l as [|i l IH]; intros u; simpl; [done|]. destruct (IH (on_rq_of u i (r_rt_runtime (global_rt_runtime u)))) as (H1 & H2 & H0 & H3).
    split_and!; [done..|]. intros c. rewrite H3. change (global_rt_runtime (on_rq_of u i _)) with (global_rt_runtime u).
    destruct (decide (c ∈ l)) as [Hc|Hc]; [rewrite !bool_decide_eq_true_2 by (done || by right); done|]. rewrite (bool_decide_eq_false_2 (c ∈ l)) by done.
    simpl. unfold upd. destruct (Z.eqb_spec c i) as [->|Hne]; [by rewrite bool_decide_eq_true_2 by left|].
    rewrite bool_decide_eq_false_2; [done|]. intros [?|?]%elem_of_cons; done. }
  destruct (H (seqZ 0 nr_cpu_ids) w) as (H1 & H2 & H0 & H3). cbv zeta in *. set (w' := foldl _ w _) in *. clearbody w'.
  split_and!; unfold global_rt_runtime, global_rt_period, sched_rt_global_validate in *; rewrite ?H1, ?H2; try done.
  intros c Hc. rewrite H3, bool_decide_eq_true_2; [done|]. apply elem_of_seqZ. unfold cpu_ok in Hc. lia.
Qed.

(** A write to [sched_rt_period_us] or [sched_rt_runtime_us] takes effect as a whole or
    not at all: if a check fails, an error is returned and no state changes; otherwise the
    new values pass the validation and the limit of the class and of every CPU is derived
    from them. *)
Theorem rt_sysctl_all_or_nothing (w : world) (period runtime dl_validate : Z) :
  let (w', ret) := sched_rt_handler w period runtime dl_validate in
  if ret =? 0 then
    dl_validate = 0 /\ sched_rt_global_validate w' = 0 /\
    sysctl_sched_rt_period w' = period /\ sysctl_sched_rt_runtime w' = runtime /\
    rt_period (def_rt_bandwidth w') = global_rt_period w' /\ b_runtime (def_rt_bandwidth w') = global_rt_runtime w' /\
    (forall c, cpu_ok c -> rt_runtime (cpu_rq w' c) = global_rt_runtime w') /\ task_of w' = task_of w
  else w' = w.
Proof.
  unfold sched_rt_handler. cbv zeta. set (w1 := w_sysctl_sched_rt_runtime runtime _).
  destruct (Z.eqb_spec (sched_rt_global_validate w1) 0) as [V|V]; cbn [negb]; [|rewrite (proj2 (Z.eqb_neq _ _) V); by destruct w].
  destruct (Z.eqb_spec dl_validate 0) as [->|D]; cbn [negb]; [|rewrite (proj2 (Z.eqb_neq _ _) D); by destruct w].
  destruct (constraints_effect w1) as (H1 & H2 & H3 & H4 & H5 & H6 & H7). cbv zeta in *. set (w2 := sched_rt_global_constraints w1) in *. clearbody w2.
  cbn [Z.eqb]. unfold sched_rt_do_global. split_and!; try done; [by rewrite <- V, <- H4|]. intros c Hc. rewrite <- H2 in H1. by apply H1.
Qed.

End Sysctl.

Import Pair.

(** CPU 0 has used more than its limit of 950 ms. *)
Definition over_limit : world :=
  on_rq_of (fst (sched_rt_handler start 1000000 950000 0)) 0 (r_rt_time 960000000).

Lemma balance_runtime_conserves_witness : exists w', do_balance_runtime over_limit 0 = Some w' /\
  zsum (runtime_of w') [0; 1] = 1900000000.
Proof.
  destruct (balance_runtime_conserves over_limit 0) as (w' & H1 & H2 & _).
  - apply list_elem_of_In. vm_compute. by left.
  - vm_compute. by split.
  - intros i Hi. change (i ∈ [0; 1]) in Hi. rewrite !elem_of_cons, elem_of_nil in Hi. unfold limit_ok.
    destruct Hi as [->|[->|[]]]; vm_compute; (split; [by split|right; by split]).
  - by vm_compute.
  - exists w'. split; [exact H1|]. change [0; 1] with (mask_bits nr_cpu_ids (span (rdq over_limit 0))). rewrite H2. by vm_compute.
Defined.

(** CPU 0 is throttled and owes two seconds. *)
Definition throttled_world : world :=
  on_rq_of (after start busy) 0 (fun q => r_rt_queued false (r_rt_throttled true (r_rt_time 2000000000 q))).

Lemma throttling_ends_witness : exists w' restart,
  sched_rt_period_timer throttled_world [1; 1] = Some (w', restart) /\ running w' 0.
Proof.
  apply (throttling_ends (pf := pair) throttled_world 0 950000000 2000000000 2); [done|vm_compute; by split|lia| |lia|lia|done].
  vm_compute. by split_and!.
Defined.
End RtRuntime.
