(* ===== verification/RtRounds.v ===== *)
(** Rounds of the real-time class: the chain of interrupts over the overloaded CPUs of a
    root domain, and the rotation of the tasks of one priority by the tick. *)

From Stdlib Require Import ZArith Lia List Sorted.
From stdpp Require Import base list numbers option.
From S2P Require Import Prelude Plist Cpudl Cpupri Cbs Deadline Rt RtQueue RtInv RtOps RtMove RtHotplug RtHandlers RtEvents.

Module RtRounds.
Export RtEvents.
Import Cbs(RUNTIME_INF).
Import Deadline(SCHED_RR).

Local Notation del p := (List.filter (fun x : Z => negb (x =? p))).

Section Rounds.
Context {pf : RtPlatform} {laws : RtLaws pf}.

(** *** The chain of interrupts *)

(** The CPUs that [rto_next_cpu] hands the work to, call after call, until it ends the
    chain. *)
Fixpoint rto_chain (fuel : nat) (d : root_domain) : option (list Z) :=
  match fuel with
  | O => None
  | S fuel =>
      '(d, cpu) ← rto_next_cpu d;
      if cpu <? 0 then Some [] else l ← rto_chain fuel d; Some (cpu :: l)
  end.

Definition above (k mask : Z) : list Z := List.filter (fun i => k <? i) (mask_bits nr_cpu_ids mask).

Lemma filter_find (l : list Z) k : StronglySorted Z.lt l ->
  List.filter (fun i => k <? i) l =
    match List.find (fun i => k <? i) l with Some i => i :: List.filter (fun j => i <? j) l | None => [] end.
Proof.
  induction 1 as [|x l Hs IH Hx]; [done|]. simpl. destruct (Z.ltb_spec k x) as [Hk|Hk].
  - destruct (Z.ltb_spec x x); [lia|]. f_equal. apply filter_ext_in. intros y Hy%list_elem_of_In.
    rewrite list.Forall_forall in Hx. specialize (Hx y Hy). destruct (Z.ltb_spec k y), (Z.ltb_spec x y); lia || done.
  - rewrite IH. destruct (List.find (fun i => k <? i) l) as [i|] eqn:F; [|done]. apply find_some in F as [_ F%Z.ltb_lt].
    destruct (Z.ltb_spec i x); [lia|done].
Qed.

Lemma seqZ_sorted n : forall m, StronglySorted Z.lt (seqZ m (Z.of_nat n)).
Proof.
  induction n as [|n IH]; intros m; [constructor|]. rewrite seqZ_cons by lia. replace (Z.pred (Z.of_nat (S n))) with (Z.of_nat n) by lia.
  constructor; [apply IH|]. apply list.Forall_forall. intros x Hx%elem_of_seqZ. lia.
Qed.

Lemma filter_sorted (f : Z -> bool) l : StronglySorted Z.lt l -> StronglySorted Z.lt (List.filter f l).
Proof.
  induction 1 as [|x l Hs IH Hx]; simpl; [constructor|]. destruct (f x); [|done]. constructor; [done|].
  rewrite list.Forall_forall in *. intros y Hy. apply list_elem_of_In, filter_In in Hy as [Hy _]. apply Hx. by apply list_elem_of_In.
Qed.

Lemma mask_bits_sorted m : StronglySorted Z.lt (mask_bits nr_cpu_ids m).
Proof.
  apply filter_sorted. destruct (Z.le_gt_cases 0 nr_cpu_ids) as [H|H].
  - rewrite <- (Z2Nat.id nr_cpu_ids) by done. apply seqZ_sorted.
  - rewrite seqZ_nil by lia. constructor.
Qed.

Lemma cpumask_next_above k m :
  above k m = if cpumask_next k m <? nr_cpu_ids then cpumask_next k m :: above (cpumask_next k m) m else [].
Proof.
  unfold above, cpumask_next. rewrite filter_find by apply mask_bits_sorted.
  destruct (List.find _ _) as [i|] eqn:F; simpl; [|by rewrite Z.ltb_irrefl].
  apply find_some in F as [F _]. apply mask_bits_spec in F as [F _]. destruct (Z.ltb_spec i nr_cpu_ids); [done|lia].
Qed.

Lemma above_all m : above (-1) m = mask_bits nr_cpu_ids m.
Proof.
  unfold above. rewrite <- (filter_ext_in (fun _ => true)).
  - induction (mask_bits nr_cpu_ids m) as [|x l IH]; [done|]. simpl. by rewrite IH.
  - intros x Hx%mask_bits_spec. destruct (Z.ltb_spec (-1) x); [done|lia].
Qed.

(** What is still to visit. *)
Definition pending_cpus (d : root_domain) : list Z :=
  above (rto_cpu d) (rto_mask d) ++ (if rto_loop d =? rto_loop_next d then [] else mask_bits nr_cpu_ids (rto_mask d)).

Lemma rto_next_pending d : exists d' cpu, rto_next_cpu d = Some (d', cpu) /\
  (rto_mask d', rto_loop_next d') = (rto_mask d, rto_loop_next d) /\
  match pending_cpus d with
  | [] => cpu = -1 /\ rto_cpu d' = -1 /\ rto_loop d' = rto_loop_next d
  | i :: l => cpu = i /\ 0 <= i /\ pending_cpus d' = l
  end.
Proof.
  assert (Pos : forall k m, cpumask_next k m < nr_cpu_ids -> 0 <= cpumask_next k m) by (intros k m H; by apply cpumask_next_ok in H as [? _]).
  unfold rto_next_cpu, pending_cpus. cbn [rto_next_loop]. rewrite cpumask_next_above. set (i := cpumask_next (rto_cpu d) (rto_mask d)).
  destruct (Z.ltb_spec i nr_cpu_ids) as [Hi|Hi]; simpl.
  { eexists _, _. split; [done|]. split_and!; try done. by apply Pos. }
  destruct (Z.eqb_spec (rto_loop d) (rto_loop_next d)) as [E|E]; simpl; [by eexists _, _|].
  rewrite <- above_all, cpumask_next_above. set (j := cpumask_next (-1) (rto_mask d)).
  destruct (Z.ltb_spec j nr_cpu_ids) as [Hj|Hj]; simpl; [|rewrite Z.eqb_refl; by eexists _, _].
  eexists _, _. split; [done|]. split_and!; try done; [by apply Pos|]. simpl. by rewrite Z.eqb_refl, app_nil_r.
Qed.

(** C29: The chain of interrupts of a root domain visits every overloaded CPU and ends: with
    an unchanged mask the calls of [rto_next_cpu] hand the work to the CPUs of the mask above
    the current one in ascending order, start over once if a CPU asked for a scan meanwhile,
    and then report the end. *)
Theorem rto_chain_visits_all (d : root_domain) (fuel : nat) : (length (pending_cpus d) < fuel)%nat ->
  rto_chain fuel d = Some (pending_cpus d).
Proof.
  revert d. induction fuel as [|fuel IH]; intros d Hl; [lia|]. cbn [rto_chain].
  destruct (rto_next_pending d) as (d' & cpu & -> & _ & H). cbn [mbind option_bind]. destruct (pending_cpus d) as [|i l].
  - by destruct H as (-> & _).
  - destruct H as (-> & Hi & <-). destruct (Z.ltb_spec i 0); [lia|]. rewrite IH; [done|]. simpl in Hl. lia.
Qed.

(** *** Round robin *)

Definition slices (w w' : world) : Prop :=
  (forall x, time_slice (task_of w' x) = time_slice (task_of w x)) /\ sched_rr_timeslice w' = sched_rr_timeslice w.

#[export] Instance slices_preorder : PreOrder slices.
Proof. split; [done|]. intros a b c [A1 A2] [B1 B2]. split; [intros x; rewrite B1; apply A1|congruence]. Qed.

Lemma slices_on_task w p f : (forall t, time_slice (f t) = time_slice t) -> slices w (on_task w p f).
Proof. intros H. split; [|done]. intros x. simpl. unfold upd. destruct (Z.eqb_spec x p) as [->|]; [apply H|done]. Qed.

Lemma borrow_loop_slices c weight period cpus : forall w w', borrow_loop w c weight period cpus = Some w' -> slices w w'.
Proof.
  induction cpus as [|i cpus IH]; intros w w'; cbn [borrow_loop]; [by intros [= ->]|]. cbv zeta. destruct (_ || _); [apply IH|].
  destruct (_ <? _); [|apply IH]. destruct (_ =? 0); [done|]. set (d := if _ <? _ then _ else _). set (w2 := on_rq_of (on_rq_of w i _) c _).
  assert (S2 : slices w w2) by done. clearbody w2. destruct (_ =? period); [by intros [= <-]|]. intros E. etransitivity; [done|by apply IH].
Qed.

Lemma balance_runtime_slices w c w' : balance_runtime w c = Some w' -> slices w w'.
Proof.
  unfold balance_runtime, do_balance_runtime. destruct (negb _); [by intros [= <-]|]. destruct (_ <? _); [apply borrow_loop_slices|by intros [= <-]].
Qed.

Lemma exceeded_slices w c w' b : sched_rt_runtime_exceeded w c = Some (w', b) -> slices w w'.
Proof.
  unfold sched_rt_runtime_exceeded. cbv zeta. destruct (rt_throttled _); [by intros [= <- _]|]. destruct (_ <=? _); [by intros [= <- _]|].
  destruct (balance_runtime w c) as [w1|] eqn:E; [|done]. apply balance_runtime_slices in E. cbn [mbind option_bind].
  destruct (_ =? RUNTIME_INF); [by intros [= <- _]|]. destruct (_ <? _); [|by intros [= <- _]].
  set (w2 := if negb _ then _ else _).
  assert (S2 : slices w w2) by (etransitivity; [exact E|]; unfold w2; by destruct (negb _)). clearbody w2.
  destruct (rt_throttled _); [|by intros [= <- _]]. unfold sched_rt_rq_dequeue, dequeue_top_rt_rq.
  destruct (negb _); cbn [mbind option_bind]; [by intros [= <- _]|]. destruct (_ =? 0); cbn [mbind option_bind]; [done|].
  intros [= <- _]. etransitivity; [exact S2|done].
Qed.

Lemma update_curr_slices w c w' : update_curr_rt w c = Some w' -> slices w w'.
Proof.
  unfold update_curr_rt. cbv zeta. destruct (negb _); [by intros [= <-]|]. destruct (_ <=? 0); [by intros [= <-]|].
  set (w1 := on_task w _ _). assert (S1 : slices w w1) by (by apply slices_on_task). clearbody w1.
  destruct (negb _); [by intros [= <-]|]. destruct (_ =? RUNTIME_INF); [by intros [= <-]|]. set (w2 := on_rq_of w1 _ _).
  assert (S2 : slices w w2) by (etransitivity; [done|done]). clearbody w2. set (i := cpu _).
  destruct (sched_rt_runtime_exceeded w2 i) as [[w3 b]|] eqn:E; [|done]. apply exceeded_slices in E. cbn [mbind option_bind].
  intros [= <-]. etransitivity; [exact S2|]. etransitivity; [exact E|]. destruct b; [|done].
  transitivity (resched_curr w3 c); [by apply slices_on_task|]. unfold do_start_rt_bandwidth. by destruct (rt_period_active _).
Qed.

Lemma requeue_effect w p : inv w -> on_rt_rq (task_of w p) = true -> let c := cpu (task_of w p) in
  exists w', requeue_task_rt w p false = Some w' /\ (forall x, task_of w' x = task_of w x) /\ (forall x, curr (cpu_rq w' x) = curr (cpu_rq w x)) /\
    forall i, aref (queue (rtq w' c)) i =
      if i =? prio (task_of w p) then (fun l => del p l ++ [p]) <$> aref (queue (rtq w c)) i else aref (queue (rtq w c)) i.
Proof.
  intros I On c. pose proof (queued_listed w p I On) as Lp. fold c in Lp. pose proof Lp as (l & Hl & Hp).
  unfold requeue_task_rt, requeue_rt_entity. rewrite On. fold c. cbv zeta. rewrite aref_list_del, Hl. cbn [fmap option_fmap option_map mbind option_bind].
  rewrite aset_lt by (rewrite length_list_del; by eapply aref_Some_range). cbn [mbind option_bind]. eexists. split; [done|]. split; [done|].
  split; [intros x; rewrite rq_on_rt; by destruct (Z.eqb_spec x c) as [->|]|]. intros i. rewrite rtq_on_rt_eq. cbn [queue q_queue].
  destruct (Z.le_gt_cases 0 i) as [Hi|Hi]; [|unfold aref; destruct (Z.leb_spec 0 i); [lia|by destruct (_ =? _)]].
  rewrite aref_insert by (done || (rewrite length_list_del; by eapply aref_Some_range)). destruct (Z.eqb_spec i (prio (task_of w p))) as [->|Hne]; [by rewrite Hl|].
  rewrite aref_list_del. destruct (aref (queue (rtq w c)) i) as [l'|] eqn:E; [|done]. simpl. f_equal. apply del_notin. intros Hin.
  pose proof (ok_arr _ _ _ (g_rt _ _ I c (g_cpu _ _ I p))) as A. destruct (proj1 (arr_mem _ _ _ A p i)) as (_ & _ & H); [by exists l'|]. done.
Qed.

Lemma has_list_mates_spec w p l : inv w -> let c := cpu (task_of w p) in aref (queue (rtq w c)) (prio (task_of w p)) = Some l -> p ∈ l ->
  has_list_mates p (rtq w c) = (1 <? length l)%nat.
Proof.
  intros I c Hl Hp. pose proof (ok_arr _ _ _ (g_rt _ _ I c (g_cpu _ _ I p))) as A. unfold has_list_mates.
  assert (Hex : forall m : list Z, existsb (Z.eqb p) m = true <-> p ∈ m).
  { intros m. rewrite existsb_exists. setoid_rewrite Z.eqb_eq. rewrite list_elem_of_In. split; [intros (x & ? & ->); done|eauto]. }
  destruct (List.find _ (queue (rtq w c))) as [m|] eqn:F.
  - apply find_some in F as [Hm Hpm%Hex]. apply list_elem_of_In, list_elem_of_lookup in Hm as [k Hk].
    assert (Lk : aref (queue (rtq w c)) (Z.of_nat k) = Some m).
    { unfold aref. destruct (Z.leb_spec 0 (Z.of_nat k)); [|lia]. by rewrite Nat2Z.id. }
    destruct (proj1 (arr_mem _ _ _ A p (Z.of_nat k))) as (_ & _ & E); [by exists m|]. unfold keys in E. simpl in E. rewrite E, Lk in Hl. by injection Hl as ->.
  - assert (Hin : In l (queue (rtq w c))).
    { unfold aref in Hl. destruct (0 <=? _); [|done]. apply list_elem_of_In. by eapply list_elem_of_lookup_2. }
    pose proof (find_none _ _ F l Hin) as E. apply Hex in Hp. congruence.
Qed.

(** The tick rotates the tasks of one priority: it changes no list unless the running
    task has policy SCHED_RR and uses up its slice; then the slice is refilled, the task goes
    to the tail of its list behind all others, whose order is kept, and if there are
    others the CPU is told to reschedule. *)
Theorem rt_tick_round_robin (w : world) (c soft hard jiffies : Z) : reachable w -> cpu_ok c ->
  let p := curr (cpu_rq w c) in let t := task_of w p in queued_on w c p ->
  let expired := (policy t =? SCHED_RR) && (u32 (time_slice t - 1) =? 0) in
  exists w' l, task_tick_rt w c p soft hard jiffies = Some w' /\ aref (queue (rtq w c)) (prio t) = Some l /\
    (forall i, aref (queue (rtq w' c)) i = if expired && (i =? prio t) then Some (del p l ++ [p]) else aref (queue (rtq w c)) i) /\
    time_slice (task_of w' p) = (if expired then u32 (sched_rr_timeslice w)
       else if policy t =? SCHED_RR then u32 (time_slice t - 1) else time_slice t) /\
    (expired = true -> (1 < length l)%nat -> need_resched (task_of w' p) = true).
Proof.
  intros R Hc p t Qp expired. pose proof (rt_reachable_inv w R) as I. apply queued_on_spec in Qp as [On Cp]; [|done]. fold t in On, Cp.
  pose proof (queued_listed w p I On) as (l & Hl & Hp). fold t in Hl. rewrite Cp in Hl.
  unfold task_tick_rt. destruct (update_curr_rt_quiet None w c I) as (w1 & E1 & Q1). pose proof (update_curr_slices w c w1 E1) as S1.
  rewrite E1. cbn [mbind option_bind]. cbv zeta. set (w2 := on_task w1 p (watchdog soft hard jiffies)).
  assert (W : forall u, tkeep (watchdog soft hard jiffies u) = tkeep u /\ time_slice (watchdog soft hard jiffies u) = time_slice u).
  { intros u. unfold watchdog. destruct (_ =? RLIM_INFINITY); [done|]. destruct (watchdog_stamp u =? jiffies); by destruct (_ <? _). }
  assert (Q2 : quiet w w2) by (etransitivity; [exact Q1|apply quiet_on_task; intros; apply W]).
  assert (S2 : slices w w2) by (etransitivity; [exact S1|apply slices_on_task; intros; apply W]). clearbody w2. clear w1 E1 Q1 S1 W.
  assert (P2 : policy (task_of w2 p) = policy t) by (pose proof (fr_task _ _ (quiet_fr _ _ Q2) p) as H; by injection H).
  rewrite P2. unfold expired. destruct (policy t =? SCHED_RR); cbn [negb andb]; cycle 1.
  { exists w2, l. split_and!; try done; [intros i; by rewrite (quiet_rtq _ _ c Q2)|apply S2]. }
  set (w3 := on_task w2 p _). assert (T3 : time_slice (task_of w3 p) = u32 (time_slice t - 1)).
  { unfold w3. simpl. rewrite upd_eq. simpl. by rewrite (proj1 S2). }
  assert (Q3 : quiet w w3) by (etransitivity; [exact Q2|by apply quiet_on_task]). assert (S3 : sched_rr_timeslice w3 = sched_rr_timeslice w) by apply S2.
  clearbody w3. rewrite T3. destruct (u32 (time_slice t - 1) =? 0); cbn [negb]; cycle 1.
  { exists w3, l. split_and!; try done. intros i. by rewrite (quiet_rtq _ _ c Q3). }
  set (w4 := on_task w3 p _). assert (T4 : time_slice (task_of w4 p) = u32 (sched_rr_timeslice w)) by (unfold w4; simpl; rewrite upd_eq; simpl; by rewrite S3).
  assert (Q4 : quiet w w4) by (etransitivity; [exact Q3|by apply quiet_on_task]). clearbody w4. pose proof (rt_quiet_inv _ _ Q4 I) as I4.
  assert (C4 : cpu (task_of w4 p) = c) by (by rewrite (fr_cpu _ _ p (quiet_fr _ _ Q4))). assert (Hl4 := Hl).
  rewrite <- (quiet_rtq _ _ c Q4), <- C4 in Hl4. unfold t in Hl4. rewrite <- (fr_prio _ _ p (quiet_fr _ _ Q4)) in Hl4.
  rewrite (has_list_mates_spec w4 p l I4 Hl4 Hp). destruct (Nat.ltb_spec 1 (length l)) as [Hm|Hm].
  - destruct (requeue_effect w4 p I4) as (w5 & -> & T5 & Cu5 & E5); [by rewrite (quiet_on _ _ p Q4)|]. cbn [mbind option_bind]. rewrite C4 in E5.
    exists (resched_curr w5 c), l. split_and!; [done|done|..].
    + intros i. rewrite (quiet_rtq _ _ c (quiet_resched w5 c)), E5, (quiet_rtq _ _ c Q4), (fr_prio _ _ p (quiet_fr _ _ Q4)). fold t.
      destruct (Z.eqb_spec i (prio t)) as [->|]; [|done]. by rewrite Hl.
    + unfold resched_curr. simpl. rewrite Cu5, (quiet_rest _ _ c Q4). fold p. rewrite upd_eq. simpl. by rewrite T5.
    + intros _ _. unfold resched_curr. simpl. rewrite Cu5, (quiet_rest _ _ c Q4). fold p. by rewrite upd_eq.
  - exists w4, l. split_and!; [done|done| |done|lia]. intros i. rewrite (quiet_rtq _ _ c Q4). destruct (Z.eqb_spec i (prio t)) as [->|]; [|done].
    rewrite Hl. f_equal. destruct l as [|x [|y l]]; [by apply elem_of_nil in Hp| |simpl in Hm; lia]. apply elem_of_cons in Hp as [<-|Hp]; [|by apply elem_of_nil in Hp].
    simpl. by rewrite Z.eqb_refl.
Qed.

End Rounds.

Import Pair.

Lemma rto_chain_visits_all_witness :
  rto_chain 5 (mk_rd 3 (Cpupri.cpupri_fresh 2 3) false 3 2 0 (-1) 1 0 None) = Some [0; 1; 0; 1].
Proof. rewrite rto_chain_visits_all; [by vm_compute|vm_compute; lia]. Defined.

Lemma rt_tick_round_robin_witness : exists w', task_tick_rt (after start alone) 0 1 RLIM_INFINITY RLIM_INFINITY 0 = Some w' /\
  aref (queue (rtq w' 0)) 10 = Some [2; 1] /\ time_slice (task_of w' 1) = 10 /\ need_resched (task_of w' 1) = true.
Proof.
  destruct (rt_tick_round_robin (after start alone) 0 RLIM_INFINITY RLIM_INFINITY 0 alone_reachable) as (w' & l & H1 & H2 & H3 & H4 & H5);
    [by split|by vm_compute|].
  assert (E : l = [1; 2]) by (vm_compute in H2; congruence). subst l.
  assert (Ep : curr (cpu_rq (after start alone) 0) = 1) by (by vm_compute). rewrite Ep in H1, H2, H3, H4, H5.
  exists w'. split; [exact H1|]. split; [rewrite H3; by vm_compute|]. split; [rewrite H4; by vm_compute|].
  apply H5; [by vm_compute|simpl; lia].
Defined.
End RtRounds.
