(* ===== verification/Pelt.v ===== *)
(** Per-entity load tracking: [kernel/sched/pelt.c], [pelt.h] and
    [sched-pelt.h].

    Every scheduling entity and run queue keeps geometric sums of the time it was
    loaded, runnable and running, in periods of 1024us, decayed by [y] per period
    with [y^32 = 1/2], and averages derived from the sums.  The file models the
    arithmetic at its machine widths and proves what the rest of the scheduler
    relies on: the decay is a bounded, monotone approximation, the sums never wrap
    and stay below their documented ceilings (with the rounding error made
    explicit), and the averages follow. *)

From Stdlib Require Import ZArith Lia List.
From stdpp Require Import base list numbers option.
From S2P Require Import Prelude.

Module Pelt.

Definition LOAD_AVG_PERIOD : Z := 32.
Definition LOAD_AVG_MAX : Z := 47742.
Definition PELT_MIN_DIVIDER : Z := LOAD_AVG_MAX - 1024.
Definition SCHED_CAPACITY_SHIFT : Z := 10.
Definition UTIL_AVG_UNCHANGED : Z := 0x80000000.

Definition runnable_avg_yN_inv : list Z :=
  [ 0xffffffff; 0xfa83b2da; 0xf5257d14; 0xefe4b99a; 0xeac0c6e6; 0xe5b906e6;
    0xe0ccdeeb; 0xdbfbb796; 0xd744fcc9; 0xd2a81d91; 0xce248c14; 0xc9b9bd85;
    0xc5672a10; 0xc12c4cc9; 0xbd08a39e; 0xb8fbaf46; 0xb504f333; 0xb123f581;
    0xad583ee9; 0xa9a15ab4; 0xa5fed6a9; 0xa2704302; 0x9ef5325f; 0x9b8d39b9;
    0x9837f050; 0x94f4efa8; 0x91c3d373; 0x8ea4398a; 0x8b95c1e3; 0x88980e80;
    0x85aac367; 0x82cd8698 ].

(** [struct sched_avg], with the one field of [util_est] that PELT touches. *)
Record sched_avg := mk_avg {
  last_update_time : Z;
  load_sum : Z;
  runnable_sum : Z;
  util_sum : Z;
  period_contrib : Z;
  load_avg : Z;
  runnable_avg : Z;
  util_avg : Z;
  util_est_enqueued : Z
}.

Definition zero_avg : sched_avg := mk_avg 0 0 0 0 0 0 0 0 0.

Definition with_time (sa : sched_avg) (t : Z) : sched_avg :=
  mk_avg t (load_sum sa) (runnable_sum sa) (util_sum sa) (period_contrib sa)
    (load_avg sa) (runnable_avg sa) (util_avg sa) (util_est_enqueued sa).
Definition with_sums (sa : sched_avg) (l r u pc : Z) : sched_avg :=
  mk_avg (last_update_time sa) l r u pc
    (load_avg sa) (runnable_avg sa) (util_avg sa) (util_est_enqueued sa).
Definition with_avgs (sa : sched_avg) (l r u : Z) : sched_avg :=
  mk_avg (last_update_time sa) (load_sum sa) (runnable_sum sa) (util_sum sa)
    (period_contrib sa) l r u (util_est_enqueued sa).
Definition with_enqueued (sa : sched_avg) (e : Z) : sched_avg :=
  mk_avg (last_update_time sa) (load_sum sa) (runnable_sum sa) (util_sum sa)
    (period_contrib sa) (load_avg sa) (runnable_avg sa) (util_avg sa) e.

(** ** Decay and accumulation *)

(** [include/linux/math64.h], with 128-bit intermediate product. *)
Definition mul_u64_u32_shr (a mul shift : Z) : Z := u64 (Z.shiftr (a * mul) shift).

Definition yN_inv (n : Z) : Z := nth (Z.to_nat n) runnable_avg_yN_inv 0.

Definition decay_load (val n : Z) : Z :=
  if LOAD_AVG_PERIOD * 63 <? n then 0
  else
    let local_n := u32 n in
    let '(val, local_n) :=
      if LOAD_AVG_PERIOD <=? local_n
      then (Z.shiftr val (local_n / LOAD_AVG_PERIOD), local_n mod LOAD_AVG_PERIOD)
      else (val, local_n) in
    mul_u64_u32_shr val (yN_inv local_n) 32.

Definition __accumulate_pelt_segments (periods d1 d3 : Z) : Z :=
  let c3 := d3 in
  let c1 := u32 (decay_load d1 periods) in
  let c2 := u32 (LOAD_AVG_MAX - decay_load LOAD_AVG_MAX periods - 1024) in
  c1 +u32 c2 +u32 c3.

(** The new sums and the number of period boundaries crossed. *)
Definition accumulate_sum (delta : Z) (sa : sched_avg) (load runnable running : Z)
  : Z * sched_avg :=
  let contrib := u32 delta in
  let delta := delta +u64 period_contrib sa in
  let periods := delta / 1024 in
  let '(l, r, u, delta, contrib) :=
    if z2b periods then
      let delta := delta mod 1024 in
      (decay_load (load_sum sa) periods,
       decay_load (runnable_sum sa) periods,
       u32 (decay_load (util_sum sa) periods),
       delta,
       if z2b load
       then __accumulate_pelt_segments periods (1024 -u32 period_contrib sa) (u32 delta)
       else contrib)
    else (load_sum sa, runnable_sum sa, util_sum sa, delta, contrib) in
  let l := if z2b load then l +u64 load * contrib else l in
  let r := if z2b runnable
           then r +u64 Z.shiftl (runnable * contrib) SCHED_CAPACITY_SHIFT else r in
  let u := if z2b running
           then u +u32 Z.shiftl contrib SCHED_CAPACITY_SHIFT else u in
  (u32 periods, with_sums sa l r u (u32 delta)).

Definition ___update_load_sum (now : Z) (sa : sched_avg) (load runnable running : Z)
  : Z * sched_avg :=
  let delta := now -u64 last_update_time sa in
  if s64 delta <? 0 then (0, with_time sa now)
  else
    let delta := Z.shiftr delta 10 in
    if delta =? 0 then (0, sa)
    else
      let sa := with_time sa (last_update_time sa +u64 Z.shiftl delta 10) in
      let '(runnable, running) := if z2b load then (runnable, running) else (0, 0) in
      let '(periods, sa) := accumulate_sum delta sa load runnable running in
      if z2b periods then (1, sa) else (0, sa).

Definition get_pelt_divider (sa : sched_avg) : Z := u32 (PELT_MIN_DIVIDER + period_contrib sa).

Definition ___update_load_avg (sa : sched_avg) (load : Z) : sched_avg :=
  let divider := get_pelt_divider sa in
  with_avgs sa (u64 (load * load_sum sa) / divider) (runnable_sum sa / divider)
    (util_sum sa / divider).

(** [sched_feat(UTIL_EST)] is on by default. *)
Definition cfs_se_util_change (UTIL_EST : bool) (sa : sched_avg) : sched_avg :=
  if negb UTIL_EST then sa
  else
    let enqueued := util_est_enqueued sa in
    if Z.land enqueued UTIL_AVG_UNCHANGED =? 0 then sa
    else with_enqueued sa (Z.land enqueued (two32 - 1 - UTIL_AVG_UNCHANGED)).

(** ** Entities and run queues *)

Definition scale_load_down (w : Z) : Z :=
  if w =? 0 then 0 else Z.max 2 (Z.shiftr w 10).

(** What PELT reads and writes of a [struct sched_entity]; [is_task] is
    [entity_is_task(se)]. *)
Record entity := mk_entity {
  se_avg : sched_avg;
  se_load_weight : Z;
  se_on_rq : Z;
  se_is_task : bool;
  se_runnable_weight : Z
}.

Definition se_with_avg (se : entity) (sa : sched_avg) : entity :=
  mk_entity sa (se_load_weight se) (se_on_rq se) (se_is_task se) (se_runnable_weight se).

Definition se_weight (se : entity) : Z := scale_load_down (se_load_weight se).

Definition se_runnable (se : entity) : Z :=
  if se_is_task se then b2z (z2b (se_on_rq se)) else se_runnable_weight se.

Definition __update_load_avg_blocked_se (now : Z) (se : entity) : Z * entity :=
  let '(ret, sa) := ___update_load_sum now (se_avg se) 0 0 0 in
  if z2b ret then (1, se_with_avg se (___update_load_avg sa (se_weight se)))
  else (0, se_with_avg se sa).

(** [is_curr] is [cfs_rq->curr == se]. *)
Definition __update_load_avg_se (UTIL_EST : bool) (now : Z) (is_curr : bool) (se : entity)
  : Z * entity :=
  let '(ret, sa) := ___update_load_sum now (se_avg se) (b2z (z2b (se_on_rq se)))
                      (se_runnable se) (b2z is_curr) in
  if z2b ret then
    let sa := ___update_load_avg sa (se_weight se) in
    (1, se_with_avg se (cfs_se_util_change UTIL_EST sa))
  else (0, se_with_avg se sa).

(** A [struct cfs_rq]: its signal, [load.weight], [h_nr_running], whether [curr]
    is set, and the throttling clocks. *)
Record pelt_cfs_rq := mk_cfs_rq {
  cfs_avg : sched_avg;
  cfs_load_weight : Z;
  h_nr_running : Z;
  has_curr : bool;
  throttle_count : Z;
  throttled_clock_pelt : Z;
  throttled_clock_pelt_time : Z;
  throttled_pelt_idle : Z
}.

Definition cfs_with_avg (cfs : pelt_cfs_rq) (sa : sched_avg) : pelt_cfs_rq :=
  mk_cfs_rq sa (cfs_load_weight cfs) (h_nr_running cfs) (has_curr cfs)
    (throttle_count cfs) (throttled_clock_pelt cfs) (throttled_clock_pelt_time cfs)
    (throttled_pelt_idle cfs).

Definition __update_load_avg_cfs_rq (now : Z) (cfs : pelt_cfs_rq) : Z * pelt_cfs_rq :=
  let '(ret, sa) := ___update_load_sum now (cfs_avg cfs)
                      (scale_load_down (cfs_load_weight cfs)) (h_nr_running cfs)
                      (b2z (has_curr cfs)) in
  if z2b ret then (1, cfs_with_avg cfs (___update_load_avg sa 1))
  else (0, cfs_with_avg cfs sa).

(** [update_rt_rq_load_avg] on [rq->avg_rt] and [update_dl_rq_load_avg] on
    [rq->avg_dl]. *)
Definition update_rt_rq_load_avg (now : Z) (avg_rt : sched_avg) (running : Z)
  : Z * sched_avg :=
  let '(ret, sa) := ___update_load_sum now avg_rt running running running in
  if z2b ret then (1, ___update_load_avg sa 1) else (0, sa).

Definition update_dl_rq_load_avg (now : Z) (avg_dl : sched_avg) (running : Z)
  : Z * sched_avg :=
  let '(ret, sa) := ___update_load_sum now avg_dl running running running in
  if z2b ret then (1, ___update_load_avg sa 1) else (0, sa).

(** The third use of [capacity] is converted to [int]. *)
Definition update_thermal_load_avg (now : Z) (avg_thermal : sched_avg) (capacity : Z)
  : Z * sched_avg :=
  let '(ret, sa) := ___update_load_sum now avg_thermal capacity capacity (s32 capacity) in
  if z2b ret then (1, ___update_load_avg sa 1) else (0, sa).

Definition cap_scale (v s : Z) : Z := Z.shiftr (u64 (v * s)) SCHED_CAPACITY_SHIFT.

(** [clock] is [rq->clock]; [freq_cap] and [cpu_cap] are
    [arch_scale_freq_capacity] and [arch_scale_cpu_capacity] of the CPU. *)
Definition update_irq_load_avg (freq_cap cpu_cap clock : Z) (avg_irq : sched_avg)
    (running : Z) : Z * sched_avg :=
  let running := cap_scale running freq_cap in
  let running := cap_scale running cpu_cap in
  let '(ret1, sa) := ___update_load_sum (clock -u64 running) avg_irq 0 0 0 in
  let '(ret2, sa) := ___update_load_sum clock sa 1 1 1 in
  let ret := ret1 + ret2 in
  if z2b ret then (ret, ___update_load_avg sa 1) else (ret, sa).

(** ** The PELT clock of a run queue *)

Record pelt_rq := mk_rq {
  clock : Z;
  clock_task : Z;
  clock_pelt : Z;
  lost_idle_time : Z;
  clock_idle : Z;
  clock_pelt_idle : Z
}.

Definition rq_clock_pelt (rq : pelt_rq) : Z := clock_pelt rq -u64 lost_idle_time rq.

Definition _update_idle_rq_clock_pelt (rq : pelt_rq) : pelt_rq :=
  let cp := clock_task rq in
  mk_rq (clock rq) (clock_task rq) cp (lost_idle_time rq) (clock rq)
    (cp -u64 lost_idle_time rq).

Definition update_rq_clock_pelt (freq_cap cpu_cap : Z) (curr_is_idle : bool)
    (rq : pelt_rq) (delta : Z) : pelt_rq :=
  if curr_is_idle then _update_idle_rq_clock_pelt rq
  else
    let delta := s64 (cap_scale delta cpu_cap) in
    let delta := s64 (cap_scale delta freq_cap) in
    mk_rq (clock rq) (clock_task rq) (clock_pelt rq +u64 delta) (lost_idle_time rq)
      (clock_idle rq) (clock_pelt_idle rq).

(** The three [util_sum] arguments are those of [cfs.avg], [avg_rt] and
    [avg_dl]. *)
Definition update_idle_rq_clock_pelt (cfs_util rt_util dl_util : Z) (rq : pelt_rq)
  : pelt_rq :=
  let divider :=
    u32 (Z.shiftl (LOAD_AVG_MAX - 1024) SCHED_CAPACITY_SHIFT - LOAD_AVG_MAX) in
  let sum := cfs_util +u32 rt_util +u32 dl_util in
  let rq :=
    if divider <=? sum
    then mk_rq (clock rq) (clock_task rq) (clock_pelt rq)
           (lost_idle_time rq +u64 (clock_task rq -u64 clock_pelt rq))
           (clock_idle rq) (clock_pelt_idle rq)
    else rq in
  _update_idle_rq_clock_pelt rq.

Definition update_idle_cfs_rq_clock_pelt (cfs : pelt_cfs_rq) : pelt_cfs_rq :=
  let throttled :=
    if z2b (throttle_count cfs) then U64_MAX else throttled_clock_pelt_time cfs in
  mk_cfs_rq (cfs_avg cfs) (cfs_load_weight cfs) (h_nr_running cfs) (has_curr cfs)
    (throttle_count cfs) (throttled_clock_pelt cfs) (throttled_clock_pelt_time cfs)
    throttled.

Definition cfs_rq_clock_pelt (rq : pelt_rq) (cfs : pelt_cfs_rq) : Z :=
  if z2b (throttle_count cfs)
  then throttled_clock_pelt cfs -u64 throttled_clock_pelt_time cfs
  else rq_clock_pelt rq -u64 throttled_clock_pelt_time cfs.

(** ** The decay *)

Lemma yN_inv_range i : 0 <= i < 32 -> two31 < yN_inv i < two32.
Proof.
  intros Hi.
  assert (H : (two31 <? yN_inv i) && (yN_inv i <? two32) = true)
    by (apply (forallb_range (fun i => (two31 <? yN_inv i) && (yN_inv i <? two32)) 0 32);
        [vm_compute; reflexivity|lia]).
  zcase. lia.
Qed.

(** The shift and the factor of the table for [n] periods. *)
Definition decay_exact (val n : Z) : Z :=
  val / 2 ^ (n / 32) * yN_inv (n mod 32) / two32.

Lemma decay_exact_bounds val n : 0 <= val -> 0 <= n -> 0 <= decay_exact val n <= val.
Proof.
  intros Hv Hn. unfold decay_exact.
  pose proof (yN_inv_range (n mod 32) (Z.mod_pos_bound n 32 ltac:(lia))).
  assert (0 < 2 ^ (n / 32)) by (apply Z.pow_pos_nonneg; [lia|apply Z.div_pos; lia]).
  assert (0 <= val / 2 ^ (n / 32) <= val).
  { split; [apply Z.div_pos; lia|]. apply Z.div_le_upper_bound; nia. }
  split; [apply Z.div_pos; nia|]. apply Z.div_le_upper_bound; nia.
Qed.

Lemma decay_load_eq val n :
  0 <= val < two64 -> 0 <= n ->
  decay_load val n = if 2016 <? n then 0 else decay_exact val n.
Proof.
  intros Hv Hn. unfold decay_load. change (LOAD_AVG_PERIOD * 63) with 2016.
  destruct (Z.ltb_spec 2016 n); [done|].
  rewrite (u32_small n) by lia. unfold LOAD_AVG_PERIOD.
  assert (E : forall v m, 0 <= v -> v * yN_inv m / two32 <= val -> 0 <= m < 32 ->
                mul_u64_u32_shr v (yN_inv m) 32 = v * yN_inv m / two32).
  { intros v m Hv' Hle Hm. unfold mul_u64_u32_shr. rewrite Z.shiftr_div_pow2 by lia.
    change (2 ^ 32) with two32. pose proof (yN_inv_range m Hm).
    apply u64_small. split; [apply Z.div_pos; nia|lia]. }
  pose proof (decay_exact_bounds val n ltac:(lia) Hn) as B. unfold decay_exact in *.
  destruct (Z.leb_spec 32 n).
  - rewrite Z.shiftr_div_pow2 by (apply Z.div_pos; lia). apply E.
    + apply Z.div_pos; [lia|]. apply Z.pow_pos_nonneg; [lia|apply Z.div_pos; lia].
    + lia.
    + apply Z.mod_pos_bound. lia.
  - rewrite (Z.div_small n), (Z.mod_small n) in * by lia.
    rewrite Z.pow_0_r, Z.div_1_r in *. apply E; lia.
Qed.

Lemma decay_load_bounds val n :
  0 <= val < two64 -> 0 <= n -> 0 <= decay_load val n <= val.
Proof.
  intros Hv Hn. rewrite decay_load_eq by done.
  destruct (2016 <? n); [lia|]. apply decay_exact_bounds; lia.
Qed.

Lemma decay_load_mono a b n :
  0 <= a <= b -> b < two64 -> 0 <= n -> decay_load a n <= decay_load b n.
Proof.
  intros Hab Hb Hn. rewrite !decay_load_eq by lia. destruct (2016 <? n); [lia|].
  unfold decay_exact.
  pose proof (yN_inv_range (n mod 32) (Z.mod_pos_bound n 32 ltac:(lia))).
  assert (0 < 2 ^ (n / 32)) by (apply Z.pow_pos_nonneg; [lia|apply Z.div_pos; lia]).
  apply Z.div_le_mono; [lia|]. apply Z.mul_le_mono_nonneg_r; [lia|].
  apply Z.div_le_mono; lia.
Qed.

Lemma decay_load_superadditive a b n :
  0 <= a -> 0 <= b -> a + b < two64 -> 0 <= n ->
  decay_load a n + decay_load b n <= decay_load (a + b) n.
Proof.
  intros Ha Hb Hab Hn. rewrite !decay_load_eq by lia. destruct (2016 <? n); [lia|].
  unfold decay_exact.
  pose proof (yN_inv_range (n mod 32) (Z.mod_pos_bound n 32 ltac:(lia))).
  assert (Hp : 0 < 2 ^ (n / 32)) by (apply Z.pow_pos_nonneg; [lia|apply Z.div_pos; lia]).
  etransitivity; [apply div_add_le; lia|].
  apply Z.div_le_mono; [lia|]. rewrite <- Z.mul_add_distr_r.
  apply Z.mul_le_mono_nonneg_r; [lia|]. by apply div_add_le.
Qed.

(** [decay_load] never exceeds the product it approximates. *)
Lemma decay_load_le_product val n :
  0 <= val < two64 -> 0 <= n <= 2016 ->
  decay_load val n * 2 ^ (32 + n / 32) <= val * yN_inv (n mod 32).
Proof.
  intros Hv Hn. rewrite decay_load_eq by lia. destruct (Z.ltb_spec 2016 n); [lia|].
  unfold decay_exact.
  pose proof (yN_inv_range (n mod 32) (Z.mod_pos_bound n 32 ltac:(lia))).
  assert (Hk : 0 <= n / 32) by (apply Z.div_pos; lia).
  rewrite Z.pow_add_r by lia. change (2 ^ 32) with two32.
  assert (Hp : 0 < 2 ^ (n / 32)) by (apply Z.pow_pos_nonneg; lia).
  set (q := 2 ^ (n / 32)) in *. set (Y := yN_inv (n mod 32)) in *.
  pose proof (div_le_mul (val / q * Y) two32 ltac:(lia)).
  pose proof (div_le_mul val q Hp). nia.
Qed.

(** ** Rounding slack *)

(** The two facts about the table that bound the sums, checked for each of the
    2016 period counts. *)
Lemma decay_max_low p : 1 <= p -> decay_load LOAD_AVG_MAX p <= PELT_MIN_DIVIDER.
Proof.
  intros Hp. destruct (Z.le_gt_cases p 2016).
  - apply Z.leb_le.
    apply (forallb_range (fun p => decay_load LOAD_AVG_MAX p <=? PELT_MIN_DIVIDER) 1 2016);
      [vm_compute; reflexivity|lia].
  - rewrite decay_load_eq by (unfold LOAD_AVG_MAX; lia).
    destruct (Z.ltb_spec 2016 p); [unfold PELT_MIN_DIVIDER, LOAD_AVG_MAX|]; lia.
Qed.

Lemma decay_max_slack p :
  1 <= p <= 2016 ->
  (LOAD_AVG_MAX + 47) * yN_inv (p mod 32) <=
  (decay_load LOAD_AVG_MAX p + 47) * 2 ^ (32 + p / 32).
Proof.
  intros Hp. apply Z.leb_le.
  apply (forallb_range (fun p => (LOAD_AVG_MAX + 47) * yN_inv (p mod 32) <=?
           (decay_load LOAD_AVG_MAX p + 47) * 2 ^ (32 + p / 32)) 1 2016);
    [vm_compute; reflexivity|lia].
Qed.

(** A signal of weight [W] with slack [s]: [sum <= W * divider + s] survives any
    number of period boundaries. *)
Definition slack_ok (W s : Z) : Prop :=
  0 <= W /\ 0 <= s /\ W * LOAD_AVG_MAX + s < two64 /\
  forall U pc p, 1 <= p -> 0 <= pc < 1024 -> 0 <= U <= W * (PELT_MIN_DIVIDER + pc) + s ->
    decay_load U p + W * decay_load (1024 - pc) p <= W * decay_load LOAD_AVG_MAX p + s.

(** In general the slack is 47 per unit of weight. *)
Lemma slack_general W : 0 <= W -> W * (LOAD_AVG_MAX + 47) < two64 -> slack_ok W (47 * W).
Proof.
  intros HW Hov. unfold LOAD_AVG_MAX in Hov. split_and!; unfold LOAD_AVG_MAX; try lia.
  intros U pc p Hp Hpc HU. unfold PELT_MIN_DIVIDER, LOAD_AVG_MAX in *.
  assert (W * pc <= W * 1024) by (apply Z.mul_le_mono_nonneg_l; lia).
  destruct (Z.le_gt_cases p 2016) as [Hle|Hgt].
  - pose proof (decay_load_le_product U p ltac:(lia) ltac:(lia)) as A.
    pose proof (decay_load_le_product (1024 - pc) p ltac:(lia) ltac:(lia)) as B.
    pose proof (decay_max_slack p ltac:(lia)) as C. unfold LOAD_AVG_MAX in C.
    pose proof (yN_inv_range (p mod 32) (Z.mod_pos_bound p 32 ltac:(lia))) as Y.
    assert (Hk : 0 <= p / 32) by (apply Z.div_pos; lia).
    assert (Hq : 0 < 2 ^ (32 + p / 32)) by (apply Z.pow_pos_nonneg; lia).
    set (q := 2 ^ (32 + p / 32)) in *. set (y := yN_inv (p mod 32)) in *.
    set (d := decay_load 47742 p) in *.
    apply Z.mul_le_mono_pos_r with q; [done|].
    pose proof (Z.mul_le_mono_nonneg_l _ _ W HW B) as B'.
    pose proof (Z.mul_le_mono_nonneg_l _ _ W HW C) as C'.
    assert (D : (U + W * (1024 - pc)) * y <= W * (47742 + 47) * y)
      by (apply Z.mul_le_mono_nonneg_r; lia).
    lia.
  - rewrite !decay_load_eq by lia. destruct (Z.ltb_spec 2016 p); lia.
Qed.

(** An entity contributes with weight one and needs none. *)
Lemma slack_unit : slack_ok 1 0.
Proof.
  split_and!; try (unfold LOAD_AVG_MAX; lia). intros U pc p Hp Hpc HU.
  unfold PELT_MIN_DIVIDER, LOAD_AVG_MAX in *. rewrite !Z.mul_1_l, Z.add_0_r in *.
  transitivity (decay_load (U + (1024 - pc)) p); [apply decay_load_superadditive; lia|].
  apply decay_load_mono; lia.
Qed.

(** ** One accumulation step *)

Lemma segments_eq periods d1 d3 :
  1 <= periods -> 0 <= d1 <= 1024 -> 0 <= d3 < 1024 ->
  __accumulate_pelt_segments periods d1 d3 =
  decay_load d1 periods + (PELT_MIN_DIVIDER - decay_load LOAD_AVG_MAX periods) + d3.
Proof.
  intros Hp H1 H3. unfold __accumulate_pelt_segments.
  pose proof (decay_load_bounds d1 periods ltac:(lia) ltac:(lia)).
  pose proof (decay_max_low periods Hp).
  pose proof (decay_load_bounds LOAD_AVG_MAX periods ltac:(unfold LOAD_AVG_MAX; lia) ltac:(lia)).
  unfold PELT_MIN_DIVIDER, LOAD_AVG_MAX in *.
  rewrite (u32_small (decay_load d1 periods)) by lia.
  rewrite (u32_small (47742 - decay_load 47742 periods - 1024)) by lia.
  rewrite (u32_small (decay_load d1 periods + _)) by lia. rewrite u32_small by lia. lia.
Qed.

(** A sum of weight at most [W] after the step: decayed, plus [w] times the
    contribution when it contributes. *)
Lemma segment_bound W s w x pc p d3 :
  slack_ok W s -> 0 <= w <= W -> 0 <= pc < 1024 -> 1 <= p -> 0 <= d3 < 1024 ->
  0 <= x <= W * (PELT_MIN_DIVIDER + pc) + s ->
  0 <= decay_load x p + w * __accumulate_pelt_segments p (1024 - pc) d3
    <= W * (PELT_MIN_DIVIDER + d3) + s.
Proof.
  intros (HW & Hs & Hov & Hsl) Hw Hpc Hp Hd Hx. rewrite segments_eq by lia.
  specialize (Hsl x pc p Hp Hpc Hx).
  unfold PELT_MIN_DIVIDER, LOAD_AVG_MAX in *.
  pose proof (decay_load_bounds x p ltac:(nia) ltac:(lia)).
  pose proof (decay_load_bounds (1024 - pc) p ltac:(lia) ltac:(lia)).
  pose proof (decay_max_low p Hp). unfold PELT_MIN_DIVIDER, LOAD_AVG_MAX in *.
  set (c := decay_load (1024 - pc) p + (47742 - 1024 - decay_load 47742 p) + d3).
  assert (0 <= w * c <= W * c)
    by (split; [apply Z.mul_nonneg_nonneg|apply Z.mul_le_mono_nonneg_r]; unfold c; lia).
  unfold c in *. lia.
Qed.

Lemma decay_bound W s x pc p d3 :
  slack_ok W s -> 0 <= pc < 1024 -> 1 <= p -> 0 <= d3 < 1024 ->
  0 <= x <= W * (PELT_MIN_DIVIDER + pc) + s ->
  0 <= decay_load x p <= W * (PELT_MIN_DIVIDER + d3) + s.
Proof.
  intros Hs Hpc Hp Hd Hx.
  pose proof (segment_bound W s 0 x pc p d3 Hs ltac:(destruct Hs; lia) Hpc Hp Hd Hx). lia.
Qed.

(** ** The reference step in unbounded arithmetic *)

Definition periods_of (pc delta : Z) : Z := (delta + pc) / 1024.
Definition pc_after (pc delta : Z) : Z := (delta + pc) mod 1024.
Definition base (x pc delta : Z) : Z :=
  if periods_of pc delta =? 0 then x else decay_load x (periods_of pc delta).
Definition contrib_of (pc delta : Z) : Z :=
  if periods_of pc delta =? 0 then delta
  else decay_load (1024 - pc) (periods_of pc delta) +
       (PELT_MIN_DIVIDER - decay_load LOAD_AVG_MAX (periods_of pc delta)) +
       pc_after pc delta.

(** The ceiling of a sum at position [pc] of the period. *)
Definition sum_ok (W s pc x : Z) : Prop := 0 <= x <= W * (PELT_MIN_DIVIDER + pc) + s.

Lemma sum_step W s w x pc delta :
  slack_ok W s -> 0 <= pc < 1024 -> 0 <= delta -> 0 <= w <= W -> sum_ok W s pc x ->
  0 <= base x pc delta /\ 0 <= contrib_of pc delta /\
  sum_ok W s (pc_after pc delta) (base x pc delta + w * contrib_of pc delta).
Proof.
  intros Hs Hpc Hd Hw Hx. unfold base, contrib_of, sum_ok, periods_of, pc_after in *.
  pose proof (Z.mod_pos_bound (delta + pc) 1024 ltac:(lia)).
  assert (0 <= (delta + pc) / 1024) by (apply Z.div_pos; lia).
  destruct (Z.eqb_spec ((delta + pc) / 1024) 0) as [E|E].
  - rewrite (Z.mod_small (delta + pc)) by (apply Z.div_small_iff in E; lia).
    assert (0 <= w * delta <= W * delta) by nia. lia.
  - set (p := (delta + pc) / 1024) in *. set (d3 := (delta + pc) mod 1024) in *.
    pose proof (segment_bound W s w x pc p d3 Hs Hw Hpc ltac:(lia) ltac:(lia) Hx) as B.
    rewrite segments_eq in B by lia. split_and!; try lia.
    + apply (decay_bound W s x pc p d3); try done; lia.
    + pose proof (decay_max_low p ltac:(lia)).
      pose proof (decay_load_bounds (1024 - pc) p ltac:(lia) ltac:(lia)). lia.
Qed.

(** The ceilings of the three sums of a signal. *)
Record signal_ok (Wl sl Wr sr : Z) (sa : sched_avg) : Prop := {
  ok_pc : 0 <= period_contrib sa < 1024;
  ok_load : sum_ok Wl sl (period_contrib sa) (load_sum sa);
  ok_runnable : sum_ok Wr sr (period_contrib sa) (runnable_sum sa);
  ok_util : sum_ok 1024 (47 * 1024) (period_contrib sa) (util_sum sa)
}.

Lemma slack_util : slack_ok 1024 (47 * 1024).
Proof. apply (slack_general 1024); unfold LOAD_AVG_MAX; lia. Qed.

Lemma sum_ok_u64 W s pc x : slack_ok W s -> 0 <= pc < 1024 -> sum_ok W s pc x -> 0 <= x < two64.
Proof.
  intros (HW & Hs & Hov & _) Hpc [H0 H1]. split; [done|].
  unfold PELT_MIN_DIVIDER, LOAD_AVG_MAX in *.
  assert (W * pc <= W * 1024) by (apply Z.mul_le_mono_nonneg_l; lia). lia.
Qed.

(** Adding the contribution with the wrapping operations of the three fields. *)
Lemma add_contrib (n : Z) sa load runnable running l r u d k c :
  (load = 0 -> runnable = 0 /\ running = 0) -> (load <> 0 -> k = c) -> 0 <= d < 1024 ->
  0 <= l + load * c < two64 -> 0 <= r + 1024 * runnable * c < two64 ->
  0 <= u + (if z2b running then 1024 else 0) * c < two32 ->
  (n, with_sums sa (if z2b load then l +u64 load * k else l)
       (if z2b runnable then r +u64 Z.shiftl (runnable * k) SCHED_CAPACITY_SHIFT else r)
       (if z2b running then u +u32 Z.shiftl k SCHED_CAPACITY_SHIFT else u) (u32 d)) =
  (n, with_sums sa (l + load * c) (r + 1024 * runnable * c)
       (u + (if z2b running then 1024 else 0) * c) d).
Proof.
  intros Hzero Hk Hd L R U. unfold z2b in *.
  rewrite !Z.shiftl_mul_pow2 by (unfold SCHED_CAPACITY_SHIFT; lia).
  change (2 ^ SCHED_CAPACITY_SHIFT) with 1024. rewrite (u32_small d) by lia.
  destruct (Z.eqb_spec load 0) as [->|Hl0]; simpl.
  - destruct (Hzero eq_refl) as [-> ->]. simpl. by rewrite !Z.mul_0_l, !Z.add_0_r.
  - rewrite (Hk Hl0), (u64_small (_ + load * c)) by lia.
    destruct (Z.eqb_spec runnable 0) as [->|]; simpl;
      [rewrite Z.mul_0_r, Z.mul_0_l, Z.add_0_r
      |replace (runnable * c * 1024) with (1024 * runnable * c) by lia;
       rewrite (u64_small (_ + 1024 * runnable * c)) by lia];
      (destruct (running =? 0); simpl; [by rewrite Z.mul_0_l, Z.add_0_r|]);
      rewrite (Z.mul_comm c), (u32_small (_ + 1024 * c)) by (simpl in U; lia); done.
Qed.

(** [accumulate_sum] computes the unbounded step: nothing wraps. *)
Lemma accumulate_sum_exact Wl sl Wr sr delta sa load runnable running :
  slack_ok Wl sl -> slack_ok Wr sr -> signal_ok Wl sl Wr sr sa ->
  0 <= delta < two31 * two31 -> 0 <= load <= Wl -> 0 <= runnable -> 1024 * runnable <= Wr ->
  (load = 0 -> runnable = 0 /\ running = 0) ->
  let pc := period_contrib sa in
  let c := contrib_of pc delta in
  accumulate_sum delta sa load runnable running =
  (u32 (periods_of pc delta),
   with_sums sa (base (load_sum sa) pc delta + load * c)
     (base (runnable_sum sa) pc delta + 1024 * runnable * c)
     (base (util_sum sa) pc delta + (if z2b running then 1024 else 0) * c)
     (pc_after pc delta)).
Proof.
  intros Hl Hr [Hpc OL OR OU] Hd Hload Hrun HrunW Hzero pc c.
  assert (Hpc0 : 0 <= pc < 1024) by exact Hpc.
  assert (Hu : 0 <= (if z2b running then 1024 else 0) <= 1024) by (destruct (z2b running); lia).
  pose proof (sum_step Wl sl load _ pc delta Hl Hpc ltac:(lia) Hload OL) as (L0 & C0 & L1).
  pose proof (sum_step Wr sr (1024 * runnable) _ pc delta Hr Hpc ltac:(lia) ltac:(lia) OR)
    as (R0 & _ & R1).
  pose proof (sum_step 1024 (47 * 1024) _ _ pc delta slack_util Hpc ltac:(lia) Hu OU)
    as (U0 & _ & U1).
  fold c in C0, L1, R1, U1.
  pose proof (Z.mod_pos_bound (delta + pc) 1024 ltac:(lia)) as Hpc'.
  fold (pc_after pc delta) in Hpc'.
  pose proof (sum_ok_u64 _ _ _ _ Hl Hpc' L1) as L2.
  pose proof (sum_ok_u64 _ _ _ _ Hr Hpc' R1) as R2.
  assert (U2 : 0 <= base (util_sum sa) pc delta /\
               base (util_sum sa) pc delta <=
                 base (util_sum sa) pc delta + (if z2b running then 1024 else 0) * c < two32).
  { destruct U1 as [_ U1]. unfold PELT_MIN_DIVIDER, LOAD_AVG_MAX in U1. nia. }
  unfold accumulate_sum. fold pc. rewrite (u64_small (delta + pc)) by lia.
  fold (periods_of pc delta) (pc_after pc delta).
  assert (P0 : 0 <= periods_of pc delta) by (apply Z.div_pos; lia).
  unfold z2b at 1. destruct (Z.eqb_spec (periods_of pc delta) 0) as [E|E]; simpl.
  - assert (Hlt : delta + pc < 1024) by (apply Z.div_small_iff in E; lia).
    assert (Eb : forall x, base x pc delta = x) by (intros x; unfold base; by rewrite E).
    assert (Ec : u32 delta = c) by (unfold c, contrib_of; rewrite E, Z.eqb_refl; apply u32_small; lia).
    assert (Ep : pc_after pc delta = delta + pc) by (apply Z.mod_small; lia).
    rewrite !Eb, Ep in *. apply add_contrib; try done; lia.
  - assert (Eb : forall x, base x pc delta = decay_load x (periods_of pc delta))
      by (intros x; unfold base; by rewrite (proj2 (Z.eqb_neq _ _) E)).
    rewrite !Eb in *. rewrite (u32_small (decay_load (util_sum sa) _)) by lia.
    apply add_contrib; try done; try lia.
    intros Hl0. unfold z2b. rewrite (proj2 (Z.eqb_neq _ _) Hl0). simpl.
    rewrite (u32_small (1024 - pc)), (u32_small (pc_after _ _)) by lia.
    rewrite segments_eq by lia. unfold c, contrib_of.
    by rewrite (proj2 (Z.eqb_neq _ _) E).
Qed.

Lemma accumulate_sum_ok Wl sl Wr sr delta sa load runnable running :
  slack_ok Wl sl -> slack_ok Wr sr -> signal_ok Wl sl Wr sr sa ->
  0 <= delta < two31 * two31 -> 0 <= load <= Wl -> 0 <= runnable -> 1024 * runnable <= Wr ->
  (load = 0 -> runnable = 0 /\ running = 0) ->
  signal_ok Wl sl Wr sr (accumulate_sum delta sa load runnable running).2.
Proof.
  intros Hl Hr Ok Hd Hload Hrun HrunW Hzero.
  rewrite (accumulate_sum_exact Wl sl Wr sr) by done. destruct Ok as [Hpc OL OR OU].
  assert (Hu : 0 <= (if z2b running then 1024 else 0) <= 1024) by (destruct (z2b running); lia).
  split; simpl.
  - apply Z.mod_pos_bound. lia.
  - by apply sum_step; try lia.
  - apply sum_step; try done; lia.
  - apply sum_step; try done; [apply slack_util|lia].
Qed.

Lemma update_load_sum_ok Wl sl Wr sr now sa load runnable running :
  slack_ok Wl sl -> slack_ok Wr sr -> signal_ok Wl sl Wr sr sa ->
  0 <= load <= Wl -> 0 <= runnable -> 1024 * runnable <= Wr ->
  signal_ok Wl sl Wr sr (___update_load_sum now sa load runnable running).2.
Proof.
  intros Hl Hr Ok Hload Hrun HrunW. unfold ___update_load_sum.
  pose proof (u64_range (now - last_update_time sa)).
  unfold s64. rewrite u64_idemp.
  destruct (Z.ltb_spec (now -u64 last_update_time sa) two63) as [Hlt|Hge].
  - destruct (Z.ltb_spec (now -u64 last_update_time sa) 0); [by destruct Ok; split|].
    rewrite Z.shiftr_div_pow2 by lia. change (2 ^ 10) with 1024.
    destruct (_ =? 0); [done|].
    assert (Hd : 0 <= (now -u64 last_update_time sa) / 1024 < two31 * two31).
    { split; [apply Z.div_pos; lia|]. apply Z.div_lt_upper_bound; lia. }
    set (delta := (now -u64 last_update_time sa) / 1024) in *.
    set (sa' := with_time sa _).
    assert (Ok' : signal_ok Wl sl Wr sr sa') by (destruct Ok; by split).
    unfold z2b. destruct (Z.eqb_spec load 0) as [->|Hne]; simpl.
    + pose proof (accumulate_sum_ok Wl sl Wr sr delta sa' 0 0 0 Hl Hr Ok' Hd) as A.
      destruct (accumulate_sum delta sa' 0 0 0) as [p sa'']. simpl in A.
      destruct (p =? 0); apply A; destruct Hr; lia.
    + pose proof (accumulate_sum_ok Wl sl Wr sr delta sa' load runnable running
                    Hl Hr Ok' Hd) as A.
      destruct (accumulate_sum delta sa' load runnable running) as [p sa'']. simpl in A.
      destruct (p =? 0); apply A; lia.
  - destruct (Z.ltb_spec (now -u64 last_update_time sa - two64) 0); [|lia].
    destruct Ok; by split.
Qed.

(** ** The averages *)

Lemma divider_eq sa :
  0 <= period_contrib sa < 1024 -> get_pelt_divider sa = PELT_MIN_DIVIDER + period_contrib sa.
Proof.
  intros H. unfold get_pelt_divider, PELT_MIN_DIVIDER, LOAD_AVG_MAX. apply u32_small. lia.
Qed.

(** A sum under the ceiling of weight [W] with slack at most [W * 47] gives an
    average of at most [W + W / 994]. *)
Lemma avg_bound W pc x k :
  0 <= W -> 0 <= pc < 1024 -> sum_ok W (47 * W) pc x -> 47 * W < (k + 1) * PELT_MIN_DIVIDER ->
  0 <= k -> 0 <= x / (PELT_MIN_DIVIDER + pc) <= W + k.
Proof.
  intros HW Hpc [H0 H1] Hk Hk0. unfold PELT_MIN_DIVIDER, LOAD_AVG_MAX in *.
  split; [apply Z.div_pos; lia|].
  apply Z.lt_succ_r, Z.div_lt_upper_bound; nia.
Qed.

(** *** Tasks *)

(** The life of a task entity: it starts with empty sums, is updated while queued
    or running and while blocked, and is enqueued, dequeued and reweighted. *)
Inductive task_reachable : entity -> Prop :=
| task_new w : task_reachable (mk_entity zero_avg w 0 true 0)
| task_update now is_curr se :
    task_reachable se -> task_reachable (__update_load_avg_se true now is_curr se).2
| task_blocked now se :
    task_reachable se -> task_reachable (__update_load_avg_blocked_se now se).2
| task_change w on_rq se :
    task_reachable se -> task_reachable (mk_entity (se_avg se) w on_rq true 0).

Definition task_ok (se : entity) : Prop :=
  se_is_task se = true /\ signal_ok 1 0 1024 (47 * 1024) (se_avg se) /\
  0 <= util_avg (se_avg se) <= 1025 /\ 0 <= runnable_avg (se_avg se) <= 1025.

Lemma update_avg_ok sa w :
  signal_ok 1 0 1024 (47 * 1024) sa ->
  signal_ok 1 0 1024 (47 * 1024) (___update_load_avg sa w) /\
  0 <= util_avg (___update_load_avg sa w) <= 1025 /\
  0 <= runnable_avg (___update_load_avg sa w) <= 1025 /\
  (0 <= w < two32 -> 0 <= load_avg (___update_load_avg sa w) <= w).
Proof.
  intros [Hpc OL OR OU]. split; [by split|]. unfold ___update_load_avg. simpl.
  rewrite divider_eq by done. split_and!.
  1-4: apply (avg_bound 1024 _ _ 1); try done; unfold PELT_MIN_DIVIDER, LOAD_AVG_MAX; lia.
  intros Hw. destruct OL as [OL1 OL2]. unfold PELT_MIN_DIVIDER, LOAD_AVG_MAX in *.
  assert (0 <= w * load_sum sa <= w * (47742 - 1024 + period_contrib sa)) by nia.
  rewrite u64_small by nia. split; [apply Z.div_pos; lia|].
  apply Z.div_le_upper_bound; lia.
Qed.

Lemma accumulate_avgs delta sa load runnable running :
  util_avg (accumulate_sum delta sa load runnable running).2 = util_avg sa /\
  runnable_avg (accumulate_sum delta sa load runnable running).2 = runnable_avg sa /\
  load_avg (accumulate_sum delta sa load runnable running).2 = load_avg sa.
Proof. unfold accumulate_sum. by destruct (z2b (_ / 1024)). Qed.

(** Only [___update_load_avg] writes the averages. *)
Lemma update_load_sum_avgs now sa load runnable running :
  util_avg (___update_load_sum now sa load runnable running).2 = util_avg sa /\
  runnable_avg (___update_load_sum now sa load runnable running).2 = runnable_avg sa /\
  load_avg (___update_load_sum now sa load runnable running).2 = load_avg sa.
Proof.
  unfold ___update_load_sum. destruct (_ <? 0); [done|]. destruct (_ =? 0); [done|].
  destruct (if z2b load then _ else _) as [r1 r2].
  set (delta := Z.shiftr _ 10). set (sa' := with_time sa _).
  pose proof (accumulate_avgs delta sa' load r1 r2) as A.
  destruct (accumulate_sum delta sa' load r1 r2) as [p sa'']. by destruct (z2b p).
Qed.

Lemma update_se_ok now is_curr se :
  task_ok se -> task_ok (__update_load_avg_se true now is_curr se).2.
Proof.
  intros (T & Ok & U & R). unfold __update_load_avg_se, se_runnable. rewrite T.
  pose proof (b2z_01 (z2b (se_on_rq se))).
  pose proof (update_load_sum_ok 1 0 1024 (47 * 1024) now (se_avg se)
    (b2z (z2b (se_on_rq se))) (b2z (z2b (se_on_rq se))) (b2z is_curr)
    slack_unit slack_util Ok ltac:(lia) ltac:(lia) ltac:(lia)) as Ok'.
  pose proof (update_load_sum_avgs now (se_avg se)
    (b2z (z2b (se_on_rq se))) (b2z (z2b (se_on_rq se))) (b2z is_curr)) as (A1 & A2 & A3).
  destruct (___update_load_sum _ _ _ _ _) as [ret sa]. simpl in *.
  pose proof (update_avg_ok sa (se_weight se) Ok') as (B0 & B1 & B2 & _).
  destruct (z2b ret); unfold task_ok; simpl; [|by rewrite A1, A2].
  unfold cfs_se_util_change. simpl negb. cbv iota. set (sa' := ___update_load_avg _ _) in *.
  destruct (_ =? 0); split_and!; try done; try apply B1; try apply B2.
  destruct B0. by split.
Qed.

Lemma blocked_se_ok now se :
  task_ok se -> task_ok (__update_load_avg_blocked_se now se).2.
Proof.
  intros (T & Ok & U & R). unfold __update_load_avg_blocked_se.
  pose proof (update_load_sum_ok 1 0 1024 (47 * 1024) now (se_avg se) 0 0 0
    slack_unit slack_util Ok ltac:(lia) ltac:(lia) ltac:(lia)) as Ok'.
  pose proof (update_load_sum_avgs now (se_avg se) 0 0 0) as (A1 & A2 & A3).
  destruct (___update_load_sum _ _ _ _ _) as [ret sa]. simpl in *.
  pose proof (update_avg_ok sa (se_weight se) Ok') as (B0 & B1 & B2 & _).
  destruct (z2b ret); unfold task_ok; simpl; [done|by rewrite A1, A2].
Qed.

Lemma task_reachable_ok se : task_reachable se -> task_ok se.
Proof.
  induction 1 as [w|now c se _ IH|now se _ IH|w q se _ (T & Ok & U & R)].
  - split_and!; simpl; try lia; try done.
  - by apply update_se_ok.
  - by apply blocked_se_ok.
  - exact (conj eq_refl (conj Ok (conj U R))).
Qed.

(** ** The constants of the series *)

(** [calc_converged_max] of the generator: iterate one period of full activity. *)
Fixpoint full_periods (n : nat) (max : Z) : Z :=
  match n with
  | O => max
  | S n => full_periods n (decay_load max 1 + 1024)
  end.

Lemma full_period_below v : 0 <= v < LOAD_AVG_MAX -> v < decay_load v 1 + 1024 <= LOAD_AVG_MAX.
Proof.
  unfold LOAD_AVG_MAX. intros Hv. rewrite decay_load_eq by lia. simpl.
  unfold decay_exact. change (1 / 32) with 0. change (1 mod 32) with 1.
  rewrite Z.pow_0_r, Z.div_1_r. change (yN_inv 1) with 4202935002. split.
  - enough (v - 1023 <= v * 4202935002 / two32) by lia. apply Z.div_le_lower_bound; lia.
  - enough (v * 4202935002 / two32 < 46719) by lia. apply Z.div_lt_upper_bound; lia.
Qed.

(** The 32nd power by squaring, and the check of one table entry against the
    power [m] of the scale. *)
Definition pow32 (x : Z) : Z :=
  let a := x * x in let b := a * a in let c := b * b in let d := c * c in d * d.

Lemma pow32_eq x : pow32 x = x ^ 32.
Proof. unfold pow32. ring. Qed.

Definition entries_exact (m : Z) : bool :=
  forallb (fun i => (pow32 (yN_inv i) * 2 ^ i <=? m) && (m <? pow32 (yN_inv i + 1) * 2 ^ i))
    (seqZ 0 32).

Lemma entries_exact_spec m i :
  entries_exact m = true -> 0 <= i < 32 ->
  yN_inv i ^ 32 * 2 ^ i <= m < (yN_inv i + 1) ^ 32 * 2 ^ i.
Proof.
  intros E Hi. pose proof (forallb_range _ 0 32 i E ltac:(lia)) as H. cbv beta in H.
  rewrite !pow32_eq in H. apply andb_prop in H as [H1 H2].
  split; [by apply Z.leb_le|by apply Z.ltb_lt].
Qed.

(** The generated constants of the geometric series are exact.  Entry [i] of
    [runnable_avg_yN_inv] is the largest integer whose 32nd power is at most
    [(2^32 - 1)^32 / 2^i], that is [floor ((2^32 - 1) * y^i)] for [y^32 = 1/2], and
    [LOAD_AVG_MAX] is the value a signal that is active in every period
    converges to: it is reached from zero in 347 periods, it is a fixed point of
    the period step, and below it every period of activity strictly increases
    the sum and never overshoots. *)
Theorem pelt_constants_exact i v :
  0 <= i < 32 -> 0 <= v < LOAD_AVG_MAX ->
  yN_inv i ^ 32 * 2 ^ i <= (two32 - 1) ^ 32 < (yN_inv i + 1) ^ 32 * 2 ^ i /\
  full_periods 347 0 = LOAD_AVG_MAX /\
  decay_load LOAD_AVG_MAX 1 + 1024 = LOAD_AVG_MAX /\
  v < decay_load v 1 + 1024 <= LOAD_AVG_MAX.
Proof.
  intros Hi Hv. split; [|split; [|split; [|by apply full_period_below]]].
  - rewrite <- (pow32_eq (two32 - 1)). apply entries_exact_spec; [|done].
    vm_compute. reflexivity.
  - vm_compute. reflexivity.
  - vm_compute. reflexivity.
Qed.

Lemma pelt_constants_exact_witness :
  yN_inv 7 ^ 32 * 2 ^ 7 <= (two32 - 1) ^ 32 /\ decay_load 1000 1 + 1024 <= LOAD_AVG_MAX.
Proof.
  destruct (pelt_constants_exact 7 1000) as ([A _] & _ & _ & [_ B]); [lia| |].
  - unfold LOAD_AVG_MAX. lia.
  - exact (conj A B).
Defined.

(** ** The closed form of the segments *)

(** What [__accumulate_pelt_segments] stands for: the last partial period of the
    past, each full period since then and the current partial period, each
    decayed on its own. *)
Fixpoint full_segments (n : nat) : Z :=
  match n with
  | O => 0
  | S k => full_segments k + decay_load 1024 (Z.of_nat n)
  end.

Definition segment_series (periods d1 d3 : Z) : Z :=
  decay_load d1 periods + full_segments (Z.to_nat (periods - 1)) + d3.

(** The running sum of the series compared with the closed form, for all period
    counts up to the cut-off. *)
Fixpoint segments_close (n : nat) (p acc : Z) : bool :=
  match n with
  | O => true
  | S n =>
    let c2 := PELT_MIN_DIVIDER - decay_load LOAD_AVG_MAX p in
    (acc - 7 <=? c2) && (c2 <=? acc + 164) && segments_close n (p + 1) (acc + decay_load 1024 p)
  end.

Lemma segments_close_spec n : forall k m,
  segments_close n (Z.of_nat k + 1) (full_segments k) = true -> (m < n)%nat ->
  full_segments (k + m) - 7 <=
    PELT_MIN_DIVIDER - decay_load LOAD_AVG_MAX (Z.of_nat (k + m) + 1) <=
  full_segments (k + m) + 164.
Proof.
  induction n as [|n IH]; intros k m H Hm; [lia|]. cbn [segments_close] in H.
  apply andb_prop in H as [H Hn]. apply andb_prop in H as [H1 H2].
  destruct m as [|m].
  - rewrite Nat.add_0_r. apply Z.leb_le in H1, H2. lia.
  - replace (k + S m)%nat with (S k + m)%nat by lia. apply IH; [|lia].
    replace (Z.of_nat (S k)) with (Z.of_nat k + 1) by lia. cbn [full_segments].
    by replace (Z.of_nat (S k)) with (Z.of_nat k + 1) by lia.
Qed.

Lemma full_segments_S k :
  full_segments (S k) = full_segments k + decay_load 1024 (Z.of_nat (S k)).
Proof. done. Qed.

Lemma full_segments_cutoff k m :
  2016 <= Z.of_nat k -> full_segments (k + m) = full_segments k.
Proof.
  intros Hk. induction m as [|m IH]; [by rewrite Nat.add_0_r|].
  rewrite Nat.add_succ_r, full_segments_S, IH, decay_load_eq by lia.
  destruct (Z.ltb_spec 2016 (Z.of_nat (S (k + m)))); lia.
Qed.

Lemma closed_form_cutoff k N :
  (2016 < N)%nat -> segments_close N 1 0 = true ->
  full_segments k - 7 <= PELT_MIN_DIVIDER - decay_load LOAD_AVG_MAX (Z.of_nat k + 1) <=
  full_segments k + 164.
Proof.
  intros HN H. destruct (Nat.lt_ge_cases k N) as [Hk|Hk]; [by apply (segments_close_spec N 0)|].
  pose proof (segments_close_spec N 0 (N - 1) H ltac:(lia)) as B. rewrite Nat.add_0_l in B.
  replace k with ((N - 1) + (k - (N - 1)))%nat by lia.
  rewrite full_segments_cutoff by lia.
  rewrite decay_load_eq in * by (unfold LOAD_AVG_MAX; lia).
  destruct (Z.ltb_spec 2016 (Z.of_nat (N - 1) + 1)); [|lia].
  destruct (Z.ltb_spec 2016 (Z.of_nat (N - 1 + (k - (N - 1))) + 1)); [exact B|lia].
Qed.

Lemma closed_form_close k :
  full_segments k - 7 <= PELT_MIN_DIVIDER - decay_load LOAD_AVG_MAX (Z.of_nat k + 1) <=
  full_segments k + 164.
Proof.
  apply (closed_form_cutoff k (Z.to_nat 2017)); [lia|]. vm_compute. reflexivity.
Qed.

(** The closed form [d1*y^p + (LOAD_AVG_MAX - LOAD_AVG_MAX*y^p - 1024) + d3] of
    [__accumulate_pelt_segments] never wraps and is, for every number of periods,
    within [-7, +164] of the series it replaces, the sum of all segments decayed
    one by one. *)
Theorem segments_match_series periods d1 d3 :
  1 <= periods -> 0 <= d1 <= 1024 -> 0 <= d3 < 1024 ->
  segment_series periods d1 d3 - 7 <= __accumulate_pelt_segments periods d1 d3
    <= segment_series periods d1 d3 + 164.
Proof.
  intros Hp H1 H3. rewrite segments_eq by done. unfold segment_series.
  pose proof (closed_form_close (Z.to_nat (periods - 1))) as C.
  replace (Z.of_nat (Z.to_nat (periods - 1)) + 1) with periods in C by lia. lia.
Qed.

Lemma segments_match_series_witness :
  segment_series 40 500 9 - 7 <= __accumulate_pelt_segments 40 500 9.
Proof. apply (segments_match_series 40 500 9); lia. Defined.

(** ** Signals of any weight *)

(** One call of [___update_load_sum]. *)
Record update := mk_update { up_now : Z; up_load : Z; up_runnable : Z; up_running : Z }.

Definition apply_update (sa : sched_avg) (u : update) : sched_avg :=
  (___update_load_sum (up_now u) sa (up_load u) (up_runnable u) (up_running u)).2.

Definition run_updates (us : list update) : sched_avg := foldl apply_update zero_avg us.

Definition update_within (Wl Wr : Z) (u : update) : Prop :=
  0 <= up_load u <= Wl /\ 0 <= up_runnable u <= Wr.

Lemma run_updates_ok Wl Wr us :
  0 <= Wl -> 0 <= Wr -> Wl * (LOAD_AVG_MAX + 47) < two64 ->
  1024 * Wr * (LOAD_AVG_MAX + 47) < two64 -> Forall (update_within Wl Wr) us ->
  signal_ok Wl (47 * Wl) (1024 * Wr) (47 * (1024 * Wr)) (run_updates us).
Proof.
  intros Hl Hr Ol Or. unfold run_updates.
  assert (Z0 : signal_ok Wl (47 * Wl) (1024 * Wr) (47 * (1024 * Wr)) zero_avg)
    by (split; simpl; unfold sum_ok, PELT_MIN_DIVIDER, LOAD_AVG_MAX; lia).
  revert Z0. generalize zero_avg. induction us as [|u us IH]; intros sa Ok F; [done|].
  apply Forall_cons_1 in F as [[F1 F2] F]. apply IH; [|done].
  apply update_load_sum_ok; try lia; try done; apply slack_general; lia.
Qed.

Lemma update_load_sum_exact Wl sl Wr sr now sa load runnable running :
  slack_ok Wl sl -> slack_ok Wr sr -> signal_ok Wl sl Wr sr sa ->
  0 <= load <= Wl -> 0 <= runnable -> 1024 * runnable <= Wr ->
  let delta := (now -u64 last_update_time sa) / 1024 in
  let pc := period_contrib sa in
  let on := load =? 0 in
  let c := contrib_of pc delta in
  1024 <= now -u64 last_update_time sa < two63 ->
  ___update_load_sum now sa load runnable running =
  (b2z (z2b (u32 (periods_of pc delta))),
   with_sums (with_time sa (last_update_time sa +u64 delta * 1024))
     (base (load_sum sa) pc delta + load * c)
     (base (runnable_sum sa) pc delta + 1024 * (if on then 0 else runnable) * c)
     (base (util_sum sa) pc delta + (if negb on && z2b running then 1024 else 0) * c)
     (pc_after pc delta)).
Proof.
  intros Hl Hr Ok Hload Hrun HrunW delta pc on c Hd. unfold ___update_load_sum.
  rewrite s64_small by lia. destruct (Z.ltb_spec (now -u64 last_update_time sa) 0); [lia|].
  rewrite Z.shiftr_div_pow2, Z.shiftl_mul_pow2 by lia. change (2 ^ 10) with 1024. fold delta.
  assert (D : 0 < delta < two31 * two31).
  { unfold delta. split; [apply Z.div_str_pos; lia|]. apply Z.div_lt_upper_bound; lia. }
  destruct (Z.eqb_spec delta 0); [lia|].
  set (sa' := with_time sa _).
  assert (Ok' : signal_ok Wl sl Wr sr sa') by (destruct Ok; by split).
  unfold on. unfold z2b at 1. destruct (Z.eqb_spec load 0) as [->|Hne]; simpl.
  - pose proof (accumulate_sum_exact Wl sl Wr sr delta sa' 0 0 0 Hl Hr Ok' ltac:(lia) Hload
      ltac:(lia) ltac:(destruct Hr; lia) ltac:(done)) as A. cbv zeta in A. rewrite A.
    by destruct (z2b (u32 _)).
  - pose proof (accumulate_sum_exact Wl sl Wr sr delta sa' load runnable running Hl Hr Ok'
      ltac:(lia) Hload ltac:(lia) ltac:(lia) ltac:(done)) as A. cbv zeta in A. rewrite A.
    by destruct (z2b (u32 _)).
Qed.

(** C26: No arithmetic of a load-tracking update wraps, and the sums have a
    ceiling.  Take any history of updates whose load and runnable inputs stay
    below [Wl] and [Wr], where the ceilings fit into 64 bits.  Then after the
    history each sum is at most its weight times the divider plus a rounding
    slack of 47 per unit of weight, and a further update by [delta]
    nanoseconds yields exactly the sums of unbounded arithmetic: the old sum
    decayed over the periods passed plus the weight times the contribution, with
    the runnable and running inputs ignored for an unloaded entity. *)
Theorem pelt_update_exact Wl Wr us now load runnable running :
  0 <= Wl -> 0 <= Wr -> Wl * (LOAD_AVG_MAX + 47) < two64 ->
  1024 * Wr * (LOAD_AVG_MAX + 47) < two64 -> Forall (update_within Wl Wr) us ->
  0 <= load <= Wl -> 0 <= runnable <= Wr ->
  let sa := run_updates us in
  let delta := (now -u64 last_update_time sa) / 1024 in
  let pc := period_contrib sa in
  let on := load =? 0 in
  let c := contrib_of pc delta in
  1024 <= now -u64 last_update_time sa < two63 ->
  (load_sum sa <= Wl * (PELT_MIN_DIVIDER + pc + 47) /\
   runnable_sum sa <= 1024 * Wr * (PELT_MIN_DIVIDER + pc + 47) /\
   util_sum sa <= 1024 * (PELT_MIN_DIVIDER + pc + 47)) /\
  apply_update sa (mk_update now load runnable running) =
  with_sums (with_time sa (last_update_time sa +u64 delta * 1024))
    (base (load_sum sa) pc delta + load * c)
    (base (runnable_sum sa) pc delta + 1024 * (if on then 0 else runnable) * c)
    (base (util_sum sa) pc delta + (if negb on && z2b running then 1024 else 0) * c)
    (pc_after pc delta).
Proof.
  intros Hl Hr Ol Or F Hload Hrun sa delta pc on c Hd.
  pose proof (run_updates_ok Wl Wr us Hl Hr Ol Or F) as Ok. fold sa in Ok.
  split; [destruct Ok as [_ OL OR OU]; unfold sum_ok in *; fold pc in OL, OR, OU; lia|].
  unfold apply_update; cbn [up_now up_load up_runnable up_running].
  rewrite (update_load_sum_exact Wl (47 * Wl) (1024 * Wr) (47 * (1024 * Wr)));
    try done; try lia; apply slack_general; lia.
Qed.

Lemma pelt_update_exact_witness :
  load_sum (run_updates [mk_update 5000000 1000 3 1]) <= 1024 * (46718 + 784 + 47).
Proof.
  apply (pelt_update_exact 1024 10 [mk_update 5000000 1000 3 1] 7000000 1024 2 0);
    try (vm_compute; intuition discriminate).
  constructor; [|constructor]. split; simpl; lia.
Defined.

(** ** Tasks *)

(** At every point of a task's life, through any sequence of updates while
    queued, running or blocked, enqueues, dequeues and reweightings, its
    utilization and runnable averages are at most 1025, one more than the
    capacity scale, its sums are below their ceilings, and an update that
    recomputes the averages leaves a load average of at most the task's
    weight. *)
Theorem task_signal_bounded se now is_curr :
  task_reachable se -> se_weight se < two32 ->
  (0 <= util_avg (se_avg se) <= 1025 /\ 0 <= runnable_avg (se_avg se) <= 1025 /\
   0 <= load_sum (se_avg se) <= get_pelt_divider (se_avg se) /\
   0 <= util_sum (se_avg se) <= 1024 * (get_pelt_divider (se_avg se) + 47)) /\
  let '(ret, se') := __update_load_avg_se true now is_curr se in
  ret = 1 -> 0 <= load_avg (se_avg se') <= se_weight se.
Proof.
  intros R Hw. pose proof (task_reachable_ok se R) as (T & Ok & U & Rn).
  split; [pose proof Ok as [Hpc OL OR OU]; rewrite divider_eq by done;
          unfold sum_ok in *; lia|].
  unfold __update_load_avg_se, se_runnable. rewrite T.
  pose proof (b2z_01 (z2b (se_on_rq se))).
  pose proof (update_load_sum_ok 1 0 1024 (47 * 1024) now (se_avg se)
    (b2z (z2b (se_on_rq se))) (b2z (z2b (se_on_rq se))) (b2z is_curr)
    slack_unit slack_util Ok ltac:(lia) ltac:(lia) ltac:(lia)) as Ok'.
  destruct (___update_load_sum _ _ _ _ _) as [ret sa]. simpl in Ok'.
  pose proof (update_avg_ok sa (se_weight se) Ok') as (_ & _ & _ & B).
  assert (0 <= se_weight se) by (unfold se_weight, scale_load_down; case_match; lia).
  destruct (z2b ret); [|done]. intros _.
  unfold cfs_se_util_change. simpl negb. cbv iota. set (sa' := ___update_load_avg _ _) in *.
  destruct (_ =? 0); apply B; lia.
Qed.

(** A task that runs in every period. *)
Definition run_task (se : entity) (nows : list Z) : entity :=
  foldl (fun se now => (__update_load_avg_se true now true se).2) se nows.

Lemma run_task_reachable se nows : task_reachable se -> task_reachable (run_task se nows).
Proof. revert se. induction nows; intros se H; simpl; [done|]. by apply IHnows, task_update. Qed.

Definition queued_task (w : Z) : entity := mk_entity zero_avg w 1 true 0.

Lemma queued_task_reachable w : task_reachable (queued_task w).
Proof. exact (task_change w 1 _ (task_new w)). Qed.

Lemma task_signal_bounded_witness :
  0 <= util_avg (se_avg (run_task (queued_task 1048576) [3000000; 9000000])) <= 1025.
Proof.
  destruct (task_signal_bounded (run_task (queued_task 1048576) [3000000; 9000000]) 0 true)
    as [[A _] _].
  - apply run_task_reachable, queued_task_reachable.
  - vm_compute. reflexivity.
  - exact A.
Defined.

(** The rounding of the sums lets the utilization exceed the capacity scale: a
    task that starts 44 microseconds into a period and then runs for 544 periods
    has a utilization of 1025. *)
Example task_util_exceeds_capacity :
  util_avg (se_avg (run_task (queued_task 1048576)
    ((fun k => (44 + 1024 * k) * 1024) <$> seqZ 0 545))) = 1025.
Proof. vm_compute. reflexivity. Qed.

(** The period count of [accumulate_sum] is returned as 32 bits: after exactly
    [2^32] periods the caller does not recompute the averages of the decayed
    sums. *)
Example blocked_periods_truncated :
  let se := run_task (queued_task 1048576) [3000000; 9000000] in
  let '(ret, se') := __update_load_avg_blocked_se (9000000 + two32 * 1048576) se in
  ret = 0 /\ util_sum (se_avg se') = 0 /\ util_avg (se_avg se') = 173.
Proof. vm_compute. split_and!; reflexivity. Qed.

Lemma base_cutoff x pc delta :
  0 <= x < two64 -> 0 <= pc -> 2017 * 1024 <= delta -> base x pc delta = 0.
Proof.
  intros Hx Hpc Hd. unfold base.
  assert (P : 2017 <= periods_of pc delta) by (apply Z.div_le_lower_bound; lia).
  destruct (Z.eqb_spec (periods_of pc delta) 0); [lia|].
  rewrite decay_load_eq by lia. by destruct (Z.ltb_spec 2016 (periods_of pc delta)); [|lia].
Qed.

(** A blocked task forgets its past: an update 2017 periods (about 2.1
    seconds) or more after the last one, and less than [2^32 - 1] periods, reports
    a change and leaves all three sums and all three averages at zero. *)
Theorem blocked_task_forgets se now :
  task_reachable se ->
  2017 * 1048576 <= now -u64 last_update_time (se_avg se) < (two32 - 1) * 1048576 ->
  let '(ret, se') := __update_load_avg_blocked_se now se in
  let sa := se_avg se' in
  ret = 1 /\ load_sum sa = 0 /\ runnable_sum sa = 0 /\ util_sum sa = 0 /\
  load_avg sa = 0 /\ runnable_avg sa = 0 /\ util_avg sa = 0.
Proof.
  intros R Hd. pose proof (task_reachable_ok se R) as (_ & Ok & _).
  unfold __update_load_avg_blocked_se.
  pose proof (update_load_sum_exact 1 0 1024 (47 * 1024) now (se_avg se) 0 0 0
    slack_unit slack_util Ok ltac:(lia) ltac:(lia) ltac:(lia) ltac:(lia)) as E.
  pose proof Ok as [Hpc OL OR OU].
  pose proof (sum_ok_u64 _ _ _ _ slack_unit Hpc OL). pose proof (sum_ok_u64 _ _ _ _ slack_util Hpc OR).
  pose proof (sum_ok_u64 _ _ _ _ slack_util Hpc OU).
  set (delta := (now -u64 last_update_time (se_avg se)) / 1024) in *.
  assert (D : 2017 * 1024 <= delta < (two32 - 1) * 1024).
  { unfold delta. split; [apply Z.div_le_lower_bound|apply Z.div_lt_upper_bound]; lia. }
  rewrite !base_cutoff in E by lia. set (p := periods_of _ delta) in E.
  assert (P : 2017 <= p < two32).
  { unfold p, periods_of. split; [apply Z.div_le_lower_bound|apply Z.div_lt_upper_bound]; lia. }
  rewrite (u32_small p) in E by lia. unfold z2b in E.
  rewrite (proj2 (Z.eqb_neq p 0)) in E by lia. cbv zeta in E. rewrite E. simpl.
  rewrite !Z.mul_0_l, !Z.add_0_l, Z.mul_0_r. change (u64 0) with 0. by rewrite !Zdiv_0_l.
Qed.

Lemma blocked_task_forgets_witness :
  util_avg (se_avg (__update_load_avg_blocked_se 3000000000
    (run_task (queued_task 1048576) [3000000; 9000000])).2) = 0.
Proof.
  pose proof (blocked_task_forgets (run_task (queued_task 1048576) [3000000; 9000000])
    3000000000) as H.
  destruct (__update_load_avg_blocked_se _ _) as [ret se'].
  apply H; [apply run_task_reachable, queued_task_reachable|].
  vm_compute. intuition discriminate.
Defined.

End Pelt.
