(* ===== verification/Clock.v ===== *)
(** The scheduler clock: [kernel/sched/clock.c] with CONFIG_HAVE_UNSTABLE_SCHED_CLOCK
    on 64 bits.

    Every processor has a clock that combines the time of day at its last tick with the
    raw counter since; [sched_clock_local] filters the counter, [sched_clock_remote]
    couples the clocks of two processors, both by compare-and-exchange loops that other
    processors and nested interrupts disturb.  The file has the operations as functions
    of the whole state ([sys]); the loops as a machine of single memory accesses
    ([machine]), where a processor runs the top of a stack of calls; and the race of
    [clear_sched_clock_stable] with [sched_clock_init_late] over the two static keys
    ([keys]).  The theorems show that the calls are monotonic in every interleaving, that
    no counter value can drive a clock out of its window, that the loops end, that the
    switches between counter and filter are continuous, and when clearing takes effect.
    The machine of memory accesses runs while the clock is marked unstable, where the loops
    are used, with [__gtod_offset] as the last switch left it; stable mode and the switches are
    operations on [sys]. *)

From Stdlib Require Import ZArith Lia List.
From stdpp Require Import base list numbers option.
From S2P Require Import Prelude.

Module Clock.

(** [struct sched_clock_data] and the variables of the file.  [running] counts the static
    key [sched_clock_running]; [work_pending] is the state of [sched_clock_work]. *)
Record sched_clock_data := mk_scd {
  tick_raw : Z;
  tick_gtod : Z;
  clock : Z
}.

Record sys := mk_sys {
  sched_clock_running : Z;
  sched_clock_stable : bool;
  sched_clock_stable_early : Z;
  sched_clock_offset : Z;
  gtod_offset : Z;
  work_pending : bool;
  scds : Z -> sched_clock_data
}.

Definition set_clock (d : sched_clock_data) (v : Z) : sched_clock_data :=
  mk_scd (tick_raw d) (tick_gtod d) v.

Definition set_scds (s : sys) (f : Z -> sched_clock_data) : sys :=
  mk_sys (sched_clock_running s) (sched_clock_stable s) (sched_clock_stable_early s)
    (sched_clock_offset s) (gtod_offset s) (work_pending s) f.

Section Operations.

(** [TICK_NSEC], the length of a tick in the configuration. *)
Context (TICK_NSEC : Z).

Definition wrap_min (x y : Z) : Z := if s64 (x - y) <? 0 then x else y.
Definition wrap_max (x y : Z) : Z := if 0 <? s64 (x - y) then x else y.

(** The counter since the tick, not negative. *)
Definition raw_delta (now raw : Z) : Z := Z.max 0 (s64 (now - raw)).

(** The filter: the new clock from the time of day at the tick, the counter since and
    the old clock. *)
Definition filter_clock (gtod delta old_clock : Z) : Z :=
  let min_clock := wrap_max gtod old_clock in
  let max_clock := wrap_max old_clock (gtod +u64 TICK_NSEC) in
  wrap_min (wrap_max (gtod +u64 delta) min_clock) max_clock.

(** ** The operations, undisturbed *)

(** The readings of [ktime_get_ns()] and [sched_clock()] are arguments. *)
Definition __scd_stamp (ktime raw : Z) (d : sched_clock_data) : sched_clock_data :=
  mk_scd raw ktime (clock d).

Definition sched_clock_local (s : sys) (cpu now : Z) : sys * Z :=
  let d := scds s cpu in
  let v := filter_clock (tick_gtod d +u64 gtod_offset s) (raw_delta now (tick_raw d)) (clock d) in
  (set_scds s (upd (scds s) cpu (set_clock d v)), v).

Definition sched_clock_remote (s : sys) (me cpu now : Z) : sys * Z :=
  let s := fst (sched_clock_local s me now) in
  let this_clock := clock (scds s me) in
  let remote_clock := clock (scds s cpu) in
  if s64 (remote_clock - this_clock) <? 0
  then (set_scds s (upd (scds s) cpu (set_clock (scds s cpu) this_clock)), this_clock)
  else (set_scds s (upd (scds s) me (set_clock (scds s me) remote_clock)), remote_clock).

Definition sched_clock_cpu (s : sys) (me cpu now : Z) : sys * Z :=
  if sched_clock_stable s then (s, now +u64 sched_clock_offset s)
  else if negb (z2b (sched_clock_running s)) then (s, now)
  else if negb (cpu =? me) then sched_clock_remote s me cpu now
  else sched_clock_local s cpu now.

Definition local_clock (s : sys) (me now : Z) : sys * Z :=
  if sched_clock_stable s then (s, now +u64 sched_clock_offset s)
  else if negb (z2b (sched_clock_running s)) then (s, now)
  else sched_clock_local s me now.

Definition sched_clock_tick (s : sys) (me ktime raw now : Z) : sys :=
  if sched_clock_stable s then s
  else if negb (z2b (sched_clock_running s)) then s
  else
    let s := set_scds s (upd (scds s) me (__scd_stamp ktime raw (scds s me))) in
    fst (sched_clock_local s me now).

Definition __sched_clock_gtod_offset (s : sys) (me ktime raw : Z) : sys :=
  let d := __scd_stamp ktime raw (scds s me) in
  mk_sys (sched_clock_running s) (sched_clock_stable s) (sched_clock_stable_early s)
    (sched_clock_offset s) (u64 (tick_raw d + sched_clock_offset s - tick_gtod d))
    (work_pending s) (upd (scds s) me d).

Definition sched_clock_tick_stable (s : sys) (me ktime raw : Z) : sys :=
  if negb (sched_clock_stable s) then s else __sched_clock_gtod_offset s me ktime raw.

Definition set_running (s : sys) (n : Z) : sys :=
  mk_sys n (sched_clock_stable s) (sched_clock_stable_early s)
    (sched_clock_offset s) (gtod_offset s) (work_pending s) (scds s).

Definition sched_clock_init (s : sys) (me ktime raw : Z) : sys :=
  let s := __sched_clock_gtod_offset s me ktime raw in
  set_running s (sched_clock_running s + 1).

Definition __set_sched_clock_stable (s : sys) (me : Z) : sys :=
  let d := scds s me in
  mk_sys (sched_clock_running s) true (sched_clock_stable_early s)
    (u64 (tick_gtod d + gtod_offset s - tick_raw d)) (gtod_offset s)
    (work_pending s) (scds s).

Definition sched_clock_init_late (s : sys) (me : Z) : sys :=
  let s := set_running s (sched_clock_running s + 1) in
  if z2b (sched_clock_stable_early s) then __set_sched_clock_stable s me else s.

Definition __clear_sched_clock_stable (s : sys) : sys :=
  if negb (sched_clock_stable s) then s
  else mk_sys (sched_clock_running s) (sched_clock_stable s) (sched_clock_stable_early s)
         (sched_clock_offset s) (gtod_offset s) true (scds s).

Definition clear_sched_clock_stable (s : sys) : sys :=
  let s := mk_sys (sched_clock_running s) (sched_clock_stable s) 0
             (sched_clock_offset s) (gtod_offset s) (work_pending s) (scds s) in
  if sched_clock_running s =? 2 then __clear_sched_clock_stable s else s.

(** The work item runs once for each time it is queued. *)
Definition __sched_clock_work (s : sys) (me ktime raw : Z) : sys :=
  let d := __scd_stamp ktime raw (scds s me) in
  let d := set_clock d (tick_gtod d +u64 gtod_offset s) in
  mk_sys (sched_clock_running s) false (sched_clock_stable_early s)
    (sched_clock_offset s) (gtod_offset s) false (fun _ => d).

Definition sched_clock_idle_sleep_event (s : sys) (me now : Z) : sys :=
  fst (sched_clock_cpu s me me now).

Definition sched_clock_idle_wakeup_event (s : sys) (timekeeping_suspended : bool)
    (me ktime raw now : Z) : sys :=
  if sched_clock_stable s then s
  else if timekeeping_suspended then s
  else sched_clock_tick s me ktime raw now.

(** ** The loops, one memory access at a time *)

(** The points of a call: of [__scd_stamp] in a tick, of an iteration of
    [sched_clock_local] with the values it has so far, and of an iteration of
    [sched_clock_remote]. *)
Inductive point :=
| StampGtod
| StampRaw
| ReadNow
| ReadRaw (now : Z)
| ReadClock (delta : Z)
| ReadGtod (delta old_clock : Z)
| CmpxchgLocal (old_clock val : Z)
| ReadThis
| ReadRemote (this_clock : Z)
| CmpxchgRemote (this_clock remote_clock : Z).

(** A call in progress, with a number that tells it from the others. *)
Record call := mk_call {
  c_id : Z;
  c_target : Z;
  c_point : point
}.

(** The machine while the clock is unstable and running, when nobody writes
    [__gtod_offset].  The calls of a processor are a stack: the first is the interrupt
    or NMI that came last. *)
Record machine := mk_machine {
  m_scds : Z -> sched_clock_data;
  calls : Z -> list call
}.

(** What a step shows: nothing, a failed exchange, or the value of a finished call. *)
Inductive output :=
| Retried (id : Z)
| Returned (id me target val : Z).

Inductive event :=
| Call (me target id : Z)
| Tick (me id : Z)
| Step (me reading : Z).

Context (goff : Z).

Definition goto (m : machine) (me : Z) (f : call) (rest : list call) (p : point) : machine :=
  mk_machine (m_scds m) (upd (calls m) me (mk_call (c_id f) (c_target f) p :: rest)).

Definition store (m : machine) (cpu : Z) (d : sched_clock_data) : machine :=
  mk_machine (upd (m_scds m) cpu d) (calls m).

Definition leave (m : machine) (me : Z) (rest : list call) : machine :=
  mk_machine (m_scds m) (upd (calls m) me rest).

Definition step_call (m : machine) (me : Z) (f : call) (rest : list call) (x : Z) :
    machine * list output :=
  let my := m_scds m me in
  let there := m_scds m (c_target f) in
  match c_point f with
  | StampGtod => (goto (store m me (mk_scd (tick_raw my) x (clock my))) me f rest StampRaw, [])
  | StampRaw => (goto (store m me (mk_scd x (tick_gtod my) (clock my))) me f rest ReadNow, [])
  | ReadNow => (goto m me f rest (ReadRaw x), [])
  | ReadRaw now => (goto m me f rest (ReadClock (raw_delta now (tick_raw my))), [])
  | ReadClock delta => (goto m me f rest (ReadGtod delta (clock my)), [])
  | ReadGtod delta old =>
      (goto m me f rest (CmpxchgLocal old (filter_clock (tick_gtod my +u64 goff) delta old)), [])
  | CmpxchgLocal old val =>
      if clock my =? old then
        let m := store m me (set_clock my val) in
        if negb (c_target f =? me) then (goto m me f rest ReadThis, [])
        else (leave m me rest, [Returned (c_id f) me (c_target f) val])
      else (goto m me f rest ReadNow, [Retried (c_id f)])
  | ReadThis => (goto m me f rest (ReadRemote (clock my)), [])
  | ReadRemote this => (goto m me f rest (CmpxchgRemote this (clock there)), [])
  | CmpxchgRemote this remote =>
      if s64 (remote - this) <? 0 then
        if clock there =? remote
        then (leave (store m (c_target f) (set_clock there this)) me rest,
              [Returned (c_id f) me (c_target f) this])
        else (goto m me f rest ReadThis, [Retried (c_id f)])
      else
        if clock my =? this
        then (leave (store m me (set_clock my remote)) me rest,
              [Returned (c_id f) me (c_target f) remote])
        else (goto m me f rest ReadThis, [Retried (c_id f)])
  end.

Definition step (m : machine) (e : event) : machine * list output :=
  match e with
  | Call me target id => (leave m me (mk_call id target ReadNow :: calls m me), [])
  | Tick me id => (leave m me (mk_call id me StampGtod :: calls m me), [])
  | Step me x =>
      match calls m me with
      | [] => (m, [])
      | f :: rest => step_call m me f rest x
      end
  end.

Fixpoint run (m : machine) (es : list event) : machine * list output :=
  match es with
  | [] => (m, [])
  | e :: es =>
      let '(m, o) := step m e in
      let '(m, os) := run m es in (m, o ++ os)
  end.

Definition m_clock (m : machine) (c : Z) : Z := clock (m_scds m c).
Definition m_gtod (m : machine) (c : Z) : Z := tick_gtod (m_scds m c) +u64 goff.

(** The number of the call an event starts. *)
Definition starts (e : event) : list Z :=
  match e with Call _ _ id | Tick _ id => [id] | Step _ _ => [] end.

(** The times of day the ticks read, as times of the clock, are at most [lim]. *)
Definition reads_below (lim : Z) (m : machine) (e : event) : Prop :=
  match e with
  | Step me x =>
      match calls m me with
      | f :: _ => c_point f = StampGtod -> x +u64 goff <= lim
      | [] => True
      end
  | _ => True
  end.

Fixpoint run_below (lim : Z) (m : machine) (es : list event) : Prop :=
  match es with
  | [] => True
  | e :: es => reads_below lim m e /\ run_below lim (step m e).1 es
  end.

End Operations.

(** ** The static keys *)

(** [sched_clock_init_late] from the increment on, and a call of
    [clear_sched_clock_stable], at the accesses the other can see. *)
Inductive late_point := LateInc | LateTest | LateSet | LateDone.
Inductive clear_point := ClearStore | ClearRunning | ClearStable | ClearDone.

Record keys := mk_keys {
  k_running : Z;
  k_stable : bool;
  k_early : Z;
  k_work : bool;
  k_late : late_point;
  k_clear : Z -> clear_point
}.

Inductive key_event := Late | Clear (thread : Z) | Work.

Definition late_step (k : keys) : keys :=
  match k_late k with
  | LateInc => mk_keys (k_running k + 1) (k_stable k) (k_early k) (k_work k) LateTest (k_clear k)
  | LateTest =>
      mk_keys (k_running k) (k_stable k) (k_early k) (k_work k)
        (if z2b (k_early k) then LateSet else LateDone) (k_clear k)
  | LateSet => mk_keys (k_running k) true (k_early k) (k_work k) LateDone (k_clear k)
  | LateDone => k
  end.

Definition clear_step (k : keys) (i : Z) : keys :=
  let at_ p := upd (k_clear k) i p in
  match k_clear k i with
  | ClearStore =>
      mk_keys (k_running k) (k_stable k) 0 (k_work k) (k_late k) (at_ ClearRunning)
  | ClearRunning =>
      mk_keys (k_running k) (k_stable k) (k_early k) (k_work k) (k_late k)
        (at_ (if k_running k =? 2 then ClearStable else ClearDone))
  | ClearStable =>
      mk_keys (k_running k) (k_stable k) (k_early k) (k_stable k || k_work k) (k_late k)
        (at_ ClearDone)
  | ClearDone => k
  end.

Definition work_step (k : keys) : keys :=
  if k_work k
  then mk_keys (k_running k) false (k_early k) false (k_late k) (k_clear k)
  else k.

Definition key_step (k : keys) (e : key_event) : keys :=
  match e with Late => late_step k | Clear i => clear_step k i | Work => work_step k end.

Definition key_run (k : keys) (es : list key_event) : keys := fold_left key_step es k.

(** After [sched_clock_init]. *)
Definition key_start : keys := mk_keys 1 false 1 false LateInc (fun _ => ClearStore).

(** No call of [clear_sched_clock_stable] takes a step between the test and the set of
    [sched_clock_init_late]. *)
Definition is_window (k : keys) (e : key_event) : bool :=
  match k_late k, e with LateSet, Clear _ => true | _, _ => false end.

Fixpoint undisturbed (k : keys) (es : list key_event) : bool :=
  match es with
  | [] => true
  | e :: es => negb (is_window k e) && undisturbed (key_step k e) es
  end.

(** ** The filter *)

Section Filter.

Context (TICK_NSEC : Z) (HT : 0 < TICK_NSEC < two63).

Lemma raw_delta_range now raw : 0 <= raw_delta now raw < two63.
Proof. unfold raw_delta. pose proof (s64_range (now - raw)). lia. Qed.

Lemma wrap_min_or x y : wrap_min x y = x \/ wrap_min x y = y.
Proof. unfold wrap_min. destruct (_ <? _); auto. Qed.

Lemma wrap_max_or x y : wrap_max x y = x \/ wrap_max x y = y.
Proof. unfold wrap_max. destruct (_ <? _); auto. Qed.

(** Relative to a reference point [o], within half the range the wrapping minimum and
    maximum are those of the distances. *)
Lemma wrap_max_rel o x y a b :
  s64 (x - o) = a -> s64 (y - o) = b -> a - b < two63 -> - two63 <= a - b ->
  s64 (wrap_max x y - o) = Z.max a b.
Proof.
  intros Ha Hb H1 H2. unfold wrap_max.
  assert (s64 (x - y) = a - b) as ->.
  { destruct (s64_cong (x - o)) as [k Ek], (s64_cong (y - o)) as [l El].
    apply s64_unique with (k := l - k); lia. }
  destruct (Z.ltb_spec 0 (a - b)); lia.
Qed.

Lemma wrap_min_rel o x y a b :
  s64 (x - o) = a -> s64 (y - o) = b -> a - b < two63 -> - two63 <= a - b ->
  s64 (wrap_min x y - o) = Z.min a b.
Proof.
  intros Ha Hb H1 H2. unfold wrap_min.
  assert (s64 (x - y) = a - b) as ->.
  { destruct (s64_cong (x - o)) as [k Ek], (s64_cong (y - o)) as [l El].
    apply s64_unique with (k := l - k); lia. }
  destruct (Z.ltb_spec (a - b) 0); lia.
Qed.

Lemma filter_clock_range gtod delta old :
  is_u64 gtod -> is_u64 old -> is_u64 (filter_clock TICK_NSEC gtod delta old).
Proof.
  intros Hg Ho. unfold filter_clock, is_u64 in *.
  pose proof (u64_range (gtod + delta)). pose proof (u64_range (gtod + TICK_NSEC)).
  destruct (wrap_min_or (wrap_max (u64 (gtod + delta)) (wrap_max gtod old))
              (wrap_max old (u64 (gtod + TICK_NSEC)))) as [-> | ->].
  - destruct (wrap_max_or (u64 (gtod + delta)) (wrap_max gtod old)) as [-> | ->]; [lia|].
    destruct (wrap_max_or gtod old) as [-> | ->]; lia.
  - destruct (wrap_max_or old (u64 (gtod + TICK_NSEC))) as [-> | ->]; lia.
Qed.

(** The filter clamps, also across the wrap-around of the clock and for every counter
    value: only the time of day may not be half the range ahead of the clock. *)
Lemma filter_clock_exact gtod delta old :
  0 <= delta < two63 -> s64 (gtod - old) + TICK_NSEC < two63 ->
  s64 (filter_clock TICK_NSEC gtod delta old - old) =
  let g := s64 (gtod - old) in
  Z.min (Z.max (g + delta) (Z.max g 0)) (Z.max 0 (g + TICK_NSEC)).
Proof.
  intros Hd Hg. cbv zeta. unfold filter_clock.
  pose proof (s64_range (gtod - old)) as Rg. set (g := s64 (gtod - old)) in *.
  destruct (s64_cong (gtod - old)) as [k Ek]. fold g in Ek.
  assert (Eo : s64 (old - old) = 0) by (rewrite Z.sub_diag; reflexivity).
  assert (E1 : s64 (wrap_max gtod old - old) = Z.max g 0).
  { apply (wrap_max_rel old gtod old g 0); [done|done|lia|lia]. }
  assert (Et : s64 (u64 (gtod + TICK_NSEC) - old) = g + TICK_NSEC).
  { rewrite <- s64_u64, u64_sub_l, s64_u64. apply s64_unique with (k := - k); lia. }
  assert (E2 : s64 (wrap_max old (u64 (gtod + TICK_NSEC)) - old) = Z.max 0 (g + TICK_NSEC)).
  { apply (wrap_max_rel old old _ 0 (g + TICK_NSEC)); [done|done|lia|lia]. }
  assert (Ed : s64 (u64 (gtod + delta) - gtod) = delta).
  { rewrite <- s64_u64, u64_sub_l, s64_u64. apply s64_unique with (k := 0); lia. }
  destruct (Z.lt_ge_cases 0 g).
  - assert (Em : wrap_max gtod old = gtod).
    { unfold wrap_max. fold g. destruct (Z.ltb_spec 0 g); [done|lia]. }
    assert (Et' : s64 (u64 (gtod + TICK_NSEC) - gtod) = TICK_NSEC).
    { rewrite <- s64_u64, u64_sub_l, s64_u64. apply s64_unique with (k := 0); lia. }
    assert (Ex : wrap_max old (u64 (gtod + TICK_NSEC)) = u64 (gtod + TICK_NSEC)).
    { destruct (wrap_max_or old (u64 (gtod + TICK_NSEC))) as [E|E]; [|done].
      rewrite E, Eo in E2. lia. }
    rewrite Em, Ex.
    assert (Eg : s64 (gtod - gtod) = 0) by (rewrite Z.sub_diag; reflexivity).
    assert (E3 := wrap_max_rel gtod _ gtod _ _ Ed Eg ltac:(lia) ltac:(lia)).
    assert (E4 := wrap_min_rel gtod _ _ _ _ E3 Et' ltac:(lia) ltac:(lia)).
    revert E4. set (r := wrap_min _ _). intros E4.
    destruct (s64_cong (r - gtod)) as [j Ej].
    apply s64_unique with (k := - j - k); lia.
  - assert (Ed' : s64 (u64 (gtod + delta) - old) = g + delta).
    { rewrite <- s64_u64, u64_sub_l, s64_u64. apply s64_unique with (k := - k); lia. }
    assert (E3 := wrap_max_rel old _ _ _ _ Ed' E1 ltac:(lia) ltac:(lia)).
    apply (wrap_min_rel old _ _ _ _ E3 E2); lia.
Qed.

(** Away from the wrap-around the filter is the clamp of the comment, with the bounds
    taken in the order that lets the clock win. *)
Lemma filter_clock_clamp gtod delta old :
  0 <= delta < two63 -> 0 <= old < two63 -> 0 <= gtod -> gtod + TICK_NSEC < two63 ->
  filter_clock TICK_NSEC gtod delta old =
  Z.min (Z.max (gtod + delta) (Z.max gtod old)) (Z.max old (gtod + TICK_NSEC)).
Proof.
  intros Hd Ho Hg0 Hg.
  assert (Eg : s64 (gtod - old) = gtod - old) by (apply s64_small; lia).
  pose proof (filter_clock_exact gtod delta old Hd ltac:(lia)) as E. cbv zeta in E. rewrite Eg in E.
  pose proof (filter_clock_range gtod delta old ltac:(unfold is_u64; lia) ltac:(unfold is_u64; lia)) as R.
  unfold is_u64 in R. set (r := filter_clock _ _ _ _) in *.
  destruct (s64_cong (r - old)) as [k Ek].
  assert (k = 0) by lia. lia.
Qed.

End Filter.

(** ** Interleavings of the loops *)

Section Machine.

Context (TICK_NSEC goff lim : Z) (HT : 0 < TICK_NSEC) (HL : lim + TICK_NSEC < two63).

Notation step_call := (step_call TICK_NSEC goff).
Notation step := (step TICK_NSEC goff).
Notation run := (run TICK_NSEC goff).

(** What the values a call has read so far are worth: they are at most the clocks now. *)
Definition point_ok (clk : Z -> Z) (me target : Z) (p : point) : Prop :=
  match p with
  | StampGtod | StampRaw | ReadNow | ReadRaw _ => True
  | ReadClock d => 0 <= d < two63
  | ReadGtod d old => 0 <= d < two63 /\ 0 <= old <= clk me
  | CmpxchgLocal old val => 0 <= old <= clk me /\ old <= val <= lim + TICK_NSEC
  | ReadThis => target <> me
  | ReadRemote this => target <> me /\ 0 <= this <= clk me
  | CmpxchgRemote this remote => target <> me /\ 0 <= this <= clk me /\ 0 <= remote <= clk target
  end.

Record inv (m : machine) : Prop := {
  inv_clock : forall c, 0 <= m_clock m c <= lim + TICK_NSEC;
  inv_gtod : forall c, m_gtod goff m c <= lim;
  inv_calls : forall me f, f ∈ calls m me ->
    point_ok (m_clock m) me (c_target f) (c_point f)
}.

(** A call that started when its clock was at [F] returns at least [F]. *)
Definition floor_ok (F : Z) (clk : Z -> Z) (me target : Z) (p : point) : Prop :=
  F <= clk target /\
  match p with
  | ReadGtod _ old | CmpxchgLocal old _ => target = me -> F <= old
  | CmpxchgRemote _ remote => F <= remote
  | _ => True
  end.

(** The sum of the clocks of the two processors as the call has seen them. *)
Definition seen (clk : Z -> Z) (me target : Z) (p : point) : Z :=
  match p with
  | ReadGtod _ old | CmpxchgLocal old _ => old
  | ReadRemote this | CmpxchgRemote this _ => this
  | _ => clk me
  end +
  (if target =? me then 0
   else match p with CmpxchgRemote _ remote => remote | _ => clk target end).

(** A step of the call [f] of processor [me]: it goes on at another point, having failed
    [n] exchanges, or returns. *)
Definition goes_on (m m' : machine) (me : Z) (f : call) (rest : list call) (n : nat) : Prop :=
  exists p,
    calls m' = upd (calls m) me (mk_call (c_id f) (c_target f) p :: rest) /\
    point_ok (m_clock m') me (c_target f) p /\
    (forall F, floor_ok F (m_clock m) me (c_target f) (c_point f) ->
               floor_ok F (m_clock m') me (c_target f) p) /\
    seen (m_clock m) me (c_target f) (c_point f) + Z.of_nat n
      <= seen (m_clock m') me (c_target f) p.

Definition returns (m m' : machine) (me : Z) (f : call) (rest : list call) (v : Z) : Prop :=
  calls m' = upd (calls m) me rest /\
  (forall F, floor_ok F (m_clock m) me (c_target f) (c_point f) -> F <= v) /\
  v <= m_clock m' me /\ v <= m_clock m' (c_target f).

Definition outcome (m : machine) (me : Z) (f : call) (rest : list call)
    (r : machine * list output) : Prop :=
  (forall c, m_clock m c <= m_clock r.1 c <= lim + TICK_NSEC) /\
  (forall c, m_gtod goff r.1 c <= lim) /\
  ((exists n, r.2 = replicate n (Retried (c_id f)) /\ goes_on m r.1 me f rest n) \/
   (exists v, r.2 = [Returned (c_id f) me (c_target f) v] /\ returns m r.1 me f rest v)).

Lemma m_clock_store m cpu d c :
  m_clock (store m cpu d) c = if c =? cpu then clock d else m_clock m c.
Proof. unfold m_clock, store, upd. cbn. by destruct (c =? cpu). Qed.

Lemma m_gtod_store m cpu d c :
  m_gtod goff (store m cpu d) c = if c =? cpu then u64 (tick_gtod d + goff) else m_gtod goff m c.
Proof. unfold m_gtod, store, upd. cbn. by destruct (c =? cpu). Qed.

(** A step that leaves the clocks alone and moves the call to a point that knows no
    less. *)
Lemma outcome_goto m me f rest p (n : nat) :
  inv m -> point_ok (m_clock m) me (c_target f) p ->
  (forall F, floor_ok F (m_clock m) me (c_target f) (c_point f) ->
             floor_ok F (m_clock m) me (c_target f) p) ->
  seen (m_clock m) me (c_target f) (c_point f) + Z.of_nat n <= seen (m_clock m) me (c_target f) p ->
  outcome m me f rest (goto m me f rest p, replicate n (Retried (c_id f))).
Proof.
  intros I Hp HF Hs. split; [|split].
  - intros c. pose proof (inv_clock m I c). cbn. unfold m_clock in *. cbn. lia.
  - intros c. apply (inv_gtod m I c).
  - left. exists n. split; [done|]. by exists p.
Qed.

(** A store that only moves the stamps. *)
Lemma outcome_stamp m me f rest raw gtod p :
  inv m -> u64 (gtod + goff) <= lim -> (p = StampRaw \/ p = ReadNow) ->
  (c_point f = StampGtod \/ c_point f = StampRaw) ->
  outcome m me f rest
    (goto (store m me (mk_scd raw gtod (clock (m_scds m me)))) me f rest p, []).
Proof.
  intros I Hg Hp Hf.
  assert (E : forall c, m_clock (store m me (mk_scd raw gtod (clock (m_scds m me)))) c = m_clock m c).
  { intros c. rewrite m_clock_store. by destruct (Z.eqb_spec c me) as [->|]. }
  split; [|split].
  - intros c. change (m_clock _ c) with (m_clock m c) at 1. cbn [fst].
    change (m_clock (goto ?x _ _ _ _)) with (m_clock x). rewrite E.
    pose proof (inv_clock m I c). lia.
  - intros c. cbn [fst]. change (m_gtod goff (goto ?x _ _ _ _)) with (m_gtod goff x).
    rewrite m_gtod_store. destruct (c =? me); [done|apply (inv_gtod m I)].
  - left. exists 0%nat. split; [done|]. exists p. split; [done|]. cbn [fst].
    change (m_clock (goto ?x _ _ _ _)) with (m_clock x).
    destruct Hp as [-> | ->], Hf as [-> | ->]; unfold floor_ok, seen;
      (split; [exact Logic.I|split; [intros F; by rewrite E|rewrite !E; lia]]).
Qed.

(** A successful exchange raises the clock of one processor to [v]. *)
Lemma outcome_store m cpu v :
  inv m -> m_clock m cpu <= v <= lim + TICK_NSEC ->
  let m' := store m cpu (set_clock (m_scds m cpu) v) in
  (forall c, m_clock m' c = if c =? cpu then v else m_clock m c) /\
  (forall c, m_clock m c <= m_clock m' c <= lim + TICK_NSEC) /\
  (forall c, m_gtod goff m' c <= lim).
Proof.
  intros I Hv m'.
  assert (E : forall c, m_clock m' c = if c =? cpu then v else m_clock m c)
    by (intros c; apply m_clock_store).
  split; [done|split; intros c].
  - rewrite E. pose proof (inv_clock m I c). destruct (Z.eqb_spec c cpu) as [->|]; lia.
  - unfold m'. rewrite m_gtod_store. destruct (Z.eqb_spec c cpu) as [->|]; apply (inv_gtod m I).
Qed.

Lemma cmpxchg_local_outcome m me f rest x old val :
  inv m -> c_point f = CmpxchgLocal old val ->
  point_ok (m_clock m) me (c_target f) (c_point f) ->
  outcome m me f rest (step_call m me f rest x).
Proof.
  intros I Ef Hp. rewrite Ef in Hp. destruct Hp as [Ho Hv].
  unfold Clock.step_call. rewrite Ef. change (clock (m_scds m me)) with (m_clock m me).
  destruct (Z.eqb_spec (m_clock m me) old) as [E|Hne].
  - destruct (outcome_store m me val I ltac:(lia)) as (Ec & Hm & Hg).
    set (m1 := store _ _ _) in *.
    destruct (Z.eqb_spec (c_target f) me) as [Et|Et]; cbn [negb].
    + split; [exact Hm|split; [exact Hg|]]. right. exists val. split; [done|].
      split; [done|]. rewrite Ef, Et. cbn [fst]. change (m_clock (leave m1 me rest)) with (m_clock m1).
      rewrite Ec, Z.eqb_refl. split; [intros F [_ HF]; specialize (HF eq_refl); lia|lia].
    + split; [exact Hm|split; [exact Hg|]]. left. exists 0%nat. split; [done|].
      exists ReadThis. split; [done|]. cbn [fst]. change (m_clock (goto m1 _ _ _ _)) with (m_clock m1).
      split; [done|]. rewrite Ef. unfold floor_ok, seen. destruct (Z.eqb_spec (c_target f) me); [done|].
      pose proof (Hm (c_target f)). rewrite (Ec me), Z.eqb_refl. split; [intros F [? _]; split; [lia|done]|lia].
  - apply (outcome_goto m me f rest ReadNow 1); [done|done| |].
    + rewrite Ef. intros F [HF _]. by split.
    + rewrite Ef. unfold seen. destruct (c_target f =? me); lia.
Qed.

Lemma cmpxchg_remote_outcome m me f rest x this remote :
  inv m -> c_point f = CmpxchgRemote this remote ->
  point_ok (m_clock m) me (c_target f) (c_point f) ->
  outcome m me f rest (step_call m me f rest x).
Proof.
  intros I Ef Hp. rewrite Ef in Hp. destruct Hp as (Ht & Hthis & Hremote).
  pose proof (inv_clock m I me) as B1. pose proof (inv_clock m I (c_target f)) as B2.
  unfold Clock.step_call. rewrite Ef. change (clock (m_scds m ?c)) with (m_clock m c).
  rewrite s64_small by lia.
  assert (Hretry : (m_clock m me <> this \/ m_clock m (c_target f) <> remote) ->
    outcome m me f rest (goto m me f rest ReadThis, [Retried (c_id f)])).
  { intros Hne. apply (outcome_goto m me f rest ReadThis 1); [done|done| |]; rewrite Ef.
    - intros F [HF _]. by split.
    - unfold seen. destruct (Z.eqb_spec (c_target f) me); lia. }
  destruct (Z.ltb_spec (remote - this) 0).
  - destruct (Z.eqb_spec (m_clock m (c_target f)) remote) as [E|]; [|auto].
    destruct (outcome_store m (c_target f) this I ltac:(lia)) as (Ec & Hm & Hg).
    set (m1 := store _ _ _) in *. split; [exact Hm|split; [exact Hg|]].
    right. exists this. split; [done|]. split; [done|]. rewrite Ef. cbn [fst].
    change (m_clock (leave m1 me rest)) with (m_clock m1).
    pose proof (Hm me). rewrite (Ec (c_target f)), Z.eqb_refl.
    split; [intros F [_ HF]; lia|lia].
  - destruct (Z.eqb_spec (m_clock m me) this) as [E|]; [|auto].
    destruct (outcome_store m me remote I ltac:(lia)) as (Ec & Hm & Hg).
    set (m1 := store _ _ _) in *. split; [exact Hm|split; [exact Hg|]].
    right. exists remote. split; [done|]. split; [done|]. rewrite Ef. cbn [fst].
    change (m_clock (leave m1 me rest)) with (m_clock m1).
    pose proof (Hm (c_target f)). rewrite (Ec me), Z.eqb_refl.
    split; [intros F [_ HF]; lia|lia].
Qed.

Lemma step_call_outcome m me f rest x :
  inv m -> calls m me = f :: rest -> reads_below goff lim m (Step me x) ->
  outcome m me f rest (step_call m me f rest x).
Proof.
  intros I Ec Hx. cbn in Hx. rewrite Ec in Hx.
  assert (Hp := inv_calls m I me f ltac:(rewrite Ec; apply list_elem_of_here)).
  pose proof (inv_clock m I me) as B1. pose proof (inv_clock m I (c_target f)) as B2.
  pose proof (inv_gtod m I me) as B3.
  destruct (c_point f) eqn:Ef;
    [| | | | | |by eapply cmpxchg_local_outcome; rewrite ?Ef
     | | |by eapply cmpxchg_remote_outcome; rewrite ?Ef];
    unfold Clock.step_call; rewrite Ef.
  - apply outcome_stamp; auto.
  - apply outcome_stamp; auto.
  - apply (outcome_goto m me f rest _ 0); rewrite ?Ef; [done|done|done|unfold seen, m_clock; lia].
  - apply (outcome_goto m me f rest _ 0); rewrite ?Ef; [done|apply raw_delta_range|done|unfold seen, m_clock; lia].
  - apply (outcome_goto m me f rest _ 0); rewrite ?Ef; [done| |intros F [HF _]|unfold seen, m_clock; lia].
    + split; [exact Hp|]. unfold m_clock in *. lia.
    + split; [done|]. by intros <-.
  - apply (outcome_goto m me f rest _ 0); rewrite ?Ef; [done| |done|unfold seen, m_clock; lia].
    destruct Hp as [Hd Ho]. split; [done|]. change (u64 (tick_gtod (m_scds m me) + goff)) with (m_gtod goff m me).
    pose proof (u64_range (tick_gtod (m_scds m me) + goff)) as B4. change (u64 _) with (m_gtod goff m me) in B4.
    rewrite filter_clock_clamp by lia. lia.
  - apply (outcome_goto m me f rest _ 0); rewrite ?Ef; [done| |done|unfold seen, m_clock; lia].
    split; [done|]. unfold m_clock in *; lia.
  - apply (outcome_goto m me f rest _ 0); rewrite ?Ef; [done| |intros F [HF _]; by split|].
    + destruct Hp as [Ht Hthis]. split; [done|split; [done|]]. unfold m_clock in *; lia.
    + unfold seen, m_clock. destruct (c_target f =? me); lia.
Qed.

(** Values read earlier stay at most the clocks when these advance. *)
Lemma point_ok_mono clk clk' me t p :
  (forall c, clk c <= clk' c) -> point_ok clk me t p -> point_ok clk' me t p.
Proof.
  intros H. pose proof (H me). pose proof (H t). destruct p; cbn; lia.
Qed.

Lemma floor_ok_mono F clk clk' me t p :
  (forall c, clk c <= clk' c) -> floor_ok F clk me t p -> floor_ok F clk' me t p.
Proof. intros H [HF Hp]. pose proof (H t). split; [lia|exact Hp]. Qed.

Lemma seen_mono clk clk' me t p :
  (forall c, clk c <= clk' c) -> seen clk me t p <= seen clk' me t p.
Proof.
  intros H. pose proof (H me). pose proof (H t). unfold seen.
  destruct p, (t =? me); lia.
Qed.

(** The calls after a step are those before, but for the one that starts or the one at
    the top that moves. *)
Lemma step_outcome m e :
  inv m -> reads_below goff lim m e ->
  let '(m', o) := step m e in
  (forall c, m_clock m c <= m_clock m' c <= lim + TICK_NSEC) /\
  (forall c, m_gtod goff m' c <= lim) /\
  match e with
  | Call me t id => o = [] /\ calls m' = upd (calls m) me (mk_call id t ReadNow :: calls m me)
  | Tick me id => o = [] /\ calls m' = upd (calls m) me (mk_call id me StampGtod :: calls m me)
  | Step me x =>
      match calls m me with
      | [] => m' = m /\ o = []
      | f :: rest => outcome m me f rest (m', o)
      end
  end.
Proof.
  intros I Hx. destruct e as [me t id|me id|me x]; cbn [Clock.step].
  1, 2: split; [intros c; pose proof (inv_clock m I c); unfold m_clock in *; cbn; lia|];
    split; [exact (inv_gtod m I)|done].
  destruct (calls m me) as [|f rest] eqn:Ec.
  - split; [intros c; pose proof (inv_clock m I c); lia|]. by split; [apply (inv_gtod m I)|].
  - pose proof (step_call_outcome m me f rest x I Ec Hx) as H.
    destruct (step_call m me f rest x) as [m' o]. destruct H as (H1 & H2 & H3).
    split; [exact H1|split; [exact H2|]]. by split; [|split].
Qed.

Lemma clk_step_inv m e :
  inv m -> reads_below goff lim m e ->
  inv (step m e).1 /\ forall c, m_clock m c <= m_clock (step m e).1 c.
Proof.
  intros I Hx. pose proof (step_outcome m e I Hx) as H. destruct (step m e) as [m' o].
  destruct H as (Hm & Hg & He). cbn [fst].
  assert (Hold : forall c f, f ∈ calls m c -> point_ok (m_clock m') c (c_target f) (c_point f)).
  { intros c f Hf. eapply point_ok_mono; [|by apply (inv_calls m I)]. apply Hm. }
  split; [|apply Hm]. constructor; [|exact Hg|].
  - intros c. pose proof (Hm c). pose proof (inv_clock m I c). lia.
  - intros c f. assert (Hupd : forall me l, calls m' = upd (calls m) me l ->
      (forall g, g ∈ l -> point_ok (m_clock m') me (c_target g) (c_point g)) ->
      f ∈ calls m' c -> point_ok (m_clock m') c (c_target f) (c_point f)).
    { intros me l -> Hl. unfold upd. destruct (Z.eqb_spec c me) as [->|]; auto. }
    destruct e as [me t id|me id|me x].
    1, 2: destruct He as [_ Ec]; eapply Hupd; [exact Ec|];
      intros g [->|Hg']%elem_of_cons; [exact Logic.I|auto].
    destruct (calls m me) as [|h rest] eqn:Eh; [destruct He as [-> _]; auto|].
    assert (Hrest : forall g, g ∈ rest -> point_ok (m_clock m') me (c_target g) (c_point g)).
    { intros g Hg'. apply Hold. rewrite Eh. by right. }
    destruct He as (_ & _ & [(n & _ & p & Ec & Hp & _)|(v & _ & Ec & _)]);
      eapply Hupd; try exact Ec; [|exact Hrest].
    intros g [->|Hg']%elem_of_cons; [exact Hp|auto].
Qed.

Lemma clk_run_inv es : forall m,
  inv m -> run_below TICK_NSEC goff lim m es ->
  inv (run m es).1 /\ forall c, m_clock m c <= m_clock (run m es).1 c.
Proof.
  induction es as [|e es IH]; intros m I Hb; cbn [Clock.run]; [by split|].
  destruct Hb as [Hx Hb]. destruct (clk_step_inv m e I Hx) as [I1 H1].
  destruct (step m e) as [m1 o]. specialize (IH m1 I1 Hb) as [I2 H2].
  destruct (run m1 es) as [m2 os]. cbn [fst] in *. split; [done|].
  intros c. pose proof (H1 c). pose proof (H2 c). lia.
Qed.

(** A value that was returned is at most the clocks of both processors from then on. *)
Lemma run_returned es : forall m id me t v,
  inv m -> run_below TICK_NSEC goff lim m es -> Returned id me t v ∈ (run m es).2 ->
  v <= m_clock (run m es).1 me /\ v <= m_clock (run m es).1 t.
Proof.
  induction es as [|e es IH]; intros m id me t v I Hb; cbn [Clock.run]; [intros H; inversion H|].
  destruct Hb as [Hx Hb]. destruct (clk_step_inv m e I Hx) as [I1 _].
  pose proof (step_outcome m e I Hx) as Ho. destruct (step m e) as [m1 o].
  cbn [fst] in *. destruct (clk_run_inv es m1 I1 Hb) as [_ H2]. specialize (IH m1 id me t v I1 Hb).
  destruct (run m1 es) as [m2 os]. cbn [fst snd] in *. intros [Hin|Hin]%elem_of_app; [|auto].
  destruct Ho as (_ & _ & He). destruct e as [?|?|me' x].
  1, 2: destruct He as [-> _]; inversion Hin.
  destruct (calls m me') as [|f rest]; [destruct He as [_ ->]; inversion Hin|].
  destruct He as (_ & _ & [(n & E & _)|(v' & E & _ & _ & Hr1 & Hr2)]); cbn in E; subst o.
  - apply elem_of_replicate in Hin as [? _]. done.
  - apply list_elem_of_singleton in Hin. simplify_eq. cbn [fst] in *.
    pose proof (H2 me'). pose proof (H2 (c_target f)). lia.
Qed.

(** *** One call among the others *)

Definition is_call (id : Z) (f : call) : bool := c_id f =? id.
Definition mine (id : Z) (l : list call) : list call := List.filter (is_call id) l.

Definition is_retry (id : Z) (o : output) : bool :=
  match o with Retried i => i =? id | Returned _ _ _ _ => false end.

(** The failed exchanges of a call. *)
Definition retries (id : Z) (os : list output) : Z :=
  Z.of_nat (length (List.filter (is_retry id) os)).

(** The clocks of the two processors of a call, added. *)
Definition total (clk : Z -> Z) (me t : Z) : Z := clk me + (if t =? me then 0 else clk t).

(** The call [id] of processor [me] about [t], which started at [F] with the clocks at
    [b] and has failed [r] exchanges: in progress or finished. *)
Definition good (id me t F b r : Z) (m : machine) : Prop :=
  (forall c, c <> me -> mine id (calls m c) = []) /\
  b + r <= total (m_clock m) me t /\
  (mine id (calls m me) = [] \/
   exists f, mine id (calls m me) = [f] /\ c_target f = t /\
     floor_ok F (m_clock m) me t (c_point f) /\ b + r <= seen (m_clock m) me t (c_point f)).

Lemma retries_app id os os' : retries id (os ++ os') = retries id os + retries id os'.
Proof. unfold retries. rewrite List.filter_app, length_app. lia. Qed.

Lemma retries_replicate id i n :
  retries id (replicate n (Retried i)) = if i =? id then Z.of_nat n else 0.
Proof.
  unfold retries. induction n as [|n IH]; cbn; [by destruct (_ =? _)|].
  destruct (i =? id); cbn in *; lia.
Qed.

Lemma seen_total clk me t p : point_ok clk me t p -> seen clk me t p <= total clk me t.
Proof.
  intros Hp. unfold seen, total. destruct p; cbn in Hp; destruct (t =? me); lia.
Qed.

Lemma mine_cons id f l : mine id (f :: l) = if c_id f =? id then f :: mine id l else mine id l.
Proof. done. Qed.

(** Steps of the others, and what they do to the stacks. *)
Lemma good_others id me t F b r m m' :
  (forall c, m_clock m c <= m_clock m' c) ->
  (forall c, mine id (calls m' c) = mine id (calls m c)) ->
  good id me t F b r m -> good id me t F b r m'.
Proof.
  intros Hm Hc (H1 & H2 & H3). split; [|split].
  - intros c Hne. rewrite Hc. auto.
  - pose proof (Hm me). pose proof (Hm t). unfold total in *. destruct (t =? me); lia.
  - rewrite Hc. destruct H3 as [H3|(f & E & Et & HF & Hs)]; [by left|right].
    exists f. split; [done|split; [done|split]].
    + by eapply floor_ok_mono.
    + etransitivity; [exact Hs|by apply seen_mono].
Qed.

Lemma good_leave id me t F b r m m' l :
  (forall c, m_clock m c <= m_clock m' c) ->
  calls m' = upd (calls m) me l -> mine id l = [] ->
  good id me t F b r m -> good id me t F b r m'.
Proof.
  intros Hm Hc Hl (H1 & H2 & _). split; [|split].
  - intros c Hne. rewrite Hc. unfold upd. destruct (Z.eqb_spec c me); [done|auto].
  - pose proof (Hm me). pose proof (Hm t). unfold total in *. destruct (t =? me); lia.
  - left. by rewrite Hc, upd_eq.
Qed.

Lemma good_goes_on id me t F b r m m' f rest n :
  inv m -> calls m me = f :: rest -> c_id f = id ->
  (forall c, m_clock m c <= m_clock m' c) ->
  goes_on m m' me f rest n -> good id me t F b r m ->
  good id me t F b (r + Z.of_nat n) m'.
Proof.
  intros I Ef Eid Hm (p & Ec & Hp & HF & Hs) (H1 & H2 & H3).
  destruct H3 as [H3|(g & Eg & Et & HFg & Hsg)].
  { rewrite Ef, mine_cons, Eid, Z.eqb_refl in H3. done. }
  rewrite Ef, mine_cons, Eid, Z.eqb_refl in Eg. injection Eg as <- Erest. rewrite Et in *.
  split; [|split].
  - intros c Hne. rewrite Ec. unfold upd. destruct (Z.eqb_spec c me); [done|auto].
  - pose proof (seen_total _ _ _ _ Hp). lia.
  - right. exists (mk_call (c_id f) t p). rewrite Ec, upd_eq, mine_cons. cbn.
    rewrite Eid, Z.eqb_refl, Erest. repeat split; try done; [by apply HF|by apply HF|lia].
Qed.

Lemma step_good id me t F b r m e :
  inv m -> reads_below goff lim m e -> id ∉ starts e -> good id me t F b r m ->
  good id me t F b (r + retries id (step m e).2) (step m e).1 /\
  forall me' t' v, Returned id me' t' v ∈ (step m e).2 -> F <= v.
Proof.
  intros I Hx Hs G. pose proof (step_outcome m e I Hx) as Ho. destruct (step m e) as [m' o].
  cbn [fst snd]. destruct Ho as (Hm & _ & He).
  assert (Hm' : forall c, m_clock m c <= m_clock m' c) by (intros c; apply Hm).
  assert (Hnil : forall me' l, calls m' = upd (calls m) me' l ->
    mine id l = mine id (calls m me') -> good id me t F b r m').
  { intros me' l Ec El. apply (good_others id me t F b r m m'); [done| |done].
    intros c. rewrite Ec. unfold upd. by destruct (Z.eqb_spec c me') as [->|]. }
  destruct e as [me' t' i|me' i|me' x].
  1, 2: destruct He as [-> Ec]; split; [|intros ??? H; inversion H];
    change (retries id []) with 0; rewrite Z.add_0_r; apply (Hnil _ _ Ec);
    rewrite mine_cons; cbn [c_id];
    destruct (Z.eqb_spec i id) as [->|]; [exfalso; apply Hs, list_elem_of_here|done].
  destruct (calls m me') as [|f rest] eqn:Ef.
  { destruct He as [-> ->]. cbn. rewrite Z.add_0_r. split; [done|intros ??? H; inversion H]. }
  destruct He as (_ & _ & [(n & E & Hgo)|(v & E & Ec & HF & _)]); cbn [fst snd] in *; subst o.
  - rewrite retries_replicate. split; [|intros ??? [H _]%elem_of_replicate; done].
    destruct (Z.eqb_spec (c_id f) id) as [Eid|Eid].
    + assert (me' = me) as ->; [|by eapply good_goes_on].
      destruct (Z.eq_dec me' me) as [|Hne]; [done|]. destruct G as [H1 _]. specialize (H1 me' Hne).
      rewrite Ef, mine_cons, Eid, Z.eqb_refl in H1. done.
    + rewrite Z.add_0_r. destruct Hgo as (p & Ec & _). apply (Hnil me' _ Ec).
      rewrite Ef, !mine_cons. cbn [c_id]. destruct (Z.eqb_spec (c_id f) id); done.
  - cbn. rewrite Z.add_0_r. destruct (Z.eqb_spec (c_id f) id) as [Eid|Eid].
    + destruct (Z.eq_dec me' me) as [->|Hne].
      2: { destruct G as [H1 _]. specialize (H1 me' Hne).
           rewrite Ef, mine_cons, Eid, Z.eqb_refl in H1. done. }
      destruct (G) as (_ & _ & [H3|(g & Eg & Et & HFg & _)]);
        [by rewrite Ef, mine_cons, Eid, Z.eqb_refl in H3|].
      rewrite Ef, mine_cons, Eid, Z.eqb_refl in Eg. injection Eg as <- Erest.
      split; [by eapply good_leave|]. intros ??? Hin. apply list_elem_of_singleton in Hin.
      injection Hin as _ _ _ ->. apply HF. by rewrite Et.
    + split; [apply (Hnil me' _ Ec); rewrite Ef, mine_cons; by destruct (Z.eqb_spec (c_id f) id)|].
      intros ??? Hin. apply list_elem_of_singleton in Hin. injection Hin as Hid _ _ _. congruence.
Qed.

Lemma run_good id me t F b es : forall r m,
  inv m -> run_below TICK_NSEC goff lim m es -> id ∉ mjoin (starts <$> es) ->
  good id me t F b r m ->
  good id me t F b (r + retries id (run m es).2) (run m es).1 /\
  forall me' t' v, Returned id me' t' v ∈ (run m es).2 -> F <= v.
Proof.
  induction es as [|e es IH]; intros r m I Hb Hs G; cbn [Clock.run].
  { change (retries id []) with 0. rewrite Z.add_0_r. split; [done|intros ??? H; inversion H]. }
  destruct Hb as [Hx Hb]. cbn in Hs. apply not_elem_of_app in Hs as [Hs1 Hs2].
  destruct (clk_step_inv m e I Hx) as [I1 _].
  destruct (step_good id me t F b r m e I Hx Hs1 G) as [G1 HF1].
  destruct (step m e) as [m1 o]. cbn [fst snd] in *.
  destruct (IH _ m1 I1 Hb Hs2 G1) as [G2 HF2]. destruct (run m1 es) as [m2 os]. cbn [fst snd] in *.
  rewrite retries_app, Z.add_assoc. split; [done|].
  intros me' t' v [Hin|Hin]%elem_of_app; eauto.
Qed.

(** A call number that has not been used is on no stack. *)
Lemma run_fresh id es : forall m,
  inv m -> run_below TICK_NSEC goff lim m es -> id ∉ mjoin (starts <$> es) ->
  (forall c, mine id (calls m c) = []) -> forall c, mine id (calls (run m es).1 c) = [].
Proof.
  induction es as [|e es IH]; intros m I Hb Hs Hm; cbn [Clock.run]; [done|].
  destruct Hb as [Hx Hb]. cbn in Hs. apply not_elem_of_app in Hs as [Hs1 Hs2].
  destruct (clk_step_inv m e I Hx) as [I1 _].
  pose proof (step_outcome m e I Hx) as Ho. destruct (step m e) as [m1 o]. cbn [fst] in *.
  specialize (IH m1 I1 Hb Hs2). destruct (run m1 es) as [m2 os]. apply IH. clear IH.
  intros c. assert (Hupd : forall me l, calls m1 = upd (calls m) me l -> mine id l = [] ->
    mine id (calls m1 c) = []).
  { intros me l -> Hl. unfold upd. by destruct (c =? me). }
  destruct Ho as (_ & _ & He). destruct e as [me t i|me i|me x].
  1, 2: destruct He as [_ Ec]; apply (Hupd _ _ Ec); rewrite mine_cons; cbn [c_id];
    destruct (Z.eqb_spec i id) as [->|]; [exfalso; apply Hs1, list_elem_of_here|auto].
  pose proof (Hm me) as Hme. destruct (calls m me) as [|f rest]; [by destruct He as [-> _]|].
  rewrite mine_cons in Hme. destruct (Z.eqb_spec (c_id f) id) as [|Hne]; [done|].
  destruct He as (_ & _ & [(n & _ & p & Ec & _)|(v & _ & Ec & _)]); apply (Hupd _ _ Ec); [|done].
  rewrite mine_cons. cbn [c_id]. by destruct (Z.eqb_spec (c_id f) id).
Qed.

(** A call starts from where the clocks are. *)
Lemma call_good id me t m :
  (forall c, mine id (calls m c) = []) ->
  good id me t (m_clock m t) (total (m_clock m) me t) 0 (step m (Call me t id)).1.
Proof.
  intros Hm. cbn [Clock.step fst]. split; [|split].
  - intros c Hne. cbn. unfold upd. destruct (Z.eqb_spec c me); [done|apply Hm].
  - rewrite Z.add_0_r. apply Z.le_refl.
  - right. exists (mk_call id t ReadNow). cbn [leave calls]. rewrite upd_eq, mine_cons, Hm. cbn [c_id].
    rewrite Z.eqb_refl. split; [done|split; [done|split]].
    + split; [apply Z.le_refl|done].
    + rewrite Z.add_0_r. apply Z.le_refl.
Qed.

(** *** Calls left alone *)

(** [n] steps of processor [me] alone are enough for its call [f]. *)
Definition ends (n : nat) (m : machine) (me : Z) (f : call) : Prop :=
  forall rest xs, calls m me = f :: rest -> (n <= length xs)%nat ->
  exists v, Returned (c_id f) me (c_target f) v ∈ (run m (List.map (Step me) xs)).2.

Lemma ends_step n m me f :
  (forall rest x, calls m me = f :: rest ->
     let '(m', o) := step_call m me f rest x in
     (exists v, Returned (c_id f) me (c_target f) v ∈ o) \/
     (exists p, calls m' me = mk_call (c_id f) (c_target f) p :: rest /\
        ends n m' me (mk_call (c_id f) (c_target f) p))) ->
  ends (S n) m me f.
Proof.
  intros H rest [|x xs] Ec Hl; cbn in Hl; [lia|]. cbn [List.map Clock.run Clock.step].
  rewrite Ec. specialize (H rest x Ec). destruct (step_call m me f rest x) as [m' o].
  destruct H as [[v Hv]|(p & Ec' & He)].
  - exists v. destruct (run m' _). cbn. by apply elem_of_app; left.
  - destruct (He rest xs Ec' ltac:(lia)) as [v Hv]. exists v.
    destruct (run m' (List.map (Step me) xs)). cbn. apply elem_of_app. by right.
Qed.

Lemma ends_le n k m me f : (n <= k)%nat -> ends n m me f -> ends k m me f.
Proof. intros Hk H rest xs Ec Hl. apply (H rest); [done|lia]. Qed.

(** A step that moves the call to the point [p]. *)
Ltac ends_goto tac :=
  apply ends_step; intros ???; unfold Clock.step_call; cbn [c_point c_id c_target];
  right; eexists; split; [cbn; by rewrite upd_eq|tac].

Lemma ends_remote m me id t :
  ends 1 m me (mk_call id t (CmpxchgRemote (m_clock m me) (m_clock m t))).
Proof.
  apply ends_step. intros rest x Ec. unfold Clock.step_call. cbn [c_point c_id c_target].
  change (clock (m_scds m ?c)) with (m_clock m c). rewrite !Z.eqb_refl.
  destruct (_ <? 0); left; eexists; apply list_elem_of_here.
Qed.

Lemma ends_read_this m me id t : ends 3 m me (mk_call id t ReadThis).
Proof. ends_goto ltac:(ends_goto ltac:(apply ends_remote)). Qed.

Lemma ends_cmpxchg m me id t val : ends 4 m me (mk_call id t (CmpxchgLocal (m_clock m me) val)).
Proof.
  apply ends_step. intros rest x Ec. unfold Clock.step_call. cbn [c_point c_id c_target].
  change (clock (m_scds m me)) with (m_clock m me). rewrite Z.eqb_refl.
  destruct (t =? me); cbn [negb]; [left; eexists; apply list_elem_of_here|].
  right. exists ReadThis. split; [cbn; by rewrite upd_eq|apply ends_read_this].
Qed.

Lemma ends_read_clock m me id t d : ends 6 m me (mk_call id t (ReadClock d)).
Proof. ends_goto ltac:(ends_goto ltac:(apply ends_cmpxchg)). Qed.

Lemma ends_read_now m me id t : ends 8 m me (mk_call id t ReadNow).
Proof. ends_goto ltac:(ends_goto ltac:(apply ends_read_clock)). Qed.

(** An exchange that lost the race is followed by at most one more round. *)
Lemma ends_retry m me id t old val : ends 9 m me (mk_call id t (CmpxchgLocal old val)).
Proof.
  destruct (Z.eq_dec (m_clock m me) old) as [<-|Hne];
    [eapply ends_le; [|apply ends_cmpxchg]; lia|].
  apply ends_step. intros rest x Ec. unfold Clock.step_call. cbn [c_point c_id c_target].
  change (clock (m_scds m me)) with (m_clock m me). destruct (Z.eqb_spec (m_clock m me) old); [done|].
  right. exists ReadNow. split; [cbn; by rewrite upd_eq|apply ends_read_now].
Qed.

Lemma ends_retry_remote m me id t this remote :
  ends 4 m me (mk_call id t (CmpxchgRemote this remote)).
Proof.
  apply ends_step. intros rest x Ec. unfold Clock.step_call. cbn [c_point c_id c_target].
  destruct (s64 (remote - this) <? 0); [destruct (_ =? remote)|destruct (_ =? this)];
    try (left; eexists; apply list_elem_of_here);
    (right; exists ReadThis; split; [cbn; by rewrite upd_eq|apply ends_read_this]).
Qed.

(** Whatever point a call is at, ten steps of its processor alone finish it. *)
Lemma call_ends m me f : ends 10 m me f.
Proof.
  destruct f as [id t p]. destruct p.
  - ends_goto ltac:(ends_goto ltac:(apply ends_read_now)).
  - eapply ends_le; [|ends_goto ltac:(apply ends_read_now)]; lia.
  - eapply ends_le; [|apply ends_read_now]; lia.
  - eapply ends_le; [|ends_goto ltac:(apply ends_read_clock)]; lia.
  - eapply ends_le; [|apply ends_read_clock]; lia.
  - ends_goto ltac:(apply ends_retry).
  - eapply ends_le; [|apply ends_retry]; lia.
  - eapply ends_le; [|apply ends_read_this]; lia.
  - eapply ends_le; [|ends_goto ltac:(apply ends_retry_remote)]; lia.
  - eapply ends_le; [|apply ends_retry_remote]; lia.
Qed.

(** The state of the scheduler after [sched_clock_init], or at any other moment without
    calls in progress. *)
Definition boots (m : machine) : Prop :=
  (forall c, 0 <= m_clock m c <= lim + TICK_NSEC) /\
  (forall c, m_gtod goff m c <= lim) /\
  (forall c, calls m c = []).

Lemma boots_inv m : boots m -> inv m.
Proof.
  intros (H1 & H2 & H3). constructor; [done|done|]. intros me f Hf. rewrite H3 in Hf. inversion Hf.
Qed.

(** C18: Calls of [sched_clock_cpu] are monotonic in every interleaving of processors,
    interrupts and ticks.  When a call about processor [t] starts, every call that has
    returned before and was about [t], or was made on [t], has a value at most the one the
    new call returns, whatever the other processors do in between.  (The calls have
    different numbers; [lim] bounds the times of day that are read, so that the clock
    stays below [2^63] ns.) *)
Theorem sched_clock_monotonic m es1 es2 me t id :
  let m1 := (run m es1).1 in
  let m2 := (step m1 (Call me t id)).1 in
  boots m -> run_below TICK_NSEC goff lim m es1 -> run_below TICK_NSEC goff lim m2 es2 ->
  id ∉ mjoin (starts <$> es1) -> id ∉ mjoin (starts <$> es2) ->
  forall id' me' t' v' v,
    Returned id' me' t' v' ∈ (run m es1).2 -> (t' = t \/ me' = t) ->
    Returned id me t v ∈ (run m2 es2).2 -> v' <= v.
Proof.
  intros m1 m2 B H1 H2 Hf1 Hf2 id' me' t' v' v Hv' Ht Hv.
  pose proof (boots_inv m B) as I. destruct (clk_run_inv es1 m I H1) as [I1 _].
  destruct (run_returned es1 m id' me' t' v' I H1 Hv') as [Hle1 Hle2]. fold m1 in I1, Hle1, Hle2.
  assert (Hfresh : forall c, mine id (calls m1 c) = []).
  { apply run_fresh; [done|done|done|]. intros c. by rewrite (proj2 (proj2 B)). }
  destruct (clk_step_inv m1 (Call me t id) I1 Logic.I) as [I2 _].
  destruct (run_good id me t _ _ es2 0 m2 I2 H2 Hf2 (call_good id me t m1 Hfresh)) as [_ HF].
  specialize (HF me t v Hv). destruct Ht as [<- | <-]; lia.
Qed.

(** No reading of the raw counter can take a clock out of its window.  In every
    interleaving of calls, ticks and interrupts, with arbitrary counter readings, each
    clock only advances and stays at most one tick ahead of the latest time of day [lim]
    that a tick has read, and so does every value that a call returns. *)
Theorem sched_clock_window m es :
  boots m -> run_below TICK_NSEC goff lim m es ->
  (forall c, m_clock m c <= m_clock (run m es).1 c <= lim + TICK_NSEC) /\
  (forall id me t v, Returned id me t v ∈ (run m es).2 -> v <= lim + TICK_NSEC).
Proof.
  intros B Hb. destruct (clk_run_inv es m (boots_inv m B) Hb) as [I' Hm]. split.
  - intros c. pose proof (Hm c). pose proof (inv_clock _ I' c). lia.
  - intros id me t v Hv. destruct (run_returned es m id me t v (boots_inv m B) Hb Hv) as [H _].
    pose proof (inv_clock _ I' me). lia.
Qed.

(** C31: The retry loops end.  A call fails at most as many exchanges as the clocks of its
    two processors advance, in nanoseconds, while it runs; and from any state of the run,
    a call at the top of its processor's stack returns after at most ten steps when the
    others pause. *)
Theorem sched_clock_loops_end m es1 es2 me t id :
  let m1 := (run m es1).1 in
  let m2 := (step m1 (Call me t id)).1 in
  let m3 := (run m2 es2).1 in
  boots m -> run_below TICK_NSEC goff lim m es1 -> run_below TICK_NSEC goff lim m2 es2 ->
  id ∉ mjoin (starts <$> es1) -> id ∉ mjoin (starts <$> es2) ->
  retries id (run m2 es2).2
    <= (m_clock m3 me - m_clock m1 me) +
       (if t =? me then 0 else m_clock m3 t - m_clock m1 t) /\
  forall cpu f rest xs, calls m3 cpu = f :: rest -> (10 <= length xs)%nat ->
    exists v, Returned (c_id f) cpu (c_target f) v ∈ (run m3 (List.map (Step cpu) xs)).2.
Proof.
  intros m1 m2 m3 B H1 H2 Hf1 Hf2.
  pose proof (boots_inv m B) as I. destruct (clk_run_inv es1 m I H1) as [I1 _]. fold m1 in I1.
  assert (Hfresh : forall c, mine id (calls m1 c) = []).
  { apply run_fresh; [done|done|done|]. intros c. by rewrite (proj2 (proj2 B)). }
  destruct (clk_step_inv m1 (Call me t id) I1 Logic.I) as [I2 _].
  destruct (run_good id me t _ _ es2 0 m2 I2 H2 Hf2 (call_good id me t m1 Hfresh)) as [G _].
  split.
  - destruct G as (_ & G & _). unfold total in G. fold m3 in G. destruct (t =? me); lia.
  - intros cpu f rest xs Ec Hl. by apply (call_ends m3 cpu f rest).
Qed.

End Machine.

(** ** The loops and the operations *)

Section Refinement.

Context (TICK_NSEC : Z).

(** The steps of a call that nobody disturbs: five, and three more for a remote clock. *)
Definition call_steps (me t : Z) : nat := if t =? me then 5%nat else 8%nat.

(** Runs an undisturbed call, the clocks of the machine being those of the operation by
    [Hm], and compares the states processor by processor. *)
Ltac alone Hm :=
  repeat (cbn -[filter_clock raw_delta u64 s64 Z.eqb]; unfold upd; rewrite ?Z.eqb_refl, ?Hm).
Ltac pointwise Hm :=
  split; [done|]; intros c; rewrite ?Hm; split; zcase; try congruence; done.

(** A tick that runs undisturbed leaves what [sched_clock_tick] leaves. *)
Lemma sched_clock_tick_alone s m me id ktime raw now :
  sched_clock_stable s = false -> z2b (sched_clock_running s) = true ->
  (forall c, m_scds m c = scds s c) ->
  let m' := (run TICK_NSEC (gtod_offset s) m
               (Tick me id :: List.map (Step me) [ktime; raw; now; now; now; now; now])).1 in
  forall c, m_scds m' c = scds (sched_clock_tick TICK_NSEC s me ktime raw now) c /\
            calls m' c = calls m c.
Proof.
  intros Hst Hr Hm m' c. unfold sched_clock_tick. rewrite Hst, Hr. cbn [negb].
  unfold sched_clock_local, m'. clear m'. alone Hm. rewrite ?Hm. split; zcase; try congruence; done.
Qed.

Lemma sched_clock_cpu_alone s m me t id now :
  sched_clock_stable s = false -> z2b (sched_clock_running s) = true ->
  (forall c, m_scds m c = scds s c) ->
  let '(s', v) := sched_clock_cpu TICK_NSEC s me t now in
  let '(m', os) := run TICK_NSEC (gtod_offset s) m
                     (Call me t id :: replicate (call_steps me t) (Step me now)) in
  os = [Returned id me t v] /\
  forall c, m_scds m' c = scds s' c /\ calls m' c = calls m c.
Proof.
  intros Hst Hr Hm. unfold sched_clock_cpu, call_steps. rewrite Hst, Hr. cbn [negb].
  destruct (Z.eqb_spec t me) as [->|Hne]; cbn [negb]; [alone Hm; pointwise Hm|].
  apply Z.eqb_neq in Hne. unfold sched_clock_remote, sched_clock_local.
  repeat (alone Hm; rewrite ?Hne). destruct (_ <? 0);
    repeat (alone Hm; rewrite ?Hne); pointwise Hm.
Qed.

(** The machine of memory accesses implements the operations.  A call that nobody
    disturbs, the counter at [now], leaves the clocks that [sched_clock_cpu] leaves,
    returns its value and has no effect on the calls it interrupted; an undisturbed tick
    likewise does what [sched_clock_tick] does. *)
Theorem sched_clock_machine_refines s m me t id ktime raw now :
  sched_clock_stable s = false -> z2b (sched_clock_running s) = true ->
  (forall c, m_scds m c = scds s c) ->
  (let '(s', v) := sched_clock_cpu TICK_NSEC s me t now in
   let '(m', os) := run TICK_NSEC (gtod_offset s) m
                      (Call me t id :: replicate (call_steps me t) (Step me now)) in
   os = [Returned id me t v] /\
   forall c, m_scds m' c = scds s' c /\ calls m' c = calls m c) /\
  (let m' := (run TICK_NSEC (gtod_offset s) m
                (Tick me id :: List.map (Step me) [ktime; raw; now; now; now; now; now])).1 in
   forall c, m_scds m' c = scds (sched_clock_tick TICK_NSEC s me ktime raw now) c /\
             calls m' c = calls m c).
Proof.
  intros Hst Hr Hm. split; [by apply sched_clock_cpu_alone|by apply sched_clock_tick_alone].
Qed.

End Refinement.

(** ** The switches between the counter and the filter *)

Section Switches.

Context (TICK_NSEC : Z) (HT : 0 < TICK_NSEC < two63).

(** Inside the window the filter passes the counter through. *)
Lemma filter_clock_pass gtod delta old :
  is_u64 gtod -> is_u64 old ->
  0 <= delta <= TICK_NSEC -> s64 (gtod - old) + TICK_NSEC < two63 ->
  0 <= s64 (gtod - old) + delta ->
  filter_clock TICK_NSEC gtod delta old = u64 (gtod + delta).
Proof.
  intros Hg Ho Hd H1 H2.
  pose proof (filter_clock_exact TICK_NSEC HT gtod delta old ltac:(lia) H1) as E. cbv zeta in E.
  pose proof (filter_clock_range TICK_NSEC gtod delta old Hg Ho) as R.
  destruct (s64_cong (filter_clock TICK_NSEC gtod delta old - old)) as [k Ek].
  destruct (s64_cong (gtod - old)) as [j Ej].
  assert (Er : filter_clock TICK_NSEC gtod delta old = gtod + delta + (j - k) * two64) by lia.
  rewrite Er in *. unfold is_u64 in R. unfold u64.
  rewrite <- (Z.mod_small _ two64 R) at 1. by rewrite Z.mod_add.
Qed.

(** [sched_clock_local] when the counter has advanced by [d] since the tick. *)
Lemma local_pass s cpu d :
  is_u64 (clock (scds s cpu)) -> 0 <= d <= TICK_NSEC ->
  (let g := s64 (tick_gtod (scds s cpu) + gtod_offset s - clock (scds s cpu)) in
   0 <= g + d /\ g + TICK_NSEC < two63) ->
  (sched_clock_local TICK_NSEC s cpu (u64 (tick_raw (scds s cpu) + d))).2 =
  u64 (tick_gtod (scds s cpu) + gtod_offset s + d).
Proof.
  intros Hc Hd [H1 H2]. unfold sched_clock_local. cbn [snd].
  assert (raw_delta (u64 (tick_raw (scds s cpu) + d)) (tick_raw (scds s cpu)) = d) as ->.
  { unfold raw_delta. rewrite <- s64_u64, u64_sub_l, s64_u64.
    rewrite (s64_unique _ d 0) by lia. lia. }
  assert (E : s64 (u64 (tick_gtod (scds s cpu) + gtod_offset s) - clock (scds s cpu)) =
              s64 (tick_gtod (scds s cpu) + gtod_offset s - clock (scds s cpu))).
  { by rewrite <- s64_u64, u64_sub_l, s64_u64. }
  rewrite filter_clock_pass; [by rewrite u64_add_l|apply u64_range|done|done|lia|lia].
Qed.

Lemma gtod_offset_synced s me ktime raw :
  let s' := __sched_clock_gtod_offset s me ktime raw in
  u64 (ktime + gtod_offset s') = u64 (raw + sched_clock_offset s').
Proof. cbn. rewrite u64_add_r. f_equal. lia. Qed.

Lemma init_continuous s me ktime raw d :
  is_u64 (clock (scds s me)) -> 0 <= d <= TICK_NSEC ->
  sched_clock_stable s = false -> sched_clock_running s = 0 -> sched_clock_offset s = 0 ->
  0 <= s64 (raw - clock (scds s me)) + d -> s64 (raw - clock (scds s me)) + TICK_NSEC < two63 ->
  (sched_clock_cpu TICK_NSEC (sched_clock_init s me ktime raw) me me (u64 (raw + d))).2 =
  (sched_clock_cpu TICK_NSEC s me me (u64 (raw + d))).2.
Proof.
  intros Hc Hd Hs Hr Ho H1 H2. set (s' := sched_clock_init s me ktime raw).
  assert (Es : scds s' me = mk_scd raw ktime (clock (scds s me))) by (cbn; by rewrite upd_eq).
  unfold sched_clock_cpu. change (sched_clock_stable s') with (sched_clock_stable s).
  change (sched_clock_running s') with (sched_clock_running s + 1).
  rewrite Hs, Hr, Z.eqb_refl. change (negb (z2b (0 + 1))) with false. cbn [negb z2b Z.eqb snd].
  pose proof (local_pass s' me d) as L. rewrite Es in L. cbn [tick_raw tick_gtod clock] in L.
  change (gtod_offset s') with (u64 (raw + sched_clock_offset s - ktime)) in L.
  rewrite Ho, Z.add_0_r in L.
  assert (E : forall z, s64 (ktime + u64 (raw - ktime) - z) = s64 (raw - z)).
  { intros z. rewrite <- s64_u64, <- u64_sub_l, u64_add_r, u64_sub_l, s64_u64. f_equal. lia. }
  cbn zeta in L. rewrite E in L. rewrite L by (done || lia).
  rewrite <- u64_add_l, u64_add_r, u64_add_l. f_equal. lia.
Qed.

Lemma init_late_continuous s me d :
  let g := s64 (tick_gtod (scds s me) + gtod_offset s - clock (scds s me)) in
  let now := u64 (tick_raw (scds s me) + d) in
  is_u64 (clock (scds s me)) -> 0 <= d <= TICK_NSEC ->
  sched_clock_stable s = false -> sched_clock_running s = 1 -> 0 <= g + d ->
  g + TICK_NSEC < two63 ->
  (sched_clock_cpu TICK_NSEC (__set_sched_clock_stable (set_running s (sched_clock_running s + 1)) me)
     me me now).2 = (sched_clock_cpu TICK_NSEC s me me now).2.
Proof.
  intros g now Hc Hd Hs Hr H1 H2. unfold sched_clock_cpu. rewrite Hs, Hr, Z.eqb_refl.
  cbn [negb z2b Z.eqb]. unfold now. rewrite local_pass by done.
  cbn. rewrite u64_add_r, u64_add_l. f_equal. lia.
Qed.

Lemma work_continuous s me cpu ktime raw adv c :
  let s0 := sched_clock_tick_stable s cpu ktime raw in
  let s' := __sched_clock_work s0 me (u64 (ktime + adv)) (u64 (raw + adv)) in
  let now := u64 (raw + adv) in
  sched_clock_stable s = true -> z2b (sched_clock_running s) = true ->
  (sched_clock_cpu TICK_NSEC s' c c now).2 = (sched_clock_cpu TICK_NSEC s0 c c now).2.
Proof.
  cbv zeta. intros Hs Hr.
  assert (sched_clock_tick_stable s cpu ktime raw = __sched_clock_gtod_offset s cpu ktime raw) as ->
    by (unfold sched_clock_tick_stable; by rewrite Hs).
  set (s0 := __sched_clock_gtod_offset s cpu ktime raw). set (now := u64 (raw + adv)).
  set (s' := __sched_clock_work s0 me (u64 (ktime + adv)) now).
  unfold sched_clock_cpu at 2. change (sched_clock_stable s0) with (sched_clock_stable s).
  rewrite Hs. cbn [snd].
  unfold sched_clock_cpu. change (sched_clock_stable s') with false.
  change (sched_clock_running s') with (sched_clock_running s). rewrite Hr, Z.eqb_refl. cbn [negb].
  set (k := u64 (ktime + adv)) in *. set (o := u64 (raw + sched_clock_offset s - ktime)).
  assert (Es : scds s' c = mk_scd now k (u64 (k + o))) by done.
  pose proof (local_pass s' c 0) as L. rewrite Es in L. cbn [tick_raw tick_gtod clock] in L.
  change (gtod_offset s') with o in L. rewrite !Z.add_0_r in L. cbn zeta in L.
  assert (E : s64 (k + o - u64 (k + o)) = 0).
  { rewrite <- s64_u64, u64_sub_r, Z.sub_diag. reflexivity. }
  rewrite E in L. replace now with (u64 now) at 1 by (apply u64_idemp).
  rewrite L by (apply u64_range || lia). cbn. unfold k, o, now.
  rewrite !u64_add_l, u64_add_r. f_equal. lia.
Qed.

(** The clock is continuous across its three switches, read at the same instant before
    and after.  [sched_clock_init] continues where the bare counter was;
    [sched_clock_init_late] continues where the filter was, while the filter passes the
    counter through (the clock has not overtaken the time of day and the counter is within
    a tick); and [__sched_clock_work], run while counter and time of day have advanced
    equally since the last [sched_clock_tick_stable], continues the stable clock on every
    processor.  The relation that the comment asks for holds after each. *)
Theorem sched_clock_switches_continuous s me ktime raw d :
  is_u64 (clock (scds s me)) -> 0 <= d <= TICK_NSEC ->
  (let s' := sched_clock_init s me ktime raw in
   sched_clock_stable s = false -> sched_clock_running s = 0 -> sched_clock_offset s = 0 ->
   0 <= s64 (raw - clock (scds s me)) + d -> s64 (raw - clock (scds s me)) + TICK_NSEC < two63 ->
   u64 (ktime + gtod_offset s') = u64 (raw + sched_clock_offset s') /\
   (sched_clock_cpu TICK_NSEC s' me me (u64 (raw + d))).2 =
   (sched_clock_cpu TICK_NSEC s me me (u64 (raw + d))).2) /\
  (let s' := sched_clock_init_late s me in
   let g := s64 (tick_gtod (scds s me) + gtod_offset s - clock (scds s me)) in
   let now := u64 (tick_raw (scds s me) + d) in
   sched_clock_stable s = false -> sched_clock_running s = 1 ->
   z2b (sched_clock_stable_early s) = true -> 0 <= g + d -> g + TICK_NSEC < two63 ->
   sched_clock_stable s' = true /\
   u64 (tick_gtod (scds s me) + gtod_offset s') =
     u64 (tick_raw (scds s me) + sched_clock_offset s') /\
   (sched_clock_cpu TICK_NSEC s' me me now).2 = (sched_clock_cpu TICK_NSEC s me me now).2) /\
  (forall cpu adv,
   let s0 := sched_clock_tick_stable s cpu ktime raw in
   let s' := __sched_clock_work s0 me (u64 (ktime + adv)) (u64 (raw + adv)) in
   let now := u64 (raw + adv) in
   sched_clock_stable s = true -> z2b (sched_clock_running s) = true ->
   sched_clock_stable s' = false /\
   forall c, (sched_clock_cpu TICK_NSEC s' c c now).2 = (sched_clock_cpu TICK_NSEC s0 c c now).2).
Proof.
  intros Hc Hd. split; [|split].
  - intros s' Hs Hr Ho H1 H2. split; [by apply gtod_offset_synced|].
    by apply init_continuous.
  - intros s' g now Hs Hr He H1 H2. unfold s', sched_clock_init_late. cbn [set_running sched_clock_stable_early].
    rewrite He. split; [done|split; [|by apply init_late_continuous]].
    cbn. by rewrite u64_add_r, Zplus_minus.
  - intros cpu adv s0 s' now Hs Hr. split; [done|]. intros c. by apply work_continuous.
Qed.

End Switches.


(** ** Clearing against late initialisation *)

(** Of the keys: the counter follows [sched_clock_init_late]; the clock is not stable
    before its end; a call that has stored leaves [__sched_clock_stable_early] at zero;
    and one that is done after the end has the clock unstable or the work queued. *)
Record keys_ok (k : keys) : Prop := {
  ko_running : k_running k = match k_late k with LateInc => 1 | _ => 2 end;
  ko_stable : k_late k <> LateDone -> k_stable k = false;
  ko_stored : forall i, k_clear k i <> ClearStore -> k_early k = 0;
  ko_set : k_late k = LateSet -> k_early k <> 0;
  ko_done : forall i, k_late k = LateDone -> k_clear k i = ClearDone ->
    k_stable k = false \/ k_work k = true
}.

Lemma late_step_ok k : keys_ok k -> keys_ok (late_step k).
Proof.
  intros [H1 H2 H3 H4 H5]. unfold late_step. destruct (k_late k) eqn:El.
  - constructor; cbn; try done; [by rewrite H1|intros _; by apply H2].
  - assert (H2' := H2 ltac:(done)). constructor; cbn; try done.
    + by destruct (z2b (k_early k)).
    + destruct (z2b (k_early k)) eqn:Ez; [|done]. unfold z2b in Ez. intros _ E. rewrite E in Ez. done.
    + intros _ _ _. by left.
  - constructor; cbn; try done. intros i _ Hi. exfalso. apply (H4 eq_refl), (H3 i). by rewrite Hi.
  - by constructor; rewrite ?El.
Qed.

Lemma clear_step_ok k i : keys_ok k -> k_late k <> LateSet -> keys_ok (clear_step k i).
Proof.
  intros [H1 H2 H3 H4 H5] Hw. unfold clear_step. destruct (k_clear k i) eqn:Ei.
  - constructor; cbn; try done. intros j Hl. unfold upd.
    destruct (Z.eqb_spec j i); [done|]. eauto.
  - assert (E0 : k_early k = 0) by (apply (H3 i); by rewrite Ei).
    constructor; cbn; try done. intros j Hl. unfold upd.
    destruct (Z.eqb_spec j i); [|eauto]. rewrite H1, Hl. done.
  - assert (E0 : k_early k = 0) by (apply (H3 i); by rewrite Ei).
    constructor; cbn; try done. intros j Hl _. destruct (k_stable k); auto.
  - by constructor.
Qed.

Lemma work_step_ok k : keys_ok k -> keys_ok (work_step k).
Proof.
  intros Hk. unfold work_step. destruct (k_work k); [|done].
  destruct Hk as [H1 H2 H3 H4 H5]. constructor; cbn; eauto.
Qed.

Lemma key_run_ok es : forall k, keys_ok k -> undisturbed k es = true -> keys_ok (key_run k es).
Proof.
  induction es as [|e es IH]; intros k Hk Hu; [done|].
  cbn in Hu. apply andb_prop in Hu as [Hw Hu]. apply IH; [|done].
  destruct e as [|i|]; [by apply late_step_ok| |by apply work_step_ok].
  apply clear_step_ok; [done|]. intros E. unfold is_window in Hw. rewrite E in Hw. done.
Qed.

(** Once the clock is unstable after the initialisation it stays so. *)
Lemma unstable_forever es : forall k,
  k_late k = LateDone -> k_stable k = false -> k_stable (key_run k es) = false.
Proof.
  induction es as [|e es IH]; intros k Hl Hs; [done|]. apply IH; destruct e; cbn;
    unfold late_step, clear_step, work_step; rewrite ?Hl;
    try (by destruct (k_clear k thread)); by destruct (k_work k).
Qed.

(** The run in which a call of [clear_sched_clock_stable] has no effect: it comes between
    the test and the set of [sched_clock_init_late]. *)
Definition lost_clear : list key_event := [Late; Late; Clear 0; Clear 0; Clear 0; Late; Work].

(** C32: [clear_sched_clock_stable] takes effect, in every interleaving of any number of
    calls with [sched_clock_init_late] and the work item in which no call takes a step
    between the test of [__sched_clock_stable_early] and the update of the static key:
    when a call and the initialisation are done and no work is queued, the clock is not
    stable, and nothing makes it stable again.  In that window, which the barriers leave
    open, the call is lost. *)
Theorem clear_takes_effect es es' i :
  (let k := key_run key_start es in
   undisturbed key_start es = true ->
   k_late k = LateDone -> k_clear k i = ClearDone -> k_work k = false ->
   k_stable k = false /\ k_stable (key_run k es') = false) /\
  (let k := key_run key_start lost_clear in
   k_late k = LateDone /\ k_clear k 0 = ClearDone /\ k_work k = false /\ k_stable k = true).
Proof.
  split; [|done]. intros k Hu Hl Hc Hw.
  assert (Hk : keys_ok k) by (by apply key_run_ok; [constructor|]).
  assert (k_stable k = false) by (destruct (ko_done k Hk i Hl Hc); congruence).
  split; [done|by apply unstable_forever].
Qed.

(** ** Witnesses *)

(** Two processors with a tick of 4 ms, the time of day at most 20 ms.  Processor 1 asks
    for its own clock and for that of processor 0 while processor 0 takes a tick. *)
Definition two_cpus : machine :=
  mk_machine (fun c => mk_scd 100 1000000 (if c =? 0 then 1000050 else 1000000)) (fun _ => []).
Definition alone_call (me t id x : Z) : list event :=
  Call me t id :: replicate (call_steps me t) (Step me x).
Definition racing : list event :=
  [Step 1 950; Step 1 950; Step 1 950; Tick 0 7; Step 0 2000000; Step 0 500; Step 1 950; Step 1 950;
   Step 1 950; Step 1 950; Step 0 800; Step 0 800; Step 0 800; Step 0 800; Step 0 800;
   Step 1 950; Step 1 950; Step 1 950; Step 1 950].
Definition settled : machine := (run 4000000 0 two_cpus (alone_call 0 0 1 900)).1.
Definition asked : machine := (step 4000000 0 settled (Call 1 0 2)).1.

Lemma two_cpus_boots : boots 4000000 0 20000000 two_cpus.
Proof.
  split; [|split; [intros c; by vm_compute|done]].
  intros c. unfold m_clock. cbn. destruct (c =? 0); lia.
Qed.

(** The readings of a concrete run. *)
Ltac below := vm_compute; repeat split; intros; discriminate.
Ltac unused := apply (bool_decide_unpack _); by vm_compute.

Lemma sched_clock_monotonic_witness : 1000800 <= 2000300.
Proof.
  apply (sched_clock_monotonic 4000000 0 20000000 ltac:(lia) ltac:(lia) two_cpus
    (alone_call 0 0 1 900) racing 1 0 2 two_cpus_boots ltac:(below) ltac:(below)
    ltac:(unused) ltac:(unused) 1 0 0 1000800 2000300).
  - vm_compute. left.
  - by left.
  - vm_compute. do 2 right. left.
Defined.

Lemma sched_clock_window_witness : 2000300 <= 24000000.
Proof.
  apply (proj2 (sched_clock_window 4000000 0 20000000 ltac:(lia) ltac:(lia) two_cpus
    (alone_call 0 0 1 900 ++ Call 1 0 2 :: racing) two_cpus_boots ltac:(below)) 2 1 0).
  vm_compute. do 3 right. left.
Defined.

(** The exchange of processor 1 fails once, because the tick has moved the clock. *)
Lemma sched_clock_loops_end_witness :
  retries 2 (run 4000000 0 asked racing).2 = 1 /\ 1 <= 1000300 + 999500.
Proof.
  split; [by vm_compute|].
  apply (proj1 (sched_clock_loops_end 4000000 0 20000000 ltac:(lia) ltac:(lia) two_cpus
    (alone_call 0 0 1 900) racing 1 0 2 two_cpus_boots ltac:(below) ltac:(below)
    ltac:(unused) ltac:(unused))).
Defined.

(** The same two processors, the clock unstable and running. *)
Definition two_sys (running early : Z) (stable : bool) : sys :=
  mk_sys running stable early 0 0 false (m_scds two_cpus).

Lemma sched_clock_machine_refines_witness :
  (run 4000000 0 two_cpus (alone_call 1 0 5 900)).2 =
  [Returned 5 1 0 (sched_clock_cpu 4000000 (two_sys 2 0 false) 1 0 900).2].
Proof.
  exact (proj1 (proj1 (sched_clock_machine_refines 4000000 (two_sys 2 0 false) two_cpus 1 0 5
    2000000 100 900 eq_refl eq_refl (fun c => eq_refl)))).
Defined.

(** The three switches at 600 ns after the stamp of processor 1. *)
Lemma sched_clock_switches_continuous_witness :
  (sched_clock_cpu 4000000 (sched_clock_init (two_sys 0 1 false) 1 70 3000000) 1 1 3000600).2
    = 3000600 /\
  (sched_clock_cpu 4000000 (sched_clock_init_late (two_sys 1 1 false) 1) 1 1 700).2 = 1000600 /\
  (sched_clock_cpu 4000000
     (__sched_clock_work (sched_clock_tick_stable (two_sys 2 1 true) 0 5000 9000) 1 6000 10000)
     1 1 10000).2 = 10000.
Proof.
  split; [|split].
  - exact (proj2 (proj1 (sched_clock_switches_continuous 4000000 ltac:(lia) (two_sys 0 1 false) 1 70
      3000000 600 ltac:(by vm_compute) ltac:(lia)) eq_refl eq_refl eq_refl ltac:(by vm_compute)
      ltac:(by vm_compute))).
  - exact (proj2 (proj2 (proj1 (proj2 (sched_clock_switches_continuous 4000000 ltac:(lia)
      (two_sys 1 1 false) 1 70 3000000 600 ltac:(by vm_compute) ltac:(lia))) eq_refl eq_refl eq_refl
      ltac:(by vm_compute) ltac:(by vm_compute)))).
  - exact (proj2 (proj2 (proj2 (sched_clock_switches_continuous 4000000 ltac:(lia)
      (two_sys 2 1 true) 1 5000 9000 600 ltac:(by vm_compute) ltac:(lia))) 0 1000 eq_refl eq_refl) 1).
Defined.

(** Two calls, one before the initialisation and one after it. *)
Lemma clear_takes_effect_witness :
  k_stable (key_run (key_run key_start [Clear 3; Late; Clear 3; Clear 3; Late; Clear 4])
    [Clear 4; Clear 4; Work]) = false.
Proof.
  exact (proj2 (proj1 (clear_takes_effect [Clear 3; Late; Clear 3; Clear 3; Late; Clear 4]
    [Clear 4; Clear 4; Work] 3) eq_refl eq_refl eq_refl eq_refl)).
Defined.

End Clock.
