(* ===== verification/Cputime.v ===== *)
(** CPU time accounting: [kernel/sched/cputime.c] with CONFIG_IRQ_TIME_ACCOUNTING,
    CONFIG_PARAVIRT and CONFIG_VIRT_CPU_ACCOUNTING_GEN, without the NATIVE variants.

    Time of a processor goes to the fields of [cpustat] and to the tasks, either by ticks
    or, on processors without a tick, from clock readings that wait in the [vtime] of the
    task until they amount to a tick; interrupt and stolen time is taken out of both.
    Readers add what waits, and [cputime_adjust] scales the times of a task to its exact
    runtime.  One processor is modelled, with all the tasks it may run; what it reads (the
    clock, the stolen time, [preempt_count]) are inputs.  The theorems show that time is
    accounted once, that the readers agree, and what [cputime_adjust] guarantees with the
    two multiplication routines of the kernel. *)

From Stdlib Require Import ZArith Lia List.
From stdpp Require Import base list numbers option.
From S2P Require Import Prelude.

Module Cputime.

(** ** State *)

(** [enum cpu_usage_stat]. *)
Definition CPUTIME_USER : Z := 0.
Definition CPUTIME_NICE : Z := 1.
Definition CPUTIME_SYSTEM : Z := 2.
Definition CPUTIME_SOFTIRQ : Z := 3.
Definition CPUTIME_IRQ : Z := 4.
Definition CPUTIME_IDLE : Z := 5.
Definition CPUTIME_IOWAIT : Z := 6.
Definition CPUTIME_STEAL : Z := 7.
Definition CPUTIME_GUEST : Z := 8.
Definition CPUTIME_GUEST_NICE : Z := 9.

Inductive vtime_state := VTIME_INACTIVE | VTIME_IDLE | VTIME_SYS | VTIME_USER | VTIME_GUEST.

Record vtime := mk_vtime {
  v_starttime : Z;
  v_state : vtime_state;
  v_cpu : Z;
  v_utime : Z;
  v_stime : Z;
  v_gtime : Z
}.

(** The fields of [struct task_struct]; [vcpu] is the flag PF_VCPU. *)
Record task_struct := mk_task {
  utime : Z;
  stime : Z;
  gtime : Z;
  sum_exec_runtime : Z;
  nice : Z;
  vcpu : bool;
  t_vtime : vtime
}.

(** The processor: [kernel_cpustat], [struct irqtime], [rq->prev_steal_time]. *)
Record world := mk_world {
  cpustat : Z -> Z;
  irq_total : Z;
  tick_delta : Z;
  irq_start_time : Z;
  prev_steal_time : Z;
  tasks : Z -> task_struct
}.

(** What the code reads elsewhere: the clocks, [paravirt_steal_enabled] and the stolen
    time, [preempt_count()], whether tasks wait for I/O, [sched_clock_irqtime] and
    [vtime_accounting_enabled_this_cpu()]. *)
Record inputs := mk_inputs {
  i_clock : Z;
  i_steal_enabled : bool;
  i_steal_clock : Z;
  i_preempt_count : Z;
  i_iowait : bool;
  i_irqtime : bool;
  i_vtime : bool
}.

Definition SOFTIRQ_OFFSET : Z := 0x100.
Definition SOFTIRQ_MASK : Z := 0xff00.
Definition HARDIRQ_OFFSET : Z := 0x10000.
Definition HARDIRQ_MASK : Z := 0xf0000.
Definition NMI_MASK : Z := 0xf00000.

Definition hardirq_count (e : inputs) : Z := Z.land (i_preempt_count e) HARDIRQ_MASK.
Definition irq_count (e : inputs) : Z :=
  Z.lor (Z.lor (Z.land (i_preempt_count e) NMI_MASK) (hardirq_count e))
    (Z.land (i_preempt_count e) SOFTIRQ_MASK).
Definition in_serving_softirq (e : inputs) : bool :=
  z2b (Z.land (Z.land (i_preempt_count e) SOFTIRQ_MASK) SOFTIRQ_OFFSET).

(** Updates. *)
Definition stat_add (w : world) (index x : Z) : world :=
  mk_world (upd (cpustat w) index (cpustat w index +u64 x)) (irq_total w) (tick_delta w)
    (irq_start_time w) (prev_steal_time w) (tasks w).
Definition set_task (w : world) (p : Z) (t : task_struct) : world :=
  mk_world (cpustat w) (irq_total w) (tick_delta w) (irq_start_time w) (prev_steal_time w)
    (upd (tasks w) p t).
Definition add_times (t : task_struct) (u s g : Z) : task_struct :=
  mk_task (utime t +u64 u) (stime t +u64 s) (gtime t +u64 g) (sum_exec_runtime t) (nice t)
    (vcpu t) (t_vtime t).
Definition set_vtime (t : task_struct) (v : vtime) : task_struct :=
  mk_task (utime t) (stime t) (gtime t) (sum_exec_runtime t) (nice t) (vcpu t) v.
Definition set_vcpu (t : task_struct) (b : bool) : task_struct :=
  mk_task (utime t) (stime t) (gtime t) (sum_exec_runtime t) (nice t) b (t_vtime t).
Definition set_state (v : vtime) (st : vtime_state) : vtime :=
  mk_vtime (v_starttime v) st (v_cpu v) (v_utime v) (v_stime v) (v_gtime v).
Definition w_vtime (w : world) (p : Z) : vtime := t_vtime (tasks w p).
Definition put_vtime (w : world) (p : Z) (v : vtime) : world :=
  set_task w p (set_vtime (tasks w p) v).

Section Accounting.

Context (TICK_NSEC : Z).

(** ** Interrupt and stolen time *)

Definition irqtime_account_delta (w : world) (delta idx : Z) : world :=
  let w := stat_add w idx delta in
  mk_world (cpustat w) (irq_total w +u64 delta) (tick_delta w +u64 delta) (irq_start_time w)
    (prev_steal_time w) (tasks w).

(** [ksoftirqd] tells whether the current task is [this_cpu_ksoftirqd()]. *)
Definition irqtime_account_irq (w : world) (e : inputs) (ksoftirqd : bool) (offset : Z) : world :=
  if negb (i_irqtime e) then w
  else
    let delta := s64 (i_clock e - irq_start_time w) in
    let w := mk_world (cpustat w) (irq_total w) (tick_delta w) (irq_start_time w +u64 delta)
               (prev_steal_time w) (tasks w) in
    let pc := irq_count e -u32 offset in
    if z2b (Z.land pc HARDIRQ_MASK) then irqtime_account_delta w delta CPUTIME_IRQ
    else if z2b (Z.land pc SOFTIRQ_OFFSET) && negb ksoftirqd
    then irqtime_account_delta w delta CPUTIME_SOFTIRQ
    else w.

Definition irqtime_tick_accounted (w : world) (maxtime : Z) : world * Z :=
  let delta := Z.min (tick_delta w) maxtime in
  (mk_world (cpustat w) (irq_total w) (tick_delta w -u64 delta) (irq_start_time w)
     (prev_steal_time w) (tasks w), delta).

Definition account_steal_time (w : world) (cputime : Z) : world :=
  stat_add w CPUTIME_STEAL cputime.

Definition steal_account_process_time (w : world) (e : inputs) (maxtime : Z) : world * Z :=
  if i_steal_enabled e then
    let steal := Z.min (i_steal_clock e -u64 prev_steal_time w) maxtime in
    let w := account_steal_time w steal in
    (mk_world (cpustat w) (irq_total w) (tick_delta w) (irq_start_time w)
       (prev_steal_time w +u64 steal) (tasks w), steal)
  else (w, 0).

Definition account_other_time (w : world) (e : inputs) (max : Z) : world * Z :=
  let '(w, accounted) := steal_account_process_time w e max in
  if accounted <? max then
    let '(w, irq) := irqtime_tick_accounted w (max - accounted) in (w, accounted +u64 irq)
  else (w, accounted).

(** ** Time of tasks *)

Definition account_user_time (w : world) (p cputime : Z) : world :=
  let w := set_task w p (add_times (tasks w p) cputime 0 0) in
  let index := if 0 <? nice (tasks w p) then CPUTIME_NICE else CPUTIME_USER in
  stat_add w index cputime.

Definition account_guest_time (w : world) (p cputime : Z) : world :=
  let w := set_task w p (add_times (tasks w p) cputime 0 cputime) in
  if 0 <? nice (tasks w p)
  then stat_add (stat_add w CPUTIME_NICE cputime) CPUTIME_GUEST_NICE cputime
  else stat_add (stat_add w CPUTIME_USER cputime) CPUTIME_GUEST cputime.

Definition account_system_index_time (w : world) (p cputime index : Z) : world :=
  stat_add (set_task w p (add_times (tasks w p) 0 cputime 0)) index cputime.

Definition account_system_time (w : world) (e : inputs) (p hardirq_offset cputime : Z) : world :=
  if vcpu (tasks w p) && (irq_count e - hardirq_offset =? 0) then account_guest_time w p cputime
  else
    let index :=
      if z2b (hardirq_count e - hardirq_offset) then CPUTIME_IRQ
      else if in_serving_softirq e then CPUTIME_SOFTIRQ else CPUTIME_SYSTEM in
    account_system_index_time w p cputime index.

Definition account_idle_time (w : world) (e : inputs) (cputime : Z) : world :=
  stat_add w (if i_iowait e then CPUTIME_IOWAIT else CPUTIME_IDLE) cputime.

(** ** Ticks *)

(** [ksoftirqd] and [idle] tell whether [p] is the processor's thread for softirqs or its
    idle task. *)
Definition irqtime_account_process_tick (w : world) (e : inputs) (p : Z) (ksoftirqd idle user_tick : bool)
    (ticks : Z) : world :=
  let cputime := u64 (TICK_NSEC * ticks) in
  let '(w, other) := account_other_time w e ULONG_MAX in
  if cputime <=? other then w
  else
    let cputime := cputime - other in
    if ksoftirqd then account_system_index_time w p cputime CPUTIME_SOFTIRQ
    else if user_tick then account_user_time w p cputime
    else if idle then account_idle_time w e cputime
    else if vcpu (tasks w p) then account_guest_time w p cputime
    else account_system_index_time w p cputime CPUTIME_SYSTEM.

Definition account_process_tick (w : world) (e : inputs) (p : Z) (ksoftirqd idle user_tick : bool) : world :=
  if i_vtime e then w
  else if i_irqtime e then irqtime_account_process_tick w e p ksoftirqd idle user_tick 1
  else
    let cputime := TICK_NSEC in
    let '(w, steal) := steal_account_process_time w e ULONG_MAX in
    if cputime <=? steal then w
    else
      let cputime := cputime - steal in
      if user_tick then account_user_time w p cputime
      else if negb idle || negb (irq_count e =? HARDIRQ_OFFSET)
      then account_system_time w e p HARDIRQ_OFFSET cputime
      else account_idle_time w e cputime.

(** [curr] is the current task, with [ksoftirqd] and [idle] as above. *)
Definition account_idle_ticks (w : world) (e : inputs) (curr : Z) (ksoftirqd idle : bool) (ticks : Z) : world :=
  if i_irqtime e then irqtime_account_process_tick w e curr ksoftirqd idle false (s32 ticks)
  else
    let cputime := u64 (ticks * TICK_NSEC) in
    let '(w, steal) := steal_account_process_time w e ULONG_MAX in
    if cputime <=? steal then w else account_idle_time w e (cputime - steal).

(** ** Accounting without a tick *)

Definition vtime_delta (v : vtime) (clock : Z) : Z :=
  if clock <? v_starttime v then 0 else clock - v_starttime v.

Definition get_vtime_delta (w : world) (e : inputs) (p : Z) : world * Z :=
  let delta := vtime_delta (w_vtime w p) (i_clock e) in
  let '(w, other) := account_other_time w e delta in
  let v := w_vtime w p in
  (put_vtime w p (mk_vtime (v_starttime v +u64 delta) (v_state v) (v_cpu v) (v_utime v)
                    (v_stime v) (v_gtime v)),
   delta -u64 other).

Definition set_pending (v : vtime) (u st g : Z) : vtime :=
  mk_vtime (v_starttime v) (v_state v) (v_cpu v) u st g.

Definition vtime_account_system (w : world) (e : inputs) (p : Z) : world :=
  let '(w, d) := get_vtime_delta w e p in
  let v := w_vtime w p in
  let st := v_stime v +u64 d in
  if TICK_NSEC <=? st then
    let w := account_system_time w e p (irq_count e) st in
    put_vtime w p (set_pending (w_vtime w p) (v_utime v) 0 (v_gtime v))
  else put_vtime w p (set_pending v (v_utime v) st (v_gtime v)).

Definition vtime_account_guest (w : world) (e : inputs) (p : Z) : world :=
  let '(w, d) := get_vtime_delta w e p in
  let v := w_vtime w p in
  let g := v_gtime v +u64 d in
  if TICK_NSEC <=? g then
    let w := account_guest_time w p g in
    put_vtime w p (set_pending (w_vtime w p) (v_utime v) (v_stime v) 0)
  else put_vtime w p (set_pending v (v_utime v) (v_stime v) g).

Definition __vtime_account_kernel (w : world) (e : inputs) (p : Z) : world :=
  match v_state (w_vtime w p) with
  | VTIME_GUEST => vtime_account_guest w e p
  | _ => vtime_account_system w e p
  end.

Definition vtime_account_kernel (w : world) (e : inputs) (p : Z) : world :=
  if negb (z2b (vtime_delta (w_vtime w p) (i_clock e))) then w
  else __vtime_account_kernel w e p.

Definition put_state (w : world) (p : Z) (st : vtime_state) : world :=
  put_vtime w p (set_state (w_vtime w p) st).

Definition vtime_user_enter (w : world) (e : inputs) (p : Z) : world :=
  put_state (vtime_account_system w e p) p VTIME_USER.

Definition vtime_user_exit (w : world) (e : inputs) (p : Z) : world :=
  let '(w, d) := get_vtime_delta w e p in
  let v := w_vtime w p in
  let u := v_utime v +u64 d in
  let w :=
    if TICK_NSEC <=? u then
      let w := account_user_time w p u in
      put_vtime w p (set_pending (w_vtime w p) 0 (v_stime v) (v_gtime v))
    else put_vtime w p (set_pending v u (v_stime v) (v_gtime v)) in
  put_state w p VTIME_SYS.

Definition vtime_guest_enter (w : world) (e : inputs) (p : Z) : world :=
  let w := vtime_account_system w e p in
  put_state (set_task w p (set_vcpu (tasks w p) true)) p VTIME_GUEST.

Definition vtime_guest_exit (w : world) (e : inputs) (p : Z) : world :=
  let w := vtime_account_guest w e p in
  put_state (set_task w p (set_vcpu (tasks w p) false)) p VTIME_SYS.

Definition vtime_account_idle (w : world) (e : inputs) (p : Z) : world :=
  let '(w, d) := get_vtime_delta w e p in account_idle_time w e d.

(** From [prev] to [next]; [idle] tells whether [next] is the idle task, and [clock2] is
    the second reading of the clock. *)
Definition vtime_task_switch_generic (w : world) (e : inputs) (prev next : Z) (idle : bool)
    (cpu clock2 : Z) : world :=
  let w :=
    match v_state (w_vtime w prev) with
    | VTIME_IDLE => vtime_account_idle w e prev
    | _ => __vtime_account_kernel w e prev
    end in
  let v := w_vtime w prev in
  let w := put_vtime w prev
             (mk_vtime (v_starttime v) VTIME_INACTIVE (-1) (v_utime v) (v_stime v) (v_gtime v)) in
  let v := w_vtime w next in
  let st := if idle then VTIME_IDLE else if vcpu (tasks w next) then VTIME_GUEST else VTIME_SYS in
  put_vtime w next (mk_vtime clock2 st cpu (v_utime v) (v_stime v) (v_gtime v)).

Definition vtime_init_idle (w : world) (t cpu clock : Z) : world :=
  let v := w_vtime w t in
  put_vtime w t (mk_vtime clock VTIME_IDLE cpu (v_utime v) (v_stime v) (v_gtime v)).

End Accounting.

(** ** Readers *)

(** The sequence counter makes a reader's pass atomic; [enabled] is
    [vtime_accounting_enabled()]. *)
Definition task_gtime (enabled : bool) (clock : Z) (t : task_struct) : Z :=
  if negb enabled then gtime t
  else
    match v_state (t_vtime t) with
    | VTIME_GUEST => gtime t +u64 (v_gtime (t_vtime t) +u64 vtime_delta (t_vtime t) clock)
    | _ => gtime t
    end.

Definition task_cputime (enabled : bool) (clock : Z) (t : task_struct) : bool * Z * Z :=
  if negb enabled then (false, utime t, stime t)
  else
    let v := t_vtime t in
    let delta := vtime_delta v clock in
    match v_state v with
    | VTIME_INACTIVE | VTIME_IDLE => (false, utime t, stime t)
    | VTIME_SYS => (true, utime t, stime t +u64 (v_stime v +u64 delta))
    | _ => (true, utime t +u64 (v_utime v +u64 delta), stime t)
    end.

(** [None] is the error EAGAIN. *)
Definition vtime_state_fetch (v : vtime) (cpu : Z) : option vtime_state :=
  if negb (v_cpu v =? cpu) && negb (v_cpu v =? -1) then None
  else match v_state v with VTIME_INACTIVE => None | st => Some st end.

Definition kcpustat_user_vtime (v : vtime) (clock : Z) : Z :=
  match v_state v with
  | VTIME_USER => v_utime v +u64 vtime_delta v clock
  | VTIME_GUEST => v_gtime v +u64 vtime_delta v clock
  | _ => 0
  end.

Definition is_guest (st : vtime_state) : bool :=
  match st with VTIME_GUEST => true | _ => false end.
Definition is_sys (st : vtime_state) : bool :=
  match st with VTIME_SYS => true | _ => false end.

Definition kcpustat_field_vtime (stat : Z -> Z) (t : task_struct) (usage cpu clock : Z) : option Z :=
  let v := t_vtime t in
  state ← vtime_state_fetch v cpu;
  let pending :=
    if usage =? CPUTIME_SYSTEM then
      if is_sys state then v_stime v +u64 vtime_delta v clock else 0
    else if usage =? CPUTIME_USER then
      if nice t <=? 0 then kcpustat_user_vtime v clock else 0
    else if usage =? CPUTIME_NICE then
      if 0 <? nice t then kcpustat_user_vtime v clock else 0
    else if usage =? CPUTIME_GUEST then
      if is_guest state && (nice t <=? 0) then v_gtime v +u64 vtime_delta v clock else 0
    else if usage =? CPUTIME_GUEST_NICE then
      if is_guest state && (0 <? nice t) then v_gtime v +u64 vtime_delta v clock else 0
    else 0 in
  Some (stat usage +u64 pending).

Definition kcpustat_cpu_fetch_vtime (stat : Z -> Z) (t : task_struct) (cpu clock : Z) : option (Z -> Z) :=
  let v := t_vtime t in
  state ← vtime_state_fetch v cpu;
  let delta := vtime_delta v clock in
  let add st i x := upd st i (st i +u64 (x +u64 delta)) in
  Some match state with
  | VTIME_INACTIVE | VTIME_IDLE => stat
  | VTIME_SYS => add stat CPUTIME_SYSTEM (v_stime v)
  | VTIME_USER =>
      if 0 <? nice t then add stat CPUTIME_NICE (v_utime v) else add stat CPUTIME_USER (v_utime v)
  | VTIME_GUEST =>
      if 0 <? nice t
      then add (add stat CPUTIME_GUEST_NICE (v_gtime v)) CPUTIME_NICE (v_gtime v)
      else add (add stat CPUTIME_GUEST (v_gtime v)) CPUTIME_USER (v_gtime v)
  end.

(** ** Scaling to the runtime *)

Record task_cputime_t := mk_cputime { c_stime : Z; c_utime : Z; c_runtime : Z }.
Record prev_cputime := mk_prev { p_utime : Z; p_stime : Z }.

(** [lib/math/div64.c], for architectures without their own; division by zero has no
    value.  [ilog2] is [fls64 - 1]. *)
Definition ilog2 (n : Z) : Z := if n =? 0 then -1 else Z.log2 n.

Definition mul_u64_u64_div_u64 (a b c : Z) : option Z :=
  if c =? 0 then None
  else if 62 <? ilog2 a + ilog2 b then
    let res := u64 (b / c * a) in
    let b := b mod c in
    let shift := ilog2 a + ilog2 b - 62 in
    if 0 <? shift then
      let b := Z.shiftr b shift in
      let c := Z.shiftr c shift in
      if c =? 0 then Some res else Some (res +u64 (u64 (a * b) / c))
    else Some (res +u64 (u64 (a * b) / c))
  else Some (u64 (a * b) / c).

(** The x86 version: a 128-bit product, and a trap when the quotient does not fit. *)
Definition x86_mul_u64_u64_div_u64 (a mul div : Z) : option Z :=
  if div =? 0 then None
  else if a * mul / div <? two64 then Some (a * mul / div) else None.

(** What [cputime_adjust] needs of the routine: a share of [r] is at most [r]. *)
Class MulDivLaws (mul : Z -> Z -> Z -> option Z) : Prop := {
  mul_share : forall s u r, 0 < s -> 0 < u -> s + u < two64 -> is_u64 r ->
    exists q, mul s r (s + u) = Some q /\ 0 <= q <= r
}.

Section Adjust.

Context (mul : Z -> Z -> Z -> option Z).

(** The label [update]. *)
Definition adjust_update (rtime stime : Z) (prev : prev_cputime) : prev_cputime :=
  let stime := if stime <? p_stime prev then p_stime prev else stime in
  let utime := rtime -u64 stime in
  if utime <? p_utime prev
  then mk_prev (p_utime prev) (rtime -u64 p_utime prev)
  else mk_prev utime stime.

Definition cputime_adjust (curr : task_cputime_t) (prev : prev_cputime) : option prev_cputime :=
  let rtime := c_runtime curr in
  if rtime <=? p_stime prev +u64 p_utime prev then Some prev
  else
    if c_stime curr =? 0 then Some (adjust_update rtime 0 prev)
    else if c_utime curr =? 0 then Some (adjust_update rtime rtime prev)
    else
      stime ← mul (c_stime curr) rtime (c_stime curr +u64 c_utime curr);
      Some (adjust_update rtime stime prev).

(** [runtime] is the result of [task_sched_runtime(p)]. *)
Definition task_cputime_adjusted (enabled : bool) (clock runtime : Z) (t : task_struct)
    (prev : prev_cputime) : option prev_cputime :=
  let '(running, u, s) := task_cputime enabled clock t in
  cputime_adjust (mk_cputime s u (if running then runtime else sum_exec_runtime t)) prev.

(** The times of the dead threads in [sig] and of the live ones, under [stats_lock]. *)
Fixpoint thread_group_sum (enabled : bool) (clock : Z) (times : task_cputime_t)
    (ts : list task_struct) : task_cputime_t :=
  match ts with
  | [] => times
  | t :: ts =>
      let '(_, u, s) := task_cputime enabled clock t in
      thread_group_sum enabled clock
        (mk_cputime (c_stime times +u64 s) (c_utime times +u64 u)
           (c_runtime times +u64 sum_exec_runtime t)) ts
  end.

Definition thread_group_cputime (enabled : bool) (clock : Z) (sig : task_cputime_t)
    (threads : list task_struct) : task_cputime_t :=
  thread_group_sum enabled clock sig threads.

Definition thread_group_cputime_adjusted (enabled : bool) (clock : Z) (sig : task_cputime_t)
    (threads : list task_struct) (prev : prev_cputime) : option prev_cputime :=
  cputime_adjust (thread_group_cputime enabled clock sig threads) prev.

(** A history of calls for one task or group. *)
Fixpoint adjusted (prev : prev_cputime) (l : list task_cputime_t) : option prev_cputime :=
  match l with
  | [] => Some prev
  | c :: l => p ← cputime_adjust c prev; adjusted p l
  end.

End Adjust.

(** ** Histories of a processor *)

(** What happens on a processor that accounts without a tick, to its current task:
    entries and exits, switches to another task (with the second reading of the clock),
    and interrupts. *)
Inductive vevent :=
| Kernel (e : inputs)
| UserEnter (e : inputs)
| UserExit (e : inputs)
| GuestEnter (e : inputs)
| GuestExit (e : inputs)
| Switch (e : inputs) (next : Z) (idle : bool) (clock2 : Z)
| Irq (e : inputs) (ksoftirqd : bool) (offset : Z).

Definition vstep (TICK_NSEC cpu : Z) (w : world) (curr : Z) (ev : vevent) : world * Z :=
  match ev with
  | Kernel e => (vtime_account_kernel TICK_NSEC w e curr, curr)
  | UserEnter e => (vtime_user_enter TICK_NSEC w e curr, curr)
  | UserExit e => (vtime_user_exit TICK_NSEC w e curr, curr)
  | GuestEnter e => (vtime_guest_enter TICK_NSEC w e curr, curr)
  | GuestExit e => (vtime_guest_exit TICK_NSEC w e curr, curr)
  | Switch e next idle clock2 =>
      (vtime_task_switch_generic TICK_NSEC w e curr next idle cpu clock2, next)
  | Irq e ksoftirqd offset => (irqtime_account_irq w e ksoftirqd offset, curr)
  end.

(** The time between the two clock readings of a switch belongs to nobody. *)
Definition lost (w : world) (curr : Z) (ev : vevent) : Z :=
  match ev with
  | Switch e _ _ clock2 => clock2 - Z.max (i_clock e) (v_starttime (w_vtime w curr))
  | _ => 0
  end.

Fixpoint vrun (TICK_NSEC cpu : Z) (w : world) (curr : Z) (evs : list vevent) : world * Z * Z :=
  match evs with
  | [] => (w, curr, 0)
  | ev :: evs =>
      let '(w1, curr1) := vstep TICK_NSEC cpu w curr ev in
      let '(w2, curr2, l) := vrun TICK_NSEC cpu w1 curr1 evs in
      (w2, curr2, lost w curr ev + l)
  end.

(** ** The guarantees of [cputime_adjust] *)

Section Guarantees.

Context (mul : Z -> Z -> Z -> option Z) {laws : MulDivLaws mul}.

Definition cputime_ok (c : task_cputime_t) : Prop :=
  0 <= c_stime c /\ 0 <= c_utime c /\ c_stime c + c_utime c < two64 /\ is_u64 (c_runtime c).

Definition prev_ok (p : prev_cputime) : Prop :=
  0 <= p_utime p /\ 0 <= p_stime p /\ p_utime p + p_stime p < two64.

(** What a call makes of the previous values: neither part decreases, and together they
    are the runtime if that has grown. *)
Definition advances (rtime : Z) (p p' : prev_cputime) : Prop :=
  prev_ok p' /\ p_utime p <= p_utime p' /\ p_stime p <= p_stime p' /\
  p_utime p' + p_stime p' = Z.max (p_utime p + p_stime p) rtime.

Lemma adjust_update_advances r st p :
  prev_ok p -> is_u64 r -> p_utime p + p_stime p < r -> 0 <= st <= r ->
  advances r p (adjust_update r st p).
Proof.
  intros (H1 & H2 & H3) Hr Hlt Hst. unfold is_u64 in Hr. unfold adjust_update.
  set (st' := if st <? p_stime p then p_stime p else st).
  assert (Hst' : p_stime p <= st' <= r).
  { unfold st'. destruct (Z.ltb_spec st (p_stime p)); lia. }
  rewrite (u64_small (r - st')) by lia.
  destruct (Z.ltb_spec (r - st') (p_utime p)).
  - rewrite u64_small by lia. unfold advances, prev_ok. cbn. lia.
  - unfold advances, prev_ok. cbn. lia.
Qed.

Lemma cputime_adjust_advances c p :
  prev_ok p -> cputime_ok c ->
  exists p', cputime_adjust mul c p = Some p' /\ advances (c_runtime c) p p'.
Proof.
  intros Hp (Hs & Hu & Hsum & Hr). destruct (Hp) as (H1 & H2 & H3). unfold cputime_adjust.
  rewrite (u64_small (p_stime p + p_utime p)) by lia.
  destruct (Z.leb_spec (c_runtime c) (p_stime p + p_utime p)).
  { exists p. split; [done|]. split; [done|lia]. }
  unfold is_u64 in Hr.
  destruct (Z.eqb_spec (c_stime c) 0).
  { eexists. split; [done|]. apply adjust_update_advances; try done; lia. }
  destruct (Z.eqb_spec (c_utime c) 0).
  { eexists. split; [done|]. apply adjust_update_advances; try done; lia. }
  rewrite (u64_small (c_stime c + c_utime c)) by lia.
  destruct (mul_share (c_stime c) (c_utime c) (c_runtime c)) as (q & -> & Hq); [lia|lia|lia|done|].
  eexists. split; [done|]. apply adjust_update_advances; try done; lia.
Qed.

Lemma adjusted_spec l : forall p,
  prev_ok p -> Forall cputime_ok l ->
  exists p', adjusted mul p l = Some p' /\ prev_ok p' /\
    p_utime p <= p_utime p' /\ p_stime p <= p_stime p' /\
    p_utime p' + p_stime p' = foldr Z.max (p_utime p + p_stime p) (c_runtime <$> l).
Proof.
  induction l as [|c l IH]; intros p Hp Hl; [exists p; split; [done|]; split; [done|]; cbn; lia|].
  apply Forall_cons_1 in Hl as [Hc Hl]. cbn [adjusted].
  destruct (cputime_adjust_advances c p Hp Hc) as (p1 & -> & Hp1 & A1 & A2 & A3).
  destruct (IH p1 Hp1 Hl) as (p2 & E2 & Hp2 & B1 & B2 & B3). exists p2. cbn [mbind option_bind].
  split; [exact E2|]. split; [done|]. split; [lia|split; [lia|]].
  rewrite B3, A3. cbn. clear. generalize (p_utime p + p_stime p) as b.
  induction (c_runtime <$> l) as [|x xs IHx]; intros b; cbn; [lia|]. rewrite IHx. lia.
Qed.

Lemma adjusted_app l1 l2 p :
  adjusted mul p (l1 ++ l2) = (p1 ← adjusted mul p l1; adjusted mul p1 l2).
Proof.
  revert p. induction l1 as [|c l1 IH]; intros p; [done|]. cbn.
  destruct (cputime_adjust mul c p); cbn; [apply IH|done].
Qed.

(** C33: The guarantees that the comment before [cputime_adjust] states.  For every history
    of calls, whatever the tick based times and even if the runtime goes backwards: every
    call returns, neither the reported user nor the reported system time ever decreases,
    and their sum is the largest runtime seen.  The routine that multiplies and divides
    must keep a share of the runtime within the runtime. *)
Theorem cputime_adjust_guarantees l1 l2 :
  Forall cputime_ok (l1 ++ l2) ->
  exists p1 p2,
    adjusted mul (mk_prev 0 0) l1 = Some p1 /\ adjusted mul (mk_prev 0 0) (l1 ++ l2) = Some p2 /\
    p_utime p1 <= p_utime p2 /\ p_stime p1 <= p_stime p2 /\
    p_utime p2 + p_stime p2 = foldr Z.max 0 (c_runtime <$> (l1 ++ l2)).
Proof.
  intros [Hl1 Hl2]%Forall_app.
  assert (H0 : prev_ok (mk_prev 0 0)) by (unfold prev_ok; cbn; lia).
  destruct (adjusted_spec l1 _ H0 Hl1) as (p1 & E1 & Hp1 & _).
  destruct (adjusted_spec l2 p1 Hp1 Hl2) as (p2 & E2 & _ & B1 & B2 & _).
  destruct (adjusted_spec (l1 ++ l2) _ H0 ltac:(by apply Forall_app)) as (p2' & E2' & _ & _ & _ & Hsum).
  assert (p2' = p2) as ->.
  { rewrite adjusted_app, E1 in E2'. cbn in E2'. congruence. }
  exists p1, p2. auto.
Qed.

End Guarantees.

(** ** Multiplication and division *)

#[export] Instance x86_mul_div_laws : MulDivLaws x86_mul_u64_u64_div_u64.
Proof.
  constructor. intros s u r Hs Hu Hsum Hr. unfold is_u64 in Hr. unfold x86_mul_u64_u64_div_u64.
  assert (Hq : 0 <= s * r / (s + u) <= r).
  { split; [apply Z.div_pos; nia|]. apply Z.div_le_upper_bound; nia. }
  destruct (Z.eqb_spec (s + u) 0); [lia|].
  destruct (Z.ltb_spec (s * r / (s + u)) two64); [|lia]. eauto.
Qed.

Lemma portable_exact a b c :
  0 < a -> 0 < b -> 0 < c -> ilog2 a + ilog2 b <= 62 ->
  mul_u64_u64_div_u64 a b c = x86_mul_u64_u64_div_u64 a b c.
Proof.
  intros Ha Hb Hc Hl. unfold mul_u64_u64_div_u64, x86_mul_u64_u64_div_u64.
  destruct (Z.eqb_spec c 0); [lia|]. destruct (Z.ltb_spec 62 (ilog2 a + ilog2 b)); [lia|].
  unfold ilog2 in *. destruct (Z.eqb_spec a 0), (Z.eqb_spec b 0); try lia.
  pose proof (Z.log2_spec a Ha) as [_ Ua]. pose proof (Z.log2_spec b Hb) as [_ Ub].
  assert (Hab : a * b < two64).
  { apply Z.lt_le_trans with (2 ^ Z.succ (Z.log2 a) * 2 ^ Z.succ (Z.log2 b)); [nia|].
    pose proof (Z.log2_nonneg a). pose proof (Z.log2_nonneg b).
    rewrite <- Z.pow_add_r by lia. change two64 with (2 ^ 64). apply Z.pow_le_mono_r; lia. }
  rewrite u64_small by nia.
  destruct (Z.ltb_spec (a * b / c) two64) as [|Hbig]; [done|].
  assert (a * b / c <= a * b) by (apply Z.div_le_upper_bound; nia). lia.
Qed.

(** About 48 hours of system time and a second of user time. *)
Definition long_running : task_cputime_t :=
  mk_cputime 175136586720000 1416780000 135989749728000.

(** C34: The portable multiplication is the exact one as long as the product has at most
    63 bits, by the test it makes; beyond, the precision it drops makes a share exceed the
    whole.  Then [cputime_adjust] computes a negative user time, which wraps: it reports
    some 584 years of user time for a task that has run for 38 hours, where the exact
    multiplication of x86 reports times that add up to the runtime. *)
Theorem cputime_adjust_portable :
  (forall a b c, 0 < a -> 0 < b -> 0 < c -> ilog2 a + ilog2 b <= 62 ->
     mul_u64_u64_div_u64 a b c = x86_mul_u64_u64_div_u64 a b c) /\
  cputime_ok long_running /\
  cputime_adjust mul_u64_u64_div_u64 long_running (mk_prev 0 0) =
    Some (mk_prev 18446744073509626086 135989949653530) /\
  cputime_adjust x86_mul_u64_u64_div_u64 long_running (mk_prev 0 0) =
    Some (mk_prev 1100089951 135988649638049).
Proof.
  split; [exact portable_exact|]. split; [|by split; vm_compute].
  unfold cputime_ok, is_u64. cbn. lia.
Qed.

(** ** Conservation *)

Section Conservation.

Context (TICK_NSEC cpu : Z) (ids : list Z) (ND : NoDup ids).

(** The fields of [cpustat] that divide the time among them; guest time is also in user
    time. *)
Definition stat_fields : list Z := seqZ 0 8.

Definition pending (v : vtime) : Z := v_utime v + v_stime v + v_gtime v.

(** The time a processor has accounted: in [cpustat], waiting in the tasks, less the
    interrupt time that is in [cpustat] already and not yet taken out of the tasks. *)
Definition ledger (w : world) : Z :=
  zsum (cpustat w) stat_fields + zsum (fun p => pending (w_vtime w p)) ids - tick_delta w.

(** Equal as [u64]. *)
Definition eqm (x y : Z) : Prop := exists k, x = y + k * two64.

Lemma eqm_refl x : eqm x x.
Proof. exists 0. lia. Qed.

Lemma eqm_u64 x : eqm (u64 x) x.
Proof. apply u64_cong. Qed.

Lemma eqm_trans x y z : eqm x y -> eqm y z -> eqm x z.
Proof. intros [k ->] [l ->]. exists (k + l). lia. Qed.

Lemma eqm_add x x' y y' : eqm x x' -> eqm y y' -> eqm (x + y) (x' + y').
Proof. intros [k ->] [l ->]. exists (k + l). lia. Qed.

Lemma eqm_eq x y : eqm x y -> u64 x = u64 y.
Proof. intros [k ->]. unfold u64. by rewrite Z.mod_add. Qed.

(** [w'] has accounted [d] more than [w]; the vtimes are the same. *)
Definition accounts (d : Z) (w w' : world) : Prop :=
  eqm (ledger w') (ledger w + d) /\ forall p, w_vtime w' p = w_vtime w p.

Lemma accounts_trans d1 d2 w1 w2 w3 :
  accounts d1 w1 w2 -> accounts d2 w2 w3 -> accounts (d1 + d2) w1 w3.
Proof.
  intros [[k E1] V1] [[l E2] V2]. split; [exists (k + l); lia|]. intros p. by rewrite V2, V1.
Qed.

Lemma accounts_zero w w' :
  (forall i, i ∈ stat_fields -> cpustat w' i = cpustat w i) -> tick_delta w' = tick_delta w ->
  (forall p, w_vtime w' p = w_vtime w p) -> accounts 0 w w'.
Proof.
  intros Hs Ht Hv. split; [|done]. unfold ledger. rewrite Ht.
  rewrite (zsum_ext (cpustat w') (cpustat w)) by done.
  rewrite (zsum_ext (fun p => pending (w_vtime w' p)) (fun p => pending (w_vtime w p))).
  - rewrite Z.add_0_r. apply eqm_refl.
  - intros p _. by rewrite Hv.
Qed.

Lemma stat_add_accounts w i x : 0 <= i < 8 -> accounts x w (stat_add w i x).
Proof.
  intros Hi. split; [|done]. unfold ledger. cbn [stat_add cpustat tick_delta].
  rewrite (zsum_update (cpustat w) (upd (cpustat w) i (u64 (cpustat w i + x))) stat_fields i).
  - rewrite upd_eq. destruct (u64_cong (cpustat w i + x)) as [k ->]. exists k.
    change (w_vtime (stat_add w i x)) with (w_vtime w). lia.
  - apply NoDup_seqZ.
  - apply elem_of_seqZ. lia.
  - intros j _ Hne. by rewrite upd_ne.
Qed.

Lemma stat_add_guest w i x : 8 <= i -> accounts 0 w (stat_add w i x).
Proof.
  intros Hi. apply accounts_zero; [|done|done]. intros j Hj. apply elem_of_seqZ in Hj.
  cbn. rewrite upd_ne by lia. done.
Qed.

Lemma set_task_accounts w p t : t_vtime t = w_vtime w p -> accounts 0 w (set_task w p t).
Proof.
  intros Ht. apply accounts_zero; [done|done|]. intros q. unfold w_vtime. cbn. unfold upd.
  destruct (Z.eqb_spec q p) as [->|]; [exact Ht|done].
Qed.

(** Accounting to a task: first its own times, then [cpustat]. *)
Lemma task_accounts w p u st g i x :
  0 <= i < 8 -> accounts x w (stat_add (set_task w p (add_times (tasks w p) u st g)) i x).
Proof.
  intros Hi. apply (accounts_trans 0 x w (set_task w p (add_times (tasks w p) u st g)));
    [by apply set_task_accounts|by apply stat_add_accounts].
Qed.

Lemma account_user_time_accounts w p x : accounts x w (account_user_time w p x).
Proof. unfold account_user_time. cbv zeta. destruct (0 <? _); by apply task_accounts. Qed.

Lemma account_guest_time_accounts w p x : accounts x w (account_guest_time w p x).
Proof.
  unfold account_guest_time. cbv zeta. rewrite <- (Z.add_0_r x) at 1.
  destruct (0 <? _); (eapply accounts_trans; [|by apply stat_add_guest]); by apply task_accounts.
Qed.

Lemma account_index_accounts w p x i : 0 <= i < 8 -> accounts x w (account_system_index_time w p x i).
Proof. apply task_accounts. Qed.

Lemma account_system_time_accounts w e p off x : accounts x w (account_system_time w e p off x).
Proof.
  unfold account_system_time. destruct (_ && _); [apply account_guest_time_accounts|].
  apply account_index_accounts. by destruct (z2b _), (in_serving_softirq e).
Qed.

Lemma account_idle_time_accounts w e x : accounts x w (account_idle_time w e x).
Proof. apply stat_add_accounts. by destruct (i_iowait e). Qed.

Lemma steal_accounts w e m :
  accounts (steal_account_process_time w e m).2 w (steal_account_process_time w e m).1.
Proof.
  unfold steal_account_process_time. destruct (i_steal_enabled e); [|by apply accounts_zero].
  cbn [fst snd]. set (x := Z.min _ _). rewrite <- (Z.add_0_r x) at 1.
  apply (accounts_trans x 0 w (stat_add w CPUTIME_STEAL x));
    [by apply stat_add_accounts|by apply accounts_zero].
Qed.

Lemma irqtime_tick_accounts w m :
  accounts (irqtime_tick_accounted w m).2 w (irqtime_tick_accounted w m).1.
Proof.
  split; [|done]. unfold irqtime_tick_accounted, ledger. cbn.
  destruct (u64_cong (tick_delta w - Z.min (tick_delta w) m)) as [k ->]. exists (- k).
  change (w_vtime (mk_world _ _ _ _ _ (tasks w))) with (w_vtime w). lia.
Qed.

Lemma account_other_accounts w e m :
  exists d, eqm (account_other_time w e m).2 d /\ accounts d w (account_other_time w e m).1.
Proof.
  unfold account_other_time. pose proof (steal_accounts w e m) as A.
  destruct (steal_account_process_time w e m) as [w1 x]. cbn [fst snd] in A.
  destruct (x <? m); [|by exists x; split; [apply eqm_refl|]].
  pose proof (irqtime_tick_accounts w1 (m - x)) as B.
  destruct (irqtime_tick_accounted w1 (m - x)) as [w2 y]. cbn [fst snd] in *.
  exists (x + y). split; [apply eqm_u64|by eapply accounts_trans].
Qed.

Lemma irqtime_account_irq_accounts w e k off : accounts 0 w (irqtime_account_irq w e k off).
Proof.
  unfold irqtime_account_irq. destruct (negb (i_irqtime e)); [by apply accounts_zero|]. cbv zeta.
  set (w1 := mk_world _ _ _ _ _ _). set (d := s64 _).
  assert (A0 : accounts 0 w w1) by (by apply accounts_zero).
  assert (A : forall i, 0 <= i < 8 -> accounts 0 w (irqtime_account_delta w1 d i)).
  { intros i Hi. apply (accounts_trans 0 0 w w1); [done|].
    destruct (stat_add_accounts w1 i d Hi) as [E V]. split; [|done].
    unfold irqtime_account_delta. destruct E as [j E]. unfold ledger in *. cbn [tick_delta cpustat] in *.
    destruct (u64_cong (tick_delta (stat_add w1 i d) + d)) as [l ->]. exists (j - l).
    change (w_vtime (mk_world _ _ _ _ _ (tasks (stat_add w1 i d)))) with (w_vtime (stat_add w1 i d)).
    change (tick_delta (stat_add w1 i d)) with (tick_delta w1) in *. lia. }
  destruct (z2b _); [by apply A|]. destruct (z2b _ && _); [by apply A|done].
Qed.

Lemma w_vtime_put w p v q : w_vtime (put_vtime w p v) q = if q =? p then v else w_vtime w q.
Proof. unfold w_vtime, put_vtime, set_task, upd. cbn. by destruct (q =? p). Qed.

Lemma ledger_put w p v :
  p ∈ ids -> ledger (put_vtime w p v) = ledger w + pending v - pending (w_vtime w p).
Proof.
  intros Hp. unfold ledger. cbn [put_vtime set_task cpustat tick_delta].
  rewrite (zsum_update (fun q => pending (w_vtime w q)) (fun q => pending (w_vtime (put_vtime w p v) q)) ids p);
    [|done|done|].
  - rewrite w_vtime_put, Z.eqb_refl. lia.
  - intros q _ Hne. rewrite w_vtime_put. by destruct (Z.eqb_spec q p).
Qed.

(** The clock of task [p] has moved on by [d], and that much has been accounted. *)
Definition moved (p d : Z) (w w' : world) : Prop :=
  eqm (ledger w') (ledger w + d) /\
  eqm (v_starttime (w_vtime w' p)) (v_starttime (w_vtime w p) + d) /\
  forall q, q <> p -> w_vtime w' q = w_vtime w q.

(** What is taken from the clock is either added to [cpustat] or waits. *)
Lemma settle w w1 w2 p d r x v' :
  p ∈ ids -> eqm (ledger w1) (ledger w + d - r) -> 
  eqm (v_starttime (w_vtime w1 p)) (v_starttime (w_vtime w p) + d) ->
  (forall q, q <> p -> w_vtime w1 q = w_vtime w q) ->
  accounts x w1 w2 -> eqm (x + pending v' - pending (w_vtime w1 p)) r ->
  v_starttime v' = v_starttime (w_vtime w1 p) ->
  moved p d w (put_vtime w2 p v').
Proof.
  intros Hp [k1 E1] H2 H3 [[k2 E2] V] [k3 E3] Hs. split; [|split].
  - rewrite ledger_put, V by done. exists (k1 + k2 + k3). lia.
  - rewrite w_vtime_put, Z.eqb_refl, Hs. exact H2.
  - intros q Hq. rewrite w_vtime_put, V. destruct (Z.eqb_spec q p); [done|auto].
Qed.

Lemma get_vtime_delta_spec w e p :
  p ∈ ids ->
  let d := vtime_delta (w_vtime w p) (i_clock e) in
  let '(w1, r) := get_vtime_delta w e p in
  eqm (ledger w1) (ledger w + d - r) /\
  eqm (v_starttime (w_vtime w1 p)) (v_starttime (w_vtime w p) + d) /\
  (forall q, q <> p -> w_vtime w1 q = w_vtime w q).
Proof.
  intros Hp d. unfold get_vtime_delta. fold d.
  destruct (account_other_accounts w e d) as (x & [k Ex] & [l El] & V).
  destruct (account_other_time w e d) as [w1 other]. cbn [fst snd] in *.
  split; [|split].
  - rewrite ledger_put by done. unfold pending. cbn [v_utime v_stime v_gtime].
    destruct (u64_cong (d - other)) as [j ->]. exists (l + j - k). lia.
  - rewrite w_vtime_put, Z.eqb_refl, V. apply eqm_u64.
  - intros q Hq. rewrite w_vtime_put, V. by destruct (Z.eqb_spec q p).
Qed.

Lemma accounts_refl w : accounts 0 w w.
Proof. by apply accounts_zero. Qed.

(** Both branches of an update of the times that wait: [x] is the new sum as an integer,
    and [A] what accounting it does. *)
Ltac settle_pending x A :=
  destruct (u64_cong x) as [k Ek]; destruct (TICK_NSEC <=? _);
  [rewrite (proj2 A); eapply settle; try done
  |eapply settle; try done; [apply accounts_refl|]];
  unfold pending; cbn; exists k; lia.

Lemma vtime_account_system_moved w e p :
  p ∈ ids -> moved p (vtime_delta (w_vtime w p) (i_clock e)) w (vtime_account_system TICK_NSEC w e p).
Proof.
  intros Hp. unfold vtime_account_system. pose proof (get_vtime_delta_spec w e p Hp) as H.
  destruct (get_vtime_delta w e p) as [w1 r]. destruct H as (H1 & H2 & H3).
  pose proof (account_system_time_accounts w1 e p (irq_count e) (u64 (v_stime (w_vtime w1 p) + r))) as A.
  settle_pending (v_stime (w_vtime w1 p) + r) A.
Qed.

Lemma vtime_account_guest_moved w e p :
  p ∈ ids -> moved p (vtime_delta (w_vtime w p) (i_clock e)) w (vtime_account_guest TICK_NSEC w e p).
Proof.
  intros Hp. unfold vtime_account_guest. pose proof (get_vtime_delta_spec w e p Hp) as H.
  destruct (get_vtime_delta w e p) as [w1 r]. destruct H as (H1 & H2 & H3).
  pose proof (account_guest_time_accounts w1 p (u64 (v_gtime (w_vtime w1 p) + r))) as A.
  settle_pending (v_gtime (w_vtime w1 p) + r) A.
Qed.

(** Changing the state or the flag of the task moves no time. *)
Lemma put_state_moved w w' p d st : p ∈ ids -> moved p d w w' -> moved p d w (put_state w' p st).
Proof.
  intros Hp (H1 & H2 & H3). unfold put_state. split; [|split].
  - rewrite ledger_put by done. unfold pending. cbn. by rewrite Z.add_simpl_r.
  - rewrite w_vtime_put, Z.eqb_refl. exact H2.
  - intros q Hq. rewrite w_vtime_put. destruct (Z.eqb_spec q p); [done|auto].
Qed.

Lemma set_vcpu_moved w w' p d b :
  moved p d w w' -> moved p d w (set_task w' p (set_vcpu (tasks w' p) b)).
Proof.
  intros (H1 & H2 & H3). destruct (set_task_accounts w' p (set_vcpu (tasks w' p) b) eq_refl) as [E V].
  split; [|split].
  - eapply eqm_trans; [exact E|]. by rewrite Z.add_0_r.
  - by rewrite V.
  - intros q Hq. rewrite V. auto.
Qed.

Lemma vtime_user_exit_moved w e p :
  p ∈ ids -> moved p (vtime_delta (w_vtime w p) (i_clock e)) w (vtime_user_exit TICK_NSEC w e p).
Proof.
  intros Hp. unfold vtime_user_exit. pose proof (get_vtime_delta_spec w e p Hp) as H.
  destruct (get_vtime_delta w e p) as [w1 r]. destruct H as (H1 & H2 & H3). cbv zeta.
  apply put_state_moved; [done|].
  pose proof (account_user_time_accounts w1 p (u64 (v_utime (w_vtime w1 p) + r))) as A.
  settle_pending (v_utime (w_vtime w1 p) + r) A.
Qed.

Lemma vtime_account_idle_moved w e p :
  p ∈ ids -> moved p (vtime_delta (w_vtime w p) (i_clock e)) w (vtime_account_idle w e p).
Proof.
  intros Hp. unfold vtime_account_idle. pose proof (get_vtime_delta_spec w e p Hp) as H.
  destruct (get_vtime_delta w e p) as [w1 r]. destruct H as ([k E1] & H2 & H3).
  destruct (account_idle_time_accounts w1 e r) as [[l E] V]. split; [|split].
  - exists (k + l). lia.
  - by rewrite V.
  - intros q Hq. rewrite V. auto.
Qed.

Definition in_ids (ev : vevent) : Prop :=
  match ev with Switch _ next _ _ => next ∈ ids | _ => True end.

Lemma kernel_moved w e p :
  p ∈ ids -> moved p (vtime_delta (w_vtime w p) (i_clock e)) w (__vtime_account_kernel TICK_NSEC w e p).
Proof.
  intros Hp. unfold __vtime_account_kernel.
  destruct (v_state _); (by apply vtime_account_system_moved) || (by apply vtime_account_guest_moved).
Qed.

Lemma vtime_delta_max v c : v_starttime v + vtime_delta v c = Z.max c (v_starttime v).
Proof. unfold vtime_delta. destruct (Z.ltb_spec c (v_starttime v)); lia. Qed.

Lemma vtime_switch_ledger w e prev next idle clock2 :
  prev ∈ ids -> next ∈ ids ->
  let w' := vtime_task_switch_generic TICK_NSEC w e prev next idle cpu clock2 in
  eqm (ledger w') (ledger w + vtime_delta (w_vtime w prev) (i_clock e)) /\
  v_starttime (w_vtime w' next) = clock2.
Proof.
  intros Hp Hn. unfold vtime_task_switch_generic. set (w1 := match v_state _ with VTIME_IDLE => _ | _ => _ end).
  assert (M : moved prev (vtime_delta (w_vtime w prev) (i_clock e)) w w1).
  { unfold w1. destruct (v_state _); (by apply kernel_moved) || (by apply vtime_account_idle_moved). }
  destruct M as [M _]. cbv zeta. split; [|by rewrite w_vtime_put, Z.eqb_refl].
  rewrite !ledger_put by done. unfold pending. cbn [v_utime v_stime v_gtime].
  eapply eqm_trans; [|exact M]. exists 0. lia.
Qed.

Lemma vstep_conserves w curr ev :
  curr ∈ ids -> in_ids ev ->
  let '(w', curr') := vstep TICK_NSEC cpu w curr ev in
  curr' ∈ ids /\
  eqm (ledger w' + lost w curr ev)
    (ledger w + v_starttime (w_vtime w' curr') - v_starttime (w_vtime w curr)).
Proof.
  intros Hc Hev.
  assert (Hmoved : forall d w', moved curr d w w' ->
    eqm (ledger w' + 0) (ledger w + v_starttime (w_vtime w' curr) - v_starttime (w_vtime w curr))).
  { intros d w' ([k E1] & [l E2] & _). exists (k - l). lia. }
  destruct ev as [e|e|e|e|e|e next idle clock2|e ks off]; cbn [vstep lost]; (split; [done|]).
  - unfold vtime_account_kernel. destruct (negb _).
    + exists 0. lia.
    + by eapply Hmoved, kernel_moved.
  - by eapply Hmoved, put_state_moved, vtime_account_system_moved.
  - by eapply Hmoved, vtime_user_exit_moved.
  - by eapply Hmoved, put_state_moved, set_vcpu_moved, vtime_account_system_moved.
  - by eapply Hmoved, put_state_moved, set_vcpu_moved, vtime_account_guest_moved.
  - destruct (vtime_switch_ledger w e curr next idle clock2 Hc Hev) as [[k E] ->].
    pose proof (vtime_delta_max (w_vtime w curr) (i_clock e)). exists k. lia.
  - destruct (irqtime_account_irq_accounts w e ks off) as [[k E] V]. rewrite V. exists k. lia.
Qed.

Lemma vrun_conserves evs : forall w curr,
  curr ∈ ids -> Forall in_ids evs ->
  let '(w', curr', l) := vrun TICK_NSEC cpu w curr evs in
  eqm (ledger w' + l)
    (ledger w + v_starttime (w_vtime w' curr') - v_starttime (w_vtime w curr)).
Proof.
  induction evs as [|ev evs IH]; intros w curr Hc Hev; cbn [vrun]; [exists 0; lia|].
  apply Forall_cons_1 in Hev as [H1 H2]. pose proof (vstep_conserves w curr ev Hc H1) as S.
  destruct (vstep TICK_NSEC cpu w curr ev) as [w1 c1]. destruct S as [Hc1 [k E1]].
  specialize (IH w1 c1 Hc1 H2). destruct (vrun TICK_NSEC cpu w1 c1 evs) as [[w2 c2] l].
  destruct IH as [j E2]. exists (k + j). lia.
Qed.

(** Ticks: the rest of the time after interrupt and stolen time is accounted. *)
Lemma tick_rest w w1 w2 d other c :
  accounts d w w1 -> eqm other d -> (other < c -> accounts (c - other) w1 w2) ->
  eqm (ledger (if c <=? other then w1 else w2)) (ledger w + Z.max c other).
Proof.
  intros [[k E] _] [l El] H. destruct (Z.leb_spec c other).
  - exists (k - l). lia.
  - destruct (H ltac:(lia)) as [[j Ej] _]. exists (k + j - l). lia.
Qed.

Lemma irqtime_tick_ledger w e p ks idle user n :
  eqm (ledger (irqtime_account_process_tick TICK_NSEC w e p ks idle user n))
    (ledger w + Z.max (u64 (TICK_NSEC * n)) (account_other_time w e ULONG_MAX).2).
Proof.
  unfold irqtime_account_process_tick.
  destruct (account_other_accounts w e ULONG_MAX) as (d & E & A).
  destruct (account_other_time w e ULONG_MAX) as [w1 other]. cbn [fst snd] in *.
  eapply tick_rest; [exact A|exact E|]. intros _.
  destruct ks; [by apply account_index_accounts|]. destruct user; [apply account_user_time_accounts|].
  destruct idle; [apply account_idle_time_accounts|].
  destruct (vcpu _); [apply account_guest_time_accounts|by apply account_index_accounts].
Qed.

(** The time that is taken out of a tick. *)
Definition other_time (w : world) (e : inputs) : Z :=
  if i_irqtime e then (account_other_time w e ULONG_MAX).2
  else (steal_account_process_time w e ULONG_MAX).2.

Lemma process_tick_ledger w e p ks idle user :
  is_u64 TICK_NSEC -> i_vtime e = false ->
  eqm (ledger (account_process_tick TICK_NSEC w e p ks idle user))
    (ledger w + Z.max TICK_NSEC (other_time w e)).
Proof.
  intros HT Hv. unfold account_process_tick, other_time. rewrite Hv. destruct (i_irqtime e).
  - pose proof (irqtime_tick_ledger w e p ks idle user 1) as H. by rewrite Z.mul_1_r, u64_small in H.
  - pose proof (steal_accounts w e ULONG_MAX) as A.
    destruct (steal_account_process_time w e ULONG_MAX) as [w1 x]. cbn [fst snd] in *.
    eapply tick_rest; [exact A|apply eqm_refl|]. intros _.
    destruct user; [apply account_user_time_accounts|].
    destruct (_ || _); [apply account_system_time_accounts|apply account_idle_time_accounts].
Qed.

Lemma idle_ticks_ledger w e p ks idle n :
  0 <= n < two31 ->
  eqm (ledger (account_idle_ticks TICK_NSEC w e p ks idle n))
    (ledger w + Z.max (u64 (TICK_NSEC * n)) (other_time w e)).
Proof.
  intros Hn. unfold account_idle_ticks, other_time. destruct (i_irqtime e).
  - rewrite s32_small by lia. apply irqtime_tick_ledger.
  - pose proof (steal_accounts w e ULONG_MAX) as A.
    destruct (steal_account_process_time w e ULONG_MAX) as [w1 x]. cbn [fst snd] in *.
    rewrite (Z.mul_comm n). eapply tick_rest; [exact A|apply eqm_refl|]. intros _.
    apply account_idle_time_accounts.
Qed.

(** C19: Time is accounted once.  On a processor without a tick, after any sequence of
    entries, exits, switches and interrupts of any tasks, the time in [cpustat] and in the
    times that wait has grown by what the clock has advanced since the start, less what
    passes between the two clock readings of each switch; stolen and interrupt time is
    not counted twice.  On a processor with a tick, a tick or a number of idle ticks
    accounts their length, or the stolen and interrupt time if that is longer.  (All sums
    are those of [u64].) *)
Theorem cpu_time_conserved w curr evs :
  curr ∈ ids -> Forall in_ids evs ->
  (let '(w', curr', l) := vrun TICK_NSEC cpu w curr evs in
   u64 (ledger w' - ledger w) =
   u64 (v_starttime (w_vtime w' curr') - v_starttime (w_vtime w curr) - l)) /\
  (forall e p ksoftirqd idle user n, is_u64 TICK_NSEC -> i_vtime e = false -> 0 <= n < two31 ->
   u64 (ledger (account_process_tick TICK_NSEC w e p ksoftirqd idle user) - ledger w) =
     u64 (Z.max TICK_NSEC (other_time w e)) /\
   u64 (ledger (account_idle_ticks TICK_NSEC w e p ksoftirqd idle n) - ledger w) =
     u64 (Z.max (u64 (TICK_NSEC * n)) (other_time w e))).
Proof.
  intros Hc Hev. split.
  - pose proof (vrun_conserves evs w curr Hc Hev) as H.
    destruct (vrun TICK_NSEC cpu w curr evs) as [[w' c'] l]. destruct H as [k E].
    apply eqm_eq. exists k. lia.
  - intros e p ks idle user n HT Hv Hn.
    destruct (process_tick_ledger w e p ks idle user HT Hv) as [k E].
    destruct (idle_ticks_ledger w e p ks idle n Hn) as [j F].
    split; apply eqm_eq; [exists k|exists j]; lia.
Qed.

End Conservation.

(** ** Readers *)

Section Readers.

Context (TICK_NSEC : Z).

(** The reader of one field is the reader of all fields. *)
Lemma kcpustat_readers_agree stat t usage cpu clock :
  0 <= usage < 10 -> (forall i, is_u64 (stat i)) ->
  kcpustat_field_vtime stat t usage cpu clock =
  (fun f => f usage) <$> kcpustat_cpu_fetch_vtime stat t cpu clock.
Proof.
  intros Hu Hs. unfold kcpustat_field_vtime, kcpustat_cpu_fetch_vtime, vtime_state_fetch.
  destruct (_ && _); [done|]. unfold kcpustat_user_vtime.
  assert (E0 : u64 (stat usage + 0) = stat usage) by (rewrite Z.add_0_r; apply u64_small, Hs).
  assert (C : usage ∈ seqZ 0 10) by (apply elem_of_seqZ; lia). cbn in C.
  rewrite Z.leb_antisym. destruct (0 <? nice t), (v_state (t_vtime t)); cbn [mbind option_bind fmap option_fmap option_map negb];
    try done; f_equal; unfold upd, is_sys, is_guest;
    repeat (apply elem_of_cons in C as [->|C]; [cbn; rewrite ?E0; try done|]); by inversion C.
Qed.

(** An update with no stolen or interrupt time: the whole advance of the clock. *)
Lemma get_vtime_delta_quiet w e p :
  let v := w_vtime w p in
  let d := vtime_delta v (i_clock e) in
  i_steal_enabled e = false -> tick_delta w = 0 -> 0 <= d < two64 ->
  exists w1, get_vtime_delta w e p =
    (put_vtime w1 p (mk_vtime (u64 (v_starttime v + d)) (v_state v) (v_cpu v) (v_utime v)
                       (v_stime v) (v_gtime v)), d) /\
  cpustat w1 = cpustat w /\ tasks w1 = tasks w.
Proof.
  intros v d Hs Ht Hd. unfold get_vtime_delta, account_other_time, steal_account_process_time.
  fold v d. rewrite Hs. destruct (Z.ltb_spec 0 d).
  - unfold irqtime_tick_accounted. rewrite Ht, Z.min_l by lia. eexists.
    change (u64 (0 + 0)) with 0. rewrite (Z.sub_0_r d), (u64_small d) by lia. done.
  - exists w. rewrite (Z.sub_0_r d), (u64_small d) by lia. done.
Qed.

(** The accounting of a task that runs in the kernel or a guest, with no stolen or
    interrupt time and outside softirqs. *)
Definition undisturbed (w : world) (e : inputs) (p : Z) : Prop :=
  i_steal_enabled e = false /\ tick_delta w = 0 /\ is_u64 (i_clock e) /\
  0 <= v_starttime (w_vtime w p) /\
  irq_count e = hardirq_count e /\ in_serving_softirq e = false /\
  vcpu (tasks w p) = is_guest (v_state (w_vtime w p)) /\
  (v_state (w_vtime w p) = VTIME_SYS \/ v_state (w_vtime w p) = VTIME_GUEST).

(** What [vtime_account_kernel] leaves: the clock at the reading, and the new sum either
    accounted or waiting. *)
Lemma account_kernel_sys w e p :
  let v := w_vtime w p in
  let d := vtime_delta v (i_clock e) in
  let st := u64 (v_stime v + d) in
  undisturbed w e p -> v_state v = VTIME_SYS -> 0 < d ->
  let w' := vtime_account_kernel TICK_NSEC w e p in
  let t := tasks w p in
  if TICK_NSEC <=? st
  then (forall i, cpustat w' i = upd (cpustat w) CPUTIME_SYSTEM (u64 (cpustat w CPUTIME_SYSTEM + st)) i) /\
    tasks w' p = mk_task (u64 (utime t + 0)) (u64 (stime t + st)) (u64 (gtime t + 0)) (sum_exec_runtime t)
      (nice t) (vcpu t) (mk_vtime (i_clock e) VTIME_SYS (v_cpu v) (v_utime v) 0 (v_gtime v))
  else (forall i, cpustat w' i = cpustat w i) /\
    tasks w' p = set_vtime t (mk_vtime (i_clock e) VTIME_SYS (v_cpu v) (v_utime v) st (v_gtime v)).
Proof.
  intros v d st (Hs & Ht & Hk & Hst & Hirq & Hsoft & Hv & _) Ev Hd w' t. unfold is_u64 in Hk.
  assert (Ed : v_starttime v + d = i_clock e).
  { unfold d in *. rewrite vtime_delta_max. unfold vtime_delta in Hd.
    destruct (Z.ltb_spec (i_clock e) (v_starttime v)); lia. }
  unfold w', vtime_account_kernel, __vtime_account_kernel, vtime_account_system. fold v d.
  unfold z2b. destruct (Z.eqb_spec d 0); [lia|]. cbn [negb]. rewrite Ev.
  fold v in Hst. destruct (get_vtime_delta_quiet w e p Hs Ht ltac:(fold v d; lia)) as (w1 & E & Ec & Et).
  fold v d in E. rewrite E, Ed, (u64_small (i_clock e)), w_vtime_put, Z.eqb_refl by lia. cbn [v_stime v_utime v_gtime].
  rewrite ?Ev. fold st. destruct (TICK_NSEC <=? st).
  - unfold account_system_time. cbn [put_vtime set_task tasks]. rewrite upd_eq.
    cbn [set_vtime vcpu]. rewrite Et, Hv. fold v. rewrite Ev. cbn [is_guest andb].
    rewrite Hirq, Z.sub_diag, Hsoft. cbn. rewrite !upd_eq, Ec. cbn. unfold w_vtime. cbn. by rewrite !upd_eq, Et.
  - cbn. by rewrite !upd_eq, Ec, Et.
Qed.

Lemma account_kernel_guest w e p :
  let v := w_vtime w p in
  let d := vtime_delta v (i_clock e) in
  let g := u64 (v_gtime v + d) in
  let t := tasks w p in
  let user := if 0 <? nice t then CPUTIME_NICE else CPUTIME_USER in
  let guest := if 0 <? nice t then CPUTIME_GUEST_NICE else CPUTIME_GUEST in
  undisturbed w e p -> v_state v = VTIME_GUEST -> 0 < d ->
  let w' := vtime_account_kernel TICK_NSEC w e p in
  if TICK_NSEC <=? g
  then (forall i, cpustat w' i = upd (upd (cpustat w) user (u64 (cpustat w user + g))) guest
                                   (u64 (cpustat w guest + g)) i) /\
    tasks w' p = mk_task (u64 (utime t + g)) (u64 (stime t + 0)) (u64 (gtime t + g)) (sum_exec_runtime t)
      (nice t) (vcpu t) (mk_vtime (i_clock e) VTIME_GUEST (v_cpu v) (v_utime v) (v_stime v) 0)
  else (forall i, cpustat w' i = cpustat w i) /\
    tasks w' p = set_vtime t (mk_vtime (i_clock e) VTIME_GUEST (v_cpu v) (v_utime v) (v_stime v) g).
Proof.
  intros v d g t user guest (Hs & Ht & Hk & Hst & _) Ev Hd w'. unfold is_u64 in Hk.
  assert (Ed : v_starttime v + d = i_clock e).
  { unfold d in *. rewrite vtime_delta_max. unfold vtime_delta in Hd.
    destruct (Z.ltb_spec (i_clock e) (v_starttime v)); lia. }
  unfold w', vtime_account_kernel, __vtime_account_kernel, vtime_account_guest. fold v d.
  unfold z2b. destruct (Z.eqb_spec d 0); [lia|]. cbn [negb]. rewrite Ev.
  fold v in Hst. destruct (get_vtime_delta_quiet w e p Hs Ht ltac:(fold v d; lia)) as (w1 & E & Ec & Et).
  fold v d in E. rewrite E, Ed, (u64_small (i_clock e)), w_vtime_put, Z.eqb_refl by lia. cbn [v_stime v_utime v_gtime].
  rewrite ?Ev. fold g. destruct (TICK_NSEC <=? g).
  - unfold account_guest_time. cbn [put_vtime set_task tasks]. rewrite !upd_eq.
    cbn [add_times set_vtime nice]. rewrite Et. unfold user, guest, t.
    destruct (0 <? nice (tasks w p)); cbn; rewrite !upd_eq, Ec; unfold w_vtime; cbn; by rewrite !upd_eq.
  - cbn. by rewrite !upd_eq, Ec, Et.
Qed.

Lemma account_kernel_idle w e p :
  vtime_delta (w_vtime w p) (i_clock e) <= 0 -> vtime_account_kernel TICK_NSEC w e p = w.
Proof.
  intros H. unfold vtime_account_kernel. pose proof (vtime_delta_max (w_vtime w p) (i_clock e)).
  unfold z2b. destruct (Z.eqb_spec (vtime_delta (w_vtime w p) (i_clock e)) 0); [done|lia].
Qed.

Lemma vtime_delta_now c st k u s g : vtime_delta (mk_vtime c st k u s g) c = 0.
Proof. unfold vtime_delta. cbn. rewrite Z.ltb_irrefl. lia. Qed.

(** Compares two readings of the field [usage] for each of the ten fields. *)
Ltac each_field usage :=
  assert (usage = 0 \/ usage = 1 \/ usage = 2 \/ usage = 3 \/ usage = 4 \/ usage = 5 \/
          usage = 6 \/ usage = 7 \/ usage = 8 \/ usage = 9) as C by lia;
  repeat destruct C as [C|C]; rewrite C;
  unfold upd, CPUTIME_SYSTEM, CPUTIME_USER, CPUTIME_NICE, CPUTIME_GUEST, CPUTIME_GUEST_NICE;
  cbn -[u64 vtime_delta]; rewrite ?Z.add_0_r; autorewrite with cint_norm; rewrite ?Z.add_0_r;
  first [reflexivity|f_equal; lia].

(** An update does not show in [cpustat] as it is read. *)
Lemma flush_invisible w e p usage cpu :
  undisturbed w e p -> 0 <= usage < 10 -> (forall i, is_u64 (cpustat w i)) ->
  let w' := vtime_account_kernel TICK_NSEC w e p in
  kcpustat_field_vtime (cpustat w') (tasks w' p) usage cpu (i_clock e) =
  kcpustat_field_vtime (cpustat w) (tasks w p) usage cpu (i_clock e).
Proof.
  intros U Hu Hs w'. destruct (Z.le_gt_cases (vtime_delta (w_vtime w p) (i_clock e)) 0) as [Hd|Hd].
  { unfold w'. by rewrite account_kernel_idle. }
  destruct (U) as (_ & _ & _ & _ & _ & _ & _ & [Ev|Ev]).
  - pose proof (account_kernel_sys w e p U Ev ltac:(lia)) as H. cbv zeta in H. fold w' in H.
    destruct (TICK_NSEC <=? _); destruct H as [Hc ->];
    unfold kcpustat_field_vtime, vtime_state_fetch, kcpustat_user_vtime;
    unfold w_vtime in *; rewrite Hc, Ev; cbn [t_vtime set_vtime v_cpu v_state v_stime nice];
    (destruct (_ && _); [done|]); cbn [mbind option_bind]; f_equal;
    rewrite ?vtime_delta_now; each_field usage.
  - pose proof (account_kernel_guest w e p U Ev ltac:(lia)) as H. cbv zeta in H. fold w' in H.
    destruct (TICK_NSEC <=? _); destruct H as [Hc ->];
    unfold kcpustat_field_vtime, vtime_state_fetch, kcpustat_user_vtime;
    unfold w_vtime in *; rewrite Hc, Ev; cbn [t_vtime set_vtime v_cpu v_state v_gtime nice];
    (destruct (_ && _); [done|]); cbn [mbind option_bind]; f_equal;
    rewrite ?vtime_delta_now, Z.leb_antisym; destruct (0 <? nice (tasks w p));
    each_field usage.
Qed.

(** It does not show in the times of a task in the kernel, but it does in those of a
    guest: the reader adds the user time that waits, not the guest time. *)
Lemma flush_task_cputime w e p :
  let v := w_vtime w p in
  let d := vtime_delta v (i_clock e) in
  let w' := vtime_account_kernel TICK_NSEC w e p in
  undisturbed w e p -> is_u64 (utime (tasks w p)) -> is_u64 (stime (tasks w p)) ->
  (v_state v = VTIME_SYS ->
   task_cputime true (i_clock e) (tasks w' p) = task_cputime true (i_clock e) (tasks w p)) /\
  (v_state v = VTIME_GUEST -> u64 (v_gtime v + d) < TICK_NSEC ->
   u64 ((task_cputime true (i_clock e) (tasks w' p)).1.2 + d) =
   (task_cputime true (i_clock e) (tasks w p)).1.2).
Proof.
  intros v d w' U Hu Hs.
  assert (Hm : 0 <= d) by (pose proof (vtime_delta_max v (i_clock e)); subst d; lia).
  destruct (Z.le_gt_cases d 0) as [Hd|Hd].
  { assert (d = 0) as Hd0 by lia. assert (w' = w) as -> by (by apply account_kernel_idle).
    split; [done|]. intros Ev _. rewrite Hd0, Z.add_0_r. unfold task_cputime. cbn [negb].
    change (t_vtime (tasks w p)) with v. rewrite Ev. cbn. by rewrite u64_idemp. }
  split; intros Ev.
  - pose proof (account_kernel_sys w e p U Ev Hd) as H. cbv zeta in H. fold w' v d in H.
    unfold task_cputime. cbn [negb]. change (t_vtime (tasks w p)) with v. rewrite Ev. fold d.
    destruct (TICK_NSEC <=? _); destruct H as [_ ->]; cbn [t_vtime set_vtime v_state utime stime v_stime];
      rewrite vtime_delta_now, ?Z.add_0_r, ?(u64_small (utime _)) by done; f_equal; by autorewrite with cint_norm; rewrite ?Z.add_0_r.
  - intros Hlt. pose proof (account_kernel_guest w e p U Ev Hd) as H. cbv zeta in H. fold w' v d in H.
    destruct (Z.leb_spec TICK_NSEC (u64 (v_gtime v + d))); [lia|]. destruct H as [_ ->].
    unfold task_cputime. cbn [negb]. change (t_vtime (tasks w p)) with v. rewrite Ev. fold d.
    cbn [t_vtime set_vtime v_state utime stime v_utime fst snd]. rewrite vtime_delta_now, Z.add_0_r.
    autorewrite with cint_norm. f_equal. lia.
Qed.

(** The readers of [cpustat] agree with each other and with the accounting.  One field
    as [kcpustat_field] reads it is that field of the snapshot of [kcpustat_cpu_fetch], and
    accounting the time that waits, at the same instant and with no stolen or interrupt
    time, changes neither.  [task_cputime] does not see it for a task in the kernel either.
    For a task that runs a guest it adds the wrong time that waits: an update takes the
    advance of the clock back out of the user time it reports. *)
Theorem cputime_readers_agree w e p usage cpu :
  undisturbed w e p -> 0 <= usage < 10 -> (forall i, is_u64 (cpustat w i)) ->
  is_u64 (utime (tasks w p)) -> is_u64 (stime (tasks w p)) ->
  let clock := i_clock e in
  let v := w_vtime w p in
  let d := vtime_delta v clock in
  let w' := vtime_account_kernel TICK_NSEC w e p in
  kcpustat_field_vtime (cpustat w) (tasks w p) usage cpu clock =
    (fun f => f usage) <$> kcpustat_cpu_fetch_vtime (cpustat w) (tasks w p) cpu clock /\
  kcpustat_field_vtime (cpustat w') (tasks w' p) usage cpu clock =
    kcpustat_field_vtime (cpustat w) (tasks w p) usage cpu clock /\
  (v_state v = VTIME_SYS ->
   task_cputime true clock (tasks w' p) = task_cputime true clock (tasks w p)) /\
  (v_state v = VTIME_GUEST -> u64 (v_gtime v + d) < TICK_NSEC ->
   u64 ((task_cputime true clock (tasks w' p)).1.2 + d) = (task_cputime true clock (tasks w p)).1.2).
Proof.
  intros U Hu Hc Hut Hst clock v d w'. split; [by apply kcpustat_readers_agree|].
  split; [by apply flush_invisible|]. by apply flush_task_cputime.
Qed.

End Readers.

(** ** Witnesses *)

(** Two tasks of a processor, the first in a guest; a tick of 4 ms. *)
Definition quiet_inputs (clock : Z) : inputs := mk_inputs clock false 0 0 false true true.
Definition two_tasks : world :=
  mk_world (fun _ => 1000) 0 0 0 0
    (fun p => mk_task 5000 3000 0 8000 0 (p =? 1)
       (mk_vtime 10000 (if p =? 1 then VTIME_GUEST else VTIME_INACTIVE) 0 700 500 300)).

(** A reading of the first task's user time before and after an update at 2010000 ns. *)
Lemma cputime_readers_agree_witness :
  let e := quiet_inputs 2010000 in
  (task_cputime true 2010000 (tasks two_tasks 1)).1.2 = 2005700 /\
  (task_cputime true 2010000 (tasks (vtime_account_kernel 4000000 two_tasks e 1) 1)).1.2 = 5700 /\
  u64 ((task_cputime true 2010000 (tasks (vtime_account_kernel 4000000 two_tasks e 1) 1)).1.2 + 2000000)
    = 2005700.
Proof.
  split; [by vm_compute|]. split; [by vm_compute|].
  apply (cputime_readers_agree 4000000 two_tasks (quiet_inputs 2010000) 1 0 0).
  - unfold undisturbed, is_u64. repeat split; try done; try (by vm_compute). by right.
  - lia.
  - intros i. split; by vm_compute.
  - split; by vm_compute.
  - split; by vm_compute.
  - by vm_compute.
  - by vm_compute.
Defined.

(** The guest runs, leaves for the kernel, is interrupted and switched out. *)
Definition short_history : list vevent :=
  [Kernel (quiet_inputs 6000000); GuestExit (quiet_inputs 9000000);
   Irq (mk_inputs 250 false 0 65536 false true true) false 0; UserEnter (quiet_inputs 9500000);
   UserExit (mk_inputs 9900000 true 100 0 false true true);
   Switch (quiet_inputs 9950000) 2 false 9950200; Kernel (quiet_inputs 15000000)].

Lemma cpu_time_conserved_witness :
  let r := vrun 4000000 0 two_tasks 1 short_history in
  r.1.2 = 2 /\ r.2 = 200 /\
  u64 (ledger [1; 2] r.1.1 - ledger [1; 2] two_tasks) = 15000000 - 10000 - 200.
Proof.
  split; [by vm_compute|]. split; [by vm_compute|].
  refine (eq_trans (proj1 (cpu_time_conserved 4000000 0 [1; 2]
    ltac:(apply (bool_decide_unpack _); by vm_compute) two_tasks 1 short_history
    ltac:(left) ltac:(repeat constructor))) _).
  by vm_compute.
Defined.

Lemma cputime_adjust_guarantees_witness :
  exists p1 p2,
    adjusted x86_mul_u64_u64_div_u64 (mk_prev 0 0) [mk_cputime 30 10 100] = Some p1 /\
    adjusted x86_mul_u64_u64_div_u64 (mk_prev 0 0) ([mk_cputime 30 10 100] ++ [mk_cputime 30 90 160]) = Some p2 /\
    p_utime p1 <= p_utime p2 /\ p_stime p1 <= p_stime p2 /\ p_utime p2 + p_stime p2 = 160.
Proof.
  apply (cputime_adjust_guarantees x86_mul_u64_u64_div_u64 [mk_cputime 30 10 100] [mk_cputime 30 90 160]).
  repeat constructor; cbn; lia.
Defined.

End Cputime.
