(* ===== verification/RqClock.v ===== *)
(** The clocks of a run queue: [update_rq_clock] and [update_rq_clock_task] of
    [kernel/sched/core.c], the clock flags of [kernel/sched/sched.h] and their use
    by [__schedule], on top of the PELT clock of the Pelt file.

    The values of the outside world (the scheduler clock, interrupt time, steal
    time, the capacities of the CPU) are the arguments of each update.  The
    theorems show that the time of a run queue is accounted exactly once, that
    every clock is monotone, and that a skip request suppresses one update. *)

From Stdlib Require Import ZArith Lia List.
From stdpp Require Import base list numbers option.
From S2P Require Import Prelude Pelt.

Module RqClock.
Import Pelt.

Definition RQCF_REQ_SKIP : Z := 0x01.
Definition RQCF_ACT_SKIP : Z := 0x02.
Definition RQCF_UPDATED : Z := 0x04.

(** The fields of [struct rq] the clock code uses. *)
Record rq := mk_rqc {
  clocks : pelt_rq;
  prev_irq_time : Z;
  prev_steal_time_rq : Z;
  avg_irq : sched_avg;
  clock_update_flags : Z
}.

(** What one update reads from outside: [sched_clock_cpu], [irq_time_read],
    [paravirt_steal_clock] and its static key, the two capacities, whether the
    idle task is current and the feature NONTASK_CAPACITY. *)
Record reading := mk_reading {
  sched_clock : Z;
  irq_time : Z;
  steal_enabled : bool;
  steal_clock : Z;
  freq_cap : Z;
  cpu_cap : Z;
  curr_is_idle : bool;
  NONTASK_CAPACITY : bool
}.

Definition with_flags (q : rq) (f : Z) : rq :=
  mk_rqc (clocks q) (prev_irq_time q) (prev_steal_time_rq q) (avg_irq q) f.

Definition with_clock (c : pelt_rq) (v : Z) : pelt_rq :=
  mk_rq v (clock_task c) (clock_pelt c) (lost_idle_time c) (clock_idle c) (clock_pelt_idle c).

Definition with_clock_task (c : pelt_rq) (v : Z) : pelt_rq :=
  mk_rq (clock c) v (clock_pelt c) (lost_idle_time c) (clock_idle c) (clock_pelt_idle c).

Definition update_rq_clock_task (e : reading) (q : rq) (delta : Z) : rq :=
  let irq_delta := s64 (irq_time e -u64 prev_irq_time q) in
  let irq_delta := if delta <? irq_delta then delta else irq_delta in
  let prev_irq := prev_irq_time q +u64 irq_delta in
  let delta := s64 (delta - irq_delta) in
  let '(steal, prev_steal, delta) :=
    if steal_enabled e then
      let steal := s64 (steal_clock e -u64 prev_steal_time_rq q) in
      let steal := if delta <? steal then delta else steal in
      (steal, prev_steal_time_rq q +u64 steal, s64 (delta - steal))
    else (0, prev_steal_time_rq q, delta) in
  let c := with_clock_task (clocks q) (clock_task (clocks q) +u64 delta) in
  let avg :=
    if z2b (s64 (irq_delta + steal)) && NONTASK_CAPACITY e
    then (update_irq_load_avg (freq_cap e) (cpu_cap e) (clock c) (avg_irq q)
            (u64 (irq_delta + steal))).2
    else avg_irq q in
  let c := update_rq_clock_pelt (freq_cap e) (cpu_cap e) (curr_is_idle e) c delta in
  mk_rqc c prev_irq prev_steal avg (clock_update_flags q).

Definition update_rq_clock (e : reading) (q : rq) : rq :=
  if z2b (Z.land (clock_update_flags q) RQCF_ACT_SKIP) then q
  else
    let q := with_flags q (Z.lor (clock_update_flags q) RQCF_UPDATED) in
    let delta := s64 (sched_clock e -u64 clock (clocks q)) in
    if delta <? 0 then q
    else
      let q := mk_rqc (with_clock (clocks q) (clock (clocks q) +u64 delta))
                 (prev_irq_time q) (prev_steal_time_rq q) (avg_irq q) (clock_update_flags q) in
      update_rq_clock_task e q delta.

Definition andnot (x m : Z) : Z := Z.ldiff x m.

Definition rq_clock_skip_update (q : rq) : rq :=
  with_flags q (Z.lor (clock_update_flags q) RQCF_REQ_SKIP).

Definition rq_clock_cancel_skipupdate (q : rq) : rq :=
  with_flags q (andnot (clock_update_flags q) RQCF_REQ_SKIP).

Definition rq_clock_start_loop_update (q : rq) : rq :=
  with_flags q (Z.lor (clock_update_flags q) RQCF_ACT_SKIP).

Definition rq_clock_stop_loop_update (q : rq) : rq :=
  with_flags q (andnot (clock_update_flags q) RQCF_ACT_SKIP).

(** [SCHED_WARN_ON(rq->clock_update_flags < RQCF_ACT_SKIP)]: [true] is no
    warning. *)
Definition assert_clock_updated (q : rq) : bool :=
  negb (clock_update_flags q <? RQCF_ACT_SKIP).

(** The stashed [clock_update_flags] of [struct rq_flags] is the second
    component. *)
Definition rq_pin_lock (q : rq) : rq * Z :=
  (with_flags q (Z.land (clock_update_flags q) (Z.lor RQCF_REQ_SKIP RQCF_ACT_SKIP)), 0).

Definition rq_unpin_lock (q : rq) (rf : Z) : Z :=
  if RQCF_ACT_SKIP <? clock_update_flags q then RQCF_UPDATED else rf.

Definition rq_repin_lock (q : rq) (rf : Z) : rq :=
  with_flags q (Z.lor (clock_update_flags q) rf).

Definition double_rq_clock_clear_update (q1 q2 : rq) : rq * rq :=
  (with_flags q1 (Z.land (clock_update_flags q1) (Z.lor RQCF_REQ_SKIP RQCF_ACT_SKIP)),
   with_flags q2 (Z.land (clock_update_flags q2) (Z.lor RQCF_REQ_SKIP RQCF_ACT_SKIP))).

(** [__schedule]: take the lock, promote REQ to ACT and update the clock. *)
Definition schedule_clock_begin (e : reading) (q : rq) : rq :=
  let '(q, _) := rq_pin_lock q in
  let q := with_flags q (u32 (Z.shiftl (clock_update_flags q) 1)) in
  update_rq_clock e q.

(** The end of [__schedule], the same statement in [context_switch] and on the
    path where the task keeps running. *)
Definition schedule_clock_end (q : rq) : rq :=
  with_flags q (andnot (clock_update_flags q) (Z.lor RQCF_ACT_SKIP RQCF_REQ_SKIP)).

(** ** Time is accounted once *)

(** What the clock code relies on: the scheduler clock stays below [2^63]
    nanoseconds and does not jump by more than [2^53] of them between two updates,
    interrupt and steal time never run backwards, and capacities are on the scale
    of 1024. *)
Definition reading_ok (e : reading) (q : rq) : Prop :=
  0 <= sched_clock e < two63 /\ sched_clock e - clock (clocks q) < 2 ^ 53 /\
  prev_irq_time q <= irq_time e < two63 /\ prev_steal_time_rq q <= steal_clock e < two63 /\
  0 <= freq_cap e <= 1024 /\ 0 <= cpu_cap e <= 1024.

(** The steps of the clocks of a run queue; the flags may change at any time. *)
Inductive clock_step : rq -> rq -> Prop :=
| step_update e q : reading_ok e q -> clock_step q (update_rq_clock e q)
| step_idle cfs rt dl q :
    clock_step q (mk_rqc (update_idle_rq_clock_pelt cfs rt dl (clocks q)) (prev_irq_time q)
                    (prev_steal_time_rq q) (avg_irq q) (clock_update_flags q))
| step_flags f q : clock_step q (with_flags q f).

Definition rq_zero : rq := mk_rqc (mk_rq 0 0 0 0 0 0) 0 0 zero_avg 0.

Inductive clock_reachable : rq -> Prop :=
| reach_zero : clock_reachable rq_zero
| reach_step q q' : clock_reachable q -> clock_step q q' -> clock_reachable q'.

Definition clocks_ok (q : rq) : Prop :=
  let c := clocks q in
  0 <= lost_idle_time c <= clock_pelt c /\ clock_pelt c <= clock_task c /\
  0 <= prev_irq_time q /\ 0 <= prev_steal_time_rq q /\
  clock c = clock_task c + prev_irq_time q + prev_steal_time_rq q /\ clock c < two63.

Definition clocks_le (q q' : rq) : Prop :=
  clock (clocks q) <= clock (clocks q') /\
  clock_task (clocks q) <= clock_task (clocks q') /\
  rq_clock_pelt (clocks q) <= rq_clock_pelt (clocks q').

Lemma clocks_le_refl q : clocks_le q q.
Proof. unfold clocks_le. lia. Qed.

Lemma cap_scale_le d c : 0 <= d < 2 ^ 53 -> 0 <= c <= 1024 -> 0 <= cap_scale d c <= d.
Proof.
  intros Hd Hc. unfold cap_scale. rewrite Z.shiftr_div_pow2 by (unfold SCHED_CAPACITY_SHIFT; lia).
  change (2 ^ SCHED_CAPACITY_SHIFT) with 1024. rewrite u64_small by nia.
  split; [apply Z.div_pos; nia|]. apply Z.div_le_upper_bound; nia.
Qed.

(** The PELT clock after [clock_task] advanced by [delta]. *)
Lemma update_pelt_ok fc cc idle c delta :
  0 <= delta < 2 ^ 53 -> 0 <= fc <= 1024 -> 0 <= cc <= 1024 ->
  0 <= lost_idle_time c <= clock_pelt c -> clock_pelt c + delta <= clock_task c < two63 ->
  let c' := update_rq_clock_pelt fc cc idle c delta in
  clock c' = clock c /\ clock_task c' = clock_task c /\
  lost_idle_time c' = lost_idle_time c /\ clock_pelt c <= clock_pelt c' <= clock_task c.
Proof.
  intros Hd Hf Hc Hl Hp. unfold update_rq_clock_pelt.
  destruct idle; [simpl; lia|]. cbv zeta.
  pose proof (cap_scale_le delta cc Hd Hc) as A. rewrite (s64_small (cap_scale delta cc)) by lia.
  pose proof (cap_scale_le (cap_scale delta cc) fc ltac:(lia) Hf) as B.
  rewrite (s64_small (cap_scale (cap_scale delta cc) fc)) by lia. simpl.
  rewrite u64_small by lia. lia.
Qed.

(** A clamped delta of a monotone outside clock. *)
Lemma clamp_delta now prev d :
  0 <= prev <= now -> now < two63 -> 0 <= d ->
  let x := s64 (now -u64 prev) in
  0 <= (if d <? x then d else x) <= d /\ (if d <? x then d else x) <= now - prev.
Proof.
  intros Hp Hn Hd x. subst x. rewrite (u64_small (now - prev)), s64_small by lia. zcase; lia.
Qed.

Lemma update_task_ok e q delta :
  0 <= delta < 2 ^ 53 ->
  0 <= lost_idle_time (clocks q) <= clock_pelt (clocks q) ->
  clock_pelt (clocks q) <= clock_task (clocks q) ->
  0 <= prev_irq_time q -> 0 <= prev_steal_time_rq q ->
  clock (clocks q) = clock_task (clocks q) + prev_irq_time q + prev_steal_time_rq q + delta ->
  clock (clocks q) < two63 ->
  prev_irq_time q <= irq_time e < two63 -> prev_steal_time_rq q <= steal_clock e < two63 ->
  0 <= freq_cap e <= 1024 -> 0 <= cpu_cap e <= 1024 ->
  clocks_ok (update_rq_clock_task e q delta) /\ clocks_le q (update_rq_clock_task e q delta).
Proof.
  intros Hd Hl Hp Hi Hs Hc Hb Hie Hse Hf Hcc. unfold update_rq_clock_task. cbv zeta.
  pose proof (clamp_delta (irq_time e) (prev_irq_time q) delta ltac:(lia) ltac:(lia) ltac:(lia)) as I.
  cbv zeta in I. set (irq := if delta <? _ then delta else _) in *.
  rewrite (s64_small (delta - irq)) by lia.
  pose proof (clamp_delta (steal_clock e) (prev_steal_time_rq q) (delta - irq)
                ltac:(lia) ltac:(lia) ltac:(lia)) as S.
  cbv zeta in S. set (st := if delta - irq <? _ then _ else _) in *.
  assert (E : exists s', 0 <= s' <= delta - irq /\
    (if steal_enabled e then (st, prev_steal_time_rq q +u64 st, s64 (delta - irq - st))
     else (0, prev_steal_time_rq q, delta - irq)) =
    (s', prev_steal_time_rq q + s', delta - irq - s')).
  { destruct (steal_enabled e).
    - exists st. split; [lia|]. by rewrite u64_small, s64_small by lia.
    - exists 0. split; [lia|]. by rewrite Z.add_0_r, Z.sub_0_r. }
  destruct E as (s' & Hs' & ->).
  rewrite (u64_small (prev_irq_time q + irq)), (u64_small (clock_task (clocks q) + _)) by lia.
  set (c := with_clock_task _ _).
  pose proof (update_pelt_ok (freq_cap e) (cpu_cap e) (curr_is_idle e) c (delta - irq - s')
    ltac:(lia) Hf Hcc Hl ltac:(simpl; lia)) as (P1 & P2 & P3 & P4).
  set (c' := update_rq_clock_pelt _ _ _ c _) in *. simpl in P1, P2, P3, P4.
  unfold clocks_ok, clocks_le, rq_clock_pelt. simpl. rewrite P1, P2, P3.
  rewrite !u64_small by lia. lia.
Qed.

Lemma update_rq_clock_ok e q :
  clocks_ok q -> reading_ok e q ->
  clocks_ok (update_rq_clock e q) /\ clocks_le q (update_rq_clock e q).
Proof.
  intros Ok (H1 & H2 & H3 & H4 & H5 & H6). unfold update_rq_clock.
  destruct (z2b _); [split; [done|apply clocks_le_refl]|]. simpl.
  pose proof Ok as (L & P & I & S & C & B). simpl in *.
  destruct (Z.le_gt_cases (clock (clocks q)) (sched_clock e)) as [Hge|Hlt].
  - rewrite (u64_small (sched_clock e - _)), s64_small by lia.
    destruct (Z.ltb_spec (sched_clock e - clock (clocks q)) 0); [lia|].
    rewrite u64_small by lia. set (q1 := mk_rqc _ _ _ _ _).
    pose proof (update_task_ok e q1 (sched_clock e - clock (clocks q))) as T. simpl in T.
    destruct T as [T1 (T2 & T3 & T4)]; try done; try lia.
    split; [done|]. unfold clocks_le in *. simpl in T2. split_and!; try done; lia.
  - assert (E : s64 (sched_clock e -u64 clock (clocks q)) <? 0 = true).
    { apply Z.ltb_lt. rewrite s64_u64, s64_small by lia. lia. }
    rewrite E. split; [done|]. unfold clocks_le. simpl. lia.
Qed.

Lemma idle_ok cfs rt dl q :
  clocks_ok q ->
  let q' := mk_rqc (update_idle_rq_clock_pelt cfs rt dl (clocks q)) (prev_irq_time q)
              (prev_steal_time_rq q) (avg_irq q) (clock_update_flags q) in
  clocks_ok q' /\ clocks_le q q'.
Proof.
  intros (L & P & I & S & C & B). unfold update_idle_rq_clock_pelt, _update_idle_rq_clock_pelt.
  unfold clocks_ok, clocks_le, rq_clock_pelt. destruct (_ <=? _); simpl.
  - rewrite (u64_small (clock_task (clocks q) - clock_pelt (clocks q))) by lia.
    rewrite (u64_small (lost_idle_time _ + _)) by lia. rewrite !u64_small by lia. lia.
  - rewrite !u64_small by lia. lia.
Qed.

Lemma step_ok q q' : clocks_ok q -> clock_step q q' -> clocks_ok q' /\ clocks_le q q'.
Proof.
  intros Ok S. revert Ok. destruct S as [e q He|cfs rt dl q|f q]; intros Ok.
  - by apply update_rq_clock_ok.
  - by apply idle_ok.
  - split; [done|]. unfold clocks_le. simpl. lia.
Qed.

Lemma reachable_clocks_ok q : clock_reachable q -> clocks_ok q.
Proof.
  induction 1 as [|q q' _ IH Hs]; [vm_compute; intuition discriminate|].
  by apply (step_ok q q').
Qed.

(** C35: Every nanosecond of a run queue's clock is accounted exactly once, to
    tasks, to interrupts or to stolen time: [clock = clock_task + prev_irq_time +
    prev_steal_time_rq] after any sequence of clock updates and idle
    transitions.  In each of them the clock, the task clock and the PELT clock are
    monotone, the PELT clock never overtakes the task clock and idle time lost is
    never more than the PELT clock has. *)
Theorem rq_time_accounted_once q q' :
  clock_reachable q -> clock_step q q' ->
  clock (clocks q') = clock_task (clocks q') + prev_irq_time q' + prev_steal_time_rq q' /\
  clock (clocks q) <= clock (clocks q') /\
  clock_task (clocks q) <= clock_task (clocks q') /\
  rq_clock_pelt (clocks q) <= rq_clock_pelt (clocks q') /\
  lost_idle_time (clocks q') <= clock_pelt (clocks q') <= clock_task (clocks q').
Proof.
  intros R S. destruct (step_ok q q' (reachable_clocks_ok q R) S) as [Ok Le].
  destruct Ok as (L & P & I & St & C & B). destruct Le as (L1 & L2 & L3). lia.
Qed.

Definition example_reading : reading := mk_reading 5000000 300000 true 200000 512 800 false true.

Lemma rq_time_accounted_once_witness :
  clock_task (clocks rq_zero) <= clock_task (clocks (update_rq_clock example_reading rq_zero)).
Proof.
  apply (rq_time_accounted_once rq_zero (update_rq_clock example_reading rq_zero)).
  - constructor.
  - constructor. unfold reading_ok. simpl. lia.
Defined.

(** ** Skip requests *)

Lemma pin_flags_mod f : Z.land f (Z.lor RQCF_REQ_SKIP RQCF_ACT_SKIP) = f mod 4.
Proof.
  change (Z.lor RQCF_REQ_SKIP RQCF_ACT_SKIP) with (Z.ones 2). by rewrite Z.land_ones by lia.
Qed.

Lemma mod4_bits f : f mod 4 = Z.b2z (Z.testbit f 0) + 2 * Z.b2z (Z.testbit f 1).
Proof.
  rewrite !Z.testbit_spec' by lia. change (2 ^ 0) with 1. change (2 ^ 1) with 2.
  Z.div_mod_to_equations. lia.
Qed.

(** The flags with which [__schedule] calls [update_rq_clock]. *)
Definition promoted (f : Z) : Z := u32 (Z.shiftl (f mod 4) 1).

Lemma promoted_skip f : z2b (Z.land (promoted f) RQCF_ACT_SKIP) = Z.testbit f 0.
Proof.
  unfold promoted. rewrite mod4_bits.
  by destruct (Z.testbit f 0), (Z.testbit f 1).
Qed.

Lemma schedule_begin_eq e q :
  schedule_clock_begin e q =
  if Z.testbit (clock_update_flags q) 0 then with_flags q (promoted (clock_update_flags q))
  else update_rq_clock e (with_flags q (promoted (clock_update_flags q))).
Proof.
  unfold schedule_clock_begin, rq_pin_lock. cbn [clock_update_flags with_flags].
  rewrite pin_flags_mod. fold (promoted (clock_update_flags q)).
  change (with_flags (with_flags q (clock_update_flags q mod 4)) ?f) with (with_flags q f).
  pose proof (promoted_skip (clock_update_flags q)) as E.
  destruct (Z.testbit (clock_update_flags q) 0); [|done].
  unfold update_rq_clock. cbn [clock_update_flags with_flags]. by rewrite E.
Qed.

Lemma update_reaches_now e q :
  Z.testbit (clock_update_flags q) 0 = false -> clocks_ok q -> reading_ok e q ->
  clock (clocks q) <= sched_clock e ->
  clock (clocks (schedule_clock_begin e q)) = sched_clock e.
Proof.
  intros F (L & P & I & S & C & B) (H1 & H2 & H3 & H4 & H5 & H6) Hle.
  rewrite schedule_begin_eq, F. unfold update_rq_clock. cbn [clock_update_flags with_flags].
  rewrite promoted_skip, F. cbn [clocks with_flags].
  rewrite (u64_small (sched_clock e - _)), s64_small by lia.
  destruct (Z.ltb_spec (sched_clock e - clock (clocks q)) 0); [lia|].
  unfold update_rq_clock_task. destruct (if steal_enabled e then _ else _) as [[st ps] d].
  unfold update_rq_clock_pelt. simpl. destruct (curr_is_idle e); simpl; rewrite u64_small; lia.
Qed.

(** A request to skip the clock update suppresses exactly the update of the
    next [__schedule].  After the request that call leaves all clocks as they are,
    and reading them does not trigger the stale-clock warning; the end of
    [__schedule] drops the request, so the following [__schedule] brings the clock
    to the scheduler clock. *)
Theorem skip_request_lasts_one_schedule q e e' :
  clock_reachable q -> reading_ok e' q -> clock (clocks q) <= sched_clock e' ->
  let q1 := schedule_clock_begin e (rq_clock_skip_update q) in
  let q2 := schedule_clock_end q1 in
  clocks q1 = clocks q /\ assert_clock_updated q1 = true /\
  clock (clocks (schedule_clock_begin e' q2)) = sched_clock e'.
Proof.
  intros R He Hle q1 q2.
  assert (B0 : Z.testbit (Z.lor (clock_update_flags q) RQCF_REQ_SKIP) 0 = true)
    by (rewrite Z.lor_spec; apply orb_true_r).
  assert (E1 : q1 = with_flags q (promoted (Z.lor (clock_update_flags q) RQCF_REQ_SKIP))).
  { unfold q1. rewrite schedule_begin_eq. cbn [clock_update_flags with_flags rq_clock_skip_update]. by rewrite B0. }
  split; [by rewrite E1|split].
  - unfold assert_clock_updated. rewrite E1.
    cbn [clock_update_flags with_flags]. unfold promoted. rewrite mod4_bits, B0.
    by destruct (Z.testbit _ 1).
  - pose proof (reachable_clocks_ok q R) as Ok.
    apply update_reaches_now; unfold q2; rewrite E1; try done.
    cbn [clock_update_flags with_flags schedule_clock_end]. unfold andnot.
    rewrite Z.ldiff_spec. apply andb_false_r.
Qed.

Lemma skip_request_lasts_one_schedule_witness :
  clock (clocks (schedule_clock_begin example_reading (schedule_clock_end
    (schedule_clock_begin example_reading (rq_clock_skip_update rq_zero))))) = 5000000.
Proof.
  apply (skip_request_lasts_one_schedule rq_zero example_reading example_reading).
  - constructor.
  - unfold reading_ok. simpl. lia.
  - simpl. lia.
Defined.

End RqClock.
