(* ===== verification/Loadavg.v ===== *)
(** The global load average: [kernel/sched/loadavg.c] and
    [include/linux/sched/loadavg.h], with [calc_load_migrate] of
    [kernel/sched/core.c].

    Every CPU folds the change of its active count into a global counter from its
    tick, or into one of two NO_HZ counters when it stops ticking; a global timer
    averages the counter with three decay factors in 11-bit fixed point.  The file
    models the arithmetic at machine width and the whole protocol, with each call
    as one step (the shared counters are only changed by atomic additions and
    exchanges). *)

From Stdlib Require Import ZArith Lia List.
From stdpp Require Import base list numbers option.
From S2P Require Import Prelude.

Module Loadavg.

Definition FSHIFT : Z := 11.
Definition FIXED_1 : Z := Z.shiftl 1 FSHIFT.
Definition EXP_1 : Z := 1884.
Definition EXP_5 : Z := 2014.
Definition EXP_15 : Z := 2037.

(** [a1 = a0 * e + a * (1 - e)] *)
Definition calc_load (load exp active : Z) : Z :=
  let newload := load *u64 exp +u64 (active *u64 (FIXED_1 -u64 exp)) in
  let newload := if load <=? active then newload +u64 (FIXED_1 - 1) else newload in
  newload / FIXED_1.

Definition LOAD_INT (x : Z) : Z := Z.shiftr x FSHIFT.
Definition LOAD_FRAC (x : Z) : Z := LOAD_INT (Z.land x (FIXED_1 - 1) * 100).

(** The loop of [fixed_power_int] on the exponent; [fuel] counts its bits. *)
Fixpoint power_loop (fuel : nat) (result x frac_bits n : Z) : option Z :=
  match fuel with
  | O => None
  | S fuel =>
    let half := u64 (Z.shiftl 1 (frac_bits - 1)) in
    let result :=
      if z2b (Z.land n 1)
      then Z.shiftr (result *u64 x +u64 half) frac_bits else result in
    let n := Z.shiftr n 1 in
    if n =? 0 then Some result
    else power_loop fuel result (Z.shiftr (x *u64 x +u64 half) frac_bits) frac_bits n
  end.

Definition fixed_power_int (x frac_bits n : Z) : option Z :=
  let result := u64 (Z.shiftl 1 frac_bits) in
  if z2b n then power_loop 32 result x frac_bits n else Some result.

Definition calc_load_n (load exp active n : Z) : option Z :=
  e ← fixed_power_int exp FSHIFT n;
  Some (calc_load load e active).

(** [time_before(a, b)] of [jiffies.h]. *)
Definition time_before (a b : Z) : bool := s64 (a -u64 b) <? 0.

(** The load fields of [struct rq]. *)
Record load_rq := mk_lrq {
  nr_running : Z;
  nr_uninterruptible : Z;
  calc_load_active : Z;
  rq_calc_load_update : Z
}.

(** The globals of [loadavg.c], the time and the run queues of the CPUs. *)
Record state := mk_state {
  calc_load_tasks : Z;
  calc_load_update : Z;
  avenrun : list Z;
  calc_load_nohz : list Z;
  calc_load_idx : Z;
  jiffies : Z;
  rqs : list load_rq
}.

Definition set_tasks (s : state) (v : Z) : state :=
  mk_state v (calc_load_update s) (avenrun s) (calc_load_nohz s) (calc_load_idx s)
    (jiffies s) (rqs s).
Definition set_update (s : state) (v : Z) : state :=
  mk_state (calc_load_tasks s) v (avenrun s) (calc_load_nohz s) (calc_load_idx s)
    (jiffies s) (rqs s).
Definition set_avenrun (s : state) (v : list Z) : state :=
  mk_state (calc_load_tasks s) (calc_load_update s) v (calc_load_nohz s) (calc_load_idx s)
    (jiffies s) (rqs s).
Definition set_nohz (s : state) (v : list Z) : state :=
  mk_state (calc_load_tasks s) (calc_load_update s) (avenrun s) v (calc_load_idx s)
    (jiffies s) (rqs s).
Definition set_idx (s : state) (v : Z) : state :=
  mk_state (calc_load_tasks s) (calc_load_update s) (avenrun s) (calc_load_nohz s) v
    (jiffies s) (rqs s).
Definition set_rqs (s : state) (v : list load_rq) : state :=
  mk_state (calc_load_tasks s) (calc_load_update s) (avenrun s) (calc_load_nohz s)
    (calc_load_idx s) (jiffies s) v.

Definition get_avenrun (s : state) (offset shift : Z) : list Z :=
  (fun a => u64 (Z.shiftl (a +u64 offset) shift)) <$> avenrun s.

Definition calc_load_fold_active (q : load_rq) (adjust : Z) : Z * load_rq :=
  let nr_active := s64 (nr_running q - adjust) in
  let nr_active := s64 (nr_active + s32 (nr_uninterruptible q)) in
  if nr_active =? calc_load_active q then (0, q)
  else (s64 (nr_active - calc_load_active q),
        mk_lrq (nr_running q) (nr_uninterruptible q) nr_active (rq_calc_load_update q)).

(** [atomic_long_add(delta, &calc_load_tasks)] *)
Definition add_tasks (delta : Z) (s : state) : state :=
  set_tasks s (s64 (calc_load_tasks s + delta)).

Definition calc_load_write_idx (s : state) : Z :=
  let idx := calc_load_idx s in
  let idx := if negb (time_before (jiffies s) (calc_load_update s)) then s32 (idx + 1) else idx in
  Z.land idx 1.

Definition calc_load_read_idx (s : state) : Z := Z.land (calc_load_idx s) 1.

Definition calc_load_nohz_fold (cpu : Z) (s : state) : option state :=
  q ← aref (rqs s) cpu;
  let '(delta, q) := calc_load_fold_active q 0 in
  l ← aset (rqs s) cpu q;
  let s := set_rqs s l in
  if z2b delta then
    let idx := calc_load_write_idx s in
    v ← aref (calc_load_nohz s) idx;
    a ← aset (calc_load_nohz s) idx (s64 (v + delta));
    Some (set_nohz s a)
  else Some s.

Definition calc_load_nohz_start (this_cpu : Z) (s : state) : option state :=
  calc_load_nohz_fold this_cpu s.

Definition calc_load_nohz_remote (cpu : Z) (s : state) : option state :=
  calc_load_nohz_fold cpu s.

Definition rq_set_update (q : load_rq) (v : Z) : load_rq :=
  mk_lrq (nr_running q) (nr_uninterruptible q) (calc_load_active q) v.

Definition calc_load_nohz_read (s : state) : option (Z * state) :=
  let idx := calc_load_read_idx s in
  v ← aref (calc_load_nohz s) idx;
  if z2b v then
    a ← aset (calc_load_nohz s) idx 0;
    Some (v, set_nohz s a)
  else Some (0, s).

Section Hz.
(** [HZ], the configured tick rate. *)
Context (HZ : Z).

Definition LOAD_FREQ : Z := 5 * HZ + 1.

Definition calc_load_nohz_stop (this_cpu : Z) (s : state) : option state :=
  q ← aref (rqs s) this_cpu;
  let q := rq_set_update q (calc_load_update s) in
  let q :=
    if time_before (jiffies s) (rq_calc_load_update q) then q
    else if time_before (jiffies s) (rq_calc_load_update q +u64 10)
    then rq_set_update q (rq_calc_load_update q +u64 LOAD_FREQ)
    else q in
  l ← aset (rqs s) this_cpu q;
  Some (set_rqs s l).

(** [active > 0 ? active * FIXED_1 : 0], converted to [unsigned long] by the
    callee. *)
Definition fixed_active (s : state) : Z :=
  if 0 <? calc_load_tasks s then u64 (s64 (calc_load_tasks s * FIXED_1)) else 0.

Definition calc_global_nohz (s : state) : option state :=
  let sample_window := calc_load_update s in
  s ← (if negb (time_before (jiffies s) (sample_window +u64 10)) then
         let delta := s64 (jiffies s -u64 sample_window -u64 10) in
         let n := 1 + cdiv delta LOAD_FREQ in
         let active := fixed_active s in
         a0 ← aref (avenrun s) 0; a0' ← calc_load_n a0 EXP_1 active (u32 n);
         a1 ← aref (avenrun s) 1; a1' ← calc_load_n a1 EXP_5 active (u32 n);
         a2 ← aref (avenrun s) 2; a2' ← calc_load_n a2 EXP_15 active (u32 n);
         Some (set_update (set_avenrun s [a0'; a1'; a2']) (u64 (sample_window + n * LOAD_FREQ)))
       else Some s);
  Some (set_idx s (s32 (calc_load_idx s + 1))).

Definition calc_global_load (s : state) : option state :=
  let sample_window := calc_load_update s in
  if time_before (jiffies s) (sample_window +u64 10) then Some s
  else
    r ← calc_load_nohz_read s;
    let '(delta, s) := r : Z * state in
    let s := if z2b delta then add_tasks delta s else s in
    let active := fixed_active s in
    a0 ← aref (avenrun s) 0;
    a1 ← aref (avenrun s) 1;
    a2 ← aref (avenrun s) 2;
    let s := set_avenrun s [calc_load a0 EXP_1 active; calc_load a1 EXP_5 active;
                            calc_load a2 EXP_15 active] in
    calc_global_nohz (set_update s (sample_window +u64 LOAD_FREQ)).

Definition calc_global_load_tick (this_cpu : Z) (s : state) : option state :=
  q ← aref (rqs s) this_cpu;
  if time_before (jiffies s) (rq_calc_load_update q) then Some s
  else
    let '(delta, q) := calc_load_fold_active q 0 in
    let s := if z2b delta then add_tasks delta s else s in
    l ← aset (rqs s) this_cpu (rq_set_update q (rq_calc_load_update q +u64 LOAD_FREQ));
    Some (set_rqs s l).

(** [kernel/sched/core.c], when a CPU goes down. *)
Definition calc_load_migrate (cpu : Z) (s : state) : option state :=
  q ← aref (rqs s) cpu;
  let '(delta, q) := calc_load_fold_active q 1 in
  l ← aset (rqs s) cpu q;
  let s := set_rqs s l in
  Some (if z2b delta then add_tasks delta s else s).

(** [sched_rq_cpu_starting] of [kernel/sched/core.c]. *)
Definition sched_rq_cpu_starting (cpu : Z) (s : state) : option state :=
  q ← aref (rqs s) cpu;
  l ← aset (rqs s) cpu (rq_set_update q (calc_load_update s));
  Some (set_rqs s l).

End Hz.

(** ** The average *)

Lemma FIXED_1_eq : FIXED_1 = 2048.
Proof. done. Qed.

Lemma calc_load_exact load exp active :
  0 <= load -> 0 <= active -> 0 <= exp <= FIXED_1 ->
  load * FIXED_1 + FIXED_1 <= two64 -> active * FIXED_1 + FIXED_1 <= two64 ->
  calc_load load exp active =
  (load * exp + active * (FIXED_1 - exp) + (if load <=? active then FIXED_1 - 1 else 0)) / FIXED_1.
Proof.
  rewrite FIXED_1_eq. intros Hl Ha He Bl Ba. unfold calc_load. rewrite FIXED_1_eq.
  assert (0 <= load * exp <= load * 2048) by nia.
  assert (0 <= active * (2048 - exp) <= active * 2048) by nia.
  assert (load * exp + active * (2048 - exp) <= Z.max load active * 2048) by nia.
  rewrite (u64_small (2048 - exp)), (u64_small (load * exp)) by lia.
  rewrite (u64_small (active * (2048 - exp))), (u64_small (load * exp + _)) by lia.
  destruct (load <=? active); [rewrite u64_small by lia; f_equal; lia|].
  by rewrite Z.add_0_r.
Qed.

(** The result lies between the old load and the active count, and moves by at
    least one unit unless it is there. *)
Lemma calc_load_between load exp active :
  0 <= load -> 0 <= active -> 0 <= exp <= FIXED_1 ->
  load * FIXED_1 + FIXED_1 <= two64 -> active * FIXED_1 + FIXED_1 <= two64 ->
  (load <= active -> load <= calc_load load exp active <= active) /\
  (active <= load -> active <= calc_load load exp active <= load) /\
  (exp < FIXED_1 -> load < active -> load < calc_load load exp active) /\
  (exp < FIXED_1 -> active < load -> calc_load load exp active < load).
Proof.
  intros Hl Ha He Bl Ba. rewrite calc_load_exact by done. rewrite FIXED_1_eq in *.
  split_and!; intros; (destruct (Z.leb_spec load active); try lia).
  all: try split; try (apply Z.div_le_lower_bound; nia); try (apply Z.div_le_upper_bound; nia).
  all: try (apply Z.lt_succ_r, Z.div_lt_upper_bound; nia).
  - enough (load + 1 <= (load * exp + active * (2048 - exp) + (2048 - 1)) / 2048) by lia.
    apply Z.div_le_lower_bound; nia.
  - apply Z.div_lt_upper_bound; nia.
Qed.

Fixpoint calc_load_iter (n : nat) (load exp active : Z) : Z :=
  match n with
  | O => load
  | S n => calc_load_iter n (calc_load load exp active) exp active
  end.

(** With a constant number of active tasks the load average moves towards
    it monotonically, never passes it, and reaches it exactly, in at most as
    many updates as they are apart in fixed-point units; nothing wraps as long as
    both fit into 53 bits. *)
Theorem calc_load_converges n load exp active :
  0 <= load < 2 ^ 53 -> 0 <= active < 2 ^ 53 -> 0 <= exp < FIXED_1 ->
  Z.min load active <= calc_load_iter n load exp active <= Z.max load active /\
  (Z.abs (active - load) <= Z.of_nat n -> calc_load_iter n load exp active = active).
Proof.
  revert load. induction n as [|n IH]; intros load Hl Ha He; simpl; [lia|].
  pose proof (calc_load_between load exp active) as (B1 & B2 & B3 & B4);
    rewrite ?FIXED_1_eq in *; try lia.
  assert (Hr : 0 <= calc_load load exp active < 2 ^ 53)
    by (destruct (Z.le_gt_cases load active); lia).
  destruct (IH (calc_load load exp active) Hr Ha He) as [I1 I2].
  split; [destruct (Z.le_gt_cases load active); lia|]. intros Hn. apply I2.
  destruct (Z.lt_trichotomy load active) as [?|[?|?]]; lia.
Qed.

Lemma calc_load_converges_witness : calc_load_iter 2000 100 EXP_15 2048 = 2048.
Proof.
  apply (calc_load_converges 2000 100 EXP_15 2048); try (unfold EXP_15, FIXED_1; simpl; lia).
  vm_compute. intuition discriminate.
Defined.

(** ** Powers of the decay factor *)

(** The rounded fixed-point product of the loop. *)
Definition rmul (a b : Z) : Z := (a * b + 1024) / 2048.

Lemma rmul_range a b : 0 <= a <= 2048 -> 0 <= b <= 2048 -> 0 <= rmul a b <= 2048.
Proof.
  intros Ha Hb. unfold rmul. split; [apply Z.div_pos; nia|].
  apply Z.lt_succ_r, Z.div_lt_upper_bound; nia.
Qed.

Lemma rmul_error a b : - 1024 < 2048 * rmul a b - a * b <= 1024.
Proof.
  unfold rmul. pose proof (Z.mod_pos_bound (a * b + 1024) 2048 ltac:(lia)).
  pose proof (Z.div_mod (a * b + 1024) 2048 ltac:(lia)). lia.
Qed.

Lemma rmul_machine a b :
  0 <= a <= 2048 -> 0 <= b <= 2048 ->
  Z.shiftr (a *u64 b +u64 u64 (Z.shiftl 1 (FSHIFT - 1))) FSHIFT = rmul a b.
Proof.
  intros Ha Hb. unfold rmul. change (u64 (Z.shiftl 1 (FSHIFT - 1))) with 1024.
  rewrite (u64_small (a * b)), (u64_small (a * b + 1024)) by nia.
  by rewrite Z.shiftr_div_pow2 by (unfold FSHIFT; lia).
Qed.

(** [a] is [p^n] in fixed point, with an error of half a unit for each
    multiplication. *)
Definition approx (p a n : Z) : Prop :=
  1 <= n /\ 0 <= a <= 2048 /\
  Z.abs (2 * a * 2048 ^ n - 4096 * p ^ n) <= (n - 1) * 2048 ^ n.

Lemma approx_1 p : 0 <= p <= 2048 -> approx p p 1.
Proof. intros Hp. split_and!; rewrite ?Z.pow_1_r; lia. Qed.

(** The error of a product, with [A] and [B] the scales and [P] and [Q] the exact
    powers of the factors. *)
Lemma product_error a b A B P Q m k r :
  0 <= a <= 2048 -> 0 <= Q <= B -> 0 < A ->
  Z.abs (2 * a * A - 4096 * P) <= m * A -> Z.abs (2 * b * B - 4096 * Q) <= k * B ->
  - 1024 < 2048 * r - a * b <= 1024 ->
  Z.abs (2 * r * (A * B) - 4096 * (P * Q)) <= (m + k + 1) * (A * B).
Proof.
  intros Ha HQ HA E1 E2 Er.
  assert (I1 : Z.abs (a * A * (2 * b * B - 4096 * Q)) <= 2048 * A * (k * B)).
  { rewrite Z.abs_mul. apply Z.mul_le_mono_nonneg; try lia.
    rewrite Z.abs_eq by nia. apply Z.mul_le_mono_nonneg_r; lia. }
  assert (I2 : Z.abs (2048 * Q * (2 * a * A - 4096 * P)) <= 2048 * B * (m * A)).
  { rewrite Z.abs_mul. apply Z.mul_le_mono_nonneg; lia. }
  assert (I3 : Z.abs ((2048 * r - a * b) * (2 * (A * B))) <= 1024 * (2 * (A * B))).
  { rewrite Z.abs_mul. rewrite (Z.abs_eq (2 * (A * B))) by nia.
    apply Z.mul_le_mono_nonneg_r; [nia|lia]. }
  assert (E : 2048 * (2 * r * (A * B) - 4096 * (P * Q)) =
              (2048 * r - a * b) * (2 * (A * B)) + a * A * (2 * b * B - 4096 * Q) +
              2048 * Q * (2 * a * A - 4096 * P)) by ring.
  lia.
Qed.

Lemma approx_mul p a b m k :
  0 <= p <= 2048 -> approx p a m -> approx p b k -> approx p (rmul a b) (m + k).
Proof.
  intros Hp (Hm & Ha & E1) (Hk & Hb & E2). split_and!; [lia|by apply rmul_range..|].
  rewrite !Z.pow_add_r by lia.
  replace (m + k - 1) with ((m - 1) + (k - 1) + 1) by lia.
  apply (product_error a b); try done; try apply rmul_error.
  - split; [apply Z.pow_nonneg; lia|apply Z.pow_le_mono_l; lia].
  - apply Z.pow_pos_nonneg; lia.
Qed.

(** The loop: [result] holds the power [d] (or is one), [x] the power [w]. *)
Lemma power_loop_spec p fuel : forall result x n d w,
  0 <= p <= 2048 -> approx p x w -> 1 <= n < 2 ^ Z.of_nat fuel ->
  (d = 0 /\ result = 2048 \/ approx p result d) ->
  exists r, power_loop fuel result x FSHIFT n = Some r /\ approx p r (d + w * n).
Proof.
  induction fuel as [|fuel IH]; intros result x n d w Hp Hx Hn Hr; [simpl in Hn; lia|].
  simpl power_loop. pose proof Hx as (Hw & Bx & _).
  assert (Br : 0 <= result <= 2048) by (destruct Hr as [[_ ->]|(_ & H & _)]; lia).
  rewrite !rmul_machine by done.
  rewrite Z.shiftr_div_pow2 by lia. change (2 ^ 1) with 2.
  replace (Z.land n 1) with (n mod 2) by (symmetry; apply (Z.land_ones n 1); lia).
  pose proof (Z.div_mod n 2 ltac:(lia)) as Dn. pose proof (Z.mod_pos_bound n 2 ltac:(lia)).
  set (result' := if z2b (n mod 2) then rmul result x else result).
  assert (Hr' : d + w * (n mod 2) = 0 /\ result' = 2048 \/ approx p result' (d + w * (n mod 2))).
  { unfold result', z2b. destruct (Z.eqb_spec (n mod 2) 0) as [E|E]; simpl.
    - rewrite E, Z.mul_0_r, Z.add_0_r. done.
    - right. replace (n mod 2) with 1 by lia. rewrite Z.mul_1_r.
      destruct Hr as [[-> ->]|Hr]; [|by apply approx_mul].
      replace (rmul 2048 x) with x; [done|].
      unfold rmul. apply Z.div_unique with 1024; lia. }
  destruct (Z.eqb_spec (n / 2) 0) as [E|E].
  - exists result'. split; [done|].
    assert (0 <= d) by (destruct Hr as [[-> _]|(? & _)]; lia).
    replace n with (n mod 2) by lia. destruct Hr' as [[Hz _]|]; [nia|done].
  - destruct (IH result' (rmul x x) (n / 2) (d + w * (n mod 2)) (w + w)) as (r & -> & Hr2);
      try done.
    + by apply approx_mul.
    + rewrite Nat2Z.inj_succ, Z.pow_succ_r in Hn by lia. lia.
    + exists r. split; [done|]. by replace (d + w * n) with
        (d + w * (n mod 2) + (w + w) * (n / 2)) by nia.
Qed.

#[local] Arguments power_loop : simpl never.

(** [fixed_power_int] always terminates within the 32 bits of its exponent,
    stays within the fixed-point unit interval without overflow, and is within
    [(n - 1)/2] units of the true power [2048 * (x/2048)^n].  So the bulk update
    [calc_load_n] over [n] missed periods is defined and, like a single update,
    never leaves the interval between the old load and the active count. *)
Theorem fixed_power_close x n load active :
  0 <= x <= FIXED_1 -> 1 <= n < two32 -> 0 <= load < 2 ^ 53 -> 0 <= active < 2 ^ 53 ->
  exists r, fixed_power_int x FSHIFT n = Some r /\ 0 <= r <= FIXED_1 /\
    Z.abs (2 * r * FIXED_1 ^ n - 2 * FIXED_1 * x ^ n) <= (n - 1) * FIXED_1 ^ n /\
    exists l, calc_load_n load x active n = Some l /\
      Z.min load active <= l <= Z.max load active.
Proof.
  intros Hx Hn Hl Ha. rewrite FIXED_1_eq in *. unfold calc_load_n, fixed_power_int, z2b.
  destruct (Z.eqb_spec n 0); [lia|]. simpl negb. cbv iota.
  destruct (power_loop_spec x 32 (u64 (Z.shiftl 1 FSHIFT)) x n 0 1) as (r & E & A);
    [done|by apply approx_1|done|by left|].
  rewrite E. destruct A as (_ & Hr & Er). rewrite Z.add_0_l, Z.mul_1_l in Er.
  exists r. split_and!; try done; try lia. exists (calc_load load r active). split; [done|].
  pose proof (calc_load_between load r active) as (B1 & B2 & _); rewrite ?FIXED_1_eq; try lia.
Qed.

Lemma fixed_power_close_witness :
  exists r, fixed_power_int EXP_5 FSHIFT 7 = Some r /\ 0 <= r <= FIXED_1.
Proof.
  destruct (fixed_power_close EXP_5 7 100 4096) as (r & E & H & _).
  1-4: vm_compute; intuition discriminate.
  exists r. exact (conj E H).
Defined.

(** ** The ledger of active tasks *)

Lemma calc_load_n_total load exp active n :
  0 <= exp <= FIXED_1 -> 0 <= n < two32 -> is_Some (calc_load_n load exp active n).
Proof.
  rewrite FIXED_1_eq. intros He Hn. unfold calc_load_n, fixed_power_int, z2b.
  destruct (Z.eqb_spec n 0); simpl; [by eexists|].
  destruct (power_loop_spec exp 32 (u64 (Z.shiftl 1 FSHIFT)) exp n 0 1) as (r & E & _);
    [done|by apply approx_1|lia|by left|].
  rewrite E. by eexists.
Qed.

(** What the counters and the run queues hold together: the deltas that were
    folded, in whichever counter, are the active counts the CPUs last
    reported. *)
Record ledger (s : state) : Prop := mk_ledger {
  led_avenrun : length (avenrun s) = 3%nat;
  led_nohz : length (calc_load_nohz s) = 2%nat;
  led_sum : exists k, calc_load_tasks s + zsum id (calc_load_nohz s) =
                      zsum calc_load_active (rqs s) + k * two64
}.

Lemma fold_active_delta q adjust :
  exists k, calc_load_active (calc_load_fold_active q adjust).2 =
            calc_load_active q + (calc_load_fold_active q adjust).1 + k * two64.
Proof.
  unfold calc_load_fold_active. destruct (_ =? _); simpl; [exists 0; lia|].
  set (nr := s64 (_ + s32 _)). destruct (s64_cong (nr - calc_load_active q)) as [k ->].
  exists (- k). lia.
Qed.

Lemma land_1_range x : 0 <= Z.land x 1 < 2.
Proof.
  replace (Z.land x 1) with (x mod 2) by (symmetry; apply (Z.land_ones x 1); lia).
  apply Z.mod_pos_bound. lia.
Qed.

(** Folding the delta of a CPU into the global counter. *)
Lemma fold_tasks_ledger s cpu q adjust l q' :
  ledger s -> aref (rqs s) cpu = Some q ->
  calc_load_active q' = calc_load_active (calc_load_fold_active q adjust).2 ->
  aset (rqs s) cpu q' = Some l ->
  let delta := (calc_load_fold_active q adjust).1 in
  ledger (set_rqs (if z2b delta then add_tasks delta s else s) l).
Proof.
  intros [La Ln [k Ls]] Hq Hq' Hset delta.
  destruct (aset_sum calc_load_active _ _ _ q' Hq) as (l' & E & Hlen & Hsum). simplify_eq.
  destruct (fold_active_delta q adjust) as [k' D]. fold delta in D.
  unfold z2b. destruct (Z.eqb_spec delta 0) as [E0|E0]; split; simpl; try done.
  - exists (k - k'). lia.
  - destruct (s64_cong (calc_load_tasks s + delta)) as [k2 ->]. exists (k - k' + k2). lia.
Qed.

Lemma nohz_fold_ledger s cpu :
  ledger s -> 0 <= cpu < Z.of_nat (length (rqs s)) ->
  exists s', calc_load_nohz_fold cpu s = Some s' /\ ledger s'.
Proof.
  intros [La Ln [k Ls]] Hc. unfold calc_load_nohz_fold.
  destruct (aref_lt _ _ Hc) as [q Hq]. rewrite Hq. simpl.
  destruct (fold_active_delta q 0) as [k' D].
  destruct (calc_load_fold_active q 0) as [delta q'] eqn:Ef. simpl in D.
  destruct (aset_sum calc_load_active _ _ _ q' Hq) as (l' & -> & Hlen & Hsum). simpl.
  unfold z2b. destruct (Z.eqb_spec delta 0) as [E0|E0]; simpl.
  - eexists. split; [done|]. split; simpl; try done. exists (k - k'). lia.
  - set (idx := calc_load_write_idx _).
    assert (Hi : 0 <= idx < Z.of_nat (length (calc_load_nohz s)))
      by (rewrite Ln; apply land_1_range).
    destruct (aref_lt _ _ Hi) as [v Hv]. rewrite Hv. simpl.
    destruct (aset_sum id _ _ _ (s64 (v + delta)) Hv) as (a' & -> & Hla & Hsa). simpl.
    eexists. split; [done|]. split; simpl; [done|lia|].
    rewrite Hsa, Hsum. unfold id. destruct (s64_cong (v + delta)) as [k2 ->].
    exists (k - k' + k2). unfold id in *. lia.
Qed.

Lemma nohz_read_ledger s :
  length (calc_load_nohz s) = 2%nat ->
  exists delta s', calc_load_nohz_read s = Some (delta, s') /\
    aref (calc_load_nohz s) (calc_load_read_idx s) = Some delta /\
    aref (calc_load_nohz s') (calc_load_read_idx s) = Some 0 /\
    aref (calc_load_nohz s') (1 - calc_load_read_idx s) =
      aref (calc_load_nohz s) (1 - calc_load_read_idx s) /\
    s' = set_nohz s (calc_load_nohz s') /\ length (calc_load_nohz s') = 2%nat /\
    zsum id (calc_load_nohz s') = zsum id (calc_load_nohz s) - delta.
Proof.
  intros Ln. unfold calc_load_nohz_read.
  pose proof (land_1_range (calc_load_idx s)) as Hr. fold (calc_load_read_idx s) in Hr.
  set (idx := calc_load_read_idx s) in *.
  assert (Hi : 0 <= idx < Z.of_nat (length (calc_load_nohz s))) by lia.
  destruct (aref_lt _ _ Hi) as [v Hv]. rewrite Hv. simpl. unfold z2b.
  destruct (Z.eqb_spec v 0) as [->|E]; simpl.
  - exists 0, s. split_and!; try done; [by destruct s|lia].
  - rewrite aset_lt by done. simpl. eexists _, _. split; [done|]. simpl.
    rewrite !aref_insert by lia. rewrite Z.eqb_refl.
    destruct (Z.eqb_spec (1 - idx) idx); [lia|].
    split_and!; try done; [by rewrite length_insert|].
    rewrite (zsum_insert id _ _ v); [unfold id; lia|].
    unfold aref in Hv. by destruct (0 <=? idx).
Qed.

(** What [calc_global_nohz] changes: the averages, the window and the index. *)
Lemma global_nohz_total HZ s :
  length (avenrun s) = 3%nat ->
  exists av up, calc_global_nohz HZ s =
    Some (set_idx (set_update (set_avenrun s av) up) (s32 (calc_load_idx s + 1))) /\
    length av = 3%nat /\
    up = if negb (time_before (jiffies s) (calc_load_update s +u64 10))
         then u64 (calc_load_update s +
                (1 + cdiv (s64 (jiffies s -u64 calc_load_update s -u64 10)) (LOAD_FREQ HZ))
                * LOAD_FREQ HZ)
         else calc_load_update s.
Proof.
  intros La. unfold calc_global_nohz. destruct (negb _).
  - set (n := 1 + cdiv _ _). pose proof (u32_range n) as Hn.
    destruct (avenrun s) as [|a0 [|a1 [|a2 [|]]]] eqn:Ea; try done.
    destruct (calc_load_n_total a0 EXP_1 (fixed_active s) (u32 n)) as [b0 E0]; [done..|].
    destruct (calc_load_n_total a1 EXP_5 (fixed_active s) (u32 n)) as [b1 E1]; [done..|].
    destruct (calc_load_n_total a2 EXP_15 (fixed_active s) (u32 n)) as [b2 E2]; [done..|].
    unfold aref. simpl. rewrite E0. simpl. rewrite E1. simpl. rewrite E2. simpl.
    by eexists _, _.
  - simpl. exists (avenrun s), (calc_load_update s). split_and!; [by destruct s|done..].
Qed.

(** The effect of [calc_global_load] once the window has closed. *)
Lemma global_load_effect HZ s :
  length (avenrun s) = 3%nat -> length (calc_load_nohz s) = 2%nat ->
  time_before (jiffies s) (calc_load_update s +u64 10) = false ->
  exists delta s', calc_global_load HZ s = Some s' /\
    aref (calc_load_nohz s) (calc_load_read_idx s) = Some delta /\
    aref (calc_load_nohz s') (calc_load_read_idx s) = Some 0 /\
    aref (calc_load_nohz s') (1 - calc_load_read_idx s) =
      aref (calc_load_nohz s) (1 - calc_load_read_idx s) /\
    (exists k, calc_load_tasks s' = calc_load_tasks s + delta + k * two64) /\
    calc_load_idx s' = s32 (calc_load_idx s + 1) /\
    rqs s' = rqs s /\ jiffies s' = jiffies s /\
    length (avenrun s') = 3%nat /\ length (calc_load_nohz s') = 2%nat /\
    zsum id (calc_load_nohz s') = zsum id (calc_load_nohz s) - delta /\
    let w := calc_load_update s +u64 LOAD_FREQ HZ in
    calc_load_update s' =
      if negb (time_before (jiffies s) (w +u64 10))
      then u64 (w + (1 + cdiv (s64 (jiffies s -u64 w -u64 10)) (LOAD_FREQ HZ)) * LOAD_FREQ HZ)
      else w.
Proof.
  intros La Ln Hw. unfold calc_global_load. rewrite Hw.
  destruct (nohz_read_ledger s Ln) as (delta & s1 & -> & R1 & R2 & R3 & E1 & R4 & R5). simpl.
  set (s2 := if z2b delta then add_tasks delta s1 else s1).
  assert (H2 : s2 = set_tasks s1 (calc_load_tasks s2) /\
               exists k, calc_load_tasks s2 = calc_load_tasks s + delta + k * two64).
  { unfold s2, z2b. rewrite E1. destruct (Z.eqb_spec delta 0) as [->|]; simpl.
    - split; [done|]. exists 0. lia.
    - split; [done|]. apply s64_cong. }
  destruct H2 as [E2 Ht]. rewrite E2, E1. unfold set_tasks at 1, set_nohz at 1. simpl avenrun.
  destruct (avenrun s) as [|a0 [|a1 [|a2 [|]]]] eqn:Ea; try done. unfold aref at 1 2 3. simpl.
  match goal with |- context [calc_global_nohz HZ ?x] =>
    destruct (global_nohz_total HZ x) as (av & up & -> & Hav & Hup); [done|] end.
  simpl in Hup. eexists delta, _. split; [done|]. simpl. split_and!; done.
Qed.

Lemma global_load_ledger HZ s :
  ledger s -> exists s', calc_global_load HZ s = Some s' /\ ledger s'.
Proof.
  intros [La Ln [k Ls]].
  destruct (time_before (jiffies s) (calc_load_update s +u64 10)) eqn:Hw.
  - exists s. unfold calc_global_load. rewrite Hw. split; [done|]. split; eauto.
  - destruct (global_load_effect HZ s La Ln Hw) as
      (delta & s' & E & _ & _ & _ & (k' & Ht) & _ & Hr & _ & La' & Ln' & Hs & _).
    exists s'. split; [done|]. split; try done. exists (k + k'). rewrite Hr, Hs. lia.
Qed.

(** The calls of the protocol. *)
Inductive load_op :=
| Tick (cpu : Z) | NohzStart (cpu : Z) | NohzRemote (cpu : Z) | NohzStop (cpu : Z)
| GlobalLoad | Migrate (cpu : Z) | Starting (cpu : Z).

Definition run_op (HZ : Z) (op : load_op) (s : state) : option state :=
  match op with
  | Tick cpu => calc_global_load_tick HZ cpu s
  | NohzStart cpu => calc_load_nohz_start cpu s
  | NohzRemote cpu => calc_load_nohz_remote cpu s
  | NohzStop cpu => calc_load_nohz_stop HZ cpu s
  | GlobalLoad => calc_global_load HZ s
  | Migrate cpu => calc_load_migrate cpu s
  | Starting cpu => sched_rq_cpu_starting cpu s
  end.

Definition op_cpu (op : load_op) : Z :=
  match op with
  | Tick c | NohzStart c | NohzRemote c | NohzStop c | Migrate c | Starting c => c
  | GlobalLoad => 0
  end.

(** Between the calls time passes and tasks start, stop and block. *)
Definition set_jiffies (s : state) (j : Z) : state :=
  mk_state (calc_load_tasks s) (calc_load_update s) (avenrun s) (calc_load_nohz s)
    (calc_load_idx s) j (rqs s).

Definition set_counts (q : load_rq) (nr nu : Z) : load_rq :=
  mk_lrq nr nu (calc_load_active q) (rq_calc_load_update q).

Inductive load_step (HZ : Z) : state -> state -> Prop :=
| step_op op s s' : run_op HZ op s = Some s' -> load_step HZ s s'
| step_time j s : load_step HZ s (set_jiffies s j)
| step_counts cpu nr nu q l s :
    aref (rqs s) cpu = Some q -> aset (rqs s) cpu (set_counts q nr nu) = Some l ->
    load_step HZ s (set_rqs s l).

(** After [sched_init]: nothing is active and the first window is ahead. *)
Definition load_init (HZ j ncpu : Z) : state :=
  mk_state 0 (j +u64 LOAD_FREQ HZ) [0; 0; 0] [0; 0] 0 j
    (replicate (Z.to_nat ncpu) (mk_lrq 0 0 0 (j +u64 LOAD_FREQ HZ))).

Inductive load_reachable (HZ : Z) : state -> Prop :=
| load_start j ncpu : load_reachable HZ (load_init HZ j ncpu)
| load_next s s' : load_reachable HZ s -> load_step HZ s s' -> load_reachable HZ s'.

(** Storing a run queue with the same reported count. *)
Lemma ledger_set_rq s cpu q q' :
  ledger s -> aref (rqs s) cpu = Some q -> calc_load_active q' = calc_load_active q ->
  exists l, aset (rqs s) cpu q' = Some l /\ ledger (set_rqs s l).
Proof.
  intros [La Ln [k Ls]] Hq Ha.
  destruct (aset_sum calc_load_active _ _ _ q' Hq) as (l & E & Hlen & Hsum).
  exists l. split; [done|]. split; simpl; try done. exists k. lia.
Qed.

Lemma nohz_stop_ledger HZ s cpu :
  ledger s -> 0 <= cpu < Z.of_nat (length (rqs s)) ->
  exists s', calc_load_nohz_stop HZ cpu s = Some s' /\ ledger s'.
Proof.
  intros L Hc. unfold calc_load_nohz_stop. destruct (aref_lt _ _ Hc) as [q Hq]. rewrite Hq. simpl.
  match goal with |- exists _, (aset (rqs s) cpu ?x ≫= _) = _ /\ _ => set (q2 := x) end.
  assert (Ea : calc_load_active q2 = calc_load_active q) by (unfold q2; by repeat case_match).
  destruct (ledger_set_rq s cpu q q2 L Hq Ea) as (l & -> & L'). simpl. by eexists.
Qed.

Lemma tick_ledger HZ s cpu :
  ledger s -> 0 <= cpu < Z.of_nat (length (rqs s)) ->
  exists s', calc_global_load_tick HZ cpu s = Some s' /\ ledger s'.
Proof.
  intros L Hc. unfold calc_global_load_tick.
  destruct (aref_lt _ _ Hc) as [q Hq]. rewrite Hq. simpl.
  destruct (time_before _ _); [by exists s|].
  set (upd := fun q => rq_set_update q (rq_calc_load_update q +u64 LOAD_FREQ HZ)).
  pose proof (fold_tasks_ledger s cpu q 0 (<[Z.to_nat cpu := upd (calc_load_fold_active q 0).2]>
    (rqs s)) (upd (calc_load_fold_active q 0).2) L Hq eq_refl (aset_lt _ _ _ Hc)) as L'.
  destruct (calc_load_fold_active q 0) as [delta q']. simpl in L'.
  replace (rqs (if z2b delta then add_tasks delta s else s)) with (rqs s)
    by (by destruct (z2b delta)).
  rewrite aset_lt by done. simpl. by eexists.
Qed.

Lemma migrate_ledger s cpu :
  ledger s -> 0 <= cpu < Z.of_nat (length (rqs s)) ->
  exists s', calc_load_migrate cpu s = Some s' /\ ledger s'.
Proof.
  intros L Hc. unfold calc_load_migrate. destruct (aref_lt _ _ Hc) as [q Hq]. rewrite Hq. simpl.
  pose proof (fold_tasks_ledger s cpu q 1 (<[Z.to_nat cpu := (calc_load_fold_active q 1).2]>
    (rqs s)) _ L Hq eq_refl (aset_lt _ _ _ Hc)) as L'.
  destruct (calc_load_fold_active q 1) as [delta q']. simpl in L'.
  rewrite aset_lt by done. simpl. eexists. split; [done|]. by destruct (z2b delta).
Qed.

Lemma run_op_ledger HZ op s :
  ledger s -> 0 <= op_cpu op < Z.of_nat (length (rqs s)) ->
  exists s', run_op HZ op s = Some s' /\ ledger s'.
Proof.
  intros L Hc. destruct op as [c|c|c|c| |c|c]; simpl in *.
  - by apply tick_ledger.
  - by apply nohz_fold_ledger.
  - by apply nohz_fold_ledger.
  - by apply nohz_stop_ledger.
  - by apply global_load_ledger.
  - by apply migrate_ledger.
  - unfold sched_rq_cpu_starting. destruct (aref_lt _ _ Hc) as [q Hq]. rewrite Hq. simpl.
    destruct (ledger_set_rq s c q (rq_set_update q (calc_load_update s)) L Hq eq_refl)
      as (l & -> & L'). simpl. by eexists.
Qed.

(** A call on a CPU that does not exist has no result. *)
Lemma run_op_range HZ op s s' :
  op <> GlobalLoad -> run_op HZ op s = Some s' -> 0 <= op_cpu op < Z.of_nat (length (rqs s)).
Proof.
  assert (A : forall c (k : load_rq -> option state), aref (rqs s) c ≫= k = Some s' ->
                0 <= c < Z.of_nat (length (rqs s))).
  { intros c k H. destruct (aref (rqs s) c) eqn:E; [|done]. by eapply aref_Some_range. }
  intros Hg. destruct op as [c|c|c|c| |c|c]; try done; intros H; eapply A, H.
Qed.

Lemma step_ledger HZ s s' : ledger s -> load_step HZ s s' -> ledger s'.
Proof.
  intros L S. revert L. destruct S as [op s s' H|j s|cpu nr nu q l s Hq Hs]; intros L.
  - assert (D : op = GlobalLoad \/ op <> GlobalLoad) by (destruct op; auto; by right).
    destruct D as [->|D].
    + destruct (global_load_ledger HZ s L) as (s2 & E & L2). simpl in H. by simplify_eq.
    + destruct (run_op_ledger HZ op s L (run_op_range HZ op s s' D H)) as (s2 & E & L2).
      by simplify_eq.
  - destruct L. by split.
  - destruct (ledger_set_rq s cpu q (set_counts q nr nu) L Hq eq_refl) as (l2 & E & L2).
    by simplify_eq.
Qed.

Lemma reachable_ledger HZ s : load_reachable HZ s -> ledger s.
Proof.
  induction 1 as [j ncpu|s s' _ IH S]; [|by apply (step_ledger HZ s)].
  split; simpl; try done. exists 0. rewrite Z.add_0_r.
  induction (Z.to_nat ncpu) as [|n IHn]; simpl; lia.
Qed.

(** C25: No active task is lost or counted twice between the CPUs and the global
    load.  After any interleaving of ticks, NO_HZ entries, exits and remote folds,
    CPU start-up and shut-down and global updates, with tasks coming and going at
    any time, the global counter plus the two NO_HZ counters equal the sum of the
    active counts the CPUs last reported (modulo [2^64]), every call on an existing
    CPU succeeds, and in particular folds and updates never leave the two-element
    NO_HZ array. *)
Theorem load_ledger_balanced HZ s op :
  load_reachable HZ s -> 0 <= op_cpu op < Z.of_nat (length (rqs s)) ->
  u64 (calc_load_tasks s + zsum id (calc_load_nohz s)) = u64 (zsum calc_load_active (rqs s)) /\
  exists s', run_op HZ op s = Some s' /\
    u64 (calc_load_tasks s' + zsum id (calc_load_nohz s')) = u64 (zsum calc_load_active (rqs s')).
Proof.
  intros R Hc. pose proof (reachable_ledger HZ s R) as L.
  destruct (run_op_ledger HZ op s L Hc) as (s' & E & L').
  assert (U : forall s, ledger s -> u64 (calc_load_tasks s + zsum id (calc_load_nohz s)) =
                                    u64 (zsum calc_load_active (rqs s))).
  { intros s0 [_ _ [k ->]]. apply Z.mod_add. lia. }
  split; [by apply U|]. exists s'. split; [done|by apply U].
Qed.

Lemma load_ledger_balanced_witness :
  exists s', run_op 250 (NohzStart 1) (load_init 250 1000 2) = Some s'.
Proof.
  destruct (load_ledger_balanced 250 (load_init 250 1000 2) (NohzStart 1)) as (_ & s' & E & _).
  - constructor.
  - vm_compute. intuition discriminate.
  - exists s'. exact E.
Defined.

(** ** The sampling window *)

Lemma time_before_dist a b d k :
  a - b = d + k * two64 -> - two63 <= d < two63 -> time_before a b = (d <? 0).
Proof. intros E Hd. unfold time_before. by rewrite s64_u64, (s64_unique _ d k). Qed.

Lemma land_1_mod x : Z.land x 1 = x mod 2.
Proof. apply (Z.land_ones x 1). lia. Qed.

Lemma next_idx x : Z.land (s32 (x + 1)) 1 = 1 - Z.land x 1.
Proof.
  rewrite !land_1_mod. destruct (s32_cong (x + 1)) as [k ->].
  Z.div_mod_to_equations. lia.
Qed.

(** The window after the catch-up, as a distance from the current time. *)
Lemma window_after HZ j w d k :
  1 <= HZ <= 10000 -> j - w = d + k * two64 -> 10 - LOAD_FREQ HZ <= d < 2 ^ 62 ->
  exists e k', 10 - LOAD_FREQ HZ <= e < 10 /\
    j - (if negb (time_before j (w +u64 10))
         then u64 (w + (1 + cdiv (s64 (j -u64 w -u64 10)) (LOAD_FREQ HZ)) * LOAD_FREQ HZ)
         else w) = e + k' * two64.
Proof.
  intros Hh E Hd. unfold LOAD_FREQ in *.
  destruct (u64_cong (w + 10)) as [k1 E1].
  rewrite (time_before_dist j (w +u64 10) (d - 10) (k - k1)) by lia.
  destruct (Z.ltb_spec (d - 10) 0); simpl.
  - exists d, k. lia.
  - assert (Es : s64 (j -u64 w -u64 10) = d - 10).
    { destruct (u64_cong (j - w)) as [k2 E2]. destruct (u64_cong ((j -u64 w) - 10)) as [k3 E3].
      apply (s64_unique _ _ (k + k2 + k3)); lia. }
    rewrite Es. unfold cdiv. rewrite Z.quot_div_nonneg by lia.
    set (n := (d - 10) / (5 * HZ + 1)). destruct (u64_cong (w + (1 + n) * (5 * HZ + 1))) as [k4 ->].
    pose proof (Z.div_mod (d - 10) (5 * HZ + 1) ltac:(lia)) as D. fold n in D.
    pose proof (Z.mod_pos_bound (d - 10) (5 * HZ + 1) ltac:(lia)).
    exists (d - (1 + n) * (5 * HZ + 1)), (k - k4). lia.
Qed.

(** The global update folds the NO_HZ deltas of the closed window and no
    others, and always catches up.  When it runs [d >= 10] ticks after the sample
    time, however late, CPUs that stop ticking are already writing to the other
    counter; the update moves exactly the counter of the old window into the
    global count, leaves the other one alone, flips the roles, and sets the next
    sample time so that the window of the next update has not yet passed. *)
Theorem global_load_folds_window HZ s d k :
  1 <= HZ <= 10000 -> load_reachable HZ s ->
  jiffies s - calc_load_update s = d + k * two64 -> 10 <= d < 2 ^ 62 ->
  let r := calc_load_read_idx s in
  calc_load_write_idx s = 1 - r /\
  exists delta s', calc_global_load HZ s = Some s' /\
    aref (calc_load_nohz s) r = Some delta /\ aref (calc_load_nohz s') r = Some 0 /\
    aref (calc_load_nohz s') (1 - r) = aref (calc_load_nohz s) (1 - r) /\
    u64 (calc_load_tasks s') = u64 (calc_load_tasks s + delta) /\
    calc_load_read_idx s' = 1 - r /\
    10 - LOAD_FREQ HZ <= s64 (jiffies s' - calc_load_update s') < 10.
Proof.
  intros Hh R E Hd r. destruct (reachable_ledger HZ s R) as [La Ln _].
  split.
  { unfold calc_load_write_idx. rewrite (time_before_dist _ _ d k) by lia.
    destruct (Z.ltb_spec d 0); [lia|]. apply next_idx. }
  destruct (u64_cong (calc_load_update s + 10)) as [k1 E1].
  destruct (global_load_effect HZ s La Ln) as
    (delta & s' & Hs & A1 & A2 & A3 & (k2 & A4) & A5 & A6 & A7 & A8 & A9 & A10 & A11).
  { rewrite (time_before_dist _ _ (d - 10) (k - k1)) by lia. apply Z.ltb_ge. lia. }
  assert (W : 10 - LOAD_FREQ HZ <= s64 (jiffies s' - calc_load_update s') < 10).
  { rewrite A7, A11. destruct (u64_cong (calc_load_update s + LOAD_FREQ HZ)) as [k3 E3].
    destruct (window_after HZ (jiffies s) (calc_load_update s +u64 LOAD_FREQ HZ)
      (d - LOAD_FREQ HZ) (k - k3)) as (e & k' & He & Ew); try (unfold LOAD_FREQ in *; lia).
    by rewrite (s64_unique _ e k' Ew) by (unfold LOAD_FREQ in *; lia). }
  exists delta, s'. split_and!; try done.
  - rewrite A4. apply Z.mod_add. lia.
  - unfold calc_load_read_idx. rewrite A5. apply next_idx.
  - apply W.
  - apply W.
Qed.

Lemma global_load_folds_window_witness :
  calc_load_write_idx (set_jiffies (load_init 250 1000 2) 50000) = 1.
Proof.
  destruct (global_load_folds_window 250 (set_jiffies (load_init 250 1000 2) 50000) 47749 0)
    as [A _].
  - lia.
  - eapply load_next; [apply (load_start 250 1000 2)|constructor].
  - vm_compute. reflexivity.
  - lia.
  - exact A.
Defined.

End Loadavg.
