(* ===== verification/Completion.v ===== *)
(** Completions and the simple wait queue below them: [kernel/sched/completion.c]
    and [kernel/sched/swait.c].

    A completion counts events; a waiter consumes one or sleeps on a FIFO queue.
    All state changes happen under the wait-queue lock, so the system is a
    transition system whose steps are the locked sections: a waiter's call is
    split where [do_wait_for_common] drops the lock to sleep.  The theorems show
    that events are neither lost nor consumed twice, that no wake-up is lost, and
    that the wake-up order is that of the queue. *)

From Stdlib Require Import ZArith Lia List.
From stdpp Require Import base list numbers option gmap.
From S2P Require Import Prelude.

Module Completion.

Definition TASK_RUNNING : Z := 0x00000000.
Definition TASK_INTERRUPTIBLE : Z := 0x00000001.
Definition TASK_UNINTERRUPTIBLE : Z := 0x00000002.
Definition TASK_WAKEKILL : Z := 0x00000100.
Definition TASK_KILLABLE : Z := Z.lor TASK_WAKEKILL TASK_UNINTERRUPTIBLE.
Definition TASK_NORMAL : Z := Z.lor TASK_INTERRUPTIBLE TASK_UNINTERRUPTIBLE.
Definition ERESTARTSYS : Z := 512.
Definition UINT_MAX : Z := 4294967295.
Definition MAX_SCHEDULE_TIMEOUT : Z := 9223372036854775807.

(** The system: [x->done], the tasks on [x->wait.task_list] in order, the
    [__state] of each task and the tasks inside [action] of
    [do_wait_for_common], with the state they wait in. *)
Record sys := mk_sys {
  done : Z;
  task_list : list Z;
  tstate : gmap Z Z;
  sleeping : gmap Z Z
}.

Definition set_done (s : sys) (d : Z) : sys := mk_sys d (task_list s) (tstate s) (sleeping s).
Definition set_list (s : sys) (l : list Z) : sys := mk_sys (done s) l (tstate s) (sleeping s).
Definition set_tstate (s : sys) (t v : Z) : sys :=
  mk_sys (done s) (task_list s) (<[t := v]> (tstate s)) (sleeping s).
Definition set_sleeping (s : sys) (m : gmap Z Z) : sys :=
  mk_sys (done s) (task_list s) (tstate s) m.

Definition task_state (s : sys) (t : Z) : Z := default TASK_RUNNING (tstate s !! t).

(** ** swait.c *)

(** The effect of [try_to_wake_up(p, TASK_NORMAL, ...)] on the state of the task. *)
Definition try_to_wake_up (s : sys) (t state : Z) : sys :=
  if z2b (Z.land (task_state s t) state) then set_tstate s t TASK_RUNNING else s.

Definition list_del (t : Z) (l : list Z) : list Z := List.filter (fun u => negb (u =? t)) l.

Definition on_list (t : Z) (l : list Z) : bool := existsb (fun u => u =? t) l.

Definition swake_up_locked (s : sys) : sys :=
  match task_list s with
  | [] => s
  | curr :: rest => set_list (try_to_wake_up s curr TASK_NORMAL) rest
  end.

(** Every round removes one waiter: the length of the list is enough fuel. *)
Fixpoint swake_up_all_loop (fuel : nat) (s : sys) : sys :=
  match fuel with
  | O => s
  | S fuel => match task_list s with
              | [] => s
              | _ => swake_up_all_loop fuel (swake_up_locked s)
              end
  end.

Definition swake_up_all_locked (s : sys) : sys :=
  swake_up_all_loop (length (task_list s)) s.

Definition __prepare_to_swait (s : sys) (current : Z) : sys :=
  if on_list current (task_list s) then s
  else set_list s (task_list s ++ [current]).

Definition __finish_swait (s : sys) (current : Z) : sys :=
  let s := set_tstate s current TASK_RUNNING in
  if on_list current (task_list s) then set_list s (list_del current (task_list s)) else s.

(** ** completion.c *)

Definition complete_with_flags (s : sys) : sys :=
  let s := if done s =? UINT_MAX then s else set_done s (done s + 1) in
  swake_up_locked s.

Definition complete (s : sys) : sys := complete_with_flags s.

Definition complete_all (s : sys) : sys := swake_up_all_locked (set_done s UINT_MAX).

(** The end of [do_wait_for_common]: consume an event. *)
Definition wait_take (timeout : Z) (s : sys) : Z * sys :=
  (if timeout =? 0 then 1 else timeout,
   if done s =? UINT_MAX then s else set_done s (done s - 1)).

Definition wait_finish (current timeout : Z) (s : sys) : Z * sys :=
  let s := __finish_swait s current in
  if done s =? 0 then (timeout, s) else wait_take timeout s.

(** The loop body up to the call of [action]; no result means that the task has
    dropped the lock and is inside [action].  [signal] is
    [signal_pending_state(state, current)]. *)
Definition wait_iter (current state : Z) (signal : bool) (s : sys) : option Z * sys :=
  if signal then
    let '(r, s) := wait_finish current (- ERESTARTSYS) s in (Some r, s)
  else
    let s := __prepare_to_swait s current in
    let s := set_tstate s current state in
    (None, set_sleeping s (<[current := state]> (sleeping s))).

Definition wait_enter (current timeout state : Z) (signal : bool) (s : sys) : option Z * sys :=
  if done s =? 0 then wait_iter current state signal s
  else let '(r, s) := wait_take timeout s in (Some r, s).

(** [action] has returned [timeout]. *)
Definition wait_resume (current timeout state : Z) (signal : bool) (s : sys)
  : option Z * sys :=
  let s := set_sleeping s (delete current (sleeping s)) in
  if (done s =? 0) && negb (timeout =? 0) then wait_iter current state signal s
  else let '(r, s) := wait_finish current timeout s in (Some r, s).

(** The public variants differ in the state they pass and in the result. *)
Definition wait_for_completion (current : Z) : sys -> option Z * sys :=
  wait_enter current MAX_SCHEDULE_TIMEOUT TASK_UNINTERRUPTIBLE false.

Definition wait_for_completion_timeout (current timeout : Z) : sys -> option Z * sys :=
  wait_enter current timeout TASK_UNINTERRUPTIBLE false.

Definition wait_for_completion_interruptible_ret (t : Z) : Z :=
  if t =? - ERESTARTSYS then t else 0.

Definition try_wait_for_completion (s : sys) : bool * sys :=
  if done s =? 0 then (false, s)
  else if done s =? 0 then (false, s)
  else (true, if done s =? UINT_MAX then s else set_done s (done s - 1)).

Definition completion_done (s : sys) : bool := negb (done s =? 0).

(** ** The transition system *)

Definition fresh : sys := mk_sys 0 [] ∅ ∅.

(** What a step did to the events: produced one, consumed one, opened or
    reset the completion, or neither. *)
Inductive label := Produce | Consume | Reset | Other.

Definition took (r : option Z) : label :=
  match r with
  | Some v => if 0 <? v then Consume else Other
  | None => Other
  end.

(** Task identifiers are below [PID_MAX_LIMIT]. *)
Definition PID_MAX_LIMIT : Z := 4194304.

(** [reinit_completion] of [completion.h]. *)
Definition reinit_completion (s : sys) : sys := set_done s 0.

(** The locked sections, and wake-ups from elsewhere (signals, timers). *)
Inductive step : sys -> label -> sys -> Prop :=
| step_complete s : step s Produce (complete s)
| step_complete_all s : step s Reset (complete_all s)
| step_reinit s : step s Reset (reinit_completion s)
| step_enter t timeout state signal s :
    0 <= t < PID_MAX_LIMIT -> sleeping s !! t = None -> 0 <= timeout ->
    Z.land state TASK_NORMAL <> 0 ->
    step s (took (wait_enter t timeout state signal s).1) (wait_enter t timeout state signal s).2
| step_resume t timeout state signal s :
    sleeping s !! t = Some state -> task_state s t = TASK_RUNNING -> 0 <= timeout ->
    step s (took (wait_resume t timeout state signal s).1)
      (wait_resume t timeout state signal s).2
| step_try s :
    step s (if (try_wait_for_completion s).1 then Consume else Other)
      (try_wait_for_completion s).2
| step_wake t s : step s Other (set_tstate s t TASK_RUNNING).

Inductive run : list label -> sys -> Prop :=
| run_fresh : run [] fresh
| run_step ls s l s' : run ls s -> step s l s' -> run (l :: ls) s'.

(** ** The wait list *)

Lemma on_list_spec t l : on_list t l = true <-> t ∈ l.
Proof.
  unfold on_list. rewrite existsb_exists. split.
  - intros (u & Hu & E). apply Z.eqb_eq in E as ->. by apply list_elem_of_In.
  - intros H. exists t. split; [by apply list_elem_of_In|apply Z.eqb_refl].
Qed.

Lemma list_del_spec t u l : u ∈ list_del t l <-> u ∈ l /\ u <> t.
Proof.
  unfold list_del. rewrite !list_elem_of_In, filter_In, negb_true_iff, Z.eqb_neq. done.
Qed.

Lemma list_del_NoDup t l : NoDup l -> NoDup (list_del t l).
Proof. intros H. apply NoDup_ListNoDup, List.NoDup_filter. by apply NoDup_ListNoDup. Qed.

Lemma list_del_absent t l : t ∉ l -> list_del t l = l.
Proof.
  unfold list_del. induction l as [|v l IH]; [done|]. intros [H1 H2]%not_elem_of_cons.
  cbn [List.filter]. destruct (Z.eqb_spec v t); [congruence|]. simpl negb. cbv iota.
  f_equal. by apply IH.
Qed.

Lemma list_del_length t l : NoDup l -> Z.of_nat (length l) - 1 <= Z.of_nat (length (list_del t l)).
Proof.
  induction 1 as [|u l Hu ND IH]; [done|].
  unfold list_del. cbn [List.filter]. fold (list_del t l).
  destruct (Z.eqb_spec u t) as [->|]; simpl negb; cbv iota; cbn [length].
  - rewrite list_del_absent by done. lia.
  - lia.
Qed.

Lemma list_del_le t l : (length (list_del t l) <= length l)%nat.
Proof. apply List.filter_length_le. Qed.

Lemma finish_list s t :
  task_list (__finish_swait s t) = list_del t (task_list s) \/
  task_list (__finish_swait s t) = task_list s /\ t ∉ task_list s.
Proof.
  unfold __finish_swait. simpl. destruct (on_list t (task_list s)) eqn:E; [by left|right].
  split; [done|]. intros H%on_list_spec. congruence.
Qed.

(** ** The invariant *)

(** The tasks that were taken off the list and have not run yet. *)
Definition woken (s : sys) (W : list Z) : Prop :=
  NoDup W /\ Forall (fun t => is_Some (sleeping s !! t) /\ t ∉ task_list s) W.

(** The list holds sleeping tasks, once each; a sleeping task that is not on the
    list is runnable. *)
Record linv (s : sys) : Prop := mk_linv {
  inv_nodup : NoDup (task_list s);
  inv_list : forall t, t ∈ task_list s -> is_Some (sleeping s !! t);
  inv_state : forall t st, sleeping s !! t = Some st ->
    0 <= t < PID_MAX_LIMIT /\ Z.land st TASK_NORMAL <> 0 /\
    (task_state s t = TASK_RUNNING \/ t ∈ task_list s /\ task_state s t = st)
}.

(** While anyone is queued, there are at least as many woken waiters as
    events. *)
Record inv (s : sys) : Prop := mk_inv {
  inv_linv : linv s;
  inv_done : 0 <= done s <= UINT_MAX;
  inv_woken : task_list s <> [] -> exists W, woken s W /\ done s <= Z.of_nat (length W)
}.

Lemma woken_bound s W : inv s -> woken s W -> Z.of_nat (length W) <= PID_MAX_LIMIT.
Proof.
  intros I [ND F].
  assert (L : (length W <= length (seqZ 0 PID_MAX_LIMIT))%nat).
  { apply List.NoDup_incl_length; [by apply NoDup_ListNoDup|]. intros t Ht%list_elem_of_In.
    rewrite Forall_forall in F. destruct (F t Ht) as [[st E] _].
    destruct (inv_state s (inv_linv s I) t st E) as [R _]. apply list_elem_of_In, elem_of_seqZ. lia. }
  rewrite length_seqZ in L. unfold PID_MAX_LIMIT in *. lia.
Qed.

(** While anyone is queued the counter is not saturated. *)
Lemma done_unsaturated s : inv s -> task_list s <> [] -> done s < UINT_MAX.
Proof.
  intros I H. destruct (inv_woken s I H) as (W & HW & Hd).
  pose proof (woken_bound s W I HW). unfold PID_MAX_LIMIT, UINT_MAX in *. lia.
Qed.

Lemma task_state_set s t u v : task_state (set_tstate s t v) u = if u =? t then v else task_state s u.
Proof.
  unfold task_state. simpl. destruct (Z.eqb_spec u t) as [->|].
  - by rewrite lookup_insert_eq.
  - by rewrite lookup_insert_ne.
Qed.

(** ** Wake-ups *)

(** Taking the head off the list makes it runnable and changes nothing else. *)
Lemma wake_head s c rest :
  linv s -> task_list s = c :: rest ->
  let s' := swake_up_locked s in
  task_list s' = rest /\ done s' = done s /\ sleeping s' = sleeping s /\
  (forall u, task_state s' u = if u =? c then TASK_RUNNING else task_state s u).
Proof.
  intros L E s'. unfold s', swake_up_locked. rewrite E. split; [done|].
  unfold try_to_wake_up. destruct (inv_list s L c) as [st Hst]; [rewrite E; by left|].
  destruct (inv_state s L c st Hst) as (_ & Hn & Hs).
  unfold z2b. destruct (Z.eqb_spec (Z.land (task_state s c) TASK_NORMAL) 0) as [E0|]; simpl.
  - split_and!; try done. intros u. destruct (Z.eqb_spec u c) as [->|]; [|done].
    destruct Hs as [Hs|[_ Hs]]; [done|]. rewrite Hs in E0. done.
  - split_and!; try done. intros u. apply (task_state_set s).
Qed.

Lemma swake_linv s : linv s -> linv (swake_up_locked s).
Proof.
  intros L. destruct (task_list s) as [|c rest] eqn:E.
  { unfold swake_up_locked. by rewrite E. }
  destruct (wake_head s c rest L E) as (H1 & H2 & H3 & H4). destruct L as [LN LL LS].
  rewrite E in LN, LL. apply NoDup_cons in LN as [Hc LN].
  split.
  - by rewrite H1.
  - intros t Ht. rewrite H1 in Ht. rewrite H3. apply LL. by right.
  - intros t st Ht. rewrite H3 in Ht. destruct (LS t st Ht) as (A & B & C).
    split_and!; try done; try lia. rewrite H4, H1.
    destruct (Z.eqb_spec t c) as [->|Hne]; [by left|].
    destruct C as [C|[C D]]; [by left|]. right. split; [|done].
    rewrite E in C. by apply elem_of_cons in C as [?|C].
Qed.

Lemma swake_all_linv fuel : forall s,
  linv s -> (length (task_list s) <= fuel)%nat ->
  let s' := swake_up_all_loop fuel s in
  linv s' /\ task_list s' = [] /\ done s' = done s /\ sleeping s' = sleeping s.
Proof.
  induction fuel as [|fuel IH]; intros s L Hf; simpl.
  - destruct (task_list s) eqn:E; [done|simpl in Hf; lia].
  - destruct (task_list s) as [|c rest] eqn:E; [done|].
    destruct (wake_head s c rest L E) as (H1 & H2 & H3 & H4).
    destruct (IH (swake_up_locked s)) as (A & B & C & D).
    + by apply swake_linv.
    + rewrite H1. simpl in Hf. lia.
    + split_and!; try done; congruence.
Qed.

Lemma set_done_linv s d : linv s -> linv (set_done s d).
Proof. intros [A B C]. by split. Qed.

Lemma complete_inv s : inv s -> inv (complete s).
Proof.
  intros I. pose proof I as [L D W]. unfold complete, complete_with_flags.
  set (s1 := if done s =? UINT_MAX then s else set_done s (done s + 1)).
  assert (L1 : linv s1) by (unfold s1; destruct (_ =? _); [done|by apply set_done_linv]).
  assert (D1 : 0 <= done s1 <= UINT_MAX)
    by (unfold s1; destruct (Z.eqb_spec (done s) UINT_MAX); simpl; lia).
  assert (E1 : task_list s1 = task_list s) by (unfold s1; by destruct (_ =? _)).
  assert (S1 : sleeping s1 = sleeping s) by (unfold s1; by destruct (_ =? _)).
  destruct (task_list s) as [|c rest] eqn:E.
  - unfold swake_up_locked. rewrite E1. split; [done|done|]. rewrite E1. done.
  - destruct (wake_head s1 c rest L1 E1) as (H1 & H2 & H3 & H4).
    split; [by apply swake_linv|by rewrite H2|]. intros _.
    destruct W as (W & [HW1 HW2] & HW3); [done|]. exists (c :: W).
    pose proof (done_unsaturated s I) as U. rewrite E in U. specialize (U ltac:(done)).
    assert (Hin : c ∈ task_list s) by (rewrite E; by left).
    pose proof (inv_nodup s L) as LN. rewrite E in LN. apply NoDup_cons in LN as [Hc LN].
    rewrite Forall_forall in HW2. split; [split|].
    + constructor; [|done]. intros Hcw. by destruct (HW2 c Hcw) as [_ ?].
    + apply Forall_forall. intros t Ht. rewrite H1, H3, S1.
      apply elem_of_cons in Ht as [->|Ht]; [split; [by apply (inv_list s L)|done]|].
      destruct (HW2 t Ht) as [T1 T2]. split; [done|]. intros T. apply T2. rewrite E. by right.
    + rewrite H2. unfold s1. destruct (Z.eqb_spec (done s) UINT_MAX); [lia|]. simpl. lia.
Qed.

Lemma complete_all_inv s : inv s -> inv (complete_all s).
Proof.
  intros [L D W]. unfold complete_all, swake_up_all_locked.
  destruct (swake_all_linv (length (task_list (set_done s UINT_MAX))) (set_done s UINT_MAX))
    as (A & B & C & E); [by apply set_done_linv|lia|].
  split; [done|rewrite C; simpl; unfold UINT_MAX; lia|]. by rewrite B.
Qed.

(** ** Waiters *)

(** A sleeper that has returned: its entry is gone from the table and from the
    list. *)
Definition left_sleep (s : sys) (t : Z) : sys := set_sleeping s (delete t (sleeping s)).

Lemma leave_facts s t :
  let s' := __finish_swait (left_sleep s t) t in
  (forall u, u ∈ task_list s' <-> u ∈ task_list s /\ u <> t) /\
  sleeping s' = delete t (sleeping s) /\ done s' = done s /\
  (forall u, task_state s' u = if u =? t then TASK_RUNNING else task_state s u).
Proof.
  split_and!.
  - intros u. destruct (finish_list (left_sleep s t) t) as [->|[-> H]]; [apply list_del_spec|].
    simpl in *. split; [|tauto]. intros Hu. split; [done|congruence].
  - unfold __finish_swait. simpl. by destruct (on_list _ _).
  - unfold __finish_swait. simpl. by destruct (on_list _ _).
  - intros u. unfold __finish_swait. rewrite <- (task_state_set s). by destruct (on_list _ _).
Qed.

Lemma leave_linv s t : linv s -> linv (__finish_swait (left_sleep s t) t).
Proof.
  intros [LN LL LS]. destruct (leave_facts s t) as (In & Sl & _ & St). split.
  - destruct (finish_list (left_sleep s t) t) as [->|[-> _]]; [by apply list_del_NoDup|done].
  - intros u [Hu Hne]%In. rewrite Sl, lookup_delete_ne by done. by apply LL.
  - intros u st Hu. rewrite Sl in Hu. apply lookup_delete_Some in Hu as [Hne Hu].
    destruct (LS u st Hu) as (A & B & C). rewrite St, In.
    destruct (Z.eqb_spec u t); [congruence|]. split_and!; try done; try lia. naive_solver.
Qed.

(** The other woken waiters are still woken. *)
Lemma leave_woken s t W : woken s W -> woken (__finish_swait (left_sleep s t) t) (list_del t W).
Proof.
  intros [ND F]. destruct (leave_facts s t) as (In & Sl & _). split; [by apply list_del_NoDup|].
  rewrite Forall_forall in *. intros u [Hu Hne]%list_del_spec. destruct (F u Hu) as [T1 T2].
  rewrite Sl, lookup_delete_ne by done. split; [done|]. intros H%In. tauto.
Qed.

(** What a step does to the count. *)
Definition effect (s : sys) (l : label) (s' : sys) : Prop :=
  match l with
  | Produce => done s' = Z.min UINT_MAX (done s + 1)
  | Consume => 0 < done s /\ done s' = if done s =? UINT_MAX then UINT_MAX else done s - 1
  | Other => done s' = done s
  | Reset => True
  end.

Lemma take_inv s :
  linv s -> 0 < done s <= UINT_MAX ->
  (task_list s <> [] -> exists W, woken s W /\ done s - 1 <= Z.of_nat (length W)) ->
  (task_list s <> [] -> done s < UINT_MAX) ->
  let s' := if done s =? UINT_MAX then s else set_done s (done s - 1) in
  inv s' /\ effect s Consume s'.
Proof.
  intros L D W U s'. unfold s'. destruct (Z.eqb_spec (done s) UINT_MAX) as [E|E].
  - split; [|simpl; rewrite E, Z.eqb_refl; unfold UINT_MAX; lia]. split; [done|lia|].
    intros H. specialize (U H). lia.
  - split; [|simpl; destruct (Z.eqb_spec (done s) UINT_MAX); lia].
    split; [by apply set_done_linv|simpl; lia|]. done.
Qed.

Lemma finish_inv s t timeout :
  inv s -> (done s <> 0 /\ 0 <= timeout \/ done s = 0 /\ timeout <= 0) ->
  let r := wait_finish t timeout (left_sleep s t) in
  inv r.2 /\ effect s (took (Some r.1)) r.2.
Proof.
  intros I Ht r. pose proof I as [L D W]. unfold r, wait_finish.
  pose proof (leave_linv s t L) as L2. destruct (leave_facts s t) as (In & Sl & Dn & St).
  set (s2 := __finish_swait (left_sleep s t) t) in *.
  assert (NE : task_list s2 <> [] -> task_list s <> []).
  { intros H E. apply H. destruct (task_list s2) as [|u l] eqn:E2; [done|]. exfalso.
    assert (Hu : u ∈ u :: l) by (by left). apply In in Hu as [Hu _]. rewrite E in Hu.
    by apply not_elem_of_nil in Hu. }
  assert (W2 : task_list s2 <> [] -> exists W, woken s2 W /\ done s2 - 1 <= Z.of_nat (length W)).
  { intros H. destruct (W (NE H)) as (W1 & H1 & H2). exists (list_del t W1).
    split; [by apply leave_woken|].
    pose proof (list_del_length t W1 (proj1 H1)). lia. }
  destruct (Z.eqb_spec (done s2) 0) as [E0|E0]; cbn [fst snd].
  - assert (Ht' : 0 <? timeout = false) by (apply Z.ltb_ge; lia).
    unfold took. rewrite Ht'. split; [|done].
    split; [done|lia|]. intros H. destruct (W2 H) as (W1 & H1 & H2). exists W1. split; [done|lia].
  - unfold wait_take. cbn [fst snd].
    assert (Hr : took (Some (if timeout =? 0 then 1 else timeout)) = Consume).
    { unfold took. destruct (Z.eqb_spec timeout 0); [done|].
      by destruct (Z.ltb_spec 0 timeout); [|lia]. }
    rewrite Hr. destruct (take_inv s2) as [T1 T2]; try done; try lia.
    + intros H. rewrite Dn. apply done_unsaturated; [done|by apply NE].
    + split; [done|]. unfold effect in *. by rewrite <- Dn.
Qed.

Lemma prepare_inv s t state :
  inv s -> done s = 0 -> 0 <= t < PID_MAX_LIMIT -> Z.land state TASK_NORMAL <> 0 ->
  let s1 := set_tstate (__prepare_to_swait (left_sleep s t) t) t state in
  inv (set_sleeping s1 (<[t := state]> (sleeping s1))).
Proof.
  intros [[LN LL LS] D W] D0 Ht Hst s1.
  assert (In : forall u, u ∈ task_list s1 <-> u ∈ task_list s \/ u = t).
  { intros u. unfold s1, __prepare_to_swait. simpl.
    destruct (on_list t (task_list s)) eqn:E; simpl.
    - apply on_list_spec in E. split; [auto|]. by intros [?| ->].
    - rewrite elem_of_app, list_elem_of_singleton. done. }
  assert (Sl : sleeping s1 = delete t (sleeping s))
    by (unfold s1, __prepare_to_swait; simpl; by destruct (on_list _ _)).
  assert (St : forall u, task_state s1 u = if u =? t then state else task_state s u).
  { intros u. unfold s1. rewrite task_state_set. destruct (u =? t); [done|].
    unfold __prepare_to_swait. by destruct (on_list _ _). }
  assert (Dn : done s1 = done s)
    by (unfold s1, __prepare_to_swait; simpl; by destruct (on_list _ _)).
  assert (ND : NoDup (task_list s1)).
  { unfold s1, __prepare_to_swait. simpl.
    destruct (on_list t (task_list s)) eqn:E; simpl; [done|].
    apply NoDup_app. split_and!; [done| |apply NoDup_singleton].
    intros u Hu ->%list_elem_of_singleton. apply on_list_spec in Hu. congruence. }
  clearbody s1. split; [split| |]; simpl; rewrite ?Sl.
  - done.
  - intros u [Hu| ->]%In; [|rewrite lookup_insert_eq; eauto].
    destruct (decide (u = t)) as [->|]; [rewrite lookup_insert_eq; eauto|].
    rewrite lookup_insert_ne, lookup_delete_ne by done. by apply LL.
  - intros u st Hu. change (task_state _ u) with (task_state s1 u). rewrite In, St.
    destruct (Z.eqb_spec u t) as [->|Hne].
    + rewrite lookup_insert_eq in Hu. simplify_eq. auto 6.
    + rewrite lookup_insert_ne, lookup_delete_ne in Hu by done. naive_solver.
  - lia.
  - intros _. exists []. split; [split; by constructor|]. simpl. lia.
Qed.

Lemma iter_inv s t state signal :
  inv s -> done s = 0 -> 0 <= t < PID_MAX_LIMIT -> Z.land state TASK_NORMAL <> 0 ->
  let r := wait_iter t state signal (left_sleep s t) in
  inv r.2 /\ effect s (took r.1) r.2.
Proof.
  intros I D0 Ht Hst. unfold wait_iter. destruct signal.
  - pose proof (finish_inv s t (- ERESTARTSYS) I ltac:(unfold ERESTARTSYS; lia)) as F.
    by destruct (wait_finish _ _ _).
  - cbn [fst snd]. split; [by apply prepare_inv|]. simpl. unfold __prepare_to_swait. simpl.
    by destruct (on_list _ _).
Qed.

Lemma left_sleep_id s t : sleeping s !! t = None -> left_sleep s t = s.
Proof. intros H. destruct s. unfold left_sleep, set_sleeping. simpl in *. by rewrite delete_id. Qed.

Lemma inv_take s :
  inv s -> done s <> 0 ->
  let s' := if done s =? UINT_MAX then s else set_done s (done s - 1) in
  inv s' /\ effect s Consume s'.
Proof.
  intros I H. pose proof I as [L D W]. apply take_inv; try done; try lia.
  - intros Hl. destruct (W Hl) as (W1 & H1 & H2). exists W1. split; [done|lia].
  - by apply done_unsaturated.
Qed.

Lemma enter_inv s t timeout state signal :
  inv s -> 0 <= t < PID_MAX_LIMIT -> sleeping s !! t = None -> 0 <= timeout ->
  Z.land state TASK_NORMAL <> 0 ->
  let r := wait_enter t timeout state signal s in
  inv r.2 /\ effect s (took r.1) r.2.
Proof.
  intros I Ht Hn H0 Hst. unfold wait_enter. destruct (Z.eqb_spec (done s) 0) as [E|E].
  - pose proof (iter_inv s t state signal I E Ht Hst) as F. by rewrite left_sleep_id in F.
  - unfold wait_take. cbn [fst snd]. replace (took _) with Consume; [by apply inv_take|].
    unfold took. destruct (Z.eqb_spec timeout 0); [done|].
    by destruct (Z.ltb_spec 0 timeout); [|lia].
Qed.

Lemma resume_inv s t timeout state signal :
  inv s -> sleeping s !! t = Some state -> 0 <= timeout ->
  let r := wait_resume t timeout state signal s in
  inv r.2 /\ effect s (took r.1) r.2.
Proof.
  intros I Hs H0. unfold wait_resume. fold (left_sleep s t).
  destruct (inv_state s (inv_linv s I) t state Hs) as (Ht & Hst & _).
  change (done (left_sleep s t)) with (done s).
  destruct (Z.eqb_spec (done s) 0) as [E|E], (Z.eqb_spec timeout 0) as [E2|E2]; simpl andb; cbv iota.
  2: by apply iter_inv.
  all: pose proof (finish_inv s t timeout I ltac:(lia)) as F; by destruct (wait_finish _ _ _).
Qed.

Lemma try_inv s :
  inv s ->
  let r := try_wait_for_completion s in
  inv r.2 /\ effect s (if r.1 then Consume else Other) r.2.
Proof.
  intros I. unfold try_wait_for_completion. destruct (Z.eqb_spec (done s) 0) as [E|E]; [done|].
  cbn [fst snd]. by apply inv_take.
Qed.

Lemma set_running_inv s t : inv s -> inv (set_tstate s t TASK_RUNNING).
Proof.
  intros [[LN LL LS] D W]. split; [split| |]; try done.
  intros u st Hu. rewrite task_state_set. destruct (LS u st Hu) as (A & B & C).
  split_and!; try done; try lia. destruct (u =? t); [by left|done].
Qed.

Lemma reinit_inv s : inv s -> inv (reinit_completion s).
Proof.
  intros [L D W]. split; [by apply set_done_linv|simpl; unfold UINT_MAX; lia|].
  intros H. destruct (W H) as (W1 & H1 & H2). exists W1. split; [done|simpl; lia].
Qed.

Lemma complete_effect s : inv s -> effect s Produce (complete s).
Proof.
  intros [L D W]. unfold effect, complete, complete_with_flags.
  set (s1 := if done s =? UINT_MAX then s else set_done s (done s + 1)).
  assert (E : done s1 = Z.min UINT_MAX (done s + 1)).
  { unfold s1. destruct (Z.eqb_spec (done s) UINT_MAX); simpl; lia. }
  rewrite <- E. unfold swake_up_locked. destruct (task_list s1); [done|].
  unfold try_to_wake_up. simpl. by destruct (z2b _).
Qed.

Lemma step_inv s l s' : inv s -> step s l s' -> inv s' /\ effect s l s'.
Proof.
  intros I S. revert I. destruct S; intros I.
  - split; [by apply complete_inv|by apply complete_effect].
  - split; [by apply complete_all_inv|done].
  - split; [by apply reinit_inv|done].
  - by apply enter_inv.
  - by apply resume_inv.
  - by apply try_inv.
  - split; [by apply set_running_inv|done].
Qed.

Lemma run_inv ls s : run ls s -> inv s.
Proof.
  induction 1 as [|ls s l s' _ IH S].
  - split; [split; simpl|simpl; unfold UINT_MAX; lia|done]; [by constructor|..].
    + intros t H. by apply not_elem_of_nil in H.
    + intros t st H. by rewrite lookup_empty in H.
  - by apply (step_inv s l s').
Qed.

(** ** Theorems *)

Definition count (l : label) (ls : list label) : Z :=
  zsum (fun k => match k, l with
                 | Produce, Produce | Consume, Consume | Reset, Reset | Other, Other => 1
                 | _, _ => 0
                 end) ls.

Lemma count_cons l k ls :
  count l (k :: ls) = count l [k] + count l ls.
Proof. unfold count. simpl. lia. Qed.

Lemma count_nonneg l ls : 0 <= count l ls.
Proof. apply zsum_nonneg. intros k _. by destruct k, l. Qed.

(** Events are neither lost nor consumed twice.  In every run of any number of
    tasks that complete, wait (with any timeout, interruptible or not), time out,
    are interrupted, poll, and wake up spuriously, as long as the counter is not
    opened, reset or saturated, the events produced are the events consumed plus
    [done].  A wait or poll that reports success has consumed exactly one event
    and one that reports a timeout or a signal none. *)
Theorem completion_events_conserved ls s :
  run ls s -> count Reset ls = 0 -> count Produce ls < UINT_MAX ->
  count Produce ls = count Consume ls + done s.
Proof.
  induction 1 as [|ls s l s' R IH S]; [done|].
  rewrite !(count_cons _ l ls). pose proof (count_nonneg Reset ls). pose proof (count_nonneg Consume ls).
  pose proof (step_inv s l s' (run_inv ls s R) S) as [_ E].
  intros HR HP. assert (0 <= count Produce [l] /\ 0 <= count Reset [l]) as [P0 R0]
    by (split; apply count_nonneg).
  specialize (IH ltac:(lia) ltac:(lia)).
  destruct l; cbv [count zsum foldr] in *; simpl in E.
  - lia.
  - destruct E as [E1 E2]. destruct (Z.eqb_spec (done s) UINT_MAX); lia.
  - lia.
  - lia.
Qed.

(** Task 1 waits, task 2 completes, task 1 is woken and consumes the event. *)
Definition blocked_1 : sys := (wait_for_completion 1 fresh).2.

Lemma blocked_1_run : run [Other] blocked_1.
Proof.
  eapply (run_step [] fresh Other); [constructor|].
  apply (step_enter 1 MAX_SCHEDULE_TIMEOUT TASK_UNINTERRUPTIBLE false fresh);
    by vm_compute.
Qed.

Lemma completion_events_conserved_witness :
  1 = count Consume [Produce; Other] + done (complete blocked_1).
Proof.
  change 1 with (count Produce [Produce; Other]) at 1.
  apply (completion_events_conserved [Produce; Other] (complete blocked_1)).
  - eapply run_step; [apply blocked_1_run|constructor].
  - reflexivity.
  - vm_compute. reflexivity.
Defined.

(** C22: No wake-up is lost.  In every reachable state in which some waiter is
    queued and asleep, every unconsumed event has a waiter of its own that was
    taken off the queue, is runnable and has not yet returned.  So events never
    wait for sleepers: in particular a non-zero [done] with a queued waiter means
    that some woken waiter will run.  A further [complete] takes the longest
    waiting task off the queue, keeps the order of the others and leaves that task
    runnable. *)
Theorem completion_no_lost_wakeup ls s c rest :
  run ls s -> task_list s = c :: rest ->
  (exists W, NoDup W /\ done s <= Z.of_nat (length W) /\
    Forall (fun t => is_Some (sleeping s !! t) /\ t ∉ task_list s /\
                     task_state s t = TASK_RUNNING) W) /\
  task_list (complete s) = rest /\ task_state (complete s) c = TASK_RUNNING /\
  done (complete s) = done s + 1.
Proof.
  intros R E. pose proof (run_inv ls s R) as I. pose proof I as [L D W].
  pose proof (done_unsaturated s I ltac:(by rewrite E)) as U. split.
  - destruct W as (W & [W1 W2] & W3); [by rewrite E|]. exists W. split_and!; try done.
    eapply Forall_impl; [exact W2|]. intros t [[st Ht] Hl]. split_and!; [by eexists|done|].
    destruct (inv_state s L t st Ht) as (_ & _ & [?|[? _]]); done.
  - unfold complete, complete_with_flags.
    destruct (Z.eqb_spec (done s) UINT_MAX); [lia|].
    destruct (wake_head (set_done s (done s + 1)) c rest) as (H1 & H2 & H3 & H4);
      [by apply set_done_linv|done|].
    split_and!; [done|by rewrite H4, Z.eqb_refl|by rewrite H2].
Qed.

Lemma completion_no_lost_wakeup_witness : task_state (complete blocked_1) 1 = TASK_RUNNING.
Proof.
  apply (completion_no_lost_wakeup [Other] blocked_1 1 []).
  - apply blocked_1_run.
  - reflexivity.
Defined.

(** [complete_all] releases every waiter for good: it empties the queue, all
    tasks that slept on it are runnable, and from then on every poll succeeds and
    every wait returns at once, without using up the completion. *)
Theorem complete_all_releases ls s t timeout state signal :
  run ls s -> 0 < timeout ->
  let s' := complete_all s in
  task_list s' = [] /\
  (forall u, is_Some (sleeping s !! u) -> task_state s' u = TASK_RUNNING) /\
  try_wait_for_completion s' = (true, s') /\
  wait_enter t timeout state signal s' = (Some timeout, s').
Proof.
  intros R Ht s'. pose proof (run_inv ls s R) as I.
  pose proof (complete_all_inv s I) as [L' _ _]. pose proof I as [L _ _].
  destruct (swake_all_linv (length (task_list (set_done s UINT_MAX))) (set_done s UINT_MAX))
    as (_ & B & C & E); [by apply set_done_linv|lia|].
  assert (D : done s' = UINT_MAX) by exact C.
  split_and!.
  - exact B.
  - intros u [st Hu]. change (sleeping s' = sleeping s) in E. rewrite <- E in Hu.
    destruct (inv_state s' L' u st Hu) as (_ & _ & [?|[H _]]); [done|].
    change (task_list s' = []) in B. rewrite B in H. by apply not_elem_of_nil in H.
  - unfold try_wait_for_completion. by rewrite D.
  - unfold wait_enter, wait_take. rewrite D. simpl.
    destruct (Z.eqb_spec timeout 0); [lia|done].
Qed.

Lemma complete_all_releases_witness : task_list (complete_all blocked_1) = [].
Proof.
  apply (complete_all_releases [Other] blocked_1 1 5 TASK_KILLABLE false).
  - apply blocked_1_run.
  - lia.
Defined.

End Completion.
