(* ===== verification/Waitq.v ===== *)
(** Wait queues: [kernel/sched/wait.c], with the wake functions of [wait_bit.c].

    A waker walks the queue under its lock and calls the wake function of each entry.
    After 64 entries it leaves a bookmark in the queue and drops the lock, so entries come
    and go, and other wakers walk, between the sections of one walk.  The file has the
    operations as functions of the queue ([sys]), the interleavings of walks with all
    other operations ([event]), of walks with tasks in [wait_event] ([wevent]), and the
    accesses of [wait_woken] against those of [woken_wake_function] ([woken_event]).  The
    theorems show that a walk calls every entry that stays in the queue exactly once and
    wakes the number of exclusive entries asked for, and that [wait_event] and
    [wait_woken] lose no wakeup. *)

From Stdlib Require Import ZArith Lia List.
From stdpp Require Import base list numbers option.
From S2P Require Import Prelude.

Module Waitq.

Definition WQ_FLAG_EXCLUSIVE : Z := 0x01.
Definition WQ_FLAG_WOKEN : Z := 0x02.
Definition WQ_FLAG_PRIORITY : Z := 0x20.
Definition TASK_RUNNING : Z := 0.
Definition ERESTARTSYS : Z := 512.
Definition WAITQUEUE_WALK_BREAK_CNT : Z := 64.

(** ** State *)

(** [entry->func], with the key of a [wait_bit_queue_entry]: a word and a bit, or a
    variable. *)
Inductive wake_func :=
| default_wake
| autoremove_wake
| woken_wake
| bit_wake (word bit : Z)
| var_wake (var : Z).

(** [struct wait_queue_entry]; the link is the place in the queue. *)
Record wait_queue_entry := mk_entry {
  flags : Z;
  private : Z;
  func : wake_func
}.

(** What wake functions read and write: the entries, the states of the tasks, and the
    bits that are waited for. *)
Record world := mk_world {
  entries : Z -> wait_queue_entry;
  tstate : Z -> Z;
  bits : Z -> Z -> bool
}.

(** A link of the queue: an entry, or the bookmark of a waker. *)
Inductive node := Ent (i : Z) | Mark (k : Z).

#[export] Instance node_eq_dec : EqDecision node.
Proof. solve_decision. Defined.

Definition set_entry (w : world) (i : Z) (e : wait_queue_entry) : world :=
  mk_world (upd (entries w) i e) (tstate w) (bits w).
Definition set_flags (w : world) (i f : Z) : world :=
  set_entry w i (mk_entry f (private (entries w i)) (func (entries w i))).
Definition set_tstate (w : world) (t s : Z) : world :=
  mk_world (entries w) (upd (tstate w) t s) (bits w).
Definition has_flag (w : world) (i f : Z) : bool := z2b (Z.land (flags (entries w i)) f).

(** ** Wake functions *)

(** The effect of [try_to_wake_up] on the state of the task, and its result. *)
Definition default_wake_function (w : world) (i mode : Z) : world * Z :=
  let t := private (entries w i) in
  if z2b (Z.land (tstate w t) mode) then (set_tstate w t TASK_RUNNING, 1) else (w, 0).

(** A wake function returns whether it has removed its entry from the queue. *)
Definition autoremove_wake_function (w : world) (i mode : Z) : world * Z * bool :=
  let '(w, ret) := default_wake_function w i mode in (w, ret, z2b ret).

Definition woken_wake_function (w : world) (i mode : Z) : world * Z * bool :=
  let w := set_flags w i (Z.lor (flags (entries w i)) WQ_FLAG_WOKEN) in
  let '(w, ret) := default_wake_function w i mode in (w, ret, false).

Definition wake_bit_function (w : world) (i mode : Z) (word bit : Z) (key : Z * Z) : world * Z * bool :=
  if negb (word =? key.1) || negb (bit =? key.2) || bits w key.1 key.2 then (w, 0, false)
  else autoremove_wake_function w i mode.

Definition var_wake_function (w : world) (i mode : Z) (var : Z) (key : Z * Z) : world * Z * bool :=
  if negb (var =? key.1) || negb (-1 =? key.2) then (w, 0, false)
  else autoremove_wake_function w i mode.

Definition call_func (w : world) (i mode : Z) (key : Z * Z) : world * Z * bool :=
  match func (entries w i) with
  | default_wake => let '(w, ret) := default_wake_function w i mode in (w, ret, false)
  | autoremove_wake => autoremove_wake_function w i mode
  | woken_wake => woken_wake_function w i mode
  | bit_wake word bit => wake_bit_function w i mode word bit key
  | var_wake var => var_wake_function w i mode var key
  end.

(** ** The walk *)

(** A section of a walk, with [pre] before the current link and [l] from it on; [bm] tells
    whether the caller has a bookmark, which is [k].  The result has the queue, what is
    left of [nr_exclusive], whether the bookmark was left, and for the record the entries
    called, with whether they count as exclusive wakeups. *)
Fixpoint wake_walk (w : world) (mode : Z) (key : Z * Z) (bm : bool) (k nr cnt : Z)
    (pre l : list node) : world * list node * Z * bool * list (Z * bool) :=
  match l with
  | [] => (w, pre, nr, false, [])
  | Mark j :: next => wake_walk w mode key bm k nr cnt (pre ++ [Mark j]) next
  | Ent i :: next =>
      let exclusive := has_flag w i WQ_FLAG_EXCLUSIVE in
      let '(w, ret, removed) := call_func w i mode key in
      let pre := if removed then pre else pre ++ [Ent i] in
      let hit := z2b ret && exclusive in
      if ret <? 0 then (w, pre ++ next, nr, false, [(i, false)])
      else
        let nr := if hit then s32 (nr - 1) else nr in
        if hit && (nr =? 0) then (w, pre ++ next, nr, false, [(i, hit)])
        else if bm && (WAITQUEUE_WALK_BREAK_CNT <? cnt + 1) && negb (bool_decide (next = []))
        then (w, pre ++ Mark k :: next, nr, true, [(i, hit)])
        else
          let '(w, q, nr, marked, log) := wake_walk w mode key bm k nr (cnt + 1) pre next in
          (w, q, nr, marked, (i, hit) :: log)
  end.

(** The links before and after the bookmark of [k]. *)
Fixpoint split_mark (k : Z) (q : list node) : list node * list node :=
  match q with
  | [] => ([], [])
  | n :: q =>
      if bool_decide (n = Mark k) then ([], q)
      else let '(a, b) := split_mark k q in (n :: a, b)
  end.

(** [marked] is the flag WQ_FLAG_BOOKMARK of the bookmark. *)
Definition __wake_up_common (w : world) (q : list node) (mode nr : Z) (key : Z * Z)
    (bm marked : bool) (k : Z) : world * list node * Z * bool * list (Z * bool) :=
  let '(pre, l) := if bm && marked then split_mark k q else ([], q) in
  wake_walk w mode key bm k nr 0 pre l.

(** [__wake_up_locked] and its variants, which have no bookmark. *)
Definition __wake_up_locked (w : world) (q : list node) (mode nr : Z) (key : Z * Z) : world * list node :=
  let '(w, q, _, _, _) := __wake_up_common w q mode nr key false false 0 in (w, q).

(** ** Waiting *)

Definition queued (q : list node) (i : Z) : bool := bool_decide (Ent i ∈ q).

Fixpoint __add_wait_queue (w : world) (q : list node) (i : Z) : list node :=
  match q with
  | Ent j :: q' => if has_flag w j WQ_FLAG_PRIORITY then Ent j :: __add_wait_queue w q' i else Ent i :: q
  | _ => Ent i :: q
  end.

Definition __add_wait_queue_entry_tail (q : list node) (i : Z) : list node := q ++ [Ent i].

Definition __remove_wait_queue (q : list node) (i : Z) : list node :=
  filter (fun n => n <> Ent i) q.

Definition clear_flag (w : world) (i f : Z) : world :=
  set_flags w i (Z.land (flags (entries w i)) (Z.lnot f)).
Definition set_flag (w : world) (i f : Z) : world := set_flags w i (Z.lor (flags (entries w i)) f).

Definition add_wait_queue (w : world) (q : list node) (i : Z) : world * list node :=
  let w := clear_flag w i WQ_FLAG_EXCLUSIVE in (w, __add_wait_queue w q i).

Definition add_wait_queue_exclusive (w : world) (q : list node) (i : Z) : world * list node :=
  (set_flag w i WQ_FLAG_EXCLUSIVE, __add_wait_queue_entry_tail q i).

Definition add_wait_queue_priority (w : world) (q : list node) (i : Z) : world * list node :=
  let w := set_flag w i (Z.lor WQ_FLAG_EXCLUSIVE WQ_FLAG_PRIORITY) in (w, __add_wait_queue w q i).

Definition remove_wait_queue (w : world) (q : list node) (i : Z) : world * list node :=
  (w, __remove_wait_queue q i).

(** The current task is that of the entry. *)
Definition set_current_state (w : world) (i state : Z) : world :=
  set_tstate w (private (entries w i)) state.

Definition init_wait_entry (w : world) (i current flags : Z) : world :=
  set_entry w i (mk_entry flags current autoremove_wake).

Definition prepare_to_wait (w : world) (q : list node) (i state : Z) : world * list node :=
  let w := clear_flag w i WQ_FLAG_EXCLUSIVE in
  let q := if negb (queued q i) then __add_wait_queue w q i else q in
  (set_current_state w i state, q).

Definition prepare_to_wait_exclusive (w : world) (q : list node) (i state : Z) : world * list node * bool :=
  let w := set_flag w i WQ_FLAG_EXCLUSIVE in
  let '(q, was_empty) :=
    if negb (queued q i) then (__add_wait_queue_entry_tail q i, bool_decide (q = []))
    else (q, false) in
  (set_current_state w i state, q, was_empty).

(** [signal] is [signal_pending_state(state, current)]. *)
Definition prepare_to_wait_event (w : world) (q : list node) (i state : Z) (signal : bool) :
    world * list node * Z :=
  if signal then (w, __remove_wait_queue q i, - ERESTARTSYS)
  else
    let q :=
      if negb (queued q i) then
        if has_flag w i WQ_FLAG_EXCLUSIVE then __add_wait_queue_entry_tail q i
        else __add_wait_queue w q i
      else q in
    (set_current_state w i state, q, 0).

(** [do_wait_intr] up to [schedule()], called with the lock held. *)
Definition do_wait_intr (w : world) (q : list node) (i : Z) (signal : bool) : world * list node * Z :=
  let q := if negb (queued q i) then __add_wait_queue_entry_tail q i else q in
  (set_current_state w i 1, q, if signal then - ERESTARTSYS else 0).

Definition finish_wait (w : world) (q : list node) (i : Z) : world * list node :=
  let w := set_current_state w i TASK_RUNNING in
  (w, if queued q i then __remove_wait_queue q i else q).

(** ** Interleavings of walks *)

(** A call of [__wake_up_common_lock] in progress. *)
Record walker := mk_walker {
  wk_mode : Z;
  wk_key : Z * Z;
  nr_exclusive : Z;
  remaining : Z;
  wk_marked : bool;
  wk_done : bool;
  wk_log : list (Z * bool)
}.

Record sys := mk_sys {
  s_world : world;
  s_queue : list node;
  s_walkers : Z -> option walker
}.

(** The sections under the lock: a walk starts, a section of a walk, the operations above
    on an entry, and any change of entries, states and bits outside the queue. *)
Inductive event :=
| Wake (k mode nr : Z) (key : Z * Z)
| Walk (k : Z)
| Locked (mode nr : Z) (key : Z * Z)
| Add (i : Z)
| AddExclusive (i : Z)
| AddPriority (i : Z)
| Remove (i : Z)
| Prepare (i state : Z)
| PrepareExclusive (i state : Z)
| PrepareEvent (i state : Z) (signal : bool)
| Intr (i : Z) (signal : bool)
| Finish (i : Z)
| Env (w : world).

Definition put_queue (s : sys) (r : world * list node) : sys := mk_sys r.1 r.2 (s_walkers s).

(** One round of the loop of [__wake_up_common_lock]. *)
Definition wake_round (s : sys) (k : Z) : sys :=
  match s_walkers s k with
  | Some wk =>
      if wk_done wk then s
      else
        let '(w, q, nr, marked, log) :=
          __wake_up_common (s_world s) (s_queue s) (wk_mode wk) (remaining wk) (wk_key wk)
            true (wk_marked wk) k in
        mk_sys w q (upd (s_walkers s) k
          (Some (mk_walker (wk_mode wk) (wk_key wk) (nr_exclusive wk) nr marked (negb marked)
                   (wk_log wk ++ log))))
  | None => s
  end.

Definition step (s : sys) (e : event) : sys :=
  let w := s_world s in
  let q := s_queue s in
  match e with
  | Wake k mode nr key =>
      mk_sys w q (upd (s_walkers s) k (Some (mk_walker mode key nr nr false false [])))
  | Walk k => wake_round s k
  | Locked mode nr key => put_queue s (__wake_up_locked w q mode nr key)
  | Add i => put_queue s (add_wait_queue w q i)
  | AddExclusive i => put_queue s (add_wait_queue_exclusive w q i)
  | AddPriority i => put_queue s (add_wait_queue_priority w q i)
  | Remove i => put_queue s (remove_wait_queue w q i)
  | Prepare i st => put_queue s (prepare_to_wait w q i st)
  | PrepareExclusive i st => put_queue s (prepare_to_wait_exclusive w q i st).1
  | PrepareEvent i st sg => put_queue s (prepare_to_wait_event w q i st sg).1
  | Intr i sg => put_queue s (do_wait_intr w q i sg).1
  | Finish i => put_queue s (finish_wait w q i)
  | Env w' => mk_sys w' q (s_walkers s)
  end.

(** What the callers guarantee: an entry is added once, and a bookmark is on the stack of
    one waker. *)
Definition enabled (s : sys) (e : event) : Prop :=
  match e with
  | Wake k _ _ _ => match s_walkers s k with Some wk => wk_done wk = true | None => True end
  | Add i | AddExclusive i | AddPriority i => Ent i ∉ s_queue s
  | _ => True
  end.

Definition run (s : sys) (es : list event) : sys := fold_left step es s.

Fixpoint run_enabled (s : sys) (es : list event) : Prop :=
  match es with
  | [] => True
  | e :: es => enabled s e /\ run_enabled (step s e) es
  end.

(** The exclusive wakeups of a walk. *)
Definition hits (log : list (Z * bool)) : Z := Z.of_nat (length (List.filter snd log)).
Definition calls_of (i : Z) (log : list (Z * bool)) : Z :=
  Z.of_nat (length (List.filter (fun c => c.1 =? i) log)).

(** ** [wait_event] *)

(** The macro [___wait_event] for non-exclusive waiters, at the points where others can
    intervene: before [prepare_to_wait_event], before the test of the condition, in
    [schedule()], before [finish_wait].  The waiter [i] is also its task and its entry;
    [int] is the result of [prepare_to_wait_event]. *)
Inductive wait_point :=
| Outside
| Loop (state : Z)
| Test (state int : Z)
| Asleep (state : Z)
| Leave (state : Z)
| Left (ret : Z).

Record wsys := mk_wsys {
  b_sys : sys;
  b_cond : bool;
  b_point : Z -> wait_point;
  b_after : Z -> bool
}.

(** [TASK_INTERRUPTIBLE] and [TASK_WAKEKILL]. *)
Definition wait_is_interruptible (state : Z) : bool := z2b (Z.land state (Z.lor 0x1 0x100)).

(** The events: a task calls [wait_event] and takes its steps ([Resume] is the return of
    [schedule()], [Other] another wakeup of the task, a signal for one); the condition
    becomes true; a waker starts a walk and takes its rounds.  [b_after] records for a
    walk that the condition was true when it started. *)
Inductive wevent :=
| Begin (i state : Z)
| Prep (i : Z) (signal : bool)
| CondTest (i : Z)
| Resume (i : Z)
| Other (i : Z)
| Out (i : Z)
| SetCond
| WakeUp (k mode nr : Z)
| Round (k : Z).

Definition b_put (b : wsys) (r : world * list node) (i : Z) (p : wait_point) : wsys :=
  mk_wsys (put_queue (b_sys b) r) (b_cond b) (upd (b_point b) i p) (b_after b).
Definition b_move (b : wsys) (i : Z) (p : wait_point) : wsys :=
  mk_wsys (b_sys b) (b_cond b) (upd (b_point b) i p) (b_after b).

Definition wstep (b : wsys) (e : wevent) : wsys :=
  let w := s_world (b_sys b) in
  let q := s_queue (b_sys b) in
  match e with
  | Begin i st =>
      match b_point b i with
      | Outside | Left _ => b_put b (init_wait_entry w i i 0, q) i (Loop st)
      | _ => b
      end
  | Prep i signal =>
      match b_point b i with
      | Loop st =>
          let '(w, q, int) := prepare_to_wait_event w q i st signal in
          b_put b (w, q) i (Test st int)
      | _ => b
      end
  | CondTest i =>
      match b_point b i with
      | Test st int =>
          if b_cond b then b_move b i (Leave st)
          else if wait_is_interruptible st && z2b int then b_move b i (Left int)
          else b_move b i (Asleep st)
      | _ => b
      end
  | Resume i =>
      match b_point b i with
      | Asleep st => if tstate w i =? TASK_RUNNING then b_move b i (Loop st) else b
      | _ => b
      end
  | Other i => mk_wsys (put_queue (b_sys b) (set_tstate w i TASK_RUNNING, q)) (b_cond b) (b_point b) (b_after b)
  | Out i =>
      match b_point b i with
      | Leave _ => b_put b (finish_wait w q i) i (Left 0)
      | _ => b
      end
  | SetCond => mk_wsys (b_sys b) true (b_point b) (b_after b)
  | WakeUp k mode nr =>
      match s_walkers (b_sys b) k with
      | Some wk =>
          if wk_done wk
          then mk_wsys (step (b_sys b) (Wake k mode nr (0, 0))) (b_cond b) (b_point b)
                 (upd (b_after b) k (b_cond b))
          else b
      | None =>
          mk_wsys (step (b_sys b) (Wake k mode nr (0, 0))) (b_cond b) (b_point b)
            (upd (b_after b) k (b_cond b))
      end
  | Round k => mk_wsys (wake_round (b_sys b) k) (b_cond b) (b_point b) (b_after b)
  end.

Definition wrun (b : wsys) (es : list wevent) : wsys := fold_left wstep es b.

(** Nobody waits, the condition is false. *)
Definition wboot : wsys :=
  mk_wsys (mk_sys (mk_world (fun i => mk_entry 0 i autoremove_wake) (fun _ => TASK_RUNNING)
                     (fun _ _ => false)) [] (fun _ => None))
    false (fun _ => Outside) (fun _ => false).

(** ** [wait_woken] *)

(** The loop around [wait_woken], access by access, against [woken_wake_function]: before
    the store A to the state, before the test of WQ_FLAG_WOKEN, in [schedule_timeout()],
    before the store to the state, before the store B to the flags, before the test of the
    condition in the caller. *)
Inductive woken_point := StoreA | TestFlag | Scheduled | StoreRunning | StoreB | TestCond | Finished.

(** [u_trying]: a waker has stored WQ_FLAG_WOKEN and not yet called [try_to_wake_up].  The
    last two fields record whether the wakeup in progress, and a finished one, began with
    the condition true. *)
Record woken_sys := mk_woken {
  u_cond : bool;
  u_woken : bool;
  u_state : Z;
  u_point : woken_point;
  u_trying : bool;
  u_now_after : bool;
  u_done_after : bool
}.

(** The waiter steps ([stop] is [kthread_should_stop_or_park()]), something else wakes it,
    the condition becomes true, a waker stores the flag, tries to wake the task. *)
Inductive woken_event := Waiter (stop : bool) | Expire | Condition | StoreWoken | TryWake.

Definition waiter_step (mode : Z) (u : woken_sys) (stop : bool) : woken_sys :=
  let go woken state p :=
    mk_woken (u_cond u) woken state p (u_trying u) (u_now_after u) (u_done_after u) in
  match u_point u with
  | StoreA => go (u_woken u) mode TestFlag
  | TestFlag =>
      go (u_woken u) (u_state u) (if negb (u_woken u) && negb stop then Scheduled else StoreRunning)
  | Scheduled => if u_state u =? TASK_RUNNING then go (u_woken u) (u_state u) StoreRunning else u
  | StoreRunning => go (u_woken u) TASK_RUNNING StoreB
  | StoreB => go false (u_state u) TestCond
  | TestCond => go (u_woken u) (u_state u) (if u_cond u then Finished else StoreA)
  | Finished => u
  end.

Definition woken_step (mode wake_mode : Z) (u : woken_sys) (e : woken_event) : woken_sys :=
  match e with
  | Waiter stop => waiter_step mode u stop
  | Expire =>
      mk_woken (u_cond u) (u_woken u) TASK_RUNNING (u_point u) (u_trying u) (u_now_after u) (u_done_after u)
  | Condition =>
      mk_woken true (u_woken u) (u_state u) (u_point u) (u_trying u) (u_now_after u) (u_done_after u)
  | StoreWoken =>
      if u_trying u then u
      else mk_woken (u_cond u) true (u_state u) (u_point u) true (u_cond u) (u_done_after u)
  | TryWake =>
      if u_trying u then
        mk_woken (u_cond u) (u_woken u)
          (if z2b (Z.land (u_state u) wake_mode) then TASK_RUNNING else u_state u) (u_point u) false false
          (u_now_after u || u_done_after u)
      else u
  end.

Definition woken_run (mode wake_mode : Z) (es : list woken_event) : woken_sys :=
  fold_left (woken_step mode wake_mode) es (mk_woken false false TASK_RUNNING TestCond false false false).

(** ** One section of a walk *)

Definition ent (n : node) : option Z := match n with Ent i => Some i | Mark _ => None end.
Definition ents (l : list node) : list Z := omap ent l.

Lemma call_func_ret w i mode key :
  (call_func w i mode key).1.2 = 0 \/ (call_func w i mode key).1.2 = 1.
Proof.
  unfold call_func, woken_wake_function, wake_bit_function, var_wake_function, autoremove_wake_function,
    default_wake_function.
  destruct (func _); try destruct (_ || _); cbn; try (by left); destruct (z2b _); cbn; auto.
Qed.

Lemma hits_cons c log : hits (c :: log) = b2z c.2 + hits log.
Proof. unfold hits. cbn. destruct c.2; cbn; lia. Qed.

Lemma hits_app l1 l2 : hits (l1 ++ l2) = hits l1 + hits l2.
Proof. unfold hits. rewrite List.filter_app, length_app. lia. Qed.

(** What a section does to the links [l] from the current one on. *)
Record walked (k nr : Z) (pre l q' : list node) (nr' : Z) (marked : bool)
    (log : list (Z * bool)) : Prop := {
  wk_split : exists l1 l2 kept, l = l1 ++ l2 /\
    q' = pre ++ kept ++ (if marked then Mark k :: l2 else l2) /\
    kept `sublist_of` l1 /\ (forall j, Mark j ∈ l1 -> Mark j ∈ kept) /\
    log.*1 = ents l1 /\
    (marked = false -> l2 = [] \/ 0 < hits log /\ nr' = 0) /\
    (marked = true -> log <> []);
  wk_nr : -two31 <= nr - hits log -> nr < two31 -> nr' = nr - hits log;
  wk_pos : 0 < nr < two31 -> 0 <= nr' <= nr /\ (marked = true -> 0 < nr')
}.

Lemma walked_skip k nr pre j next q' nr' marked log :
  walked k nr (pre ++ [Mark j]) next q' nr' marked log ->
  walked k nr pre (Mark j :: next) q' nr' marked log.
Proof.
  intros [(l1 & l2 & kept & -> & -> & Hs & Hm & Hl & He & Hn) H2 H3]. split; [|done|done].
  exists (Mark j :: l1), l2, (Mark j :: kept). split; [done|]. split; [by rewrite <- app_assoc|].
  split; [by apply sublist_skip|]. split; [|done].
  intros x [Hx|Hx]%elem_of_cons; [injection Hx as ->; left|right; auto].
Qed.

(** One entry called, the section over ([l2] the links left) or going on. *)
Lemma walked_stop k nr pre i next (removed marked hit : bool) nr1 :
  nr1 = (if hit then s32 (nr - 1) else nr) ->
  (marked = false -> next = [] \/ hit = true /\ nr1 = 0) ->
  (marked = true -> hit = true -> nr1 <> 0) ->
  walked k nr pre (Ent i :: next)
    ((if removed then pre else pre ++ [Ent i]) ++ (if marked then Mark k :: next else next))
    nr1 marked [(i, hit)].
Proof.
  intros -> Hstop Hgo. split.
  - exists [Ent i], next, (if removed then [] else [Ent i]).
    split; [done|]. split; [destruct removed; [done|by rewrite <- app_assoc]|].
    split; [destruct removed; [apply sublist_nil_l|done]|].
    split; [intros j Hj; apply list_elem_of_singleton in Hj; done|]. split; [done|].
    split; [|done]. intros Em. destruct (Hstop Em) as [->|[-> E0]]; [by left|right]. by rewrite hits_cons.
  - rewrite hits_cons. change (hits []) with 0. destruct hit; cbn; intros; [rewrite (s32_small (nr - 1)) by lia|]; lia.
  - intros Hnr. destruct hit; [|split; intros; lia].
    rewrite (s32_small (nr - 1)) in * by lia. split; [lia|]. intros Em. specialize (Hgo Em eq_refl). lia.
Qed.

Lemma walked_next k nr pre i next removed (hit : bool) nr1 q' nr' marked log :
  nr1 = (if hit then s32 (nr - 1) else nr) -> (hit = true -> nr1 <> 0) ->
  walked k nr1 (if removed : bool then pre else pre ++ [Ent i]) next q' nr' marked log ->
  walked k nr pre (Ent i :: next) q' nr' marked ((i, hit) :: log).
Proof.
  intros -> Hgo [(l1 & l2 & kept & -> & -> & Hs & Hm & Hl & He & Hn) H2 H3].
  assert (Hh : 0 <= hits log) by (unfold hits; lia).
  split.
  - exists (Ent i :: l1), l2, (if removed then kept else Ent i :: kept).
    split; [done|]. split; [destruct removed; [done|by rewrite <- app_assoc]|].
    split; [destruct removed; [by apply sublist_cons|by apply sublist_skip]|].
    split; [intros j [Hj|Hj]%elem_of_cons; [done|destruct removed; [auto|right; auto]]|].
    split; [cbn; by rewrite Hl|]. split; [|done]. intros Em. destruct (He Em) as [->|[? ?]]; [by left|right].
    rewrite hits_cons. pose proof (b2z_01 hit). cbn. lia.
  - rewrite hits_cons. destruct hit; cbn [b2z snd] in *; intros; [rewrite (s32_small (nr - 1)) in H2 by lia|]; lia.
  - intros Hnr. destruct hit; [|by apply H3]. rewrite (s32_small (nr - 1)) in * by lia.
    specialize (Hgo eq_refl). destruct (H3 ltac:(lia)) as [? ?]. split; [lia|done].
Qed.

Lemma wake_walk_spec mode key bm k l : forall w nr cnt pre,
  let '(w', q', nr', marked, log) := wake_walk w mode key bm k nr cnt pre l in
  walked k nr pre l q' nr' marked log /\ (bm = false -> marked = false).
Proof.
  induction l as [|[i|j] next IH]; intros w nr cnt pre; cbn [wake_walk].
  - split; [|done]. split; [|change (hits []) with 0; intros; lia|intros; split; intros; lia].
    exists [], [], []. rewrite !app_nil_r. split; [done|]. split; [done|]. split; [done|].
    split; [intros j Hj; inversion Hj|]. split; [done|]. split; [by left|done].
  - pose proof (call_func_ret w i mode key) as Hr.
    destruct (call_func w i mode key) as [[w1 ret] removed]. cbn [fst snd] in Hr.
    destruct (Z.ltb_spec ret 0); [lia|].
    set (hit := z2b ret && has_flag w i WQ_FLAG_EXCLUSIVE).
    set (nr1 := if hit then s32 (nr - 1) else nr).
    destruct (hit && (nr1 =? 0)) eqn:Est.
    { apply andb_prop in Est as [Eh E0]. split; [|done].
      apply (walked_stop k nr pre i next removed false hit nr1); [done| |done].
      intros _. right. split; [done|lia]. }
    assert (Hgo : hit = true -> nr1 <> 0).
    { intros Eh E0. rewrite Eh, E0 in Est. done. }
    destruct (bm && _ && _) eqn:Ebm.
    { apply andb_prop in Ebm as [Ebm _]. apply andb_prop in Ebm as [-> _]. split; [|done].
      apply (walked_stop k nr pre i next removed true hit nr1); [done|done|auto]. }
    specialize (IH w1 nr1 (cnt + 1) (if removed then pre else pre ++ [Ent i])).
    destruct (wake_walk w1 mode key bm k nr1 (cnt + 1) _ next) as [[[[w2 q2] nr2] m2] log2].
    destruct IH as [W Hb]. split; [|done]. by eapply walked_next.
  - specialize (IH w nr cnt (pre ++ [Mark j])).
    destruct (wake_walk w mode key bm k nr cnt (pre ++ [Mark j]) next) as [[[[w2 q2] nr2] m2] log2].
    destruct IH as [W Hb]. split; [by apply walked_skip|done].
Qed.

(** ** The order of the queue *)

(** Two links that stay keep their order. *)
Lemma order_kept (q r : list node) x y :
  r `sublist_of` q -> NoDup q -> x ∈ r -> y ∈ r -> [x; y] `sublist_of` q -> [x; y] `sublist_of` r.
Proof.
  intros Hs. induction Hs as [|z r q Hs IH|z r q Hs IH]; intros ND Hx Hy Hxy; [inversion Hx| |].
  - apply list.NoDup_cons in ND as [Hz ND]. apply sublist_cons_l in Hxy as (u & v & E & Hv).
    apply sublist_cons_l in Hv as (u' & v' & E' & _).
    destruct u as [|a u]; injection E as <- E.
    + apply sublist_skip. apply elem_of_cons in Hy as [->|Hy].
      * exfalso. apply Hz. rewrite E, E'. apply elem_of_app. right. left.
      * by apply singleton_sublist_l.
    + apply sublist_cons. apply elem_of_cons in Hx as [->|Hx].
      { exfalso. apply Hz. rewrite E. apply elem_of_app. right. left. }
      apply elem_of_cons in Hy as [->|Hy].
      { exfalso. apply Hz. rewrite E, E'. apply elem_of_app. right. right. apply elem_of_app. right. left. }
      apply IH; try done. rewrite E, E'. apply sublist_inserts_l, sublist_skip, sublist_inserts_l, sublist_skip, sublist_nil_l.
  - apply list.NoDup_cons in ND as [Hz ND]. apply IH; try done.
    inversion Hxy as [|? ? ? H|? ? ? H]; subst; [|done].
    exfalso. apply Hz. eapply elem_of_sublist; [exact Hx|exact Hs].
Qed.

(** [q'] has the links of [q] that are still there, but for [z], in the same order. *)
Definition ordered (z : node) (q q' : list node) : Prop :=
  exists r, r `sublist_of` q /\ r `sublist_of` q' /\ forall n, n <> z -> n ∈ q -> n ∈ q' -> n ∈ r.

Lemma ordered_pair z q q' x y :
  NoDup q -> ordered z q q' -> x <> z -> y <> z -> x ∈ q' -> y ∈ q' ->
  [x; y] `sublist_of` q -> [x; y] `sublist_of` q'.
Proof.
  intros ND (r & H1 & H2 & H3) Hx Hy Hx' Hy' Hq.
  assert (x ∈ q) by (eapply elem_of_sublist; [|exact Hq]; left).
  assert (y ∈ q) by (eapply elem_of_sublist; [|exact Hq]; right; left).
  etransitivity; [|exact H2]. apply (order_kept q); auto.
Qed.

Lemma ordered_insert z q q' : q `sublist_of` q' -> ordered z q q'.
Proof. intros H. exists q. auto. Qed.

Lemma ordered_delete z q q' : q' `sublist_of` q -> ordered z q q'.
Proof. intros H. exists q'. auto. Qed.

(** *** The places where links are inserted and removed *)

Lemma add_wait_queue_at w q i : exists a b, q = a ++ b /\ __add_wait_queue w q i = a ++ Ent i :: b.
Proof.
  induction q as [|[j|j] q IH]; cbn; [by exists [], []| |by exists [], (Mark j :: q)].
  destruct (has_flag w j WQ_FLAG_PRIORITY); [|by exists [], (Ent j :: q)].
  destruct IH as (a & b & -> & E). exists (Ent j :: a), b. by rewrite E.
Qed.

Lemma insert_sublist (a b : list node) n : a ++ b `sublist_of` a ++ n :: b.
Proof. apply sublist_app; [done|by apply sublist_cons]. Qed.

(** An operation on entry [i]: it is inserted if it was not there, removed, or nothing
    happens. *)
Definition on_entry (i : Z) (q q' : list node) : Prop :=
  q' = q \/ (Ent i ∉ q /\ exists a b, q = a ++ b /\ q' = a ++ Ent i :: b) \/ q' = __remove_wait_queue q i.

Lemma on_entry_add w q i : Ent i ∉ q -> on_entry i q (__add_wait_queue w q i).
Proof. intros H. right. left. split; [done|]. apply add_wait_queue_at. Qed.

Lemma on_entry_tail q i : Ent i ∉ q -> on_entry i q (__add_wait_queue_entry_tail q i).
Proof. intros H. right. left. split; [done|]. exists q, []. by rewrite app_nil_r. Qed.

Lemma not_queued q i : negb (queued q i) = true -> Ent i ∉ q.
Proof. unfold queued. intros H. by apply negb_true_iff, bool_decide_eq_false in H. Qed.

Lemma on_entry_ordered z i q q' : on_entry i q q' -> ordered z q q'.
Proof.
  intros [->|[(_ & a & b & -> & ->)| ->]].
  - by apply ordered_insert.
  - apply ordered_insert, insert_sublist.
  - apply ordered_delete, sublist_filter.
Qed.

Lemma on_entry_marks i q q' k : on_entry i q q' -> (Mark k ∈ q' <-> Mark k ∈ q).
Proof.
  intros [->|[(_ & a & b & -> & ->)| ->]]; [done| |].
  - rewrite !elem_of_app, elem_of_cons. naive_solver.
  - unfold __remove_wait_queue. rewrite list_elem_of_filter. naive_solver.
Qed.

Lemma on_entry_NoDup i q q' : on_entry i q q' -> NoDup q -> NoDup q'.
Proof.
  intros [->|[(Hi & a & b & -> & ->)| ->]] ND; [done| |].
  - rewrite <- Permutation_middle. by apply list.NoDup_cons.
  - eapply sublist_NoDup; [exact ND|apply sublist_filter].
Qed.

(** *** A section of a walk on the whole queue *)

Lemma split_mark_spec k q :
  Mark k ∈ q -> exists a b, split_mark k q = (a, b) /\ q = a ++ Mark k :: b.
Proof.
  induction q as [|n q IH]; intros H; [inversion H|]. cbn.
  destruct (bool_decide_reflect (n = Mark k)) as [->|Hn]; [by exists [], q|].
  apply elem_of_cons in H as [H|H]; [congruence|].
  destruct (IH H) as (a & b & -> & ->). by exists (n :: a), b.
Qed.

(** The links a section starts from: without the bookmark, if it was there. *)
Lemma section_start (bm marked : bool) k q :
  NoDup q -> (bm && marked = true <-> Mark k ∈ q) ->
  exists pre l, (if bm && marked then split_mark k q else ([], q)) = (pre, l) /\
    pre ++ l `sublist_of` q /\ Mark k ∉ pre ++ l /\ (forall n, n <> Mark k -> n ∈ q -> n ∈ pre ++ l).
Proof.
  intros ND Hm. destruct (bm && marked).
  - destruct (split_mark_spec k q) as (a & b & E & ->); [by apply Hm|].
    exists a, b. split; [done|]. split; [apply insert_sublist|]. split.
    + rewrite <- Permutation_middle in ND. by apply list.NoDup_cons in ND as [? _].
    + intros n Hn H. apply elem_of_app in H as [H|H]; apply elem_of_app; [by left|right].
      apply elem_of_cons in H as [->|H]; done.
  - exists [], q. split; [done|]. split; [done|]. split; [intros H; by apply Hm in H|done].
Qed.

Lemma section_queue (bm marked : bool) w q mode nr key k :
  NoDup q -> (bm && marked = true <-> Mark k ∈ q) ->
  let '(w', q', nr', marked', log) := __wake_up_common w q mode nr key bm marked k in
  NoDup q' /\ ordered (Mark k) q q' /\ (Mark k ∈ q' <-> marked' = true) /\
  (forall j, j <> k -> Mark j ∈ q' <-> Mark j ∈ q).
Proof.
  intros ND Hm. unfold __wake_up_common.
  destruct (section_start bm marked k q ND Hm) as (pre & l & -> & Hsub & Hk & Hall).
  pose proof (wake_walk_spec mode key bm k l w nr 0 pre) as H.
  destruct (wake_walk w mode key bm k nr 0 pre l) as [[[[w' q'] nr'] marked'] log].
  destruct H as [[(l1 & l2 & kept & -> & -> & Hkept & Hmarks & _) _ _] _].
  set (r := pre ++ kept ++ l2).
  assert (Hr : r `sublist_of` pre ++ l1 ++ l2) by (apply sublist_app; [done|by apply sublist_app]).
  assert (Hrq : r `sublist_of` q) by (etransitivity; [exact Hr|exact Hsub]).
  assert (HrND : NoDup r) by (by eapply sublist_NoDup).
  assert (Hrk : Mark k ∉ r) by (intros H; apply Hk; by eapply elem_of_sublist).
  assert (Hq : exists b, pre ++ kept ++ (if marked' then Mark k :: l2 else l2) = b /\
    r `sublist_of` b /\ (forall n, n ∈ b <-> n ∈ r \/ (marked' = true /\ n = Mark k)) /\ NoDup b).
  { eexists. split; [done|]. unfold r in *. destruct marked'.
    - split; [do 2 (apply sublist_app; [done|]); by apply sublist_cons|]. split.
      + intros n. rewrite !elem_of_app, elem_of_cons. naive_solver.
      + rewrite !app_assoc in *. rewrite <- Permutation_middle. by apply list.NoDup_cons.
    - split; [done|]. split; [|done]. intros n. split; [by left|]. by intros [?|[? _]]. }
  destruct Hq as (b & -> & Hb1 & Hb2 & Hb3). split; [done|]. split; [|split].
  - exists r. split; [done|]. split; [done|]. intros n Hn _ H. apply Hb2 in H. naive_solver.
  - rewrite Hb2. split; [by intros [?|[? _]]|by right].
  - intros j Hj. rewrite Hb2. split.
    + intros [H|[_ H]]; [|congruence]. by eapply elem_of_sublist.
    + intros H. left. assert (Hin := Hall (Mark j) ltac:(congruence) H). unfold r.
      rewrite !elem_of_app in *. naive_solver.
Qed.

(** A section without a bookmark only removes entries. *)
Lemma locked_queue w q mode nr key :
  let q' := (__wake_up_locked w q mode nr key).2 in
  q' `sublist_of` q /\ forall j, Mark j ∈ q' <-> Mark j ∈ q.
Proof.
  unfold __wake_up_locked, __wake_up_common. cbn [andb].
  pose proof (wake_walk_spec mode key false 0 q w nr 0 []) as H.
  destruct (wake_walk w mode key false 0 nr 0 [] q) as [[[[w' q'] nr'] marked'] log].
  destruct H as [[(l1 & l2 & kept & -> & -> & Hkept & Hmarks & _) _ _] Hm]. rewrite Hm by done. cbn.
  split; [by apply sublist_app|]. intros j. rewrite !elem_of_app. split; intros [H|H]; auto.
  left. by eapply elem_of_sublist.
Qed.

(** ** Invariant *)

Record inv (s : sys) : Prop := {
  inv_nodup : NoDup (s_queue s);
  inv_marks : forall k, Mark k ∈ s_queue s <->
    exists wk, s_walkers s k = Some wk /\ wk_marked wk = true;
  inv_done : forall k wk, s_walkers s k = Some wk -> wk_marked wk = true -> wk_done wk = false
}.

(** The entry an operation is about, and what it does to the queue. *)
Definition entry_of (e : event) : option Z :=
  match e with
  | Add i | AddExclusive i | AddPriority i | Remove i | Prepare i _ | PrepareExclusive i _
  | PrepareEvent i _ _ | Intr i _ | Finish i => Some i
  | _ => None
  end.

Lemma step_on_entry s e i :
  enabled s e -> entry_of e = Some i ->
  on_entry i (s_queue s) (s_queue (step s e)) /\ s_walkers (step s e) = s_walkers s.
Proof.
  intros He Hi. destruct e; cbn in Hi; try done; injection Hi as ->; (split; [|done]); cbn in *.
  - by apply on_entry_add.
  - by apply on_entry_tail.
  - by apply on_entry_add.
  - by right; right.
  - destruct (negb (queued _ i)) eqn:E; [by apply on_entry_add, not_queued|by left].
  - unfold prepare_to_wait_exclusive.
    destruct (negb (queued _ i)) eqn:E; [by apply on_entry_tail, not_queued|by left].
  - unfold prepare_to_wait_event. destruct signal; [by right; right|]. cbn.
    destruct (negb (queued _ i)) eqn:E; [|by left].
    destruct (has_flag _ _ _); [by apply on_entry_tail, not_queued|by apply on_entry_add, not_queued].
  - destruct (negb (queued _ i)) eqn:E; [by apply on_entry_tail, not_queued|by left].
  - destruct (queued _ i); [by right; right|by left].
Qed.

(** The walk of [k] is stepped by no event but its own. *)
Definition concerns (k : Z) (e : event) : bool :=
  match e with Wake j _ _ _ | Walk j => j =? k | _ => false end.

Lemma round_spec s k wk :
  inv s -> s_walkers s k = Some wk -> wk_done wk = false ->
  exists w q nr marked log,
    __wake_up_common (s_world s) (s_queue s) (wk_mode wk) (remaining wk) (wk_key wk) true (wk_marked wk) k
      = (w, q, nr, marked, log) /\
    wake_round s k = mk_sys w q (upd (s_walkers s) k
      (Some (mk_walker (wk_mode wk) (wk_key wk) (nr_exclusive wk) nr marked (negb marked)
               (wk_log wk ++ log)))) /\
    NoDup q /\ ordered (Mark k) (s_queue s) q /\ (Mark k ∈ q <-> marked = true) /\
    (forall j, j <> k -> Mark j ∈ q <-> Mark j ∈ s_queue s).
Proof.
  intros I Hwk Hd.
  assert (Hm : true && wk_marked wk = true <-> Mark k ∈ s_queue s).
  { rewrite (inv_marks s I). cbn. split; [eauto|]. intros (wk' & E & ?). by simplify_eq. }
  pose proof (section_queue true (wk_marked wk) (s_world s) (s_queue s) (wk_mode wk) (remaining wk)
    (wk_key wk) k (inv_nodup s I) Hm) as H.
  destruct (__wake_up_common _ _ _ _ _ _ _ _) as [[[[w q] nr] marked] log] eqn:E.
  exists w, q, nr, marked, log. split; [done|]. split; [|done].
  unfold wake_round. by rewrite Hwk, Hd, E.
Qed.

Lemma wq_step_inv s e : inv s -> enabled s e -> inv (step s e).
Proof.
  intros I He. destruct (entry_of e) as [i|] eqn:Ei.
  { destruct (step_on_entry s e i He Ei) as [Ho Hw]. constructor.
    - eapply on_entry_NoDup; [exact Ho|apply I].
    - intros k. rewrite Hw, (on_entry_marks i _ _ k Ho). apply I.
    - rewrite Hw. apply I. }
  destruct e as [k mode nr key|k|mode nr key| | | | | | | | | |w]; try done; cbn [step].
  - constructor; cbn; [apply I| |].
    + intros j. rewrite (inv_marks s I). unfold upd. destruct (Z.eqb_spec j k) as [->|]; [|done].
      split; intros (wk & E & Hm); [|by simplify_eq]. exfalso.
      pose proof (inv_done s I k wk E Hm). cbn in He. rewrite E in He. congruence.
    + intros j wk. unfold upd. destruct (j =? k); [|apply I]. intros [= <-]. done.
  - unfold wake_round. destruct (s_walkers s k) as [wk|] eqn:Hwk; [|done].
    destruct (wk_done wk) eqn:Hd; [done|].
    destruct (round_spec s k wk I Hwk Hd) as (w & q & nr & marked & log & -> & _ & N & _ & M1 & M2).
    constructor; cbn; [done| |].
    + intros j. unfold upd. destruct (Z.eqb_spec j k) as [->|Hj].
      * rewrite M1. split; [eauto|]. intros (? & E & ?). by simplify_eq.
      * rewrite M2 by done. apply I.
    + intros j wk'. unfold upd. destruct (j =? k); [|apply I]. intros [= <-]. cbn. by intros ->.
  - destruct (locked_queue (s_world s) (s_queue s) mode nr key) as [H1 H2].
    constructor; cbn; [eapply sublist_NoDup; [apply I|done]| |apply I].
    intros k. rewrite H2. apply I.
  - by constructor; apply I.
Qed.

Lemma step_other s e k :
  inv s -> enabled s e -> concerns k e = false ->
  s_walkers (step s e) k = s_walkers s k /\
  exists j, j <> k /\ ordered (Mark j) (s_queue s) (s_queue (step s e)).
Proof.
  intros I He Hk. destruct (entry_of e) as [i|] eqn:Ei.
  { destruct (step_on_entry s e i He Ei) as [Ho ->]. split; [done|].
    exists (k + 1). split; [lia|by eapply on_entry_ordered]. }
  assert (Hid : forall q : list node, exists j, j <> k /\ ordered (Mark j) q q).
  { intros q. exists (k + 1). split; [lia|by apply ordered_insert]. }
  destruct e as [j mode nr key|j|mode nr key| | | | | | | | | |w]; try done; cbn [step concerns] in *.
  - split; [|apply Hid]. cbn. rewrite upd_ne; [done|]. intros ->. by rewrite Z.eqb_refl in Hk.
  - assert (j <> k) by (intros ->; by rewrite Z.eqb_refl in Hk). unfold wake_round.
    destruct (s_walkers s j) as [wk|] eqn:Hwk; [|by split; [|apply Hid]].
    destruct (wk_done wk) eqn:Hd; [by split; [|apply Hid]|].
    destruct (round_spec s j wk I Hwk Hd) as (w & q & nr & marked & log & -> & _ & _ & O & _).
    cbn. split; [by rewrite upd_ne|]. by exists j.
  - split; [done|]. exists (k + 1). split; [lia|]. apply ordered_delete.
    apply (locked_queue (s_world s) (s_queue s) mode nr key).
Qed.

(** ** A walk from its start to its end *)

Lemma calls_app i l1 l2 : calls_of i (l1 ++ l2) = calls_of i l1 + calls_of i l2.
Proof. unfold calls_of. rewrite List.filter_app, length_app. lia. Qed.

Lemma calls_none i log : i ∉ log.*1 -> calls_of i log = 0.
Proof.
  unfold calls_of. induction log as [|[j b] log IH]; [done|]. cbn. intros H.
  apply not_elem_of_cons in H as [H1 H2]. destruct (Z.eqb_spec j i); [congruence|auto].
Qed.

Lemma calls_once i log : NoDup log.*1 -> i ∈ log.*1 -> calls_of i log = 1.
Proof.
  induction log as [|[j b] log IH]; intros ND H; [inversion H|]. cbn in ND, H.
  apply list.NoDup_cons in ND as [Hj ND]. unfold calls_of in *. cbn.
  destruct (Z.eqb_spec j i) as [->|Hne].
  - pose proof (calls_none i log Hj) as E. unfold calls_of in E. cbn. lia.
  - apply elem_of_cons in H as [H|H]; [congruence|auto].
Qed.

Lemma ents_elem i l : i ∈ ents l <-> Ent i ∈ l.
Proof.
  unfold ents. rewrite list_elem_of_omap. split.
  - intros ([j|j] & H & E); cbn in E; congruence.
  - intros H. by exists (Ent i).
Qed.

Lemma ents_NoDup l : NoDup l -> NoDup (ents l).
Proof.
  induction l as [|[i|j] l IH]; intros ND; [constructor| |];
    apply list.NoDup_cons in ND as [Hn ND]; [|by apply IH].
  cbn. apply list.NoDup_cons. split; [by rewrite ents_elem|by apply IH].
Qed.

(** The walk of [k] for [nr] exclusive entries counts what it wakes. *)
Definition counts (k nr : Z) (s : sys) : Prop :=
  exists wk, s_walkers s k = Some wk /\ nr_exclusive wk = nr /\
    (-two31 <= nr - hits (wk_log wk) -> remaining wk = nr - hits (wk_log wk)) /\
    (0 < nr -> 0 <= remaining wk <= nr /\ (wk_done wk = false -> 0 < remaining wk)).

(** The walk as seen by the entry [i], which is in the queue all the time: not yet called
    and behind the bookmark, or called and before it. *)
Definition tracks (k i : Z) (s : sys) : Prop :=
  exists wk, s_walkers s k = Some wk /\
    if wk_done wk then calls_of i (wk_log wk) = 1 \/ remaining wk = 0 /\ 0 < hits (wk_log wk)
    else if wk_marked wk then
      calls_of i (wk_log wk) = 0 /\ [Mark k; Ent i] `sublist_of` s_queue s \/
      calls_of i (wk_log wk) = 1 /\ [Ent i; Mark k] `sublist_of` s_queue s
    else wk_log wk = [].

Lemma pair_before (a b : list node) x y : x ∈ a -> y ∈ b -> [x; y] `sublist_of` a ++ b.
Proof.
  intros Hx Hy. change [x; y] with ([x] ++ [y]).
  apply sublist_app; by apply singleton_sublist_l.
Qed.

Lemma after_mark (a b : list node) x y :
  NoDup (a ++ x :: b) -> [x; y] `sublist_of` a ++ x :: b -> y ∈ b.
Proof.
  induction a as [|z a IH]; cbn; intros [Hz ND]%list.NoDup_cons H;
    inversion H as [|? ? ? H'|? ? ? H']; subst.
  - by apply singleton_sublist_l.
  - exfalso. apply Hz. eapply elem_of_sublist; [|exact H']. left.
  - exfalso. apply Hz. apply elem_of_app. right. left.
  - auto.
Qed.

Lemma before_mark (a b : list node) x y :
  NoDup (a ++ x :: b) -> [y; x] `sublist_of` a ++ x :: b -> y ∈ a.
Proof.
  induction a as [|z a IH]; cbn; intros [Hz ND]%list.NoDup_cons H;
    inversion H as [|? ? ? H'|? ? ? H']; subst.
  - exfalso. apply Hz. by apply singleton_sublist_l.
  - exfalso. apply Hz. eapply elem_of_sublist; [|exact H']. right. left.
  - left.
  - right. auto.
Qed.

(** Where a section of the walk finds the entry. *)
Lemma tracks_start k i s wk :
  inv s -> tracks k i s -> Ent i ∈ s_queue s -> s_walkers s k = Some wk -> wk_done wk = false ->
  exists pre l, (if true && wk_marked wk then split_mark k (s_queue s) else ([], s_queue s)) = (pre, l) /\
    NoDup (pre ++ l) /\
    (calls_of i (wk_log wk) = 0 /\ Ent i ∈ l \/ calls_of i (wk_log wk) = 1 /\ Ent i ∈ pre).
Proof.
  intros I (wk' & E & T) Hi Hwk Hd. rewrite Hwk in E. injection E as <-. rewrite Hd in T.
  cbn [andb]. destruct (wk_marked wk) eqn:Hm.
  - destruct (split_mark_spec k (s_queue s)) as (a & b & -> & Eq); [apply (inv_marks s I); eauto|].
    exists a, b. split; [done|]. pose proof (inv_nodup s I) as ND. rewrite Eq in *. split.
    + eapply sublist_NoDup; [exact ND|apply insert_sublist].
    + destruct T as [[? ?]|[? ?]]; [left|right]; (split; [done|]); [by eapply after_mark|by eapply before_mark].
  - exists [], (s_queue s). split; [done|]. split; [apply I|]. left. by rewrite T.
Qed.

Lemma round_counts k nr s :
  nr < two31 -> counts k nr s -> counts k nr (wake_round s k).
Proof.
  intros Hnr (wk & Hwk & En & Hrem & Hpos). unfold wake_round. rewrite Hwk. destruct (wk_done wk) eqn:Hd.
  { exists wk. rewrite Hd. auto. }
  unfold __wake_up_common. destruct (if true && wk_marked wk then _ else _) as [pre l].
  pose proof (wake_walk_spec (wk_mode wk) (wk_key wk) true k l (s_world s) (remaining wk) 0 pre) as W.
  destruct (wake_walk _ _ _ _ _ _ _ _ _) as [[[[w' q'] nr'] marked'] log].
  destruct W as [[_ Hex Hp] _].
  assert (Hh : 0 <= hits (wk_log wk) /\ 0 <= hits log) by (unfold hits; lia).
  eexists. cbn [s_walkers]. rewrite upd_eq. split; [done|]. cbn. split; [done|]. rewrite hits_app. split.
  - intros Hb. specialize (Hrem ltac:(lia)). rewrite Hex; lia.
  - intros H0. destruct (Hpos H0) as [_ Hp0]. specialize (Hp0 eq_refl).
    destruct (Hp ltac:(lia)) as [? Hm]. split; [lia|]. destruct marked'; [by intros _; apply Hm|done].
Qed.

(** The entry after a section that went over [l1] and kept [kept] of it. *)
Lemma section_places k i pre l1 l2 kept log (marked : bool) (c nr' : Z) :
  NoDup (pre ++ l1 ++ l2) -> log.*1 = ents l1 ->
  (marked = false -> l2 = [] \/ 0 < hits log /\ nr' = 0) ->
  Ent i ∈ pre ++ kept ++ (if marked then Mark k :: l2 else l2) ->
  c = 0 /\ Ent i ∈ l1 ++ l2 \/ c = 1 /\ Ent i ∈ pre ->
  let q' := pre ++ kept ++ (if marked then Mark k :: l2 else l2) in
  if marked then
    c + calls_of i log = 0 /\ [Mark k; Ent i] `sublist_of` q' \/
    c + calls_of i log = 1 /\ [Ent i; Mark k] `sublist_of` q'
  else c + calls_of i log = 1 \/ nr' = 0 /\ 0 < hits log.
Proof.
  intros ND Hlog Hend Hi' Hwhere q'. apply list.NoDup_app in ND as (_ & Npre & ND).
  apply list.NoDup_app in ND as (N1 & N2 & _).
  assert (Hq : marked = true -> q' = (pre ++ kept) ++ Mark k :: l2) by (intros ->; unfold q'; by rewrite app_assoc).
  destruct (decide (Ent i ∈ l1)) as [H1|H1].
  - assert (calls_of i log = 1) as ->
      by (apply calls_once; rewrite Hlog; [by apply ents_NoDup|by apply ents_elem]).
    destruct Hwhere as [[-> _]|[_ Hpre]]; [|exfalso; apply (Npre (Ent i) Hpre); apply elem_of_app; by left].
    destruct marked; [|by left]. right. split; [done|]. rewrite Hq by done. apply pair_before; [|left].
    rewrite !elem_of_app, elem_of_cons in *. destruct Hi' as [?|[?|[?|?]]]; auto; [done|].
    exfalso. by apply (N2 (Ent i)).
  - assert (calls_of i log = 0) as -> by (apply calls_none; by rewrite Hlog, ents_elem).
    rewrite Z.add_0_r. destruct Hwhere as [[-> Hl]|[-> Hpre]].
    + apply elem_of_app in Hl as [Hl|Hl]; [done|]. destruct marked.
      * left. split; [done|]. rewrite Hq by done. apply sublist_inserts_l, sublist_skip. by apply singleton_sublist_l.
      * right. destruct (Hend eq_refl) as [->|[? ?]]; [inversion Hl|lia].
    + destruct marked; [|by left]. right. split; [done|]. rewrite Hq by done.
      apply pair_before; [apply elem_of_app; by left|left].
Qed.

Lemma round_tracks k i s :
  inv s -> tracks k i s -> Ent i ∈ s_queue s -> Ent i ∈ s_queue (wake_round s k) ->
  tracks k i (wake_round s k).
Proof.
  intros I T Hi. destruct (T) as (wk & Hwk & _). destruct (wk_done wk) eqn:Hd.
  { unfold wake_round. by rewrite Hwk, Hd. }
  destruct (tracks_start k i s wk I T Hi Hwk Hd) as (pre & l & Es & ND & Hwhere).
  unfold wake_round. rewrite Hwk, Hd. unfold __wake_up_common. rewrite Es.
  pose proof (wake_walk_spec (wk_mode wk) (wk_key wk) true k l (s_world s) (remaining wk) 0 pre) as W.
  destruct (wake_walk _ _ _ _ _ _ _ _ _) as [[[[w' q'] nr'] marked'] log].
  destruct W as [[(l1 & l2 & kept & -> & -> & _ & _ & Hlog & Hend & _) _ _] _]. cbn [s_queue]. intros Hi'.
  pose proof (section_places k i pre l1 l2 kept log marked' _ nr' ND Hlog Hend Hi' Hwhere) as P.
  eexists. cbn [s_walkers]. rewrite upd_eq. split; [done|]. cbn. rewrite hits_app, calls_app.
  assert (Hh : 0 <= hits (wk_log wk)) by (unfold hits; lia).
  destruct marked'; cbn; [exact P|]. destruct P as [P|[? ?]]; [by left|right; split; [done|lia]].
Qed.

(** The entry [i] is in the queue in every state of a run. *)
Fixpoint stays (i : Z) (s : sys) (es : list event) : Prop :=
  Ent i ∈ s_queue s /\ match es with [] => True | e :: es => stays i (step s e) es end.

Definition restarts (k : Z) (e : event) : bool := match e with Wake j _ _ _ => j =? k | _ => false end.

Lemma step_tracks k i s e :
  inv s -> enabled s e -> restarts k e = false -> tracks k i s ->
  Ent i ∈ s_queue s -> Ent i ∈ s_queue (step s e) -> tracks k i (step s e).
Proof.
  intros I He Hr T Hi Hi'. destruct (concerns k e) eqn:Hc.
  { destruct e; cbn in Hc, Hr; try congruence. assert (k0 = k) as -> by lia. by apply round_tracks. }
  destruct (step_other s e k I He Hc) as [Hw (j & Hj & O)]. destruct T as (wk & Hwk & T).
  exists wk. rewrite Hw. split; [done|]. destruct (wk_done wk); [done|].
  destruct (wk_marked wk) eqn:Hm; [|done].
  assert (Hmk : Mark k ∈ s_queue (step s e)).
  { apply (inv_marks _ (wq_step_inv s e I He)). exists wk. by rewrite Hw. }
  destruct T as [[Hc0 Hs]|[Hc0 Hs]]; [left|right]; (split; [done|]);
    (eapply ordered_pair; [apply I|exact O|congruence|congruence|done|done|done]).
Qed.

Lemma run_tracks k i es : forall s,
  inv s -> run_enabled s es -> Forall (fun e => restarts k e = false) es -> tracks k i s ->
  stays i s es -> tracks k i (run s es).
Proof.
  induction es as [|e es IH]; intros s I He Hr T Hs; [done|]. destruct He as [He Hes].
  apply Forall_cons_1 in Hr as [Hr Hrs]. destruct Hs as [Hi Hs]. apply IH; [by apply wq_step_inv|done|done| |done].
  apply step_tracks; try done. by destruct es; destruct Hs.
Qed.

Lemma step_counts k nr s e :
  inv s -> nr < two31 -> enabled s e -> restarts k e = false -> counts k nr s -> counts k nr (step s e).
Proof.
  intros I Hnr He Hr C. destruct (concerns k e) eqn:Hc.
  { destruct e; cbn in Hc, Hr; try congruence. assert (k0 = k) as -> by lia. by apply round_counts. }
  destruct (step_other s e k I He Hc) as [Hw _]. destruct C as (wk & Hwk & C). exists wk. by rewrite Hw.
Qed.

Lemma run_counts k nr es : forall s,
  inv s -> nr < two31 -> run_enabled s es -> Forall (fun e => restarts k e = false) es ->
  counts k nr s -> counts k nr (run s es) /\ inv (run s es).
Proof.
  induction es as [|e es IH]; intros s I Hnr He Hr C; [done|]. destruct He as [He Hes].
  apply Forall_cons_1 in Hr as [Hr Hrs]. apply IH; [by apply wq_step_inv|done|done|done|by apply step_counts].
Qed.

(** *** Walks that nobody disturbs end *)

Lemma split_mark_at k (a b : list node) : Mark k ∉ a -> split_mark k (a ++ Mark k :: b) = (a, b).
Proof.
  induction a as [|n a IH]; cbn; intros H.
  - by rewrite bool_decide_true.
  - apply not_elem_of_cons in H as [H1 H2]. rewrite bool_decide_false by congruence. by rewrite IH.
Qed.

(** The links a walk has still to go over. *)
Definition ahead (s : sys) (k : Z) (wk : walker) : list node :=
  (if wk_marked wk then split_mark k (s_queue s) else ([], s_queue s)).2.

Lemma round_ahead s k wk :
  inv s -> s_walkers s k = Some wk -> wk_done wk = false ->
  exists wk', s_walkers (wake_round s k) k = Some wk' /\
    (wk_done wk' = true \/ length (ahead (wake_round s k) k wk') < length (ahead s k wk))%nat.
Proof.
  intros I Hwk Hd. destruct (round_spec s k wk I Hwk Hd) as (w & q & nr & marked & log & E & Er & N & _ & _ & _).
  assert (Hm : true && wk_marked wk = true <-> Mark k ∈ s_queue s).
  { rewrite (inv_marks s I). cbn. split; [eauto|]. intros (wk' & E' & ?). by simplify_eq. }
  rewrite Er. eexists. cbn [s_walkers]. rewrite upd_eq. split; [done|]. cbn.
  destruct (section_start true (wk_marked wk) k (s_queue s) (inv_nodup s I) Hm) as (pre & l & Es & _ & Hk & _).
  unfold __wake_up_common in E. rewrite Es in E.
  pose proof (wake_walk_spec (wk_mode wk) (wk_key wk) true k l (s_world s) (remaining wk) 0 pre) as W.
  rewrite E in W. destruct W as [[(l1 & l2 & kept & -> & -> & Hkept & _ & Hlog & _ & Hn) _ _] _].
  destruct marked; [right|by left]. unfold ahead. cbn [wk_marked s_queue]. cbn [andb] in Es. rewrite Es.
  rewrite app_assoc, split_mark_at.
  - cbn. rewrite length_app. destruct l1; [|cbn; lia]. exfalso. apply (Hn eq_refl).
    by destruct log.
  - intros H. apply Hk. rewrite !elem_of_app in *. destruct H as [H|H]; [by left|].
    right. left. by eapply elem_of_sublist.
Qed.

Lemma walk_ends k n : forall s wk,
  inv s -> s_walkers s k = Some wk -> (length (ahead s k wk) < n)%nat ->
  exists wk', s_walkers (run s (replicate n (Walk k))) k = Some wk' /\ wk_done wk' = true.
Proof.
  assert (Hdone : forall m s wk, s_walkers s k = Some wk -> wk_done wk = true ->
    run s (replicate m (Walk k)) = s).
  { induction m as [|m IH]; intros s wk Hwk Hd; [done|]. cbn.
    assert (wake_round s k = s) as -> by (unfold wake_round; by rewrite Hwk, Hd).
    by apply (IH s wk). }
  induction n as [|n IH]; intros s wk I Hwk Hn; [lia|]. destruct (wk_done wk) eqn:Hd.
  { rewrite (Hdone (S n) s wk) by done. eauto. }
  destruct (round_ahead s k wk I Hwk Hd) as (wk' & Hwk' & [Hd'|Hlt]);
    change (run s (replicate (S n) (Walk k))) with (run (wake_round s k) (replicate n (Walk k))).
  - rewrite (Hdone n (wake_round s k) wk') by done. eauto.
  - apply (IH _ wk'); [by apply (wq_step_inv s (Walk k))|done|lia].
Qed.

(** The empty queue. *)
Definition boot (w : world) : sys := mk_sys w [] (fun _ => None).

Lemma boot_inv w : inv (boot w).
Proof.
  constructor; cbn; [constructor| |done]. intros k. split; [intros H; inversion H|].
  intros (wk & E & _). done.
Qed.

Lemma run_boot_inv es : forall s, inv s -> run_enabled s es -> inv (run s es).
Proof.
  induction es as [|e es IH]; intros s I He; [done|]. destruct He as [He Hes].
  apply IH; [by apply wq_step_inv|done].
Qed.

(** C20: A walk of [__wake_up] is exact, although it drops the lock and other wakers walk
    and entries come and go in between.  From any state of any history, when a walk for
    [nr] exclusive entries (none: all) is done, it returns the number of exclusive entries
    it has woken, which is at most [nr]; and if it has woken fewer, or was for all, then it
    has called the wake function of every entry that was in the queue from its start to
    its end, exactly once.  And a walk that is left alone is done after at most one round
    more than there are links in the queue. *)
Theorem wake_up_walk_exact w es0 es k mode nr key wk :
  let s0 := run (boot w) es0 in
  let s1 := step s0 (Wake k mode nr key) in
  let s2 := run s1 es in
  run_enabled (boot w) es0 -> run_enabled s0 (Wake k mode nr key :: es) ->
  Forall (fun e => restarts k e = false) es -> 0 <= nr < two31 ->
  s_walkers s2 k = Some wk -> wk_done wk = true -> Z.of_nat (length (wk_log wk)) < two31 ->
  nr_exclusive wk - remaining wk = hits (wk_log wk) /\
  (0 < nr -> hits (wk_log wk) <= nr) /\
  (forall i, stays i s1 es -> hits (wk_log wk) < nr \/ nr = 0 -> calls_of i (wk_log wk) = 1) /\
  exists wk', s_walkers (run s1 (replicate (S (length (s_queue s0))) (Walk k))) k = Some wk' /\
    wk_done wk' = true.
Proof.
  intros s0 s1 s2 H0 [He Hes] Hr Hnr Hwk Hd Hlen.
  assert (I0 : inv s0) by (apply run_boot_inv; [apply boot_inv|done]).
  assert (I1 : inv s1) by (by apply wq_step_inv).
  assert (C1 : counts k nr s1).
  { exists (mk_walker mode key nr nr false false []). cbn. rewrite upd_eq.
    split; [done|]. split; [done|]. change (hits []) with 0. split; [lia|]. split; lia. }
  destruct (run_counts k nr es s1 I1 ltac:(lia) Hes Hr C1) as [(wk' & E & En & Hrem & Hpos) _].
  fold s2 in E. rewrite Hwk in E. injection E as <-.
  assert (Hh : 0 <= hits (wk_log wk) <= Z.of_nat (length (wk_log wk))).
  { unfold hits. pose proof (List.filter_length_le snd (wk_log wk)). lia. }
  specialize (Hrem ltac:(lia)). split; [lia|]. split; [intros Hp; destruct (Hpos Hp); lia|].
  split; [|eapply walk_ends; [exact I1|cbn; by rewrite upd_eq|cbn; lia]].
  intros i Hi Hor.
  assert (T1 : tracks k i s1).
  { exists (mk_walker mode key nr nr false false []). cbn. by rewrite upd_eq. }
  destruct (run_tracks k i es s1 I1 Hes Hr T1 Hi) as (wk' & E & T). fold s2 in E.
  rewrite Hwk in E. injection E as <-. rewrite Hd in T. destruct T as [T|[? ?]]; [done|lia].
Qed.

(** ** No wakeup is lost *)

Definition plain (w : world) : Prop := forall i, entries w i = mk_entry 0 i autoremove_wake.

Definition wakes (mode : Z) (w : world) (i : Z) : bool := z2b (Z.land (tstate w i) mode).

Lemma plain_call w i mode key :
  plain w ->
  call_func w i mode key =
    if wakes mode w i then (set_tstate w i TASK_RUNNING, 1, true) else (w, 0, false).
Proof.
  intros P. unfold call_func, autoremove_wake_function, default_wake_function, wakes. rewrite P. cbn.
  by destruct (z2b _).
Qed.

Lemma plain_call_wakes w i mode key :
  plain w ->
  exists w1 ret removed, call_func w i mode key = (w1, ret, removed) /\ 0 <= ret /\
    plain w1 /\ wakes mode w1 i = false /\
    (forall j, tstate w1 j = tstate w j \/ tstate w1 j = TASK_RUNNING) /\
    (removed = true -> tstate w1 i = TASK_RUNNING).
Proof.
  intros P. rewrite (plain_call w i mode key P). destruct (wakes mode w i) eqn:Ew.
  - eexists _, _, _. split; [done|]. split; [done|]. split; [done|]. unfold wakes. cbn. rewrite upd_eq.
    split; [done|]. split; [|done]. intros j. unfold upd. destruct (j =? i); auto.
  - eexists _, _, _. split; [done|]. split; [done|]. split; [done|]. split; [done|]. split; [by left|done].
Qed.

(** The only link that a step of a walk can drop is the one it has called. *)
Lemma dropped_is_called (removed : bool) i x (pre next q : list node) :
  (forall n, n ∈ (if removed then pre else pre ++ [Ent i]) ++ next -> n ∈ q) ->
  Ent x ∈ pre ++ Ent i :: next -> Ent x ∉ q -> x = i /\ removed = true.
Proof.
  intros Hsub Hx Hnx. rewrite elem_of_app, elem_of_cons in Hx.
  destruct (decide (x = i /\ removed = true)) as [|Hd]; [done|]. exfalso. apply Hnx, Hsub.
  rewrite elem_of_app. destruct Hx as [Hx|[Hx|Hx]]; [left|left|by right].
  - destruct removed; [done|apply elem_of_app; by left].
  - injection Hx as ->. destruct removed; [by exfalso; apply Hd|apply elem_of_app; right; left].
Qed.

(** A section wakes the tasks it calls and removes only those. *)
Lemma plain_walk mode key bm k l : forall w nr cnt pre,
  plain w ->
  let '(w', q', nr', marked, log) := wake_walk w mode key bm k nr cnt pre l in
  plain w' /\ hits log = 0 /\ (forall i, i ∈ log.*1 -> wakes mode w' i = false) /\
  (forall i, tstate w' i = tstate w i \/ tstate w' i = TASK_RUNNING) /\
  (forall i, Ent i ∈ pre ++ l -> Ent i ∉ q' -> tstate w' i = TASK_RUNNING).
Proof.
  induction l as [|[i|j] next IH]; intros w nr cnt pre P; cbn [wake_walk].
  - split; [done|]. split; [done|]. split; [intros i H; inversion H|]. split; [by left|].
    intros i. rewrite app_nil_r. done.
  - assert (Ex : has_flag w i WQ_FLAG_EXCLUSIVE = false) by (unfold has_flag; by rewrite P).
    destruct (plain_call_wakes w i mode key P) as (w1 & ret & removed & -> & Hret & P1 & Hw1 & Hst1 & Hrem).
    destruct (Z.ltb_spec ret 0); [lia|]. rewrite Ex, andb_false_r. cbn [andb].
    pose proof (fun q x => dropped_is_called removed i x pre next q) as Hq.
    destruct (bm && _ && _).
    + split; [done|]. split; [done|]. split; [intros x Hx; apply list_elem_of_singleton in Hx; by subst x|].
      split; [done|]. intros x Hx Hnx. eapply Hq in Hx as [-> ?]; [auto| |exact Hnx].
      intros n Hn. rewrite elem_of_app, elem_of_cons. apply elem_of_app in Hn. tauto.
    + specialize (IH w1 nr (cnt + 1) (if removed then pre else pre ++ [Ent i]) P1).
      destruct (wake_walk w1 mode key bm k nr (cnt + 1) _ next) as [[[[w2 q2] nr2] m2] log2].
      destruct IH as (P2 & Hh & Hl & Hst2 & Hq2).
      assert (Hi2 : wakes mode w2 i = false).
      { unfold wakes in *. destruct (Hst2 i) as [-> | ->]; done. }
      split; [done|]. split; [by rewrite hits_cons|]. split.
      { intros x [->|Hx]%elem_of_cons; [done|auto]. }
      split; [intros x; destruct (Hst2 x) as [-> | ->]; auto|].
      intros x Hx Hnx. destruct (decide (Ent x ∈ (if removed then pre else pre ++ [Ent i]) ++ next)) as [Hd|Hd];
        [by apply Hq2|].
      destruct (Hq _ x (fun n H => H) Hx Hd) as [-> ->]. destruct (Hst2 i) as [-> | ->]; auto.
  - specialize (IH w nr cnt (pre ++ [Mark j]) P).
    destruct (wake_walk w mode key bm k nr cnt (pre ++ [Mark j]) next) as [[[[w2 q2] nr2] m2] log2].
    destruct IH as (P2 & Hh & Hl & Hst2 & Hq2). do 4 (split; [done|]).
    intros x Hx. apply Hq2. rewrite <- app_assoc. exact Hx.
Qed.

(** An entry that a walk has still to reach stays ahead of it while it is queued. *)
Lemma ahead_marked s k wk x :
  inv s -> s_walkers s k = Some wk -> wk_marked wk = true ->
  Ent x ∈ ahead s k wk <-> [Mark k; Ent x] `sublist_of` s_queue s.
Proof.
  intros I Hwk Hm. unfold ahead. rewrite Hm.
  destruct (split_mark_spec k (s_queue s)) as (a & b & -> & Eq); [apply (inv_marks s I); eauto|]. cbn.
  pose proof (inv_nodup s I) as ND. rewrite Eq in *. split; [|by apply after_mark].
  intros H. apply sublist_inserts_l, sublist_skip. by apply singleton_sublist_l.
Qed.

Lemma ahead_step s e k wk x :
  inv s -> enabled s e -> concerns k e = false -> s_walkers s k = Some wk ->
  Ent x ∈ ahead s k wk -> Ent x ∈ s_queue (step s e) -> Ent x ∈ ahead (step s e) k wk.
Proof.
  intros I He Hc Hwk Hx Hx'. destruct (step_other s e k I He Hc) as [Hw (j & Hj & O)].
  destruct (wk_marked wk) eqn:Hm.
  - assert (I' := wq_step_inv s e I He).
    assert (Mark k ∈ s_queue (step s e)) by (apply (inv_marks _ I'); exists wk; by rewrite Hw).
    apply (ahead_marked _ k wk x I'); [by rewrite Hw|done|]. apply (ahead_marked s k wk x I) in Hx; [|done|done].
    eapply ordered_pair; [apply I|exact O|congruence|congruence|done|done|done].
  - unfold ahead. by rewrite Hm.
Qed.

(** A task that is not in [TASK_RUNNING] is in the queue and in the loop, in the state it
    waits in; and a walk that started with the condition true has all tasks that
    sleep still before it. *)
Definition holds_state (p : wait_point) : option Z :=
  match p with
  | Test st int => if z2b int then None else Some st
  | Asleep st | Leave st => Some st
  | _ => None
  end.

Record winv (b : wsys) : Prop := {
  wi_inv : inv (b_sys b);
  wi_plain : plain (s_world (b_sys b));
  wi_state : forall i, tstate (s_world (b_sys b)) i = TASK_RUNNING \/
    holds_state (b_point b i) = Some (tstate (s_world (b_sys b)) i);
  wi_queued : forall i, tstate (s_world (b_sys b)) i <> TASK_RUNNING -> Ent i ∈ s_queue (b_sys b);
  wi_walk : forall k wk, s_walkers (b_sys b) k = Some wk -> b_after b k = true ->
    b_cond b = true /\
    forall i st, b_point b i = Asleep st -> wakes (wk_mode wk) (s_world (b_sys b)) i = true ->
      wk_done wk = false /\ Ent i ∈ ahead (b_sys b) k wk
}.

Lemma wakes_state mode w i : wakes mode w i = true -> tstate w i <> TASK_RUNNING.
Proof. unfold wakes. intros H E. by rewrite E in H. Qed.

(** A step that starts no walk and takes no round: it is enough to look at the states and
    points. *)
Lemma winv_step b e cond point :
  winv b -> enabled (b_sys b) e -> (forall k, concerns k e = false) ->
  let s' := step (b_sys b) e in
  plain (s_world s') ->
  (forall i, tstate (s_world s') i = TASK_RUNNING \/
     holds_state (point i) = Some (tstate (s_world s') i)) ->
  (forall i, tstate (s_world s') i <> TASK_RUNNING -> Ent i ∈ s_queue s') ->
  (b_cond b = true -> cond = true) ->
  (forall i st, point i = Asleep st -> b_cond b = true ->
     b_point b i = Asleep st /\
     (tstate (s_world s') i = tstate (s_world (b_sys b)) i \/ tstate (s_world s') i = TASK_RUNNING)) ->
  winv (mk_wsys s' cond point (b_after b)).
Proof.
  intros W He Hc s' P A Q Hcond Hp. constructor; cbn; [apply wq_step_inv; [apply W|done]|done|done|done|].
  intros k wk Hwk Ha. destruct (step_other (b_sys b) e k (wi_inv b W) He (Hc k)) as [Hw _]. fold s' in Hw.
  rewrite Hw in Hwk. destruct (wi_walk b W k wk Hwk Ha) as [Hb Hs]. split; [auto|].
  intros i st Hi Hwakes. destruct (Hp i st Hi Hb) as [Hi' [E|E]]; [|by apply wakes_state in Hwakes].
  assert (wakes (wk_mode wk) (s_world (b_sys b)) i = true) as Hwakes' by (unfold wakes in *; by rewrite <- E).
  destruct (Hs i st Hi' Hwakes') as [? ?]. split; [done|].
  apply ahead_step; [apply W|done|done|done|done|]. apply Q. by eapply wakes_state.
Qed.

Lemma winv_boot : winv wboot.
Proof. constructor; [apply boot_inv|done|by left|done|done]. Qed.

Lemma winv_wake b k mode nr :
  winv b -> enabled (b_sys b) (Wake k mode nr (0, 0)) ->
  winv (mk_wsys (step (b_sys b) (Wake k mode nr (0, 0))) (b_cond b) (b_point b)
          (upd (b_after b) k (b_cond b))).
Proof.
  intros W He. constructor; cbn [b_sys b_cond b_point b_after];
    [apply wq_step_inv; [apply W|done]|apply W|apply W|apply W|].
  intros k' wk Hwk Ha. cbn in Hwk. unfold upd in Hwk, Ha. destruct (Z.eqb_spec k' k) as [->|Hne].
  - injection Hwk as <-. split; [done|]. intros i st _ Hw. split; [done|]. cbn.
    apply (wi_queued b W). by eapply wakes_state.
  - destruct (wi_walk b W k' wk Hwk Ha) as [? Hs]. split; [done|]. exact Hs.
Qed.

(** What a round does to the tasks and to the walk itself. *)
Lemma round_plain s k wk :
  inv s -> plain (s_world s) -> s_walkers s k = Some wk -> wk_done wk = false ->
  let s' := wake_round s k in
  plain (s_world s') /\
  (forall i, tstate (s_world s') i = tstate (s_world s) i \/ tstate (s_world s') i = TASK_RUNNING) /\
  (forall i, Ent i ∈ s_queue s -> Ent i ∉ s_queue s' -> tstate (s_world s') i = TASK_RUNNING) /\
  exists wk', s_walkers s' k = Some wk' /\ wk_mode wk' = wk_mode wk /\
    forall i, Ent i ∈ ahead s k wk -> wakes (wk_mode wk) (s_world s') i = true ->
      wk_done wk' = false /\ Ent i ∈ ahead s' k wk'.
Proof.
  intros I P Hwk Hd. destruct (round_spec s k wk I Hwk Hd) as (w & q & nr & marked & log & E & Er & N & _).
  assert (Hm : true && wk_marked wk = true <-> Mark k ∈ s_queue s).
  { rewrite (inv_marks s I). cbn. split; [eauto|]. intros (wk' & E' & ?). by simplify_eq. }
  destruct (section_start true (wk_marked wk) k (s_queue s) (inv_nodup s I) Hm) as (pre & l & Es & _ & Hk & Hall).
  unfold __wake_up_common in E. rewrite Es in E.
  pose proof (wake_walk_spec (wk_mode wk) (wk_key wk) true k l (s_world s) (remaining wk) 0 pre) as W.
  pose proof (plain_walk (wk_mode wk) (wk_key wk) true k l (s_world s) (remaining wk) 0 pre P) as V.
  rewrite E in W, V. destruct V as (P' & Hh & Hl & Hst & Hq). cbv zeta. rewrite Er. cbn [s_world s_queue s_walkers].
  split; [done|]. split; [done|]. split; [intros i Hi; apply Hq, Hall; [done|exact Hi]|].
  eexists. rewrite upd_eq. split; [done|]. split; [done|]. cbn [wk_done].
  destruct W as [[(l1 & l2 & kept & -> & -> & Hkept & _ & Hlog & Hend & _) _ _] _].
  intros i Hi Hw. assert (Hi2 : Ent i ∈ l2).
  { unfold ahead in Hi. cbn [andb] in Es. rewrite Es in Hi. cbn in Hi. apply elem_of_app in Hi as [Hi|Hi]; [|done].
    exfalso. rewrite (Hl i) in Hw; [done|]. rewrite Hlog. by apply ents_elem. }
  destruct marked; [|destruct (Hend eq_refl) as [->|[? _]]; [inversion Hi2|lia]].
  split; [done|]. unfold ahead. cbn [wk_marked s_queue]. rewrite app_assoc, split_mark_at; [done|].
  intros H. apply Hk. rewrite !elem_of_app in *. destruct H as [H|H]; [by left|]. right. left. by eapply elem_of_sublist.
Qed.

Lemma winv_round b k :
  winv b -> winv (mk_wsys (wake_round (b_sys b) k) (b_cond b) (b_point b) (b_after b)).
Proof.
  intros W. destruct (s_walkers (b_sys b) k) as [wk|] eqn:Hwk.
  2: { assert (wake_round (b_sys b) k = b_sys b) as -> by (unfold wake_round; by rewrite Hwk). by destruct b. }
  destruct (wk_done wk) eqn:Hd.
  { assert (wake_round (b_sys b) k = b_sys b) as -> by (unfold wake_round; by rewrite Hwk, Hd). by destruct b. }
  destruct (round_plain (b_sys b) k wk (wi_inv b W) (wi_plain b W) Hwk Hd)
    as (P & Hst & Hq & wk' & Hwk' & Emode & Hahead).
  assert (Q : forall i, tstate (s_world (wake_round (b_sys b) k)) i <> TASK_RUNNING ->
    Ent i ∈ s_queue (wake_round (b_sys b) k)).
  { intros i Hi. destruct (Hst i) as [E|E]; [|done]. rewrite E in Hi.
    destruct (decide (Ent i ∈ s_queue (wake_round (b_sys b) k))) as [|Hn]; [done|].
    exfalso. apply Hi. rewrite <- E. apply Hq; [by apply W|done]. }
  constructor; cbn; [by apply (wq_step_inv (b_sys b) (Walk k)); [apply W|]|done| |done|].
  { intros i. destruct (Hst i) as [->|]; [by apply (wi_state b W)|by left]. }
  intros j wkj Hj Ha.
  assert (Hback : forall mode i, wakes mode (s_world (wake_round (b_sys b) k)) i = true ->
    wakes mode (s_world (b_sys b)) i = true).
  { intros mode i Hw. destruct (Hst i) as [E|E]; [unfold wakes in *; by rewrite <- E|].
    by apply wakes_state in Hw. }
  destruct (Z.eq_dec j k) as [->|Hne].
  - rewrite Hwk' in Hj. injection Hj as <-. destruct (wi_walk b W k wk Hwk Ha) as [Hb Hs].
    split; [done|]. intros i st Hi Hw. rewrite Emode in Hw. apply Hahead; [|done].
    apply (Hs i st); [done|auto].
  - assert (Hc : concerns j (Walk k) = false) by (cbn; lia).
    destruct (step_other (b_sys b) (Walk k) j (wi_inv b W) Logic.I Hc) as [E _]. cbn [step] in E. rewrite E in Hj.
    destruct (wi_walk b W j wkj Hj Ha) as [Hb Hs]. split; [done|]. intros i st Hi Hw.
    destruct (Hs i st Hi (Hback _ _ Hw)) as [? ?]. split; [done|].
    apply (ahead_step (b_sys b) (Walk k) j wkj i); [apply W|done|done|done|done|].
    apply Q. by eapply wakes_state.
Qed.

Lemma step_env s : step s (Env (s_world s)) = s.
Proof. by destruct s. Qed.

(** A step that only moves points. *)
Lemma winv_move b cond point :
  winv b -> (b_cond b = true -> cond = true) ->
  (forall i, tstate (s_world (b_sys b)) i = TASK_RUNNING \/
     holds_state (point i) = Some (tstate (s_world (b_sys b)) i)) ->
  (forall i st, point i = Asleep st -> b_cond b = true -> b_point b i = Asleep st) ->
  winv (mk_wsys (b_sys b) cond point (b_after b)).
Proof.
  intros W Hc A Hp. pose proof (winv_step b (Env (s_world (b_sys b))) cond point W Logic.I (fun _ => eq_refl)) as H.
  rewrite step_env in H. apply H; [apply W|done|apply W|done|]. intros i st Hi Hb. auto.
Qed.

Lemma wstep_prep b i st signal :
  winv b -> b_point b i = Loop st ->
  winv (b_put b (prepare_to_wait_event (s_world (b_sys b)) (s_queue (b_sys b)) i st signal).1 i
          (Test st (prepare_to_wait_event (s_world (b_sys b)) (s_queue (b_sys b)) i st signal).2)).
Proof.
  intros W Hi. set (s := b_sys b) in *. assert (Pl : plain (s_world s)) by apply W.
  assert (Hrun : tstate (s_world s) i = TASK_RUNNING).
  { destruct (wi_state b W i) as [|E]; [done|]. by rewrite Hi in E. }
  apply (winv_step b (PrepareEvent i st signal)); try done; fold s; cbn [step put_queue s_world s_queue].
  - destruct signal; [apply W|]. intros j. cbn. apply (wi_plain b W).
  - intros j. unfold upd. unfold prepare_to_wait_event. destruct signal; cbn.
    + destruct (Z.eqb_spec j i) as [->|]; [by left|apply (wi_state b W)].
    + unfold set_tstate. cbn. rewrite (Pl i). cbn. unfold upd.
      destruct (Z.eqb_spec j i) as [->|]; [by right|apply (wi_state b W)].
  - intros j Hj. unfold prepare_to_wait_event in *. destruct signal; cbn in *.
    + unfold __remove_wait_queue. apply list_elem_of_filter. split; [|by apply (wi_queued b W)].
      intros E. injection E as ->. done.
    + unfold upd in Hj. rewrite (Pl i) in Hj. cbn in Hj.
      assert (Hin : Ent j ∈ s_queue s \/ j = i).
      { destruct (Z.eq_dec j i) as [|Hne]; [by right|left]. apply (wi_queued b W).
        apply Z.eqb_neq in Hne. by rewrite Hne in Hj. }
      destruct (negb (queued (s_queue s) i)) eqn:Eq.
      * assert (Hadd : forall q, q = __add_wait_queue_entry_tail (s_queue s) i \/
          q = __add_wait_queue (s_world s) (s_queue s) i -> Ent j ∈ q).
        { intros q [-> | ->].
          - apply elem_of_app. destruct Hin as [?| ->]; [by left|right; left].
          - destruct (add_wait_queue_at (s_world s) (s_queue s) i) as (u & v & E & ->). rewrite E in Hin.
            rewrite elem_of_app, elem_of_cons. rewrite elem_of_app in Hin. destruct Hin as [[?|?]| ->]; auto. }
        destruct (has_flag _ _ _); apply Hadd; auto.
      * destruct Hin as [|Eji]; [done|subst j]. unfold queued in Eq. apply negb_false_iff in Eq.
        by apply bool_decide_eq_true in Eq.
  - intros j st' Hj Hb. unfold upd in Hj. destruct (Z.eqb_spec j i) as [->|Hne]; [done|].
    split; [done|]. left. unfold prepare_to_wait_event. destruct signal; cbn; [done|].
    rewrite (Pl i). cbn. by rewrite upd_ne.
Qed.

Lemma wstep_out b i st :
  winv b -> b_point b i = Leave st ->
  winv (b_put b (finish_wait (s_world (b_sys b)) (s_queue (b_sys b)) i) i (Left 0)).
Proof.
  intros W Hi. set (s := b_sys b) in *. assert (Pl : plain (s_world s)) by apply W.
  apply (winv_step b (Finish i)); try done; fold s; cbn [step put_queue s_world s_queue finish_wait fst snd].
  - intros j. cbn. unfold upd. rewrite (Pl i). cbn.
    destruct (Z.eqb_spec j i) as [->|]; [by left|apply (wi_state b W)].
  - intros j. cbn. rewrite (Pl i). cbn. intros Hj. unfold upd in Hj.
    destruct (Z.eq_dec j i) as [->|Hne]; [by rewrite Z.eqb_refl in Hj|].
    assert (Hq : Ent j ∈ s_queue s).
    { apply (wi_queued b W). apply Z.eqb_neq in Hne. by rewrite Hne in Hj. }
    destruct (queued _ i); [|done]. apply list_elem_of_filter. split; [congruence|done].
  - intros j st' Hj Hb. unfold upd in Hj. destruct (Z.eqb_spec j i) as [->|Hne]; [done|].
    split; [done|]. left. cbn. rewrite (Pl i). cbn. by rewrite upd_ne.
Qed.

(** A change of the world that only sets [i] to [TASK_RUNNING], if anything. *)
Lemma wstep_env b w point :
  winv b -> plain w ->
  (forall j, tstate w j = tstate (s_world (b_sys b)) j \/ tstate w j = TASK_RUNNING) ->
  (forall j, tstate w j = TASK_RUNNING \/ holds_state (point j) = Some (tstate w j)) ->
  (forall j st, point j = Asleep st -> b_cond b = true -> b_point b j = Asleep st) ->
  winv (mk_wsys (put_queue (b_sys b) (w, s_queue (b_sys b))) (b_cond b) point (b_after b)).
Proof.
  intros W P Ht A Hp. apply (winv_step b (Env w)); try done; cbn.
  - intros j Hj. apply (wi_queued b W). destruct (Ht j) as [<-|E]; [done|by rewrite E in Hj].
  - intros j st Hj Hb. auto.
Qed.

Lemma wstep_inv b e : winv b -> winv (wstep b e).
Proof.
  intros W. destruct e as [i st|i sg|i|i|i|i| |k mode nr|k]; cbn [wstep].
  - assert (Hin : holds_state (b_point b i) = None ->
      winv (b_put b (init_wait_entry (s_world (b_sys b)) i i 0, s_queue (b_sys b)) i (Loop st))).
    { intros Hi. apply wstep_env; [done| |by left| |].
      - intros j. cbn. unfold upd. destruct (Z.eqb_spec j i) as [->|]; [done|apply (wi_plain b W)].
      - intros j. cbn. unfold upd. destruct (Z.eqb_spec j i) as [->|]; [|apply (wi_state b W)].
        destruct (wi_state b W i) as [|E]; [by left|congruence].
      - intros j st'. unfold upd. by destruct (j =? i). }
    destruct (b_point b i) eqn:Hi; try done; by apply Hin.
  - destruct (b_point b i) eqn:Hi; try done. pose proof (wstep_prep b i state sg W Hi) as H.
    by destruct (prepare_to_wait_event _ _ i state sg) as [[? ?] ?].
  - destruct (b_point b i) as [| |st int| | |] eqn:Hi; try done.
    assert (Hm : forall p, (p = Leave st \/ b_cond b = false /\ (p = Asleep st \/ z2b int = true)) ->
      winv (b_move b i p)).
    { intros p Hp. apply winv_move; [done|done| |].
      - intros j. unfold upd. destruct (Z.eqb_spec j i) as [->|]; [|apply (wi_state b W)].
        destruct (wi_state b W i) as [|E]; [by left|]. rewrite Hi in E. cbn in E.
        destruct Hp as [->|[_ [->|Ez]]]; [| |by rewrite Ez in E]; (destruct (z2b int); [done|by right]).
      - intros j st'. unfold upd. destruct (Z.eqb_spec j i) as [->|]; [|done]. intros -> Hb.
        destruct Hp as [?|[? _]]; congruence. }
    destruct (b_cond b) eqn:Hb; [apply Hm; by left|].
    destruct (wait_is_interruptible st && z2b int) eqn:Ei; apply Hm; right; (split; [done|]); [|by left].
    apply andb_prop in Ei as [_ ?]. by right.
  - destruct (b_point b i) eqn:Hi; try done. destruct (Z.eqb_spec (tstate (s_world (b_sys b)) i) TASK_RUNNING) as [E|]; [|done].
    apply winv_move; [done|done| |].
    + intros j. unfold upd. destruct (Z.eqb_spec j i) as [->|]; [by left|apply (wi_state b W)].
    + intros j st'. unfold upd. by destruct (j =? i).
  - apply wstep_env; [done|apply W| | |done].
    + intros j. cbn. unfold upd. destruct (j =? i); auto.
    + intros j. cbn. unfold upd. destruct (j =? i); [by left|apply (wi_state b W)].
  - destruct (b_point b i) eqn:Hi; try done. by eapply wstep_out.
  - apply winv_move; [done|done|apply (wi_state b W)|done].
  - destruct (s_walkers (b_sys b) k) as [wk|] eqn:Hk.
    + destruct (wk_done wk) eqn:Hd; [|done]. apply winv_wake; [done|]. cbn. by rewrite Hk.
    + apply winv_wake; [done|]. cbn. by rewrite Hk.
  - by apply winv_round.
Qed.

Lemma wrun_inv es : forall b, winv b -> winv (wrun b es).
Proof. induction es as [|e es IH]; intros b W; [done|]. apply IH. by apply wstep_inv. Qed.

(** A runnable task that finds the condition true leaves the loop. *)
Lemma resumes b i st :
  winv b -> b_cond b = true -> b_point b i = Asleep st -> tstate (s_world (b_sys b)) i = TASK_RUNNING ->
  let b' := wrun b [Resume i; Prep i false; CondTest i; Out i] in
  b_point b' i = Left 0 /\ tstate (s_world (b_sys b')) i = TASK_RUNNING /\ Ent i ∉ s_queue (b_sys b').
Proof.
  intros W Hb Hi Hrun.
  assert (E : wrun b [Resume i; Prep i false; CondTest i] =
    b_move (wstep (b_move b i (Loop st)) (Prep i false)) i (Leave st)).
  { unfold wrun. cbn [fold_left]. assert (wstep b (Resume i) = b_move b i (Loop st)) as ->.
    { cbn. by rewrite Hi, Hrun. }
    assert (H2 : b_point (wstep (b_move b i (Loop st)) (Prep i false)) i = Test st 0 /\
      b_cond (wstep (b_move b i (Loop st)) (Prep i false)) = true).
    { cbn [wstep b_move b_point]. rewrite upd_eq. cbn. by rewrite upd_eq. }
    destruct H2 as [H2 H3]. set (b2 := wstep _ _) in *. cbn [wstep]. by rewrite H2, H3. }
  set (b3 := wrun b [Resume i; Prep i false; CondTest i]) in *.
  assert (W3 : winv b3) by (by apply wrun_inv).
  assert (Hp : b_point b3 i = Leave st) by (rewrite E; apply upd_eq).
  change (wrun b [Resume i; Prep i false; CondTest i; Out i]) with (wstep b3 (Out i)).
  clear E. clearbody b3. cbn [wstep]. rewrite Hp. cbn. rewrite (wi_plain b3 W3 i). cbn. rewrite !upd_eq. split; [done|]. split; [done|].
  destruct (queued (s_queue (b_sys b3)) i) eqn:Eq.
  - intros H. apply list_elem_of_filter in H as [H _]. done.
  - by apply bool_decide_eq_false in Eq.
Qed.

(** C21: [wait_event] loses no wakeup.  In every interleaving of any number of waiters and
    wakers, signals included, once a walk that started after the condition became true is
    done, no task that waits in a state the walk wakes sleeps: each is runnable, and when
    it runs it sees the condition, leaves the loop and is off the queue. *)
Theorem wait_event_no_lost_wakeup es k wk i st :
  let b := wrun wboot es in
  s_walkers (b_sys b) k = Some wk -> b_after b k = true -> wk_done wk = true ->
  b_point b i = Asleep st -> z2b (Z.land st (wk_mode wk)) = true ->
  tstate (s_world (b_sys b)) i = TASK_RUNNING /\
  let b' := wrun b [Resume i; Prep i false; CondTest i; Out i] in
  b_point b' i = Left 0 /\ tstate (s_world (b_sys b')) i = TASK_RUNNING /\ Ent i ∉ s_queue (b_sys b').
Proof.
  intros b Hwk Ha Hd Hi Hst. assert (W : winv b) by (apply wrun_inv, winv_boot).
  destruct (wi_walk b W k wk Hwk Ha) as [Hb Hs].
  assert (Hrun : tstate (s_world (b_sys b)) i = TASK_RUNNING).
  { destruct (wi_state b W i) as [|E]; [done|]. rewrite Hi in E. cbn in E. injection E as E.
    destruct (Hs i st Hi) as [? _]; [|congruence]. unfold wakes. by rewrite <- E. }
  split; [done|]. by apply (resumes b i st).
Qed.

(** *** [wait_woken] *)

Record woken_ok (mode : Z) (u : woken_sys) : Prop := {
  uo_state : u_state u = TASK_RUNNING \/ u_state u = mode;
  uo_now : u_trying u = false -> u_now_after u = false;
  uo_cond : u_now_after u || u_done_after u = true -> u_cond u = true;
  uo_flag : u_now_after u || u_done_after u = true ->
    u_point u = StoreA \/ u_point u = TestFlag -> u_woken u = true;
  uo_sleep : u_done_after u = true -> u_point u = Scheduled -> u_state u = TASK_RUNNING
}.

Lemma waiter_step_ok mode u stop : woken_ok mode u -> woken_ok mode (waiter_step mode u stop).
Proof.
  intros [H1 H2 H3 H4 H5]. unfold waiter_step. destruct (u_point u) eqn:Ep.
  - constructor; cbn; [by right|done|done|auto|done].
  - constructor; cbn; [done|done|done| |].
    + intros _. destruct (negb (u_woken u) && negb stop); intros [?|?]; done.
    + intros Hd. rewrite (H4 ltac:(by rewrite Hd, orb_true_r) ltac:(by right)). done.
  - destruct (Z.eqb_spec (u_state u) TASK_RUNNING).
    + constructor; cbn; [done|done|done| |done]. intros _ [?|?]; done.
    + constructor; try done; rewrite ?Ep; [intros _ [?|?]; done|done].
  - constructor; cbn; [by left|done|done|intros _ [?|?]; done|done].
  - constructor; cbn; [done|done|done|intros _ [?|?]; done|done].
  - constructor; cbn; [done|done|done| |].
    + intros Ha. rewrite (H3 Ha). intros [?|?]; done.
    + by destruct (u_cond u).
  - constructor; try done; rewrite ?Ep; [intros _ [?|?]; done|done].
Qed.

Lemma woken_step_ok mode wake_mode u e :
  z2b (Z.land mode wake_mode) = true -> woken_ok mode u -> woken_ok mode (woken_step mode wake_mode u e).
Proof.
  intros Hm W. destruct e as [stop| | | |]; cbn [woken_step]; [by apply waiter_step_ok|..];
    destruct W as [H1 H2 H3 H4 H5].
  - constructor; cbn; [by left|done|done|done|done].
  - constructor; cbn; [done|done|done|done|done].
  - destruct (u_trying u) eqn:Et; [constructor; rewrite ?Et; done|].
    constructor; cbn; [done|done| |done|done].
    intros Ha. destruct (u_cond u) eqn:Ec; [done|]. cbn in Ha. apply H3. by rewrite Ha, orb_true_r.
  - destruct (u_trying u) eqn:Et; [|constructor; rewrite ?Et; done].
    constructor; cbn; [|done|done|done|].
    + destruct (z2b (Z.land (u_state u) wake_mode)); auto.
    + intros _ _. destruct H1 as [-> | ->]; [done|]. by rewrite Hm.
Qed.

Lemma woken_run_ok mode wake_mode es :
  z2b (Z.land mode wake_mode) = true -> woken_ok mode (woken_run mode wake_mode es).
Proof.
  intros Hm. unfold woken_run. set (u := mk_woken _ _ _ _ _ _ _).
  assert (W : woken_ok mode u) by (constructor; cbn; try done; by left).
  clearbody u. revert u W. induction es as [|e es IH]; intros u W; [done|]. cbn. apply IH. by apply woken_step_ok.
Qed.

(** C23: [wait_woken] loses no wakeup.  In every interleaving of the accesses of the waiter
    with any number of wakeups whose mode meets its own, once a wakeup that began after the
    condition became true is complete, the waiter is not asleep, and no step of it will put
    it to sleep again: it sees the condition within five of its steps. *)
Theorem wait_woken_no_lost_wakeup mode wake_mode es :
  z2b (Z.land mode wake_mode) = true ->
  let u := woken_run mode wake_mode es in
  u_done_after u = true ->
  (u_point u = Scheduled -> u_state u = TASK_RUNNING) /\
  u_point (fold_left (woken_step mode wake_mode) (replicate 5 (Waiter false)) u) = Finished.
Proof.
  intros Hm u Hd. assert (W : woken_ok mode u) by (by apply woken_run_ok).
  clearbody u. destruct W as [H1 H2 H3 H4 H5].
  specialize (H3 ltac:(by rewrite Hd, orb_true_r)). specialize (H4 ltac:(by rewrite Hd, orb_true_r)).
  split; [by apply H5|]. destruct u as [c wo st p tr na da]. cbn in *. subst c da.
  destruct p; try done; [rewrite H4; [done|by left]|rewrite H4; [done|by right]|by rewrite H5].
Qed.

(** ** Witnesses *)

(** Seventy waiters sleep; a walk for all takes two rounds, and an exclusive waiter comes
    between them. *)
Definition asleep_world : world :=
  mk_world (fun i => mk_entry (if i =? 500 then 1 else 0) i default_wake) (fun _ => 2) (fun _ _ => false).
Definition crowd : list event := Add <$> seqZ 1 70.
Definition two_rounds : list event := [Walk 0; AddExclusive 500; Remove 7; Walk 0].

#[export] Instance enabled_dec s e : Decision (enabled s e).
Proof. destruct e; cbn; try apply _. destruct (s_walkers s k); apply _. Defined.

#[export] Instance run_enabled_dec es : forall s, Decision (run_enabled s es).
Proof. induction es as [|e es IH]; intros s; cbn; apply _. Defined.

#[export] Instance stays_dec i es : forall s, Decision (stays i s es).
Proof. induction es as [|e es IH]; intros s; cbn; apply _. Defined.

Ltac decided := apply (bool_decide_unpack _); by vm_compute.

Definition woken_all : walker :=
  default (mk_walker 0 (0, 0) 0 0 false false [])
    (s_walkers (run (step (run (boot asleep_world) crowd) (Wake 0 3 0 (0, 0))) two_rounds) 0).

Lemma wake_up_walk_exact_witness :
  length (wk_log woken_all) = 71%nat /\ calls_of 3 (wk_log woken_all) = 1.
Proof.
  split; [by vm_compute|].
  apply (proj1 (proj2 (proj2 (wake_up_walk_exact asleep_world crowd two_rounds 0 3 0 (0, 0) woken_all
    ltac:(decided) ltac:(decided) ltac:(repeat constructor) ltac:(lia)
    ltac:(by vm_compute) ltac:(by vm_compute) ltac:(by vm_compute)))) 3).
  - decided.
  - by right.
Defined.

(** A waiter goes to sleep while another walk is in progress, then the condition becomes
    true and a second waker walks. *)
Definition two_wakers : list wevent :=
  [WakeUp 1 3 1; Begin 5 2; Prep 5 false; Round 1; Begin 6 1; Resume 5; CondTest 5; Prep 6 true;
   CondTest 6; Begin 6 2; Prep 6 false; CondTest 6; Other 5; Resume 5; Prep 5 false; CondTest 5;
   SetCond; WakeUp 2 3 1; Round 2].

Lemma wait_event_no_lost_wakeup_witness :
  let b := wrun wboot two_wakers in
  b_point b 6 = Asleep 2 /\ tstate (s_world (b_sys b)) 6 = TASK_RUNNING.
Proof.
  split; [by vm_compute|].
  apply (wait_event_no_lost_wakeup two_wakers 2
    (default (mk_walker 0 (0, 0) 0 0 false false []) (s_walkers (b_sys (wrun wboot two_wakers)) 2)) 6 2);
    by vm_compute.
Defined.

(** The waiter is asleep when the wakeup comes. *)
Lemma wait_woken_no_lost_wakeup_witness :
  u_point (woken_run 1 3 [Waiter false; Waiter false; Waiter false; Condition; StoreWoken; TryWake]) = Scheduled /\
  u_state (woken_run 1 3 [Waiter false; Waiter false; Waiter false; Condition; StoreWoken; TryWake]) = TASK_RUNNING.
Proof.
  split; [by vm_compute|].
  apply (proj1 (wait_woken_no_lost_wakeup 1 3
    [Waiter false; Waiter false; Waiter false; Condition; StoreWoken; TryWake] eq_refl eq_refl)); by vm_compute.
Defined.

End Waitq.
