(* ===== verification/FreqTable.v ===== *)
(** Frequency tables: [drivers/cpufreq/freq_table.c], the table searches of
    [include/linux/cpufreq.h] and the frequency resolution of
    [drivers/cpufreq/cpufreq.c].

    A table is an array of entries closed by an end marker; some entries are
    invalid, some inefficient.  The core sorts out at registration whether the
    valid entries are ascending, descending or unsorted, and picks a search for
    each case and for each of three relations (at or above, at or below, closest).
    The theorems show that all these searches compute the same specification. *)

From Stdlib Require Import ZArith Lia List Sorted.
From stdpp Require Import base list numbers option.
From S2P Require Import Prelude.

Module FreqTable.

Definition CPUFREQ_ENTRY_INVALID : Z := 4294967295.
Definition CPUFREQ_TABLE_END : Z := 4294967294.
Definition CPUFREQ_BOOST_FREQ : Z := 1.
Definition CPUFREQ_INEFFICIENT_FREQ : Z := 2.
Definition CPUFREQ_RELATION_L : Z := 0.
Definition CPUFREQ_RELATION_H : Z := 1.
Definition CPUFREQ_RELATION_C : Z := 2.
Definition CPUFREQ_RELATION_E : Z := 4.
Definition CPUFREQ_RELATION_LE : Z := Z.lor CPUFREQ_RELATION_L CPUFREQ_RELATION_E.

Definition EINVAL : Z := 22.
Definition ENOENT : Z := 2.
Definition ENODEV : Z := 19.

Record cpufreq_frequency_table := mk_entry {
  flags : Z;
  driver_data : Z;
  frequency : Z
}.

Inductive cpufreq_table_sorting :=
| CPUFREQ_TABLE_UNSORTED
| CPUFREQ_TABLE_SORTED_ASCENDING
| CPUFREQ_TABLE_SORTED_DESCENDING.

(** The fields of [struct cpufreq_policy] (and of [cpufreq_policy_data]) that the
    table code and the governor use. *)
Record cpufreq_policy := mk_policy {
  pmin : Z;
  pmax : Z;
  cur : Z;
  cpuinfo_min_freq : Z;
  cpuinfo_max_freq : Z;
  freq_table : option (list cpufreq_frequency_table);
  freq_table_sorted : cpufreq_table_sorting;
  efficiencies_available : bool;
  cached_resolved_idx : Z;
  cached_target_freq : Z
}.

Definition with_limits (p : cpufreq_policy) (lo hi : Z) : cpufreq_policy :=
  mk_policy lo hi (cur p) (cpuinfo_min_freq p) (cpuinfo_max_freq p) (freq_table p)
    (freq_table_sorted p) (efficiencies_available p) (cached_resolved_idx p)
    (cached_target_freq p).
Definition with_cpuinfo (p : cpufreq_policy) (lo hi : Z) : cpufreq_policy :=
  mk_policy (pmin p) (pmax p) (cur p) lo hi (freq_table p)
    (freq_table_sorted p) (efficiencies_available p) (cached_resolved_idx p)
    (cached_target_freq p).
Definition with_sorted (p : cpufreq_policy) (s : cpufreq_table_sorting) : cpufreq_policy :=
  mk_policy (pmin p) (pmax p) (cur p) (cpuinfo_min_freq p) (cpuinfo_max_freq p) (freq_table p)
    s (efficiencies_available p) (cached_resolved_idx p) (cached_target_freq p).
Definition with_table (p : cpufreq_policy) (t : list cpufreq_frequency_table) (eff : bool)
  : cpufreq_policy :=
  mk_policy (pmin p) (pmax p) (cur p) (cpuinfo_min_freq p) (cpuinfo_max_freq p) (Some t)
    (freq_table_sorted p) eff (cached_resolved_idx p) (cached_target_freq p).
Definition with_cached (p : cpufreq_policy) (idx target : Z) : cpufreq_policy :=
  mk_policy (pmin p) (pmax p) (cur p) (cpuinfo_min_freq p) (cpuinfo_max_freq p) (freq_table p)
    (freq_table_sorted p) (efficiencies_available p) idx target.

(** [clamp] of [minmax.h]. *)
Definition clamp (val lo hi : Z) : Z :=
  if hi <=? val then hi else if val <=? lo then lo else val.

(** ** The iteration macros *)

(** A loop body continues with a new state or leaves with a result. *)
Inductive flow (A R : Type) := Continue (a : A) | Leave (r : R).
Arguments Continue {A R} a.
Arguments Leave {A R} r.

(** [cpufreq_for_each_entry_idx] with the [continue] conditions of the derived
    macros as [skip].  At the end of the table the loop yields the index there and
    the state; an array without end marker is overrun, which is [None]. *)
Fixpoint for_each_entry_idx {A R} (skip : cpufreq_frequency_table -> bool)
    (body : cpufreq_frequency_table -> Z -> A -> flow A R)
    (pos : list cpufreq_frequency_table) (idx : Z) (a : A) : option (flow (Z * A) R) :=
  match pos with
  | [] => None
  | e :: pos =>
    if frequency e =? CPUFREQ_TABLE_END then Some (Continue (idx, a))
    else if skip e then for_each_entry_idx skip body pos (idx + 1) a
    else match body e idx a with
         | Continue a => for_each_entry_idx skip body pos (idx + 1) a
         | Leave r => Some (Leave r)
         end
  end.

Definition invalid (e : cpufreq_frequency_table) : bool :=
  frequency e =? CPUFREQ_ENTRY_INVALID.

(** The skipped entries of [cpufreq_for_each_efficient_entry_idx]. *)
Definition inefficient (efficiencies : bool) (e : cpufreq_frequency_table) : bool :=
  invalid e || (efficiencies && z2b (Z.land (flags e) CPUFREQ_INEFFICIENT_FREQ)).

(** The index a search loop ends with. *)
Definition found (r : option (flow (Z * Z) Z)) : option Z :=
  match r with
  | Some (Continue (_, best)) => Some best
  | Some (Leave idx) => Some idx
  | None => None
  end.

(** ** Searches in sorted tables *)

Definition cpufreq_table_find_index_al (table : list cpufreq_frequency_table)
    (target_freq : Z) (efficiencies : bool) : option Z :=
  found (for_each_entry_idx (inefficient efficiencies)
    (fun e idx best =>
       let freq := frequency e in
       if target_freq <=? freq then Leave idx else Continue idx)
    table 0 (-1)).

Definition cpufreq_table_find_index_dl (table : list cpufreq_frequency_table)
    (target_freq : Z) (efficiencies : bool) : option Z :=
  found (for_each_entry_idx (inefficient efficiencies)
    (fun e idx best =>
       let freq := frequency e in
       if freq =? target_freq then Leave idx
       else if target_freq <? freq then Continue idx
       else if best =? -1 then Leave idx
       else Leave best)
    table 0 (-1)).

Definition cpufreq_table_find_index_ah (table : list cpufreq_frequency_table)
    (target_freq : Z) (efficiencies : bool) : option Z :=
  found (for_each_entry_idx (inefficient efficiencies)
    (fun e idx best =>
       let freq := frequency e in
       if freq =? target_freq then Leave idx
       else if freq <? target_freq then Continue idx
       else if best =? -1 then Leave idx
       else Leave best)
    table 0 (-1)).

Definition cpufreq_table_find_index_dh (table : list cpufreq_frequency_table)
    (target_freq : Z) (efficiencies : bool) : option Z :=
  found (for_each_entry_idx (inefficient efficiencies)
    (fun e idx best =>
       let freq := frequency e in
       if freq <=? target_freq then Leave idx else Continue idx)
    table 0 (-1)).

(** [table[i].frequency]; the searches only index entries they have passed. *)
Definition freq_at (table : list cpufreq_frequency_table) (i : Z) : Z :=
  default 0 (frequency <$> aref table i).

Definition cpufreq_table_find_index_ac (table : list cpufreq_frequency_table)
    (target_freq : Z) (efficiencies : bool) : option Z :=
  found (for_each_entry_idx (inefficient efficiencies)
    (fun e idx best =>
       let freq := frequency e in
       if freq =? target_freq then Leave idx
       else if freq <? target_freq then Continue idx
       else if best =? -1 then Leave idx
       else if u32 (freq - target_freq) <? u32 (target_freq - freq_at table best) then Leave idx
       else Leave best)
    table 0 (-1)).

Definition cpufreq_table_find_index_dc (table : list cpufreq_frequency_table)
    (target_freq : Z) (efficiencies : bool) : option Z :=
  found (for_each_entry_idx (inefficient efficiencies)
    (fun e idx best =>
       let freq := frequency e in
       if freq =? target_freq then Leave idx
       else if target_freq <? freq then Continue idx
       else if best =? -1 then Leave idx
       else if u32 (target_freq - freq) <? u32 (freq_at table best - target_freq) then Leave idx
       else Leave best)
    table 0 (-1)).

Definition ascending (p : cpufreq_policy) : bool :=
  match freq_table_sorted p with CPUFREQ_TABLE_SORTED_ASCENDING => true | _ => false end.

Definition cpufreq_table_find_index_l (p : cpufreq_policy) (table : list cpufreq_frequency_table)
    (target_freq : Z) (efficiencies : bool) : option Z :=
  let target_freq := clamp target_freq (pmin p) (pmax p) in
  if ascending p then cpufreq_table_find_index_al table target_freq efficiencies
  else cpufreq_table_find_index_dl table target_freq efficiencies.

Definition cpufreq_table_find_index_h (p : cpufreq_policy) (table : list cpufreq_frequency_table)
    (target_freq : Z) (efficiencies : bool) : option Z :=
  let target_freq := clamp target_freq (pmin p) (pmax p) in
  if ascending p then cpufreq_table_find_index_ah table target_freq efficiencies
  else cpufreq_table_find_index_dh table target_freq efficiencies.

Definition cpufreq_table_find_index_c (p : cpufreq_policy) (table : list cpufreq_frequency_table)
    (target_freq : Z) (efficiencies : bool) : option Z :=
  let target_freq := clamp target_freq (pmin p) (pmax p) in
  if ascending p then cpufreq_table_find_index_ac table target_freq efficiencies
  else cpufreq_table_find_index_dc table target_freq efficiencies.

(** ** Search in an unsorted table *)

(** [abs] of an [unsigned int] expression: the value as [int]. *)
Definition abs_diff (x y : Z) : Z := Z.abs (s32 (x - y)).

(** [optimal] and [suboptimal]: the [frequency] and [driver_data] of both. *)
Record candidates := mk_cands { opt_f : Z; opt_i : Z; sub_f : Z; sub_i : Z }.

Definition unsorted_init (relation : Z) : candidates :=
  if relation =? CPUFREQ_RELATION_H then mk_cands 0 4294967295 4294967295 4294967295
  else if (relation =? CPUFREQ_RELATION_L) || (relation =? CPUFREQ_RELATION_C)
  then mk_cands 4294967295 4294967295 0 4294967295
  else mk_cands 0 4294967295 0 4294967295.

Definition unsorted_body (p : cpufreq_policy) (table : list cpufreq_frequency_table)
    (target_freq relation : Z) (e : cpufreq_frequency_table) (i : Z) (c : candidates)
  : flow candidates Z :=
  let freq := frequency e in
  if (freq <? pmin p) || (pmax p <? freq) then Continue c
  else if freq =? target_freq then Leave i
  else if relation =? CPUFREQ_RELATION_H then
    if freq <? target_freq
    then Continue (if opt_f c <=? freq then mk_cands freq i (sub_f c) (sub_i c) else c)
    else Continue (if freq <=? sub_f c then mk_cands (opt_f c) (opt_i c) freq i else c)
  else if relation =? CPUFREQ_RELATION_L then
    if target_freq <? freq
    then Continue (if freq <=? opt_f c then mk_cands freq i (sub_f c) (sub_i c) else c)
    else Continue (if sub_f c <=? freq then mk_cands (opt_f c) (opt_i c) freq i else c)
  else if relation =? CPUFREQ_RELATION_C then
    let diff := abs_diff freq target_freq in
    Continue (if (diff <? opt_f c) ||
                 ((diff =? opt_f c) && (freq_at table (opt_i c) <? freq))
              then mk_cands diff i (sub_f c) (sub_i c) else c)
  else Continue c.

Definition cpufreq_table_index_unsorted (p : cpufreq_policy)
    (table : list cpufreq_frequency_table) (target_freq relation : Z) : option Z :=
  r ← for_each_entry_idx invalid (unsorted_body p table target_freq relation) table 0
        (unsorted_init relation);
  match r with
  | Leave i => Some i
  | Continue (i, c) =>
    if i <? opt_i c then
      if i <? sub_i c then Some 0 else Some (sub_i c)
    else Some (opt_i c)
  end.

(** ** The dispatcher and the resolution of a frequency *)

Definition sorted_search (p : cpufreq_policy) (table : list cpufreq_frequency_table)
    (target_freq relation : Z) (efficiencies : bool) : option (flow Z Z) :=
  if relation =? CPUFREQ_RELATION_L then
    Continue <$> cpufreq_table_find_index_l p table target_freq efficiencies
  else if relation =? CPUFREQ_RELATION_H then
    Continue <$> cpufreq_table_find_index_h p table target_freq efficiencies
  else if relation =? CPUFREQ_RELATION_C then
    Continue <$> cpufreq_table_find_index_c p table target_freq efficiencies
  else Some (Leave 0).

(** The [retry] label is reached at most once more, without [efficiencies]. *)
Definition cpufreq_frequency_table_target (p : cpufreq_policy)
    (table : list cpufreq_frequency_table) (target_freq relation : Z) : option Z :=
  let efficiencies := efficiencies_available p && z2b (Z.land relation CPUFREQ_RELATION_E) in
  let relation := Z.land relation (two32 - 1 - CPUFREQ_RELATION_E) in
  match freq_table_sorted p with
  | CPUFREQ_TABLE_UNSORTED => cpufreq_table_index_unsorted p table target_freq relation
  | _ =>
    r ← sorted_search p table target_freq relation efficiencies;
    match r with
    | Leave v => Some v
    | Continue idx =>
      if (idx <? 0) && efficiencies then
        r ← sorted_search p table target_freq relation false;
        match r with Leave v | Continue v => Some v end
      else Some idx
    end
  end.

(** An index of [-1] is converted to [unsigned int] and the access is out of
    bounds. *)
Definition __resolve_freq (p : cpufreq_policy) (target_freq relation : Z)
  : option (Z * cpufreq_policy) :=
  let target_freq := clamp target_freq (pmin p) (pmax p) in
  match freq_table p with
  | None => Some (target_freq, p)
  | Some table =>
    idx ← cpufreq_frequency_table_target p table target_freq relation;
    let idx := u32 idx in
    e ← aref table idx;
    Some (frequency e, with_cached p idx target_freq)
  end.

Definition cpufreq_driver_resolve_freq (p : cpufreq_policy) (target_freq : Z)
  : option (Z * cpufreq_policy) :=
  __resolve_freq p target_freq CPUFREQ_RELATION_LE.

(** ** Registration and verification *)

Definition policy_has_boost_freq (p : cpufreq_policy) : option bool :=
  match freq_table p with
  | None => Some false
  | Some table =>
    r ← for_each_entry_idx invalid
          (fun e _ (_ : unit) =>
             if z2b (Z.land (flags e) CPUFREQ_BOOST_FREQ) then Leave true else Continue tt)
          table 0 tt;
    match r with Leave b => Some b | Continue _ => Some false end
  end.

(** The result and the updated policy. *)
Definition cpufreq_frequency_table_cpuinfo (boost_enabled : bool) (p : cpufreq_policy)
    (table : list cpufreq_frequency_table) : option (Z * cpufreq_policy) :=
  r ← for_each_entry_idx (R := unit) invalid
        (fun e _ '(min_freq, max_freq) =>
           let freq := frequency e in
           if negb boost_enabled && z2b (Z.land (flags e) CPUFREQ_BOOST_FREQ)
           then Continue (min_freq, max_freq)
           else Continue (if freq <? min_freq then freq else min_freq,
                          if max_freq <? freq then freq else max_freq))
        table 0 (4294967295, 0);
  match r with
  | Leave _ => None
  | Continue (_, (min_freq, max_freq)) =>
    let p := with_cpuinfo p min_freq (cpuinfo_max_freq p) in
    let p := with_limits p min_freq max_freq in
    let p := if cpuinfo_max_freq p <? max_freq
             then with_limits (with_cpuinfo p min_freq max_freq) min_freq max_freq else p in
    Some (if pmin p =? 4294967295 then - EINVAL else 0, p)
  end.

Definition cpufreq_verify_within_limits (p : cpufreq_policy) (lo hi : Z) : cpufreq_policy :=
  let p := with_limits p (pmin p) (clamp (pmax p) lo hi) in
  with_limits p (clamp (pmin p) lo (pmax p)) (pmax p).

Definition cpufreq_verify_within_cpu_limits (p : cpufreq_policy) : cpufreq_policy :=
  cpufreq_verify_within_limits p (cpuinfo_min_freq p) (cpuinfo_max_freq p).

Definition cpufreq_frequency_table_verify (p : cpufreq_policy)
    (table : list cpufreq_frequency_table) : option cpufreq_policy :=
  let p := cpufreq_verify_within_cpu_limits p in
  r ← for_each_entry_idx invalid
        (fun e _ next_larger =>
           let freq := frequency e in
           if (pmin p <=? freq) && (freq <=? pmax p) then Leave tt
           else Continue (if (freq <? next_larger) && (pmax p <? freq)
                          then freq else next_larger))
        table 0 4294967295;
  match r with
  | Leave _ => Some p
  | Continue (_, next_larger) =>
    Some (cpufreq_verify_within_cpu_limits (with_limits p (pmin p) next_larger))
  end.

Definition cpufreq_generic_frequency_table_verify (p : cpufreq_policy)
  : option (Z * cpufreq_policy) :=
  match freq_table p with
  | None => Some (- ENODEV, p)
  | Some table => p ← cpufreq_frequency_table_verify p table; Some (0, p)
  end.

Definition cpufreq_frequency_table_get_index (p : cpufreq_policy) (freq : Z) : option Z :=
  match freq_table p with
  | None => Some (- ENOENT)
  | Some table =>
    r ← for_each_entry_idx invalid
          (fun e idx (_ : unit) => if frequency e =? freq then Leave idx else Continue tt)
          table 0 tt;
    match r with Leave idx => Some idx | Continue _ => Some (- EINVAL) end
  end.

Definition cpufreq_table_count_valid_entries (p : cpufreq_policy) : option Z :=
  match freq_table p with
  | None => Some 0
  | Some table =>
    r ← for_each_entry_idx (R := unit) invalid (fun _ _ count => Continue (count + 1)) table 0 0;
    match r with Leave _ => None | Continue (_, count) => Some count end
  end.

(** The state is the previous valid frequency and the balance of rises and
    falls. *)
Definition set_freq_table_sorted (p : cpufreq_policy) (table : list cpufreq_frequency_table)
  : option (Z * cpufreq_policy) :=
  let p := with_sorted p CPUFREQ_TABLE_UNSORTED in
  r ← for_each_entry_idx invalid
        (fun e _ '(prev, asc) =>
           let freq := frequency e in
           match prev with
           | None => Continue (Some freq, asc)
           | Some prev =>
             if freq =? prev then Leave (- EINVAL)
             else if prev <? freq then
               if asc <? 0 then Leave 0 else Continue (Some freq, asc + 1)
             else
               if 0 <? asc then Leave 0 else Continue (Some freq, asc - 1)
           end)
        table 0 (None, 0);
  match r with
  | Leave ret => Some (ret, p)
  | Continue (_, (_, asc)) =>
    Some (0, with_sorted p (if 0 <? asc then CPUFREQ_TABLE_SORTED_ASCENDING
                            else CPUFREQ_TABLE_SORTED_DESCENDING))
  end.

Definition cpufreq_table_validate_and_sort (boost_enabled has_target_index : bool)
    (p : cpufreq_policy) : option (Z * cpufreq_policy) :=
  match freq_table p with
  | None => Some (if has_target_index then - EINVAL else 0, p)
  | Some table =>
    '(ret, p) ← cpufreq_frequency_table_cpuinfo boost_enabled p table;
    if z2b ret then Some (ret, p) else set_freq_table_sorted p table
  end.

(** The loop of [cpufreq_table_set_inefficient], which stores into the entry it
    finds. *)
Fixpoint mark_inefficient (pos : list cpufreq_frequency_table) (freq : Z)
  : option (option (list cpufreq_frequency_table)) :=
  match pos with
  | [] => None
  | e :: pos =>
    if frequency e =? CPUFREQ_TABLE_END then Some None
    else if negb (invalid e) && (frequency e =? freq) then
      Some (Some (mk_entry (Z.lor (flags e) CPUFREQ_INEFFICIENT_FREQ) (driver_data e)
                    (frequency e) :: pos))
    else option_map (option_map (cons e)) (mark_inefficient pos freq)
  end.

Definition cpufreq_table_set_inefficient (p : cpufreq_policy)
    (table : list cpufreq_frequency_table) (freq : Z) : option (Z * cpufreq_policy) :=
  match freq_table_sorted p with
  | CPUFREQ_TABLE_UNSORTED => Some (- EINVAL, p)
  | _ =>
    r ← mark_inefficient table freq;
    match r with
    | Some table => Some (0, with_table p table true)
    | None => Some (- EINVAL, p)
    end
  end.

Definition LATENCY_MULTIPLIER : Z := 1000.

Definition cpufreq_policy_transition_delay_us (transition_delay_us transition_latency : Z) : Z :=
  if z2b transition_delay_us then transition_delay_us
  else
    let latency := transition_latency / 1000 in
    if z2b latency then Z.min (latency *u32 LATENCY_MULTIPLIER) 10000
    else LATENCY_MULTIPLIER.

(** ** The loop as a fold over the entries it visits *)

Notation slot := (Z * cpufreq_frequency_table)%type.
Definition freq (x : slot) : Z := frequency x.2.

(** The visited entries with their index, up to the end marker. *)
Fixpoint visited (skip : cpufreq_frequency_table -> bool)
    (pos : list cpufreq_frequency_table) (idx : Z) : list slot :=
  match pos with
  | [] => []
  | e :: pos =>
    if frequency e =? CPUFREQ_TABLE_END then []
    else if skip e then visited skip pos (idx + 1)
    else (idx, e) :: visited skip pos (idx + 1)
  end.

Definition closed (pos : list cpufreq_frequency_table) : Prop :=
  Exists (fun e => frequency e = CPUFREQ_TABLE_END) pos.

Fixpoint end_index (pos : list cpufreq_frequency_table) (idx : Z) : Z :=
  match pos with
  | [] => idx
  | e :: pos => if frequency e =? CPUFREQ_TABLE_END then idx else end_index pos (idx + 1)
  end.

Fixpoint run {A R} (body : cpufreq_frequency_table -> Z -> A -> flow A R)
    (l : list slot) (a : A) : flow A R :=
  match l with
  | [] => Continue a
  | (idx, e) :: l =>
    match body e idx a with
    | Continue a => run body l a
    | Leave r => Leave r
    end
  end.

Lemma for_each_run {A R} skip (body : cpufreq_frequency_table -> Z -> A -> flow A R) pos :
  closed pos -> forall idx a,
  for_each_entry_idx skip body pos idx a =
  Some (match run body (visited skip pos idx) a with
        | Continue a => Continue (end_index pos idx, a)
        | Leave r => Leave r
        end).
Proof.
  induction pos as [|e pos IH]; intros C idx a; [by inversion C|]. simpl.
  destruct (Z.eqb_spec (frequency e) CPUFREQ_TABLE_END) as [E|E]; [done|].
  assert (C' : closed pos) by (inversion C; subst; done).
  destruct (skip e); [by apply IH|]. simpl. destruct (body e idx a); [by apply IH|done].
Qed.

Lemma found_run skip body pos idx best :
  closed pos ->
  found (for_each_entry_idx skip body pos idx best) =
  Some (match run body (visited skip pos idx) best with Continue a => a | Leave r => r end).
Proof. intros C. rewrite for_each_run by done. by destruct (run _ _ _). Qed.

Lemma visited_spec skip pos : forall idx i e,
  (i, e) ∈ visited skip pos idx ->
  idx <= i /\ pos !! Z.to_nat (i - idx) = Some e /\ skip e = false /\
  frequency e <> CPUFREQ_TABLE_END /\ i < end_index pos idx.
Proof.
  induction pos as [|e0 pos IH]; intros idx i e H; simpl in *; [by apply not_elem_of_nil in H|].
  destruct (Z.eqb_spec (frequency e0) CPUFREQ_TABLE_END); [by apply not_elem_of_nil in H|].
  assert (Hend : forall p j, j <= end_index p j).
  { clear. induction p as [|e p IH]; intros j; simpl; [lia|].
    destruct (_ =? _); [lia|]. specialize (IH (j + 1)). lia. }
  assert (T : (i, e) ∈ visited skip pos (idx + 1) ->
    idx <= i /\ (e0 :: pos) !! Z.to_nat (i - idx) = Some e /\ skip e = false /\
    frequency e <> CPUFREQ_TABLE_END /\ i < end_index pos (idx + 1)).
  { intros H1. destruct (IH (idx + 1) i e H1) as (A & B & C). split_and!; try lia; try apply C.
    replace (Z.to_nat (i - idx)) with (S (Z.to_nat (i - (idx + 1)))) by lia. done. }
  destruct (skip e0) eqn:Es; [by apply T|].
  apply elem_of_cons in H as [[= <- <-]|H]; [|by apply T].
  specialize (Hend pos (i + 1)). rewrite Z.sub_diag. split_and!; try done; lia.
Qed.

Lemma visited_aref skip pos i e : (i, e) ∈ visited skip pos 0 -> aref pos i = Some e.
Proof.
  intros (A & B & _)%visited_spec. rewrite Z.sub_0_r in B. unfold aref.
  by destruct (Z.leb_spec 0 i); [|lia].
Qed.

(** A stricter filter visits a sublist. *)
Lemma visited_filter (f g : cpufreq_frequency_table -> bool) pos : forall idx,
  visited (fun e => f e || g e) pos idx =
  List.filter (fun x => negb (g x.2)) (visited f pos idx).
Proof.
  induction pos as [|e pos IH]; intros idx; simpl; [done|].
  destruct (_ =? _); [done|]. destruct (f e); simpl; [apply IH|].
  destruct (g e); simpl; [apply IH|by rewrite IH].
Qed.

(** ** What the three relations ask for *)

Section Relations.
Context (key : slot -> Z).

(** The least key at or above [t], or the greatest of all when there is none. *)
Definition lowest_above (t : Z) (V : list slot) (x : slot) : Prop :=
  x ∈ V /\
  ((t <= key x /\ forall y, y ∈ V -> t <= key y -> key x <= key y) \/
   (forall y, y ∈ V -> key y < t /\ key y <= key x)).

Definition highest_below (t : Z) (V : list slot) (x : slot) : Prop :=
  x ∈ V /\
  ((key x <= t /\ forall y, y ∈ V -> key y <= t -> key y <= key x) \/
   (forall y, y ∈ V -> t < key y /\ key x <= key y)).

Definition closest (t : Z) (V : list slot) (x : slot) : Prop :=
  x ∈ V /\ forall y, y ∈ V -> Z.abs (key x - t) <= Z.abs (key y - t).

Definition increasing (V : list slot) : Prop :=
  StronglySorted (fun x y => key x < key y) V.

Lemma increasing_mid pre x post :
  increasing (pre ++ x :: post) ->
  (forall y, y ∈ pre -> key y < key x) /\ (forall y, y ∈ post -> key x < key y).
Proof.
  unfold increasing. induction pre as [|z pre IH]; simpl; intros H.
  - apply StronglySorted_inv in H as [_ H]. rewrite Forall_elem in H.
    split; [intros y Hy; by apply not_elem_of_nil in Hy|done].
  - apply StronglySorted_inv in H as [H1 H2]. rewrite Forall_elem in H2.
    destruct (IH H1) as [A B]. split; [|done]. intros y [->|Hy]%elem_of_cons; [|by apply A].
    apply H2. apply elem_of_app. right. by left.
Qed.

(** Either every key is below [t] or there is a first that is not. *)
Lemma first_above t V :
  (forall y, y ∈ V -> key y < t) \/
  (exists pre x post, V = pre ++ x :: post /\ (forall y, y ∈ pre -> key y < t) /\ t <= key x).
Proof.
  induction V as [|z V IH]; [left; intros y Hy; by apply not_elem_of_nil in Hy|].
  destruct (Z.le_gt_cases t (key z)) as [Hz|Hz].
  - right. exists [], z, V. split_and!; [done| |done].
    intros y Hy. by apply not_elem_of_nil in Hy.
  - destruct IH as [IH|(pre & x & post & -> & A & B)].
    + left. intros y [->|Hy]%elem_of_cons; [lia|by apply IH].
    + right. exists (z :: pre), x, post. split_and!; [done| |done].
      intros y [->|Hy]%elem_of_cons; [lia|by apply A].
Qed.

Definition last_idx (pre : list slot) (best : Z) : Z := foldl (fun _ x => x.1) best pre.

Lemma last_idx_snoc pre x best : last_idx (pre ++ [x]) best = x.1.
Proof. unfold last_idx. by rewrite foldl_app. Qed.

Lemma run_prefix {R} (body : cpufreq_frequency_table -> Z -> Z -> flow Z R) pre rest :
  (forall x b, x ∈ pre -> body x.2 x.1 b = Continue x.1) -> forall b,
  run body (pre ++ rest) b = run body rest (last_idx pre b).
Proof.
  induction pre as [|[i e] pre IH]; intros H b; simpl; [done|].
  assert (E : body e i b = Continue i) by (apply (H (i, e)); by left). rewrite E. apply IH. intros x c Hx. apply H. by right.
Qed.

Lemma run_all {R} (body : cpufreq_frequency_table -> Z -> Z -> flow Z R) V b :
  (forall x b, x ∈ V -> body x.2 x.1 b = Continue x.1) -> run body V b = Continue (last_idx V b).
Proof. intros H. rewrite <- (app_nil_r V) at 1. by rewrite run_prefix. Qed.

Definition result (r : flow Z Z) : Z := match r with Continue a => a | Leave r => r end.

(** The searches stop at the first key that is not below the target. *)
Definition up_search (stop : slot -> Z -> Z) (t : Z) (e : cpufreq_frequency_table) (idx best : Z)
  : flow Z Z :=
  if key (idx, e) <? t then Continue idx else Leave (stop (idx, e) best).

(** What [stop] sees: the best so far is the last visited entry, or [-1]. *)
Definition prev_of (pre : list slot) (best : Z) : Prop :=
  pre = [] /\ best = -1 \/ exists pre' x, pre = pre' ++ [x] /\ best = x.1.

Lemma last_idx_prev pre : prev_of pre (last_idx pre (-1)).
Proof.
  destruct pre as [|z pre' _] using rev_ind; [by left|].
  right. exists pre', z. by rewrite last_idx_snoc.
Qed.

Lemma up_search_spec (P : slot -> Prop) stop t V :
  V <> [] -> increasing V ->
  (forall pre x, V = pre ++ [x] -> (forall y, y ∈ V -> key y < t) -> P x) ->
  (forall pre x post best, V = pre ++ x :: post -> (forall y, y ∈ pre -> key y < t) ->
     t <= key x -> prev_of pre best -> exists z, stop x best = z.1 /\ P z) ->
  exists z, result (run (up_search stop t) V (-1)) = z.1 /\ P z.
Proof.
  intros Hne Hs Hall Hmid.
  assert (B : forall pre : list slot, (forall y, y ∈ pre -> key y < t) -> forall x b, x ∈ pre ->
            up_search stop t x.2 x.1 b = Continue x.1).
  { intros pre Hpre [i e] b Hx. unfold up_search. simpl.
    by destruct (Z.ltb_spec (key (i, e)) t) as [|Hge]; [|specialize (Hpre _ Hx); lia]. }
  destruct (first_above t V) as [A|(pre & x & post & EV & A & Hx)].
  - rewrite run_all by (by apply B).
    destruct V as [|z V' _] using rev_ind; [done|]. exists z.
    rewrite last_idx_snoc. split; [done|]. by apply (Hall V').
  - rewrite EV, run_prefix by (by apply B). destruct x as [i e]. simpl. unfold up_search at 1.
    destruct (Z.ltb_spec (key (i, e)) t) as [Hlt|_]; [lia|]. simpl.
    apply (Hmid pre (i, e) post); try done. apply last_idx_prev.
Qed.

Lemma in_mid (pre : list slot) x post y :
  y ∈ pre ++ x :: post -> y ∈ pre \/ y = x \/ y ∈ post.
Proof. rewrite elem_of_app, elem_of_cons. tauto. Qed.

Lemma search_last_max t pre x :
  increasing (pre ++ [x]) -> (forall y, y ∈ pre ++ [x] -> key y < t) ->
  lowest_above t (pre ++ [x]) x /\ highest_below t (pre ++ [x]) x /\ closest t (pre ++ [x]) x.
Proof.
  intros Hs A. destruct (increasing_mid pre x [] Hs) as [B _].
  assert (In : x ∈ pre ++ [x]) by (apply elem_of_app; right; by left).
  assert (M : forall y, y ∈ pre ++ [x] -> key y <= key x).
  { intros y [Hy|[->|Hy]]%in_mid; [|done|by apply not_elem_of_nil in Hy].
    specialize (B y Hy). lia. }
  split_and!; split; try done.
  - right. intros y Hy. split; [by apply A|by apply M].
  - left. split; [specialize (A x In); lia|]. intros y Hy _. by apply M.
  - intros y Hy. specialize (A y Hy) as Ay. specialize (A x In). specialize (M y Hy). lia.
Qed.

Lemma up_lowest t V :
  V <> [] -> increasing V ->
  exists z, result (run (up_search (fun x _ => x.1) t) V (-1)) = z.1 /\ lowest_above t V z.
Proof.
  intros Hne Hs. apply up_search_spec; try done.
  - intros pre x -> A. by apply search_last_max.
  - intros pre x post best -> A Hx _. exists x. split; [done|].
    destruct (increasing_mid pre x post Hs) as [_ B].
    split; [apply elem_of_app; right; by left|]. left. split; [done|].
    intros y [Hy|[->|Hy]]%in_mid Ht; [specialize (A y Hy)|..|specialize (B y Hy)]; lia.
Qed.

(** What [best] is when the search stops behind the first entry. *)
Lemma prev_pred t pre x post best :
  (forall y, y ∈ pre ++ x :: post -> 0 <= y.1) -> increasing (pre ++ x :: post) ->
  (forall y, y ∈ pre -> key y < t) -> t < key x -> prev_of pre best ->
  (best = -1 /\ (forall y, y ∈ pre ++ x :: post -> key x <= key y)) \/
  (best <> -1 /\ exists w, best = w.1 /\ w ∈ pre ++ x :: post /\ key w < t /\
     (forall y, y ∈ pre ++ x :: post -> key y <= key w \/ key x <= key y)).
Proof.
  intros Hi Hs A Hx HP. destruct (increasing_mid pre x post Hs) as [B1 B2].
  destruct HP as [[-> ->]|(pre' & w & -> & ->)].
  - left. split; [done|].
    intros y [Hy|[->|Hy]]%in_mid; [by apply not_elem_of_nil in Hy|lia|specialize (B2 y Hy); lia].
  - right. rewrite <- app_assoc in *. simpl in *.
    assert (In : w ∈ pre' ++ w :: x :: post) by (apply elem_of_app; right; by left).
    split; [specialize (Hi w In); lia|]. exists w. split_and!; try done.
    { apply A. apply elem_of_app. right. by left. }
    destruct (increasing_mid pre' w (x :: post) Hs) as [C1 C2].
    intros y [Hy|[->|[->|Hy]%elem_of_cons]]%in_mid; try lia.
    + specialize (C1 y Hy). lia.
    + specialize (B2 y Hy). lia.
Qed.

Lemma up_highest t V :
  V <> [] -> increasing V -> (forall y, y ∈ V -> 0 <= y.1) ->
  exists z, result (run (up_search (fun x best =>
      if key x =? t then x.1 else if best =? -1 then x.1 else best) t) V (-1)) = z.1 /\
    highest_below t V z.
Proof.
  intros Hne Hs Hi. apply up_search_spec; try done.
  - intros pre x -> A. by apply search_last_max.
  - intros pre x post best -> A Hx HP.
    assert (In : x ∈ pre ++ x :: post) by (apply elem_of_app; right; by left).
    destruct (Z.eqb_spec (key x) t) as [E|E].
    { exists x. split; [done|]. split; [done|]. left. split; [lia|]. intros y Hy Ht. lia. }
    destruct (prev_pred t pre x post best) as [[-> B]|(Hb & w & -> & Hw & Hlt & B)]; try done; [lia| |].
    + exists x. split; [done|]. split; [done|]. right. intros y Hy. specialize (B y Hy). lia.
    + rewrite (proj2 (Z.eqb_neq _ _) Hb). exists w. split; [done|]. split; [done|]. left.
      split; [lia|]. intros y Hy Ht. destruct (B y Hy); lia.
Qed.

(** [far x best] compares the distances of the two neighbours. *)
Lemma up_closest far t V :
  V <> [] -> increasing V -> (forall y, y ∈ V -> 0 <= y.1) ->
  (forall x w, x ∈ V -> w ∈ V -> key w < t < key x ->
     far x w.1 = (key x - t <? t - key w)) ->
  exists z, result (run (up_search (fun x best =>
      if key x =? t then x.1 else if best =? -1 then x.1
      else if far x best : bool then x.1 else best) t) V (-1)) = z.1 /\
    closest t V z.
Proof.
  intros Hne Hs Hi Hf. apply up_search_spec; try done.
  - intros pre x -> A. by apply search_last_max.
  - intros pre x post best -> A Hx HP.
    assert (In : x ∈ pre ++ x :: post) by (apply elem_of_app; right; by left).
    destruct (Z.eqb_spec (key x) t) as [E|E].
    { exists x. split; [done|]. split; [done|]. intros y Hy. lia. }
    destruct (prev_pred t pre x post best) as [[-> B]|(Hb & w & -> & Hw & Hlt & B)]; try done; [lia| |].
    + exists x. split; [done|]. split; [done|]. intros y Hy. specialize (B y Hy). lia.
    + rewrite (proj2 (Z.eqb_neq _ _) Hb), Hf by (done || lia).
      destruct (Z.ltb_spec (key x - t) (t - key w)).
      * exists x. split; [done|]. split; [done|]. intros y Hy. destruct (B y Hy); lia.
      * exists w. split; [done|]. split; [done|]. intros y Hy. destruct (B y Hy); lia.
Qed.

End Relations.

(** ** The six searches *)

Definition neg (x : slot) : Z := - freq x.

Lemma neg_lowest t V x : highest_below neg (- t) V x -> lowest_above freq t V x.
Proof.
  unfold neg. intros [H [[A B]|B]]; split; try done; [left|right].
  - split; [lia|]. intros y Hy Ht. specialize (B y Hy). lia.
  - intros y Hy. specialize (B y Hy). lia.
Qed.

Lemma neg_highest t V x : lowest_above neg (- t) V x -> highest_below freq t V x.
Proof.
  unfold neg. intros [H [[A B]|B]]; split; try done; [left|right].
  - split; [lia|]. intros y Hy Ht. specialize (B y Hy). lia.
  - intros y Hy. specialize (B y Hy). lia.
Qed.

Lemma neg_closest t V x : closest neg (- t) V x -> closest freq t V x.
Proof. unfold neg. intros [H B]. split; [done|]. intros y Hy. specialize (B y Hy). lia. Qed.

Lemma run_ext {A R} (f g : cpufreq_frequency_table -> Z -> A -> flow A R) V a :
  (forall e i a, f e i a = g e i a) -> run f V a = run g V a.
Proof.
  intros H. revert a. induction V as [|[i e] V IH]; intros a; simpl; [done|].
  rewrite H. destruct (g e i a); [apply IH|done].
Qed.

(** A search loop is the upward search on one of the two keys. *)
Lemma found_up key stop t table eff body :
  closed table ->
  (forall e i b, body e i b = up_search key stop t e i b) ->
  found (for_each_entry_idx (inefficient eff) body table 0 (-1)) =
  Some (result (run (up_search key stop t) (visited (inefficient eff) table 0) (-1))).
Proof. intros C H. rewrite found_run by done. by rewrite (run_ext _ _ _ _ H). Qed.

Ltac up_body := intros e i b; unfold up_search, neg, freq; simpl; repeat zcase_step; done || lia.

Section Searches.
Context (table : list cpufreq_frequency_table) (eff : bool) (t : Z).
Let V := visited (inefficient eff) table 0.
Context (Hc : closed table) (Hne : V <> []).

Lemma index_nonneg y : y ∈ V -> 0 <= y.1.
Proof. destruct y as [i e]. by intros (H & _)%visited_spec. Qed.

Lemma freq_at_visited y : y ∈ V -> freq_at table y.1 = freq y.
Proof. destruct y as [i e]. intros H. unfold freq_at. simpl. by rewrite (visited_aref _ _ _ _ H). Qed.

Lemma find_al : increasing freq V ->
  exists x, cpufreq_table_find_index_al table t eff = Some x.1 /\ lowest_above freq t V x.
Proof.
  intros Hs. destruct (up_lowest freq t V Hne Hs) as (x & E & Hx). exists x. split; [|done].
  rewrite <- E. apply found_up; [done|up_body].
Qed.

Lemma find_dh : increasing neg V ->
  exists x, cpufreq_table_find_index_dh table t eff = Some x.1 /\ highest_below freq t V x.
Proof.
  intros Hs. destruct (up_lowest neg (- t) V Hne Hs) as (x & E & Hx). exists x.
  split; [|by apply neg_highest]. rewrite <- E. apply found_up; [done|up_body].
Qed.

Lemma find_ah : increasing freq V ->
  exists x, cpufreq_table_find_index_ah table t eff = Some x.1 /\ highest_below freq t V x.
Proof.
  intros Hs. destruct (up_highest freq t V Hne Hs index_nonneg) as (x & E & Hx). exists x.
  split; [|done]. rewrite <- E. apply found_up; [done|up_body].
Qed.

Lemma find_dl : increasing neg V ->
  exists x, cpufreq_table_find_index_dl table t eff = Some x.1 /\ lowest_above freq t V x.
Proof.
  intros Hs. destruct (up_highest neg (- t) V Hne Hs index_nonneg) as (x & E & Hx). exists x.
  split; [|by apply neg_lowest]. rewrite <- E. apply found_up; [done|up_body].
Qed.

Context (Hr : forall y, y ∈ V -> 0 <= freq y < two32).

Lemma find_ac : increasing freq V ->
  exists x, cpufreq_table_find_index_ac table t eff = Some x.1 /\ closest freq t V x.
Proof.
  intros Hs.
  destruct (up_closest freq (fun x b => u32 (freq x - t) <? u32 (t - freq_at table b)) t V
              Hne Hs index_nonneg) as (x & E & Hx).
  { intros x w Hx Hw H. rewrite freq_at_visited by done.
    pose proof (Hr x Hx). pose proof (Hr w Hw). by rewrite !u32_small by lia. }
  exists x. split; [|done]. rewrite <- E. apply found_up; [done|up_body].
Qed.

Lemma find_dc : increasing neg V ->
  exists x, cpufreq_table_find_index_dc table t eff = Some x.1 /\ closest freq t V x.
Proof.
  intros Hs.
  destruct (up_closest neg (fun x b => u32 (t - freq x) <? u32 (freq_at table b - t)) (- t) V
              Hne Hs index_nonneg) as (x & E & Hx).
  { intros x w Hx Hw H. rewrite freq_at_visited by done. unfold neg in *.
    pose proof (Hr x Hx). pose proof (Hr w Hw). rewrite !u32_small by lia. f_equal; lia. }
  exists x. split; [|by apply neg_closest]. rewrite <- E. apply found_up; [done|up_body].
Qed.

End Searches.

(** ** The sorting flag *)

Lemma increasing_snoc key V x :
  increasing key V -> (forall y, y ∈ V -> key y < key x) -> increasing key (V ++ [x]).
Proof.
  unfold increasing. induction V as [|z V IH]; simpl; intros H A.
  - constructor; [constructor|constructor].
  - apply StronglySorted_inv in H as [H1 H2]. constructor.
    + apply IH; [done|]. intros y Hy. apply A. by right.
    + apply Forall_elem. intros y [Hy|Hy]%elem_of_app.
      * rewrite Forall_elem in H2. by apply H2.
      * apply list_elem_of_singleton in Hy as ->. apply A. by left.
Qed.

Lemma increasing_step key V w x :
  increasing key (V ++ [w]) -> key w < key x -> increasing key ((V ++ [w]) ++ [x]).
Proof.
  intros H Hlt. apply increasing_snoc; [done|]. destruct (increasing_mid key V w [] H) as [A _].
  intros y Hy. apply elem_of_app in Hy as [Hy|Hy]; [specialize (A y Hy); lia|].
  by apply list_elem_of_singleton in Hy as ->.
Qed.

Lemma increasing_singleton key x : increasing key [x].
Proof. constructor; constructor. Qed.

(** The loop state after the entries [pre]. *)
Definition sort_state (pre : list slot) (st : option Z * Z) : Prop :=
  pre = [] /\ st = (None, 0) \/
  exists pre' w, pre = pre' ++ [w] /\ st.1 = Some (freq w) /\
    (0 <= st.2 -> increasing freq pre) /\ (st.2 <= 0 -> increasing neg pre).

Definition sort_body (e : cpufreq_frequency_table) (_ : Z) (st : option Z * Z)
  : flow (option Z * Z) Z :=
  let '(prev, asc) := st in
  match prev with
  | None => Continue (Some (frequency e), asc)
  | Some prev =>
    if frequency e =? prev then Leave (- EINVAL)
    else if prev <? frequency e then
      if asc <? 0 then Leave 0 else Continue (Some (frequency e), asc + 1)
    else
      if 0 <? asc then Leave 0 else Continue (Some (frequency e), asc - 1)
  end.

Lemma sort_run V : forall pre st st',
  sort_state pre st -> run sort_body V st = Continue st' -> sort_state (pre ++ V) st'.
Proof.
  induction V as [|[i e] V IH]; intros pre st st' S R; simpl in R.
  { injection R as <-. by rewrite app_nil_r. }
  change ((i, e) :: V) with ([(i, e)] ++ V). rewrite app_assoc.
  destruct S as [[-> ->]|(pre' & w & -> & E & Up & Dn)]; simpl in R.
  { eapply IH; [|exact R]. right. exists [], (i, e). split_and!; try done;
      intros _; apply increasing_singleton. }
  destruct st as [prev asc]. simpl in E, Up, Dn, R. subst prev.
  destruct (Z.eqb_spec (frequency e) (freq w)); [done|].
  destruct (Z.ltb_spec (freq w) (frequency e)) as [Hlt|Hge].
  - destruct (Z.ltb_spec asc 0); [done|]. eapply IH; [|exact R].
    right. exists (pre' ++ [w]), (i, e). split_and!; try done; simpl; [|lia].
    intros _. apply increasing_step; [by apply Up|done].
  - destruct (Z.ltb_spec 0 asc); [done|]. eapply IH; [|exact R].
    right. exists (pre' ++ [w]), (i, e). split_and!; try done; simpl; [lia|].
    intros _. apply increasing_step; [by apply Dn|]. unfold neg, freq in *. simpl in *. lia.
Qed.

Lemma set_sorted_spec p table ret p' :
  closed table -> set_freq_table_sorted p table = Some (ret, p') ->
  p' = with_sorted p (freq_table_sorted p') /\
  match freq_table_sorted p' with
  | CPUFREQ_TABLE_UNSORTED => True
  | CPUFREQ_TABLE_SORTED_ASCENDING => increasing freq (visited invalid table 0)
  | CPUFREQ_TABLE_SORTED_DESCENDING => increasing neg (visited invalid table 0)
  end.
Proof.
  intros C. unfold set_freq_table_sorted. rewrite for_each_run by done.
  rewrite (run_ext _ sort_body) by done. simpl.
  destruct (run sort_body _ _) as [[prev asc]|r] eqn:R; simpl; intros [= <- <-]; [|done].
  apply (sort_run _ [] (None, 0)) in R; [|by left]. simpl in R.
  destruct R as [[E _]|(pre' & w & _ & _ & Up & Dn)].
  - rewrite E. destruct (0 <? asc); simpl; split; done || constructor.
  - simpl in Up, Dn. destruct (Z.ltb_spec 0 asc); (split; [done|]).
    + apply Up. lia.
    + apply Dn. lia.
Qed.

Lemma increasing_filter key (f : slot -> bool) V :
  increasing key V -> increasing key (List.filter f V).
Proof.
  unfold increasing. induction V as [|x V IH]; simpl; intros H; [done|].
  apply StronglySorted_inv in H as [H1 H2]. destruct (f x); [|by apply IH].
  constructor; [by apply IH|]. rewrite Forall_elem in *. intros y Hy.
  apply H2, list_elem_of_In. apply list_elem_of_In, filter_In in Hy. tauto.
Qed.

Lemma increasing_efficient key eff table :
  increasing key (visited invalid table 0) -> increasing key (visited (inefficient eff) table 0).
Proof. intros H. unfold inefficient. rewrite visited_filter. by apply increasing_filter. Qed.

(** ** Searching a sorted table *)

(** What a relation asks of the entry [x] chosen among [V] for the target [t]. *)
Definition meets (relation t : Z) (V : list slot) (x : slot) : Prop :=
  if relation =? CPUFREQ_RELATION_L then lowest_above freq t V x
  else if relation =? CPUFREQ_RELATION_H then highest_below freq t V x
  else closest freq t V x.

Definition relation_ok (relation : Z) : Prop :=
  relation = CPUFREQ_RELATION_L \/ relation = CPUFREQ_RELATION_H \/ relation = CPUFREQ_RELATION_C.

(** A table of [unsigned int] frequencies with an end marker. *)
Definition table_ok (table : list cpufreq_frequency_table) : Prop :=
  closed table /\ Forall (fun e => 0 <= frequency e < two32) table.

Lemma visited_range skip table y : table_ok table -> y ∈ visited skip table 0 -> 0 <= freq y < two32.
Proof.
  destruct y as [i e]. intros [_ F] (_ & H & _)%visited_spec. rewrite Forall_elem in F.
  apply F. by eapply list_elem_of_lookup_2.
Qed.

Lemma meets_in relation t V x : meets relation t V x -> x ∈ V.
Proof. unfold meets. repeat case_match; by intros [? _]. Qed.

Lemma sorted_search_meets p table target relation eff :
  table_ok table -> relation_ok relation ->
  increasing (if ascending p then freq else neg) (visited invalid table 0) ->
  let V := visited (inefficient eff) table 0 in
  V <> [] ->
  exists x, sorted_search p table target relation eff = Some (Continue x.1) /\
    meets relation (clamp target (pmin p) (pmax p)) V x.
Proof.
  intros T Hrel Hs V Hne. pose proof T as [C _].
  apply (increasing_efficient _ eff) in Hs. fold V in Hs.
  assert (Hr : forall y, y ∈ V -> 0 <= freq y < two32) by (intros y; by apply visited_range).
  assert (K : exists x, meets relation (clamp target (pmin p) (pmax p)) V x /\
    sorted_search p table target relation eff = Continue <$> Some x.1).
  { unfold meets, sorted_search, cpufreq_table_find_index_l, cpufreq_table_find_index_h,
      cpufreq_table_find_index_c.
    destruct Hrel as [-> | [-> | ->]]; simpl; destruct (ascending p).
    - destruct (find_al table eff (clamp target (pmin p) (pmax p)) C Hne Hs) as (x & -> & H); eauto.
    - destruct (find_dl table eff (clamp target (pmin p) (pmax p)) C Hne Hs) as (x & -> & H); eauto.
    - destruct (find_ah table eff (clamp target (pmin p) (pmax p)) C Hne Hs) as (x & -> & H); eauto.
    - destruct (find_dh table eff (clamp target (pmin p) (pmax p)) C Hne Hs) as (x & -> & H); eauto.
    - destruct (find_ac table eff (clamp target (pmin p) (pmax p)) C Hne Hr Hs)
        as (x & -> & H); eauto.
    - destruct (find_dc table eff (clamp target (pmin p) (pmax p)) C Hne Hr Hs)
        as (x & -> & H); eauto. }
  destruct K as (x & Hx & ->). by exists x.
Qed.

(** With nothing to visit every search ends at [-1]. *)
Lemma sorted_search_empty p table target relation eff :
  closed table -> relation_ok relation -> visited (inefficient eff) table 0 = [] ->
  sorted_search p table target relation eff = Some (Continue (-1)).
Proof.
  intros C Hrel E.
  unfold sorted_search, cpufreq_table_find_index_l, cpufreq_table_find_index_h,
    cpufreq_table_find_index_c, cpufreq_table_find_index_al, cpufreq_table_find_index_dl,
    cpufreq_table_find_index_ah, cpufreq_table_find_index_dh, cpufreq_table_find_index_ac,
    cpufreq_table_find_index_dc.
  destruct Hrel as [-> | [-> | ->]]; simpl; destruct (ascending p);
    rewrite found_run by done; rewrite E; done.
Qed.

(** The relation without the efficiency flag, and whether the flag counts. *)
Definition base_relation (relation : Z) : Z := Z.land relation (two32 - 1 - CPUFREQ_RELATION_E).
Definition wants_efficient (p : cpufreq_policy) (relation : Z) : bool :=
  efficiencies_available p && z2b (Z.land relation CPUFREQ_RELATION_E).

(** The entries a lookup chooses from: the efficient ones when they are asked for
    and there is one, otherwise all valid ones. *)
Definition choices (eff : bool) (table : list cpufreq_frequency_table) : list slot :=
  match visited (inefficient eff) table 0 with
  | [] => visited invalid table 0
  | V => V
  end.

Lemma inefficient_false table idx : visited (inefficient false) table idx = visited invalid table idx.
Proof.
  unfold inefficient. rewrite visited_filter. simpl.
  induction (visited invalid table idx) as [|x l IH]; simpl; [done|by rewrite IH].
Qed.

Lemma target_meets p table target relation :
  table_ok table -> relation_ok (base_relation relation) ->
  freq_table_sorted p <> CPUFREQ_TABLE_UNSORTED ->
  increasing (if ascending p then freq else neg) (visited invalid table 0) ->
  visited invalid table 0 <> [] ->
  exists x, cpufreq_frequency_table_target p table target relation = Some x.1 /\
    aref table x.1 = Some x.2 /\
    meets (base_relation relation) (clamp target (pmin p) (pmax p))
      (choices (wants_efficient p relation) table) x.
Proof.
  intros T Hrel Hsort Hs Hne. pose proof T as [C _].
  unfold cpufreq_frequency_table_target. fold (base_relation relation) (wants_efficient p relation).
  set (eff := wants_efficient p relation). set (r := base_relation relation) in *.
  assert (K : exists x, meets r (clamp target (pmin p) (pmax p)) (choices eff table) x /\
    (c ← sorted_search p table target r eff;
     match c with
     | Leave v => Some v
     | Continue idx =>
       if (idx <? 0) && eff then
         c ← sorted_search p table target r false;
         match c with Leave v | Continue v => Some v end
       else Some idx
     end) = Some x.1).
  { unfold choices. destruct (visited (inefficient eff) table 0) as [|v V] eqn:E.
    - rewrite (sorted_search_empty p table target r eff C Hrel E). simpl.
      assert (Ef : eff = true).
      { destruct eff; [done|]. rewrite inefficient_false in E. congruence. }
      rewrite Ef.
      destruct (sorted_search_meets p table target r false T Hrel Hs) as (x & -> & Hx);
        rewrite inefficient_false in *; [done|]. by exists x.
    - destruct (sorted_search_meets p table target r eff T Hrel Hs) as (x & -> & Hx);
        rewrite E in *; [done|]. exists x. split; [done|]. simpl.
      assert (0 <= x.1).
      { apply (index_nonneg table eff). rewrite E. by eapply meets_in. }
      destruct (Z.ltb_spec x.1 0); [lia|done]. }
  destruct K as (x & Hx & E). exists x. split_and!; [by destruct (freq_table_sorted p)| |done].
  apply meets_in in Hx. unfold choices in Hx. destruct x as [i e]. simpl.
  destruct (visited (inefficient eff) table 0) eqn:Ev; [by eapply visited_aref|].
  rewrite <- Ev in Hx. by eapply visited_aref.
Qed.

(** C40: Every lookup in a sorted frequency table meets its relation.  Take a
    table that [set_freq_table_sorted] found sorted, in either direction.  Then for
    each of the three relations, with or without the efficiency flag, the lookup
    terminates at an entry of the table that is valid (and efficient when asked
    for and possible) and whose frequency is, for the target clamped to the
    policy limits: the lowest at or above it, or the highest there is; the highest
    at or below it, or the lowest there is; or one of minimal distance. *)
Theorem sorted_lookup_meets_relation p0 p table ret target relation :
  table_ok table -> set_freq_table_sorted p0 table = Some (ret, p) ->
  freq_table_sorted p <> CPUFREQ_TABLE_UNSORTED -> visited invalid table 0 <> [] ->
  relation_ok (base_relation relation) ->
  exists x, cpufreq_frequency_table_target p table target relation = Some x.1 /\
    aref table x.1 = Some x.2 /\
    meets (base_relation relation) (clamp target (pmin p) (pmax p))
      (choices (wants_efficient p relation) table) x.
Proof.
  intros T Hset Hsort Hne Hrel. destruct (set_sorted_spec p0 table ret p (proj1 T) Hset) as [_ S].
  apply target_meets; try done. unfold ascending. by destruct (freq_table_sorted p).
Qed.

(** Three frequencies, the middle one inefficient. *)
Definition demo_table : list cpufreq_frequency_table :=
  [mk_entry 0 0 100000; mk_entry CPUFREQ_INEFFICIENT_FREQ 1 200000; mk_entry 0 2 300000;
   mk_entry 0 3 CPUFREQ_TABLE_END].

Definition demo_policy (hi : Z) : cpufreq_policy :=
  mk_policy 100000 hi 100000 100000 300000 (Some demo_table) CPUFREQ_TABLE_SORTED_ASCENDING
    true 0 0.

Lemma demo_table_ok : table_ok demo_table.
Proof.
  split.
  - do 3 (apply Exists_cons_tl). by apply Exists_cons_hd.
  - apply Forall_elem. intros e He. unfold demo_table in He.
    repeat (apply elem_of_cons in He as [->|He]; [vm_compute; intuition discriminate|]).
    by apply not_elem_of_nil in He.
Qed.

Lemma sorted_lookup_meets_relation_witness :
  exists x, cpufreq_frequency_table_target (demo_policy 300000) demo_table 150000
    CPUFREQ_RELATION_H = Some x.1 /\ aref demo_table x.1 = Some x.2.
Proof.
  destruct (sorted_lookup_meets_relation (demo_policy 300000) (demo_policy 300000) demo_table 0
    150000 CPUFREQ_RELATION_H) as (x & A & B & _).
  - apply demo_table_ok.
  - vm_compute. reflexivity.
  - discriminate.
  - vm_compute. discriminate.
  - right. left. reflexivity.
  - exists x. exact (conj A B).
Defined.

(** ** Resolving a frequency *)

Lemma end_index_bound pos : forall idx, end_index pos idx <= idx + Z.of_nat (length pos).
Proof.
  induction pos as [|e pos IH]; intros idx; simpl; [lia|].
  destruct (_ =? _); [lia|]. specialize (IH (idx + 1)). lia.
Qed.

(** Resolving a frequency yields the lowest table frequency at or above the
    target clamped to the policy limits, and that frequency respects the limits,
    provided the upper limit is itself a table frequency and no frequency is
    marked inefficient; the index is cached for the driver. *)
Theorem resolve_freq_within_limits p0 p table ret target :
  table_ok table -> Z.of_nat (length table) < two32 -> freq_table p = Some table ->
  set_freq_table_sorted p0 table = Some (ret, p) ->
  freq_table_sorted p <> CPUFREQ_TABLE_UNSORTED -> efficiencies_available p = false ->
  pmin p <= pmax p -> (exists y, y ∈ visited invalid table 0 /\ freq y = pmax p) ->
  exists i e, cpufreq_driver_resolve_freq p target =
      Some (frequency e, with_cached p i (clamp target (pmin p) (pmax p))) /\
    aref table i = Some e /\ pmin p <= frequency e <= pmax p /\
    clamp target (pmin p) (pmax p) <= frequency e /\
    (forall y, y ∈ visited invalid table 0 -> clamp target (pmin p) (pmax p) <= freq y ->
       frequency e <= freq y).
Proof.
  intros T Hlen Ht Hset Hsort Heff Hlim (m & Hm & Em).
  destruct (set_sorted_spec p0 table ret p (proj1 T) Hset) as [_ S].
  set (t := clamp target (pmin p) (pmax p)).
  assert (Hc : pmin p <= t <= pmax p) by (unfold t, clamp; ztriv).
  destruct (target_meets p table t CPUFREQ_RELATION_LE) as ([i e] & E & Ha & M); try done.
  { by left. }
  { unfold ascending. by destruct (freq_table_sorted p). }
  { intros E0. rewrite E0 in Hm. by apply not_elem_of_nil in Hm. }
  assert (Ecl : clamp t (pmin p) (pmax p) = t) by (unfold clamp; ztriv).
  assert (Ech : choices (wants_efficient p CPUFREQ_RELATION_LE) table = visited invalid table 0).
  { unfold wants_efficient. rewrite Heff. simpl. unfold choices.
    rewrite inefficient_false. by destruct (visited invalid table 0). }
  rewrite Ech, Ecl in M.
  change (lowest_above freq t (visited invalid table 0) (i, e)) in M. destruct M as [Hin M].
  simpl in E, Ha. exists i, e.
  pose proof (aref_Some_range _ _ _ Ha) as Hi.
  unfold cpufreq_driver_resolve_freq, __resolve_freq. rewrite Ht. fold t. rewrite E. simpl.
  rewrite (u32_small i) by lia. rewrite Ha. simpl.
  destruct M as [[M1 M2]|M]; [|destruct (M m Hm); lia].
  change (freq (i, e)) with (frequency e) in M1, M2. pose proof (M2 m Hm ltac:(lia)).
  split_and!; try done; lia.
Qed.

Lemma resolve_freq_within_limits_witness :
  exists i e, cpufreq_driver_resolve_freq
    (mk_policy 100000 200000 0 100000 300000 (Some demo_table) CPUFREQ_TABLE_SORTED_ASCENDING
       false 0 0) 150000 = Some (frequency e,
    mk_policy 100000 200000 0 100000 300000 (Some demo_table) CPUFREQ_TABLE_SORTED_ASCENDING
       false i 150000).
Proof.
  destruct (resolve_freq_within_limits
    (mk_policy 100000 200000 0 100000 300000 (Some demo_table) CPUFREQ_TABLE_SORTED_ASCENDING
       false 0 0)
    (mk_policy 100000 200000 0 100000 300000 (Some demo_table) CPUFREQ_TABLE_SORTED_ASCENDING
       false 0 0) demo_table 0 150000) as (i & e & A & _).
  - apply demo_table_ok.
  - vm_compute. reflexivity.
  - reflexivity.
  - vm_compute. reflexivity.
  - discriminate.
  - reflexivity.
  - simpl. lia.
  - exists (1, mk_entry CPUFREQ_INEFFICIENT_FREQ 1 200000). split; [|reflexivity].
    right. left.
  - exists i, e. exact A.
Defined.

(** With inefficient frequencies the upper limit can be exceeded: the search for an
    efficient frequency does not look at the limits. *)
Example efficient_lookup_exceeds_max :
  fst <$> cpufreq_driver_resolve_freq (demo_policy 200000) 200000 = Some 300000.
Proof. vm_compute. reflexivity. Qed.

(** ** Searching an unsorted table *)

Definition NONE : Z := 4294967295.

(** The index [i] of a selected entry of [W] with the least value, or [NONE], and
    what is remembered of it. *)
Definition argmin (sel : slot -> Prop) (val out : slot -> Z) (init : Z) (W : list slot)
    (f i : Z) : Prop :=
  (f = init /\ i = NONE /\ forall y, y ∈ W -> ~ sel y) \/
  (exists x, x ∈ W /\ sel x /\ i = x.1 /\ f = out x /\
     forall y, y ∈ W -> sel y -> val x <= val y).

(** A new entry that is not selected. *)
Lemma argmin_skip sel val out init W f i z :
  argmin sel val out init W f i -> ~ sel z -> argmin sel val out init (W ++ [z]) f i.
Proof.
  intros A Hz. destruct A as [(E1 & E2 & A)|(x & Hx & Sx & E1 & E2 & A)].
  - left. split_and!; try done. intros y [Hy|Hy]%elem_of_app; [by apply A|].
    by apply list_elem_of_singleton in Hy as ->.
  - right. exists x. split_and!; try done; [apply elem_of_app; by left|].
    intros y [Hy|Hy]%elem_of_app Sy; [by apply A|].
    by apply list_elem_of_singleton in Hy as ->.
Qed.

(** A new selected entry, kept when [better] says so. *)
Lemma argmin_take sel val out init W f i z (better : bool) :
  argmin sel val out init W f i -> sel z ->
  (f = init -> i = NONE -> better = true) ->
  (forall x, x ∈ W -> sel x -> i = x.1 -> f = out x ->
     if better then val z <= val x else val x <= val z) ->
  argmin sel val out init (W ++ [z]) (if better then out z else f) (if better then z.1 else i).
Proof.
  intros A Hz Hn Hb. right.
  destruct A as [(E1 & E2 & A)|(x & Hx & Sx & E1 & E2 & A)].
  - rewrite (Hn E1 E2). exists z. split_and!; try done; [apply elem_of_app; right; by left|].
    intros y [Hy|Hy]%elem_of_app Sy; [by destruct (A y Hy)|].
    by apply list_elem_of_singleton in Hy as ->.
  - specialize (Hb x Hx Sx E1 E2). destruct better.
    + exists z. split_and!; try done; [apply elem_of_app; right; by left|].
      intros y [Hy|Hy]%elem_of_app Sy; [specialize (A y Hy Sy); lia|].
      by apply list_elem_of_singleton in Hy as ->.
    + exists x. split_and!; try done; [apply elem_of_app; by left|].
      intros y [Hy|Hy]%elem_of_app Sy; [by apply A|].
      apply list_elem_of_singleton in Hy as ->. lia.
Qed.

Section Unsorted.
Context (p : cpufreq_policy) (table : list cpufreq_frequency_table) (t : Z).
Context (T : table_ok table) (Hlen : Z.of_nat (length table) < NONE).

Definition in_limits (x : slot) : bool := (pmin p <=? freq x) && (freq x <=? pmax p).

Let V := visited invalid table 0.

Definition above_of (x : slot) : Prop := t < freq x.
Definition below_of (x : slot) : Prop := freq x < t.

(** The candidates after the entries [W] within the limits, none of which is the
    target. *)
Definition cands_l (W : list slot) (c : candidates) : Prop :=
  argmin above_of freq freq NONE W (opt_f c) (opt_i c) /\
  argmin below_of neg freq 0 W (sub_f c) (sub_i c).
Definition cands_h (W : list slot) (c : candidates) : Prop :=
  argmin below_of neg freq 0 W (opt_f c) (opt_i c) /\
  argmin above_of freq freq NONE W (sub_f c) (sub_i c).
Definition dist (x : slot) : Z := Z.abs (freq x - t).
Definition cands_c (W : list slot) (c : candidates) : Prop :=
  argmin (fun _ => True) dist dist NONE W (opt_f c) (opt_i c) /\ sub_i c = NONE.

Definition cands (relation : Z) (W : list slot) (c : candidates) : Prop :=
  if relation =? CPUFREQ_RELATION_L then cands_l W c
  else if relation =? CPUFREQ_RELATION_H then cands_h W c
  else cands_c W c.

Lemma unsorted_init_cands relation : relation_ok relation -> cands relation [] (unsorted_init relation).
Proof.
  assert (N : forall sel val out init, argmin sel val out init [] init NONE).
  { intros. left. split_and!; try done. intros y Hy. by apply not_elem_of_nil in Hy. }
  unfold cands. intros [-> | [-> | ->]]; simpl; split; apply N || done.
Qed.

Lemma take_above W f i z :
  argmin above_of freq freq NONE W f i -> t < freq z -> freq z <= NONE ->
  argmin above_of freq freq NONE (W ++ [z]) (if freq z <=? f then freq z else f)
    (if freq z <=? f then z.1 else i).
Proof.
  intros A Hz Hn. apply argmin_take; try done.
  - intros -> _. by apply Z.leb_le.
  - intros x _ _ _ ->. destruct (Z.leb_spec (freq z) (freq x)); lia.
Qed.

Lemma take_below W f i z :
  argmin below_of neg freq 0 W f i -> freq z < t -> 0 <= freq z ->
  argmin below_of neg freq 0 (W ++ [z]) (if f <=? freq z then freq z else f)
    (if f <=? freq z then z.1 else i).
Proof.
  intros A Hz Hn. apply argmin_take; try done.
  - intros -> _. by apply Z.leb_le.
  - intros x _ _ _ ->. unfold neg. destruct (Z.leb_spec (freq x) (freq z)); lia.
Qed.

Lemma take_dist W f i z (tie : bool) :
  argmin (fun _ => True) dist dist NONE W f i -> dist z < NONE ->
  argmin (fun _ => True) dist dist NONE (W ++ [z])
    (if (dist z <? f) || ((dist z =? f) && tie) then dist z else f)
    (if (dist z <? f) || ((dist z =? f) && tie) then z.1 else i).
Proof.
  intros A Hz. apply argmin_take; try done.
  - intros -> _. by rewrite (proj2 (Z.ltb_lt _ _) Hz).
  - intros x _ _ _ ->.
    destruct (Z.ltb_spec (dist z) (dist x)), (Z.eqb_spec (dist z) (dist x)), tie; simpl; lia.
Qed.

Lemma unsorted_step relation W c z :
  relation_ok relation -> 0 <= t < two31 -> 0 <= freq z < two31 -> in_limits z = true ->
  cands relation W c ->
  match unsorted_body p table t relation z.2 z.1 c with
  | Continue c => freq z <> t /\ cands relation (W ++ [z]) c
  | Leave i => freq z = t /\ i = z.1
  end.
Proof.
  intros Hrel Ht Hz Hlim HC. unfold unsorted_body. cbv zeta. fold (freq z).
  apply andb_prop in Hlim as [L1%Z.leb_le L2%Z.leb_le].
  replace (freq z <? pmin p) with false by (symmetry; apply Z.ltb_ge; lia).
  replace (pmax p <? freq z) with false by (symmetry; apply Z.ltb_ge; lia). simpl orb. cbv iota.
  destruct (Z.eqb_spec (freq z) t); [done|].
  destruct Hrel as [-> | [-> | ->]]; simpl Z.eqb; cbv iota; unfold cands in *; simpl Z.eqb in *;
    cbv iota in *; destruct HC as [HO HS].
  - destruct (Z.ltb_spec t (freq z)); (split; [done|]).
    + apply take_above with (z := z) in HO; [|done|unfold NONE; lia].
      apply argmin_skip with (z := z) in HS; [|unfold below_of; lia].
      by destruct (freq z <=? opt_f c).
    + apply take_below with (z := z) in HS; [|lia..].
      apply argmin_skip with (z := z) in HO; [|unfold above_of; lia].
      by destruct (sub_f c <=? freq z).
  - destruct (Z.ltb_spec (freq z) t); (split; [done|]).
    + apply take_below with (z := z) in HO; [|lia..].
      apply argmin_skip with (z := z) in HS; [|unfold above_of; lia].
      by destruct (opt_f c <=? freq z).
    + apply take_above with (z := z) in HS; [|lia|unfold NONE; lia].
      apply argmin_skip with (z := z) in HO; [|unfold below_of; lia].
      by destruct (freq z <=? sub_f c).
  - split; [done|]. assert (Ed : abs_diff (freq z) t = dist z).
    { unfold abs_diff, dist. by rewrite s32_small by lia. }
    rewrite Ed.
    apply take_dist with (z := z) (tie := freq_at table (opt_i c) <? freq z) in HO;
      [|unfold dist, NONE; lia].
    by destruct ((dist z <? opt_f c) || _).
Qed.

Lemma unsorted_run relation : relation_ok relation -> 0 <= t < two31 -> forall V' W c,
  (forall y, y ∈ V' -> 0 <= freq y < two31) -> (forall y, y ∈ W -> freq y <> t) ->
  cands relation W c ->
  match run (unsorted_body p table t relation) V' c with
  | Continue c => cands relation (W ++ List.filter in_limits V') c /\
      (forall y, y ∈ W ++ List.filter in_limits V' -> freq y <> t)
  | Leave i => exists x, x ∈ List.filter in_limits V' /\ freq x = t /\ i = x.1
  end.
Proof.
  intros Hrel Ht. induction V' as [|z V' IH]; intros W c Hr HW HC; simpl.
  { by rewrite app_nil_r. }
  destruct z as [i e]. assert (Hz : 0 <= freq (i, e) < two31) by (apply Hr; by left).
  assert (Hr' : forall y, y ∈ V' -> 0 <= freq y < two31) by (intros y Hy; apply Hr; by right).
  destruct (in_limits (i, e)) eqn:L.
  - pose proof (unsorted_step relation W c (i, e) Hrel Ht Hz L HC) as S. simpl in S.
    destruct (unsorted_body _ _ _ _ e i c) as [c'|r].
    + destruct S as [Hne HC']. specialize (IH (W ++ [(i, e)]) c' Hr').
      rewrite <- app_assoc in IH. simpl in IH.
      destruct (run _ V' c') as [c2|r2].
      * apply IH; [|done]. intros y [Hy|Hy]%elem_of_app; [by apply HW|].
        by apply list_elem_of_singleton in Hy as ->.
      * destruct IH as (x & Hx & E); [|done|exists x; split; [by right|done]].
        intros y [Hy|Hy]%elem_of_app; [by apply HW|].
        by apply list_elem_of_singleton in Hy as ->.
    + destruct S as [E ->]. exists (i, e). split; [by left|done].
  - assert (B : unsorted_body p table t relation e i c = Continue c).
    { unfold unsorted_body. fold (freq (i, e)). unfold in_limits in L.
      change (frequency e) with (freq (i, e)).
      destruct (Z.ltb_spec (freq (i, e)) (pmin p)), (Z.ltb_spec (pmax p) (freq (i, e))); try done.
      exfalso. apply andb_false_iff in L as [L|L]; zcase; lia. }
    rewrite B. by apply IH.
Qed.

(** The final choice between the two candidates. *)
Lemma unsorted_choice relation W c n :
  relation_ok relation -> W <> [] -> cands relation W c -> (forall y, y ∈ W -> freq y <> t) ->
  n < NONE -> (forall y, y ∈ W -> y.1 < n) ->
  exists x, meets relation t W x /\
    (if n <? opt_i c then if n <? sub_i c then 0 else sub_i c else opt_i c) = x.1.
Proof.
  clear T Hlen. intros Hrel HW HC Hne Hn Hi.
  assert (Ex : exists w, w ∈ W) by (destruct W as [|w W]; [done|exists w; by left]).
  destruct Ex as [w Hw].
  assert (Some_i : forall sel val out init f i, argmin sel val out init W f i ->
    (n <? i) = true /\ (forall y, y ∈ W -> ~ sel y) \/
    (exists x, x ∈ W /\ sel x /\ i = x.1 /\ (n <? i) = false /\
       forall y, y ∈ W -> sel y -> val x <= val y)).
  { intros sel val out init f i [(_ & -> & A)|(x & Hx & Sx & -> & _ & A)].
    - left. split; [by apply Z.ltb_lt|done].
    - right. exists x. split_and!; try done. apply Z.ltb_ge. specialize (Hi x Hx). lia. }
  unfold meets. destruct Hrel as [-> | [-> | ->]]; unfold cands in HC; simpl in *;
    destruct HC as [HO HS]; destruct (Some_i _ _ _ _ _ _ HO) as [[-> A]|(x & Hx & Sx & -> & -> & A)].
  - destruct (Some_i _ _ _ _ _ _ HS) as [[_ B]|(x & Hx & Sx & -> & -> & B)].
    { specialize (A w Hw). specialize (B w Hw). specialize (Hne w Hw).
      unfold above_of, below_of in *. lia. }
    exists x. split; [|done]. split; [done|]. right. intros y Hy. specialize (A y Hy).
    specialize (Hne y Hy). specialize (B y Hy). unfold above_of, below_of, neg in *. lia.
  - exists x. split; [|done]. split; [done|]. left. unfold above_of in *. split; [lia|].
    intros y Hy Hty. specialize (Hne y Hy). apply A; [done|lia].
  - destruct (Some_i _ _ _ _ _ _ HS) as [[_ B]|(x & Hx & Sx & -> & -> & B)].
    { specialize (A w Hw). specialize (B w Hw). specialize (Hne w Hw).
      unfold above_of, below_of in *. lia. }
    exists x. split; [|done]. split; [done|]. right. intros y Hy. specialize (A y Hy).
    specialize (Hne y Hy). specialize (B y Hy). unfold above_of, below_of in *. lia.
  - exists x. split; [|done]. split; [done|]. left. unfold below_of, neg in *. split; [lia|].
    intros y Hy Hty. specialize (Hne y Hy). specialize (A y Hy). lia.
  - by destruct (A w Hw).
  - exists x. split; [|done]. split; [done|]. intros y Hy. by apply (A y Hy).
Qed.

End Unsorted.

(** The lookup in an unsorted table meets the same relations, over the valid
    frequencies within the policy limits: whatever the order of the table, it
    returns an entry whose frequency is within the limits and is the lowest at or
    above the target (or the highest), the highest at or below (or the lowest), or
    a closest one. *)
Theorem unsorted_lookup_meets_relation p table target relation :
  table_ok table -> Z.of_nat (length table) < NONE -> relation_ok relation ->
  0 <= target < two31 ->
  (forall y, y ∈ visited invalid table 0 -> freq y < two31) ->
  let W := List.filter (in_limits p) (visited invalid table 0) in
  W <> [] ->
  exists x, cpufreq_table_index_unsorted p table target relation = Some x.1 /\
    aref table x.1 = Some x.2 /\ pmin p <= freq x <= pmax p /\ meets relation target W x.
Proof.
  intros T Hlen Hrel Ht Hr W HW. unfold cpufreq_table_index_unsorted.
  rewrite for_each_run by apply T.
  assert (Hr' : forall y, y ∈ visited invalid table 0 -> 0 <= freq y < two31).
  { intros y Hy. pose proof (visited_range _ _ _ T Hy). specialize (Hr y Hy). lia. }
  pose proof (unsorted_run p table target relation Hrel Ht (visited invalid table 0) []
    (unsorted_init relation) Hr' ltac:(intros y Hy; by apply not_elem_of_nil in Hy)
    (unsorted_init_cands target relation Hrel)) as R.
  assert (Fin : forall x, meets relation target W x -> aref table x.1 = Some x.2 /\
                  pmin p <= freq x <= pmax p).
  { intros [i e] M%meets_in. apply list_elem_of_In, filter_In in M as [M1 M2].
    apply list_elem_of_In in M1. split; [by eapply visited_aref|].
    unfold in_limits in M2. zcase. lia. }
  destruct (run _ _ _) as [c|i]; simpl.
  - destruct R as [R1 R2]. fold W in R1, R2. simpl in R1, R2.
    destruct (unsorted_choice target relation W c (end_index table 0)) as (x & M & E);
      try done.
    + pose proof (end_index_bound table 0). lia.
    + intros [j e] Hy. apply list_elem_of_In, filter_In in Hy as [Hy _].
      apply list_elem_of_In, visited_spec in Hy. simpl. tauto.
    + exists x. split; [|split; [|split]]; try (by apply Fin); [|done].
      rewrite <- E. by repeat case_match.
  - destruct R as (x & Hx & E & ->). exists x. split; [done|].
    assert (M : meets relation target W x).
    { unfold meets. destruct (_ =? _); [|destruct (_ =? _)]; (split; [done|]).
      - left. split; [lia|]. intros; lia.
      - left. split; [lia|]. intros; lia.
      - intros y _. lia. }
    split; [by apply Fin|split; [by apply Fin|done]].
Qed.

Definition shuffled_table : list cpufreq_frequency_table :=
  [mk_entry 0 0 300000; mk_entry 0 1 CPUFREQ_ENTRY_INVALID; mk_entry 0 2 100000;
   mk_entry 0 3 200000; mk_entry 0 4 CPUFREQ_TABLE_END].

Lemma unsorted_lookup_meets_relation_witness :
  exists x, cpufreq_table_index_unsorted (demo_policy 250000) shuffled_table 150000
    CPUFREQ_RELATION_C = Some x.1 /\ aref shuffled_table x.1 = Some x.2.
Proof.
  destruct (unsorted_lookup_meets_relation (demo_policy 250000) shuffled_table 150000
    CPUFREQ_RELATION_C) as (x & A & B & _).
  - split.
    + do 4 (apply Exists_cons_tl). apply Exists_cons_hd. reflexivity.
    + do 5 (constructor; [vm_compute; intuition discriminate|]). constructor.
  - vm_compute. reflexivity.
  - right. right. reflexivity.
  - lia.
  - intros y Hy. vm_compute in Hy.
    repeat (apply elem_of_cons in Hy as [->|Hy]; [vm_compute; reflexivity|]).
    destruct (not_elem_of_nil y Hy).
  - vm_compute. discriminate.
  - exists x. exact (conj A B).
Defined.

(** ** Verification of policy limits *)

Definition verify_body (p : cpufreq_policy) (e : cpufreq_frequency_table) (_ next_larger : Z)
  : flow Z unit :=
  if (pmin p <=? frequency e) && (frequency e <=? pmax p) then Leave tt
  else Continue (if (frequency e <? next_larger) && (pmax p <? frequency e)
                 then frequency e else next_larger).

(** The loop leaves at a frequency within the limits, or ends with the least one
    above them. *)
Lemma verify_run p V : forall next,
  match run (verify_body p) V next with
  | Leave _ => exists y, y ∈ V /\ pmin p <= freq y <= pmax p
  | Continue n =>
    (forall y, y ∈ V -> ~ (pmin p <= freq y <= pmax p)) /\
    (n = next \/ exists y, y ∈ V /\ freq y = n /\ pmax p < n) /\ n <= next /\
    (forall y, y ∈ V -> pmax p < freq y -> n <= freq y)
  end.
Proof.
  induction V as [|[i e] V IH]; intros next; cbn [run].
  { split_and!; [|by left|lia|]; intros y Hy; by apply not_elem_of_nil in Hy. }
  unfold verify_body at 1. change (frequency e) with (freq (i, e)).
  destruct ((pmin p <=? freq (i, e)) && (freq (i, e) <=? pmax p)) eqn:B.
  { exists (i, e). split; [by left|]. zcase. lia. }
  assert (Bn : ~ (pmin p <= freq (i, e) <= pmax p)).
  { intros [H1 H2]. apply Z.leb_le in H1, H2. by rewrite H1, H2 in B. }
  set (m := if (freq (i, e) <? next) && (pmax p <? freq (i, e)) then freq (i, e) else next).
  assert (Hm : m <= next /\ (pmax p < freq (i, e) -> m <= freq (i, e)) /\
               (m = next \/ m = freq (i, e) /\ pmax p < m)).
  { unfold m. destruct (Z.ltb_spec (freq (i, e)) next), (Z.ltb_spec (pmax p) (freq (i, e)));
      simpl; lia. }
  clearbody m. specialize (IH m). destruct (run _ V m) as [n|].
  - destruct IH as (A1 & A2 & A3 & A4). split_and!.
    + intros y [->|Hy]%elem_of_cons; [done|by apply A1].
    + destruct A2 as [->|(y & Hy & E & L)].
      * destruct Hm as (_ & _ & [->|[-> L]]); [by left|]. right. exists (i, e).
        split_and!; [by left|done..].
      * right. exists y. split_and!; [by right|done..].
    + lia.
    + intros y [->|Hy]%elem_of_cons Hl; [destruct Hm as (_ & Hm & _); specialize (Hm Hl); lia|].
      by apply A4.
  - destruct IH as (y & Hy & L). exists y. split; [by right|done].
Qed.

Lemma verify_within p lo hi :
  lo <= hi ->
  let q := cpufreq_verify_within_limits p lo hi in
  q = with_limits p (pmin q) (pmax q) /\ lo <= pmin q <= pmax q /\ pmax q <= hi.
Proof.
  intros H q. split; [done|]. unfold q, cpufreq_verify_within_limits, clamp. simpl.
  repeat (case_match; zcase; simpl in *); lia.
Qed.

Lemma verify_id p lo hi :
  lo <= pmin p <= pmax p -> pmax p <= hi -> cpufreq_verify_within_limits p lo hi = p.
Proof.
  intros H1 H2. destruct p as [a b c d e f g h i j]. simpl in *.
  unfold cpufreq_verify_within_limits, with_limits, clamp. simpl.
  assert (E : (if hi <=? b then hi else if b <=? lo then lo else b) = b) by ztriv.
  rewrite E. f_equal. ztriv.
Qed.

(** Verifying policy limits always leaves room for a table frequency: the
    resulting limits are ordered, lie within the limits of the hardware and
    contain a valid frequency of the table.  The lower limit is the requested one
    within the hardware limits, and the upper limit is only raised when nothing
    fits, and then to the least frequency above it. *)
Theorem verify_leaves_a_frequency p table :
  table_ok table -> cpuinfo_min_freq p <= cpuinfo_max_freq p < 4294967295 ->
  (exists y, y ∈ visited invalid table 0 /\ freq y = cpuinfo_max_freq p) ->
  let q := cpufreq_verify_within_cpu_limits p in
  exists p', cpufreq_frequency_table_verify p table = Some p' /\
    cpuinfo_min_freq p <= pmin p' <= pmax p' /\ pmax p' <= cpuinfo_max_freq p /\
    pmin p' = pmin q /\
    (exists y, y ∈ visited invalid table 0 /\ pmin p' <= freq y <= pmax p') /\
    (pmax p' = pmax q \/
     forall y, y ∈ visited invalid table 0 -> pmin q <= freq y -> pmax p' <= freq y).
Proof.
  intros T Hc (m & Hm & Em) q. unfold cpufreq_frequency_table_verify. fold q.
  rewrite for_each_run by apply T. rewrite (run_ext _ (verify_body q)) by done.
  destruct (verify_within p (cpuinfo_min_freq p) (cpuinfo_max_freq p)) as (Eq & L1 & L2); [lia|].
  fold (cpufreq_verify_within_cpu_limits p) in Eq, L1, L2. fold q in Eq, L1, L2.
  clearbody q. pose proof (verify_run q (visited invalid table 0) 4294967295) as R.
  destruct (run _ _ _) as [n|]; simpl.
  - destruct R as (A1 & A2 & A3 & A4).
    assert (Hgt : pmax q < freq m) by (specialize (A1 m Hm); lia).
    pose proof (A4 m Hm Hgt) as Hn.
    destruct A2 as [->|(y & Hy & E & L)]; [lia|].
    assert (P' : cpufreq_verify_within_cpu_limits (with_limits q (pmin q) n) =
                 with_limits q (pmin q) n).
    { assert (cpuinfo_min_freq q = cpuinfo_min_freq p /\ cpuinfo_max_freq q = cpuinfo_max_freq p)
        as [C1 C2] by (rewrite Eq; done).
      apply verify_id; simpl; rewrite ?C1, ?C2; lia. }
    rewrite P'. exists (with_limits q (pmin q) n). simpl. split_and!; try done; try lia.
    + exists y. split; [done|lia].
    + right. intros z Hz Hz2. apply A4; [done|]. specialize (A1 z Hz). lia.
  - exists q. split_and!; done || lia || by left.
Qed.

Lemma verify_leaves_a_frequency_witness :
  exists p', cpufreq_frequency_table_verify
    (mk_policy 120000 150000 0 100000 300000 (Some demo_table) CPUFREQ_TABLE_SORTED_ASCENDING
       false 0 0) demo_table = Some p'.
Proof.
  destruct (verify_leaves_a_frequency
    (mk_policy 120000 150000 0 100000 300000 (Some demo_table) CPUFREQ_TABLE_SORTED_ASCENDING
       false 0 0) demo_table) as (p' & E & _).
  - apply demo_table_ok.
  - simpl. lia.
  - exists (2, mk_entry 0 2 300000). split; [|reflexivity]. right. right. left.
  - exists p'. exact E.
Defined.

End FreqTable.
