(* ===== verification/Uclamp.v ===== *)
(** Utilization clamping: the per-run-queue aggregation of the clamp values of
    runnable tasks in [kernel/sched/core.c], and [uclamp_rq_util_with] of
    [kernel/sched/sched.h].

    A run queue keeps, for the minimum and the maximum clamp, an array of buckets
    that count the runnable tasks by clamp value and remember the greatest value
    seen, and a value that is the greatest of them.  Tasks are counted from the first use
    of clamping on: those enqueued before are not ([accounted]).  The theorems show that,
    for requests between 0 and 1024, the counts are exact, that the value always covers
    every accounted task and is at most one bucket above the true maximum, and that none
    of the warnings of the code can fire. *)

From Stdlib Require Import ZArith Lia List.
From stdpp Require Import base list numbers option.
From S2P Require Import Prelude FreqTable.

Module Uclamp.
Import FreqTable.

Definition SCHED_CAPACITY_SCALE : Z := 1024.
Definition UCLAMP_FLAG_IDLE : Z := 0x01.

Inductive uclamp_id := UCLAMP_MIN | UCLAMP_MAX.

(** A member for each clamp index, as the arrays of size [UCLAMP_CNT]. *)
Record per_clamp (A : Type) := mk_per { c_min : A; c_max : A }.
Arguments mk_per {A} _ _.
Arguments c_min {A} _.
Arguments c_max {A} _.

Definition cget {A} (c : per_clamp A) (id : uclamp_id) : A :=
  match id with UCLAMP_MIN => c_min c | UCLAMP_MAX => c_max c end.
Definition cset {A} (c : per_clamp A) (id : uclamp_id) (x : A) : per_clamp A :=
  match id with UCLAMP_MIN => mk_per x (c_max c) | UCLAMP_MAX => mk_per (c_min c) x end.

Record uclamp_se := mk_se {
  value : Z;
  bucket_id : Z;
  active : bool;
  user_defined : bool
}.

Record uclamp_bucket := mk_bucket { bvalue : Z; btasks : Z }.

Record uclamp_rq := mk_ucrq { rvalue : Z; bucket : list uclamp_bucket }.

Record rq := mk_rq { uclamp : per_clamp uclamp_rq; uclamp_flags : Z }.

(** The clamp fields of a task: the requests, the back-annotated effective
    values, whether its scheduling class uses clamps, and the limits of its group
    ([None] for the root group and autogroups). *)
Record task := mk_task {
  uclamp_req : per_clamp uclamp_se;
  t_uclamp : per_clamp uclamp_se;
  uclamp_enabled : bool;
  tg_uclamp : option (Z * Z)
}.

Definition with_req (p : task) (c : per_clamp uclamp_se) : task :=
  mk_task c (t_uclamp p) (uclamp_enabled p) (tg_uclamp p).
Definition with_uclamp (p : task) (c : per_clamp uclamp_se) : task :=
  mk_task (uclamp_req p) c (uclamp_enabled p) (tg_uclamp p).

Definition with_active (u : uclamp_se) (a : bool) : uclamp_se :=
  mk_se (value u) (bucket_id u) a (user_defined u).

Section Buckets.
(** [CONFIG_UCLAMP_BUCKETS_COUNT], from 5 to 20. *)
Context (UCLAMP_BUCKETS : Z).

(** [DIV_ROUND_CLOSEST(SCHED_CAPACITY_SCALE, UCLAMP_BUCKETS)] *)
Definition UCLAMP_BUCKET_DELTA : Z :=
  (SCHED_CAPACITY_SCALE + UCLAMP_BUCKETS / 2) / UCLAMP_BUCKETS.

Definition uclamp_bucket_id (clamp_value : Z) : Z :=
  Z.min (clamp_value / UCLAMP_BUCKET_DELTA) (UCLAMP_BUCKETS - 1).

Definition uclamp_none (id : uclamp_id) : Z :=
  match id with UCLAMP_MIN => 0 | UCLAMP_MAX => SCHED_CAPACITY_SCALE end.

(** The member [value] has [bits_per(SCHED_CAPACITY_SCALE)] = 11 bits. *)
Definition uclamp_se_set (u : uclamp_se) (v : Z) (user : bool) : uclamp_se :=
  mk_se (v mod 2048) (uclamp_bucket_id v) (active u) user.

Definition uclamp_rq_get (q : rq) (id : uclamp_id) : Z := rvalue (cget (uclamp q) id).

Definition uclamp_rq_set (q : rq) (id : uclamp_id) (v : Z) : rq :=
  mk_rq (cset (uclamp q) id (mk_ucrq v (bucket (cget (uclamp q) id)))) (uclamp_flags q).

Definition uclamp_rq_is_idle (q : rq) : bool := z2b (Z.land (uclamp_flags q) UCLAMP_FLAG_IDLE).

Definition uclamp_idle_value (q : rq) (id : uclamp_id) (clamp_value : Z) : Z * rq :=
  match id with
  | UCLAMP_MAX =>
    (clamp_value, mk_rq (uclamp q) (Z.lor (uclamp_flags q) UCLAMP_FLAG_IDLE))
  | UCLAMP_MIN => (uclamp_none UCLAMP_MIN, q)
  end.

Definition uclamp_idle_reset (q : rq) (id : uclamp_id) (clamp_value : Z) : rq :=
  if negb (uclamp_rq_is_idle q) then q else uclamp_rq_set q id clamp_value.

(** The loop from the top bucket down; [fuel] counts the buckets left. *)
Fixpoint top_bucket (bs : list uclamp_bucket) (fuel : nat) : option (option Z) :=
  match fuel with
  | O => Some None
  | S k =>
    b ← bs !! k;
    if btasks b =? 0 then top_bucket bs k else Some (Some (bvalue b))
  end.

Definition uclamp_rq_max_value (q : rq) (id : uclamp_id) (clamp_value : Z) : option (Z * rq) :=
  r ← top_bucket (bucket (cget (uclamp q) id)) (Z.to_nat UCLAMP_BUCKETS);
  match r with
  | Some v => Some (v, q)
  | None => Some (uclamp_idle_value q id clamp_value)
  end.

Definition uclamp_tg_restrict (p : task) (id : uclamp_id) : uclamp_se :=
  let uc_req := cget (uclamp_req p) id in
  match tg_uclamp p with
  | None => uc_req
  | Some (tg_min, tg_max) => uclamp_se_set uc_req (clamp (value uc_req) tg_min tg_max) false
  end.

(** [uclamp_default] is the argument [dflt]. *)
Definition uclamp_eff_get (dflt : per_clamp uclamp_se) (p : task) (id : uclamp_id) : uclamp_se :=
  let uc_req := uclamp_tg_restrict p id in
  let uc_max := cget dflt id in
  if value uc_max <? value uc_req then uc_max else uc_req.

Definition uclamp_eff_value (dflt : per_clamp uclamp_se) (p : task) (id : uclamp_id) : Z :=
  if active (cget (t_uclamp p) id) then value (cget (t_uclamp p) id)
  else value (uclamp_eff_get dflt p id).

Definition set_bucket (q : rq) (id : uclamp_id) (i : Z) (b : uclamp_bucket) : option rq :=
  bs ← aset (bucket (cget (uclamp q) id)) i b;
  Some (mk_rq (cset (uclamp q) id (mk_ucrq (uclamp_rq_get q id) bs)) (uclamp_flags q)).

Definition uclamp_rq_inc_id (dflt : per_clamp uclamp_se) (q : rq) (p : task) (id : uclamp_id)
  : option (rq * task) :=
  let uc_se := uclamp_eff_get dflt p id in
  b ← aref (bucket (cget (uclamp q) id)) (bucket_id uc_se);
  let b := mk_bucket (bvalue b) (btasks b + 1) in
  let uc_se := with_active uc_se true in
  let q := uclamp_idle_reset q id (value uc_se) in
  let b := if (btasks b =? 1) || (bvalue b <? value uc_se)
           then mk_bucket (value uc_se) (btasks b) else b in
  q ← set_bucket q id (bucket_id uc_se) b;
  let q := if uclamp_rq_get q id <? value uc_se
           then uclamp_rq_set q id (value uc_se) else q in
  Some (q, with_uclamp p (cset (t_uclamp p) id uc_se)).

(** The third component is [false] when one of the two [SCHED_WARN_ON] fires. *)
Definition uclamp_rq_dec_id (q : rq) (p : task) (id : uclamp_id) : option (rq * task * bool) :=
  let uc_se := cget (t_uclamp p) id in
  if negb (active uc_se) then Some (q, p, true)
  else
    b ← aref (bucket (cget (uclamp q) id)) (bucket_id uc_se);
    let ok := negb (btasks b =? 0) in
    let b := if btasks b =? 0 then b else mk_bucket (bvalue b) (btasks b - 1) in
    q ← set_bucket q id (bucket_id uc_se) b;
    let p := with_uclamp p (cset (t_uclamp p) id (with_active uc_se false)) in
    if negb (btasks b =? 0) then Some (q, p, ok)
    else
      let rq_clamp := uclamp_rq_get q id in
      let ok := ok && negb (rq_clamp <? bvalue b) in
      if rq_clamp <=? bvalue b then
        r ← uclamp_rq_max_value q id (value uc_se);
        let '(bkt_clamp, q) := r : Z * rq in
        Some (uclamp_rq_set q id bkt_clamp, p, ok)
      else Some (q, p, ok).

Definition clear_idle (q : rq) : rq :=
  mk_rq (uclamp q) (Z.ldiff (uclamp_flags q) UCLAMP_FLAG_IDLE).

(** [used] is the static key [sched_uclamp_used]. *)
Definition uclamp_rq_inc (used : bool) (dflt : per_clamp uclamp_se) (q : rq) (p : task)
  : option (rq * task) :=
  if negb used then Some (q, p)
  else if negb (uclamp_enabled p) then Some (q, p)
  else
    '(q, p) ← uclamp_rq_inc_id dflt q p UCLAMP_MIN;
    '(q, p) ← uclamp_rq_inc_id dflt q p UCLAMP_MAX;
    Some (if uclamp_rq_is_idle q then clear_idle q else q, p).

Definition uclamp_rq_dec (used : bool) (q : rq) (p : task) : option (rq * task * bool) :=
  if negb used then Some (q, p, true)
  else if negb (uclamp_enabled p) then Some (q, p, true)
  else
    '(q, p, ok1) ← uclamp_rq_dec_id q p UCLAMP_MIN;
    '(q, p, ok2) ← uclamp_rq_dec_id q p UCLAMP_MAX;
    Some (q, p, ok1 && ok2).

Definition uclamp_rq_reinc_id (dflt : per_clamp uclamp_se) (q : rq) (p : task) (id : uclamp_id)
  : option (rq * task * bool) :=
  if negb (active (cget (t_uclamp p) id)) then Some (q, p, true)
  else
    '(q, p, ok) ← uclamp_rq_dec_id q p id;
    '(q, p) ← uclamp_rq_inc_id dflt q p id;
    Some (match id with
          | UCLAMP_MAX => if uclamp_rq_is_idle q then clear_idle q else q
          | UCLAMP_MIN => q
          end, p, ok).

Definition uclamp_update_active (dflt : per_clamp uclamp_se) (q : rq) (p : task)
  : option (rq * task * bool) :=
  '(q, p, ok1) ← uclamp_rq_reinc_id dflt q p UCLAMP_MIN;
  '(q, p, ok2) ← uclamp_rq_reinc_id dflt q p UCLAMP_MAX;
  Some (q, p, ok1 && ok2).

Definition uclamp_fork (reset_on_fork : bool) (p : task) : task :=
  let u := t_uclamp p in
  let p := with_uclamp p (mk_per (with_active (c_min u) false) (with_active (c_max u) false)) in
  if negb reset_on_fork then p
  else
    with_req p (mk_per (uclamp_se_set (c_min (uclamp_req p)) (uclamp_none UCLAMP_MIN) false)
                       (uclamp_se_set (c_max (uclamp_req p)) (uclamp_none UCLAMP_MAX) false)).

Definition init_uclamp_rq : rq :=
  let bs := replicate (Z.to_nat UCLAMP_BUCKETS) (mk_bucket 0 0) in
  mk_rq (mk_per (mk_ucrq (uclamp_none UCLAMP_MIN) bs) (mk_ucrq (uclamp_none UCLAMP_MAX) bs))
    UCLAMP_FLAG_IDLE.

(** [eff] holds the effective clamps of [p], [None] when [p] is null. *)
Definition uclamp_rq_util_with (used : bool) (q : rq) (util : Z) (eff : option (Z * Z)) : Z :=
  if negb used then util
  else
    let '(min_util, max_util) :=
      match eff with
      | Some (lo, hi) =>
        if uclamp_rq_is_idle q then (lo, hi)
        else (Z.max lo (uclamp_rq_get q UCLAMP_MIN), Z.max hi (uclamp_rq_get q UCLAMP_MAX))
      | None => (Z.max 0 (uclamp_rq_get q UCLAMP_MIN), Z.max 0 (uclamp_rq_get q UCLAMP_MAX))
      end in
    if max_util <=? min_util then min_util else clamp util min_util max_util.

(** [cpu_util_cfs + cpu_util_rt] of the CPU is the argument [rq_util]. *)
Definition uclamp_rq_is_capped (used : bool) (q : rq) (rq_util : Z) : bool :=
  if negb used then false
  else
    let max_util := uclamp_rq_get q UCLAMP_MAX in
    negb (max_util =? SCHED_CAPACITY_SCALE) && (max_util <=? rq_util).

(** ** Buckets are ordered by value *)

Context (HN : 5 <= UCLAMP_BUCKETS <= 20).

Lemma delta_pos : 0 < UCLAMP_BUCKET_DELTA.
Proof.
  unfold UCLAMP_BUCKET_DELTA, SCHED_CAPACITY_SCALE. apply Z.div_str_pos.
  assert (0 <= UCLAMP_BUCKETS / 2) by (apply Z.div_pos; lia). lia.
Qed.

Lemma bucket_id_range v : 0 <= v -> 0 <= uclamp_bucket_id v < UCLAMP_BUCKETS.
Proof.
  intros Hv. unfold uclamp_bucket_id. pose proof delta_pos.
  assert (0 <= v / UCLAMP_BUCKET_DELTA) by (apply Z.div_pos; lia). lia.
Qed.

Lemma bucket_id_mono v w : v <= w -> uclamp_bucket_id v <= uclamp_bucket_id w.
Proof.
  intros H. unfold uclamp_bucket_id. pose proof delta_pos.
  pose proof (Z.div_le_mono v w UCLAMP_BUCKET_DELTA ltac:(lia) H). lia.
Qed.

Lemma bucket_id_lt v w : uclamp_bucket_id v < uclamp_bucket_id w -> v < w.
Proof. intros H. destruct (Z.lt_ge_cases v w) as [|Hw%bucket_id_mono]; lia. Qed.

(** ** The invariant of one clamp index *)

(** It relates the buckets and the value of the run queue to the effective clamps
    of the tasks. *)
Definition se_ok (u : uclamp_se) : Prop :=
  0 <= value u <= SCHED_CAPACITY_SCALE /\ bucket_id u = uclamp_bucket_id (value u).

Definition in_bucket (b : Z) (u : uclamp_se) : bool := active u && (bucket_id u =? b).

Definition members (b : Z) (us : list uclamp_se) : Z := zsum (fun u => b2z (in_bucket b u)) us.

Definition none_active (us : list uclamp_se) : Prop := forall u, u ∈ us -> active u = false.

(** A bucket against its members; [r] is the value of the run queue. *)
Record bucket_ok (r : Z) (us : list uclamp_se) (b : Z) (bk : uclamp_bucket) : Prop :=
  mk_bucket_ok {
  bo_count : btasks bk = members b us;
  bo_value : 0 < btasks bk ->
    0 <= bvalue bk <= SCHED_CAPACITY_SCALE /\ uclamp_bucket_id (bvalue bk) = b /\
    bvalue bk <= r /\
    forall u, u ∈ us -> in_bucket b u = true -> value u <= bvalue bk
}.

Record uinv (ur : uclamp_rq) (us : list uclamp_se) : Prop := mk_uinv {
  ui_len : Z.of_nat (length (bucket ur)) = UCLAMP_BUCKETS;
  ui_se : forall u, u ∈ us -> active u = true -> se_ok u;
  ui_bucket : forall b bk, aref (bucket ur) b = Some bk -> bucket_ok (rvalue ur) us b bk;
  ui_top : none_active us \/
    exists b bk, aref (bucket ur) b = Some bk /\ 0 < btasks bk /\ rvalue ur = bvalue bk
}.

Lemma members_pos b us u : u ∈ us -> in_bucket b u = true -> 0 < members b us.
Proof.
  intros Hu Hb. unfold members.
  pose proof (zsum_ge (fun u => b2z (in_bucket b u)) us u
    ltac:(intros x _; apply b2z_01) Hu) as H. simpl in H. rewrite Hb in H. simpl in H. lia.
Qed.

Lemma members_nonneg b us : 0 <= members b us.
Proof. apply zsum_nonneg. intros u _. apply b2z_01. Qed.

Lemma members_some b us : 0 < members b us -> exists u, u ∈ us /\ in_bucket b u = true.
Proof.
  unfold members. induction us as [|u us IH]; simpl; [lia|]. intros H.
  destruct (in_bucket b u) eqn:E.
  - exists u. split; [by left|done].
  - simpl in H. destruct IH as (x & Hx & Ex); [lia|]. exists x. split; [by right|done].
Qed.

Lemma members_none b us : none_active us -> members b us = 0.
Proof.
  intros H. pose proof (members_nonneg b us).
  destruct (Z.eq_dec (members b us) 0) as [|E]; [done|].
  destruct (members_some b us) as (u & Hu & Eu); [lia|].
  unfold in_bucket in Eu. by rewrite (H u Hu) in Eu.
Qed.

Lemma members_insert b us n u u' :
  us !! n = Some u ->
  members b (<[n := u']> us) = members b us - b2z (in_bucket b u) + b2z (in_bucket b u').
Proof. intros H. unfold members. by rewrite (zsum_insert _ _ _ u). Qed.

Lemma insert_elem {A} (l : list A) n x y : x ∈ <[n := y]> l -> x = y \/ x ∈ l.
Proof.
  intros Hx. apply list_elem_of_lookup in Hx as [m Hm].
  destruct (decide (m = n)) as [->|Hne].
  - apply list_lookup_insert_Some in Hm as [(_ & -> & _)|[Hc _]]; [by left|done].
  - rewrite list_lookup_insert_ne in Hm by done. right. by eapply list_elem_of_lookup_2.
Qed.

(** Every runnable task has a bucket that counts it. *)
Lemma active_bucket ur us u :
  uinv ur us -> u ∈ us -> active u = true ->
  exists bk, aref (bucket ur) (bucket_id u) = Some bk /\ 0 < btasks bk /\
    value u <= bvalue bk <= rvalue ur.
Proof.
  intros I Hu Ha. destruct (ui_se ur us I u Hu Ha) as [R B].
  assert (Hb : in_bucket (bucket_id u) u = true)
    by (unfold in_bucket; rewrite Ha; apply Z.eqb_refl).
  destruct (aref_lt (bucket ur) (bucket_id u)) as [bk Hbk].
  { rewrite (ui_len ur us I), B. apply bucket_id_range. lia. }
  destruct (ui_bucket ur us I _ bk Hbk) as [C V].
  pose proof (members_pos _ us u Hu Hb). destruct (V ltac:(lia)) as (_ & _ & V3 & V4).
  specialize (V4 u Hu Hb). exists bk. split_and!; try done; lia.
Qed.

(** ** Counting a task in *)

(** The run queue after [uclamp_rq_inc_id] with the effective clamp [u]. *)
Definition inc_bucket (bk : uclamp_bucket) (u : uclamp_se) : uclamp_bucket :=
  mk_bucket (if (btasks bk + 1 =? 1) || (bvalue bk <? value u) then value u else bvalue bk)
    (btasks bk + 1).

Definition inc_value (idle : bool) (ur : uclamp_rq) (u : uclamp_se) : Z :=
  Z.max (if idle then value u else rvalue ur) (value u).

Lemma cget_cset {A} (c : per_clamp A) id x : cget (cset c id x) id = x.
Proof. by destruct id. Qed.

Lemma inc_id_eq dflt q p id bk :
  let u := uclamp_eff_get dflt p id in
  aref (bucket (cget (uclamp q) id)) (bucket_id u) = Some bk ->
  uclamp_rq_inc_id dflt q p id =
  Some (mk_rq (cset (uclamp q) id
                 (mk_ucrq (inc_value (uclamp_rq_is_idle q) (cget (uclamp q) id) u)
                    (<[Z.to_nat (bucket_id u) := inc_bucket bk u]> (bucket (cget (uclamp q) id)))))
          (uclamp_flags q),
        with_uclamp p (cset (t_uclamp p) id (with_active u true))).
Proof.
  intros u Hbk. unfold uclamp_rq_inc_id. fold u. rewrite Hbk. simpl.
  pose proof (aref_Some_range _ _ _ Hbk) as Hr.
  unfold set_bucket, uclamp_idle_reset, inc_value, inc_bucket.
  destruct (uclamp_rq_is_idle q); simpl;
    unfold uclamp_rq_set, uclamp_rq_get; simpl; rewrite ?cget_cset; simpl;
    rewrite aset_lt by done; simpl; rewrite ?cget_cset; simpl.
  - destruct (Z.ltb_spec (value u) (value u)); [lia|]. rewrite Z.max_id.
    destruct q as [[a c] f], id; simpl; by destruct ((btasks bk + 1 =? 1) || _).
  - destruct (Z.ltb_spec (rvalue (cget (uclamp q) id)) (value u)); simpl;
      [rewrite Z.max_r by lia|rewrite Z.max_l by lia];
      destruct q as [[a c] f], id; simpl; by destruct ((btasks bk + 1 =? 1) || _).
Qed.

Lemma not_none_active ur us b bk :
  uinv ur us -> aref (bucket ur) b = Some bk -> 0 < btasks bk -> ~ none_active us.
Proof.
  intros I Hbk Ht Hn. pose proof (bo_count _ _ _ _ (ui_bucket ur us I b bk Hbk)) as C.
  rewrite (members_none b us Hn) in C. lia.
Qed.

Section Inc.
Context (ur : uclamp_rq) (us : list uclamp_se) (n : nat) (u0 u : uclamp_se).
Context (bk : uclamp_bucket) (idle : bool).
Context (I : uinv ur us) (Hn : us !! n = Some u0) (H0 : active u0 = false) (Hu : se_ok u).
Context (Hbk : aref (bucket ur) (bucket_id u) = Some bk).
Context (Hidle : idle = true -> none_active us).
Context (Hnone : none_active us -> idle = true \/ rvalue ur <= 0).

Let u' := with_active u true.
Let r' := inc_value idle ur u.

Lemma inc_members b :
  members b (<[n := u']> us) = members b us + (if bucket_id u =? b then 1 else 0).
Proof.
  rewrite (members_insert b us n u0 u' Hn). unfold in_bucket. rewrite H0. simpl.
  destruct (bucket_id u =? b); simpl; lia.
Qed.

Lemma inc_value_ge : value u <= r'.
Proof. unfold r', inc_value. lia. Qed.

(** An occupied bucket keeps its value below that of the run queue. *)
Lemma inc_value_old b bk1 :
  aref (bucket ur) b = Some bk1 -> 0 < btasks bk1 -> bvalue bk1 <= r'.
Proof.
  intros H1 Ht. unfold r', inc_value. destruct idle eqn:E.
  - destruct (not_none_active ur us b bk1 I H1 Ht). by apply Hidle.
  - destruct (bo_value _ _ _ _ (ui_bucket ur us I b bk1 H1) Ht) as (_ & _ & V & _). lia.
Qed.

Lemma inc_bucket_ok : bucket_ok r' (<[n := u']> us) (bucket_id u) (inc_bucket bk u).
Proof.
  pose proof (ui_bucket ur us I _ bk Hbk) as [C V]. destruct Hu as [R B].
  pose proof (members_nonneg (bucket_id u) us). split.
  { simpl. rewrite inc_members, Z.eqb_refl. lia. }
  intros _. unfold inc_bucket. simpl.
  destruct (Z.eqb_spec (btasks bk + 1) 1) as [E|E]; simpl.
  - split_and!; try done; try lia; [apply inc_value_ge|].
    intros x [->|Hx]%insert_elem Hb; [done|].
    pose proof (members_pos _ us x Hx Hb). lia.
  - destruct V as (V1 & V2 & V3 & V4); [lia|].
    pose proof (inc_value_old _ bk Hbk ltac:(lia)). pose proof inc_value_ge.
    destruct (Z.ltb_spec (bvalue bk) (value u)); split_and!; try done; try lia;
      intros x [->|Hx]%insert_elem Hb; simpl; try lia; specialize (V4 x Hx Hb); lia.
Qed.

Lemma inc_uinv :
  uinv (mk_ucrq r' (<[Z.to_nat (bucket_id u) := inc_bucket bk u]> (bucket ur)))
    (<[n := u']> us).
Proof.
  pose proof (aref_Some_range _ _ _ Hbk) as Hr. split; simpl.
  - rewrite length_insert. apply (ui_len ur us I).
  - intros x [->|Hx]%insert_elem Ha; [done|by apply (ui_se ur us I)].
  - intros b bk1 H1. pose proof (aref_Some_range _ _ _ H1) as Hb. rewrite length_insert in Hb.
    rewrite aref_insert in H1 by lia. destruct (Z.eqb_spec b (bucket_id u)) as [->|Hne].
    { injection H1 as <-. apply inc_bucket_ok. }
    pose proof (ui_bucket ur us I b bk1 H1) as [C V]. split.
    { rewrite inc_members. destruct (Z.eqb_spec (bucket_id u) b); [congruence|lia]. }
    intros Ht. destruct (V Ht) as (V1 & V2 & V3 & V4). split_and!; try done; try lia.
    { by apply (inc_value_old b). }
    intros x [->|Hx]%insert_elem Hbx; [|by apply V4].
    unfold in_bucket in Hbx. simpl in Hbx. zcase. congruence.
  - right. pose proof (ui_bucket ur us I _ bk Hbk) as [C V].
    pose proof (members_nonneg (bucket_id u) us). unfold r', inc_value, inc_bucket.
    assert (New : forall r, r = (if (btasks bk + 1 =? 1) || (bvalue bk <? value u)
                                 then value u else bvalue bk) ->
      exists b bk1, aref (<[Z.to_nat (bucket_id u) := inc_bucket bk u]> (bucket ur)) b = Some bk1
        /\ 0 < btasks bk1 /\ r = bvalue bk1).
    { intros r ->. exists (bucket_id u), (inc_bucket bk u).
      rewrite aref_insert, Z.eqb_refl by lia. simpl. split_and!; try done; lia. }
    destruct (ui_top ur us I) as [N|(b1 & bk1 & H1 & Ht & E)].
    { apply New. rewrite (members_none _ us N) in C. rewrite C. simpl.
      destruct Hu. destruct (Hnone N) as [-> | Hr0]; [lia|destruct idle; lia]. }
    destruct idle; [destruct (not_none_active ur us b1 bk1 I H1 Ht); by apply Hidle|].
    destruct (Z.eq_dec b1 (bucket_id u)) as [->|Hne].
    { assert (bk1 = bk) as -> by congruence. apply New.
      destruct (Z.eqb_spec (btasks bk + 1) 1); [lia|]. simpl.
      destruct (Z.ltb_spec (bvalue bk) (value u)); lia. }
    destruct (Z.le_gt_cases (value u) (rvalue ur)).
    + exists b1, bk1. pose proof (aref_Some_range _ _ _ H1).
      rewrite aref_insert by lia. destruct (Z.eqb_spec b1 (bucket_id u)); [done|].
      split_and!; try done; lia.
    + apply New. destruct (Z.eqb_spec (btasks bk + 1) 1) as [E1|E1]; simpl; [lia|].
      destruct (V ltac:(lia)) as (_ & _ & V3 & _).
      destruct (Z.ltb_spec (bvalue bk) (value u)); lia.
Qed.

End Inc.

(** ** Counting a task out *)

Lemma top_bucket_spec bs k :
  (k <= length bs)%nat ->
  exists r, top_bucket bs k = Some r /\
    match r with
    | None => forall j bk, (j < k)%nat -> bs !! j = Some bk -> btasks bk = 0
    | Some v => exists j bk, (j < k)%nat /\ bs !! j = Some bk /\ btasks bk <> 0 /\ v = bvalue bk /\
        forall j' bk', (j < j' < k)%nat -> bs !! j' = Some bk' -> btasks bk' = 0
    end.
Proof.
  induction k as [|k IH]; intros Hk; simpl.
  { exists None. split; [done|]. intros. lia. }
  destruct (lookup_lt_is_Some_2 bs k ltac:(lia)) as [bk Hbk]. rewrite Hbk. simpl.
  destruct (Z.eqb_spec (btasks bk) 0) as [E|E].
  - destruct (IH ltac:(lia)) as (r & -> & Hr). exists r. split; [done|]. destruct r as [v|].
    + destruct Hr as (j & b & Hj & Hb & Hb0 & Hv & Hmax). exists j, b. split_and!; try done; [lia|].
      intros j' bk' Hj' Hl. destruct (decide (j' = k)) as [->|]; [congruence|].
      apply (Hmax j'); [lia|done].
    + intros j b Hj Hb. destruct (decide (j = k)) as [->|]; [congruence|]. apply (Hr j); [lia|done].
  - exists (Some (bvalue bk)). split; [done|]. exists k, bk. split_and!; try done; [lia|].
    intros. lia.
Qed.

Section Dec.
Context (ur : uclamp_rq) (us : list uclamp_se) (n : nat) (u : uclamp_se) (bk : uclamp_bucket).
Context (I : uinv ur us) (Hn : us !! n = Some u) (Ha : active u = true).
Context (Hbk : aref (bucket ur) (bucket_id u) = Some bk) (Hpos : 0 < btasks bk).

Let u' := with_active u false.
Let us' := <[n := u']> us.
Let bk' := mk_bucket (bvalue bk) (btasks bk - 1).
Let bs' := <[Z.to_nat (bucket_id u) := bk']> (bucket ur).

Lemma dec_members b : members b us' = members b us - (if bucket_id u =? b then 1 else 0).
Proof.
  unfold us'. rewrite (members_insert b us n u u' Hn). unfold in_bucket. rewrite Ha. simpl.
  destruct (bucket_id u =? b); simpl; lia.
Qed.

(** The old bucket behind a new one. *)
Lemma dec_lookup b b1 :
  aref bs' b = Some b1 ->
  exists b0, aref (bucket ur) b = Some b0 /\ bvalue b1 = bvalue b0 /\
    btasks b1 = btasks b0 - (if bucket_id u =? b then 1 else 0).
Proof.
  intros H. pose proof (aref_Some_range _ _ _ Hbk) as Hr.
  pose proof (aref_Some_range _ _ _ H) as Hb. unfold bs' in *. rewrite length_insert in Hb.
  rewrite aref_insert in H by lia. destruct (Z.eqb_spec b (bucket_id u)) as [->|Hne].
  - injection H as <-. exists bk. rewrite Z.eqb_refl. done.
  - exists b1. destruct (Z.eqb_spec (bucket_id u) b); [congruence|]. split_and!; try done. lia.
Qed.

Lemma dec_new_bucket : aref bs' (bucket_id u) = Some bk'.
Proof.
  pose proof (aref_Some_range _ _ _ Hbk). unfold bs'. rewrite aref_insert by lia.
  by rewrite Z.eqb_refl.
Qed.

(** The invariant for a value that covers the occupied buckets. *)
Lemma dec_uinv r :
  (forall b b1, aref bs' b = Some b1 -> 0 < btasks b1 -> bvalue b1 <= r) ->
  (none_active us' \/ exists b b1, aref bs' b = Some b1 /\ 0 < btasks b1 /\ r = bvalue b1) ->
  uinv (mk_ucrq r bs') us'.
Proof.
  intros Hcov Htop. split; simpl; [| | |done].
  - unfold bs'. rewrite length_insert. apply (ui_len ur us I).
  - intros x [->|Hx]%insert_elem Hx2; [done|by apply (ui_se ur us I)].
  - intros b b1 H1. destruct (dec_lookup b b1 H1) as (b0 & H0 & Ev & Et).
    pose proof (ui_bucket ur us I b b0 H0) as [C V]. split; [rewrite dec_members; lia|].
    intros Ht. destruct (V ltac:(destruct (bucket_id u =? b); lia)) as (V1 & V2 & V3 & V4).
    rewrite Ev. split_and!; try done; try lia; [rewrite <- Ev; by apply (Hcov b)|].
    intros x [->|Hx]%insert_elem Hbx; [done|by apply V4].
Qed.

(** The topmost occupied bucket has the greatest value. *)
Lemma dec_top_value k b1 :
  bs' !! k = Some b1 -> btasks b1 <> 0 ->
  (forall j bj, (k < j < Z.to_nat UCLAMP_BUCKETS)%nat -> bs' !! j = Some bj -> btasks bj = 0) ->
  forall b b2, aref bs' b = Some b2 -> 0 < btasks b2 -> bvalue b2 <= bvalue b1.
Proof.
  intros Hk Ht Hmax b b2 H2 Ht2. pose proof (ui_len ur us I) as Hl.
  assert (Hk' : aref bs' (Z.of_nat k) = Some b1).
  { unfold aref. destruct (Z.leb_spec 0 (Z.of_nat k)); [|lia]. by rewrite Nat2Z.id. }
  pose proof (aref_Some_range _ _ _ H2) as R2. unfold bs' in R2. rewrite length_insert in R2.
  destruct (dec_lookup _ _ Hk') as (a1 & A1 & E1 & T1).
  destruct (dec_lookup _ _ H2) as (a2 & A2 & E2 & T2).
  pose proof (ui_bucket ur us I _ a1 A1) as [C1 V1].
  pose proof (ui_bucket ur us I _ a2 A2) as [C2 V2].
  pose proof (members_nonneg (Z.of_nat k) us).
  assert (P1 : 0 < btasks a1).
  { pose proof (members_nonneg (Z.of_nat k) us') as M. rewrite dec_members in M.
    destruct (bucket_id u =? Z.of_nat k); lia. }
  destruct (V1 P1) as (_ & B1 & _).
  destruct (V2 ltac:(destruct (bucket_id u =? b); lia)) as (_ & B2 & _).
  destruct (Z.lt_trichotomy b (Z.of_nat k)) as [L|[->|G]].
  - rewrite E1, E2. apply Z.lt_le_incl, bucket_id_lt. lia.
  - assert (b1 = b2) by congruence. subst. lia.
  - exfalso. assert (btasks b2 = 0); [|lia]. apply (Hmax (Z.to_nat b)); [lia|].
    unfold aref in H2. by destruct (Z.leb_spec 0 b); [|lia].
Qed.

(** Without occupied buckets nothing is active. *)
Lemma dec_none :
  (forall b b1, aref bs' b = Some b1 -> btasks b1 = 0) -> none_active us'.
Proof.
  intros H x Hx. destruct (active x) eqn:Ex; [|done].
  assert (Sx : se_ok x).
  { apply insert_elem in Hx as [->|Hx]; [done|by apply (ui_se ur us I)]. }
  assert (Hb : in_bucket (bucket_id x) x = true) by (unfold in_bucket; rewrite Ex; apply Z.eqb_refl).
  pose proof (members_pos _ _ _ Hx Hb) as M.
  destruct (aref_lt bs' (bucket_id x)) as [b1 Hb1].
  { unfold bs'. rewrite length_insert, (ui_len ur us I). destruct Sx as [? ->].
    apply bucket_id_range. lia. }
  destruct (dec_lookup _ _ Hb1) as (b0 & H0 & _ & Et). rewrite (H _ _ Hb1) in Et.
  pose proof (bo_count _ _ _ _ (ui_bucket ur us I _ b0 H0)) as C.
  rewrite dec_members in M. lia.
Qed.

(** An occupied bucket is left with the value of the run queue. *)
Lemma dec_keep :
  1 < btasks bk \/ bvalue bk < rvalue ur ->
  uinv (mk_ucrq (rvalue ur) bs') us' /\ ~ none_active us'.
Proof.
  intros Hc.
  assert (T : exists b b1, aref bs' b = Some b1 /\ 0 < btasks b1 /\ rvalue ur = bvalue b1).
  { destruct (ui_top ur us I) as [N|(b & b1 & H1 & Ht & E)].
    { pose proof (N u (list_elem_of_lookup_2 _ _ _ Hn)). congruence. }
    destruct (Z.eq_dec b (bucket_id u)) as [->|Hne].
    - assert (b1 = bk) as -> by congruence. exists (bucket_id u), bk'.
      split_and!; [apply dec_new_bucket|simpl; lia|done].
    - exists b, b1. pose proof (aref_Some_range _ _ _ Hbk). split_and!; try done.
      unfold bs'. pose proof (aref_Some_range _ _ _ H1). rewrite aref_insert by lia.
      by destruct (Z.eqb_spec b (bucket_id u)). }
  assert (K : uinv (mk_ucrq (rvalue ur) bs') us').
  { apply dec_uinv; [|by right]. intros b b1 H1 Ht.
    destruct (dec_lookup b b1 H1) as (b0 & H0 & -> & Et).
    destruct (bo_value _ _ _ _ (ui_bucket ur us I b b0 H0)) as (_ & _ & V & _); [|done].
    destruct (bucket_id u =? b); lia. }
  split; [done|]. destruct T as (b & b1 & H1 & Ht & _).
  by apply (not_none_active (mk_ucrq (rvalue ur) bs') us' b b1).
Qed.

(** The value is recomputed from the buckets. *)
Lemma dec_recompute :
  exists r, top_bucket bs' (Z.to_nat UCLAMP_BUCKETS) = Some r /\
    match r with
    | Some v => uinv (mk_ucrq v bs') us' /\ ~ none_active us'
    | None => none_active us' /\ forall v, uinv (mk_ucrq v bs') us'
    end.
Proof.
  pose proof (ui_len ur us I) as Hl.
  assert (Hl' : length bs' = Z.to_nat UCLAMP_BUCKETS) by (unfold bs'; rewrite length_insert; lia).
  destruct (top_bucket_spec bs' (Z.to_nat UCLAMP_BUCKETS)) as (r & E & Hr); [lia|].
  exists r. split; [done|]. destruct r as [v|].
  - destruct Hr as (j & b1 & Hj & Hb1 & Ht & -> & Hmax).
    assert (H1 : aref bs' (Z.of_nat j) = Some b1).
    { unfold aref. destruct (Z.leb_spec 0 (Z.of_nat j)); [|lia]. by rewrite Nat2Z.id. }
    assert (Hp : 0 < btasks b1).
    { destruct (dec_lookup _ _ H1) as (b0 & H0 & _ & Et).
      pose proof (bo_count _ _ _ _ (ui_bucket ur us I _ b0 H0)) as C.
      pose proof (members_nonneg (Z.of_nat j) us') as M. rewrite dec_members in M. lia. }
    assert (K : uinv (mk_ucrq (bvalue b1) bs') us').
    { apply dec_uinv; [by apply (dec_top_value j)|]. right. by exists (Z.of_nat j), b1. }
    split; [done|]. by apply (not_none_active _ us' (Z.of_nat j) b1 K).
  - assert (H0 : forall b b1, aref bs' b = Some b1 -> btasks b1 = 0).
    { intros b b1 H1. pose proof (aref_Some_range _ _ _ H1). apply (Hr (Z.to_nat b)); [lia|].
      unfold aref in H1. by destruct (Z.leb_spec 0 b); [|lia]. }
    pose proof (dec_none H0) as N. split; [done|]. intros v. apply dec_uinv; [|by left].
    intros b b1 H1 Ht. rewrite (H0 b b1 H1) in Ht. lia.
Qed.

End Dec.

Definition other (id : uclamp_id) : uclamp_id :=
  match id with UCLAMP_MIN => UCLAMP_MAX | UCLAMP_MAX => UCLAMP_MIN end.

(** [uclamp_rq_dec_id] of a runnable task: no warning, the invariant without the
    task, and what is left when it was the last one. *)
Lemma dec_id_ok q p id us n :
  let u := cget (t_uclamp p) id in
  let us' := <[n := with_active u false]> us in
  uinv (cget (uclamp q) id) us -> us !! n = Some u -> active u = true ->
  exists q',
    uclamp_rq_dec_id q p id =
      Some (q', with_uclamp p (cset (t_uclamp p) id (with_active u false)), true) /\
    uinv (cget (uclamp q') id) us' /\
    cget (uclamp q') (other id) = cget (uclamp q) (other id) /\
    (none_active us' ->
       match id with
       | UCLAMP_MIN => rvalue (cget (uclamp q') id) = 0 /\ uclamp_flags q' = uclamp_flags q
       | UCLAMP_MAX => rvalue (cget (uclamp q') id) = value u /\
           uclamp_flags q' = Z.lor (uclamp_flags q) UCLAMP_FLAG_IDLE
       end) /\
    (~ none_active us' -> uclamp_flags q' = uclamp_flags q).
Proof.
  intros u us' I Hn Ha.
  destruct (active_bucket _ us u I (list_elem_of_lookup_2 _ _ _ Hn) Ha) as (bk & Hbk & Ht & Hv).
  pose proof (aref_Some_range _ _ _ Hbk) as Hr.
  assert (Hset : forall x, set_bucket q id (bucket_id u) x =
    Some (mk_rq (cset (uclamp q) id (mk_ucrq (uclamp_rq_get q id)
            (<[Z.to_nat (bucket_id u) := x]> (bucket (cget (uclamp q) id))))) (uclamp_flags q))).
  { intros x. unfold set_bucket. by rewrite aset_lt. }
  unfold uclamp_rq_dec_id. fold u. rewrite Ha, Hbk. simpl.
  destruct (Z.eqb_spec (btasks bk) 0) as [|_]; [lia|]. rewrite Hset. simpl.
  pose proof (dec_keep _ us n u bk I Hn Ha Hbk) as Hkeep.
  destruct (dec_recompute _ us n u bk I Hn Ha Hbk) as (r & Er & Hrec).
  destruct (Z.eqb_spec (btasks bk - 1) 0) as [E1|E1]; simpl.
  2:{ destruct Hkeep as [K N]; [lia|]. eexists. split; [reflexivity|]. simpl. rewrite cget_cset.
      split_and!; try done. by destruct id. }
  unfold uclamp_rq_get. simpl. rewrite cget_cset. simpl.
  destruct (Z.ltb_spec (rvalue (cget (uclamp q) id)) (bvalue bk)) as [|_]; [lia|]. simpl.
  destruct (Z.leb_spec (rvalue (cget (uclamp q) id)) (bvalue bk)) as [L|L].
  2:{ destruct Hkeep as [K N]; [lia|]. eexists. split; [reflexivity|]. simpl. rewrite cget_cset.
      split_and!; try done. by destruct id. }
  unfold uclamp_rq_max_value. simpl. rewrite cget_cset. simpl. rewrite Er. simpl.
  destruct r as [v|].
  - destruct Hrec as [K N]. eexists. split; [reflexivity|]. simpl. rewrite !cget_cset. simpl.
    split_and!; try done. by destruct id.
  - destruct Hrec as [N K]. destruct id; simpl; (eexists; split; [reflexivity|]); simpl;
      split_and!; try done; apply K.
Qed.

(** [uclamp_rq_inc_id] of a task that is not counted yet. *)
Lemma inc_id_ok dflt q p id us n u0 :
  let u := uclamp_eff_get dflt p id in
  uinv (cget (uclamp q) id) us -> us !! n = Some u0 -> active u0 = false -> se_ok u ->
  (uclamp_rq_is_idle q = true -> none_active us) ->
  (none_active us -> uclamp_rq_is_idle q = true \/ rvalue (cget (uclamp q) id) <= 0) ->
  exists q',
    uclamp_rq_inc_id dflt q p id =
      Some (q', with_uclamp p (cset (t_uclamp p) id (with_active u true))) /\
    uinv (cget (uclamp q') id) (<[n := with_active u true]> us) /\
    cget (uclamp q') (other id) = cget (uclamp q) (other id) /\
    uclamp_flags q' = uclamp_flags q /\
    uclamp_rq_get q' id = inc_value (uclamp_rq_is_idle q) (cget (uclamp q) id) u.
Proof.
  intros u I Hn Ha Hu Hi Hnone. destruct (aref_lt (bucket (cget (uclamp q) id)) (bucket_id u)) as [bk Hbk].
  { rewrite (ui_len _ us I). destruct Hu as [? ->]. apply bucket_id_range. lia. }
  eexists. split; [by apply inc_id_eq|]. unfold uclamp_rq_get. simpl. rewrite cget_cset.
  split_and!; [|by destruct id|done|done].
  by apply (inc_uinv _ us n u0).
Qed.

(** ** A run queue and its tasks *)

Record sys := mk_sys {
  s_rq : rq;
  s_tasks : list task;
  s_used : bool;
  s_dflt : per_clamp uclamp_se
}.

(** Enqueueing, dequeueing and refreshing the [n]-th task, forking it, a new
    request, class or group limit of the [n]-th task, a new system default, and
    the first use of clamping. *)
Inductive op :=
| Enqueue (n : nat)
| Dequeue (n : nat)
| Update (n : nat)
| Fork (reset_on_fork : bool) (n : nat)
| Request (n : nat) (req : per_clamp uclamp_se) (enabled : bool) (tg : option (Z * Z))
| Default (dflt : per_clamp uclamp_se)
| Use.

Definition set_task (s : sys) (n : nat) (q : rq) (p : task) : sys :=
  mk_sys q (<[n := p]> (s_tasks s)) (s_used s) (s_dflt s).

Definition exec (s : sys) (o : op) : option (sys * bool) :=
  match o with
  | Enqueue n =>
    p ← s_tasks s !! n;
    '(q, p) ← uclamp_rq_inc (s_used s) (s_dflt s) (s_rq s) p;
    Some (set_task s n q p, true)
  | Dequeue n =>
    p ← s_tasks s !! n;
    '(q, p, ok) ← uclamp_rq_dec (s_used s) (s_rq s) p;
    Some (set_task s n q p, ok)
  | Update n =>
    p ← s_tasks s !! n;
    '(q, p, ok) ← uclamp_update_active (s_dflt s) (s_rq s) p;
    Some (set_task s n q p, ok)
  | Fork r n =>
    p ← s_tasks s !! n;
    Some (mk_sys (s_rq s) (s_tasks s ++ [uclamp_fork r p]) (s_used s) (s_dflt s), true)
  | Request n req en tg =>
    p ← s_tasks s !! n;
    Some (set_task s n (s_rq s) (mk_task req (t_uclamp p) en tg), true)
  | Default d => Some (mk_sys (s_rq s) (s_tasks s) (s_used s) d, true)
  | Use => Some (mk_sys (s_rq s) (s_tasks s) true (s_dflt s), true)
  end.

(** The run queue counts the task: it was enqueued, in a class with clamps, after the
    first use of clamping.  A task that was enqueued before is runnable but not counted. *)
Definition accounted (p : task) : bool := active (c_min (t_uclamp p)).

Definition per_ok (c : per_clamp uclamp_se) : Prop := se_ok (c_min c) /\ se_ok (c_max c).
Definition tg_ok (tg : option (Z * Z)) : Prop :=
  forall lo hi, tg = Some (lo, hi) ->
  0 <= lo <= SCHED_CAPACITY_SCALE /\ 0 <= hi <= SCHED_CAPACITY_SCALE.

(** A task is enqueued once; requests, limits and defaults are between 0 and 1024, in the
    bucket of their value.  [uclamp_validate] does not reject requests below -1, which are
    outside ([UclampConf.negative_request_accepted]). *)
Definition op_ok (s : sys) (o : op) : Prop :=
  match o with
  | Enqueue n => exists p, s_tasks s !! n = Some p /\ accounted p = false
  | Dequeue n | Update n | Fork _ n => is_Some (s_tasks s !! n)
  | Request n req _ tg => is_Some (s_tasks s !! n) /\ per_ok req /\ tg_ok tg
  | Default d => per_ok d
  | Use => True
  end.

(** Tasks that were never enqueued. *)
Definition fresh (p : task) : Prop :=
  active (c_min (t_uclamp p)) = false /\ active (c_max (t_uclamp p)) = false /\
  per_ok (uclamp_req p) /\ tg_ok (tg_uclamp p).

Inductive reach : sys -> Prop :=
| reach_init ts used d :
    Forall fresh ts -> per_ok d -> reach (mk_sys init_uclamp_rq ts used d)
| reach_step s o s' ok :
    reach s -> op_ok s o -> exec s o = Some (s', ok) -> reach s'.

Definition clamps (id : uclamp_id) (ts : list task) : list uclamp_se :=
  (fun p => cget (t_uclamp p) id) <$> ts.

Record sinv (s : sys) : Prop := mk_sinv {
  si_inv : forall id, uinv (cget (uclamp (s_rq s)) id) (clamps id (s_tasks s));
  si_same : forall p, p ∈ s_tasks s -> active (c_min (t_uclamp p)) = active (c_max (t_uclamp p));
  si_idle : uclamp_rq_is_idle (s_rq s) = true <-> none_active (clamps UCLAMP_MIN (s_tasks s));
  si_min : none_active (clamps UCLAMP_MIN (s_tasks s)) ->
    rvalue (cget (uclamp (s_rq s)) UCLAMP_MIN) = 0;
  si_req : forall p, p ∈ s_tasks s -> per_ok (uclamp_req p) /\ tg_ok (tg_uclamp p);
  si_dflt : per_ok (s_dflt s)
}.

Lemma idle_set q u : uclamp_rq_is_idle (mk_rq u (Z.lor (uclamp_flags q) UCLAMP_FLAG_IDLE)) = true.
Proof.
  unfold uclamp_rq_is_idle, z2b, UCLAMP_FLAG_IDLE. simpl.
  rewrite Z.land_lor_distr_l. change (Z.land 1 1) with 1.
  destruct (Z.eqb_spec (Z.lor (Z.land (uclamp_flags q) 1) 1) 0) as [E|]; [|done].
  apply (f_equal (fun z => Z.testbit z 0)) in E. rewrite Z.lor_spec in E. simpl in E.
  by rewrite orb_true_r in E.
Qed.

Lemma idle_cleared q : uclamp_rq_is_idle (clear_idle q) = false.
Proof.
  unfold uclamp_rq_is_idle, clear_idle, z2b, UCLAMP_FLAG_IDLE. simpl.
  rewrite Z.ldiff_land, <- Z.land_assoc, (Z.land_comm (Z.lnot 1)), Z.land_lnot_diag.
  by rewrite Z.land_0_r.
Qed.

Lemma idle_flags q q' : uclamp_flags q' = uclamp_flags q -> uclamp_rq_is_idle q' = uclamp_rq_is_idle q.
Proof. unfold uclamp_rq_is_idle. by intros ->. Qed.

Lemma idle_set' q q' :
  uclamp_flags q' = Z.lor (uclamp_flags q) UCLAMP_FLAG_IDLE -> uclamp_rq_is_idle q' = true.
Proof. intros E. rewrite <- (idle_set q (uclamp q')). unfold uclamp_rq_is_idle. simpl. by rewrite E. Qed.

Lemma none_dec us : none_active us \/ ~ none_active us.
Proof.
  destruct (existsb active us) eqn:E.
  - right. apply existsb_exists in E as (u & Hu%list_elem_of_In & Ha).
    intros N. rewrite (N u Hu) in Ha. done.
  - left. intros u Hu%list_elem_of_In. destruct (active u) eqn:Ea; [|done].
    rewrite (proj2 (existsb_exists _ us)) in E; [done|]. by exists u.
Qed.

Lemma none_not us n u : us !! n = Some u -> active u = true -> ~ none_active us.
Proof. intros Hn Ha N. rewrite (N u (list_elem_of_lookup_2 _ _ _ Hn)) in Ha. done. Qed.

Lemma none_same ts :
  (forall p, p ∈ ts -> active (c_min (t_uclamp p)) = active (c_max (t_uclamp p))) ->
  none_active (clamps UCLAMP_MIN ts) <-> none_active (clamps UCLAMP_MAX ts).
Proof.
  intros H. unfold none_active, clamps. split; intros N u (p & -> & Hp)%list_elem_of_fmap;
    pose proof (N _ (list_elem_of_fmap_2 _ _ _ Hp)) as E; simpl in *; rewrite <- E;
    [symmetry|]; by apply H.
Qed.

Lemma clamps_insert id ts n p :
  clamps id (<[n := p]> ts) = <[n := cget (t_uclamp p) id]> (clamps id ts).
Proof. unfold clamps. by rewrite list_fmap_insert. Qed.

Lemma clamps_lookup id ts n p :
  ts !! n = Some p -> clamps id ts !! n = Some (cget (t_uclamp p) id).
Proof. intros H. unfold clamps. by rewrite list_lookup_fmap, H. Qed.

Lemma se_set_ok u v b : 0 <= v <= SCHED_CAPACITY_SCALE -> se_ok (uclamp_se_set u v b).
Proof.
  unfold SCHED_CAPACITY_SCALE. intros H. unfold se_ok, uclamp_se_set, SCHED_CAPACITY_SCALE. simpl.
  rewrite Z.mod_small by lia. done.
Qed.

Lemma eff_ok dflt p id :
  per_ok dflt -> per_ok (uclamp_req p) -> tg_ok (tg_uclamp p) -> se_ok (uclamp_eff_get dflt p id).
Proof.
  intros [D1 D2] [R1 R2] T. unfold uclamp_eff_get.
  destruct (value (cget dflt id) <? _); [by destruct id|].
  assert (R : se_ok (cget (uclamp_req p) id)) by by destruct id.
  unfold uclamp_tg_restrict. destruct (tg_uclamp p) as [[lo hi]|]; [|done].
  destruct (T lo hi eq_refl), R. apply se_set_ok. unfold clamp. repeat case_match; lia.
Qed.

Lemma cset_cset {A} (c : per_clamp A) id x y : cset (cset c id x) id y = cset c id y.
Proof. by destruct id. Qed.

(** [uclamp_rq_reinc_id] of a runnable task counts it under its new clamp. *)
Lemma reinc_id_ok dflt q p id us n :
  let u := cget (t_uclamp p) id in
  let e := uclamp_eff_get dflt p id in
  uinv (cget (uclamp q) id) us -> us !! n = Some u -> active u = true -> se_ok e ->
  uclamp_rq_is_idle q = false ->
  exists q',
    uclamp_rq_reinc_id dflt q p id =
      Some (q', with_uclamp p (cset (t_uclamp p) id (with_active e true)), true) /\
    uinv (cget (uclamp q') id) (<[n := with_active e true]> us) /\
    cget (uclamp q') (other id) = cget (uclamp q) (other id) /\
    uclamp_rq_is_idle q' = false.
Proof.
  intros u e I Hn Ha He Hidle. unfold uclamp_rq_reinc_id. fold u. rewrite Ha. simpl.
  destruct (dec_id_ok q p id us n I Hn Ha) as (q1 & -> & I1 & O1 & N1 & A1). simpl.
  set (us1 := <[n := with_active u false]> us) in *.
  assert (H1 : us1 !! n = Some (with_active u false)).
  { apply list_lookup_insert_eq. by eapply lookup_lt_Some. }
  set (p1 := with_uclamp p _).
  destruct (inc_id_ok dflt q1 p1 id us1 n (with_active u false) I1 H1) as (q2 & -> & I2 & O2 & F2 & _);
    try done.
  - destruct (none_dec us1) as [N|N]; [done|]. rewrite (idle_flags q q1 (A1 N)). congruence.
  - intros N. specialize (N1 N). destruct id; [right; lia|left]. by apply (idle_set' q), N1.
  - simpl. rewrite cset_cset. unfold us1 in I2. rewrite list_insert_insert_eq in I2.
    eexists. split; [reflexivity|].
    assert (E : uclamp (match id with UCLAMP_MIN => q2
      | UCLAMP_MAX => if uclamp_rq_is_idle q2 then clear_idle q2 else q2 end) = uclamp q2).
    { destruct id; [done|]. by destruct (uclamp_rq_is_idle q2). }
    rewrite E. split_and!; [done|congruence|]. destruct id.
    + rewrite (idle_flags q1 q2 F2). destruct (none_dec us1) as [N|N].
      * by rewrite (idle_flags q q1 (proj2 (N1 N))).
      * by rewrite (idle_flags q q1 (A1 N)).
    + destruct (uclamp_rq_is_idle q2) eqn:E2; [apply idle_cleared|done].
Qed.

Lemma reinc_inactive dflt q p id :
  active (cget (t_uclamp p) id) = false -> uclamp_rq_reinc_id dflt q p id = Some (q, p, true).
Proof. intros H. unfold uclamp_rq_reinc_id. by rewrite H. Qed.

Lemma dec_inactive q p id :
  active (cget (t_uclamp p) id) = false -> uclamp_rq_dec_id q p id = Some (q, p, true).
Proof. intros H. unfold uclamp_rq_dec_id. by rewrite H. Qed.

(** ** Every operation keeps the invariant *)

Section Step.
Context (s : sys) (n : nat) (p : task).
Context (I : sinv s) (Hn : s_tasks s !! n = Some p).

Let us id := clamps id (s_tasks s).

Lemma task_in : p ∈ s_tasks s.
Proof. by eapply list_elem_of_lookup_2. Qed.

Lemma task_eff_ok id : se_ok (uclamp_eff_get (s_dflt s) p id).
Proof.
  destruct (si_req s I p task_in). apply eff_ok; [apply (si_dflt s I)|done|done].
Qed.

Lemma sinv_set q c :
  (forall id, uinv (cget (uclamp q) id) (<[n := cget c id]> (us id))) ->
  active (c_min c) = active (c_max c) ->
  (uclamp_rq_is_idle q = true <-> none_active (<[n := c_min c]> (us UCLAMP_MIN))) ->
  (none_active (<[n := c_min c]> (us UCLAMP_MIN)) -> rvalue (cget (uclamp q) UCLAMP_MIN) = 0) ->
  sinv (set_task s n q (with_uclamp p c)).
Proof.
  intros Hu Ha Hi Hm. split; simpl.
  - intros id. rewrite clamps_insert. apply Hu.
  - intros x [->|Hx]%insert_elem; [done|by apply (si_same s I)].
  - rewrite clamps_insert. apply Hi.
  - rewrite clamps_insert. apply Hm.
  - intros x [->|Hx]%insert_elem; simpl; [apply (si_req s I), task_in|by apply (si_req s I)].
  - apply (si_dflt s I).
Qed.

Lemma set_task_id : set_task s n (s_rq s) p = s.
Proof. unfold set_task. rewrite list_insert_id by done. by destruct s. Qed.

Lemma not_idle id : active (cget (t_uclamp p) id) = true -> uclamp_rq_is_idle (s_rq s) = false.
Proof.
  intros Ha. destruct (uclamp_rq_is_idle (s_rq s)) eqn:E; [|done].
  apply (si_idle s I) in E. rewrite <- Ha. pose proof (si_same s I p task_in) as Hs.
  pose proof (E _ (list_elem_of_lookup_2 _ _ _ (clamps_lookup UCLAMP_MIN _ _ _ Hn))) as Em.
  simpl in Em. destruct id; simpl; congruence.
Qed.

Lemma new_lookup id u : <[n := u]> (us id) !! n = Some u.
Proof.
  apply list_lookup_insert_eq. unfold us, clamps. rewrite length_fmap.
  by eapply lookup_lt_Some.
Qed.

Lemma new_not_none id u : active u = true -> ~ none_active (<[n := u]> (us id)).
Proof. apply none_not with n, new_lookup. Qed.

(** The first task after an idle period sets the clamps of the run queue. *)
Lemma enqueue_ok :
  accounted p = false ->
  exists s', exec s (Enqueue n) = Some (s', true) /\ sinv s' /\
    (s_used s = true -> uclamp_enabled p = true -> uclamp_rq_is_idle (s_rq s) = true ->
     forall id, uclamp_rq_get (s_rq s') id = value (uclamp_eff_get (s_dflt s) p id)) /\
    (s_used s = true -> uclamp_enabled p = true ->
     exists p', s_tasks s' = <[n := p']> (s_tasks s) /\ accounted p' = true).
Proof.
  intros Hr. unfold exec. rewrite Hn. simpl. unfold uclamp_rq_inc.
  destruct (s_used s); simpl; [|rewrite set_task_id; exists s; by split_and!].
  destruct (uclamp_enabled p); simpl; [|rewrite set_task_id; exists s; by split_and!].
  pose proof (si_same s I p task_in) as Hs. unfold accounted in Hr.
  pose proof (none_same _ (si_same s I)) as Hsame.
  destruct (inc_id_ok (s_dflt s) (s_rq s) p UCLAMP_MIN (us UCLAMP_MIN) n
    (c_min (t_uclamp p))) as (q1 & -> & I1 & O1 & F1 & G1); try done.
  - apply (si_inv s I).
  - by apply (clamps_lookup UCLAMP_MIN).
  - apply task_eff_ok.
  - apply (si_idle s I).
  - intros N. left. by apply (si_idle s I).
  - simpl. set (p1 := with_uclamp p _).
    destruct (inc_id_ok (s_dflt s) q1 p1 UCLAMP_MAX (us UCLAMP_MAX) n
      (c_max (t_uclamp p))) as (q2 & -> & I2 & O2 & F2 & G2); simpl in *.
    + rewrite O1. apply (si_inv s I UCLAMP_MAX).
    + by apply (clamps_lookup UCLAMP_MAX).
    + congruence.
    + apply (task_eff_ok UCLAMP_MAX).
    + rewrite (idle_flags _ _ F1). intros E. by apply Hsame, (si_idle s I).
    + intros N. left. rewrite (idle_flags _ _ F1). by apply (si_idle s I), Hsame.
    + assert (E : uclamp (if uclamp_rq_is_idle q2 then clear_idle q2 else q2) = uclamp q2)
        by by destruct (uclamp_rq_is_idle q2).
      assert (Hf : uclamp_rq_is_idle (if uclamp_rq_is_idle q2 then clear_idle q2 else q2) = false).
      { destruct (uclamp_rq_is_idle q2) eqn:E2; [apply idle_cleared|done]. }
      eexists. split; [reflexivity|]. split_and!; [|..|intros _ _; by eexists].
      2:{ intros _ _ Hi id. unfold uclamp_rq_get in *. simpl. rewrite E.
          rewrite (idle_flags _ _ F1), Hi in G2. rewrite Hi in G1. unfold inc_value in *.
          rewrite Z.max_id in *. destruct id; simpl in *; [by rewrite O2|done]. }
      apply (sinv_set _ (mk_per (with_active (uclamp_eff_get (s_dflt s) p UCLAMP_MIN) true)
                                (with_active (uclamp_eff_get (s_dflt s) p UCLAMP_MAX) true))).
      * rewrite E. intros []; simpl; [rewrite O2|]; done.
      * done.
      * rewrite Hf. split; [done|]. intros N. by apply (new_not_none UCLAMP_MIN) in N.
      * intros N. by apply (new_not_none UCLAMP_MIN) in N.
Qed.

Lemma update_ok : exists s', exec s (Update n) = Some (s', true) /\ sinv s'.
Proof.
  unfold exec. rewrite Hn. simpl. unfold uclamp_update_active.
  pose proof (si_same s I p task_in) as Hs.
  destruct (active (c_min (t_uclamp p))) eqn:Ha.
  2:{ rewrite reinc_inactive by done. simpl. rewrite reinc_inactive by done. simpl.
      rewrite set_task_id. by eauto. }
  destruct (reinc_id_ok (s_dflt s) (s_rq s) p UCLAMP_MIN (us UCLAMP_MIN) n)
    as (q1 & -> & I1 & O1 & F1); try done.
  - apply (si_inv s I).
  - by apply (clamps_lookup UCLAMP_MIN).
  - apply task_eff_ok.
  - by apply (not_idle UCLAMP_MIN).
  - simpl. set (p1 := with_uclamp p _).
    destruct (reinc_id_ok (s_dflt s) q1 p1 UCLAMP_MAX (us UCLAMP_MAX) n)
      as (q2 & -> & I2 & O2 & F2); simpl in *; try done.
    + rewrite O1. apply (si_inv s I UCLAMP_MAX).
    + by apply (clamps_lookup UCLAMP_MAX).
    + apply (task_eff_ok UCLAMP_MAX).
    + eexists. split; [reflexivity|].
      apply (sinv_set _ (mk_per (with_active (uclamp_eff_get (s_dflt s) p UCLAMP_MIN) true)
                                (with_active (uclamp_eff_get (s_dflt s) p UCLAMP_MAX) true))).
      * intros []; simpl; [rewrite O2|]; done.
      * done.
      * rewrite F2. split; [done|]. intros N. by apply (new_not_none UCLAMP_MIN) in N.
      * intros N. by apply (new_not_none UCLAMP_MIN) in N.
Qed.

(** A dequeued task leaves the clamps of the others; the last one leaves the run
    queue marked idle, with its maximum clamp. *)
Lemma dequeue_ok :
  exists s', exec s (Dequeue n) = Some (s', true) /\ sinv s' /\
    (s_used s = true -> uclamp_enabled p = true -> accounted p = true ->
     s_used s' = true /\
     (exists p', s_tasks s' = <[n := p']> (s_tasks s) /\ accounted p' = false) /\
     (none_active (clamps UCLAMP_MIN (s_tasks s')) ->
      uclamp_rq_get (s_rq s') UCLAMP_MAX = value (c_max (t_uclamp p)))).
Proof.
  unfold exec. rewrite Hn. simpl. unfold uclamp_rq_dec, accounted.
  destruct (s_used s) eqn:Eu; simpl; [|rewrite set_task_id; exists s; by split_and!].
  destruct (uclamp_enabled p); simpl; [|rewrite set_task_id; exists s; by split_and!].
  pose proof (si_same s I p task_in) as Hs.
  destruct (active (c_min (t_uclamp p))) eqn:Ha.
  2:{ rewrite dec_inactive by done. simpl. rewrite dec_inactive by done. simpl.
      rewrite set_task_id. exists s. by split_and!. }
  destruct (dec_id_ok (s_rq s) p UCLAMP_MIN (us UCLAMP_MIN) n)
    as (q1 & -> & I1 & O1 & N1 & A1); try done.
  { apply (si_inv s I). }
  { by apply (clamps_lookup UCLAMP_MIN). }
  simpl in *. set (p1 := with_uclamp p _).
  destruct (dec_id_ok q1 p1 UCLAMP_MAX (us UCLAMP_MAX) n)
    as (q2 & -> & I2 & O2 & N2 & A2); simpl in *; try done.
  { rewrite O1. apply (si_inv s I UCLAMP_MAX). }
  { by apply (clamps_lookup UCLAMP_MAX). }
  set (c := mk_per (with_active (c_min (t_uclamp p)) false) (with_active (c_max (t_uclamp p)) false)).
  set (ts := <[n := with_uclamp p c]> (s_tasks s)).
  assert (Hsame : none_active (clamps UCLAMP_MIN ts) <-> none_active (clamps UCLAMP_MAX ts)).
  { apply none_same. intros x [->|Hx]%insert_elem; [done|by apply (si_same s I)]. }
  unfold ts in Hsame. rewrite !clamps_insert in Hsame. simpl in Hsame.
  assert (Hni : uclamp_rq_is_idle (s_rq s) = false) by by apply (not_idle UCLAMP_MIN).
  eexists. split; [reflexivity|]. split.
  - apply (sinv_set _ c).
    + intros []; simpl; [rewrite O2|]; done.
    + done.
    + simpl. split.
      * intros E. destruct (none_dec (<[n := with_active (c_min (t_uclamp p)) false]>
          (us UCLAMP_MIN))) as [N|N]; [done|].
        rewrite (idle_flags q1 q2), (idle_flags (s_rq s) q1 (A1 N)) in E; [congruence|].
        apply A2. intros N'. by apply N, Hsame.
      * intros N. apply (idle_set' q1). by apply N2, Hsame.
    + simpl. intros N. rewrite O2. by apply N1.
  - intros _ _ _. split; [done|]. split; [by eexists|].
    simpl. rewrite clamps_insert. simpl. intros N. unfold uclamp_rq_get. simpl.
    by apply N2, Hsame.
Qed.

End Step.

Lemma sinv_request s n p req en tg :
  sinv s -> s_tasks s !! n = Some p -> per_ok req -> tg_ok tg ->
  sinv (set_task s n (s_rq s) (mk_task req (t_uclamp p) en tg)).
Proof.
  intros I Hn Hr Ht.
  assert (C : forall id, clamps id (<[n := mk_task req (t_uclamp p) en tg]> (s_tasks s)) =
                         clamps id (s_tasks s)).
  { intros id. rewrite clamps_insert. apply list_insert_id. by apply (clamps_lookup id _ n p). }
  destruct I as [I1 I2 I3 I4 I5 I6]. split; simpl; rewrite ?C; try done.
  - intros id. by rewrite C.
  - intros x [->|Hx]%insert_elem; [|by apply I2]. simpl. apply I2. by eapply list_elem_of_lookup_2.
  - intros x [->|Hx]%insert_elem; [done|by apply I5].
Qed.

Lemma uinv_app ur us u : uinv ur us -> active u = false -> uinv ur (us ++ [u]).
Proof.
  intros I Hu.
  assert (M : forall b, members b (us ++ [u]) = members b us).
  { intros b. unfold members. rewrite zsum_app. simpl. unfold in_bucket. rewrite Hu. simpl. lia. }
  assert (E : forall x, x ∈ us ++ [u] -> active x = true -> x ∈ us).
  { intros x [Hx| ->%list_elem_of_singleton]%elem_of_app Ha; [done|congruence]. }
  split; [apply (ui_len ur us I)| | |].
  - intros x Hx Ha. apply (ui_se ur us I); [by apply E|done].
  - intros b bk Hbk. destruct (ui_bucket ur us I b bk Hbk) as [C V]. split; [by rewrite M|].
    intros Ht. destruct (V Ht) as (V1 & V2 & V3 & V4). split_and!; try done; try lia.
    intros x Hx Hb. apply V4; [|done]. apply E; [done|]. unfold in_bucket in Hb.
    by destruct (active x).
  - destruct (ui_top ur us I) as [N|T]; [left|by right].
    intros x Hx. destruct (active x) eqn:Ex; [|done]. rewrite <- Ex. by apply N, E.
Qed.

Lemma none_app us u : active u = false -> none_active (us ++ [u]) <-> none_active us.
Proof.
  intros Hu. unfold none_active. split; intros N x Hx.
  - apply N, elem_of_app. by left.
  - apply elem_of_app in Hx as [Hx| ->%list_elem_of_singleton]; [by apply N|done].
Qed.

Lemma sinv_fork s n p r :
  sinv s -> s_tasks s !! n = Some p ->
  sinv (mk_sys (s_rq s) (s_tasks s ++ [uclamp_fork r p]) (s_used s) (s_dflt s)).
Proof.
  intros I Hn. destruct (si_req s I p (task_in s n p Hn)) as [R T].
  assert (A : forall id, active (cget (t_uclamp (uclamp_fork r p)) id) = false)
    by (by intros []; destruct r).
  assert (Q : per_ok (uclamp_req (uclamp_fork r p)) /\ tg_ok (tg_uclamp (uclamp_fork r p))).
  { unfold uclamp_fork. destruct r; simpl; [|done]. split; [|done].
    split; apply se_set_ok; simpl; unfold SCHED_CAPACITY_SCALE; lia. }
  assert (C : forall id, clamps id (s_tasks s ++ [uclamp_fork r p]) =
                         clamps id (s_tasks s) ++ [cget (t_uclamp (uclamp_fork r p)) id]).
  { intros id. unfold clamps. by rewrite fmap_app. }
  pose proof (none_app (clamps UCLAMP_MIN (s_tasks s)) _ (A UCLAMP_MIN)) as N.
  destruct I as [I1 I2 I3 I4 I5 I6]. split; simpl; try rewrite C; try rewrite N; try done.
  - intros id. rewrite C. apply uinv_app; [done|apply A].
  - intros x [Hx| ->%list_elem_of_singleton]%elem_of_app; [by apply I2|].
    pose proof (A UCLAMP_MIN). pose proof (A UCLAMP_MAX). simpl in *. congruence.
  - intros x [Hx| ->%list_elem_of_singleton]%elem_of_app; [by apply I5|done].
Qed.

Lemma exec_ok s o : sinv s -> op_ok s o -> exists s', exec s o = Some (s', true) /\ sinv s'.
Proof.
  intros I. destruct o as [n|n|n|r n|n req en tg|d|]; simpl; intros Ho.
  - destruct Ho as (p & Hn & Hr). destruct (enqueue_ok s n p I Hn Hr) as (s' & ? & ? & _). eauto.
  - destruct Ho as [p Hn]. destruct (dequeue_ok s n p I Hn) as (s' & ? & ? & _). eauto.
  - destruct Ho as [p Hn]. by apply (update_ok s n p I Hn).
  - destruct Ho as [p Hn]. rewrite Hn. simpl. eexists. split; [done|]. by apply (sinv_fork s n).
  - destruct Ho as ([p Hn] & Hr & Ht). rewrite Hn. simpl. eexists. split; [done|].
    by apply sinv_request.
  - eexists. split; [done|]. by destruct I.
  - eexists. split; [done|]. by destruct I.
Qed.

Lemma none_fresh ts id : Forall fresh ts -> none_active (clamps id ts).
Proof.
  intros H u (p & -> & Hp)%list_elem_of_fmap. rewrite Forall_elem in H.
  destruct (H p Hp) as (A & B & _). by destruct id.
Qed.

Lemma sinv_init ts used d : Forall fresh ts -> per_ok d -> sinv (mk_sys init_uclamp_rq ts used d).
Proof.
  intros H Hd. pose proof (fun id => none_fresh ts id H) as N. rewrite Forall_elem in H.
  split; cbn [s_rq s_tasks s_dflt s_used]; try done.
  - intros id.
    assert (E : bucket (cget (uclamp init_uclamp_rq) id) =
                replicate (Z.to_nat UCLAMP_BUCKETS) (mk_bucket 0 0)) by by destruct id.
    split; [rewrite E, length_replicate; lia| | |by left].
    + intros u Hu Ha. rewrite (N id u Hu) in Ha. done.
    + rewrite E. intros b bk Hb. unfold aref in Hb. destruct (0 <=? b); [|done].
      apply lookup_replicate in Hb as [-> _]. split; simpl; [|lia]. by rewrite members_none.
  - intros p Hp. destruct (H p Hp) as (-> & -> & _). done.
  - intros p Hp. by destruct (H p Hp) as (_ & _ & ? & ?).
Qed.

Lemma reach_sinv s : reach s -> sinv s.
Proof.
  induction 1 as [|s o s' ok R IH Ho E]; [by apply sinv_init|].
  destruct (exec_ok s o IH Ho) as (s1 & E1 & I1). congruence.
Qed.

(** ** The theorems *)

(** C38: in every state of a run queue that requests and limits between 0 and 1024 reach, no
    operation fails or trips one of the warnings of [uclamp_rq_dec_id]; a task of a class
    with clamps that is enqueued while clamping is in use is accounted; each bucket counts
    exactly the accounted tasks whose effective clamp falls in it; the clamp value of the
    run queue is at least that of every accounted task and lies in the bucket of one of
    them, so it exceeds the exact maximum by less than the width of a bucket. *)
Theorem uclamp_aggregation_exact s (R : reach s) :
  (forall o, op_ok s o -> exists s', exec s o = Some (s', true) /\ reach s') /\
  (forall n p, s_tasks s !! n = Some p -> accounted p = false -> s_used s = true -> uclamp_enabled p = true ->
     exists s' p', exec s (Enqueue n) = Some (s', true) /\ s_tasks s' !! n = Some p' /\ accounted p' = true) /\
  forall id,
    let ur := cget (uclamp (s_rq s)) id in
    let us := clamps id (s_tasks s) in
    (forall b bk, aref (bucket ur) b = Some bk -> btasks bk = members b us) /\
    (forall u, u ∈ us -> active u = true -> value u <= rvalue ur) /\
    (none_active us \/
     exists u, u ∈ us /\ active u = true /\ uclamp_bucket_id (rvalue ur) = bucket_id u).
Proof.
  pose proof (reach_sinv s R) as I. split.
  { intros o Ho. destruct (exec_ok s o I Ho) as (s' & E & _). exists s'. split; [done|].
    by apply (reach_step s o s' true). }
  split.
  { intros n p Hn Hr Hu He. destruct (enqueue_ok s n p I Hn Hr) as (s' & E & _ & _ & H).
    destruct (H Hu He) as (p' & Ht & Ha). exists s', p'. split_and!; [done| |done].
    rewrite Ht. apply list_lookup_insert_eq. by eapply lookup_lt_Some. }
  intros id ur us. pose proof (si_inv s I id) as U. fold ur us in U. split_and!.
  - intros b bk Hb. apply (bo_count _ _ _ _ (ui_bucket ur us U b bk Hb)).
  - intros u Hu Ha. destruct (active_bucket ur us u U Hu Ha) as (bk & _ & _ & ?). lia.
  - destruct (ui_top ur us U) as [|(b & bk & Hb & Ht & ->)]; [by left|]. right.
    destruct (ui_bucket ur us U b bk Hb) as [C V]. destruct (V Ht) as (_ & -> & _).
    destruct (members_some b us) as (u & Hu & Eu); [lia|]. exists u.
    unfold in_bucket in Eu. destruct (active u); [|done]. split_and!; try done. by zcase.
Qed.

(** when the last accounted task leaves, the run queue is marked idle, its
    minimum clamp drops to 0 and its maximum clamp stays that of the task, so a
    blocked CPU is not unclamped; the first task enqueued afterwards replaces both
    clamps by its own effective values. *)
Theorem idle_keeps_last_max_clamp s n p (R : reach s) :
  s_tasks s !! n = Some p -> s_used s = true -> uclamp_enabled p = true -> accounted p = true ->
  (forall m p', m <> n -> s_tasks s !! m = Some p' -> accounted p' = false) ->
  exists s', exec s (Dequeue n) = Some (s', true) /\
    uclamp_rq_is_idle (s_rq s') = true /\
    uclamp_rq_get (s_rq s') UCLAMP_MIN = 0 /\
    uclamp_rq_get (s_rq s') UCLAMP_MAX = value (c_max (t_uclamp p)) /\
    forall m p', s_tasks s' !! m = Some p' -> uclamp_enabled p' = true ->
      exists s'', exec s' (Enqueue m) = Some (s'', true) /\
        forall id, uclamp_rq_get (s_rq s'') id = value (uclamp_eff_get (s_dflt s') p' id).
Proof.
  intros Hn Hu He Hr Hoth. pose proof (reach_sinv s R) as I.
  destruct (dequeue_ok s n p I Hn) as (s' & E & I' & Hmax). exists s'. split; [done|].
  destruct (Hmax Hu He Hr) as (Hu' & (p1 & Ht & Hp1) & Hlast).
  assert (Hall : forall m x, s_tasks s' !! m = Some x -> accounted x = false).
  { intros m x. rewrite Ht. intros [(<- & <- & _)|[Hne Hm]]%list_lookup_insert_Some; [done|].
    by apply (Hoth m). }
  assert (N : none_active (clamps UCLAMP_MIN (s_tasks s'))).
  { intros u (x & -> & [m Hx]%list_elem_of_lookup)%list_elem_of_fmap. by apply (Hall m). }
  assert (Hi : uclamp_rq_is_idle (s_rq s') = true) by by apply (si_idle s' I').
  split_and!; [done|by apply (si_min s' I')|by apply Hlast|].
  intros m x Hx Hex. destruct (enqueue_ok s' m x I' Hx (Hall m x Hx)) as (s'' & E2 & _ & F).
  exists s''. split; [done|]. by apply F.
Qed.

(** the clamped utilization of a run queue is at least the minimum clamp of
    every accounted task; it exceeds the maximum clamp of the run queue only by being
    its minimum clamp; a utilization between the two clamps is left alone. *)
Theorem clamped_util_honours_tasks s util (R : reach s) :
  let q := s_rq s in
  let r := uclamp_rq_util_with true q util None in
  (forall p, p ∈ s_tasks s -> accounted p = true -> value (c_min (t_uclamp p)) <= r) /\
  r <= Z.max (Z.max 0 (uclamp_rq_get q UCLAMP_MIN)) (uclamp_rq_get q UCLAMP_MAX) /\
  (0 <= uclamp_rq_get q UCLAMP_MIN <= util /\ util <= uclamp_rq_get q UCLAMP_MAX -> r = util).
Proof.
  intros q r. pose proof (reach_sinv s R) as I.
  assert (B : uclamp_rq_get q UCLAMP_MIN <= r /\ 0 <= r /\
    r <= Z.max (Z.max 0 (uclamp_rq_get q UCLAMP_MIN)) (uclamp_rq_get q UCLAMP_MAX) /\
    (0 <= uclamp_rq_get q UCLAMP_MIN <= util /\ util <= uclamp_rq_get q UCLAMP_MAX -> r = util)).
  { unfold r, uclamp_rq_util_with, clamp. simpl. repeat case_match; zcase; lia. }
  destruct B as (B1 & _ & B2 & B3). split_and!; [|done|done].
  intros p Hp Ha. etransitivity; [|exact B1].
  destruct (active_bucket _ _ (c_min (t_uclamp p)) (si_inv s I UCLAMP_MIN)) as (bk & _ & _ & V);
    [by apply (list_elem_of_fmap_2 (fun p => cget (t_uclamp p) UCLAMP_MIN))|done|].
  unfold uclamp_rq_get, q. lia.
Qed.

End Buckets.

(** ** A concrete run queue *)

Definition demo_se (v : Z) : uclamp_se := mk_se v (uclamp_bucket_id 5 v) false true.

Definition demo_task (lo hi : Z) : task :=
  mk_task (mk_per (demo_se lo) (demo_se hi)) (mk_per (demo_se lo) (demo_se hi)) true None.

(** Two tasks, the first of which is enqueued. *)
Definition demo_init : sys :=
  mk_sys (init_uclamp_rq 5) [demo_task 100 600; demo_task 300 512] true
    (mk_per (demo_se 1024) (demo_se 1024)).

Definition demo_sys : sys :=
  match exec 5 demo_init (Enqueue 0) with Some (s, _) => s | None => demo_init end.

Lemma demo_reach : reach 5 demo_sys.
Proof.
  apply (reach_step 5 demo_init (Enqueue 0) demo_sys true).
  - apply reach_init; [|vm_compute; intuition congruence].
    apply Forall_cons_2; [|apply Forall_cons_2; [|apply Forall_nil_2]];
      vm_compute; intuition congruence.
  - exists (demo_task 100 600). by split.
  - vm_compute. reflexivity.
Qed.

Lemma uclamp_aggregation_exact_witness :
  reach 5 demo_sys /\ value (c_min (t_uclamp (demo_task 100 600))) <=
    rvalue (c_min (uclamp (s_rq demo_sys))).
Proof.
  split; [exact demo_reach|].
  destruct (uclamp_aggregation_exact 5 ltac:(lia) demo_sys demo_reach) as (_ & _ & H).
  destruct (H UCLAMP_MIN) as (_ & V & _).
  apply (V (with_active (demo_se 100) true)); [|reflexivity].
  apply list_elem_of_lookup_2 with 0%nat. vm_compute. reflexivity.
Defined.

Lemma idle_keeps_last_max_clamp_witness :
  exists s', exec 5 demo_sys (Dequeue 0) = Some (s', true) /\
    uclamp_rq_get (s_rq s') UCLAMP_MAX = 600.
Proof.
  destruct (s_tasks demo_sys !! 0%nat) as [p|] eqn:Hp; [|vm_compute in Hp; discriminate].
  assert (Ep : (uclamp_enabled p, accounted p, value (c_max (t_uclamp p))) = (true, true, 600)).
  { vm_compute in Hp. injection Hp as <-. reflexivity. }
  injection Ep as E1 E2 E3.
  destruct (idle_keeps_last_max_clamp 5 ltac:(lia) demo_sys 0 p demo_reach Hp eq_refl E1 E2)
    as (s' & E & _ & _ & M & _).
  - intros [|[|m]] p' Hm Hl; [done| |vm_compute in Hl; discriminate].
    vm_compute in Hl. injection Hl as <-. reflexivity.
  - exists s'. split; [exact E|]. rewrite M. exact E3.
Defined.

Lemma clamped_util_honours_tasks_witness :
  reach 5 demo_sys /\ uclamp_rq_util_with true (s_rq demo_sys) 50 None = 100 /\
  uclamp_rq_util_with true (s_rq demo_sys) 50 None <= 600.
Proof.
  split; [exact demo_reach|]. split; [vm_compute; reflexivity|].
  destruct (clamped_util_honours_tasks 5 ltac:(lia) demo_sys 50 demo_reach) as (_ & H & _).
  etransitivity; [exact H|]. vm_compute. discriminate.
Defined.

End Uclamp.
