(* ===== verification/UclampConf.v ===== *)
(** Utilization clamping, the control plane: the system-wide knobs, the requests
    of [sched_setattr] and the task-group hierarchy of [kernel/sched/core.c].

    The state holds the three sysctl values, the system default clamps, the static
    key, the tree of task groups and the tasks.  The theorems show that whatever is
    written the defaults stay valid and in step with the sysctl values, that the
    early stop of the walk over the groups loses no update, and that requests that
    pass validation are the ones the run queues can count. *)

From Stdlib Require Import ZArith Lia List.
From stdpp Require Import base list numbers option.
From S2P Require Import Prelude FreqTable Uclamp.

Module UclampConf.
Import FreqTable Uclamp.

Definition SCHED_FLAG_UTIL_CLAMP_MIN : Z := 0x20.
Definition SCHED_FLAG_UTIL_CLAMP_MAX : Z := 0x40.
Definition SCHED_FLAG_UTIL_CLAMP : Z :=
  Z.lor SCHED_FLAG_UTIL_CLAMP_MIN SCHED_FLAG_UTIL_CLAMP_MAX.

Definition UCLAMP_PERCENT_SCALE : Z := 10000.
Definition SCHED_CAPACITY_SHIFT : Z := 10.
Definition ERANGE : Z := 34.

(** The members of [struct sched_attr] used here; the clamps are u32. *)
Record sched_attr := mk_attr {
  sched_flags : Z;
  sched_util_min : Z;
  sched_util_max : Z
}.

(** A task group: requested and effective clamps, the exact percentages asked for,
    and the child groups. *)
Record tg_data := mk_tg {
  tg_id : Z;
  tg_uclamp_req : per_clamp uclamp_se;
  tg_uc : per_clamp uclamp_se;
  uclamp_pct : per_clamp Z
}.

Inductive task_group := TG (d : tg_data) (children : list task_group).

Definition data (g : task_group) : tg_data := match g with TG d _ => d end.
Definition children (g : task_group) : list task_group := match g with TG _ ch => ch end.

Definition with_uc (d : tg_data) (u : per_clamp uclamp_se) : tg_data :=
  mk_tg (tg_id d) (tg_uclamp_req d) u (uclamp_pct d).
Definition with_tg_req (d : tg_data) (r : per_clamp uclamp_se) : tg_data :=
  mk_tg (tg_id d) r (tg_uc d) (uclamp_pct d).
Definition with_pct (d : tg_data) (c : per_clamp Z) : tg_data :=
  mk_tg (tg_id d) (tg_uclamp_req d) (tg_uc d) c.

(** [rt_task] of the task comes with it. *)
Record conf := mk_conf {
  sysctl_min : Z;
  sysctl_max : Z;
  sysctl_min_rt : Z;
  uclamp_default : per_clamp uclamp_se;
  sched_uclamp_used : bool;
  root_task_group : task_group;
  all_tasks : list (bool * task)
}.

Section Conf.
Context (UCLAMP_BUCKETS : Z).

(** ** Requests of tasks *)

(** The result and whether [sched_uclamp_used] is enabled on the way. *)
Definition uclamp_validate (p : task) (attr : sched_attr) : Z * bool :=
  let set_min := z2b (Z.land (sched_flags attr) SCHED_FLAG_UTIL_CLAMP_MIN) in
  let set_max := z2b (Z.land (sched_flags attr) SCHED_FLAG_UTIL_CLAMP_MAX) in
  let util_min := if set_min then s32 (sched_util_min attr) else value (c_min (uclamp_req p)) in
  let util_max := if set_max then s32 (sched_util_max attr) else value (c_max (uclamp_req p)) in
  if set_min && (SCHED_CAPACITY_SCALE + 1 <? s32 (util_min + 1)) then (- EINVAL, false)
  else if set_max && (SCHED_CAPACITY_SCALE + 1 <? s32 (util_max + 1)) then (- EINVAL, false)
  else if negb (util_min =? -1) && negb (util_max =? -1) && (util_max <? util_min)
  then (- EINVAL, false)
  else (0, true).

Definition minus_one : Z := two32 - 1.

Definition uclamp_reset (attr : sched_attr) (id : uclamp_id) (uc_se : uclamp_se) : bool :=
  if negb (z2b (Z.land (sched_flags attr) SCHED_FLAG_UTIL_CLAMP)) && negb (user_defined uc_se)
  then true
  else
    match id with
    | UCLAMP_MIN =>
      z2b (Z.land (sched_flags attr) SCHED_FLAG_UTIL_CLAMP_MIN) && (sched_util_min attr =? minus_one)
    | UCLAMP_MAX =>
      z2b (Z.land (sched_flags attr) SCHED_FLAG_UTIL_CLAMP_MAX) && (sched_util_max attr =? minus_one)
    end.

Definition reset_req (min_rt : Z) (rt : bool) (attr : sched_attr) (c : per_clamp uclamp_se)
    (id : uclamp_id) : per_clamp uclamp_se :=
  if negb (uclamp_reset attr id (cget c id)) then c
  else
    let v := match id with
             | UCLAMP_MIN => if rt then min_rt else uclamp_none UCLAMP_MIN
             | UCLAMP_MAX => uclamp_none UCLAMP_MAX
             end in
    cset c id (uclamp_se_set UCLAMP_BUCKETS (cget c id) v false).

Definition __setscheduler_uclamp (min_rt : Z) (rt : bool) (p : task) (attr : sched_attr) : task :=
  let c := reset_req min_rt rt attr (uclamp_req p) UCLAMP_MIN in
  let c := reset_req min_rt rt attr c UCLAMP_MAX in
  if negb (z2b (Z.land (sched_flags attr) SCHED_FLAG_UTIL_CLAMP)) then with_req p c
  else
    let c :=
      if z2b (Z.land (sched_flags attr) SCHED_FLAG_UTIL_CLAMP_MIN) &&
         negb (sched_util_min attr =? minus_one)
      then cset c UCLAMP_MIN (uclamp_se_set UCLAMP_BUCKETS (c_min c) (sched_util_min attr) true)
      else c in
    let c :=
      if z2b (Z.land (sched_flags attr) SCHED_FLAG_UTIL_CLAMP_MAX) &&
         negb (sched_util_max attr =? minus_one)
      then cset c UCLAMP_MAX (uclamp_se_set UCLAMP_BUCKETS (c_max c) (sched_util_max attr) true)
      else c in
    with_req p c.

Definition __uclamp_update_util_min_rt_default (min_rt : Z) (p : task) : task :=
  let uc_se := c_min (uclamp_req p) in
  if user_defined uc_se then p
  else with_req p (cset (uclamp_req p) UCLAMP_MIN
                     (uclamp_se_set UCLAMP_BUCKETS uc_se min_rt false)).

Definition uclamp_update_util_min_rt_default (min_rt : Z) (rt : bool) (p : task) : task :=
  if negb rt then p else __uclamp_update_util_min_rt_default min_rt p.

Definition uclamp_post_fork (min_rt : Z) (rt : bool) (p : task) : task :=
  uclamp_update_util_min_rt_default min_rt rt p.

Definition uclamp_sync_util_min_rt_default (min_rt : Z) (ts : list (bool * task))
  : list (bool * task) :=
  map (fun '(rt, p) => (rt, uclamp_update_util_min_rt_default min_rt rt p)) ts.

(** ** Task groups *)

(** The requested clamp, capped by the effective clamp of the parent. *)
Definition tg_eff (parent : option (per_clamp uclamp_se)) (d : tg_data) (id : uclamp_id) : Z :=
  let eff := value (cget (tg_uclamp_req d) id) in
  match parent with
  | Some uc_parent => if value (cget uc_parent id) <? eff then value (cget uc_parent id) else eff
  | None => eff
  end.

Definition propagate (u : uclamp_se) (eff : Z) : uclamp_se :=
  if eff =? value u then u
  else mk_se eff (uclamp_bucket_id UCLAMP_BUCKETS eff) (active u) (user_defined u).

(** The walk in pre-order.  It returns the groups whose tasks are refreshed by
    [uclamp_update_active_tasks], in order; a group without a change ends the walk
    of its branch. *)
Fixpoint cpu_util_update_eff (parent : option (per_clamp uclamp_se)) (g : task_group)
  : task_group * list Z :=
  match g with
  | TG d ch =>
    let eff_max := tg_eff parent d UCLAMP_MAX in
    let eff_min := Z.min (tg_eff parent d UCLAMP_MIN) eff_max in
    let uc_se := mk_per (propagate (c_min (tg_uc d)) eff_min) (propagate (c_max (tg_uc d)) eff_max) in
    if (eff_min =? value (c_min (tg_uc d))) && (eff_max =? value (c_max (tg_uc d)))
    then (TG d ch, [])
    else
      let rs := map (cpu_util_update_eff (Some uc_se)) ch in
      (TG (with_uc d uc_se) (map fst rs), tg_id d :: concat (map snd rs))
  end.

(** [parsed] is [None] for the string "max" and else the result of
    [cgroup_parse_float]: an error code, or the percentage with two decimals. *)
Definition capacity_from_percent (parsed : option (Z * Z)) : Z * Z * Z :=
  match parsed with
  | None => (UCLAMP_PERCENT_SCALE, SCHED_CAPACITY_SCALE, 0)
  | Some (ret, percent) =>
    if negb (ret =? 0) then (percent, SCHED_CAPACITY_SCALE, ret)
    else if UCLAMP_PERCENT_SCALE <? u64 percent then (percent, SCHED_CAPACITY_SCALE, - ERANGE)
    else
      let util := u64 (Z.shiftl percent SCHED_CAPACITY_SHIFT) in
      (percent, (util + UCLAMP_PERCENT_SCALE / 2) / UCLAMP_PERCENT_SCALE, 0)
  end.

Definition cpu_uclamp_write (parent : option (per_clamp uclamp_se)) (g : task_group)
    (parsed : option (Z * Z)) (nbytes : Z) (id : uclamp_id) : Z * task_group * list Z :=
  let '(percent, util, ret) := capacity_from_percent parsed in
  if negb (ret =? 0) then (ret, g, [])
  else
    let d := data g in
    let d := if negb (value (cget (tg_uclamp_req d) id) =? util)
             then with_tg_req d (cset (tg_uclamp_req d) id
                    (uclamp_se_set UCLAMP_BUCKETS (cget (tg_uclamp_req d) id) util false))
             else d in
    let d := with_pct d (cset (uclamp_pct d) id percent) in
    let '(g, upd) := cpu_util_update_eff parent (TG d (children g)) in
    (nbytes, g, upd).

Definition alloc_uclamp_sched_group (zero : uclamp_se) (parent : tg_data) (d : tg_data) : tg_data :=
  mk_tg (tg_id d)
    (mk_per (uclamp_se_set UCLAMP_BUCKETS zero (uclamp_none UCLAMP_MIN) false)
            (uclamp_se_set UCLAMP_BUCKETS zero (uclamp_none UCLAMP_MAX) false))
    (tg_uc parent) (uclamp_pct d).

(** ** The system-wide knobs *)

Definition uclamp_update_root_tg (c : conf) : conf * list Z :=
  let d := data (root_task_group c) in
  let r := tg_uclamp_req d in
  let d := with_tg_req d
    (mk_per (uclamp_se_set UCLAMP_BUCKETS (c_min r) (sysctl_min c) false)
            (uclamp_se_set UCLAMP_BUCKETS (c_max r) (sysctl_max c) false)) in
  let '(g, upd) := cpu_util_update_eff None (TG d (children (root_task_group c))) in
  (mk_conf (sysctl_min c) (sysctl_max c) (sysctl_min_rt c) (uclamp_default c)
     (sched_uclamp_used c) g (all_tasks c), upd).

Definition with_sysctl (c : conf) (v : Z * Z * Z) : conf :=
  let '(lo, hi, rt) := v in
  mk_conf lo hi rt (uclamp_default c) (sched_uclamp_used c) (root_task_group c) (all_tasks c).
Definition with_default (c : conf) (d : per_clamp uclamp_se) : conf :=
  mk_conf (sysctl_min c) (sysctl_max c) (sysctl_min_rt c) d (sched_uclamp_used c)
    (root_task_group c) (all_tasks c).
Definition with_used (c : conf) : conf :=
  mk_conf (sysctl_min c) (sysctl_max c) (sysctl_min_rt c) (uclamp_default c) true
    (root_task_group c) (all_tasks c).
Definition with_tasks (c : conf) (ts : list (bool * task)) : conf :=
  mk_conf (sysctl_min c) (sysctl_max c) (sysctl_min_rt c) (uclamp_default c)
    (sched_uclamp_used c) (root_task_group c) ts.

(** [result] is what [proc_dointvec] returns and [written] the three sysctl values
    (unsigned) it leaves. *)
Definition sysctl_sched_uclamp_handler (write : bool) (result : Z) (written : Z * Z * Z) (c : conf)
  : Z * conf :=
  let old_min := sysctl_min c in
  let old_max := sysctl_max c in
  let old_min_rt := sysctl_min_rt c in
  let c := with_sysctl c written in
  let undo c := with_sysctl c (old_min, old_max, old_min_rt) in
  if negb (result =? 0) then (result, undo c)
  else if negb write then (0, c)
  else if (sysctl_max c <? sysctl_min c) || (SCHED_CAPACITY_SCALE <? sysctl_max c) ||
          (SCHED_CAPACITY_SCALE <? sysctl_min_rt c) then (- EINVAL, undo c)
  else
    let c1 := if negb (old_min =? sysctl_min c)
              then with_default c (cset (uclamp_default c) UCLAMP_MIN
                     (uclamp_se_set UCLAMP_BUCKETS (c_min (uclamp_default c)) (sysctl_min c) false))
              else c in
    let c2 := if negb (old_max =? sysctl_max c1)
              then with_default c1 (cset (uclamp_default c1) UCLAMP_MAX
                     (uclamp_se_set UCLAMP_BUCKETS (c_max (uclamp_default c1)) (sysctl_max c1) false))
              else c1 in
    let update_root_tg := negb (old_min =? sysctl_min c) || negb (old_max =? sysctl_max c1) in
    let c3 := if update_root_tg then fst (uclamp_update_root_tg (with_used c2)) else c2 in
    let c4 := if negb (old_min_rt =? sysctl_min_rt c3)
              then with_tasks (with_used c3)
                     (uclamp_sync_util_min_rt_default (sysctl_min_rt c3) (all_tasks c3))
              else c3 in
    (0, c4).

(** Boot: [init_uclamp] on a root group and tasks whose clamps are still zero. *)
Definition init_uclamp (zero : uclamp_se) (root : task_group) (init_task : task) : conf :=
  let uc_max := uclamp_se_set UCLAMP_BUCKETS zero (uclamp_none UCLAMP_MAX) false in
  let both := mk_per uc_max uc_max in
  mk_conf SCHED_CAPACITY_SCALE SCHED_CAPACITY_SCALE SCHED_CAPACITY_SCALE both false
    (TG (with_uc (with_tg_req (data root) both) both) (children root))
    [(false, with_req init_task
        (mk_per (uclamp_se_set UCLAMP_BUCKETS (c_min (uclamp_req init_task)) (uclamp_none UCLAMP_MIN) false)
                (uclamp_se_set UCLAMP_BUCKETS (c_max (uclamp_req init_task)) (uclamp_none UCLAMP_MAX) false)))].

(** ** The walk over the groups *)

Lemma task_group_nested_ind (P : task_group -> Prop) :
  (forall d ch, (forall g, g ∈ ch -> P g) -> P (TG d ch)) -> forall g, P g.
Proof.
  intros H. fix IH 1. intros [d ch]. apply H. induction ch as [|c ch IHch].
  - intros g Hg. apply not_elem_of_nil in Hg as [].
  - intros g [->|Hg]%elem_of_cons; [apply IH|by apply IHch].
Qed.

(** The groups of a tree in pre-order. *)
Fixpoint groups (g : task_group) : list tg_data :=
  match g with TG d ch => d :: concat (map groups ch) end.

(** Every group has the clamps its request and its parent determine. *)
Fixpoint consistent (parent : option (per_clamp uclamp_se)) (g : task_group) : bool :=
  match g with
  | TG d ch =>
    (value (c_max (tg_uc d)) =? tg_eff parent d UCLAMP_MAX) &&
    (value (c_min (tg_uc d)) =? Z.min (tg_eff parent d UCLAMP_MIN) (tg_eff parent d UCLAMP_MAX)) &&
    forallb (consistent (Some (tg_uc d))) ch
  end.

Notation se_ok := (se_ok UCLAMP_BUCKETS).
Notation per_ok := (per_ok UCLAMP_BUCKETS).

Definition tg_wf (d : tg_data) : Prop := per_ok (tg_uclamp_req d) /\ per_ok (tg_uc d).
Definition parent_wf (parent : option (per_clamp uclamp_se)) : Prop :=
  forall u, parent = Some u -> per_ok u.

(** The clamps a walk leaves in a group. *)
Definition new_uc (parent : option (per_clamp uclamp_se)) (d : tg_data) : per_clamp uclamp_se :=
  mk_per (propagate (c_min (tg_uc d))
            (Z.min (tg_eff parent d UCLAMP_MIN) (tg_eff parent d UCLAMP_MAX)))
         (propagate (c_max (tg_uc d)) (tg_eff parent d UCLAMP_MAX)).

Lemma propagate_value u v : value (propagate u v) = v.
Proof. unfold propagate. by destruct (Z.eqb_spec v (value u)). Qed.

Lemma propagate_ok u v : se_ok u -> 0 <= v <= SCHED_CAPACITY_SCALE -> se_ok (propagate u v).
Proof. unfold propagate. intros Hu Hv. by destruct (v =? value u). Qed.

Lemma tg_eff_range parent d id :
  parent_wf parent -> tg_wf d -> 0 <= tg_eff parent d id <= SCHED_CAPACITY_SCALE.
Proof.
  intros Hp [[[R1 _] [R2 _]] _]. unfold tg_eff.
  assert (R : 0 <= value (cget (tg_uclamp_req d) id) <= SCHED_CAPACITY_SCALE) by by destruct id.
  destruct parent as [u|]; [|done]. destruct (Hp u eq_refl) as [[U1 _] [U2 _]].
  assert (U : 0 <= value (cget u id) <= SCHED_CAPACITY_SCALE) by by destruct id.
  destruct (value (cget u id) <? _); lia.
Qed.

Lemma new_uc_ok parent d : parent_wf parent -> tg_wf d -> per_ok (new_uc parent d).
Proof.
  intros Hp Hd. pose proof (tg_eff_range parent d UCLAMP_MIN Hp Hd).
  pose proof (tg_eff_range parent d UCLAMP_MAX Hp Hd). destruct Hd as [_ [? ?]].
  split; apply propagate_ok; try done; lia.
Qed.

(** The changes of effective clamps between two walks over the same tree. *)
Definition changed (x : tg_data * tg_data) : bool :=
  negb ((value (c_min (tg_uc x.2)) =? value (c_min (tg_uc x.1))) &&
        (value (c_max (tg_uc x.2)) =? value (c_max (tg_uc x.1)))).

Definition changed_ids (before after : list tg_data) : list Z :=
  map (fun x => tg_id x.1) (List.filter changed (zip before after)).

Lemma changed_ids_same l : changed_ids l l = [].
Proof.
  unfold changed_ids. induction l as [|d l IH]; [done|]. simpl.
  unfold changed at 1. simpl. rewrite !Z.eqb_refl. done.
Qed.

Lemma changed_ids_head d d' l l' :
  changed (d, d') = true -> changed_ids (d :: l) (d' :: l') = tg_id d :: changed_ids l l'.
Proof. intros H. unfold changed_ids. simpl. by rewrite H. Qed.

Lemma changed_ids_app l1 l2 m1 m2 :
  length l1 = length m1 -> changed_ids (l1 ++ l2) (m1 ++ m2) = changed_ids l1 m1 ++ changed_ids l2 m2.
Proof.
  intros H. unfold changed_ids. rewrite zip_with_app by done. rewrite List.filter_app.
  by rewrite map_app.
Qed.

(** What a walk changes in a group: nothing but the effective clamps. *)
Definition same_request (d d' : tg_data) : Prop :=
  tg_id d' = tg_id d /\ tg_uclamp_req d' = tg_uclamp_req d /\ uclamp_pct d' = uclamp_pct d.

Record walked (parent : option (per_clamp uclamp_se)) (g : task_group) (r : task_group * list Z)
  : Prop := mk_walked {
  wk_consistent : consistent parent r.1 = true;
  wk_same : Forall2 same_request (groups g) (groups r.1);
  wk_wf : Forall tg_wf (groups r.1);
  wk_updated : r.2 = changed_ids (groups g) (groups r.1)
}.

Lemma walked_children parent ch (f : task_group -> task_group * list Z) :
  (forall c, c ∈ ch -> walked (Some parent) c (f c)) ->
  forallb (consistent (Some parent)) (map fst (map f ch)) = true /\
  Forall2 same_request (concat (map groups ch)) (concat (map groups (map fst (map f ch)))) /\
  Forall tg_wf (concat (map groups (map fst (map f ch)))) /\
  concat (map snd (map f ch)) =
    changed_ids (concat (map groups ch)) (concat (map groups (map fst (map f ch)))).
Proof.
  induction ch as [|c ch IH]; intros H; simpl; [by repeat split; constructor|].
  destruct (H c ltac:(by left)) as [C1 C2 C3 C4].
  destruct IH as (I1 & I2 & I3 & I4); [intros x Hx; apply H; by right|].
  split_and!.
  - by rewrite C1, I1.
  - by apply Forall2_app.
  - by apply Forall_app.
  - rewrite C4, I4, changed_ids_app; [done|]. by eapply Forall2_length.
Qed.

Lemma Forall2_same_refl l : Forall2 same_request l l.
Proof. induction l; by repeat constructor. Qed.

Lemma walk_ok g : forall parent,
  parent_wf parent -> Forall tg_wf (groups g) ->
  forallb (consistent (Some (tg_uc (data g)))) (children g) = true ->
  walked parent g (cpu_util_update_eff parent g).
Proof.
  induction g as [d ch IH] using task_group_nested_ind. intros parent Hp Hwf Hch.
  cbn [data children] in Hch. simpl in Hwf. apply Forall_cons_iff in Hwf as [Hd Hwf].
  cbn [cpu_util_update_eff]. fold (new_uc parent d).
  destruct (Z.eqb_spec (Z.min (tg_eff parent d UCLAMP_MIN) (tg_eff parent d UCLAMP_MAX))
    (value (c_min (tg_uc d)))) as [E1|E1];
  destruct (Z.eqb_spec (tg_eff parent d UCLAMP_MAX) (value (c_max (tg_uc d)))) as [E2|E2]; simpl andb.
  { split; cbn [fst snd].
    - simpl. rewrite Hch. rewrite <- E1, <- E2, !Z.eqb_refl. done.
    - apply Forall2_same_refl.
    - by constructor.
    - by rewrite changed_ids_same. }
  all: assert (W : forall c, c ∈ ch ->
      walked (Some (new_uc parent d)) c (cpu_util_update_eff (Some (new_uc parent d)) c)) by
   (intros c Hc; apply IH; [done|by intros u [= <-]; apply new_uc_ok| |];
    [rewrite Forall_elem in *; intros x Hx; apply Hwf; apply list_elem_of_In, in_concat;
     exists (groups c); split; [by apply in_map, list_elem_of_In|by apply list_elem_of_In]|
     rewrite forallb_forall in Hch; specialize (Hch c ltac:(by apply list_elem_of_In));
     destruct c as [dc cc]; simpl in Hch; by apply andb_true_iff in Hch as [_ ?]]).
  all: apply walked_children in W as (W1 & W2 & W3 & W4).
  all: split; cbn [fst snd].
  all: try (simpl; rewrite W1, !propagate_value, !Z.eqb_refl; done).
  all: try (constructor; [by repeat split|exact W2]).
  all: try (constructor; [split; [apply Hd|by apply new_uc_ok]|exact W3]).
  all: simpl groups; rewrite W4; symmetry; apply changed_ids_head; unfold changed, new_uc; simpl;
    rewrite !propagate_value; zcase; by rewrite ?andb_false_r.
Qed.

(** after a request of one group changed, [cpu_util_update_eff] leaves every
    group below it with the effective clamps its request and its parent determine,
    although it does not descend below a group that did not change; it changes no
    request, keeps the clamps valid, and the tasks of exactly the groups whose
    effective clamps changed are refreshed, parents first. *)
Theorem group_walk_complete parent g :
  parent_wf parent -> Forall tg_wf (groups g) ->
  forallb (consistent (Some (tg_uc (data g)))) (children g) = true ->
  let '(g', updated) := cpu_util_update_eff parent g in
  consistent parent g' = true /\
  Forall2 same_request (groups g) (groups g') /\
  Forall tg_wf (groups g') /\
  updated = changed_ids (groups g) (groups g').
Proof.
  intros Hp Hwf Hch. pose proof (walk_ok g parent Hp Hwf Hch) as W.
  destruct (cpu_util_update_eff parent g) as [g' upd]. by destruct W.
Qed.

(** ** The knobs *)

Record conf_ok (c : conf) : Prop := mk_conf_ok {
  co_range : 0 <= sysctl_min c <= sysctl_max c /\ sysctl_max c <= SCHED_CAPACITY_SCALE;
  co_rt : 0 <= sysctl_min_rt c <= SCHED_CAPACITY_SCALE;
  co_default : per_ok (uclamp_default c) /\ value (c_min (uclamp_default c)) = sysctl_min c /\
    value (c_max (uclamp_default c)) = sysctl_max c;
  co_root : value (c_min (tg_uclamp_req (data (root_task_group c)))) = sysctl_min c /\
    value (c_max (tg_uclamp_req (data (root_task_group c)))) = sysctl_max c;
  co_groups : consistent None (root_task_group c) = true /\ Forall tg_wf (groups (root_task_group c));
  co_tasks : Forall (fun x => per_ok (uclamp_req x.2)) (all_tasks c)
}.

Lemma se_set_value u v b : 0 <= v <= SCHED_CAPACITY_SCALE -> value (uclamp_se_set UCLAMP_BUCKETS u v b) = v.
Proof. unfold SCHED_CAPACITY_SCALE. intros. simpl. apply Z.mod_small. lia. Qed.

Lemma root_update_ok c :
  0 <= sysctl_min c <= sysctl_max c -> sysctl_max c <= SCHED_CAPACITY_SCALE ->
  consistent None (root_task_group c) = true -> Forall tg_wf (groups (root_task_group c)) ->
  exists g, fst (uclamp_update_root_tg c) =
    mk_conf (sysctl_min c) (sysctl_max c) (sysctl_min_rt c) (uclamp_default c)
      (sched_uclamp_used c) g (all_tasks c) /\
    value (c_min (tg_uclamp_req (data g))) = sysctl_min c /\
    value (c_max (tg_uclamp_req (data g))) = sysctl_max c /\
    consistent None g = true /\ Forall tg_wf (groups g).
Proof.
  intros H1 H2 Hc Hwf. unfold uclamp_update_root_tg.
  destruct (root_task_group c) as [d ch]. cbn [data children].
  simpl in Hc. apply andb_true_iff in Hc as [_ Hch]. simpl in Hwf.
  apply Forall_cons_iff in Hwf as [[_ Hd] Hwf].
  set (r := mk_per (uclamp_se_set UCLAMP_BUCKETS (c_min (tg_uclamp_req d)) (sysctl_min c) false)
                   (uclamp_se_set UCLAMP_BUCKETS (c_max (tg_uclamp_req d)) (sysctl_max c) false)).
  assert (Hr : per_ok r) by (split; apply se_set_ok; lia).
  destruct (walk_ok (TG (with_tg_req d r) ch) None) as [W1 W2 W3 _];
    [done|by constructor|done|].
  destruct (cpu_util_update_eff None _) as [g upd]. exists g. cbn [fst] in *. split; [done|].
  destruct g as [d' ch']. simpl in W2. inversion W2 as [|? ? ? ? [_ [E _]] _ E1 E2]; subst.
  cbn [data]. rewrite E. cbn [tg_uclamp_req with_tg_req r c_min c_max].
  unfold r; cbn [c_min c_max]. rewrite !se_set_value by lia. done.
Qed.

Lemma sync_rt_ok min_rt ts :
  0 <= min_rt <= SCHED_CAPACITY_SCALE ->
  Forall (fun x => per_ok (uclamp_req x.2)) ts ->
  Forall (fun x => per_ok (uclamp_req x.2)) (uclamp_sync_util_min_rt_default min_rt ts).
Proof.
  intros Hr. induction 1 as [|[rt p] ts [P1 P2] _ IH]; simpl; constructor; [|done].
  unfold uclamp_update_util_min_rt_default, __uclamp_update_util_min_rt_default. simpl.
  destruct rt; simpl; [|done]. destruct (user_defined _); simpl; [done|].
  split; [by apply se_set_ok|done].
Qed.

Lemma with_sysctl_undo c v :
  with_sysctl (with_sysctl c v) (sysctl_min c, sysctl_max c, sysctl_min_rt c) = c.
Proof. by destruct c, v as [[lo hi] rt]. Qed.

(** The new system defaults. *)
Definition new_default (c : conf) (lo hi : Z) : per_clamp uclamp_se :=
  let d := uclamp_default c in
  mk_per (if sysctl_min c =? lo then c_min d else uclamp_se_set UCLAMP_BUCKETS (c_min d) lo false)
         (if sysctl_max c =? hi then c_max d else uclamp_se_set UCLAMP_BUCKETS (c_max d) hi false).

Lemma new_default_ok c lo hi :
  conf_ok c -> 0 <= lo <= hi -> hi <= SCHED_CAPACITY_SCALE ->
  per_ok (new_default c lo hi) /\ value (c_min (new_default c lo hi)) = lo /\
  value (c_max (new_default c lo hi)) = hi.
Proof.
  intros Hok H1 H2. destruct (co_default c Hok) as ([D1 D2] & D3 & D4). unfold new_default.
  destruct (Z.eqb_spec (sysctl_min c) lo), (Z.eqb_spec (sysctl_max c) hi); cbn [c_min c_max];
    rewrite ?se_set_value by lia; split_and!; try lia; split; cbn [c_min c_max];
    try done; apply se_set_ok; lia.
Qed.

(** The accepting path up to the refresh of the real-time tasks. *)
Lemma accepted_root c lo hi rt :
  conf_ok c -> 0 <= lo <= hi -> hi <= SCHED_CAPACITY_SCALE ->
  let c2 := mk_conf lo hi rt (new_default c lo hi) (sched_uclamp_used c) (root_task_group c) (all_tasks c) in
  let c3 := if negb (sysctl_min c =? lo) || negb (sysctl_max c =? hi)
            then fst (uclamp_update_root_tg (with_used c2)) else c2 in
  exists u g, c3 = mk_conf lo hi rt (new_default c lo hi) u g (all_tasks c) /\
    (value (c_min (tg_uclamp_req (data g))) = lo /\ value (c_max (tg_uclamp_req (data g))) = hi) /\
    (consistent None g = true /\ Forall tg_wf (groups g)) /\
    (u = true \/ c3 = with_sysctl c (lo, hi, rt) /\ lo = sysctl_min c /\ hi = sysctl_max c).
Proof.
  intros Hok H1 H2 c2 c3. destruct (co_root c Hok) as [R1 R2], (co_groups c Hok) as [G1 G2].
  assert (Hsame : negb (sysctl_min c =? lo) || negb (sysctl_max c =? hi) = false ->
    lo = sysctl_min c /\ hi = sysctl_max c).
  { intros [E1 E2]%orb_false_iff. zcase. lia. }
  unfold c3. destruct (negb _ || negb _) eqn:E.
  - destruct (root_update_ok (with_used c2)) as (g & -> & A & B & C & D); try done.
    exists true, g. split_and!; try done. by left.
  - destruct (Hsame eq_refl) as [-> ->]. exists (sched_uclamp_used c), (root_task_group c).
    split_and!; try done. right. split_and!; try done. unfold c2, new_default.
    rewrite !Z.eqb_refl. by destruct c as [? ? ? [? ?] ? ? ?].
Qed.

Lemma accepted_ok c lo hi rt :
  conf_ok c -> 0 <= lo <= hi -> hi <= SCHED_CAPACITY_SCALE -> 0 <= rt <= SCHED_CAPACITY_SCALE ->
  exists c', sysctl_sched_uclamp_handler true 0 (lo, hi, rt) c = (0, c') /\ conf_ok c' /\
    (sysctl_min c' = lo /\ sysctl_max c' = hi /\ sysctl_min_rt c' = rt) /\
    (c' <> c -> sched_uclamp_used c' = true).
Proof.
  intros Hok H1 H2 H3. unfold sysctl_sched_uclamp_handler.
  cbn [negb Z.eqb with_sysctl sysctl_min sysctl_max sysctl_min_rt uclamp_default].
  destruct (Z.ltb_spec hi lo); [lia|]. destruct (Z.ltb_spec SCHED_CAPACITY_SCALE hi); [lia|].
  destruct (Z.ltb_spec SCHED_CAPACITY_SCALE rt); [lia|]. cbn [orb].
  destruct (new_default_ok c lo hi Hok H1 H2) as (D1 & D2 & D3).
  destruct (accepted_root c lo hi rt Hok H1 H2) as (u & g & E3 & R & G & U).
  pose proof (co_tasks c Hok) as T.
  match goal with |- exists c', (0, if negb (_ =? sysctl_min_rt ?x) then _ else _) = _ /\ _ =>
    assert (Ex : x = mk_conf lo hi rt (new_default c lo hi) u g (all_tasks c)) end.
  { rewrite <- E3. unfold new_default.
    destruct (Z.eqb_spec (sysctl_min c) lo), (Z.eqb_spec (sysctl_max c) hi);
      destruct c as [? ? ? [? ?] ? ? ?]; cbn in *; destruct (Z.eqb_spec sysctl_max0 hi);
      try congruence; reflexivity. }
  rewrite Ex. clear Ex. cbn [sysctl_min_rt all_tasks]. eexists. split; [reflexivity|].
  destruct (Z.eqb_spec (sysctl_min_rt c) rt) as [Ert|Ert]; cbn [negb].
  - split; [by split|]. split; [done|]. intros Hne. destruct U as [->|(E & -> & ->)]; [done|].
    destruct Hne. rewrite <- E3, E, <- Ert. by destruct c.
  - split; [|done]. split; try done. cbn [all_tasks with_tasks]. by apply sync_rt_ok.
Qed.

(** whatever is written to the three utilization clamp knobs, either an error is
    returned and nothing changes, or the written values are in force: they are in
    range, the system defaults and the root group request them, every group below
    has consistent effective clamps and every task a valid request. *)
Theorem sysctl_handler_all_or_nothing c write result lo hi rt :
  conf_ok c -> 0 <= lo -> 0 <= hi -> 0 <= rt ->
  (write = false -> (lo, hi, rt) = (sysctl_min c, sysctl_max c, sysctl_min_rt c)) ->
  let '(ret, c') := sysctl_sched_uclamp_handler write result (lo, hi, rt) c in
  conf_ok c' /\
  (ret <> 0 -> c' = c) /\
  (ret = 0 -> sysctl_min c' = lo /\ sysctl_max c' = hi /\ sysctl_min_rt c' = rt) /\
  (c' <> c -> sched_uclamp_used c' = true).
Proof.
  intros Hok Hlo Hhi Hrt Hread.
  destruct (decide (result = 0 /\ write = true /\ lo <= hi <= SCHED_CAPACITY_SCALE /\
    rt <= SCHED_CAPACITY_SCALE)) as [(-> & -> & H1 & H2)|Hno].
  { destruct (accepted_ok c lo hi rt) as (c' & -> & A & B & U); try lia; [done|].
    split_and!; try done; apply B. }
  unfold sysctl_sched_uclamp_handler. rewrite !with_sysctl_undo.
  destruct (Z.eqb_spec result 0) as [->|Er]; cbn [negb]; [|by split_and!].
  destruct write; cbn [negb].
  2:{ specialize (Hread eq_refl). injection Hread as -> -> ->.
      destruct c; cbn. by split_and!. }
  cbn [with_sysctl sysctl_min sysctl_max sysctl_min_rt].
  destruct ((hi <? lo) || _ || _) eqn:E; [by split_and!|].
  destruct Hno. zcase. lia.
Qed.

Lemma percent_range parsed percent util :
  capacity_from_percent parsed = (percent, util, 0) -> 0 <= util <= SCHED_CAPACITY_SCALE.
Proof.
  unfold capacity_from_percent, UCLAMP_PERCENT_SCALE, SCHED_CAPACITY_SCALE, SCHED_CAPACITY_SHIFT, ERANGE.
  destruct parsed as [[ret pc]|]; [|intros [= <- <-]; lia].
  destruct (Z.eqb_spec ret 0); cbn [negb]; [|intros [= _ _ ?]; lia].
  destruct (Z.ltb_spec 10000 (u64 pc)) as [|L]; [discriminate|]. intros [= <- <-].
  rewrite Z.shiftl_mul_pow2 by lia. change (2 ^ 10) with 1024.
  assert (E : u64 (pc * 1024) = u64 pc * 1024).
  { unfold u64 in *. pose proof (Z.mod_pos_bound pc two64 ltac:(lia)).
    rewrite <- Z.mul_mod_idemp_l by lia. apply Z.mod_small. lia. }
  assert (0 <= u64 pc) by (apply Z.mod_pos_bound; lia). rewrite E. change (10000 / 2) with 5000. split.
  - apply Z.div_pos; lia.
  - apply Z.lt_succ_r, Z.div_lt_upper_bound; lia.
Qed.

(** writing [cpu.uclamp.min] or [cpu.uclamp.max] of a group either fails and
    changes nothing, or takes effect: the request is a valid capacity and the group
    and all groups below it are consistent with it. *)
Theorem group_write_takes_effect parent g parsed nbytes id :
  parent_wf parent -> Forall tg_wf (groups g) -> consistent parent g = true ->
  let '(percent, util, ret) := capacity_from_percent parsed in
  let '(r, g', updated) := cpu_uclamp_write parent g parsed nbytes id in
  (ret <> 0 -> r = ret /\ g' = g /\ updated = []) /\
  (ret = 0 -> r = nbytes /\ value (cget (tg_uclamp_req (data g')) id) = util /\
     consistent parent g' = true /\ Forall tg_wf (groups g')).
Proof.
  intros Hp Hwf Hc. unfold cpu_uclamp_write.
  destruct (capacity_from_percent parsed) as [[percent util] ret] eqn:E.
  destruct (Z.eqb_spec ret 0) as [->|]; cbn [negb]; [|by split].
  pose proof (percent_range _ _ _ E) as U. destruct g as [d ch]. cbn [data children].
  simpl in Hwf. apply Forall_cons_iff in Hwf as [[Hr Hu] Hwf].
  simpl in Hc. apply andb_true_iff in Hc as [_ Hch].
  set (d1 := if negb _ then _ else d). set (d2 := with_pct d1 _).
  assert (D : per_ok (tg_uclamp_req d1) /\ tg_uc d1 = tg_uc d /\
              value (cget (tg_uclamp_req d1) id) = util).
  { unfold d1. destruct (Z.eqb_spec (value (cget (tg_uclamp_req d) id)) util) as [Ev|]; cbn [negb];
      [done|]. split_and!; [|done|].
    - destruct Hr. destruct id; split; try done; by apply se_set_ok.
    - cbn [tg_uclamp_req with_tg_req]. rewrite cget_cset. by apply se_set_value. }
  destruct D as (D1 & D2 & D3).
  destruct (walk_ok (TG d2 ch) parent Hp) as [W1 W2 W3 _].
  { constructor; [split; cbn; [done|by rewrite D2]|done]. }
  { cbn. by rewrite D2. }
  destruct (cpu_util_update_eff parent (TG d2 ch)) as [g' upd]. cbn [fst] in *.
  split; [done|]. intros _. split_and!; try done. destruct g' as [d' ch']. cbn in W2.
  apply Forall2_cons_1 in W2 as [(_ & Er & _) _]. cbn [data]. by rewrite Er.
Qed.

(** ** Requests of tasks *)

(** The values [sched_setattr] is documented to take: -1 or a capacity, as an [int]
    whose successor does not overflow. *)
Definition attr_int (v : Z) : Prop := 0 <= v < two32 /\ -1 <= s32 v < 2147483647.

Lemma attr_int_cases v : attr_int v -> v = minus_one /\ s32 v = -1 \/ v <> minus_one /\ s32 v = v.
Proof.
  intros [H1 H2]. unfold minus_one, s32, u32 in *. rewrite Z.mod_small in * by lia.
  destruct (Z.ltb_spec v two31); [right; split; [|done]|left]; lia.
Qed.

Lemma reset_req_ok min_rt rt attr c id :
  0 <= min_rt <= SCHED_CAPACITY_SCALE -> per_ok c -> per_ok (reset_req min_rt rt attr c id).
Proof.
  intros Hr [C1 C2]. unfold reset_req. destruct (uclamp_reset attr id (cget c id)); simpl; [|done].
  unfold SCHED_CAPACITY_SCALE in *.
  destruct id; split; try done; apply se_set_ok; unfold SCHED_CAPACITY_SCALE in *;
    try destruct rt; simpl; unfold SCHED_CAPACITY_SCALE; lia.
Qed.

Lemma cset_ok c id u : per_ok c -> se_ok u -> per_ok (cset c id u).
Proof. intros [? ?] ?. by destruct id; split. Qed.

Lemma flag_any attr :
  z2b (Z.land (sched_flags attr) SCHED_FLAG_UTIL_CLAMP_MIN) = true \/
  z2b (Z.land (sched_flags attr) SCHED_FLAG_UTIL_CLAMP_MAX) = true ->
  z2b (Z.land (sched_flags attr) SCHED_FLAG_UTIL_CLAMP) = true.
Proof.
  unfold z2b, SCHED_FLAG_UTIL_CLAMP. rewrite Z.land_lor_distr_r. intros H.
  destruct (Z.eqb_spec (Z.lor (Z.land (sched_flags attr) SCHED_FLAG_UTIL_CLAMP_MIN)
    (Z.land (sched_flags attr) SCHED_FLAG_UTIL_CLAMP_MAX)) 0) as [E|]; [|done].
  apply Z.lor_eq_0_iff in E as [E1 E2]. rewrite E1, E2 in H. by destruct H.
Qed.

(** a [sched_setattr] request that passes [uclamp_validate] leaves the task with
    requests the run queues can count: in range and in the bucket of their value;
    a clamp given in the attributes is stored and marked as user defined, and the
    clamps in force are not touched. *)
Theorem validated_request_countable p attr min_rt rt :
  per_ok (uclamp_req p) -> 0 <= min_rt <= SCHED_CAPACITY_SCALE ->
  attr_int (sched_util_min attr) -> attr_int (sched_util_max attr) ->
  uclamp_validate p attr = (0, true) ->
  let p' := __setscheduler_uclamp min_rt rt p attr in
  per_ok (uclamp_req p') /\ t_uclamp p' = t_uclamp p /\
  (z2b (Z.land (sched_flags attr) SCHED_FLAG_UTIL_CLAMP_MIN) = true ->
   sched_util_min attr <> minus_one ->
   value (c_min (uclamp_req p')) = sched_util_min attr /\ user_defined (c_min (uclamp_req p')) = true) /\
  (z2b (Z.land (sched_flags attr) SCHED_FLAG_UTIL_CLAMP_MAX) = true ->
   sched_util_max attr <> minus_one ->
   value (c_max (uclamp_req p')) = sched_util_max attr /\ user_defined (c_max (uclamp_req p')) = true).
Proof.
  intros Hp Hrt Amin Amax Hv p'.
  pose proof (flag_any attr) as Hany.
  assert (V : (z2b (Z.land (sched_flags attr) SCHED_FLAG_UTIL_CLAMP_MIN) = true ->
               sched_util_min attr <> minus_one -> 0 <= sched_util_min attr <= SCHED_CAPACITY_SCALE) /\
              (z2b (Z.land (sched_flags attr) SCHED_FLAG_UTIL_CLAMP_MAX) = true ->
               sched_util_max attr <> minus_one -> 0 <= sched_util_max attr <= SCHED_CAPACITY_SCALE)).
  { unfold uclamp_validate in Hv.
    destruct (attr_int_cases _ Amin) as [[? ?]|[? Emin]], (attr_int_cases _ Amax) as [[? ?]|[? Emax]],
      Amin as [? ?], Amax as [? ?];
      split; intros Hs Hne; try done; rewrite Hs in Hv; simpl in Hv;
      repeat (case_match; try done); zcase; rewrite ?Emin, ?Emax in *;
      rewrite s32_small in * by lia; lia. }
  destruct V as [V1 V2]. unfold p', __setscheduler_uclamp.
  set (c := reset_req min_rt rt attr (reset_req min_rt rt attr (uclamp_req p) UCLAMP_MIN) UCLAMP_MAX).
  assert (Hc : per_ok c) by (by apply reset_req_ok; [|apply reset_req_ok]). clearbody c.
  destruct (z2b (Z.land (sched_flags attr) SCHED_FLAG_UTIL_CLAMP)) eqn:Eany; simpl negb.
  2:{ split_and!; try done; intros Hs; assert (false = true) by (apply Hany; tauto); done. }
  destruct (z2b (Z.land (sched_flags attr) SCHED_FLAG_UTIL_CLAMP_MIN)),
    (z2b (Z.land (sched_flags attr) SCHED_FLAG_UTIL_CLAMP_MAX)),
    (Z.eqb_spec (sched_util_min attr) minus_one), (Z.eqb_spec (sched_util_max attr) minus_one);
    simpl andb; cbn iota; (split; [|split; [done|split; intros; try done]]);
    try (repeat apply cset_ok; try done; apply se_set_ok; auto; fail);
    (split; [apply se_set_value; auto|done]).
Qed.

End Conf.

(** ** Concrete instances *)

Definition demo_zero : uclamp_se := mk_se 0 0 false false.
Definition demo_group (id lo hi : Z) (uc_lo uc_hi : Z) (ch : list task_group) : task_group :=
  TG (mk_tg id (mk_per (demo_se lo) (demo_se hi)) (mk_per (demo_se uc_lo) (demo_se uc_hi))
        (mk_per 0 10000)) ch.

Definition demo_root : task_group := demo_group 0 1024 1024 1024 1024 [].

(** A group whose limit was just set to 600 and whose boost to 900; of its children
    the first asks for a boost of 800 and the second has a limit of 300. *)
Definition demo_child : task_group :=
  demo_group 1 900 600 0 1024 [demo_group 2 800 1024 0 1024 []; demo_group 3 0 300 0 300 []].

Lemma demo_child_wf : Forall (tg_wf 5) (groups demo_child).
Proof.
  repeat (apply Forall_cons_2; [vm_compute; intuition congruence|]). apply Forall_nil_2.
Qed.

Lemma demo_parent_wf : parent_wf 5 (Some (tg_uc (data demo_root))).
Proof. intros u [= <-]. vm_compute. intuition congruence. Qed.

Lemma group_walk_complete_witness :
  snd (cpu_util_update_eff 5 (Some (tg_uc (data demo_root))) demo_child) = [1; 2] /\
  consistent (Some (tg_uc (data demo_root)))
    (fst (cpu_util_update_eff 5 (Some (tg_uc (data demo_root))) demo_child)) = true.
Proof.
  split; [vm_compute; reflexivity|].
  pose proof (group_walk_complete 5 (Some (tg_uc (data demo_root))) demo_child
    demo_parent_wf demo_child_wf eq_refl) as H.
  destruct (cpu_util_update_eff 5 (Some (tg_uc (data demo_root))) demo_child) as [g' upd].
  destruct H as (H & _). exact H.
Defined.

Definition demo_settled : task_group :=
  fst (cpu_util_update_eff 5 (Some (tg_uc (data demo_root))) demo_child).

Lemma group_write_takes_effect_witness :
  capacity_from_percent (Some (0, 5000)) = (5000, 512, 0) /\
  value (c_max (tg_uclamp_req (data (snd (fst (cpu_uclamp_write 5
    (Some (tg_uc (data demo_root))) demo_settled (Some (0, 5000)) 4 UCLAMP_MAX)))))) = 512.
Proof.
  split; [vm_compute; reflexivity|].
  assert (Hwf : Forall (tg_wf 5) (groups demo_settled)).
  { repeat (apply Forall_cons_2; [vm_compute; intuition congruence|]). apply Forall_nil_2. }
  pose proof (group_write_takes_effect 5 (Some (tg_uc (data demo_root))) demo_settled
    (Some (0, 5000)) 4 UCLAMP_MAX demo_parent_wf Hwf eq_refl) as H.
  change (capacity_from_percent (Some (0, 5000))) with (5000, 512, 0) in H. cbn beta iota in H.
  destruct (cpu_uclamp_write 5 (Some (tg_uc (data demo_root))) demo_settled (Some (0, 5000)) 4
    UCLAMP_MAX) as [[r g'] upd].
  destruct H as [_ H]. destruct (H eq_refl) as (_ & E & _). exact E.
Defined.

Definition demo_conf : conf := init_uclamp 5 demo_zero (demo_group 0 0 0 0 0 []) (demo_task 0 0).

Lemma demo_conf_ok : conf_ok 5 demo_conf.
Proof.
  split; try (vm_compute; intuition congruence).
  - split; [vm_compute; reflexivity|].
    apply Forall_cons_2; [vm_compute; intuition congruence|apply Forall_nil_2].
  - apply Forall_cons_2; [vm_compute; intuition congruence|apply Forall_nil_2].
Qed.

Lemma sysctl_handler_all_or_nothing_witness :
  conf_ok 5 demo_conf /\
  sysctl_max (snd (sysctl_sched_uclamp_handler 5 true 0 (256, 512, 1024) demo_conf)) = 512.
Proof.
  split; [exact demo_conf_ok|].
  pose proof (sysctl_handler_all_or_nothing 5 demo_conf true 0 256 512 1024 demo_conf_ok
    ltac:(lia) ltac:(lia) ltac:(lia) ltac:(discriminate)) as H.
  destruct (sysctl_sched_uclamp_handler 5 true 0 (256, 512, 1024) demo_conf) as [ret c'] eqn:E.
  destruct H as (_ & _ & H & _). apply H. apply (f_equal fst) in E. vm_compute in E. congruence.
Defined.

Lemma validated_request_countable_witness :
  uclamp_validate (demo_task 0 1024) (mk_attr 0x60 200 800) = (0, true) /\
  per_ok 5 (uclamp_req (__setscheduler_uclamp 5 1024 false (demo_task 0 1024) (mk_attr 0x60 200 800))).
Proof.
  split; [vm_compute; reflexivity|].
  destruct (validated_request_countable 5 (demo_task 0 1024) (mk_attr 0x60 200 800) 1024 false)
    as [H _]; [vm_compute; intuition congruence|vm_compute; intuition congruence|
    vm_compute; intuition congruence|vm_compute; intuition congruence|vm_compute; reflexivity|].
  exact H.
Defined.

(** A negative request below -1 passes the validation: the comparison with the
    capacity scale is signed.  The stored value keeps 11 bits but the bucket is that
    of the whole number, so that the value 5 lands in the topmost bucket; when the
    task with the greatest clamp leaves the run queue, its minimum clamp becomes 5
    although a task with a clamp of 300 is runnable. *)
Definition rogue_attr : sched_attr := mk_attr 0x20 (two32 - 2043) 0.
Definition rogue_task : task := __setscheduler_uclamp 5 1024 false (demo_task 0 1024) rogue_attr.

Fixpoint exec_all (s : sys) (ops : list op) : option sys :=
  match ops with
  | [] => Some s
  | o :: ops => '(s, ok) ← exec 5 s o; if (ok : bool) then exec_all s ops else None
  end.

Example negative_request_accepted :
  uclamp_validate (demo_task 0 1024) rogue_attr = (0, true) /\
  value (c_min (uclamp_req rogue_task)) = 5 /\ bucket_id (c_min (uclamp_req rogue_task)) = 4 /\
  match exec_all (mk_sys (init_uclamp_rq 5) [demo_task 500 1024; rogue_task; demo_task 300 1024] true
           (mk_per (demo_se 1024) (demo_se 1024))) [Enqueue 0; Enqueue 1; Enqueue 2; Dequeue 0] with
  | Some s => uclamp_rq_get (s_rq s) UCLAMP_MIN = 5 /\
      (fun p => (accounted p, value (c_min (t_uclamp p)))) <$> s_tasks s !! 2%nat = Some (true, 300)
  | None => False
  end.
Proof. vm_compute. repeat split. Qed.

End UclampConf.
