(* ===== verification/Schedutil.v ===== *)
(** The schedutil governor: [kernel/sched/cpufreq_schedutil.c], with
    [effective_cpu_util] of [kernel/sched/core.c].

    The state is the policy object of the governor and one object per CPU of the
    policy.  What the run queues report (utilizations, clamps, idle calls) is an
    input of each update, as are the answers of the architecture and of the driver;
    what the governor asks of the driver is an output.  The theorems show that the
    frequency cache never hides a change, that updates respect the rate limit, that
    no deferred update is lost, and how the IO boost evolves. *)

From Stdlib Require Import ZArith Lia List.
From stdpp Require Import base list numbers option.
From S2P Require Import Prelude FreqTable Uclamp.

Module Schedutil.
Import FreqTable Uclamp.

Definition SCHED_CAPACITY_SHIFT : Z := 10.
Definition BW_SHIFT : Z := 20.
Definition IOWAIT_BOOST_MIN : Z := SCHED_CAPACITY_SCALE / 8.
Definition SCHED_CPUFREQ_IOWAIT : Z := Z.shiftl 1 0.
Definition NSEC_PER_USEC : Z := 1000.

(** What a run queue reports: [arch_scale_cpu_capacity], [cpu_util_cfs_boost],
    [cpu_util_cfs], the PELT signals of the other classes and of interrupts, the
    running bandwidth of deadline tasks, whether a real-time task is runnable, the
    clamps, and the count of [tick_nohz_get_idle_calls_cpu]. *)
Record cpu_rq := mk_cpu_rq {
  capacity : Z;
  util_cfs_boost : Z;
  util_cfs : Z;
  util_rt : Z;
  util_dl : Z;
  util_irq : Z;
  running_bw : Z;
  rt_runnable : bool;
  rq_uclamp : rq;
  idle_calls : Z
}.

Record sugov_policy := mk_sp {
  policy : cpufreq_policy;
  last_freq_update_time : Z;
  freq_update_delay_ns : Z;
  next_freq : Z;
  cached_raw_freq : Z;
  work_in_progress : bool;
  limits_changed : bool;
  need_freq_update : bool
}.

Record sugov_cpu := mk_sc {
  iowait_boost_pending : bool;
  iowait_boost : Z;
  last_update : Z;
  util : Z;
  bw_dl : Z;
  saved_idle_calls : Z
}.

Definition sp_policy (s : sugov_policy) (p : cpufreq_policy) : sugov_policy :=
  mk_sp p (last_freq_update_time s) (freq_update_delay_ns s) (next_freq s) (cached_raw_freq s)
    (work_in_progress s) (limits_changed s) (need_freq_update s).
Definition sp_next (s : sugov_policy) (time next : Z) : sugov_policy :=
  mk_sp (policy s) time (freq_update_delay_ns s) next (cached_raw_freq s)
    (work_in_progress s) (limits_changed s) (need_freq_update s).
Definition sp_time (s : sugov_policy) (time : Z) : sugov_policy := sp_next s time (next_freq s).
Definition sp_delay (s : sugov_policy) (d : Z) : sugov_policy :=
  mk_sp (policy s) (last_freq_update_time s) d (next_freq s) (cached_raw_freq s)
    (work_in_progress s) (limits_changed s) (need_freq_update s).
Definition sp_cached (s : sugov_policy) (f : Z) : sugov_policy :=
  mk_sp (policy s) (last_freq_update_time s) (freq_update_delay_ns s) (next_freq s) f
    (work_in_progress s) (limits_changed s) (need_freq_update s).
Definition sp_work (s : sugov_policy) (b : bool) : sugov_policy :=
  mk_sp (policy s) (last_freq_update_time s) (freq_update_delay_ns s) (next_freq s)
    (cached_raw_freq s) b (limits_changed s) (need_freq_update s).
Definition sp_limits (s : sugov_policy) (b : bool) : sugov_policy :=
  mk_sp (policy s) (last_freq_update_time s) (freq_update_delay_ns s) (next_freq s)
    (cached_raw_freq s) (work_in_progress s) b (need_freq_update s).
Definition sp_need (s : sugov_policy) (b : bool) : sugov_policy :=
  mk_sp (policy s) (last_freq_update_time s) (freq_update_delay_ns s) (next_freq s)
    (cached_raw_freq s) (work_in_progress s) (limits_changed s) b.

Definition sc_boost (c : sugov_cpu) (pending : bool) (boost : Z) : sugov_cpu :=
  mk_sc pending boost (last_update c) (util c) (bw_dl c) (saved_idle_calls c).
Definition sc_last (c : sugov_cpu) (t : Z) : sugov_cpu :=
  mk_sc (iowait_boost_pending c) (iowait_boost c) t (util c) (bw_dl c) (saved_idle_calls c).
Definition sc_util (c : sugov_cpu) (u : Z) : sugov_cpu :=
  mk_sc (iowait_boost_pending c) (iowait_boost c) (last_update c) u (bw_dl c) (saved_idle_calls c).
Definition sc_bw (c : sugov_cpu) (b : Z) : sugov_cpu :=
  mk_sc (iowait_boost_pending c) (iowait_boost c) (last_update c) (util c) b (saved_idle_calls c).
Definition sc_idle (c : sugov_cpu) (n : Z) : sugov_cpu :=
  mk_sc (iowait_boost_pending c) (iowait_boost c) (last_update c) (util c) (bw_dl c) n.

(** What the governor asks for. *)
Inductive action :=
| FastSwitch (freq : Z)
| QueueIrqWork
| AdjustPerf (min_perf target_perf cap : Z).

(** ** Utilization and frequency *)

Definition map_util_freq (util freq cap : Z) : Z := u64 (freq * util) / cap.
Definition map_util_perf (util : Z) : Z := u64 (util + Z.shiftr util 2).

Definition cpu_bw_dl (r : cpu_rq) : Z :=
  Z.shiftr (u64 (running_bw r * SCHED_CAPACITY_SCALE)) BW_SHIFT.

Definition scale_irq_capacity (util irq max : Z) : Z := u64 (util * (max - irq)) / max.

Inductive cpu_util_type := FREQUENCY_UTIL | ENERGY_UTIL.
Definition is_frequency (t : cpu_util_type) : bool :=
  match t with FREQUENCY_UTIL => true | ENERGY_UTIL => false end.

(** [used] is [uclamp_is_used()]; [eff] the clamps of the task [p], if any. *)
Definition effective_cpu_util (used : bool) (r : cpu_rq) (util_cfs : Z) (type : cpu_util_type)
    (eff : option (Z * Z)) : Z :=
  let max := capacity r in
  if negb used && is_frequency type && rt_runnable r then max
  else
    let irq := util_irq r in
    if max <=? irq then max
    else
      let util := u64 (util_cfs + util_rt r) in
      let util := if is_frequency type then uclamp_rq_util_with used (rq_uclamp r) util eff
                  else util in
      let dl_util := util_dl r in
      if max <=? u64 (util + dl_util) then max
      else
        let util := if is_frequency type then util else u64 (util + dl_util) in
        let util := scale_irq_capacity util irq max in
        let util := u64 (util + irq) in
        let util := if is_frequency type then u64 (util + cpu_bw_dl r) else util in
        Z.min max util.

Definition sched_cpu_util (used : bool) (r : cpu_rq) : Z :=
  effective_cpu_util used r (util_cfs r) ENERGY_UTIL None.

Section Governor.
(** [arch_scale_freq_invariant()], the flag [CPUFREQ_NEED_UPDATE_LIMITS] of the
    driver, [uclamp_is_used()], [policy->fast_switch_enabled] and [TICK_NSEC]. *)
Context (freq_invariant need_update_limits used fast_switch_enabled : bool) (TICK_NSEC : Z).

(** [can_update] is the answer of [cpufreq_this_cpu_can_update]. *)
Definition sugov_should_update_freq (can_update : bool) (s : sugov_policy) (time : Z)
  : bool * sugov_policy :=
  if negb can_update then (false, s)
  else if limits_changed s then (true, sp_need (sp_limits s false) true)
  else
    let delta_ns := s64 (time - last_freq_update_time s) in
    (freq_update_delay_ns s <=? delta_ns, s).

Definition sugov_update_next_freq (s : sugov_policy) (time next : Z) : bool * sugov_policy :=
  if need_freq_update s then (true, sp_next (sp_need s need_update_limits) time next)
  else if next_freq s =? next then (false, s)
  else (true, sp_next s time next).

Definition sugov_deferred_update (s : sugov_policy) : sugov_policy * list action :=
  if negb (work_in_progress s) then (sp_work s true, [QueueIrqWork]) else (s, []).

(** The frequency before it is mapped to one the driver supports. *)
Definition raw_freq (s : sugov_policy) (util max : Z) : Z :=
  let freq := if freq_invariant then cpuinfo_max_freq (policy s) else cur (policy s) in
  u32 (map_util_freq (map_util_perf util) freq max).

Definition get_next_freq (s : sugov_policy) (util max : Z) : option (Z * sugov_policy) :=
  let freq := raw_freq s util max in
  if (freq =? cached_raw_freq s) && negb (need_freq_update s) then Some (next_freq s, s)
  else
    let s := sp_cached s freq in
    '(f, p) ← cpufreq_driver_resolve_freq (policy s) freq;
    Some (f, sp_policy s p).

Definition sugov_get_util (c : sugov_cpu) (r : cpu_rq) : sugov_cpu :=
  let c := sc_bw c (cpu_bw_dl r) in
  sc_util c (effective_cpu_util used r (util_cfs_boost r) FREQUENCY_UTIL None).

(** ** The IO boost *)

Definition sugov_iowait_reset (c : sugov_cpu) (time : Z) (set_iowait_boost : bool)
  : bool * sugov_cpu :=
  let delta_ns := s64 (time - last_update c) in
  if delta_ns <=? TICK_NSEC then (false, c)
  else (true, sc_boost c set_iowait_boost (if set_iowait_boost then IOWAIT_BOOST_MIN else 0)).

Definition sugov_iowait_boost (c : sugov_cpu) (time flags : Z) : sugov_cpu :=
  let set_iowait_boost := z2b (Z.land flags SCHED_CPUFREQ_IOWAIT) in
  let '(done, c) := if z2b (iowait_boost c) then sugov_iowait_reset c time set_iowait_boost
                    else (false, c) in
  if done : bool then c
  else if negb set_iowait_boost then c
  else if iowait_boost_pending c then c
  else if z2b (iowait_boost c)
  then sc_boost c true (Z.min (u32 (Z.shiftl (iowait_boost c) 1)) SCHED_CAPACITY_SCALE)
  else sc_boost c true IOWAIT_BOOST_MIN.

Definition sugov_iowait_apply (c : sugov_cpu) (r : cpu_rq) (time max_cap : Z) : sugov_cpu :=
  if negb (z2b (iowait_boost c)) then c
  else
    let '(done, c) := sugov_iowait_reset c time false in
    if done : bool then c
    else
      let b := if negb (iowait_boost_pending c) then Z.shiftr (iowait_boost c) 1
               else iowait_boost c in
      if negb (iowait_boost_pending c) && (b <? IOWAIT_BOOST_MIN)
      then sc_boost c (iowait_boost_pending c) 0
      else
        let c := sc_boost c false b in
        let boost := Z.shiftr (u64 (iowait_boost c * max_cap)) SCHED_CAPACITY_SHIFT in
        let boost := uclamp_rq_util_with used (rq_uclamp r) boost None in
        if util c <? boost then sc_util c boost else c.

Definition sugov_cpu_is_busy (c : sugov_cpu) (r : cpu_rq) : bool * sugov_cpu :=
  (idle_calls r =? saved_idle_calls c, sc_idle c (idle_calls r)).

Definition ignore_dl_rate_limit (s : sugov_policy) (c : sugov_cpu) (r : cpu_rq) : sugov_policy :=
  if bw_dl c <? cpu_bw_dl r then sp_limits s true else s.

(** ** Updates of a policy with one CPU *)

Definition sugov_update_single_common (can_update : bool) (s : sugov_policy) (c : sugov_cpu)
    (r : cpu_rq) (time max_cap flags : Z) : bool * sugov_policy * sugov_cpu :=
  let c := sugov_iowait_boost c time flags in
  let c := sc_last c time in
  let s := ignore_dl_rate_limit s c r in
  let '(go, s) := sugov_should_update_freq can_update s time in
  if negb go then (false, s, c)
  else
    let c := sugov_get_util c r in
    let c := sugov_iowait_apply c r time max_cap in
    (true, s, c).

(** What is left of an update once a frequency was stored. *)
Definition commit (s : sugov_policy) (next_f : Z) : sugov_policy * list action :=
  if fast_switch_enabled then (s, [FastSwitch next_f]) else sugov_deferred_update s.

(** The short-circuit of [&&]: the idle calls are sampled only when the run queue
    is not capped. *)
Definition keep_speed (c : sugov_cpu) (r : cpu_rq) : bool * sugov_cpu :=
  if negb (uclamp_rq_is_capped used (rq_uclamp r) (u64 (util_cfs r + util_rt r)))
  then sugov_cpu_is_busy c r else (false, c).

Definition sugov_update_single_freq (can_update : bool) (s : sugov_policy) (c : sugov_cpu)
    (r : cpu_rq) (time flags : Z) : option (sugov_policy * sugov_cpu * list action) :=
  let cached_freq := cached_raw_freq s in
  let max_cap := capacity r in
  let '(go, s, c) := sugov_update_single_common can_update s c r time max_cap flags in
  if negb go then Some (s, c, [])
  else
    '(next_f, s) ← get_next_freq s (util c) max_cap;
    let '(busy, c) := keep_speed c r in
    let keep := busy && (next_f <? next_freq s) && negb (need_freq_update s) in
    let s := if keep then sp_cached s cached_freq else s in
    let next_f := if keep then next_freq s else next_f in
    let '(changed, s) := sugov_update_next_freq s time next_f in
    if negb changed then Some (s, c, [])
    else
      let '(s, acts) := commit s next_f in
      Some (s, c, acts).

Definition sugov_update_single_perf (can_update : bool) (s : sugov_policy) (c : sugov_cpu)
    (r : cpu_rq) (time flags : Z) : option (sugov_policy * sugov_cpu * list action) :=
  let prev_util := util c in
  if negb freq_invariant then sugov_update_single_freq can_update s c r time flags
  else
    let max_cap := capacity r in
    let '(go, s, c) := sugov_update_single_common can_update s c r time max_cap flags in
    if negb go then Some (s, c, [])
    else
      let '(busy, c) := keep_speed c r in
      let c := if busy && (util c <? prev_util) then sc_util c prev_util else c in
      Some (sp_time s time, c,
            [AdjustPerf (map_util_perf (bw_dl c)) (map_util_perf (util c)) max_cap]).

(** ** Updates of a policy with several CPUs *)

(** The loop over [policy->cpus], with the run queue of each. *)
Fixpoint shared_util (cs : list sugov_cpu) (rs : list cpu_rq) (time max_cap util_max : Z)
  : list sugov_cpu * Z :=
  match cs, rs with
  | c :: cs, r :: rs =>
    let c := sugov_get_util c r in
    let c := sugov_iowait_apply c r time max_cap in
    let '(cs, u) := shared_util cs rs time max_cap (Z.max (util c) util_max) in
    (c :: cs, u)
  | _, _ => (cs, util_max)
  end.

Definition sugov_next_freq_shared (s : sugov_policy) (cs : list sugov_cpu) (rs : list cpu_rq)
    (i : nat) (time : Z) : option (Z * sugov_policy * list sugov_cpu) :=
  r ← rs !! i;
  let max_cap := capacity r in
  let '(cs, u) := shared_util cs rs time max_cap 0 in
  '(f, s) ← get_next_freq s u max_cap;
  Some (f, s, cs).

(** The update of the [i]-th CPU, under [update_lock]. *)
Definition sugov_update_shared (can_update : bool) (s : sugov_policy) (cs : list sugov_cpu)
    (rs : list cpu_rq) (i : nat) (time flags : Z)
  : option (sugov_policy * list sugov_cpu * list action) :=
  c ← cs !! i;
  r ← rs !! i;
  let c := sugov_iowait_boost c time flags in
  let c := sc_last c time in
  let cs := <[i := c]> cs in
  let s := ignore_dl_rate_limit s c r in
  let '(go, s) := sugov_should_update_freq can_update s time in
  if negb go then Some (s, cs, [])
  else
    '(next_f, s, cs) ← sugov_next_freq_shared s cs rs i time;
    let '(changed, s) := sugov_update_next_freq s time next_f in
    if negb changed then Some (s, cs, [])
    else
      let '(s, acts) := commit s next_f in
      Some (s, cs, acts).

(** ** The worker and the entry points of the core *)

(** The part of [sugov_work] under [update_lock]: the frequency it then hands to
    [__cpufreq_driver_target]. *)
Definition sugov_work (s : sugov_policy) : Z * sugov_policy := (next_freq s, sp_work s false).

(** [parsed] is the result of [kstrtouint]. *)
Definition rate_limit_us_store (parsed : option Z) (count : Z) (ss : list sugov_policy)
    (tunables : Z) : Z * Z * list sugov_policy :=
  match parsed with
  | None => (- EINVAL, tunables, ss)
  | Some rate_limit_us =>
    (count, rate_limit_us, map (fun s => sp_delay s (rate_limit_us * NSEC_PER_USEC)) ss)
  end.

Definition sugov_start (s : sugov_policy) (rate_limit_us : Z) (cs : list sugov_cpu)
  : sugov_policy * list sugov_cpu :=
  (mk_sp (policy s) 0 (rate_limit_us * NSEC_PER_USEC) 0 0 false false need_update_limits,
   map (fun _ => mk_sc false 0 0 0 0 0) cs).

(** [cpufreq_policy_apply_limits]: the frequency asked of the driver, if any. *)
Definition cpufreq_policy_apply_limits (p : cpufreq_policy) : option Z :=
  if pmax p <? cur p then Some (pmax p)
  else if cur p <? pmin p then Some (pmin p)
  else None.

Definition sugov_limits (s : sugov_policy) : sugov_policy * option Z :=
  (sp_limits s true,
   if negb fast_switch_enabled then cpufreq_policy_apply_limits (policy s) else None).

(** ** The governor of one policy as a system *)

(** The update function [sugov_start] installs. *)
Inductive update_fn := Shared | Single_perf | Single_freq.
Definition sugov_uu (policy_is_shared has_adjust_perf : bool) : update_fn :=
  if policy_is_shared then Shared
  else if fast_switch_enabled && has_adjust_perf then Single_perf
  else Single_freq.

Definition sugov_update (m : update_fn) (can_update : bool) (s : sugov_policy) (cs : list sugov_cpu)
    (rs : list cpu_rq) (i : nat) (time flags : Z)
  : option (sugov_policy * list sugov_cpu * list action) :=
  match m with
  | Shared => sugov_update_shared can_update s cs rs i time flags
  | Single_perf =>
    c ← cs !! i; r ← rs !! i;
    '(s, c, acts) ← sugov_update_single_perf can_update s c r time flags;
    Some (s, <[i := c]> cs, acts)
  | Single_freq =>
    c ← cs !! i; r ← rs !! i;
    '(s, c, acts) ← sugov_update_single_freq can_update s c r time flags;
    Some (s, <[i := c]> cs, acts)
  end.

(** The policy, its CPUs, whether the interrupt work is pending and the kernel
    thread work queued, the frequency the thread has read and not yet asked for,
    and the frequency last asked of the driver. *)
Record gov := mk_gov {
  g_sp : sugov_policy;
  g_cpus : list sugov_cpu;
  g_irq : bool;
  g_queued : bool;
  g_worker : option Z;
  g_hw : Z
}.

Definition run_action (g : gov) (a : action) : gov :=
  match a with
  | FastSwitch f => mk_gov (g_sp g) (g_cpus g) (g_irq g) (g_queued g) (g_worker g) f
  | QueueIrqWork => mk_gov (g_sp g) (g_cpus g) true (g_queued g) (g_worker g) (g_hw g)
  | AdjustPerf _ _ _ => g
  end.

(** An update of a CPU, the interrupt work, the two halves of the thread work, new
    policy limits, a new rate limit, and a frequency reported by the driver. *)
Inductive event :=
| EvUpdate (i : nat) (can_update : bool) (rs : list cpu_rq) (time flags : Z)
| EvIrq
| EvWorkRead
| EvWorkApply
| EvLimits (lo hi : Z)
| EvRate (rate_limit_us : Z)
| EvCur (freq : Z).

Definition with_cur (p : cpufreq_policy) (f : Z) : cpufreq_policy :=
  mk_policy (pmin p) (pmax p) f (cpuinfo_min_freq p) (cpuinfo_max_freq p) (freq_table p)
    (freq_table_sorted p) (efficiencies_available p) (cached_resolved_idx p)
    (cached_target_freq p).

Context (policy_is_shared has_adjust_perf : bool).

Abbreviation uu := (sugov_uu policy_is_shared has_adjust_perf).

Definition exec (g : gov) (e : event) : option gov :=
  match e with
  | EvUpdate i can rs time flags =>
    '(s, cs, acts) ← sugov_update uu can (g_sp g) (g_cpus g) rs i time flags;
    Some (foldl run_action (mk_gov s cs (g_irq g) (g_queued g) (g_worker g) (g_hw g)) acts)
  | EvIrq =>
    if g_irq g then Some (mk_gov (g_sp g) (g_cpus g) false true (g_worker g) (g_hw g)) else None
  | EvWorkRead =>
    match g_worker g with
    | None =>
      if g_queued g then
        let '(f, s) := sugov_work (g_sp g) in
        Some (mk_gov s (g_cpus g) (g_irq g) false (Some f) (g_hw g))
      else None
    | Some _ => None
    end
  | EvWorkApply =>
    f ← g_worker g; Some (mk_gov (g_sp g) (g_cpus g) (g_irq g) (g_queued g) None f)
  | EvLimits lo hi =>
    let s := sp_policy (g_sp g) (with_limits (policy (g_sp g)) lo hi) in
    let '(s, target) := sugov_limits s in
    Some (mk_gov s (g_cpus g) (g_irq g) (g_queued g) (g_worker g) (default (g_hw g) target))
  | EvRate r =>
    match rate_limit_us_store (Some r) 0 [g_sp g] 0 with
    | (_, _, [s]) => Some (mk_gov s (g_cpus g) (g_irq g) (g_queued g) (g_worker g) (g_hw g))
    | _ => None
    end
  | EvCur f =>
    Some (mk_gov (sp_policy (g_sp g) (with_cur (policy (g_sp g)) f)) (g_cpus g) (g_irq g)
            (g_queued g) (g_worker g) (g_hw g))
  end.

(** The core starts a governor by [start] and then [limits]. *)
Inductive reach : gov -> Prop :=
| reach_init s0 rate cs0 s cs s' target :
    sugov_start s0 rate cs0 = (s, cs) -> sugov_limits s = (s', target) ->
    reach (mk_gov s' cs false false None (default 0 target))
| reach_step g e g' : reach g -> exec g e = Some g' -> reach g'.

(** ** Deferred updates *)

Record ginv (g : gov) : Prop := mk_ginv {
  gi_pending : work_in_progress (g_sp g) = g_irq g || g_queued g;
  gi_once : g_irq g && g_queued g = false;
  gi_fast : fast_switch_enabled = true ->
    g_hw g = next_freq (g_sp g) /\ work_in_progress (g_sp g) = false /\ g_worker g = None;
  gi_slow : limits_changed (g_sp g) = false -> work_in_progress (g_sp g) = false ->
    default (g_hw g) (g_worker g) = next_freq (g_sp g)
}.

(** The end of an update. *)
Definition finish (s : sugov_policy) (time f : Z) : sugov_policy * list action :=
  let '(changed, s) := sugov_update_next_freq s time f in
  if negb changed then (s, []) else commit s f.

(** The update is forced when the limits changed or deadline bandwidth grew. *)
Definition forced (s : sugov_policy) (c : sugov_cpu) (r : cpu_rq) : bool :=
  limits_changed s || (bw_dl c <? cpu_bw_dl r).

(** What an update does to the policy object. *)
Inductive outcome (s : sugov_policy) (f : bool) (time : Z) : sugov_policy -> list action -> Prop :=
| O_none s' :
    freq_update_delay_ns s' = freq_update_delay_ns s ->
    next_freq s' = next_freq s -> work_in_progress s' = work_in_progress s ->
    last_freq_update_time s' = last_freq_update_time s ->
    limits_changed s' = f -> outcome s f time s' []
| O_commit s' acts next :
    freq_update_delay_ns s' = freq_update_delay_ns s ->
    next_freq s' = next -> last_freq_update_time s' = time ->
    (if fast_switch_enabled
     then acts = [FastSwitch next] /\ work_in_progress s' = work_in_progress s
     else work_in_progress s' = true /\ acts = if work_in_progress s then [] else [QueueIrqWork]) ->
    f = true \/ freq_update_delay_ns s <= s64 (time - last_freq_update_time s) ->
    outcome s f time s' acts
| O_perf s' a b cap :
    freq_update_delay_ns s' = freq_update_delay_ns s ->
    next_freq s' = next_freq s -> work_in_progress s' = work_in_progress s ->
    last_freq_update_time s' = time -> fast_switch_enabled = true ->
    f = true \/ freq_update_delay_ns s <= s64 (time - last_freq_update_time s) ->
    outcome s f time s' [AdjustPerf a b cap].

Lemma forced_same c c' s r : bw_dl c' = bw_dl c -> forced s c' r = forced s c r.
Proof. unfold forced. by intros ->. Qed.

Lemma boost_bw c time flags : bw_dl (sc_last (sugov_iowait_boost c time flags) time) = bw_dl c.
Proof.
  unfold sugov_iowait_boost, sugov_iowait_reset. simpl. repeat (case_match; simplify_eq; try done).
Qed.

Lemma ignore_limits s c r : limits_changed (ignore_dl_rate_limit s c r) = forced s c r.
Proof.
  unfold ignore_dl_rate_limit, forced. destruct (bw_dl c <? cpu_bw_dl r); simpl;
    [by rewrite orb_true_r|by rewrite orb_false_r].
Qed.

(** The fields an update leaves alone before it picks a frequency. *)
Definition quiet (s s' : sugov_policy) : Prop :=
  policy s' = policy s /\ next_freq s' = next_freq s /\ work_in_progress s' = work_in_progress s /\
  last_freq_update_time s' = last_freq_update_time s /\
  freq_update_delay_ns s' = freq_update_delay_ns s /\ cached_raw_freq s' = cached_raw_freq s.

Lemma should_spec can s c r time go s1 :
  sugov_should_update_freq can (ignore_dl_rate_limit s c r) time = (go, s1) ->
  quiet s s1 /\
  if go then limits_changed s1 = false /\
    (forced s c r = true /\ need_freq_update s1 = true \/
     forced s c r = false /\ need_freq_update s1 = need_freq_update s /\
       freq_update_delay_ns s <= s64 (time - last_freq_update_time s))
  else limits_changed s1 = forced s c r /\ need_freq_update s1 = need_freq_update s.
Proof.
  unfold sugov_should_update_freq. rewrite ignore_limits. intros H.
  assert (Q : quiet s (ignore_dl_rate_limit s c r)).
  { unfold ignore_dl_rate_limit. destruct (_ <? _); done. }
  assert (N : need_freq_update (ignore_dl_rate_limit s c r) = need_freq_update s).
  { unfold ignore_dl_rate_limit. by destruct (_ <? _). }
  destruct Q as (Q1 & Q2 & Q3 & Q4 & Q5 & Q6).
  destruct can; simpl in H; [|injection H as <- <-; split; [done|]; by rewrite ignore_limits].
  destruct (forced s c r) eqn:F.
  - injection H as <- <-. split; [done|]. split; [done|]. by left.
  - rewrite Q4, Q5 in H. injection H as <- <-. split; [done|].
    destruct (Z.leb_spec (freq_update_delay_ns s) (s64 (time - last_freq_update_time s))).
    + rewrite ignore_limits. split; [done|]. right. by rewrite N.
    + by rewrite ignore_limits.
Qed.

(** The fields that picking a frequency leaves alone. *)
Definition settled_fields (s s' : sugov_policy) : Prop :=
  next_freq s' = next_freq s /\ work_in_progress s' = work_in_progress s /\
  last_freq_update_time s' = last_freq_update_time s /\
  limits_changed s' = limits_changed s /\ need_freq_update s' = need_freq_update s /\
  freq_update_delay_ns s' = freq_update_delay_ns s.

Lemma get_next_fields s u max f s' : get_next_freq s u max = Some (f, s') -> settled_fields s s'.
Proof.
  unfold get_next_freq. destruct (_ && _); [by intros [= <- <-]|].
  intros ([f1 p1] & _ & H)%bind_Some. by injection H as <- <-.
Qed.

(** After the decision to update, whatever frequency is picked. *)
Lemma finish_outcome can s c r time s1 s2 f s' acts :
  sugov_should_update_freq can (ignore_dl_rate_limit s c r) time = (true, s1) ->
  settled_fields s1 s2 -> finish s2 time f = (s', acts) ->
  outcome s (forced s c r) time s' acts.
Proof.
  intros H (E1 & E2 & E3 & E4 & E5 & E6) Hf.
  destruct (should_spec _ _ _ _ _ _ _ H) as ((Q1 & Q2 & Q3 & Q4 & Q5 & Q6) & L & Hforced).
  unfold finish, sugov_update_next_freq in Hf.
  assert (Commit : forall s3, next_freq s3 = f -> last_freq_update_time s3 = time ->
    work_in_progress s3 = work_in_progress s2 ->
    freq_update_delay_ns s3 = freq_update_delay_ns s2 -> commit s3 f = (s', acts) ->
    outcome s (forced s c r) time s' acts).
  { intros s3 A B C D0 D. unfold commit, sugov_deferred_update in D.
    apply (O_commit _ _ _ _ _ f); [| | | |destruct Hforced as [[? _]|(_ & _ & ?)]; auto].
    - destruct fast_switch_enabled; [simplify_eq; congruence|]. destruct (negb _); simplify_eq/=; congruence.
    - destruct fast_switch_enabled; [by simplify_eq|]. destruct (negb _); by simplify_eq.
    - destruct fast_switch_enabled; [by simplify_eq|]. destruct (negb _); by simplify_eq.
    - destruct fast_switch_enabled; [simplify_eq; split; [done|congruence]|].
      rewrite C, E2, Q3 in D. destruct (work_in_progress s) eqn:W; simplify_eq/=; split; congruence. }
  destruct (need_freq_update s2) eqn:N; [by refine (Commit _ _ _ _ _ Hf)|].
  destruct (Z.eqb_spec (next_freq s2) f); [|by refine (Commit _ _ _ _ _ Hf)].
  injection Hf as <- <-. destruct Hforced as [[_ Hn]|(Hn & _)]; [congruence|].
  constructor; congruence.
Qed.

Lemma single_freq_outcome can s c r time flags s' c' acts :
  sugov_update_single_freq can s c r time flags = Some (s', c', acts) ->
  outcome s (forced s c r) time s' acts.
Proof.
  unfold sugov_update_single_freq, sugov_update_single_common. intros H.
  set (c1 := sc_last (sugov_iowait_boost c time flags) time) in *.
  assert (F : forced s c1 r = forced s c r) by (apply forced_same, boost_bw). rewrite <- F.
  clearbody c1. clear F.
  destruct (sugov_should_update_freq can (ignore_dl_rate_limit s c1 r) time) as [go s1] eqn:E.
  destruct go; simpl in H.
  - apply bind_Some in H as ([f s2] & Hg & H). apply get_next_fields in Hg.
    destruct (keep_speed _ r) as [busy c2].
    set (keep := busy && _ && _) in H.
    assert (Hs : settled_fields s1 (if keep then sp_cached s2 (cached_raw_freq s) else s2))
      by by destruct keep.
    set (s3 := if keep then sp_cached s2 (cached_raw_freq s) else s2) in *.
    set (f3 := if keep then next_freq s3 else f) in *. clearbody s3 f3.
    apply (finish_outcome can s c1 r time s1 s3 f3 s' acts E Hs). unfold finish.
    destruct (sugov_update_next_freq _ _ _) as [changed s4]. destruct changed; simpl in *; [|congruence].
    destruct (commit s4 _) as [s5 acts5]. by simplify_eq.
  - injection H as <- <- <-. destruct (should_spec _ _ _ _ _ _ _ E) as ((? & ? & ? & ? & ? & _) & ? & _).
    by constructor.
Qed.

Lemma single_perf_outcome can s c r time flags s' c' acts :
  fast_switch_enabled = true ->
  sugov_update_single_perf can s c r time flags = Some (s', c', acts) ->
  outcome s (forced s c r) time s' acts.
Proof.
  intros Hfast. unfold sugov_update_single_perf.
  destruct freq_invariant; simpl; [|by apply single_freq_outcome].
  unfold sugov_update_single_common. intros H.
  set (c1 := sc_last (sugov_iowait_boost c time flags) time) in *.
  assert (F : forced s c1 r = forced s c r) by (apply forced_same, boost_bw). rewrite <- F.
  clearbody c1. clear F.
  destruct (sugov_should_update_freq can (ignore_dl_rate_limit s c1 r) time) as [go s1] eqn:E.
  destruct (should_spec _ _ _ _ _ _ _ E) as ((Q1 & Q2 & Q3 & Q4 & Q5 & Q6) & Hgo).
  destruct go; simpl in H.
  - destruct (keep_speed _ r) as [busy c2]. injection H as <- <- <-.
    apply O_perf; try done. destruct Hgo as (_ & [[? _]|(_ & _ & ?)]); auto.
  - injection H as <- <- <-. destruct Hgo. by constructor.
Qed.

Lemma shared_outcome can s cs rs i time flags s' cs' acts :
  sugov_update_shared can s cs rs i time flags = Some (s', cs', acts) ->
  exists c r, cs !! i = Some c /\ rs !! i = Some r /\ outcome s (forced s c r) time s' acts.
Proof.
  unfold sugov_update_shared. intros (c & Hc & (r & Hr & H)%bind_Some)%bind_Some.
  exists c, r. split; [done|]. split; [done|].
  set (c1 := sc_last (sugov_iowait_boost c time flags) time) in *.
  assert (F : forced s c1 r = forced s c r) by (apply forced_same, boost_bw). rewrite <- F.
  clearbody c1. clear F.
  destruct (sugov_should_update_freq can (ignore_dl_rate_limit s c1 r) time) as [go s1] eqn:E.
  destruct go; simpl in H.
  - apply bind_Some in H as ([[f s2] cs2] & Hg & H).
    assert (Hs : settled_fields s1 s2).
    { unfold sugov_next_freq_shared in Hg. apply bind_Some in Hg as (r1 & _ & Hg).
      destruct (shared_util _ _ _ _ _) as [cs3 u].
      apply bind_Some in Hg as ([f3 s3] & Hg & E3). simplify_eq. by eapply get_next_fields. }
    apply (finish_outcome can s c1 r time s1 s2 f s' acts E Hs). unfold finish.
    destruct (sugov_update_next_freq _ _ _) as [changed s4]. destruct changed; simpl in *; [|congruence].
    destruct (commit s4 _) as [s5 acts5]. by simplify_eq.
  - injection H as <- <- <-. destruct (should_spec _ _ _ _ _ _ _ E) as ((? & ? & ? & ? & ? & _) & ? & _).
    by constructor.
Qed.

Lemma update_outcome can s cs rs i time flags s' cs' acts :
  sugov_update uu can s cs rs i time flags = Some (s', cs', acts) ->
  exists c r, cs !! i = Some c /\ rs !! i = Some r /\ outcome s (forced s c r) time s' acts.
Proof.
  unfold sugov_update, sugov_uu. destruct policy_is_shared; [apply shared_outcome|].
  destruct fast_switch_enabled eqn:Ef; simpl; [destruct has_adjust_perf|];
    intros (c & Hc & (r & Hr & ([[s1 c1] a1] & H & E)%bind_Some)%bind_Some)%bind_Some;
    simplify_eq; exists c, r; (split; [done|]); (split; [done|]).
  - by eapply single_perf_outcome.
  - by eapply single_freq_outcome.
  - by eapply single_freq_outcome.
Qed.

Lemma ginv_update g s cs acts fb time :
  ginv g -> outcome (g_sp g) fb time s acts ->
  (fb = false -> limits_changed (g_sp g) = false) ->
  ginv (foldl run_action (mk_gov s cs (g_irq g) (g_queued g) (g_worker g) (g_hw g)) acts).
Proof.
  intros [P U F S] O Hfb.
  destruct O as [s' _ A1 A2 A3 A4|s' acts f _ A1 A2 A3 A4|s' a b cap _ A1 A2 A3 A4 A5].
  - split; simpl; rewrite ?A1, ?A2; auto. intros L. apply S, Hfb. congruence.
  - destruct fast_switch_enabled eqn:Ef.
    + destruct A3 as [-> W]. destruct (F eq_refl) as (F1 & F2 & F3).
      split; simpl; rewrite ?F3; simpl; [congruence|done|intros _; split_and!; congruence|congruence].
    + destruct A3 as [W ->]. destruct (work_in_progress (g_sp g)) eqn:W0; simpl.
      * split; simpl; [congruence|done|congruence|congruence].
      * symmetry in P. apply orb_false_iff in P as [P1 P2].
        split; simpl; [by rewrite W|by rewrite P2|congruence|congruence].
  - destruct (F A4) as (F1 & F2 & F3).
    split; simpl; rewrite ?F3; simpl; [congruence|done|intros _; split_and!; congruence|congruence].
Qed.

Lemma ginv_exec g e g' : ginv g -> exec g e = Some g' -> ginv g'.
Proof.
  intros I. destruct e as [i can rs time flags| | | |lo hi|rate|f]; simpl.
  - intros ([[s cs] acts] & H & E)%bind_Some. injection E as <-.
    destruct (update_outcome _ _ _ _ _ _ _ _ _ _ H) as (c & r & _ & _ & O).
    apply (ginv_update g s cs acts _ time I O).
    unfold forced. intros E%orb_false_iff. tauto.
  - destruct I as [P U F S]. destruct (g_irq g) eqn:E; [|done]. intros [= <-].
    split; simpl; [done|done|done|]. intros _ W. simpl in P. congruence.
  - destruct I as [P U F S]. destruct (g_worker g) eqn:Ew; [done|].
    destruct (g_queued g) eqn:Eq; [|done]. intros [= <-]. rewrite orb_true_r in P.
    rewrite andb_true_r in U.
    split; simpl; [by rewrite U|by rewrite andb_false_r| |done].
    intros Ef. destruct (F Ef) as (_ & ? & _). congruence.
  - destruct I as [P U F S]. destruct (g_worker g) as [f|] eqn:Ew; [|done]. intros [= <-].
    split; simpl in *; try done. intros Ef. by destruct (F Ef) as (_ & _ & ?).
  - destruct I as [P U F S]. intros [= <-]. split; simpl; try done.
    intros Ef. rewrite Ef. simpl. by apply F.
  - destruct I as [P U F S]. intros [= <-]. by split.
  - destruct I as [P U F S]. intros [= <-]. by split.
Qed.

Lemma reach_ginv g : reach g -> ginv g.
Proof.
  induction 1 as [s0 rate cs0 s cs s' target Hs Hl|g e g' _ IH E]; [|by eapply ginv_exec].
  injection Hs as <- <-. injection Hl as <- <-. split; simpl; try done.
  intros ->. by split_and!.
Qed.

(** The pending steps of the deferred path, in the order they run. *)
Definition advance (g : gov) (e : event) : gov := default g (exec g e).
Definition settle (g : gov) : gov :=
  foldl advance g [EvWorkApply; EvIrq; EvWorkRead; EvWorkApply].

Definition quiescent (g : gov) : Prop :=
  g_irq g = false /\ g_queued g = false /\ g_worker g = None /\ work_in_progress (g_sp g) = false.

Lemma settle_quiescent g : ginv g -> quiescent (settle g).
Proof.
  intros [P U _ _]. unfold settle, advance, quiescent. simpl. destruct (g_worker g) as [f|] eqn:Ew,
    (g_irq g) eqn:Ei, (g_queued g) eqn:Eq; simpl in *; try done; rewrite ?Ei, ?Ew; simpl;
    rewrite ?Ei, ?Eq, ?Ew; simpl; rewrite ?Ew; simpl; by split_and!.
Qed.

Lemma settle_kept g :
  next_freq (g_sp (settle g)) = next_freq (g_sp g) /\
  limits_changed (g_sp (settle g)) = limits_changed (g_sp g).
Proof.
  assert (K : forall e, e = EvWorkApply \/ e = EvIrq \/ e = EvWorkRead -> forall g,
    next_freq (g_sp (advance g e)) = next_freq (g_sp g) /\
    limits_changed (g_sp (advance g e)) = limits_changed (g_sp g)).
  { intros e He g0. unfold advance.
    destruct He as [->|[->| ->]]; simpl; by destruct (g_worker g0), (g_irq g0), (g_queued g0). }
  pose proof (K EvWorkApply ltac:(auto)) as K1. pose proof (K EvIrq ltac:(auto)) as K2.
  pose proof (K EvWorkRead ltac:(auto)) as K3. unfold settle. cbn [foldl].
  split; [rewrite (proj1 (K1 _)), (proj1 (K3 _)), (proj1 (K2 _)), (proj1 (K1 _))|
          rewrite (proj2 (K1 _)), (proj2 (K3 _)), (proj2 (K2 _)), (proj2 (K1 _))]; done.
Qed.

Lemma reach_settle g : reach g -> reach (settle g).
Proof.
  assert (K : forall g e, reach g -> reach (advance g e)).
  { intros g0 e R. unfold advance. destruct (exec g0 e) as [g1|] eqn:E; [|done].
    by eapply reach_step. }
  intros R. unfold settle. simpl. auto.
Qed.

(** C39: no deferred frequency update is lost.  From any reachable state, once the
    pending interrupt and thread work have run, nothing is pending any more and, unless a
    change of the limits still waits for the next update, the frequency last
    asked of the driver is the one the governor last decided on; with fast
    switching this holds at every moment. *)
Theorem deferred_update_not_lost g (R : reach g) :
  let g' := settle g in
  reach g' /\ quiescent g' /\ next_freq (g_sp g') = next_freq (g_sp g) /\
  (limits_changed (g_sp g) = false -> g_hw g' = next_freq (g_sp g)) /\
  (fast_switch_enabled = true -> g_hw g = next_freq (g_sp g)).
Proof.
  intros g'. pose proof (reach_ginv g R) as I. pose proof (reach_settle g R) as R'.
  pose proof (settle_quiescent g I) as Q. destruct (settle_kept g) as [K1 K2].
  split_and!; try done.
  - intros L. destruct (reach_ginv _ R') as [_ _ _ S]. destruct Q as (_ & _ & Q3 & Q4).
    rewrite Q3 in S. unfold g'. rewrite <- K1. apply S; congruence.
  - intros F. by destruct (gi_fast g I F).
Qed.

(** ** The rate limit *)

Definition update_forced (g : gov) (i : nat) (rs : list cpu_rq) : bool :=
  match g_cpus g !! i, rs !! i with Some c, Some r => forced (g_sp g) c r | _, _ => false end.

(** The times at which a run commits to a frequency or a performance level, with
    whether the commitment was forced. *)
Fixpoint commits (g : gov) (es : list event) : option (list (Z * bool)) :=
  match es with
  | [] => Some []
  | e :: es =>
    g' ← exec g e;
    tr ← commits g' es;
    match e with
    | EvUpdate i can rs time flags =>
      r ← sugov_update uu can (g_sp g) (g_cpus g) rs i time flags;
      let '(s, _, acts) := r : sugov_policy * list sugov_cpu * list action in
      let moved := negb (next_freq s =? next_freq (g_sp g)) ||
                   negb (last_freq_update_time s =? last_freq_update_time (g_sp g)) ||
                   match acts with [] => false | _ => true end in
      Some (if moved then (time, update_forced g i rs) :: tr else tr)
    | _ => Some tr
    end
  end.

Fixpoint spaced (delay last : Z) (tr : list (Z * bool)) : Prop :=
  match tr with
  | [] => True
  | (t, f) :: tr => (f = false -> delay <= s64 (t - last)) /\ spaced delay t tr
  end.

Definition keeps_rate (e : event) : bool := match e with EvRate _ => false | _ => true end.

Lemma foldl_sp acts : forall g, g_sp (foldl run_action g acts) = g_sp g.
Proof. induction acts as [|a acts IH]; intros g; simpl; [done|]. rewrite IH. by destruct a. Qed.

(** Only updates move the time of the last commitment. *)
Lemma exec_time g e g' :
  exec g e = Some g' -> keeps_rate e = true ->
  match e with EvUpdate _ _ _ _ _ => False | _ => True end ->
  last_freq_update_time (g_sp g') = last_freq_update_time (g_sp g) /\
  freq_update_delay_ns (g_sp g') = freq_update_delay_ns (g_sp g).
Proof.
  destruct e; simpl; intros H Hk He; try done; try (by injection H as <-).
  - destruct (g_irq g); by simplify_eq.
  - destruct (g_worker g), (g_queued g); by simplify_eq.
  - destruct (g_worker g); by simplify_eq/=.
Qed.

Lemma commits_spaced es : forall g tr,
  forallb keeps_rate es = true -> commits g es = Some tr ->
  spaced (freq_update_delay_ns (g_sp g)) (last_freq_update_time (g_sp g)) tr.
Proof.
  induction es as [|e es IH]; intros g tr Hk; simpl; [by intros [= <-]|].
  simpl in Hk. apply andb_true_iff in Hk as [He Hk].
  intros (g1 & E & (tr1 & Htr & H)%bind_Some)%bind_Some. specialize (IH g1 tr1 Hk Htr).
  destruct e as [i can rs time flags| | | |lo hi|rate|f];
    try (destruct (exec_time _ _ _ E He I) as [T D]; rewrite T, D in IH; by injection H as <-).
  simpl in E. apply bind_Some in E as ([[s cs] acts] & Hu & E). rewrite Hu in H. simpl in H.
  injection E as <-. rewrite foldl_sp in IH. simpl in IH.
  destruct (update_outcome _ _ _ _ _ _ _ _ _ _ Hu) as (c & r & Hc & Hr & O).
  assert (Fd : update_forced g i rs = forced (g_sp g) c r) by (unfold update_forced; by rewrite Hc, Hr).
  rewrite Fd in H. clear Fd.
  destruct O as [s' D A1 A2 A3 A4|s' acts f D A1 A2 A3 A4|s' a b cap D A1 A2 A3 A4 A5];
    rewrite D in IH.
  - rewrite A1, A3, !Z.eqb_refl in H. simpl in H. injection H as <-. by rewrite A3 in IH.
  - destruct (Z.eqb_spec (last_freq_update_time s') (last_freq_update_time (g_sp g))) as [El|_].
    + simpl in H. destruct (_ || _ || _) in H; injection H as <-; [|by rewrite El in IH].
      rewrite A2 in IH. split; [|done]. destruct A4; [congruence|done].
    + rewrite orb_true_r in H. simpl in H. injection H as <-. rewrite A2 in IH.
      split; [|done]. destruct A4; [congruence|done].
  - rewrite orb_true_r in H. injection H as <-. rewrite A3 in IH.
    split; [|done]. destruct A5; [congruence|done].
Qed.

(** frequency updates respect the rate limit.  In every run without a change of
    the limit, the time between a commitment and the one before it (or the last
    one before the run) is at least the configured delay, unless the policy limits
    changed or a deadline task raised its bandwidth. *)
Theorem updates_rate_limited g es tr :
  forallb keeps_rate es = true -> commits g es = Some tr ->
  spaced (freq_update_delay_ns (g_sp g)) (last_freq_update_time (g_sp g)) tr.
Proof. apply commits_spaced. Qed.

(** ** The frequency cache *)

(** The members of the policy the resolution of a frequency reads. *)
Definition same_limits (p q : cpufreq_policy) : Prop :=
  pmin q = pmin p /\ pmax q = pmax p /\ freq_table q = freq_table p /\
  freq_table_sorted q = freq_table_sorted p /\
  efficiencies_available q = efficiencies_available p.

Definition resolves (p : cpufreq_policy) (raw f : Z) : Prop :=
  exists p', cpufreq_driver_resolve_freq p raw = Some (f, p').

Lemma resolves_same p q raw f : same_limits p q -> resolves p raw f -> resolves q raw f.
Proof.
  destruct p as [lo hi c cl ch t srt eff ci ct], q as [lo' hi' c' cl' ch' t' srt' eff' ci' ct'].
  unfold same_limits, resolves. simpl. intros (-> & -> & -> & -> & ->) [p' H].
  unfold cpufreq_driver_resolve_freq, __resolve_freq in *. simpl in *.
  destruct t as [table|]; [|injection H as <- _; by eexists].
  change (cpufreq_frequency_table_target (mk_policy lo hi c' cl' ch' (Some table) srt eff ci' ct'))
    with (cpufreq_frequency_table_target (mk_policy lo hi c cl ch (Some table) srt eff ci ct)).
  apply bind_Some in H as (idx & -> & (e & He & H)%bind_Some). simpl. rewrite He. simpl.
  injection H as <- _. by eexists.
Qed.

(** The stored frequency is the one the cached raw frequency resolves to, unless an
    update is due that recomputes it. *)
Definition coherent (s : sugov_policy) : Prop :=
  need_freq_update s = true \/ resolves (policy s) (cached_raw_freq s) (next_freq s).
Definition cinv (s : sugov_policy) : Prop := limits_changed s = true \/ coherent s.

Lemma should_coherent can s c r time s1 :
  cinv s -> sugov_should_update_freq can (ignore_dl_rate_limit s c r) time = (true, s1) ->
  coherent s1.
Proof.
  intros C H. destruct (should_spec _ _ _ _ _ _ _ H) as ((Q1 & Q2 & Q3 & Q4 & Q5 & Q6) & _ & Hf).
  destruct Hf as [[_ N]|(F & N & _)]; [by left|].
  unfold forced in F. apply orb_false_iff in F as [L _].
  destruct C as [?|[?|?]]; [congruence|left; congruence|right]. by rewrite Q1, Q2, Q6.
Qed.

Lemma should_stop_cinv can s c r time s1 :
  cinv s -> sugov_should_update_freq can (ignore_dl_rate_limit s c r) time = (false, s1) -> cinv s1.
Proof.
  intros C H. destruct (should_spec _ _ _ _ _ _ _ H) as ((Q1 & Q2 & Q3 & Q4 & Q5 & Q6) & L & N).
  unfold cinv, coherent. rewrite L, N, Q1, Q2, Q6. unfold forced.
  destruct C as [-> |[C|C]]; auto.
Qed.

Lemma get_next_resolves s u max f s' :
  coherent s -> get_next_freq s u max = Some (f, s') ->
  resolves (policy s) (raw_freq s u max) f /\ same_limits (policy s) (policy s') /\
  cached_raw_freq s' = raw_freq s u max.
Proof.
  unfold get_next_freq. intros C.
  destruct (Z.eqb_spec (raw_freq s u max) (cached_raw_freq s)) as [E|E]; simpl.
  - destruct (need_freq_update s) eqn:N; simpl.
    + intros ([f1 p1] & H & E1)%bind_Some. injection E1 as <- <-. split_and!; [by exists p1| |done].
      unfold cpufreq_driver_resolve_freq, __resolve_freq in H.
      destruct (freq_table (policy s)); [|by simplify_eq/=].
      apply bind_Some in H as (idx & _ & (e & _ & H)%bind_Some). by injection H as _ <-.
    + intros [= <- <-]. destruct C as [?|C]; [congruence|]. by rewrite E.
  - intros ([f1 p1] & H & E1)%bind_Some. injection E1 as <- <-. split_and!; [by exists p1| |done].
    unfold cpufreq_driver_resolve_freq, __resolve_freq in H. simpl in H.
    destruct (freq_table (policy s)); [|by simplify_eq/=].
    apply bind_Some in H as (idx & _ & (e & _ & H)%bind_Some). by injection H as _ <-.
Qed.

Lemma finish_cinv s2 time f s' acts :
  resolves (policy s2) (cached_raw_freq s2) f -> finish s2 time f = (s', acts) -> cinv s'.
Proof.
  intros R. unfold finish, sugov_update_next_freq, commit, sugov_deferred_update.
  intros H. right. right.
  destruct (need_freq_update s2); [|destruct (Z.eqb_spec (next_freq s2) f) as [<-|]]; simpl in H;
    repeat case_match; by simplify_eq/=.
Qed.

Lemma single_freq_cinv can s c r time flags s' c' acts :
  cinv s -> sugov_update_single_freq can s c r time flags = Some (s', c', acts) -> cinv s'.
Proof.
  intros C. unfold sugov_update_single_freq, sugov_update_single_common. intros H.
  set (c1 := sc_last (sugov_iowait_boost c time flags) time) in *. clearbody c1.
  destruct (sugov_should_update_freq can (ignore_dl_rate_limit s c1 r) time) as [go s1] eqn:E.
  destruct go; simpl in H; [|injection H as <- <- <-; by eapply should_stop_cinv].
  apply bind_Some in H as ([f s2] & Hg & H).
  pose proof (should_coherent _ _ _ _ _ _ C E) as C1.
  destruct (get_next_resolves _ _ _ _ _ C1 Hg) as (G1 & G2 & G3).
  destruct (get_next_fields _ _ _ _ _ Hg) as (F1 & _ & _ & _ & F5 & _).
  destruct (should_spec _ _ _ _ _ _ _ E) as ((Q1 & Q2 & Q3 & Q4 & Q5 & Q6) & _).
  destruct (keep_speed _ r) as [busy c2]. set (keep := busy && _ && _) in H.
  set (s3 := if keep then sp_cached s2 (cached_raw_freq s) else s2) in *.
  set (f3 := if keep then next_freq s3 else f) in *.
  assert (R3 : resolves (policy s3) (cached_raw_freq s3) f3).
  { unfold f3, s3. destruct keep eqn:K; simpl.
    - unfold keep in K. apply andb_true_iff in K as [_ K]. apply negb_true_iff in K.
      apply (resolves_same _ _ _ _ G2). rewrite F1, <- Q6. destruct C1; [congruence|done].
    - rewrite G3. by apply (resolves_same _ _ _ _ G2). }
  clearbody s3 f3. apply (finish_cinv s3 time f3 s' acts R3). unfold finish.
  destruct (sugov_update_next_freq _ _ _) as [changed s4]. destruct changed; simpl in *; [|congruence].
  destruct (commit s4 _) as [s5 acts5]. by simplify_eq.
Qed.

Lemma single_perf_cinv can s c r time flags s' c' acts :
  cinv s -> sugov_update_single_perf can s c r time flags = Some (s', c', acts) -> cinv s'.
Proof.
  intros C. unfold sugov_update_single_perf.
  destruct freq_invariant; simpl; [|by apply single_freq_cinv].
  unfold sugov_update_single_common. intros H.
  set (c1 := sc_last (sugov_iowait_boost c time flags) time) in *. clearbody c1.
  destruct (sugov_should_update_freq can (ignore_dl_rate_limit s c1 r) time) as [go s1] eqn:E.
  destruct go; simpl in H; [|injection H as <- <- <-; by eapply should_stop_cinv].
  destruct (keep_speed _ r) as [busy c2]. injection H as <- <- <-.
  right. apply (should_coherent _ _ _ _ _ _ C E).
Qed.

Lemma shared_cinv can s cs rs i time flags s' cs' acts :
  cinv s -> sugov_update_shared can s cs rs i time flags = Some (s', cs', acts) -> cinv s'.
Proof.
  intros C. unfold sugov_update_shared. intros (c & Hc & (r & Hr & H)%bind_Some)%bind_Some.
  set (c1 := sc_last (sugov_iowait_boost c time flags) time) in *. clearbody c1.
  destruct (sugov_should_update_freq can (ignore_dl_rate_limit s c1 r) time) as [go s1] eqn:E.
  destruct go; simpl in H; [|injection H as <- <- <-; by eapply should_stop_cinv].
  apply bind_Some in H as ([[f s2] cs2] & Hg & H).
  pose proof (should_coherent _ _ _ _ _ _ C E) as C1.
  unfold sugov_next_freq_shared in Hg. apply bind_Some in Hg as (r1 & _ & Hg).
  destruct (shared_util _ _ _ _ _) as [cs3 u].
  apply bind_Some in Hg as ([f3 s3] & Hg & E3). simplify_eq.
  destruct (get_next_resolves _ _ _ _ _ C1 Hg) as (G1 & G2 & G3).
  apply (finish_cinv s2 time f s' acts); [rewrite G3; by apply (resolves_same _ _ _ _ G2)|].
  unfold finish. destruct (sugov_update_next_freq _ _ _) as [changed s4].
  destruct changed; simpl in *; [|congruence]. destruct (commit s4 _) as [s5 acts5]. by simplify_eq.
Qed.

Lemma cinv_exec g e g' : cinv (g_sp g) -> exec g e = Some g' -> cinv (g_sp g').
Proof.
  intros C. destruct e as [i can rs time flags| | | |lo hi|rate|f]; simpl.
  - intros ([[s cs] acts] & H & E)%bind_Some. injection E as <-. rewrite foldl_sp. simpl.
    unfold sugov_update in H. destruct uu; [by eapply shared_cinv| |];
      apply bind_Some in H as (c & _ & (r & _ & ([[s1 c1] a1] & H & E)%bind_Some)%bind_Some);
      simplify_eq; [by eapply single_perf_cinv|by eapply single_freq_cinv].
  - destruct (g_irq g); by intros [= <-].
  - destruct (g_worker g), (g_queued g); by intros [= <-].
  - destruct (g_worker g); by intros [= <-].
  - intros [= <-]. by left.
  - by intros [= <-].
  - intros [= <-]. destruct C as [?|[?|C]]; [by left|by right; left|right; right]. simpl.
    revert C. by apply resolves_same.
Qed.

Lemma reach_cinv g : reach g -> cinv (g_sp g).
Proof.
  induction 1 as [s0 rate cs0 s cs s' target Hs Hl|g e g' _ IH E]; [|by eapply cinv_exec].
  injection Hl as <- <-. by left.
Qed.

(** the frequency cache is transparent.  Whenever a reachable governor decides to
    update, the frequency it picks for a utilization is the one the driver
    interface resolves the raw frequency to under the current limits, whether or
    not the cache was hit. *)
Theorem frequency_cache_transparent g can c r time s u max f s' (R : reach g) :
  sugov_should_update_freq can (ignore_dl_rate_limit (g_sp g) c r) time = (true, s) ->
  get_next_freq s u max = Some (f, s') ->
  resolves (policy (g_sp g)) (raw_freq (g_sp g) u max) f.
Proof.
  intros H Hg. pose proof (should_coherent _ _ _ _ _ _ (reach_cinv g R) H) as C.
  destruct (get_next_resolves _ _ _ _ _ C Hg) as (G & _).
  destruct (should_spec _ _ _ _ _ _ _ H) as ((Q1 & _) & _).
  unfold raw_freq in *. by rewrite Q1 in G.
Qed.

(** ** The IO boost *)

(** One update of a CPU that is not rate limited, as far as the boost goes. *)
Definition boost_round (request : bool) (c : sugov_cpu) (r : cpu_rq) (time max_cap : Z)
  : sugov_cpu :=
  let c := sugov_iowait_boost c time (if request then SCHED_CPUFREQ_IOWAIT else 0) in
  let c := sc_last c time in
  sugov_iowait_apply c r time max_cap.

Definition boost_level (b : Z) : Prop := b = 0 \/ b = 128 \/ b = 256 \/ b = 512 \/ b = 1024.

Definition next_level (request idle : bool) (b : Z) : Z :=
  if request then if (b =? 0) || idle then IOWAIT_BOOST_MIN else Z.min (2 * b) SCHED_CAPACITY_SCALE
  else if idle then 0 else if b / 2 <? IOWAIT_BOOST_MIN then 0 else b / 2.

Context (HT : 0 <= TICK_NSEC).

Lemma reset_same_time c time set : last_update c = time -> sugov_iowait_reset c time set = (false, c).
Proof.
  intros H. unfold sugov_iowait_reset. rewrite H, Z.sub_diag. change (s64 0) with 0.
  by destruct (Z.leb_spec 0 TICK_NSEC); [|lia].
Qed.

Lemma boost_round_spec request c r time max_cap :
  boost_level (iowait_boost c) -> iowait_boost_pending c = false ->
  let idle := TICK_NSEC <? s64 (time - last_update c) in
  let c' := boost_round request c r time max_cap in
  iowait_boost c' = next_level request idle (iowait_boost c) /\
  iowait_boost_pending c' = false /\ last_update c' = time.
Proof.
  intros L P idle c'. unfold c', boost_round.
  set (c1 := sc_last (sugov_iowait_boost c time _) time).
  assert (E1 : iowait_boost c1 = (if request
    then if (iowait_boost c =? 0) || idle then 128 else Z.min (2 * iowait_boost c) 1024
    else if idle then 0 else iowait_boost c) /\
    (iowait_boost_pending c1 = request) /\ last_update c1 = time).
  { unfold c1, sugov_iowait_boost, sugov_iowait_reset. unfold idle.
    rewrite Z.leb_antisym. destruct (TICK_NSEC <? s64 (time - last_update c)), request; simpl;
      unfold boost_level in L; destruct L as [L|[L|[L|[L|L]]]]; rewrite ?L; simpl; rewrite ?P, ?L; done. }
  destruct E1 as (E1 & E2 & E3). clearbody c1. unfold sugov_iowait_apply, next_level.
  rewrite (reset_same_time c1 time false E3), E2.
  change IOWAIT_BOOST_MIN with 128. change SCHED_CAPACITY_SCALE with 1024.
  destruct request, idle; simpl in *; unfold boost_level in L;
    destruct L as [L|[L|[L|[L|L]]]]; rewrite ?L in E1 |- *; simpl in E1; rewrite ?E1; simpl;
    try (destruct (_ <? _); simpl); split_and!; try done; congruence.
Qed.

Fixpoint rounds (request : bool) (c : sugov_cpu) (r : cpu_rq) (max_cap : Z) (ts : list Z) : sugov_cpu :=
  match ts with
  | [] => c
  | t :: ts => rounds request (boost_round request c r t max_cap) r max_cap ts
  end.

(** Each time is at most a tick after the one before. *)
Fixpoint within_ticks (last : Z) (ts : list Z) : Prop :=
  match ts with
  | [] => True
  | t :: ts => s64 (t - last) <= TICK_NSEC /\ within_ticks t ts
  end.

Lemma requests_level ts : forall c r max_cap k,
  iowait_boost_pending c = false -> (k <= 3)%nat -> iowait_boost c = 128 * 2 ^ Z.of_nat k ->
  within_ticks (last_update c) ts ->
  iowait_boost (rounds true c r max_cap ts) = 128 * 2 ^ Z.of_nat (Nat.min 3 (k + length ts)) /\
  iowait_boost_pending (rounds true c r max_cap ts) = false.
Proof.
  induction ts as [|t ts IH]; intros c r max_cap k P Hk Hb W; cbn [rounds].
  { split_and!; try done. cbn [length]. by rewrite Nat.add_0_r, Nat.min_r. }
  destruct W as [W1 W2].
  assert (L : boost_level (iowait_boost c)).
  { rewrite Hb. unfold boost_level. destruct k as [|[|[|[|k]]]]; simpl; lia. }
  destruct (boost_round_spec true c r t max_cap L P) as (B1 & B2 & B3).
  set (c1 := boost_round true c r t max_cap) in *. clearbody c1.
  destruct (IH c1 r max_cap (Nat.min 3 (S k))) as (I1 & I2); try done; [lia| |by rewrite B3|].
  { rewrite B1. unfold next_level. destruct (Z.ltb_spec TICK_NSEC (s64 (t - last_update c))); [lia|].
    rewrite Hb. by destruct k as [|[|[|[|k]]]]; [| | | |lia]. }
  rewrite I1. split; [|done]. do 3 f_equal. cbn [length]. lia.
Qed.

Lemma quiet_rounds c r max_cap t1 t2 t3 t4 :
  boost_level (iowait_boost c) -> iowait_boost_pending c = false ->
  iowait_boost (rounds false c r max_cap [t1; t2; t3; t4]) = 0.
Proof.
  assert (K : forall c t, boost_level (iowait_boost c) -> iowait_boost_pending c = false ->
    boost_level (iowait_boost (boost_round false c r t max_cap)) /\
    iowait_boost (boost_round false c r t max_cap) <= iowait_boost c / 2 /\
    (iowait_boost c <= 128 -> iowait_boost (boost_round false c r t max_cap) = 0) /\
    iowait_boost_pending (boost_round false c r t max_cap) = false).
  { clear c. intros c t L P. destruct (boost_round_spec false c r t max_cap L P) as (-> & -> & _).
    unfold next_level, boost_level in *. change IOWAIT_BOOST_MIN with 128.
    destruct (TICK_NSEC <? _), L as [L|[L|[L|[L|L]]]]; rewrite L;
      change (256 / 2) with 128; change (512 / 2) with 256; change (1024 / 2) with 512;
      simpl; split_and!; try lia; done. }
  intros L P. cbn [rounds].
  destruct (K c t1 L P) as (L1 & B1 & _ & P1). destruct (K _ t2 L1 P1) as (L2 & B2 & _ & P2).
  destruct (K _ t3 L2 P2) as (L3 & B3 & _ & P3). destruct (K _ t4 L3 P3) as (_ & _ & Z4 & _).
  apply Z4. clear Z4 HT.
  assert (iowait_boost c <= 1024) by (unfold boost_level in L; lia).
  repeat match goal with H : ?x <= ?y / 2 |- _ =>
    pose proof (Z.mul_div_le y 2 ltac:(lia)); revert H end.
  intros. lia.
Qed.

(** the IO boost doubles from 128 with every request that follows the one before
    within a tick, up to 1024, and four updates without a request, whatever their
    times, take it back to zero. *)
Theorem iowait_boost_evolution c r max_cap t ts t1 t2 t3 t4 :
  iowait_boost c = 0 -> iowait_boost_pending c = false -> within_ticks t ts ->
  let c1 := rounds true c r max_cap (t :: ts) in
  iowait_boost c1 = 128 * 2 ^ Z.of_nat (Nat.min 3 (length ts)) /\
  iowait_boost (rounds false c1 r max_cap [t1; t2; t3; t4]) = 0.
Proof.
  intros B P W c1.
  destruct (boost_round_spec true c r t max_cap) as (R1 & R2 & R3); [by left|done|].
  rewrite B in R1. simpl in R1.
  destruct (requests_level ts (boost_round true c r t max_cap) r max_cap 0) as (Q1 & Q2);
    try done; [lia|by rewrite R3|].
  split; [exact Q1|]. apply quiet_rounds; [|done]. unfold c1. cbn [rounds]. rewrite Q1.
  unfold boost_level. destruct (Nat.min 3 (0 + length ts)) as [|[|[|[|k]]]] eqn:E; simpl; lia.
Qed.

End Governor.

(** ** Utilization *)

Section Util.
Context (used : bool) (r : cpu_rq) (eff : option (Z * Z)).

(** Ranges of the quantities a run queue reports; none of the sums wraps. *)
Record rq_ranges : Prop := mk_ranges {
  rr_cap : 0 < capacity r <= 1048576;
  rr_rt : 0 <= util_rt r <= 1048576;
  rr_dl : 0 <= util_dl r <= 1048576;
  rr_irq : 0 <= util_irq r <= 1048576;
  rr_bw : 0 <= running_bw r <= 1099511627776;
  rr_uclamp : forall id, 0 <= uclamp_rq_get (rq_uclamp r) id <= SCHED_CAPACITY_SCALE;
  rr_eff : forall lo hi, eff = Some (lo, hi) ->
    0 <= lo <= SCHED_CAPACITY_SCALE /\ 0 <= hi <= SCHED_CAPACITY_SCALE
}.

Context (HR : rq_ranges).

(** The clamps as one pair. *)
Lemma util_with_shape :
  exists lo hi, 0 <= lo <= SCHED_CAPACITY_SCALE /\ 0 <= hi <= SCHED_CAPACITY_SCALE /\
    forall u, uclamp_rq_util_with used (rq_uclamp r) u eff =
      if negb used then u else if hi <=? lo then lo else clamp u lo hi.
Proof.
  pose proof (rr_uclamp HR UCLAMP_MIN). pose proof (rr_uclamp HR UCLAMP_MAX).
  unfold uclamp_rq_util_with. destruct eff as [[lo hi]|] eqn:E.
  - destruct (rr_eff HR lo hi E). destruct (uclamp_rq_is_idle (rq_uclamp r)).
    + by exists lo, hi.
    + eexists _, _. split; [|split; [|reflexivity]]; lia.
  - eexists _, _. split; [|split; [|reflexivity]]; lia.
Qed.

Lemma util_with_mono u v :
  0 <= u <= v -> v <= 4194304 ->
  0 <= uclamp_rq_util_with used (rq_uclamp r) u eff <=
       uclamp_rq_util_with used (rq_uclamp r) v eff /\
  uclamp_rq_util_with used (rq_uclamp r) v eff <= 4194304.
Proof.
  intros H1 H2. destruct util_with_shape as (lo & hi & L & Hi & E). rewrite !E.
  unfold SCHED_CAPACITY_SCALE in *. unfold clamp. destruct used; simpl; [|lia].
  repeat case_match; zcase; lia.
Qed.

Lemma bw_dl_range : 0 <= cpu_bw_dl r <= 1073741824.
Proof.
  pose proof (rr_bw HR). unfold cpu_bw_dl, SCHED_CAPACITY_SCALE, BW_SHIFT.
  rewrite u64_small by lia. rewrite Z.shiftr_div_pow2 by lia. change (2 ^ 20) with 1048576.
  split; [apply Z.div_pos; lia|]. apply Z.div_le_upper_bound; lia.
Qed.

(** The unsaturated value, without the wrap-around of the sums. *)
Definition unsaturated (type : cpu_util_type) (u : Z) : Z :=
  let u := if is_frequency type then uclamp_rq_util_with used (rq_uclamp r) (u + util_rt r) eff
           else u + util_rt r + util_dl r in
  u * (capacity r - util_irq r) / capacity r + util_irq r +
  (if is_frequency type then cpu_bw_dl r else 0).

Definition saturated (type : cpu_util_type) (u : Z) : bool :=
  negb used && is_frequency type && rt_runnable r || (capacity r <=? util_irq r) ||
  (capacity r <=? (if is_frequency type then uclamp_rq_util_with used (rq_uclamp r) (u + util_rt r) eff
                   else u + util_rt r) + util_dl r).

Lemma effective_eq type u :
  0 <= u <= 2097152 ->
  effective_cpu_util used r u type eff =
  if saturated type u then capacity r else Z.min (capacity r) (unsaturated type u).
Proof.
  intros Hu. destruct HR as [Hcap Hrt Hdl Hirq _ _ _]. pose proof bw_dl_range as Hbw.
  destruct (util_with_mono (u + util_rt r) (u + util_rt r)) as [Hw1 Hw2]; [lia|lia|].
  unfold effective_cpu_util, saturated, unsaturated. rewrite (u64_small (u + util_rt r)) by lia.
  destruct (negb used && is_frequency type && rt_runnable r); simpl orb; [done|].
  destruct (Z.leb_spec (capacity r) (util_irq r)); simpl orb; [done|].
  set (w := if is_frequency type then uclamp_rq_util_with _ _ _ _ else u + util_rt r).
  assert (Hw : 0 <= w <= 4194304) by (unfold w; destruct (is_frequency type); lia).
  rewrite (u64_small (w + util_dl r)) by lia.
  destruct (Z.leb_spec (capacity r) (w + util_dl r)); [done|]. unfold scale_irq_capacity.
  assert (S : forall x, 0 <= x <= 8388608 ->
    0 <= x * (capacity r - util_irq r) / capacity r <= x /\
    u64 (x * (capacity r - util_irq r)) = x * (capacity r - util_irq r)).
  { intros x Hx. split; [split; [apply Z.div_pos; nia|apply Z.div_le_upper_bound; nia]|].
    apply u64_small. nia. }
  destruct (is_frequency type); subst w.
  - destruct (S (uclamp_rq_util_with used (rq_uclamp r) (u + util_rt r) eff)) as [S1 ->]; [lia|].
    rewrite (u64_small (_ / _ + _)) by lia. by rewrite u64_small by lia.
  - destruct (S (u + util_rt r + util_dl r)) as [S1 ->]; [lia|].
    rewrite u64_small by lia. by rewrite Z.add_0_r.
Qed.

Lemma unsaturated_mono type u v :
  0 <= u <= v -> v <= 2097152 -> util_irq r < capacity r -> unsaturated type u <= unsaturated type v.
Proof.
  intros H1 H2 H3. destruct HR as [Hcap Hrt Hdl Hirq _ _ _].
  destruct (util_with_mono (u + util_rt r) (v + util_rt r)) as [[? Hw] _]; [lia|lia|].
  unfold unsaturated. apply Z.add_le_mono_r, Z.add_le_mono_r, Z.div_le_mono; [lia|].
  apply Z.mul_le_mono_nonneg_r; [lia|]. destruct (is_frequency type); lia.
Qed.

Lemma saturated_mono type u v :
  0 <= u <= v -> v <= 2097152 -> saturated type u = true -> saturated type v = true.
Proof.
  intros H1 H2. pose proof (rr_rt HR).
  destruct (util_with_mono (u + util_rt r) (v + util_rt r)) as [[? Hw] _]; [lia|lia|].
  unfold saturated. destruct (negb used && _ && _); simpl; [done|].
  destruct (capacity r <=? util_irq r); simpl; [done|].
  intros Hs. apply Z.leb_le in Hs. apply Z.leb_le. destruct (is_frequency type); lia.
Qed.

(** the effective utilization of a CPU never exceeds its capacity, never drops when
    the fair utilization grows, and grants what must be granted: the time taken by
    interrupts and, for frequency selection, the bandwidth of deadline tasks, up to
    the capacity. *)
Theorem effective_util_sound type u v :
  0 <= u <= v -> v <= 2097152 ->
  let util x := effective_cpu_util used r x type eff in
  0 <= util u <= util v /\ util v <= capacity r /\
  Z.min (capacity r) (util_irq r) <= util u /\
  (type = FREQUENCY_UTIL -> Z.min (capacity r) (cpu_bw_dl r) <= util u).
Proof.
  intros H1 H2 util. unfold util. rewrite !effective_eq by lia.
  destruct HR as [Hcap Hrt Hdl Hirq _ _ _]. pose proof bw_dl_range as Hbw.
  pose proof (saturated_mono type u v H1 H2) as Hs.
  destruct (saturated type u) eqn:Su; [rewrite (Hs eq_refl); split_and!; intros; lia|].
  assert (Hi : util_irq r < capacity r).
  { unfold saturated in Su. apply orb_false_iff in Su as [Su _].
    apply orb_false_iff in Su as [_ Su]. by apply Z.leb_gt. }
  pose proof (unsaturated_mono type u v H1 H2 Hi) as Hm.
  assert (Hlow : util_irq r <= unsaturated type u /\
    (type = FREQUENCY_UTIL -> cpu_bw_dl r <= unsaturated type u)).
  { destruct (util_with_mono (u + util_rt r) (u + util_rt r)) as [[? _] _]; [lia|lia|].
    unfold unsaturated.
    assert (0 <= (if is_frequency type then uclamp_rq_util_with used (rq_uclamp r) (u + util_rt r) eff
      else u + util_rt r + util_dl r) * (capacity r - util_irq r) / capacity r).
    { apply Z.div_pos; [|lia]. apply Z.mul_nonneg_nonneg; [|lia]. destruct (is_frequency type); lia. }
    split; [destruct (is_frequency type); lia|]. intros ->. simpl in *. lia. }
  destruct Hlow as [L1 L2]. destruct (saturated type v); split_and!; try lia; intros E;
    specialize (L2 E); lia.
Qed.

End Util.

(** the frequency asked for is proportional to the utilization with a quarter of
    headroom: at 80 percent of the capacity or more it is at least the reference
    frequency, and it never exceeds five quarters of it. *)
Theorem frequency_tipping_point (inv : bool) s u max :
  let ref := if inv then cpuinfo_max_freq (policy s) else cur (policy s) in
  0 < max <= 1048576 -> 0 <= u <= max -> 0 <= ref <= two31 ->
  (4 * max <= 5 * u -> ref <= raw_freq inv s u max) /\
  4 * raw_freq inv s u max <= 5 * ref /\
  (forall v, u <= v <= max -> raw_freq inv s u max <= raw_freq inv s v max).
Proof.
  intros ref Hm Hu Hr.
  assert (P : forall w, 0 <= w <= max -> map_util_perf w = w + w / 4 /\ 4 * (w + w / 4) <= 5 * w).
  { intros w Hw. unfold map_util_perf. rewrite Z.shiftr_div_pow2 by lia. change (2 ^ 2) with 4.
    pose proof (Z.mul_div_le w 4 ltac:(lia)). pose proof (Z.div_pos w 4 ltac:(lia) ltac:(lia)).
    rewrite u64_small by lia. lia. }
  assert (F : forall w, 0 <= w <= max -> raw_freq inv s w max = ref * (w + w / 4) / max /\
    4 * (ref * (w + w / 4) / max) <= 5 * ref).
  { intros w Hw. destruct (P w Hw) as [E1 E2]. pose proof (Z.div_pos w 4 ltac:(lia) ltac:(lia)).
    assert (B : 4 * (ref * (w + w / 4) / max) <= 5 * ref).
    { pose proof (Z.mul_div_le (ref * (w + w / 4)) max ltac:(lia)). nia. }
    assert (0 <= ref * (w + w / 4) / max) by (apply Z.div_pos; nia).
    unfold raw_freq, map_util_freq. fold ref. rewrite E1, u64_small by nia.
    rewrite u32_small by lia. done. }
  destruct (F u Hu) as [-> B]. split_and!; [|done|].
  - intros H. apply Z.div_le_lower_bound; [lia|]. destruct (P u Hu) as [_ _].
    assert (max <= u + u / 4) by (pose proof (Z.div_mod u 4); pose proof (Z.mod_pos_bound u 4); lia).
    nia.
  - intros v Hv. destruct (F v ltac:(lia)) as [-> _]. apply Z.div_le_mono; [lia|].
    apply Z.mul_le_mono_nonneg_l; [lia|]. pose proof (Z.div_le_mono u v 4). lia.
Qed.

(** ** A concrete policy *)

(** Two CPUs sharing a policy between 100 and 300 MHz, switched by the thread. *)
Definition demo_rq (u : Z) : cpu_rq :=
  mk_cpu_rq 1024 u u 0 0 0 0 false (init_uclamp_rq 5) 0.

Definition demo_cpu : sugov_cpu := mk_sc false 0 0 0 0 0.

Definition demo_sp : sugov_policy :=
  mk_sp (mk_policy 100000 300000 100000 100000 300000 None CPUFREQ_TABLE_UNSORTED false 0 0)
    0 0 0 0 false false false.

Definition demo_started : sugov_policy := fst (sugov_start false demo_sp 1000 [demo_cpu; demo_cpu]).

Definition demo_start : gov :=
  mk_gov (fst (sugov_limits false demo_started)) [demo_cpu; demo_cpu] false false None
    (default 0 (snd (sugov_limits false demo_started))).

Definition demo_event : event := EvUpdate 0 true [demo_rq 512; demo_rq 100] 5000000 0.
Definition demo_gov : gov := default demo_start (exec true false false false 4000000 true false demo_start demo_event).

Lemma demo_start_reach : reach true false false false 4000000 true false demo_start.
Proof. by apply (reach_init _ _ _ _ _ _ _ demo_sp 1000 [demo_cpu; demo_cpu] demo_started). Qed.

Lemma demo_gov_reach : reach true false false false 4000000 true false demo_gov.
Proof. apply (reach_step _ _ _ _ _ _ _ demo_start demo_event); [apply demo_start_reach|reflexivity]. Qed.

Lemma deferred_update_not_lost_witness :
  next_freq (g_sp demo_gov) = 187500 /\ g_hw demo_gov = 0 /\
  g_hw (settle true false false false 4000000 true false demo_gov) = 187500.
Proof.
  split; [vm_compute; reflexivity|]. split; [vm_compute; reflexivity|].
  destruct (deferred_update_not_lost true false false false 4000000 true false demo_gov demo_gov_reach)
    as (_ & _ & _ & H & _).
  rewrite H; vm_compute; reflexivity.
Defined.

Definition demo_trace : list event :=
  [demo_event; EvUpdate 1 true [demo_rq 600; demo_rq 100] 5500000 0;
   EvUpdate 1 true [demo_rq 600; demo_rq 100] 6000000 0].

Lemma updates_rate_limited_witness :
  spaced 1000000 0 [(5000000, true); (6000000, false)].
Proof.
  apply (updates_rate_limited true false false false 4000000 true false demo_start demo_trace
    [(5000000, true); (6000000, false)]); vm_compute; reflexivity.
Defined.

Definition demo_due : sugov_policy :=
  snd (sugov_should_update_freq true (ignore_dl_rate_limit (g_sp demo_gov) demo_cpu (demo_rq 0)) 7000000).

Lemma frequency_cache_transparent_witness :
  get_next_freq true demo_due 512 1024 = Some (187500, demo_due) /\
  resolves (policy (g_sp demo_gov)) (raw_freq true (g_sp demo_gov) 512 1024) 187500.
Proof.
  assert (H1 : sugov_should_update_freq true (ignore_dl_rate_limit (g_sp demo_gov) demo_cpu (demo_rq 0))
    7000000 = (true, demo_due)) by (vm_compute; reflexivity).
  assert (H2 : get_next_freq true demo_due 512 1024 = Some (187500, demo_due))
    by (vm_compute; reflexivity).
  split; [exact H2|].
  exact (frequency_cache_transparent true false false false 4000000 true false demo_gov true demo_cpu
    (demo_rq 0) 7000000 demo_due 512 1024 187500 demo_due demo_gov_reach H1 H2).
Defined.

Lemma iowait_boost_evolution_witness :
  iowait_boost (rounds false 4000000 true demo_cpu (demo_rq 100) 1024 [1000; 2000; 3000]) = 512.
Proof.
  destruct (iowait_boost_evolution false 4000000 ltac:(lia) demo_cpu (demo_rq 100) 1024 1000
    [2000; 3000] 4000 5000 6000 7000 eq_refl eq_refl) as [H _].
  - cbn [within_ticks]. split; [vm_compute; discriminate|]. split; [vm_compute; discriminate|exact I].
  - rewrite H. reflexivity.
Defined.

Lemma effective_util_sound_witness :
  effective_cpu_util true (demo_rq 0) 300 FREQUENCY_UTIL None <= 1024.
Proof.
  destruct (effective_util_sound true (demo_rq 0) None) with (type := FREQUENCY_UTIL) (u := 300) (v := 300)
    as (_ & H & _); [|lia|lia|exact H].
  split; simpl; try lia; [|discriminate].
  intros []; vm_compute; split; discriminate.
Defined.

Lemma frequency_tipping_point_witness : 300000 <= raw_freq true demo_sp 820 1024.
Proof. apply (frequency_tipping_point true demo_sp 820 1024); simpl; lia. Defined.

End Schedutil.
